(* ===== verification/_CoqProject ===== *)
-Q . S2P
Prelude.v
Types.v
TypeTrace.v
Trap.v
Module.v
ModuleTypes.v
TypeRegistry.v
TypeRegistryInv.v
TypeRegistryUse.v
TypeRegistryClient.v
VMVal.v
ConstEval.v
ModuleTranslator.v
ModuleTranslatorTypes.v
ModuleTranslatorInv.v
ModuleTranslatorSpec.v
ModuleTranslatorImports.v
VMOffsets.v
Mmap.v
RtMemory.v
VMHeap.v
BTree.v
Code.v
CodeLink.v
CodeRegistry.v
Instance.v
ModuleLoad.v
InstanceInit.v
Store.v
TrapHandling.v
TrapHandlingSpec.v
Call.v
CallSpec.v
LinkerSpec.v
StoreSpec.v
HeapAccess.v
Clif.v
ClifLaws.v
FuncState.v
WasmOp.v
FuncEnv.v
CodeTranslator.v
CodeTranslatorCtl.v
CodeTranslatorOps.v
FuncTranslator.v
Compiler.v
WasmTyping.v
WasmSem.v
FuncValid.v
CtlEnv.v
OpTyping.v
CtlInv.v
CtlSim.v
CtlSteps.v
CtlDead.v
CtlLive.v
CtlBranch.v
CtlTable.v
CtlBlocks.v
CtlEnds.v
CtlOps.v
CtlModule.v
CtlMemory.v
CtlStep.v
CtlFunction.v
RecBuilder.v
RecBuilderLaws.v
ClifMachine.v
SemOps.v
SemBuild.v
SemEffects.v
SemSim.v
SemCode.v
SemBlocks.v
Trampoline.v
TrampolineSpec.v
FunctionSpec.v
SemFunction.v
CompilerSpec.v
Sandbox.v
