(* ===== verification/Prelude.v ===== *)
(** * A verification development for k23VM

    k23VM is a WebAssembly virtual machine: it translates a wasm module into
    descriptors and function bodies, compiles the bodies with Cranelift, links
    them into executable memory, and instantiates modules into contexts
    ([VMContext]) that compiled code and the host share.  This library models
    the parts of the crate that carry its correctness argument as executable
    Rocq definitions, and proves what each part promises to the others.

    ** How the program is put together

    - [src/src/translate/] turns a module into a [TranslatedModule]: types,
      imports, tables, memories, globals, initializers;
    - [src/src/type_registry.rs] deduplicates types across modules by
      canonicalizing every reference inside a recursion group;
    - [src/src/cranelift/] emits the code of function bodies: [func_translator.rs]
      reads a body operator by operator, [code_translator.rs] translates each
      operator over the stacks of [state.rs], asking [env.rs] about the module; the
      addresses of linear memories and tables are computed in [memory.rs] and
      [mod.rs]; [compiler.rs] drives this with a pool of contexts and emits the
      trampolines between the host's calling convention and wasm's;
    - [src/src/compile/] collects compilation outputs, links them into one text
      and records where each function and each trap sits;
    - [src/src/runtime/] lays out the [VMContext] ([vmoffsets.rs]), maps memory
      ([mmap_vec.rs], [memory.rs], [table.rs]), allocates instances, evaluates
      constant expressions and publishes code;
    - [src/src/func.rs] calls wasm functions from the host; traps and signals come
      back through [src/src/placeholder/trap_handling/];
    - the rest of [src/src/placeholder/] binds all that to the host operating
      system.

    ** Files

    - [Prelude.v]: outcomes (value, error, panic), the state-outcome monad,
      machine integers, entity maps, the hint database and the tactics;
    - [Types.v], [TypeTrace.v]: [indices.rs], [translate/types.rs] and the trait
      [TypeTrace] of [type_registry.rs]: the type language, its traversals and
      the two canonicalizations;
    - [Trap.v]: [trap.rs] and the trap codes;
    - [Module.v]: the descriptors and index spaces of [translate/mod.rs], the
      limits of [lib.rs], the error enum;
    - [ModuleTypes.v]: [translate/module_types.rs] and
      [translate/type_convert.rs], the interning of a module's types;
    - [TypeRegistry.v] (definitions), [TypeRegistryInv.v], [TypeRegistryUse.v],
      [TypeRegistryClient.v] (theorems): the engine-wide registry of
      [type_registry.rs], its reference counts, its clients;
    - [VMVal.v]: values, untyped value slots and globals ([values.rs],
      [runtime/vmcontext.rs]) as little-endian bytes;
    - [ConstEval.v]: [translate/const_expr.rs] and [runtime/const_eval.rs];
    - [ModuleTranslator.v] (definitions), [ModuleTranslatorTypes.v],
      [ModuleTranslatorInv.v], [ModuleTranslatorSpec.v],
      [ModuleTranslatorImports.v] (theorems): the section visitors and the driver
      of [translate/module_translator.rs];
    - [VMOffsets.v]: [runtime/vmoffsets.rs];
    - [Mmap.v]: [placeholder/mmap.rs], [runtime/mmap_vec.rs], page rounding;
    - [RtMemory.v]: [runtime/memory.rs], [runtime/table.rs] and the allocators;
    - [BTree.v]: the standard library's [BTreeMap] and [binary_search_by_key];
    - [Code.v] (definitions), [CodeLink.v], [CodeRegistry.v] (theorems):
      [compile/], [runtime/code_memory.rs], [placeholder/code_registry.rs];
    - [VMHeap.v]: raw memory and the structures of [runtime/vmcontext.rs] stored
      in it;
    - [Instance.v] (definitions), [InstanceInit.v] (theorems):
      [runtime/instance.rs], filling the context, tables and memories of a new
      instance;
    - [ModuleLoad.v]: [Module::from_bytes] of [module.rs], the composition of
      translation, compilation, linking, type registration and publication over
      the state of the engine;
    - [Store.v] (definitions), [LinkerSpec.v], [StoreSpec.v] (theorems):
      [store.rs], [instance.rs], [linker.rs] and the handles of [func.rs],
      [global.rs], [memory.rs], [table.rs];
    - [TrapHandling.v] (definitions), [TrapHandlingSpec.v] (theorems):
      [placeholder/trap_handling/], [placeholder/signals.rs] and the frame layouts
      of [placeholder/arch.rs];
    - [Call.v] (definitions), [CallSpec.v] (theorems): the calls of [func.rs];
    - [HeapAccess.v] (definitions), [Sandbox.v] (theorems): the code emitted for
      memory and table accesses;
    - [Clif.v], [ClifLaws.v]: Cranelift's [FunctionBuilder] as a class, the type
      constraints of its instructions and its laws; [RecBuilder.v],
      [RecBuilderLaws.v]: a builder that records the function and checks every
      precondition, and the proof that it keeps the laws;
    - [FuncState.v], [WasmOp.v], [FuncEnv.v], [CodeTranslator.v],
      [CodeTranslatorCtl.v], [CodeTranslatorOps.v], [FuncTranslator.v]
      (definitions): [state.rs], wasm's operators, [env.rs] with the signatures of
      [utils.rs], [code_translator.rs] in three parts (helpers, control flow and
      calls, all other operators) and [func_translator.rs];
    - [WasmTyping.v], [FuncValid.v]: the specification's signatures of operators
      and its validation algorithm, against which translation is proved;
    - [OpTyping.v]: straight-line operators are typed;
    - [CtlInv.v], [CtlSim.v]: the invariant of blocks and control frames, and the
      simulation between translation and validation; [CtlSteps.v], [CtlDead.v],
      [CtlLive.v], [CtlBranch.v], [CtlTable.v], [CtlBlocks.v], [CtlEnds.v],
      [CtlOps.v], [CtlStep.v]: the simulation, operator by operator and for bodies; [CtlEnv.v],
      [CtlModule.v], [CtlMemory.v]: what the environment answers about the module,
      and globals, calls, memory accesses and calls through tables in the
      simulation; [CtlFunction.v]: whole functions;
      [FunctionSpec.v]: the resulting theorems, with the recording builder;
    - [WasmSem.v]: a reference semantics of structured wasm code with integers,
      variables and control flow; [ClifMachine.v]: the recorded function as a
      machine with registers and variables, and the documented meaning of
      Cranelift's integer instructions; [SemOps.v]: the code of an operator
      computes its meaning; [SemBuild.v], [SemEffects.v]: what commands of the
      builder and control operators leave of and add to a function; [SemSim.v],
      [SemCode.v], [SemBlocks.v]: structured code, by induction on it;
      [SemFunction.v]: whole functions;
    - [Compiler.v] (definitions), [CompilerSpec.v] (theorems):
      [cranelift/compiler.rs]; [Trampoline.v] gives the instructions of a
      trampoline a meaning on raw memory and proves which instructions the
      compiler emits, [TrampolineSpec.v] what they do.

    ** Modelling conventions

    A fallible function returns [outcome E A]: [Ok], [Err] or [Panic].  Every
    [assert!], [unwrap], [expect], [todo!], out-of-range index and arithmetic
    overflow is a [Panic] (the crate builds with overflow checks in every
    profile); [debug_assert!] panics only when the parameter [dbg] is true.
    Integers are [Z] at an explicit width, with wrap-around, checked and
    saturating arithmetic written out; the target is 64-bit.  Code that changes
    the address space runs in the monad [SM] over a kernel state; a failing
    [mprotect] may have changed a part of its range.  Undefined behaviour that the
    code runs into on every path (the copy of a union of which only one field was
    assigned, the write of an [align(16)] structure to an address that is 8 modulo
    16) is a panic when the parameter [strict] is true and goes through when it is
    false; all other undefined behaviour is a panic.  A [PrimaryMap]
    is a list, indexed by its 32-bit entity reference.

    Code outside the repository is a class or record with laws, and each comes
    with an instance that satisfies them: the kernel ([Kernel], [KernelLaws] in
    [Mmap.v]), Cranelift's text builder ([TextSectionBuilder] in [Code.v]),
    Cranelift's instructions ([ClifSem], [ClifLaws] in [HeapAccess.v]), its
    reserved trap codes ([TrapCodes] in [Trap.v]), the slab of the type registry
    ([Slab], [SlabLaws] in [TypeRegistry.v]), the validator's type tables
    ([ValidatorTypes] with [validator_types_ok]), Cranelift's function builder
    ([FunctionBuilder], [FunctionBuilderLaws] in [Clif.v] and [ClifLaws.v]), the
    results of its integer instructions ([ClifArith], [ClifArithLaws] in
    [ClifMachine.v]).  What
    runs inside a call into compiled code is a parameter of [catch_traps]: any
    computation that returns, raises a trap, is hit by a signal or calls back.

    ** What the theorems show

    - functions: translation follows validation operator by operator, so a
      function that validates is translated without error or panic and with
      well-typed code, every block of which is filled and sealed; and the function
      that results computes what the body means, for bodies of integer, variable
      and control instructions: it returns what the reference semantics returns and
      traps where it traps;
    - sandboxing: the address and flags a heap access computes, with a check,
      without one and for offsets of more than 32 bits; that an access to a memory
      without a declared maximum, with [offset + size] at most one more than 2 GiB,
      stays in that memory's mapping; and exactly where the elided check does not
      suffice (larger offsets, declared maxima);
    - layout: [VMContext] fields are disjoint, inside the allocation, at the
      offsets of the documented struct except for the padding before the globals,
      and accessors answer exactly for existing members;
    - resources: allocation of a module allocates its tables, memories and context
      in order, or nothing; growing a mapped vector of bytes restores the vector on
      failure; published code is executable and not writable;
    - code: linking places every function with the bytes compiled for it, up to
      the fields of its relocations; traps and addresses are mapped back
      to what the compiler recorded;
    - loading: a module loaded from its binary is installed consistently in the
      engine, with its compiled bytes at executable addresses that are found by
      lookup, and one that fails to load leaves no mapping, code or type behind;
    - translation: a translated module is well formed in the sense the rest
      of the machine assumes ([module_wf], [module_types_wf], function reference
      slots for exports and [ref.func]), its types mirror the validator's (as long
      as none mentions itself or a later one), its imports come first;
    - instances: a new context holds what its module, imports and allocations
      determine, in the fields that initialisation writes; the linker is a map
      from pairs of names to definitions; an
      export is the entity imported or the definition in the context;
    - traps: whatever happens inside a call into compiled code, the thread's
      activations and the context's fields are restored, a trap that is raised is
      the trap that is returned, and the backtrace of a signal lists the wasm
      frames of all activations; and which frames a host trap has and misses;
    - host calls: what the trampoline that the compiler emits does, effect by
      effect, and that a host call through it runs the wasm function, in whatever
      state memory is, and returns its results or its trap; both for types of
      numbers and vectors, as reading references back is [todo!()].  A function
      that validates is compiled, whatever the compiler's contexts were used for
      before;
    - types: any use of the registry keeps its reference counts right, a module
      registered twice shares its entries; and where recursion groups fail;
    - data: constant expressions evaluate to their reference semantics, values
      and globals round-trip, sizes are exact or reported as overflow, type keys
      are position independent.

    Every theorem says in its comment which side conditions it has.

    Loops over module data are structural recursions over lists, so no fuel is
    needed except in [binary_search], whose fuel is the length of the slice (its
    interval shrinks at every step), and in two walks over raw memory: [walk] takes
    the distance of the frame pointers (each step goes to a higher address) and
    [iter_states] the number of activations.  Function bodies are lists of operators; the
    validation algorithm bounds operands and frames by 2^32, as the width of
    wasm's indices does.  The reference semantics of function bodies takes fuel, as
    loops need not end: the theorem holds for every amount of it.

    ** Not modelled

    The registers in a signal's context, inline assembly and [setjmp] have their
    meaning from the processor and the operating system ([placeholder/signals.rs],
    [arch.rs], [setjmp.rs]): the program counter and the frame pointer of a signal
    are inputs, and a jump is a computation that does not return.  Cranelift's code
    generator is a parameter.  The trampoline from wasm to host functions ends in
    [todo!()] in the source and panics in the model; there are no builtins yet.
    The DWARF sections, which fill debug information only, and the formatting of
    errors are left out.
    Floating-point and vector arithmetic, memory accesses, calls, globals, tables
    and [br_table] are translated and typed in the model, but have no reference
    semantics: what they compute is not proved.
    Proof-carrying-code facts, value labels, stack maps and source locations
    annotate emitted instructions without changing them and are left out.  The
    validation algorithm covers every operator whose translation is implemented,
    for 32-bit memories and tables of functions with a fixed size; the operators
    that are [todo!()] in the source panic in the model. *)
From stdpp Require Import base list gmap option numbers strings.
From Stdlib Require Import ZArith Lia.

(** ** Outcomes

    A Rust computation of this crate ends in one of three ways: it returns a
    value, it returns an [Err] of some error type, or it panics ([assert!],
    [unwrap], [expect], [todo!], arithmetic overflow, out-of-range indexing). *)
Inductive outcome (E A : Type) : Type :=
| Ok (a : A)
| Err (e : E)
| Panic.
Arguments Ok {E A} a.
Arguments Err {E A} e.
Arguments Panic {E A}.

Declare Scope rust_scope.
Delimit Scope rust_scope with rust.

#[global] Instance outcome_ret {E} : MRet (outcome E) := fun _ a => Ok a.
#[global] Instance outcome_bind {E} : MBind (outcome E) := fun _ _ k m =>
  match m with
  | Ok a => k a
  | Err e => Err e
  | Panic => Panic
  end.
#[global] Instance outcome_fmap {E} : FMap (outcome E) := fun _ _ f m =>
  match m with
  | Ok a => Ok (f a)
  | Err e => Err e
  | Panic => Panic
  end.

Definition is_ok {E A} (m : outcome E A) : bool :=
  match m with Ok _ => true | _ => false end.
Definition is_panic {E A} (m : outcome E A) : bool :=
  match m with Panic => true | _ => false end.

(** [Option::unwrap] / [Option::expect]. *)
Definition unwrap {E A} (o : option A) : outcome E A :=
  match o with Some a => Ok a | None => Panic end.
(** [Option::ok_or]. *)
Definition ok_or {E A} (o : option A) (e : E) : outcome E A :=
  match o with Some a => Ok a | None => Err e end.
(** [Result::ok] on a computation that did not panic. *)
Definition ok {E A} (m : outcome E A) : option A :=
  match m with Ok a => Some a | _ => None end.

(** [assert!]. *)
Definition assert_ {E} (b : bool) : outcome E unit :=
  if b then Ok tt else Panic.
(** [debug_assert!]: evaluated only in a build with debug assertions. *)
Definition debug_assert {E} (dbg : bool) (b : bool) : outcome E unit :=
  if dbg then assert_ b else Ok tt.

(** The fallible [for] loop threading a state. *)
Fixpoint foldM {E S X} (f : S -> X -> outcome E S) (l : list X) (s : S) : outcome E S :=
  match l with
  | [] => Ok s
  | x :: l' => match f s x with
               | Ok s' => foldM f l' s'
               | Err e => Err e
               | Panic => Panic
               end
  end.

(** [iter().map(f).collect::<Result<Vec<_>, _>>()]. *)
Fixpoint mapO {E X Y} (f : X -> outcome E Y) (l : list X) : outcome E (list Y) :=
  match l with
  | [] => Ok []
  | x :: l' => y ← f x; ys ← mapO f l'; Ok (y :: ys)
  end.

(** ** Stateful computations

    Code that mutates a store [S] and may fail; the store survives a failure,
    so that what an error path leaves behind can be stated. *)
Definition SM (S E A : Type) : Type := S -> outcome E A * S.

#[global] Instance sm_ret {S E} : MRet (SM S E) := fun _ a s => (Ok a, s).
#[global] Instance sm_bind {S E} : MBind (SM S E) := fun _ _ k m s =>
  match m s with
  | (Ok a, s') => k a s'
  | (Err e, s') => (Err e, s')
  | (Panic, s') => (Panic, s')
  end.

Definition sm_lift {S E A} (m : outcome E A) : SM S E A := fun s => (m, s).
Definition sm_err {S E A} (e : E) : SM S E A := fun s => (Err e, s).
(** Run [cleanup] when [m] fails with an [Err], and propagate the error. *)
Definition sm_on_err {S E A} (m : SM S E A) (cleanup : SM S E unit) : SM S E A := fun s =>
  match m s with
  | (Err e, s') => match cleanup s' with
                   | (Panic, s2) => (Panic, s2)
                   | (_, s2) => (Err e, s2)
                   end
  | r => r
  end.

(** ** Machine integers

    Unsigned [w]-bit integers are [Z] in [0 .. 2^w - 1].  Every profile of the
    crate sets [overflow-checks], so [+], [-] and [*] panic on overflow. *)
Section MachineInt.
Local Open Scope Z_scope.

Definition fits (w x : Z) : bool := (0 <=? x) && (x <? 2 ^ w).
Definition ofits {E} (w x : Z) : outcome E Z := if fits w x then Ok x else Panic.
Definition add {E} (w x y : Z) : outcome E Z := ofits w (x + y).
Definition sub {E} (w x y : Z) : outcome E Z := ofits w (x - y).
Definition mul {E} (w x y : Z) : outcome E Z := ofits w (x * y).

Definition try_from (w x : Z) : option Z := if fits w x then Some x else None.
Definition checked_add (w x y : Z) : option Z := try_from w (x + y).
Definition checked_sub (w x y : Z) : option Z := try_from w (x - y).
Definition checked_mul (w x y : Z) : option Z := try_from w (x * y).
Definition wrap (w x : Z) : Z := x mod 2 ^ w.
Definition wrapping_sub (w x y : Z) : Z := wrap w (x - y).
Definition saturating_add (w x y : Z) : Z := Z.min (x + y) (2 ^ w - 1).
(** Two's complement reinterpretation of an unsigned [w]-bit word. *)
Definition signed (w x : Z) : Z := if x <? 2 ^ (w - 1) then x else x - 2 ^ w.
(** Wrapping of a mathematical integer to a signed [w]-bit one. *)
Definition swrap (w x : Z) : Z := signed w (wrap w x).
Definition sfits (w x : Z) : bool := (- 2 ^ (w - 1) <=? x) && (x <? 2 ^ (w - 1)).

End MachineInt.

(** ** Entity maps

    [PrimaryMap<K, V>] is a vector indexed by a 32-bit entity reference: keys
    are handed out densely by [push], [get] returns [None] out of range and
    indexing panics there. *)
Section EntityMap.
Local Open Scope Z_scope.
Context {V : Type}.

Definition pm_get (m : list V) (k : Z) : option V :=
  if 0 <=? k then m !! Z.to_nat k else None.
Definition pm_len (m : list V) : Z := Z.of_nat (length m).
Definition pm_next_key (m : list V) : Z := pm_len m.
Definition pm_push (m : list V) (v : V) : list V := m ++ [v].
Definition pm_set (m : list V) (k : Z) (v : V) : list V := <[Z.to_nat k := v]> m.
(** [m[k]]. *)
Definition pm_index {E} (m : list V) (k : Z) : outcome E V := unwrap (pm_get m k).

Lemma pm_get_push_new (m : list V) v : pm_get (pm_push m v) (pm_len m) = Some v.
Proof.
  unfold pm_get, pm_push, pm_len. rewrite Nat2Z.id.
  destruct (Z.leb_spec 0 (Z.of_nat (length m))); [|lia].
  rewrite lookup_app_r by lia. by rewrite Nat.sub_diag.
Qed.

Lemma pm_get_push_old (m : list V) v k x :
  pm_get m k = Some x -> pm_get (pm_push m v) k = Some x.
Proof.
  unfold pm_get, pm_push. destruct (0 <=? k); [|done].
  intros H. rewrite lookup_app_l; [done|]. by eapply lookup_lt_Some.
Qed.

Lemma pm_get_push_inv (m : list V) v k x :
  pm_get (pm_push m v) k = Some x ->
  pm_get m k = Some x \/ (k = pm_len m /\ x = v).
Proof.
  unfold pm_get, pm_push, pm_len.
  destruct (Z.leb_spec 0 k); [|done].
  intros [Hl|[Hle Hr]]%lookup_app_Some; [by left|right].
  apply list_lookup_singleton_Some in Hr as [Hk ->]. split; [lia|done].
Qed.

Lemma pm_get_range (m : list V) k x : pm_get m k = Some x -> 0 <= k < pm_len m.
Proof.
  unfold pm_get, pm_len. destruct (Z.leb_spec 0 k); [|done].
  intros H0%lookup_lt_Some. lia.
Qed.

Lemma pm_get_is_Some (m : list V) k : 0 <= k < pm_len m -> is_Some (pm_get m k).
Proof.
  unfold pm_get, pm_len. intros [H1 H2].
  destruct (Z.leb_spec 0 k); [|lia]. apply lookup_lt_is_Some. lia.
Qed.

Lemma pm_len_push (m : list V) v : pm_len (pm_push m v) = pm_len m + 1.
Proof. unfold pm_len, pm_push. rewrite length_app; simpl; lia. Qed.

Lemma pm_get_set_eq (m : list V) k v : 0 <= k < pm_len m -> pm_get (pm_set m k v) k = Some v.
Proof.
  unfold pm_get, pm_set, pm_len. intros [H1 H2].
  destruct (Z.leb_spec 0 k); [|lia]. apply list_lookup_insert_eq. lia.
Qed.

Lemma pm_get_set_ne (m : list V) k j v : 0 <= k -> k <> j -> pm_get (pm_set m k v) j = pm_get m j.
Proof.
  unfold pm_get, pm_set. intros H1 H2.
  destruct (Z.leb_spec 0 j); [|done]. apply list_lookup_insert_ne. lia.
Qed.

Lemma pm_len_set (m : list V) k v : pm_len (pm_set m k v) = pm_len m.
Proof. unfold pm_len, pm_set. by rewrite length_insert. Qed.

Lemma pm_len_app (l k : list V) : pm_len (l ++ k) = pm_len l + pm_len k.
Proof. unfold pm_len. rewrite length_app. lia. Qed.

Lemma pm_len_snoc (l : list V) x : pm_len (l ++ [x]) = pm_len l + 1.
Proof. by rewrite pm_len_app. Qed.

Lemma pm_len_rev (l : list V) : pm_len (rev l) = pm_len l.
Proof. unfold pm_len. by rewrite length_rev. Qed.

End EntityMap.

(** ** Lemmas on outcomes *)
Lemma bind_ok {E A B} (m : outcome E A) (k : A -> outcome E B) b :
  (m ≫= k) = Ok b <-> exists a, m = Ok a /\ k a = Ok b.
Proof. destruct m; cbn; split; [eauto|intros (? & [= ->] & ?)| | | |]; naive_solver. Qed.

Lemma sm_bind_ok {S E A B} (m : SM S E A) (k : A -> SM S E B) s b s' :
  (m ≫= k) s = (Ok b, s') <-> exists a s1, m s = (Ok a, s1) /\ k a s1 = (Ok b, s').
Proof.
  unfold mbind, sm_bind. destruct (m s) as [[a|e|] s1]; naive_solver.
Qed.

Lemma sm_bind_err {S E A B} (m : SM S E A) (k : A -> SM S E B) s e s' :
  (m ≫= k) s = (Err e, s') <->
  m s = (Err e, s') \/ exists a s1, m s = (Ok a, s1) /\ k a s1 = (Err e, s').
Proof.
  unfold mbind, sm_bind. destruct (m s) as [[a|e1|] s1]; naive_solver.
Qed.

Lemma sm_step {S E A B} (m : SM S E A) (k : A -> SM S E B) s a s' : m s = (Ok a, s') -> (m ≫= k) s = k a s'.
Proof. intros Hm. unfold mbind, sm_bind. by rewrite Hm. Qed.

Lemma sm_lift_step {S E A B} (o : outcome E A) (k : A -> SM S E B) s a : o = Ok a -> (sm_lift o ≫= k) s = k a s.
Proof. intros ->. done. Qed.

Lemma sm_on_err_ok {S E A} (m : SM S E A) c s a s' :
  sm_on_err m c s = (Ok a, s') <-> m s = (Ok a, s').
Proof.
  unfold sm_on_err. destruct (m s) as [[x|e|] s1]; try naive_solver.
  destruct (c s1) as [[]]; naive_solver.
Qed.

Lemma sm_on_err_err {S E A} (m : SM S E A) c s e s' :
  sm_on_err m c s = (Err e, s') ->
  exists s1, m s = (Err e, s1) /\ (exists r, c s1 = (r, s') /\ is_panic r = false).
Proof.
  unfold sm_on_err. destruct (m s) as [[x|e1|] s1]; try naive_solver.
  destruct (c s1) as [[]] eqn:Hc; intros [= <- <-]; eexists; (split; [done|]); by eexists.
Qed.

Lemma assert_ok {E} b (u : unit) : assert_ (E:=E) b = Ok u <-> b = true.
Proof. unfold assert_; destruct b, u; naive_solver. Qed.

Lemma debug_assert_true {E} dbg : debug_assert (E:=E) dbg true = Ok tt.
Proof. by destruct dbg. Qed.

Lemma unwrap_ok {E A} (o : option A) a : unwrap (E:=E) o = Ok a <-> o = Some a.
Proof. destruct o; cbn; naive_solver. Qed.

Lemma foldM_app {E S X} (f : S -> X -> outcome E S) l1 l2 s :
  foldM f (l1 ++ l2) s = (foldM f l1 s ≫= foldM f l2).
Proof. revert s; induction l1 as [|x l1 IH]; intros s; cbn; [done|]. by destruct (f s x). Qed.

Lemma foldM_ext {E S X} (f g : S -> X -> outcome E S) l s :
  (forall s x, x ∈ l -> f s x = g s x) -> foldM f l s = foldM g l s.
Proof.
  revert s; induction l as [|x l IH]; intros s H; cbn; [done|].
  rewrite H by left. destruct (g s x); [|done..]. apply IH. intros; apply H; by right.
Qed.

Lemma mapO_ext {E X Y} (f g : X -> outcome E Y) l :
  (forall x, x ∈ l -> f x = g x) -> mapO f l = mapO g l.
Proof.
  induction l as [|x l IH]; intros H; cbn; [done|].
  rewrite H by left. by rewrite IH by (intros; apply H; by right).
Qed.

(** Invariants of a [for] loop. *)
Lemma foldM_ind {E S X} (P : S -> Prop) (f : S -> X -> outcome E S) l s s' :
  P s -> (forall s x s', x ∈ l -> P s -> f s x = Ok s' -> P s') ->
  foldM f l s = Ok s' -> P s'.
Proof.
  revert s; induction l as [|x l IH]; cbn; intros s HP Hstep Hf; [naive_solver|].
  destruct (f s x) as [s1| |] eqn:Hx; try done.
  eapply IH; [|intros; eapply Hstep; [by right|..]; done|done].
  eapply Hstep; [by left|done..].
Qed.

Lemma foldM_total {E S X} (P : S -> Prop) (f : S -> X -> outcome E S) l s :
  P s -> (forall s x, x ∈ l -> P s -> exists s', f s x = Ok s' /\ P s') ->
  exists s', foldM f l s = Ok s' /\ P s'.
Proof.
  revert s; induction l as [|x l IH]; cbn; intros s HP Hstep; [eauto|].
  destruct (Hstep s x) as (s1 & -> & HP1); [by left|done|].
  eapply IH; [done|]. intros; eapply Hstep; [by right|done].
Qed.

Lemma mapO_ok {E X Y} (f : X -> outcome E Y) l ys :
  mapO f l = Ok ys <-> Forall2 (fun x y => f x = Ok y) l ys.
Proof.
  revert ys; induction l as [|x l IH]; cbn; intros ys.
  - split; [intros [= <-]; constructor|by intros ->%Forall2_nil_inv_l].
  - split.
    + intros (y & Hy & (zs & Hzs & [= <-])%bind_ok)%bind_ok. constructor; [done|by apply IH].
    + intros (y & zs & Hy & Hzs & ->)%Forall2_cons_inv_l.
      apply IH in Hzs. by rewrite Hy; cbn; rewrite Hzs.
Qed.

Lemma mapO_total {E X Y} (f : X -> Y) (l : list X) :
  mapO (E:=E) (fun x => Ok (f x)) l = Ok (f <$> l).
Proof. induction l as [|x l IH]; cbn; [done|]. by rewrite IH. Qed.

(** Weakening pointwise, with membership. *)
Lemma Forall2_impl_elem {A B} (P Q : A -> B -> Prop) l k :
  Forall2 P l k -> (forall x y, x ∈ l -> P x y -> Q x y) -> Forall2 Q l k.
Proof.
  induction 1 as [|x y l k Hxy _ IH]; intros Hq; constructor.
  - apply Hq; [by left|done].
  - apply IH. intros; apply Hq; [by right|done].
Qed.

(** ** Lemmas on machine integers *)
Section MachineIntLemmas.
Local Open Scope Z_scope.

Lemma fits_spec w x : fits w x = true <-> 0 <= x < 2 ^ w.
Proof. unfold fits. rewrite andb_true_iff, Z.leb_le, Z.ltb_lt. lia. Qed.

Lemma sfits_spec w x : sfits w x = true <-> - 2 ^ (w - 1) <= x < 2 ^ (w - 1).
Proof. unfold sfits. rewrite andb_true_iff, Z.leb_le, Z.ltb_lt. lia. Qed.

Lemma ofits_ok {E} w x y : ofits (E:=E) w x = Ok y <-> y = x /\ 0 <= x < 2 ^ w.
Proof.
  unfold ofits. destruct (fits w x) eqn:F.
  - apply fits_spec in F. naive_solver.
  - split; [done|]. intros [_ H%fits_spec]. congruence.
Qed.

Lemma ofits_intro {E} w x : 0 <= x < 2 ^ w -> ofits (E:=E) w x = Ok x.
Proof. intros H. by apply ofits_ok. Qed.

Lemma ofits_panic {E} w x : 2 ^ w <= x -> ofits (E:=E) w x = Panic.
Proof.
  intros H. unfold ofits. destruct (fits w x) eqn:F; [|done].
  apply fits_spec in F. lia.
Qed.

Lemma pm_len_nonneg {A} (l : list A) : 0 <= pm_len l.
Proof. unfold pm_len. lia. Qed.
Lemma add_ok {E} w x y z : add (E:=E) w x y = Ok z <-> z = x + y /\ 0 <= x + y < 2 ^ w.
Proof. apply ofits_ok. Qed.
Lemma mul_ok {E} w x y z : mul (E:=E) w x y = Ok z <-> z = x * y /\ 0 <= x * y < 2 ^ w.
Proof. apply ofits_ok. Qed.
Lemma sub_ok {E} w x y z : sub (E:=E) w x y = Ok z <-> z = x - y /\ 0 <= x - y < 2 ^ w.
Proof. apply ofits_ok. Qed.

Lemma try_from_Some w x y : try_from w x = Some y <-> y = x /\ 0 <= x < 2 ^ w.
Proof.
  unfold try_from. destruct (fits w x) eqn:F.
  - apply fits_spec in F. naive_solver.
  - split; [done|]. intros [_ H%fits_spec]. congruence.
Qed.
Lemma try_from_None w x : try_from w x = None <-> ~ (0 <= x < 2 ^ w).
Proof.
  unfold try_from. destruct (fits w x) eqn:F.
  - apply fits_spec in F. naive_solver.
  - split; [|done]. intros _ H%fits_spec. congruence.
Qed.
Lemma try_from_intro w x : 0 <= x < 2 ^ w -> try_from w x = Some x.
Proof. intros. by apply try_from_Some. Qed.

Lemma wrap_bound w x : 0 <= w -> 0 <= wrap w x < 2 ^ w.
Proof. intros. apply Z.mod_pos_bound. lia. Qed.
Lemma wrap_small w x : 0 <= x < 2 ^ w -> wrap w x = x.
Proof. apply Z.mod_small. Qed.
Lemma wrap_wrap w x : 0 <= w -> wrap w (wrap w x) = wrap w x.
Proof. intros. apply wrap_small, wrap_bound, H. Qed.

Lemma pow2_half w : 0 < w -> 2 ^ w = 2 * 2 ^ (w - 1).
Proof. intros. rewrite <- Z.pow_succ_r by lia. f_equal; lia. Qed.

Lemma signed_range w x : 0 < w -> 0 <= x < 2 ^ w -> - 2 ^ (w - 1) <= signed w x < 2 ^ (w - 1).
Proof.
  intros Hw Hx. pose proof (pow2_half w Hw). unfold signed.
  destruct (Z.ltb_spec x (2 ^ (w - 1))); lia.
Qed.

Lemma swrap_range w x : 0 < w -> - 2 ^ (w - 1) <= swrap w x < 2 ^ (w - 1).
Proof. intros. apply signed_range, wrap_bound; lia. Qed.

Lemma wrap_signed w x : 0 < w -> 0 <= x < 2 ^ w -> wrap w (signed w x) = x.
Proof.
  intros Hw Hx. unfold signed, wrap. destruct (x <? _).
  - by apply Z.mod_small.
  - symmetry. apply (Z.mod_unique_pos _ _ (-1)); lia.
Qed.

Lemma signed_wrap w x : 0 < w -> - 2 ^ (w - 1) <= x < 2 ^ (w - 1) -> signed w (wrap w x) = x.
Proof.
  intros Hw Hx. pose proof (pow2_half w Hw). unfold signed, wrap.
  destruct (Z.ltb_spec x 0).
  - replace (x mod 2 ^ w) with (x + 2 ^ w)
      by (apply (Z.mod_unique_pos _ _ (-1)); lia).
    destruct (Z.ltb_spec (x + 2 ^ w) (2 ^ (w - 1))); lia.
  - rewrite Z.mod_small by lia. destruct (Z.ltb_spec x (2 ^ (w - 1))); lia.
Qed.

Lemma wrap_swrap w x : 0 < w -> wrap w (swrap w x) = wrap w x.
Proof. intros. apply wrap_signed; [done|]. apply wrap_bound; lia. Qed.

(** A wider wrap is absorbed by a narrower one. *)
Lemma wrap_narrow v w x : 0 <= v <= w -> wrap v (wrap w x) = wrap v x.
Proof.
  intros H. unfold wrap. rewrite <- Znumtheory.Zmod_div_mod; [done|lia|lia|].
  exists (2 ^ (w - v)). rewrite <- Z.pow_add_r by lia. f_equal; lia.
Qed.

End MachineIntLemmas.

(** ** Automation *)
Create HintDb rust.
#[export] Hint Resolve wrap_bound swrap_range signed_range ofits_intro try_from_intro
  pm_get_push_new pm_get_push_old : rust.
#[export] Hint Rewrite @pm_len_push @pm_len_set @debug_assert_true @foldM_app : rust.

(** Invert a chain of binds that returned [Ok]. *)
Ltac inv_ok :=
  repeat match goal with
  | H : (_ ≫= _) = Ok _ |- _ => apply bind_ok in H as (? & ? & H)
  | H : mbind _ _ = Ok _ |- _ => apply bind_ok in H as (? & ? & H)
  | H : mret _ = Ok _ |- _ => injection H as H
  | H : Ok _ = Ok _ |- _ => injection H as H
  | H : Err _ = Ok _ |- _ => discriminate H
  | H : Panic = Ok _ |- _ => discriminate H
  | H : assert_ _ = Ok _ |- _ => apply assert_ok in H
  | H : unwrap _ = Ok _ |- _ => apply unwrap_ok in H
  | H : add _ _ _ = Ok _ |- _ => apply add_ok in H as [? ?]
  | H : mul _ _ _ = Ok _ |- _ => apply mul_ok in H as [? ?]
  | H : sub _ _ _ = Ok _ |- _ => apply sub_ok in H as [? ?]
  | x : unit |- _ => destruct x
  end; subst.

(** Case analysis on the innermost boolean comparison of the goal. *)
Ltac zcase :=
  match goal with
  | |- context [Z.leb ?x ?y] => destruct (Z.leb_spec x y)
  | |- context [Z.ltb ?x ?y] => destruct (Z.ltb_spec x y)
  | |- context [Z.eqb ?x ?y] => destruct (Z.eqb_spec x y)
  end.
