(* ===== verification/Types.v ===== *)
(** * Entity indices and the WebAssembly type language

    [src/src/indices.rs] (the tagged index enums and their accessors) and
    [src/src/translate/types.rs] (value, reference, heap, composite and sub
    types, recursion groups).  Entity references are 32-bit integers ([Z]).
    Constructors carry the prefix of their enum where Rust reuses a name.
    The traversals of the trait [TypeTrace] live in [TypeTrace.v]. *)
From stdpp Require Import base list option numbers.
From S2P Require Import Prelude.

(** ** Index enums ([indices.rs]) *)

(** [EntityIndex]. *)
Inductive EntityIndex : Type :=
| Ent_Function (i : Z)
| Ent_Table (i : Z)
| Ent_Memory (i : Z)
| Ent_Global (i : Z)
| Ent_Tag (i : Z).

#[global] Instance EntityIndex_eq_dec : EqDecision EntityIndex.
Proof. solve_decision. Defined.

Definition ent_is_func (e : EntityIndex) : bool :=
  match e with Ent_Function _ => true | _ => false end.
Definition ent_func (e : EntityIndex) : option Z :=
  match e with Ent_Function i => Some i | _ => None end.
Definition ent_table (e : EntityIndex) : option Z :=
  match e with Ent_Table i => Some i | _ => None end.
Definition ent_memory (e : EntityIndex) : option Z :=
  match e with Ent_Memory i => Some i | _ => None end.
Definition ent_global (e : EntityIndex) : option Z :=
  match e with Ent_Global i => Some i | _ => None end.
Definition ent_tag (e : EntityIndex) : option Z :=
  match e with Ent_Tag i => Some i | _ => None end.

(** [CanonicalizedTypeIndex]: a reference to a type, canonicalized for an
    engine ([Shared]), for a module ([Module]) or relative to its recursion
    group ([RecGroup]). *)
Inductive CanonicalizedTypeIndex : Type :=
| Shared (i : Z)
| Module_ (i : Z)
| RecGroup (i : Z).

#[global] Instance CanonicalizedTypeIndex_eq_dec : EqDecision CanonicalizedTypeIndex.
Proof. solve_decision. Defined.

Definition as_module_type_index (c : CanonicalizedTypeIndex) : option Z :=
  match c with Module_ i => Some i | _ => None end.
Definition as_engine_type_index (c : CanonicalizedTypeIndex) : option Z :=
  match c with Shared i => Some i | _ => None end.
Definition as_rec_group_type_index (c : CanonicalizedTypeIndex) : option Z :=
  match c with RecGroup i => Some i | _ => None end.

(** ** Types ([translate/types.rs]) *)

(** [WasmHeapTypeInner]. *)
Inductive WasmHeapTypeInner : Type :=
| Heap_Extern | Heap_NoExtern
| Heap_Func | Heap_ConcreteFunc (i : CanonicalizedTypeIndex) | Heap_NoFunc
| Heap_Any | Heap_Eq | Heap_I31
| Heap_Array | Heap_ConcreteArray (i : CanonicalizedTypeIndex)
| Heap_Struct | Heap_ConcreteStruct (i : CanonicalizedTypeIndex)
| Heap_None
| Heap_Exn | Heap_NoExn
| Heap_Cont | Heap_NoCont.

#[global] Instance WasmHeapTypeInner_eq_dec : EqDecision WasmHeapTypeInner.
Proof. solve_decision. Defined.

(** [WasmHeapType]. *)
Record WasmHeapType : Type := mkHeapType {
  ht_shared : bool;
  ht_ty : WasmHeapTypeInner }.

#[global] Instance WasmHeapType_eq_dec : EqDecision WasmHeapType.
Proof. solve_decision. Defined.

(** [WasmHeapTopTypeInner] and [WasmHeapTopType]. *)
Inductive WasmHeapTopTypeInner : Type :=
| Top_Extern | Top_Any | Top_Func | Top_Exn | Top_Cont.

#[global] Instance WasmHeapTopTypeInner_eq_dec : EqDecision WasmHeapTopTypeInner.
Proof. solve_decision. Defined.

Record WasmHeapTopType : Type := mkTop {
  top_shared : bool;
  top_inner : WasmHeapTopTypeInner }.

(** [WasmHeapType::top]. *)
Definition top (h : WasmHeapType) : WasmHeapTopType :=
  {| top_shared := ht_shared h;
     top_inner :=
       match ht_ty h with
       | Heap_Func | Heap_ConcreteFunc _ | Heap_NoFunc => Top_Func
       | Heap_Extern | Heap_NoExtern => Top_Extern
       | Heap_Any | Heap_Eq | Heap_I31 | Heap_Array | Heap_ConcreteArray _
       | Heap_Struct | Heap_ConcreteStruct _ | Heap_None => Top_Any
       | Heap_Exn | Heap_NoExn => Top_Exn
       | Heap_Cont | Heap_NoCont => Top_Cont
       end |}.

(** [WasmHeapType::is_vmgcref_type]. *)
Definition is_vmgcref_type (h : WasmHeapType) : bool :=
  match top_inner (top h) with
  | Top_Any | Top_Extern => true
  | Top_Func | Top_Exn | Top_Cont => false
  end.

(** [WasmHeapType::is_vmgcref_type_and_not_i31]. *)
Definition is_vmgcref_type_and_not_i31 (h : WasmHeapType) : bool :=
  is_vmgcref_type h && negb (bool_decide (ht_ty h = Heap_I31)).

(** [WasmRefType]. *)
Record WasmRefType : Type := mkRefType {
  nullable : bool;
  heap_type : WasmHeapType }.

#[global] Instance WasmRefType_eq_dec : EqDecision WasmRefType.
Proof. solve_decision. Defined.

Definition EXTERNREF : WasmRefType := mkRefType true (mkHeapType false Heap_Extern).
Definition FUNCREF : WasmRefType := mkRefType true (mkHeapType false Heap_Func).

(** [WasmValType]. *)
Inductive WasmValType : Type :=
| Val_I32 | Val_I64 | Val_F32 | Val_F64 | Val_V128
| Val_Ref (r : WasmRefType).

#[global] Instance WasmValType_eq_dec : EqDecision WasmValType.
Proof. solve_decision. Defined.

(** [WasmStorageType], [WasmFieldType]. *)
Inductive WasmStorageType : Type :=
| St_I8 | St_I16 | St_Val (v : WasmValType).

#[global] Instance WasmStorageType_eq_dec : EqDecision WasmStorageType.
Proof. solve_decision. Defined.

Record WasmFieldType : Type := mkFieldType {
  fld_mutable : bool;
  fld_element_type : WasmStorageType }.

#[global] Instance WasmFieldType_eq_dec : EqDecision WasmFieldType.
Proof. solve_decision. Defined.

(** [WasmFuncType], [WasmArrayType], [WasmStructType]. *)
Record WasmFuncType : Type := mkFuncType {
  fn_params : list WasmValType;
  fn_results : list WasmValType }.

#[global] Instance WasmFuncType_eq_dec : EqDecision WasmFuncType.
Proof. solve_decision. Defined.

Record WasmArrayType : Type := mkArrayType { arr_field : WasmFieldType }.

#[global] Instance WasmArrayType_eq_dec : EqDecision WasmArrayType.
Proof. solve_decision. Defined.

Record WasmStructType : Type := mkStructType { str_fields : list WasmFieldType }.

#[global] Instance WasmStructType_eq_dec : EqDecision WasmStructType.
Proof. solve_decision. Defined.

(** [WasmCompositeTypeInner], [WasmCompositeType]. *)
Inductive WasmCompositeTypeInner : Type :=
| Comp_Func (f : WasmFuncType)
| Comp_Array (a : WasmArrayType)
| Comp_Struct (s : WasmStructType).

#[global] Instance WasmCompositeTypeInner_eq_dec : EqDecision WasmCompositeTypeInner.
Proof. solve_decision. Defined.

Record WasmCompositeType : Type := mkComposite {
  comp_inner : WasmCompositeTypeInner;
  comp_shared : bool }.

#[global] Instance WasmCompositeType_eq_dec : EqDecision WasmCompositeType.
Proof. solve_decision. Defined.

Definition new_func (shared : bool) (ty : WasmFuncType) : WasmCompositeType :=
  {| comp_shared := shared; comp_inner := Comp_Func ty |}.
Definition new_array (shared : bool) (ty : WasmArrayType) : WasmCompositeType :=
  {| comp_shared := shared; comp_inner := Comp_Array ty |}.
Definition new_struct (shared : bool) (ty : WasmStructType) : WasmCompositeType :=
  {| comp_shared := shared; comp_inner := Comp_Struct ty |}.

(** [WasmSubType]. *)
Record WasmSubType : Type := mkSubType {
  is_final : bool;
  supertype : option CanonicalizedTypeIndex;
  composite_type : WasmCompositeType }.

#[global] Instance WasmSubType_eq_dec : EqDecision WasmSubType.
Proof. solve_decision. Defined.

(** [WasmSubType::as_func] and its siblings (they forward to the inner enum). *)
Definition as_func (t : WasmSubType) : option WasmFuncType :=
  match comp_inner (composite_type t) with Comp_Func f => Some f | _ => None end.
Definition as_array (t : WasmSubType) : option WasmArrayType :=
  match comp_inner (composite_type t) with Comp_Array a => Some a | _ => None end.
Definition as_struct (t : WasmSubType) : option WasmStructType :=
  match comp_inner (composite_type t) with Comp_Struct s => Some s | _ => None end.
Definition unwrap_func {E} (t : WasmSubType) : outcome E WasmFuncType := unwrap (as_func t).

(** [WasmRecGroup]: the hash-consing key of a recursion group. *)
Record WasmRecGroup : Type := mkRecGroup { rg_types : list WasmSubType }.

#[global] Instance WasmRecGroup_eq_dec : EqDecision WasmRecGroup.
Proof. solve_decision. Defined.
