(* ===== verification/TypeTrace.v ===== *)
(** * Traversal and canonicalization of types

    The trait [TypeTrace] of [src/src/type_registry.rs] with its eleven
    implementations in [src/src/translate/types.rs].  [trace] visits the type
    references ("edges") of a type with a stateful closure, [trace_mut]
    rewrites them.  The default methods of the trait, [canonicalize_for_*] and
    [is_canonicalized_for_*], are defined once for every instance.

    The interface [TypeTraceLaws] says that both traversals go over the same
    list of edges, in the same order, and that [trace_mut] changes nothing but
    edges; all theorems on canonicalization are proved against it. *)
From stdpp Require Import base list option numbers.
From S2P Require Import Prelude Types.
Open Scope Z_scope.

Abbreviation CTI := CanonicalizedTypeIndex.

(** ** The trait *)
Class TypeTrace (T : Type) : Type := {
  trace : forall {S E}, (S -> CTI -> outcome E S) -> T -> S -> outcome E S;
  trace_mut : forall {E}, (CTI -> outcome E CTI) -> T -> outcome E T;
  (** the edges of a type, and their pointwise replacement *)
  edges : T -> list CTI;
  map_edges : (CTI -> CTI) -> T -> T }.

(** What [f] does to an index where it succeeds. *)
Definition result_of {E} (f : CTI -> outcome E CTI) (i : CTI) : CTI := default i (ok (f i)).

Class TypeTraceLaws (T : Type) `{TypeTrace T} : Prop := {
  trace_law : forall {S E} (f : S -> CTI -> outcome E S) t s,
    trace f t s = foldM f (edges t) s;
  trace_mut_law : forall {E} (f : CTI -> outcome E CTI) t,
    trace_mut f t = (mapO f (edges t) ≫= fun _ => Ok (map_edges (result_of f) t));
  edges_map : forall g t, edges (map_edges g t) = g <$> edges t;
  map_edges_ext : forall g h t, Forall (fun i => g i = h i) (edges t) ->
    map_edges g t = map_edges h t;
  map_edges_id : forall t, map_edges id t = t;
  map_edges_compose : forall g h t, map_edges g (map_edges h t) = map_edges (g ∘ h) t }.

(** ** The implementations *)

(** [impl TypeTrace for WasmHeapType]. *)
Definition heap_trace {S E} (f : S -> CTI -> outcome E S) (h : WasmHeapType) (s : S) : outcome E S :=
  match ht_ty h with
  | Heap_ConcreteFunc i | Heap_ConcreteArray i | Heap_ConcreteStruct i => f s i
  | _ => Ok s
  end.
Definition heap_trace_mut {E} (f : CTI -> outcome E CTI) (h : WasmHeapType) : outcome E WasmHeapType :=
  match ht_ty h with
  | Heap_ConcreteFunc i => j ← f i; Ok (mkHeapType (ht_shared h) (Heap_ConcreteFunc j))
  | Heap_ConcreteArray i => j ← f i; Ok (mkHeapType (ht_shared h) (Heap_ConcreteArray j))
  | Heap_ConcreteStruct i => j ← f i; Ok (mkHeapType (ht_shared h) (Heap_ConcreteStruct j))
  | _ => Ok h
  end.
Definition heap_edges (h : WasmHeapType) : list CTI :=
  match ht_ty h with
  | Heap_ConcreteFunc i | Heap_ConcreteArray i | Heap_ConcreteStruct i => [i]
  | _ => []
  end.
Definition heap_map (g : CTI -> CTI) (h : WasmHeapType) : WasmHeapType :=
  mkHeapType (ht_shared h)
    match ht_ty h with
    | Heap_ConcreteFunc i => Heap_ConcreteFunc (g i)
    | Heap_ConcreteArray i => Heap_ConcreteArray (g i)
    | Heap_ConcreteStruct i => Heap_ConcreteStruct (g i)
    | ty => ty
    end.
#[global] Instance heap_type_trace : TypeTrace WasmHeapType := {|
  trace := @heap_trace; trace_mut := @heap_trace_mut;
  edges := heap_edges; map_edges := heap_map |}.

(** [impl TypeTrace for WasmRefType]. *)
Definition ref_trace {S E} (f : S -> CTI -> outcome E S) (r : WasmRefType) (s : S) : outcome E S :=
  trace f (heap_type r) s.
Definition ref_trace_mut {E} (f : CTI -> outcome E CTI) (r : WasmRefType) : outcome E WasmRefType :=
  h ← trace_mut f (heap_type r); Ok (mkRefType (nullable r) h).
#[global] Instance ref_type_trace : TypeTrace WasmRefType := {|
  trace := @ref_trace; trace_mut := @ref_trace_mut;
  edges r := edges (heap_type r);
  map_edges g r := mkRefType (nullable r) (map_edges g (heap_type r)) |}.

(** [impl TypeTrace for WasmValType]. *)
Definition val_trace {S E} (f : S -> CTI -> outcome E S) (v : WasmValType) (s : S) : outcome E S :=
  match v with Val_Ref r => trace f r s | _ => Ok s end.
Definition val_trace_mut {E} (f : CTI -> outcome E CTI) (v : WasmValType) : outcome E WasmValType :=
  match v with Val_Ref r => r' ← trace_mut f r; Ok (Val_Ref r') | _ => Ok v end.
#[global] Instance val_type_trace : TypeTrace WasmValType := {|
  trace := @val_trace; trace_mut := @val_trace_mut;
  edges v := match v with Val_Ref r => edges r | _ => [] end;
  map_edges g v := match v with Val_Ref r => Val_Ref (map_edges g r) | _ => v end |}.

(** [impl TypeTrace for WasmStorageType]. *)
Definition storage_trace {S E} (f : S -> CTI -> outcome E S) (st : WasmStorageType) (s : S) : outcome E S :=
  match st with St_Val v => trace f v s | _ => Ok s end.
Definition storage_trace_mut {E} (f : CTI -> outcome E CTI) (st : WasmStorageType) : outcome E WasmStorageType :=
  match st with St_Val v => v' ← trace_mut f v; Ok (St_Val v') | _ => Ok st end.
#[global] Instance storage_type_trace : TypeTrace WasmStorageType := {|
  trace := @storage_trace; trace_mut := @storage_trace_mut;
  edges st := match st with St_Val v => edges v | _ => [] end;
  map_edges g st := match st with St_Val v => St_Val (map_edges g v) | _ => st end |}.

(** [impl TypeTrace for WasmFieldType]. *)
Definition field_trace {S E} (f : S -> CTI -> outcome E S) (fl : WasmFieldType) (s : S) : outcome E S :=
  trace f (fld_element_type fl) s.
Definition field_trace_mut {E} (f : CTI -> outcome E CTI) (fl : WasmFieldType) : outcome E WasmFieldType :=
  st ← trace_mut f (fld_element_type fl); Ok (mkFieldType (fld_mutable fl) st).
#[global] Instance field_type_trace : TypeTrace WasmFieldType := {|
  trace := @field_trace; trace_mut := @field_trace_mut;
  edges fl := edges (fld_element_type fl);
  map_edges g fl := mkFieldType (fld_mutable fl) (map_edges g (fld_element_type fl)) |}.

(** The loops [for ty in &self.xs { ty.trace(func)?; }] over a boxed slice. *)
Definition slice_trace `{TypeTrace T} {S E} (f : S -> CTI -> outcome E S) (l : list T) (s : S) : outcome E S :=
  foldM (fun s t => trace f t s) l s.
Definition slice_trace_mut `{TypeTrace T} {E} (f : CTI -> outcome E CTI) (l : list T) : outcome E (list T) :=
  mapO (trace_mut f) l.
#[global] Instance slice_type_trace `{TypeTrace T} : TypeTrace (list T) := {|
  trace := @slice_trace T _; trace_mut := @slice_trace_mut T _;
  edges l := l ≫= edges;
  map_edges g l := map_edges g <$> l |}.

(** [impl TypeTrace for WasmFuncType]: parameters, then results. *)
Definition func_trace {S E} (f : S -> CTI -> outcome E S) (ft : WasmFuncType) (s : S) : outcome E S :=
  s1 ← trace f (fn_params ft) s; trace f (fn_results ft) s1.
Definition func_trace_mut {E} (f : CTI -> outcome E CTI) (ft : WasmFuncType) : outcome E WasmFuncType :=
  ps ← trace_mut f (fn_params ft); rs ← trace_mut f (fn_results ft); Ok (mkFuncType ps rs).
#[global] Instance func_type_trace : TypeTrace WasmFuncType := {|
  trace := @func_trace; trace_mut := @func_trace_mut;
  edges ft := edges (fn_params ft) ++ edges (fn_results ft);
  map_edges g ft := mkFuncType (map_edges g (fn_params ft)) (map_edges g (fn_results ft)) |}.

(** [impl TypeTrace for WasmArrayType]. *)
Definition array_trace {S E} (f : S -> CTI -> outcome E S) (a : WasmArrayType) (s : S) : outcome E S :=
  trace f (arr_field a) s.
Definition array_trace_mut {E} (f : CTI -> outcome E CTI) (a : WasmArrayType) : outcome E WasmArrayType :=
  fl ← trace_mut f (arr_field a); Ok (mkArrayType fl).
#[global] Instance array_type_trace : TypeTrace WasmArrayType := {|
  trace := @array_trace; trace_mut := @array_trace_mut;
  edges a := edges (arr_field a);
  map_edges g a := mkArrayType (map_edges g (arr_field a)) |}.

(** [impl TypeTrace for WasmStructType]. *)
Definition struct_trace {S E} (f : S -> CTI -> outcome E S) (st : WasmStructType) (s : S) : outcome E S :=
  trace f (str_fields st) s.
Definition struct_trace_mut {E} (f : CTI -> outcome E CTI) (st : WasmStructType) : outcome E WasmStructType :=
  fs ← trace_mut f (str_fields st); Ok (mkStructType fs).
#[global] Instance struct_type_trace : TypeTrace WasmStructType := {|
  trace := @struct_trace; trace_mut := @struct_trace_mut;
  edges st := edges (str_fields st);
  map_edges g st := mkStructType (map_edges g (str_fields st)) |}.

(** [impl TypeTrace for WasmCompositeType]. *)
Definition composite_trace {S E} (f : S -> CTI -> outcome E S) (c : WasmCompositeType) (s : S) : outcome E S :=
  match comp_inner c with
  | Comp_Func ft => trace f ft s
  | Comp_Array a => trace f a s
  | Comp_Struct st => trace f st s
  end.
Definition composite_trace_mut {E} (f : CTI -> outcome E CTI) (c : WasmCompositeType) : outcome E WasmCompositeType :=
  match comp_inner c with
  | Comp_Func ft => x ← trace_mut f ft; Ok (mkComposite (Comp_Func x) (comp_shared c))
  | Comp_Array a => x ← trace_mut f a; Ok (mkComposite (Comp_Array x) (comp_shared c))
  | Comp_Struct st => x ← trace_mut f st; Ok (mkComposite (Comp_Struct x) (comp_shared c))
  end.
#[global] Instance composite_type_trace : TypeTrace WasmCompositeType := {|
  trace := @composite_trace; trace_mut := @composite_trace_mut;
  edges c := match comp_inner c with
             | Comp_Func ft => edges ft | Comp_Array a => edges a | Comp_Struct st => edges st
             end;
  map_edges g c :=
    mkComposite match comp_inner c with
                | Comp_Func ft => Comp_Func (map_edges g ft)
                | Comp_Array a => Comp_Array (map_edges g a)
                | Comp_Struct st => Comp_Struct (map_edges g st)
                end (comp_shared c) |}.

(** [impl TypeTrace for WasmSubType]: the supertype, then the body. *)
Definition sub_trace {S E} (f : S -> CTI -> outcome E S) (t : WasmSubType) (s : S) : outcome E S :=
  s1 ← match supertype t with Some sup => f s sup | None => Ok s end;
  trace f (composite_type t) s1.
Definition sub_trace_mut {E} (f : CTI -> outcome E CTI) (t : WasmSubType) : outcome E WasmSubType :=
  sup ← match supertype t with Some i => j ← f i; Ok (Some j) | None => Ok None end;
  c ← trace_mut f (composite_type t);
  Ok (mkSubType (is_final t) sup c).
#[global] Instance sub_type_trace : TypeTrace WasmSubType := {|
  trace := @sub_trace; trace_mut := @sub_trace_mut;
  edges t := option_list (supertype t) ++ edges (composite_type t);
  map_edges g t := mkSubType (is_final t) (g <$> supertype t) (map_edges g (composite_type t)) |}.

(** [impl TypeTrace for WasmRecGroup]. *)
Definition rec_group_trace {S E} (f : S -> CTI -> outcome E S) (g : WasmRecGroup) (s : S) : outcome E S :=
  trace f (rg_types g) s.
Definition rec_group_trace_mut {E} (f : CTI -> outcome E CTI) (g : WasmRecGroup) : outcome E WasmRecGroup :=
  ts ← trace_mut f (rg_types g); Ok (mkRecGroup ts).
#[global] Instance rec_group_type_trace : TypeTrace WasmRecGroup := {|
  trace := @rec_group_trace; trace_mut := @rec_group_trace_mut;
  edges g := edges (rg_types g);
  map_edges h g := mkRecGroup (map_edges h (rg_types g)) |}.

(** ** The implementations obey the interface *)
Lemma mapO_app {E X Y} (f : X -> outcome E Y) l1 l2 :
  mapO f (l1 ++ l2) = (ys1 ← mapO f l1; ys2 ← mapO f l2; Ok (ys1 ++ ys2)).
Proof.
  induction l1 as [|x l1 IH]; cbn; [by destruct (mapO f l2)|].
  destruct (f x); cbn; [|done..]. rewrite IH.
  destruct (mapO f l1); cbn; [|done..]. by destruct (mapO f l2).
Qed.

(** A type that wraps one traversable component traverses it. *)
Lemma wrap_mut {A B} `{TypeTraceLaws A} {E} (mk : A -> B) (f : CTI -> outcome E CTI) (a : A) :
  (a' ← trace_mut f a; Ok (mk a')) =
  (mapO f (edges a) ≫= fun _ => Ok (mk (map_edges (result_of f) a))).
Proof. rewrite trace_mut_law. by destruct (mapO f (edges a)). Qed.

(** Close a law of an instance whose value is [mk a]. *)
Ltac wrapped mk a :=
  first
    [ exact (trace_law _ a _)
    | exact (wrap_mut mk _ a)
    | exact (edges_map _ a)
    | match goal with H : Forall _ _ |- _ => exact (f_equal mk (map_edges_ext _ _ a H)) end
    | exact (f_equal mk (map_edges_id a))
    | exact (f_equal mk (map_edges_compose _ _ a)) ].

#[global] Instance heap_laws : TypeTraceLaws WasmHeapType.
Proof.
  split.
  - intros S E f [sh []] s; cbn; try done; by destruct (f s _).
  - intros E f [sh []]; cbn; unfold heap_trace_mut, heap_map, result_of; cbn; try done; destruct (f _); done.
  - by intros g [sh []].
  - intros g h [sh []] H; cbn in *; try done; unfold heap_map; cbn; by apply Forall_cons_1 in H as [-> _].
  - by intros [sh []].
  - by intros g h [sh []].
Qed.

#[global] Instance ref_laws : TypeTraceLaws WasmRefType.
Proof.
  split; [intros ???[n h] ?|intros ??[n h]|intros ?[n h]|intros ??[n h] ?|intros [n h]|intros ??[n h]];
    wrapped (mkRefType n) h.
Qed.

#[global] Instance val_laws : TypeTraceLaws WasmValType.
Proof.
  split; [intros ???[| | | | |r] ?|intros ??[| | | | |r]|intros ?[| | | | |r]
         |intros ??[| | | | |r] ?|intros [| | | | |r]|intros ??[| | | | |r]];
    first [done | wrapped Val_Ref r].
Qed.

#[global] Instance storage_laws : TypeTraceLaws WasmStorageType.
Proof.
  split; [intros ???[| |v] ?|intros ??[| |v]|intros ?[| |v]
         |intros ??[| |v] ?|intros [| |v]|intros ??[| |v]];
    first [done | wrapped St_Val v].
Qed.

#[global] Instance field_laws : TypeTraceLaws WasmFieldType.
Proof.
  split; [intros ???[m t] ?|intros ??[m t]|intros ?[m t]|intros ??[m t] ?|intros [m t]|intros ??[m t]];
    wrapped (mkFieldType m) t.
Qed.

#[global] Instance slice_laws `{TypeTraceLaws T} : TypeTraceLaws (list T).
Proof.
  split.
  - intros S E f l s; cbn. unfold slice_trace. revert s.
    induction l as [|t l IH]; intros s; cbn; [done|].
    rewrite trace_law, foldM_app. destruct (foldM f (edges t) s); cbn; auto.
  - intros E f l; cbn. unfold slice_trace_mut.
    induction l as [|t l IH]; cbn; [done|].
    rewrite trace_mut_law, mapO_app. destruct (mapO f (edges t)); cbn; [|done..].
    rewrite IH. by destruct (mapO f (l ≫= edges)).
  - intros g l; cbn. induction l as [|t l IH]; cbn; [done|].
    by rewrite edges_map, fmap_app, IH.
  - intros g h l Hf; cbn in *. induction l as [|t l IH]; cbn in *; [done|].
    apply Forall_app in Hf as [H1 H2]. by rewrite (map_edges_ext g h t H1), IH.
  - intros l; cbn. induction l as [|t l IH]; cbn; [done|]. by rewrite map_edges_id, IH.
  - intros g h l; cbn. rewrite <- list_fmap_compose. apply list_fmap_ext.
    intros i t _; cbn. apply map_edges_compose.
Qed.

#[global] Instance func_laws : TypeTraceLaws WasmFuncType.
Proof.
  split.
  - intros S E f [ps rs] s.
    transitivity (s1 ← trace f ps s; trace f rs s1); [done|].
    transitivity (foldM f (edges ps ++ edges rs) s); [|done].
    rewrite foldM_app, <- trace_law. destruct (trace f ps s) as [s1| |]; [exact (trace_law f rs s1)|done..].
  - intros E f [ps rs].
    transitivity (ps' ← trace_mut f ps; rs' ← trace_mut f rs; Ok (mkFuncType ps' rs')); [done|].
    transitivity (mapO f (edges ps ++ edges rs) ≫= fun _ =>
      Ok (mkFuncType (map_edges (result_of f) ps) (map_edges (result_of f) rs))); [|done].
    rewrite !trace_mut_law, mapO_app.
    destruct (mapO f (edges ps)); cbn -[edges map_edges]; [|done..].
    by destruct (mapO f (edges rs)).
  - intros g [ps rs].
    transitivity (edges (map_edges g ps) ++ edges (map_edges g rs)); [done|].
    rewrite !edges_map, <- fmap_app. done.
  - intros g h [ps rs] [H1 H2]%Forall_app.
    exact (f_equal2 mkFuncType (map_edges_ext g h ps H1) (map_edges_ext g h rs H2)).
  - intros [ps rs]. exact (f_equal2 mkFuncType (map_edges_id ps) (map_edges_id rs)).
  - intros g h [ps rs].
    exact (f_equal2 mkFuncType (map_edges_compose g h ps) (map_edges_compose g h rs)).
Qed.

#[global] Instance array_laws : TypeTraceLaws WasmArrayType.
Proof.
  split; [intros ???[t] ?|intros ??[t]|intros ?[t]|intros ??[t] ?|intros [t]|intros ??[t]];
    wrapped mkArrayType t.
Qed.

#[global] Instance struct_laws : TypeTraceLaws WasmStructType.
Proof.
  split; [intros ???[t] ?|intros ??[t]|intros ?[t]|intros ??[t] ?|intros [t]|intros ??[t]];
    wrapped mkStructType t.
Qed.

#[global] Instance composite_laws : TypeTraceLaws WasmCompositeType.
Proof.
  split; [intros ???[[t|t|t] sh] ?|intros ??[[t|t|t] sh]|intros ?[[t|t|t] sh]
         |intros ??[[t|t|t] sh] ?|intros [[t|t|t] sh]|intros ??[[t|t|t] sh]];
    first [ wrapped (fun x => mkComposite (Comp_Func x) sh) t
          | wrapped (fun x => mkComposite (Comp_Array x) sh) t
          | wrapped (fun x => mkComposite (Comp_Struct x) sh) t ].
Qed.

#[global] Instance sub_laws : TypeTraceLaws WasmSubType.
Proof.
  split.
  - intros S E f [fin [sup|] c] s.
    + transitivity (s1 ← f s sup; trace f c s1); [done|].
      transitivity (foldM f (sup :: edges c) s); [|done]. cbn [foldM].
      destruct (f s sup) as [s1| |]; [exact (trace_law f c s1)|done..].
    + exact (trace_law f c s).
  - intros E f [fin [sup|] c].
    + transitivity (sup' ← (j ← f sup; Ok (Some j)); c' ← trace_mut f c; Ok (mkSubType fin sup' c')); [done|].
      transitivity (mapO f (sup :: edges c) ≫= fun _ =>
        Ok (mkSubType fin (Some (result_of f sup)) (map_edges (result_of f) c))); [|done].
      rewrite trace_mut_law. cbn [mapO].
      destruct (f sup) as [j| |] eqn:Hs; [|done..].
      replace (result_of f sup) with j by (by unfold result_of; rewrite Hs).
      by destruct (mapO f (edges c)).
    + exact (wrap_mut (mkSubType fin None) f c).
  - intros g [fin [sup|] c]; [|exact (edges_map g c)].
    exact (f_equal (cons (g sup)) (edges_map g c)).
  - intros g h [fin [sup|] c] Hf.
    + apply Forall_cons_1 in Hf as [H1 H2].
      exact (f_equal2 (fun a b => mkSubType fin (Some a) b) H1 (map_edges_ext g h c H2)).
    + exact (f_equal (mkSubType fin None) (map_edges_ext g h c Hf)).
  - intros [fin sup c].
    exact (f_equal2 (mkSubType fin) (option_fmap_id sup) (map_edges_id c)).
  - intros g h [fin [sup|] c].
    + exact (f_equal (mkSubType fin (Some _)) (map_edges_compose g h c)).
    + exact (f_equal (mkSubType fin None) (map_edges_compose g h c)).
Qed.

#[global] Instance rec_group_laws : TypeTraceLaws WasmRecGroup.
Proof.
  split; [intros ???[t] ?|intros ??[t]|intros ?[t]|intros ??[t] ?|intros [t]|intros ??[t]];
    wrapped mkRecGroup t.
Qed.

(** ** Canonicalization (the default methods of the trait) *)
Section Canonicalize.
Context `{TypeTraceLaws T}.

(** The closure of [canonicalize_for_runtime_usage]. *)
Definition runtime_index {E} (module_to_engine : Z -> outcome E Z) (idx : CTI) : outcome E CTI :=
  match idx with
  | Shared _ => Ok idx
  | RecGroup _ => Panic
  | Module_ module_index => index ← module_to_engine module_index; Ok (Shared index)
  end.

Definition canonicalize_for_runtime_usage {E} (module_to_engine : Z -> outcome E Z) (t : T) : outcome E T :=
  trace_mut (runtime_index module_to_engine) t.

Definition is_canonicalized_for_runtime_usage (t : T) : bool :=
  is_ok (trace (E:=unit) (fun _ idx => match idx with Shared _ => Ok tt | _ => Err tt end) t tt).

(** The closure of [canonicalize_for_hash_consing]. *)
Definition hash_consing_index {E} (dbg : bool) (start end_ : Z)
    (module_to_engine : Z -> outcome E Z) (idx : CTI) : outcome E CTI :=
  match idx with
  | Shared _ => Ok idx
  | RecGroup _ => Panic
  | Module_ module_index =>
      if start <=? module_index then
        _ ← debug_assert dbg (module_index <? end_);
        relative ← sub 32 module_index start;
        Ok (RecGroup relative)
      else
        _ ← debug_assert dbg (module_index <? start);
        index ← module_to_engine module_index;
        Ok (Shared index)
  end.

Definition canonicalize_for_hash_consing {E} (dbg : bool) (start end_ : Z)
    (module_to_engine : Z -> outcome E Z) (t : T) : outcome E T :=
  trace_mut (hash_consing_index dbg start end_ module_to_engine) t.

Definition is_canonicalized_for_hash_consing (t : T) : bool :=
  is_ok (trace (E:=unit) (fun _ idx => match idx with Module_ _ => Err tt | _ => Ok tt end) t tt).

(** *** Lemmas *)
Lemma foldM_check_ok (p : CTI -> bool) l :
  is_ok (foldM (E:=unit) (fun (_ : unit) i => if p i then Ok tt else Err tt) l tt) = true <->
  Forall (fun i => p i = true) l.
Proof.
  induction l as [|i l IH]; cbn; [split; [constructor|done]|].
  rewrite Forall_cons_iff, <- IH. destruct (p i); cbn; [tauto|]. split; [done|by intros [? _]].
Qed.

Definition is_shared (i : CTI) : bool := match i with Shared _ => true | _ => false end.
Definition not_module (i : CTI) : bool := match i with Module_ _ => false | _ => true end.

Lemma is_runtime_spec t :
  is_canonicalized_for_runtime_usage t = true <-> Forall (fun i => is_shared i = true) (edges t).
Proof.
  unfold is_canonicalized_for_runtime_usage. rewrite trace_law.
  rewrite (foldM_ext _ (fun _ i => if is_shared i then Ok tt else Err tt)); [apply foldM_check_ok|].
  by intros [] [].
Qed.

Lemma is_hash_consing_spec t :
  is_canonicalized_for_hash_consing t = true <-> Forall (fun i => not_module i = true) (edges t).
Proof.
  unfold is_canonicalized_for_hash_consing. rewrite trace_law.
  rewrite (foldM_ext _ (fun _ i => if not_module i then Ok tt else Err tt)); [apply foldM_check_ok|].
  by intros [] [].
Qed.

(** The result of a rewriting traversal, edge by edge. *)
Lemma trace_mut_ok {E} (f : CTI -> outcome E CTI) (t t' : T) :
  trace_mut f t = Ok t' ->
  Forall2 (fun i j => f i = Ok j) (edges t) (edges t') /\ t' = map_edges (result_of f) t.
Proof.
  rewrite trace_mut_law. intros (js & Hjs & [= <-])%bind_ok. split; [|done].
  rewrite edges_map. apply mapO_ok in Hjs.
  induction Hjs as [|i j l js Hi _ IH]; cbn; constructor; [|done].
  unfold result_of. by rewrite Hi.
Qed.

Lemma trace_mut_intro {E} (f : CTI -> outcome E CTI) (g : CTI -> CTI) (t : T) :
  Forall (fun i => f i = Ok (g i)) (edges t) -> trace_mut f t = Ok (map_edges g t).
Proof.
  intros Hf. rewrite trace_mut_law.
  rewrite (mapO_ext f (fun i => Ok (g i))) by (by apply list.Forall_forall).
  rewrite mapO_total; cbn. f_equal. apply map_edges_ext.
  eapply list.Forall_impl; [done|]. intros i Hi. cbn in Hi. unfold result_of. by rewrite Hi.
Qed.

Lemma trace_mut_ext {E} (f g : CTI -> outcome E CTI) (t : T) :
  Forall (fun i => f i = g i) (edges t) -> trace_mut f t = trace_mut g t.
Proof.
  intros Hf. rewrite !trace_mut_law. rewrite (mapO_ext f g) by (by apply list.Forall_forall).
  destruct (mapO g (edges t)); cbn; [|done..]. f_equal. apply map_edges_ext.
  eapply list.Forall_impl; [done|]. intros i Hi. cbn in Hi. unfold result_of. by rewrite Hi.
Qed.

Lemma trace_mut_map {E} (f : CTI -> outcome E CTI) (g : CTI -> CTI) (t : T) :
  Forall (fun i => exists j, f (g i) = Ok j) (edges t) ->
  trace_mut f (map_edges g t) = trace_mut (f ∘ g) t.
Proof.
  intros Hf. rewrite !trace_mut_law, edges_map, map_edges_compose.
  replace (mapO f (g <$> edges t)) with (mapO (f ∘ g) (edges t))
    by (induction (edges t) as [|x l IH]; cbn; [done|]; rewrite IH by (by inversion Hf); done).
  destruct (mapO (f ∘ g) (edges t)); cbn; [|done..]. f_equal. apply map_edges_ext.
  eapply list.Forall_impl; [done|]. intros i (j & Hj). unfold result_of; cbn. by rewrite Hj.
Qed.

(** *** Correctness *)

(** C30: a type canonicalized for runtime usage has engine-level references only,
    and each of them is the engine's index for the module-level one it replaces
    (references that are engine-level already are kept). *)
Theorem runtime_canonicalization_sound {E} (m2e : Z -> outcome E Z) (t t' : T)
    (Hc : canonicalize_for_runtime_usage m2e t = Ok t') :
  is_canonicalized_for_runtime_usage t' = true /\
  Forall2 (fun i j => match i with
                      | Module_ m => exists s, m2e m = Ok s /\ j = Shared s
                      | _ => j = i
                      end) (edges t) (edges t').
Proof.
  apply trace_mut_ok in Hc as [Hf _]. split.
  - apply is_runtime_spec. induction Hf as [|i j l l' Hi _ IH]; constructor; [|done].
    destruct i; cbn in Hi; inv_ok; done.
  - eapply list.Forall2_impl; [done|]. intros i j Hi. destruct i; cbn in Hi; inv_ok; eauto.
Qed.

(** Moving a recursion group: its own members move with it, every other
    reference keeps its meaning. *)
Definition moved (start end_ start' : Z) (i : CTI) : CTI :=
  match i with
  | Module_ m => if (start <=? m) && (m <? end_) then Module_ (m - start + start') else i
  | _ => i
  end.

(** A reference that occurs in a recursion group at [start, end_): engine-level,
    or to a type of the module up to the end of the group. *)
Definition group_edge (start end_ : Z) (i : CTI) : Prop :=
  match i with
  | Shared _ => True
  | RecGroup _ => False
  | Module_ m => 0 <= m < end_
  end.

(** C29: a hash-consing key mentions no module-level index, and does not depend
    on where in its module the group sits: the same group at another position,
    with its references to itself moved along, has the same key. *)
Theorem hash_consing_key_position_independent {E} dbg start end_ start' (m2e : Z -> outcome E Z) (t t' : T)
    (Hr : 0 <= start <= end_) (Hr' : start <= start') (Hfit : end_ - start + start' < 2 ^ 32)
    (He : Forall (group_edge start end_) (edges t))
    (Hc : canonicalize_for_hash_consing dbg start end_ m2e t = Ok t') :
  is_canonicalized_for_hash_consing t' = true /\
  canonicalize_for_hash_consing dbg start' (end_ - start + start') m2e
    (map_edges (moved start end_ start') t) = Ok t'.
Proof.
  pose proof Hc as [Hf _]%trace_mut_ok. split.
  - apply is_hash_consing_spec. induction Hf as [|i j l l' Hi _ IH]; constructor; [| by apply IH; inversion He].
    destruct i; cbn in Hi; [by inv_ok| |done].
    destruct (start <=? i); inv_ok; done.
  - assert (Forall (fun i => hash_consing_index dbg start' (end_ - start + start') m2e (moved start end_ start' i)
        = hash_consing_index dbg start end_ m2e i) (edges t)) as Hsame.
    { eapply list.Forall_impl; [done|]. intros [i|i|i] Hi; cbn in Hi |- *; [done| |done].
      destruct (Z.leb_spec start i), (Z.ltb_spec i end_); cbn; try lia.
      + rewrite (proj2 (Z.leb_le _ _)), (proj2 (Z.ltb_lt _ _)) by lia.
        unfold sub. by replace (i - start + start' - start') with (i - start) by lia.
      + destruct (Z.leb_spec start' i); [lia|].
        by rewrite !(proj2 (Z.ltb_lt i _)) by lia. }
    unfold canonicalize_for_hash_consing in *. rewrite trace_mut_map.
    + rewrite <- Hc. apply trace_mut_ext. exact Hsame.
    + clear He Hc. induction Hf as [|i j l l' Hi _ IH]; constructor; inversion Hsame; subst; [|auto].
      exists j. congruence.
Qed.

End Canonicalize.

(** A group of one type [(sub $sup (func (param (ref null $self))))]. *)
Definition example_group (sup self : CTI) : WasmRecGroup :=
  mkRecGroup [mkSubType false (Some sup)
    (new_func false (mkFuncType [Val_Ref (mkRefType true (mkHeapType false (Heap_ConcreteFunc self)))] []))].

Definition example_engine (i : Z) : outcome unit Z := Ok (i + 100).

Lemma runtime_canonicalization_sound_witness :
  canonicalize_for_runtime_usage example_engine (example_group (Module_ 1) (Module_ 5)) =
    Ok (example_group (Shared 101) (Shared 105)) /\
  is_canonicalized_for_runtime_usage (example_group (Shared 101) (Shared 105)) = true.
Proof.
  split; [reflexivity|].
  apply (runtime_canonicalization_sound example_engine (example_group (Module_ 1) (Module_ 5))). reflexivity.
Defined.

Lemma hash_consing_key_position_independent_witness :
  canonicalize_for_hash_consing true 9 10 example_engine (example_group (Module_ 1) (Module_ 9)) =
    Ok (example_group (Shared 101) (RecGroup 0)).
Proof.
  refine (proj2 (hash_consing_key_position_independent true 5 6 9 example_engine
    (example_group (Module_ 1) (Module_ 5)) (example_group (Shared 101) (RecGroup 0)) _ _ _ _ _));
    [lia|lia|lia|repeat constructor; cbn; lia|reflexivity].
Defined.
