(* ===== verification/Trap.v ===== *)
(** * Traps ([src/src/trap.rs])

    The trap enumeration, its encoding into the code generator's trap codes and
    back, and its encoding as a byte.  The five reserved codes are constants of
    the code generator, not of this crate: they are a parameter
    ([TrapCodes]) of which only their documented distinctness is used. *)
From stdpp Require Import base list option numbers.
From S2P Require Import Prelude.
Local Open Scope Z_scope.

Inductive Trap : Type :=
| InternalAssertionFailed
| HeapMisaligned
| TableOutOfBounds
| IndirectCallToNull
| BadSignature
| UnreachableCodeReached
| NullReference
| NullI31Ref
| StackOverflow
| MemoryOutOfBounds
| IntegerOverflow
| IntegerDivisionByZero
| BadConversionToInteger.

#[global] Instance Trap_eq_dec : EqDecision Trap.
Proof. solve_decision. Defined.

(** [From<Trap> for u8]; also the discriminant [trap as u8]. *)
Definition trap_to_u8 (t : Trap) : Z :=
  match t with
  | InternalAssertionFailed => 0
  | HeapMisaligned => 1
  | TableOutOfBounds => 2
  | IndirectCallToNull => 3
  | BadSignature => 4
  | UnreachableCodeReached => 5
  | NullReference => 6
  | NullI31Ref => 7
  | StackOverflow => 8
  | MemoryOutOfBounds => 9
  | IntegerOverflow => 10
  | IntegerDivisionByZero => 11
  | BadConversionToInteger => 12
  end.

(** [TryFrom<u8> for Trap]. *)
Definition trap_try_from (value : Z) : option Trap :=
  match value with
  | 0 => Some InternalAssertionFailed
  | 1 => Some HeapMisaligned
  | 2 => Some TableOutOfBounds
  | 3 => Some IndirectCallToNull
  | 4 => Some BadSignature
  | 5 => Some UnreachableCodeReached
  | 6 => Some NullReference
  | 7 => Some NullI31Ref
  | 8 => Some StackOverflow
  | 9 => Some MemoryOutOfBounds
  | 10 => Some IntegerOverflow
  | 11 => Some IntegerDivisionByZero
  | 12 => Some BadConversionToInteger
  | _ => None
  end.

(** The code generator's reserved trap codes; user codes lie in
    [1 .. RESERVED_START - 1]. *)
Class TrapCodes := {
  RESERVED_START : Z;
  STACK_OVERFLOW : Z;
  HEAP_OUT_OF_BOUNDS : Z;
  INTEGER_OVERFLOW : Z;
  INTEGER_DIVISION_BY_ZERO : Z;
  BAD_CONVERSION_TO_INTEGER : Z }.

Section TrapCode.
Context `{TrapCodes}.

(** [TrapCode::unwrap_user], evaluated at compile time. *)
Definition unwrap_user {E} (code : Z) : outcome E Z :=
  if (1 <=? code) && (code <? RESERVED_START) then Ok code else Panic.

Definition TRAP_OFFSET : Z := 1.
Definition user_code (t : Trap) : Z := trap_to_u8 t + TRAP_OFFSET.
Definition TRAP_INTERNAL_ASSERT : Z := user_code InternalAssertionFailed.
Definition TRAP_HEAP_MISALIGNED : Z := user_code HeapMisaligned.
Definition TRAP_TABLE_OUT_OF_BOUNDS : Z := user_code TableOutOfBounds.
Definition TRAP_INDIRECT_CALL_TO_NULL : Z := user_code IndirectCallToNull.
Definition TRAP_BAD_SIGNATURE : Z := user_code BadSignature.
Definition TRAP_UNREACHABLE : Z := user_code UnreachableCodeReached.
Definition TRAP_NULL_REFERENCE : Z := user_code NullReference.
Definition TRAP_I31_NULL_REFERENCE : Z := user_code NullI31Ref.

(** [Trap::from_trap_code]. *)
Definition from_trap_code (code : Z) : option Trap :=
  if code =? STACK_OVERFLOW then Some StackOverflow
  else if code =? HEAP_OUT_OF_BOUNDS then Some MemoryOutOfBounds
  else if code =? INTEGER_OVERFLOW then Some IntegerOverflow
  else if code =? INTEGER_DIVISION_BY_ZERO then Some IntegerDivisionByZero
  else if code =? BAD_CONVERSION_TO_INTEGER then Some BadConversionToInteger
  else if code =? TRAP_INTERNAL_ASSERT then Some InternalAssertionFailed
  else if code =? TRAP_HEAP_MISALIGNED then Some HeapMisaligned
  else if code =? TRAP_TABLE_OUT_OF_BOUNDS then Some TableOutOfBounds
  else if code =? TRAP_INDIRECT_CALL_TO_NULL then Some IndirectCallToNull
  else if code =? TRAP_BAD_SIGNATURE then Some BadSignature
  else if code =? TRAP_UNREACHABLE then Some UnreachableCodeReached
  else if code =? TRAP_NULL_REFERENCE then Some NullReference
  else if code =? TRAP_I31_NULL_REFERENCE then Some NullI31Ref
  else None.

(** The code that compiled code uses for a trap. *)
Definition code_of_trap (t : Trap) : Z :=
  match t with
  | StackOverflow => STACK_OVERFLOW
  | MemoryOutOfBounds => HEAP_OUT_OF_BOUNDS
  | IntegerOverflow => INTEGER_OVERFLOW
  | IntegerDivisionByZero => INTEGER_DIVISION_BY_ZERO
  | BadConversionToInteger => BAD_CONVERSION_TO_INTEGER
  | t => user_code t
  end.

(** Reserved codes are distinct from each other and from every user code, and
    there is room for user codes. *)
Record trap_codes_ok : Prop := {
  tc_room : 16 < RESERVED_START;
  tc_reserved : Forall (fun c => RESERVED_START <= c)
    [STACK_OVERFLOW; HEAP_OUT_OF_BOUNDS; INTEGER_OVERFLOW; INTEGER_DIVISION_BY_ZERO;
     BAD_CONVERSION_TO_INTEGER];
  tc_distinct : NoDup
    [STACK_OVERFLOW; HEAP_OUT_OF_BOUNDS; INTEGER_OVERFLOW; INTEGER_DIVISION_BY_ZERO;
     BAD_CONVERSION_TO_INTEGER] }.
End TrapCode.

#[global] Instance example_trap_codes : TrapCodes :=
  {| RESERVED_START := 251; STACK_OVERFLOW := 251; HEAP_OUT_OF_BOUNDS := 252;
     INTEGER_OVERFLOW := 253; INTEGER_DIVISION_BY_ZERO := 254; BAD_CONVERSION_TO_INTEGER := 255 |}.

(** The trap code emitted for a trap decodes to that trap, and the user
    codes are codes the code generator accepts. *)
Lemma trap_code_roundtrip `{TrapCodes} (t : Trap) (Hok : trap_codes_ok) :
  from_trap_code (code_of_trap t) = Some t /\
  (1 <= user_code t /\ unwrap_user (E:=unit) (user_code t) = Ok (user_code t)).
Proof.
  destruct Hok as [Hroom Hres Hnd].
  repeat (apply Forall_cons_1 in Hres as [? Hres]).
  rewrite !list.NoDup_cons, !not_elem_of_cons in Hnd.
  assert (Hu : 1 <= user_code t < RESERVED_START)
    by (destruct t; unfold user_code, TRAP_OFFSET; cbn; lia).
  split.
  - repeat match goal with H : _ /\ _ |- _ => destruct H end.
    unfold from_trap_code, TRAP_INTERNAL_ASSERT, TRAP_HEAP_MISALIGNED,
      TRAP_TABLE_OUT_OF_BOUNDS, TRAP_INDIRECT_CALL_TO_NULL, TRAP_BAD_SIGNATURE,
      TRAP_UNREACHABLE, TRAP_NULL_REFERENCE, TRAP_I31_NULL_REFERENCE.
    destruct t; cbn [code_of_trap];
      repeat match goal with
      | |- context [?x =? ?y] =>
          first [ replace (x =? y) with false by
                    (symmetry; apply Z.eqb_neq; unfold user_code, TRAP_OFFSET; cbn; lia)
                | rewrite (Z.eqb_refl x) ]
      end; reflexivity.
  - split; [lia|]. unfold unwrap_user.
    by rewrite (proj2 (Z.leb_le _ _)), (proj2 (Z.ltb_lt _ _)) by lia.
Qed.

Lemma trap_code_roundtrip_witness : from_trap_code (code_of_trap BadSignature) = Some BadSignature.
Proof.
  apply trap_code_roundtrip. split; [cbn; lia| |].
  - repeat constructor; cbn; lia.
  - cbn. apply (bool_decide_unpack _). reflexivity.
Defined.

(** The byte encoding of traps is a bijection onto [0 .. 12]: decoding
    inverts encoding, and every byte that decodes is the code of its trap. *)
Lemma trap_u8_bijective :
  (forall t, trap_try_from (trap_to_u8 t) = Some t) /\
  (forall n t, trap_try_from n = Some t -> trap_to_u8 t = n) /\
  (forall n, is_Some (trap_try_from n) <-> 0 <= n <= 12).
Proof.
  assert (Hdec : forall n t, trap_try_from n = Some t -> trap_to_u8 t = n).
  { intros n t H. unfold trap_try_from in H.
    repeat (case_match; try discriminate H); injection H as <-; reflexivity. }
  split; [by intros []|split; [done|]]. intros n; split.
  - intros [t Ht]. apply Hdec in Ht as <-. destruct t; cbn; lia.
  - intros Hn.
    assert (n ∈ seqZ 0 13) as Hin by (apply elem_of_seqZ; lia).
    cbn in Hin. repeat (apply elem_of_cons in Hin as [->|Hin]; [by eexists|]).
    by apply not_elem_of_nil in Hin.
Qed.
