(* ===== verification/Module.v ===== *)
(** * The translated module ([src/src/translate/mod.rs])

    Descriptors of functions, tables, memories and globals, constant
    expressions as data ([src/src/translate/const_expr.rs]), the record
    [TranslatedModule] with its index-space conversions, and the byte-size
    computations of [MemoryDesc].  Entity references ([FuncIndex] etc.) are
    [Z]; [FuncRefIndex]'s reserved value is [u32::MAX].  The debug-information
    fields of a translation (names, producers, DWARF) are not modelled. *)
From stdpp Require Import base list gmap option strings numbers.
From S2P Require Import Prelude Types Trap.
Local Open Scope Z_scope.

(** ** Settings ([src/src/lib.rs]) *)
Definition WASM32_MAX_PAGES : Z := Z.shiftl 1 16.
Definition WASM32_MAX_SIZE : Z := Z.shiftl 1 32.
Definition DEFAULT_OFFSET_GUARD_SIZE : Z := 0x80000000.
Definition MEMORY_MAX : Z := Z.shiftl 1 32.
Definition TABLE_MAX : Z := Z.shiftl 1 10.

(** ** Constant expressions as data ([ConstOp], [ConstExpr]) *)
Inductive ConstOp : Type :=
| I32Const (value : Z)
| I64Const (value : Z)
| F32Const (value : Z)
| F64Const (value : Z)
| V128Const (value : Z)
| GlobalGet (g : Z)
| RefI31
| RefNull
| RefFunc (f : Z)
| I32Add | I32Sub | I32Mul
| I64Add | I64Sub | I64Mul.

#[global] Instance ConstOp_eq_dec : EqDecision ConstOp.
Proof. solve_decision. Defined.

Record ConstExpr : Type := mkConstExpr { ops : list ConstOp }.

(** ** Descriptors *)

(** [FuncRefIndex::reserved_value]. *)
Definition reserved_value : Z := 2 ^ 32 - 1.
Definition is_reserved_value (i : Z) : bool := i =? reserved_value.

Record FunctionDesc : Type := mkFunctionDesc {
  signature : Z;
  func_ref : Z }.

(** [FunctionDesc::is_escaping]. *)
Definition is_escaping (f : FunctionDesc) : bool := negb (is_reserved_value (func_ref f)).

Record TableDesc : Type := mkTableDesc {
  td_element_type : WasmRefType;
  td_table64 : bool;
  td_minimum : Z;
  td_maximum : option Z;
  td_shared : bool }.

Record MemoryDesc : Type := mkMemoryDesc {
  md_minimum : Z;
  md_maximum : option Z;
  md_offset_guard_size : Z;
  md_page_size_log2 : Z;
  md_memory64 : bool;
  md_shared : bool }.

Record GlobalDesc : Type := mkGlobalDesc {
  gd_content_type : WasmValType;
  gd_mutable : bool;
  gd_shared : bool }.

(** [EntityType] of [translate/types.rs]. *)
Inductive EntityType : Type :=
| EntityType_Function (i : CanonicalizedTypeIndex)
| EntityType_Table (t : TableDesc)
| EntityType_Memory (m : MemoryDesc)
| EntityType_Global (g : GlobalDesc).

(** The crate's error type ([src/src/errors.rs]); human-readable messages and
    the payloads of foreign errors are dropped. *)
Inductive Error : Type :=
| InvalidWebAssembly (offset : Z)
| MissingImport (module field : string) (type_ : EntityType)
| Unsupported
| Cranelift
| Gimli
| Wat
| Error_Trap (trap : Trap)
| MmapFailed
| AlreadyDefined (module field : string).

Inductive TableInitialValue : Type :=
| TableInitialValue_RefNull
| TableInitialValue_ConstExpr (e : ConstExpr).

Inductive TableSegmentElements : Type :=
| TSE_Functions (fs : list Z)
| TSE_Expressions (es : list ConstExpr).

Record TableSegment : Type := mkTableSegment {
  ts_table_index : Z;
  ts_offset : ConstExpr;
  ts_elements : TableSegmentElements }.

Record TableInitializers : Type := mkTableInitializers {
  initial_values : list TableInitialValue;
  segments : list TableSegment }.

Record MemoryInitializer : Type := mkMemoryInitializer {
  mi_memory_index : Z;
  mi_offset : ConstExpr;
  mi_data : list Z }.

Record Import : Type := mkImport {
  imp_module : string;
  imp_name : string;
  imp_ty : EntityType }.

(** ** [TranslatedModule] *)
Record TranslatedModule : Type := mkTranslatedModule {
  name : option string;
  types : list Z;
  functions : list FunctionDesc;
  tables : list TableDesc;
  memories : list MemoryDesc;
  globals : list GlobalDesc;
  start : option Z;
  imports : list Import;
  exports : list (string * EntityIndex);
  global_initializers : list ConstExpr;
  table_initializers : TableInitializers;
  memory_initializers : list MemoryInitializer;
  passive_table_initializers : gmap Z TableSegmentElements;
  passive_memory_initializers : gmap Z (list Z);
  active_table_initializers : gset Z;
  active_memory_initializers : gset Z;
  num_imported_functions : Z;
  num_imported_tables : Z;
  num_imported_memories : Z;
  num_imported_globals : Z;
  num_escaped_functions : Z }.

(** [TranslatedModule::default]. *)
Definition default_module : TranslatedModule :=
  {| name := None; types := []; functions := []; tables := []; memories := [];
     globals := []; start := None; imports := []; exports := [];
     global_initializers := [];
     table_initializers := {| initial_values := []; segments := [] |};
     memory_initializers := [];
     passive_table_initializers := ∅; passive_memory_initializers := ∅;
     active_table_initializers := ∅; active_memory_initializers := ∅;
     num_imported_functions := 0; num_imported_tables := 0;
     num_imported_memories := 0; num_imported_globals := 0;
     num_escaped_functions := 0 |}.

(** ** Index spaces

    Imports come first in every index space; the additions and subtractions
    are on [u32] and panic on overflow. *)
Section IndexSpaces.
Context (m : TranslatedModule).

Definition is_imported_func (index : Z) : bool := index <? num_imported_functions m.
Definition is_imported_table (index : Z) : bool := index <? num_imported_tables m.
Definition is_imported_memory (index : Z) : bool := index <? num_imported_memories m.
Definition is_imported_global (index : Z) : bool := index <? num_imported_globals m.

Definition func_index {E} (index : Z) : outcome E Z := add 32 (num_imported_functions m) index.
Definition table_index {E} (index : Z) : outcome E Z := add 32 (num_imported_tables m) index.
Definition global_index {E} (index : Z) : outcome E Z := add 32 (num_imported_globals m) index.

Definition defined_func_index {E} (index : Z) : outcome E (option Z) :=
  if is_imported_func index then Ok None
  else i ← sub 32 index (num_imported_functions m); Ok (Some i).
Definition defined_table_index {E} (index : Z) : outcome E (option Z) :=
  if is_imported_table index then Ok None
  else i ← sub 32 index (num_imported_tables m); Ok (Some i).
Definition defined_memory_index {E} (index : Z) : outcome E (option Z) :=
  if is_imported_memory index then Ok None
  else i ← sub 32 index (num_imported_memories m); Ok (Some i).
Definition defined_global_index {E} (index : Z) : outcome E (option Z) :=
  if is_imported_global index then Ok None
  else i ← sub 32 index (num_imported_globals m); Ok (Some i).

Definition num_functions {E} : outcome E Z := unwrap (try_from 32 (pm_len (functions m))).
Definition num_tables {E} : outcome E Z := unwrap (try_from 32 (pm_len (tables m))).
Definition num_memories {E} : outcome E Z := unwrap (try_from 32 (pm_len (memories m))).
Definition num_globals {E} : outcome E Z := unwrap (try_from 32 (pm_len (globals m))).
Definition num_defined_tables {E} : outcome E Z :=
  n ← num_tables; sub 32 n (num_imported_tables m).
Definition num_defined_memories {E} : outcome E Z :=
  n ← num_memories; sub 32 n (num_imported_memories m).
Definition num_defined_globals {E} : outcome E Z :=
  n ← num_globals; sub 32 n (num_imported_globals m).
Definition num_escaped_funcs : Z := num_escaped_functions m.

(** The well-formedness of the counters against the entity maps. *)
Record module_wf : Prop := {
  wf_funcs : 0 <= num_imported_functions m <= pm_len (functions m);
  wf_tables : 0 <= num_imported_tables m <= pm_len (tables m);
  wf_memories : 0 <= num_imported_memories m <= pm_len (memories m);
  wf_globals : 0 <= num_imported_globals m <= pm_len (globals m);
  wf_escaped : 0 <= num_escaped_functions m <= pm_len (functions m);
  wf_funcs_len : pm_len (functions m) < 2 ^ 32;
  wf_tables_len : pm_len (tables m) < 2 ^ 32;
  wf_memories_len : pm_len (memories m) < 2 ^ 32;
  wf_globals_len : pm_len (globals m) < 2 ^ 32 }.
End IndexSpaces.

(** Conversion in one index space with [n] imports. *)
Lemma index_space_split {E} n len i :
  0 <= n <= len -> 0 <= i < len -> len < 2 ^ 32 ->
  (i < n /\ (i <? n) = true) \/
  (n <= i /\ (i <? n) = false /\ sub (E:=E) 32 i n = Ok (i - n) /\
   0 <= i - n < len - n /\ add (E:=E) 32 n (i - n) = Ok i).
Proof.
  intros Hn Hi Hl. destruct (Z.ltb_spec i n); [by left|right].
  repeat split; try lia.
  - unfold sub. apply ofits_intro. lia.
  - unfold add. replace (n + (i - n)) with i by lia. apply ofits_intro. lia.
Qed.

Lemma index_space_join {E} n len d :
  0 <= n <= len -> 0 <= d < len - n -> len < 2 ^ 32 ->
  add (E:=E) 32 n d = Ok (n + d) /\ (n + d <? n) = false /\ sub (E:=E) 32 (n + d) n = Ok d.
Proof.
  intros Hn Hd Hl. repeat split.
  - unfold add. apply ofits_intro. lia.
  - apply Z.ltb_ge. lia.
  - unfold sub. replace (n + d - n) with d by lia. apply ofits_intro. lia.
Qed.

(** ** [MemoryDesc] *)
Inductive SizeOverflow : Type := mkSizeOverflow.

Section MemoryDesc.
Context (dbg : bool).

(** [MemoryDesc::page_size]; shifting a [u64] by 64 or more panics. *)
Definition page_size {E} (d : MemoryDesc) : outcome E Z :=
  _ ← debug_assert dbg ((md_page_size_log2 d =? 16) || (md_page_size_log2 d =? 0));
  if md_page_size_log2 d <? 64 then Ok (wrap 64 (Z.shiftl 1 (md_page_size_log2 d))) else Panic.

Definition minimum_byte_size (d : MemoryDesc) : outcome SizeOverflow Z :=
  ps ← page_size d;
  ok_or (checked_mul 64 (md_minimum d) ps) mkSizeOverflow.

Definition max_size_based_on_index_type {E} (d : MemoryDesc) : outcome E Z :=
  if md_memory64 d then ps ← page_size d; sub 64 0 ps
  else Ok WASM32_MAX_SIZE.

Definition maximum_byte_size (d : MemoryDesc) : outcome SizeOverflow Z :=
  match md_maximum d with
  | Some max => ps ← page_size d; ok_or (checked_mul 64 max ps) mkSizeOverflow
  | None => min ← minimum_byte_size d;
            ms ← max_size_based_on_index_type d;
            Ok (Z.max min ms)
  end.
End MemoryDesc.

(** What wasm validation guarantees of a memory type. *)
Record memory_type_valid (d : MemoryDesc) : Prop := {
  mt_page : md_page_size_log2 d = 0 \/ md_page_size_log2 d = 16;
  mt_min : 0 <= md_minimum d < 2 ^ 64;
  mt_max : forall mx, md_maximum d = Some mx -> md_minimum d <= mx < 2 ^ 64 }.

Lemma page_size_valid {E} dbg d :
  memory_type_valid d -> page_size (E:=E) dbg d = Ok (2 ^ md_page_size_log2 d).
Proof.
  intros [Hp _ _]. unfold page_size.
  destruct Hp as [Hp|Hp]; rewrite Hp; destruct dbg; reflexivity.
Qed.

Lemma page_size_pos {E} dbg d ps : memory_type_valid d -> page_size (E:=E) dbg d = Ok ps -> 1 <= ps <= 2 ^ 16.
Proof.
  intros Hv. rewrite page_size_valid by done. intros [= <-].
  destruct (mt_page _ Hv) as [Hp|Hp]; rewrite Hp; vm_compute; split; congruence.
Qed.

Lemma ok_or_ok {E A} (o : option A) (e : E) a : ok_or o e = Ok a <-> o = Some a.
Proof. destruct o; cbn; naive_solver. Qed.

(** The byte size of a validated memory's minimum is exact, and the only
    other outcome is the [SizeOverflow] error, raised exactly when the product
    does not fit in 64 bits. *)
Lemma minimum_byte_size_exact dbg (d : MemoryDesc) (Hv : memory_type_valid d) :
  let bytes := md_minimum d * 2 ^ md_page_size_log2 d in
  minimum_byte_size dbg d =
    if bytes <? 2 ^ 64 then Ok bytes else Err mkSizeOverflow.
Proof.
  cbn zeta. unfold minimum_byte_size. rewrite page_size_valid by done. cbn.
  unfold checked_mul, try_from, fits.
  pose proof (mt_min _ Hv) as [H0 _].
  assert (0 <= md_minimum d * 2 ^ md_page_size_log2 d) by (apply Z.mul_nonneg_nonneg; lia).
  destruct (Z.leb_spec 0 (md_minimum d * 2 ^ md_page_size_log2 d)); [|lia]. cbn.
  by destruct (_ <? _).
Qed.

Lemma minimum_byte_size_exact_witness :
  minimum_byte_size true (mkMemoryDesc 3 None DEFAULT_OFFSET_GUARD_SIZE 16 false false) = Ok 196608.
Proof.
  rewrite minimum_byte_size_exact; [reflexivity|].
  split; cbn; [by right|lia|done].
Defined.

(** Whenever both byte sizes of a validated memory are computed, the
    minimum does not exceed the maximum; and a 32-bit memory without a declared
    maximum may grow to at least 4 GiB. *)
Lemma byte_sizes_ordered dbg (d : MemoryDesc) (Hv : memory_type_valid d) mn mx
    (Hmin : minimum_byte_size dbg d = Ok mn) (Hmax : maximum_byte_size dbg d = Ok mx) :
  mn <= mx /\ (md_maximum d = None -> md_memory64 d = false -> WASM32_MAX_SIZE <= mx).
Proof.
  pose proof Hv as [_ Hmn Hmx]. pose proof (page_size_valid (E:=SizeOverflow) dbg d Hv) as Hps.
  unfold maximum_byte_size in Hmax. destruct (md_maximum d) as [m|] eqn:Hm.
  - unfold minimum_byte_size in Hmin. rewrite Hps in Hmin, Hmax. cbn in Hmin, Hmax.
    apply ok_or_ok, try_from_Some in Hmin as [-> _], Hmax as [-> _].
    split; [|done]. apply Z.mul_le_mono_nonneg_r; [lia|]. by apply Hmx.
  - rewrite Hmin in Hmax. cbn in Hmax.
    apply bind_ok in Hmax as (ms & Hms & [= <-]). split; [lia|].
    intros _ H64. unfold max_size_based_on_index_type in Hms. rewrite H64 in Hms.
    injection Hms as <-. lia.
Qed.

Lemma byte_sizes_ordered_witness :
  65536 <= 131072.
Proof.
  apply (byte_sizes_ordered true (mkMemoryDesc 1 (Some 2) DEFAULT_OFFSET_GUARD_SIZE 16 false false));
    [|reflexivity|reflexivity].
  split; cbn; [by right|lia|intros mx [= <-]; lia].
Defined.

(** The size limit of a validated 64-bit memory is never computed:
    [0_u64 - self.page_size()] overflows, so [maximum_byte_size] panics for
    every 64-bit memory without a declared maximum whose minimum is
    representable. *)
Lemma memory64_limit_panics dbg (d : MemoryDesc) (Hv : memory_type_valid d)
    (H64 : md_memory64 d = true) :
  max_size_based_on_index_type (E:=SizeOverflow) dbg d = Panic /\
  (md_maximum d = None -> is_ok (minimum_byte_size dbg d) = true ->
   maximum_byte_size dbg d = Panic).
Proof.
  assert (Hp : max_size_based_on_index_type (E:=SizeOverflow) dbg d = Panic).
  { unfold max_size_based_on_index_type. rewrite H64.
    destruct (page_size dbg d) as [ps| |] eqn:Hps; cbn;
      [|by rewrite page_size_valid in Hps by done..].
    apply page_size_pos in Hps; [|done]. unfold sub, ofits.
    destruct (fits 64 (0 - ps)) eqn:F; [|done]. apply fits_spec in F. lia. }
  split; [done|]. intros Hm Hmin. unfold maximum_byte_size. rewrite Hm.
  destruct (minimum_byte_size dbg d); cbn in Hmin; [|done..]. cbn. by rewrite Hp.
Qed.

Lemma memory64_limit_panics_witness :
  maximum_byte_size false (mkMemoryDesc 1 None DEFAULT_OFFSET_GUARD_SIZE 16 true false) = Panic.
Proof.
  apply (memory64_limit_panics false (mkMemoryDesc 1 None DEFAULT_OFFSET_GUARD_SIZE 16 true false));
    [|reflexivity..].
  split; cbn; [by right|lia|done].
Defined.

(** In a well-formed module every function index is either imported, or
    the image of exactly one defined index, and the two conversions are mutually
    inverse without overflow; the same holds of tables and globals. *)
Lemma index_spaces_bijective {E} (m : TranslatedModule) (Hwf : module_wf m) :
  (forall i, 0 <= i < pm_len (functions m) ->
     if is_imported_func m i then defined_func_index (E:=E) m i = Ok None
     else exists d, defined_func_index (E:=E) m i = Ok (Some d) /\ func_index (E:=E) m d = Ok i) /\
  (forall d, 0 <= d < pm_len (functions m) - num_imported_functions m ->
     exists i, func_index (E:=E) m d = Ok i /\ defined_func_index (E:=E) m i = Ok (Some d)) /\
  (forall d, 0 <= d < pm_len (tables m) - num_imported_tables m ->
     exists i, table_index (E:=E) m d = Ok i /\ defined_table_index (E:=E) m i = Ok (Some d)) /\
  (forall d, 0 <= d < pm_len (globals m) - num_imported_globals m ->
     exists i, global_index (E:=E) m d = Ok i /\ defined_global_index (E:=E) m i = Ok (Some d)).
Proof.
  destruct Hwf. split; [|split; [|split]].
  - intros i Hi. unfold defined_func_index, is_imported_func, func_index.
    destruct (index_space_split (E:=E) (num_imported_functions m) (pm_len (functions m)) i)
      as [[_ ->]|(_ & -> & -> & _ & ?)]; try done. cbn. eauto.
  - intros d Hd. unfold defined_func_index, is_imported_func, func_index.
    destruct (index_space_join (E:=E) (num_imported_functions m) (pm_len (functions m)) d)
      as (-> & H2 & H3); try done. eexists; split; [done|]. by rewrite H2, H3.
  - intros d Hd. unfold defined_table_index, is_imported_table, table_index.
    destruct (index_space_join (E:=E) (num_imported_tables m) (pm_len (tables m)) d)
      as (-> & H2 & H3); try done. eexists; split; [done|]. by rewrite H2, H3.
  - intros d Hd. unfold defined_global_index, is_imported_global, global_index.
    destruct (index_space_join (E:=E) (num_imported_globals m) (pm_len (globals m)) d)
      as (-> & H2 & H3); try done. eexists; split; [done|]. by rewrite H2, H3.
Qed.

Lemma module_wf_default : module_wf default_module.
Proof. split; unfold pm_len; cbn; lia. Qed.

(** A module with one imported and two defined functions. *)
Definition example_module : TranslatedModule :=
  {| name := None; types := [0];
     functions := [mkFunctionDesc 0 reserved_value; mkFunctionDesc 0 0; mkFunctionDesc 0 1];
     tables := []; memories := []; globals := []; start := None;
     imports := [mkImport "env" "f" (EntityType_Function (Module_ 0))];
     exports := [("g"%string, Ent_Function 1)]; global_initializers := [];
     table_initializers := {| initial_values := []; segments := [] |};
     memory_initializers := []; passive_table_initializers := ∅;
     passive_memory_initializers := ∅; active_table_initializers := ∅;
     active_memory_initializers := ∅; num_imported_functions := 1;
     num_imported_tables := 0; num_imported_memories := 0;
     num_imported_globals := 0; num_escaped_functions := 2 |}.

Lemma module_wf_example : module_wf example_module.
Proof. split; unfold pm_len; cbn; lia. Qed.

Lemma index_spaces_bijective_witness :
  exists i, func_index (E:=unit) example_module 1 = Ok i /\
            defined_func_index (E:=unit) example_module i = Ok (Some 1).
Proof. apply (index_spaces_bijective example_module module_wf_example); unfold pm_len; cbn; lia. Defined.
