(* ===== verification/ModuleTypes.v ===== *)
(** * Interning the types of a module ([src/src/translate/module_types.rs],
      [src/src/translate/type_convert.rs])

    The validator hands out recursion groups and types under opaque ids; the
    builder interns them into dense module-level indices and converts them.
    Ids are keys only, so they are integers here; the validator's table is the
    record [TypesRef]. *)
From stdpp Require Import base list gmap option numbers.
From S2P Require Import Prelude Types TypeTrace Module.
Local Open Scope Z_scope.

(** ** The validator's types ([wasmparser]) *)
Module wasmparser.
Inductive UnpackedIndex : Type :=
| Module_ (i : Z)
| RecGroup (i : Z)
| Id (id : Z).

Inductive AbstractHeapType : Type :=
| Func | Extern | Any | None_ | NoExtern | NoFunc | Eq | Struct | Array | I31
| Exn | NoExn | Cont | NoCont.

Inductive HeapType : Type :=
| Abstract (shared : bool) (ty : AbstractHeapType)
| Concrete (index : UnpackedIndex).

Record RefType : Type := mkRef { is_nullable : bool; heap_type : HeapType }.

Inductive ValType : Type := I32 | I64 | F32 | F64 | V128 | Ref (r : RefType).
Inductive StorageType : Type := I8 | I16 | Val (v : ValType).
Record FieldType : Type := mkField { mutable : bool; element_type : StorageType }.
Record FuncType : Type := mkFunc { params : list ValType; results : list ValType }.

Inductive CompositeInnerType : Type :=
| CFunc (f : FuncType)
| CArray (a : FieldType)
| CStruct (fields : list FieldType)
| CCont (c : UnpackedIndex).

Record CompositeType : Type := mkComposite { shared : bool; inner : CompositeInnerType }.
Record SubType : Type := mkSub {
  is_final : bool;
  supertype_idx : option UnpackedIndex;
  composite_type : CompositeType }.

(** [TypesRef]: the validator's identity, its groups and its types. *)
Record TypesRef : Type := mkTypesRef {
  types_id : Z;
  rec_group_elements : Z -> list Z;
  type_of_id : Z -> SubType }.
End wasmparser.

(** ** [ModuleTypes] *)
Record ModuleTypes : Type := mkModuleTypes {
  wasm_types : list WasmSubType;
  rec_groups : list (Z * Z);
  seen_types : gmap Z Z }.

Definition len_wasm_types (t : ModuleTypes) : Z := pm_len (wasm_types t).
Definition get_wasm_type (t : ModuleTypes) (ty : Z) : option WasmSubType := pm_get (wasm_types t) ty.

(** [iter_entity_range]. *)
Definition entity_range (r : Z * Z) : list Z := seqZ r.1 (r.2 - r.1).

Definition rec_group_elements {E} (t : ModuleTypes) (rec_group : Z) : outcome E (list Z) :=
  range ← pm_index (rec_groups t) rec_group; Ok (entity_range range).

(** ** [WasmparserTypeConverter] *)
Section Convert.
Context {E : Type} (types : ModuleTypes) (mtypes : list Z).
(** [mtypes] is the field [types] of the [TranslatedModule] being built. *)

Definition lookup_type_index (index : wasmparser.UnpackedIndex) : outcome E Z :=
  match index with
  | wasmparser.Module_ i => pm_index mtypes i
  | wasmparser.Id id => unwrap (seen_types types !! id)
  | wasmparser.RecGroup _ => Panic
  end.

(** The heap type of an interned index: its kind is read off the interned
    type, which therefore has to be defined already ([todo!] otherwise). *)
Definition concrete_heap_type (index : Z) : outcome E WasmHeapType :=
  match get_wasm_type types index with
  | Some ty =>
      Ok (mkHeapType (comp_shared (composite_type ty))
            match comp_inner (composite_type ty) with
            | Comp_Func _ => Heap_ConcreteFunc (Module_ index)
            | Comp_Array _ => Heap_ConcreteArray (Module_ index)
            | Comp_Struct _ => Heap_ConcreteStruct (Module_ index)
            end)
  | None => Panic
  end.

Definition lookup_heap_type (index : wasmparser.UnpackedIndex) : outcome E WasmHeapType :=
  match index with
  | wasmparser.Module_ i => index ← pm_index mtypes i; concrete_heap_type index
  | wasmparser.Id id => index ← unwrap (seen_types types !! id); concrete_heap_type index
  | wasmparser.RecGroup _ => Panic
  end.

Definition convert_heap_type (ty : wasmparser.HeapType) : outcome E WasmHeapType :=
  match ty with
  | wasmparser.Concrete index => lookup_heap_type index
  | wasmparser.Abstract shared ty =>
      Ok (mkHeapType shared
            match ty with
            | wasmparser.Func => Heap_Func
            | wasmparser.Extern => Heap_Extern
            | wasmparser.Any => Heap_Any
            | wasmparser.None_ => Heap_None
            | wasmparser.NoExtern => Heap_NoExtern
            | wasmparser.NoFunc => Heap_NoFunc
            | wasmparser.Eq => Heap_Eq
            | wasmparser.Struct => Heap_Struct
            | wasmparser.Array => Heap_Array
            | wasmparser.I31 => Heap_I31
            | wasmparser.Exn => Heap_Exn
            | wasmparser.NoExn => Heap_NoExn
            | wasmparser.Cont => Heap_Cont
            | wasmparser.NoCont => Heap_NoCont
            end)
  end.

Definition convert_ref_type (ty : wasmparser.RefType) : outcome E WasmRefType :=
  heap_type ← convert_heap_type (wasmparser.heap_type ty);
  Ok (mkRefType (wasmparser.is_nullable ty) heap_type).

Definition convert_val_type (ty : wasmparser.ValType) : outcome E WasmValType :=
  match ty with
  | wasmparser.I32 => Ok Val_I32
  | wasmparser.I64 => Ok Val_I64
  | wasmparser.F32 => Ok Val_F32
  | wasmparser.F64 => Ok Val_F64
  | wasmparser.V128 => Ok Val_V128
  | wasmparser.Ref ty => r ← convert_ref_type ty; Ok (Val_Ref r)
  end.

Definition convert_storage_type (ty : wasmparser.StorageType) : outcome E WasmStorageType :=
  match ty with
  | wasmparser.I8 => Ok St_I8
  | wasmparser.I16 => Ok St_I16
  | wasmparser.Val ty => v ← convert_val_type ty; Ok (St_Val v)
  end.

Definition convert_field_type (ty : wasmparser.FieldType) : outcome E WasmFieldType :=
  element_type ← convert_storage_type (wasmparser.element_type ty);
  Ok (mkFieldType (wasmparser.mutable ty) element_type).

Definition convert_func_type (ty : wasmparser.FuncType) : outcome E WasmFuncType :=
  params ← mapO convert_val_type (wasmparser.params ty);
  results ← mapO convert_val_type (wasmparser.results ty);
  Ok (mkFuncType params results).

Definition convert_array_type (ty : wasmparser.FieldType) : outcome E WasmArrayType :=
  f ← convert_field_type ty; Ok (mkArrayType f).

Definition convert_struct_type (fields : list wasmparser.FieldType) : outcome E WasmStructType :=
  fields ← mapO convert_field_type fields; Ok (mkStructType fields).

Definition convert_composite_type (ty : wasmparser.CompositeType) : outcome E WasmCompositeType :=
  match wasmparser.inner ty with
  | wasmparser.CFunc func => f ← convert_func_type func; Ok (new_func (wasmparser.shared ty) f)
  | wasmparser.CArray array => a ← convert_array_type array; Ok (new_array (wasmparser.shared ty) a)
  | wasmparser.CStruct strct => s ← convert_struct_type strct; Ok (new_struct (wasmparser.shared ty) s)
  | wasmparser.CCont _ => Panic
  end.

Definition convert_sub_type (ty : wasmparser.SubType) : outcome E WasmSubType :=
  supertype ← match wasmparser.supertype_idx ty with
              | Some index => i ← lookup_type_index index; Ok (Some (Module_ i))
              | None => Ok None
              end;
  composite_type ← convert_composite_type (wasmparser.composite_type ty);
  Ok (mkSubType (wasmparser.is_final ty) supertype composite_type).
End Convert.

(** ** [ModuleTypesBuilder] *)
Record RecGroupInProgress : Type := mkInProgress {
  rec_group_index : Z;
  rg_start : Z;
  rg_end : Z }.

Record ModuleTypesBuilder : Type := mkBuilder {
  validator_id : Z;
  b_types : ModuleTypes;
  seen_rec_groups : gmap Z Z;
  rec_group_in_progress : option RecGroupInProgress }.

Definition builder_new (validator : Z) : ModuleTypesBuilder :=
  mkBuilder validator (mkModuleTypes [] [] ∅) ∅ None.

Definition finish (b : ModuleTypesBuilder) : ModuleTypes := b_types b.

Definition with_types (b : ModuleTypesBuilder) (t : ModuleTypes) : ModuleTypesBuilder :=
  mkBuilder (validator_id b) t (seen_rec_groups b) (rec_group_in_progress b).

Definition next_rec_group_index (b : ModuleTypesBuilder) : Z := pm_next_key (rec_groups (b_types b)).
Definition next_type_index (b : ModuleTypesBuilder) : Z := pm_next_key (wasm_types (b_types b)).

Definition push_rec_group (b : ModuleTypesBuilder) (range : Z * Z) : Z * ModuleTypesBuilder :=
  let t := b_types b in
  (next_rec_group_index b,
   with_types b (mkModuleTypes (wasm_types t) (pm_push (rec_groups t) range) (seen_types t))).

Definition push_type (b : ModuleTypesBuilder) (ty : WasmSubType) : Z * ModuleTypesBuilder :=
  let t := b_types b in
  (next_type_index b,
   with_types b (mkModuleTypes (pm_push (wasm_types t) ty) (rec_groups t) (seen_types t))).

(** Reserve the indices of a group: the loop of [start_rec_group]. *)
Definition reserve {E} (dbg : bool) (len : Z) (seen : gmap Z Z) (p : nat * Z) : outcome E (gmap Z Z) :=
  let interned := len + Z.of_nat p.1 in
  _ ← debug_assert dbg (bool_decide (seen !! p.2 = None));
  Ok (<[p.2 := interned]> seen).

Definition start_rec_group {E} (dbg : bool) (b : ModuleTypesBuilder)
    (vt : wasmparser.TypesRef) (elems : list Z) : outcome E ModuleTypesBuilder :=
  _ ← assert_ (bool_decide (rec_group_in_progress b = None));
  _ ← assert_ (wasmparser.types_id vt =? validator_id b);
  let t := b_types b in
  seen ← foldM (reserve dbg (len_wasm_types t)) (imap pair elems) (seen_types t);
  Ok (mkBuilder (validator_id b) (mkModuleTypes (wasm_types t) (rec_groups t) seen) (seen_rec_groups b)
        (Some (mkInProgress (next_rec_group_index b) (next_type_index b) (len_wasm_types t + pm_len elems)))).

Definition wasm_sub_type_in_rec_group {E} (dbg : bool) (b : ModuleTypesBuilder) (id : Z)
    (ty : WasmSubType) : outcome E ModuleTypesBuilder :=
  _ ← assert_ (bool_decide (is_Some (rec_group_in_progress b)));
  let '(module_interned_index, b') := push_type b ty in
  _ ← debug_assert dbg (bool_decide (seen_types (b_types b') !! id = Some module_interned_index));
  Ok b'.

Definition end_rec_group {E} (dbg : bool) (b : ModuleTypesBuilder) (rec_group_id : Z)
  : outcome E (Z * ModuleTypesBuilder) :=
  p ← unwrap (rec_group_in_progress b);
  let b := mkBuilder (validator_id b) (b_types b) (seen_rec_groups b) None in
  _ ← debug_assert dbg (rg_start p <? len_wasm_types (b_types b));
  _ ← debug_assert dbg (rg_end p =? next_type_index b);
  let '(idx, b) := push_rec_group b (rg_start p, rg_end p) in
  _ ← debug_assert dbg (idx =? rec_group_index p);
  Ok (rec_group_index p,
      mkBuilder (validator_id b) (b_types b) (<[rec_group_id := rec_group_index p]> (seen_rec_groups b))
        (rec_group_in_progress b)).

Definition define_type {E} (dbg : bool) (mtypes : list Z) (vt : wasmparser.TypesRef)
    (b : ModuleTypesBuilder) (id : Z) : outcome E ModuleTypesBuilder :=
  wasm_ty ← convert_sub_type (b_types b) mtypes (wasmparser.type_of_id vt id);
  wasm_sub_type_in_rec_group dbg b id wasm_ty.

Definition define_new_rec_group {E} (dbg : bool) (b : ModuleTypesBuilder) (mtypes : list Z)
    (vt : wasmparser.TypesRef) (rec_group_id : Z) : outcome E (Z * ModuleTypesBuilder) :=
  b ← start_rec_group dbg b vt (wasmparser.rec_group_elements vt rec_group_id);
  b ← foldM (define_type dbg mtypes vt) (wasmparser.rec_group_elements vt rec_group_id) b;
  end_rec_group dbg b rec_group_id.

Definition intern_rec_group {E} (dbg : bool) (b : ModuleTypesBuilder) (mtypes : list Z)
    (vt : wasmparser.TypesRef) (rec_group_id : Z) : outcome E (Z * ModuleTypesBuilder) :=
  _ ← assert_ (wasmparser.types_id vt =? validator_id b);
  match seen_rec_groups b !! rec_group_id with
  | Some interned => Ok (interned, b)
  | None => define_new_rec_group dbg b mtypes vt rec_group_id
  end.

(** ** What conversion computes *)

(** The concrete type references of a validator type, in order. *)
Definition heap_refs (h : wasmparser.HeapType) : list wasmparser.UnpackedIndex :=
  match h with wasmparser.Concrete i => [i] | _ => [] end.
Definition val_refs (v : wasmparser.ValType) : list wasmparser.UnpackedIndex :=
  match v with wasmparser.Ref r => heap_refs (wasmparser.heap_type r) | _ => [] end.
Definition field_refs (f : wasmparser.FieldType) : list wasmparser.UnpackedIndex :=
  match wasmparser.element_type f with wasmparser.Val v => val_refs v | _ => [] end.
Definition composite_refs (c : wasmparser.CompositeType) : list wasmparser.UnpackedIndex :=
  match wasmparser.inner c with
  | wasmparser.CFunc f => (wasmparser.params f ≫= val_refs) ++ (wasmparser.results f ≫= val_refs)
  | wasmparser.CArray a => field_refs a
  | wasmparser.CStruct fs => fs ≫= field_refs
  | wasmparser.CCont _ => []
  end.
Definition is_cont (c : wasmparser.CompositeType) : bool :=
  match wasmparser.inner c with wasmparser.CCont _ => true | _ => false end.

Section ConvertSpec.
Context {E : Type} (types : ModuleTypes) (mtypes : list Z).

(** A reference resolves to an interned index whose type is defined already. *)
Definition ref_defined (r : wasmparser.UnpackedIndex) : bool :=
  match lookup_type_index (E:=E) types mtypes r with
  | Ok i => bool_decide (is_Some (get_wasm_type types i))
  | _ => false
  end.

Definition resolves (r : wasmparser.UnpackedIndex) (e : CTI) : Prop :=
  exists i, lookup_type_index (E:=E) types mtypes r = Ok i /\ e = Module_ i.

(** A conversion succeeds exactly when all references are defined, and its
    result refers to what they resolve to, in order. *)
Definition conv_spec {X Y} `{TypeTrace Y} (conv : X -> outcome E Y)
    (refs : X -> list wasmparser.UnpackedIndex) : Prop := forall x,
  if forallb ref_defined (refs x)
  then exists y, conv x = Ok y /\ Forall2 resolves (refs x) (edges y)
  else conv x = Panic.

Lemma convert_heap_type_spec : conv_spec (convert_heap_type types mtypes) heap_refs.
Proof.
  intros [shared ty|r]; cbn.
  - eexists. split; [done|]. destruct ty; constructor.
  - rewrite andb_true_r. unfold ref_defined, resolves, lookup_heap_type, concrete_heap_type.
    destruct r as [i|i|id]; cbn; [destruct (pm_index mtypes i) as [j| |] eqn:Hj|done|
      destruct (unwrap (E:=E) (seen_types types !! id)) as [j| |] eqn:Hj]; cbn; try done;
      try (destruct (seen_types types !! id); discriminate Hj);
      try (unfold pm_index in Hj; destruct (pm_get mtypes i); discriminate Hj);
      (case_bool_decide as Hd; [destruct Hd as [ty ->]|by destruct (get_wasm_type types j); [destruct Hd|]]);
      (eexists; split; [done|]); destruct (comp_inner (composite_type ty)); cbn; repeat constructor; eauto.
Qed.

Lemma conv_wrap {X Y Z'} `{TypeTrace Y} `{TypeTrace Z'} (conv : X -> outcome E Y) refs (w : Y -> Z') :
  conv_spec conv refs -> (forall y, edges (w y) = edges y) ->
  conv_spec (fun x => y ← conv x; Ok (w y)) refs.
Proof.
  intros Hc Hw x. specialize (Hc x). destruct (forallb _ _).
  - destruct Hc as (y & -> & Hy). cbn. exists (w y). by rewrite Hw.
  - by rewrite Hc.
Qed.

Lemma conv_list {X Y} `{TypeTrace Y} (conv : X -> outcome E Y) refs :
  conv_spec conv refs -> conv_spec (mapO conv) (fun l => l ≫= refs).
Proof.
  intros Hc l. induction l as [|x l IH]; [by eexists|].
  rewrite bind_cons, forallb_app. cbn [mapO]. pose proof (Hc x) as Hx.
  destruct (forallb ref_defined (refs x)); cbn [andb].
  - destruct Hx as (y & -> & Hy). cbn [mbind outcome_bind].
    destruct (forallb ref_defined (l ≫= refs)).
    + destruct IH as (ys & -> & Hys). cbn. eexists. split; [done|].
      exact (Forall2_app Hy Hys).
    + by rewrite IH.
  - by rewrite Hx.
Qed.

Lemma convert_val_type_spec : conv_spec (convert_val_type types mtypes) val_refs.
Proof.
  intros v. destruct v as [| | | | |[n h]]; cbn; try by eexists.
  unfold convert_ref_type; cbn. specialize (convert_heap_type_spec h) as Hh.
  destruct (forallb _ _); [|by rewrite Hh]. destruct Hh as (y & -> & Hy). by eexists.
Qed.

Lemma convert_field_type_spec : conv_spec (convert_field_type types mtypes) field_refs.
Proof.
  intros [m [| |v]]; unfold convert_field_type, field_refs; cbn; try by eexists.
  specialize (convert_val_type_spec v) as Hv. destruct (forallb _ _); [|by rewrite Hv].
  destruct Hv as (y & -> & Hy). by eexists.
Qed.

Lemma convert_func_type_spec : conv_spec (convert_func_type types mtypes)
  (fun f => (wasmparser.params f ≫= val_refs) ++ (wasmparser.results f ≫= val_refs)).
Proof.
  intros [ps rs]; unfold convert_func_type; cbn [wasmparser.params wasmparser.results]. rewrite forallb_app.
  pose proof (conv_list _ _ convert_val_type_spec ps) as Hp.
  pose proof (conv_list _ _ convert_val_type_spec rs) as Hr.
  cbn beta in Hp, Hr. destruct (forallb _ (ps ≫= _)); cbn [andb]; [|by rewrite Hp]. destruct Hp as (y & -> & Hy).
  cbn [mbind outcome_bind]. destruct (forallb _ (rs ≫= _)); [|by rewrite Hr].
  destruct Hr as (z & -> & Hz). cbn. eexists. split; [done|]. by apply Forall2_app.
Qed.

Lemma convert_composite_type_spec c :
  if negb (is_cont c) && forallb ref_defined (composite_refs c)
  then exists y, convert_composite_type (E:=E) types mtypes c = Ok y /\ Forall2 resolves (composite_refs c) (edges y)
  else convert_composite_type (E:=E) types mtypes c = Panic.
Proof.
  destruct c as [sh [f|a|fs|u]]; unfold is_cont, convert_composite_type, composite_refs; cbn [wasmparser.inner negb andb wasmparser.shared];
    [| | |done].
  - exact (conv_wrap _ _ (new_func sh) convert_func_type_spec (fun _ => eq_refl) f).
  - exact (conv_wrap (convert_array_type types mtypes) _ (new_array sh)
      (conv_wrap _ _ mkArrayType convert_field_type_spec (fun _ => eq_refl)) (fun _ => eq_refl) a).
  - exact (conv_wrap (convert_struct_type types mtypes) _ (new_struct sh)
      (conv_wrap _ _ mkStructType (conv_list _ _ convert_field_type_spec) (fun _ => eq_refl))
      (fun _ => eq_refl) fs).
Qed.
End ConvertSpec.

(** ** Specification of the builder *)

(** What a reference resolves to, given the interned ids. *)
Definition resolve (seen : gmap Z Z) (mtypes : list Z) (r : wasmparser.UnpackedIndex) : option Z :=
  match r with
  | wasmparser.Module_ i => pm_get mtypes i
  | wasmparser.Id id => seen !! id
  | wasmparser.RecGroup _ => None
  end.

(** It resolves to one of the first [n] types of the module. *)
Definition defined_before (seen : gmap Z Z) (mtypes : list Z) (n : Z) (r : wasmparser.UnpackedIndex) : bool :=
  match resolve seen mtypes r with
  | Some i => (0 <=? i) && (i <? n)
  | None => false
  end.

Definition sub_refs (t : wasmparser.SubType) : list wasmparser.UnpackedIndex :=
  option_list (wasmparser.supertype_idx t) ++ composite_refs (wasmparser.composite_type t).

(** A type that can be converted as the [n]-th type of the module: not a
    continuation type, its supertype interned, and every type its fields and
    signatures mention defined before it. *)
Definition convertible (seen : gmap Z Z) (mtypes : list Z) (n : Z) (t : wasmparser.SubType) : bool :=
  forallb (fun r => match resolve seen mtypes r with Some _ => true | None => false end) (option_list (wasmparser.supertype_idx t)) &&
  negb (is_cont (wasmparser.composite_type t)) &&
  forallb (defined_before seen mtypes n) (composite_refs (wasmparser.composite_type t)).

(** An edge to one of the first [n] types of the module. *)
Definition module_edge (n : Z) (e : CTI) : Prop := exists i, e = Module_ i /\ 0 <= i < n.

Fixpoint chain (start : Z) (groups : list (Z * Z)) (stop : Z) : Prop :=
  match groups with
  | [] => start = stop
  | (a, b) :: gs => a = start /\ a <= b /\ chain b gs stop
  end.

(** The groups partition the types in order, and types refer to the types of
    their own or an earlier group. *)
Record module_types_wf (t : ModuleTypes) : Prop := {
  mt_chain : chain 0 (rec_groups t) (len_wasm_types t);
  mt_edges : forall a b p ty, (a, b) ∈ rec_groups t -> a <= p < b ->
    get_wasm_type t p = Some ty -> Forall (module_edge b) (edges ty) }.

Record builder_inv (b : ModuleTypesBuilder) : Prop := {
  bi_idle : rec_group_in_progress b = None;
  bi_types : module_types_wf (b_types b);
  bi_seen : forall id i, seen_types (b_types b) !! id = Some i -> 0 <= i < len_wasm_types (b_types b);
  bi_groups : forall id g, seen_rec_groups b !! id = Some g -> 0 <= g < pm_len (rec_groups (b_types b)) }.

Lemma builder_new_inv validator : builder_inv (builder_new validator).
Proof. split; [done| |done|done]. split; [done|]. intros a b p ty []%not_elem_of_nil. Qed.

(** *** Conversion *)
Lemma lookup_type_index_resolve {E} t mtypes r :
  lookup_type_index (E:=E) t mtypes r = unwrap (resolve (seen_types t) mtypes r).
Proof. by destruct r. Qed.

Lemma get_wasm_type_defined t i :
  bool_decide (is_Some (get_wasm_type t i)) = (0 <=? i) && (i <? len_wasm_types t).
Proof.
  apply eq_true_iff_eq. rewrite bool_decide_eq_true, andb_true_iff, Z.leb_le, Z.ltb_lt. split.
  - intros [x Hx%pm_get_range]. exact Hx.
  - apply pm_get_is_Some.
Qed.

Lemma ref_defined_before {E} t mtypes r :
  ref_defined (E:=E) t mtypes r = defined_before (seen_types t) mtypes (len_wasm_types t) r.
Proof.
  unfold ref_defined, defined_before. rewrite lookup_type_index_resolve.
  destruct (resolve _ _ r); cbn; [apply get_wasm_type_defined|done].
Qed.

Definition resolves_to (seen : gmap Z Z) (mtypes : list Z) (r : wasmparser.UnpackedIndex) (e : CTI) : Prop :=
  exists i, resolve seen mtypes r = Some i /\ e = Module_ i.

(** *** What a converted type looks like

    A type of the module mirrors a type of the validator: the same finality,
    sharing, kind, mutability and value types, with concrete references to the
    interned index of what the validator's reference names, marked with the kind
    and the sharing of the type [stored] there. *)
Section Like.
Context (seen : gmap Z Z) (mtypes : list Z) (stored : list WasmSubType).

Definition abstract_like (a : wasmparser.AbstractHeapType) (h : WasmHeapTypeInner) : Prop :=
  match a, h with
  | wasmparser.Func, Heap_Func | wasmparser.NoFunc, Heap_NoFunc
  | wasmparser.Extern, Heap_Extern | wasmparser.NoExtern, Heap_NoExtern
  | wasmparser.Any, Heap_Any | wasmparser.None_, Heap_None | wasmparser.Eq, Heap_Eq
  | wasmparser.Struct, Heap_Struct | wasmparser.Array, Heap_Array | wasmparser.I31, Heap_I31
  | wasmparser.Exn, Heap_Exn | wasmparser.NoExn, Heap_NoExn
  | wasmparser.Cont, Heap_Cont | wasmparser.NoCont, Heap_NoCont => True
  | _, _ => False
  end.

Definition concrete_like (r : wasmparser.UnpackedIndex) (h : WasmHeapType) : Prop := exists i ty,
  resolve seen mtypes r = Some i /\ pm_get stored i = Some ty /\
  ht_shared h = comp_shared (composite_type ty) /\
  match ht_ty h, comp_inner (composite_type ty) with
  | Heap_ConcreteFunc e, Comp_Func _ | Heap_ConcreteArray e, Comp_Array _
  | Heap_ConcreteStruct e, Comp_Struct _ => e = Module_ i
  | _, _ => False
  end.

Definition heap_like (t : wasmparser.HeapType) (h : WasmHeapType) : Prop :=
  match t with
  | wasmparser.Abstract shared a => ht_shared h = shared /\ abstract_like a (ht_ty h)
  | wasmparser.Concrete r => concrete_like r h
  end.

Definition val_like (v : wasmparser.ValType) (w : WasmValType) : Prop :=
  match v, w with
  | wasmparser.I32, Val_I32 | wasmparser.I64, Val_I64 | wasmparser.F32, Val_F32
  | wasmparser.F64, Val_F64 | wasmparser.V128, Val_V128 => True
  | wasmparser.Ref r, Val_Ref q =>
      nullable q = wasmparser.is_nullable r /\ heap_like (wasmparser.heap_type r) (heap_type q)
  | _, _ => False
  end.

Definition field_like (f : wasmparser.FieldType) (g : WasmFieldType) : Prop :=
  fld_mutable g = wasmparser.mutable f /\
  match wasmparser.element_type f, fld_element_type g with
  | wasmparser.I8, St_I8 | wasmparser.I16, St_I16 => True
  | wasmparser.Val v, St_Val w => val_like v w
  | _, _ => False
  end.

Definition composite_like (c : wasmparser.CompositeType) (w : WasmCompositeType) : Prop :=
  comp_shared w = wasmparser.shared c /\
  match wasmparser.inner c, comp_inner w with
  | wasmparser.CFunc f, Comp_Func g =>
      Forall2 val_like (wasmparser.params f) (fn_params g) /\ Forall2 val_like (wasmparser.results f) (fn_results g)
  | wasmparser.CArray a, Comp_Array b => field_like a (arr_field b)
  | wasmparser.CStruct fs, Comp_Struct s => Forall2 field_like fs (str_fields s)
  | _, _ => False
  end.

Definition sub_like (t : wasmparser.SubType) (w : WasmSubType) : Prop :=
  is_final w = wasmparser.is_final t /\
  option_Forall2 (resolves_to seen mtypes) (wasmparser.supertype_idx t) (supertype w) /\
  composite_like (wasmparser.composite_type t) (composite_type w).
End Like.

Lemma resolve_mono seen seen' mtypes mtypes' r i :
  seen ⊆ seen' -> mtypes `prefix_of` mtypes' -> resolve seen mtypes r = Some i -> resolve seen' mtypes' r = Some i.
Proof.
  intros Hs [l ->] Hi. destruct r as [j|j|id]; cbn in *; [|done|by eapply lookup_weaken].
  unfold pm_get in *. destruct (0 <=? j); [|done]. by apply lookup_app_l_Some.
Qed.

Lemma resolves_to_mono seen seen' mtypes mtypes' r e :
  seen ⊆ seen' -> mtypes `prefix_of` mtypes' -> resolves_to seen mtypes r e -> resolves_to seen' mtypes' r e.
Proof. intros Hs Hm (i & Hi & ->). exists i. split; [by eapply resolve_mono|done]. Qed.

Section LikeMono.
Context (seen seen' : gmap Z Z) (mtypes mtypes' : list Z) (stored stored' : list WasmSubType).
Context (Hs : seen ⊆ seen') (Hm : mtypes `prefix_of` mtypes') (Ht : stored `prefix_of` stored').

Lemma heap_like_mono t h : heap_like seen mtypes stored t h -> heap_like seen' mtypes' stored' t h.
Proof.
  destruct t as [sh a|r]; [done|]. intros (i & ty & Hi & Hty & Hrest). exists i, ty.
  split; [by eapply resolve_mono|]. split; [|done]. destruct Ht as [l ->]. unfold pm_get in *.
  destruct (0 <=? i); [|done]. by apply lookup_app_l_Some.
Qed.

Lemma val_like_mono v w : val_like seen mtypes stored v w -> val_like seen' mtypes' stored' v w.
Proof. destruct v, w; cbn; try done. intros [? ?]. split; [done|by apply heap_like_mono]. Qed.

Lemma field_like_mono f g : field_like seen mtypes stored f g -> field_like seen' mtypes' stored' f g.
Proof.
  intros [? Hf]. split; [done|]. destruct (wasmparser.element_type f), (fld_element_type g); try done.
  by apply val_like_mono.
Qed.

Lemma sub_like_mono t w : sub_like seen mtypes stored t w -> sub_like seen' mtypes' stored' t w.
Proof.
  intros (? & Hsup & ? & Hc). split; [done|]. split; [|split; [done|]].
  - destruct Hsup; constructor. by eapply resolves_to_mono.
  - destruct (wasmparser.inner (wasmparser.composite_type t)), (comp_inner (composite_type w)); try done.
    + destruct Hc. split; (eapply list.Forall2_impl; [eassumption|apply val_like_mono]).
    + by apply field_like_mono.
    + eapply list.Forall2_impl; [exact Hc|apply field_like_mono].
Qed.
End LikeMono.

(** A conversion that succeeds mirrors its argument. *)
Section ConvertLike.
Context {E : Type} (t : ModuleTypes) (mtypes : list Z).
Abbreviation like P := (P (seen_types t) mtypes (wasm_types t)).

Lemma concrete_heap_type_like r i h : resolve (seen_types t) mtypes r = Some i ->
  concrete_heap_type (E:=E) t i = Ok h -> like concrete_like r h.
Proof.
  intros Hr. unfold concrete_heap_type. destruct (get_wasm_type t i) as [ty|] eqn:Hty; [|done]. intros [= <-].
  exists i, ty. split; [done|]. split; [exact Hty|]. split; [done|]. cbn. by destruct (comp_inner _).
Qed.

Lemma convert_heap_type_like x h : convert_heap_type (E:=E) t mtypes x = Ok h -> like heap_like x h.
Proof.
  destruct x as [sh a|r]; cbn; [intros [= <-]; by destruct a|].
  destruct r as [i|i|id]; cbn; [|done|]; intros (j & Hj & Hh)%bind_ok; eapply concrete_heap_type_like; [|exact Hh| |exact Hh];
    by apply unwrap_ok in Hj.
Qed.

Lemma convert_val_type_like v w : convert_val_type (E:=E) t mtypes v = Ok w -> like val_like v w.
Proof.
  destruct v; cbn; intros H; simplify_eq/=; try done. apply bind_ok in H as (r' & (h & Hh & [= <-])%bind_ok & [= <-]).
  split; [done|]. by apply convert_heap_type_like.
Qed.

Lemma convert_field_type_like f g : convert_field_type (E:=E) t mtypes f = Ok g -> like field_like f g.
Proof.
  intros (s & Hs & [= <-])%bind_ok. split; [done|]. cbn. destruct (wasmparser.element_type f); cbn in Hs; simplify_eq/=; try done.
  apply bind_ok in Hs as (w & Hw & [= <-]). by apply convert_val_type_like.
Qed.

Lemma mapO_like {X Y} (f : X -> outcome E Y) (R : X -> Y -> Prop) l ys :
  (forall x y, f x = Ok y -> R x y) -> mapO f l = Ok ys -> Forall2 R l ys.
Proof. intros Hf H%mapO_ok. by eapply list.Forall2_impl. Qed.

Lemma convert_sub_type_like x w : convert_sub_type (E:=E) t mtypes x = Ok w -> like sub_like x w.
Proof.
  intros (sup & Hsup & (c & Hc & [= <-])%bind_ok)%bind_ok. split; [done|]. split; cbn.
  - destruct (wasmparser.supertype_idx x) as [r|]; [|simplify_eq; constructor].
    apply bind_ok in Hsup as (i & Hi & [= <-]). constructor. exists i. split; [|done].
    by rewrite lookup_type_index_resolve, unwrap_ok in Hi.
  - unfold convert_composite_type in Hc. unfold composite_like. destruct (wasmparser.inner _); [| | |done];
      apply bind_ok in Hc as (y & Hy & [= <-]); (split; [done|]); cbn.
    + apply bind_ok in Hy as (ps & Hp & (rs & Hr & [= <-])%bind_ok).
      split; (eapply mapO_like; [|eassumption]); apply convert_val_type_like.
    + apply bind_ok in Hy as (g & Hg & [= <-]). by apply convert_field_type_like.
    + apply bind_ok in Hy as (gs & Hg & [= <-]). eapply mapO_like; [|exact Hg]. apply convert_field_type_like.
Qed.
End ConvertLike.

Lemma convert_sub_type_spec {E} t mtypes ty :
  if convertible (seen_types t) mtypes (len_wasm_types t) ty
  then exists w, convert_sub_type (E:=E) t mtypes ty = Ok w /\
         Forall2 (resolves_to (seen_types t) mtypes) (sub_refs ty) (edges w)
  else convert_sub_type (E:=E) t mtypes ty = Panic.
Proof.
  pose proof (convert_composite_type_spec (E:=E) t mtypes (wasmparser.composite_type ty)) as Hc.
  assert (Hf : forallb (ref_defined (E:=E) t mtypes) (composite_refs (wasmparser.composite_type ty)) =
      forallb (defined_before (seen_types t) mtypes (len_wasm_types t)) (composite_refs (wasmparser.composite_type ty)))
    by (generalize (composite_refs (wasmparser.composite_type ty)); intros l; induction l as [|r l IH]; cbn; [done|];
        by rewrite IH, ref_defined_before).
  rewrite Hf in Hc. clear Hf. unfold convertible, convert_sub_type, sub_refs.
  assert (Hw : forall l y, Forall2 (resolves (E:=E) t mtypes) l y -> Forall2 (resolves_to (seen_types t) mtypes) l y).
  { intros l y Hl. eapply list.Forall2_impl; [exact Hl|]. intros r e (i & Hi & ->). exists i.
    by rewrite lookup_type_index_resolve, unwrap_ok in Hi. }
  destruct (wasmparser.supertype_idx ty) as [r|].
  - change (option_list (Some r)) with [r]. rewrite lookup_type_index_resolve. cbn [forallb app].
    destruct (resolve (seen_types t) mtypes r) as [i|] eqn:Hr; cbn [andb unwrap mbind outcome_bind]; [|done].
    destruct (negb _ && forallb _ _); [|by rewrite Hc]. destruct Hc as (y & -> & Hy). cbn [mbind outcome_bind].
    eexists. split; [done|]. constructor; [by exists i|by apply Hw].
  - change (option_list (@None wasmparser.UnpackedIndex)) with (@nil wasmparser.UnpackedIndex).
    cbn [forallb app andb mbind outcome_bind].
    destruct (negb _ && forallb _ _); [|by rewrite Hc]. destruct Hc as (y & -> & Hy).
    eexists. split; [done|]. by apply Hw.
Qed.

(** *** Groups *)

(** The ids of a group are interned densely from [len] on. *)
Definition reserved (len : Z) (elems : list Z) (seen : gmap Z Z) : gmap Z Z :=
  foldl (fun m p => <[p.2 := len + Z.of_nat p.1]> m) seen (imap pair elems).

(** All types of a group can be converted one after the other. *)
Fixpoint all_convertible (seen : gmap Z Z) (mtypes : list Z) (vt : wasmparser.TypesRef) (n : Z) (ids : list Z) : bool :=
  match ids with
  | [] => true
  | id :: ids => convertible seen mtypes n (wasmparser.type_of_id vt id) &&
                 all_convertible seen mtypes vt (n + 1) ids
  end.

Lemma reserved_snoc len elems id seen :
  reserved len (elems ++ [id]) seen = <[id := len + Z.of_nat (length elems)]> (reserved len elems seen).
Proof. unfold reserved. rewrite imap_app, foldl_app. cbn. by rewrite Nat.add_0_r. Qed.

Lemma reserved_other len elems seen id : id ∉ elems -> reserved len elems seen !! id = seen !! id.
Proof.
  induction elems as [|x elems IH] using rev_ind; [done|].
  rewrite elem_of_app, list_elem_of_singleton, reserved_snoc. intros Hn.
  rewrite lookup_insert_ne by naive_solver. apply IH. naive_solver.
Qed.

Lemma reserved_elem len elems seen k id :
  NoDup elems -> elems !! k = Some id -> reserved len elems seen !! id = Some (len + Z.of_nat k).
Proof.
  induction elems as [|x elems IH] using rev_ind; [done|].
  intros (Hnd & Hx & _)%list.NoDup_app Hk. rewrite reserved_snoc.
  apply lookup_app_Some in Hk as [Hk|[Hlt Hk]].
  - rewrite lookup_insert_ne; [by apply IH|]. intros ->. apply list_elem_of_lookup_2 in Hk.
    apply (Hx id Hk). by apply list_elem_of_singleton.
  - apply list_lookup_singleton_Some in Hk as [Hk ->]. rewrite lookup_insert_eq. do 2 f_equal. lia.
Qed.

Lemma reserve_loop {E} dbg len elems seen :
  NoDup elems -> (forall id, id ∈ elems -> seen !! id = None) ->
  foldM (reserve (E:=E) dbg len) (imap pair elems) seen = Ok (reserved len elems seen).
Proof.
  induction elems as [|x elems IH] using rev_ind; [done|].
  intros (Hnd & Hx & _)%list.NoDup_app Hf. rewrite imap_app, foldM_app, reserved_snoc.
  rewrite IH; [|done|intros; apply Hf; set_solver]. cbn. unfold reserve; cbn.
  rewrite reserved_other, Hf, bool_decide_true, debug_assert_true, Nat.add_0_r; [done|done|set_solver|].
  intros Hin. apply (Hx x Hin). by apply list_elem_of_singleton.
Qed.

(** The types of a group, each mirroring its validator type and referring to what
    that names. *)
Definition converted (seen : gmap Z Z) (mtypes : list Z) (stored : list WasmSubType) (vt : wasmparser.TypesRef)
    (id : Z) (ty : WasmSubType) : Prop :=
  sub_like seen mtypes stored (wasmparser.type_of_id vt id) ty /\
  Forall2 (resolves_to seen mtypes) (sub_refs (wasmparser.type_of_id vt id)) (edges ty).

Lemma converted_mono seen seen' mtypes mtypes' stored stored' vt id ty :
  seen ⊆ seen' -> mtypes `prefix_of` mtypes' -> stored `prefix_of` stored' ->
  converted seen mtypes stored vt id ty -> converted seen' mtypes' stored' vt id ty.
Proof.
  intros Hs Hm Ht [Hl Hc]. split; [by eapply sub_like_mono|].
  eapply list.Forall2_impl; [exact Hc|]. intros. by eapply resolves_to_mono.
Qed.

Lemma define_loop {E} dbg mtypes vt ids b :
  is_Some (rec_group_in_progress b) ->
  (forall k id, ids !! k = Some id ->
    seen_types (b_types b) !! id = Some (len_wasm_types (b_types b) + Z.of_nat k)) ->
  if all_convertible (seen_types (b_types b)) mtypes vt (len_wasm_types (b_types b)) ids
  then exists tys,
    foldM (define_type (E:=E) dbg mtypes vt) ids b =
      Ok (with_types b (mkModuleTypes (wasm_types (b_types b) ++ tys) (rec_groups (b_types b)) (seen_types (b_types b)))) /\
    Forall2 (converted (seen_types (b_types b)) mtypes (wasm_types (b_types b) ++ tys) vt) ids tys
  else foldM (define_type (E:=E) dbg mtypes vt) ids b = Panic.
Proof.
  revert b; induction ids as [|id ids IH]; intros b Hp Hs; cbn [all_convertible foldM].
  - exists []. rewrite app_nil_r. split; [by destruct b as [? [] ? ?]|constructor].
  - pose proof (convert_sub_type_spec (E:=E) (b_types b) mtypes (wasmparser.type_of_id vt id)) as Hc.
    unfold define_type at 1 3. destruct (convertible _ _ _ _); cbn [andb]; [|by rewrite Hc].
    destruct Hc as (w & Hcw & Hw). pose proof (convert_sub_type_like _ _ _ _ Hcw) as Hlike.
    rewrite Hcw. cbn [mbind outcome_bind]. unfold wasm_sub_type_in_rec_group, push_type.
    rewrite (bool_decide_true (is_Some (rec_group_in_progress b))) by done. cbn [assert_ mbind outcome_bind].
    pose proof (Hs 0%nat id eq_refl) as H0. rewrite Z.add_0_r in H0.
    rewrite bool_decide_true, debug_assert_true by exact H0. cbn [mbind outcome_bind].
    pose proof (IH (with_types b (mkModuleTypes (pm_push (wasm_types (b_types b)) w) (rec_groups (b_types b))
      (seen_types (b_types b)))) Hp) as IHb.
    cbn [b_types with_types seen_types wasm_types rec_groups] in IHb. unfold len_wasm_types in *.
    cbn [wasm_types] in IHb. rewrite pm_len_push in IHb.
    assert (Hs' : forall k id, ids !! k = Some id ->
      seen_types (b_types b) !! id = Some (pm_len (wasm_types (b_types b)) + 1 + Z.of_nat k))
      by (intros k j Hk; rewrite (Hs (S k) j Hk); f_equal; lia).
    specialize (IHb Hs'). destruct (all_convertible _ _ _ _ _); [|done].
    destruct IHb as (tys & Hf & Ht). exists (w :: tys). unfold pm_push in Hf, Ht. rewrite <- app_assoc in Hf, Ht.
    split; [exact Hf|]. constructor; [|exact Ht].
    eapply converted_mono; [reflexivity|reflexivity|by eexists|]. by split.
Qed.

(** The builder after interning a new group with types [tys]. *)
Definition interned (b : ModuleTypesBuilder) (g : Z) (elems : list Z) (tys : list WasmSubType) : ModuleTypesBuilder :=
  let t := b_types b in
  let n := len_wasm_types t in
  mkBuilder (validator_id b)
    (mkModuleTypes (wasm_types t ++ tys) (rec_groups t ++ [(n, n + pm_len elems)]) (reserved n elems (seen_types t)))
    (<[g := pm_len (rec_groups t)]> (seen_rec_groups b)) None.

Lemma define_new_rec_group_spec {E} dbg b mtypes vt g (elems := wasmparser.rec_group_elements vt g)
    (n := len_wasm_types (b_types b)) (seen' := reserved n elems (seen_types (b_types b))) :
  rec_group_in_progress b = None -> wasmparser.types_id vt = validator_id b ->
  elems <> [] -> NoDup elems -> (forall id, id ∈ elems -> seen_types (b_types b) !! id = None) ->
  if all_convertible seen' mtypes vt n elems
  then exists tys,
    define_new_rec_group (E:=E) dbg b mtypes vt g = Ok (pm_len (rec_groups (b_types b)), interned b g elems tys) /\
    Forall2 (converted seen' mtypes (wasm_types (b_types b) ++ tys) vt) elems tys
  else define_new_rec_group (E:=E) dbg b mtypes vt g = Panic.
Proof.
  intros Hidle Hid Hne Hnd Hfresh. unfold define_new_rec_group, start_rec_group. fold elems.
  rewrite bool_decide_true, Hid, Z.eqb_refl by done. cbn [assert_ mbind outcome_bind].
  rewrite reserve_loop by done. cbn [mbind outcome_bind]. fold n. fold seen'.
  match goal with |- context [foldM (define_type dbg mtypes vt) elems ?b1] =>
    pose proof (define_loop (E:=E) dbg mtypes vt elems b1) as Hl end.
  cbn [b_types seen_types wasm_types rec_groups rec_group_in_progress] in Hl.
  change (len_wasm_types {| wasm_types := wasm_types (b_types b); rec_groups := rec_groups (b_types b);
    seen_types := seen' |}) with n in Hl.
  specialize (Hl ltac:(by eexists) (fun k id Hk => reserved_elem n elems _ k id Hnd Hk)).
  destruct (all_convertible _ _ _ _ _); [|by rewrite Hl].
  destruct Hl as (tys & -> & Ht). exists tys. split; [|done]. pose proof (Forall2_length Ht) as Hlen.
  cbn [mbind outcome_bind with_types]. unfold end_rec_group. cbn. unfold len_wasm_types, next_type_index, next_rec_group_index, pm_next_key.
  cbn. rewrite Z.eqb_refl, (proj2 (Z.ltb_lt _ _)), (proj2 (Z.eqb_eq _ _)), !debug_assert_true.
  - done.
  - subst n. unfold len_wasm_types, pm_len. rewrite length_app, <- Hlen. lia.
  - subst n. unfold len_wasm_types, pm_len. rewrite length_app, <- Hlen.
    destruct elems; [done|]. cbn. lia.
Qed.

Lemma chain_snoc s gs e k : chain s gs e -> 0 <= k -> chain s (gs ++ [(e, e + k)]) (e + k).
Proof.
  revert s; induction gs as [|[a b] gs IH]; intros s; cbn; [lia|]. intros (-> & ? & ?) ?. auto.
Qed.

Lemma chain_le s gs e : chain s gs e -> s <= e.
Proof. revert s; induction gs as [|[a b] gs IH]; intros s; cbn; [lia|]. intros (-> & ? & ?%IH). lia. Qed.

Lemma chain_elem s gs e a b : chain s gs e -> (a, b) ∈ gs -> s <= a /\ b <= e.
Proof.
  revert s; induction gs as [|[x y] gs IH]; intros s; [by intros _ ?%not_elem_of_nil|].
  intros (-> & Hxy & Hc) [[= -> ->]|Hin]%elem_of_cons.
  - apply chain_le in Hc. lia.
  - apply (IH y) in Hin; [lia|done].
Qed.

Lemma resolve_bound seen mtypes n r i :
  (forall id i, seen !! id = Some i -> 0 <= i < n) -> Forall (fun i => 0 <= i < n) mtypes ->
  resolve seen mtypes r = Some i -> 0 <= i < n.
Proof.
  intros Hs Hm. destruct r as [j|j|id]; cbn; [|done|apply Hs].
  unfold pm_get. destruct (0 <=? j); [|done]. intros Hj. by eapply list.Forall_lookup_1 in Hm.
Qed.

Lemma reserved_bound len elems seen id i :
  NoDup elems -> 0 <= len -> (forall id i, seen !! id = Some i -> 0 <= i < len) ->
  reserved len elems seen !! id = Some i -> 0 <= i < len + pm_len elems.
Proof.
  intros Hnd Hl Hs Hr. destruct (decide (id ∈ elems)) as [Hin|Hin].
  - apply list_elem_of_lookup_1 in Hin as [k Hk]. rewrite (reserved_elem _ _ _ k id) in Hr by done.
    apply lookup_lt_Some in Hk. simplify_eq. unfold pm_len. lia.
  - rewrite reserved_other in Hr by done. apply Hs in Hr. unfold pm_len. lia.
Qed.

Lemma interned_inv b mtypes vt g elems tys (n := len_wasm_types (b_types b)) :
  builder_inv b -> NoDup elems -> Forall (fun i => 0 <= i < n) mtypes ->
  Forall2 (converted (reserved n elems (seen_types (b_types b))) mtypes (wasm_types (b_types b) ++ tys) vt) elems tys ->
  builder_inv (interned b g elems tys).
Proof.
  intros [Hidle [Hch Hed] Hseen Hgr] Hnd Hm Ht. pose proof (Forall2_length Ht) as Hlen.
  assert (Hn : 0 <= n) by (unfold n, len_wasm_types, pm_len; lia).
  assert (Hlen' : len_wasm_types (b_types (interned b g elems tys)) = n + pm_len elems)
    by (cbn; unfold n, len_wasm_types, pm_len; cbn; rewrite length_app; lia).
  assert (Hbound : forall id i, reserved n elems (seen_types (b_types b)) !! id = Some i ->
      0 <= i < n + pm_len elems) by (intros id i; by apply reserved_bound).
  split; [done| | |].
  - split; [rewrite Hlen'; cbn; fold n; apply chain_snoc; [done|unfold pm_len; lia]|].
    intros a c p ty Hin Hp Hty. unfold get_wasm_type, pm_get in Hty. cbn in Hty, Hin.
    destruct (Z.leb_spec 0 p) as [Hp0|]; [|done].
    apply elem_of_app in Hin as [Hin|[= -> ->]%list_elem_of_singleton].
    + pose proof (chain_elem _ _ _ _ _ Hch Hin) as [_ Hc]. rewrite lookup_app_l in Hty
        by (unfold len_wasm_types, pm_len in Hc; lia).
      apply (Hed a c p ty Hin Hp). unfold get_wasm_type, pm_get. by rewrite (proj2 (Z.leb_le _ _)) by lia.
    + fold n in Hp |- *. rewrite lookup_app_r in Hty by (unfold n, len_wasm_types, pm_len in Hp; lia).
      destruct (Forall2_lookup_r _ _ _ _ _ Ht Hty) as (id & _ & _ & Hc).
      eapply Forall2_Forall_r; [exact Hc|]. apply list.Forall_forall. intros r _ e (i & Hi & ->).
      exists i. split; [done|]. eapply resolve_bound; [exact Hbound| |exact Hi].
      eapply list.Forall_impl; [exact Hm|]. cbn. unfold pm_len. lia.
  - rewrite Hlen'. exact Hbound.
  - intros id i. cbn. unfold pm_len. rewrite length_app. cbn. intros [[? <-]|[? Hi]]%lookup_insert_Some; [lia|].
    apply Hgr in Hi. unfold pm_len in Hi. lia.
Qed.


(** Group 7 is [(rec (type (struct i32)) (type (func (param (ref 100)))))]. *)
Definition example_vt : wasmparser.TypesRef :=
  wasmparser.mkTypesRef 1 (fun g => if g =? 7 then [100; 101] else [102])
    (fun id =>
       if id =? 100 then
         wasmparser.mkSub true None (wasmparser.mkComposite false
           (wasmparser.CStruct [wasmparser.mkField true (wasmparser.Val wasmparser.I32)]))
       else
         wasmparser.mkSub true None (wasmparser.mkComposite false (wasmparser.CFunc
           (wasmparser.mkFunc [wasmparser.Ref (wasmparser.mkRef true
              (wasmparser.Concrete (wasmparser.Id (if id =? 101 then 100 else id))))] [])))).


Lemma all_convertible_refs seen mtypes vt n ids k id id' i :
  all_convertible seen mtypes vt n ids = true -> ids !! k = Some id ->
  wasmparser.Id id' ∈ composite_refs (wasmparser.composite_type (wasmparser.type_of_id vt id)) ->
  seen !! id' = Some i -> i < n + Z.of_nat k.
Proof.
  revert n k; induction ids as [|x ids IH]; intros n k; [done|].
  cbn [all_convertible]. intros [Hc Ha]%andb_true_iff Hk Hr Hi. destruct k as [|k]; cbn in Hk.
  - simplify_eq. unfold convertible in Hc. apply andb_true_iff in Hc as [_ Hc].
    rewrite forallb_forall in Hc. apply list_elem_of_In, Hc in Hr. unfold defined_before in Hr. cbn in Hr.
    rewrite Hi in Hr. lia.
  - pose proof (IH (n + 1) k Ha Hk Hr Hi). lia.
Qed.

(** Recursive types are not supported: a group in which a type mentions
    itself or a later member in a field or signature always panics, although
    recursion groups exist to allow exactly that. *)
Lemma recursive_group_panics {E} dbg b mtypes vt g k j id id'
    (Hinv : builder_inv b) (Hid : wasmparser.types_id vt = validator_id b)
    (Hnew : seen_rec_groups b !! g = None)
    (Hnd : NoDup (wasmparser.rec_group_elements vt g))
    (Hfresh : forall i, i ∈ wasmparser.rec_group_elements vt g -> seen_types (b_types b) !! i = None)
    (Hk : wasmparser.rec_group_elements vt g !! k = Some id)
    (Hj : wasmparser.rec_group_elements vt g !! j = Some id') (Hkj : (k <= j)%nat)
    (Href : wasmparser.Id id' ∈ composite_refs (wasmparser.composite_type (wasmparser.type_of_id vt id))) :
  intern_rec_group (E:=E) dbg b mtypes vt g = Panic.
Proof.
  unfold intern_rec_group. rewrite Hid, Z.eqb_refl, Hnew. cbn [assert_ mbind outcome_bind].
  pose proof (define_new_rec_group_spec (E:=E) dbg b mtypes vt g (bi_idle _ Hinv) Hid
    ltac:(intros He; by rewrite He in Hk) Hnd Hfresh) as Hd.
  cbv zeta in Hd. set (n := len_wasm_types (b_types b)) in *.
  set (elems := wasmparser.rec_group_elements vt g) in *. set (seen' := reserved n elems _) in *.
  replace (all_convertible seen' mtypes vt n elems) with false in Hd; [exact Hd|].
  assert (Hres : seen' !! id' = Some (n + Z.of_nat j)) by (by apply reserved_elem).
  symmetry. apply not_true_iff_false. intros Ha.
  pose proof (all_convertible_refs _ _ _ _ _ _ _ _ _ Ha Hk Href Hres). lia.
Qed.

