(* ===== verification/TypeRegistry.v ===== *)
(** * The engine's type registry ([src/src/type_registry.rs])

    Recursion groups are deduplicated across modules by their hash-consing key,
    reference counted, and removed when the last module or handle that uses
    them goes away.  An entry is an [Arc]: the registry's map, the reverse map
    and every handle share it, and its count changes through any of them, so
    the entries live in a store ([arcs]) and are referred to by position.  The
    slab that holds the types is a third-party container: the class [Slab], with
    its documented behaviour as [SlabLaws]. *)
From stdpp Require Import base list gmap option numbers.
From S2P Require Import Prelude Types TypeTrace Module ModuleTypes.
Local Open Scope Z_scope.

(** ** [wasmtime_slab::Slab] *)
Class Slab (S V : Type) : Type := {
  slab_new : S;
  slab_len : S -> Z;
  slab_get : S -> Z -> option V;
  slab_alloc : forall {E}, S -> V -> outcome E (Z * S);
  slab_dealloc : forall {E}, S -> Z -> outcome E S;
  (** [Slab::MAX_CAPACITY] *)
  slab_capacity : Z }.

Class SlabLaws (S V : Type) `{Slab S V} : Prop := {
  slab_capacity_range : 0 < slab_capacity < 2 ^ 32 - 1;
  slab_len_new : slab_len slab_new = 0;
  slab_get_new : forall i, slab_get slab_new i = None;
  slab_alloc_fits : forall {E} s v, 0 <= slab_len s < slab_capacity -> exists r, slab_alloc (E:=E) s v = Ok r;
  slab_alloc_ok : forall {E} s v i s', slab_alloc (E:=E) s v = Ok (i, s') ->
    0 <= i < slab_capacity /\ slab_get s i = None /\ slab_len s' = slab_len s + 1 /\
    forall j, slab_get s' j = if j =? i then Some v else slab_get s j;
  slab_dealloc_live : forall {E} s i v, slab_get s i = Some v ->
    exists s', slab_dealloc (E:=E) s i = Ok s' /\ slab_len s' = slab_len s - 1 /\
      forall j, slab_get s' j = if j =? i then None else slab_get s j;
  slab_dealloc_vacant : forall {E} s i, slab_get s i = None -> slab_dealloc (E:=E) s i = Panic }.

(** A slab as a vector of optional values that reuses its first vacant slot. *)
Section VecSlab.
Context {V : Type}.

Fixpoint first_vacant (s : list (option V)) : nat :=
  match s with
  | [] => 0
  | None :: _ => 0
  | Some _ :: s' => S (first_vacant s')
  end.

Fixpoint occupy (s : list (option V)) (v : V) : list (option V) :=
  match s with
  | [] => [Some v]
  | None :: s' => Some v :: s'
  | Some x :: s' => Some x :: occupy s' v
  end.

Fixpoint occupied (s : list (option V)) : Z :=
  match s with
  | [] => 0
  | None :: s' => occupied s'
  | Some _ :: s' => 1 + occupied s'
  end.

Definition vec_slab_capacity : Z := 2 ^ 32 - 2.

#[export] Instance vec_slab : Slab (list (option V)) V := {|
  slab_new := [];
  slab_len := occupied;
  slab_get s i := mjoin (pm_get s i);
  slab_alloc E s v :=
    let i := Z.of_nat (first_vacant s) in
    if i <? vec_slab_capacity then Ok (i, occupy s v) else Panic;
  slab_dealloc E s i :=
    match mjoin (pm_get s i) with
    | Some _ => Ok (pm_set s i None)
    | None => Panic
    end;
  slab_capacity := vec_slab_capacity |}.

Lemma first_vacant_le s : Z.of_nat (first_vacant s) <= occupied s.
Proof. induction s as [|[x|] s IH]; cbn; [lia|lia|]. clear IH. induction s as [|[]]; cbn; lia. Qed.

Lemma first_vacant_get s : mjoin (s !! first_vacant s) = None.
Proof. induction s as [|[x|] s IH]; cbn; done. Qed.

Lemma occupy_lookup s v j :
  mjoin (occupy s v !! j) = if decide (j = first_vacant s) then Some v else mjoin (s !! j).
Proof.
  revert j; induction s as [|[x|] s IH]; intros [|j]; cbn; try done.
  rewrite IH. repeat case_decide; done || lia.
Qed.

Lemma occupied_occupy s v : occupied (occupy s v) = occupied s + 1.
Proof. induction s as [|[x|] s IH]; cbn; lia. Qed.

Lemma occupied_clear s n x : s !! n = Some (Some x) -> occupied (<[n := None]> s) = occupied s - 1.
Proof.
  revert n; induction s as [|y s IH]; [done|]. intros [|n] H.
  - cbn in H. simplify_eq. cbn. lia.
  - change (<[S n := None]> (y :: s)) with (y :: <[n := None]> s).
    pose proof (IH n H). destruct y; cbn [occupied]; lia.
Qed.

#[export] Instance vec_slab_laws : SlabLaws (list (option V)) V.
Proof.
  split; cbn.
  - unfold vec_slab_capacity. lia.
  - done.
  - intros i. unfold pm_get. by destruct (0 <=? i).
  - intros E s v Hs. pose proof (first_vacant_le s).
    rewrite (proj2 (Z.ltb_lt _ _)) by lia. eauto.
  - intros E s v i s'. destruct (Z.ltb_spec (Z.of_nat (first_vacant s)) vec_slab_capacity); [|done].
    intros [= <- <-]. split; [lia|]. unfold pm_get. rewrite (proj2 (Z.leb_le _ _)), Nat2Z.id by lia.
    split; [apply first_vacant_get|]. split; [apply occupied_occupy|]. intros j.
    destruct (Z.leb_spec 0 j); [rewrite occupy_lookup|]; destruct (Z.eqb_spec j (Z.of_nat (first_vacant s)));
      try case_decide; done || lia.
  - intros E s i v Hi. rewrite Hi. eexists. split; [done|]. unfold pm_get, pm_set in *.
    destruct (Z.leb_spec 0 i) as [H0|H0]; [|done].
    destruct (s !! Z.to_nat i) as [[x|]|] eqn:Hx; try done. split; [by eapply occupied_clear|].
    intros j. destruct (Z.leb_spec 0 j), (Z.eqb_spec j i); try (done || lia); subst.
    + by rewrite list_lookup_insert_eq by (by eapply lookup_lt_Some).
    + by rewrite list_lookup_insert_ne by lia.
  - intros E s i Hi. by rewrite Hi.
Qed.
End VecSlab.

(** ** State *)

(** [RecGroupEntryInner]; [RecGroupEntry] is a reference counted pointer to it:
    a position in the store of allocated entries. *)
Record RecGroupEntryInner : Type := mkEntryInner {
  hash_consing_key : WasmRecGroup;
  shared_type_indices : list Z;
  registrations : Z }.

Abbreviation RecGroupEntry := nat.

(** [TypeRegistryInner], with the store of entries.  [hash_consing_map] is a
    hash set of entries compared by key; [type_to_rec_group] a [SecondaryMap]
    with default [None]; the top of [drop_stack] is its head. *)
Record TypeRegistryInner (S : Type) : Type := mkRegistry {
  arcs : list RecGroupEntryInner;
  hash_consing_map : list RecGroupEntry;
  type_to_rec_group : gmap Z RecGroupEntry;
  types : S;
  drop_stack : list RecGroupEntry }.
Arguments mkRegistry {S}.
Arguments arcs {S}.
Arguments hash_consing_map {S}.
Arguments type_to_rec_group {S}.
Arguments types {S}.
Arguments drop_stack {S}.

(** [RuntimeTypeCollection] and [RegisteredType], without the engine. *)
Record RuntimeTypeCollection : Type := mkCollection {
  rc_rec_groups : list RecGroupEntry;
  rc_types : list Z }.

Record RegisteredType : Type := mkRegistered {
  rt_entry : RecGroupEntry;
  rt_ty : WasmSubType;
  rt_index : Z }.

(** [VMSharedTypeIndex::from_u32] (the macro [entity_impl!]). *)
Definition from_u32 {E} (dbg : bool) (x : Z) : outcome E Z :=
  _ ← debug_assert dbg (x <? reserved_value); Ok x.

Section Registry.
Context {S : Type} `{Slab S WasmSubType} {E : Type} (dbg : bool).
Abbreviation Reg := (TypeRegistryInner S).

Definition registry_new : Reg := mkRegistry [] [] ∅ slab_new [].

(** Dereference of an [Arc]. *)
Definition arc (s : Reg) (e : RecGroupEntry) : outcome E RecGroupEntryInner := unwrap (arcs s !! e).

Definition set_registrations (s : Reg) (e : RecGroupEntry) (i : RecGroupEntryInner) (n : Z) : Reg :=
  mkRegistry (<[e := mkEntryInner (hash_consing_key i) (shared_type_indices i) n]> (arcs s))
    (hash_consing_map s) (type_to_rec_group s) (types s) (drop_stack s).

Definition incr_ref_count (s : Reg) (e : RecGroupEntry) : outcome E Reg :=
  i ← arc s e;
  new_count ← add 64 (registrations i) 1;
  Ok (set_registrations s e i new_count).

Definition decr_ref_count (s : Reg) (e : RecGroupEntry) : outcome E (bool * Reg) :=
  i ← arc s e;
  new_count ← sub 64 (registrations i) 1;
  Ok (registrations i =? 1, set_registrations s e i new_count).

(** ** Registration *)

(** [HashSet::get] by key. *)
Definition find_entry (s : Reg) (k : WasmRecGroup) : option RecGroupEntry :=
  head (filter (fun e => hash_consing_key <$> arcs s !! e = Some k) (hash_consing_map s)).

(** The key of a group: the fold of [register_rec_group] over the types. *)
Definition rec_group_key (map : list Z) (range : Z * Z) (tys : list (WasmSubType * Z)) : outcome E WasmRecGroup :=
  ts ← mapO (fun p => canonicalize_for_hash_consing dbg range.1 range.2
               (fun idx => _ ← debug_assert dbg (idx <? range.1); pm_index map idx) p.1) tys;
  Ok (mkRecGroup ts).

(** Keep the groups a new group refers to alive. *)
Definition retain_edge (s : Reg) (index : CTI) : outcome E Reg :=
  match index with
  | Shared index => entry ← unwrap (type_to_rec_group s !! index); incr_ref_count s entry
  | _ => Ok s
  end.

(** The engine index of a module index for runtime usage. *)
Definition runtime_type_index (map : list Z) (start engine_rec_group_start idx : Z) : outcome E Z :=
  if idx <? start then pm_index map idx
  else
    rec_group_offset ← add 32 idx start;
    x ← add 32 engine_rec_group_start rec_group_offset;
    from_u32 dbg x.

Definition insert_one_type_from_rec_group (slab : S) (ty : WasmSubType) : outcome E (Z * S) :=
  _ ← debug_assert dbg (is_canonicalized_for_runtime_usage ty);
  p ← slab_alloc slab ty;
  engine_index ← from_u32 dbg p.1;
  Ok (engine_index, p.2).

Definition register_type (map : list Z) (start engine_rec_group_start : Z)
    (st : list Z * S) (p : WasmSubType * Z) : outcome E (list Z * S) :=
  ty ← canonicalize_for_runtime_usage (runtime_type_index map start engine_rec_group_start) p.1;
  r ← insert_one_type_from_rec_group st.2 ty;
  Ok (st.1 ++ [r.1], r.2).

Definition map_type (entry : RecGroupEntry) (s : Reg) (ty : Z) : outcome E Reg :=
  _ ← debug_assert dbg (bool_decide (type_to_rec_group s !! ty = None));
  Ok (mkRegistry (arcs s) (hash_consing_map s) (<[ty := entry]> (type_to_rec_group s)) (types s) (drop_stack s)).

Definition register_rec_group (s : Reg) (map : list Z) (range : Z * Z) (tys : list WasmSubType)
  : outcome E (RecGroupEntry * Reg) :=
  _ ← debug_assert dbg (pm_len (entity_range range) =? pm_len tys);
  let non_canon_types := zip tys (entity_range range) in
  key ← rec_group_key map range non_canon_types;
  match find_entry s key with
  | Some entry => s ← incr_ref_count s entry; Ok (entry, s)
  | None =>
      s ← trace retain_edge key s;
      engine_rec_group_start ← unwrap (try_from 32 (slab_len (types s)));
      r ← foldM (register_type map range.1 engine_rec_group_start) non_canon_types ([], types s);
      let entry := length (arcs s) in
      let arcs' := arcs s ++ [mkEntryInner key r.1 1] in
      let is_new_entry := bool_decide (find_entry s key = None) in
      let set' := if is_new_entry then hash_consing_map s ++ [entry] else hash_consing_map s in
      let s := mkRegistry arcs' set' (type_to_rec_group s) r.2 (drop_stack s) in
      _ ← debug_assert dbg is_new_entry;
      s ← foldM (map_type entry) r.1 s;
      Ok (entry, s)
  end.

Definition push_engine_type (map : list Z) (p : Z * Z) : outcome E (list Z) :=
  let module_ty2 := pm_next_key map in
  _ ← assert_ (p.1 =? module_ty2);
  Ok (pm_push map p.2).

Definition register_group (mt : ModuleTypes) (st : list RecGroupEntry * list Z * Reg) (range : Z * Z)
  : outcome E (list RecGroupEntry * list Z * Reg) :=
  let '(entries, map, s) := st in
  tys ← mapO (fun ty => unwrap (get_wasm_type mt ty)) (entity_range range);
  r ← register_rec_group s map range tys;
  i ← arc r.2 r.1;
  map ← foldM push_engine_type (zip (entity_range range) (shared_type_indices i)) map;
  Ok (entries ++ [r.1], map, r.2).

Definition register_module_types (s : Reg) (mt : ModuleTypes) : outcome E (RuntimeTypeCollection * Reg) :=
  r ← foldM (register_group mt) (rec_groups mt) ([], [], s);
  let '(entries, map, s) := r in
  Ok (mkCollection entries map, s).

Definition lookup_shared_type (c : RuntimeTypeCollection) (index : Z) : option Z := pm_get (rc_types c) index.

(** ** Removal *)

Definition release_edge (s : Reg) (other_index : CTI) : outcome E Reg :=
  match other_index with
  | Shared other_index =>
      other_entry ← unwrap (type_to_rec_group s !! other_index);
      r ← decr_ref_count s other_entry;
      Ok (if r.1 : bool
          then mkRegistry (arcs r.2) (hash_consing_map r.2) (type_to_rec_group r.2) (types r.2) (other_entry :: drop_stack r.2)
          else r.2)
  | _ => Ok s
  end.

(** [HashSet::remove]: by key. *)
Definition remove_entry (s : Reg) (key : WasmRecGroup) : Reg :=
  mkRegistry (arcs s) (filter (fun e => hash_consing_key <$> arcs s !! e <> Some key) (hash_consing_map s))
    (type_to_rec_group s) (types s) (drop_stack s).

Definition remove_type (key : WasmRecGroup) (s : Reg) (index : Z) : outcome E Reg :=
  _ ← (if dbg then
         removed_entry ← unwrap (type_to_rec_group s !! index);
         i ← arc s removed_entry;
         assert_ (bool_decide (hash_consing_key i = key))
       else Ok tt);
  types' ← slab_dealloc (types s) index;
  Ok (mkRegistry (arcs s) (hash_consing_map s) (delete index (type_to_rec_group s)) types' (drop_stack s)).

(** One iteration for the entry popped off the stack. *)
Definition unregister_one (s : Reg) (entry : RecGroupEntry) : outcome E Reg :=
  i ← arc s entry;
  if negb (registrations i =? 0) then Ok s
  else
    _ ← debug_assert dbg (is_canonicalized_for_hash_consing (hash_consing_key i));
    s ← trace release_edge (hash_consing_key i) s;
    foldM (remove_type (hash_consing_key i)) (shared_type_indices i) (remove_entry s (hash_consing_key i)).

Definition pop_drop_stack (s : Reg) : Reg :=
  mkRegistry (arcs s) (hash_consing_map s) (type_to_rec_group s) (types s) (tail (drop_stack s)).

(** The [while let] loop.  An entry is pushed when its count drops to zero, so
    each entry is pushed at most once and the number of entries is enough fuel. *)
Fixpoint unregister_loop (fuel : nat) (s : Reg) : outcome E Reg :=
  match drop_stack s with
  | [] => Ok s
  | entry :: _ =>
      match fuel with
      | O => Panic
      | Datatypes.S fuel => s ← unregister_one (pop_drop_stack s) entry; unregister_loop fuel s
      end
  end.

Definition unregister_entry (s : Reg) (entry : RecGroupEntry) : outcome E Reg :=
  _ ← debug_assert dbg (bool_decide (drop_stack s = []));
  unregister_loop (Datatypes.S (length (arcs s)))
    (mkRegistry (arcs s) (hash_consing_map s) (type_to_rec_group s) (types s) (entry :: drop_stack s)).

(** Drop one registration of an entry. *)
Definition release (s : Reg) (entry : RecGroupEntry) : outcome E Reg :=
  r ← decr_ref_count s entry;
  if r.1 : bool then unregister_entry r.2 entry else Ok r.2.

Definition unregister_type_collection (s : Reg) (c : RuntimeTypeCollection) : outcome E Reg :=
  foldM release (rc_rec_groups c) s.

(** [Drop for RuntimeTypeCollection]. *)
Definition drop_collection (s : Reg) (c : RuntimeTypeCollection) : outcome E Reg :=
  if bool_decide (rc_rec_groups c = []) then Ok s else unregister_type_collection s c.

(** ** Handles *)

Definition get_type (s : Reg) (index : Z) : outcome E (option RegisteredType * Reg) :=
  match slab_get (types s) index with
  | None => Ok (None, s)
  | Some ty =>
      entry ← unwrap (type_to_rec_group s !! index);
      s ← incr_ref_count s entry;
      i ← arc s entry;
      _ ← debug_assert dbg (negb (registrations i =? 0));
      Ok (Some (mkRegistered entry ty index), s)
  end.

Definition clone_registered (s : Reg) (t : RegisteredType) : outcome E (RegisteredType * Reg) :=
  s ← incr_ref_count s (rt_entry t); Ok (t, s).

Definition drop_registered (s : Reg) (t : RegisteredType) : outcome E Reg := release s (rt_entry t).

(** [PartialEq for RegisteredType], within one engine. *)
Definition registered_eq (t t' : RegisteredType) : outcome E bool :=
  let eq := bool_decide (rt_entry t = rt_entry t') in
  _ ← (if dbg then
         if eq then assert_ (bool_decide (rt_ty t = rt_ty t'))
         else assert_ (negb (bool_decide (rt_ty t = rt_ty t')))
       else Ok tt);
  Ok eq.

(** [Drop for TypeRegistryInner]: the assertions of a debug build. *)
Definition drop_registry (s : Reg) : outcome E unit :=
  if dbg then
    _ ← assert_ (bool_decide (hash_consing_map s = []));
    _ ← assert_ (slab_len (types s) =? 0);
    _ ← assert_ (bool_decide (type_to_rec_group s = ∅));
    assert_ (bool_decide (drop_stack s = []))
  else Ok tt.
End Registry.
