(* ===== verification/TypeRegistryInv.v ===== *)
(** * Invariant of the type registry

    Every live entry is counted once per outstanding registration and once per
    reference from the key of another live entry; the reverse map and the slab
    hold exactly the types of the live entries; references lead to older
    entries.  Registration and removal preserve this, so that an entry goes
    away exactly when nothing refers to it any more. *)
From stdpp Require Import base list gmap option numbers.
From S2P Require Import Prelude Types TypeTrace Module ModuleTypes TypeRegistry.
Local Open Scope Z_scope.

(** ** Counting *)
Definition b2z (b : bool) : Z := if b then 1 else 0.

Fixpoint sumz {A} (f : A -> Z) (l : list A) : Z :=
  match l with
  | [] => 0
  | x :: l => f x + sumz f l
  end.

Lemma sumz_app {A} (f : A -> Z) l1 l2 : sumz f (l1 ++ l2) = sumz f l1 + sumz f l2.
Proof. induction l1; cbn; lia. Qed.

Lemma sumz_ext {A} (f g : A -> Z) l : (forall x, x ∈ l -> f x = g x) -> sumz f l = sumz g l.
Proof.
  induction l as [|x l IH]; intros H; cbn; [done|].
  rewrite (H x), IH by (set_solver || (intros; apply H; set_solver)). done.
Qed.

Lemma sumz_nonneg {A} (f : A -> Z) l : (forall x, x ∈ l -> 0 <= f x) -> 0 <= sumz f l.
Proof.
  induction l as [|x l IH]; intros H; cbn; [done|].
  pose proof (H x ltac:(set_solver)). assert (0 <= sumz f l) by (apply IH; set_solver). lia.
Qed.

Lemma sumz_elem {A} (f : A -> Z) l x : (forall x, x ∈ l -> 0 <= f x) -> x ∈ l -> f x <= sumz f l.
Proof.
  induction l as [|y l IH]; intros H; [by intros ?%not_elem_of_nil|]. intros [->|Hin]%elem_of_cons; cbn.
  - assert (0 <= sumz f l) by (apply sumz_nonneg; set_solver). lia.
  - pose proof (H y ltac:(set_solver)). assert (f x <= sumz f l) by (apply IH; set_solver). lia.
Qed.

Lemma sumz_perm {A} (f : A -> Z) l1 l2 : l1 ≡ₚ l2 -> sumz f l1 = sumz f l2.
Proof. induction 1; cbn; lia. Qed.

#[global] Instance sumz_proper {A} (f : A -> Z) : Proper ((≡ₚ) ==> (=)) (sumz f).
Proof. intros l1 l2. apply sumz_perm. Qed.

(** Occurrences in a multiset of registrations. *)
Definition occ (e : nat) (H : list nat) : Z := sumz (fun x => b2z (bool_decide (x = e))) H.

Lemma b2z_nonneg b : 0 <= b2z b.
Proof. destruct b; cbn; lia. Qed.
Lemma b2z_true b : b = true -> b2z b = 1.
Proof. by intros ->. Qed.
Lemma b2z_false b : b = false -> b2z b = 0.
Proof. by intros ->. Qed.

Lemma occ_nonneg e H : 0 <= occ e H.
Proof. apply sumz_nonneg. intros. apply b2z_nonneg. Qed.

Lemma occ_none e H : e ∉ H -> occ e H = 0.
Proof.
  intros Hn. unfold occ. induction H as [|x H IH]; cbn; [done|]. apply not_elem_of_cons in Hn as [Hx Hn].
  rewrite b2z_false by (apply bool_decide_eq_false; congruence). rewrite IH by done. done.
Qed.

(** ** The immutable part of the store *)
Definition shape_of (i : RecGroupEntryInner) : WasmRecGroup * list Z :=
  (hash_consing_key i, shared_type_indices i).
Definition shape (h : list RecGroupEntryInner) : list (WasmRecGroup * list Z) := shape_of <$> h.

Abbreviation Shape := (list (WasmRecGroup * list Z)).

(** Indices and key edges of an entry. *)
Definition sidx (sh : Shape) (e : nat) : list Z := default [] (snd <$> sh !! e).
Definition skey (sh : Shape) (e : nat) : list CTI := default [] (edges ∘ fst <$> sh !! e).

(** Does a reference lead to entry [e]? *)
Definition points (sh : Shape) (e : nat) (i : CTI) : bool :=
  match i with Shared j => bool_decide (j ∈ sidx sh e) | _ => false end.
Definition cnt (sh : Shape) (e : nat) (l : list CTI) : Z := sumz (fun i => b2z (points sh e i)) l.
Definition tot (sh : Shape) (live : list nat) (e : nat) : Z := sumz (fun y => cnt sh e (skey sh y)) live.

Lemma cnt_nonneg sh e l : 0 <= cnt sh e l.
Proof. apply sumz_nonneg. intros. apply b2z_nonneg. Qed.
Lemma cnt_cons sh e i l : cnt sh e (i :: l) = b2z (points sh e i) + cnt sh e l.
Proof. done. Qed.
Lemma tot_nonneg sh live e : 0 <= tot sh live e.
Proof. apply sumz_nonneg. intros. apply cnt_nonneg. Qed.

Lemma cnt_zero sh e l : (forall i, i ∈ l -> points sh e i = false) -> cnt sh e l = 0.
Proof.
  unfold cnt. induction l as [|i l IH]; intros Hl; cbn; [done|].
  rewrite b2z_false, IH by (set_solver || apply Hl; set_solver). done.
Qed.

Lemma cnt_pos sh e l i : i ∈ l -> points sh e i = true -> 0 < cnt sh e l.
Proof.
  intros Hi Hp. pose proof (sumz_elem (fun i => b2z (points sh e i)) l i (fun _ _ => b2z_nonneg _) Hi) as Hs.
  cbn in Hs. rewrite (b2z_true _ Hp) in Hs. unfold cnt. lia.
Qed.

Lemma shape_set h e i n : h !! e = Some i ->
  shape (<[e := mkEntryInner (hash_consing_key i) (shared_type_indices i) n]> h) = shape h.
Proof.
  intros Hi. unfold shape. rewrite list_fmap_insert. apply list_insert_id.
  by rewrite list_lookup_fmap, Hi.
Qed.

(** ** The invariant *)
Section Inv.
Context {S : Type} `{HSlab : Slab S WasmSubType} `{!SlabLaws S WasmSubType}.
Abbreviation Reg := (TypeRegistryInner S).

Definition regs (s : Reg) (e : nat) : Z := default 0 (registrations <$> arcs s !! e).

(** A reference of the key of [e] is relative or leads to an older live entry. *)
Definition edge_ok (sh : Shape) (live : list nat) (e : nat) (i : CTI) : Prop :=
  match i with
  | Shared j => exists e', (e' < e)%nat /\ e' ∈ live /\ j ∈ sidx sh e'
  | RecGroup _ => True
  | Module_ _ => False
  end.

(** Everything but the counts. *)
Record static (sh : Shape) (live : list nat) (t2r : gmap Z nat) (slab : S) : Prop := {
  st_nodup : NoDup live;
  st_live : forall e, e ∈ live -> (e < length sh)%nat;
  st_keys : forall e e' k l l', e ∈ live -> e' ∈ live -> sh !! e = Some (k, l) -> sh !! e' = Some (k, l') -> e = e';
  st_map : forall i e, t2r !! i = Some e <-> e ∈ live /\ i ∈ sidx sh e;
  st_slab : forall i, is_Some (slab_get slab i) <-> is_Some (t2r !! i);
  st_len : slab_len slab = sumz (fun e => pm_len (sidx sh e)) live;
  st_idx : forall e, e ∈ live -> NoDup (sidx sh e);
  st_width : forall e k l, e ∈ live -> sh !! e = Some (k, l) -> length l = length (rg_types k);
  st_edges : forall e, e ∈ live -> Forall (edge_ok sh live e) (skey sh e) }.

(** The counts of the entries [live], with references [pend] on top, and the
    drop stack: exactly the entries that have reached zero. *)
Record counted (s : Reg) (live : list nat) (hs : list nat) (pend : list CTI) : Prop := {
  ct_count : forall e, e ∈ live ->
    regs s e = occ e hs + tot (shape (arcs s)) live e + cnt (shape (arcs s)) e pend;
  ct_fits : forall e, e ∈ live -> regs s e < 2 ^ 64;
  ct_stack : NoDup (drop_stack s);
  ct_zero : forall e, e ∈ drop_stack s <-> e ∈ live /\ regs s e = 0 }.

Definition reg_static (s : Reg) : Prop :=
  static (shape (arcs s)) (hash_consing_map s) (type_to_rec_group s) (types s).

(** The registry between operations, with outstanding registrations [hs]. *)
Record inv (s : Reg) (hs : list nat) : Prop := {
  inv_static : reg_static s;
  inv_counted : counted s (hash_consing_map s) hs [];
  inv_stack : drop_stack s = [];
  inv_handles : forall e, e ∈ hs -> e ∈ hash_consing_map s }.

Lemma inv_new : inv registry_new [].
Proof.
  split.
  - split; cbn.
    + apply NoDup_nil_2.
    + by intros ? ?%not_elem_of_nil.
    + by intros ? ? ? ? ? ?%not_elem_of_nil.
    + intros i e. rewrite lookup_empty. split; [done|]. by intros [?%not_elem_of_nil _].
    + intros i. rewrite slab_get_new, lookup_empty. done.
    + apply slab_len_new.
    + by intros ? ?%not_elem_of_nil.
    + by intros ? ? ? ?%not_elem_of_nil.
    + by intros ? ?%not_elem_of_nil.
  - split; cbn; [by intros ? ?%not_elem_of_nil..|apply NoDup_nil_2|].
    intros e. split; [by intros ?%not_elem_of_nil|by intros [?%not_elem_of_nil _]].
  - done.
  - by intros ? ?%not_elem_of_nil.
Qed.

Lemma inv_perm s hs1 hs2 : hs1 ≡ₚ hs2 -> inv s hs1 -> inv s hs2.
Proof.
  intros Hp [? [Hc ? ? ?] ? Hh]. split; [done| |done|intros e He; apply Hh; by rewrite Hp].
  split; [|done..]. intros e He. rewrite Hc by done. unfold occ. by rewrite Hp.
Qed.

(** A live entry has a positive count between operations. *)
Lemma inv_positive s hs e : inv s hs -> e ∈ hash_consing_map s -> 0 < regs s e.
Proof.
  intros [_ [Hc _ _ Hz] Hst _] He. pose proof (occ_nonneg e hs). pose proof (tot_nonneg (shape (arcs s)) (hash_consing_map s) e).
  pose proof (cnt_nonneg (shape (arcs s)) e []). pose proof (Hc e He).
  assert (regs s e <> 0); [|lia]. intros He0. assert (e ∈ drop_stack s) by (by apply Hz).
  rewrite Hst in *. by eapply not_elem_of_nil.
Qed.

(** *** Changing one count *)
Record bumped (s : Reg) (e : nat) (n : Z) (s' : Reg) : Prop := {
  bp_shape : shape (arcs s') = shape (arcs s);
  bp_set : hash_consing_map s' = hash_consing_map s;
  bp_map : type_to_rec_group s' = type_to_rec_group s;
  bp_types : types s' = types s;
  bp_stack : drop_stack s' = drop_stack s;
  bp_regs : forall e', regs s' e' = if decide (e' = e) then n else regs s e' }.

Lemma set_bumped s e i n : arcs s !! e = Some i -> bumped s e n (set_registrations s e i n).
Proof.
  intros Hi. split; cbn; [by apply shape_set|done..|]. intros e'. unfold regs; cbn. case_decide as He.
  - subst e'. rewrite list_lookup_insert_eq by (by eapply lookup_lt_Some). done.
  - by rewrite list_lookup_insert_ne by done.
Qed.

Lemma live_arc s e : reg_static s -> e ∈ hash_consing_map s ->
  exists i, arcs s !! e = Some i /\ regs s e = registrations i.
Proof.
  intros Hst He. apply (st_live _ _ _ _ Hst) in He. unfold shape in He. rewrite length_fmap in He.
  apply lookup_lt_is_Some in He as [i Hi]. exists i. unfold regs. by rewrite Hi.
Qed.

Lemma incr_ok {E} s e : reg_static s -> e ∈ hash_consing_map s -> 0 <= regs s e < 2 ^ 64 - 1 ->
  exists s', incr_ref_count (E:=E) s e = Ok s' /\ bumped s e (regs s e + 1) s'.
Proof.
  intros Hst He Hr. destruct (live_arc s e Hst He) as (i & Hi & Hri).
  unfold incr_ref_count, arc. rewrite Hi. cbn [unwrap mbind outcome_bind]. unfold add.
  rewrite ofits_intro by lia. cbn. eexists. split; [done|]. rewrite Hri. by apply set_bumped.
Qed.

Lemma decr_ok {E} s e : reg_static s -> e ∈ hash_consing_map s -> 0 < regs s e < 2 ^ 64 ->
  exists s', decr_ref_count (E:=E) s e = Ok (regs s e =? 1, s') /\ bumped s e (regs s e - 1) s'.
Proof.
  intros Hst He Hr. destruct (live_arc s e Hst He) as (i & Hi & Hri).
  unfold decr_ref_count, arc. rewrite Hi. cbn [unwrap mbind outcome_bind]. unfold sub.
  rewrite ofits_intro by lia. cbn. rewrite Hri. eexists. split; [done|]. by apply set_bumped.
Qed.

Lemma bumped_static s e n s' : bumped s e n s' -> reg_static s -> reg_static s'.
Proof. intros [Hsh Hset Hmap Hty _ _]. unfold reg_static. by rewrite Hsh, Hset, Hmap, Hty. Qed.

(** In a well-formed registry a live index belongs to one live entry. *)
Lemma points_live sh live t2r slab j e e' : static sh live t2r slab ->
  e ∈ live -> j ∈ sidx sh e -> e' ∈ live -> points sh e' (Shared j) = bool_decide (e' = e).
Proof.
  intros Hst He Hj He'. cbn. apply bool_decide_ext. split; [|by intros ->].
  intros Hj'. assert (t2r !! j = Some e) as H1 by (by apply (st_map _ _ _ _ Hst)).
  assert (t2r !! j = Some e') as H2 by (by apply (st_map _ _ _ _ Hst)). congruence.
Qed.

(** *** Releasing references *)
Definition push_stack (s : Reg) (e : nat) : Reg :=
  mkRegistry (arcs s) (hash_consing_map s) (type_to_rec_group s) (types s) (e :: drop_stack s).

(** The static components agree. *)
Definition same_static (s s' : Reg) : Prop :=
  shape (arcs s') = shape (arcs s) /\ hash_consing_map s' = hash_consing_map s /\
  type_to_rec_group s' = type_to_rec_group s /\ types s' = types s.

Lemma same_static_static s s' : same_static s s' -> reg_static s -> reg_static s'.
Proof. intros (H1 & H2 & H3 & H4). unfold reg_static. by rewrite H1, H2, H3, H4. Qed.

Lemma same_static_trans s1 s2 s3 : same_static s1 s2 -> same_static s2 s3 -> same_static s1 s3.
Proof. intros (? & ? & ? & ?) (? & ? & ? & ?). repeat split; congruence. Qed.

Lemma bumped_same s e n s' : bumped s e n s' -> same_static s s'.
Proof. by intros []. Qed.

Lemma release_edge_ok {E} s live hs i pend :
  reg_static s -> live ⊆ hash_consing_map s -> counted s live hs (i :: pend) ->
  (forall j, i = Shared j -> exists e, e ∈ live /\ j ∈ sidx (shape (arcs s)) e) ->
  exists s', release_edge (E:=E) s i = Ok s' /\ same_static s s' /\ counted s' live hs pend.
Proof.
  intros Hst Hsub Hc Hi. destruct i as [j|j|j]; cbn.
  - destruct (Hi j eq_refl) as (e & He & Hj). assert (HeM : e ∈ hash_consing_map s) by (by apply Hsub).
    assert (type_to_rec_group s !! j = Some e) as -> by (by apply (st_map _ _ _ _ Hst)).
    cbn [unwrap mbind outcome_bind]. destruct Hc as [Hcount Hfits Hnd Hz].
    assert (Hpt : forall x, x ∈ live -> points (shape (arcs s)) x (Shared j) = bool_decide (x = e))
      by (intros x Hx; apply (points_live _ _ _ _ _ _ _ Hst HeM Hj); by apply Hsub).
    assert (Hre : 0 < regs s e < 2 ^ 64).
    { split; [|by apply Hfits]. rewrite Hcount, cnt_cons, Hpt, bool_decide_true by done. cbn [b2z].
      pose proof (occ_nonneg e hs). pose proof (tot_nonneg (shape (arcs s)) live e).
      pose proof (cnt_nonneg (shape (arcs s)) e pend). lia. }
    destruct (decr_ok (E:=E) s e Hst HeM Hre) as (s1 & -> & Hb). cbn [mbind outcome_bind fst snd].
    assert (Hcount1 : forall x, x ∈ live ->
      regs s1 x = occ x hs + tot (shape (arcs s)) live x + cnt (shape (arcs s)) x pend).
    { intros x Hx. rewrite (bp_regs _ _ _ _ Hb). pose proof (Hcount x Hx) as Hcx. rewrite cnt_cons, Hpt in Hcx by done.
      destruct (decide (x = e)) as [Hxe|Hxe]; [subst x; rewrite bool_decide_true in Hcx by done|rewrite bool_decide_false in Hcx by done];
        cbn [b2z] in Hcx; lia. }
    assert (Hfits1 : forall x, x ∈ live -> regs s1 x < 2 ^ 64)
      by (intros x Hx; rewrite (bp_regs _ _ _ _ Hb); pose proof (Hfits x Hx); case_decide; [subst|]; lia).
    destruct (Z.eqb_spec (regs s e) 1) as [H1|H1].
    + exists (push_stack s1 e). split; [done|]. split; [exact (bumped_same _ _ _ _ Hb)|].
      split; cbn [push_stack drop_stack arcs].
      * intros x Hx. change (regs (push_stack s1 e) x) with (regs s1 x). rewrite (bp_shape _ _ _ _ Hb). by apply Hcount1.
      * exact Hfits1.
      * rewrite (bp_stack _ _ _ _ Hb). apply list.NoDup_cons. split; [|done]. intros Hin%Hz. lia.
      * intros x. change (regs (push_stack s1 e) x) with (regs s1 x). rewrite elem_of_cons, (bp_stack _ _ _ _ Hb), Hz, (bp_regs _ _ _ _ Hb).
        destruct (decide (x = e)) as [Hxe|Hxe]; [subst x|split; [by intros [?|?]|by right]]. split; [intros _; split; [done|lia]|by left].
    + exists s1. split; [done|]. split; [exact (bumped_same _ _ _ _ Hb)|]. split.
      * intros x Hx. rewrite (bp_shape _ _ _ _ Hb). by apply Hcount1.
      * exact Hfits1.
      * by rewrite (bp_stack _ _ _ _ Hb).
      * intros x. rewrite (bp_stack _ _ _ _ Hb), Hz, (bp_regs _ _ _ _ Hb).
        destruct (decide (x = e)) as [Hxe|Hxe]; [subst x|done]. split; intros [? ?]; lia.
  - exists s. split; [done|]. split; [by repeat split|]. destruct Hc as [Hcount ? ? ?]. by split; [exact Hcount|..].
  - exists s. split; [done|]. split; [by repeat split|]. destruct Hc as [Hcount ? ? ?]. by split; [exact Hcount|..].
Qed.

Lemma release_edges_ok {E} s live hs pend :
  reg_static s -> live ⊆ hash_consing_map s -> counted s live hs pend ->
  (forall j, Shared j ∈ pend -> exists e, e ∈ live /\ j ∈ sidx (shape (arcs s)) e) ->
  exists s', foldM (release_edge (E:=E)) pend s = Ok s' /\ same_static s s' /\ counted s' live hs [].
Proof.
  revert s; induction pend as [|i pend IH]; intros s Hst Hsub Hc Hp.
  - exists s. split; [done|]. split; [by repeat split|done].
  - destruct (release_edge_ok (E:=E) s live hs i pend Hst Hsub Hc) as (s1 & Hs1 & Hsame & Hc1);
      [intros j ->; apply Hp; by left|].
    cbn [foldM]. rewrite Hs1. pose proof Hsame as (Hsh & Hset & _ & _).
    destruct (IH s1) as (s2 & -> & Hsame2 & Hc2); [by eapply same_static_static|by rewrite Hset|done| |].
    + intros j Hj. rewrite Hsh. apply Hp. by right.
    + exists s2. split; [done|]. split; [by eapply same_static_trans|done].
Qed.

(** *** Removing an entry *)
Lemma decide_elem_cons_ne {A} (x y : Z) l (a b : A) : x <> y ->
  (if decide (x ∈ y :: l) then a else b) = (if decide (x ∈ l) then a else b).
Proof. intros Hne. apply decide_ext. rewrite elem_of_cons. naive_solver. Qed.

Lemma remove_types_ok {E} dbg key x l s :
  NoDup l -> (forall j, j ∈ l -> type_to_rec_group s !! j = Some x /\ is_Some (slab_get (types s) j)) ->
  (exists i, arcs s !! x = Some i /\ hash_consing_key i = key) ->
  exists t2r slab, foldM (remove_type (E:=E) dbg key) l s =
      Ok (mkRegistry (arcs s) (hash_consing_map s) t2r slab (drop_stack s)) /\
    (forall j, t2r !! j = if decide (j ∈ l) then None else type_to_rec_group s !! j) /\
    (forall j, slab_get slab j = if decide (j ∈ l) then None else slab_get (types s) j) /\
    slab_len slab = slab_len (types s) - pm_len l.
Proof.
  revert s; induction l as [|j l IH]; intros s Hnd Hl Hx.
  - exists (type_to_rec_group s), (types s). split; [by destruct s|]. split; [done|]. split; [done|]. unfold pm_len; cbn; lia.
  - apply list.NoDup_cons in Hnd as [Hj Hnd]. destruct (Hl j ltac:(by left)) as [Ht [v Hv]].
    destruct Hx as (i & Hi & Hk). destruct (slab_dealloc_live (E:=E) _ _ _ Hv) as (sl & Hsl & Hlen & Hget).
    cbn [foldM]. unfold remove_type at 1. rewrite Ht. unfold arc. cbn [unwrap mbind outcome_bind]. rewrite Hi.
    cbn [unwrap mbind outcome_bind]. rewrite (bool_decide_true (hash_consing_key i = key)) by done.
    replace (if dbg then assert_ true else Ok tt) with (Ok tt : outcome E unit) by (by destruct dbg).
    cbn [mbind outcome_bind]. rewrite Hsl. cbn [mbind outcome_bind].
    set (s1 := mkRegistry (arcs s) (hash_consing_map s) (delete j (type_to_rec_group s)) sl (drop_stack s)).
    destruct (IH s1) as (t2r & slab & -> & Ht2r & Hslab & Hlen'); [done| |by exists i|].
    { intros j' Hj'. assert (j' <> j) by (intros ->; done). destruct (Hl j' ltac:(by right)) as [Ht' Hv'].
      cbn. rewrite lookup_delete_ne by done. split; [done|]. rewrite Hget, (proj2 (Z.eqb_neq _ _)) by done. done. }
    exists t2r, slab. split; [done|]. split; [|split].
    + intros j'. rewrite Ht2r. cbn. destruct (decide (j' = j)) as [->|Hne].
      * rewrite decide_False, decide_True, lookup_delete_eq by (done || by left). done.
      * by rewrite (decide_elem_cons_ne _ j), lookup_delete_ne.
    + intros j'. rewrite Hslab. cbn. rewrite Hget. destruct (decide (j' = j)) as [->|Hne].
      * rewrite decide_False, decide_True, Z.eqb_refl by (done || by left). done.
      * by rewrite (decide_elem_cons_ne _ j), (proj2 (Z.eqb_neq _ _)).
    + rewrite Hlen'. cbn. rewrite Hlen. unfold pm_len. cbn. lia.
Qed.

(** The live entries without [x]: removal by key. *)
Definition without (s : Reg) (key : WasmRecGroup) : list nat :=
  filter (fun e => hash_consing_key <$> arcs s !! e <> Some key) (hash_consing_map s).

Lemma without_elem s x i e : reg_static s -> x ∈ hash_consing_map s -> arcs s !! x = Some i ->
  e ∈ without s (hash_consing_key i) <-> e ∈ hash_consing_map s /\ e <> x.
Proof.
  intros Hst Hx Hi. unfold without. rewrite list_elem_of_filter. split; intros [H1 H2]; split; try done.
  - intros ->. rewrite Hi in H1. done.
  - intros Hk. destruct (arcs s !! e) as [i'|] eqn:Hi'; [|done]. injection Hk as Hk. apply H2.
    apply (st_keys _ _ _ _ Hst e x (hash_consing_key i) (shared_type_indices i') (shared_type_indices i)); [done..| |];
      unfold shape; rewrite list_lookup_fmap; [rewrite Hi'|rewrite Hi]; cbn; unfold shape_of; congruence.
Qed.

Lemma without_perm s x i : reg_static s -> x ∈ hash_consing_map s -> arcs s !! x = Some i ->
  hash_consing_map s ≡ₚ x :: without s (hash_consing_key i).
Proof.
  intros Hst Hx Hi. apply NoDup_Permutation.
  - apply (st_nodup _ _ _ _ Hst).
  - apply list.NoDup_cons. split; [rewrite without_elem by done; naive_solver|].
    apply list.NoDup_filter, (st_nodup _ _ _ _ Hst).
  - intros e. rewrite elem_of_cons, without_elem by done. destruct (decide (e = x)); naive_solver.
Qed.

Lemma shape_lookup (h : list RecGroupEntryInner) e i : h !! e = Some i ->
  shape h !! e = Some (hash_consing_key i, shared_type_indices i).
Proof. intros Hi. unfold shape. by rewrite list_lookup_fmap, Hi. Qed.

Lemma sidx_lookup h e i : h !! e = Some i -> sidx (shape h) e = shared_type_indices i.
Proof. intros Hi. unfold sidx. by rewrite (shape_lookup _ _ _ Hi). Qed.

Lemma skey_lookup h e i : h !! e = Some i -> skey (shape h) e = edges (hash_consing_key i).
Proof. intros Hi. unfold skey. by rewrite (shape_lookup _ _ _ Hi). Qed.

(** A dead entry is referred to by no live one. *)
Lemma zero_unreferenced s live hs x : counted s live hs [] -> x ∈ live -> regs s x = 0 ->
  x ∉ hs /\ forall y j, y ∈ live -> Shared j ∈ skey (shape (arcs s)) y -> j ∉ sidx (shape (arcs s)) x.
Proof.
  intros [Hc _ _ _] Hx H0. pose proof (Hc x Hx) as Hcx. rewrite H0 in Hcx.
  pose proof (occ_nonneg x hs). pose proof (tot_nonneg (shape (arcs s)) live x).
  assert (cnt (shape (arcs s)) x [] = 0) by done. split.
  - intros Hin. pose proof (sumz_elem (fun y => b2z (bool_decide (y = x))) hs x (fun _ _ => b2z_nonneg _) Hin) as Hs.
    cbn in Hs. rewrite bool_decide_true in Hs by done. fold (occ x hs) in Hs. cbn in Hs. lia.
  - intros y j Hy Hj Hin.
    pose proof (sumz_elem (fun y => cnt (shape (arcs s)) x (skey (shape (arcs s)) y)) live y (fun _ _ => cnt_nonneg _ _ _) Hy) as Hs.
    cbn in Hs. fold (tot (shape (arcs s)) live x) in Hs.
    pose proof (cnt_pos (shape (arcs s)) x _ (Shared j) Hj (bool_decide_eq_true_2 _ Hin)). lia.
Qed.

Lemma static_remove sh live live' t2r t2r' slab slab' x :
  static sh live t2r slab -> x ∈ live -> live ≡ₚ x :: live' ->
  (forall y j, y ∈ live -> Shared j ∈ skey sh y -> j ∉ sidx sh x) ->
  (forall j, t2r' !! j = if decide (j ∈ sidx sh x) then None else t2r !! j) ->
  (forall j, slab_get slab' j = if decide (j ∈ sidx sh x) then None else slab_get slab j) ->
  slab_len slab' = slab_len slab - pm_len (sidx sh x) ->
  static sh live' t2r' slab'.
Proof.
  intros [Hnd Hlv Hk Hm Hs Hl Hi Hw He] Hx Hp Hun Ht2r Hslab Hlen.
  assert (Hnd' : NoDup (x :: live')) by (by rewrite <- Hp). apply list.NoDup_cons in Hnd' as [Hx' Hnd'].
  assert (Hin : forall e, e ∈ live' -> e ∈ live) by (intros e ?; rewrite Hp; by right).
  split; [done|intros e ?%Hin; auto| | | | |intros e ?%Hin; auto|intros e k l ?%Hin; eauto|].
  - intros e e' k l l' ?%Hin ?%Hin; eauto.
  - intros i e. rewrite Ht2r. case_decide as Hd.
    + split; [done|]. intros [He' Hie]. assert (t2r !! i = Some e) as H1 by (apply Hm; auto).
      assert (t2r !! i = Some x) as H2 by (apply Hm; auto). congruence.
    + rewrite Hm, Hp, elem_of_cons. split; [intros [[->|?] ?]; done|naive_solver].
  - intros i. rewrite Hslab, Ht2r. case_decide; [|apply Hs]. split; by intros [? ?].
  - rewrite Hlen, Hl, Hp. cbn. lia.
  - intros e He'. apply list.Forall_forall. intros [j|j|j] Hj; cbn; [|by apply (proj1 (list.Forall_forall _ _) (He e (Hin e He'))) in Hj|done].
    pose proof (proj1 (list.Forall_forall _ _) (He e (Hin e He')) _ Hj) as (e' & Hlt & Hlive & Hidx).
    exists e'. split; [done|]. split; [|done]. rewrite Hp in Hlive. apply elem_of_cons in Hlive as [->|?]; [|done].
    by apply (Hun e j (Hin e He')) in Hj.
Qed.

(** Removal touches nothing that stays: types that are still mapped keep their
    entry and their value. *)
Definition shrunk (s s' : Reg) : Prop :=
  shape (arcs s') = shape (arcs s) /\
  forall j e, type_to_rec_group s' !! j = Some e ->
    type_to_rec_group s !! j = Some e /\ slab_get (types s') j = slab_get (types s) j.

Lemma shrunk_refl s : shrunk s s.
Proof. split; [done|]. by intros. Qed.

Lemma shrunk_trans s1 s2 s3 : shrunk s1 s2 -> shrunk s2 s3 -> shrunk s1 s3.
Proof.
  intros [H1 H2] [H3 H4]. split; [congruence|]. intros j e Hj. destruct (H4 j e Hj) as [H5 H6].
  destruct (H2 j e H5) as [H7 H8]. split; [done|congruence].
Qed.

Lemma same_shrunk s s' : same_static s s' -> shrunk s s'.
Proof. intros (H1 & _ & H3 & H4). split; [done|]. rewrite H3, H4. by intros. Qed.

(** The registry inside the removal loop. *)
Record loop_inv (s : Reg) (hs : list nat) : Prop := {
  li_static : reg_static s;
  li_counted : counted s (hash_consing_map s) hs [];
  li_handles : forall e, e ∈ hs -> e ∈ hash_consing_map s }.

(** Popping a dead entry: the references of its key become pending. *)
Lemma pop_counted s hs x st i : loop_inv s hs -> drop_stack s = x :: st -> arcs s !! x = Some i ->
  counted (pop_drop_stack s) (without s (hash_consing_key i)) hs (edges (hash_consing_key i)).
Proof.
  intros [Hst [Hcnt Hf Hnd Hz] _] Hstk Hi. rewrite Hstk in Hnd, Hz.
  destruct (proj1 (Hz x) ltac:(by left)) as [Hx Hx0]. apply list.NoDup_cons in Hnd as [Hxst Hnd].
  pose proof (without_elem s x i) as Hwe. pose proof (without_perm s x i Hst Hx Hi) as Hperm.
  assert (Hsub : forall e, e ∈ without s (hash_consing_key i) -> e ∈ hash_consing_map s /\ e <> x)
    by (intros e; by apply Hwe).
  split; cbn [pop_drop_stack arcs drop_stack].
  - intros e He. destruct (Hsub e He) as [HeM _]. change (regs (pop_drop_stack s) e) with (regs s e).
    rewrite (Hcnt e HeM). unfold tot. rewrite Hperm at 1. cbn [sumz].
    rewrite (skey_lookup _ _ _ Hi). unfold cnt at 3. cbn [sumz]. lia.
  - intros e He. destruct (Hsub e He) as [HeM _]. by apply Hf.
  - by rewrite Hstk.
  - intros e. rewrite Hstk. cbn [tail]. change (regs (pop_drop_stack s) e) with (regs s e). split.
    + intros He. destruct (proj1 (Hz e) ltac:(by right)) as [HeM He0]. split; [|done]. apply Hwe; [done..|].
      split; [done|]. by intros ->.
    + intros [He He0]. destruct (Hsub e He) as [HeM Hne].
      destruct (proj1 (elem_of_cons st e x) (proj2 (Hz e) (conj HeM He0))) as [?|?]; done.
Qed.

Lemma unregister_one_ok {E} dbg s hs x st : loop_inv s hs -> drop_stack s = x :: st ->
  exists s', unregister_one (E:=E) dbg (pop_drop_stack s) x = Ok s' /\ loop_inv s' hs /\
    hash_consing_map s ≡ₚ x :: hash_consing_map s' /\ shrunk s s'.
Proof.
  intros Hinv Hstk. pose proof Hinv as [Hst Hc Hh]. pose proof (ct_zero _ _ _ _ Hc x) as Hz. rewrite Hstk in Hz.
  destruct (proj1 Hz ltac:(by left)) as [Hx Hx0]. destruct (live_arc s x Hst Hx) as (i & Hi & Hri).
  pose proof (without_perm s x i Hst Hx Hi) as Hperm. pose proof (pop_counted s hs x st i Hinv Hstk Hi) as Hpc.
  destruct (zero_unreferenced s _ hs x Hc Hx Hx0) as [Hxh Hun].
  unfold unregister_one, arc. cbn [pop_drop_stack arcs]. rewrite Hi. cbn [unwrap mbind outcome_bind].
  rewrite <- Hri, Hx0. cbn [Z.eqb negb].
  pose proof (st_edges _ _ _ _ Hst x Hx) as Hed. rewrite (skey_lookup _ _ _ Hi) in Hed.
  rewrite (proj2 (is_hash_consing_spec _)), debug_assert_true.
  2:{ eapply list.Forall_impl; [exact Hed|]. by intros []. }
  cbn [mbind outcome_bind]. rewrite trace_law.
  destruct (release_edges_ok (E:=E) (pop_drop_stack s) (without s (hash_consing_key i)) hs (edges (hash_consing_key i)))
    as (s1 & -> & (Hsh & Hset & Hmap & Hty) & Hc1); [exact Hst| |done| |].
  - intros e He. by apply (without_elem s x i) in He as [? _].
  - intros j Hj. destruct (proj1 (list.Forall_forall _ _) Hed _ Hj) as (e & Hlt & He & Hje). exists e. split; [|done].
    apply (without_elem s x i); [done..|]. split; [done|lia].
  - cbn [mbind outcome_bind]. cbn [pop_drop_stack arcs hash_consing_map type_to_rec_group types] in Hsh, Hset, Hmap, Hty.
    assert (Hi1 : exists i1, arcs s1 !! x = Some i1 /\ hash_consing_key i1 = hash_consing_key i).
    { pose proof (shape_lookup _ _ _ Hi) as Hl. rewrite <- Hsh in Hl. unfold shape in Hl. rewrite list_lookup_fmap in Hl.
      destruct (arcs s1 !! x) as [i1|]; [|done]. exists i1. unfold shape_of in Hl. cbn in Hl. split; [done|congruence]. }
    assert (Hw : without s1 (hash_consing_key i) = without s (hash_consing_key i)).
    { unfold without. rewrite Hset. apply list_filter_iff. intros e. 
      assert (hash_consing_key <$> arcs s1 !! e = hash_consing_key <$> arcs s !! e) as ->; [|done].
      apply (f_equal (fun sh => fst <$> sh !! e)) in Hsh. unfold shape in Hsh. rewrite !list_lookup_fmap in Hsh.
      by destruct (arcs s1 !! e), (arcs s !! e). }
    pose proof (sidx_lookup _ _ _ Hi) as Hsx.
    destruct (remove_types_ok (E:=E) dbg (hash_consing_key i) x (shared_type_indices i) (remove_entry s1 (hash_consing_key i)))
      as (t2r & slab & -> & Ht2r & Hslab & Hlen); [rewrite <- Hsx; by apply (st_idx _ _ _ _ Hst)| |done|].
    { intros j Hj. cbn. rewrite Hmap, Hty. assert (type_to_rec_group s !! j = Some x) as Htj
        by (apply (st_map _ _ _ _ Hst); by rewrite Hsx). split; [done|].
      apply (st_slab _ _ _ _ Hst). by eexists. }
    cbn [remove_entry arcs hash_consing_map type_to_rec_group types drop_stack] in *. fold (without s1 (hash_consing_key i)).
    rewrite Hmap in Ht2r. rewrite Hty in Hslab, Hlen. rewrite <- Hsx in Ht2r, Hslab, Hlen.
    eexists. split; [done|]. split; [|split].
    + rewrite Hw. split; unfold reg_static; cbn [arcs hash_consing_map type_to_rec_group types].
      * rewrite Hsh. eapply static_remove; [exact Hst|exact Hx|exact Hperm|done..].
      * destruct Hc1 as [? ? ? ?]. by split.
      * intros e He. apply (without_elem s x i); [done..|]. split; [by apply Hh|]. by intros ->.
    + cbn. by rewrite Hw.
    + split; [exact Hsh|]. cbn. intros j e. rewrite Ht2r, Hslab. by case_decide.
Qed.

Lemma unregister_loop_ok {E} dbg fuel s hs : loop_inv s hs -> (length (hash_consing_map s) <= fuel)%nat ->
  exists s', unregister_loop (E:=E) dbg fuel s = Ok s' /\ inv s' hs /\ shrunk s s'.
Proof.
  revert s; induction fuel as [|fuel IH]; intros s Hinv Hlen; cbn [unregister_loop];
    (destruct (drop_stack s) as [|x st] eqn:Hstk; [exists s; split; [done|]; split; [by destruct Hinv; split|apply shrunk_refl]|]).
  - destruct Hinv as [_ [_ _ _ Hz] _]. rewrite Hstk in Hz. destruct (proj1 (Hz x) ltac:(by left)) as [Hx _].
    destruct (hash_consing_map s); [by apply not_elem_of_nil in Hx|cbn in Hlen; lia].
  - destruct (unregister_one_ok (E:=E) dbg s hs x st Hinv Hstk) as (s1 & -> & Hinv1 & Hp & Hk1).
    cbn [mbind outcome_bind]. destruct (IH s1) as (s2 & -> & Hinv2 & Hk2); [done|rewrite Hp in Hlen; cbn in Hlen; lia|].
    exists s2. split; [done|]. split; [done|by eapply shrunk_trans].
Qed.

Lemma occ_cons e x hs : occ e (x :: hs) = b2z (bool_decide (x = e)) + occ e hs.
Proof. done. Qed.

Lemma live_bounded s : reg_static s -> (length (hash_consing_map s) <= length (arcs s))%nat.
Proof.
  intros Hst. transitivity (length (seq 0 (length (arcs s)))); [|by rewrite length_seq].
  apply submseteq_length, NoDup_submseteq; [apply (st_nodup _ _ _ _ Hst)|].
  intros e He%(st_live _ _ _ _ Hst). unfold shape in He. rewrite length_fmap in He.
  apply elem_of_seq. lia.
Qed.

(** Dropping one registration. *)
Lemma release_ok {E} dbg s hs e : inv s (e :: hs) ->
  exists s', release (E:=E) dbg s e = Ok s' /\ inv s' hs /\ shrunk s s'.
Proof.
  intros Hinv. pose proof Hinv as [Hst [Hcnt Hf Hnd Hz] Hstk Hh]. pose proof (Hh e ltac:(by left)) as He.
  assert (Hre : 0 < regs s e < 2 ^ 64) by (split; [by eapply inv_positive|by apply Hf]).
  destruct (decr_ok (E:=E) s e Hst He Hre) as (s1 & Hd & Hb). unfold release. rewrite Hd. cbn [mbind outcome_bind fst snd].
  pose proof (bumped_static _ _ _ _ Hb Hst) as Hst1.
  assert (Hcnt1 : forall x, x ∈ hash_consing_map s1 ->
    regs s1 x = occ x hs + tot (shape (arcs s1)) (hash_consing_map s1) x + cnt (shape (arcs s1)) x []).
  { intros x. rewrite (bp_set _ _ _ _ Hb), (bp_regs _ _ _ _ Hb), (bp_shape _ _ _ _ Hb). intros Hx.
    pose proof (Hcnt x Hx) as Hcx. rewrite occ_cons in Hcx. destruct (decide (x = e)) as [->|Hne].
    - rewrite bool_decide_true in Hcx by done. cbn [b2z] in Hcx. lia.
    - rewrite bool_decide_false in Hcx by congruence. cbn [b2z] in Hcx. lia. }
  assert (Hf1 : forall x, x ∈ hash_consing_map s1 -> regs s1 x < 2 ^ 64).
  { intros x. rewrite (bp_set _ _ _ _ Hb), (bp_regs _ _ _ _ Hb). intros Hx. pose proof (Hf x Hx).
    destruct (decide (x = e)); [subst|]; lia. }
  assert (Hpos : forall x, x ∈ hash_consing_map s -> x <> e -> 0 < regs s1 x).
  { intros x Hx Hne. rewrite (bp_regs _ _ _ _ Hb), decide_False by done. by eapply inv_positive. }
  assert (Hh1 : forall x, x ∈ hs -> x ∈ hash_consing_map s1)
    by (intros x Hx; rewrite (bp_set _ _ _ _ Hb); apply Hh; by right).
  assert (Hstk1 : drop_stack s1 = []) by (by rewrite (bp_stack _ _ _ _ Hb)).
  pose proof (bp_regs _ _ _ _ Hb e) as Hre1. rewrite decide_True in Hre1 by done.
  destruct (Z.eqb_spec (regs s e) 1) as [H1|H1].
  - unfold unregister_entry. rewrite Hstk1, bool_decide_true, debug_assert_true by done. cbn [mbind outcome_bind].
    edestruct (unregister_loop_ok (E:=E) dbg) as (s2 & Hs2 & Hinv2 & Hk2); [| |rewrite Hs2; exists s2; split; [done|];
      split; [exact Hinv2|]; eapply shrunk_trans; [exact (same_shrunk _ _ (bumped_same _ _ _ _ Hb))|exact Hk2]];
      [|cbn; pose proof (live_bounded s1 Hst1); lia].
    split; [exact Hst1| |exact Hh1]. split; [exact Hcnt1|exact Hf1|apply NoDup_singleton|].
    intros x. cbn [drop_stack hash_consing_map]. rewrite list_elem_of_singleton.
    match goal with |- _ <-> _ /\ ?r = 0 => change r with (regs s1 x) end.
    rewrite (bp_set _ _ _ _ Hb). split; [intros ->; split; [done|lia]|]. intros [Hx Hx0].
    destruct (decide (x = e)) as [->|Hne]; [done|]. pose proof (Hpos x Hx Hne). lia.
  - exists s1. split; [done|]. split; [|exact (same_shrunk _ _ (bumped_same _ _ _ _ Hb))].
    split; [done| |done|done]. split; [done|done|rewrite Hstk1; apply NoDup_nil_2|].
    intros x. rewrite Hstk1, (bp_set _ _ _ _ Hb). split; [by intros ?%not_elem_of_nil|]. intros [Hx Hx0].
    destruct (decide (x = e)) as [->|Hne]; [lia|]. pose proof (Hpos x Hx Hne). lia.
Qed.

Lemma release_all_ok {E} dbg s es hs : inv s (es ++ hs) ->
  exists s', foldM (release (E:=E) dbg) es s = Ok s' /\ inv s' hs /\ shrunk s s'.
Proof.
  revert s; induction es as [|e es IH]; intros s Hinv; cbn [foldM];
    [exists s; split; [done|]; split; [done|apply shrunk_refl]|].
  destruct (release_ok (E:=E) dbg s (es ++ hs) e Hinv) as (s1 & -> & Hinv1 & Hk1).
  destruct (IH s1 Hinv1) as (s2 & -> & Hinv2 & Hk2). exists s2. split; [done|]. split; [done|by eapply shrunk_trans].
Qed.

Lemma drop_collection_ok {E} dbg s c hs : inv s (rc_rec_groups c ++ hs) ->
  exists s', drop_collection (E:=E) dbg s c = Ok s' /\ inv s' hs /\ shrunk s s'.
Proof.
  intros Hinv. unfold drop_collection. case_bool_decide as Hc; [rewrite Hc in Hinv; exists s; split; [done|]; split; [done|apply shrunk_refl]|].
  by apply release_all_ok.
Qed.

(** With no registration outstanding, nothing is left. *)
Lemma inv_empty s : inv s [] ->
  hash_consing_map s = [] /\ type_to_rec_group s = ∅ /\ slab_len (types s) = 0 /\ drop_stack s = [].
Proof.
  intros Hinv. pose proof Hinv as [Hst [Hcnt _ _ _] Hstk _].
  assert (Hempty : hash_consing_map s = []).
  { destruct (decide (hash_consing_map s = [])) as [|Hne]; [done|exfalso].
    (* the youngest live entry is referred to by none *)
    assert (exists x, x ∈ hash_consing_map s /\ forall y, y ∈ hash_consing_map s -> (y <= x)%nat) as (x & Hx & Hmax).
    { clear -Hne. induction (hash_consing_map s) as [|a l IH]; [done|]. destruct l as [|b l].
      - exists a. split; [by left|]. intros y ->%list_elem_of_singleton. lia.
      - destruct IH as (x & Hx & Hmax); [done|]. destruct (le_lt_dec a x).
        + exists x. split; [by right|]. intros y [->|?]%elem_of_cons; [done|auto].
        + exists a. split; [by left|]. intros y [->|Hy]%elem_of_cons; [done|]. apply Hmax in Hy. lia. }
    pose proof (inv_positive s [] x Hinv Hx) as Hpos. rewrite (Hcnt x Hx) in Hpos. cbn [occ sumz] in Hpos.
    assert (tot (shape (arcs s)) (hash_consing_map s) x = 0) as Ht; [|rewrite Ht in Hpos; done].
    unfold tot. transitivity (sumz (fun _ : nat => 0) (hash_consing_map s)).
    - apply sumz_ext. intros y Hy. apply cnt_zero. intros [j|j|j] Hj; [|done..]. cbn. apply bool_decide_eq_false.
      intros Hjx. destruct (proj1 (list.Forall_forall _ _) (st_edges _ _ _ _ Hst y Hy) _ Hj) as (e & Hlt & He & Hje).
      pose proof (points_live _ _ _ _ j e x Hst He Hje Hx) as Hp. cbn in Hp. rewrite bool_decide_true in Hp by done.
      symmetry in Hp. apply bool_decide_eq_true in Hp as ->. apply Hmax in Hy. lia.
    - generalize (hash_consing_map s). induction l; cbn; lia. }
  split; [done|]. split; [|split; [|done]].
  - apply map_empty. intros i. destruct (type_to_rec_group s !! i) as [e|] eqn:Hi; [|done].
    apply (st_map _ _ _ _ Hst) in Hi as [He _]. rewrite Hempty in He. by apply not_elem_of_nil in He.
  - rewrite (st_len _ _ _ _ Hst), Hempty. done.
Qed.

End Inv.
