(* ===== verification/TypeRegistryUse.v ===== *)
(** * Registering modules in the type registry

    Registration preserves the invariant of [TypeRegistryInv.v] and succeeds
    while slab and counters have room; registering the same types again shares
    the entries of the first registration; a client that uses collections and
    handles in any order never makes the registry panic, and leaves it empty
    when it has dropped them all. *)
From stdpp Require Import base list gmap option numbers.
From S2P Require Import Prelude Types TypeTrace Module ModuleTypes TypeRegistry TypeRegistryInv.
Local Open Scope Z_scope.

(** ** Keys *)
Definition key_edge (map : list Z) (start : Z) (i : CTI) : CTI :=
  match i with
  | Module_ m => if start <=? m then RecGroup (m - start) else Shared (default 0 (pm_get map m))
  | _ => i
  end.

(** The hash-consing key of a group, given the engine indices of all earlier
    types of the module. *)
Definition group_key (map : list Z) (start : Z) (tys : list WasmSubType) : WasmRecGroup :=
  map_edges (key_edge map start) (mkRecGroup tys).

Lemma mapO_fst {E A B C} (f : A -> outcome E C) (l : list A) (k : list B) :
  (length l <= length k)%nat -> mapO (fun p => f p.1) (zip l k) = mapO f l.
Proof.
  revert k; induction l as [|x l IH]; intros [|y k] Hl; cbn in *; try (done || lia).
  destruct (f x); cbn; [|done..]. rewrite IH by lia. done.
Qed.

Lemma mapO_fmap_ok {E A B} (f : A -> outcome E B) (g : A -> B) l :
  Forall (fun x => f x = Ok (g x)) l -> mapO f l = Ok (g <$> l).
Proof. intros Hl. apply mapO_ok. induction Hl; constructor; done. Qed.

Lemma rec_group_edges (l : list WasmSubType) : edges (mkRecGroup l) = l ≫= edges.
Proof. done. Qed.

Lemma entity_range_length a b : length (entity_range (a, b)) = Z.to_nat (b - a).
Proof. unfold entity_range. apply length_seqZ. Qed.

Lemma rec_group_key_ok {E} dbg map a b tys :
  0 <= a -> a <= pm_len map -> b < 2 ^ 32 -> length tys = Z.to_nat (b - a) ->
  Forall (fun ty => Forall (module_edge b) (edges ty)) tys ->
  rec_group_key (E:=E) dbg map (a, b) (zip tys (entity_range (a, b))) = Ok (group_key map a tys).
Proof.
  intros Ha Hm Hb Hl Ht. unfold rec_group_key, group_key.
  rewrite (mapO_fst (fun t => canonicalize_for_hash_consing dbg (a, b).1 (a, b).2
      (fun idx => _ ← debug_assert dbg (idx <? (a, b).1); pm_index map idx) t))
    by (rewrite entity_range_length; lia).
  rewrite (mapO_fmap_ok _ (map_edges (key_edge map a))); [done|].
  eapply list.Forall_impl; [exact Ht|]. intros ty Hty. unfold canonicalize_for_hash_consing.
  apply trace_mut_intro. eapply list.Forall_impl; [exact Hty|]. intros i (m & -> & Hmb). cbn.
  destruct (Z.leb_spec a m).
  - rewrite (proj2 (Z.ltb_lt _ _)), debug_assert_true by lia. cbn. unfold sub. rewrite ofits_intro by lia. done.
  - rewrite (proj2 (Z.ltb_lt _ _)), !debug_assert_true by lia. cbn. unfold pm_index.
    destruct (pm_get_is_Some map m) as [x Hx]; [lia|]. rewrite Hx. done.
Qed.

(** The references of a key: relative ones and indices of earlier types. *)
Lemma group_key_edges map a b tys i :
  0 <= a <= pm_len map -> Forall (fun ty => Forall (module_edge b) (edges ty)) tys ->
  i ∈ edges (group_key map a tys) ->
  match i with Shared j => j ∈ map | RecGroup _ => True | Module_ _ => False end.
Proof.
  intros Ha Ht. unfold group_key. rewrite edges_map, rec_group_edges. intros (x & -> & Hx)%list_elem_of_fmap.
  apply list_elem_of_bind in Hx as (ty & Hx & Hty).
  destruct (proj1 (list.Forall_forall _ _) (proj1 (list.Forall_forall _ _) Ht ty Hty) x Hx) as (m & -> & Hm).
  cbn. destruct (Z.leb_spec a m); [done|]. destruct (pm_get_is_Some map m) as [v Hv]; [lia|]. rewrite Hv. cbn.
  unfold pm_get in Hv. destruct (0 <=? m); [|done]. by eapply list_elem_of_lookup_2.
Qed.

Lemma group_key_length map a tys : length (rg_types (group_key map a tys)) = length tys.
Proof. unfold group_key. cbn. by rewrite length_fmap. Qed.

(** ** Slab *)
Definition runtime_edge (map : list Z) (start n : Z) (i : CTI) : CTI :=
  match i with
  | Module_ m => if m <? start then Shared (default 0 (pm_get map m)) else Shared (n + (m + start))
  | _ => i
  end.

Section Slab.
Context {S : Type} `{HSlab : Slab S WasmSubType} `{!SlabLaws S WasmSubType}.

(** What a run of allocations does: fresh distinct indices for the values. *)
Record allocated (slab : S) (idxs : list Z) (vs : list WasmSubType) (slab' : S) : Prop := {
  al_nodup : NoDup idxs;
  al_fresh : forall j, j ∈ idxs -> slab_get slab j = None;
  al_len : slab_len slab' = slab_len slab + pm_len idxs;
  al_values : Forall2 (fun j v => slab_get slab' j = Some v) idxs vs;
  al_other : forall j, j ∉ idxs -> slab_get slab' j = slab_get slab j }.

Lemma allocated_nil slab : allocated slab [] [] slab.
Proof.
  split; [apply NoDup_nil_2|by intros ? ?%not_elem_of_nil|unfold pm_len; cbn; lia|constructor|done].
Qed.

Lemma allocated_snoc slab idxs vs slab1 j v slab2 :
  allocated slab idxs vs slab1 -> slab_get slab1 j = None -> slab_len slab2 = slab_len slab1 + 1 ->
  (forall i, slab_get slab2 i = if i =? j then Some v else slab_get slab1 i) ->
  allocated slab (idxs ++ [j]) (vs ++ [v]) slab2.
Proof.
  intros [Hnd Hfr Hlen Hv Ho] Hj Hlen2 Hget.
  assert (Hjn : j ∉ idxs).
  { intros Hin. apply list_elem_of_lookup_1 in Hin as [k Hk]. destruct (Forall2_lookup_l _ _ _ _ _ Hv Hk) as (y & _ & Hy). congruence. }
  split.
  - apply list.NoDup_app. split; [done|]. split; [|apply NoDup_singleton]. intros x Hx ->%list_elem_of_singleton. done.
  - intros x [Hx| ->%list_elem_of_singleton]%elem_of_app; [by apply Hfr|]. by rewrite <- Ho.
  - rewrite Hlen2, Hlen. unfold pm_len. rewrite length_app. cbn. lia.
  - apply Forall2_app; [|constructor; [by rewrite Hget, Z.eqb_refl|constructor]].
    eapply Forall2_impl_elem; [exact Hv|]. intros x y Hx Hxy. rewrite Hget, (proj2 (Z.eqb_neq _ _)); [done|]. by intros ->.
  - intros x [Hx Hxj]%not_elem_of_app. rewrite not_elem_of_cons in Hxj. destruct Hxj as [Hxj _].
    rewrite Hget, (proj2 (Z.eqb_neq _ _)) by done. by apply Ho.
Qed.

Lemma register_types_ok {E} dbg map a b n tys ks slab0 acc vs slab :
  (length tys <= length ks)%nat -> allocated slab0 acc vs slab ->
  0 <= a <= pm_len map -> 0 <= n -> n + (a + b) < 2 ^ 32 -> 0 <= slab_len slab ->
  slab_len slab + pm_len tys <= slab_capacity ->
  Forall (fun ty => Forall (module_edge b) (edges ty)) tys ->
  exists idxs slab', foldM (register_type (E:=E) dbg map a n) (zip tys ks) (acc, slab) = Ok (acc ++ idxs, slab') /\
    length idxs = length tys /\
    allocated slab0 (acc ++ idxs) (vs ++ (map_edges (runtime_edge map a n) <$> tys)) slab'.
Proof.
  revert ks acc vs slab; induction tys as [|ty tys IH]; intros ks acc vs slab Hk Hal Ha Hn Hb Hl Hcap Ht.
  - exists [], slab. cbn. rewrite !app_nil_r. done.
  - destruct ks as [|k ks]; [cbn in Hk; lia|]. cbn [zip zip_with foldM]. apply Forall_cons_1 in Ht as [Hty Ht].
    unfold register_type at 1. cbn [fst snd]. unfold canonicalize_for_runtime_usage at 1.
    rewrite (trace_mut_intro _ (runtime_edge map a n)).
    2:{ eapply list.Forall_impl; [exact Hty|]. intros i (m & -> & Hm). cbn. unfold runtime_type_index.
        destruct (Z.ltb_spec m a).
        - destruct (pm_get_is_Some map m) as [x Hx]; [lia|]. unfold pm_index. rewrite Hx. done.
        - unfold add. rewrite !ofits_intro by lia. cbn. rewrite ofits_intro by lia. cbn. unfold from_u32, reserved_value.
          rewrite (proj2 (Z.ltb_lt _ _)), debug_assert_true by lia. done. }
    cbn [mbind outcome_bind]. unfold insert_one_type_from_rec_group.
    rewrite (proj2 (is_runtime_spec _)), debug_assert_true.
    2:{ rewrite edges_map. apply list.Forall_forall. intros i (x & -> & Hx)%list_elem_of_fmap.
        destruct (proj1 (list.Forall_forall _ _) Hty x Hx) as (m & -> & _). cbn. by destruct (m <? a). }
    cbn [mbind outcome_bind]. unfold pm_len in Hcap. cbn [length] in Hcap.
    destruct (slab_alloc_fits (E:=E) slab (map_edges (runtime_edge map a n) ty)) as [[j slab1] Hj]; [lia|].
    pose proof (slab_alloc_ok _ _ _ _ Hj) as (Hjr & Hjn & Hjl & Hjg). pose proof slab_capacity_range as Hcr.
    rewrite Hj. cbn [mbind outcome_bind fst snd]. unfold from_u32, reserved_value.
    rewrite (proj2 (Z.ltb_lt _ _)), debug_assert_true by lia. cbn [mbind outcome_bind fst snd].
    pose proof (allocated_snoc _ _ _ _ _ _ _ Hal Hjn Hjl Hjg) as Hal1.
    destruct (IH ks (acc ++ [j]) (vs ++ [map_edges (runtime_edge map a n) ty]) slab1) as (idxs & slab' & Hf & Hlen & Hal');
      [cbn in Hk; lia|done|done|done|done|lia|unfold pm_len; lia|done|].
    exists (j :: idxs), slab'. rewrite <- !app_assoc in *. cbn [app] in *. rewrite fmap_cons. cbn [length].
    split; [exact Hf|]. split; [lia|exact Hal'].
Qed.
End Slab.

(** ** One group *)
Section Group.
Context {S : Type} `{HSlab : Slab S WasmSubType} `{!SlabLaws S WasmSubType}.
Abbreviation Reg := (TypeRegistryInner S).

Lemma find_entry_Some (s : Reg) k e : find_entry s k = Some e ->
  e ∈ hash_consing_map s /\ exists i, arcs s !! e = Some i /\ hash_consing_key i = k.
Proof.
  unfold find_entry. intros Hh. apply head_Some_elem_of in Hh. apply list_elem_of_filter in Hh as [Hk He].
  split; [done|]. destruct (arcs s !! e) as [i|]; [|done]. exists i. split; [done|]. cbn in Hk. congruence.
Qed.

Lemma find_entry_None (s : Reg) k e i : find_entry s k = None ->
  e ∈ hash_consing_map s -> arcs s !! e = Some i -> hash_consing_key i <> k.
Proof.
  unfold find_entry. intros Hh He Hi Hk. apply head_None in Hh.
  assert (e ∈ filter (fun e => hash_consing_key <$> arcs s !! e = Some k) (hash_consing_map s)) as Hin
    by (apply list_elem_of_filter; split; [rewrite Hi; cbn; congruence|done]).
  rewrite Hh in Hin. by apply not_elem_of_nil in Hin.
Qed.

(** A live entry is found under its key. *)
Lemma find_entry_live (s : Reg) k l e : reg_static s -> e ∈ hash_consing_map s ->
  shape (arcs s) !! e = Some (k, l) -> find_entry s k = Some e.
Proof.
  intros Hst He Hk. assert (exists i, arcs s !! e = Some i /\ hash_consing_key i = k) as (i & Hi & Hik).
  { unfold shape in Hk. rewrite list_lookup_fmap in Hk. destruct (arcs s !! e) as [i|]; [|done].
    exists i. split; [done|]. unfold shape_of in Hk. cbn in Hk. congruence. }
  destruct (find_entry s k) as [e'|] eqn:Hf.
  - apply find_entry_Some in Hf as (He' & i' & Hi' & Hik'). f_equal.
    apply (st_keys _ _ _ _ Hst e' e k (shared_type_indices i') l); [done..| |done].
    rewrite (shape_lookup _ _ _ Hi'). congruence.
  - by destruct (find_entry_None s k e i Hf He Hi).
Qed.

Lemma find_entry_same (s s' : Reg) k : same_static s s' -> find_entry s' k = find_entry s k.
Proof.
  intros (Hsh & Hset & _ & _). unfold find_entry. rewrite Hset. f_equal. apply list_filter_iff. intros e.
  assert (hash_consing_key <$> arcs s' !! e = hash_consing_key <$> arcs s !! e) as ->; [|done].
  apply (f_equal (fun sh => fst <$> sh !! e)) in Hsh. unfold shape in Hsh. rewrite !list_lookup_fmap in Hsh.
  by destruct (arcs s' !! e), (arcs s !! e).
Qed.

(** Room for [n] more registrations of any live entry. *)
Definition headroom (s : Reg) (n : Z) : Prop :=
  n + 1 < 2 ^ 64 /\ forall e, e ∈ hash_consing_map s -> regs s e + n < 2 ^ 64.

Lemma retain_edges_ok {E} (s : Reg) hs pend l :
  reg_static s -> drop_stack s = [] -> counted s (hash_consing_map s) hs pend -> headroom s (pm_len l) ->
  (forall j, Shared j ∈ l -> is_Some (type_to_rec_group s !! j)) ->
  exists s', foldM (retain_edge (E:=E)) l s = Ok s' /\ same_static s s' /\ drop_stack s' = [] /\
    counted s' (hash_consing_map s) hs (rev l ++ pend) /\
    forall e, e ∈ hash_consing_map s -> regs s' e <= regs s e + pm_len l.
Proof.
  revert s pend; induction l as [|i l IH]; intros s pend Hst Hstk Hc [Hn Hroom] Hl.
  - exists s. split; [done|]. split; [done|]. split; [done|]. split; [done|]. intros. unfold pm_len; cbn. lia.
  - unfold pm_len in Hroom, Hn. cbn [length] in Hroom, Hn. cbn [foldM].
    assert (exists s1, retain_edge (E:=E) s i = Ok s1 /\ same_static s s1 /\ drop_stack s1 = [] /\
      counted s1 (hash_consing_map s) hs (i :: pend) /\
      forall e, e ∈ hash_consing_map s -> regs s1 e <= regs s e + 1) as (s1 & -> & Hsame & Hstk1 & Hc1 & Hr1).
    { destruct i as [j|j|j]; cbn [retain_edge];
        [|exists s; split; [done|]; split; [done|]; split; [done|]; split; [|intros; lia];
          destruct Hc as [Hcnt ? ? ?]; split; [exact Hcnt|done..]..].
      destruct (Hl j ltac:(by left)) as [e He]. rewrite He. cbn [unwrap mbind outcome_bind].
      apply (st_map _ _ _ _ Hst) in He as [He Hje]. pose proof (Hroom e He) as Hre.
      destruct Hc as [Hcnt Hf Hnd Hz]. assert (Hpos : forall x, x ∈ hash_consing_map s -> 0 < regs s x).
      { intros x Hx. pose proof (Hcnt x Hx). pose proof (occ_nonneg x hs). pose proof (cnt_nonneg (shape (arcs s)) x pend).
        pose proof (tot_nonneg (shape (arcs s)) (hash_consing_map s) x). assert (regs s x <> 0); [|lia].
        intros Hx0. assert (x ∈ drop_stack s) as Hin by (by apply Hz). rewrite Hstk in Hin. by apply not_elem_of_nil in Hin. }
      destruct (incr_ok (E:=E) s e Hst He) as (s1 & -> & Hb); [pose proof (Hpos e He); lia|].
      exists s1. split; [done|]. split; [by eapply bumped_same|]. split; [by rewrite (bp_stack _ _ _ _ Hb)|]. split.
      - split.
        + intros x Hx. rewrite (bp_shape _ _ _ _ Hb), (bp_regs _ _ _ _ Hb), cnt_cons, (points_live _ _ _ _ _ _ _ Hst He Hje Hx).
          pose proof (Hcnt x Hx). destruct (decide (x = e)) as [->|Hne];
            [rewrite bool_decide_true by done|rewrite bool_decide_false by done]; cbn [b2z]; lia.
        + intros x Hx. rewrite (bp_regs _ _ _ _ Hb). pose proof (Hroom x Hx). destruct (decide (x = e)); [subst|]; lia.
        + by rewrite (bp_stack _ _ _ _ Hb).
        + intros x. rewrite (bp_stack _ _ _ _ Hb), Hstk, (bp_regs _ _ _ _ Hb). split; [by intros ?%not_elem_of_nil|].
          intros [Hx Hx0]. pose proof (Hpos x Hx). pose proof (Hpos e He). destruct (decide (x = e)); lia.
      - intros x Hx. rewrite (bp_regs _ _ _ _ Hb). destruct (decide (x = e)); [subst|]; lia. }
    pose proof Hsame as (Hsh & Hset & Hmap & Hty).
    destruct (IH s1 (i :: pend)) as (s2 & -> & Hsame2 & Hstk2 & Hc2 & Hr2).
    + by eapply same_static_static.
    + done.
    + by rewrite Hset.
    + split; [unfold pm_len; lia|]. rewrite Hset. intros e He. pose proof (Hr1 e He). pose proof (Hroom e He). unfold pm_len. lia.
    + intros j Hj. rewrite Hmap. apply Hl. by right.
    + exists s2. split; [done|]. split; [by eapply same_static_trans|]. split; [done|]. rewrite Hset in Hc2, Hr2. split.
      * cbn [rev]. by rewrite <- app_assoc.
      * intros e He. pose proof (Hr1 e He). pose proof (Hr2 e He). unfold pm_len in *. cbn [length]. lia.
Qed.

(** *** Adding an entry *)
Lemma sidx_old sh p e : (e < length sh)%nat -> sidx (sh ++ [p]) e = sidx sh e.
Proof. intros. unfold sidx. by rewrite lookup_app_l. Qed.
Lemma skey_old sh p e : (e < length sh)%nat -> skey (sh ++ [p]) e = skey sh e.
Proof. intros. unfold skey. by rewrite lookup_app_l. Qed.
Lemma lookup_snoc_new {A} (l : list A) x : (l ++ [x]) !! length l = Some x.
Proof. rewrite lookup_app_r by lia. by rewrite Nat.sub_diag. Qed.
Lemma sidx_new sh k l : sidx (sh ++ [(k, l)]) (length sh) = l.
Proof. unfold sidx. by rewrite lookup_snoc_new. Qed.
Lemma skey_new sh k l : skey (sh ++ [(k, l)]) (length sh) = edges k.
Proof. unfold skey. by rewrite lookup_snoc_new. Qed.

Lemma cnt_old sh p e l : (e < length sh)%nat -> cnt (sh ++ [p]) e l = cnt sh e l.
Proof. intros He. apply sumz_ext. intros [j|j|j] _; cbn; [by rewrite sidx_old|done..]. Qed.

Lemma static_add sh live t2r slab key idxs t2r' slab' vs :
  static sh live t2r slab -> allocated slab idxs vs slab' ->
  length idxs = length (rg_types key) ->
  (forall e k l, e ∈ live -> sh !! e = Some (k, l) -> k <> key) ->
  (forall i, i ∈ edges key -> match i with Shared j => is_Some (t2r !! j) | RecGroup _ => True | Module_ _ => False end) ->
  (forall j, t2r' !! j = if decide (j ∈ idxs) then Some (length sh) else t2r !! j) ->
  static (sh ++ [(key, idxs)]) (live ++ [length sh]) t2r' slab'.
Proof.
  intros [Hnd Hlv Hk Hm Hs Hl Hi Hw He] [Hal1 Hal2 Hal3 Hal4 Hal5] Hlen Hnew Hed Ht2r.
  assert (Hfresh : forall j, j ∈ idxs -> t2r !! j = None).
  { intros j Hj. apply eq_None_not_Some. rewrite <- Hs, (Hal2 j Hj). by intros [? ?]. }
  assert (Hnn : length sh ∉ live) by (intros Hn%Hlv; lia).
  assert (Hold : forall e, e ∈ live -> sidx (sh ++ [(key, idxs)]) e = sidx sh e) by (intros; apply sidx_old; auto).
  split.
  - apply list.NoDup_app. split; [done|]. split; [|apply NoDup_singleton]. intros x Hx ->%list_elem_of_singleton. done.
  - intros e [He'%Hlv| ->%list_elem_of_singleton]%elem_of_app; rewrite length_app; cbn; lia.
  - intros e e' k l l' [H1|H1%list_elem_of_singleton]%elem_of_app [H2|H2%list_elem_of_singleton]%elem_of_app.
    + rewrite !lookup_app_l by auto. eauto.
    + rewrite lookup_app_l, H2, lookup_snoc_new by auto. intros H3 [= <- <-]. by destruct (Hnew e key l).
    + rewrite H1, lookup_snoc_new, lookup_app_l by auto. intros [= <- <-] H3. by destruct (Hnew e' key l').
    + congruence.
  - intros i e. rewrite Ht2r, elem_of_app, list_elem_of_singleton. case_decide as Hd.
    + split; [intros [= <-]; split; [by right|by rewrite sidx_new]|]. intros [[H1| ->] H2]; [|done].
      rewrite Hold in H2 by done. assert (t2r !! i = Some e) as H3 by (by apply Hm). rewrite Hfresh in H3; done.
    + rewrite Hm. split; [intros [H1 H2]; split; [by left|by rewrite Hold]|]. intros [[H1| ->] H2]; [by rewrite Hold in H2|].
      by rewrite sidx_new in H2.
  - intros i. rewrite Ht2r. case_decide as Hd; [|by rewrite Hal5].
    apply list_elem_of_lookup_1 in Hd as [k Hk']. destruct (Forall2_lookup_l _ _ _ _ _ Hal4 Hk') as (v & _ & ->). done.
  - rewrite Hal3, Hl, sumz_app. cbn. rewrite sidx_new.
    assert (sumz (fun e => pm_len (sidx (sh ++ [(key, idxs)]) e)) live = sumz (fun e => pm_len (sidx sh e)) live)
      by (apply sumz_ext; intros; by rewrite Hold). lia.
  - intros e [He'| ->%list_elem_of_singleton]%elem_of_app; [rewrite Hold by done; auto|by rewrite sidx_new].
  - intros e k l [He'| ->%list_elem_of_singleton]%elem_of_app; [rewrite lookup_app_l by auto; eauto|].
    rewrite lookup_snoc_new. by intros [= <- <-].
  - intros e [He'| ->%list_elem_of_singleton]%elem_of_app; [rewrite skey_old by auto|rewrite skey_new].
    + eapply list.Forall_impl; [exact (He e He')|]. intros [j|j|j]; cbn; [|done..]. intros (x & H1 & H2 & H3).
      exists x. split; [done|]. split; [apply elem_of_app; by left|by rewrite Hold].
    + apply list.Forall_forall. intros [j|j|j] Hj; cbn; [|exact (Hed _ Hj)..].
      destruct (Hed _ Hj) as [x Hx]. apply Hm in Hx as [Hx1 Hx2]. exists x.
      split; [auto|]. split; [apply elem_of_app; by left|by rewrite Hold].
Qed.

Lemma cnt_perm sh e l l' : l ≡ₚ l' -> cnt sh e l = cnt sh e l'.
Proof. apply sumz_perm. Qed.

(** The state right after the new entry is stored. *)
Definition add_entry (s : Reg) (key : WasmRecGroup) (idxs : list Z) (t2r : gmap Z nat) (slab : S) : Reg :=
  mkRegistry (arcs s ++ [mkEntryInner key idxs 1]) (hash_consing_map s ++ [length (arcs s)]) t2r slab (drop_stack s).

Lemma add_entry_shape s key idxs t2r slab : shape (arcs (add_entry s key idxs t2r slab)) = shape (arcs s) ++ [(key, idxs)].
Proof. cbn. unfold shape. by rewrite fmap_app. Qed.

Lemma shape_length (s : Reg) : length (shape (arcs s)) = length (arcs s).
Proof. unfold shape. apply length_fmap. Qed.

Lemma regs_add_old s key idxs t2r slab e : (e < length (arcs s))%nat -> regs (add_entry s key idxs t2r slab) e = regs s e.
Proof. intros. unfold regs. cbn. by rewrite lookup_app_l. Qed.

Lemma regs_add_new s key idxs t2r slab : regs (add_entry s key idxs t2r slab) (length (arcs s)) = 1.
Proof. unfold regs. cbn. by rewrite lookup_snoc_new. Qed.

Lemma counted_add (s : Reg) hs key idxs t2r slab :
  reg_static s -> drop_stack s = [] -> counted s (hash_consing_map s) hs (rev (edges key) ++ []) ->
  (forall e, e ∈ hs -> e ∈ hash_consing_map s) ->
  (forall e, e ∈ hash_consing_map s -> 0 < regs s e) ->
  (forall j, Shared j ∈ edges key -> is_Some (type_to_rec_group s !! j)) ->
  (forall j, j ∈ idxs -> type_to_rec_group s !! j = None) ->
  counted (add_entry s key idxs t2r slab) (hash_consing_map s ++ [length (arcs s)]) (length (arcs s) :: hs) [].
Proof.
  intros Hst Hstk [Hc Hf _ _] Hh Hpos Hed Hfresh.
  assert (Hlt : forall e, e ∈ hash_consing_map s -> (e < length (arcs s))%nat)
    by (intros e He; rewrite <- shape_length; by apply (st_live _ _ _ _ Hst)).
  assert (Hstale : forall y, y ∈ hash_consing_map s ->
      cnt (shape (arcs s) ++ [(key, idxs)]) (length (arcs s)) (skey (shape (arcs s)) y) = 0).
  { intros y Hy. apply cnt_zero. intros [j|j|j] Hj; [|done..]. cbn. apply bool_decide_eq_false.
    rewrite <- shape_length, sidx_new. intros Hin%Hfresh.
    destruct (proj1 (list.Forall_forall _ _) (st_edges _ _ _ _ Hst y Hy) _ Hj) as (x & _ & Hx & Hjx).
    assert (type_to_rec_group s !! j = Some x) by (by apply (st_map _ _ _ _ Hst)). congruence. }
  split.
  - intros e He. rewrite add_entry_shape. change (cnt _ e []) with 0. unfold tot. rewrite sumz_app. cbn [sumz].
    rewrite <- shape_length, skey_new, shape_length. apply elem_of_app in He as [He|He%list_elem_of_singleton].
    + rewrite regs_add_old by auto. rewrite (Hc e He), app_nil_r, occ_cons.
      rewrite (cnt_perm _ _ (rev (edges key)) (edges key)) by (symmetry; apply Permutation_rev).
      rewrite bool_decide_false by (pose proof (Hlt e He); lia). rewrite cnt_old by (rewrite shape_length; auto).
      assert (sumz (fun y => cnt (shape (arcs s) ++ [(key, idxs)]) e (skey (shape (arcs s) ++ [(key, idxs)]) y)) (hash_consing_map s)
        = tot (shape (arcs s)) (hash_consing_map s) e) as ->.
      { apply sumz_ext. intros y Hy. rewrite skey_old, cnt_old by (rewrite shape_length; auto). done. }
      cbn [b2z]. lia.
    + subst e. rewrite regs_add_new, occ_cons, bool_decide_true, occ_none by (done || (intros Hin%Hh%Hlt; lia)). cbn [b2z].
      assert (sumz (fun y => cnt (shape (arcs s) ++ [(key, idxs)]) (length (arcs s)) (skey (shape (arcs s) ++ [(key, idxs)]) y)) (hash_consing_map s)
        = sumz (fun _ : nat => 0) (hash_consing_map s)) as ->.
      { apply sumz_ext. intros y Hy. rewrite skey_old by (rewrite shape_length; auto). by apply Hstale. }
      rewrite (cnt_zero _ _ (edges key)).
      * assert (sumz (fun _ : nat => 0) (hash_consing_map s) = 0) as ->; [|lia].
        generalize (hash_consing_map s). induction l; cbn; lia.
      * intros [j|j|j] Hj; [|done..]. cbn. apply bool_decide_eq_false. rewrite <- shape_length, sidx_new.
        intros Hin%Hfresh. destruct (Hed j Hj) as [x Hx]. congruence.
  - intros e [He|He%list_elem_of_singleton]%elem_of_app; [rewrite regs_add_old by auto; auto|subst e; rewrite regs_add_new; lia].
  - cbn. rewrite Hstk. apply NoDup_nil_2.
  - intros e. cbn [add_entry drop_stack]. rewrite Hstk. split; [by intros ?%not_elem_of_nil|]. intros [He He0].
    apply elem_of_app in He as [He|He%list_elem_of_singleton]; [rewrite regs_add_old in He0 by auto; pose proof (Hpos e He); lia|].
    subst e. rewrite regs_add_new in He0. lia.
Qed.

Lemma map_types_ok {E} dbg e l (s : Reg) : NoDup l -> (forall j, j ∈ l -> type_to_rec_group s !! j = None) ->
  exists t2r, foldM (map_type (E:=E) dbg e) l s = Ok (mkRegistry (arcs s) (hash_consing_map s) t2r (types s) (drop_stack s)) /\
    forall j, t2r !! j = if decide (j ∈ l) then Some e else type_to_rec_group s !! j.
Proof.
  revert s; induction l as [|j l IH]; intros s Hnd Hl.
  - exists (type_to_rec_group s). split; [by destruct s|done].
  - apply list.NoDup_cons in Hnd as [Hj Hnd]. cbn [foldM]. unfold map_type at 1.
    rewrite (bool_decide_true (type_to_rec_group s !! j = None)), debug_assert_true by (apply Hl; by left). cbn [mbind outcome_bind].
    destruct (IH (mkRegistry (arcs s) (hash_consing_map s) (<[j := e]> (type_to_rec_group s)) (types s) (drop_stack s)))
      as (t2r & Hf & Ht); [done| |].
    + intros j' Hj'. cbn. rewrite lookup_insert_ne by (by intros ->). apply Hl. by right.
    + exists t2r. split; [exact Hf|]. intros j'. rewrite Ht. cbn. destruct (decide (j' = j)) as [->|Hne].
      * rewrite decide_False, decide_True, lookup_insert_eq by (done || by left). done.
      * by rewrite (decide_elem_cons_ne _ j), lookup_insert_ne.
Qed.

(** What registering a group does. *)
Record group_registered (s : Reg) (hs : list nat) (key : WasmRecGroup) (e : nat) (s' : Reg) : Prop := {
  gr_inv : inv s' (e :: hs);
  gr_entry : exists l, shape (arcs s') !! e = Some (key, l) /\ length l = length (rg_types key);
  gr_prefix : shape (arcs s) `prefix_of` shape (arcs s');
  gr_live : forall x, x ∈ hash_consing_map s -> x ∈ hash_consing_map s';
  gr_map : forall j x, type_to_rec_group s !! j = Some x -> type_to_rec_group s' !! j = Some x;
  gr_values : forall j, is_Some (type_to_rec_group s !! j) -> slab_get (types s') j = slab_get (types s) j;
  gr_len : slab_len (types s) <= slab_len (types s') <= slab_len (types s) + pm_len (rg_types key);
  gr_room : forall n, 0 <= n -> headroom s (pm_len (edges key) + 1 + n) -> headroom s' n }.

(** The group is known: its count goes up. *)
Lemma register_known {E} (s : Reg) hs key l e : inv s hs -> e ∈ hash_consing_map s ->
  shape (arcs s) !! e = Some (key, l) -> headroom s 1 ->
  exists s', incr_ref_count (E:=E) s e = Ok s' /\ same_static s s' /\ group_registered s hs key e s'.
Proof.
  intros Hinv He Hk [Hn Hroom]. pose proof Hinv as [Hst [Hc Hf Hnd Hz] Hstk Hh].
  pose proof (inv_positive s hs e Hinv He) as Hpos.
  destruct (incr_ok (E:=E) s e Hst He) as (s1 & -> & Hb); [pose proof (Hroom e He); lia|].
  exists s1. split; [done|]. pose proof (bumped_same _ _ _ _ Hb) as Hsame. split; [done|].
  pose proof Hsame as (Hsh & Hset & Hmap & Hty). split.
  - split; [by eapply bumped_static| |by rewrite (bp_stack _ _ _ _ Hb)|].
    + split; rewrite ?Hset, ?Hsh, ?(bp_stack _ _ _ _ Hb), ?Hstk.
      * intros x Hx. rewrite (bp_regs _ _ _ _ Hb), (Hc e He), occ_cons. pose proof (Hc x Hx).
        destruct (decide (x = e)) as [->|Hne]; [rewrite bool_decide_true by done|rewrite bool_decide_false by congruence];
          cbn [b2z]; pose proof (Hc e He); lia.
      * intros x Hx. rewrite (bp_regs _ _ _ _ Hb). pose proof (Hroom x Hx). destruct (decide (x = e)); [subst|]; lia.
      * apply NoDup_nil_2.
      * intros x. rewrite (bp_regs _ _ _ _ Hb). split; [by intros ?%not_elem_of_nil|]. intros [Hx Hx0].
        pose proof (inv_positive s hs x Hinv Hx). destruct (decide (x = e)); [subst|]; lia.
    + intros x [->|Hx]%elem_of_cons; rewrite Hset; auto.
  - exists l. rewrite Hsh. split; [done|]. by apply (st_width _ _ _ _ Hst e).
  - by rewrite Hsh.
  - by rewrite Hset.
  - by rewrite Hmap.
  - by rewrite Hty.
  - rewrite Hty. unfold pm_len. lia.
  - intros n Hn0 [Hn1 Hr]. split; [unfold pm_len in Hn1; lia|]. rewrite Hset. intros x Hx. rewrite (bp_regs _ _ _ _ Hb).
    pose proof (Hr x Hx) as Hrx. pose proof (Hr e He) as Hre. unfold pm_len in Hrx, Hre. destruct (decide (x = e)); lia.
Qed.

(** The group is new: entry, types and reverse map are added. *)
Lemma register_new {E} dbg (s : Reg) hs key map a b n tys ks vs :
  inv s hs -> find_entry s key = None -> headroom s (pm_len (edges key) + 1) ->
  key = group_key map a tys -> vs = (map_edges (runtime_edge map a n) <$> tys) ->
  0 <= a <= pm_len map -> n = slab_len (types s) -> n + (a + b) < 2 ^ 32 -> n + pm_len tys <= slab_capacity ->
  (length tys <= length ks)%nat ->
  Forall (fun j => is_Some (type_to_rec_group s !! j)) map ->
  Forall (fun ty => Forall (module_edge b) (edges ty)) tys ->
  exists s1 idxs slab s',
    trace (retain_edge (E:=E)) key s = Ok s1 /\ same_static s s1 /\
    foldM (register_type (E:=E) dbg map a n) (zip tys ks) ([], types s1) = Ok (idxs, slab) /\
    allocated (types s) idxs vs slab /\
    foldM (map_type (E:=E) dbg (length (arcs s1))) idxs (add_entry s1 key idxs (type_to_rec_group s1) slab) = Ok s' /\
    types s' = slab /\
    shape (arcs s') = shape (arcs s) ++ [(key, idxs)] /\
    group_registered s hs key (length (arcs s1)) s'.
Proof.
  intros Hinv Hfind [Hn1 Hroom] Hkey Hvs Ha Hn Hb Hcap Hks Hmap Ht. pose proof Hinv as [Hst Hc Hstk Hh].
  assert (Hed : forall i, i ∈ edges key ->
    match i with Shared j => is_Some (type_to_rec_group s !! j) | RecGroup _ => True | Module_ _ => False end).
  { intros i Hi. rewrite Hkey in Hi. apply (group_key_edges map a b tys i Ha Ht) in Hi.
    destruct i; [|done..]. by apply (proj1 (list.Forall_forall _ _) Hmap). }
  assert (Hlen0 : 0 <= n) by (rewrite Hn, (st_len _ _ _ _ Hst); apply sumz_nonneg; intros; unfold pm_len; lia).
  destruct (retain_edges_ok (E:=E) s hs [] (edges key) Hst Hstk Hc) as (s1 & Hs1 & Hsame & Hstk1 & Hc1 & Hr1).
  { split; [unfold pm_len in *; lia|]. intros e He. pose proof (Hroom e He). lia. }
  { intros j Hj. exact (Hed _ Hj). }
  pose proof Hsame as (Hsh & Hset & Ht2r & Hty).
  destruct (register_types_ok (E:=E) dbg map a b n tys ks (types s) [] [] (types s)) as (idxs & slab & Hf & Hlen & Hal);
    [done|apply allocated_nil|done|done|done|lia|lia|done|].
  cbn [app] in Hf, Hal. rewrite <- Hvs in Hal.
  assert (Hfresh : forall j, j ∈ idxs -> type_to_rec_group s !! j = None).
  { intros j Hj. apply eq_None_not_Some. rewrite <- (st_slab _ _ _ _ Hst), (al_fresh _ _ _ _ Hal j Hj). by intros [? ?]. }
  destruct (map_types_ok (E:=E) dbg (length (arcs s1)) idxs (add_entry s1 key idxs (type_to_rec_group s1) slab))
    as (t2r & Hmt & Hlook); [apply (al_nodup _ _ _ _ Hal)|cbn; by rewrite Ht2r|].
  cbn [add_entry arcs hash_consing_map types drop_stack type_to_rec_group] in Hmt, Hlook.
  exists s1, idxs, slab, (add_entry s1 key idxs t2r slab).
  split; [by rewrite trace_law|]. split; [done|]. split; [by rewrite Hty|]. split; [done|]. split; [exact Hmt|].
  split; [done|]. split; [by rewrite add_entry_shape, Hsh|].
  assert (Hkl : length idxs = length (rg_types key)) by (rewrite Hlen, Hkey; symmetry; apply group_key_length).
  assert (Hpos1 : forall e, e ∈ hash_consing_map s1 -> 0 < regs s1 e).
  { intros e He. rewrite Hset in He. destruct Hc1 as [Hcc _ _ Hz]. pose proof (Hcc e He).
    pose proof (occ_nonneg e hs). pose proof (tot_nonneg (shape (arcs s1)) (hash_consing_map s) e).
    pose proof (cnt_nonneg (shape (arcs s1)) e (rev (edges key) ++ [])). assert (regs s1 e <> 0); [|lia]. intros He0.
    assert (e ∈ drop_stack s1) as Hin by (by apply Hz). rewrite Hstk1 in Hin. by apply not_elem_of_nil in Hin. }
  assert (Hlt1 : forall e, e ∈ hash_consing_map s -> (e < length (arcs s1))%nat)
    by (intros e He; rewrite <- shape_length, Hsh; by apply (st_live _ _ _ _ Hst)).
  split.
  - split.
    + unfold reg_static. rewrite add_entry_shape. cbn [add_entry hash_consing_map type_to_rec_group types].
      rewrite <- (shape_length s1), Hsh, Hset. eapply static_add; [exact Hst|exact Hal|done| |exact Hed|].
      * intros e k l He Hk Hkk. subst k. rewrite (find_entry_live s key l e Hst He Hk) in Hfind. done.
      * intros j. by rewrite Hlook, Ht2r, <- shape_length, Hsh.
    + cbn [add_entry hash_consing_map]. apply counted_add; [by eapply same_static_static|done|by rewrite Hset|by rewrite Hset|done| |].
      * intros j Hj. rewrite Ht2r. exact (Hed _ Hj).
      * by rewrite Ht2r.
    + done.
    + intros e [->|He]%elem_of_cons; cbn; apply elem_of_app; [right; by apply list_elem_of_singleton|left; rewrite Hset; auto].
  - exists idxs. rewrite add_entry_shape, <- (shape_length s1), lookup_snoc_new. done.
  - rewrite add_entry_shape, Hsh. by apply prefix_app_r.
  - intros x Hx. cbn. apply elem_of_app. left. by rewrite Hset.
  - intros j x Hj. cbn. rewrite Hlook, Ht2r, decide_False; [done|]. intros Hin%Hfresh. congruence.
  - intros j [x Hx]. cbn. apply (al_other _ _ _ _ Hal). intros Hin%Hfresh. congruence.
  - cbn. rewrite (al_len _ _ _ _ Hal). unfold pm_len. lia.
  - intros m Hm [Hm1 Hr]. split; [unfold pm_len in Hm1; lia|]. intros x Hx. cbn in Hx.
    apply elem_of_app in Hx as [Hx|Hx%list_elem_of_singleton].
    + rewrite Hset in Hx. rewrite regs_add_old by auto. pose proof (Hr1 x Hx). pose proof (Hr x Hx). lia.
    + subst x. rewrite regs_add_new. unfold pm_len in Hm1. lia.
Qed.

Lemma register_rec_group_ok {E} dbg (s : Reg) hs map a b tys :
  inv s hs -> 0 <= a <= b -> a <= pm_len map -> b < 2 ^ 32 -> length tys = Z.to_nat (b - a) ->
  Forall (fun j => is_Some (type_to_rec_group s !! j)) map ->
  Forall (fun ty => Forall (module_edge b) (edges ty)) tys ->
  slab_len (types s) + (a + b) < 2 ^ 32 -> slab_len (types s) + pm_len tys <= slab_capacity ->
  headroom s (pm_len (edges (group_key map a tys)) + 1) ->
  exists e s', register_rec_group (E:=E) dbg s map (a, b) tys = Ok (e, s') /\
    group_registered s hs (group_key map a tys) e s'.
Proof.
  intros Hinv Ha Hm Hb Hlen Hmap Ht Hidx Hcap Hroom. unfold register_rec_group.
  replace (pm_len (entity_range (a, b)) =? pm_len tys) with true
    by (symmetry; apply Z.eqb_eq; unfold pm_len; rewrite entity_range_length; lia).
  rewrite debug_assert_true. cbn [mbind outcome_bind]. rewrite rec_group_key_ok by (done || lia). cbn [mbind outcome_bind].
  destruct (find_entry s (group_key map a tys)) as [e|] eqn:Hf.
  - apply find_entry_Some in Hf as (He & i & Hi & Hik). pose proof (shape_lookup _ _ _ Hi) as Hsh. rewrite Hik in Hsh.
    destruct (register_known (E:=E) s hs _ _ e Hinv He Hsh) as (s' & -> & _ & Hg).
    { destruct Hroom as [Hr1 Hr2]. split; [lia|]. intros x Hx. pose proof (Hr2 x Hx). unfold pm_len in *. lia. }
    exists e, s'. done.
  - pose proof (inv_static _ _ Hinv) as Hst.
    assert (Hlen0 : 0 <= slab_len (types s)) by (rewrite (st_len _ _ _ _ Hst); apply sumz_nonneg; intros; unfold pm_len; lia).
    destruct (register_new (E:=E) dbg s hs _ map a b (slab_len (types s)) tys (entity_range (a, b)) _ Hinv Hf Hroom eq_refl eq_refl)
      as (s1 & idxs & slab & s' & -> & Hsame & Hreg & _ & Hmt & _ & _ & Hg); [lia|done|done|done|rewrite entity_range_length; lia|done..|].
    cbn [mbind outcome_bind]. pose proof Hsame as (_ & _ & _ & Hty). rewrite Hty, try_from_intro by lia. cbn [unwrap mbind outcome_bind fst snd].
    rewrite Hty in Hreg. rewrite Hreg. cbn [mbind outcome_bind fst snd].
    rewrite (find_entry_same s s1), (bool_decide_true (find_entry s _ = None)), debug_assert_true by done.
    cbn [mbind outcome_bind]. unfold add_entry in Hmt. rewrite Hmt. cbn [mbind outcome_bind]. eauto.
Qed.

End Group.

(** ** Modules *)

(** The part of a list between two indices. *)
Definition slice {A} (l : list A) (r : Z * Z) : list A :=
  take (Z.to_nat (r.2 - r.1)) (drop (Z.to_nat r.1) l).

Lemma slice_length {A} (l : list A) a b : 0 <= a <= b -> b <= pm_len l -> length (slice l (a, b)) = Z.to_nat (b - a).
Proof. intros Ha Hb. unfold slice, pm_len in *. cbn. rewrite length_take, length_drop. lia. Qed.

Lemma slice_lookup {A} (l : list A) a b k : 0 <= a -> (k < Z.to_nat (b - a))%nat -> slice l (a, b) !! k = l !! (Z.to_nat a + k)%nat.
Proof. intros Ha Hk. unfold slice. cbn. rewrite lookup_take_lt by lia. by rewrite lookup_drop. Qed.

Lemma slice_app {A} (l k : list A) a b : 0 <= a <= b -> b <= pm_len l -> slice (l ++ k) (a, b) = slice l (a, b).
Proof.
  intros Ha Hb. unfold slice, pm_len in *. cbn. rewrite drop_app_le by lia. rewrite take_app_le; [done|].
  rewrite length_drop. lia.
Qed.

Lemma slice_end {A} (l k : list A) a b : a = pm_len l -> b = a + pm_len k -> slice (l ++ k) (a, b) = k.
Proof.
  intros -> ->. unfold slice, pm_len. cbn. rewrite Nat2Z.id, drop_app_length.
  apply take_ge. lia.
Qed.

Lemma types_slice {E} mt a b : 0 <= a <= b -> b <= len_wasm_types mt ->
  mapO (fun ty => unwrap (E:=E) (get_wasm_type mt ty)) (entity_range (a, b)) = Ok (slice (wasm_types mt) (a, b)).
Proof.
  intros Ha Hb. unfold len_wasm_types in Hb. apply mapO_ok, Forall2_same_length_lookup_2.
  - by rewrite entity_range_length, slice_length.
  - intros k i t Hi Ht. unfold entity_range in Hi. cbn in Hi. apply lookup_seqZ in Hi as [-> Hk].
    rewrite slice_lookup in Ht by lia. apply unwrap_ok. unfold get_wasm_type, pm_get.
    rewrite (proj2 (Z.leb_le _ _)) by lia. rewrite <- Ht. f_equal. lia.
Qed.

Lemma push_engine_types_ok {E} l map a b : a = pm_len map -> b = a + pm_len l ->
  foldM (push_engine_type (E:=E)) (zip (entity_range (a, b)) l) map = Ok (map ++ l).
Proof.
  revert map a; induction l as [|x l IH]; intros map a Ha Hb.
  - rewrite app_nil_r. by rewrite zip_with_nil_r.
  - unfold entity_range. cbn [fst snd]. unfold pm_len in Hb; cbn in Hb.
    rewrite seqZ_cons by lia. cbn [zip zip_with foldM]. unfold push_engine_type at 1. cbn [fst snd]. unfold pm_next_key.
    rewrite Ha, Z.eqb_refl. cbn [assert_ mbind outcome_bind].
    replace (Z.pred (b - pm_len map)) with (b - Z.succ (pm_len map)) by lia. unfold entity_range in IH. cbn [fst snd] in IH.
    rewrite IH; [unfold pm_push; by rewrite <- app_assoc| |].
    + rewrite pm_len_push. lia.
    + unfold pm_len in *. lia.
Qed.

(** The key does not depend on later types. *)
Lemma group_key_app map l a b tys : 0 <= a <= pm_len map ->
  Forall (fun ty => Forall (module_edge b) (edges ty)) tys -> group_key (map ++ l) a tys = group_key map a tys.
Proof.
  intros Ha Ht. unfold group_key. apply map_edges_ext. rewrite rec_group_edges. apply list.Forall_forall.
  intros i (ty & Hi & Hty)%list_elem_of_bind.
  destruct (proj1 (list.Forall_forall _ _) (proj1 (list.Forall_forall _ _) Ht ty Hty) i Hi) as (m & -> & Hm). cbn.
  destruct (Z.leb_spec a m); [done|]. do 2 f_equal. unfold pm_get. destruct (0 <=? m) eqn:H0; [|done].
  rewrite lookup_app_l; [done|]. unfold pm_len in Ha. lia.
Qed.

(** Registrations one group needs of any one entry, at most. *)
Definition group_cost (mt : ModuleTypes) (r : Z * Z) : Z :=
  pm_len (edges (mkRecGroup (slice (wasm_types mt) r))) + 1.
Definition module_cost (mt : ModuleTypes) : Z := sumz (group_cost mt) (rec_groups mt).

Lemma group_key_cost mt map a b :
  pm_len (edges (group_key map a (slice (wasm_types mt) (a, b)))) + 1 = group_cost mt (a, b).
Proof. unfold group_cost, group_key. rewrite edges_map. unfold pm_len. by rewrite length_fmap. Qed.

(** Entry [e] holds group [r] of the module, whose types have the engine
    indices [map]. *)
Definition group_at (sh : list (WasmRecGroup * list Z)) (mt : ModuleTypes) (map : list Z) (r : Z * Z) (e : nat) : Prop :=
  sh !! e = Some (group_key map r.1 (slice (wasm_types mt) r), slice map r).

(** The edges of a group stay inside the module up to the group's end. *)
Definition group_wf (mt : ModuleTypes) (r : Z * Z) : Prop :=
  Forall (fun ty => Forall (module_edge r.2) (edges ty)) (slice (wasm_types mt) r).

Lemma module_groups_wf mt : module_types_wf mt -> Forall (group_wf mt) (rec_groups mt).
Proof.
  intros [Hch Hed]. apply list.Forall_forall. intros [a b] Hr. unfold group_wf. cbn.
  pose proof (chain_elem _ _ _ _ _ Hch Hr) as [Ha Hb].
  apply list.Forall_forall. intros ty Hty. apply list_elem_of_lookup_1 in Hty as [k Hk].
  assert (k < Z.to_nat (b - a))%nat as Hkb.
  { apply lookup_lt_Some in Hk. unfold slice in Hk. cbn in Hk. rewrite length_take in Hk. lia. }
  rewrite slice_lookup in Hk by lia. apply (Hed a b (a + Z.of_nat k) ty Hr); [lia|].
  unfold get_wasm_type, pm_get. rewrite (proj2 (Z.leb_le _ _)) by lia. rewrite <- Hk. f_equal. lia.
Qed.

Section Modules.
Context {S : Type} `{HSlab : Slab S WasmSubType} `{!SlabLaws S WasmSubType}.
Abbreviation Reg := (TypeRegistryInner S).

Lemma entry_arc (s : Reg) e k l : shape (arcs s) !! e = Some (k, l) ->
  exists i, arcs s !! e = Some i /\ shared_type_indices i = l.
Proof.
  unfold shape. rewrite list_lookup_fmap. destruct (arcs s !! e) as [i|]; [|done]. intros [= _ <-]. by exists i.
Qed.

(** All indices in [map] are live. *)
Definition map_live (s : Reg) (map : list Z) : Prop := Forall (fun j => is_Some (type_to_rec_group s !! j)) map.

(** One step of the loop, from what registering the group did. *)
Lemma register_group_ok {E} dbg mt es map (s : Reg) hs a b :
  inv s (es ++ hs) -> 0 <= a <= b -> b <= len_wasm_types mt -> pm_len map = a -> map_live s map -> group_wf mt (a, b) ->
  slab_len (types s) + 3 * len_wasm_types mt - a <= slab_capacity -> headroom s (group_cost mt (a, b)) ->
  exists e l s', register_group (E:=E) dbg mt (es, map, s) (a, b) = Ok (es ++ [e], map ++ l, s') /\
    pm_len l = b - a /\ group_registered s (es ++ hs) (group_key map a (slice (wasm_types mt) (a, b))) e s' /\
    shape (arcs s') !! e = Some (group_key map a (slice (wasm_types mt) (a, b)), l) /\ map_live s' (map ++ l).
Proof.
  intros Hinv Ha Hb Hm Hlive Hwf Hcap Hroom. pose proof slab_capacity_range as Hcr.
  assert (Hlt : pm_len (slice (wasm_types mt) (a, b)) = b - a)
    by (unfold pm_len; rewrite slice_length by done; lia).
  unfold register_group. rewrite types_slice by done. cbn [mbind outcome_bind].
  assert (Hlen0 : 0 <= slab_len (types s))
    by (rewrite (st_len _ _ _ _ (inv_static _ _ Hinv)); apply sumz_nonneg; intros; unfold pm_len; lia).
  destruct (register_rec_group_ok (E:=E) dbg s (es ++ hs) map a b (slice (wasm_types mt) (a, b)) Hinv) as (e & s' & -> & Hg);
    [lia|lia|lia|by apply slice_length|done|done|lia|lia|by rewrite group_key_cost|].
  cbn [mbind outcome_bind fst snd]. destruct (gr_entry _ _ _ _ _ Hg) as (l & Hl & Hll).
  rewrite group_key_length in Hll. destruct (entry_arc s' e _ l Hl) as (i & Hi & Hil). unfold arc. rewrite Hi.
  cbn [unwrap mbind outcome_bind]. rewrite Hil, push_engine_types_ok by (unfold pm_len in *; lia). cbn [mbind outcome_bind].
  exists e, l, s'. split; [done|]. split; [unfold pm_len in *; lia|]. split; [done|]. split; [done|].
  apply list.Forall_app. split.
  - eapply list.Forall_impl; [exact Hlive|]. intros j [x Hx]. exists x. by apply (gr_map _ _ _ _ _ Hg).
  - apply list.Forall_forall. intros j Hj. exists e. apply (st_map _ _ _ _ (inv_static _ _ (gr_inv _ _ _ _ _ Hg))).
    split; [apply (inv_handles _ _ (gr_inv _ _ _ _ _ Hg)); by left|]. unfold sidx. by rewrite Hl.
Qed.

(** The state after registering groups. *)
Record groups_registered (s : Reg) (hs : list nat) (es : list nat) (s' : Reg) : Prop := {
  gsr_inv : inv s' (es ++ hs);
  gsr_prefix : shape (arcs s) `prefix_of` shape (arcs s');
  gsr_live : forall x, x ∈ hash_consing_map s -> x ∈ hash_consing_map s';
  gsr_values : forall j, is_Some (type_to_rec_group s !! j) ->
    is_Some (type_to_rec_group s' !! j) /\ slab_get (types s') j = slab_get (types s) j }.

Lemma register_groups_ok {E} dbg mt gs es map (s : Reg) hs a :
  inv s (es ++ hs) -> 0 <= a -> chain a gs (len_wasm_types mt) -> pm_len map = a -> map_live s map -> Forall (group_wf mt) gs ->
  slab_len (types s) + 3 * len_wasm_types mt - a <= slab_capacity -> headroom s (sumz (group_cost mt) gs) ->
  exists es' l s', foldM (register_group (E:=E) dbg mt) gs (es, map, s) = Ok (es ++ es', map ++ l, s') /\
    a + pm_len l = len_wasm_types mt /\ groups_registered s (es ++ hs) es' s' /\ map_live s' (map ++ l) /\
    Forall2 (group_at (shape (arcs s')) mt (map ++ l)) gs es'.
Proof.
  revert es map s a; induction gs as [|[x b] gs IH]; intros es map s a Hinv Ha Hch Hm Hlive Hwf Hcap Hroom.
  - exists [], [], s. cbn. rewrite !app_nil_r. split; [done|]. cbn in Hch. split; [unfold pm_len; cbn; lia|].
    split; [by split|]. split; [done|constructor].
  - cbn [chain] in Hch. destruct Hch as (-> & Hab & Hch). apply Forall_cons_1 in Hwf as [Hg Hwf].
    pose proof (chain_le _ _ _ Hch) as Hbn. cbn [sumz] in Hroom.
    assert (Hcost : 0 <= sumz (group_cost mt) gs) by (apply sumz_nonneg; intros; unfold group_cost, pm_len; lia).
    destruct (register_group_ok (E:=E) dbg mt es map s hs a b) as (e & l & s1 & Hs1 & Hl & Hgr & He & Hlive1);
      [done|lia|lia|done|done|done|done| |].
    { destruct Hroom as [H1 H2]. split; [lia|]. intros y Hy. pose proof (H2 y Hy). lia. }
    cbn [foldM]. rewrite Hs1. pose proof (gr_len _ _ _ _ _ Hgr) as [_ Hlen].
    unfold pm_len at 1 in Hlen. rewrite group_key_length, slice_length in Hlen by (unfold len_wasm_types in *; lia).
    destruct (IH (es ++ [e]) (map ++ l) s1 b) as (es' & l' & s' & -> & Hl' & Hgs & Hlive' & Hat).
    + eapply inv_perm; [|exact (gr_inv _ _ _ _ _ Hgr)]. rewrite <- app_assoc. apply Permutation_middle.
    + lia.
    + done.
    + unfold pm_len in *. rewrite length_app. lia.
    + done.
    + done.
    + lia.
    + apply (gr_room _ _ _ _ _ Hgr _ Hcost). rewrite group_key_cost. exact Hroom.
    + exists (e :: es'), (l ++ l'), s'. rewrite <- !app_assoc. cbn [app].
      split; [done|]. split; [unfold pm_len in *; rewrite length_app; lia|].
      split; [|split; [by rewrite app_assoc|]].
      * destruct Hgs as [Hi Hp Hlv Hvs]. split.
        -- eapply inv_perm; [|exact Hi]. rewrite <- app_assoc. cbn [app].
           by rewrite (app_assoc es' es), <- Permutation_middle, <- app_assoc.
        -- etransitivity; [exact (gr_prefix _ _ _ _ _ Hgr)|done].
        -- intros y Hy. apply Hlv. by apply (gr_live _ _ _ _ _ Hgr).
        -- intros j Hj. rewrite <- (gr_values _ _ _ _ _ Hgr j Hj). apply Hvs.
           destruct Hj as [y Hy]. exists y. by apply (gr_map _ _ _ _ _ Hgr).
      * rewrite <- app_assoc in Hat. constructor; [|done].
        unfold group_at. cbn [fst]. eapply prefix_lookup_Some in He; [|exact (gsr_prefix _ _ _ _ Hgs)]. rewrite He.
        rewrite (group_key_app map (l ++ l') a b) by (done || lia). do 2 f_equal.
        rewrite app_assoc, slice_app by (unfold pm_len in *; rewrite ?length_app; lia).
        symmetry. apply slice_end; lia.
Qed.
End Modules.
