(* ===== verification/TypeRegistryClient.v ===== *)
(** * What the type registry promises its clients

    The theorems on [src/src/type_registry.rs]: registration, sharing, safety of
    every sequence of operations, reclamation, and two places where the code
    does not do what it means to do. *)
From stdpp Require Import base list gmap option numbers.
From S2P Require Import Prelude Types TypeTrace Module ModuleTypes TypeRegistry TypeRegistryInv TypeRegistryUse.
Local Open Scope Z_scope.

Section Client.
Context {S : Type} `{HSlab : Slab S WasmSubType} `{!SlabLaws S WasmSubType}.
Abbreviation Reg := (TypeRegistryInner S).

(** The collection holds the engine's indices for the module's types. *)
Record collection_of (s : Reg) (mt : ModuleTypes) (c : RuntimeTypeCollection) : Prop := {
  co_types : pm_len (rc_types c) = len_wasm_types mt;
  co_groups : Forall2 (group_at (shape (arcs s)) mt (rc_types c)) (rec_groups mt) (rc_rec_groups c) }.

(** Room for the types of a module. *)
Definition module_fits (s : Reg) (mt : ModuleTypes) : Prop :=
  slab_len (types s) + 3 * len_wasm_types mt <= slab_capacity /\ headroom s (module_cost mt).

Lemma register_ok {E} dbg (s : Reg) hs mt :
  inv s hs -> module_types_wf mt -> module_fits s mt ->
  exists c s', register_module_types (E:=E) dbg s mt = Ok (c, s') /\
    collection_of s' mt c /\ groups_registered s hs (rc_rec_groups c) s' /\ map_live s' (rc_types c).
Proof.
  intros Hinv Hwf [Hcap Hroom].
  destruct (register_groups_ok (E:=E) dbg mt (rec_groups mt) [] [] s hs 0) as (es & l & s' & Hf & Hl & Hg & Hlive & Hat);
    [done|lia|apply (mt_chain _ Hwf)|done|constructor|by apply module_groups_wf|lia|done|].
  unfold register_module_types. rewrite Hf. cbn [app] in *. cbn [mbind outcome_bind].
  exists (mkCollection es l), s'. split; [done|]. split; [split; [exact Hl|exact Hat]|]. split; [exact Hg|exact Hlive].
Qed.

(** *** Sharing *)
Lemma register_group_known {E} dbg mt es m (s : Reg) hs a b e :
  inv s hs -> 0 <= a <= b -> b <= len_wasm_types mt -> len_wasm_types mt < 2 ^ 32 ->
  pm_len m = len_wasm_types mt -> group_wf mt (a, b) -> headroom s 1 ->
  e ∈ hash_consing_map s -> group_at (shape (arcs s)) mt m (a, b) e ->
  exists s', register_group (E:=E) dbg mt (es, take (Z.to_nat a) m, s) (a, b) = Ok (es ++ [e], take (Z.to_nat b) m, s') /\
    same_static s s' /\ inv s' (e :: hs) /\ (forall n, 0 <= n -> headroom s (1 + n) -> headroom s' n).
Proof.
  intros Hinv Ha Hb HN Hm Hwf Hroom He Hat. pose proof (inv_static _ _ Hinv) as Hst.
  assert (Htk : pm_len (take (Z.to_nat a) m) = a) by (unfold pm_len in *; rewrite length_take; lia).
  assert (Hkey : group_key (take (Z.to_nat a) m) a (slice (wasm_types mt) (a, b)) = group_key m a (slice (wasm_types mt) (a, b))).
  { rewrite <- (take_drop (Z.to_nat a) m) at 2. symmetry. apply (group_key_app _ _ a b); [lia|done]. }
  unfold register_group. rewrite types_slice by done. cbn [mbind outcome_bind]. unfold register_rec_group.
  replace (pm_len (entity_range (a, b)) =? pm_len (slice (wasm_types mt) (a, b))) with true
    by (symmetry; apply Z.eqb_eq; unfold pm_len, len_wasm_types in *; rewrite entity_range_length, slice_length by (done || unfold pm_len; lia); lia).
  rewrite debug_assert_true. cbn [mbind outcome_bind].
  rewrite rec_group_key_ok by (done || lia || (apply slice_length; done || lia)). cbn [mbind outcome_bind].
  unfold group_at in Hat. cbn [fst] in Hat. rewrite Hkey, (find_entry_live s _ _ e Hst He Hat).
  destruct (register_known (E:=E) s hs _ _ e Hinv He Hat Hroom) as (s' & -> & Hsame & Hg). cbn [mbind outcome_bind fst snd].
  pose proof Hsame as (Hsh & Hset & _ & _). rewrite <- Hsh in Hat.
  destruct (entry_arc s' e _ _ Hat) as (i & Hi & Hil). unfold arc. rewrite Hi. cbn [unwrap mbind outcome_bind].
  rewrite Hil, push_engine_types_ok;
    [|done|unfold pm_len at 1; rewrite slice_length by (unfold pm_len in *; lia); lia].
  cbn [mbind outcome_bind]. exists s'. split.
  - do 2 f_equal. f_equal. unfold slice. cbn [fst snd].
    rewrite take_take_drop. f_equal. lia.
  - split; [done|]. split; [exact (gr_inv _ _ _ _ _ Hg)|]. intros n Hn [H1 H2].
    destruct Hroom as [_ Hr]. pose proof (gr_inv _ _ _ _ _ Hg) as [_ [Hc _ _ _] _ _]. split; [lia|]. rewrite Hset. intros x Hx.
    pose proof (Hc x ltac:(by rewrite Hset)) as Hcx. pose proof (ct_count _ _ _ _ (inv_counted _ _ Hinv) x Hx) as Hcx0.
    rewrite Hset, Hsh, occ_cons in Hcx. pose proof (H2 x Hx). destruct (bool_decide (e = x)); cbn [b2z] in Hcx; lia.
Qed.

Lemma register_groups_known {E} dbg mt gs es0 es m (s : Reg) hs a :
  inv s hs -> 0 <= a -> chain a gs (len_wasm_types mt) -> len_wasm_types mt < 2 ^ 32 -> pm_len m = len_wasm_types mt ->
  Forall (group_wf mt) gs -> headroom s (pm_len gs) -> (forall e, e ∈ es -> e ∈ hash_consing_map s) ->
  Forall2 (group_at (shape (arcs s)) mt m) gs es ->
  exists s', foldM (register_group (E:=E) dbg mt) gs (es0, take (Z.to_nat a) m, s) = Ok (es0 ++ es, m, s') /\
    same_static s s' /\ inv s' (es ++ hs).
Proof.
  revert es0 es s hs a; induction gs as [|[x b] gs IH]; intros es0 es s hs a Hinv Ha Hch HN Hm Hwf Hroom Hes Hat.
  - apply Forall2_nil_inv_l in Hat as ->. cbn in Hch. exists s. cbn. rewrite app_nil_r, take_ge; [done|].
    unfold pm_len in Hm. lia.
  - apply Forall2_cons_inv_l in Hat as (e & es' & Hate & Hat & ->). cbn [chain] in Hch. destruct Hch as (-> & Hab & Hch).
    apply Forall_cons_1 in Hwf as [Hg Hwf]. pose proof (chain_le _ _ _ Hch) as Hbn.
    unfold pm_len in Hroom. cbn [length] in Hroom.
    destruct (register_group_known (E:=E) dbg mt es0 m s hs a b e) as (s1 & Hs1 & Hsame & Hinv1 & Hr1);
      [done|lia|lia|done|done|done| |apply Hes; by left|done|].
    { destruct Hroom as [H1 H2]. split; [lia|]. intros y Hy. pose proof (H2 y Hy). lia. }
    cbn [foldM]. rewrite Hs1. pose proof Hsame as (Hsh & Hset & _ & _).
    destruct (IH (es0 ++ [e]) es' s1 (e :: hs) b) as (s' & -> & Hsame' & Hinv'); [done|lia|done..| | |by rewrite Hsh|].
    + apply Hr1; [unfold pm_len; lia|]. unfold pm_len. destruct Hroom as [H1 H2]. split; [lia|]. intros y Hy. pose proof (H2 y Hy). lia.
    + intros y Hy. rewrite Hset. apply Hes. by right.
    + exists s'. rewrite <- app_assoc. split; [done|]. split; [by eapply same_static_trans|].
      eapply inv_perm; [|exact Hinv']. cbn. symmetry. apply Permutation_middle.
Qed.

(** *** Handles *)
Lemma retain_ok {E} (s : Reg) hs e : inv s hs -> e ∈ hash_consing_map s -> headroom s 1 ->
  exists s', incr_ref_count (E:=E) s e = Ok s' /\ same_static s s' /\ inv s' (e :: hs).
Proof.
  intros Hinv He Hroom. destruct (live_arc s e (inv_static _ _ Hinv) He) as (i & Hi & _).
  destruct (register_known (E:=E) s hs _ _ e Hinv He (shape_lookup _ _ _ Hi) Hroom) as (s' & Hs' & Hsame & Hg).
  exists s'. split; [done|]. split; [done|]. exact (gr_inv _ _ _ _ _ Hg).
Qed.

Lemma get_type_ok {E} dbg (s : Reg) hs i : inv s hs -> headroom s 1 ->
  match slab_get (types s) i with
  | None => get_type (E:=E) dbg s i = Ok (None, s)
  | Some ty => exists e s', get_type (E:=E) dbg s i = Ok (Some (mkRegistered e ty i), s') /\
      type_to_rec_group s !! i = Some e /\ same_static s s' /\ inv s' (e :: hs)
  end.
Proof.
  intros Hinv Hroom. unfold get_type. destruct (slab_get (types s) i) as [ty|] eqn:Hty; [|done].
  assert (is_Some (type_to_rec_group s !! i)) as [e He] by (apply (st_slab _ _ _ _ (inv_static _ _ Hinv)); by rewrite Hty).
  rewrite He. cbn [unwrap mbind outcome_bind]. pose proof He as [Hl _]%(st_map _ _ _ _ (inv_static _ _ Hinv)).
  destruct (retain_ok (E:=E) s hs e Hinv Hl Hroom) as (s' & -> & Hsame & Hinv'). cbn [mbind outcome_bind].
  pose proof (inv_positive s' _ e Hinv' (inv_handles _ _ Hinv' e ltac:(by left))) as Hpos.
  destruct (live_arc s' e (inv_static _ _ Hinv') (inv_handles _ _ Hinv' e ltac:(by left))) as (x & Hx & Hr).
  unfold arc. rewrite Hx. cbn [unwrap mbind outcome_bind]. rewrite <- Hr, (proj2 (Z.eqb_neq _ _)) by lia.
  rewrite debug_assert_true. cbn [mbind outcome_bind]. eauto 6.
Qed.

(** ** A client of the registry *)
Record client : Type := mkClient {
  cl_reg : Reg;
  cl_collections : list RuntimeTypeCollection;
  cl_handles : list RegisteredType }.

(** The registrations a client is responsible for. *)
Definition outstanding (c : client) : list nat :=
  (cl_collections c ≫= rc_rec_groups) ++ (rt_entry <$> cl_handles c).

Inductive client_op : Type :=
| Register (mt : ModuleTypes)
| DropCollection (k : nat)
| GetType (i : Z)
| CloneHandle (k : nat)
| DropHandle (k : nat).

Definition exec {E} (dbg : bool) (c : client) (op : client_op) : outcome E client :=
  match op with
  | Register mt =>
      r ← register_module_types dbg (cl_reg c) mt;
      Ok (mkClient r.2 (r.1 :: cl_collections c) (cl_handles c))
  | DropCollection k =>
      match cl_collections c !! k with
      | Some col => s ← drop_collection dbg (cl_reg c) col; Ok (mkClient s (delete k (cl_collections c)) (cl_handles c))
      | None => Ok c
      end
  | GetType i =>
      r ← get_type dbg (cl_reg c) i;
      Ok (mkClient r.2 (cl_collections c) (option_list r.1 ++ cl_handles c))
  | CloneHandle k =>
      match cl_handles c !! k with
      | Some h => r ← clone_registered (cl_reg c) h; Ok (mkClient r.2 (cl_collections c) (r.1 :: cl_handles c))
      | None => Ok c
      end
  | DropHandle k =>
      match cl_handles c !! k with
      | Some h => s ← drop_registered dbg (cl_reg c) h; Ok (mkClient s (cl_collections c) (delete k (cl_handles c)))
      | None => Ok c
      end
  end.

(** Well-formed input and room in the slab and the counters. *)
Definition admissible (c : client) (op : client_op) : Prop :=
  match op with
  | Register mt => module_types_wf mt /\ module_fits (cl_reg c) mt
  | GetType _ | CloneHandle _ => headroom (cl_reg c) 1
  | DropCollection _ | DropHandle _ => True
  end.

(** States a client can reach from an empty registry. *)
Inductive reachable (dbg : bool) : client -> Prop :=
| reach_new : reachable dbg (mkClient registry_new [] [])
| reach_step c op c' :
    reachable dbg c -> admissible c op -> exec (E:=unit) dbg c op = Ok c' -> reachable dbg c'.

(** Every type a client can name is registered, under the entry the client
    keeps alive, with its value. *)
Record names_ok (c : client) : Prop := {
  ck_collections : forall col j, col ∈ cl_collections c -> j ∈ rc_types col ->
    exists e, e ∈ rc_rec_groups col /\ type_to_rec_group (cl_reg c) !! j = Some e;
  ck_handles : forall h, h ∈ cl_handles c ->
    type_to_rec_group (cl_reg c) !! rt_index h = Some (rt_entry h) /\
    slab_get (types (cl_reg c)) (rt_index h) = Some (rt_ty h) }.

Definition client_ok (c : client) : Prop := inv (cl_reg c) (outstanding c) /\ names_ok c.

(** What a client still refers to survives an operation. *)
Definition survives (s s' : Reg) (hs : list nat) : Prop := forall j e, e ∈ hs ->
  type_to_rec_group s !! j = Some e ->
  type_to_rec_group s' !! j = Some e /\ slab_get (types s') j = slab_get (types s) j.

Lemma shrunk_survives s s' hs hs' : inv s hs -> inv s' hs' -> shrunk s s' -> survives s s' hs'.
Proof.
  intros Hinv Hinv' [Hsh Hk] j e He Hj.
  assert (type_to_rec_group s' !! j = Some e) as Hj'.
  { apply (st_map _ _ _ _ (inv_static _ _ Hinv')). split; [by apply (inv_handles _ _ Hinv')|].
    apply (st_map _ _ _ _ (inv_static _ _ Hinv)) in Hj as [_ Hj]. by rewrite Hsh. }
  split; [done|]. by apply (Hk j e).
Qed.

Lemma same_survives s s' hs : same_static s s' -> survives s s' hs.
Proof. intros (_ & _ & Hm & Ht) j e _ Hj. by rewrite Hm, Ht. Qed.

Lemma registered_survives s s' hs hs' es : inv s hs -> groups_registered s hs' es s' -> survives s s' hs.
Proof.
  intros Hinv Hg j e He Hj. destruct (gsr_values _ _ _ _ Hg j) as [[x Hx] Hv]; [by eexists|]. split; [|done].
  rewrite Hx. f_equal. pose proof (inv_static _ _ Hinv) as Hst. pose proof (inv_static _ _ (gsr_inv _ _ _ _ Hg)) as Hst'.
  apply (st_map _ _ _ _ Hst') in Hx as [Hx Hjx]. apply (st_map _ _ _ _ Hst) in Hj as [Hle Hje].
  assert (j ∈ sidx (shape (arcs s')) e) as Hje'.
  { unfold sidx in *. destruct (shape (arcs s) !! e) as [p|] eqn:Hp; [|by apply not_elem_of_nil in Hje].
    by rewrite (prefix_lookup_Some _ _ _ _ Hp (gsr_prefix _ _ _ _ Hg)). }
  assert (type_to_rec_group s' !! j = Some x) by (by apply (st_map _ _ _ _ Hst')).
  assert (type_to_rec_group s' !! j = Some e) by (apply (st_map _ _ _ _ Hst'); split; [by apply (gsr_live _ _ _ _ Hg)|done]).
  congruence.
Qed.

(** Carry a client's names over to the next state. *)
Lemma names_survive c s' cols hdls : names_ok c ->
  (forall col, col ∈ cols -> col ∈ cl_collections c) -> (forall h, h ∈ hdls -> h ∈ cl_handles c) ->
  survives (cl_reg c) s' (outstanding (mkClient s' cols hdls)) -> names_ok (mkClient s' cols hdls).
Proof.
  intros [Hc Hh] Hcols Hhdls Hs. split; cbn.
  - intros col j Hcol Hj. destruct (Hc col j (Hcols col Hcol) Hj) as (e & He & Ht). exists e. split; [done|].
    apply Hs; [|done]. unfold outstanding. cbn. apply elem_of_app. left. apply list_elem_of_bind. eauto.
  - intros h Hhd. destruct (Hh h (Hhdls h Hhd)) as [Ht Hv]. rewrite <- Hv. apply Hs; [|done].
    unfold outstanding. cbn. apply elem_of_app. right. by apply list_elem_of_fmap_2.
Qed.

Lemma names_add_handle c s' h : names_ok c -> survives (cl_reg c) s' (outstanding c) ->
  type_to_rec_group s' !! rt_index h = Some (rt_entry h) -> slab_get (types s') (rt_index h) = Some (rt_ty h) ->
  names_ok (mkClient s' (cl_collections c) (h :: cl_handles c)).
Proof.
  intros Hn Hs H1 H2. destruct (names_survive c s' (cl_collections c) (cl_handles c)) as [Hc Hh]; [done..|].
  split; [exact Hc|]. cbn. intros x [->|Hx]%elem_of_cons; [done|by apply Hh].
Qed.

Lemma outstanding_handle c s h :
  rt_entry h :: outstanding c ≡ₚ outstanding (mkClient s (cl_collections c) (h :: cl_handles c)).
Proof. unfold outstanding. cbn. apply Permutation_middle. Qed.

Lemma chain_cover a gs n p : chain a gs n -> a <= p < n -> exists x y, (x, y) ∈ gs /\ x <= p < y.
Proof.
  revert a; induction gs as [|[x y] gs IH]; intros a; cbn; [lia|]. intros (-> & Hxy & Hc) Hp.
  destruct (Z.lt_ge_cases p y); [exists a, y; split; [by left|lia]|].
  destruct (IH y Hc) as (u & v & Hin & Huv); [lia|]. exists u, v. split; [by right|done].
Qed.

(** Each index of a fresh collection belongs to one of its entries. *)
Lemma collection_indices (s : Reg) mt c hs : module_types_wf mt -> collection_of s mt c -> inv s (rc_rec_groups c ++ hs) ->
  forall j, j ∈ rc_types c -> exists e, e ∈ rc_rec_groups c /\ type_to_rec_group s !! j = Some e.
Proof.
  intros Hwf [Hlen Hgr] Hinv j Hj. apply list_elem_of_lookup_1 in Hj as [k Hk]. pose proof (lookup_lt_Some _ _ _ Hk) as Hkl.
  destruct (chain_cover 0 (rec_groups mt) (len_wasm_types mt) (Z.of_nat k) (mt_chain _ Hwf)) as (a & b & Hr & Hab);
    [unfold pm_len in Hlen; lia|].
  pose proof (chain_elem _ _ _ _ _ (mt_chain _ Hwf) Hr) as [Ha Hb].
  apply list_elem_of_lookup_1 in Hr as [n Hn]. destruct (Forall2_lookup_l _ _ _ _ _ Hgr Hn) as (e & He & Hat).
  exists e. apply list_elem_of_lookup_2 in He. split; [done|].
  apply (st_map _ _ _ _ (inv_static _ _ Hinv)). split; [apply (inv_handles _ _ Hinv), elem_of_app; by left|].
  unfold sidx. rewrite Hat. cbn. apply (list_elem_of_lookup_2 _ (k - Z.to_nat a)). rewrite slice_lookup by lia.
  rewrite <- Hk. f_equal. lia.
Qed.

Lemma drop_perm {A B} (f : A -> list B) (l : list A) k x :
  l !! k = Some x -> l ≫= f ≡ₚ f x ++ (delete k l ≫= f).
Proof. intros Hk. by rewrite (delete_Permutation l k x Hk) at 1. Qed.

Lemma elem_of_delete_l {A} (l : list A) k x y : l !! k = Some x -> y ∈ delete k l -> y ∈ l.
Proof. intros Hk Hy. rewrite (delete_Permutation l k x Hk). by right. Qed.

Lemma add_handle_ok c s' h : client_ok c -> same_static (cl_reg c) s' -> inv s' (rt_entry h :: outstanding c) ->
  type_to_rec_group (cl_reg c) !! rt_index h = Some (rt_entry h) ->
  slab_get (types (cl_reg c)) (rt_index h) = Some (rt_ty h) ->
  client_ok (mkClient s' (cl_collections c) (h :: cl_handles c)).
Proof.
  intros [_ Hn] Hsame Hinv H1 H2. pose proof Hsame as (_ & _ & Hm & Ht). split.
  - eapply inv_perm; [|exact Hinv]. apply outstanding_handle.
  - apply names_add_handle; [done|by apply same_survives|by rewrite Hm|by rewrite Ht].
Qed.

Lemma register_op_ok {E} dbg c mt : client_ok c -> admissible c (Register mt) ->
  exists c', exec (E:=E) dbg c (Register mt) = Ok c' /\ client_ok c'.
Proof.
  intros [Hinv Hn] [Hwf Hfit]. cbn [exec].
  destruct (register_ok (E:=E) dbg (cl_reg c) (outstanding c) mt Hinv Hwf Hfit) as (col & s' & -> & Hcol & Hg & Hlive).
  cbn [mbind outcome_bind fst snd]. eexists. split; [done|]. pose proof (registered_survives _ _ _ _ _ Hinv Hg) as Hs.
  destruct (names_survive c s' (cl_collections c) (cl_handles c)) as [Hc Hh]; [done..|].
  split; [unfold outstanding; cbn; rewrite <- app_assoc; exact (gsr_inv _ _ _ _ Hg)|]. split; [cbn|exact Hh].
  intros x j [->|Hx]%elem_of_cons Hj; [|by apply (Hc x j)].
  by apply (collection_indices s' mt col (outstanding c) Hwf Hcol (gsr_inv _ _ _ _ Hg)).
Qed.

(** Every admissible operation succeeds and keeps the client's names valid. *)
Lemma exec_ok {E} dbg c op : client_ok c -> admissible c op -> exists c', exec (E:=E) dbg c op = Ok c' /\ client_ok c'.
Proof.
  intros Hok Hadm. pose proof Hok as [Hinv Hn]. destruct op as [mt|k|i|k|k]; [by apply register_op_ok|..]; cbn [exec].
  - destruct (cl_collections c !! k) as [col|] eqn:Hk; [|by exists c].
    assert (Hp : outstanding c ≡ₚ rc_rec_groups col ++ outstanding (mkClient (cl_reg c) (delete k (cl_collections c)) (cl_handles c)))
      by (unfold outstanding; cbn; rewrite app_assoc; apply Permutation_app_tail; by apply drop_perm).
    destruct (drop_collection_ok (E:=E) dbg _ _ _ (inv_perm _ _ _ Hp Hinv)) as (s' & -> & Hinv' & Hk').
    cbn [mbind outcome_bind]. eexists. split; [done|]. split; [done|].
    apply (names_survive c); [done| |done|by eapply shrunk_survives]. intros x. by eapply elem_of_delete_l.
  - pose proof (get_type_ok (E:=E) dbg (cl_reg c) _ i Hinv Hadm) as Hg. destruct (slab_get (types (cl_reg c)) i) as [ty|] eqn:Hty.
    + destruct Hg as (e & s' & -> & He & Hsame & Hinv'). cbn [mbind outcome_bind fst snd option_list app].
      eexists. split; [done|]. by apply (add_handle_ok c s' (mkRegistered e ty i)).
    + rewrite Hg. cbn. exists c. split; [by destruct c|done].
  - destruct (cl_handles c !! k) as [h|] eqn:Hk; [|by exists c]. apply list_elem_of_lookup_2 in Hk.
    destruct (ck_handles _ Hn h Hk) as [Ht Hv]. unfold clone_registered.
    destruct (retain_ok (E:=E) (cl_reg c) _ (rt_entry h) Hinv) as (s' & -> & Hsame & Hinv');
      [by apply (st_map _ _ _ _ (inv_static _ _ Hinv)) in Ht as [? _]|done|].
    cbn [mbind outcome_bind fst snd]. eexists. split; [done|]. by apply add_handle_ok.
  - destruct (cl_handles c !! k) as [h|] eqn:Hk; [|by exists c].
    assert (Hp : outstanding c ≡ₚ rt_entry h :: outstanding (mkClient (cl_reg c) (cl_collections c) (delete k (cl_handles c)))).
    { unfold outstanding. cbn. rewrite Permutation_middle. apply Permutation_app_head.
      by rewrite (delete_Permutation (cl_handles c) k h Hk) at 1. }
    destruct (release_ok (E:=E) dbg _ _ _ (inv_perm _ _ _ Hp Hinv)) as (s' & Hs' & Hinv' & Hk').
    unfold drop_registered. rewrite Hs'. cbn [mbind outcome_bind]. eexists. split; [done|]. split; [done|].
    apply (names_survive c); [done|done| |by eapply shrunk_survives]. intros x. by eapply elem_of_delete_l.
Qed.

Lemma reachable_ok dbg c : reachable dbg c -> client_ok c.
Proof.
  induction 1 as [|c op c' _ IH Hadm Hex].
  - split; [apply inv_new|]. split; cbn; by intros ? ?%not_elem_of_nil || (intros ? ? ?%not_elem_of_nil).
  - destruct (exec_ok (E:=unit) dbg c op IH Hadm) as (c1 & Hc1 & Hok). congruence.
Qed.

End Client.

(** C31: a client that registers modules, looks types up, clones and drops
    handles and collections in any order never makes the registry panic while
    there is room; every type it can still name stays registered with its value;
    and once it has dropped everything the registry is empty, as the debug
    build's destructor demands. *)
Theorem registry_client_safe {S} `{HSlab : Slab S WasmSubType} `{!SlabLaws S WasmSubType} {E} dbg (c : client (S:=S))
    (Hr : reachable dbg c) :
  (forall op, admissible c op -> exists c', exec (E:=E) dbg c op = Ok c') /\
  (forall h, h ∈ cl_handles c -> slab_get (types (cl_reg c)) (rt_index h) = Some (rt_ty h)) /\
  (forall col j, col ∈ cl_collections c -> j ∈ rc_types col -> is_Some (slab_get (types (cl_reg c)) j)) /\
  (cl_collections c = [] -> cl_handles c = [] -> drop_registry (E:=E) dbg (cl_reg c) = Ok tt).
Proof.
  apply reachable_ok in Hr as Hok. pose proof Hok as [Hinv Hn]. split; [|split; [|split]].
  - intros op Hadm. destruct (exec_ok (E:=E) dbg c op Hok Hadm) as (c' & Hc' & _). by exists c'.
  - intros h Hh. by apply (ck_handles _ Hn).
  - intros col j Hc Hj. destruct (ck_collections _ Hn col j Hc Hj) as (e & _ & He).
    apply (st_slab _ _ _ _ (inv_static _ _ Hinv)). by exists e.
  - intros H1 H2. unfold outstanding in Hinv. rewrite H1, H2 in Hinv. destruct (inv_empty _ Hinv) as (Hs & Hm & Hl & Hst).
    unfold drop_registry. destruct dbg; [|done]. rewrite Hs, Hm, Hl, Hst. done.
Qed.

(** [(type (func)) (rec (type (struct)) (type (func (param (ref null 1)))))]. *)
Definition example_types : ModuleTypes :=
  mkModuleTypes
    [mkSubType true None (new_func false (mkFuncType [] []));
     mkSubType true None (new_struct false (mkStructType []));
     mkSubType true None (new_func false
       (mkFuncType [Val_Ref (mkRefType true (mkHeapType false (Heap_ConcreteStruct (Module_ 1))))] []))]
    [(0, 1); (1, 3)] ∅.

Lemma example_types_wf : module_types_wf example_types.
Proof.
  split; [repeat split; vm_compute; congruence|]. intros a b p ty Hr Hp Hty. apply list_elem_of_In in Hr. cbn in Hr.
  assert (p = 0 \/ p = 1 \/ p = 2) as [-> | [-> | ->]] by (destruct Hr as [[= <- <-]|[[= <- <-]|[]]]; lia);
    vm_compute in Hty; injection Hty as <-; [constructor..|].
  destruct Hr as [[= <- <-]|[[= <- <-]|[]]]; [lia|]. repeat constructor. by exists 1.
Qed.

Abbreviation VecSlab := (list (option WasmSubType)).

Lemma example_fits : module_fits (S:=VecSlab) registry_new example_types.
Proof. split; [vm_compute; congruence|]. split; [vm_compute; congruence|]. cbn. by intros e ?%not_elem_of_nil. Qed.

Lemma registry_client_safe_witness :
  exists c c', reachable (S:=VecSlab) true c /\ length (cl_collections c) = 1%nat /\
    exec (E:=unit) true c (DropCollection 0) = Ok c'.
Proof.
  destruct (exec (E:=unit) true (mkClient (S:=VecSlab) registry_new [] []) (Register example_types)) as [c| |] eqn:Hc;
    [|vm_compute in Hc; discriminate Hc..].
  assert (Hr : reachable true c).
  { eapply reach_step; [apply reach_new| |exact Hc]. split; [apply example_types_wf|apply example_fits]. }
  destruct (registry_client_safe (E:=unit) true c Hr) as [Hex _].
  destruct (Hex (DropCollection 0) I) as [c' Hc']. exists c, c'. split; [exact Hr|]. split; [|exact Hc'].
  apply (f_equal (fun r => match r with Ok c => length (cl_collections c) | _ => 0%nat end)) in Hc. vm_compute in Hc. by symmetry.
Defined.

(** C32: registering a well-formed module succeeds while there is room and gives
    every recursion group an entry under its hash-consing key, with one engine
    index per type; registering the module once more returns the very same
    entries and indices and adds no type. *)
Theorem register_module_types_shares {S} `{HSlab : Slab S WasmSubType} `{!SlabLaws S WasmSubType} {E} dbg
    (s : TypeRegistryInner S) hs mt
    (Hinv : inv s hs) (Hwf : module_types_wf mt) (Hfit : module_fits s mt) :
  exists c s', register_module_types (E:=E) dbg s mt = Ok (c, s') /\
    collection_of s' mt c /\ inv s' (rc_rec_groups c ++ hs) /\
    (headroom s' (pm_len (rec_groups mt)) ->
     exists s'', register_module_types (E:=E) dbg s' mt = Ok (c, s'') /\ same_static s' s'').
Proof.
  destruct (register_ok (E:=E) dbg s hs mt Hinv Hwf Hfit) as (c & s' & Hreg & Hc & Hg & _).
  exists c, s'. split; [done|]. split; [done|]. split; [exact (gsr_inv _ _ _ _ Hg)|]. intros Hroom.
  destruct Hfit as [Hcap _]. pose proof slab_capacity_range as Hcr.
  assert (0 <= slab_len (types s))
    by (rewrite (st_len _ _ _ _ (inv_static _ _ Hinv)); apply sumz_nonneg; intros; unfold pm_len; lia).
  destruct (register_groups_known (E:=E) dbg mt (rec_groups mt) [] (rc_rec_groups c) (rc_types c) s'
    (rc_rec_groups c ++ hs) 0 (gsr_inv _ _ _ _ Hg)) as (s'' & Hf & Hsame & _).
  - lia.
  - apply (mt_chain _ Hwf).
  - lia.
  - apply (co_types _ _ _ Hc).
  - by apply module_groups_wf.
  - done.
  - intros e He. apply (inv_handles _ _ (gsr_inv _ _ _ _ Hg)), elem_of_app. by left.
  - apply (co_groups _ _ _ Hc).
  - exists s''. split; [|done]. unfold register_module_types. change (take (Z.to_nat 0) (rc_types c)) with (@nil Z) in Hf. rewrite Hf. by destruct c.
Qed.

Lemma register_module_types_shares_witness :
  exists c s', register_module_types (S:=VecSlab) (E:=unit) true registry_new example_types = Ok (c, s') /\
    collection_of s' example_types c.
Proof.
  destruct (register_module_types_shares (S:=VecSlab) (E:=unit) true registry_new [] example_types
    inv_new example_types_wf example_fits) as (c & s' & H1 & H2 & _). eauto.
Defined.

(** A reference between types of one recursion group that is not the first
    of its module dangles: of the three types registered at indices 0, 1 and 2
    the last refers to the second, but its stored form refers to index 3, which
    holds no type. *)
Lemma in_group_reference_dangles dbg :
  exists c s' ty, register_module_types (S:=VecSlab) (E:=unit) dbg registry_new example_types = Ok (c, s') /\
    rc_types c = [0; 1; 2] /\ slab_get (types s') 2 = Some ty /\
    edges ty = [Shared 3] /\ slab_get (types s') 3 = None.
Proof. destruct dbg; vm_compute; do 3 eexists; repeat split. Qed.

(** One function type, and one structure type. *)
Definition one_type (t : WasmSubType) : ModuleTypes := mkModuleTypes [t] [(0, 1)] ∅.
Definition func_module : ModuleTypes := one_type (mkSubType true None (new_func false (mkFuncType [] []))).
Definition struct_module : ModuleTypes := one_type (mkSubType true None (new_struct false (mkStructType []))).

(** A schedule of two threads in a release build.  A collection is registered, a
    handle taken and the collection dropped (under the write lock).  The drop of a
    handle decrements the count before it takes the lock: the first thread does
    so, and while it waits for the lock the second looks the type up and drops the
    handle it got.  The two flags are what the threads see: each has to remove the
    entry. *)
Definition racing_drops : outcome unit (bool * bool * TypeRegistryInner VecSlab) :=
  c ← register_module_types false registry_new func_module;
  held ← get_type false c.2 0;
  dropped ← unwrap (rt_entry <$> held.1);
  s ← drop_collection false held.2 c.1;
  first ← decr_ref_count s dropped;
  handle ← get_type false first.2 0;
  entry ← unwrap (rt_entry <$> handle.1);
  second ← decr_ref_count handle.2 entry;
  s ← unregister_entry false second.2 dropped;
  Ok (first.1, second.1, s).

(** Dropping a handle is not safe against a concurrent lookup.  The drop takes the
    count of its entry to zero; before it gets the lock, another thread looks the
    type up and drops its handle, again to zero.  Both now remove the entry: the
    second removal panics, or, when the slot was reused in between, unregisters
    the type of a module that is still in use. *)
Lemma double_unregister :
  exists s, racing_drops = Ok (true, true, s) /\
    unregister_entry (E:=unit) false s 0%nat = Panic /\
    exists c' s5 s6,
      register_module_types (E:=unit) false s struct_module = Ok (c', s5) /\ rc_types c' = [0] /\
      is_Some (slab_get (types s5) 0) /\
      unregister_entry (E:=unit) false s5 0%nat = Ok s6 /\ slab_get (types s6) 0 = None.
Proof.
  let r := eval vm_compute in racing_drops in
  lazymatch r with Ok (_, _, ?s) => exists s end.
  split; [vm_compute; reflexivity|]. split; [vm_compute; reflexivity|].
  match goal with |- context [register_module_types false ?s struct_module] =>
    let r := eval vm_compute in (register_module_types (E:=unit) false s struct_module) in
    lazymatch r with
    | Ok (?c, ?s5) => exists c, s5;
        let r' := eval vm_compute in (unregister_entry (E:=unit) false s5 0%nat) in
        lazymatch r' with Ok ?s6 => exists s6 end
    end
  end.
  repeat (split; [vm_compute; reflexivity || by eexists|]). vm_compute. reflexivity.
Qed.
