(* ===== verification/VMVal.v ===== *)
(** * Raw values ([src/src/runtime/vmcontext.rs], [src/src/values.rs])

    [VMVal] is a 16-byte union, modelled as its sixteen bytes; a byte that no
    field assignment wrote is [None].  Every constructor stores its field in
    little-endian order ([to_le]), every getter reads it back ([from_le]).
    Reading an uninitialised byte is undefined behaviour in Rust; the model
    counts it as [Panic], so that a theorem concluding [Ok] rules it out.  The
    code copies whole unions of which a field was assigned
    ([VMGlobalDefinition::from_vmval]); there the flag [strict] says whether the
    copy of an uninitialised byte is caught or goes through as on hardware.
    [VMGlobalDefinition] is the 16-byte storage of a wasm global, and [Val] the
    embedder's tagged value. *)
From stdpp Require Import base list option numbers.
From S2P Require Import Prelude Types.
Local Open Scope Z_scope.

(** ** Little-endian bytes *)
Fixpoint le_split (n : nat) (x : Z) : list Z :=
  match n with
  | O => []
  | S n' => x mod 256 :: le_split n' (x / 256)
  end.

Fixpoint le_combine (bs : list Z) : Z :=
  match bs with
  | [] => 0
  | b :: bs' => b + 256 * le_combine bs'
  end.

Lemma le_split_length n x : length (le_split n x) = n.
Proof. revert x; induction n as [|n IH]; intros x; cbn; [done|by rewrite IH]. Qed.

Lemma pow256 n : 2 ^ (8 * Z.of_nat (S n)) = 256 * 2 ^ (8 * Z.of_nat n).
Proof.
  replace (8 * Z.of_nat (S n)) with (8 + 8 * Z.of_nat n) by lia.
  rewrite Z.pow_add_r by lia. reflexivity.
Qed.

Lemma le_combine_split n x : le_combine (le_split n x) = wrap (8 * Z.of_nat n) x.
Proof.
  revert x; induction n as [|n IH]; intros x.
  - cbn. unfold wrap. by rewrite Z.mod_1_r.
  - change (le_combine (le_split (S n) x)) with (x mod 256 + 256 * le_combine (le_split n (x / 256))).
    rewrite IH. unfold wrap. rewrite pow256.
    rewrite Z.rem_mul_r by lia. lia.
Qed.

(** ** [VMVal] *)
Definition byte_cell : Type := option Z.

Record VMVal : Type := mkVMVal { vmval_bytes : list byte_cell }.

(** Assign the [n]-byte field at the start of the union; the remaining bytes
    of a freshly built union are uninitialised. *)
Definition union_of (n : nat) (x : Z) : VMVal :=
  mkVMVal ((Some <$> le_split n x) ++ replicate (16 - n) None).

(** Read the [n]-byte field at the start of a byte string as an unsigned integer. *)
Definition read_le {E} (n : nat) (cells : list byte_cell) : outcome E Z :=
  unwrap (le_combine <$> mapM id (take n cells)).

(** Constructors. *)
Definition vm_i64 (i : Z) : VMVal := union_of 8 i.
Definition vm_i32 (i : Z) : VMVal := vm_i64 i.
Definition vm_u64 {E} (i : Z) : outcome E VMVal :=
  if sfits 64 i then Ok (vm_i64 i) else Panic.
Definition vm_u32 {E} (i : Z) : outcome E VMVal := vm_u64 i.
Definition vm_f32 (i : Z) : VMVal := union_of 4 i.
Definition vm_f64 (i : Z) : VMVal := union_of 8 i.
Definition vm_v128 (i : Z) : VMVal := union_of 16 i.
Definition vm_funcref (ptr : Z) : VMVal := union_of 8 ptr.
Definition vm_externref {E} (e : Z) : outcome E VMVal :=
  _ ← assert_ (e =? 0); Ok (union_of 4 e).
Definition vm_anyref {E} (r : Z) : outcome E VMVal :=
  _ ← assert_ (r =? 0); Ok (union_of 4 r).

(** Getters. *)
Definition get_i32 {E} (v : VMVal) : outcome E Z := signed 32 <$> read_le 4 (vmval_bytes v).
Definition get_i64 {E} (v : VMVal) : outcome E Z := signed 64 <$> read_le 8 (vmval_bytes v).
Definition get_u32 {E} (v : VMVal) : outcome E Z := wrap 32 <$> get_i32 v.
Definition get_u64 {E} (v : VMVal) : outcome E Z := wrap 64 <$> get_i64 v.
Definition get_f32 {E} (v : VMVal) : outcome E Z := read_le 4 (vmval_bytes v).
Definition get_f64 {E} (v : VMVal) : outcome E Z := read_le 8 (vmval_bytes v).
Definition get_v128 {E} (v : VMVal) : outcome E Z := read_le 16 (vmval_bytes v).
Definition get_funcref {E} (v : VMVal) : outcome E Z := read_le 8 (vmval_bytes v).
Definition get_externref {E} (v : VMVal) : outcome E Z :=
  e ← read_le 4 (vmval_bytes v); _ ← assert_ (e =? 0); Ok e.
Definition get_anyref {E} (v : VMVal) : outcome E Z :=
  r ← read_le 4 (vmval_bytes v); _ ← assert_ (r =? 0); Ok r.

(** ** [VMGlobalDefinition] *)
Record VMGlobalDefinition : Type := mkVMGlobal { data : list byte_cell }.

(** [wasmparser::ValType], as far as [to_vmval] distinguishes it. *)
Inductive ValType : Type := VT_I32 | VT_I64 | VT_F32 | VT_F64 | VT_V128 | VT_Ref.

(** A copy of the sixteen bytes of type [[u8; 16]]. *)
Definition copy_bytes {E} (strict : bool) (cells : list byte_cell) : outcome E (list byte_cell) :=
  if strict then _ ← read_le 16 cells; Ok cells else Ok cells.

Definition from_vmval {E} (strict : bool) (v : VMVal) : outcome E VMGlobalDefinition :=
  mkVMGlobal <$> copy_bytes strict (vmval_bytes v).

Definition as_i32 {E} (g : VMGlobalDefinition) : outcome E Z := signed 32 <$> read_le 4 (data g).
Definition as_u32 {E} (g : VMGlobalDefinition) : outcome E Z := read_le 4 (data g).
Definition as_i64 {E} (g : VMGlobalDefinition) : outcome E Z := signed 64 <$> read_le 8 (data g).
Definition as_u64 {E} (g : VMGlobalDefinition) : outcome E Z := read_le 8 (data g).
Definition as_f32_bits {E} (g : VMGlobalDefinition) : outcome E Z := read_le 4 (data g).
Definition as_f64_bits {E} (g : VMGlobalDefinition) : outcome E Z := read_le 8 (data g).
Definition as_u128 {E} (g : VMGlobalDefinition) : outcome E Z := read_le 16 (data g).

(** Writing through the reference that an [as_*_mut] accessor returns. *)
Definition write_le (n : nat) (x : Z) (g : VMGlobalDefinition) : VMGlobalDefinition :=
  mkVMGlobal ((Some <$> le_split n x) ++ drop n (data g)).
Definition as_i32_mut (g : VMGlobalDefinition) (x : Z) : VMGlobalDefinition := write_le 4 x g.
Definition as_u32_mut (g : VMGlobalDefinition) (x : Z) : VMGlobalDefinition := write_le 4 x g.
Definition as_i64_mut (g : VMGlobalDefinition) (x : Z) : VMGlobalDefinition := write_le 8 x g.
Definition as_u64_mut (g : VMGlobalDefinition) (x : Z) : VMGlobalDefinition := write_le 8 x g.
Definition as_f32_bits_mut (g : VMGlobalDefinition) (x : Z) : VMGlobalDefinition := write_le 4 x g.
Definition as_f64_bits_mut (g : VMGlobalDefinition) (x : Z) : VMGlobalDefinition := write_le 8 x g.
Definition as_u128_mut (g : VMGlobalDefinition) (x : Z) : VMGlobalDefinition := write_le 16 x g.

Definition to_vmval {E} (strict : bool) (g : VMGlobalDefinition) (wasm_ty : ValType) : outcome E VMVal :=
  match wasm_ty with
  | VT_I32 => x ← as_i32 g; Ok (union_of 4 x)
  | VT_I64 => x ← as_i64 g; Ok (union_of 8 x)
  | VT_F32 => x ← as_f32_bits g; Ok (union_of 4 x)
  | VT_F64 => x ← as_f64_bits g; Ok (union_of 8 x)
  | VT_V128 => mkVMVal <$> copy_bytes strict (data g)
  | VT_Ref => Panic
  end.

(** ** [Val] ([values.rs]), over the embedder's function handle [Func] *)
Section Val.
Context {Func : Type} (as_raw : Func -> Z).

Inductive Val : Type :=
| V_I32 (i : Z) | V_I64 (i : Z) | V_F32 (bits : Z) | V_F64 (bits : Z) | V_V128 (b : Z)
| V_FuncRef (f : option Func).

(** [Val::as_vmval]; a null function reference is the null pointer. *)
Definition as_vmval (v : Val) : VMVal :=
  match v with
  | V_I32 i => vm_i32 i
  | V_I64 i => vm_i64 i
  | V_F32 u => vm_f32 u
  | V_F64 u => vm_f64 u
  | V_V128 b => vm_v128 b
  | V_FuncRef f => vm_funcref (match f with Some f => as_raw f | None => 0 end)
  end.

(** [Val::from_vmval]; references are [todo!()]. *)
Definition val_from_vmval {E} (raw : VMVal) (ty : WasmValType) : outcome E Val :=
  match ty with
  | Val_I32 => V_I32 <$> get_i32 raw
  | Val_I64 => V_I64 <$> get_i64 raw
  | Val_F32 => V_F32 <$> get_f32 raw
  | Val_F64 => V_F64 <$> get_f64 raw
  | Val_V128 => V_V128 <$> get_v128 raw
  | Val_Ref _ => Panic
  end.

(** [Ref] and [Ref::null]. *)
Inductive Ref : Type := Ref_Func (f : option Func).

Definition ref_null {E} (h : WasmHeapType) : outcome E Ref :=
  match top_inner (top h) with
  | Top_Func => Ok (Ref_Func None)
  | _ => Panic
  end.
Definition ref_is_null (r : Ref) : bool :=
  match r with Ref_Func None => true | Ref_Func (Some _) => false end.
Definition val_of_ref (r : Ref) : Val := match r with Ref_Func f => V_FuncRef f end.
(** [Val::null_ref]. *)
Definition null_ref {E} (h : WasmHeapType) : outcome E Val := val_of_ref <$> ref_null h.

(** The values of a numeric or vector type. *)
Definition val_has_type (v : Val) (ty : WasmValType) : bool :=
  match v, ty with
  | V_I32 i, Val_I32 => sfits 32 i
  | V_I64 i, Val_I64 => sfits 64 i
  | V_F32 i, Val_F32 => fits 32 i
  | V_F64 i, Val_F64 => fits 64 i
  | V_V128 i, Val_V128 => fits 128 i
  | _, _ => false
  end.
End Val.
Arguments Val : clear implicits.
Arguments Ref : clear implicits.

(** ** Reading back *)

Lemma mapM_id_some (l : list Z) : mapM id (Some <$> l) = Some l.
Proof. induction l as [|x l IH]; [done|]. cbn in *. by rewrite IH. Qed.

(** A field assignment of [n] bytes determines every read of at most [n] bytes. *)
Lemma le_split_take k n x : (k <= n)%nat -> take k (le_split n x) = le_split k x.
Proof.
  revert k x; induction n as [|n IH]; intros [|k] x Hk; cbn; try done; [lia|].
  f_equal. apply IH. lia.
Qed.

Lemma read_le_prefix {E} k n x rest :
  (k <= n)%nat -> read_le (E:=E) k ((Some <$> le_split n x) ++ rest) = Ok (wrap (8 * Z.of_nat k) x).
Proof.
  intros Hk. unfold read_le. rewrite take_app_le by (rewrite length_fmap, le_split_length; lia).
  rewrite <- fmap_take, le_split_take, mapM_id_some by done. cbn. by rewrite le_combine_split.
Qed.

Lemma read_union {E} k n x : (k <= n)%nat ->
  read_le (E:=E) k (vmval_bytes (union_of n x)) = Ok (wrap (8 * Z.of_nat k) x).
Proof. apply read_le_prefix. Qed.

Lemma read_write {E} k n x g : (k <= n)%nat ->
  read_le (E:=E) k (data (write_le n x g)) = Ok (wrap (8 * Z.of_nat k) x).
Proof. apply read_le_prefix. Qed.

Lemma signed_wrap_sfits w x : 0 < w -> sfits w x = true -> signed w (wrap w x) = x.
Proof. intros Hw Hx%sfits_spec. by apply signed_wrap. Qed.

Lemma wrap_fits w x : fits w x = true -> wrap w x = x.
Proof. intros Hx%fits_spec. by apply wrap_small. Qed.

Lemma get_i32_vm {E} x : get_i32 (E:=E) (vm_i32 x) = Ok (swrap 32 x).
Proof. unfold get_i32, vm_i32, vm_i64. rewrite read_union by lia. done. Qed.
Lemma get_i64_vm {E} x : get_i64 (E:=E) (vm_i64 x) = Ok (swrap 64 x).
Proof. unfold get_i64, vm_i64. rewrite read_union by lia. done. Qed.
Lemma get_u64_vm {E} x : get_u64 (E:=E) (vm_i64 x) = Ok (wrap 64 x).
Proof. unfold get_u64. rewrite get_i64_vm. cbn. by rewrite wrap_swrap by lia. Qed.
#[export] Hint Rewrite @get_i32_vm @get_i64_vm @get_u64_vm : rust.

(** A typed value survives the trip through the untyped argument slot:
    [Val::from_vmval] at the value's type inverts [Val::as_vmval]. *)
Lemma val_vmval_roundtrip {Func E} (as_raw : Func -> Z) (v : Val Func) (ty : WasmValType)
    (Hty : val_has_type v ty = true) :
  val_from_vmval (E:=E) (as_vmval as_raw v) ty = Ok v.
Proof.
  destruct v, ty; cbn in Hty; try discriminate; unfold as_vmval, val_from_vmval.
  - rewrite get_i32_vm. cbn. unfold swrap. by rewrite signed_wrap_sfits.
  - rewrite get_i64_vm. cbn. unfold swrap. by rewrite signed_wrap_sfits.
  - unfold get_f32, vm_f32. rewrite read_union by lia. cbn. by rewrite wrap_fits.
  - unfold get_f64, vm_f64. rewrite read_union by lia. cbn. by rewrite wrap_fits.
  - unfold get_v128, vm_v128. rewrite read_union by lia. cbn. by rewrite wrap_fits.
Qed.

(** The type of global that holds a value. *)
Definition global_ty {Func} (v : Val Func) : ValType :=
  match v with
  | V_I32 _ => VT_I32 | V_I64 _ => VT_I64 | V_F32 _ => VT_F32 | V_F64 _ => VT_F64
  | V_V128 _ => VT_V128 | V_FuncRef _ => VT_Ref
  end.

Definition is_v128 (ty : WasmValType) : bool := match ty with Val_V128 => true | _ => false end.

Lemma read_le_short {E} n x : (n < 16)%nat -> read_le (E:=E) 16 (vmval_bytes (union_of n x)) = Panic.
Proof.
  intros Hn. unfold read_le, union_of. cbn [vmval_bytes].
  rewrite take_ge by (rewrite length_app, length_fmap, length_replicate, le_split_length; lia).
  replace (mapM id ((Some <$> le_split n x) ++ replicate (16 - n) None)) with (None : option (list Z)); [done|].
  symmetry. apply mapM_None. apply Exists_app. right. replace (16 - n)%nat with (S (15 - n)) by lia. by constructor.
Qed.

(** Storing a union of an [n]-byte field into a global. *)
Lemma from_union {E} strict n x : (n <= 16)%nat ->
  from_vmval (E:=E) strict (union_of n x) =
    if strict && (n <? 16)%nat then Panic else Ok (mkVMGlobal (vmval_bytes (union_of n x))).
Proof.
  intros Hn. unfold from_vmval, copy_bytes. destruct strict; [|done].
  destruct (Nat.ltb_spec n 16); cbn [andb].
  - by rewrite read_le_short.
  - assert (n = 16%nat) as -> by lia. by rewrite read_union by lia.
Qed.

(** C37: a number or vector stored into a global and read back at the global's type
    is the same value, although [to_vmval] copies only the field's bytes.
    [from_vmval] copies all sixteen bytes of the union, of which only those of a
    vector are initialised: where the copy of an uninitialised byte is caught
    ([strict]), it is caught for every value but a vector.  (References are
    not covered: reading one back is [todo!()].) *)
Theorem global_roundtrip {Func E} (as_raw : Func -> Z) (strict : bool) (v : Val Func) (ty : WasmValType)
    (Hty : val_has_type v ty = true) :
  (g ← from_vmval strict (as_vmval as_raw v); raw ← to_vmval strict g (global_ty v); val_from_vmval (E:=E) raw ty) =
    if strict && negb (is_v128 ty) then Panic else Ok v.
Proof.
  destruct v, ty; cbn in Hty; try discriminate;
    unfold as_vmval, val_from_vmval, global_ty, vm_i32, vm_i64, vm_f32, vm_f64, vm_v128;
    rewrite from_union by lia; (destruct strict; cbn [andb negb is_v128]; [try reflexivity|]);
    cbn -[union_of to_vmval]; unfold to_vmval.
  - unfold as_i32. cbn -[union_of]. rewrite read_union by lia. cbn -[union_of]. unfold get_i32. rewrite read_union by lia.
    cbn. rewrite wrap_signed by (try lia; apply wrap_bound; lia). by rewrite signed_wrap_sfits.
  - unfold as_i64. cbn -[union_of]. rewrite read_union by lia. cbn -[union_of]. unfold get_i64. rewrite read_union by lia.
    cbn. rewrite wrap_signed by (try lia; apply wrap_bound; lia). by rewrite signed_wrap_sfits.
  - unfold as_f32_bits. cbn -[union_of]. rewrite read_union by lia. cbn -[union_of]. unfold get_f32. rewrite read_union by lia.
    cbn. by rewrite !wrap_fits by (rewrite ?wrap_fits; done).
  - unfold as_f64_bits. cbn -[union_of]. rewrite read_union by lia. cbn -[union_of]. unfold get_f64. rewrite read_union by lia.
    cbn. by rewrite !wrap_fits by (rewrite ?wrap_fits; done).
  - unfold copy_bytes. cbn -[union_of]. rewrite read_union by lia. cbn -[union_of].
    unfold get_v128. change (mkVMVal (vmval_bytes (union_of 16 b))) with (union_of 16 b). rewrite read_union by lia. cbn. by rewrite wrap_fits.
  - unfold copy_bytes, get_v128. cbn -[union_of]. change (mkVMVal (vmval_bytes (union_of 16 b))) with (union_of 16 b).
    rewrite read_union by lia. cbn. by rewrite wrap_fits.
Qed.

Lemma global_roundtrip_witness :
  (g ← from_vmval false (as_vmval (fun _ : unit => 0) (V_F64 77)); raw ← to_vmval false g VT_F64;
   val_from_vmval (Func:=unit) (E:=unit) raw Val_F64) = Ok (V_F64 77).
Proof. apply (global_roundtrip (fun _ : unit => 0) false (V_F64 77) Val_F64). reflexivity. Defined.

(** What a 64-bit read of a 32-bit constant returns: [VMVal::i32]
    sign-extends, so a negative constant reads back as a number near [2^64],
    not as its 32-bit unsigned value. *)
Lemma u64_of_i32_constant {E} (i : Z) (Hi : sfits 32 i = true) :
  get_u64 (E:=E) (vm_i32 i) = Ok (if i <? 0 then 2 ^ 64 + i else i).
Proof.
  apply sfits_spec in Hi. unfold vm_i32. rewrite get_u64_vm. f_equal. unfold wrap.
  destruct (Z.ltb_spec i 0).
  - symmetry. apply (Z.mod_unique_pos _ _ (-1)); lia.
  - apply Z.mod_small. lia.
Qed.

Lemma u64_of_i32_constant_witness :
  get_u64 (E:=unit) (vm_i32 (-2147483648)) = Ok (2 ^ 64 - 2147483648).
Proof. apply (u64_of_i32_constant (-2147483648)). reflexivity. Defined.
