(* ===== verification/ConstEval.v ===== *)
(** * Constant expressions ([src/src/translate/const_expr.rs],
      [src/src/runtime/const_eval.rs])

    Conversion of a parsed constant expression into a [ConstExpr] and its
    evaluation by the stack interpreter [ConstExprEvaluator].  The operator
    stream of the parser is a list of results; the evaluator's state is its
    operand stack, top of stack first.  A typed reference semantics and the
    validator's typing rules say what the interpreter has to compute. *)
From stdpp Require Import base list option numbers.
From S2P Require Import Prelude Types Module VMVal.
Local Open Scope Z_scope.

(** ** Conversion *)

(** [wasmparser::Operator], as far as the conversion distinguishes it. *)
Inductive Operator : Type :=
| O_I32Const (value : Z)
| O_I64Const (value : Z)
| O_F32Const (bits : Z)
| O_F64Const (bits : Z)
| O_V128Const (bytes : list Z)
| O_RefNull
| O_RefFunc (function_index : Z)
| O_GlobalGet (global_index : Z)
| O_RefI31
| O_I32Add | O_I32Sub | O_I32Mul
| O_I64Add | O_I64Sub | O_I64Mul
| O_End
| O_other (opcode : Z).

Inductive ConstExprError : Type :=
| ReadError (code : Z)
| UnsupportedOpcode (op : Operator) (offset : Z).

(** [ConstOp::from_wasmparser]. *)
Definition op_from_wasmparser (op : Operator) (offset : Z) : outcome ConstExprError ConstOp :=
  match op with
  | O_I32Const value => Ok (I32Const value)
  | O_I64Const value => Ok (I64Const value)
  | O_F32Const bits => Ok (F32Const bits)
  | O_F64Const bits => Ok (F64Const bits)
  | O_V128Const bytes => Ok (V128Const (le_combine bytes))
  | O_RefNull => Ok RefNull
  | O_RefFunc function_index => Ok (RefFunc function_index)
  | O_GlobalGet global_index => Ok (GlobalGet global_index)
  | O_RefI31 => Ok RefI31
  | O_I32Add => Ok I32Add
  | O_I32Sub => Ok I32Sub
  | O_I32Mul => Ok I32Mul
  | O_I64Add => Ok I64Add
  | O_I64Sub => Ok I64Sub
  | O_I64Mul => Ok I64Mul
  | O_End | O_other _ => Err (UnsupportedOpcode op offset)
  end.

(** The [while let] loop of [ConstExpr::from_wasmparser]; the stream holds the
    parser's results with their offsets. *)
Fixpoint from_wasmparser_loop (iter : list (ConstExprError + Operator * Z))
    (ops : list ConstOp) (escaped : list Z) : outcome ConstExprError (list ConstOp * list Z) :=
  match iter with
  | [] => Ok (ops, escaped)
  | inl e :: _ => Err e
  | inr (op, offset) :: iter' =>
      match op, iter' with
      | O_End, [] => Ok (ops, escaped)
      | _, _ =>
          let escaped' := match op with O_RefFunc f => escaped ++ [f] | _ => escaped end in
          cop ← op_from_wasmparser op offset;
          from_wasmparser_loop iter' (ops ++ [cop]) escaped'
      end
  end.

Definition from_wasmparser (iter : list (ConstExprError + Operator * Z)) :
    outcome ConstExprError (ConstExpr * list Z) :=
  r ← from_wasmparser_loop iter [] []; Ok (mkConstExpr r.1, r.2).

(** ** Evaluation *)
Section Eval.
Context {E : Type}.

Definition pop2 (stack : list VMVal) : outcome E (VMVal * VMVal * list VMVal) :=
  match stack with
  | v2 :: v1 :: rest => Ok (v1, v2, rest)
  | _ => Panic
  end.

Definition bin32 (f : Z -> Z -> Z) (stack : list VMVal) : outcome E (list VMVal) :=
  p ← pop2 stack;
  a ← get_i32 p.1.1; b ← get_i32 p.1.2;
  Ok (vm_i32 (swrap 32 (f a b)) :: p.2).

Definition bin64 (f : Z -> Z -> Z) (stack : list VMVal) : outcome E (list VMVal) :=
  p ← pop2 stack;
  a ← get_i64 p.1.1; b ← get_i64 p.1.2;
  Ok (vm_i64 (swrap 64 (f a b)) :: p.2).

(** One iteration of the loop of [eval]; [todo!()] panics. *)
Definition eval_op (stack : list VMVal) (op : ConstOp) : outcome E (list VMVal) :=
  match op with
  | I32Const value => Ok (vm_i32 value :: stack)
  | I64Const value => Ok (vm_i64 value :: stack)
  | F32Const value => Ok (vm_f32 value :: stack)
  | F64Const value => Ok (vm_f64 value :: stack)
  | V128Const value => Ok (vm_v128 value :: stack)
  | GlobalGet _ => Panic
  | RefI31 => Panic
  | RefNull => Panic
  | RefFunc _ => Panic
  | I32Add => bin32 Z.add stack
  | I32Sub => bin32 Z.sub stack
  | I32Mul => bin32 Z.mul stack
  | I64Add => bin64 Z.add stack
  | I64Sub => bin64 Z.sub stack
  | I64Mul => bin64 Z.mul stack
  end.

(** [ConstExprEvaluator::eval]: the result and the stack the evaluator is left with. *)
Definition eval (stack : list VMVal) (expr : ConstExpr) : outcome E (VMVal * list VMVal) :=
  stack' ← foldM eval_op (ops expr) stack;
  _ ← assert_ (Z.of_nat (length stack') =? 1);
  match stack' with
  | v :: rest => Ok (v, rest)
  | [] => Panic
  end.
End Eval.

(** ** Reference semantics

    Typed values, the validator's typing of operators and their meaning on
    typed values.  References have a type but no value here. *)
Inductive cty : Type := T_I32 | T_I64 | T_F32 | T_F64 | T_V128 | T_Ref.

#[global] Instance cty_eq_dec : EqDecision cty.
Proof. solve_decision. Defined.

Inductive cval : Type := C_I32 (i : Z) | C_I64 (i : Z) | C_F32 (b : Z) | C_F64 (b : Z) | C_V128 (b : Z).

Definition type_of (v : cval) : cty :=
  match v with
  | C_I32 _ => T_I32 | C_I64 _ => T_I64 | C_F32 _ => T_F32 | C_F64 _ => T_F64 | C_V128 _ => T_V128
  end.

(** The typing rules, over the types [gty] of the imported globals. *)
Definition check_op (gty : Z -> option cty) (ts : list cty) (op : ConstOp) : option (list cty) :=
  match op, ts with
  | I32Const _, _ => Some (T_I32 :: ts)
  | I64Const _, _ => Some (T_I64 :: ts)
  | F32Const _, _ => Some (T_F32 :: ts)
  | F64Const _, _ => Some (T_F64 :: ts)
  | V128Const _, _ => Some (T_V128 :: ts)
  | GlobalGet g, _ => (fun t => t :: ts) <$> gty g
  | RefI31, T_I32 :: ts' => Some (T_Ref :: ts')
  | RefNull, _ => Some (T_Ref :: ts)
  | RefFunc _, _ => Some (T_Ref :: ts)
  | (I32Add | I32Sub | I32Mul), T_I32 :: T_I32 :: ts' => Some (T_I32 :: ts')
  | (I64Add | I64Sub | I64Mul), T_I64 :: T_I64 :: ts' => Some (T_I64 :: ts')
  | _, _ => None
  end.

Fixpoint check_ops (gty : Z -> option cty) (ts : list cty) (l : list ConstOp) : option (list cty) :=
  match l with
  | [] => Some ts
  | op :: l' => match check_op gty ts op with Some ts' => check_ops gty ts' l' | None => None end
  end.

(** The operators [eval] implements. *)
Definition supported (op : ConstOp) : bool :=
  match op with GlobalGet _ | RefI31 | RefNull | RefFunc _ => false | _ => true end.

Definition ref_op (s : list cval) (op : ConstOp) : option (list cval) :=
  match op, s with
  | I32Const v, _ => Some (C_I32 v :: s)
  | I64Const v, _ => Some (C_I64 v :: s)
  | F32Const v, _ => Some (C_F32 v :: s)
  | F64Const v, _ => Some (C_F64 v :: s)
  | V128Const v, _ => Some (C_V128 v :: s)
  | I32Add, C_I32 b :: C_I32 a :: s' => Some (C_I32 (swrap 32 (a + b)) :: s')
  | I32Sub, C_I32 b :: C_I32 a :: s' => Some (C_I32 (swrap 32 (a - b)) :: s')
  | I32Mul, C_I32 b :: C_I32 a :: s' => Some (C_I32 (swrap 32 (a * b)) :: s')
  | I64Add, C_I64 b :: C_I64 a :: s' => Some (C_I64 (swrap 64 (a + b)) :: s')
  | I64Sub, C_I64 b :: C_I64 a :: s' => Some (C_I64 (swrap 64 (a - b)) :: s')
  | I64Mul, C_I64 b :: C_I64 a :: s' => Some (C_I64 (swrap 64 (a * b)) :: s')
  | _, _ => None
  end.

Fixpoint ref_eval (s : list cval) (l : list ConstOp) : option (list cval) :=
  match l with
  | [] => Some s
  | op :: l' => match ref_op s op with Some s' => ref_eval s' l' | None => None end
  end.

(** The raw value that represents a typed one. *)
Definition encode (v : cval) : VMVal :=
  match v with
  | C_I32 i => vm_i32 i | C_I64 i => vm_i64 i | C_F32 b => vm_f32 b | C_F64 b => vm_f64 b
  | C_V128 b => vm_v128 b
  end.

(** ** Correctness *)

(** Arithmetic modulo [2^w] on signed words does not see the wrap of its arguments. *)
Lemma swrap_mod_eq w x y : wrap w x = wrap w y -> swrap w x = swrap w y.
Proof. unfold swrap. by intros ->. Qed.

Lemma wrap_op w x : 0 < w -> exists k, swrap w x = x + k * 2 ^ w.
Proof.
  intros Hw. assert (Hp : 2 ^ w <> 0) by (apply Z.pow_nonzero; lia).
  unfold swrap, signed, wrap. pose proof (Z.div_mod x (2 ^ w) Hp).
  destruct (_ <? _); [exists (- (x / 2 ^ w))|exists (- (x / 2 ^ w) - 1)]; lia.
Qed.

Lemma swrap_bin w (f : Z -> Z -> Z) a b :
  0 < w -> f = Z.add \/ f = Z.sub \/ f = Z.mul ->
  swrap w (f (swrap w a) (swrap w b)) = swrap w (f a b).
Proof.
  intros Hw Hf. destruct (wrap_op w a Hw) as [k ->], (wrap_op w b Hw) as [j ->].
  apply swrap_mod_eq. unfold wrap.
  destruct Hf as [->|[->| ->]].
  - replace (a + k * 2 ^ w + (b + j * 2 ^ w)) with (a + b + (k + j) * 2 ^ w) by lia. apply Z.mod_add, Z.pow_nonzero; lia.
  - replace (a + k * 2 ^ w - (b + j * 2 ^ w)) with (a - b + (k - j) * 2 ^ w) by lia. apply Z.mod_add, Z.pow_nonzero; lia.
  - replace ((a + k * 2 ^ w) * (b + j * 2 ^ w))
      with (a * b + (a * j + k * b + k * j * 2 ^ w) * 2 ^ w) by lia.
    apply Z.mod_add, Z.pow_nonzero; lia.
Qed.

Lemma bin32_encode {E} f a b s :
  f = Z.add \/ f = Z.sub \/ f = Z.mul ->
  bin32 (E:=E) f (vm_i32 b :: vm_i32 a :: s) = Ok (vm_i32 (swrap 32 (f a b)) :: s).
Proof.
  intros Hf. unfold bin32. cbn [pop2 mbind outcome_bind fst snd].
  rewrite !get_i32_vm. cbn [mbind outcome_bind]. by rewrite swrap_bin.
Qed.

Lemma bin64_encode {E} f a b s :
  f = Z.add \/ f = Z.sub \/ f = Z.mul ->
  bin64 (E:=E) f (vm_i64 b :: vm_i64 a :: s) = Ok (vm_i64 (swrap 64 (f a b)) :: s).
Proof.
  intros Hf. unfold bin64. cbn [pop2 mbind outcome_bind fst snd].
  rewrite !get_i64_vm. cbn [mbind outcome_bind]. by rewrite swrap_bin.
Qed.

(** The interpreter simulates the reference semantics step by step. *)
Lemma eval_op_simulates {E} s op s' :
  ref_op s op = Some s' -> eval_op (E:=E) (encode <$> s) op = Ok (encode <$> s').
Proof.
  destruct op; cbn [ref_op eval_op]; try (intros H; injection H as <-; reflexivity);
    destruct s as [|[] [|[] s]]; intros H; try discriminate H; injection H as <-;
    rewrite !fmap_cons; cbn [encode];
    first [rewrite bin32_encode by auto | rewrite bin64_encode by auto]; reflexivity.
Qed.

Lemma eval_ops_simulate {E} l s s' :
  ref_eval s l = Some s' -> foldM (eval_op (E:=E)) l (encode <$> s) = Ok (encode <$> s').
Proof.
  revert s; induction l as [|op l IH]; intros s; cbn [ref_eval foldM]; [by intros [= <-]|].
  destruct (ref_op s op) as [s1|] eqn:Hop; [|done]. intros H.
  rewrite (eval_op_simulates _ _ _ Hop). by apply IH.
Qed.

(** Typed, supported operators have a reference meaning of the predicted type. *)
Lemma ref_op_progress gty ts op ts' s :
  check_op gty ts op = Some ts' -> supported op = true -> type_of <$> s = ts ->
  exists s', ref_op s op = Some s' /\ type_of <$> s' = ts'.
Proof.
  destruct op; cbn [check_op supported ref_op]; intros H Hs Ht; try discriminate Hs;
    try (injection H as <-; subst ts; eexists; split; [reflexivity|reflexivity]);
    destruct ts as [|[] [|[] ts]]; try discriminate H; injection H as <-;
    destruct s as [|[] [|[] s]]; try discriminate Ht; injection Ht as <-;
    eexists; split; reflexivity.
Qed.

Lemma ref_eval_progress gty l ts ts' s :
  check_ops gty ts l = Some ts' -> forallb supported l = true -> type_of <$> s = ts ->
  exists s', ref_eval s l = Some s' /\ type_of <$> s' = ts'.
Proof.
  revert ts s; induction l as [|op l IH]; intros ts s; cbn; [naive_solver|].
  destruct (check_op gty ts op) as [ts1|] eqn:Hop; [|done].
  intros Hl [Hs Hsl]%andb_true_iff Ht.
  destruct (ref_op_progress _ _ _ _ _ Hop Hs Ht) as (s1 & -> & Ht1). by eapply IH.
Qed.

Lemma eval_op_not_err {E} s op e : eval_op (E:=E) s op <> Err e.
Proof.
  assert (Hr : forall n l e, read_le (E:=E) n l <> Err e)
    by (intros n l e'; unfold read_le, unwrap; by case_match).
  destruct op; cbn; try done; unfold bin32, bin64, pop2, get_i32, get_i64;
    destruct s as [|v2 [|v1 s]]; cbn; try done;
    destruct (read_le _ (vmval_bytes v1)) eqn:H1; cbn; try done; try (by apply Hr in H1);
    destruct (read_le _ (vmval_bytes v2)) eqn:H2; cbn; try done; by apply Hr in H2.
Qed.

Lemma eval_ops_unsupported {E} l s :
  forallb supported l = false -> foldM (eval_op (E:=E)) l s = Panic.
Proof.
  revert s; induction l as [|op l IH]; intros s; cbn [forallb foldM]; [done|].
  destruct (supported op) eqn:Hs; cbn.
  - intros Hl. destruct (eval_op s op) eqn:Ho; [by apply IH|by apply eval_op_not_err in Ho|done].
  - intros _. by destruct op.
Qed.

(** C20: a validated constant expression over the implemented operators
    evaluates, on a fresh evaluator, to the value of the reference semantics at
    the type the validator predicts, and leaves the evaluator's stack empty. *)
Theorem eval_correct {E} gty (e : ConstExpr) (t : cty)
    (Hty : check_ops gty [] (ops e) = Some [t]) (Hsup : forallb supported (ops e) = true) :
  exists v, ref_eval [] (ops e) = Some [v] /\ type_of v = t /\ eval (E:=E) [] e = Ok (encode v, []).
Proof.
  destruct (ref_eval_progress _ _ _ _ [] Hty Hsup eq_refl) as (s & Hs & Ht).
  destruct s as [|v [|? ?]]; try discriminate Ht. injection Ht as Ht.
  exists v. split; [done|split; [done|]].
  unfold eval. by rewrite (eval_ops_simulate _ [] [v] Hs).
Qed.

(** [(i32.const 7) (i32.const 9) (i32.sub) (i32.const 3) (i32.mul)] is [-6]. *)
Definition example_expr : ConstExpr :=
  mkConstExpr [I32Const 7; I32Const 9; I32Sub; I32Const 3; I32Mul].

Lemma eval_correct_witness :
  exists v, ref_eval [] (ops example_expr) = Some [v] /\ type_of v = T_I32 /\
            eval (E:=unit) [] example_expr = Ok (encode v, []).
Proof. apply (eval_correct (fun _ => None) example_expr T_I32); reflexivity. Defined.

(** A constant expression that mentions a global or a reference is never
    evaluated: the interpreter panics ([todo!]) from every evaluator state, even
    on expressions the validator accepts. *)
Lemma eval_unsupported_panics {E} (e : ConstExpr) (stack : list VMVal)
    (Hsup : forallb supported (ops e) = false) :
  eval (E:=E) stack e = Panic.
Proof. unfold eval. by rewrite eval_ops_unsupported. Qed.

Lemma eval_unsupported_panics_witness :
  check_ops (fun _ => Some T_I32) [] [GlobalGet 0] = Some [T_I32] /\
  eval (E:=unit) [] (mkConstExpr [GlobalGet 0]) = Panic.
Proof. split; [reflexivity|]. apply eval_unsupported_panics. reflexivity. Defined.

(** ** Conversion *)
Definition convertible (op : Operator) : bool :=
  match op with O_End | O_other _ => false | _ => true end.

(** The constant operator an operator stands for, when it is one. *)
Definition const_of (p : Operator * Z) : ConstOp :=
  match ok (op_from_wasmparser p.1 p.2) with Some c => c | None => RefNull end.

Definition ref_funcs (body : list (Operator * Z)) : list Z :=
  omap (fun p => match p.1 with O_RefFunc f => Some f | _ => None end) body.

Lemma convertible_ok op off :
  convertible op = true -> op_from_wasmparser op off = Ok (const_of (op, off)).
Proof. by destruct op. Qed.

(** One iteration of the loop with more input behind it. *)
Lemma loop_step op off rest ops esc :
  rest <> [] ->
  from_wasmparser_loop (inr (op, off) :: rest) ops esc =
  (cop ← op_from_wasmparser op off;
   from_wasmparser_loop rest (ops ++ [cop]) (esc ++ ref_funcs [(op, off)])).
Proof.
  intros Hr. destruct rest as [|r rest]; [done|].
  destruct op; cbn; rewrite ?app_nil_r; reflexivity.
Qed.

Lemma loop_body body tail ops esc :
  tail <> [] -> forallb (fun p => convertible p.1) body = true ->
  from_wasmparser_loop ((inr <$> body) ++ tail) ops esc =
  from_wasmparser_loop tail (ops ++ (const_of <$> body)) (esc ++ ref_funcs body).
Proof.
  intros Ht. revert ops esc; induction body as [|[op off] body IH]; intros ops esc H.
  - cbn. by rewrite !app_nil_r.
  - cbn [forallb fst] in H. apply andb_true_iff in H as [Hop Hb].
    rewrite fmap_cons, <- app_comm_cons, loop_step
      by (by destruct body).
    rewrite convertible_ok by done. cbn [mbind outcome_bind]. rewrite IH by done.
    rewrite fmap_cons, <- !app_assoc. cbn [app]. f_equal.
    unfold ref_funcs. cbn. by destruct op.
Qed.

(** A terminated operator stream of constant operators is converted
    operator by operator, and the reported escaping functions are exactly the
    operands of its [ref.func]s, in order. *)
Lemma from_wasmparser_complete body off
    (Hc : forallb (fun p => convertible p.1) body = true) :
  from_wasmparser ((inr <$> body) ++ [inr (O_End, off)]) =
  Ok (mkConstExpr (const_of <$> body), ref_funcs body).
Proof. unfold from_wasmparser. by rewrite loop_body. Qed.

(** The first operator that is not constant, an [end] with operators
    behind it included, aborts the conversion with its offset. *)
Lemma from_wasmparser_rejects body op off rest
    (Hc : forallb (fun p => convertible p.1) body = true) (Hop : convertible op = false)
    (Hend : op <> O_End \/ rest <> []) :
  from_wasmparser ((inr <$> body) ++ inr (op, off) :: rest) = Err (UnsupportedOpcode op off).
Proof.
  unfold from_wasmparser. rewrite loop_body by done.
  destruct op; try discriminate Hop.
  - destruct rest; [destruct Hend; done|]. done.
  - by destruct rest.
Qed.

Lemma from_wasmparser_rejects_witness :
  from_wasmparser [inr (O_I32Const 1, 0); inr (O_End, 2); inr (O_I32Const 1, 3)] =
  Err (UnsupportedOpcode O_End 2).
Proof.
  apply (from_wasmparser_rejects [(O_I32Const 1, 0)] O_End 2 [inr (O_I32Const 1, 3)]);
    [reflexivity|reflexivity|by right].
Defined.
