(* ===== verification/ModuleTranslator.v ===== *)
(** * The module translator ([src/src/translate/module_translator.rs])

    Turns the sections of a binary, as the parser hands them out, into a
    [TranslatedModule], the interned types and the function bodies.  The readers
    of the parser are lists of results.  Parser and validator are third-party:
    the validator is a function [validate] from its state and a payload, its
    type tables ([validator.types(0)]) a function [validator_types] of its state.
    A function body comes with its own validator.  The DWARF custom sections are
    read by code that is not modelled; it changes debug information only and is the
    parameter [other_custom]. *)
From stdpp Require Import base list gmap option strings numbers.
From S2P Require Import Prelude Types TypeTrace Module ModuleTypes VMVal ConstEval.
Local Open Scope Z_scope.

(** ** Field updates *)
Definition set_name (v : option string) (m : TranslatedModule) : TranslatedModule :=
  mkTranslatedModule v (types m) (functions m) (tables m) (memories m) (globals m) (start m)
    (imports m) (exports m) (global_initializers m) (table_initializers m) (memory_initializers m)
    (passive_table_initializers m) (passive_memory_initializers m) (active_table_initializers m)
    (active_memory_initializers m) (num_imported_functions m) (num_imported_tables m)
    (num_imported_memories m) (num_imported_globals m) (num_escaped_functions m).
Definition set_types (v : list Z) (m : TranslatedModule) : TranslatedModule :=
  mkTranslatedModule (name m) v (functions m) (tables m) (memories m) (globals m) (start m) (imports
    m) (exports m) (global_initializers m) (table_initializers m) (memory_initializers m)
    (passive_table_initializers m) (passive_memory_initializers m) (active_table_initializers m)
    (active_memory_initializers m) (num_imported_functions m) (num_imported_tables m)
    (num_imported_memories m) (num_imported_globals m) (num_escaped_functions m).
Definition set_functions (v : list FunctionDesc) (m : TranslatedModule) : TranslatedModule :=
  mkTranslatedModule (name m) (types m) v (tables m) (memories m) (globals m) (start m) (imports m)
    (exports m) (global_initializers m) (table_initializers m) (memory_initializers m)
    (passive_table_initializers m) (passive_memory_initializers m) (active_table_initializers m)
    (active_memory_initializers m) (num_imported_functions m) (num_imported_tables m)
    (num_imported_memories m) (num_imported_globals m) (num_escaped_functions m).
Definition set_tables (v : list TableDesc) (m : TranslatedModule) : TranslatedModule :=
  mkTranslatedModule (name m) (types m) (functions m) v (memories m) (globals m) (start m) (imports
    m) (exports m) (global_initializers m) (table_initializers m) (memory_initializers m)
    (passive_table_initializers m) (passive_memory_initializers m) (active_table_initializers m)
    (active_memory_initializers m) (num_imported_functions m) (num_imported_tables m)
    (num_imported_memories m) (num_imported_globals m) (num_escaped_functions m).
Definition set_memories (v : list MemoryDesc) (m : TranslatedModule) : TranslatedModule :=
  mkTranslatedModule (name m) (types m) (functions m) (tables m) v (globals m) (start m) (imports m)
    (exports m) (global_initializers m) (table_initializers m) (memory_initializers m)
    (passive_table_initializers m) (passive_memory_initializers m) (active_table_initializers m)
    (active_memory_initializers m) (num_imported_functions m) (num_imported_tables m)
    (num_imported_memories m) (num_imported_globals m) (num_escaped_functions m).
Definition set_globals (v : list GlobalDesc) (m : TranslatedModule) : TranslatedModule :=
  mkTranslatedModule (name m) (types m) (functions m) (tables m) (memories m) v (start m) (imports
    m) (exports m) (global_initializers m) (table_initializers m) (memory_initializers m)
    (passive_table_initializers m) (passive_memory_initializers m) (active_table_initializers m)
    (active_memory_initializers m) (num_imported_functions m) (num_imported_tables m)
    (num_imported_memories m) (num_imported_globals m) (num_escaped_functions m).
Definition set_start (v : option Z) (m : TranslatedModule) : TranslatedModule :=
  mkTranslatedModule (name m) (types m) (functions m) (tables m) (memories m) (globals m) v (imports
    m) (exports m) (global_initializers m) (table_initializers m) (memory_initializers m)
    (passive_table_initializers m) (passive_memory_initializers m) (active_table_initializers m)
    (active_memory_initializers m) (num_imported_functions m) (num_imported_tables m)
    (num_imported_memories m) (num_imported_globals m) (num_escaped_functions m).
Definition set_imports (v : list Import) (m : TranslatedModule) : TranslatedModule :=
  mkTranslatedModule (name m) (types m) (functions m) (tables m) (memories m) (globals m) (start m)
    v (exports m) (global_initializers m) (table_initializers m) (memory_initializers m)
    (passive_table_initializers m) (passive_memory_initializers m) (active_table_initializers m)
    (active_memory_initializers m) (num_imported_functions m) (num_imported_tables m)
    (num_imported_memories m) (num_imported_globals m) (num_escaped_functions m).
Definition set_exports (v : list (string * EntityIndex)) (m : TranslatedModule) : TranslatedModule :=
  mkTranslatedModule (name m) (types m) (functions m) (tables m) (memories m) (globals m) (start m)
    (imports m) v (global_initializers m) (table_initializers m) (memory_initializers m)
    (passive_table_initializers m) (passive_memory_initializers m) (active_table_initializers m)
    (active_memory_initializers m) (num_imported_functions m) (num_imported_tables m)
    (num_imported_memories m) (num_imported_globals m) (num_escaped_functions m).
Definition set_global_initializers (v : list ConstExpr) (m : TranslatedModule) : TranslatedModule :=
  mkTranslatedModule (name m) (types m) (functions m) (tables m) (memories m) (globals m) (start m)
    (imports m) (exports m) v (table_initializers m) (memory_initializers m)
    (passive_table_initializers m) (passive_memory_initializers m) (active_table_initializers m)
    (active_memory_initializers m) (num_imported_functions m) (num_imported_tables m)
    (num_imported_memories m) (num_imported_globals m) (num_escaped_functions m).
Definition set_table_initializers (v : TableInitializers) (m : TranslatedModule) : TranslatedModule :=
  mkTranslatedModule (name m) (types m) (functions m) (tables m) (memories m) (globals m) (start m)
    (imports m) (exports m) (global_initializers m) v (memory_initializers m)
    (passive_table_initializers m) (passive_memory_initializers m) (active_table_initializers m)
    (active_memory_initializers m) (num_imported_functions m) (num_imported_tables m)
    (num_imported_memories m) (num_imported_globals m) (num_escaped_functions m).
Definition set_memory_initializers (v : list MemoryInitializer) (m : TranslatedModule) : TranslatedModule :=
  mkTranslatedModule (name m) (types m) (functions m) (tables m) (memories m) (globals m) (start m)
    (imports m) (exports m) (global_initializers m) (table_initializers m) v
    (passive_table_initializers m) (passive_memory_initializers m) (active_table_initializers m)
    (active_memory_initializers m) (num_imported_functions m) (num_imported_tables m)
    (num_imported_memories m) (num_imported_globals m) (num_escaped_functions m).
Definition set_passive_table_initializers (v : gmap Z TableSegmentElements) (m : TranslatedModule) : TranslatedModule :=
  mkTranslatedModule (name m) (types m) (functions m) (tables m) (memories m) (globals m) (start m)
    (imports m) (exports m) (global_initializers m) (table_initializers m) (memory_initializers m) v
    (passive_memory_initializers m) (active_table_initializers m) (active_memory_initializers m)
    (num_imported_functions m) (num_imported_tables m) (num_imported_memories m)
    (num_imported_globals m) (num_escaped_functions m).
Definition set_passive_memory_initializers (v : gmap Z (list Z)) (m : TranslatedModule) : TranslatedModule :=
  mkTranslatedModule (name m) (types m) (functions m) (tables m) (memories m) (globals m) (start m)
    (imports m) (exports m) (global_initializers m) (table_initializers m) (memory_initializers m)
    (passive_table_initializers m) v (active_table_initializers m) (active_memory_initializers m)
    (num_imported_functions m) (num_imported_tables m) (num_imported_memories m)
    (num_imported_globals m) (num_escaped_functions m).
Definition set_active_table_initializers (v : gset Z) (m : TranslatedModule) : TranslatedModule :=
  mkTranslatedModule (name m) (types m) (functions m) (tables m) (memories m) (globals m) (start m)
    (imports m) (exports m) (global_initializers m) (table_initializers m) (memory_initializers m)
    (passive_table_initializers m) (passive_memory_initializers m) v (active_memory_initializers m)
    (num_imported_functions m) (num_imported_tables m) (num_imported_memories m)
    (num_imported_globals m) (num_escaped_functions m).
Definition set_active_memory_initializers (v : gset Z) (m : TranslatedModule) : TranslatedModule :=
  mkTranslatedModule (name m) (types m) (functions m) (tables m) (memories m) (globals m) (start m)
    (imports m) (exports m) (global_initializers m) (table_initializers m) (memory_initializers m)
    (passive_table_initializers m) (passive_memory_initializers m) (active_table_initializers m) v
    (num_imported_functions m) (num_imported_tables m) (num_imported_memories m)
    (num_imported_globals m) (num_escaped_functions m).
Definition set_num_imported_functions (v : Z) (m : TranslatedModule) : TranslatedModule :=
  mkTranslatedModule (name m) (types m) (functions m) (tables m) (memories m) (globals m) (start m)
    (imports m) (exports m) (global_initializers m) (table_initializers m) (memory_initializers m)
    (passive_table_initializers m) (passive_memory_initializers m) (active_table_initializers m)
    (active_memory_initializers m) v (num_imported_tables m) (num_imported_memories m)
    (num_imported_globals m) (num_escaped_functions m).
Definition set_num_imported_tables (v : Z) (m : TranslatedModule) : TranslatedModule :=
  mkTranslatedModule (name m) (types m) (functions m) (tables m) (memories m) (globals m) (start m)
    (imports m) (exports m) (global_initializers m) (table_initializers m) (memory_initializers m)
    (passive_table_initializers m) (passive_memory_initializers m) (active_table_initializers m)
    (active_memory_initializers m) (num_imported_functions m) v (num_imported_memories m)
    (num_imported_globals m) (num_escaped_functions m).
Definition set_num_imported_memories (v : Z) (m : TranslatedModule) : TranslatedModule :=
  mkTranslatedModule (name m) (types m) (functions m) (tables m) (memories m) (globals m) (start m)
    (imports m) (exports m) (global_initializers m) (table_initializers m) (memory_initializers m)
    (passive_table_initializers m) (passive_memory_initializers m) (active_table_initializers m)
    (active_memory_initializers m) (num_imported_functions m) (num_imported_tables m) v
    (num_imported_globals m) (num_escaped_functions m).
Definition set_num_imported_globals (v : Z) (m : TranslatedModule) : TranslatedModule :=
  mkTranslatedModule (name m) (types m) (functions m) (tables m) (memories m) (globals m) (start m)
    (imports m) (exports m) (global_initializers m) (table_initializers m) (memory_initializers m)
    (passive_table_initializers m) (passive_memory_initializers m) (active_table_initializers m)
    (active_memory_initializers m) (num_imported_functions m) (num_imported_tables m)
    (num_imported_memories m) v (num_escaped_functions m).
Definition set_num_escaped_functions (v : Z) (m : TranslatedModule) : TranslatedModule :=
  mkTranslatedModule (name m) (types m) (functions m) (tables m) (memories m) (globals m) (start m)
    (imports m) (exports m) (global_initializers m) (table_initializers m) (memory_initializers m)
    (passive_table_initializers m) (passive_memory_initializers m) (active_table_initializers m)
    (active_memory_initializers m) (num_imported_functions m) (num_imported_tables m)
    (num_imported_memories m) (num_imported_globals m) v.
(** ** Debug information ([Names], [Producers]) *)
Record Names : Type := mkNames {
  n_funcs : gmap Z string;
  n_locals : gmap Z (gmap Z string);
  n_globals : gmap Z string;
  n_data : gmap Z string;
  n_labels : gmap Z (gmap Z string);
  n_types : gmap Z string;
  n_tables : gmap Z string;
  n_memories : gmap Z string;
  n_elements : gmap Z string;
  n_fields : gmap Z (gmap Z string);
  n_tags : gmap Z string }.

Definition set_n_funcs (v : gmap Z string) (n : Names) : Names :=
  mkNames v (n_locals n) (n_globals n) (n_data n) (n_labels n) (n_types n) (n_tables n) (n_memories
    n) (n_elements n) (n_fields n) (n_tags n).
Definition set_n_locals (v : gmap Z (gmap Z string)) (n : Names) : Names :=
  mkNames (n_funcs n) v (n_globals n) (n_data n) (n_labels n) (n_types n) (n_tables n) (n_memories
    n) (n_elements n) (n_fields n) (n_tags n).
Definition set_n_globals (v : gmap Z string) (n : Names) : Names :=
  mkNames (n_funcs n) (n_locals n) v (n_data n) (n_labels n) (n_types n) (n_tables n) (n_memories n)
    (n_elements n) (n_fields n) (n_tags n).
Definition set_n_data (v : gmap Z string) (n : Names) : Names :=
  mkNames (n_funcs n) (n_locals n) (n_globals n) v (n_labels n) (n_types n) (n_tables n) (n_memories
    n) (n_elements n) (n_fields n) (n_tags n).
Definition set_n_labels (v : gmap Z (gmap Z string)) (n : Names) : Names :=
  mkNames (n_funcs n) (n_locals n) (n_globals n) (n_data n) v (n_types n) (n_tables n) (n_memories
    n) (n_elements n) (n_fields n) (n_tags n).
Definition set_n_types (v : gmap Z string) (n : Names) : Names :=
  mkNames (n_funcs n) (n_locals n) (n_globals n) (n_data n) (n_labels n) v (n_tables n) (n_memories
    n) (n_elements n) (n_fields n) (n_tags n).
Definition set_n_tables (v : gmap Z string) (n : Names) : Names :=
  mkNames (n_funcs n) (n_locals n) (n_globals n) (n_data n) (n_labels n) (n_types n) v (n_memories
    n) (n_elements n) (n_fields n) (n_tags n).
Definition set_n_memories (v : gmap Z string) (n : Names) : Names :=
  mkNames (n_funcs n) (n_locals n) (n_globals n) (n_data n) (n_labels n) (n_types n) (n_tables n) v
    (n_elements n) (n_fields n) (n_tags n).
Definition set_n_elements (v : gmap Z string) (n : Names) : Names :=
  mkNames (n_funcs n) (n_locals n) (n_globals n) (n_data n) (n_labels n) (n_types n) (n_tables n)
    (n_memories n) v (n_fields n) (n_tags n).
Definition set_n_fields (v : gmap Z (gmap Z string)) (n : Names) : Names :=
  mkNames (n_funcs n) (n_locals n) (n_globals n) (n_data n) (n_labels n) (n_types n) (n_tables n)
    (n_memories n) (n_elements n) v (n_tags n).
Definition set_n_tags (v : gmap Z string) (n : Names) : Names :=
  mkNames (n_funcs n) (n_locals n) (n_globals n) (n_data n) (n_labels n) (n_types n) (n_tables n)
    (n_memories n) (n_elements n) (n_fields n) v.
Definition default_names : Names := mkNames ∅ ∅ ∅ ∅ ∅ ∅ ∅ ∅ ∅ ∅ ∅.

Inductive ProducersLanguage : Type :=
| Lang_Wat | Lang_C | Lang_Cpp | Lang_Rust | Lang_JavaScript | Lang_Other (name : string).
Inductive ProducersTool : Type :=
| Tool_Wabt | Tool_Llvm | Tool_Clang | Tool_Lld | Tool_Binaryen | Tool_Rustc | Tool_WasmBindgen
| Tool_WasmPack | Tool_Webassemblyjs | Tool_WasmSnip | Tool_Javy | Tool_Other (name : string).
Inductive ProducersSdk : Type :=
| Sdk_Emscripten | Sdk_Webpack | Sdk_Other (name : string).

(** The fields are pairs of name and version. *)
Record Producers : Type := mkProducers {
  pr_language : list (ProducersLanguage * string);
  pr_processed_by : list (ProducersTool * string);
  pr_sdk : list (ProducersSdk * string) }.

(** [WasmFeatures]: the features that a module can require, as a set. *)
Inductive WasmFeature : Type :=
| THREADS | BULK_MEMORY | EXCEPTIONS | MULTI_VALUE | MUTABLE_GLOBAL | SATURATING_FLOAT_TO_INT | SIGN_EXTENSION | SIMD
| TAIL_CALL | REFERENCE_TYPES | GC | MEMORY64 | RELAXED_SIMD | EXTENDED_CONST | MULTI_MEMORY | SHARED_EVERYTHING_THREADS.
#[global] Instance WasmFeature_eq_dec : EqDecision WasmFeature.
Proof. solve_decision. Defined.
Definition WasmFeatures : Type := list WasmFeature.
Definition feature_insert (f : WasmFeature) (s : WasmFeatures) : WasmFeatures := if bool_decide (f ∈ s) then s else s ++ [f].

(** [ModuleTranslation], without DWARF. *)
Record ModuleTranslation (B : Type) : Type := mkTranslation {
  module : TranslatedModule;
  function_bodies : list B;
  names : Names;
  producers : Producers;
  code_section_offset : Z;
  required_features : WasmFeatures }.
Arguments mkTranslation {B}.
Arguments module {B}.
Arguments function_bodies {B}.
Arguments names {B}.
Arguments producers {B}.
Arguments code_section_offset {B}.
Arguments required_features {B}.

Definition translation_default {B} : ModuleTranslation B :=
  mkTranslation default_module [] default_names (mkProducers [] [] []) 0 [].

Definition on_module {B} (f : TranslatedModule -> TranslatedModule) (r : ModuleTranslation B) : ModuleTranslation B :=
  mkTranslation (f (module r)) (function_bodies r) (names r) (producers r) (code_section_offset r) (required_features r).
Definition on_names {B} (f : Names -> Names) (r : ModuleTranslation B) : ModuleTranslation B :=
  mkTranslation (module r) (function_bodies r) (f (names r)) (producers r) (code_section_offset r) (required_features r).
Definition on_producers {B} (f : Producers -> Producers) (r : ModuleTranslation B) : ModuleTranslation B :=
  mkTranslation (module r) (function_bodies r) (names r) (f (producers r)) (code_section_offset r) (required_features r).

(** ** What the parser delivers *)
Abbreviation reader A := (list (Error + A)).

(** [for item in reader { let item = item?; ... }]. *)
Definition for_each {S A} (f : S -> A -> outcome Error S) (items : reader A) (s : S) : outcome Error S :=
  foldM (fun s item => match item with inl e => Err e | inr x => f s x end) items s.

Definition const_expr : Type := list (ConstExprError + Operator * Z).

Record TableType : Type := mkTableType {
  tt_element_type : wasmparser.RefType; tt_table64 : bool; tt_initial : Z; tt_maximum : option Z; tt_shared : bool }.
Record MemoryType : Type := mkMemoryType {
  my_memory64 : bool; my_shared : bool; my_initial : Z; my_maximum : option Z; my_page_size_log2 : option Z }.
Record GlobalType : Type := mkGlobalType {
  gt_content_type : wasmparser.ValType; gt_mutable : bool; gt_shared : bool }.

Inductive TypeRef : Type :=
| TR_Func (index : Z)
| TR_Table (ty : TableType)
| TR_Memory (ty : MemoryType)
| TR_Global (ty : GlobalType)
| TR_Tag.

Record ImportItem : Type := mkImportItem { ii_module : string; ii_name : string; ii_ty : TypeRef }.

Inductive TableInit : Type := TI_RefNull | TI_Expr (e : const_expr).
Record TableItem : Type := mkTableItem { ti_ty : TableType; ti_init : TableInit }.
Record GlobalItem : Type := mkGlobalItem { gi_ty : GlobalType; gi_init_expr : const_expr }.

Inductive ExternalKind : Type := EK_Func | EK_Table | EK_Memory | EK_Global | EK_Tag.
Record ExportItem : Type := mkExportItem { ei_name : string; ei_kind : ExternalKind; ei_index : Z }.

Inductive ElementItems : Type :=
| EI_Functions (funcs : reader Z)
| EI_Expressions (exprs : reader const_expr).
Inductive ElementKind : Type :=
| EKd_Active (table_index : option Z) (offset_expr : const_expr)
| EKd_Passive
| EKd_Declared.
Record ElementItem : Type := mkElementItem { el_items : ElementItems; el_kind : ElementKind }.

Inductive DataKind : Type :=
| DK_Active (memory_index : Z) (offset_expr : const_expr)
| DK_Passive.
Record DataItem : Type := mkDataItem { da_kind : DataKind; da_data : list Z }.

Inductive Name : Type :=
| Name_Module (name : string)
| Name_Function (names : reader (Z * string))
| Name_Local (names : reader (Z * reader (Z * string)))
| Name_Global (names : reader (Z * string))
| Name_Data (names : reader (Z * string))
| Name_Type (names : reader (Z * string))
| Name_Label (names : reader (Z * reader (Z * string)))
| Name_Table (names : reader (Z * string))
| Name_Memory (names : reader (Z * string))
| Name_Element (names : reader (Z * string))
| Name_Field (names : reader (Z * reader (Z * string)))
| Name_Tag (names : reader (Z * string))
| Name_Unknown.

Record ProducersField : Type := mkProducersField {
  pf_name : string;
  pf_values : reader (string * string) }.

Inductive Payload (B C : Type) : Type :=
| Version
| TypeSection (count : Z)
| ImportSection (imports : reader ImportItem)
| FunctionSection (functions : reader Z)
| TableSection (tables : reader TableItem)
| MemorySection (memories : reader MemoryType)
| TagSection
| GlobalSection (globals : reader GlobalItem)
| ExportSection (exports : reader ExportItem)
| StartSection (func : Z)
| ElementSection (elements : reader ElementItem)
| DataCountSection
| DataSection (data : reader DataItem)
| CodeSectionStart (range_start : Z)
| CodeSectionEntry (body : B)
| NameSection (names : reader Name)
| ProducersSection (fields : Error + reader ProducersField)
| TargetFeaturesSection (entries : option (reader (Z * string)))
| OtherCustomSection (section : C)
| End_
| ComponentPayload
| UnknownPayload.
Arguments Version {B C}.
Arguments TypeSection {B C}.
Arguments ImportSection {B C}.
Arguments FunctionSection {B C}.
Arguments TableSection {B C}.
Arguments MemorySection {B C}.
Arguments TagSection {B C}.
Arguments GlobalSection {B C}.
Arguments ExportSection {B C}.
Arguments StartSection {B C}.
Arguments ElementSection {B C}.
Arguments DataCountSection {B C}.
Arguments DataSection {B C}.
Arguments CodeSectionStart {B C}.
Arguments CodeSectionEntry {B C}.
Arguments NameSection {B C}.
Arguments ProducersSection {B C}.
Arguments TargetFeaturesSection {B C}.
Arguments OtherCustomSection {B C}.
Arguments End_ {B C}.
Arguments ComponentPayload {B C}.
Arguments UnknownPayload {B C}.

(** The validator's type tables. *)
Record ValidatorTypes : Type := mkValidatorTypes {
  vt_types : wasmparser.TypesRef;
  core_type_at_in_module : Z -> option Z;
  rec_group_id_of : Z -> Z }.

(** ** Descriptors *)
Definition const_error (e : ConstExprError) : Error :=
  match e with
  | ReadError code => InvalidWebAssembly code
  | UnsupportedOpcode _ _ => Unsupported
  end.

(** [ConstExpr::from_wasmparser(&expr)?]. *)
Definition convert_expr (e : const_expr) : outcome Error (ConstExpr * list Z) :=
  match from_wasmparser e with
  | Ok r => Ok r
  | Err e => Err (const_error e)
  | Panic => Panic
  end.

(** [TableDesc::from_wasmparser], [MemoryDesc::from_wasmparser]. *)
Definition table_from_wasmparser (types : ModuleTypes) (mtypes : list Z) (ty : TableType) : outcome Error TableDesc :=
  element_type ← convert_ref_type types mtypes (tt_element_type ty);
  Ok (mkTableDesc element_type (tt_table64 ty) (tt_initial ty) (tt_maximum ty) (tt_shared ty)).

Definition DEFAULT_PAGE_SIZE_LOG2 : Z := 16.

Definition memory_from_wasmparser (ty : MemoryType) : outcome Error MemoryDesc :=
  page_size_log2 ← match my_page_size_log2 ty with
                   | None => Ok DEFAULT_PAGE_SIZE_LOG2
                   | Some log2 => unwrap (try_from 8 log2)
                   end;
  Ok (mkMemoryDesc (my_initial ty) (my_maximum ty) DEFAULT_OFFSET_GUARD_SIZE page_size_log2
        (my_memory64 ty) (my_shared ty)).

Definition global_from_wasmparser (types : ModuleTypes) (mtypes : list Z) (ty : GlobalType) : outcome Error GlobalDesc :=
  content_type ← convert_val_type types mtypes (gt_content_type ty);
  Ok (mkGlobalDesc content_type (gt_mutable ty) (gt_shared ty)).

(** [IndexMap::insert]: a key that is present keeps its place. *)
Fixpoint index_map_insert (k : string) (v : EntityIndex) (l : list (string * EntityIndex)) : list (string * EntityIndex) :=
  match l with
  | [] => [(k, v)]
  | (k', v') :: l => if bool_decide (k = k') then (k, v) :: l else (k', v') :: index_map_insert k v l
  end.

(** ** Sections *)
Section Translate.
Context {V B C : Type} (dbg : bool) (validator_types : V -> option ValidatorTypes)
  (validate : V -> Payload B C -> Error + V) (other_custom : C -> outcome Error unit).
Abbreviation Res := (ModuleTranslation B).

Definition flag_func_as_escaped (m : TranslatedModule) (func_index : Z) : outcome Error TranslatedModule :=
  ty ← pm_index (functions m) func_index;
  if is_escaping ty then Ok m
  else
    let index := num_escaped_functions m in
    _ ← debug_assert dbg (index <? reserved_value);
    n ← add 32 (num_escaped_functions m) 1;
    Ok (set_num_escaped_functions n
          (set_functions (pm_set (functions m) func_index (mkFunctionDesc (signature ty) index)) m)).

(** Convert an expression and flag the functions it refers to. *)
Definition convert_and_flag (m : TranslatedModule) (e : const_expr) : outcome Error (ConstExpr * TranslatedModule) :=
  r ← convert_expr e;
  m ← foldM flag_func_as_escaped r.2 m;
  Ok (r.1, m).

(** The loop of [translate_type_section]: the module's types, the builder and
    the index of the next group's first type. *)
Definition translate_group (types0 : option ValidatorTypes) (st : list Z * ModuleTypesBuilder * Z) : outcome Error (list Z * ModuleTypesBuilder * Z) :=
  let '(mtypes, b, type_index) := st in
  vt ← unwrap types0;
  core_type_id ← unwrap (core_type_at_in_module vt type_index);
  let rec_group_id := rec_group_id_of vt core_type_id in
  _ ← debug_assert dbg (bool_decide (head (wasmparser.rec_group_elements (vt_types vt) rec_group_id) = Some core_type_id));
  r ← intern_rec_group dbg b mtypes (vt_types vt) rec_group_id;
  elems ← rec_group_elements (b_types r.2) r.1;
  len ← unwrap (try_from 32 (pm_len elems));
  type_index ← add 32 type_index len;
  Ok (mtypes ++ elems, r.2, type_index).

Fixpoint translate_groups (types0 : option ValidatorTypes) (count : nat) (st : list Z * ModuleTypesBuilder * Z) : outcome Error (list Z * ModuleTypesBuilder * Z) :=
  match count with
  | O => Ok st
  | S count => st ← translate_group types0 st; translate_groups types0 count st
  end.

Definition translate_type_section (types0 : option ValidatorTypes) (count : Z) (m : TranslatedModule) (b : ModuleTypesBuilder)
  : outcome Error (TranslatedModule * ModuleTypesBuilder) :=
  st ← translate_groups types0 (Z.to_nat count) (types m, b, 0);
  let '(mtypes, b, _) := st in
  Ok (set_types mtypes m, b).

Definition translate_import (mt : ModuleTypes) (m : TranslatedModule) (import : ImportItem) : outcome Error TranslatedModule :=
  r ← match ii_ty import with
      | TR_Func signature =>
          n ← add 32 (num_imported_functions m) 1;
          interned_index ← pm_index (types m) signature;
          Ok (EntityType_Function (Module_ interned_index),
              set_functions (pm_push (functions m) (mkFunctionDesc signature reserved_value))
                (set_num_imported_functions n m))
      | TR_Table ty =>
          n ← add 32 (num_imported_tables m) 1;
          table ← table_from_wasmparser mt (types m) ty;
          Ok (EntityType_Table table, set_tables (pm_push (tables m) table) (set_num_imported_tables n m))
      | TR_Memory ty =>
          n ← add 32 (num_imported_memories m) 1;
          memory ← memory_from_wasmparser ty;
          Ok (EntityType_Memory memory, set_memories (pm_push (memories m) memory) (set_num_imported_memories n m))
      | TR_Global ty =>
          n ← add 32 (num_imported_globals m) 1;
          global ← global_from_wasmparser mt (types m) ty;
          Ok (EntityType_Global global, set_globals (pm_push (globals m) global) (set_num_imported_globals n m))
      | TR_Tag => Panic
      end;
  Ok (set_imports (imports r.2 ++ [mkImport (ii_module import) (ii_name import) r.1]) r.2).

Definition translate_import_section (mt : ModuleTypes) (imports : reader ImportItem) (m : TranslatedModule) : outcome Error TranslatedModule :=
  for_each (translate_import mt) imports m.

Definition translate_function_section (functions_ : reader Z) (m : TranslatedModule) : outcome Error TranslatedModule :=
  for_each (fun m index => Ok (set_functions (pm_push (functions m) (mkFunctionDesc index reserved_value)) m)) functions_ m.

Definition translate_table (mt : ModuleTypes) (m : TranslatedModule) (table : TableItem) : outcome Error TranslatedModule :=
  plan ← table_from_wasmparser mt (types m) (ti_ty table);
  let m := set_tables (pm_push (tables m) plan) m in
  r ← match ti_init table with
      | TI_RefNull => Ok (TableInitialValue_RefNull, m)
      | TI_Expr expr => r ← convert_and_flag m expr; Ok (TableInitialValue_ConstExpr r.1, r.2)
      end;
  let ti := table_initializers r.2 in
  Ok (set_table_initializers (mkTableInitializers (pm_push (initial_values ti) r.1) (segments ti)) r.2).

Definition translate_table_section (mt : ModuleTypes) (tables_ : reader TableItem) (m : TranslatedModule) : outcome Error TranslatedModule :=
  for_each (translate_table mt) tables_ m.

Definition translate_memory_section (memories_ : reader MemoryType) (m : TranslatedModule) : outcome Error TranslatedModule :=
  for_each (fun m ty => memory ← memory_from_wasmparser ty; Ok (set_memories (pm_push (memories m) memory) m)) memories_ m.

Definition parse_tag_section : outcome Error TranslatedModule := Err Unsupported.

Definition translate_global (mt : ModuleTypes) (m : TranslatedModule) (global : GlobalItem) : outcome Error TranslatedModule :=
  desc ← global_from_wasmparser mt (types m) (gi_ty global);
  let m := set_globals (pm_push (globals m) desc) m in
  r ← convert_and_flag m (gi_init_expr global);
  Ok (set_global_initializers (pm_push (global_initializers r.2) r.1) r.2).

Definition translate_global_section (mt : ModuleTypes) (globals_ : reader GlobalItem) (m : TranslatedModule) : outcome Error TranslatedModule :=
  for_each (translate_global mt) globals_ m.

Definition translate_export (r : Res) (export : ExportItem) : outcome Error Res :=
  let i := ei_index export in
  p ← match ei_kind export with
      | EK_Func =>
          m ← flag_func_as_escaped (module r) i;
          Ok (Ent_Function i, on_names (fun n => set_n_funcs (<[i := ei_name export]> (n_funcs n)) n) (on_module (fun _ => m) r))
      | EK_Table => Ok (Ent_Table i, on_names (fun n => set_n_tables (<[i := ei_name export]> (n_tables n)) n) r)
      | EK_Memory => Ok (Ent_Memory i, on_names (fun n => set_n_memories (<[i := ei_name export]> (n_memories n)) n) r)
      | EK_Tag => Ok (Ent_Tag i, on_names (fun n => set_n_tags (<[i := ei_name export]> (n_tags n)) n) r)
      | EK_Global => Ok (Ent_Global i, on_names (fun n => set_n_globals (<[i := ei_name export]> (n_globals n)) n) r)
      end;
  Ok (on_module (fun m => set_exports (index_map_insert (ei_name export) p.1 (exports m)) m) p.2).

Definition translate_export_section (exports_ : reader ExportItem) (r : Res) : outcome Error Res :=
  for_each translate_export exports_ r.

(** The items of an element segment. *)
Definition translate_elements (m : TranslatedModule) (items : ElementItems) : outcome Error (TableSegmentElements * TranslatedModule) :=
  match items with
  | EI_Functions funcs =>
      out ← for_each (fun out func_idx => Ok (out ++ [func_idx])) funcs [];
      Ok (TSE_Functions out, m)
  | EI_Expressions exprs =>
      r ← for_each (fun st expr => r ← convert_and_flag st.2 expr; Ok (st.1 ++ [r.1], r.2)) exprs ([], m);
      Ok (TSE_Expressions r.1, r.2)
  end.

(** One segment, with its position in the section. *)
Definition translate_element (st : TranslatedModule * Z) (element : ElementItem) : outcome Error (TranslatedModule * Z) :=
  let '(m, i) := st in
  elem_index ← unwrap (try_from 32 i);
  r ← translate_elements m (el_items element);
  let m := r.2 in
  m ← match el_kind element with
      | EKd_Active table_index offset_expr =>
          o ← convert_expr offset_expr;
          _ ← debug_assert dbg (bool_decide (o.2 = []));
          let ti := table_initializers m in
          Ok (set_active_table_initializers ({[ elem_index ]} ∪ active_table_initializers m)
                (set_table_initializers
                   (mkTableInitializers (initial_values ti)
                      (segments ti ++ [mkTableSegment (default 0 table_index) o.1 r.1])) m))
      | EKd_Passive => Ok (set_passive_table_initializers (<[elem_index := r.1]> (passive_table_initializers m)) m)
      | EKd_Declared => Ok m
      end;
  Ok (m, i + 1).

Definition translate_element_section (elements : reader ElementItem) (m : TranslatedModule) : outcome Error TranslatedModule :=
  r ← for_each translate_element elements (m, 0); Ok r.1.

Definition translate_data (st : TranslatedModule * Z) (entry : DataItem) : outcome Error (TranslatedModule * Z) :=
  let '(m, i) := st in
  data_index ← unwrap (try_from 32 i);
  m ← match da_kind entry with
      | DK_Active memory_index offset_expr =>
          o ← convert_expr offset_expr;
          _ ← debug_assert dbg (bool_decide (o.2 = []));
          Ok (set_active_memory_initializers ({[ data_index ]} ∪ active_memory_initializers m)
                (set_memory_initializers
                   (memory_initializers m ++ [mkMemoryInitializer memory_index o.1 (da_data entry)]) m))
      | DK_Passive => Ok (set_passive_memory_initializers (<[data_index := da_data entry]> (passive_memory_initializers m)) m)
      end;
  Ok (m, i + 1).

Definition translate_data_section (data : reader DataItem) (m : TranslatedModule) : outcome Error TranslatedModule :=
  r ← for_each translate_data data (m, 0); Ok r.1.

(** *** Custom sections *)

(** [for_each_direct_name] and [for_each_indirect_name]. *)
Definition direct_names (keep : Z -> outcome Error bool) (l : reader (Z * string)) (m : gmap Z string)
  : outcome Error (gmap Z string) :=
  for_each (fun m p => k ← keep p.1; Ok (if k : bool then <[p.1 := p.2]> m else m)) l m.

Definition indirect_names (keep_inner keep : Z -> outcome Error bool) (l : reader (Z * reader (Z * string)))
    (m : gmap Z (gmap Z string)) : outcome Error (gmap Z (gmap Z string)) :=
  for_each (fun m p =>
    result ← direct_names keep_inner p.2 ∅;
    k ← keep p.1; Ok (if k : bool then <[p.1 := result]> m else m)) l m.

Definition any_index (_ : Z) : outcome Error bool := Ok true.

Definition translate_name (r : Res) (n : Name) : outcome Error Res :=
  let in_range idx := num ← num_functions (module r); Ok (idx <? num) in
  let nm := names r in
  match n with
  | Name_Module name => Ok (on_module (set_name (Some name)) r)
  | Name_Function l => x ← direct_names in_range l (n_funcs nm); Ok (on_names (set_n_funcs x) r)
  | Name_Local l => x ← indirect_names any_index in_range l (n_locals nm); Ok (on_names (set_n_locals x) r)
  | Name_Global l => x ← direct_names any_index l (n_globals nm); Ok (on_names (set_n_globals x) r)
  | Name_Data l => x ← direct_names any_index l (n_data nm); Ok (on_names (set_n_data x) r)
  | Name_Type l => x ← direct_names any_index l (n_types nm); Ok (on_names (set_n_types x) r)
  | Name_Label l => x ← indirect_names any_index in_range l (n_labels nm); Ok (on_names (set_n_labels x) r)
  | Name_Table l => x ← direct_names any_index l (n_tables nm); Ok (on_names (set_n_tables x) r)
  | Name_Memory l => x ← direct_names any_index l (n_memories nm); Ok (on_names (set_n_memories x) r)
  | Name_Element l => x ← direct_names any_index l (n_elements nm); Ok (on_names (set_n_elements x) r)
  | Name_Field l => x ← indirect_names in_range any_index l (n_fields nm); Ok (on_names (set_n_fields x) r)
  | Name_Tag l => x ← direct_names any_index l (n_tags nm); Ok (on_names (set_n_tags x) r)
  | Name_Unknown => Ok r
  end.

Definition translate_name_section (l : reader Name) (r : Res) : outcome Error Res := for_each translate_name l r.

Definition language_of (name : string) : ProducersLanguage :=
  if bool_decide (name = "wat") then Lang_Wat else if bool_decide (name = "C") then Lang_C
  else if bool_decide (name = "C++") then Lang_Cpp else if bool_decide (name = "Rust") then Lang_Rust
  else if bool_decide (name = "JavaScript") then Lang_JavaScript else Lang_Other name.

Definition tool_of (name : string) : ProducersTool :=
  if bool_decide (name = "wabt") then Tool_Wabt else if bool_decide (name = "LLVM") then Tool_Llvm
  else if bool_decide (name = "clang") then Tool_Clang else if bool_decide (name = "lld") then Tool_Lld
  else if bool_decide (name = "Binaryen") then Tool_Binaryen else if bool_decide (name = "rustc") then Tool_Rustc
  else if bool_decide (name = "wasm-bindgen") then Tool_WasmBindgen else if bool_decide (name = "wasm-pack") then Tool_WasmPack
  else if bool_decide (name = "webassemblyjs") then Tool_Webassemblyjs else if bool_decide (name = "wasm-snip") then Tool_WasmSnip
  else if bool_decide (name = "Javy") then Tool_Javy else Tool_Other name.

Definition sdk_of (name : string) : ProducersSdk :=
  if bool_decide (name = "Emscripten") then Sdk_Emscripten
  else if bool_decide (name = "Webpack") then Sdk_Webpack else Sdk_Other name.

Definition translate_producers_field (r : Res) (field : ProducersField) : outcome Error Res :=
  if bool_decide (pf_name field = "language") then
    for_each (fun r p => Ok (on_producers (fun x => mkProducers (pr_language x ++ [(language_of p.1, p.2)]) (pr_processed_by x) (pr_sdk x)) r))
      (pf_values field) r
  else if bool_decide (pf_name field = "processed-by") then
    for_each (fun r p => Ok (on_producers (fun x => mkProducers (pr_language x) (pr_processed_by x ++ [(tool_of p.1, p.2)]) (pr_sdk x)) r))
      (pf_values field) r
  else if bool_decide (pf_name field = "sdk") then
    for_each (fun r p => Ok (on_producers (fun x => mkProducers (pr_language x) (pr_processed_by x) (pr_sdk x ++ [(sdk_of p.1, p.2)])) r))
      (pf_values field) r
  else Panic.

Definition translate_producers_section (fields : reader ProducersField) (r : Res) : outcome Error Res :=
  for_each translate_producers_field fields r.

(** The feature that a name of the section stands for; other names are ignored. *)
Definition feature_of (name : string) : option WasmFeature :=
  if bool_decide (name = "atomics") then Some THREADS
  else if bool_decide (name = "bulk-memory") then Some BULK_MEMORY
  else if bool_decide (name = "exception-handling") then Some EXCEPTIONS
  else if bool_decide (name = "multivalue") then Some MULTI_VALUE
  else if bool_decide (name = "mutable-globals") then Some MUTABLE_GLOBAL
  else if bool_decide (name = "nontrapping-fptoint") then Some SATURATING_FLOAT_TO_INT
  else if bool_decide (name = "sign-ext") then Some SIGN_EXTENSION
  else if bool_decide (name = "simd128") then Some SIMD
  else if bool_decide (name = "tail-call") then Some TAIL_CALL
  else if bool_decide (name = "reference-types") then Some REFERENCE_TYPES
  else if bool_decide (name = "gc") then Some GC
  else if bool_decide (name = "memory64") then Some MEMORY64
  else if bool_decide (name = "relaxed-simd") then Some RELAXED_SIMD
  else if bool_decide (name = "extended-const") then Some EXTENDED_CONST
  else if bool_decide (name = "multimemory") then Some MULTI_MEMORY
  else if bool_decide (name = "shared-everything") then Some SHARED_EVERYTHING_THREADS
  else None.

(** [parse_target_feature_section]: prefix and name of each entry ([None] when
    even the count is missing); whatever cannot be read panics, and so does a
    prefix other than [+]. *)
Definition parse_target_feature_section (entries : option (reader (Z * string))) (r : Res) : outcome Error Res :=
  entries ← unwrap entries;
  required_features ← foldM (fun features item =>
    match item with
    | inl _ => Panic
    | inr (prefix, feature) =>
        _ ← assert_ (prefix =? 43);
        Ok (match feature_of feature with Some f => feature_insert f features | None => features end)
    end) entries [];
  Ok (mkTranslation (module r) (function_bodies r) (names r) (producers r) (code_section_offset r) required_features).

(** ** Payloads *)
Record ModuleTranslator : Type := mkTranslator {
  result : Res;
  validator : V;
  tr_types : ModuleTypesBuilder }.

Definition translator_new (v : V) (id : Z) : ModuleTranslator := mkTranslator translation_default v (builder_new id).

Definition set_result (s : ModuleTranslator) (r : Res) : ModuleTranslator := mkTranslator r (validator s) (tr_types s).

(** A handler that only touches the module. *)
Definition with_module (s : ModuleTranslator) (f : TranslatedModule -> outcome Error TranslatedModule) : outcome Error ModuleTranslator :=
  m ← f (module (result s)); Ok (set_result s (on_module (fun _ => m) (result s))).

Definition handle_payload (s : ModuleTranslator) (p : Payload B C) : outcome Error ModuleTranslator :=
  let r := result s in
  match p with
  | Version | DataCountSection | End_ | UnknownPayload => Ok s
  | TypeSection count =>
      x ← translate_type_section (validator_types (validator s)) count (module r) (tr_types s);
      Ok (mkTranslator (on_module (fun _ => x.1) r) (validator s) x.2)
  | ImportSection l => with_module s (translate_import_section (b_types (tr_types s)) l)
  | FunctionSection l => with_module s (translate_function_section l)
  | TableSection l => with_module s (translate_table_section (b_types (tr_types s)) l)
  | MemorySection l => with_module s (translate_memory_section l)
  | TagSection => with_module s (fun _ => parse_tag_section)
  | GlobalSection l => with_module s (translate_global_section (b_types (tr_types s)) l)
  | ExportSection l => x ← translate_export_section l r; Ok (set_result s x)
  | StartSection func => with_module s (fun m => Ok (set_start (Some func) m))
  | ElementSection l => with_module s (translate_element_section l)
  | DataSection l => with_module s (translate_data_section l)
  | CodeSectionStart range_start =>
      Ok (set_result s (mkTranslation (module r) (function_bodies r) (names r) (producers r) range_start (required_features r)))
  | CodeSectionEntry body =>
      Ok (set_result s (mkTranslation (module r) (function_bodies r ++ [body]) (names r) (producers r) (code_section_offset r) (required_features r)))
  | NameSection l => x ← translate_name_section l r; Ok (set_result s x)
  | ProducersSection (inl e) => Err e
  | ProducersSection (inr l) => x ← translate_producers_section l r; Ok (set_result s x)
  | TargetFeaturesSection l => x ← parse_target_feature_section l r; Ok (set_result s x)
  | OtherCustomSection c => _ ← other_custom c; Ok s
  | ComponentPayload => Err Unsupported
  end.

(** Custom sections, the component model and unknown payloads do not go through
    the validator. *)
Definition unvalidated (p : Payload B C) : bool :=
  match p with
  | NameSection _ | ProducersSection _ | TargetFeaturesSection _ | OtherCustomSection _ | ComponentPayload | UnknownPayload => true
  | _ => false
  end.

Definition translate_payload (s : ModuleTranslator) (p : Payload B C) : outcome Error ModuleTranslator :=
  if unvalidated p then handle_payload s p
  else
    match validate (validator s) p with
    | inl e => Err e
    | inr v => handle_payload (mkTranslator (result s) v (tr_types s)) p
    end.

Definition translate (s : ModuleTranslator) (payloads : reader (Payload B C)) : outcome Error (Res * ModuleTypes) :=
  s ← for_each translate_payload payloads s;
  let m := module (result s) in
  _ ← (if dbg then
         nt ← num_tables m; _ ← assert_ (num_imported_tables m <=? nt);
         nm ← num_memories m; _ ← assert_ (num_imported_memories m <=? nm);
         ng ← num_globals m; assert_ (num_imported_globals m <=? ng)
       else Ok tt);
  Ok (result s, finish (tr_types s)).
End Translate.
