(* ===== verification/ModuleTranslatorTypes.v ===== *)
(** * The type section

    What the type section of a module becomes: the module's type index space
    mirrors the validator's, every interned type is the conversion of the
    validator type with that id, and its references lead to what the
    validator's references name. *)
From stdpp Require Import base list gmap option numbers.
From S2P Require Import Prelude Types TypeTrace Module ModuleTypes VMVal ConstEval ModuleTranslator.
Local Open Scope Z_scope.

(** What the translator relies on: the type index space of a module is the
    concatenation of its recursion groups (a group may occur twice, ids are
    canonical), and a type belongs to exactly one group. *)
Record validator_types_ok (vt : ValidatorTypes) (groups : list Z) : Prop := {
  vo_space : forall i, core_type_at_in_module vt i = pm_get (groups ≫= wasmparser.rec_group_elements (vt_types vt)) i;
  vo_nonempty : forall g, wasmparser.rec_group_elements (vt_types vt) g <> [];
  vo_nodup : forall g, NoDup (wasmparser.rec_group_elements (vt_types vt) g);
  vo_group : forall g id, id ∈ wasmparser.rec_group_elements (vt_types vt) g -> rec_group_id_of vt id = g }.

(** [id] is interned at [t]. *)
Definition interned_at (b : ModuleTypesBuilder) (id t : Z) : Prop := seen_types (b_types b) !! id = Some t.

(** State of the loop over the groups. *)
Record space_inv (vt : ValidatorTypes) (b : ModuleTypesBuilder) (mtypes : list Z) : Prop := {
  sp_builder : builder_inv b;
  sp_types : Forall (fun i => 0 <= i < len_wasm_types (b_types b)) mtypes;
  sp_closed : forall id t, interned_at b id t -> is_Some (seen_rec_groups b !! rec_group_id_of vt id);
  sp_stored : forall id t, interned_at b id t -> exists ty, get_wasm_type (b_types b) t = Some ty /\
    converted (seen_types (b_types b)) mtypes (wasm_types (b_types b)) (vt_types vt) id ty;
  sp_group : forall g i, seen_rec_groups b !! g = Some i -> exists r, pm_get (rec_groups (b_types b)) i = Some r /\
    Forall2 (interned_at b) (wasmparser.rec_group_elements (vt_types vt) g) (entity_range r) }.

Lemma reserved_weaken n elems seen :
  (forall id, id ∈ elems -> seen !! id = None) -> seen ⊆ reserved n elems seen.
Proof.
  intros Hf. apply map_subseteq_spec. intros id t Hid. rewrite reserved_other; [done|].
  intros Hin. by rewrite (Hf id Hin) in Hid.
Qed.

(** The indices of a freshly interned group. *)
Lemma reserved_range n elems seen : 0 <= n -> NoDup elems ->
  Forall2 (fun id t => reserved n elems seen !! id = Some t) elems (entity_range (n, n + pm_len elems)).
Proof.
  intros Hn Hnd. apply Forall2_same_length_lookup_2.
  - unfold entity_range, pm_len. cbn. rewrite length_seqZ. lia.
  - intros k id t Hid Ht. rewrite (reserved_elem _ _ _ k id) by done. unfold entity_range in Ht. cbn in Ht.
    apply lookup_seqZ in Ht as [-> _]. done.
Qed.

Lemma get_wasm_type_app l l' gs gs' seen seen' t ty :
  get_wasm_type (mkModuleTypes l gs seen) t = Some ty -> get_wasm_type (mkModuleTypes (l ++ l') gs' seen') t = Some ty.
Proof. unfold get_wasm_type, pm_get. cbn. destruct (0 <=? t); [|done]. apply lookup_app_l_Some. Qed.

(** Interning a group that is new. *)
Lemma space_inv_interned vt groups b mtypes g tys (elems := wasmparser.rec_group_elements (vt_types vt) g) :
  validator_types_ok vt groups -> space_inv vt b mtypes -> seen_rec_groups b !! g = None ->
  Forall2 (converted (reserved (len_wasm_types (b_types b)) elems (seen_types (b_types b))) mtypes
    (wasm_types (b_types b) ++ tys) (vt_types vt)) elems tys ->
  space_inv vt (interned b g elems tys) mtypes.
Proof.
  intros [Hsp Hne Hnd Hgr] [Hb Ht Hc Hs Hg] Hnew Hconv. set (n := len_wasm_types (b_types b)) in *.
  assert (Hn : 0 <= n) by (unfold n, len_wasm_types, pm_len; lia).
  assert (Hfresh : forall id, id ∈ elems -> seen_types (b_types b) !! id = None).
  { intros id Hin. destruct (seen_types (b_types b) !! id) as [t|] eqn:He; [|done].
    destruct (Hc id t He) as [x Hx]. rewrite (Hgr g id Hin) in Hx. congruence. }
  pose proof (reserved_weaken n elems _ Hfresh) as Hsub. pose proof (Forall2_length Hconv) as Hlen.
  split.
  - eapply interned_inv; eauto. 
  - eapply list.Forall_impl; [exact Ht|]. cbn. intros i Hi. unfold len_wasm_types, pm_len in *. cbn. rewrite length_app. unfold n, len_wasm_types, pm_len in Hi. lia.
  - unfold interned_at. cbn. intros id t Hid. destruct (decide (id ∈ elems)) as [Hin|Hin].
    + rewrite (Hgr g id Hin), lookup_insert_eq. by eexists.
    + rewrite reserved_other in Hid by done. destruct (Hc id t Hid) as [x Hx].
      destruct (decide (g = rec_group_id_of vt id)) as [->|Hx']; [rewrite lookup_insert_eq; by eexists|].
      rewrite lookup_insert_ne by done. by exists x.
  - unfold interned_at. cbn. intros id t Hid. destruct (decide (id ∈ elems)) as [Hin|Hin].
    + apply list_elem_of_lookup_1 in Hin as [k Hk]. rewrite (reserved_elem _ _ _ k id) in Hid by (done || apply Hnd).
      injection Hid as <-. destruct (Forall2_lookup_l _ _ _ _ _ Hconv Hk) as (ty & Hty & Hcv). exists ty. split; [|done].
      unfold get_wasm_type, pm_get. cbn. rewrite (proj2 (Z.leb_le _ _)) by lia.
      rewrite lookup_app_r by (unfold n, len_wasm_types, pm_len; lia).
      rewrite <- Hty. f_equal. unfold n, len_wasm_types, pm_len. lia.
    + rewrite reserved_other in Hid by done. destruct (Hs id t Hid) as (ty & Hty & Hcv). exists ty.
      split; [|by eapply converted_mono; [done| |by eexists|exact Hcv]]. destruct (b_types b). by eapply get_wasm_type_app.
  - unfold interned_at. cbn. intros g' i [[<- <-]|[Hne' Hi]]%lookup_insert_Some.
    + exists (n, n + pm_len elems). split; [apply pm_get_push_new|]. apply reserved_range; [done|apply Hnd].
    + destruct (Hg g' i Hi) as (r & Hr & Hf). exists r. split; [by apply pm_get_push_old|].
      eapply list.Forall2_impl; [exact Hf|]. intros id t Hid. by eapply lookup_weaken.
Qed.

(** ** One group *)

(** The groups [done] have been translated; [k] is the next type index. *)
Record loop_inv (vt : ValidatorTypes) (done : list Z) (mtypes : list Z) (b : ModuleTypesBuilder) (k : Z) : Prop := {
  li_space : space_inv vt b mtypes;
  li_index : k = pm_len mtypes;
  li_map : Forall2 (interned_at b) (done ≫= wasmparser.rec_group_elements (vt_types vt)) mtypes }.

(** What interning [g] next requires: it is known, or its types can be converted. *)
Definition ready (vt : ValidatorTypes) (b : ModuleTypesBuilder) (mtypes : list Z) (g : Z) : bool :=
  let elems := wasmparser.rec_group_elements (vt_types vt) g in
  match seen_rec_groups b !! g with
  | Some _ => true
  | None => all_convertible (reserved (len_wasm_types (b_types b)) elems (seen_types (b_types b))) mtypes (vt_types vt)
              (len_wasm_types (b_types b)) elems
  end.

Definition seen_subset (b b' : ModuleTypesBuilder) : Prop := seen_types (b_types b) ⊆ seen_types (b_types b').

Lemma intern_ready vt groups b mtypes g dbg :
  validator_types_ok vt groups -> space_inv vt b mtypes -> wasmparser.types_id (vt_types vt) = validator_id b ->
  if ready vt b mtypes g
  then exists i b' r, intern_rec_group (E:=Error) dbg b mtypes (vt_types vt) g = Ok (i, b') /\ space_inv vt b' mtypes /\
    seen_subset b b' /\ validator_id b' = validator_id b /\ len_wasm_types (b_types b) <= len_wasm_types (b_types b') /\
    rec_group_elements (E:=Error) (b_types b') i = Ok (entity_range r) /\
    Forall2 (interned_at b') (wasmparser.rec_group_elements (vt_types vt) g) (entity_range r)
  else intern_rec_group (E:=Error) dbg b mtypes (vt_types vt) g = Panic.
Proof.
  intros Hvt Hsp Hid. unfold intern_rec_group, ready. rewrite Hid, Z.eqb_refl. cbn [assert_ mbind outcome_bind].
  destruct (seen_rec_groups b !! g) as [i|] eqn:Hg.
  - destruct (sp_group _ _ _ Hsp g i Hg) as (r & Hr & Hf). exists i, b, r. split; [done|]. split; [done|]. split; [by unfold seen_subset|].
    split; [done|]. split; [lia|]. split; [|done]. unfold rec_group_elements, pm_index. by rewrite Hr.
  - pose proof (define_new_rec_group_spec (E:=Error) dbg b mtypes (vt_types vt) g (bi_idle _ (sp_builder _ _ _ Hsp)) Hid
      (vo_nonempty _ _ Hvt g) (vo_nodup _ _ Hvt g)) as Hd. cbv zeta in Hd.
    assert (Hfresh : forall id, id ∈ wasmparser.rec_group_elements (vt_types vt) g -> seen_types (b_types b) !! id = None).
    { intros id Hin. destruct (seen_types (b_types b) !! id) as [t|] eqn:He; [|done].
      destruct (sp_closed _ _ _ Hsp id t He) as [x Hx]. rewrite (vo_group _ _ Hvt g id Hin) in Hx. congruence. }
    specialize (Hd Hfresh). destruct (all_convertible _ _ _ _ _); [|exact Hd]. destruct Hd as (tys & Hd & Ht).
    pose proof (space_inv_interned vt groups b mtypes g tys Hvt Hsp Hg Ht) as Hsp'.
    destruct (sp_group _ _ _ Hsp' g (pm_len (rec_groups (b_types b)))) as (r & Hr & Hf); [cbn; by rewrite lookup_insert_eq|].
    eexists _, _, r. split; [exact Hd|]. split; [exact Hsp'|]. split; [by apply reserved_weaken|]. split; [done|].
    split; [unfold len_wasm_types, pm_len; cbn; rewrite length_app; lia|]. split; [|exact Hf].
    unfold rec_group_elements, pm_index. by rewrite Hr.
Qed.

(** Making the elements of a group part of the index space. *)
Lemma space_inv_extend vt b mtypes l : space_inv vt b mtypes -> Forall (fun i => 0 <= i < len_wasm_types (b_types b)) l ->
  space_inv vt b (mtypes ++ l).
Proof.
  intros [Hb Ht Hc Hs Hg] Hl. split; [done|by apply list.Forall_app|done| |done].
  intros id t Hid. destruct (Hs id t Hid) as (ty & Hty & Hcv). exists ty. split; [done|].
  eapply converted_mono; [reflexivity| |reflexivity|exact Hcv]. by exists l.
Qed.

Lemma interned_at_bound b l r : builder_inv b -> Forall2 (interned_at b) l r ->
  Forall (fun i => 0 <= i < len_wasm_types (b_types b)) r.
Proof.
  intros Hb Hf. eapply Forall2_Forall_r; [exact Hf|]. apply list.Forall_forall. intros id _ t Hid. by eapply (bi_seen _ Hb).
Qed.

Lemma next_group vt groups done rest mtypes b k id :
  validator_types_ok vt groups -> groups = done ++ rest -> loop_inv vt done mtypes b k ->
  core_type_at_in_module vt k = Some id ->
  exists g rest', rest = g :: rest' /\ head (wasmparser.rec_group_elements (vt_types vt) g) = Some id /\ rec_group_id_of vt id = g.
Proof.
  intros Hvt -> [_ -> Hm] Hid. rewrite (vo_space _ _ Hvt) in Hid. apply Forall2_length in Hm.
  unfold pm_get, pm_len in Hid. rewrite (proj2 (Z.leb_le _ _)), Nat2Z.id, bind_app, <- Hm in Hid by lia.
  rewrite lookup_app_r, Nat.sub_diag in Hid by lia. destruct rest as [|g rest]; [done|]. exists g, rest. split; [done|].
  cbn in Hid. pose proof (vo_nonempty _ _ Hvt g). pose proof (vo_group _ _ Hvt g) as Hgr.
  destruct (wasmparser.rec_group_elements (vt_types vt) g) as [|x l]; [done|]. injection Hid as ->.
  split; [done|]. apply Hgr. by left.
Qed.

Lemma next_exists vt groups done g rest mtypes b k :
  validator_types_ok vt groups -> groups = done ++ g :: rest -> loop_inv vt done mtypes b k ->
  exists id, core_type_at_in_module vt k = Some id.
Proof.
  intros Hvt -> [_ -> Hm]. rewrite (vo_space _ _ Hvt). apply pm_get_is_Some. apply Forall2_length in Hm.
  unfold pm_len. rewrite bind_app, length_app, <- Hm. cbn. rewrite length_app. pose proof (vo_nonempty _ _ Hvt g).
  destruct (wasmparser.rec_group_elements (vt_types vt) g); [done|]. cbn. lia.
Qed.

Definition elems_len (vt : ValidatorTypes) (g : Z) : Z := pm_len (wasmparser.rec_group_elements (vt_types vt) g).

(** Advancing the type index. *)
Definition advance (k n : Z) : outcome Error Z := len ← unwrap (try_from 32 n); add 32 k len.

Lemma advance_ok k n k' : 0 <= k -> 0 <= n -> advance k n = Ok k' <-> k' = k + n /\ k + n < 2 ^ 32.
Proof.
  intros Hk Hn. unfold advance. destruct (Z.lt_ge_cases n (2 ^ 32)).
  - rewrite try_from_intro by lia. cbn [unwrap mbind outcome_bind]. rewrite add_ok. lia.
  - rewrite (proj2 (try_from_None 32 n)) by lia. split; [done|lia].
Qed.

(** One round, when a group is left. *)
Lemma translate_group_spec vt groups done g rest mtypes b k dbg :
  validator_types_ok vt groups -> groups = done ++ g :: rest -> loop_inv vt done mtypes b k ->
  wasmparser.types_id (vt_types vt) = validator_id b ->
  if ready vt b mtypes g
  then exists mtypes' b',
    translate_group dbg (Some vt) (mtypes, b, k) = (k' ← advance k (elems_len vt g); Ok (mtypes', b', k')) /\
    loop_inv vt (done ++ [g]) mtypes' b' (k + elems_len vt g) /\ validator_id b' = validator_id b /\ seen_subset b b'
  else translate_group dbg (Some vt) (mtypes, b, k) = Panic.
Proof.
  intros Hvt Hg Hl Hid. destruct (next_exists _ _ _ _ _ _ _ _ Hvt Hg Hl) as [id Hc].
  destruct (next_group _ _ _ _ _ _ _ _ Hvt Hg Hl Hc) as (g0 & rest' & [= <- <-] & Hhead & Hgr).
  unfold translate_group. cbn [unwrap mbind outcome_bind]. rewrite Hc. cbn [unwrap mbind outcome_bind]. rewrite Hgr, Hhead, bool_decide_true, debug_assert_true by done.
  cbn [mbind outcome_bind]. destruct Hl as [Hsp Hki Hm].
  pose proof (intern_ready vt groups b mtypes g dbg Hvt Hsp Hid) as Hi. destruct (ready vt b mtypes g); [|by rewrite Hi].
  destruct Hi as (i & b' & r & -> & Hsp' & Hsub & Hv & Hle & He & Hf). cbn [mbind outcome_bind fst snd]. rewrite He. cbn [mbind outcome_bind].
  pose proof (Forall2_length Hf) as Hlen.
  assert (Hpl : pm_len (entity_range r) = elems_len vt g) by (unfold elems_len, pm_len; lia). rewrite Hpl.
  exists (mtypes ++ entity_range r), b'. split; [unfold advance; by destruct (unwrap _)|]. split; [|done]. split.
  - apply space_inv_extend; [done|]. eapply interned_at_bound; [exact (sp_builder _ _ _ Hsp')|exact Hf].
  - subst k. unfold elems_len, pm_len in *. rewrite length_app. lia.
  - rewrite bind_app. cbn. rewrite app_nil_r. apply Forall2_app; [|done]. eapply list.Forall2_impl; [exact Hm|].
    intros x t Hx. by eapply lookup_weaken.
Qed.

(** ** The loop *)
Lemma loop_inv_nonneg vt done mtypes b k : loop_inv vt done mtypes b k -> 0 <= k.
Proof. intros [_ -> _]. unfold pm_len. lia. Qed.

Lemma elems_len_nonneg vt g : 0 <= elems_len vt g.
Proof. unfold elems_len, pm_len. lia. Qed.

(** A round that returns has interned the next group. *)
Lemma translate_group_ok vt groups done rest mtypes b k dbg st' :
  validator_types_ok vt groups -> groups = done ++ rest -> loop_inv vt done mtypes b k ->
  translate_group dbg (Some vt) (mtypes, b, k) = Ok st' ->
  exists g rest' mtypes' b' k', st' = (mtypes', b', k') /\ rest = g :: rest' /\ loop_inv vt (done ++ [g]) mtypes' b' k'.
Proof.
  intros Hvt Hg Hl H.
  assert (exists id, core_type_at_in_module vt k = Some id) as [id Hid].
  { unfold translate_group in H. cbn [unwrap mbind outcome_bind] in H. destruct (core_type_at_in_module vt k); [by eexists|done]. }
  destruct (next_group _ _ _ _ _ _ _ _ Hvt Hg Hl Hid) as (g & rest' & -> & Hhead & Hgr).
  assert (Hv : wasmparser.types_id (vt_types vt) = validator_id b).
  { unfold translate_group in H. cbn [unwrap mbind outcome_bind] in H. rewrite Hid in H. cbn [unwrap mbind outcome_bind] in H.
    apply bind_ok in H as (_ & _ & (x & Hi & _)%bind_ok). unfold intern_rec_group in Hi.
    apply bind_ok in Hi as (_ & Ha%assert_ok & _). lia. }
  pose proof (translate_group_spec _ _ _ _ _ _ _ _ dbg Hvt Hg Hl Hv) as Hs.
  destruct (ready vt b mtypes g); [|congruence]. destruct Hs as (mtypes' & b' & Hs & Hl' & _ & _). rewrite Hs in H.
  apply bind_ok in H as (k' & [-> _]%advance_ok & [= <-]);
    [|by eapply loop_inv_nonneg|apply elems_len_nonneg].
  by eexists g, rest', _, _, _.
Qed.

Lemma translate_groups_ok vt groups count done rest mtypes b k dbg st' :
  validator_types_ok vt groups -> groups = done ++ rest -> loop_inv vt done mtypes b k ->
  translate_groups dbg (Some vt) count (mtypes, b, k) = Ok st' ->
  exists done' rest' mtypes' b' k', st' = (mtypes', b', k') /\ groups = done' ++ rest' /\
    length done' = (length done + count)%nat /\ loop_inv vt done' mtypes' b' k'.
Proof.
  intros Hvt. revert done rest mtypes b k; induction count as [|count IH]; intros done rest mtypes b k Hg Hl; cbn [translate_groups].
  - intros [= <-]. exists done, rest, mtypes, b, k. split; [done|]. split; [done|]. split; [lia|done].
  - intros (st1 & H1 & H2)%bind_ok.
    destruct (translate_group_ok _ _ _ _ _ _ _ _ _ Hvt Hg Hl H1) as (g & rest1 & mt1 & b1 & k1 & -> & -> & Hl1).
    destruct (IH (done ++ [g]) rest1 mt1 b1 k1) as (d & r & mt2 & b2 & k2 & -> & Hg2 & Hlen & Hl2);
      [by rewrite <- app_assoc|done|done|].
    exists d, r, mt2, b2, k2. split; [done|]. split; [done|]. split; [rewrite length_app in Hlen; cbn in Hlen; lia|done].
Qed.

Lemma loop_inv_new vt id : loop_inv vt [] [] (builder_new id) 0.
Proof. split; [|done|constructor]. split; [apply builder_new_inv|constructor|done|done|done]. Qed.

(** ** Sections that translate *)

(** The types of a group mention only types before themselves, and their
    supertypes come no later than their own group. *)
Definition backward (vt : ValidatorTypes) (groups : list Z) : Prop :=
  forall done g rest k id, groups = done ++ g :: rest -> wasmparser.rec_group_elements (vt_types vt) g !! k = Some id ->
    let before := done ≫= wasmparser.rec_group_elements (vt_types vt) in
    let ty := wasmparser.type_of_id (vt_types vt) id in
    is_cont (wasmparser.composite_type ty) = false /\
    (forall r, r ∈ composite_refs (wasmparser.composite_type ty) -> exists id', r = wasmparser.Id id' /\
       id' ∈ before ++ take k (wasmparser.rec_group_elements (vt_types vt) g)) /\
    (forall r, r ∈ option_list (wasmparser.supertype_idx ty) -> exists id', r = wasmparser.Id id' /\
       id' ∈ before ++ wasmparser.rec_group_elements (vt_types vt) g).

Lemma all_convertible_intro seen mtypes vt n ids :
  (forall k id, ids !! k = Some id -> ModuleTypes.convertible seen mtypes (n + Z.of_nat k) (wasmparser.type_of_id vt id) = true) ->
  all_convertible seen mtypes vt n ids = true.
Proof.
  revert n; induction ids as [|id ids IH]; intros n H; cbn [all_convertible]; [done|]. apply andb_true_iff. split.
  - specialize (H 0%nat id eq_refl). by rewrite Z.add_0_r in H.
  - apply IH. intros k x Hk. specialize (H (S k) x Hk). by replace (n + 1 + Z.of_nat k) with (n + Z.of_nat (S k)) by lia.
Qed.

(** The interned index of a type that is already in the index space, or in the
    part of the group given by [l]. *)
Lemma reserved_known vt groups done mtypes b k0 g l id' (elems := wasmparser.rec_group_elements (vt_types vt) g)
    (n := len_wasm_types (b_types b)) :
  validator_types_ok vt groups -> loop_inv vt done mtypes b k0 -> seen_rec_groups b !! g = None ->
  l `prefix_of` elems -> id' ∈ (done ≫= wasmparser.rec_group_elements (vt_types vt)) ++ l ->
  exists t, reserved n elems (seen_types (b_types b)) !! id' = Some t /\ 0 <= t < n + pm_len l.
Proof.
  intros Hvt [Hsp _ Hm] Hnew [l' Hl] [Hin|Hin]%elem_of_app.
  - apply list_elem_of_lookup_1 in Hin as [j Hj]. destruct (Forall2_lookup_l _ _ _ _ _ Hm Hj) as (t & _ & Ht).
    exists t. pose proof (bi_seen _ (sp_builder _ _ _ Hsp) id' t Ht). fold n in H. split; [|unfold pm_len; lia].
    rewrite reserved_other; [done|]. intros Hel. destruct (sp_closed _ _ _ Hsp id' t Ht) as [x Hx].
    rewrite (vo_group _ _ Hvt g id' Hel) in Hx. congruence.
  - apply list_elem_of_lookup_1 in Hin as [j Hj]. exists (n + Z.of_nat j). split.
    + apply reserved_elem; [apply (vo_nodup _ _ Hvt)|]. rewrite Hl. by apply lookup_app_l_Some.
    + apply lookup_lt_Some in Hj. unfold n, len_wasm_types, pm_len. lia.
Qed.

Lemma ready_backward vt groups done g rest mtypes b k :
  validator_types_ok vt groups -> backward vt groups -> groups = done ++ g :: rest -> loop_inv vt done mtypes b k ->
  ready vt b mtypes g = true.
Proof.
  intros Hvt Hback Hg Hl. unfold ready. destruct (seen_rec_groups b !! g) eqn:Hnew; [done|].
  apply all_convertible_intro. intros j id Hj. destruct (Hback done g rest j id Hg Hj) as (Hc & Hr & Hs). cbv zeta in Hr, Hs.
  unfold ModuleTypes.convertible. rewrite Hc. cbn [negb]. rewrite andb_true_r. apply andb_true_iff. split.
  - apply forallb_forall. intros r Hin%list_elem_of_In. destruct (Hs r Hin) as (id' & -> & Hid').
    destruct (reserved_known vt groups done mtypes b k g _ id' Hvt Hl Hnew (reflexivity _) Hid') as (t & Ht & _). cbn. by rewrite Ht.
  - apply forallb_forall. intros r Hin%list_elem_of_In. destruct (Hr r Hin) as (id' & -> & Hid').
    destruct (reserved_known vt groups done mtypes b k g _ id' Hvt Hl Hnew (prefix_take _ j) Hid') as (t & Ht & Hlt).
    unfold defined_before. cbn. rewrite Ht. apply lookup_lt_Some in Hj.
    assert (pm_len (take j (wasmparser.rec_group_elements (vt_types vt) g)) = Z.of_nat j) by (unfold pm_len; rewrite length_take; lia).
    lia.
Qed.

Lemma translate_groups_total vt groups rest done mtypes b k dbg :
  validator_types_ok vt groups -> backward vt groups -> wasmparser.types_id (vt_types vt) = validator_id b ->
  groups = done ++ rest -> loop_inv vt done mtypes b k ->
  k + pm_len (rest ≫= wasmparser.rec_group_elements (vt_types vt)) < 2 ^ 32 ->
  exists mtypes' b' k', translate_groups dbg (Some vt) (length rest) (mtypes, b, k) = Ok (mtypes', b', k') /\
    loop_inv vt groups mtypes' b' k'.
Proof.
  intros Hvt Hback. revert done mtypes b k; induction rest as [|g rest IH]; intros done mtypes b k Hid Hg Hl Hk; cbn [translate_groups length].
  - exists mtypes, b, k. split; [done|]. by rewrite Hg, app_nil_r.
  - pose proof (translate_group_spec _ _ _ _ _ _ _ _ dbg Hvt Hg Hl Hid) as Hs. rewrite (ready_backward _ _ _ _ _ _ _ _ Hvt Hback Hg Hl) in Hs.
    destruct Hs as (mt1 & b1 & -> & Hl1 & Hv1 & _).
    assert (Hlen : pm_len ((g :: rest) ≫= wasmparser.rec_group_elements (vt_types vt)) =
        elems_len vt g + pm_len (rest ≫= wasmparser.rec_group_elements (vt_types vt)))
      by (unfold elems_len, pm_len; cbn; rewrite length_app; lia).
    rewrite Hlen in Hk.
    rewrite (proj2 (advance_ok k (elems_len vt g) (k + elems_len vt g) (loop_inv_nonneg _ _ _ _ _ Hl) (elems_len_nonneg _ _)))
      by (split; [done|]; unfold pm_len in Hk; lia).
    cbn [mbind outcome_bind]. destruct (IH (done ++ [g]) mt1 b1 (k + elems_len vt g)) as (mt2 & b2 & k2 & -> & Hl2);
      [congruence|by rewrite <- app_assoc|done|lia|]. by exists mt2, b2, k2.
Qed.


(** Two groups of two types: a struct and a function over it; a struct that
    holds the first and a function that returns the second.  The module lists
    the first group twice. *)
Definition example_ref (id : Z) : wasmparser.ValType :=
  wasmparser.Ref (wasmparser.mkRef true (wasmparser.Concrete (wasmparser.Id id))).
Definition example_types : wasmparser.TypesRef :=
  wasmparser.mkTypesRef 1 (fun g => [2 * g; 2 * g + 1])
    (fun id => wasmparser.mkSub true None (wasmparser.mkComposite false
       (if id =? 14 then wasmparser.CStruct [wasmparser.mkField true (wasmparser.Val wasmparser.I32)]
        else if id =? 15 then wasmparser.CFunc (wasmparser.mkFunc [example_ref 14] [])
        else if id =? 18 then wasmparser.CStruct [wasmparser.mkField false (wasmparser.Val (example_ref 14))]
        else wasmparser.CFunc (wasmparser.mkFunc [example_ref 18] [example_ref 15])))).
Definition example_validator_types : ValidatorTypes :=
  mkValidatorTypes example_types (pm_get [14; 15; 18; 19; 14; 15]) (fun id => id / 2).

Lemma example_validator_types_ok : validator_types_ok example_validator_types [7; 9; 7].
Proof.
  split; cbn; try done.
  - intros g. constructor; [|constructor; [apply not_elem_of_nil|constructor]]. intros H%list_elem_of_singleton. lia.
  - intros g id [->|[->|[]%not_elem_of_nil]%elem_of_cons]%elem_of_cons; Z.to_euclidean_division_equations; lia.
Qed.

Lemma example_backward : backward example_validator_types [7; 9; 7].
Proof.
  intros done g rest k id Hg Hk.
  assert ((done = [] /\ g = 7) \/ (done = [7] /\ g = 9) \/ (done = [7; 9] /\ g = 7)) as Hc.
  { destruct done as [|d0 [|d1 [|d2 [|d3 done]]]]; cbn in Hg; simplify_eq; naive_solver. }
  destruct Hc as [[-> ->]|[[-> ->]|[-> ->]]]; destruct k as [|[|k]]; cbn in Hk; simplify_eq; cbn;
    (split; [done|]); (split; [|by intros r ?%not_elem_of_nil]); intros r Hr; set_unfold in Hr; naive_solver set_solver.
Qed.

