(* ===== verification/ModuleTranslatorInv.v ===== *)
(** * What translation establishes

    The invariant of the translator: the counters of imported entities and the
    initializers match the entity maps, escaping functions are numbered without
    gaps or repetitions, and whatever needs a function reference at run time has
    one.  These are the facts the rest of the virtual machine assumes of a
    [TranslatedModule]. *)
From stdpp Require Import base list gmap option strings numbers.
From S2P Require Import Prelude Types TypeTrace Module ModuleTypes VMVal ConstEval ModuleTranslator.
Local Open Scope Z_scope.

(** ** Escaping functions *)
Definition escaping_at (m : TranslatedModule) (i : Z) : Prop :=
  exists f, pm_get (functions m) i = Some f /\ is_escaping f = true.

(** The reference indices in use. *)
Definition escaped_refs (fs : list FunctionDesc) : list Z :=
  omap (fun f => if is_escaping f then Some (func_ref f) else None) fs.

(** Every function a constant expression refers to is escaping. *)
Definition refs_escape (m : TranslatedModule) (e : ConstExpr) : Prop :=
  forall f, RefFunc f ∈ ops e -> escaping_at m f.

Definition initial_escape (m : TranslatedModule) (v : TableInitialValue) : Prop :=
  match v with TableInitialValue_RefNull => True | TableInitialValue_ConstExpr e => refs_escape m e end.

(** Every function that the expressions of an element segment refer to is
    escaping; nothing is promised of functions listed by index. *)
Definition elements_escape (m : TranslatedModule) (e : TableSegmentElements) : Prop :=
  match e with TSE_Functions _ => True | TSE_Expressions es => Forall (refs_escape m) es end.

(** Number of entities of a module. *)
Definition total (m : TranslatedModule) : Z :=
  pm_len (functions m) + pm_len (tables m) + pm_len (memories m) + pm_len (globals m).

(** [n] is the number of interned types. *)
Record mod_inv (n : Z) (m : TranslatedModule) : Prop := {
  mi_types : Forall (fun i => 0 <= i < n) (types m);
  mi_funcs : 0 <= num_imported_functions m <= pm_len (functions m);
  mi_memories : 0 <= num_imported_memories m <= pm_len (memories m);
  mi_tables : 0 <= num_imported_tables m;
  mi_globals : 0 <= num_imported_globals m;
  mi_initial : pm_len (initial_values (table_initializers m)) = pm_len (tables m) - num_imported_tables m;
  mi_ginit : pm_len (global_initializers m) = pm_len (globals m) - num_imported_globals m;
  mi_escaped : 0 <= num_escaped_functions m;
  mi_refs : escaped_refs (functions m) ≡ₚ seqZ 0 (num_escaped_functions m);
  mi_exports : forall s i, (s, Ent_Function i) ∈ exports m -> escaping_at m i;
  mi_gescape : Forall (refs_escape m) (global_initializers m);
  mi_tescape : Forall (initial_escape m) (initial_values (table_initializers m));
  mi_active : Forall (fun s => elements_escape m (ts_elements s)) (segments (table_initializers m));
  mi_passive : map_Forall (fun _ => elements_escape m) (passive_table_initializers m) }.

(** The entity maps only grow, by at most [k], nothing stops escaping, and the
    type index space stays. *)
Record grows (k : Z) (m m' : TranslatedModule) : Prop := {
  gw_total : total m' <= total m + k;
  gw_escaping : forall j, escaping_at m j -> escaping_at m' j;
  gw_types : types m' = types m }.

Lemma grows_refl m : grows 0 m m.
Proof. split; [lia|done..]. Qed.
Lemma grows_trans k k' m1 m2 m3 : grows k m1 m2 -> grows k' m2 m3 -> grows (k + k') m1 m3.
Proof. intros [? ? ?] [? ? ?]. split; [lia|auto|congruence]. Qed.
Lemma grows_weaken k k' m m' : k <= k' -> grows k m m' -> grows k' m m'.
Proof. intros ? [? ? ?]. split; [lia|done..]. Qed.

Lemma refs_escape_mono m m' e : (forall j, escaping_at m j -> escaping_at m' j) -> refs_escape m e -> refs_escape m' e.
Proof. intros H Hr f Hf. auto. Qed.
Lemma initial_escape_mono m m' v : (forall j, escaping_at m j -> escaping_at m' j) -> initial_escape m v -> initial_escape m' v.
Proof. destruct v; [done|]. apply refs_escape_mono. Qed.
Lemma elements_escape_mono m m' e : (forall j, escaping_at m j -> escaping_at m' j) -> elements_escape m e -> elements_escape m' e.
Proof. intros H. destruct e; [done|]. intros Hf. eapply list.Forall_impl; [exact Hf|]. intros x. by apply refs_escape_mono. Qed.

(** The segments of a module whose functions still escape. *)
Lemma segments_escape_mono m m' l (p : gmap Z TableSegmentElements) : (forall j, escaping_at m j -> escaping_at m' j) ->
  Forall (fun s => elements_escape m (ts_elements s)) l -> map_Forall (fun _ : Z => elements_escape m) p ->
  Forall (fun s => elements_escape m' (ts_elements s)) l /\ map_Forall (fun _ => elements_escape m') p.
Proof.
  intros H Hl Hp. split.
  - eapply list.Forall_impl; [exact Hl|]. intros x. by apply elements_escape_mono.
  - intros i x Hx. eapply elements_escape_mono; [exact H|by eapply Hp].
Qed.

(** Handlers that leave functions and their references alone. *)
Lemma mod_inv_default n : mod_inv n default_module.
Proof.
  split; cbn; try (unfold pm_len; cbn; lia); try constructor; [by intros s i ?%not_elem_of_nil|apply map_Forall_empty].
Qed.

(** *** Flagging *)
Lemma escaped_refs_flag fs i f index : fs !! i = Some f -> is_escaping f = false -> index < reserved_value ->
  escaped_refs (<[i := mkFunctionDesc (signature f) index]> fs) ≡ₚ index :: escaped_refs fs.
Proof.
  intros Hi Hf Hidx. rewrite <- (take_drop_middle fs i f Hi) at 2. unfold escaped_refs.
  rewrite insert_take_drop by (by eapply lookup_lt_Some). rewrite !omap_app. cbn.
  rewrite Hf. unfold is_escaping, is_reserved_value. cbn. rewrite (proj2 (Z.eqb_neq _ _)) by lia. cbn.
  by rewrite Permutation_middle.
Qed.

Lemma flag_ok dbg n m i m' : mod_inv n m -> flag_func_as_escaped dbg m i = Ok m' ->
  mod_inv n m' /\ grows 0 m m' /\ escaping_at m' i.
Proof.
  intros Hinv. unfold flag_func_as_escaped. intros (f & Hf & H)%bind_ok. unfold pm_index in Hf. apply unwrap_ok in Hf.
  destruct (is_escaping f) eqn:He.
  { injection H as <-. split; [done|]. split; [apply grows_refl|]. by exists f. }
  apply bind_ok in H as ([] & _ & H). apply bind_ok in H as (k & [-> Hk]%add_ok & [= <-]).
  destruct Hinv as [H1 H2 H3 H4 H5 H6 H7 H8 H9 H10 H11 H12 H13 H14].
  pose proof (pm_get_range _ _ _ Hf) as Hr.
  assert (Hlt : num_escaped_functions m < reserved_value) by (unfold reserved_value; lia).
  set (f' := mkFunctionDesc (signature f) (num_escaped_functions m)).
  assert (Hnew : is_escaping f' = true)
    by (unfold is_escaping, is_reserved_value; cbn; by rewrite (proj2 (Z.eqb_neq _ _)) by lia).
  set (m' := set_num_escaped_functions _ _).
  assert (Hmono : forall j, escaping_at m j -> escaping_at m' j).
  { intros j (g & Hg & Hge). destruct (decide (i = j)) as [->|Hne].
    - exists f'. split; [|done]. cbn. by apply pm_get_set_eq.
    - exists g. split; [|done]. cbn. rewrite pm_get_set_ne by (done || lia). done. }
  split; [|split].
  - split; cbn; rewrite ?pm_len_set; try done; try lia.
    + unfold pm_set. unfold pm_get in Hf. destruct (0 <=? i) eqn:H0; [|done].
      etransitivity; [by apply (escaped_refs_flag _ _ f)|]. rewrite H9. rewrite seqZ_app by lia.
      cbn. rewrite Permutation_app_comm. cbn. by rewrite Z.add_0_l.
    + intros s j Hj. apply Hmono. eauto.
    + eapply list.Forall_impl; [exact H11|]. intros e. by apply refs_escape_mono.
    + eapply list.Forall_impl; [exact H12|]. intros e. by apply initial_escape_mono.
    + by eapply segments_escape_mono.
    + by eapply segments_escape_mono.
  - split; [unfold total; cbn; rewrite pm_len_set; lia|done..].
  - exists f'. split; [|done]. cbn. by apply pm_get_set_eq.
Qed.

Lemma flag_all_ok dbg n l m m' : mod_inv n m -> foldM (flag_func_as_escaped dbg) l m = Ok m' ->
  mod_inv n m' /\ grows 0 m m' /\ forall f, f ∈ l -> escaping_at m' f.
Proof.
  revert m; induction l as [|i l IH]; cbn [foldM]; intros m Hinv H.
  - injection H as <-. split; [done|]. split; [apply grows_refl|]. by intros f ?%not_elem_of_nil.
  - destruct (flag_func_as_escaped dbg m i) as [m1| |] eqn:Hf; [|done..].
    destruct (flag_ok _ _ _ _ _ Hinv Hf) as (Hi1 & Hg1 & He1). destruct (IH m1 Hi1 H) as (Hi2 & Hg2 & He2).
    split; [done|]. split; [exact (grows_trans _ _ _ _ _ Hg1 Hg2)|]. intros f [->|Hin]%elem_of_cons; [|auto].
    by apply (gw_escaping _ _ _ Hg2).
Qed.

(** *** Constant expressions *)
Lemma from_wasmparser_loop_refs iter ops0 esc0 ops1 esc1 :
  from_wasmparser_loop iter ops0 esc0 = Ok (ops1, esc1) ->
  (forall f, RefFunc f ∈ ops0 -> f ∈ esc0) -> forall f, RefFunc f ∈ ops1 -> f ∈ esc1.
Proof.
  revert ops0 esc0; induction iter as [|x iter IH]; intros ops0 esc0; cbn [from_wasmparser_loop].
  - intros [= <- <-] H f. apply H.
  - destruct x as [e|[op off]]; [done|]. intros Hl H.
    assert (Hstep : forall cop, op_from_wasmparser op off = Ok cop ->
      forall f, RefFunc f ∈ ops0 ++ [cop] -> f ∈ match op with O_RefFunc f => esc0 ++ [f] | _ => esc0 end).
    { intros cop Hc f [Hf|Hf%list_elem_of_singleton]%elem_of_app.
      - apply H in Hf. destruct op; try done. apply elem_of_app. by left.
      - subst cop. destruct op; try discriminate Hc. injection Hc as <-. apply elem_of_app. right. by apply list_elem_of_singleton. }
    assert (Hgo : (cop ← op_from_wasmparser op off;
        from_wasmparser_loop iter (ops0 ++ [cop]) match op with O_RefFunc f => esc0 ++ [f] | _ => esc0 end) = Ok (ops1, esc1) ->
        forall f, RefFunc f ∈ ops1 -> f ∈ esc1).
    { intros (cop & Hc & Hr)%bind_ok. eapply IH; [exact Hr|]. by apply Hstep. }
    destruct op; try (by apply Hgo). destruct iter; [|by apply Hgo]. injection Hl as <- <-. exact H.
Qed.

Lemma convert_and_flag_ok dbg n m e ce m' : mod_inv n m -> convert_and_flag dbg m e = Ok (ce, m') ->
  mod_inv n m' /\ grows 0 m m' /\ refs_escape m' ce.
Proof.
  intros Hinv. unfold convert_and_flag. intros ([ce' esc] & Hc & H)%bind_ok. cbn [fst snd] in H.
  apply bind_ok in H as (m1 & Hf & [= <- <-]). destruct (flag_all_ok _ _ _ _ _ Hinv Hf) as (H1 & H2 & H3).
  split; [done|]. split; [done|]. intros f Hin. apply H3.
  unfold convert_expr in Hc. destruct (from_wasmparser e) as [r| |] eqn:Hw; [|done..]. injection Hc as ->.
  unfold from_wasmparser in Hw. apply bind_ok in Hw as ([o es] & Hl & [= <- <-]). cbn [fst snd ops] in Hin.
  eapply from_wasmparser_loop_refs; [exact Hl| |exact Hin]. by intros g ?%not_elem_of_nil.
Qed.

(** ** Sections *)

(** A reader loop whose items each add at most [k] entities. *)
Lemma for_each_ok {S A} (proj : S -> TranslatedModule) n k (f : S -> A -> outcome Error S) items s s' :
  (forall s x s', mod_inv n (proj s) -> f s x = Ok s' -> mod_inv n (proj s') /\ grows k (proj s) (proj s')) ->
  mod_inv n (proj s) -> for_each f items s = Ok s' ->
  mod_inv n (proj s') /\ grows (k * pm_len items) (proj s) (proj s').
Proof.
  intros Hf. revert s; induction items as [|x items IH]; intros s Hinv; unfold for_each; cbn [foldM].
  - intros [= <-]. split; [done|]. eapply grows_weaken; [|apply grows_refl]. unfold pm_len. cbn. lia.
  - destruct x as [e|x]; [done|]. destruct (f s x) as [s1| |] eqn:Hx; [|done..]. intros Hrest.
    destruct (Hf _ _ _ Hinv Hx) as [H1 H2]. destruct (IH s1 H1 Hrest) as [H3 H4]. split; [done|].
    eapply grows_weaken; [|exact (grows_trans _ _ _ _ _ H2 H4)]. unfold pm_len. cbn. lia.
Qed.

(** The invariant does not look at the remaining fields. *)
Record same_entities (m m' : TranslatedModule) : Prop := {
  se_types : types m' = types m;
  se_functions : functions m' = functions m;
  se_tables : tables m' = tables m;
  se_memories : memories m' = memories m;
  se_globals : globals m' = globals m;
  se_exports : exports m' = exports m;
  se_ginit : global_initializers m' = global_initializers m;
  se_initial : initial_values (table_initializers m') = initial_values (table_initializers m);
  se_segments : segments (table_initializers m') = segments (table_initializers m);
  se_passive : passive_table_initializers m' = passive_table_initializers m;
  se_nif : num_imported_functions m' = num_imported_functions m;
  se_nit : num_imported_tables m' = num_imported_tables m;
  se_nim : num_imported_memories m' = num_imported_memories m;
  se_nig : num_imported_globals m' = num_imported_globals m;
  se_nef : num_escaped_functions m' = num_escaped_functions m }.

Lemma same_escaping m m' j : functions m' = functions m -> escaping_at m' j <-> escaping_at m j.
Proof. intros Hf. unfold escaping_at. by rewrite Hf. Qed.

Lemma same_refs m m' e : functions m' = functions m -> refs_escape m e -> refs_escape m' e.
Proof. intros Hf. apply refs_escape_mono. intros j. by rewrite (same_escaping m m'). Qed.

Lemma same_initial m m' v : functions m' = functions m -> initial_escape m v -> initial_escape m' v.
Proof. intros Hf. apply initial_escape_mono. intros j. by rewrite (same_escaping m m'). Qed.

Lemma same_entities_ok n m m' : same_entities m m' -> mod_inv n m -> mod_inv n m' /\ grows 0 m m'.
Proof.
  intros [E1 E2 E3 E4 E5 E6 E7 E8 E9 E10 E11 E12 E13 E14 E15] [H1 H2 H3 H4 H5 H6 H7 H8 H9 H10 H11 H12 H13 H14]. split.
  - split; rewrite ?E1, ?E2, ?E3, ?E4, ?E5, ?E6, ?E7, ?E8, ?E9, ?E10, ?E11, ?E12, ?E13, ?E14, ?E15; try done.
    + intros s i Hi. rewrite (same_escaping m m') by done. eauto.
    + eapply list.Forall_impl; [exact H11|]. intros e. by apply same_refs.
    + eapply list.Forall_impl; [exact H12|]. intros e. by apply same_initial.
    + eapply segments_escape_mono; [|exact H13|exact H14]. intros j. by rewrite (same_escaping m m').
    + eapply segments_escape_mono; [|exact H13|exact H14]. intros j. by rewrite (same_escaping m m').
  - split; [unfold total; rewrite E2, E3, E4, E5; lia| |done]. intros j. by rewrite (same_escaping m m').
Qed.

Lemma escaped_refs_push fs sig : escaped_refs (pm_push fs (mkFunctionDesc sig reserved_value)) = escaped_refs fs.
Proof. unfold escaped_refs, pm_push. rewrite omap_app. cbn. by rewrite app_nil_r. Qed.

(** Adding a function that does not escape (yet). *)
Lemma push_function_ok n m sig k : mod_inv n m -> 0 <= k <= pm_len (functions m) + 1 ->
  let m' := set_functions (pm_push (functions m) (mkFunctionDesc sig reserved_value)) (set_num_imported_functions k m) in
  mod_inv n m' /\ grows 1 m m'.
Proof.
  intros [H1 H2 H3 H4 H5 H6 H7 H8 H9 H10 H11 H12 H13 H14] Hk m'.
  assert (Hmono : forall j, escaping_at m j -> escaping_at m' j).
  { intros j (f & Hf & He). exists f. split; [|done]. cbn. by apply pm_get_push_old. }
  split; [|split; [unfold total; cbn; rewrite pm_len_push; lia|done..]].
  split; cbn; rewrite ?pm_len_push, ?escaped_refs_push; try (done || lia).
  - intros s i Hi. apply Hmono. eauto.
  - eapply list.Forall_impl; [exact H11|]. intros e. by apply refs_escape_mono.
  - eapply list.Forall_impl; [exact H12|]. intros e. by apply initial_escape_mono.
  - by eapply segments_escape_mono.
  - by eapply segments_escape_mono.
Qed.

(** Adding a table, memory or global, imported or defined. *)
Lemma push_import_table_ok n m t : mod_inv n m ->
  let m' := set_tables (pm_push (tables m) t) (set_num_imported_tables (num_imported_tables m + 1) m) in
  mod_inv n m' /\ grows 1 m m'.
Proof.
  intros [H1 H2 H3 H4 H5 H6 H7 H8 H9 H10 H11 H12 H13 H14] m'. subst m'.
  split; [|split; [unfold total; cbn; rewrite pm_len_push; lia|done..]]. split; cbn; rewrite ?pm_len_push; done || lia.
Qed.

Lemma push_defined_table_ok n m t v : mod_inv n m -> initial_escape m v ->
  let m' := set_table_initializers
      (mkTableInitializers (pm_push (initial_values (table_initializers m)) v) (segments (table_initializers m)))
      (set_tables (pm_push (tables m) t) m) in
  mod_inv n m' /\ grows 1 m m'.
Proof.
  intros [H1 H2 H3 H4 H5 H6 H7 H8 H9 H10 H11 H12 H13 H14] Hv m'. subst m'.
  split; [|split; [unfold total; cbn; rewrite pm_len_push; lia|done..]]. split; cbn; rewrite ?pm_len_push; try (done || lia).
  unfold pm_push. apply list.Forall_app. split; [done|]. by constructor.
Qed.

Lemma push_defined_global_ok n m d e : mod_inv n m -> refs_escape m e ->
  let m' := set_global_initializers (pm_push (global_initializers m) e) (set_globals (pm_push (globals m) d) m) in
  mod_inv n m' /\ grows 1 m m'.
Proof.
  intros [H1 H2 H3 H4 H5 H6 H7 H8 H9 H10 H11 H12 H13 H14] Hv m'. subst m'.
  split; [|split; [unfold total; cbn; rewrite pm_len_push; lia|done..]]. split; cbn; rewrite ?pm_len_push; try (done || lia).
  unfold pm_push. apply list.Forall_app. split; [done|]. by constructor.
Qed.

Lemma push_memory_ok n m d k : mod_inv n m -> 0 <= k <= pm_len (memories m) + 1 ->
  let m' := set_memories (pm_push (memories m) d) (set_num_imported_memories k m) in
  mod_inv n m' /\ grows 1 m m'.
Proof.
  intros [H1 H2 H3 H4 H5 H6 H7 H8 H9 H10 H11 H12 H13 H14] Hk m'. subst m'.
  split; [|split; [unfold total; cbn; rewrite pm_len_push; lia|done..]]. split; cbn; rewrite ?pm_len_push; done || lia.
Qed.

Lemma push_import_global_ok n m d : mod_inv n m ->
  let m' := set_globals (pm_push (globals m) d) (set_num_imported_globals (num_imported_globals m + 1) m) in
  mod_inv n m' /\ grows 1 m m'.
Proof.
  intros [H1 H2 H3 H4 H5 H6 H7 H8 H9 H10 H11 H12 H13 H14] m'. subst m'.
  split; [|split; [unfold total; cbn; rewrite pm_len_push; lia|done..]]. split; cbn; rewrite ?pm_len_push; done || lia.
Qed.

(** Flagging commutes with pushing a table or a global. *)
Lemma flag_all_commute dbg (put : TranslatedModule -> TranslatedModule) l m :
  (forall m i, flag_func_as_escaped dbg (put m) i = put <$> flag_func_as_escaped dbg m i) ->
  foldM (flag_func_as_escaped dbg) l (put m) = put <$> foldM (flag_func_as_escaped dbg) l m.
Proof.
  intros Hput. revert m; induction l as [|i l IH]; intros m; cbn [foldM]; [done|].
  rewrite Hput. destruct (flag_func_as_escaped dbg m i); cbn; [apply IH|done..].
Qed.

Lemma flag_keeps dbg m i m' : flag_func_as_escaped dbg m i = Ok m' ->
  tables m' = tables m /\ globals m' = globals m /\ table_initializers m' = table_initializers m /\
  global_initializers m' = global_initializers m.
Proof.
  unfold flag_func_as_escaped. intros (f & _ & H)%bind_ok. destruct (is_escaping f); [by injection H as <-|].
  apply bind_ok in H as ([] & _ & (k & _ & [= <-])%bind_ok). done.
Qed.

Lemma flag_all_keeps dbg l m m' : foldM (flag_func_as_escaped dbg) l m = Ok m' ->
  tables m' = tables m /\ globals m' = globals m /\ table_initializers m' = table_initializers m /\
  global_initializers m' = global_initializers m.
Proof.
  apply (foldM_ind (fun m' => tables m' = tables m /\ globals m' = globals m /\ table_initializers m' = table_initializers m /\
    global_initializers m' = global_initializers m)); [done|].
  intros m1 i m2 _ (E1 & E2 & E3 & E4) (F1 & F2 & F3 & F4)%flag_keeps. repeat split; congruence.
Qed.

Lemma flag_put dbg (put : TranslatedModule -> TranslatedModule) m i :
  functions (put m) = functions m -> num_escaped_functions (put m) = num_escaped_functions m ->
  (forall x y, set_num_escaped_functions y (set_functions x (put m)) = put (set_num_escaped_functions y (set_functions x m))) ->
  flag_func_as_escaped dbg (put m) i = put <$> flag_func_as_escaped dbg m i.
Proof.
  intros E1 E2 E3. unfold flag_func_as_escaped. rewrite E1, E2. destruct (pm_index (functions m) i) as [f| |]; [|done..].
  cbn [mbind outcome_bind]. destruct (is_escaping f); [done|].
  destruct (debug_assert dbg (num_escaped_functions m <? reserved_value)) as [[]| |]; [|done..]. cbn [mbind outcome_bind].
  destruct (add 32 (num_escaped_functions m) 1) as [y| |]; [|done..]. cbn [mbind outcome_bind]. rewrite E3. done.
Qed.

Lemma convert_and_flag_put dbg (put : TranslatedModule -> TranslatedModule) m e ce m' :
  (forall m, functions (put m) = functions m) -> (forall m, num_escaped_functions (put m) = num_escaped_functions m) ->
  (forall m x y, set_num_escaped_functions y (set_functions x (put m)) = put (set_num_escaped_functions y (set_functions x m))) ->
  convert_and_flag dbg (put m) e = Ok (ce, m') ->
  exists m0, convert_and_flag dbg m e = Ok (ce, m0) /\ m' = put m0 /\
    tables m0 = tables m /\ globals m0 = globals m /\ table_initializers m0 = table_initializers m /\
    global_initializers m0 = global_initializers m.
Proof.
  intros E1 E2 E3. unfold convert_and_flag. intros (r & Hr & (m1 & Hf & [= <- <-])%bind_ok)%bind_ok. rewrite Hr. cbn [mbind outcome_bind].
  rewrite (flag_all_commute dbg put) in Hf by (intros; by apply flag_put).
  destruct (foldM (flag_func_as_escaped dbg) r.2 m) as [m0| |] eqn:Hm0; [|done..]. injection Hf as <-.
  exists m0. split; [done|]. split; [done|]. by eapply flag_all_keeps.
Qed.

Lemma translate_table_ok dbg n mt m t m' : mod_inv n m -> translate_table dbg mt m t = Ok m' -> mod_inv n m' /\ grows 1 m m'.
Proof.
  intros Hinv. unfold translate_table. intros (plan & _ & H)%bind_ok. apply bind_ok in H as ([v m1] & Hv & [= <-]). cbn [fst snd].
  destruct (ti_init t) as [|e].
  - injection Hv as <- <-. by apply (push_defined_table_ok n m plan TableInitialValue_RefNull).
  - apply bind_ok in Hv as ([ce m2] & Hc & [= <- <-]).
    destruct (convert_and_flag_put dbg (set_tables (pm_push (tables m) plan)) m e ce m2) as (m0 & Hm0 & -> & Et & _ & Ei & _);
      [done|done|done|done|].
    destruct (convert_and_flag_ok _ _ _ _ _ _ Hinv Hm0) as (Hi & Hg & Hr). rewrite <- Et.
    destruct (push_defined_table_ok n m0 plan (TableInitialValue_ConstExpr ce) Hi Hr) as [H1 H2]. split; [exact H1|].
    exact (grows_trans _ _ _ _ _ Hg H2).
Qed.

Lemma translate_global_ok dbg n mt m g m' : mod_inv n m -> translate_global dbg mt m g = Ok m' -> mod_inv n m' /\ grows 1 m m'.
Proof.
  intros Hinv. unfold translate_global. intros (d & _ & H)%bind_ok. apply bind_ok in H as ([ce m1] & Hc & [= <-]). cbn [fst snd].
  destruct (convert_and_flag_put dbg (set_globals (pm_push (globals m) d)) m (gi_init_expr g) ce m1) as (m0 & Hm0 & -> & _ & Eg & _ & Ei);
    [done|done|done|exact Hc|].
  destruct (convert_and_flag_ok _ _ _ _ _ _ Hinv Hm0) as (Hi & Hg & Hr). rewrite <- Eg.
  destruct (push_defined_global_ok n m0 d ce Hi Hr) as [H1 H2]. split; [exact H1|]. exact (grows_trans _ _ _ _ _ Hg H2).
Qed.

Lemma translate_import_ok n mt m i m' : mod_inv n m -> translate_import mt m i = Ok m' -> mod_inv n m' /\ grows 1 m m'.
Proof.
  intros Hinv. unfold translate_import. intros ([ty m1] & Hr & [= <-])%bind_ok. cbn [fst snd].
  assert (mod_inv n m1 /\ grows 1 m m1) as [H1 H2].
  { destruct (ii_ty i) as [sig|t|t|g|]; [| | | |done];
      apply bind_ok in Hr as (k & [-> Hk]%add_ok & (x & _ & [= <- <-])%bind_ok).
    - apply push_function_ok; [done|]. destruct Hinv. lia.
    - by apply push_import_table_ok.
    - apply push_memory_ok; [done|]. destruct Hinv. lia.
    - by apply push_import_global_ok. }
  destruct (same_entities_ok n m1 (set_imports (imports m1 ++ [mkImport (ii_module i) (ii_name i) ty]) m1)) as [H3 H4]; [by split|done|].
  split; [done|]. eapply grows_weaken; [|exact (grows_trans _ _ _ _ _ H2 H4)]. lia.
Qed.

Lemma translate_functions_ok n l m m' : mod_inv n m -> translate_function_section l m = Ok m' -> mod_inv n m' /\ grows (pm_len l) m m'.
Proof.
  intros Hinv H. rewrite <- (Z.mul_1_l (pm_len l)). refine (for_each_ok id n 1 _ _ m m' _ Hinv H).
  cbn. intros s x s' Hs [= <-].
  destruct (push_function_ok n s x (num_imported_functions s) Hs) as [H1 H2]; [destruct Hs; lia|]. done.
Qed.

Lemma translate_memories_ok n l m m' : mod_inv n m -> translate_memory_section l m = Ok m' -> mod_inv n m' /\ grows (pm_len l) m m'.
Proof.
  intros Hinv H. rewrite <- (Z.mul_1_l (pm_len l)). refine (for_each_ok id n 1 _ _ m m' _ Hinv H).
  cbn. intros s x s' Hs (d & _ & [= <-])%bind_ok.
  destruct (push_memory_ok n s d (num_imported_memories s) Hs) as [H1 H2]; [destruct Hs; lia|]. done.
Qed.

Lemma index_map_insert_elem k v l s w : (s, w) ∈ index_map_insert k v l -> (s = k /\ w = v) \/ (s, w) ∈ l.
Proof.
  induction l as [|[k' v'] l IH]; cbn.
  - intros [= -> ->]%list_elem_of_singleton. by left.
  - case_bool_decide; intros [Hx|Hx]%elem_of_cons; [by left; injection Hx|right; by right|injection Hx as -> ->; right; by left|].
    destruct (IH Hx) as [?|?]; [by left|right; by right].
Qed.

(** Recording an export. *)
Lemma set_exports_ok n m k v : mod_inv n m -> (forall i, v = Ent_Function i -> escaping_at m i) ->
  let m' := set_exports (index_map_insert k v (exports m)) m in mod_inv n m' /\ grows 0 m m'.
Proof.
  intros [H1 H2 H3 H4 H5 H6 H7 H8 H9 H10 H11 H12 H13 H14] Hv m'. subst m'. split; [|split; [unfold total; cbn; lia|done..]].
  split; cbn; try done. intros s i [[-> <-]|Hi]%index_map_insert_elem; [by apply Hv|by eapply H10].
Qed.

Lemma translate_export_ok {B} dbg n (r : ModuleTranslation B) x r' : mod_inv n (module r) -> translate_export dbg r x = Ok r' ->
  mod_inv n (module r') /\ grows 0 (module r) (module r').
Proof.
  intros Hinv. unfold translate_export. intros ([v r1] & Hr & [= <-])%bind_ok. cbn [fst snd on_module module].
  assert (mod_inv n (module r1) /\ grows 0 (module r) (module r1) /\ forall i, v = Ent_Function i -> escaping_at (module r1) i)
    as (H1 & H2 & H3).
  { destruct (ei_kind x); [|injection Hr as <- <-; (split; [done|]); (split; [apply grows_refl|done])..].
    apply bind_ok in Hr as (m & Hf & [= <- <-]). destruct (flag_ok _ _ _ _ _ Hinv Hf) as (Ha & Hb & Hc). cbn.
    split; [done|]. split; [done|]. by intros i [= <-]. }
  destruct (set_exports_ok n (module r1) (ei_name x) v H1 H3) as [H4 H5]. split; [done|]. exact (grows_trans _ _ _ _ _ H2 H5).
Qed.

(** Recording a segment. *)
Lemma push_segment_ok n m s active : mod_inv n m -> elements_escape m (ts_elements s) ->
  let ti := table_initializers m in
  let m' := set_active_table_initializers active
              (set_table_initializers (mkTableInitializers (initial_values ti) (segments ti ++ [s])) m) in
  mod_inv n m' /\ grows 0 m m'.
Proof.
  intros [H1 H2 H3 H4 H5 H6 H7 H8 H9 H10 H11 H12 H13 H14] Hs ti m'. subst m' ti. split; [|split; [unfold total; cbn; lia|done..]].
  split; cbn; try done. apply list.Forall_app. split; [done|]. by constructor.
Qed.

Lemma push_passive_ok n m i e : mod_inv n m -> elements_escape m e ->
  let m' := set_passive_table_initializers (<[i := e]> (passive_table_initializers m)) m in
  mod_inv n m' /\ grows 0 m m'.
Proof.
  intros [H1 H2 H3 H4 H5 H6 H7 H8 H9 H10 H11 H12 H13 H14] He m'. subst m'. split; [|split; [unfold total; cbn; lia|done..]].
  split; cbn; try done. by apply map_Forall_insert_2.
Qed.

(** The loop over the expressions of a segment: those converted so far escape. *)
Lemma element_expressions_ok dbg n l out m out' m' : mod_inv n m -> Forall (refs_escape m) out ->
  for_each (fun st expr => r ← convert_and_flag dbg st.2 expr; Ok (st.1 ++ [r.1], r.2)) l (out, m) = Ok (out', m') ->
  mod_inv n m' /\ grows 0 m m' /\ Forall (refs_escape m') out'.
Proof.
  revert out m. induction l as [|x l IH]; intros out m Hinv Ho; unfold for_each; cbn [foldM].
  - intros [= <- <-]. split; [done|]. split; [apply grows_refl|done].
  - destruct x as [e|e]; [done|]. cbn [fst snd]. destruct (convert_and_flag dbg m e) as [[ce m1]| |] eqn:Hc; [|done..].
    destruct (convert_and_flag_ok _ _ _ _ _ _ Hinv Hc) as (H1 & H2 & H3). intros Hrest.
    destruct (IH (out ++ [ce]) m1 H1) as (H4 & H5 & H6); [|exact Hrest|].
    { apply list.Forall_app. split; [|by constructor]. eapply list.Forall_impl; [exact Ho|].
      intros y. apply refs_escape_mono, H2. }
    split; [done|]. split; [exact (grows_trans _ _ _ _ _ H2 H5)|done].
Qed.

Lemma translate_elements_ok dbg n m items v m' : mod_inv n m -> translate_elements dbg m items = Ok (v, m') ->
  mod_inv n m' /\ grows 0 m m' /\ elements_escape m' v.
Proof.
  intros Hinv. destruct items as [l|l]; cbn [translate_elements].
  - intros (out & _ & [= <- <-])%bind_ok. split; [done|]. split; [apply grows_refl|done].
  - intros ([out m1] & Hl & [= <- <-])%bind_ok. by eapply element_expressions_ok.
Qed.

Lemma translate_element_ok dbg n st x st' : mod_inv n st.1 -> translate_element dbg st x = Ok st' -> mod_inv n st'.1 /\ grows 0 st.1 st'.1.
Proof.
  destruct st as [m i]. cbn [fst]. intros Hinv. unfold translate_element.
  intros (ei & _ & ([v m1] & He & (m2 & Hk & [= <-])%bind_ok)%bind_ok)%bind_ok. cbn [fst snd] in *.
  destruct (translate_elements_ok _ _ _ _ _ _ Hinv He) as (H1 & H2 & Hv).
  assert (mod_inv n m2 /\ grows 0 m1 m2) as [H3 H4].
  { destruct (el_kind x).
    - apply bind_ok in Hk as (o & _ & ([] & _ & [= <-])%bind_ok). by apply push_segment_ok.
    - injection Hk as <-. by apply push_passive_ok.
    - injection Hk as <-. split; [done|apply grows_refl]. }
  split; [done|]. exact (grows_trans _ _ _ _ _ H2 H4).
Qed.

Lemma translate_data_ok dbg n st x st' : mod_inv n st.1 -> translate_data dbg st x = Ok st' -> mod_inv n st'.1 /\ grows 0 st.1 st'.1.
Proof.
  destruct st as [m i]. cbn [fst]. intros Hinv. unfold translate_data.
  intros (ei & _ & (m2 & Hk & [= <-])%bind_ok)%bind_ok. cbn [fst snd] in *. destruct (da_kind x).
  - apply bind_ok in Hk as (o & _ & ([] & _ & [= <-])%bind_ok). apply same_entities_ok; [by split|done].
  - injection Hk as <-. apply same_entities_ok; [by split|done].
Qed.

Lemma translate_name_ok {B} n (r : ModuleTranslation B) x r' : mod_inv n (module r) -> translate_name r x = Ok r' ->
  mod_inv n (module r') /\ grows 0 (module r) (module r').
Proof.
  intros Hinv. destruct x; cbn [translate_name]; intros H;
    try (apply bind_ok in H as (y & _ & [= <-]); split; [done|apply grows_refl]).
  - injection H as <-. apply same_entities_ok; [by split|done].
  - injection H as <-. split; [done|apply grows_refl].
Qed.

Lemma translate_producers_ok {B} n (r : ModuleTranslation B) x r' : mod_inv n (module r) -> translate_producers_field r x = Ok r' ->
  mod_inv n (module r') /\ grows 0 (module r) (module r').
Proof.
  intros Hinv. unfold translate_producers_field. rewrite <- (Z.mul_0_l (pm_len (pf_values x))).
  repeat case_bool_decide; try done; intros Hl; refine (for_each_ok module n 0 _ _ r r' _ Hinv Hl);
    intros s y s' Hs [= <-]; (split; [done|apply grows_refl]).
Qed.
