(* ===== verification/ModuleTranslatorSpec.v ===== *)
(** * Translating a whole module

    The invariants of [ModuleTranslatorInv] and [ModuleTranslatorTypes] carried
    through [translate_payload] and [translate], and what the rest of the virtual
    machine gets from them. *)
From stdpp Require Import base list gmap option strings numbers.
From S2P Require Import Prelude Types TypeTrace Module ModuleTypes VMVal ConstEval ModuleTranslator ModuleTranslatorTypes ModuleTranslatorInv.
Local Open Scope Z_scope.

Definition is_type_section {B C} (p : Payload B C) : bool := match p with TypeSection _ => true | _ => false end.

(** Entities a payload declares. *)
Definition items {B C} (p : Payload B C) : Z :=
  match p with
  | ImportSection l => pm_len l
  | FunctionSection l => pm_len l
  | TableSection l => pm_len l
  | MemorySection l => pm_len l
  | GlobalSection l => pm_len l
  | _ => 0
  end.

Lemma items_nonneg {B C} (p : Payload B C) : 0 <= items p.
Proof. destruct p; cbn; unfold pm_len; lia. Qed.

Lemma grows_0 k m m' : grows (0 * k) m m' -> grows 0 m m'.
Proof. by rewrite Z.mul_0_l. Qed.
Lemma grows_1 k m m' : grows (1 * k) m m' -> grows k m m'.
Proof. by rewrite Z.mul_1_l. Qed.

Section Payloads.
Context {V B C : Type} (dbg : bool) (validator_types : V -> option ValidatorTypes)
  (validate : V -> Payload B C -> Error + V) (other_custom : C -> outcome Error unit).
Abbreviation handle_payload := (handle_payload dbg validator_types other_custom).
Abbreviation translate_payload := (translate_payload dbg validator_types validate other_custom).

Definition mod_of (s : ModuleTranslator (V:=V) (B:=B)) : TranslatedModule := module (result s).

(** Every payload but the type section. *)
Lemma handle_payload_ok n (s : ModuleTranslator) (p : Payload B C) s' :
  is_type_section p = false -> mod_inv n (mod_of s) -> handle_payload s p = Ok s' ->
  mod_inv n (mod_of s') /\ grows (items p) (mod_of s) (mod_of s') /\ tr_types s' = tr_types s.
Proof.
  intros Hp Hinv. unfold mod_of in *.
  assert (Hwm : forall f s', with_module s f = Ok s' ->
    exists m, f (module (result s)) = Ok m /\ module (result s') = m /\ tr_types s' = tr_types s)
    by (intros f s1 (m & Hm & [= <-])%bind_ok; by exists m).
  assert (Hsame : mod_inv n (module (result s)) /\ grows 0 (module (result s)) (module (result s)) /\ tr_types s = tr_types s)
    by (split; [done|]; split; [apply grows_refl|done]).
  assert (Hand : forall P Q R : Prop, R -> P /\ Q -> P /\ Q /\ R) by tauto.
  destruct p as [|count|l|l|l|l| |l|l|f|l| |l|a|body|l|[e|l]|l|c| | |]; cbn [ModuleTranslator.handle_payload items] in *;
    try done; try (by intros [= <-]);
    try (intros (m & Hm & Em & Et)%Hwm; rewrite Em; apply Hand; [exact Et|]; clear Em Et).
  - eapply (for_each_ok id n 1) in Hm as [Ha Hb%grows_1]; [done|intros; by eapply translate_import_ok|done].
  - by eapply translate_functions_ok.
  - eapply (for_each_ok id n 1) in Hm as [Ha Hb%grows_1]; [done|intros; by eapply translate_table_ok|done].
  - by eapply translate_memories_ok.
  - eapply (for_each_ok id n 1) in Hm as [Ha Hb%grows_1]; [done|intros; by eapply translate_global_ok|done].
  - intros (r & Hr & [= <-])%bind_ok. cbn [result set_result tr_types].
    eapply (for_each_ok module n 0) in Hr as [Ha Hb%grows_0]; [done|intros; by eapply translate_export_ok|done].
  - injection Hm as <-. apply same_entities_ok; [by split|done].
  - apply bind_ok in Hm as ([m1 i] & Hm & [= <-]).
    eapply (for_each_ok fst n 0) in Hm as [Ha Hb%grows_0]; [done|intros; by eapply translate_element_ok|done].
  - apply bind_ok in Hm as ([m1 i] & Hm & [= <-]).
    eapply (for_each_ok fst n 0) in Hm as [Ha Hb%grows_0]; [done|intros; by eapply translate_data_ok|done].
  - intros (r & Hr & [= <-])%bind_ok. cbn [result set_result tr_types].
    eapply (for_each_ok module n 0) in Hr as [Ha Hb%grows_0]; [done|intros; by eapply translate_name_ok|done].
  - intros (r & Hr & [= <-])%bind_ok. cbn [result set_result tr_types].
    eapply (for_each_ok module n 0) in Hr as [Ha Hb%grows_0]; [done|intros; by eapply translate_producers_ok|done].
  - intros (r & (es & _ & (fs & _ & [= <-])%bind_ok)%bind_ok & [= <-])%bind_ok. done.
  - intros (u & _ & [= <-])%bind_ok. done.
Qed.

(** *** The type section *)
Hypothesis validator_types_lawful : forall v vt, validator_types v = Some vt -> exists groups, validator_types_ok vt groups.

(** [seen]: a type section has been translated. *)
Record tr_inv (seen : bool) (s : ModuleTranslator) : Prop := {
  ti_builder : builder_inv (tr_types s);
  ti_mod : mod_inv (len_wasm_types (b_types (tr_types s))) (mod_of s);
  ti_new : seen = false -> types (mod_of s) = [] /\ exists id, tr_types s = builder_new id }.

Lemma translator_new_inv v id : tr_inv false (translator_new v id).
Proof.
  split; [apply builder_new_inv|apply mod_inv_default|]. intros _. split; [done|by exists id].
Qed.

Lemma mod_inv_set_types n n' m l : mod_inv n m -> Forall (fun i => 0 <= i < n') l -> mod_inv n' (set_types l m).
Proof. intros [H1 H2 H3 H4 H5 H6 H7 H8 H9 H10 H11 H12 H13 H14] Hl. by split. Qed.

Lemma type_section_ok dbg0 vt groups count m id m' b' :
  validator_types_ok vt groups -> types m = [] ->
  translate_type_section dbg0 (Some vt) count m (builder_new id) = Ok (m', b') ->
  exists mtypes, m' = set_types mtypes m /\ space_inv vt b' mtypes.
Proof.
  intros Hvt Hm. unfold translate_type_section. rewrite Hm. intros (st & H & Hr)%bind_ok.
  destruct (translate_groups_ok vt groups _ [] groups [] (builder_new id) 0 _ _ Hvt eq_refl (loop_inv_new vt id) H)
    as (done & rest & mtypes & b & k & -> & _ & _ & [Hsp _ _]).
  injection Hr as <- <-. by exists mtypes.
Qed.

Lemma handle_type_section_ok count (s : ModuleTranslator) s' :
  tr_inv false s -> handle_payload s (TypeSection count) = Ok s' ->
  tr_inv true s' /\ total (mod_of s') = total (mod_of s).
Proof.
  intros [Hb Hm Hn]. destruct (Hn eq_refl) as (Ht & id & Hid). cbn [ModuleTranslator.handle_payload].
  rewrite Hid. intros ([m1 b1] & H & [= <-])%bind_ok. cbn [fst snd].
  destruct (validator_types (validator s)) as [vt|] eqn:Hv.
  2:{ unfold translate_type_section in H. cbn in H. unfold mod_of in Ht. rewrite Ht in H.
      destruct (Z.to_nat count); [|done]. injection H as <- <-. unfold mod_of in *. cbn in *.
      split; [|done]. split; cbn; [apply builder_new_inv| |done]. rewrite Hid in Hm. 
      by apply (mod_inv_set_types _ _ _ _ Hm). }
  destruct (validator_types_lawful _ _ Hv) as [groups Hvt].
  destruct (type_section_ok _ _ _ _ _ _ _ _ Hvt Ht H) as (mtypes & -> & Hsp). split; [|done].
  split; cbn; [apply (sp_builder _ _ _ Hsp)| |done]. apply (mod_inv_set_types _ _ _ _ Hm), (sp_types _ _ _ Hsp).
Qed.

Lemma translate_payload_handle (s : ModuleTranslator) p s' : translate_payload s p = Ok s' ->
  exists v, handle_payload (mkTranslator (result s) v (tr_types s)) p = Ok s'.
Proof.
  unfold ModuleTranslator.translate_payload. destruct (unvalidated p); [exists (validator s); by destruct s|].
  destruct (validate (validator s) p) as [e|v]; [done|]. by exists v.
Qed.

Lemma translate_payload_ok seen (s : ModuleTranslator) p s' :
  tr_inv seen s -> (is_type_section p = true -> seen = false) -> translate_payload s p = Ok s' ->
  tr_inv (seen || is_type_section p) s' /\ total (mod_of s') <= total (mod_of s) + items p.
Proof.
  intros Hinv Hp (v & H)%translate_payload_handle.
  assert (Hinv' : tr_inv seen (mkTranslator (result s) v (tr_types s))) by (by destruct Hinv; split).
  destruct (is_type_section p) eqn:Ep.
  - rewrite (Hp eq_refl) in *. destruct p; try done.
    destruct (handle_type_section_ok _ _ _ Hinv' H) as [H1 H2]. split; [done|]. rewrite H2. unfold mod_of. cbn [result items]. lia.
  - rewrite orb_false_r. destruct Hinv' as [Hb Hm Hn].
    destruct (handle_payload_ok _ _ _ _ Ep Hm H) as (H1 & H2 & H3). cbn [tr_types] in *.
    split; [|apply H2]. split; rewrite H3; [done|done|]. rewrite (gw_types _ _ _ H2). exact Hn.
Qed.

Fixpoint type_sections (l : reader (Payload B C)) : Z :=
  match l with
  | [] => 0
  | inr p :: l => (if is_type_section p then 1 else 0) + type_sections l
  | inl _ :: l => type_sections l
  end.
Fixpoint entity_count (l : reader (Payload B C)) : Z :=
  match l with
  | [] => 0
  | inr p :: l => items p + entity_count l
  | inl _ :: l => entity_count l
  end.

Lemma type_sections_nonneg l : 0 <= type_sections l.
Proof. induction l as [|[e|p] l IH]; cbn [type_sections]; [lia|done|]. destruct (is_type_section p); lia. Qed.

Lemma payloads_ok payloads seen (s : ModuleTranslator) s' :
  tr_inv seen s -> (if seen then 1 else 0) + type_sections payloads <= 1 ->
  for_each translate_payload payloads s = Ok s' ->
  (exists seen', tr_inv seen' s') /\ total (mod_of s') <= total (mod_of s) + entity_count payloads.
Proof.
  revert seen s; induction payloads as [|[e|p] l IH]; intros seen s Hinv Hts; unfold for_each; cbn [foldM].
  - intros [= <-]. split; [by exists seen|]. cbn. lia.
  - done.
  - destruct (translate_payload s p) as [s1| |] eqn:Hp; [|done..]. intros Hrest. cbn [type_sections] in Hts.
    pose proof (type_sections_nonneg l).
    destruct (translate_payload_ok seen s p s1) as [H1 H2]; [done|intros E; rewrite E in Hts; destruct seen; lia|done|].
    destruct (IH (seen || is_type_section p) s1) as [H3 H4]; [done|destruct seen, (is_type_section p); cbn in *; lia|exact Hrest|].
    split; [done|]. cbn [entity_count]. lia.
Qed.

Lemma translate_ok v id payloads r mt :
  type_sections payloads <= 1 ->
  translate dbg validator_types validate other_custom (translator_new v id) payloads = Ok (r, mt) ->
  module_types_wf mt /\ mod_inv (len_wasm_types mt) (module r) /\ total (module r) <= entity_count payloads.
Proof.
  intros Hts. unfold translate. intros (s & Hs & (u & _ & [= <- <-])%bind_ok)%bind_ok.
  destruct (payloads_ok payloads false _ _ (translator_new_inv v id) ltac:(lia) Hs) as [(seen & [Hb Hm _]) Ht].
  split; [apply Hb|]. split; [exact Hm|]. exact Ht.
Qed.
End Payloads.

(** ** Function references *)

(** Function [i] has a slot among the function references of the instance. *)
Definition has_slot (m : TranslatedModule) (i : Z) : Prop :=
  exists f, pm_get (functions m) i = Some f /\ 0 <= func_ref f < num_escaped_functions m.

Lemma escaped_refs_elem fs f : f ∈ fs -> is_escaping f = true -> func_ref f ∈ escaped_refs fs.
Proof. intros Hf He. apply list_elem_of_omap. exists f. by rewrite He. Qed.

Lemma escaping_has_slot n m i : mod_inv n m -> escaping_at m i -> has_slot m i.
Proof.
  intros Hinv (f & Hf & He). exists f. split; [done|].
  assert (func_ref f ∈ seqZ 0 (num_escaped_functions m)) as Hin.
  { rewrite <- (mi_refs _ _ Hinv). apply escaped_refs_elem; [|done]. unfold pm_get in Hf. destruct (0 <=? i); [|done].
    by eapply list_elem_of_lookup_2. }
  apply elem_of_seqZ in Hin. lia.
Qed.

Lemma escaped_refs_inj fs i j f g : NoDup (escaped_refs fs) -> fs !! i = Some f -> fs !! j = Some g ->
  is_escaping f = true -> is_escaping g = true -> func_ref f = func_ref g -> i = j.
Proof.
  revert i j; induction fs as [|x fs IH]; intros i j; [done|]. unfold escaped_refs. cbn [omap list_omap]. fold (escaped_refs fs).
  intros Hnd Hi Hj Hf Hg He.
  assert (Htail : NoDup (escaped_refs fs)) by (destruct (is_escaping x); [by apply list.NoDup_cons in Hnd as [_ ?]|done]).
  destruct i as [|i], j as [|j]; cbn in Hi, Hj; simplify_eq; [done| | |f_equal; by eapply IH].
  - exfalso. rewrite Hf in Hnd. apply list.NoDup_cons in Hnd as [Hn _]. apply Hn. rewrite He.
    apply escaped_refs_elem; [by eapply list_elem_of_lookup_2|done].
  - exfalso. rewrite Hg in Hnd. apply list.NoDup_cons in Hnd as [Hn _]. apply Hn. rewrite <- He.
    apply escaped_refs_elem; [by eapply list_elem_of_lookup_2|done].
Qed.

Lemma escaped_refs_length fs : pm_len (escaped_refs fs) <= pm_len fs.
Proof.
  unfold pm_len. induction fs as [|x fs IH]; cbn; [lia|]. fold (escaped_refs fs). destruct (is_escaping x); cbn; lia.
Qed.

Lemma mod_inv_wf n m : mod_inv n m -> total m < 2 ^ 32 -> module_wf m.
Proof.
  intros [H1 H2 H3 H4 H5 H6 H7 H8 H9 H10 H11 H12 H13 H14] Ht. pose proof (escaped_refs_length (functions m)) as Hl.
  unfold pm_len in Hl. rewrite H9, length_seqZ in Hl. unfold total, pm_len in *.
  split; unfold pm_len; lia.
Qed.

(** The functions a constant expression refers to have slots. *)
Definition refs_have_slots (m : TranslatedModule) (e : ConstExpr) : Prop :=
  forall f, RefFunc f ∈ ops e -> has_slot m f.

Lemma refs_escape_slots n m e : mod_inv n m -> refs_escape m e -> refs_have_slots m e.
Proof. intros Hinv He f Hf. by eapply escaping_has_slot, He. Qed.

(** C34: what a translated module promises to the rest of the virtual machine,
    whatever the binary: its index spaces are well formed (imports within the
    entity maps, sizes within 32 bits), its types are interned and well formed,
    defined tables and globals have exactly one initializer each, and every
    function that is exported, or named by a [ref.func] in the initializer of a
    global, the initial value of a table, or an element expression of an active
    or passive segment, has a function reference slot of its own.  Functions that
    a segment lists by index are not flagged by the code and get no slot. *)
Theorem translate_establishes {V B C} dbg (validator_types : V -> option ValidatorTypes)
    (validate : V -> Payload B C -> Error + V) other_custom v id payloads r mt (m := module r)
    (Hlaw : forall v vt, validator_types v = Some vt -> exists groups, validator_types_ok vt groups)
    (Hts : type_sections payloads <= 1) (Hcount : entity_count payloads < 2 ^ 32)
    (Hok : translate dbg validator_types validate other_custom (translator_new v id) payloads = Ok (r, mt)) :
  module_wf m /\ module_types_wf mt /\ Forall (fun i => 0 <= i < len_wasm_types mt) (types m) /\
  pm_len (initial_values (table_initializers m)) = pm_len (tables m) - num_imported_tables m /\
  pm_len (global_initializers m) = pm_len (globals m) - num_imported_globals m /\
  (forall s i, (s, Ent_Function i) ∈ exports m -> has_slot m i) /\
  Forall (refs_have_slots m) (global_initializers m) /\
  (forall e, TableInitialValue_ConstExpr e ∈ initial_values (table_initializers m) -> refs_have_slots m e) /\
  (forall s es, s ∈ segments (table_initializers m) -> ts_elements s = TSE_Expressions es -> Forall (refs_have_slots m) es) /\
  (forall i es, passive_table_initializers m !! i = Some (TSE_Expressions es) -> Forall (refs_have_slots m) es) /\
  (forall i j f g, pm_get (functions m) i = Some f -> pm_get (functions m) j = Some g ->
     is_escaping f = true -> func_ref f = func_ref g -> i = j).
Proof.
  destruct (translate_ok dbg validator_types validate other_custom Hlaw v id payloads r mt Hts Hok) as (Hmt & Hinv & Ht).
  fold m in Hinv, Ht. split; [eapply mod_inv_wf; [exact Hinv|lia]|]. split; [done|].
  split; [apply (mi_types _ _ Hinv)|]. split; [apply (mi_initial _ _ Hinv)|]. split; [apply (mi_ginit _ _ Hinv)|].
  split; [intros s i Hi; by eapply escaping_has_slot, (mi_exports _ _ Hinv)|].
  split; [eapply list.Forall_impl; [apply (mi_gescape _ _ Hinv)|intros e; by eapply refs_escape_slots]|].
  split; [|split; [|split]].
  - intros e He. eapply refs_escape_slots; [done|]. pose proof (mi_tescape _ _ Hinv) as Hf.
    rewrite list.Forall_forall in Hf. exact (Hf _ He).
  - intros s es Hs Hes. pose proof (mi_active _ _ Hinv) as Hf. rewrite list.Forall_forall in Hf. specialize (Hf s Hs).
    rewrite Hes in Hf. eapply list.Forall_impl; [exact Hf|]. intros e. by eapply refs_escape_slots.
  - intros i es Hi. pose proof (mi_passive _ _ Hinv i _ Hi) as Hf. cbn in Hf.
    eapply list.Forall_impl; [exact Hf|]. intros e. by eapply refs_escape_slots.
  - intros i j f g Hi Hj Hf He. pose proof (pm_get_range _ _ _ Hi). pose proof (pm_get_range _ _ _ Hj).
    unfold pm_get in Hi, Hj. rewrite (proj2 (Z.leb_le 0 i)) in Hi by lia. rewrite (proj2 (Z.leb_le 0 j)) in Hj by lia.
    assert (Hg : is_escaping g = true) by (unfold is_escaping in *; by rewrite <- He).
    enough (Z.to_nat i = Z.to_nat j) by lia. eapply escaped_refs_inj; [|exact Hi|exact Hj|done..].
    rewrite (mi_refs _ _ Hinv). apply NoDup_seqZ.
Qed.

(** A module with an imported function, two defined ones, a global that holds a
    reference to the first of them, and an export of the second. *)
Definition example_payloads : reader (Payload unit unit) :=
  inr <$> [Version; TypeSection 3;
    ImportSection [inr (mkImportItem "env" "f" (TR_Func 1))];
    FunctionSection [inr 1; inr 3];
    GlobalSection [inr (mkGlobalItem (mkGlobalType (wasmparser.Ref (wasmparser.mkRef true (wasmparser.Abstract false wasmparser.Func))) true false)
      [inr (O_RefFunc 1, 0); inr (O_End, 1)])];
    ExportSection [inr (mkExportItem "g" EK_Func 2)]; CodeSectionStart 7; CodeSectionEntry tt; CodeSectionEntry tt; End_].

Definition example_translate (dbg : bool) (payloads : reader (Payload unit unit)) : outcome Error (ModuleTranslation unit * ModuleTypes) :=
  translate dbg (fun _ : unit => Some example_validator_types) (fun _ _ => inr tt) (fun _ => Ok tt) (translator_new tt 1) payloads.

Lemma example_lawful : forall (v : unit) vt, Some example_validator_types = Some vt -> exists groups, validator_types_ok vt groups.
Proof. intros v vt [= <-]. exists [7; 9; 7]. apply example_validator_types_ok. Qed.

Lemma translate_establishes_witness : exists r mt,
  example_translate true example_payloads = Ok (r, mt) /\ module_wf (module r) /\ has_slot (module r) 2.
Proof.
  assert (exists r mt, example_translate true example_payloads = Ok (r, mt) /\ ("g"%string, Ent_Function 2) ∈ exports (module r))
    as (r & mt & H & He).
  { let x := eval vm_compute in (example_translate true example_payloads) in
      lazymatch x with Ok (?r, ?mt) => exists r, mt end. split; [vm_compute; reflexivity|by left]. }
  exists r, mt. split; [exact H|].
  destruct (translate_establishes true (fun _ : unit => Some example_validator_types) (fun _ _ => inr tt) (fun _ => Ok tt)
    tt 1 example_payloads r mt example_lawful) as (Hwf & _ & _ & _ & _ & Hexp & _); [done|done|exact H|].
  split; [exact Hwf|]. exact (Hexp _ _ He).
Defined.

(** *** Target features *)

(** A section that has a feature under another prefix than [+] panics. *)
Lemma other_feature_prefix_panics {B} (r : ModuleTranslation B) prefix name l :
  prefix <> 43 -> parse_target_feature_section (Some (inr (prefix, name) :: l)) r = Panic.
Proof. intros H. unfold parse_target_feature_section. cbn. by rewrite (proj2 (Z.eqb_neq _ _) H). Qed.

(** *** Producers *)

(** A producers section with a field other than the three known ones panics. *)
Lemma unknown_producers_field_panics {B} (r : ModuleTranslation B) name values :
  name ∉ ["language"; "processed-by"; "sdk"]%string ->
  translate_producers_section [inr (mkProducersField name values)] r = Panic.
Proof.
  intros Hn. unfold translate_producers_section, for_each, foldM, translate_producers_field. cbn [pf_name].
  rewrite !bool_decide_false; [done|..]; intros ->; apply Hn; set_solver.
Qed.
