(* ===== verification/ModuleTranslatorImports.v ===== *)
(** * Imports come first

    In every index space of a translated module the imported entities precede
    the defined ones, in the order of the import section: this is what the
    conversions between defined and module-wide indices rely on. *)
From stdpp Require Import base list gmap option strings numbers.
From S2P Require Import Prelude Types TypeTrace Module ModuleTypes VMVal ConstEval ModuleTranslator ModuleTranslatorTypes ModuleTranslatorInv ModuleTranslatorSpec.
Local Open Scope Z_scope.

(** ** Extending the index spaces *)
Definition part {A} (exact : bool) (l l' : list A) : Prop := if exact then l' = l else l `prefix_of` l'.

#[global] Instance part_refl {A} exact : Reflexive (part (A:=A) exact).
Proof. intros l. destruct exact; [done|]. by exists []; rewrite app_nil_r. Qed.
#[global] Instance part_trans {A} exact : Transitive (part (A:=A) exact).
Proof. intros l1 l2 l3. destruct exact; cbn; [congruence|]. by intros ? ?; etransitivity. Qed.
Lemma part_weaken {A} exact (l l' : list A) : part exact l l' -> part false l l'.
Proof. destruct exact; [intros ->; reflexivity|done]. Qed.
Lemma part_push {A} (l : list A) x : part false l (pm_push l x).
Proof. by exists [x]. Qed.

Definition signatures (m : TranslatedModule) : list Z := signature <$> functions m.

(** Nothing is imported; with [exact], nothing is defined either. *)
Record extends (exact : bool) (m m' : TranslatedModule) : Prop := {
  ex_sigs : part exact (signatures m) (signatures m');
  ex_tables : part exact (tables m) (tables m');
  ex_memories : part exact (memories m) (memories m');
  ex_globals : part exact (globals m) (globals m');
  ex_imports : imports m' = imports m;
  ex_nf : num_imported_functions m' = num_imported_functions m;
  ex_nt : num_imported_tables m' = num_imported_tables m;
  ex_nm : num_imported_memories m' = num_imported_memories m;
  ex_ng : num_imported_globals m' = num_imported_globals m;
  ex_types : types m `prefix_of` types m' }.

#[global] Instance extends_refl exact : Reflexive (extends exact).
Proof. intros m. by split. Qed.
#[global] Instance extends_trans exact : Transitive (extends exact).
Proof. intros m1 m2 m3 [] []. split; try congruence; by etransitivity. Qed.
Lemma extends_weaken m m' : extends true m m' -> extends false m m'.
Proof. intros []. split; try done; by eapply part_weaken. Qed.

Lemma for_each_rel {S A} (R : S -> S -> Prop) `{!Reflexive R, !Transitive R} (f : S -> A -> outcome Error S) items s s' :
  (forall s x s', f s x = Ok s' -> R s s') -> for_each f items s = Ok s' -> R s s'.
Proof.
  intros Hf. apply (foldM_ind (R s)); [done|]. intros s1 [e|x] s2 _ H1; [done|]. intros H2%Hf. by etransitivity.
Qed.

(** Lifting [extends] along a projection. *)
Definition along {S} (proj : S -> TranslatedModule) (exact : bool) (s s' : S) : Prop := extends exact (proj s) (proj s').
#[global] Instance along_refl {S} (proj : S -> TranslatedModule) exact : Reflexive (along proj exact).
Proof. intros s. unfold along. reflexivity. Qed.
#[global] Instance along_trans {S} (proj : S -> TranslatedModule) exact : Transitive (along proj exact).
Proof. intros s1 s2 s3. unfold along. apply extends_trans. Qed.

Lemma flag_extends dbg m i m' : flag_func_as_escaped dbg m i = Ok m' -> extends true m m'.
Proof.
  unfold flag_func_as_escaped. intros (f & Hf & H)%bind_ok. destruct (is_escaping f); [injection H as <-; reflexivity|].
  apply bind_ok in H as ([] & _ & (k & _ & [= <-])%bind_ok). split; try done. cbn.
  unfold signatures. cbn. unfold pm_set. rewrite list_fmap_insert. apply list_insert_id.
  unfold pm_index in Hf. apply unwrap_ok in Hf. unfold pm_get in Hf. destruct (0 <=? i); [|done].
  by rewrite list_lookup_fmap, Hf.
Qed.

Lemma convert_and_flag_extends dbg m e ce m' : convert_and_flag dbg m e = Ok (ce, m') -> extends true m m'.
Proof.
  unfold convert_and_flag. intros (r & _ & (m1 & Hf & [= _ <-])%bind_ok)%bind_ok.
  revert Hf. apply (foldM_ind (extends true m)); [reflexivity|]. intros m1' i m2 _ H1 H2%flag_extends. by etransitivity.
Qed.

Lemma function_section_extends l m m' : translate_function_section l m = Ok m' -> extends false m m'.
Proof.
  apply (for_each_rel (extends false)). intros s x s' [= <-]. split; try done. cbn. unfold signatures, pm_push. cbn.
  rewrite fmap_app. by eexists.
Qed.

Lemma memory_section_extends l m m' : translate_memory_section l m = Ok m' -> extends false m m'.
Proof.
  apply (for_each_rel (extends false)). intros s x s' (d & _ & [= <-])%bind_ok. split; try done. apply part_push.
Qed.

Lemma table_section_extends dbg mt l m m' : translate_table_section dbg mt l m = Ok m' -> extends false m m'.
Proof.
  apply (for_each_rel (extends false)). intros s x s'. unfold translate_table.
  intros (plan & _ & ([v m1] & Hv & [= <-])%bind_ok)%bind_ok. cbn [fst snd].
  transitivity (set_tables (pm_push (tables s) plan) s); [split; try done; apply part_push|].
  transitivity m1; [|split; try done; reflexivity].
  destruct (ti_init x); [injection Hv as <- <-; reflexivity|].
  apply bind_ok in Hv as ([ce m2] & Hc%convert_and_flag_extends%extends_weaken & [= <- <-]). done.
Qed.

Lemma global_section_extends dbg mt l m m' : translate_global_section dbg mt l m = Ok m' -> extends false m m'.
Proof.
  apply (for_each_rel (extends false)). intros s x s'. unfold translate_global.
  intros (d & _ & ([ce m1] & Hc%convert_and_flag_extends%extends_weaken & [= <-])%bind_ok)%bind_ok. cbn [fst snd].
  transitivity (set_globals (pm_push (globals s) d) s); [split; try done; apply part_push|].
  transitivity m1; [done|]. split; try done; reflexivity.
Qed.

Lemma export_section_extends {B} dbg l (r r' : ModuleTranslation B) :
  translate_export_section dbg l r = Ok r' -> extends true (module r) (module r').
Proof.
  apply (for_each_rel (along module true)). intros s x s'. unfold translate_export, along.
  intros ([v r1] & Hr & [= <-])%bind_ok. cbn. transitivity (module r1); [|by split].
  destruct (ei_kind x); [|injection Hr as <- <-; reflexivity..].
  apply bind_ok in Hr as (m & Hf%flag_extends & [= <- <-]). done.
Qed.

Lemma elements_extends dbg m items v m' : translate_elements dbg m items = Ok (v, m') -> extends true m m'.
Proof.
  destruct items as [l|l]; cbn [translate_elements].
  - intros (out & _ & [= _ <-])%bind_ok. reflexivity.
  - intros ([out m1] & Hl & [= _ <-])%bind_ok. apply (for_each_rel (along snd true)) in Hl; [done|].
    intros [o m2] e [o' m3]. cbn [fst snd]. by intros ([ce m4] & Hc%convert_and_flag_extends & [= <- <-])%bind_ok.
Qed.

Lemma element_section_extends dbg l m m' : translate_element_section dbg l m = Ok m' -> extends true m m'.
Proof.
  intros ([m1 i] & H & [= <-])%bind_ok. apply (for_each_rel (along fst true)) in H; [done|].
  intros [m2 j] x st'. unfold translate_element.
  intros (ei & _ & ([v m3] & He%elements_extends & (m4 & Hk & [= <-])%bind_ok)%bind_ok)%bind_ok. unfold along. cbn [fst snd] in *.
  transitivity m3; [done|]. destruct (el_kind x).
  - by apply bind_ok in Hk as (o & _ & ([] & _ & [= <-])%bind_ok).
  - by injection Hk as <-.
  - injection Hk as <-. reflexivity.
Qed.

Lemma data_section_extends dbg l m m' : translate_data_section dbg l m = Ok m' -> extends true m m'.
Proof.
  intros ([m1 i] & H & [= <-])%bind_ok. apply (for_each_rel (along fst true)) in H; [done|].
  intros [m2 j] x st'. unfold translate_data. intros (ei & _ & (m4 & Hk & [= <-])%bind_ok)%bind_ok. unfold along. cbn [fst snd] in *.
  destruct (da_kind x); [by apply bind_ok in Hk as (o & _ & ([] & _ & [= <-])%bind_ok)|by injection Hk as <-].
Qed.

Lemma name_section_extends {B} l (r r' : ModuleTranslation B) :
  translate_name_section l r = Ok r' -> extends true (module r) (module r').
Proof.
  apply (for_each_rel (along module true)). intros s x s' H. unfold along. destruct x; cbn [translate_name] in H;
    try (apply bind_ok in H as (y & _ & [= <-]); reflexivity); by injection H as <-.
Qed.

Lemma producers_section_extends {B} l (r r' : ModuleTranslation B) :
  translate_producers_section l r = Ok r' -> extends true (module r) (module r').
Proof.
  apply (for_each_rel (along module true)). intros s x s'. unfold translate_producers_field.
  repeat case_bool_decide; try done; apply (for_each_rel (along module true)); intros s1 y s2 [= <-]; unfold along; reflexivity.
Qed.

Lemma translate_groups_prefix dbg types0 count mtypes b k mtypes' b' k' :
  translate_groups dbg types0 count (mtypes, b, k) = Ok (mtypes', b', k') -> mtypes `prefix_of` mtypes'.
Proof.
  revert mtypes b k; induction count as [|count IH]; intros mtypes b k; cbn [translate_groups]; [by intros [= -> _ _]|].
  intros (st & H & Hr)%bind_ok. destruct types0 as [vt|]; [|done]. cbn in H.
  apply bind_ok in H as (cid & _ & (u & _ & (x & _ & (els & _ & (len & _ & (k1 & _ & [= <-])%bind_ok)%bind_ok)%bind_ok)%bind_ok)%bind_ok).
  apply IH in Hr. etransitivity; [|exact Hr]. by exists els.
Qed.

Lemma type_section_extends dbg types0 count m b m' b' :
  translate_type_section dbg types0 count m b = Ok (m', b') -> extends true m m'.
Proof.
  unfold translate_type_section. intros ([[mtypes b1] k] & H%translate_groups_prefix & [= <- <-])%bind_ok. by split.
Qed.

(** ** The imported part of an index space *)
Definition imported_functions (l : list Import) : list CTI :=
  omap (fun i => match imp_ty i with EntityType_Function c => Some c | _ => None end) l.
Definition imported_tables (l : list Import) : list TableDesc :=
  omap (fun i => match imp_ty i with EntityType_Table t => Some t | _ => None end) l.
Definition imported_memories (l : list Import) : list MemoryDesc :=
  omap (fun i => match imp_ty i with EntityType_Memory x => Some x | _ => None end) l.
Definition imported_globals (l : list Import) : list GlobalDesc :=
  omap (fun i => match imp_ty i with EntityType_Global g => Some g | _ => None end) l.

(** A signature is the type the import declares. *)
Definition declares (mtypes : list Z) (sig : Z) (c : CTI) : Prop :=
  exists i, pm_get mtypes sig = Some i /\ c = Module_ i.

(** The index spaces start with (with [exact], consist of) the imports. *)
Record import_prefix (exact : bool) (m : TranslatedModule) : Prop := {
  ip_funcs : exists sigs, Forall2 (declares (types m)) sigs (imported_functions (imports m)) /\
    part exact sigs (signatures m) /\ num_imported_functions m = pm_len sigs;
  ip_tables : part exact (imported_tables (imports m)) (tables m) /\
    num_imported_tables m = pm_len (imported_tables (imports m));
  ip_memories : part exact (imported_memories (imports m)) (memories m) /\
    num_imported_memories m = pm_len (imported_memories (imports m));
  ip_globals : part exact (imported_globals (imports m)) (globals m) /\
    num_imported_globals m = pm_len (imported_globals (imports m)) }.

Lemma import_prefix_default : import_prefix true default_module.
Proof. split; [exists []; by repeat split|done..]. Qed.

Lemma part_and {A} e e' (l1 l2 l3 : list A) : part e l1 l2 -> part e' l2 l3 -> part (e && e') l1 l3.
Proof.
  intros H1 H2. destruct e, e'; cbn in *; subst; try done; by etransitivity.
Qed.

Lemma declares_mono mtypes mtypes' sigs cs : mtypes `prefix_of` mtypes' ->
  Forall2 (declares mtypes) sigs cs -> Forall2 (declares mtypes') sigs cs.
Proof.
  intros [l ->] H. eapply list.Forall2_impl; [exact H|]. intros sig c (i & Hi & ->). exists i. split; [|done].
  unfold pm_get in *. destruct (0 <=? sig); [|done]. by apply lookup_app_l_Some.
Qed.

Lemma import_prefix_extends e e' m m' : import_prefix e m -> extends e' m m' -> import_prefix (e && e') m'.
Proof.
  intros [(sigs & F1 & F2 & F3) [T1 T2] [M1 M2] [G1 G2]] [E1 E2 E3 E4 E5 E6 E7 E8 E9 E10].
  split; rewrite E5, ?E6, ?E7, ?E8, ?E9; try (split; [by eapply part_and|done]).
  exists sigs. split; [by eapply declares_mono|]. split; [by eapply part_and|done].
Qed.

Lemma omap_snoc {A C} (f : A -> option C) l x : omap f (l ++ [x]) = omap f l ++ option_list (f x).
Proof. rewrite omap_app. cbn. by destruct (f x). Qed.

Lemma part_true_push {A} (l l' : list A) x : part true l l' -> part true (l ++ [x]) (pm_push l' x).
Proof. cbn. by intros ->. Qed.

Lemma translate_import_prefix mt m i m' : import_prefix true m -> translate_import mt m i = Ok m' -> import_prefix true m'.
Proof.
  intros [(sigs & F1 & F2 & F3) [T1 T2] [M1 M2] [G1 G2]]. unfold translate_import. intros ([ty m1] & Hr & [= <-])%bind_ok.
  cbn [fst snd]. destruct (ii_ty i) as [sig|t|t|g|]; [| | | |done];
    apply bind_ok in Hr as (k & [-> _]%add_ok & (x & Hx & [= <- <-])%bind_ok).
  - split; cbn; unfold imported_functions, imported_tables, imported_memories, imported_globals in *; rewrite omap_snoc;
      cbn; rewrite ?app_nil_r; try done.
    exists (sigs ++ [sig]). split; [|split].
    + apply Forall2_app; [done|]. constructor; [|constructor]. apply unwrap_ok in Hx. by exists x.
    + unfold signatures in *. cbn in *. unfold pm_push. by rewrite fmap_app, F2.
    + rewrite F3. unfold pm_len. rewrite length_app. cbn. lia.
  - split; cbn; unfold imported_functions, imported_tables, imported_memories, imported_globals in *; rewrite omap_snoc;
      cbn; rewrite ?app_nil_r; try done; [by exists sigs|].
    rewrite T1, T2. unfold pm_len. rewrite length_app. cbn. split; [done|lia].
  - split; cbn; unfold imported_functions, imported_tables, imported_memories, imported_globals in *; rewrite omap_snoc;
      cbn; rewrite ?app_nil_r; try done; [by exists sigs|].
    rewrite M1, M2. unfold pm_len. rewrite length_app. cbn. split; [done|lia].
  - split; cbn; unfold imported_functions, imported_tables, imported_memories, imported_globals in *; rewrite omap_snoc;
      cbn; rewrite ?app_nil_r; try done; [by exists sigs|].
    rewrite G1, G2. unfold pm_len. rewrite length_app. cbn. split; [done|lia].
Qed.

Lemma import_section_prefix mt l m m' : import_prefix true m -> translate_import_section mt l m = Ok m' -> import_prefix true m'.
Proof.
  intros Hm. apply (foldM_ind (import_prefix true)); [done|]. intros m1 [e|i] m2 _ H1; [done|]. by apply translate_import_prefix.
Qed.

(** ** Whole modules *)
Definition defines {B C} (p : Payload B C) : bool :=
  match p with FunctionSection _ | TableSection _ | MemorySection _ | GlobalSection _ => true | _ => false end.
Definition is_import_section {B C} (p : Payload B C) : bool := match p with ImportSection _ => true | _ => false end.

(** No import section after a section that defines entities, as the order of
    sections in a binary demands. *)
Fixpoint imports_first {B C} (defs : bool) (l : reader (Payload B C)) : bool :=
  match l with
  | [] => true
  | inl _ :: l => imports_first defs l
  | inr p :: l => negb (defs && is_import_section p) && imports_first (defs || defines p) l
  end.

Section Whole.
Context {V B C : Type} (dbg : bool) (validator_types : V -> option ValidatorTypes)
  (validate : V -> Payload B C -> Error + V) (other_custom : C -> outcome Error unit).

Lemma handle_payload_extends (s : ModuleTranslator) (p : Payload B C) s' :
  is_import_section p = false -> handle_payload dbg validator_types other_custom s p = Ok s' ->
  extends (negb (defines p)) (module (result s)) (module (result s')).
Proof.
  intros Hp.
  assert (Hwm : forall f s', with_module s f = Ok s' -> exists m, f (module (result s)) = Ok m /\ module (result s') = m)
    by (intros f s1 (m & Hm & [= <-])%bind_ok; by exists m).
  destruct p as [|count|l|l|l|l| |l|l|f|l| |l|a|body|l|[e|l]|l|c| | |]; cbn [ModuleTranslator.handle_payload defines negb] in *;
    try done; try (by intros [= <-]); try (intros (m & Hm & <-)%Hwm).
  - intros ([m b] & Ht%type_section_extends & [= <-])%bind_ok. done.
  - by eapply function_section_extends.
  - by eapply table_section_extends.
  - by eapply memory_section_extends.
  - by eapply global_section_extends.
  - intros (r & Hr%export_section_extends & [= <-])%bind_ok. done.
  - by eapply element_section_extends.
  - by eapply data_section_extends.
  - intros (r & Hr%name_section_extends & [= <-])%bind_ok. done.
  - intros (r & Hr%producers_section_extends & [= <-])%bind_ok. done.
  - intros (r & (es & _ & (fs & _ & [= <-])%bind_ok)%bind_ok & [= <-])%bind_ok. reflexivity.
  - intros (u & _ & [= <-])%bind_ok. reflexivity.
Qed.

Lemma payloads_imports payloads defs (s s' : ModuleTranslator) :
  import_prefix (negb defs) (module (result s)) -> imports_first defs payloads = true ->
  for_each (translate_payload dbg validator_types validate other_custom) payloads s = Ok s' ->
  exists e, import_prefix e (module (result s')).
Proof.
  revert defs s; induction payloads as [|[e|p] l IH]; intros defs s Hi Hf; unfold for_each; cbn [foldM].
  - intros [= <-]. by exists (negb defs).
  - done.
  - destruct (translate_payload _ _ _ _ s p) as [s1| |] eqn:Hp; [|done..]. cbn [imports_first] in Hf.
    apply andb_true_iff in Hf as [Hf1 Hf2]. apply (IH (defs || defines p)); [|done].
    apply translate_payload_handle in Hp as (v & Hp). destruct (is_import_section p) eqn:Ep.
    + rewrite andb_true_r in Hf1. apply negb_true_iff in Hf1 as ->. destruct p; try done.
      apply bind_ok in Hp as (m & Hm & [= <-]). by eapply import_section_prefix.
    + apply handle_payload_extends in Hp; [|done]. rewrite negb_orb. by eapply import_prefix_extends.
Qed.

(** C36: imports occupy the front of every index space: after translation the
    first [num_imported_*] functions, tables, memories and globals are exactly
    the imported ones, in import order, with the descriptors (for functions,
    the interned types) the import list records for the linker. *)
Theorem imports_precede_definitions v id payloads r mt (m := module r)
    (Horder : imports_first false payloads = true)
    (Hok : translate dbg validator_types validate other_custom (translator_new v id) payloads = Ok (r, mt)) :
  (exists sigs, take (Z.to_nat (num_imported_functions m)) (signatures m) = sigs /\
     Forall2 (declares (types m)) sigs (imported_functions (imports m))) /\
  take (Z.to_nat (num_imported_tables m)) (tables m) = imported_tables (imports m) /\
  take (Z.to_nat (num_imported_memories m)) (memories m) = imported_memories (imports m) /\
  take (Z.to_nat (num_imported_globals m)) (globals m) = imported_globals (imports m).
Proof.
  unfold translate in Hok. apply bind_ok in Hok as (s & Hs & (u & _ & [= <- <-])%bind_ok).
  destruct (payloads_imports payloads false (translator_new v id) s import_prefix_default Horder Hs)
    as (e & [(sigs & F1 & F2 & F3) [T1 T2] [M1 M2] [G1 G2]]).
  assert (Htake : forall A (l l' : list A), part e l l' -> take (Z.to_nat (pm_len l)) l' = l).
  { intros A l l' [k ->]%part_weaken. unfold pm_len. rewrite Nat2Z.id. by rewrite take_app_length. }
  subst m. rewrite F3, T2, M2, G2. split; [exists sigs; split; [by apply Htake|done]|]. split_and!; by apply Htake.
Qed.
End Whole.

Lemma imports_precede_definitions_witness : exists r mt,
  example_translate true example_payloads = Ok (r, mt) /\ num_imported_functions (module r) = 1 /\
  Forall2 (declares (types (module r))) (take 1 (signatures (module r))) (imported_functions (imports (module r))).
Proof.
  assert (exists r mt, example_translate true example_payloads = Ok (r, mt) /\ num_imported_functions (module r) = 1) as (r & mt & H & Hn).
  { let x := eval vm_compute in (example_translate true example_payloads) in
      lazymatch x with Ok (?r, ?mt) => exists r, mt end. split; vm_compute; reflexivity. }
  exists r, mt. split; [exact H|]. split; [exact Hn|].
  destruct (imports_precede_definitions true (fun _ : unit => Some example_validator_types) (fun _ _ => inr tt) (fun _ => Ok tt)
    tt 1 example_payloads r mt eq_refl H) as [(sigs & Hs & Hf) _].
  rewrite Hn in Hs. rewrite <- Hs in Hf. exact Hf.
Defined.
