(* ===== verification/VMOffsets.v ===== *)
(** * Layout of the [VMContext] ([src/src/runtime/vmoffsets.rs])

    The statically known header and the per-module arrays, with the offset
    accessors used by the runtime and by compiled code.  Struct sizes and field
    offsets of the [repr(C)] types of [src/src/runtime/vmcontext.rs] are
    computed from their field lists on a 64-bit target.  All sums are on [u8]
    (header) or [u32] (arrays) and panic on overflow. *)
From stdpp Require Import base list option numbers.
From S2P Require Import Prelude Types Module.
Local Open Scope Z_scope.

(** ** [repr(C)] layout *)
Definition align_up (x a : Z) : Z := (x + a - 1) / a * a.

(** Offsets of the fields [(size, align)] from offset [o] on, and the end. *)
Fixpoint place (fields : list (Z * Z)) (o : Z) : list Z * Z :=
  match fields with
  | [] => ([], o)
  | (sz, al) :: rest =>
      let off := align_up o al in
      let r := place rest (off + sz) in
      (off :: r.1, r.2)
  end.

(** Size and field offsets of a [repr(C, align(min_align))] struct. *)
Definition repr_c_align (fields : list (Z * Z)) (min_align : Z) : Z :=
  foldr Z.max min_align (snd <$> fields).
Definition repr_c (fields : list (Z * Z)) (min_align : Z) : list Z * Z :=
  let r := place fields 0 in
  (r.1, align_up r.2 (repr_c_align fields min_align)).

Definition ptr : Z * Z := (8, 8).
Definition u32_field : Z * Z := (4, 4).
Definition u64_field : Z * Z := (8, 8).

(** The structs of [vmcontext.rs]. *)
Definition VMFuncRef_layout := repr_c [ptr; ptr; ptr; u32_field] 1.
Definition VMFunctionImport_layout := repr_c [ptr; ptr; ptr] 1.
Definition VMTableImport_layout := repr_c [ptr; ptr] 1.
Definition VMMemoryImport_layout := repr_c [ptr; ptr] 1.
Definition VMGlobalImport_layout := repr_c [ptr; ptr] 1.
Definition VMTableDefinition_layout := repr_c [ptr; u64_field] 1.
Definition VMMemoryDefinition_layout := repr_c [ptr; u64_field] 1.
Definition VMGlobalDefinition_layout := repr_c [(16, 1)] 16.
Definition VMGlobalDefinition_align : Z := repr_c_align [(16, 1)] 16.

(** [u32_size_of] and [u32_offset_of!]. *)
Definition u32_size_of {E} (l : list Z * Z) : outcome E Z := unwrap (try_from 32 l.2).
Definition u32_offset_of {E} (l : list Z * Z) (field : nat) : outcome E Z :=
  o ← unwrap (l.1 !! field); unwrap (try_from 32 o).

(** ** [StaticVMOffsets] *)
Record StaticVMOffsets : Type := mkStatic { ptr_size : Z }.

Section Static.
Context {E : Type} (s : StaticVMOffsets).
Definition vmctx_magic : outcome E Z := Ok 0.
Definition vmctx_builtin_functions : outcome E Z := o ← vmctx_magic; add 8 o (ptr_size s).
Definition vmctx_type_ids : outcome E Z := o ← vmctx_builtin_functions; add 8 o (ptr_size s).
Definition vmctx_stack_limit : outcome E Z := o ← vmctx_type_ids; add 8 o (ptr_size s).
Definition vmctx_last_wasm_exit_fp : outcome E Z := o ← vmctx_stack_limit; add 8 o (ptr_size s).
Definition vmctx_last_wasm_exit_pc : outcome E Z := o ← vmctx_last_wasm_exit_fp; add 8 o (ptr_size s).
Definition vmctx_last_wasm_entry_fp : outcome E Z := o ← vmctx_last_wasm_exit_pc; add 8 o (ptr_size s).
Definition static_size : outcome E Z := o ← vmctx_last_wasm_entry_fp; add 8 o (ptr_size s).
Definition size_of_vmshared_type_index : Z := 4.
End Static.

(** ** [VMOffsets] *)
Record VMOffsets : Type := mkVMOffsets {
  vo_num_imported_funcs : Z;
  vo_num_imported_tables : Z;
  vo_num_imported_memories : Z;
  vo_num_imported_globals : Z;
  vo_num_defined_tables : Z;
  vo_num_defined_memories : Z;
  vo_num_defined_globals : Z;
  vo_num_escaped_funcs : Z;
  static_ : StaticVMOffsets;
  vo_func_refs : Z;
  vo_imported_functions : Z;
  vo_imported_tables : Z;
  vo_imported_memories : Z;
  vo_imported_globals : Z;
  vo_tables : Z;
  vo_memories : Z;
  vo_globals : Z;
  vo_size : Z }.

(** The closure [member_offset] on an array of [n] members: its offset and the
    running offset after it. *)
Definition member_offset {E} (offset : Z) (l : list Z * Z) (n : Z) : outcome E Z :=
  sz ← u32_size_of l; len ← mul 32 sz n; add 32 offset len.

(** [VMOffsets::for_module]. *)
Definition for_module {E} (ptr_size : Z) (m : TranslatedModule) : outcome E VMOffsets :=
  let static_ := mkStatic ptr_size in
  o0 ← static_size static_;
  ndt ← num_defined_tables m;
  ndm ← num_defined_memories m;
  ndg ← num_defined_globals m;
  o1 ← member_offset o0 VMFuncRef_layout (num_escaped_funcs m);
  o2 ← member_offset o1 VMFunctionImport_layout (num_imported_functions m);
  o3 ← member_offset o2 VMTableImport_layout (num_imported_tables m);
  o4 ← member_offset o3 VMMemoryImport_layout (num_imported_memories m);
  o5 ← member_offset o4 VMGlobalImport_layout (num_imported_globals m);
  o6 ← member_offset o5 VMTableDefinition_layout ndt;
  o7 ← member_offset o6 VMMemoryDefinition_layout ndm;
  o8 ← member_offset o7 VMGlobalDefinition_layout ndg;
  Ok {| vo_num_imported_funcs := num_imported_functions m;
        vo_num_imported_tables := num_imported_tables m;
        vo_num_imported_memories := num_imported_memories m;
        vo_num_imported_globals := num_imported_globals m;
        vo_num_defined_tables := ndt;
        vo_num_defined_memories := ndm;
        vo_num_defined_globals := ndg;
        vo_num_escaped_funcs := num_escaped_funcs m;
        static_ := static_;
        vo_func_refs := o0;
        vo_imported_functions := o1;
        vo_imported_tables := o2;
        vo_imported_memories := o3;
        vo_imported_globals := o4;
        vo_tables := o5;
        vo_memories := o6;
        vo_globals := o7;
        vo_size := o8 |}.

(** ** Accessors *)
Section Accessors.
Context {E : Type} (o : VMOffsets).

(** [begin + index * size_of::<T>()] guarded by the number of members. *)
Definition nth_member (begin_ num : Z) (l : list Z * Z) (index : Z) : outcome E Z :=
  _ ← assert_ (index <? num);
  sz ← u32_size_of l; len ← mul 32 index sz; add 32 begin_ len.

Definition field_of (base : outcome E Z) (l : list Z * Z) (field : nat) : outcome E Z :=
  b ← base; f ← u32_offset_of l field; add 32 b f.

Definition vmctx_func_refs_begin : Z := vo_func_refs o.
Definition vmctx_imported_functions_begin : Z := vo_imported_functions o.
Definition vmctx_imported_tables_begin : Z := vo_imported_tables o.
Definition vmctx_imported_memories_begin : Z := vo_imported_memories o.
Definition vmctx_imported_globals_begin : Z := vo_imported_globals o.
Definition vmctx_tables_begin : Z := vo_tables o.
Definition vmctx_memories_begin : Z := vo_memories o.
Definition vmctx_globals_begin : Z := vo_globals o.

Definition vmctx_vmfunc_ref (index : Z) : outcome E Z :=
  _ ← assert_ (negb (is_reserved_value index));
  nth_member vmctx_func_refs_begin (vo_num_escaped_funcs o) VMFuncRef_layout index.
Definition vmctx_vmfunc_ref_array_call index := field_of (vmctx_vmfunc_ref index) VMFuncRef_layout 0.
Definition vmctx_vmfunc_ref_wasm_call index := field_of (vmctx_vmfunc_ref index) VMFuncRef_layout 1.
Definition vmctx_vmfunc_ref_vmctx index := field_of (vmctx_vmfunc_ref index) VMFuncRef_layout 2.
Definition vmctx_vmfunc_ref_type_index index := field_of (vmctx_vmfunc_ref index) VMFuncRef_layout 3.

Definition vmctx_vmfunction_import (index : Z) : outcome E Z :=
  nth_member vmctx_imported_functions_begin (vo_num_imported_funcs o) VMFunctionImport_layout index.
Definition vmctx_vmfunction_import_wasm_call index :=
  field_of (vmctx_vmfunction_import index) VMFunctionImport_layout 0.
Definition vmctx_vmfunction_import_array_call index :=
  field_of (vmctx_vmfunction_import index) VMFunctionImport_layout 1.
Definition vmctx_vmfunction_import_vmctx index :=
  field_of (vmctx_vmfunction_import index) VMFunctionImport_layout 2.

Definition vmctx_vmtable_import (index : Z) : outcome E Z :=
  nth_member vmctx_imported_tables_begin (vo_num_imported_tables o) VMTableImport_layout index.
Definition vmctx_vmtable_import_from index := field_of (vmctx_vmtable_import index) VMTableImport_layout 0.
Definition vmctx_vmtable_import_vmctx index := field_of (vmctx_vmtable_import index) VMTableImport_layout 1.

Definition vmctx_vmmemory_import (index : Z) : outcome E Z :=
  nth_member vmctx_imported_memories_begin (vo_num_imported_memories o) VMMemoryImport_layout index.
Definition vmctx_vmmemory_import_from index := field_of (vmctx_vmmemory_import index) VMMemoryImport_layout 0.
Definition vmctx_vmmemory_import_vmctx index := field_of (vmctx_vmmemory_import index) VMMemoryImport_layout 1.

Definition vmctx_vmglobal_import (index : Z) : outcome E Z :=
  nth_member vmctx_imported_globals_begin (vo_num_imported_globals o) VMGlobalImport_layout index.
Definition vmctx_vmglobal_import_from index := field_of (vmctx_vmglobal_import index) VMGlobalImport_layout 0.
Definition vmctx_vmglobal_import_vmctx index := field_of (vmctx_vmglobal_import index) VMGlobalImport_layout 1.

Definition vmctx_vmtable_definition (index : Z) : outcome E Z :=
  nth_member vmctx_tables_begin (vo_num_defined_tables o) VMTableDefinition_layout index.
Definition vmctx_vmtable_definition_base index :=
  field_of (vmctx_vmtable_definition index) VMTableDefinition_layout 0.
Definition vmctx_vmtable_definition_current_length index :=
  field_of (vmctx_vmtable_definition index) VMTableDefinition_layout 1.

Definition vmctx_vmmemory_definition (index : Z) : outcome E Z :=
  nth_member vmctx_memories_begin (vo_num_defined_memories o) VMMemoryDefinition_layout index.
Definition vmctx_vmmemory_definition_base index :=
  field_of (vmctx_vmmemory_definition index) VMMemoryDefinition_layout 0.
Definition vmctx_vmmemory_definition_current_length index :=
  field_of (vmctx_vmmemory_definition index) VMMemoryDefinition_layout 1.

Definition vmctx_vmglobal_definition (index : Z) : outcome E Z :=
  nth_member vmctx_globals_begin (vo_num_defined_globals o) VMGlobalDefinition_layout index.
Definition vo_size_ : Z := vo_size o.
End Accessors.

(** ** The layout as a specification *)

(** The fields of a [VMContext]: the header, and the members of the arrays. *)
Inductive vm_field : Type :=
| F_magic | F_builtin_functions | F_type_ids | F_stack_limit
| F_last_wasm_exit_fp | F_last_wasm_exit_pc | F_last_wasm_entry_fp
| F_func_ref (i : Z) | F_imported_function (i : Z) | F_imported_table (i : Z)
| F_imported_memory (i : Z) | F_imported_global (i : Z)
| F_table (i : Z) | F_memory (i : Z) | F_global (i : Z).

Definition member_index (f : vm_field) : Z :=
  match f with
  | F_func_ref i | F_imported_function i | F_imported_table i | F_imported_memory i
  | F_imported_global i | F_table i | F_memory i | F_global i => i
  | _ => 0
  end.

(** Offset and size of a field, through the accessors of the code. *)
Definition field_extent {E} (o : VMOffsets) (f : vm_field) : outcome E (Z * Z) :=
  let member (off : outcome E Z) (l : list Z * Z) := x ← off; Ok (x, l.2) in
  let header (off : outcome E Z) (sz : Z) := x ← off; Ok (x, sz) in
  match f with
  | F_magic => header vmctx_magic 4
  | F_builtin_functions => header (vmctx_builtin_functions (static_ o)) 8
  | F_type_ids => header (vmctx_type_ids (static_ o)) 8
  | F_stack_limit => header (vmctx_stack_limit (static_ o)) 8
  | F_last_wasm_exit_fp => header (vmctx_last_wasm_exit_fp (static_ o)) 8
  | F_last_wasm_exit_pc => header (vmctx_last_wasm_exit_pc (static_ o)) 8
  | F_last_wasm_entry_fp => header (vmctx_last_wasm_entry_fp (static_ o)) 8
  | F_func_ref i => member (vmctx_vmfunc_ref o i) VMFuncRef_layout
  | F_imported_function i => member (vmctx_vmfunction_import o i) VMFunctionImport_layout
  | F_imported_table i => member (vmctx_vmtable_import o i) VMTableImport_layout
  | F_imported_memory i => member (vmctx_vmmemory_import o i) VMMemoryImport_layout
  | F_imported_global i => member (vmctx_vmglobal_import o i) VMGlobalImport_layout
  | F_table i => member (vmctx_vmtable_definition o i) VMTableDefinition_layout
  | F_memory i => member (vmctx_vmmemory_definition o i) VMMemoryDefinition_layout
  | F_global i => member (vmctx_vmglobal_definition o i) VMGlobalDefinition_layout
  end.

(** The size of the [VMContext] of a module. *)
Definition layout_size (m : TranslatedModule) : Z :=
  56 + 32 * num_escaped_functions m + 24 * num_imported_functions m
  + 16 * (num_imported_tables m + num_imported_memories m + num_imported_globals m)
  + 16 * (pm_len (tables m) - num_imported_tables m)
  + 16 * (pm_len (memories m) - num_imported_memories m)
  + 16 * (pm_len (globals m) - num_imported_globals m).

(** The arrays follow the header without gaps, in the order of the documented
    struct. *)
Record layout_ok (o : VMOffsets) : Prop := {
  lo_static : static_ o = mkStatic 8;
  lo_counts : 0 <= vo_num_escaped_funcs o /\ 0 <= vo_num_imported_funcs o /\
    0 <= vo_num_imported_tables o /\ 0 <= vo_num_imported_memories o /\
    0 <= vo_num_imported_globals o /\ 0 <= vo_num_defined_tables o /\
    0 <= vo_num_defined_memories o /\ 0 <= vo_num_defined_globals o;
  lo_func_refs : vo_func_refs o = 56;
  lo_imported_functions : vo_imported_functions o = vo_func_refs o + 32 * vo_num_escaped_funcs o;
  lo_imported_tables : vo_imported_tables o = vo_imported_functions o + 24 * vo_num_imported_funcs o;
  lo_imported_memories : vo_imported_memories o = vo_imported_tables o + 16 * vo_num_imported_tables o;
  lo_imported_globals : vo_imported_globals o = vo_imported_memories o + 16 * vo_num_imported_memories o;
  lo_tables : vo_tables o = vo_imported_globals o + 16 * vo_num_imported_globals o;
  lo_memories : vo_memories o = vo_tables o + 16 * vo_num_defined_tables o;
  lo_globals : vo_globals o = vo_memories o + 16 * vo_num_defined_memories o;
  lo_size : vo_size o = vo_globals o + 16 * vo_num_defined_globals o;
  lo_fits : vo_size o < 2 ^ 32 }.

Lemma member_offset_spec {E} off l n sz :
  l.2 = sz -> 0 <= sz < 2 ^ 32 -> 0 <= off -> 0 <= n ->
  member_offset (E:=E) off l n = ofits 32 (off + sz * n).
Proof.
  intros Hl Hsz Hoff Hn. unfold member_offset, u32_size_of. rewrite Hl, try_from_intro by done. cbn.
  assert (0 <= sz * n) by (apply Z.mul_nonneg_nonneg; lia).
  unfold mul, add. destruct (Z.ltb_spec (sz * n) (2 ^ 32)).
  - by rewrite ofits_intro by lia.
  - rewrite !ofits_panic by lia. done.
Qed.

Lemma ofits_bind {E B} x (k : Z -> outcome E B) (y : B) P :
  0 <= x -> (x < 2 ^ 32 -> k x = if P <? 2 ^ 32 then Ok y else Panic) -> x <= P ->
  (z ← ofits 32 x; k z) = if P <? 2 ^ 32 then Ok y else Panic.
Proof.
  intros H0 Hk Hle. destruct (Z.ltb_spec x (2 ^ 32)).
  - rewrite ofits_intro by lia. cbn. by apply Hk.
  - rewrite ofits_panic by lia. cbn. destruct (Z.ltb_spec P (2 ^ 32)); [lia|done].
Qed.

Lemma num_defined_ok {E} len n :
  0 <= n <= len -> len < 2 ^ 32 ->
  (x ← unwrap (try_from 32 len); sub (E:=E) 32 x n) = Ok (len - n).
Proof. intros Hn Hl. rewrite try_from_intro by lia. cbn. apply ofits_intro. lia. Qed.

(** The layout that [for_module] computes, in closed form. *)
Definition layout_of (m : TranslatedModule) : VMOffsets :=
  let o1 := 56 + 32 * num_escaped_functions m in
  let o2 := o1 + 24 * num_imported_functions m in
  let o3 := o2 + 16 * num_imported_tables m in
  let o4 := o3 + 16 * num_imported_memories m in
  let o5 := o4 + 16 * num_imported_globals m in
  let o6 := o5 + 16 * (pm_len (tables m) - num_imported_tables m) in
  let o7 := o6 + 16 * (pm_len (memories m) - num_imported_memories m) in
  let o8 := o7 + 16 * (pm_len (globals m) - num_imported_globals m) in
  mkVMOffsets (num_imported_functions m) (num_imported_tables m) (num_imported_memories m)
    (num_imported_globals m) (pm_len (tables m) - num_imported_tables m)
    (pm_len (memories m) - num_imported_memories m) (pm_len (globals m) - num_imported_globals m)
    (num_escaped_functions m) (mkStatic 8) 56 o1 o2 o3 o4 o5 o6 o7 o8.

Ltac member_step sz :=
  rewrite (member_offset_spec _ _ _ sz); [|reflexivity|lia|lia|lia];
  apply ofits_bind; [lia| |lia]; intros ?.

Lemma for_module_closed {E} m :
  module_wf m ->
  for_module (E:=E) 8 m = if layout_size m <? 2 ^ 32 then Ok (layout_of m) else Panic.
Proof.
  intros []. unfold for_module, num_defined_tables, num_defined_memories, num_defined_globals,
    num_tables, num_memories, num_globals, num_escaped_funcs.
  change (static_size (mkStatic 8)) with (Ok (E:=E) 56). cbn [mbind outcome_bind].
  rewrite !num_defined_ok by lia. cbn [mbind outcome_bind]. unfold layout_size.
  member_step 32. member_step 24. do 6 member_step 16.
  destruct (Z.ltb_spec (layout_size m) (2 ^ 32)) as [H'|H']; unfold layout_size in H'; [|lia].
  destruct (Z.ltb_spec (56 + 32 * num_escaped_functions m + 24 * num_imported_functions m
    + 16 * (num_imported_tables m + num_imported_memories m + num_imported_globals m)
    + 16 * (pm_len (tables m) - num_imported_tables m)
    + 16 * (pm_len (memories m) - num_imported_memories m)
    + 16 * (pm_len (globals m) - num_imported_globals m)) (2 ^ 32)); [done|lia].
Qed.

Lemma layout_of_ok m : module_wf m -> layout_size m < 2 ^ 32 -> layout_ok (layout_of m).
Proof. intros [] Hs. unfold layout_size in Hs. split; cbn; try done; lia. Qed.

Lemma nth_member_ok {E} b n l i x sz :
  l.2 = sz -> 0 <= sz < 2 ^ 32 -> nth_member (E:=E) b n l i = Ok x -> i < n /\ x = b + i * sz.
Proof.
  intros Hl Hsz. unfold nth_member, u32_size_of. rewrite Hl, try_from_intro by done. intros H.
  inv_ok. apply Z.ltb_lt in H0. cbn in H1. inv_ok. injection H1 as <-. lia.
Qed.

Lemma nth_member_intro {E} b n l i sz :
  l.2 = sz -> 0 <= sz < 2 ^ 32 -> 0 <= i -> i < n -> 0 <= b -> b + i * sz < 2 ^ 32 ->
  nth_member (E:=E) b n l i = Ok (b + i * sz).
Proof.
  intros Hlz Hsz Hi0 Hin Hb0 Hs. unfold nth_member, u32_size_of.
  rewrite (proj2 (Z.ltb_lt i n)) by lia. rewrite Hlz, try_from_intro by done. cbn.
  assert (0 <= i * sz) by (apply Z.mul_nonneg_nonneg; lia).
  unfold mul, add. rewrite (ofits_intro 32 (i * sz)) by lia. cbn. apply ofits_intro. lia.
Qed.

Lemma nth_member_panic {E} b n l i : n <= i -> nth_member (E:=E) b n l i = Panic.
Proof. intros Hni. unfold nth_member. by rewrite (proj2 (Z.ltb_ge i n)) by lia. Qed.

(** What the accessors return on a laid-out context. *)
Definition extent_spec (o : VMOffsets) (f : vm_field) : Z * Z :=
  match f with
  | F_magic => (0, 4)
  | F_builtin_functions => (8, 8)
  | F_type_ids => (16, 8)
  | F_stack_limit => (24, 8)
  | F_last_wasm_exit_fp => (32, 8)
  | F_last_wasm_exit_pc => (40, 8)
  | F_last_wasm_entry_fp => (48, 8)
  | F_func_ref i => (vo_func_refs o + i * 32, 32)
  | F_imported_function i => (vo_imported_functions o + i * 24, 24)
  | F_imported_table i => (vo_imported_tables o + i * 16, 16)
  | F_imported_memory i => (vo_imported_memories o + i * 16, 16)
  | F_imported_global i => (vo_imported_globals o + i * 16, 16)
  | F_table i => (vo_tables o + i * 16, 16)
  | F_memory i => (vo_memories o + i * 16, 16)
  | F_global i => (vo_globals o + i * 16, 16)
  end.

Definition member_count (o : VMOffsets) (f : vm_field) : Z :=
  match f with
  | F_func_ref _ => vo_num_escaped_funcs o
  | F_imported_function _ => vo_num_imported_funcs o
  | F_imported_table _ => vo_num_imported_tables o
  | F_imported_memory _ => vo_num_imported_memories o
  | F_imported_global _ => vo_num_imported_globals o
  | F_table _ => vo_num_defined_tables o
  | F_memory _ => vo_num_defined_memories o
  | F_global _ => vo_num_defined_globals o
  | _ => 1
  end.

Lemma bind_assert {E B} b (k : unit -> outcome E B) x :
  (u ← assert_ b; k u) = Ok x -> b = true /\ k tt = Ok x.
Proof. destruct b; cbn; [done|discriminate]. Qed.

Lemma field_extent_sound {E} o f x :
  layout_ok o -> field_extent (E:=E) o f = Ok x ->
  x = extent_spec o f /\ member_index f < member_count o f.
Proof.
  intros Hl. destruct f; cbn [field_extent extent_spec member_index member_count];
    try (rewrite (lo_static _ Hl); cbn; intros [= <-]; by split).
  - intros [= <-]; by split.
  - intros (y & (_ & Hn)%bind_assert & [= <-])%bind_ok.
    apply (nth_member_ok _ _ _ _ _ 32) in Hn as [? ->]; [by split|done|lia].
  - intros (y & Hn & [= <-])%bind_ok.
    apply (nth_member_ok _ _ _ _ _ 24) in Hn as [? ->]; [by split|done|lia].
  - intros (y & Hn & [= <-])%bind_ok.
    apply (nth_member_ok _ _ _ _ _ 16) in Hn as [? ->]; [by split|done|lia].
  - intros (y & Hn & [= <-])%bind_ok.
    apply (nth_member_ok _ _ _ _ _ 16) in Hn as [? ->]; [by split|done|lia].
  - intros (y & Hn & [= <-])%bind_ok.
    apply (nth_member_ok _ _ _ _ _ 16) in Hn as [? ->]; [by split|done|lia].
  - intros (y & Hn & [= <-])%bind_ok.
    apply (nth_member_ok _ _ _ _ _ 16) in Hn as [? ->]; [by split|done|lia].
  - intros (y & Hn & [= <-])%bind_ok.
    apply (nth_member_ok _ _ _ _ _ 16) in Hn as [? ->]; [by split|done|lia].
  - intros (y & Hn & [= <-])%bind_ok.
    apply (nth_member_ok _ _ _ _ _ 16) in Hn as [? ->]; [by split|done|lia].
Qed.

(** Which array of the layout a field lives in, its members before it. *)
Definition section_of (o : VMOffsets) (f : vm_field) : nat * (Z * Z) :=
  match f with
  | F_func_ref _ => (1%nat, (vo_func_refs o, vo_imported_functions o))
  | F_imported_function _ => (2%nat, (vo_imported_functions o, vo_imported_tables o))
  | F_imported_table _ => (3%nat, (vo_imported_tables o, vo_imported_memories o))
  | F_imported_memory _ => (4%nat, (vo_imported_memories o, vo_imported_globals o))
  | F_imported_global _ => (5%nat, (vo_imported_globals o, vo_tables o))
  | F_table _ => (6%nat, (vo_tables o, vo_memories o))
  | F_memory _ => (7%nat, (vo_memories o, vo_globals o))
  | F_global _ => (8%nat, (vo_globals o, vo_size o))
  | _ => (0%nat, (0, 56))
  end.

Definition within (x s : Z * Z) : Prop := s.1 <= x.1 /\ x.1 + x.2 <= s.2.
Definition disjoint (x y : Z * Z) : Prop := x.1 + x.2 <= y.1 \/ y.1 + y.2 <= x.1.

Lemma extent_in_section o f :
  layout_ok o -> 0 <= member_index f < member_count o f ->
  within (extent_spec o f) (section_of o f).2.
Proof. intros [] Hf. destruct f; unfold within; cbn in *; lia. Qed.

Lemma section_in_context o f :
  layout_ok o -> 0 <= (section_of o f).2.1 /\ (section_of o f).2.2 <= vo_size o.
Proof. intros [_ (?&?&?&?&?&?&?&?)]. destruct f; cbn; lia. Qed.

Lemma sections_ordered o f g :
  layout_ok o -> ((section_of o f).1 < (section_of o g).1)%nat ->
  (section_of o f).2.2 <= (section_of o g).2.1.
Proof. intros [_ (?&?&?&?&?&?&?&?)]. destruct f, g; cbn; lia. Qed.

Lemma same_section_disjoint o f g :
  layout_ok o -> (section_of o f).1 = (section_of o g).1 -> f <> g ->
  disjoint (extent_spec o f) (extent_spec o g).
Proof.
  intros _ Hs Hne. unfold disjoint.
  destruct f, g; cbn in Hs |- *; try discriminate Hs; try congruence; try lia;
    match goal with
    | i : Z, j : Z |- _ => assert (i <> j) by congruence; lia
    end.
Qed.

Lemma extents_disjoint o f g :
  layout_ok o -> f <> g -> 0 <= member_index f < member_count o f ->
  0 <= member_index g < member_count o g -> disjoint (extent_spec o f) (extent_spec o g).
Proof.
  intros Hl Hne Hf Hg.
  destruct (lt_eq_lt_dec (section_of o f).1 (section_of o g).1) as [[Hlt|Heq]|Hgt];
    [|by apply same_section_disjoint|];
    [apply sections_ordered in Hlt; [|done]|apply sections_ordered in Hgt; [|done]];
    pose proof (extent_in_section _ _ Hl Hf) as [? ?];
    pose proof (extent_in_section _ _ Hl Hg) as [? ?]; unfold disjoint; lia.
Qed.

(** ** The documented struct

    The comment at the top of [vmoffsets.rs] gives the context as a struct; these
    are the sizes and alignments of its fields for a module (its [_padding] is
    what [repr(C)] inserts). *)
Definition documented_fields (m : TranslatedModule) : list (Z * Z) :=
  [u32_field; ptr; ptr; ptr; ptr; ptr; ptr;
   (32 * num_escaped_functions m, 8);
   (24 * num_imported_functions m, 8);
   (16 * num_imported_tables m, 8);
   (16 * num_imported_memories m, 8);
   (16 * num_imported_globals m, 8);
   (16 * (pm_len (tables m) - num_imported_tables m), 8);
   (16 * (pm_len (memories m) - num_imported_memories m), 8);
   (16 * (pm_len (globals m) - num_imported_globals m), VMGlobalDefinition_align)].

Definition header_fields : list vm_field :=
  [F_magic; F_builtin_functions; F_type_ids; F_stack_limit; F_last_wasm_exit_fp; F_last_wasm_exit_pc;
   F_last_wasm_entry_fp].

(** The padding that the alignment of the globals asks for behind the memories. *)
Definition globals_padding (m : TranslatedModule) : Z := if Z.odd (num_imported_functions m) then 0 else 8.

Lemma align_up_8 x k : x = 8 * k -> align_up x 8 = x.
Proof. intros ->. unfold align_up. Z.div_mod_to_equations. lia. Qed.

Lemma align_globals m x k :
  x = 56 + 24 * num_imported_functions m + 16 * k -> align_up x VMGlobalDefinition_align = x + globals_padding m.
Proof.
  intros ->. change VMGlobalDefinition_align with 16. unfold align_up, globals_padding.
  destruct (Z.odd (num_imported_functions m)) eqn:Ho.
  - apply Z.odd_spec in Ho as [q ->]. Z.div_mod_to_equations. lia.
  - rewrite <- Z.negb_even, negb_false_iff in Ho. apply Z.even_spec in Ho as [q ->]. Z.div_mod_to_equations. lia.
Qed.

(** Placing the documented fields one after the other. *)
Lemma place_documented m :
  (place (documented_fields m) 0).1 = [0; 8; 16; 24; 32; 40; 48] ++
    [vo_func_refs (layout_of m); vo_imported_functions (layout_of m); vo_imported_tables (layout_of m);
     vo_imported_memories (layout_of m); vo_imported_globals (layout_of m); vo_tables (layout_of m);
     vo_memories (layout_of m); vo_globals (layout_of m) + globals_padding m].
Proof.
  unfold documented_fields. cbn [place fst snd u32_field ptr app].
  change (align_up 0 4) with 0. change (align_up (0 + 4) 8) with 8.
  change (align_up (8 + 8) 8) with 16. change (align_up (16 + 8) 8) with 24. change (align_up (24 + 8) 8) with 32.
  change (align_up (32 + 8) 8) with 40. change (align_up (40 + 8) 8) with 48. change (align_up (48 + 8) 8) with 56.
  set (e := num_escaped_functions m). set (f := num_imported_functions m).
  rewrite (align_up_8 (56 + _) (7 + 4 * e)) by lia.
  rewrite (align_up_8 (_ + 24 * _) (7 + 4 * e + 3 * f)) by lia.
  set (t := num_imported_tables m). rewrite (align_up_8 (_ + 16 * t) (7 + 4 * e + 3 * f + 2 * t)) by lia.
  set (n := num_imported_memories m). rewrite (align_up_8 (_ + 16 * n) (7 + 4 * e + 3 * f + 2 * t + 2 * n)) by lia.
  set (g := num_imported_globals m). rewrite (align_up_8 (_ + 16 * g) (7 + 4 * e + 3 * f + 2 * t + 2 * n + 2 * g)) by lia.
  rewrite (align_up_8 (_ + 16 * (_ - t)) (7 + 4 * e + 3 * f + 2 * n + 2 * g + 2 * pm_len (tables m))) by lia.
  rewrite (align_globals m _ (2 * e + g + pm_len (tables m) + pm_len (memories m))) by (fold f; lia).
  reflexivity.
Qed.

(** C13: [for_module] on a well-formed module panics exactly when the size of the
    context does not fit in 32 bits; otherwise the size is the sum of the sizes of
    the fields and every field has the offset it has in the documented struct, laid
    out by the rules of [repr(C)], with one exception: the globals.  Their type is
    declared [align(16)], and the 8 bytes of padding this asks for when the number of
    imported functions is even are not there, so that they then start 8 bytes before
    their documented place, at an offset that is 8 modulo 16. *)
Theorem for_module_exact {E} (m : TranslatedModule) (Hwf : module_wf m) :
  if layout_size m <? 2 ^ 32
  then exists o header, for_module (E:=E) 8 m = Ok o /\ layout_ok o /\ vo_size_ o = layout_size m /\
    mapO (fun f => fst <$> field_extent (E:=E) o f) header_fields = Ok header /\
    (place (documented_fields m) 0).1 = header ++
      [vmctx_func_refs_begin o; vmctx_imported_functions_begin o; vmctx_imported_tables_begin o;
       vmctx_imported_memories_begin o; vmctx_imported_globals_begin o; vmctx_tables_begin o;
       vmctx_memories_begin o; vmctx_globals_begin o + globals_padding m]
  else for_module (E:=E) 8 m = Panic.
Proof.
  rewrite for_module_closed by done. destruct (Z.ltb_spec (layout_size m) (2 ^ 32)); [|done].
  exists (layout_of m), [0; 8; 16; 24; 32; 40; 48]. split; [done|]. split; [by apply layout_of_ok|].
  split; [unfold layout_size; cbn; lia|]. split; [reflexivity|]. apply place_documented.
Qed.

Lemma for_module_exact_witness :
  exists o, for_module (E:=unit) 8 example_module = Ok o /\ layout_ok o /\ vo_size_ o = 144.
Proof.
  destruct (for_module_exact (E:=unit) example_module module_wf_example) as (o & header & Ho & Hl & Hs & _).
  exists o. split; [exact Ho|]. split; [exact Hl|exact Hs].
Defined.

(** C12: any two distinct fields of a module's [VMContext] that the accessors
    hand out occupy disjoint byte ranges, and every such range lies inside the
    allocated size. *)
Theorem vmctx_fields_disjoint {E} (m : TranslatedModule) (o : VMOffsets) (f g : vm_field) x y
    (Hwf : module_wf m) (Ho : for_module (E:=E) 8 m = Ok o) (Hne : f <> g)
    (Hif : 0 <= member_index f) (Hig : 0 <= member_index g)
    (Hf : field_extent (E:=E) o f = Ok x) (Hg : field_extent (E:=E) o g = Ok y) :
  disjoint x y /\ within x (0, vo_size_ o) /\ within y (0, vo_size_ o).
Proof.
  rewrite for_module_closed in Ho by done.
  destruct (Z.ltb_spec (layout_size m) (2 ^ 32)); [injection Ho as <-|done].
  assert (Hl : layout_ok (layout_of m)) by (by apply layout_of_ok).
  apply field_extent_sound in Hf as [-> Hf], Hg as [-> Hg]; [|done..].
  pose proof (extent_in_section _ _ Hl (conj Hif Hf)) as [? ?].
  pose proof (extent_in_section _ _ Hl (conj Hig Hg)) as [? ?].
  pose proof (section_in_context _ f Hl) as [? ?]. pose proof (section_in_context _ g Hl) as [? ?].
  split; [by apply extents_disjoint|]. unfold within, vo_size_; cbn [fst snd]. lia.
Qed.

Lemma vmctx_fields_disjoint_witness :
  disjoint (88, 32) (120, 24).
Proof.
  assert (Ho : for_module (E:=unit) 8 example_module = Ok (layout_of example_module)) by reflexivity.
  apply (vmctx_fields_disjoint example_module _ (F_func_ref 1) (F_imported_function 0)
           (88, 32) (120, 24) module_wf_example Ho);
    [congruence|cbn; lia|cbn; lia|reflexivity|reflexivity].
Defined.

(** Every accessor accepts exactly the indices below its array's count:
    the offset of a field is computed without a panic for a member that exists
    and refused for one that does not. *)
Lemma accessors_total {E} (m : TranslatedModule) (o : VMOffsets) (f : vm_field)
    (Hwf : module_wf m) (Ho : for_module (E:=E) 8 m = Ok o) (Hi : 0 <= member_index f) :
  field_extent (E:=E) o f =
    if member_index f <? member_count o f then Ok (extent_spec o f) else Panic.
Proof.
  rewrite for_module_closed in Ho by done.
  destruct (Z.ltb_spec (layout_size m) (2 ^ 32)); [injection Ho as <-|done].
  assert (Hl : layout_ok (layout_of m)) by (by apply layout_of_ok).
  destruct (Z.ltb_spec (member_index f) (member_count (layout_of m) f)) as [Hlt|Hge].
  - pose proof (extent_in_section _ _ Hl (conj Hi Hlt)) as [Hb He].
    pose proof (section_in_context _ f Hl) as [Hb' He'].
    assert (Hfit := lo_fits _ Hl). destruct (lo_counts _ Hl) as (?&?&?&?&?&?&?&?).
    assert (Hesc := wf_escaped _ Hwf). assert (Hfl := wf_funcs_len _ Hwf).
    destruct f; cbn [member_index member_count] in Hlt, Hi; try reflexivity;
      cbn [extent_spec fst snd section_of] in Hb, He, Hb', He'; cbn [field_extent extent_spec].
    + unfold vmctx_vmfunc_ref, vmctx_func_refs_begin, is_reserved_value, reserved_value.
      destruct (Z.eqb_spec i (2 ^ 32 - 1)) as [->|_];
        [cbn [layout_of vo_num_escaped_funcs] in Hlt; lia|].
      cbn [negb assert_ mbind outcome_bind]. by rewrite (nth_member_intro _ _ _ _ 32) by (done || lia).
    + unfold vmctx_vmfunction_import, vmctx_imported_functions_begin. by rewrite (nth_member_intro _ _ _ _ 24) by (done || lia).
    + unfold vmctx_vmtable_import, vmctx_imported_tables_begin. by rewrite (nth_member_intro _ _ _ _ 16) by (done || lia).
    + unfold vmctx_vmmemory_import, vmctx_imported_memories_begin. by rewrite (nth_member_intro _ _ _ _ 16) by (done || lia).
    + unfold vmctx_vmglobal_import, vmctx_imported_globals_begin. by rewrite (nth_member_intro _ _ _ _ 16) by (done || lia).
    + unfold vmctx_vmtable_definition, vmctx_tables_begin. by rewrite (nth_member_intro _ _ _ _ 16) by (done || lia).
    + unfold vmctx_vmmemory_definition, vmctx_memories_begin. by rewrite (nth_member_intro _ _ _ _ 16) by (done || lia).
    + unfold vmctx_vmglobal_definition, vmctx_globals_begin. by rewrite (nth_member_intro _ _ _ _ 16) by (done || lia).
  - destruct f; cbn [member_index member_count] in Hge, Hi; try lia; cbn [field_extent];
      unfold vmctx_vmfunc_ref, vmctx_vmfunction_import, vmctx_vmtable_import, vmctx_vmmemory_import,
        vmctx_vmglobal_import, vmctx_vmtable_definition, vmctx_vmmemory_definition,
        vmctx_vmglobal_definition; rewrite nth_member_panic by done; try done.
    by destruct (is_reserved_value i).
Qed.

Lemma accessors_total_witness :
  field_extent (E:=unit) (layout_of example_module) (F_func_ref 2) = Panic.
Proof.
  assert (Ho : for_module (E:=unit) 8 example_module = Ok (layout_of example_module)) by reflexivity.
  rewrite (accessors_total example_module _ (F_func_ref 2) module_wf_example Ho); [reflexivity|].
  cbn; lia.
Defined.

(** Every field starts at a multiple of 8, and a global of 16 exactly when the
    padding before the globals is 0. *)
Lemma extent_aligned m f : (extent_spec (layout_of m) f).1 mod 8 = 0.
Proof. destruct f; cbn; Z.div_mod_to_equations; lia. Qed.

Lemma globals_aligned m i : Z.odd (num_imported_functions m) = true ->
  (extent_spec (layout_of m) (F_global i)).1 mod VMGlobalDefinition_align = 0.
Proof.
  intros [q Hq]%Z.odd_spec. change VMGlobalDefinition_align with 16. cbn. rewrite Hq. Z.div_mod_to_equations. lia.
Qed.

(** The array of globals starts at a multiple of 8 but not always of 16,
    although [VMGlobalDefinition] is declared [align(16)]: a module with no
    imports and no functions and one global places it at offset 56. *)
Lemma globals_misaligned :
  exists (m : TranslatedModule) (o : VMOffsets) (off : Z),
    module_wf m /\ for_module (E:=unit) 8 m = Ok o /\
    vmctx_vmglobal_definition (E:=unit) o 0 = Ok off /\ off mod VMGlobalDefinition_align = 8.
Proof.
  exists (mkTranslatedModule None [] [] [] [] [mkGlobalDesc Val_I32 false false] None [] []
            [mkConstExpr [I32Const 0]] (mkTableInitializers [] []) [] ∅ ∅ ∅ ∅ 0 0 0 0 0).
  eexists _, 56. split; [split; unfold pm_len; cbn; lia|].
  split; [reflexivity|]. split; reflexivity.
Qed.
