(* ===== verification/Mmap.v ===== *)
(** * Memory mappings ([src/src/utils.rs], [src/src/placeholder/mmap.rs],
      [src/src/runtime/mmap_vec.rs], [src/src/runtime/owned_vmcontext.rs])

    The operating system is a parameter: the class [Kernel] has the calls the
    code makes ([mmap], [mprotect], [munmap], the page size) and two
    observations, the protection of every address and the list of mapped
    ranges; [KernelLaws] states what the calls do.  A failing [mprotect] may
    have changed a part of its range, as POSIX allows.  [Mmap] owns a
    range, [MmapVec] a vector stored in one.  Ownership in the Rust sense is
    modelled where it has an effect: a value dropped on an error path is
    unmapped. *)
From stdpp Require Import base list option numbers.
From S2P Require Import Prelude Types Trap Module VMOffsets.
Local Open Scope Z_scope.

(** ** The operating system *)
Inductive Prot : Type := PROT_NONE | PROT_RW | PROT_R | PROT_RX.

#[global] Instance Prot_eq_dec : EqDecision Prot.
Proof. solve_decision. Defined.

Class Kernel (K : Type) := {
  host_page_size : Z;
  mmap_anonymous : K -> Z -> Prot -> option (Z * K);
  mprotect : K -> Z -> Z -> Prot -> bool * K;
  munmap : K -> Z -> Z -> option K;
  prot_at : K -> Z -> option Prot;
  mappings : K -> list (Z * Z) }.

(** [addr] lies in the range of [len] bytes at [base]. *)
Definition in_range (base len addr : Z) : bool := (base <=? addr) && (addr <? base + len).

Lemma in_range_spec base len addr : in_range base len addr = true <-> base <= addr < base + len.
Proof. unfold in_range. rewrite andb_true_iff, Z.leb_le, Z.ltb_lt. done. Qed.

(** [n] rounded up to whole pages. *)
Definition page_up (ps n : Z) : Z := align_up n ps.

Class KernelLaws (K : Type) `{Kernel K} := {
  page_size_pow2 : exists e, 0 <= e < 32 /\ host_page_size = 2 ^ e;
  mmap_ok : forall k n p a k',
    mmap_anonymous k n p = Some (a, k') ->
    0 < n /\ 0 < a /\ a mod host_page_size = 0 /\ a + n < 2 ^ 64 /\
    (forall x, prot_at k' x = if in_range a n x then Some p else prot_at k x) /\
    (forall x, in_range a n x = true -> prot_at k x = None) /\
    mappings k' ≡ₚ (a, n) :: mappings k;
  mprotect_frame : forall k a n p x,
    in_range a (page_up host_page_size n) x = false -> prot_at (mprotect k a n p).2 x = prot_at k x;
  mprotect_inside : forall k a n p x,
    in_range a (page_up host_page_size n) x = true ->
    prot_at (mprotect k a n p).2 x = Some p \/
    (mprotect k a n p).1 = false /\ prot_at (mprotect k a n p).2 x = prot_at k x;
  mprotect_mappings : forall k a n p, mappings (mprotect k a n p).2 ≡ₚ mappings k;
  munmap_ok : forall k a n,
    (a, n) ∈ mappings k ->
    exists k', munmap k a n = Some k' /\
      (forall x, prot_at k' x = if in_range a n x then None else prot_at k x) /\
      mappings k ≡ₚ (a, n) :: mappings k' }.

(** ** Rounding to host pages ([utils.rs]) *)
Section Pages.
Context {K : Type} `{Kernel K} (dbg : bool).

Definition is_power_of_two (x : Z) : bool := (0 <? x) && (Z.land x (x - 1) =? 0).

Definition usize_is_multiple_of_host_page_size (bytes : Z) : bool :=
  bytes mod host_page_size =? 0.

(** [val & !page_size_minus_one] on [u64]. *)
Definition round_u64_up_to_host_pages {E} (bytes : Z) : outcome E Z :=
  page_size ← unwrap (try_from 64 host_page_size);
  _ ← debug_assert dbg (is_power_of_two page_size);
  page_size_minus_one ← unwrap (checked_sub 64 page_size 1);
  val ← unwrap (checked_add 64 bytes page_size_minus_one);
  Ok (Z.land val (wrap 64 (Z.lnot page_size_minus_one))).

Definition round_usize_up_to_host_pages {E} (bytes : Z) : outcome E Z :=
  bytes ← unwrap (try_from 64 bytes);
  rounded ← round_u64_up_to_host_pages bytes;
  unwrap (try_from 64 rounded).
End Pages.

(** Clearing the low bits of a word. *)
Lemma land_clear_low val e :
  0 <= e < 64 -> 0 <= val < 2 ^ 64 ->
  Z.land val (wrap 64 (Z.lnot (2 ^ e - 1))) = val - val mod 2 ^ e.
Proof.
  intros He Hv. unfold wrap.
  assert (Hl : Z.lnot (2 ^ e - 1) mod 2 ^ 64 = Z.ldiff (Z.ones 64) (Z.ones e)).
  { rewrite <- Z.land_ones by lia. apply Z.bits_inj'. intros n Hn.
    rewrite Z.land_spec, Z.ldiff_spec, Z.lnot_spec, !Z.testbit_ones_nonneg by lia.
    replace (2 ^ e - 1) with (Z.ones e) by (rewrite Z.ones_equiv; lia).
    rewrite Z.testbit_ones_nonneg by lia. by rewrite andb_comm. }
  rewrite Hl, <- (Z.land_ones val e) by lia.
  replace (Z.land val (Z.ldiff (Z.ones 64) (Z.ones e))) with (Z.ldiff val (Z.ones e)).
  2:{ apply Z.bits_inj'. intros n Hn. rewrite Z.land_spec, !Z.ldiff_spec.
      rewrite (Z.testbit_ones_nonneg 64) by lia.
      destruct (Z.ltb_spec n 64); [done|].
      destruct (decide (val = 0)) as [->|]; [by rewrite Z.bits_0|].
      rewrite (Z.bits_above_log2 val n); [done|lia|].
      assert (Z.log2 val < 64) by (apply Z.log2_lt_pow2; lia). lia. }
  pose proof (Z.sub_nocarry_ldiff val (Z.land val (Z.ones e))) as Hs.
  rewrite Hs.
  - apply Z.bits_inj'. intros n Hn. rewrite !Z.ldiff_spec, Z.land_spec.
    by destruct (Z.testbit val n), (Z.testbit (Z.ones e) n).
  - apply Z.bits_inj'. intros n Hn. rewrite Z.ldiff_spec, Z.land_spec, Z.bits_0.
    by destruct (Z.testbit val n), (Z.testbit (Z.ones e) n).
Qed.

Lemma align_up_spec x a : 0 < a -> 0 <= x ->
  x <= align_up x a < x + a /\ align_up x a mod a = 0 /\
  align_up x a = (x + a - 1) - (x + a - 1) mod a.
Proof.
  intros Ha Hx. unfold align_up.
  pose proof (Z.div_mod (x + a - 1) a ltac:(lia)). pose proof (Z.mod_pos_bound (x + a - 1) a Ha).
  split; [nia|]. split; [by apply Z.mod_mul; lia|lia].
Qed.

Lemma align_up_id x a : 0 < a -> 0 <= x -> x mod a = 0 -> align_up x a = x.
Proof.
  intros Ha Hx Hm. unfold align_up. apply Z.mod_divide in Hm as [q ->]; [|lia].
  replace (q * a + a - 1) with (a - 1 + q * a) by lia.
  rewrite Z.div_add, Z.div_small by lia. lia.
Qed.

(** The least multiple above. *)
Lemma align_up_least x a y : 0 < a -> x <= y -> y mod a = 0 -> align_up x a <= y.
Proof.
  intros Ha Hxy Hm. apply Z.mod_divide in Hm as [q ->]; [|lia]. unfold align_up.
  apply Z.mul_le_mono_nonneg_r; [lia|].
  assert ((x + a - 1) / a < q + 1); [|lia]. apply Z.div_lt_upper_bound; lia.
Qed.

Section PagesLemmas.
Context {K : Type} `{KernelLaws K}.

Lemma page_pos : 0 < host_page_size < 2 ^ 32.
Proof.
  destruct page_size_pow2 as (e & He & ->). split; [lia|].
  apply Z.pow_lt_mono_r; lia.
Qed.

Lemma page_is_pow2 : is_power_of_two host_page_size = true.
Proof.
  destruct page_size_pow2 as (e & He & ->). unfold is_power_of_two.
  rewrite (proj2 (Z.ltb_lt _ _)) by lia. cbn [andb]. apply Z.eqb_eq.
  replace (2 ^ e - 1) with (Z.ones e) by (rewrite Z.ones_equiv; lia).
  rewrite Z.land_ones by lia. apply Z.mod_same. lia.
Qed.

(** What the rounding computes: the least multiple of the page size at or
    above [bytes], or a panic when [bytes + page_size - 1] overflows. *)
Lemma round_u64_spec {E} dbg bytes :
  0 <= bytes ->
  round_u64_up_to_host_pages (E:=E) dbg bytes =
    if bytes + host_page_size - 1 <? 2 ^ 64 then Ok (align_up bytes host_page_size) else Panic.
Proof.
  intros Hb. pose proof page_pos as Hp. pose proof page_is_pow2 as H2.
  unfold round_u64_up_to_host_pages. rewrite try_from_intro by lia. cbn [mbind outcome_bind unwrap].
  rewrite H2, debug_assert_true. cbn [mbind outcome_bind].
  unfold checked_sub. rewrite try_from_intro by lia. cbn [mbind outcome_bind unwrap].
  unfold checked_add.
  replace (bytes + (host_page_size - 1)) with (bytes + host_page_size - 1) by lia.
  destruct (Z.ltb_spec (bytes + host_page_size - 1) (2 ^ 64)).
  - rewrite try_from_intro by lia. cbn [mbind outcome_bind unwrap]. f_equal.
    destruct page_size_pow2 as (e & He & Heq). rewrite Heq in *.
    rewrite land_clear_low by lia. symmetry. apply align_up_spec; lia.
  - rewrite (proj2 (try_from_None 64 _)) by lia. done.
Qed.

Lemma round_usize_spec {E} dbg bytes :
  0 <= bytes < 2 ^ 64 ->
  round_usize_up_to_host_pages (E:=E) dbg bytes =
    if bytes + host_page_size - 1 <? 2 ^ 64 then Ok (align_up bytes host_page_size) else Panic.
Proof.
  intros Hb. pose proof page_pos. unfold round_usize_up_to_host_pages.
  rewrite try_from_intro by lia. cbn [mbind outcome_bind unwrap]. rewrite round_u64_spec by lia.
  destruct (Z.ltb_spec (bytes + host_page_size - 1) (2 ^ 64)); [|done].
  cbn [mbind outcome_bind]. destruct (align_up_spec bytes host_page_size) as (? & ? & _); [lia|lia|].
  by rewrite try_from_intro by lia.
Qed.

Lemma round_usize_big {E} dbg bytes : 2 ^ 64 < bytes + host_page_size -> round_usize_up_to_host_pages (E:=E) dbg bytes = Panic.
Proof.
  intros Hb. pose proof page_pos. destruct (fits 64 bytes) eqn:Hf.
  - apply andb_true_iff in Hf as [Hlo%Z.leb_le Hhi%Z.ltb_lt]. rewrite round_usize_spec by lia. by rewrite (proj2 (Z.ltb_ge _ _)) by lia.
  - unfold round_usize_up_to_host_pages, try_from. by rewrite Hf.
Qed.
End PagesLemmas.

(** [round_usize_up_to_host_pages] returns the least multiple of the page
    size that is at least its argument, and panics exactly on the arguments
    within one page of the end of the address space. *)
Lemma round_up_correct {K E} `{KernelLaws K} dbg bytes (Hb : 0 <= bytes < 2 ^ 64) :
  if bytes + host_page_size - 1 <? 2 ^ 64
  then exists r, round_usize_up_to_host_pages (E:=E) dbg bytes = Ok r /\
         bytes <= r /\ usize_is_multiple_of_host_page_size r = true /\
         forall r', bytes <= r' -> usize_is_multiple_of_host_page_size r' = true -> r <= r'
  else round_usize_up_to_host_pages (E:=E) dbg bytes = Panic.
Proof.
  pose proof page_pos. rewrite round_usize_spec by lia.
  destruct (Z.ltb_spec (bytes + host_page_size - 1) (2 ^ 64)); [|done].
  destruct (align_up_spec bytes host_page_size) as (? & ? & _); [lia|lia|].
  eexists; split; [done|]. split; [lia|]. unfold usize_is_multiple_of_host_page_size.
  split; [by apply Z.eqb_eq|]. intros r' Hr' Hm%Z.eqb_eq. apply align_up_least; [lia|lia|done].
Qed.

(** ** A concrete kernel

    A bump allocator with a log of protection changes, newest first; it is the
    instance at which the theorems of this file are evaluated.  An [mprotect]
    that leaves the mapped addresses fails after its first page. *)
Record LogKernel : Type := mkLogKernel {
  lk_next : Z;
  lk_maps : list (Z * Z);
  lk_log : list (Z * Z * option Prot) }.

Fixpoint log_lookup (log : list (Z * Z * option Prot)) (x : Z) : option Prot :=
  match log with
  | [] => None
  | (a, n, p) :: log' => if in_range a n x then p else log_lookup log' x
  end.

Fixpoint remove_first (m : Z * Z) (l : list (Z * Z)) : list (Z * Z) :=
  match l with
  | [] => []
  | x :: l' => if decide (x = m) then l' else x :: remove_first m l'
  end.

Definition lk_page : Z := 4096.

#[global] Instance log_kernel : Kernel LogKernel := {|
  host_page_size := lk_page;
  mmap_anonymous k n p :=
    if (0 <? n) && (0 <? lk_next k) && (lk_next k mod lk_page =? 0) && (n mod lk_page =? 0)
       && (lk_next k + n <? 2 ^ 47) then
      Some (lk_next k, mkLogKernel (lk_next k + n) ((lk_next k, n) :: lk_maps k)
                         ((lk_next k, n, Some p) :: lk_log k))
    else None;
  mprotect k a n p :=
    let len := page_up lk_page n in
    let ok := a + len <=? lk_next k in
    (ok, mkLogKernel (lk_next k) (lk_maps k)
           ((a, if ok then len else Z.min lk_page len, Some p) :: lk_log k));
  munmap k a n :=
    if decide ((a, n) ∈ lk_maps k) then
      Some (mkLogKernel (lk_next k) (remove_first (a, n) (lk_maps k)) ((a, n, None) :: lk_log k))
    else None;
  prot_at k x := if x <? lk_next k then log_lookup (lk_log k) x else None;
  mappings k := lk_maps k |}.

Lemma remove_first_perm m l : m ∈ l -> l ≡ₚ m :: remove_first m l.
Proof.
  induction l as [|x l IH]; [by intros ?%elem_of_nil|]. cbn.
  intros [->|Hm]%elem_of_cons; [by rewrite decide_True|].
  destruct (decide (x = m)) as [->|]; [done|]. rewrite (IH Hm) at 1. apply Permutation_swap.
Qed.

#[global] Instance log_kernel_laws : KernelLaws LogKernel.
Proof.
  split.
  - exists 12. split; [lia|reflexivity].
  - intros k n p a k'. cbn. destruct (_ && _) eqn:Hc; [|done]. intros [= <- <-].
    rewrite !andb_true_iff, !Z.ltb_lt, !Z.eqb_eq in Hc. destruct Hc as [[[[? ?] ?] ?] ?].
    split; [done|split; [done|split; [done|split; [lia|split; [|split; [|done]]]]]]; intros x.
    + cbn. destruct (in_range (lk_next k) n x) eqn:Hx.
      * apply in_range_spec in Hx. by rewrite (proj2 (Z.ltb_lt _ _)) by lia.
      * destruct (Z.ltb_spec x (lk_next k)).
        -- by rewrite (proj2 (Z.ltb_lt _ _)) by lia.
        -- destruct (Z.ltb_spec x (lk_next k + n)); [|done].
           rewrite (proj2 (in_range_spec _ _ _)) in Hx by lia. done.
    + intros Hx%in_range_spec. by rewrite (proj2 (Z.ltb_ge _ _)) by lia.
  - intros k a n p x Hx. cbn -[page_up] in *. destruct (in_range a (if _ <=? _ then _ else _) x) eqn:Hin; [|done].
    exfalso. apply not_true_iff_false in Hx. apply Hx, in_range_spec. apply in_range_spec in Hin.
    destruct (_ <=? _); lia.
  - intros k a n p x Hx. cbn -[page_up] in *. destruct (Z.leb_spec (a + page_up lk_page n) (lk_next k)).
    + left. rewrite Hx. apply in_range_spec in Hx. by rewrite (proj2 (Z.ltb_lt _ _)) by lia.
    + destruct (x <? lk_next k); [|by right]. destruct (in_range a (Z.min _ _) x); [by left|by right].
  - done.
  - intros k a n Hm. cbn. rewrite decide_True by done. eexists; split; [done|]. cbn. split.
    + intros x. destruct (in_range a n x); [by destruct (_ <? _)|done].
    + by apply remove_first_perm.
Qed.

Definition initial_kernel : LogKernel := mkLogKernel 65536 [] [].

Lemma round_up_correct_witness :
  exists r, round_usize_up_to_host_pages (K:=LogKernel) (E:=unit) true 5000 = Ok r /\
    5000 <= r /\ usize_is_multiple_of_host_page_size (K:=LogKernel) r = true /\
    forall r', 5000 <= r' -> usize_is_multiple_of_host_page_size (K:=LogKernel) r' = true -> r <= r'.
Proof.
  assert (Hb : 0 <= 5000 < 2 ^ 64) by lia.
  exact (round_up_correct (K:=LogKernel) (E:=unit) true 5000 Hb).
Defined.

(** ** [Mmap] *)
Record Mmap : Type := mkMmap { mm_ptr : Z; mm_len : Z }.

Section MmapOps.
Context {K : Type} `{Kernel K} (dbg : bool).

(** [Mmap::new_empty]: a dangling pointer and no bytes. *)
Definition mmap_new_empty : Mmap := mkMmap 1 0.

Definition os_mmap (size : Z) (p : Prot) : SM K Error Z := fun k =>
  match mmap_anonymous k size p with
  | Some (a, k') => (Ok a, k')
  | None => (Err MmapFailed, k)
  end.
Definition os_mprotect (addr len : Z) (p : Prot) : SM K Error unit := fun k =>
  match mprotect k addr len p with
  | (true, k') => (Ok tt, k')
  | (false, k') => (Err MmapFailed, k')
  end.

(** [Mmap::new]. *)
Definition mmap_new (size : Z) : SM K Error Mmap :=
  _ ← sm_lift (assert_ (usize_is_multiple_of_host_page_size size));
  a ← os_mmap size PROT_RW;
  mret (mkMmap a size).

(** [Mmap::with_reserve]. *)
Definition with_reserve (size : Z) : SM K Error Mmap :=
  _ ← sm_lift (assert_ (usize_is_multiple_of_host_page_size size));
  _ ← sm_lift (assert_ (0 <? size));
  a ← os_mmap size PROT_NONE;
  mret (mkMmap a size).

(** [Mmap::slice] and [Mmap::slice_mut]: the address range of the slice. *)
Definition mmap_slice {E} (m : Mmap) (start end_ : Z) : outcome E (Z * Z) :=
  _ ← assert_ (end_ <=? mm_len m);
  len ← unwrap (checked_sub 64 end_ start);
  Ok (mm_ptr m + start, len).

(** [Mmap::make_accessible]. *)
Definition make_accessible (m : Mmap) (start len : Z) : SM K Error unit :=
  end_ ← sm_lift (add 64 start len);
  _ ← sm_lift (assert_ (end_ <=? mm_len m));
  _ ← sm_lift (assert_ (mm_ptr m + start <=? mm_ptr m + mm_len m));
  _ ← sm_lift (assert_ ((mm_ptr m + start) mod host_page_size =? 0));
  os_mprotect (mm_ptr m + start) len PROT_RW.

(** The common body of [Mmap::make_executable] and [Mmap::make_readonly]. *)
Definition protect_range (m : Mmap) (start end_ : Z) (p : Prot) : SM K Error unit :=
  _ ← sm_lift (assert_ (start <=? mm_len m));
  _ ← sm_lift (assert_ (end_ <=? mm_len m));
  _ ← sm_lift (assert_ (start mod host_page_size =? 0));
  len ← sm_lift (unwrap (checked_sub 64 end_ start));
  os_mprotect (mm_ptr m + start) len p.

(** [Mmap::make_executable] (off aarch64, [enable_branch_protection] changes nothing). *)
Definition make_executable (m : Mmap) (start end_ : Z) : SM K Error unit :=
  protect_range m start end_ PROT_RX.
(** [Mmap::make_readonly]. *)
Definition make_readonly (m : Mmap) (start end_ : Z) : SM K Error unit :=
  protect_range m start end_ PROT_R.

(** [Drop for Mmap]. *)
Definition mmap_drop (m : Mmap) : SM K Error unit := fun k =>
  if mm_len m =? 0 then (Ok tt, k)
  else match munmap k (mm_ptr m) (mm_len m) with
       | Some k' => (Ok tt, k')
       | None => (Panic, k)
       end.
End MmapOps.

(** ** [MmapVec] *)
Record MmapVec (T : Type) : Type := mkMmapVec { mv_mmap : Mmap; mv_len : Z; mv_data : list T }.
Arguments mkMmapVec {T}.
Arguments mv_mmap {T}.
Arguments mv_len {T}.
Arguments mv_data {T}.

(** [mv_data] holds the stored elements; the length is counted in elements, as
    in the code, and a range of [n] elements of [T] covers [n * size_of::<T>()] bytes. *)
Section MmapVecOps.
Context {K : Type} `{Kernel K} (dbg : bool) {T : Type}.

Definition mv_new : MmapVec T := mkMmapVec mmap_new_empty 0 [].

Definition new_zeroed (zero : T) (len : Z) : SM K Error (MmapVec T) :=
  m ← mmap_new len; mret (mkMmapVec m len (replicate (Z.to_nat len) zero)).

Definition with_reserved (capacity : Z) : SM K Error (MmapVec T) :=
  m ← with_reserve capacity; mret (mkMmapVec m 0 []).

(** [MmapVec::slice]. *)
Definition mv_slice (v : MmapVec T) : list T := take (Z.to_nat (mv_len v)) (mv_data v).

(** Operations on a vector behind [&mut self]: the state is the kernel and the vector. *)
Definition VM : Type := K * MmapVec T.
Definition vec_get : SM VM Error (MmapVec T) := fun s => (Ok s.2, s).
Definition vec_put (v : MmapVec T) : SM VM Error unit := fun s => (Ok tt, (s.1, v)).
Definition on_kernel {A} (m : SM K Error A) : SM VM Error A := fun s =>
  let r := m s.1 in (r.1, (r.2, s.2)).

(** [MmapVec::accessible]. *)
Definition accessible {E} (v : MmapVec T) : outcome E Z :=
  acc ← round_usize_up_to_host_pages dbg (mv_len v);
  _ ← debug_assert dbg (acc <=? mm_len (mv_mmap v));
  Ok acc.

(** [MmapVec::try_grow]: the new length is stored before the pages are made accessible. *)
Definition try_grow (additional : Z) : SM VM Error Z :=
  v ← vec_get;
  old_accessible ← sm_lift (accessible v);
  new_len ← sm_lift (add 64 (mv_len v) additional);
  _ ← (if new_len <? mm_len (mv_mmap v)
       then vec_put (mkMmapVec (mv_mmap v) new_len (mv_data v))
       else sm_lift Panic);
  v' ← vec_get;
  acc ← sm_lift (accessible v');
  _ ← (if old_accessible <? acc then
         grown ← sm_lift (sub 64 acc old_accessible);
         on_kernel (make_accessible (mv_mmap v') old_accessible grown)
       else mret tt);
  mret (mv_len v).

(** [MmapVecGuard]: unless [finish] is reached, dropping the guard restores the length. *)
Definition with_guard {A} (body : SM VM Error A) : SM VM Error A := fun s =>
  let old := mv_len s.2 in
  match body s with
  | (Err e, (k, v)) => (Err e, (k, mkMmapVec (mv_mmap v) old (mv_data v)))
  | r => r
  end.

(** [MmapVec::try_extend_from_slice]. *)
Definition try_extend_from_slice (other : list T) : SM VM Error unit :=
  with_guard
    (old_len ← try_grow (pm_len other);
     v ← vec_get;
     vec_put (mkMmapVec (mv_mmap v) (mv_len v) (take (Z.to_nat old_len) (mv_data v) ++ other))).

(** [MmapVec::try_extend_with]. *)
Definition try_extend_with (count : Z) (elem : T) : SM VM Error unit :=
  with_guard
    (old_len ← try_grow count;
     v ← vec_get;
     vec_put (mkMmapVec (mv_mmap v) (mv_len v)
       (take (Z.to_nat old_len) (mv_data v) ++ replicate (Z.to_nat count) elem))).

(** Run an operation on an owned vector, which is dropped (unmapped) on failure. *)
Definition owning (v : MmapVec T) (m : SM VM Error unit) : SM K Error (MmapVec T) := fun k =>
  match m (k, v) with
  | (Ok _, (k', v')) => (Ok v', k')
  | (Err e, (k', v')) => match mmap_drop (mv_mmap v') k' with
                         | (Panic, k2) => (Panic, k2)
                         | (_, k2) => (Err e, k2)
                         end
  | (Panic, (k', _)) => (Panic, k')
  end.

(** [MmapVec::from_slice]. *)
Definition from_slice (slice : list T) : SM K Error (MmapVec T) :=
  match slice with
  | [] => mret mv_new
  | _ => cap ← sm_lift (round_usize_up_to_host_pages dbg (pm_len slice));
         v ← with_reserved cap;
         owning v (try_extend_from_slice slice)
  end.
End MmapVecOps.
Arguments VM K T : clear implicits.

(** ** [OwnedVMContext] *)
Definition owned_vmctx_try_new {K} `{Kernel K} (dbg : bool) (offsets : VMOffsets) :
    SM K Error (MmapVec Z) :=
  size ← sm_lift (round_usize_up_to_host_pages dbg (vo_size_ offsets));
  new_zeroed 0 size.

(** ** Ownership of a mapping *)
Section Ownership.
Context {K : Type} `{KernelLaws K}.

(** Two kernel states with the same address space. *)
Definition kernel_eq (k k' : K) : Prop :=
  (forall x, prot_at k x = prot_at k' x) /\ mappings k ≡ₚ mappings k'.

#[global] Instance kernel_eq_equiv : Equivalence kernel_eq.
Proof.
  split.
  - by intros k.
  - intros k k' [Hp Hm]. split; [done|by symmetry].
  - intros k1 k2 k3 [Hp Hm] [Hp' Hm']. split; [intros x; by rewrite Hp|by rewrite Hm].
Qed.

(** [k] is [k0] with the mapping [m] added. *)
Record extends (k0 : K) (m : Mmap) (k : K) : Prop := {
  ex_len : 0 < mm_len m;
  ex_len_page : mm_len m mod host_page_size = 0;
  ex_ptr : 0 < mm_ptr m /\ mm_ptr m mod host_page_size = 0;
  ex_top : mm_ptr m + mm_len m < 2 ^ 64;
  ex_fresh : forall x, in_range (mm_ptr m) (mm_len m) x = true -> prot_at k0 x = None;
  ex_frame : forall x, in_range (mm_ptr m) (mm_len m) x = false -> prot_at k x = prot_at k0 x;
  ex_mapped : mappings k ≡ₚ (mm_ptr m, mm_len m) :: mappings k0 }.

(** Every byte of the range has protection [p]. *)
Definition has_prot (k : K) (base len : Z) (p : Prot) : Prop :=
  forall x, base <= x < base + len -> prot_at k x = Some p.

Lemma os_mmap_err size p k e k' : os_mmap size p k = (Err e, k') -> e = MmapFailed /\ k' = k.
Proof. unfold os_mmap. destruct (mmap_anonymous k size p) as [[a k1]|]; naive_solver. Qed.

Lemma mapped_extends size p k a k' :
  size mod host_page_size = 0 -> os_mmap size p k = (Ok a, k') ->
  extends k (mkMmap a size) k' /\ has_prot k' a size p.
Proof.
  unfold os_mmap. intros Hs Hm. destruct (mmap_anonymous k size p) as [[a1 k1]|] eqn:Ha; [|done].
  injection Hm as <- <-. apply mmap_ok in Ha as (H1 & H2 & H3 & H4 & H5 & H6 & H7).
  split.
  - split; cbn; try done. intros x Hx. by rewrite H5, Hx.
  - intros x Hx. rewrite H5. by rewrite (proj2 (in_range_spec _ _ _)).
Qed.

Lemma lift_bind_ok {S E A B} (m : outcome E A) (k : A -> SM S E B) s b s' :
  (x ← sm_lift m; k x) s = (Ok b, s') <-> exists a, m = Ok a /\ k a s = (Ok b, s').
Proof. unfold mbind, sm_bind, sm_lift. destruct m; naive_solver. Qed.

Lemma lift_bind_err {S E A B} (m : outcome E A) (k : A -> SM S E B) s e s' :
  (x ← sm_lift m; k x) s = (Err e, s') ->
  (m = Err e /\ s' = s) \/ exists a, m = Ok a /\ k a s = (Err e, s').
Proof. unfold mbind, sm_bind, sm_lift. destruct m; naive_solver. Qed.

Lemma assert_not_err {E} b (e : E) : assert_ b <> Err e.
Proof. by destruct b. Qed.

Lemma with_reserve_ok size k m k' :
  with_reserve size k = (Ok m, k') ->
  mm_len m = size /\ extends k m k' /\ has_prot k' (mm_ptr m) size PROT_NONE.
Proof.
  unfold with_reserve. intros ([] & Ha%assert_ok & H1)%lift_bind_ok.
  apply lift_bind_ok in H1 as ([] & Hb%assert_ok & H1).
  apply sm_bind_ok in H1 as (a & k1 & H1 & [= <- <-]). cbn.
  apply mapped_extends in H1 as [? ?]; [done|]. by apply Z.eqb_eq.
Qed.

Lemma with_reserve_err size k e k' : with_reserve size k = (Err e, k') -> k' = k.
Proof.
  unfold with_reserve. intros [[? ?]|(? & _ & H1)]%lift_bind_err; [done|].
  apply lift_bind_err in H1 as [[? ?]|(? & _ & H1)]; [done|].
  apply sm_bind_err in H1 as [H1|(a & k1 & _ & H1)]; [|done].
  by apply os_mmap_err in H1 as [_ ?].
Qed.

Lemma with_reserve_no_panic size k k' : 0 < size -> size mod host_page_size = 0 -> with_reserve size k <> (Panic, k').
Proof.
  intros Hs Hm. unfold with_reserve. rewrite !(sm_lift_step _ _ _ tt); [|apply assert_ok..]; [|by apply Z.ltb_lt|by apply Z.eqb_eq].
  unfold mbind, sm_bind, os_mmap. by destruct (mmap_anonymous k size PROT_NONE) as [[]|].
Qed.

Lemma mmap_new_ok size k m k' :
  mmap_new size k = (Ok m, k') ->
  mm_len m = size /\ extends k m k' /\ has_prot k' (mm_ptr m) size PROT_RW.
Proof.
  unfold mmap_new. intros ([] & Ha%assert_ok & H1)%lift_bind_ok.
  apply sm_bind_ok in H1 as (a & k1 & H1 & [= <- <-]). cbn.
  apply mapped_extends in H1 as [? ?]; [done|]. by apply Z.eqb_eq.
Qed.

Lemma mmap_new_err size k e k' : mmap_new size k = (Err e, k') -> k' = k.
Proof.
  unfold mmap_new. intros [[? ?]|(? & _ & H1)]%lift_bind_err; [done|].
  apply sm_bind_err in H1 as [H1|(a & k1 & _ & H1)]; [|done].
  by apply os_mmap_err in H1 as [_ ?].
Qed.

(** What a change of protection has done, whether it succeeded or not: [k'] is
    [k] with some of the addresses of a range changed to [p]. *)
Definition partly_protected (k k' : K) (base len : Z) (p : Prot) : Prop :=
  (forall x, in_range base len x = false -> prot_at k' x = prot_at k x) /\
  (forall x, in_range base len x = true -> prot_at k' x = Some p \/ prot_at k' x = prot_at k x).

Lemma os_mprotect_spec a n p k r k' :
  os_mprotect a n p k = (r, k') ->
  mappings k' ≡ₚ mappings k /\ partly_protected k k' a (align_up n host_page_size) p /\
  match r with
  | Ok _ => forall x, prot_at k' x = if in_range a (align_up n host_page_size) x then Some p else prot_at k x
  | Err e => e = MmapFailed
  | Panic => False
  end.
Proof.
  pose proof (mprotect_frame k a n p) as Hf. pose proof (mprotect_inside k a n p) as Hi.
  pose proof (mprotect_mappings k a n p) as Hm. unfold os_mprotect, page_up in *.
  destruct (mprotect k a n p) as [[] k1]; cbn in *; intros [= <- <-]; (split; [done|]); split.
  1,3: split; [done|]; intros x Hx; destruct (Hi x Hx) as [?|[_ ?]]; auto.
  - intros x. destruct (in_range a (align_up n host_page_size) x) eqn:Hx; [|by apply Hf].
    by destruct (Hi x Hx) as [?|[? _]].
  - done.
Qed.

(** Changing protections inside the mapping keeps it owned, also where the
    change fails. *)
Lemma os_mprotect_extends k0 m k start len p r k' :
  extends k0 m k -> 0 <= start -> 0 <= len -> start + len <= mm_len m -> (mm_ptr m + start) mod host_page_size = 0 ->
  os_mprotect (mm_ptr m + start) len p k = (r, k') -> extends k0 m k'.
Proof.
  intros [] Hs Hl Hle Hal (Hmap & [Hp _] & _)%os_mprotect_spec.
  assert (Hup : align_up len host_page_size <= mm_len m - start).
  { pose proof page_pos. apply align_up_least; [lia|lia|].
    destruct ex_ptr0 as [_ Hptr]. apply Z.mod_divide in Hptr as [q Hq], Hal as [r1 Hr], ex_len_page0 as [t Ht]; try lia.
    apply Z.mod_divide; [lia|]. exists (t - (r1 - q)). lia. }
  split; try done.
  - intros x Hx. rewrite Hp; [by apply ex_frame0|]. apply not_true_iff_false. intros Hin%in_range_spec.
    rewrite (proj2 (in_range_spec _ _ _)) in Hx by lia. done.
  - by rewrite Hmap.
Qed.

(** [make_accessible] is the system call when its assertions hold, and a panic otherwise. *)
Lemma make_accessible_run m start len k :
  make_accessible m start len k = os_mprotect (mm_ptr m + start) len PROT_RW k /\
    start + len <= mm_len m /\ (mm_ptr m + start) mod host_page_size = 0 \/
  make_accessible m start len k = (Panic, k).
Proof.
  unfold make_accessible, mbind, sm_bind, sm_lift, add, ofits.
  destruct (fits 64 (start + len)); [|by right]. cbn [fst snd].
  destruct (Z.leb_spec (start + len) (mm_len m)); [|by right].
  destruct (mm_ptr m + start <=? mm_ptr m + mm_len m); [|by right].
  destruct (Z.eqb_spec ((mm_ptr m + start) mod host_page_size) 0); [by left|by right].
Qed.

Lemma make_accessible_spec k0 m k start len r k' :
  extends k0 m k -> 0 <= start -> 0 <= len ->
  make_accessible m start len k = (r, k') ->
  match r with
  | Ok _ => start + len <= mm_len m /\ extends k0 m k' /\
      (forall x, prot_at k' x = if in_range (mm_ptr m + start) (align_up len host_page_size) x
                                then Some PROT_RW else prot_at k x)
  | Err e => e = MmapFailed /\ extends k0 m k' /\
      partly_protected k k' (mm_ptr m + start) (align_up len host_page_size) PROT_RW
  | Panic => True
  end.
Proof.
  intros Hex Hs Hl. destruct (make_accessible_run m start len k) as [(-> & Hle & Hal)| ->]; [|by intros [= <- _]].
  intros Hr. pose proof (os_mprotect_extends _ _ _ _ _ _ _ _ Hex Hs Hl Hle Hal Hr) as Hex'.
  apply os_mprotect_spec in Hr as (_ & Hp & Hr). by destruct r.
Qed.

(** Inside the mapping, on page boundaries, the assertions hold. *)
Lemma make_accessible_no_panic k0 m k start len k' :
  extends k0 m k -> 0 <= start /\ 0 <= len -> start + len <= mm_len m ->
  start mod host_page_size = 0 -> make_accessible m start len k <> (Panic, k').
Proof.
  intros [] Hs Hle Hm. pose proof page_pos.
  unfold make_accessible, mbind, sm_bind, sm_lift, add. rewrite ofits_intro by lia. cbn [fst snd].
  rewrite (proj2 (Z.leb_le _ _)) by lia. cbn.
  rewrite (proj2 (Z.leb_le (mm_ptr m + _) _)) by lia. cbn.
  rewrite (proj2 (Z.eqb_eq _ _)); [cbn; by intros (_ & _ & ?)%os_mprotect_spec|].
  rewrite Zplus_mod, Hm, (proj2 ex_ptr0). by rewrite Z.mod_0_l by lia.
Qed.

(** Dropping an owned mapping gives back the address space it was added to. *)
Lemma drop_restores k0 m k :
  extends k0 m k -> exists k', mmap_drop m k = (Ok tt, k') /\ kernel_eq k' k0.
Proof.
  intros []. unfold mmap_drop. rewrite (proj2 (Z.eqb_neq _ _)) by lia.
  destruct (munmap_ok k (mm_ptr m) (mm_len m)) as (k1 & -> & Hp & Hm).
  { rewrite ex_mapped0. by left. }
  exists k1. split; [done|]. split.
  - intros x. rewrite Hp. destruct (in_range (mm_ptr m) (mm_len m) x) eqn:Hx; [|by apply ex_frame0].
    symmetry. by apply ex_fresh0.
  - rewrite ex_mapped0 in Hm. by apply (Permutation_cons_inv (a := (mm_ptr m, mm_len m))).
Qed.
End Ownership.

(** ** Vectors of bytes *)
Section MmapVecProofs.
Context {K : Type} `{KernelLaws K} {T : Type} (dbg : bool).

(** A vector in its mapping: its length is that of its contents and fits, and
    the pages up to its length are readable and writable. *)
Record vec_inv (k0 k : K) (v : MmapVec T) : Prop := {
  vi_owned : extends k0 (mv_mmap v) k;
  vi_len : mv_len v = pm_len (mv_data v);
  vi_fits : mv_len v <= mm_len (mv_mmap v);
  vi_rw : has_prot k (mm_ptr (mv_mmap v)) (align_up (mv_len v) host_page_size) PROT_RW }.

(** Between [k] and [k'] at most addresses behind the pages of [v] changed, and became accessible. *)
Definition grown_behind (k k' : K) (v : MmapVec T) : Prop := forall x,
  prot_at k' x = prot_at k x \/
  mm_ptr (mv_mmap v) + align_up (mv_len v) host_page_size <= x /\ prot_at k' x = Some PROT_RW.

Lemma accessible_ok {E} k0 k (v : MmapVec T) n :
  extends k0 (mv_mmap v) k -> 0 <= n <= mm_len (mv_mmap v) ->
  accessible (E:=E) dbg (mkMmapVec (mv_mmap v) n (mv_data v)) = Ok (align_up n host_page_size) /\
  0 <= align_up n host_page_size <= mm_len (mv_mmap v).
Proof.
  intros [] Hn. pose proof page_pos.
  assert (Hup : align_up n host_page_size <= mm_len (mv_mmap v)) by (by apply align_up_least; lia || done).
  destruct (align_up_spec n host_page_size) as (? & ? & ?); [lia|lia|].
  split; [|lia]. unfold accessible. cbn [mv_len mv_mmap].
  rewrite round_usize_spec by lia.
  assert (mm_len (mv_mmap v) <= 2 ^ 64 - host_page_size).
  { destruct ex_ptr0 as [Hp Hpm]. apply Z.mod_divide in Hpm as [q Hq]; [|lia].
    assert (host_page_size <= mm_ptr (mv_mmap v)); [|lia].
    rewrite Hq. assert (1 <= q) by (destruct (Z.ltb_spec 0 q); nia). nia. }
  rewrite (proj2 (Z.ltb_lt _ _)) by lia. cbn [mbind outcome_bind].
  rewrite (proj2 (Z.leb_le _ _)) by lia. by rewrite debug_assert_true.
Qed.

(** Growing either succeeds with the new pages accessible, fails in the
    kernel with at most some pages behind the old length made accessible, or
    panics because the reservation is not strictly larger than the new length. *)
Lemma try_grow_spec k0 k v additional r k' v' :
  vec_inv k0 k v -> 0 <= additional ->
  try_grow dbg additional (k, v) = (r, (k', v')) ->
  match r with
  | Ok old => old = mv_len v /\ mv_len v + additional < mm_len (mv_mmap v) /\
      v' = mkMmapVec (mv_mmap v) (mv_len v + additional) (mv_data v) /\
      extends k0 (mv_mmap v) k' /\
      has_prot k' (mm_ptr (mv_mmap v)) (align_up (mv_len v') host_page_size) PROT_RW
  | Err e => e = MmapFailed /\ mv_mmap v' = mv_mmap v /\ mv_data v' = mv_data v /\
      vec_inv k0 k' v /\ grown_behind k k' v
  | Panic => mm_len (mv_mmap v) <= mv_len v + additional
  end.
Proof.
  intros [] Ha. pose proof (pm_len_nonneg (mv_data v)) as Hl0. pose proof page_pos as Hpp.
  destruct (accessible_ok (E:=Error) k0 k v (mv_len v)) as [Hacc Hr]; [done|lia|].
  replace (mkMmapVec (mv_mmap v) (mv_len v) (mv_data v)) with v in Hacc by (by destruct v).
  unfold try_grow, mbind, sm_bind, vec_get, sm_lift. cbn [snd fst]. rewrite Hacc. cbn [snd fst].
  destruct (Z.ltb_spec (mv_len v + additional) (mm_len (mv_mmap v))) as [Hlt|Hge].
  2:{ unfold add, ofits. destruct (fits 64 (mv_len v + additional)); cbn [snd fst].
      - rewrite (proj2 (Z.ltb_ge _ _)) by lia. cbn. by intros [= <- <- <-].
      - by intros [= <- <- <-]. }
  pose proof (ex_top _ _ _ vi_owned0). pose proof (ex_ptr _ _ _ vi_owned0).
  unfold add. rewrite ofits_intro by lia. rewrite (proj2 (Z.ltb_lt _ _)) by lia. cbn [snd fst vec_put].
  destruct (accessible_ok (E:=Error) k0 k v (mv_len v + additional)) as [Hacc' Hr']; [done|lia|].
  rewrite Hacc'.
  destruct (Z.ltb_spec (align_up (mv_len v) host_page_size) (align_up (mv_len v + additional) host_page_size)) as [Hgrow|Hsame].
  - unfold sub. rewrite ofits_intro by lia. unfold on_kernel. cbn [fst snd mv_mmap].
    destruct (make_accessible (mv_mmap v) _ _ k) as [[[]|e|] k1] eqn:Hm; cbn [fst snd].
    + apply make_accessible_spec with (k0 := k0) in Hm as (Hle & Hex & Hp); [|done|lia|lia].
      intros [= <- <- <-]. split; [done|]. split; [done|]. split; [done|]. split; [done|].
      intros x Hx. cbn [mv_len] in Hx. rewrite Hp. destruct (in_range _ _ x) eqn:Hin; [done|].
      apply vi_rw0. rewrite (align_up_id (_ - _)) in Hin; [|lia|lia|].
      * destruct (Z.ltb_spec x (mm_ptr (mv_mmap v) + align_up (mv_len v) host_page_size)); [lia|].
        rewrite (proj2 (in_range_spec _ _ _)) in Hin by lia. done.
      * destruct (align_up_spec (mv_len v) host_page_size) as (_ & Hm1 & _); [lia|lia|].
        destruct (align_up_spec (mv_len v + additional) host_page_size) as (_ & Hm2 & _); [lia|lia|].
        rewrite Zminus_mod, Hm1, Hm2. by rewrite Z.mod_0_l by lia.
    + apply make_accessible_spec with (k0 := k0) in Hm as (-> & Hex & Hp1 & Hp2); [|done|lia|lia].
      intros [= <- <- <-]. split; [done|]. split; [done|]. split; [done|].
      assert (Hg : grown_behind k k1 v).
      { intros x. specialize (Hp1 x). specialize (Hp2 x). destruct (in_range _ _ x) eqn:Hin; [|by left; apply Hp1].
        destruct (Hp2 eq_refl) as [?|?]; [|by left]. right. apply in_range_spec in Hin. split; [lia|done]. }
      split; [|done]. split; try done.
      intros x Hx. destruct (Hg x) as [->|[? _]]; [by apply vi_rw0|lia].
    + exfalso. eapply make_accessible_no_panic; [done| | | |done]; [lia|lia|].
      by destruct (align_up_spec (mv_len v) host_page_size) as (_ & ? & _); [lia|lia|].
  - cbn. intros [= <- <- <-]. split; [done|]. split; [done|]. split; [done|]. split; [done|].
    intros x Hx. cbn [mv_len] in Hx. apply vi_rw0. lia.
Qed.

(** What [try_extend_from_slice] does to the vector and to the kernel. *)
Lemma try_extend_spec k0 k v (other : list T) r k' v' :
  vec_inv k0 k v -> try_extend_from_slice dbg other (k, v) = (r, (k', v')) ->
  match r with
  | Ok _ => vec_inv k0 k' v' /\ mv_slice v' = mv_slice v ++ other /\ mv_mmap v' = mv_mmap v
  | Err e => e = MmapFailed /\ v' = v /\ vec_inv k0 k' v /\ grown_behind k k' v
  | Panic => mm_len (mv_mmap v) <= mv_len v + pm_len other
  end.
Proof.
  intros Hi. pose proof (pm_len_nonneg other) as Ho. pose proof (pm_len_nonneg (mv_data v)) as Hl0.
  unfold try_extend_from_slice, with_guard, mbind, sm_bind.
  destruct (try_grow dbg (pm_len other) (k, v)) as [g [k1 v1]] eqn:Hg.
  apply (try_grow_spec k0) in Hg; [|done|done]. destruct g as [old|e|].
  - destruct Hg as (-> & Hlt & -> & Hex & Hrw). cbn. intros [= <- <- <-].
    assert (Hdata : take (Z.to_nat (mv_len v)) (mv_data v) = mv_data v).
    { rewrite (vi_len _ _ _ Hi). apply take_ge. unfold pm_len. lia. }
    rewrite Hdata. split; [|split; [|done]].
    + split; cbn; try done; [|lia]. rewrite (vi_len _ _ _ Hi). unfold pm_len. rewrite length_app. lia.
    + unfold mv_slice. cbn. rewrite Hdata. apply take_ge.
      rewrite length_app, (vi_len _ _ _ Hi). unfold pm_len. lia.
  - destruct Hg as (-> & Hm & Hd & Hi' & Hg). cbn. intros [= <- <- <-].
    rewrite Hm, Hd. split; [done|]. split; [by destruct v|done].
  - by intros [= <- <- <-].
Qed.

Lemma reserved_inv cap k v k' :
  with_reserved cap k = (Ok v, k') -> vec_inv k k' v /\ mm_len (mv_mmap v) = cap /\ mv_slice v = [] /\ mv_len v = 0.
Proof.
  unfold with_reserved. intros (m & k1 & Hm & [= <- <-])%sm_bind_ok.
  apply with_reserve_ok in Hm as (Hl & Hex & _). split; [|done].
  pose proof (ex_len _ _ _ Hex). pose proof page_pos as Hpp.
  split; cbn; try done; [lia|]. intros x Hx. rewrite align_up_id in Hx; [lia|lia|lia|].
  by rewrite Z.mod_0_l by lia.
Qed.
End MmapVecProofs.

(** C26: extending a vector of bytes appends the slice or leaves the vector as
    it was.  On success the contents are the old contents followed by the slice
    and every page up to the new length is accessible; a failing [mprotect] is
    reported as [MmapFailed], the vector, its length and its accessible pages
    are as before (the guard's drop), and all that may have changed in the
    kernel is that pages of the reservation behind them became accessible; the
    only panic is a new length that is not strictly below the reservation.
    Elements wider than a byte are excluded: the code counts elements as bytes. *)
Theorem try_extend_correct {K} `{KernelLaws K} dbg k0 k (v : MmapVec Byte.byte) other r k' v'
    (Hi : vec_inv k0 k v) (Hr : try_extend_from_slice dbg other (k, v) = (r, (k', v'))) :
  match r with
  | Ok _ => vec_inv k0 k' v' /\ mv_slice v' = mv_slice v ++ other /\ mv_mmap v' = mv_mmap v
  | Err e => e = MmapFailed /\ v' = v /\ vec_inv k0 k' v /\ grown_behind k k' v
  | Panic => mm_len (mv_mmap v) <= mv_len v + pm_len other
  end.
Proof. exact (try_extend_spec dbg _ _ _ _ _ _ _ Hi Hr). Qed.

(** A vector of bytes with 8 KiB reserved. *)
Definition example_kernel : LogKernel := mkLogKernel 73728 [(65536, 8192)] [(65536, 8192, Some PROT_NONE)].
Definition example_vec : MmapVec Byte.byte := mkMmapVec (mkMmap 65536 8192) 0 [].

Lemma try_extend_correct_witness :
  exists k' v', try_extend_from_slice true [Byte.x07; Byte.x08] (example_kernel, example_vec) = (Ok tt, (k', v')) /\
    vec_inv initial_kernel k' v' /\ mv_slice v' = mv_slice example_vec ++ [Byte.x07; Byte.x08].
Proof.
  assert (Hi : vec_inv initial_kernel example_kernel example_vec)
    by (apply (reserved_inv 8192); reflexivity).
  destruct (try_extend_from_slice true [Byte.x07; Byte.x08] (example_kernel, example_vec)) as [r [k' v']] eqn:Hr.
  pose proof (try_extend_correct true initial_kernel _ _ _ r k' v' Hi Hr) as Hs.
  assert (r = Ok tt) as -> by (vm_compute in Hr; congruence).
  destruct Hs as (? & ? & _). eauto.
Defined.

(** A vector built from a slice holds the slice, in a fresh mapping; when
    the construction fails, the address space is what it was before (the
    partly built vector is unmapped).  It panics only for a slice whose length is
    a multiple of the page size or close to the size of the address space. *)
Lemma from_slice_correct {K T} `{KernelLaws K} dbg (slice : list T) k r k'
    (Hr : from_slice dbg slice k = (r, k')) :
  match r with
  | Ok v => match slice with [] => v = mv_new /\ k' = k | _ => vec_inv k k' v /\ mv_data v = slice end
  | Err _ => kernel_eq k' k
  | Panic => slice <> [] /\ (pm_len slice mod host_page_size = 0 \/ 2 ^ 64 < pm_len slice + host_page_size)
  end.
Proof.
  unfold from_slice in Hr. destruct slice as [|x slice]; [by injection Hr as <- <-|].
  assert (Hne : x :: slice <> []) by done. set (l := x :: slice) in *. pose proof page_pos as Hpp.
  assert (0 < pm_len l) by (unfold pm_len, l; cbn; lia). unfold mbind, sm_bind, sm_lift in Hr.
  destruct (Z.ltb_spec (2 ^ 64) (pm_len l + host_page_size)) as [Hbig|Hsmall].
  { rewrite round_usize_big in Hr by lia. injection Hr as <- <-. auto. }
  rewrite round_usize_spec, (proj2 (Z.ltb_lt _ _)) in Hr by lia.
  destruct (align_up_spec (pm_len l) host_page_size) as (Hup & Hmod & _); [lia|lia|].
  destruct (with_reserved (align_up (pm_len l) host_page_size) k) as [rv k1] eqn:Hv. destruct rv as [v|e|].
  - apply reserved_inv in Hv as (Hi & Hcap & Hs & Hl). unfold owning in Hr.
    destruct (try_extend_from_slice dbg l (k1, v)) as [g [k2 v2]] eqn:Hg.
    apply (try_extend_spec dbg k) in Hg; [|done]. destruct g as [u|e|].
    + destruct Hg as (Hi2 & Hs2 & _). injection Hr as <- <-. split; [done|].
      rewrite Hs, app_nil_l in Hs2. rewrite <- Hs2. unfold mv_slice. rewrite (vi_len _ _ _ Hi2). symmetry. apply take_ge. unfold pm_len. lia.
    + destruct Hg as (-> & -> & Hi2 & _).
      destruct (drop_restores _ _ _ (vi_owned _ _ _ Hi2)) as (k3 & Hd & Heq). rewrite Hd in Hr.
      by injection Hr as <- <-.
    + injection Hr as <- <-. split; [done|]. left. replace (pm_len l) with (align_up (pm_len l) host_page_size) by lia. done.
  - injection Hr as <- <-. unfold with_reserved in Hv.
    apply sm_bind_err in Hv as [Hv%with_reserve_err|(? & ? & _ & ?)]; [by subst|done].
  - exfalso. revert Hv. unfold with_reserved, mbind, sm_bind.
    destruct (with_reserve _ k) as [[m|e|] k2] eqn:Hw; [done|done|]. intros _.
    by eapply with_reserve_no_panic; [| |exact Hw]; [lia|].
Qed.

(** An exact fit is refused: building a vector from a non-empty slice
    whose length is a multiple of the page size panics (out of memory) whenever
    the reservation itself succeeds, because the capacity test is strict. *)
Lemma from_slice_exact_fit_panics {K T} `{KernelLaws K} dbg (slice : list T) k m k1
    (Hne : slice <> []) (Hfit : pm_len slice mod host_page_size = 0)
    (Hres : with_reserve (pm_len slice) k = (Ok m, k1)) :
  (from_slice dbg slice k).1 = Panic.
Proof.
  pose proof page_pos as Hpp. pose proof (pm_len_nonneg slice) as Hl.
  pose proof Hres as Hres'. apply with_reserve_ok in Hres' as (Hlen & Hex & _).
  destruct Hex. destruct ex_ptr0 as [Hp0 Hpm].
  assert (Hround : round_usize_up_to_host_pages (E:=Error) dbg (pm_len slice) = Ok (pm_len slice)).
  { rewrite round_usize_spec by lia.
    assert (host_page_size <= mm_ptr m).
    { apply Z.mod_divide in Hpm as [q Hq]; [|lia]. assert (1 <= q) by nia. nia. }
    rewrite (proj2 (Z.ltb_lt _ _)) by lia. by rewrite align_up_id by lia. }
  unfold from_slice. destruct slice as [|x slice]; [done|]. set (l := x :: slice) in *.
  unfold mbind, sm_bind, sm_lift. rewrite Hround.
  destruct (with_reserved (T:=T) (pm_len l) k) as [[v|e|] k2] eqn:Hv.
  - apply reserved_inv in Hv as (Hi & Hcap & Hs & Hl0). unfold owning.
    destruct (try_extend_from_slice dbg l (k2, v)) as [g [k3 v3]] eqn:Hg.
    unfold try_extend_from_slice, with_guard, mbind, sm_bind in Hg.
    destruct (try_grow dbg (pm_len l) (k2, v)) as [g' [k4 v4]] eqn:Hg'.
    assert (g' = Panic) as ->.
    { revert Hg'. unfold try_grow, mbind, sm_bind, vec_get, sm_lift. cbn [fst snd].
      destruct (accessible_ok (E:=Error) dbg k k2 v (mv_len v) (vi_owned _ _ _ Hi)) as [Ha _]; [lia|].
      replace (mkMmapVec (mv_mmap v) (mv_len v) (mv_data v)) with v in Ha by (by destruct v).
      rewrite Ha, Hl0, Hcap. cbn [fst snd]. unfold add. rewrite ofits_intro by lia.
      rewrite (proj2 (Z.ltb_ge _ _)) by lia. by intros [= <-]. }
    by injection Hg as <- _ _.
  - unfold with_reserved, mbind, sm_bind in Hv. by rewrite Hres in Hv.
  - done.
Qed.

Lemma from_slice_exact_fit_panics_witness :
  (from_slice (K:=LogKernel) false (replicate 4096 0) initial_kernel).1 = Panic.
Proof.
  eapply (from_slice_exact_fit_panics false (replicate 4096 0) initial_kernel
    (mkMmap 65536 4096) (mkLogKernel 69632 [(65536, 4096)] [(65536, 4096, Some PROT_NONE)]));
    vm_compute; (reflexivity || discriminate).
Defined.
