(* ===== verification/RtMemory.v ===== *)
(** * Linear memories, tables and their allocation
      ([src/src/runtime/memory.rs], [src/src/runtime/table.rs],
       [src/src/runtime/instance_allocator.rs],
       [src/src/placeholder/instance_allocator.rs])

    The trait [InstanceAllocator] is a class; its laws say which mappings an
    allocation adds to the address space and that a deallocation removes them.
    The default method [allocate_module] is verified against the class, and the
    crate's own allocator is an instance of class and laws. *)
From stdpp Require Import base list option numbers.
From S2P Require Import Prelude Types Trap Module VMOffsets Mmap.
Local Open Scope Z_scope.

(** ** [Memory] *)
Record Memory : Type := mkMemory {
  mem_mmap : Mmap;
  mem_len : Z;
  mem_maximum : option Z;
  mem_page_size_log2 : Z;
  mem_offset_guard_size : Z }.

(** [VMMemoryDefinition] and [VMTableDefinition]: base address and current length. *)
Record VMMemoryDefinition : Type := mkVMMemory { vmm_base : Z; vmm_current_length : Z }.
Record VMTableDefinition : Type := mkVMTable { vmt_base : Z; vmt_current_length : Z }.

Definition USIZE_MAX : Z := 2 ^ 64 - 1.

Section Memory.
Context {K : Type} `{Kernel K} (dbg : bool).

(** [Memory::try_new]; the mapping is dropped when it cannot be made accessible. *)
Definition memory_try_new (desc : MemoryDesc) (actual_minimum_bytes : Z)
    (actual_maximum_bytes : option Z) : SM K Error Memory :=
  offset_guard_bytes ← sm_lift (unwrap (try_from 64 (md_offset_guard_size desc)));
  offset_guard_bytes ← sm_lift (round_usize_up_to_host_pages dbg offset_guard_bytes);
  bound_bytes ← sm_lift (round_usize_up_to_host_pages dbg MEMORY_MAX);
  let allocation_bytes := Z.min bound_bytes (default USIZE_MAX actual_maximum_bytes) in
  request_bytes ← sm_lift (add 64 allocation_bytes offset_guard_bytes);
  mmap ← with_reserve request_bytes;
  _ ← (if 0 <? actual_minimum_bytes then
         sm_on_err
           (accessible ← sm_lift (round_usize_up_to_host_pages dbg actual_minimum_bytes);
            make_accessible mmap 0 accessible)
           (mmap_drop mmap)
       else mret tt);
  mret {| mem_mmap := mmap; mem_len := actual_minimum_bytes; mem_maximum := actual_maximum_bytes;
          mem_page_size_log2 := md_page_size_log2 desc;
          mem_offset_guard_size := offset_guard_bytes |}.

(** [Memory::as_slice_mut]: address and length of the slice. *)
Definition memory_as_slice_mut {E} (m : Memory) : outcome E (Z * Z) :=
  mmap_slice (mem_mmap m) 0 (mem_len m).
Definition as_vmmemory_definition (m : Memory) : VMMemoryDefinition :=
  mkVMMemory (mm_ptr (mem_mmap m)) (mem_len m).
End Memory.

(** ** [Table] *)
Record Table : Type := mkTable { tbl_elements : MmapVec (option Z); tbl_maximum : option Z }.

Section Table.
Context {K : Type} `{Kernel K} (dbg : bool).

(** [Table::try_new]. *)
Definition table_try_new (desc : TableDesc) (actual_maximum : option Z) : SM K Error Table :=
  let reserve_size := Z.min TABLE_MAX (default USIZE_MAX actual_maximum) in
  elements ← (if reserve_size =? 0 then mret mv_new
              else
                cap ← sm_lift (round_usize_up_to_host_pages dbg reserve_size);
                elements ← with_reserved cap;
                owning elements
                  (minimum ← sm_lift (unwrap (try_from 64 (td_minimum desc)));
                   try_extend_with dbg minimum None));
  mret (mkTable elements actual_maximum).

Definition as_vmtable_definition (t : Table) : VMTableDefinition :=
  mkVMTable (mm_ptr (mv_mmap (tbl_elements t))) (mv_len (tbl_elements t)).
End Table.

(** ** [InstanceAllocator] *)
Definition OwnedVMContext : Type := MmapVec Z.

Class InstanceAllocator (K : Type) := {
  allocate_vmctx : TranslatedModule -> VMOffsets -> SM K Error OwnedVMContext;
  deallocate_vmctx : OwnedVMContext -> SM K Error unit;
  allocate_memory : TranslatedModule -> MemoryDesc -> Z -> SM K Error Memory;
  deallocate_memory : Z -> Memory -> SM K Error unit;
  allocate_table : TranslatedModule -> TableDesc -> Z -> SM K Error Table;
  deallocate_table : Z -> Table -> SM K Error unit }.

(** The pairs [(index, value)] that iterating over a [PrimaryMap] yields. *)
Definition pm_iter {V} (m : list V) : list (Z * V) := imap (fun i v => (Z.of_nat i, v)) m.

Section DefaultMethods.
Context {K : Type} `{InstanceAllocator K} (dbg : bool).

(** A [for] loop over stateful iterations. *)
Fixpoint sm_for {S X} (f : X -> SM S Error unit) (l : list X) : SM S Error unit :=
  match l with
  | [] => mret tt
  | x :: l' => _ ← f x; sm_for f l'
  end.

(** The caller's [&mut PrimaryMap] is part of the state, so that it keeps the
    entities allocated before a failure. *)
Definition on_fst {R A} (m : SM K Error A) : SM (K * list R) Error A := fun s =>
  let r := m s.1 in (r.1, (r.2, s.2)).
Definition push_entity {R} (dbg : bool) (def_index : Z) (r : R) : SM (K * list R) Error unit := fun s =>
  (debug_assert dbg (def_index =? pm_len s.2), (s.1, pm_push s.2 r)).

Definition allocate_memories (module : TranslatedModule) : SM (K * list Memory) Error unit :=
  sm_for (fun p =>
    d ← sm_lift (defined_memory_index module p.1);
    match d with
    | Some def_index =>
        m ← on_fst (allocate_memory module p.2 def_index); push_entity dbg def_index m
    | None => mret tt
    end) (pm_iter (memories module)).

Definition allocate_tables (module : TranslatedModule) : SM (K * list Table) Error unit :=
  sm_for (fun p =>
    d ← sm_lift (defined_table_index module p.1);
    match d with
    | Some def_index =>
        t ← on_fst (allocate_table module p.2 def_index); push_entity dbg def_index t
    | None => mret tt
    end) (pm_iter (tables module)).

Definition deallocate_memories (ms : list Memory) : SM K Error unit :=
  sm_for (fun p => deallocate_memory p.1 p.2) (pm_iter ms).
Definition deallocate_tables (ts : list Table) : SM K Error unit :=
  sm_for (fun p => deallocate_table p.1 p.2) (pm_iter ts).

(** [InstanceAllocator::allocate_module]. *)
Definition allocate_module (module : TranslatedModule) (offsets : VMOffsets) :
    SM K Error (OwnedVMContext * list Table * list Memory) := fun k =>
  match num_defined_tables (E:=Error) module, num_defined_memories (E:=Error) module with
  | Ok _, Ok _ =>
      let '(rt, (k1, ts)) := allocate_tables module (k, []) in
      let '(r, (k2, ms)) :=
        match rt with
        | Ok _ =>
            let '(rm, (k2, ms)) := allocate_memories module (k1, []) in
            match rm with
            | Ok _ => let '(rv, k3) := allocate_vmctx module offsets k2 in (rv, (k3, ms))
            | Err e => (Err e, (k2, ms))
            | Panic => (Panic, (k2, ms))
            end
        | Err e => (Err e, (k1, []))
        | Panic => (Panic, (k1, []))
        end in
      match r with
      | Ok vmctx => (Ok (vmctx, ts, ms), k2)
      | Err e => (_ ← deallocate_memories ms; _ ← deallocate_tables ts; sm_err e) k2
      | Panic => (Panic, k2)
      end
  | _, _ => (Panic, k)
  end.
End DefaultMethods.

(** ** The crate's allocator *)

(** [Result::ok] then [usize::try_from(..).ok()]. *)
Definition ok_usize {E E'} (m : outcome E Z) : outcome E' (option Z) :=
  match m with
  | Ok x => Ok (try_from 64 x)
  | Err _ => Ok None
  | Panic => Panic
  end.

Section Placeholder.
Context {K : Type} `{Kernel K} (dbg : bool).

Definition PlaceholderAllocatorDontUse : InstanceAllocator K := {|
  allocate_vmctx _module plan := owned_vmctx_try_new dbg plan;
  deallocate_vmctx vmctx := mmap_drop (mv_mmap vmctx);
  allocate_memory _module memory_desc _memory_index :=
    minimum ← sm_lift (ok_usize (minimum_byte_size dbg memory_desc));
    minimum ← sm_lift (unwrap minimum);
    maximum ← sm_lift (ok_usize (maximum_byte_size dbg memory_desc));
    memory_try_new dbg memory_desc minimum maximum;
  deallocate_memory _memory_index memory := mmap_drop (mem_mmap memory);
  allocate_table _module table_desc _table_index :=
    let maximum := td_maximum table_desc ≫= try_from 64 in
    table_try_new dbg table_desc maximum;
  deallocate_table _table_index table := mmap_drop (mv_mmap (tbl_elements table)) |}.
End Placeholder.

(** ** What an allocation adds to the address space *)
Section Owned.
Context {K : Type} `{KernelLaws K}.

Definition in_some (fps : list Mmap) (x : Z) : bool :=
  existsb (fun m => in_range (mm_ptr m) (mm_len m) x) fps.

(** [k] is [k0] with the mappings [fps] added. *)
Record owned (fps : list Mmap) (k0 k : K) : Prop := {
  ow_mapped : mappings k ≡ₚ ((fun m => (mm_ptr m, mm_len m)) <$> fps) ++ mappings k0;
  ow_frame : forall x, in_some fps x = false -> prot_at k x = prot_at k0 x;
  ow_fresh : forall x, in_some fps x = true -> prot_at k0 x = None;
  ow_nonempty : Forall (fun m => mm_len m <> 0) fps }.

Lemma in_some_perm fps fps' x : fps ≡ₚ fps' -> in_some fps x = in_some fps' x.
Proof.
  induction 1 as [|m l l' _ IH|m n l|l1 l2 l3 _ IH1 _ IH2]; cbn; [done|by f_equal| |congruence].
  rewrite !orb_assoc. by f_equal; apply orb_comm.
Qed.

Lemma owned_perm fps fps' k0 k : fps ≡ₚ fps' -> owned fps k0 k -> owned fps' k0 k.
Proof.
  intros Hp []. split; try (intros x; rewrite <- (in_some_perm _ _ _ Hp)); eauto.
  - by rewrite <- Hp.
  - by rewrite <- Hp.
Qed.

Lemma owned_nil k : owned [] k k.
Proof. by split. Qed.

Lemma owned_kernel_eq fps k0 k k' : owned fps k0 k -> kernel_eq k' k -> owned fps k0 k'.
Proof.
  intros [] [Hp Hm]. split; try done.
  - by rewrite Hm.
  - intros x Hx. rewrite Hp. by apply ow_frame0.
Qed.

Lemma owned_nil_eq k k' : owned [] k k' -> kernel_eq k' k.
Proof. intros []. split; [intros x; by apply ow_frame0|done]. Qed.

(** A new mapping joins those already owned. *)
Lemma owned_extend fps k0 k m k' : owned fps k0 k -> extends k m k' -> owned (m :: fps) k0 k'.
Proof.
  intros Ho He. pose proof (ex_len _ _ _ He). split.
  - rewrite (ex_mapped _ _ _ He), (ow_mapped _ _ _ Ho). done.
  - intros x [Hm Hf]%orb_false_iff. rewrite (ex_frame _ _ _ He) by done. by apply (ow_frame _ _ _ Ho).
  - intros x [Hm|Hf]%orb_true_iff; [|by apply (ow_fresh _ _ _ Ho)].
    pose proof (ex_fresh _ _ _ He x Hm) as Hk. destruct (in_some fps x) eqn:Hs;
      [by apply (ow_fresh _ _ _ Ho)|]. by rewrite <- (ow_frame _ _ _ Ho x Hs).
  - constructor; [lia|]. apply (ow_nonempty _ _ _ Ho).
Qed.

(** Dropping any owned mapping leaves the others. *)
Lemma owned_drop fps k0 k m :
  owned (m :: fps) k0 k -> exists k', mmap_drop m k = (Ok tt, k') /\ owned fps k0 k'.
Proof.
  intros []. apply Forall_cons_1 in ow_nonempty0 as [Hne Hrest]. unfold mmap_drop.
  rewrite (proj2 (Z.eqb_neq _ _)) by done.
  destruct (munmap_ok k (mm_ptr m) (mm_len m)) as (k1 & -> & Hp & Hm).
  { rewrite ow_mapped0. by left. }
  exists k1. split; [done|]. split; [| | |done].
  - rewrite ow_mapped0 in Hm. by apply (Permutation_cons_inv (a := (mm_ptr m, mm_len m))).
  - intros x Hx. rewrite Hp. destruct (in_range (mm_ptr m) (mm_len m) x) eqn:Hin.
    + symmetry. apply ow_fresh0. cbn. by rewrite Hin.
    + apply ow_frame0. cbn. by rewrite Hin.
  - intros x Hx. apply ow_fresh0. apply orb_true_iff. by right.
Qed.
End Owned.

(** The mappings of a resource; an empty vector owns none. *)
Definition mmap_fp (m : Mmap) : list Mmap := if mm_len m =? 0 then [] else [m].
Definition memory_fp (m : Memory) : list Mmap := mmap_fp (mem_mmap m).
Definition table_fp (t : Table) : list Mmap := mmap_fp (mv_mmap (tbl_elements t)).
Definition vmctx_fp (v : OwnedVMContext) : list Mmap := mmap_fp (mv_mmap v).

Lemma owned_drop_fp {K} `{KernelLaws K} m fps k0 k :
  owned (mmap_fp m ++ fps) k0 k -> exists k', mmap_drop m k = (Ok tt, k') /\ owned fps k0 k'.
Proof.
  unfold mmap_fp. destruct (Z.eqb_spec (mm_len m) 0) as [Hz|_]; [|apply owned_drop].
  intros Ho. exists k. split; [|done]. unfold mmap_drop. by rewrite Hz.
Qed.

(** The contract of an allocator. *)
Class InstanceAllocatorLaws (K : Type) `{KernelLaws K} `{!InstanceAllocator K} := {
  allocate_vmctx_spec : forall m o fps k0 k r k', owned fps k0 k ->
    allocate_vmctx m o k = (r, k') ->
    match r with Ok v => owned (vmctx_fp v ++ fps) k0 k' | Err _ => owned fps k0 k' | Panic => True end;
  allocate_memory_spec : forall m d i fps k0 k r k', owned fps k0 k ->
    allocate_memory m d i k = (r, k') ->
    match r with Ok v => owned (memory_fp v ++ fps) k0 k' | Err _ => owned fps k0 k' | Panic => True end;
  allocate_table_spec : forall m d i fps k0 k r k', owned fps k0 k ->
    allocate_table m d i k = (r, k') ->
    match r with Ok v => owned (table_fp v ++ fps) k0 k' | Err _ => owned fps k0 k' | Panic => True end;
  deallocate_memory_spec : forall i v fps k0 k, owned (memory_fp v ++ fps) k0 k ->
    exists k', deallocate_memory i v k = (Ok tt, k') /\ owned fps k0 k';
  deallocate_table_spec : forall i v fps k0 k, owned (table_fp v ++ fps) k0 k ->
    exists k', deallocate_table i v k = (Ok tt, k') /\ owned fps k0 k';
  deallocate_vmctx_spec : forall v fps k0 k, owned (vmctx_fp v ++ fps) k0 k ->
    exists k', deallocate_vmctx v k = (Ok tt, k') /\ owned fps k0 k' }.

(** ** [allocate_module] against the contract *)
Section AllocateModule.
Context {K : Type} `{InstanceAllocatorLaws K} (dbg : bool).

Lemma sm_for_fail {S X} (P : S -> Prop) (f : X -> SM S Error unit) l s r s' :
  P s -> (forall x s r s', x ∈ l -> P s -> f x s = (r, s') -> is_panic r = false -> P s') ->
  sm_for f l s = (r, s') -> is_panic r = false -> P s'.
Proof.
  revert s; induction l as [|x l IH]; intros s HP Hstep; cbn; [by intros [= <- <-]|].
  unfold mbind, sm_bind. destruct (f x s) as [[u|e|] s1] eqn:Hf.
  - apply IH; [|intros; eapply Hstep; [by right|done..]].
    eapply Hstep; [by left|done|done|done].
  - intros [= <- <-] _. eapply Hstep; [by left|done|done|done].
  - by intros [= <- <-].
Qed.

(** One allocation step of a loop over an entity map. *)
Lemma allocate_step {R} (fp : R -> list Mmap) (alloc : SM K Error R) i fps k0 k rs (r : outcome Error unit) k' rs' :
  (forall fps k r k', owned fps k0 k -> alloc k = (r, k') ->
     match r with Ok v => owned (fp v ++ fps) k0 k' | Err _ => owned fps k0 k' | Panic => True end) ->
  owned ((rs ≫= fp) ++ fps) k0 k ->
  (v ← on_fst alloc; push_entity dbg i v) (k, rs) = (r, (k', rs')) -> is_panic r = false ->
  owned ((rs' ≫= fp) ++ fps) k0 k'.
Proof.
  intros Ha Ho. unfold mbind at 1, sm_bind, on_fst. cbn [fst snd].
  destruct (alloc k) as [[v|e|] k1] eqn:Hal; cbn [fst snd]; apply (Ha ((rs ≫= fp) ++ fps)) in Hal; try done.
  - unfold push_entity. intros [= <- <- <-] _. cbn [fst snd]. unfold pm_push.
    rewrite bind_app. cbn. rewrite app_nil_r.
    eapply owned_perm; [|exact Hal]. rewrite !app_assoc. apply Permutation_app_tail.
    apply Permutation_app_comm.
  - by intros [= <- <- <-].
  - by intros [= <- <- <-].
Qed.

Lemma allocate_tables_spec m fps k0 k r k' ts :
  owned fps k0 k -> allocate_tables dbg m (k, []) = (r, (k', ts)) -> is_panic r = false ->
  owned ((ts ≫= table_fp) ++ fps) k0 k'.
Proof.
  intros Ho Hr Hp.
  apply (sm_for_fail (fun s => owned ((s.2 ≫= table_fp) ++ fps) k0 s.1)) in Hr; [done|done| |done].
  intros [i d] [k1 rs] r1 [k2 rs'] _ HP. unfold mbind at 1, sm_bind, sm_lift. cbn [fst snd].
  destruct (defined_table_index m i) as [[j|]| |]; [|by intros [= <- <- <-]..].
  intros Hstep Hp1. eapply allocate_step; [|exact HP|exact Hstep|done].
  intros. by eapply allocate_table_spec.
Qed.

Lemma allocate_memories_spec m fps k0 k r k' ms :
  owned fps k0 k -> allocate_memories dbg m (k, []) = (r, (k', ms)) -> is_panic r = false ->
  owned ((ms ≫= memory_fp) ++ fps) k0 k'.
Proof.
  intros Ho Hr Hp.
  apply (sm_for_fail (fun s => owned ((s.2 ≫= memory_fp) ++ fps) k0 s.1)) in Hr; [done|done| |done].
  intros [i d] [k1 rs] r1 [k2 rs'] _ HP. unfold mbind at 1, sm_bind, sm_lift. cbn [fst snd].
  destruct (defined_memory_index m i) as [[j|]| |]; [|by intros [= <- <- <-]..].
  intros Hstep Hp1. eapply allocate_step; [|exact HP|exact Hstep|done].
  intros. by eapply allocate_memory_spec.
Qed.

(** [alloc], called once per descriptor of [ds] in order, with definition
    indices counting from [i], takes [k] to [k'] and returns [rs]. *)
Inductive allocated {D R} (alloc : D -> Z -> SM K Error R) : Z -> list D -> K -> list R -> K -> Prop :=
| allocated_nil i k : allocated alloc i [] k [] k
| allocated_cons i d ds k r k1 rs k2 :
    alloc d i k = (Ok r, k1) -> allocated alloc (i + 1) ds k1 rs k2 ->
    allocated alloc i (d :: ds) k (r :: rs) k2.

(** A completed loop over an index space whose first [n] entries are imported
    has allocated its defined entries in order. *)
Lemma allocate_loop {D R} (defined : Z -> outcome Error (option Z)) (alloc : D -> Z -> SM K Error R) n ds j rs k k' rs' :
  0 <= n -> (forall i o, defined i = Ok o -> o = if i <? n then None else Some (i - n)) ->
  sm_for (fun p => d ← sm_lift (defined p.1);
            match d with
            | Some i => v ← on_fst (alloc p.2 i); push_entity dbg i v
            | None => mret tt
            end) (imap (fun i v => (Z.of_nat (j + i), v)) ds) (k, rs) = (Ok tt, (k', rs')) ->
  exists new, rs' = rs ++ new /\
    allocated alloc (Z.max 0 (Z.of_nat j - n)) (drop (Z.to_nat n - j) ds) k new k'.
Proof.
  intros Hn Hdef. revert j rs k. induction ds as [|d ds IH]; intros j rs k.
  { cbn. intros [= <- <-]. exists []. rewrite app_nil_r, drop_nil. split; [done|constructor]. }
  rewrite imap_cons, Nat.add_0_r. cbn [sm_for]. intros ([] & [k1 rs1] & Hstep & Hrest)%sm_bind_ok.
  rewrite (imap_ext _ (fun i v => (Z.of_nat (S j + i), v))) in Hrest by (intros; cbn; do 2 f_equal; lia).
  destruct (IH (S j) rs1 k1 Hrest) as (new & -> & Hall).
  apply lift_bind_ok in Hstep as (o & Ho%Hdef & Hstep). cbn [fst snd] in *. subst o.
  destruct (Z.ltb_spec (Z.of_nat j) n).
  - injection Hstep as <- <-. exists new. split; [done|].
    replace (Z.to_nat n - j)%nat with (S (Z.to_nat n - S j)) by lia. cbn [drop].
    by replace (Z.max 0 (Z.of_nat j - n)) with (Z.max 0 (Z.of_nat (S j) - n)) by lia.
  - apply sm_bind_ok in Hstep as (v & [k2 rs2] & Ha & Hp). unfold on_fst in Ha. cbn [fst snd] in Ha.
    destruct (alloc d _ k) as [ra k3] eqn:Hal. injection Ha as -> <- <-.
    unfold push_entity in Hp. cbn [fst snd] in Hp. injection Hp as _ <- <-.
    exists (v :: new). split; [unfold pm_push; by rewrite <- app_assoc|].
    replace (Z.to_nat n - j)%nat with 0%nat by lia. cbn [drop].
    replace (Z.to_nat n - S j)%nat with 0%nat in Hall by lia.
    replace (Z.max 0 (Z.of_nat j - n)) with (Z.of_nat j - n) by lia.
    replace (Z.max 0 (Z.of_nat (S j) - n)) with (Z.of_nat j - n + 1) in Hall by lia.
    by econstructor.
Qed.

Lemma defined_index_ok {E} i n o :
  (if i <? n then Ok None else x ← sub 32 i n; Ok (Some x)) = Ok (E:=E) o -> o = if i <? n then None else Some (i - n).
Proof.
  destruct (i <? n); [by intros [= <-]|]. unfold sub, ofits. destruct (fits 32 (i - n)); [by intros [= <-]|done].
Qed.

Lemma allocate_tables_order m k k' ts :
  0 <= num_imported_tables m -> allocate_tables dbg m (k, []) = (Ok tt, (k', ts)) ->
  allocated (allocate_table m) 0 (drop (Z.to_nat (num_imported_tables m)) (tables m)) k ts k'.
Proof.
  intros Hn Hr. apply (allocate_loop _ _ (num_imported_tables m) _ 0) in Hr as (new & -> & Hall); [|done|].
  - rewrite Nat.sub_0_r, Z.max_l in Hall by lia. done.
  - intros i o. apply defined_index_ok.
Qed.

Lemma allocate_memories_order m k k' ms :
  0 <= num_imported_memories m -> allocate_memories dbg m (k, []) = (Ok tt, (k', ms)) ->
  allocated (allocate_memory m) 0 (drop (Z.to_nat (num_imported_memories m)) (memories m)) k ms k'.
Proof.
  intros Hn Hr. apply (allocate_loop _ _ (num_imported_memories m) _ 0) in Hr as (new & -> & Hall); [|done|].
  - rewrite Nat.sub_0_r, Z.max_l in Hall by lia. done.
  - intros i o. apply defined_index_ok.
Qed.

(** Deallocating a list of entities, whatever their indices. *)
Lemma deallocate_all {R} (fp : R -> list Mmap) (dealloc : Z -> R -> SM K Error unit) (l : list (Z * R)) fps k0 k :
  (forall i v fps k, owned (fp v ++ fps) k0 k -> exists k', dealloc i v k = (Ok tt, k') /\ owned fps k0 k') ->
  owned ((l.*2 ≫= fp) ++ fps) k0 k ->
  exists k', sm_for (fun p => dealloc p.1 p.2) l k = (Ok tt, k') /\ owned fps k0 k'.
Proof.
  intros Hd. revert k; induction l as [|[i v] l IH]; intros k Ho; cbn; [by exists k|].
  cbn in Ho. rewrite <- app_assoc in Ho. destruct (Hd i v _ _ Ho) as (k1 & Hk1 & Ho1).
  unfold mbind, sm_bind. rewrite Hk1. by apply IH.
Qed.

Lemma pm_iter_snd {R} (l : list R) : (pm_iter l).*2 = l.
Proof.
  unfold pm_iter. apply list_eq. intros i. rewrite list_lookup_fmap, list_lookup_imap.
  by destruct (l !! i).
Qed.

Lemma deallocate_tables_spec ts fps k0 k :
  owned ((ts ≫= table_fp) ++ fps) k0 k ->
  exists k', deallocate_tables ts k = (Ok tt, k') /\ owned fps k0 k'.
Proof.
  intros Ho. apply (deallocate_all table_fp (deallocate_table)).
  - intros. by apply deallocate_table_spec.
  - by rewrite pm_iter_snd.
Qed.

Lemma deallocate_memories_spec ms fps k0 k :
  owned ((ms ≫= memory_fp) ++ fps) k0 k ->
  exists k', deallocate_memories ms k = (Ok tt, k') /\ owned fps k0 k'.
Proof.
  intros Ho. apply (deallocate_all memory_fp (deallocate_memory)).
  - intros. by apply deallocate_memory_spec.
  - by rewrite pm_iter_snd.
Qed.

(** The error path frees what the tables and memories loops had allocated. *)
Lemma cleanup_spec ms ts e k0 k :
  owned ((ms ≫= memory_fp) ++ (ts ≫= table_fp)) k0 k ->
  exists k', (_ ← deallocate_memories ms; _ ← deallocate_tables ts; sm_err (A:=OwnedVMContext * list Table * list Memory) e) k = (Err e, k') /\
             kernel_eq k' k0.
Proof.
  intros Ho. destruct (deallocate_memories_spec _ _ _ _ Ho) as (k1 & Hd1 & Ho1).
  rewrite <- (app_nil_r (ts ≫= table_fp)) in Ho1.
  destruct (deallocate_tables_spec _ _ _ _ Ho1) as (k2 & Hd2 & Ho2).
  exists k2. unfold mbind, sm_bind. rewrite Hd1, Hd2. split; [done|]. by apply owned_nil_eq.
Qed.
End AllocateModule.

(** C21: with any allocator that honours its contract, [allocate_module]
    either allocates one table per defined table of the module, then one memory
    per defined memory, each from its descriptor, in the order of the index
    spaces and under its definition index, then the context, and returns them
    with the address space grown by exactly their mappings; or it fails with the
    address space as it was before: tables and memories allocated before the
    failure are deallocated. *)
Theorem allocate_module_leak_free {K} `{InstanceAllocatorLaws K} dbg m o k r k'
    (Hwf : module_wf m) (Hr : allocate_module dbg m o k = (r, k')) :
  match r with
  | Ok (vmctx, ts, ms) =>
      (exists k1 k2,
         allocated (allocate_table m) 0 (drop (Z.to_nat (num_imported_tables m)) (tables m)) k ts k1 /\
         allocated (allocate_memory m) 0 (drop (Z.to_nat (num_imported_memories m)) (memories m)) k1 ms k2 /\
         allocate_vmctx m o k2 = (Ok vmctx, k')) /\
      owned (vmctx_fp vmctx ++ (ms ≫= memory_fp) ++ (ts ≫= table_fp)) k k'
  | Err _ => kernel_eq k' k
  | Panic => True
  end.
Proof.
  unfold allocate_module in Hr.
  destruct (num_defined_tables m) as [?| |]; [|by injection Hr as <- <-..].
  destruct (num_defined_memories m) as [?| |]; [|by injection Hr as <- <-..].
  destruct (allocate_tables dbg m (k, [])) as [rt [k1 ts]] eqn:Ht.
  pose proof (fun Hp => allocate_tables_spec dbg _ _ _ _ _ _ _ (owned_nil k) Ht Hp) as Ho1.
  rewrite app_nil_r in Ho1. destruct rt as [[]|e|]; [|clear Ht|by injection Hr as <- <-].
  2:{ destruct (cleanup_spec [] ts e k k1) as (k2 & Hd & Heq); [by apply Ho1|].
      rewrite Hd in Hr. by injection Hr as <- <-. }
  destruct (allocate_memories dbg m (k1, [])) as [rm [k2 ms]] eqn:Hm.
  pose proof (fun Hp => allocate_memories_spec dbg _ _ _ _ _ _ _ (Ho1 eq_refl) Hm Hp) as Ho2.
  destruct rm as [[]|e|]; [|clear Hm|by injection Hr as <- <-].
  2:{ destruct (cleanup_spec ms ts e k k2) as (k3 & Hd & Heq); [by apply Ho2|].
      rewrite Hd in Hr. by injection Hr as <- <-. }
  destruct (allocate_vmctx m o k2) as [rv k3] eqn:Hv.
  pose proof (allocate_vmctx_spec _ _ _ _ _ _ _ (Ho2 eq_refl) Hv) as Ho3.
  destruct rv as [vm|e|]; [|clear Hv|by injection Hr as <- <-].
  - injection Hr as <- <-. split; [|done]. exists k1, k2. split; [|split; [|done]].
    + by apply (allocate_tables_order dbg); [apply Hwf|].
    + by apply (allocate_memories_order dbg); [apply Hwf|].
  - destruct (cleanup_spec ms ts e k k3) as (k4 & Hd & Heq); [done|].
    rewrite Hd in Hr. by injection Hr as <- <-.
Qed.

(** ** [Memory::try_new] *)

(** The bytes reserved for a memory: the smaller of 4 GiB and its maximum, then the guard. *)
Definition memory_reservation {K} `{Kernel K} (desc : MemoryDesc) (maximum : option Z) : Z :=
  Z.min (align_up MEMORY_MAX host_page_size) (default USIZE_MAX maximum)
  + align_up (md_offset_guard_size desc) host_page_size.

Section MemoryProofs.
Context {K : Type} `{KernelLaws K} (dbg : bool).

Lemma round_ok {E} bytes r :
  0 <= bytes -> round_usize_up_to_host_pages (E:=E) dbg bytes = Ok r -> r = align_up bytes host_page_size.
Proof.
  intros Hb Hr. pose proof Hr as Hr'. unfold round_usize_up_to_host_pages in Hr'.
  destruct (try_from 64 bytes) as [b|] eqn:Hf; [|done]. apply try_from_Some in Hf as [-> Hf].
  rewrite round_usize_spec in Hr by done. case_match; [|done]. by injection Hr as <-.
Qed.

Lemma round_not_err {E} bytes (e : E) : round_usize_up_to_host_pages dbg bytes <> Err e.
Proof.
  unfold round_usize_up_to_host_pages. destruct (try_from 64 bytes) as [b|] eqn:Hf; [|done].
  apply try_from_Some in Hf as [-> Hf]. cbn [mbind outcome_bind unwrap].
  rewrite round_u64_spec by lia. case_match; [|done]. cbn. unfold unwrap. by case_match.
Qed.

(** The step that makes the initial pages accessible, or drops the mapping. *)
Lemma memory_accessible_step k0 k m min r k' :
  extends k0 m k -> has_prot k (mm_ptr m) (mm_len m) PROT_NONE -> 0 <= min ->
  (if 0 <? min then
     sm_on_err (a ← sm_lift (round_usize_up_to_host_pages dbg min); make_accessible m 0 a) (mmap_drop m)
   else mret tt) k = (r, k') ->
  match r with
  | Ok _ => extends k0 m k' /\ min <= mm_len m /\
      (forall x, prot_at k' x =
         if in_range (mm_ptr m) (align_up min host_page_size) x then Some PROT_RW
         else prot_at k x)
  | Err _ => kernel_eq k' k0
  | Panic => True
  end.
Proof.
  intros He Hn Hmin. pose proof page_pos as Hpp.
  destruct (Z.ltb_spec 0 min) as [Hpos|Hz].
  - intros Hs. destruct r as [[]|e|]; [| |done].
    + apply sm_on_err_ok, lift_bind_ok in Hs as (a & Ha%round_ok & Hs); [|lia]. subst a.
      destruct (align_up_spec min host_page_size) as (? & Hm & _); [lia|lia|].
      apply (make_accessible_spec k0) in Hs as (Hle & He' & Hp); [|done|lia|lia].
      rewrite Z.add_0_r, align_up_id in Hp by lia. split; [done|]. split; [lia|done].
    + apply sm_on_err_err in Hs as (k1 & Hs & rd & Hd & Hnp).
      apply lift_bind_err in Hs as [[Hs%round_not_err _]|(a & Ha%round_ok & Hs)]; [done| |lia]. subst a.
      destruct (align_up_spec min host_page_size) as (? & _ & _); [lia|lia|].
      apply (make_accessible_spec k0) in Hs as (_ & He' & _); [|done|lia|lia].
      destruct (drop_restores _ _ _ He') as (k2 & Hd2 & Heq). rewrite Hd in Hd2.
      by injection Hd2 as _ ->.
  - cbn. intros [= <- <-]. split; [done|]. pose proof (ex_len _ _ _ He). split; [lia|].
    intros x. assert (min = 0) as -> by lia.
    rewrite align_up_id by (rewrite ?Z.mod_0_l; lia).
    destruct (in_range (mm_ptr m) 0 x) eqn:Hx; [|done]. apply in_range_spec in Hx. lia.
Qed.

Lemma memory_try_new_spec desc min max k r k' :
  0 <= min -> memory_try_new dbg desc min max k = (r, k') ->
  match r with
  | Ok m => extends k (mem_mmap m) k' /\ mem_len m = min /\ min <= mm_len (mem_mmap m) /\
      mm_len (mem_mmap m) = memory_reservation desc max /\
      (forall x, prot_at k' x =
         if in_range (mm_ptr (mem_mmap m)) (align_up min host_page_size) x then Some PROT_RW
         else if in_range (mm_ptr (mem_mmap m)) (mm_len (mem_mmap m)) x then Some PROT_NONE
         else prot_at k x)
  | Err _ => kernel_eq k' k
  | Panic => True
  end.
Proof.
  intros Hmin. unfold memory_try_new. destruct r as [m|e|]; [| |done].
  - intros (g & Hg%unwrap_ok%try_from_Some & Hr)%lift_bind_ok. destruct Hg as [-> Hg].
    apply lift_bind_ok in Hr as (g & Hgr & Hr). apply round_ok in Hgr as ->; [|lia].
    apply lift_bind_ok in Hr as (b & Hb & Hr). apply round_ok in Hb as ->; [|done].
    apply lift_bind_ok in Hr as (q & [-> _]%add_ok & Hr).
    apply sm_bind_ok in Hr as (mm & k1 & Hres & Hr).
    apply with_reserve_ok in Hres as (Hlen & He & Hnone). rewrite <- Hlen in Hnone.
    apply sm_bind_ok in Hr as ([] & k2 & Hacc & [= <- <-]). cbn [mem_mmap mem_len].
    apply (memory_accessible_step k) in Hacc as (He' & Hle & Hp); [|done|done|done].
    split; [done|]. split; [done|]. split; [done|]. split; [done|].
    intros x. rewrite Hp. destruct (in_range (mm_ptr mm) (align_up min host_page_size) x); [done|].
    destruct (in_range (mm_ptr mm) (mm_len mm) x) eqn:Hx.
    + by apply Hnone, in_range_spec.
    + by apply (ex_frame _ _ _ He).
  - intros [[Hx _]|(g & _ & Hr)]%lift_bind_err; [by unfold unwrap in Hx; case_match|].
    apply lift_bind_err in Hr as [[Hx%round_not_err _]|(g2 & _ & Hr)]; [done|].
    apply lift_bind_err in Hr as [[Hx%round_not_err _]|(b & _ & Hr)]; [done|].
    apply lift_bind_err in Hr as [[Hx _]|(q & _ & Hr)]; [by unfold add, ofits in Hx; case_match|].
    apply sm_bind_err in Hr as [->%with_reserve_err|(mm & k1 & Hres & Hr)]; [done|].
    apply with_reserve_ok in Hres as (Hlen & He & Hnone). rewrite <- Hlen in Hnone.
    apply sm_bind_err in Hr as [Hacc|(? & ? & _ & ?)]; [|done].
    by apply (memory_accessible_step k) in Hacc.
Qed.
End MemoryProofs.

(** C27: a linear memory is a fresh mapping in which exactly the (page-rounded)
    initial bytes are readable and writable and everything up to the end of the
    guard region faults; no other address changes protection.  When it cannot
    be built, the address space is as before. *)
Theorem memory_try_new_sandbox {K} `{KernelLaws K} dbg desc min max k r k'
    (Hmin : 0 <= min) (Hr : memory_try_new dbg desc min max k = (r, k')) :
  match r with
  | Ok m =>
      let base := mm_ptr (mem_mmap m) in
      let total := memory_reservation desc max in
      mem_len m = min /\ min <= total /\
      has_prot k' base (align_up min host_page_size) PROT_RW /\
      (forall x, base + align_up min host_page_size <= x < base + total -> prot_at k' x = Some PROT_NONE) /\
      (forall x, ~ (base <= x < base + total) -> prot_at k' x = prot_at k x) /\
      (forall x, base <= x < base + total -> prot_at k x = None)
  | Err _ => kernel_eq k' k
  | Panic => True
  end.
Proof.
  apply memory_try_new_spec in Hr; [|done]. destruct r as [m| |]; [|done..].
  destruct Hr as (He & Hlen & Hle & Htot & Hp). cbn zeta. rewrite <- Htot.
  pose proof page_pos. destruct (align_up_spec min host_page_size) as (? & ? & _); [lia|lia|].
  assert (align_up min host_page_size <= mm_len (mem_mmap m))
    by (apply align_up_least; [lia|done|apply He]).
  split; [done|]. split; [done|]. split; [|split; [|split]].
  - intros x Hx. rewrite Hp. by rewrite (proj2 (in_range_spec _ _ _)).
  - intros x Hx. rewrite Hp.
    destruct (in_range _ (align_up min host_page_size) x) eqn:Hi; [apply in_range_spec in Hi; lia|].
    by rewrite (proj2 (in_range_spec _ _ _)) by lia.
  - intros x Hx. rewrite Hp.
    destruct (in_range _ (align_up min host_page_size) x) eqn:Hi; [apply in_range_spec in Hi; lia|].
    destruct (in_range _ (mm_len _) x) eqn:Hi2; [apply in_range_spec in Hi2; lia|done].
  - intros x Hx. apply (ex_fresh _ _ _ He). by apply in_range_spec.
Qed.

(** A memory of one wasm page with a maximum of two. *)
Definition example_memory_desc : MemoryDesc :=
  mkMemoryDesc 1 (Some 2) DEFAULT_OFFSET_GUARD_SIZE 16 false false.

Lemma memory_try_new_sandbox_witness :
  exists m k', memory_try_new (K:=LogKernel) true example_memory_desc 65536 (Some 131072) initial_kernel = (Ok m, k') /\
    has_prot k' (mm_ptr (mem_mmap m)) 65536 PROT_RW.
Proof.
  destruct (memory_try_new (K:=LogKernel) true example_memory_desc 65536 (Some 131072) initial_kernel)
    as [r k'] eqn:Hr.
  assert (Hmin : 0 <= 65536) by lia.
  pose proof (memory_try_new_sandbox true example_memory_desc 65536 (Some 131072) initial_kernel r k' Hmin Hr) as Hs.
  assert (is_ok r = true) as Hok by (apply (f_equal (is_ok ∘ fst)) in Hr; by vm_compute in Hr).
  destruct r as [m| |]; [|discriminate Hok..]. destruct Hs as (_ & _ & Hrw & _). eauto.
Defined.

(** ** [Table::try_new] *)
Section TableProofs.
Context {K : Type} `{KernelLaws K} (dbg : bool).

Lemma try_extend_with_spec {T} k0 k (v : MmapVec T) count elem r k' v' :
  vec_inv k0 k v -> 0 <= count -> try_extend_with dbg count elem (k, v) = (r, (k', v')) ->
  match r with
  | Ok _ => vec_inv k0 k' v' /\ mv_mmap v' = mv_mmap v /\ mv_len v' = mv_len v + count /\
            mv_slice v' = mv_slice v ++ replicate (Z.to_nat count) elem
  | Err e => e = MmapFailed /\ v' = v /\ vec_inv k0 k' v
  | Panic => mm_len (mv_mmap v) <= mv_len v + count
  end.
Proof.
  intros Hi Hc. pose proof (pm_len_nonneg (mv_data v)) as Hl0.
  unfold try_extend_with, with_guard, mbind, sm_bind.
  destruct (try_grow dbg count (k, v)) as [g [k1 v1]] eqn:Hg.
  apply (try_grow_spec dbg k0) in Hg; [|done|done]. destruct g as [old|e|].
  - destruct Hg as (-> & Hlt & -> & Hex & Hrw). cbn. intros [= <- <- <-].
    assert (Hdata : take (Z.to_nat (mv_len v)) (mv_data v) = mv_data v).
    { rewrite (vi_len _ _ _ Hi). apply take_ge. unfold pm_len. lia. }
    rewrite Hdata. split; [|split; [done|split; [done|]]].
    + split; cbn; try done; [|lia].
      rewrite (vi_len _ _ _ Hi). unfold pm_len. rewrite length_app, length_replicate. lia.
    + unfold mv_slice. cbn. rewrite Hdata. apply take_ge.
      rewrite length_app, length_replicate, (vi_len _ _ _ Hi). unfold pm_len. lia.
  - destruct Hg as (-> & Hm & Hd & Hi' & _). cbn. intros [= <- <- <-].
    rewrite Hm, Hd. split; [done|]. split; [by destruct v|done].
  - by intros [= <- <- <-].
Qed.

Lemma owning_err {T} (v : MmapVec T) (m : SM (VM K T) Error unit) k k0 r k' :
  (forall e k1 v1, m (k, v) = (Err e, (k1, v1)) -> extends k0 (mv_mmap v1) k1) ->
  owning v m k = (r, k') ->
  match r with
  | Ok v' => m (k, v) = (Ok tt, (k', v'))
  | Err _ => kernel_eq k' k0
  | Panic => True
  end.
Proof.
  intros Hm. unfold owning. destruct (m (k, v)) as [[[]|e|] [k1 v1]] eqn:Hr.
  - by intros [= <- <-].
  - destruct (drop_restores _ _ _ (Hm _ _ _ eq_refl)) as (k2 & -> & Heq). by intros [= <- <-].
  - by intros [= <- <-].
Qed.

(** A table without elements owns nothing; any other is a vector of null
    references of the declared minimum length. *)
Lemma table_try_new_spec desc max k r k' :
  table_try_new dbg desc max k = (r, k') ->
  match r with
  | Ok t =>
      if Z.min TABLE_MAX (default USIZE_MAX max) =? 0
      then k' = k /\ tbl_elements t = mv_new
      else vec_inv k k' (tbl_elements t) /\ mv_len (tbl_elements t) = td_minimum desc /\
           mm_len (mv_mmap (tbl_elements t)) =
             align_up (Z.min TABLE_MAX (default USIZE_MAX max)) host_page_size /\
           mv_slice (tbl_elements t) = replicate (Z.to_nat (td_minimum desc)) None
  | Err _ => kernel_eq k' k
  | Panic => True
  end.
Proof.
  unfold table_try_new. set (rs := Z.min TABLE_MAX (default USIZE_MAX max)).
  destruct (Z.eqb_spec rs 0) as [Hz|Hnz].
  - cbn. intros [= <- <-]. done.
  - unfold mbind at 1, sm_bind at 1. unfold mbind at 1, sm_bind at 1, sm_lift at 1.
    destruct (round_usize_up_to_host_pages dbg rs) as [cap|e|] eqn:Hcap; cycle 1.
    { by intros [= <- <-]. } { by intros [= <- <-]. }
    assert (Hcap' : cap = align_up rs host_page_size).
    { destruct (Z.ltb_spec rs 0); [|by apply (round_ok (E:=Error) dbg rs cap)].
      unfold round_usize_up_to_host_pages in Hcap.
      rewrite (proj2 (try_from_None 64 rs)) in Hcap by lia. done. }
    unfold mbind at 1, sm_bind at 1.
    destruct (with_reserved cap k) as [[v|e|] k1] eqn:Hv.
    + apply reserved_inv in Hv as (Hi & Hc & Hs & Hl).
      destruct (owning v _ k1) as [ro k2] eqn:Ho.
      apply (owning_err _ _ _ k) in Ho.
      * destruct ro as [v'|e|]; [|by intros [= <- <-]..]. intros [= <- <-]. cbn [tbl_elements].
        apply lift_bind_ok in Ho as (mn & [-> Hmn]%unwrap_ok%try_from_Some & Ho).
        apply (try_extend_with_spec k) in Ho as (Hi' & Hm & Hlen & Hsl); [|done|lia].
        rewrite Hm, Hc, Hlen, Hl, Hsl, Hs. by split.
      * intros e1 k3 v3 [[Hx _]|(mn & [-> Hmn]%unwrap_ok%try_from_Some & Hx)]%lift_bind_err;
          [by unfold unwrap in Hx; case_match|].
        apply (try_extend_with_spec k) in Hx as (_ & -> & Hi'); [|done|lia]. by apply vi_owned.
    + intros [= <- <-]. unfold with_reserved in Hv.
      apply sm_bind_err in Hv as [->%with_reserve_err|(? & ? & _ & ?)]; done.
    + by intros [= <- <-].
Qed.

Lemma owned_fp fps k0 k m k' : owned fps k0 k -> extends k m k' -> owned (mmap_fp m ++ fps) k0 k'.
Proof.
  intros Ho He. unfold mmap_fp. rewrite (proj2 (Z.eqb_neq _ _)) by (pose proof (ex_len _ _ _ He); lia).
  by apply owned_extend with k.
Qed.

(** The crate's allocator honours the contract. *)
#[global] Instance placeholder_laws :
  @InstanceAllocatorLaws K _ _ (PlaceholderAllocatorDontUse dbg).
Proof.
  split; cbn [allocate_vmctx allocate_memory allocate_table deallocate_memory deallocate_table
              deallocate_vmctx PlaceholderAllocatorDontUse].
  - intros m o fps k0 k r k' Ho Hr. unfold owned_vmctx_try_new in Hr. destruct r as [v|e|]; [| |done].
    + apply lift_bind_ok in Hr as (sz & _ & (mm & k1 & Hm & [= <- <-])%sm_bind_ok).
      apply mmap_new_ok in Hm as (_ & He & _). by apply owned_fp with k.
    + apply lift_bind_err in Hr as [[Hx%round_not_err _]|(sz & _ & Hr)]; [done|].
      apply sm_bind_err in Hr as [->%mmap_new_err|(? & ? & _ & ?)]; done.
  - intros m d i fps k0 k r k' Ho Hr. unfold mbind at 1, sm_bind, sm_lift in Hr.
    destruct (minimum_byte_size dbg d) as [mn|e|]; cbn [ok_usize] in Hr;
      [|by injection Hr as <- <-..].
    unfold mbind at 1, sm_bind, sm_lift in Hr.
    destruct (try_from 64 mn) as [mn'|] eqn:Hmn; cbn [unwrap] in Hr; [|by injection Hr as <- <-].
    apply try_from_Some in Hmn as [-> Hmn]. unfold mbind at 1, sm_bind, sm_lift in Hr.
    destruct (ok_usize (maximum_byte_size dbg d)) as [mx|e|] eqn:Hmx; [| |by injection Hr as <- <-].
    2:{ unfold ok_usize in Hmx. by case_match. }
    apply memory_try_new_spec in Hr; [|lia]. destruct r as [v|e|]; [| |done].
    + by apply owned_fp with k; [|apply Hr].
    + by eapply owned_kernel_eq.
  - intros m d i fps k0 k r k' Ho Hr. apply table_try_new_spec in Hr. destruct r as [t|e|]; [| |done].
    + unfold table_fp. destruct (_ =? 0).
      * by destruct Hr as [-> ->].
      * apply owned_fp with k; [done|]. apply Hr.
    + by eapply owned_kernel_eq.
  - intros i v fps k0 k Ho. by apply owned_drop_fp.
  - intros i v fps k0 k Ho. by apply owned_drop_fp.
  - intros v fps k0 k Ho. by apply owned_drop_fp.
Qed.
End TableProofs.

(** On 4 KiB pages the storage of a table allocated by the crate's
    allocator holds its elements exactly when there are at most 512 of them:
    the vector counts elements where the mapping counts bytes, so up to 4095
    eight-byte elements are accepted in a mapping of 4096 bytes.  Within the
    limit every element byte is accessible. *)
Lemma table_storage_limit {K} `{KernelLaws K} dbg m desc i k t k'
    (Hps : host_page_size = 4096) (Hmax : td_maximum desc <> Some 0)
    (Hr : @allocate_table K (PlaceholderAllocatorDontUse dbg) m desc i k = (Ok t, k')) :
  let v := tbl_elements t in
  mv_len v = td_minimum desc /\
  (8 * mv_len v <= mm_len (mv_mmap v) <-> td_minimum desc <= 512) /\
  (td_minimum desc <= 512 -> has_prot k' (mm_ptr (mv_mmap v)) (8 * mv_len v) PROT_RW).
Proof.
  cbn [allocate_table PlaceholderAllocatorDontUse] in Hr. apply table_try_new_spec in Hr.
  assert (Hrs : 0 < Z.min TABLE_MAX (default USIZE_MAX (td_maximum desc ≫= try_from 64)) <= 1024).
  { change TABLE_MAX with 1024. unfold USIZE_MAX. destruct (td_maximum desc) as [mx|]; cbn.
    - destruct (try_from 64 mx) as [y|] eqn:Hy; cbn; [|lia].
      apply try_from_Some in Hy as [-> Hy]. assert (mx <> 0) by congruence. lia.
    - lia. }
  rewrite (proj2 (Z.eqb_neq _ _)) in Hr by lia. destruct Hr as (Hi & Hlen & Hmm & _).
  assert (Hup : forall n, 0 < n <= 4096 -> align_up n 4096 = 4096).
  { intros n Hn. unfold align_up.
    replace ((n + 4096 - 1) / 4096) with 1; [lia|]. apply (Z.div_unique_pos _ _ _ (n - 1)); lia. }
  rewrite Hps, Hup in Hmm by lia. cbn zeta. rewrite Hlen, Hmm. split; [done|]. split; [lia|].
  intros Hle x Hx. apply (vi_rw _ _ _ Hi). rewrite Hlen, Hps.
  pose proof (vi_len _ _ _ Hi). pose proof (pm_len_nonneg (mv_data (tbl_elements t))).
  rewrite Hup by lia. lia.
Qed.

(** A table of 1000 null references. *)
Definition example_table_desc : TableDesc := mkTableDesc FUNCREF false 1000 None false.

Lemma table_storage_limit_witness :
  exists t k', @allocate_table LogKernel (PlaceholderAllocatorDontUse true) default_module example_table_desc 0
    initial_kernel = (Ok t, k') /\
    ~ 8 * mv_len (tbl_elements t) <= mm_len (mv_mmap (tbl_elements t)).
Proof.
  destruct (@allocate_table LogKernel (PlaceholderAllocatorDontUse true) default_module
    example_table_desc 0 initial_kernel) as [r k'] eqn:Hr.
  assert (is_ok r = true) as Hok by (apply (f_equal (is_ok ∘ fst)) in Hr; by vm_compute in Hr).
  destruct r as [t| |]; [|discriminate Hok..]. exists t, k'. split; [done|].
  assert (Hmax : td_maximum example_table_desc <> Some 0) by done.
  pose proof (table_storage_limit true default_module example_table_desc 0 initial_kernel t k'
    eq_refl Hmax Hr) as (_ & Hiff & _).
  rewrite Hiff. cbn. lia.
Defined.

(** A module with one memory and one table. *)
Definition alloc_module : TranslatedModule :=
  mkTranslatedModule None [] [] [mkTableDesc FUNCREF false 10 None false] [example_memory_desc] [] None
    [] [] [] (mkTableInitializers [] []) [] ∅ ∅ ∅ ∅ 0 0 0 0 0.

Lemma alloc_module_wf : module_wf alloc_module.
Proof. by split; vm_compute. Qed.

Lemma allocate_module_leak_free_witness :
  exists vmctx t mem k',
    @allocate_module LogKernel (PlaceholderAllocatorDontUse true) true alloc_module (layout_of alloc_module)
      initial_kernel = (Ok (vmctx, [t], [mem]), k') /\
    mv_len (tbl_elements t) = 10 /\ mem_len mem = 65536 /\
    owned (vmctx_fp vmctx ++ ([mem] ≫= memory_fp) ++ ([t] ≫= table_fp)) initial_kernel k'.
Proof.
  destruct (@allocate_module LogKernel (PlaceholderAllocatorDontUse true) true alloc_module
    (layout_of alloc_module) initial_kernel) as [r k'] eqn:Hr.
  pose proof (@allocate_module_leak_free LogKernel _ _ (PlaceholderAllocatorDontUse true) _ true
    alloc_module (layout_of alloc_module) initial_kernel r k' alloc_module_wf Hr) as Hs.
  vm_compute in Hr. injection Hr as <- <-. destruct Hs as [_ Hs]. do 4 eexists. split; [reflexivity|].
  split; [reflexivity|]. split; [reflexivity|]. exact Hs.
Defined.
