(* ===== verification/VMHeap.v ===== *)
(** * Raw memory and the structures in a [VMContext]
      ([src/src/runtime/vmcontext.rs])

    The host and compiled code share memory through raw pointers.  Memory is a
    finite map from addresses to bytes; an absent byte is unmapped or not
    initialised, and reading one is undefined behaviour, which the model counts
    as [Panic].  The [repr(C)] structures are written and read field by field at
    the offsets of their layout; each has the alignment of its declaration. *)
From stdpp Require Import base list gmap option numbers.
From S2P Require Import Prelude Types Module VMVal VMOffsets RtMemory.
Local Open Scope Z_scope.

Definition heap : Type := gmap Z Z.

(** ** Bytes *)
Fixpoint heap_write (a : Z) (cells : list byte_cell) (h : heap) : heap :=
  match cells with
  | [] => h
  | c :: cells => heap_write (a + 1) cells (partial_alter (fun _ => c) a h)
  end.

Fixpoint heap_read (a : Z) (n : nat) (h : heap) : list byte_cell :=
  match n with
  | O => []
  | S n => h !! a :: heap_read (a + 1) n h
  end.

Lemma heap_read_length a n h : length (heap_read a n h) = n.
Proof. revert a; induction n as [|n IH]; intros a; cbn; [done|by rewrite IH]. Qed.

Lemma heap_write_other a cells h b : b < a \/ a + Z.of_nat (length cells) <= b -> heap_write a cells h !! b = h !! b.
Proof.
  revert a h; induction cells as [|c cells IH]; intros a h Hb; cbn in *; [done|].
  rewrite IH by lia. apply lookup_partial_alter_ne. lia.
Qed.

Lemma heap_write_lookup a cells h i c : cells !! i = Some c -> heap_write a cells h !! (a + Z.of_nat i) = c.
Proof.
  revert a h i; induction cells as [|x cells IH]; intros a h [|i] Hi; cbn in *; try done.
  - injection Hi as ->. rewrite heap_write_other by lia. rewrite Z.add_0_r. apply lookup_partial_alter_eq.
  - replace (a + Z.of_nat (S i)) with (a + 1 + Z.of_nat i) by lia. by apply IH.
Qed.

Lemma heap_read_lookup a n h i : (i < n)%nat -> heap_read a n h !! i = Some (h !! (a + Z.of_nat i)).
Proof.
  revert a i; induction n as [|n IH]; intros a i Hi; [lia|]. destruct i as [|i]; cbn [heap_read lookup list_lookup].
  - by rewrite Z.add_0_r.
  - change (heap_read (a + 1) n h !! i = Some (h !! (a + Z.of_nat (S i)))). rewrite IH by lia. do 2 f_equal. lia.
Qed.

(** Reading what was written, and what was written elsewhere. *)
Lemma heap_read_write a cells h : heap_read a (length cells) (heap_write a cells h) = cells.
Proof.
  apply list_eq_same_length with (length cells); [done|apply heap_read_length|].
  intros i x y Hi Hx Hy. rewrite heap_read_lookup in Hx by done. rewrite (heap_write_lookup _ _ _ _ _ Hy) in Hx. congruence.
Qed.

Lemma heap_read_other a n b cells h : disjoint (a, Z.of_nat n) (b, Z.of_nat (length cells)) ->
  heap_read a n (heap_write b cells h) = heap_read a n h.
Proof.
  intros Hd. apply list_eq_same_length with n; [by rewrite !heap_read_length..|].
  intros i x y Hi Hx Hy. rewrite heap_read_lookup in Hx, Hy by done. unfold disjoint in Hd. cbn in Hd.
  rewrite heap_write_other in Hx by lia. congruence.
Qed.

(** ** Structures *)

(** An [n]-byte integer field, and padding. *)
Definition word (n : nat) (x : Z) : list byte_cell := Some <$> le_split n x.
Definition padding (n : nat) : list byte_cell := replicate n None.
Definition get_word {E} (n : nat) (offset : nat) (cells : list byte_cell) : outcome E Z := read_le n (drop offset cells).

Record VMFuncRef : Type := mkVMFuncRef {
  fr_array_call : Z; fr_wasm_call : Z; fr_vmctx : Z; fr_type_index : Z }.
Record VMFunctionImport : Type := mkVMFunctionImport {
  fi_wasm_call : Z; fi_array_call : Z; fi_vmctx : Z }.
(** [VMTableImport], [VMMemoryImport] and [VMGlobalImport] have the same shape. *)
Record VMImport : Type := mkVMImport { vi_from : Z; vi_vmctx : Z }.

Class VMStruct (A : Type) := {
  vs_size : nat;
  vs_align : Z;
  vs_encode : A -> list byte_cell;
  vs_decode : forall E, list byte_cell -> outcome E A;
  vs_valid : A -> Prop;
  vs_sized : A -> Prop }.
Class VMStructLaws (A : Type) `{VMStruct A} := {
  vs_encode_length : forall a, vs_sized a -> length (vs_encode a) = vs_size;
  vs_decode_encode : forall E a, vs_valid a -> vs_decode E (vs_encode a) = Ok a }.

Abbreviation u64_ok x := (0 <= x < 2 ^ 64).

#[global] Instance VMFuncRef_struct : VMStruct VMFuncRef := {|
  vs_size := 32;
  vs_align := 8;
  vs_encode r := word 8 (fr_array_call r) ++ word 8 (fr_wasm_call r) ++ word 8 (fr_vmctx r) ++ word 4 (fr_type_index r) ++ padding 4;
  vs_decode E c := a ← get_word 8 0 c; w ← get_word 8 8 c; v ← get_word 8 16 c; t ← get_word 4 24 c; Ok (mkVMFuncRef a w v t);
  vs_valid r := u64_ok (fr_array_call r) /\ u64_ok (fr_wasm_call r) /\ u64_ok (fr_vmctx r) /\ 0 <= fr_type_index r < 2 ^ 32;
  vs_sized _ := True |}.

#[global] Instance VMFunctionImport_struct : VMStruct VMFunctionImport := {|
  vs_size := 24;
  vs_align := 8;
  vs_encode r := word 8 (fi_wasm_call r) ++ word 8 (fi_array_call r) ++ word 8 (fi_vmctx r);
  vs_decode E c := w ← get_word 8 0 c; a ← get_word 8 8 c; v ← get_word 8 16 c; Ok (mkVMFunctionImport w a v);
  vs_valid r := u64_ok (fi_wasm_call r) /\ u64_ok (fi_array_call r) /\ u64_ok (fi_vmctx r);
  vs_sized _ := True |}.

#[global] Instance VMImport_struct : VMStruct VMImport := {|
  vs_size := 16;
  vs_align := 8;
  vs_encode r := word 8 (vi_from r) ++ word 8 (vi_vmctx r);
  vs_decode E c := f ← get_word 8 0 c; v ← get_word 8 8 c; Ok (mkVMImport f v);
  vs_valid r := u64_ok (vi_from r) /\ u64_ok (vi_vmctx r);
  vs_sized _ := True |}.

#[global] Instance VMTableDefinition_struct : VMStruct VMTableDefinition := {|
  vs_size := 16;
  vs_align := 8;
  vs_encode r := word 8 (vmt_base r) ++ word 8 (vmt_current_length r);
  vs_decode E c := b ← get_word 8 0 c; l ← get_word 8 8 c; Ok (mkVMTable b l);
  vs_valid r := u64_ok (vmt_base r) /\ u64_ok (vmt_current_length r);
  vs_sized _ := True |}.

#[global] Instance VMMemoryDefinition_struct : VMStruct VMMemoryDefinition := {|
  vs_size := 16;
  vs_align := 8;
  vs_encode r := word 8 (vmm_base r) ++ word 8 (vmm_current_length r);
  vs_decode E c := b ← get_word 8 0 c; l ← get_word 8 8 c; Ok (mkVMMemory b l);
  vs_valid r := u64_ok (vmm_base r) /\ u64_ok (vmm_current_length r);
  vs_sized _ := True |}.

(** A global is its sixteen bytes, initialised or not. *)
#[global] Instance VMGlobalDefinition_struct : VMStruct VMGlobalDefinition := {|
  vs_size := 16;
  vs_align := VMGlobalDefinition_align;
  vs_encode g := data g;
  vs_decode E c := Ok (mkVMGlobal c);
  vs_valid g := length (data g) = 16%nat;
  vs_sized g := length (data g) = 16%nat |}.

(** Pointers ([usize]) and the magic number ([u32]) of the header. *)
Record usize : Type := mkUsize { usize_value : Z }.
Record u32 : Type := mkU32 { u32_value : Z }.
#[global] Instance usize_struct : VMStruct usize := {|
  vs_size := 8;
  vs_align := 8;
  vs_encode x := word 8 (usize_value x);
  vs_decode E c := mkUsize <$> get_word 8 0 c;
  vs_valid x := u64_ok (usize_value x);
  vs_sized _ := True |}.
#[global] Instance u32_struct : VMStruct u32 := {|
  vs_size := 4;
  vs_align := 4;
  vs_encode x := word 4 (u32_value x);
  vs_decode E c := mkU32 <$> get_word 4 0 c;
  vs_valid x := 0 <= u32_value x < 2 ^ 32;
  vs_sized _ := True |}.

(** *** Laws *)
Arguments word : simpl never.
Arguments get_word : simpl never.
Arguments padding : simpl never.
Lemma word_length n x : length (word n x) = n.
Proof. unfold word. by rewrite length_fmap, le_split_length. Qed.

Lemma get_word_first {E} n x rest : 0 <= x < 2 ^ (8 * Z.of_nat n) -> get_word (E:=E) n 0 (word n x ++ rest) = Ok x.
Proof. intros Hx. unfold get_word, word. rewrite drop_0, read_le_prefix by done. by rewrite wrap_small. Qed.

Lemma get_word_skip {E} k x n o rest : get_word (E:=E) n (k + o) (word k x ++ rest) = get_word n o rest.
Proof.
  unfold get_word. f_equal. rewrite drop_app_ge by (rewrite word_length; lia). rewrite word_length. f_equal. lia.
Qed.

Lemma get_word_8 {E} x n o rest : get_word (E:=E) n (8 + o) (word 8 x ++ rest) = get_word n o rest.
Proof. apply get_word_skip. Qed.

Lemma get_word_whole {E} n x : 0 <= x < 2 ^ (8 * Z.of_nat n) -> get_word (E:=E) n 0 (word n x) = Ok x.
Proof. intros Hx. rewrite <- (app_nil_r (word n x)). by apply get_word_first. Qed.

(** Read the fields one after the other. *)
Ltac read_fields :=
  repeat match goal with
    | |- context [get_word ?n (S ?o) (word 8 ?x ++ ?r)] =>
        let o' := eval cbv in (S o - 8)%nat in
        rewrite (get_word_8 x n o' r)
    | |- context [get_word _ 0 (word _ _ ++ _)] => rewrite get_word_first by (cbn; lia); cbn [mbind outcome_bind]
    | |- context [get_word _ 0 (word _ _)] => rewrite get_word_whole by (cbn; lia); cbn [mbind outcome_bind]
    end.

Ltac struct_laws :=
  split; [intros a Ha; cbn [vs_encode vs_size]; rewrite ?length_app, ?word_length; reflexivity
         |intros E a Ha; cbn [vs_valid] in Ha; cbn [vs_encode vs_decode]; destruct a; cbn in Ha |- *; destruct_and?; read_fields; try reflexivity].

#[global] Instance VMFuncRef_laws : VMStructLaws VMFuncRef.
Proof. struct_laws. Qed.
#[global] Instance VMFunctionImport_laws : VMStructLaws VMFunctionImport.
Proof. struct_laws. Qed.
#[global] Instance VMImport_laws : VMStructLaws VMImport.
Proof. struct_laws. Qed.
#[global] Instance VMTableDefinition_laws : VMStructLaws VMTableDefinition.
Proof. struct_laws. Qed.
#[global] Instance VMMemoryDefinition_laws : VMStructLaws VMMemoryDefinition.
Proof. struct_laws. Qed.
#[global] Instance usize_laws : VMStructLaws usize.
Proof. struct_laws. Qed.
#[global] Instance u32_laws : VMStructLaws u32.
Proof. struct_laws. Qed.
#[global] Instance VMGlobalDefinition_laws : VMStructLaws VMGlobalDefinition.
Proof. split; [intros a Ha; exact Ha|by intros E [] Ha]. Qed.

(** ** Typed access *)
Definition store_at {A} `{VMStruct A} (a : Z) (v : A) (h : heap) : heap := heap_write a (vs_encode v) h.
Definition load_at {E A} `{VMStruct A} (a : Z) (h : heap) : outcome E A := vs_decode E (heap_read a vs_size h).

Lemma load_of_read {E A} `{VMStructLaws A} a (v : A) h :
  vs_valid v -> heap_read a vs_size h = vs_encode v -> load_at (E:=E) a h = Ok v.
Proof. intros Hv Hr. unfold load_at. rewrite Hr. by apply vs_decode_encode. Qed.
