(* ===== verification/BTree.v ===== *)
(** * Ordered maps and binary search

    The two standard-library containers whose order the crate relies on:
    [BTreeMap] (compilation outputs, the code registry) as a list sorted by
    key, and [slice::binary_search_by_key] (trap lookup) as the halving loop it
    is. *)
From stdpp Require Import base list option numbers.
From S2P Require Import Prelude.

(** ** [BTreeMap] *)
Class KeyOrder (A : Type) := key_ltb : A -> A -> bool.

Class KeyOrderLaws (A : Type) `{KeyOrder A} := {
  key_irrefl : forall a, key_ltb a a = false;
  key_trans : forall a b c, key_ltb a b = true -> key_ltb b c = true -> key_ltb a c = true;
  key_total : forall a b, key_ltb a b = true \/ a = b \/ key_ltb b a = true }.

#[global] Instance Z_order : KeyOrder Z := Z.ltb.
#[global] Instance Z_order_laws : KeyOrderLaws Z.
Proof. split; unfold key_ltb, Z_order; intros; rewrite ?Z.ltb_lt, ?Z.ltb_ge in *; lia. Qed.

Section BTreeMap.
Context {A V : Type} `{KeyOrderLaws A, EqDecision A}.

Definition BTreeMap : Type := list (A * V).

(** [BTreeMap::insert]. *)
Fixpoint bt_insert (k : A) (v : V) (m : BTreeMap) : BTreeMap :=
  match m with
  | [] => [(k, v)]
  | (k', v') :: m' =>
      if decide (k = k') then (k, v) :: m'
      else if key_ltb k k' then (k, v) :: m
      else (k', v') :: bt_insert k v m'
  end.

(** [BTreeMap::get]. *)
Fixpoint bt_get (k : A) (m : BTreeMap) : option V :=
  match m with
  | [] => None
  | (k', v') :: m' => if decide (k = k') then Some v' else bt_get k m'
  end.

(** [BTreeMap::remove]. *)
Fixpoint bt_remove (k : A) (m : BTreeMap) : BTreeMap :=
  match m with
  | [] => []
  | (k', v') :: m' => if decide (k = k') then m' else (k', v') :: bt_remove k m'
  end.

(** [range(k..).next()]: the entry with the least key that is not below [k]. *)
Fixpoint bt_range_from (k : A) (m : BTreeMap) : option (A * V) :=
  match m with
  | [] => None
  | (k', v') :: m' => if key_ltb k' k then bt_range_from k m' else Some (k', v')
  end.

(** Keys strictly increase. *)
Fixpoint bt_sorted (m : BTreeMap) : Prop :=
  match m with
  | [] => True
  | (k, _) :: m' => (forall k' v', (k', v') ∈ m' -> key_ltb k k' = true) /\ bt_sorted m'
  end.

Lemma key_asym a b : key_ltb a b = true -> key_ltb b a = false.
Proof.
  intros Hab. destruct (key_ltb b a) eqn:Hba; [|done].
  pose proof (key_trans _ _ _ Hab Hba) as Hx. by rewrite key_irrefl in Hx.
Qed.

Lemma key_not_ltb a b : key_ltb a b = false -> a <> b -> key_ltb b a = true.
Proof. intros Hab Hne. destruct (key_total a b) as [?|[?|?]]; congruence. Qed.

Lemma bt_insert_elem k v m k' v' :
  (k', v') ∈ bt_insert k v m -> (k', v') = (k, v) \/ (k', v') ∈ m.
Proof.
  induction m as [|[k1 v1] m IH]; cbn.
  - intros ->%list_elem_of_singleton. by left.
  - destruct (decide (k = k1)) as [->|]; [|destruct (key_ltb k k1)]; rewrite !elem_of_cons; naive_solver.
Qed.

Lemma bt_insert_sorted k v m : bt_sorted m -> bt_sorted (bt_insert k v m).
Proof.
  induction m as [|[k1 v1] m IH]; cbn.
  - intros _. split; [intros ?? ?%elem_of_nil|]; done.
  - intros [Hlt Hs]. destruct (decide (k = k1)) as [->|Hne]; [done|].
    destruct (key_ltb k k1) eqn:Hk; cbn.
    + split; [|done]. intros k' v' [[= -> ->]|Hin]%elem_of_cons; [done|].
      eapply key_trans; [done|]. by eapply Hlt.
    + split; [|by apply IH]. intros k' v' [[= -> ->]|Hin]%bt_insert_elem; [|by eapply Hlt].
      by apply key_not_ltb.
Qed.

Lemma bt_get_insert_eq k v m : bt_get k (bt_insert k v m) = Some v.
Proof.
  induction m as [|[k1 v1] m IH]; cbn; [by rewrite decide_True|].
  destruct (decide (k = k1)) as [->|Hne]; cbn; [by rewrite decide_True|].
  destruct (key_ltb k k1); cbn; [by rewrite decide_True|by rewrite decide_False].
Qed.

Lemma bt_get_insert_ne k k' v m : k' <> k -> bt_get k' (bt_insert k v m) = bt_get k' m.
Proof.
  intros Hne. induction m as [|[k1 v1] m IH]; cbn; [by rewrite decide_False|].
  destruct (decide (k = k1)) as [->|Hne1]; cbn; [by rewrite !decide_False|].
  destruct (key_ltb k k1); cbn; [by rewrite decide_False|].
  destruct (decide (k' = k1)); [done|by apply IH].
Qed.

Lemma bt_get_elem k v m : bt_get k m = Some v -> (k, v) ∈ m.
Proof.
  induction m as [|[k1 v1] m IH]; cbn; [done|].
  destruct (decide (k = k1)) as [->|]; [intros [= ->]; by left|]. intros Hg. right. by apply IH.
Qed.

Lemma bt_elem_get k v m : bt_sorted m -> (k, v) ∈ m -> bt_get k m = Some v.
Proof.
  induction m as [|[k1 v1] m IH]; cbn; [by intros _ ?%elem_of_nil|].
  intros [Hlt Hs] [[= -> ->]|Hin]%elem_of_cons; [by rewrite decide_True|].
  rewrite decide_False; [by apply IH|]. intros ->.
  apply Hlt in Hin. by rewrite key_irrefl in Hin.
Qed.

Lemma bt_get_remove_ne k k' m : k' <> k -> bt_get k' (bt_remove k m) = bt_get k' m.
Proof.
  intros Hne. induction m as [|[k1 v1] m IH]; cbn; [done|].
  destruct (decide (k = k1)) as [->|]; cbn; [by rewrite decide_False|].
  by rewrite IH.
Qed.

Lemma bt_range_from_spec k m :
  bt_sorted m ->
  match bt_range_from k m with
  | Some (k', v') => (k', v') ∈ m /\ key_ltb k' k = false /\
      (forall k2 v2, (k2, v2) ∈ m -> key_ltb k2 k = false -> key_ltb k2 k' = false)
  | None => forall k2 v2, (k2, v2) ∈ m -> key_ltb k2 k = true
  end.
Proof.
  induction m as [|[k1 v1] m IH]; cbn; [by intros _ ?? ?%elem_of_nil|].
  intros [Hlt Hs]. specialize (IH Hs). destruct (key_ltb k1 k) eqn:Hk.
  - destruct (bt_range_from k m) as [[k' v']|].
    + destruct IH as (Hin & Hge & Hmin). split; [by right|]. split; [done|].
      intros k2 v2 [[= -> ->]|Hin2]%elem_of_cons Hk2; [congruence|by eapply Hmin].
    + intros k2 v2 [[= -> ->]|Hin2]%elem_of_cons; [done|by eapply IH].
  - split; [by left|]. split; [done|].
    intros k2 v2 [[= -> ->]|Hin2]%elem_of_cons _; [apply key_irrefl|].
    apply key_asym. by eapply Hlt.
Qed.
End BTreeMap.
Arguments BTreeMap : clear implicits.

(** A sorted map whose keys are the images [f lo, ..., f (lo + n - 1)] of a
    monotone [f] lists them in that order. *)
Lemma bt_sorted_dense {A V} `{KeyOrderLaws A} (f : Z -> A) (m : BTreeMap A V) n lo :
  (forall a b, key_ltb (f a) (f b) = true <-> (a < b)%Z) ->
  bt_sorted m ->
  (forall k v, (k, v) ∈ m -> exists d, k = f d /\ (lo <= d < lo + Z.of_nat n)%Z) ->
  (forall d, (lo <= d < lo + Z.of_nat n)%Z -> exists v, (f d, v) ∈ m) ->
  m.*1 = f <$> seqZ lo (Z.of_nat n).
Proof.
  intros Hf. assert (Hinj : forall a b, f a = f b -> a = b).
  { intros a b Hab. destruct (Z.lt_trichotomy a b) as [Hlt|[?|Hlt]]; [|done|];
      apply Hf in Hlt; rewrite Hab, key_irrefl in Hlt; done. }
  revert n lo; induction m as [|[k v] m IH]; intros n lo Hs Hsub Hsup.
  - destruct n as [|n]; [done|]. destruct (Hsup lo) as [v Hv]; [lia|]. by apply elem_of_nil in Hv.
  - destruct Hs as [Hlt Hs]. destruct (Hsub k v) as (d & -> & Hd); [by left|].
    destruct n as [|n]; [lia|]. rewrite (seqZ_cons lo (Z.of_nat (S n))) by lia. cbn.
    assert (d = lo) as ->.
    { destruct (Hsup lo) as [v' [[= Hk _]|Hin]%elem_of_cons]; [lia|by apply Hinj in Hk|].
      apply Hlt, Hf in Hin. lia. }
    f_equal. replace (Z.pred (Z.of_nat (S n))) with (Z.of_nat n) by lia.
    apply IH; [done| |].
    + intros k' v' Hin. destruct (Hsub k' v') as (d' & -> & Hd'); [by right|].
      apply Hlt, Hf in Hin. exists d'. split; [done|lia].
    + intros d' Hd'. destruct (Hsup d') as [v' [[= Hk _]|Hin]%elem_of_cons]; [lia| |by exists v'].
      apply Hinj in Hk. lia.
Qed.

(** ** [binary_search_by_key] *)
Section BinarySearch.
Local Open Scope Z_scope.

(** The halving loop: [size] elements from [base] on may hold the key. *)
Fixpoint bsearch_loop (fuel : nat) (l : list Z) (x : Z) (base size : nat) : nat :=
  match fuel with
  | O => base
  | S fuel' =>
      if Nat.leb size 1 then base
      else
        let half := Nat.div2 size in
        let mid := (base + half)%nat in
        let base' := match l !! mid with
                     | Some y => if x <? y then base else mid
                     | None => base
                     end in
        bsearch_loop fuel' l x base' (size - half)
  end.

(** [Some index] for [Ok(index)], [None] for [Err(_)]; the size at least
    halves, rounding up, so its value is enough fuel. *)
Definition binary_search (l : list Z) (x : Z) : option nat :=
  match l with
  | [] => None
  | _ => let base := bsearch_loop (length l) l x 0 (length l) in
         match l !! base with
         | Some y => if y =? x then Some base else None
         | None => None
         end
  end.

Definition strictly_increasing (l : list Z) : Prop :=
  forall i j a b, (i < j)%nat -> l !! i = Some a -> l !! j = Some b -> a < b.

(** The loop ends on the last element that is not above the key. *)
Lemma bsearch_loop_spec fuel l x base size i a :
  strictly_increasing l -> (size <= fuel)%nat -> (base + size <= length l)%nat ->
  l !! i = Some a -> a = x -> (base <= i < base + size)%nat ->
  bsearch_loop fuel l x base size = i.
Proof.
  intros Hs. revert base size; induction fuel as [|fuel IH]; intros base size Hf Hle Hi Ha Hr; cbn; [lia|].
  destruct (Nat.leb_spec size 1) as [|Hsz]; [lia|].
  pose proof (Nat.div2_odd size) as Hd. pose proof (Nat.lt_div2 size ltac:(lia)).
  assert (0 < Nat.div2 size)%nat by (destruct (Nat.odd size); cbn in Hd; lia).
  destruct (l !! (base + Nat.div2 size)%nat) as [y|] eqn:Hy;
    [|apply lookup_ge_None in Hy; lia].
  destruct (Z.ltb_spec x y) as [Hxy|Hxy].
  - apply IH; [lia|lia|done|done|]. split; [lia|].
    destruct (le_lt_dec (base + Nat.div2 size) i) as [Hge|]; [|lia]. exfalso.
    destruct (le_lt_eq_dec _ _ Hge) as [Hlt|Heq]; [pose proof (Hs _ _ _ _ Hlt Hy Hi); lia|].
    subst i. rewrite Hy in Hi. injection Hi as ->. lia.
  - apply IH; [lia|lia|done|done|]. split; [|lia].
    destruct (le_lt_dec (base + Nat.div2 size) i) as [|Hlt]; [lia|].
    pose proof (Hs _ _ _ _ Hlt Hi Hy). lia.
Qed.

(** On a strictly increasing slice the search finds a key exactly when it occurs. *)
Lemma binary_search_spec l x i :
  strictly_increasing l -> binary_search l x = Some i <-> l !! i = Some x.
Proof.
  intros Hs. split.
  - unfold binary_search. destruct l as [|z l]; [done|].
    destruct (_ !! bsearch_loop _ _ _ _ _) as [y|] eqn:Hy; [|done].
    destruct (Z.eqb_spec y x) as [->|]; [|done]. by intros [= <-].
  - intros Hi. assert (Hlt := lookup_lt_Some _ _ _ Hi). unfold binary_search.
    destruct l as [|z l]; [done|].
    rewrite (bsearch_loop_spec _ _ x 0 _ i x) by (done || lia).
    by rewrite Hi, Z.eqb_refl.
Qed.
End BinarySearch.
