(* ===== verification/Code.v ===== *)
(** * Compilation outputs, code memory and the code registry
      ([src/src/compile/*.rs], [src/src/runtime/code_memory.rs],
       [src/src/placeholder/code_registry.rs])

    Compilation jobs and their keys, linking of the compiled functions into one
    text section with its tables of function locations and traps, the published
    code memory, and the global registry that maps a faulting address back to a
    trap.  The code generator is a parameter: a record [Compiler] of its
    compilation functions and a class [TextSectionBuilder] with the laws of
    appending. *)
From stdpp Require Import base list option numbers.
From S2P Require Import Prelude Types Trap Module Mmap BTree.
Local Open Scope Z_scope.

(** ** [CompileKey] ([compile_key.rs]) *)
Record CompileKey : Type := mkCompileKey { ck_namespace : Z; ck_index : Z }.

#[global] Instance CompileKey_eq_dec : EqDecision CompileKey.
Proof. solve_decision. Defined.

(** The derived [Ord]: lexicographic on the fields. *)
#[global] Instance CompileKey_order : KeyOrder CompileKey := fun a b =>
  (ck_namespace a <? ck_namespace b)
  || ((ck_namespace a =? ck_namespace b) && (ck_index a <? ck_index b)).

#[global] Instance CompileKey_order_laws : KeyOrderLaws CompileKey.
Proof.
  split; unfold key_ltb, CompileKey_order.
  - intros [n i]; cbn. apply orb_false_iff. split; [by apply Z.ltb_irrefl|].
    apply andb_false_iff. right. by apply Z.ltb_irrefl.
  - intros [n1 i1] [n2 i2] [n3 i3]; cbn.
    rewrite !orb_true_iff, !andb_true_iff, !Z.ltb_lt, !Z.eqb_eq. lia.
  - intros [n1 i1] [n2 i2]; cbn. rewrite !orb_true_iff, !andb_true_iff, !Z.ltb_lt, !Z.eqb_eq.
    destruct (Z.lt_trichotomy n1 n2) as [|[->|]]; [by left; left| |by right; right; left].
    destruct (Z.lt_trichotomy i1 i2) as [|[->|]]; [by left; right|by right; left|].
    right; right; right. lia.
Qed.

Definition KIND_BITS : Z := 3.
Definition KIND_OFFSET : Z := 32 - KIND_BITS.
Definition KIND_MASK : Z := Z.shiftl (Z.shiftl 1 KIND_BITS - 1) KIND_OFFSET.
Definition kind (k : CompileKey) : Z := Z.land (ck_namespace k) KIND_MASK.

(** [new_kind] is evaluated at compile time, its assertion holds for the four kinds. *)
Definition new_kind (kind : Z) : Z := Z.shiftl kind KIND_OFFSET.
Definition WASM_FUNCTION_KIND : Z := new_kind 0.
Definition ARRAY_TO_WASM_TRAMPOLINE_KIND : Z := new_kind 2.
Definition WASM_TO_ARRAY_TRAMPOLINE_KIND : Z := new_kind 3.
Definition WASM_TO_BUILTIN_TRAMPOLINE_KIND : Z := new_kind 4.

Definition wasm_function (index : Z) : CompileKey :=
  mkCompileKey (Z.lor WASM_FUNCTION_KIND 0) index.
Definition array_to_wasm_trampoline (index : Z) : CompileKey :=
  mkCompileKey (Z.lor ARRAY_TO_WASM_TRAMPOLINE_KIND 0) index.
Definition wasm_to_builtin_trampoline (index : Z) : CompileKey :=
  mkCompileKey WASM_TO_BUILTIN_TRAMPOLINE_KIND index.

(** ** Compiled functions ([compiled_function.rs]) *)
Definition NS_WASM_FUNC : Z := 0.
Definition NS_BUILTIN : Z := 1.

Inductive FinalizedRelocTarget : Type :=
| ExternalName_User (user_func_ref : Z)
| ExternalName_LibCall (libcall : Z)
| OtherTarget.

Record FinalizedMachReloc : Type := mkMachReloc {
  mr_offset : Z; mr_kind : Z; mr_target : FinalizedRelocTarget; mr_addend : Z }.

Inductive RelocationTarget : Type :=
| Reloc_Wasm (f : Z)
| Reloc_Builtin (b : Z).

Record Relocation : Type := mkRelocation {
  rl_kind : Z; rl_target : RelocationTarget; rl_addend : Z; rl_offset : Z }.

Record TrapInfo : Type := mkTrapInfo { ti_offset : Z; ti_trap : Trap }.

(** The machine code buffer's data, relocations and traps, the name map, the
    alignment and the metadata (stack slots by size and alignment); the ranges of
    value labels are never filled in and left out. *)
Record CompiledFunction : Type := mkCompiledFunction {
  cf_buffer : list Z;
  cf_relocs : list FinalizedMachReloc;
  cf_mach_traps : list (Z * Z);  (* offset, trap code *)
  cf_name_map : list (Z * Z);    (* namespace, index *)
  cf_alignment : Z;
  cf_start_srcloc : Z;
  cf_end_srcloc : Z;
  cf_sized_stack_slots : list (Z * Z) }.

(** [Relocation::from_mach_reloc]. *)
Definition from_mach_reloc {E} (reloc : FinalizedMachReloc) (name_map : list (Z * Z)) :
    outcome E Relocation :=
  target ← match mr_target reloc with
           | ExternalName_User user_func_ref =>
               nm ← pm_index name_map user_func_ref;
               if nm.1 =? NS_WASM_FUNC then Ok (Reloc_Wasm nm.2)
               else if nm.1 =? NS_BUILTIN then Ok (Reloc_Builtin nm.2)
               else Panic
           | ExternalName_LibCall _ => Panic
           | OtherTarget => Panic
           end;
  Ok (mkRelocation (mr_kind reloc) target (mr_addend reloc) (mr_offset reloc)).

(** [CompiledFunction::relocations] and [CompiledFunction::traps], consumed whole. *)
Definition relocations {E} (f : CompiledFunction) : outcome E (list Relocation) :=
  mapO (fun r => from_mach_reloc r (cf_name_map f)) (cf_relocs f).
Definition traps {E} `{TrapCodes} (f : CompiledFunction) : outcome E (list TrapInfo) :=
  mapO (fun t => trap ← unwrap (from_trap_code t.2); Ok (mkTrapInfo t.1 trap)) (cf_mach_traps f).

(** ** Jobs ([compile/mod.rs]) *)
Record FunctionLoc : Type := mkFunctionLoc { fl_start : Z; fl_length : Z }.
Record CompiledFunctionInfo : Type := mkFunctionInfo {
  wasm_func_loc : FunctionLoc;
  host_to_wasm_trampoline : option FunctionLoc;
  start_srcloc : Z }.
Record CompileOutput : Type := mkCompileOutput { co_key : CompileKey; co_function : CompiledFunction }.

(** [FilePos]. *)
Definition filepos_default : Z := 2 ^ 32 - 1.
Definition file_offset (pos : Z) : option Z := if pos =? 2 ^ 32 - 1 then None else Some pos.

Section Compile.
Context {Body : Type} `{TrapCodes}.

(** The trait [Compiler], as far as the jobs use it. *)
Record Compiler : Type := mkCompiler {
  compile_function : Z -> Body -> outcome Error CompiledFunction;
  compile_array_to_wasm_trampoline : Z -> outcome Error CompiledFunction;
  compile_wasm_to_builtin : Z -> outcome Error CompiledFunction }.

Definition CompileInput : Type := Compiler -> outcome Error CompileOutput.

(** [CompileInputs::from_module]. *)
Definition from_module (module : TranslatedModule) (function_body_data : list Body) :
    outcome Error (list CompileInput) :=
  foldM (fun inputs p =>
    let def_func_index := p.1 in
    let main : CompileInput := fun compiler =>
      f ← compile_function compiler def_func_index p.2;
      Ok (mkCompileOutput (wasm_function def_func_index) f) in
    fi ← func_index module def_func_index;
    fd ← pm_index (functions module) fi;
    let trampoline : CompileInput := fun compiler =>
      f ← compile_array_to_wasm_trampoline compiler def_func_index;
      Ok (mkCompileOutput (array_to_wasm_trampoline def_func_index) f) in
    Ok (if is_escaping fd then inputs ++ [main; trampoline] else inputs ++ [main]))
    (imap (fun i b => (Z.of_nat i, b)) function_body_data) [].

(** [BuiltinFunctionIndex::name]: there are no builtins, so [unreachable!()]. *)
Definition builtin_name {E} (builtin : Z) : outcome E unit := Panic.

(** [compile_required_builtin_trampolines]: one job per distinct builtin
    mentioned by a relocation, in order of first mention. *)
Definition builtin_indices (rs : list Relocation) : list Z :=
  omap (fun r => match rl_target r with Reloc_Builtin b => Some b | Reloc_Wasm _ => None end) rs.

Definition compile_required_builtin_trampolines (compiler : Compiler) (outputs : list CompileOutput) :
    outcome Error (list CompileOutput) :=
  rss ← mapO (fun o => relocations (co_function o)) outputs;
  let jobs := foldl (fun seen b => if decide (b ∈ seen) then seen else seen ++ [b]) []
                (builtin_indices (concat rss)) in
  new ← mapO (fun b => _ ← builtin_name b; f ← compile_wasm_to_builtin compiler b;
                       Ok (mkCompileOutput (wasm_to_builtin_trampoline b) f)) jobs;
  Ok (outputs ++ new).

(** [UnlinkedCompileOutputs]. *)
Record UnlinkedCompileOutputs : Type := mkUnlinked {
  indices : BTreeMap Z (BTreeMap CompileKey Z);
  outputs : list CompileOutput }.

(** The index maps: by kind, then by key, the position of the output. *)
Definition build_indices (outs : list CompileOutput) : BTreeMap Z (BTreeMap CompileKey Z) :=
  foldl (fun m p => bt_insert (kind (co_key p.2))
                      (bt_insert (co_key p.2) p.1 (default [] (bt_get (kind (co_key p.2)) m))) m)
    [] (imap (fun i o => (Z.of_nat i, o)) outs).

(** [CompileInputs::compile]. *)
Definition compile (inputs : list CompileInput) (compiler : Compiler) :
    outcome Error UnlinkedCompileOutputs :=
  outs ← mapO (fun f => f compiler) inputs;
  outs ← compile_required_builtin_trampolines compiler outs;
  Ok (mkUnlinked (build_indices outs) outs).

(** ** [TrapsBuilder] *)
Record TrapsBuilder : Type := mkTrapsBuilder {
  tb_offsets : list Z; tb_traps : list Trap; tb_last_offset : Z }.
Definition traps_default : TrapsBuilder := mkTrapsBuilder [] [] 0.

Definition push_trap {E} (dbg : bool) (func : FunctionLoc) (b : TrapsBuilder) (trap : TrapInfo) :
    outcome E TrapsBuilder :=
  pos ← add 32 (fl_start func) (ti_offset trap);
  _ ← debug_assert dbg (tb_last_offset b <=? pos);
  Ok (mkTrapsBuilder (tb_offsets b ++ [pos]) (tb_traps b ++ [ti_trap trap]) pos).

Definition push_traps {E} (dbg : bool) (func : FunctionLoc) (ts : list TrapInfo) (b : TrapsBuilder) :
    outcome E TrapsBuilder :=
  b' ← foldM (push_trap dbg func) ts b;
  last ← add 32 (fl_start func) (fl_length func);
  Ok (mkTrapsBuilder (tb_offsets b') (tb_traps b') last).
End Compile.
Arguments Compiler : clear implicits.
Arguments CompileInput : clear implicits.

(** ** Linking *)

(** The code generator's text section builder, with three observations:
    [tb_pos] is the length of the text so far, [tb_byte] the byte placed at an
    offset (unknown where a relocation is to be written), and [tb_reloc_size]
    the number of bytes that a relocation of a kind rewrites. *)
Class TextSectionBuilder (B : Type) := {
  tb_append : B -> list Z -> Z -> Z * B;
  tb_resolve_reloc : B -> Z -> Z -> Z -> Z -> bool * B;
  tb_finish : B -> list Z;
  tb_pos : B -> Z;
  tb_byte : B -> Z -> option Z;
  tb_reloc_size : Z -> Z }.

(** Appending places the body behind everything placed before it, byte by byte;
    resolving a relocation moves nothing and rewrites its own field only; the
    finished text holds every placed byte. *)
Class TextSectionBuilderLaws (B : Type) `{TextSectionBuilder B} := {
  append_pos : forall b body align off b',
    tb_append b body align = (off, b') ->
    tb_pos b <= off /\ tb_pos b' = off + pm_len body;
  resolve_pos : forall b off knd addend target ok b',
    tb_resolve_reloc b off knd addend target = (ok, b') -> tb_pos b' = tb_pos b;
  finish_length : forall b, tb_pos b <= pm_len (tb_finish b);
  append_body : forall b body align off b' i x,
    tb_append b body align = (off, b') -> body !! i = Some x -> tb_byte b' (off + Z.of_nat i) = Some x;
  append_keeps : forall b body align off b' p,
    tb_append b body align = (off, b') -> p < tb_pos b -> tb_byte b' p = tb_byte b p;
  resolve_keeps : forall b off knd addend target ok b' p,
    tb_resolve_reloc b off knd addend target = (ok, b') ->
    ~ (off <= p < off + tb_reloc_size knd) -> tb_byte b' p = tb_byte b p;
  finish_byte : forall b p x, 0 <= p < tb_pos b -> tb_byte b p = Some x -> pm_get (tb_finish b) p = Some x }.

Section Link.
Context {B : Type} `{TextSectionBuilder B} `{TrapCodes} (dbg : bool).

Record LinkState : Type := mkLink { ls_builder : B; ls_locs : list FunctionLoc; ls_traps : TrapsBuilder }.

(** The output a relocation refers to; indexing a missing key panics. *)
Definition reloc_target {E} (module : TranslatedModule) (idx : BTreeMap Z (BTreeMap CompileKey Z))
    (r : Relocation) : outcome E Z :=
  match rl_target r with
  | Reloc_Wasm callee_index =>
      d ← defined_func_index module callee_index;
      def_func_index ← unwrap d;
      m ← unwrap (bt_get WASM_FUNCTION_KIND idx);
      unwrap (bt_get (wasm_function def_func_index) m)
  | Reloc_Builtin index =>
      m ← unwrap (bt_get WASM_TO_BUILTIN_TRAMPOLINE_KIND idx);
      unwrap (bt_get (wasm_to_builtin_trampoline index) m)
  end.

(** Resolving happens inside [debug_assert!]: without debug assertions the
    builder is not called at all. *)
Definition link_reloc {E} (module : TranslatedModule) (idx : BTreeMap Z (BTreeMap CompileKey Z))
    (off : Z) (b : B) (r : Relocation) : outcome E B :=
  target ← reloc_target module idx r;
  if dbg then
    at_ ← add 64 off (rl_offset r);
    let '(resolved, b') := tb_resolve_reloc b at_ (rl_kind r) (rl_addend r) target in
    _ ← assert_ resolved; Ok b'
  else Ok b.

(** One iteration of the loop over the outputs. *)
Definition link_output {E} (module : TranslatedModule) (idx : BTreeMap Z (BTreeMap CompileKey Z))
    (s : LinkState) (output : CompileOutput) : outcome E LinkState :=
  let body := cf_buffer (co_function output) in
  let '(off, b) := tb_append (ls_builder s) body (cf_alignment (co_function output)) in
  rs ← relocations (co_function output);
  b ← foldM (link_reloc module idx off) rs b;
  start ← unwrap (try_from 32 off);
  length ← unwrap (try_from 32 (pm_len body));
  let loc := mkFunctionLoc start length in
  ts ← traps (co_function output);
  tb ← push_traps dbg loc ts (ls_traps s);
  Ok (mkLink b (ls_locs s ++ [loc]) tb).

(** The information on one wasm function; the map of trampolines is consumed. *)
Definition function_info {E} (outs : list CompileOutput) (locs : list FunctionLoc)
    (s : list CompiledFunctionInfo * BTreeMap CompileKey Z) (p : CompileKey * Z) :
    outcome E (list CompiledFunctionInfo * BTreeMap CompileKey Z) :=
  let tkey := array_to_wasm_trampoline (ck_index p.1) in
  tramp ← match bt_get tkey s.2 with
          | Some index => loc ← pm_index locs index; Ok (Some loc)
          | None => Ok None
          end;
  out ← pm_index outs p.2;
  loc ← pm_index locs p.2;
  Ok (s.1 ++ [mkFunctionInfo loc tramp (cf_start_srcloc (co_function out))], bt_remove tkey s.2).

(** [UnlinkedCompileOutputs::link_and_finish]. *)
Definition link_and_finish {E} (builder : B) (u : UnlinkedCompileOutputs) (module : TranslatedModule) :
    outcome E (list Z * list CompiledFunctionInfo * (list Z * list Trap)) :=
  s ← foldM (link_output module (indices u)) (outputs u) (mkLink builder [] traps_default);
  let wasm_functions := default [] (bt_get WASM_FUNCTION_KIND (indices u)) in
  let rest := bt_remove WASM_FUNCTION_KIND (indices u) in
  let trampolines := default [] (bt_get ARRAY_TO_WASM_TRAMPOLINE_KIND rest) in
  funcs ← foldM (function_info (outputs u) (ls_locs s)) wasm_functions ([], trampolines);
  Ok (tb_finish (ls_builder s), funcs.1, (tb_offsets (ls_traps s), tb_traps (ls_traps s))).
End Link.

(** ** [CodeMemory] ([code_memory.rs])

    [cm_data] holds the bytes of the mapping's text, which nothing writes once
    the vector is handed over. *)
Record CodeMemory : Type := mkCodeMemory {
  cm_mmap : Mmap;
  cm_len : Z;
  cm_data : list Z;
  cm_published : bool;
  cm_trap_offsets : list Z;
  cm_traps : list Trap }.

(** [CodeMemory::new]. *)
Definition code_memory_new (mmap_vec : MmapVec Z) (trap_offsets : list Z) (trps : list Trap) : CodeMemory :=
  mkCodeMemory (mv_mmap mmap_vec) (mv_len mmap_vec) (mv_data mmap_vec) false trap_offsets trps.

(** [CodeMemory::publish]. *)
Definition publish {K} `{Kernel K} (dbg : bool) (c : CodeMemory) : SM K Error CodeMemory :=
  _ ← sm_lift (debug_assert dbg (negb (cm_published c)));
  let c' := mkCodeMemory (cm_mmap c) (cm_len c) (cm_data c) true (cm_trap_offsets c) (cm_traps c) in
  if mm_len (cm_mmap c) =? 0 then mret c'
  else
    _ ← make_readonly (cm_mmap c) 0 (cm_len c);
    _ ← make_executable (cm_mmap c) 0 (cm_len c);
    mret c'.

(** [CodeMemory::text]: address and length. *)
Definition text {E} (c : CodeMemory) : outcome E (Z * Z) := mmap_slice (cm_mmap c) 0 (cm_len c).

(** [CodeMemory::resolve_function_loc]. *)
Definition resolve_function_loc {E} (dbg : bool) (c : CodeMemory) (func_loc : FunctionLoc) : outcome E Z :=
  r ← text c;
  addr ← add 64 r.1 (fl_start func_loc);
  _ ← debug_assert dbg ((r.1 <=? addr) && (saturating_add 64 addr (fl_length func_loc) <=? r.1 + r.2));
  Ok addr.

(** [CodeMemory::lookup_trap_code]. *)
Definition lookup_trap_code {E} (c : CodeMemory) (text_offset : Z) : outcome E (option Trap) :=
  text_offset ← unwrap (try_from 32 text_offset);
  match binary_search (cm_trap_offsets c) text_offset with
  | Some index => t ← pm_index (cm_traps c) (Z.of_nat index); Ok (Some t)
  | None => Ok None
  end.

(** ** The code registry ([code_registry.rs]) *)
Definition GlobalRegistry : Type := BTreeMap Z (Z * CodeMemory).

(** [lookup_code]: the region with the least end at or above [pc]. *)
Definition lookup_code (reg : GlobalRegistry) (pc : Z) : option (CodeMemory * Z) :=
  match bt_range_from pc reg with
  | Some (_, (start, module)) =>
      text_offset ← checked_sub 64 pc start; Some (module, text_offset)
  | None => None
  end.

(** [register_code]. *)
Definition register_code {E} (code : CodeMemory) (reg : GlobalRegistry) : outcome E GlobalRegistry :=
  t ← text code;
  if t.2 =? 0 then Ok reg
  else
    e ← add 64 t.1 t.2;
    end_ ← sub 64 e 1;
    _ ← assert_ (bool_decide (bt_get end_ reg = None));
    Ok (bt_insert end_ (t.1, code) reg).
