(* ===== verification/CodeLink.v ===== *)
(** * Linking and trap lookup are correct

    Theorems about [Code.v]: the index maps built from the compilation outputs,
    the placement of functions in the text section, the table of function
    locations, the trap table and the code registry. *)
From stdpp Require Import base list option numbers.
From S2P Require Import Prelude Types Trap Module Mmap BTree Code.
Local Open Scope Z_scope.

(** ** Keys *)
Lemma wasm_function_mono a b : key_ltb (wasm_function a) (wasm_function b) = true <-> a < b.
Proof.
  unfold key_ltb, CompileKey_order, wasm_function. cbn [ck_namespace ck_index].
  rewrite Z.ltb_irrefl, Z.eqb_refl. cbn [orb andb]. apply Z.ltb_lt.
Qed.

Lemma kind_wasm d : kind (wasm_function d) = WASM_FUNCTION_KIND.
Proof. reflexivity. Qed.
Lemma kind_trampoline d : kind (array_to_wasm_trampoline d) = ARRAY_TO_WASM_TRAMPOLINE_KIND.
Proof. reflexivity. Qed.
Lemma kind_builtin d : kind (wasm_to_builtin_trampoline d) = WASM_TO_BUILTIN_TRAMPOLINE_KIND.
Proof. reflexivity. Qed.

(** The outputs of one module with [n] defined functions: every defined
    function once, and host trampolines for some of them. *)
Record outputs_wf (n : nat) (outs : list CompileOutput) : Prop := {
  ow_keys : forall o, o ∈ outs -> exists d, 0 <= d < Z.of_nat n /\
    (co_key o = wasm_function d \/ co_key o = array_to_wasm_trampoline d);
  ow_all : forall d, 0 <= d < Z.of_nat n -> exists o, o ∈ outs /\ co_key o = wasm_function d;
  ow_nodup : NoDup (co_key <$> outs) }.

(** ** The index maps *)
Record indices_ok (outs : list CompileOutput) (m : BTreeMap Z (BTreeMap CompileKey Z)) : Prop := {
  ix_sorted : bt_sorted m;
  ix_sound : forall kd mm, bt_get kd m = Some mm -> bt_sorted mm /\
    (forall key i, bt_get key mm = Some i -> kind key = kd /\
       exists o, pm_get outs i = Some o /\ co_key o = key);
  ix_complete : forall o, o ∈ outs -> exists mm i,
    bt_get (kind (co_key o)) m = Some mm /\ bt_get (co_key o) mm = Some i }.

(** Inserting the output at the next position. *)
Lemma indices_ok_step outs m o :
  indices_ok outs m ->
  indices_ok (outs ++ [o])
    (bt_insert (kind (co_key o))
       (bt_insert (co_key o) (pm_len outs) (default [] (bt_get (kind (co_key o)) m))) m).
Proof.
  intros [Hs Hsound Hcomp]. split.
  - by apply bt_insert_sorted.
  - intros kd mm. destruct (decide (kd = kind (co_key o))) as [->|Hne].
    + rewrite bt_get_insert_eq. intros [= <-].
      assert (Hold : bt_sorted (default [] (bt_get (kind (co_key o)) m)) /\
        forall key i, bt_get key (default [] (bt_get (kind (co_key o)) m)) = Some i ->
          kind key = kind (co_key o) /\ exists o', pm_get outs i = Some o' /\ co_key o' = key).
      { destruct (bt_get (kind (co_key o)) m) as [mm|] eqn:Hm; [by apply Hsound|done]. }
      destruct Hold as [Hso Hgo]. split; [by apply bt_insert_sorted|]. intros key i.
      destruct (decide (key = co_key o)) as [->|Hk].
      * rewrite bt_get_insert_eq. intros [= <-]. split; [done|]. exists o.
        split; [apply (pm_get_push_new outs o)|done].
      * rewrite bt_get_insert_ne by done. intros (? & o' & Ho' & ?)%Hgo. split; [done|].
        exists o'. split; [by apply (pm_get_push_old outs o)|done].
    + rewrite bt_get_insert_ne by done. intros [Hso Hgo]%Hsound. split; [done|].
      intros key i (? & o' & Ho' & ?)%Hgo. split; [done|]. exists o'.
      split; [by apply (pm_get_push_old outs o)|done].
  - intros o' [Ho'|Ho']%elem_of_app.
    + destruct (Hcomp _ Ho') as (mm & i & Hm & Hi).
      destruct (decide (kind (co_key o') = kind (co_key o))) as [Heq|Hne].
      * rewrite Heq in Hm |- *. rewrite bt_get_insert_eq. eexists. rewrite Hm. cbn.
        destruct (decide (co_key o' = co_key o)) as [Hk|Hk].
        -- eexists. split; [done|]. rewrite Hk. apply bt_get_insert_eq.
        -- exists i. split; [done|]. by rewrite bt_get_insert_ne.
      * rewrite bt_get_insert_ne by done. eauto.
    + apply list_elem_of_singleton in Ho' as ->. rewrite bt_get_insert_eq.
      eexists _, _. split; [done|]. apply bt_get_insert_eq.
Qed.

Lemma build_indices_ok outs : indices_ok outs (build_indices outs).
Proof.
  unfold build_indices. induction outs as [|o outs IH] using rev_ind.
  - split; [done|done|by intros ? ?%elem_of_nil].
  - rewrite imap_app, foldl_app. cbn. rewrite Nat.add_0_r. by apply indices_ok_step.
Qed.

(** The map of wasm functions lists the defined functions in index order. *)
Lemma wasm_functions_dense n outs :
  outputs_wf n outs ->
  let mm := default [] (bt_get WASM_FUNCTION_KIND (build_indices outs)) in
  mm.*1 = wasm_function <$> seqZ 0 (Z.of_nat n) /\
  (forall key i, (key, i) ∈ mm -> exists o, pm_get outs i = Some o /\ co_key o = key).
Proof.
  intros Hwf. cbn zeta. destruct (build_indices_ok outs) as [_ Hsound Hcomp].
  destruct (bt_get WASM_FUNCTION_KIND (build_indices outs)) as [mm|] eqn:Hm; cbn.
  - destruct (Hsound _ _ Hm) as [Hs Hg].
    assert (Hin : forall key i, (key, i) ∈ mm -> kind key = WASM_FUNCTION_KIND /\
      exists o, pm_get outs i = Some o /\ co_key o = key)
      by (intros key i Hin; apply Hg; by apply bt_elem_get).
    split; [|intros key i Hki; by apply Hin].
    apply (bt_sorted_dense wasm_function); [apply wasm_function_mono|done| |].
    + intros key i (Hk & o & Ho & <-)%Hin.
      destruct (ow_keys _ _ Hwf o) as (d & Hd & [Hkey|Hkey]).
      * unfold pm_get in Ho. case_match; [|done]. by eapply list_elem_of_lookup_2.
      * exists d. split; [done|lia].
      * rewrite Hkey, kind_trampoline in Hk. discriminate Hk.
    + intros d Hd. destruct (ow_all _ _ Hwf d) as (o & Ho & Hk); [lia|].
      destruct (Hcomp o Ho) as (mm' & i & Hm' & Hi). rewrite Hk, kind_wasm, Hm in Hm'.
      injection Hm' as <-. rewrite Hk in Hi. exists i. by apply bt_get_elem.
  - split; [|by intros ?? ?%elem_of_nil]. destruct n as [|n]; [done|].
    destruct (ow_all _ _ Hwf 0) as (o & Ho & Hk); [lia|].
    destruct (Hcomp o Ho) as (mm' & i & Hm' & _). rewrite Hk, kind_wasm, Hm in Hm'. done.
Qed.

(** ** Placement *)

(** The functions placed so far: one location per output, in order, behind
    each other and before [pos]. *)
Fixpoint placed (outs : list CompileOutput) (locs : list FunctionLoc) (from pos : Z) : Prop :=
  match outs, locs with
  | [], [] => from <= pos
  | o :: outs', l :: locs' =>
      from <= fl_start l /\ fl_length l = pm_len (cf_buffer (co_function o)) /\
      placed outs' locs' (fl_start l + fl_length l) pos
  | _, _ => False
  end.

Lemma placed_snoc outs locs from pos o l pos' :
  placed outs locs from pos -> pos <= fl_start l ->
  fl_length l = pm_len (cf_buffer (co_function o)) -> fl_start l + fl_length l <= pos' ->
  placed (outs ++ [o]) (locs ++ [l]) from pos'.
Proof.
  revert locs from; induction outs as [|o1 outs IH]; intros [|l1 locs] from; cbn; try done.
  - intros. split; [lia|done].
  - intros (? & ? & ?) ? ? ?. split; [done|]. split; [done|]. by apply IH.
Qed.

Lemma placed_lookup outs locs from pos i o l :
  placed outs locs from pos -> outs !! i = Some o -> locs !! i = Some l ->
  from <= fl_start l /\ fl_length l = pm_len (cf_buffer (co_function o)) /\
  fl_start l + fl_length l <= pos.
Proof.
  revert locs from i; induction outs as [|o1 outs IH]; intros [|l1 locs] from [|i]; cbn; try done.
  - intros (? & Hl & Hp) [= ->] [= ->]. split; [done|]. split; [done|].
    clear IH. revert Hp. generalize (fl_start l + fl_length l). revert locs.
    induction outs as [|o2 outs IH]; intros [|l2 locs] z; cbn; try done.
    intros (? & H1 & H2). pose proof (IH _ _ H2). pose proof (pm_len_nonneg (cf_buffer (co_function o2))). lia.
  - intros (? & H1 & Hp) Ho Hl. destruct (IH _ _ _ Hp Ho Hl) as (? & ? & ?).
    pose proof (pm_len_nonneg (cf_buffer (co_function o1))). split; [lia|done].
Qed.

Lemma placed_length outs locs from pos : placed outs locs from pos -> length locs = length outs.
Proof.
  revert locs from; induction outs as [|o outs IH]; intros [|l locs] from; cbn; try done.
  intros (_ & _ & Hp). f_equal. by eapply IH.
Qed.

Lemma placed_disjoint outs locs from pos i j li lj :
  placed outs locs from pos -> (i < j)%nat -> locs !! i = Some li -> locs !! j = Some lj ->
  fl_start li + fl_length li <= fl_start lj.
Proof.
  intros Hp Hij Hi Hj. pose proof (placed_length _ _ _ _ Hp) as Hlen.
  revert locs from i j Hp Hij Hi Hj Hlen; induction outs as [|o outs IH];
    intros [|l locs] from [|i] [|j]; cbn; try done; try lia.
  - intros (_ & _ & Hp) _ [= ->] Hj Hlen.
    destruct (lookup_lt_is_Some_2 outs j) as [oj Hoj]; [apply lookup_lt_Some in Hj; lia|].
    by destruct (placed_lookup _ _ _ _ _ _ _ Hp Hoj Hj) as (? & _).
  - intros (_ & _ & Hp) Hij Hi Hj Hlen. apply (IH locs _ i j Hp); [lia|done|done|lia].
Qed.

(** ** The trap table *)
Section Traps.
Context `{TrapCodes}.

(** The traps of an output, decoded. *)
Definition fn_traps (o : CompileOutput) : list TrapInfo :=
  match traps (E:=Error) (co_function o) with Ok ts => ts | _ => [] end.

(** What the code generator guarantees of a function's trap records: they are
    in strictly increasing offset order, inside the body. *)
Record traps_wf (o : CompileOutput) : Prop := {
  tw_increasing : strictly_increasing (ti_offset <$> fn_traps o);
  tw_inside : forall t, t ∈ fn_traps o -> 0 <= ti_offset t < pm_len (cf_buffer (co_function o)) }.

Lemma traps_same {E} f ts : traps (E:=E) f = Ok ts -> traps (E:=Error) f = Ok ts.
Proof.
  unfold traps. rewrite !mapO_ok. intros Hf. eapply list.Forall2_impl; [done|].
  intros [o c] t. cbn. destruct (from_trap_code c); cbn; [|done]. by intros [= <-].
Qed.

Lemma push_trap_fold {E} dbg func ts b b' :
  foldM (push_trap (E:=E) dbg func) ts b = Ok b' ->
  tb_offsets b' = tb_offsets b ++ ((fun t => fl_start func + ti_offset t) <$> ts) /\
  tb_traps b' = tb_traps b ++ (ti_trap <$> ts).
Proof.
  revert b; induction ts as [|t ts IH]; intros b; cbn; [intros [= <-]; by rewrite !app_nil_r|].
  destruct (push_trap dbg func b t) as [b1| |] eqn:Hp; [|done..]. intros [Ho Ht]%IH.
  unfold push_trap in Hp. apply bind_ok in Hp as (pos & [-> _]%add_ok & (u & _ & [= <-])%bind_ok).
  cbn in Ho, Ht. by rewrite Ho, Ht, <- !app_assoc.
Qed.

Lemma strictly_increasing_app l l' :
  strictly_increasing l -> strictly_increasing l' ->
  (forall a b, a ∈ l -> b ∈ l' -> a < b) -> strictly_increasing (l ++ l').
Proof.
  intros Hl Hl' Hx i j a b Hij Ha Hb.
  apply lookup_app_Some in Ha as [Ha|[Hli Ha]]; apply lookup_app_Some in Hb as [Hb|[Hlj Hb]].
  - by apply (Hl i j).
  - apply Hx; by eapply list_elem_of_lookup_2.
  - apply lookup_lt_Some in Hb. lia.
  - apply (Hl' (i - length l)%nat (j - length l)%nat); [lia|done|done].
Qed.

Lemma strictly_increasing_shift c l :
  strictly_increasing l -> strictly_increasing ((fun x => c + x) <$> l).
Proof.
  intros Hl i j a b Hij. rewrite !list_lookup_fmap.
  intros (x & Hx & ->)%fmap_Some (y & Hy & ->)%fmap_Some. pose proof (Hl _ _ _ _ Hij Hx Hy). lia.
Qed.
End Traps.

(** ** The linking loop *)
Section Linking.
Context {B : Type} `{TextSectionBuilderLaws B} `{TrapCodes} (dbg : bool).

Lemma link_relocs_pos {E} module idx off rs (b b' : B) :
  foldM (link_reloc (E:=E) dbg module idx off) rs b = Ok b' -> tb_pos b' = tb_pos b.
Proof.
  apply (foldM_ind (fun s => tb_pos s = tb_pos b)); [done|].
  intros s r s' _ <- Hs. unfold link_reloc in Hs. apply bind_ok in Hs as (t & _ & Hs).
  destruct dbg; [|by injection Hs as <-].
  apply bind_ok in Hs as (a & _ & Hs). destruct (tb_resolve_reloc _ _ _ _ _) as [ok b2] eqn:Hr.
  apply bind_ok in Hs as (u & _ & [= <-]). by apply resolve_pos in Hr.
Qed.

(** What the loop has established after the outputs [outs]. *)
Record link_inv (b0 : B) (outs : list CompileOutput) (s : LinkState (B:=B)) : Prop := {
  li_placed : placed outs (ls_locs s) (tb_pos b0) (tb_pos (ls_builder s));
  li_width : forall l, l ∈ ls_locs s -> fl_start l + fl_length l < 2 ^ 32;
  li_sorted : strictly_increasing (tb_offsets (ls_traps s));
  li_below : forall p, p ∈ tb_offsets (ls_traps s) -> p < tb_pos (ls_builder s);
  li_length : length (tb_traps (ls_traps s)) = length (tb_offsets (ls_traps s));
  li_traps : forall i o l t, outs !! i = Some o -> ls_locs s !! i = Some l -> t ∈ fn_traps o ->
    exists j, tb_offsets (ls_traps s) !! j = Some (fl_start l + ti_offset t) /\
              tb_traps (ls_traps s) !! j = Some (ti_trap t);
  li_only : forall j p tr, tb_offsets (ls_traps s) !! j = Some p -> tb_traps (ls_traps s) !! j = Some tr ->
    exists i o l t, outs !! i = Some o /\ ls_locs s !! i = Some l /\ t ∈ fn_traps o /\
      p = fl_start l + ti_offset t /\ tr = ti_trap t }.

(** What one iteration does, as equations. *)
Lemma link_output_ok {E} module idx s o s' :
  link_output (E:=E) dbg module idx s o = Ok s' ->
  exists l, ls_locs s' = ls_locs s ++ [l] /\
    tb_pos (ls_builder s) <= fl_start l /\ fl_length l = pm_len (cf_buffer (co_function o)) /\
    tb_pos (ls_builder s') = fl_start l + fl_length l /\ fl_start l + fl_length l < 2 ^ 32 /\
    tb_offsets (ls_traps s') = tb_offsets (ls_traps s) ++ ((fun t => fl_start l + ti_offset t) <$> fn_traps o) /\
    tb_traps (ls_traps s') = tb_traps (ls_traps s) ++ (ti_trap <$> fn_traps o).
Proof.
  unfold link_output. destruct (tb_append _ _ _) as [off b1] eqn:Ha.
  apply append_pos in Ha as [Hoff Hpos].
  intros (rs & _ & (b2 & Hb2%link_relocs_pos & Hs)%bind_ok)%bind_ok.
  apply bind_ok in Hs as (st & [-> _]%unwrap_ok%try_from_Some & Hs).
  apply bind_ok in Hs as (len & [-> _]%unwrap_ok%try_from_Some & Hs).
  apply bind_ok in Hs as (ts & Hts & (tb & Htb & [= <-])%bind_ok). cbn.
  unfold push_traps in Htb. apply bind_ok in Htb as (b3 & [Ho Ht]%push_trap_fold & (e & [_ He]%add_ok & [= <-])%bind_ok).
  exists (mkFunctionLoc off (pm_len (cf_buffer (co_function o)))). cbn in Ho, Ht |- *.
  apply traps_same in Hts. unfold fn_traps. rewrite Hts. rewrite Hb2. cbn in He. do 4 (split; [done|]). split; [lia|done].
Qed.

Lemma link_inv_step {E} b0 module idx outs s o s' :
  link_inv b0 outs s -> traps_wf o -> link_output (E:=E) dbg module idx s o = Ok s' ->
  link_inv b0 (outs ++ [o]) s'.
Proof.
  intros [] [Hti Htin] (l & Hlocs & Hst & Hlen & Hpos & Hu & Ho & Ht)%link_output_ok.
  pose proof (placed_length _ _ _ _ li_placed0) as Hll.
  pose proof (pm_len_nonneg (cf_buffer (co_function o))) as Hnn. split.
  - rewrite Hlocs. eapply placed_snoc; [done|done|done|lia].
  - rewrite Hlocs. intros l' [?|Hl'%list_elem_of_singleton]%elem_of_app; [by apply li_width0|by subst].
  - rewrite Ho. apply strictly_increasing_app; [done| |].
    + replace ((fun t => fl_start l + ti_offset t) <$> fn_traps o)
        with ((fun x => fl_start l + x) <$> (ti_offset <$> fn_traps o))
        by (by rewrite <- list_fmap_compose).
      by apply strictly_increasing_shift.
    + intros a b Ha%li_below0 (t & -> & Hin)%list_elem_of_fmap. apply Htin in Hin. lia.
  - rewrite Ho, Hpos. intros p [Hp%li_below0|Hp]%elem_of_app; [lia|].
    apply list_elem_of_fmap in Hp as (t & -> & Hin%Htin). lia.
  - rewrite Ho, Ht, !length_app, !length_fmap. lia.
  - rewrite Hlocs, Ho, Ht. intros i o' l' t Hi Hl Hin.
    apply lookup_app_Some in Hi as [Hi|[Hge Hi]].
    + rewrite lookup_app_l in Hl by (apply lookup_lt_Some in Hi; lia).
      destruct (li_traps0 _ _ _ _ Hi Hl Hin) as (j & Hj & Hj'). exists j.
      by split; apply lookup_app_l_Some.
    + apply list_lookup_singleton_Some in Hi as [Hz <-].
      rewrite lookup_app_r in Hl by lia. replace (i - length (ls_locs s))%nat with 0%nat in Hl by lia.
      injection Hl as <-. apply list_elem_of_lookup_1 in Hin as [m Hm].
      exists (length (tb_offsets (ls_traps s)) + m)%nat. split.
      * rewrite lookup_app_r by lia.
        replace (length (tb_offsets (ls_traps s)) + m - length (tb_offsets (ls_traps s)))%nat with m by lia.
        by rewrite list_lookup_fmap, Hm.
      * rewrite <- li_length0, lookup_app_r by lia.
        replace (length (tb_traps (ls_traps s)) + m - length (tb_traps (ls_traps s)))%nat with m by lia.
        by rewrite list_lookup_fmap, Hm.
  - rewrite Hlocs, Ho, Ht. intros j p tr Hp Htr.
    apply lookup_app_Some in Hp as [Hp|[Hge Hp]].
    + rewrite lookup_app_l in Htr by (apply lookup_lt_Some in Hp; lia).
      destruct (li_only0 _ _ _ Hp Htr) as (i & o' & l' & t & Hi & Hl & ?).
      exists i, o', l', t. split; [by apply lookup_app_l_Some|]. split; [by apply lookup_app_l_Some|done].
    + rewrite lookup_app_r in Htr by lia. rewrite li_length0 in Htr.
      rewrite list_lookup_fmap in Hp. rewrite list_lookup_fmap in Htr.
      apply fmap_Some in Hp as (t & Hm & ->). rewrite Hm in Htr. injection Htr as <-.
      exists (length outs), o, l, t. rewrite !lookup_app_r by lia. rewrite Nat.sub_diag, Hll, Nat.sub_diag.
      repeat split. by eapply list_elem_of_lookup_2.
Qed.

Lemma link_loop_inv {E} b0 module idx outs s :
  Forall traps_wf outs ->
  foldM (link_output (E:=E) dbg module idx) outs (mkLink b0 [] traps_default) = Ok s ->
  link_inv b0 outs s.
Proof.
  revert s; induction outs as [|o outs IH] using rev_ind; intros s Hwf.
  - cbn. intros [= <-]. split; cbn; try done; try (by intros ? ?%elem_of_nil).
  - rewrite foldM_app. intros (s1 & Hs1 & Hs)%bind_ok. apply list.Forall_app in Hwf as [Hw1 Hw2].
    cbn in Hs. destruct (link_output dbg module idx s1 o) as [s2| |] eqn:Hl; [|done..].
    injection Hs as <-. eapply link_inv_step; [by apply IH|by apply Forall_cons_1 in Hw2 as [? _]|done].
Qed.
End Linking.

(** ** The bytes of the text *)

(** A byte of a body that one of its relocations rewrites. *)
Definition relocated (size : Z -> Z) (o : CompileOutput) (p : Z) : Prop :=
  exists r, r ∈ cf_relocs (co_function o) /\ mr_offset r <= p < mr_offset r + size (mr_kind r).

(** What the code generator guarantees of a function's relocations: the fields
    they rewrite lie inside the body. *)
Definition relocs_wf (size : Z -> Z) (o : CompileOutput) : Prop :=
  forall p, relocated size o p -> 0 <= p < pm_len (cf_buffer (co_function o)).

(** The bytes at [l] are the body compiled for [o], except where a relocation of
    it has been written, which happens in a build with debug assertions only. *)
Definition holds_body (dbg : bool) (size : Z -> Z) (byte : Z -> option Z) (l : FunctionLoc) (o : CompileOutput) : Prop :=
  forall i x, cf_buffer (co_function o) !! i = Some x ->
    dbg = false \/ ~ relocated size o (Z.of_nat i) -> byte (fl_start l + Z.of_nat i) = Some x.

Section Bytes.
Context {B : Type} `{TextSectionBuilderLaws B} `{TrapCodes} (dbg : bool).
Abbreviation size := (tb_reloc_size (B:=B)).

(** Linking the relocations of a body changes only the fields they name. *)
Lemma link_relocs_bytes {E} module idx off rs (b b' : B) p :
  foldM (link_reloc (E:=E) dbg module idx off) rs b = Ok b' ->
  dbg = false \/ (forall r, r ∈ rs -> ~ (off + rl_offset r <= p < off + rl_offset r + size (rl_kind r))) ->
  tb_byte b' p = tb_byte b p.
Proof.
  intros Hf Hp. revert Hf. apply (foldM_ind (fun s => tb_byte s p = tb_byte b p)); [done|].
  intros s r s' Hr <- Hs. unfold link_reloc in Hs. apply bind_ok in Hs as (t & _ & Hs).
  destruct dbg; [|by injection Hs as <-]. destruct Hp as [?|Hp]; [done|].
  apply bind_ok in Hs as (a & [-> _]%add_ok & Hs). destruct (tb_resolve_reloc _ _ _ _ _) as [ok b2] eqn:Hres.
  apply bind_ok in Hs as (u & _ & [= <-]). eapply resolve_keeps; [exact Hres|]. by apply Hp.
Qed.

(** The relocations of a function have the offsets and kinds of the buffer's. *)
Lemma relocations_fields {E} f rs r :
  relocations (E:=E) f = Ok rs -> r ∈ rs ->
  exists mr, mr ∈ cf_relocs f /\ rl_offset r = mr_offset mr /\ rl_kind r = mr_kind mr.
Proof.
  unfold relocations. rewrite mapO_ok. intros Hall Hr.
  apply list_elem_of_lookup in Hr as [i Hi]. destruct (Forall2_lookup_r _ _ _ _ _ Hall Hi) as (mr & Hmr & Hf).
  exists mr. split; [by eapply list_elem_of_lookup_2|]. unfold from_mach_reloc in Hf.
  by apply bind_ok in Hf as (t & _ & [= <-]).
Qed.

(** One iteration places its body and leaves the bytes before it alone. *)
Lemma link_output_bytes {E} module idx s o s' :
  relocs_wf size o -> link_output (E:=E) dbg module idx s o = Ok s' ->
  exists l, ls_locs s' = ls_locs s ++ [l] /\ tb_pos (ls_builder s) <= fl_start l /\
    holds_body dbg size (tb_byte (ls_builder s')) l o /\
    forall p, p < tb_pos (ls_builder s) -> tb_byte (ls_builder s') p = tb_byte (ls_builder s) p.
Proof.
  intros Hwf. unfold link_output. destruct (tb_append _ _ _) as [off b1] eqn:Ha.
  pose proof (append_pos _ _ _ _ _ Ha) as [Hoff _].
  intros (rs & Hrs & (b2 & Hb2 & Hs)%bind_ok)%bind_ok.
  apply bind_ok in Hs as (st & [-> _]%unwrap_ok%try_from_Some & Hs).
  apply bind_ok in Hs as (len & [-> _]%unwrap_ok%try_from_Some & Hs).
  apply bind_ok in Hs as (ts & _ & (tb & _ & [= <-])%bind_ok). cbn [ls_locs ls_builder].
  eexists. split; [done|]. split; [done|]. cbn [fl_start]. split.
  - intros i x Hx Hno. erewrite link_relocs_bytes; [by eapply append_body|exact Hb2|].
    destruct Hno as [->|Hno]; [by left|right]. intros r Hr Hp. apply Hno.
    destruct (relocations_fields _ _ _ Hrs Hr) as (mr & Hmr & Ho & Hk). exists mr. split; [done|]. rewrite <- Ho, <- Hk. cbn in Hp. lia.
  - intros p Hp. erewrite link_relocs_bytes; [by eapply append_keeps|exact Hb2|]. right. intros r Hr Hin.
    destruct (relocations_fields _ _ _ Hrs Hr) as (mr & Hmr & Ho & Hk).
    destruct (Hwf (p - off)) as [? _]; [|lia]. exists mr. split; [done|]. rewrite <- Ho, <- Hk. lia.
Qed.

Lemma link_loop_bytes {E} b0 module idx outs s :
  Forall traps_wf outs -> Forall (relocs_wf size) outs ->
  foldM (link_output (E:=E) dbg module idx) outs (mkLink b0 [] traps_default) = Ok s ->
  forall i o l, outs !! i = Some o -> ls_locs s !! i = Some l -> holds_body dbg size (tb_byte (ls_builder s)) l o.
Proof.
  revert s; induction outs as [|o outs IH] using rev_ind; intros s Htw Hrw; [done|].
  rewrite foldM_app. intros (s1 & Hs1 & Hs)%bind_ok. apply list.Forall_app in Htw as [Htw _], Hrw as [Hw1 Hw2].
  cbn in Hs. destruct (link_output dbg module idx s1 o) as [s2| |] eqn:Hl; [|done..]. injection Hs as <-.
  pose proof (link_loop_inv dbg _ _ _ _ _ Htw Hs1) as [Hpl _ _ _ _ _ _].
  pose proof (placed_length _ _ _ _ Hpl) as Hll.
  destruct (link_output_bytes _ _ _ _ _ (proj1 (Forall_cons_1 _ _ _ Hw2)) Hl) as (l & -> & Hst & Hnew & Hold).
  intros i o' l' Ho Hl'. apply lookup_app_Some in Ho as [Ho|[Hge Ho]].
  - rewrite lookup_app_l in Hl' by (apply lookup_lt_Some in Ho; lia).
    intros j x Hx Hno. destruct (placed_lookup _ _ _ _ _ _ _ Hpl Ho Hl') as (_ & Hlen & Hend).
    apply lookup_lt_Some in Hx as Hj. rewrite Hold by (unfold pm_len in Hlen; lia). by eapply IH.
  - apply list_lookup_singleton_Some in Ho as [Hz <-].
    rewrite lookup_app_r in Hl' by lia. replace (i - length (ls_locs s1))%nat with 0%nat in Hl' by lia.
    by injection Hl' as <-.
Qed.
End Bytes.

(** ** The function table *)

(** What the table says of the function with key [key] and output [idx]. *)
Definition info_spec (outs : list CompileOutput) (locs : list FunctionLoc)
    (tramps : BTreeMap CompileKey Z) (key : CompileKey) (idx : Z) (info : CompiledFunctionInfo) : Prop :=
  pm_get locs idx = Some (wasm_func_loc info) /\
  (exists o, pm_get outs idx = Some o /\ start_srcloc info = cf_start_srcloc (co_function o)) /\
  host_to_wasm_trampoline info = (bt_get (array_to_wasm_trampoline (ck_index key)) tramps ≫= pm_get locs).

Lemma function_info_ok {E} outs locs s p s' :
  function_info (E:=E) outs locs s p = Ok s' ->
  exists info, s' = (s.1 ++ [info], bt_remove (array_to_wasm_trampoline (ck_index p.1)) s.2) /\
    info_spec outs locs s.2 p.1 p.2 info.
Proof.
  unfold function_info. intros (tr & Htr & (o & Ho%unwrap_ok & (l & Hl%unwrap_ok & [= <-])%bind_ok)%bind_ok)%bind_ok.
  eexists; split; [done|]. split; [done|]. split; [eauto|]. cbn.
  destruct (bt_get _ s.2) as [j|]; cbn; [|by injection Htr as <-].
  apply bind_ok in Htr as (lj & Hlj%unwrap_ok & [= <-]). by rewrite Hlj.
Qed.

Lemma function_info_fold {E} outs locs l acc tramps r :
  NoDup (ck_index <$> l.*1) ->
  foldM (function_info (E:=E) outs locs) l (acc, tramps) = Ok r ->
  exists infos, r.1 = acc ++ infos /\
    Forall2 (fun p info => info_spec outs locs tramps p.1 p.2 info) l infos.
Proof.
  revert acc tramps; induction l as [|[key idx] l IH]; intros acc tramps Hnd; cbn [foldM].
  - intros [= <-]. exists []. by rewrite app_nil_r.
  - destruct (function_info outs locs (acc, tramps) (key, idx)) as [s1| |] eqn:Hf; [|done..].
    apply function_info_ok in Hf as (info & -> & Hi). cbn in Hnd, Hi.
    apply list.NoDup_cons in Hnd as [Hni Hnd]. intros (infos & Hr & Hall)%IH; [|done].
    exists (info :: infos). split; [by rewrite Hr, <- app_assoc|]. constructor; [done|].
    eapply Forall2_impl_elem; [exact Hall|]. intros [key' idx'] info' Hin (H1 & H2 & H3).
    split; [done|]. split; [done|]. rewrite H3. cbn. rewrite bt_get_remove_ne; [done|].
    intros [= Heq]. apply Hni. apply list_elem_of_fmap. exists key'. split; [done|].
    apply list_elem_of_fmap. by exists (key', idx').
Qed.

Lemma seqZ_index n : ck_index <$> (wasm_function <$> seqZ 0 n) = seqZ 0 n.
Proof. rewrite <- list_fmap_compose. apply list_fmap_id. Qed.

Section LinkResult.
Context {B : Type} `{TextSectionBuilderLaws B} `{TrapCodes} (dbg : bool).

(** Every output's bytes are where its location says. *)
Definition linked_bytes (outs : list CompileOutput) (s : LinkState (B:=B)) : Prop :=
  Forall (relocs_wf (tb_reloc_size (B:=B))) outs ->
  forall i o l, outs !! i = Some o -> ls_locs s !! i = Some l ->
    holds_body dbg (tb_reloc_size (B:=B)) (tb_byte (ls_builder s)) l o.

(** The facts about a finished link that the theorems below draw on. *)
Lemma link_facts {E} n outs (b0 : B) module txt funcs offs trs :
  outputs_wf n outs -> Forall traps_wf outs ->
  link_and_finish (E:=E) dbg b0 (mkUnlinked (build_indices outs) outs) module = Ok (txt, funcs, (offs, trs)) ->
  exists s mm, link_inv b0 outs s /\ linked_bytes outs s /\
    txt = tb_finish (ls_builder s) /\ offs = tb_offsets (ls_traps s) /\ trs = tb_traps (ls_traps s) /\
    mm.*1 = wasm_function <$> seqZ 0 (Z.of_nat n) /\
    (forall key i, (key, i) ∈ mm -> exists o, pm_get outs i = Some o /\ co_key o = key) /\
    Forall2 (fun p info => info_spec outs (ls_locs s)
      (default [] (bt_get ARRAY_TO_WASM_TRAMPOLINE_KIND (build_indices outs))) p.1 p.2 info) mm funcs.
Proof.
  intros Hwf Htw. unfold link_and_finish. cbn [indices outputs].
  destruct (wasm_functions_dense n outs Hwf) as [Hkeys Hsound].
  intros (s & Hs & (r & Hr & [= <- <- <- <-])%bind_ok)%bind_ok.
  exists s, (default [] (bt_get WASM_FUNCTION_KIND (build_indices outs))).
  pose proof (fun Hrw => link_loop_bytes dbg _ _ _ _ _ Htw Hrw Hs) as Hby.
  apply (link_loop_inv dbg) in Hs; [|done].
  rewrite bt_get_remove_ne in Hr by (vm_compute; discriminate).
  apply function_info_fold in Hr as (infos & Hinf & Hall).
  - by rewrite Hinf.
  - rewrite Hkeys, seqZ_index. apply NoDup_seqZ.
Qed.

(** The entry of function [d]: the place of the output compiled for it, and that
    of its trampoline if there is one. *)
Definition entry_of (outs : list CompileOutput) (s : LinkState (B:=B)) (d : nat) (info : CompiledFunctionInfo) : Prop :=
  exists i o,
    outs !! i = Some o /\ co_key o = wasm_function (Z.of_nat d) /\
    ls_locs s !! i = Some (wasm_func_loc info) /\
    start_srcloc info = cf_start_srcloc (co_function o) /\
    host_to_wasm_trampoline info =
      (bt_get (array_to_wasm_trampoline (Z.of_nat d))
         (default [] (bt_get ARRAY_TO_WASM_TRAMPOLINE_KIND (build_indices outs)))
       ≫= pm_get (ls_locs s)).

Lemma link_entry {E} n outs (b0 : B) module txt funcs offs trs :
  outputs_wf n outs -> Forall traps_wf outs ->
  link_and_finish (E:=E) dbg b0 (mkUnlinked (build_indices outs) outs) module = Ok (txt, funcs, (offs, trs)) ->
  exists s, link_inv b0 outs s /\ linked_bytes outs s /\ txt = tb_finish (ls_builder s) /\
    offs = tb_offsets (ls_traps s) /\ trs = tb_traps (ls_traps s) /\ length funcs = n /\
    forall d info, funcs !! d = Some info -> entry_of outs s d info.
Proof.
  intros Hwf Htw Hlink.
  destruct (link_facts _ _ _ _ _ _ _ _ Hwf Htw Hlink) as (s & mm & Hinv & Hby & Ht & Ho & Htr & Hk & Hsound & Hall).
  exists s. do 5 (split; [done|]). split.
  - rewrite <- (list.Forall2_length _ _ _ Hall), <- (length_fmap fst), Hk, length_fmap, length_seqZ. lia.
  - intros d info Hd. destruct (Forall2_lookup_r _ _ _ _ _ Hall Hd) as ([key i] & Hm & Hloc & (o & Hoi & Hsrc) & Htramp).
    cbn [fst snd] in *.
    assert (Hkey : key = wasm_function (Z.of_nat d)).
    { pose proof (f_equal (.!! d) Hk) as Hkd. cbn in Hkd. rewrite !list_lookup_fmap, Hm in Hkd. cbn in Hkd.
      destruct (seqZ 0 (Z.of_nat n) !! d) as [z|] eqn:Hz; [|done]. apply lookup_seqZ in Hz as [-> _].
      injection Hkd as ->. reflexivity. }
    subst key. destruct (Hsound (wasm_function (Z.of_nat d)) i) as (o' & Ho' & Hkey').
    { by eapply list_elem_of_lookup_2. }
    rewrite Hoi in Ho'. injection Ho' as <-.
    unfold pm_get in Hoi, Hloc. case_match; [|done]. by exists (Z.to_nat i), o.
Qed.

(** The map of trampolines holds the position of every compiled trampoline. *)
Lemma trampoline_index outs d :
  match bt_get (array_to_wasm_trampoline d)
          (default [] (bt_get ARRAY_TO_WASM_TRAMPOLINE_KIND (build_indices outs))) with
  | Some j => exists o, pm_get outs j = Some o /\ co_key o = array_to_wasm_trampoline d
  | None => forall o, o ∈ outs -> co_key o <> array_to_wasm_trampoline d
  end.
Proof.
  destruct (build_indices_ok outs) as [_ Hsound Hcomp].
  destruct (bt_get ARRAY_TO_WASM_TRAMPOLINE_KIND (build_indices outs)) as [mm|] eqn:Hm; cbn.
  - destruct (bt_get (array_to_wasm_trampoline d) mm) as [j|] eqn:Hj.
    + destruct (Hsound _ _ Hm) as [_ Hg]. by destruct (Hg _ _ Hj) as (_ & o & ? & ?); eauto.
    + intros o Ho Hk. destruct (Hcomp o Ho) as (mm' & i & Hm' & Hi).
      rewrite Hk, kind_trampoline, Hm in Hm'. injection Hm' as <-. rewrite Hk, Hj in Hi. done.
  - intros o Ho Hk. destruct (Hcomp o Ho) as (mm' & i & Hm' & _).
    by rewrite Hk, kind_trampoline, Hm in Hm'.
Qed.

Lemma same_key_same_index n outs i j oi oj :
  outputs_wf n outs -> outs !! i = Some oi -> outs !! j = Some oj -> co_key oi = co_key oj -> i = j.
Proof.
  intros Hwf Hi Hj Hk. eapply (NoDup_lookup (co_key <$> outs)); [apply Hwf|..];
    rewrite list_lookup_fmap; [by rewrite Hi|rewrite Hj; cbn; by rewrite Hk].
Qed.

(** Every placed output is reachable from the function table. *)
Lemma link_located n outs (b0 : B) s funcs i o l :
  outputs_wf n outs -> link_inv b0 outs s -> length funcs = n ->
  (forall d info, funcs !! d = Some info -> entry_of outs s d info) ->
  outs !! i = Some o -> ls_locs s !! i = Some l ->
  exists d info, funcs !! d = Some info /\
    ((co_key o = wasm_function (Z.of_nat d) /\ l = wasm_func_loc info) \/
     (co_key o = array_to_wasm_trampoline (Z.of_nat d) /\ host_to_wasm_trampoline info = Some l)).
Proof.
  intros Hwf Hinv Hn Hent Ho Hl.
  destruct (ow_keys _ _ Hwf o) as (d & Hd & Hk); [by eapply list_elem_of_lookup_2|].
  destruct (lookup_lt_is_Some_2 funcs (Z.to_nat d)) as [info Hf]; [lia|].
  destruct (Hent _ _ Hf) as (i' & o' & Ho' & Hk' & Hl' & _ & Htr).
  rewrite Z2Nat.id in Hk', Htr by lia. exists (Z.to_nat d), info. rewrite Z2Nat.id by lia.
  split; [done|]. destruct Hk as [Hk|Hk].
  - left. split; [done|]. assert (i' = i) as -> by (eapply same_key_same_index; [done..|by rewrite Hk']).
    congruence.
  - right. split; [done|]. rewrite Htr. pose proof (trampoline_index outs d) as Hj.
    destruct (bt_get (array_to_wasm_trampoline d) _) as [j|]; [|by destruct (Hj o); [eapply list_elem_of_lookup_2|]].
    destruct Hj as (oj & Hoj & Hkj). unfold pm_get in Hoj. cbn. unfold pm_get.
    destruct (0 <=? j); [|done].
    by assert (Z.to_nat j = i) as -> by (eapply same_key_same_index; [done..|by rewrite Hkj]).
Qed.

(** The locations the table gives for a function: its body and its trampoline. *)
Definition located (info : CompiledFunctionInfo) (k : CompileKey) (d : Z) (l : FunctionLoc) : Prop :=
  (k = wasm_function d /\ l = wasm_func_loc info) \/
  (k = array_to_wasm_trampoline d /\ host_to_wasm_trampoline info = Some l).

(** Every location of the table is the place of an output of that key. *)
Lemma link_placed n outs (b0 : B) s d info key l :
  outputs_wf n outs -> link_inv b0 outs s ->
  entry_of outs s d info -> located info key (Z.of_nat d) l ->
  exists i o, outs !! i = Some o /\ ls_locs s !! i = Some l /\ co_key o = key.
Proof.
  intros Hwf Hinv (i & o & Ho & Hk & Hl & _ & Htr) [[-> ->]|[-> Hh]]; [by exists i, o|].
  rewrite Htr in Hh. pose proof (trampoline_index outs (Z.of_nat d)) as Hj.
  destruct (bt_get (array_to_wasm_trampoline (Z.of_nat d)) _) as [j|]; [|done].
  destruct Hj as (oj & Hoj & Hkj). cbn in Hh. unfold pm_get in Hoj, Hh. destruct (0 <=? j); [|done].
  by exists (Z.to_nat j), oj.
Qed.

(** The finished text holds the bytes of every placed output. *)
Lemma finished_bytes outs (b0 : B) s i o l :
  link_inv b0 outs s -> linked_bytes outs s -> Forall (relocs_wf (tb_reloc_size (B:=B))) outs -> 0 <= tb_pos b0 ->
  outs !! i = Some o -> ls_locs s !! i = Some l ->
  holds_body dbg (tb_reloc_size (B:=B)) (pm_get (tb_finish (ls_builder s))) l o.
Proof.
  intros Hinv Hby Hrw Hb Ho Hl j x Hx Hno.
  destruct (placed_lookup _ _ _ _ _ _ _ (li_placed _ _ _ Hinv) Ho Hl) as (? & Hlen & ?).
  apply lookup_lt_Some in Hx as Hj. apply finish_byte; [unfold pm_len in Hlen; lia|]. by eapply Hby.
Qed.
End LinkResult.

(** A text builder that concatenates bodies without padding and accepts every
    relocation. *)
#[global] Instance concat_builder : TextSectionBuilder (list Z) := {|
  tb_append b body align := (pm_len b, b ++ body);
  tb_resolve_reloc b off knd addend target := (true, b);
  tb_finish b := b;
  tb_pos b := pm_len b;
  tb_byte b p := pm_get b p;
  tb_reloc_size knd := 4 |}.

#[global] Instance concat_builder_laws : TextSectionBuilderLaws (list Z).
Proof.
  split; cbn.
  - intros b body align off b' [= <- <-]. split; [lia|]. unfold pm_len. rewrite length_app. lia.
  - by intros b off knd addend target ok b' [= <- <-].
  - lia.
  - intros b body align off b' i x [= <- <-] Hx. unfold pm_get, pm_len. rewrite (proj2 (Z.leb_le _ _)) by lia.
    rewrite lookup_app_r by lia. by replace (Z.to_nat (Z.of_nat (length b) + Z.of_nat i) - length b)%nat with i by lia.
  - intros b body align off b' p [= <- <-] Hp. unfold pm_get. destruct (Z.leb_spec 0 p); [|done].
    rewrite lookup_app_l; [done|]. unfold pm_len in Hp. lia.
  - by intros b off knd addend target ok b' p [= <- <-].
  - done.
Qed.

(** Two functions, the first with a trap at offset 1 and a call of the second at
    offset 3, and a trampoline. *)
Definition example_outputs : list CompileOutput :=
  [mkCompileOutput (wasm_function 0) (mkCompiledFunction [1; 2; 3; 0; 0; 0; 0] [mkMachReloc 3 1 (ExternalName_User 0) 0] [(1, 254)] [(NS_WASM_FUNC, 1)] 1 10 20 []);
   mkCompileOutput (array_to_wasm_trampoline 0) (mkCompiledFunction [4; 5] [] [] [] 1 filepos_default filepos_default []);
   mkCompileOutput (wasm_function 1) (mkCompiledFunction [6; 7; 8; 9] [] [(0, 252); (3, 1)] [] 1 20 30 [])].

Lemma example_outputs_wf : outputs_wf 2 example_outputs.
Proof.
  split.
  - intros o Ho. apply list_elem_of_In in Ho. cbn in Ho.
    destruct Ho as [<-|[<-|[<-|[]]]]; cbn; [exists 0|exists 0|exists 1]; split; try lia; auto.
  - intros d Hd. assert (d = 0 \/ d = 1) as [->| ->] by lia.
    + eexists. split; [by left|done].
    + eexists. split; [by right; right; left|done].
  - apply (bool_decide_unpack _). by vm_compute.
Qed.

Lemma strictly_increasing_check l :
  forallb (fun p => p.1 <? p.2) (zip l (tail l)) = true -> strictly_increasing l.
Proof.
  intros Hl. assert (Hadj : forall i a b, l !! i = Some a -> l !! S i = Some b -> a < b).
  { intros i a b Ha Hb. rewrite forallb_forall in Hl. apply Z.ltb_lt.
    apply (Hl (a, b)). apply list_elem_of_In, list_elem_of_lookup. exists i.
    apply lookup_zip_with_Some. exists a, b. split; [done|]. split; [done|]. by destruct l. }
  intros i j a b Hij Ha Hb. revert b Hb. induction Hij as [|j Hij IH]; intros b Hb; [by eapply Hadj|].
  destruct (lookup_lt_is_Some_2 l j) as [c Hc]; [apply lookup_lt_Some in Hb; lia|].
  pose proof (IH c Hc). pose proof (Hadj _ _ _ Hc Hb). lia.
Qed.

Lemma example_traps_wf : Forall traps_wf example_outputs.
Proof.
  apply list.Forall_forall. intros o Ho. apply list_elem_of_In in Ho. cbn in Ho.
  destruct Ho as [<-|[<-|[<-|[]]]]; (split; [apply strictly_increasing_check; reflexivity|]);
    intros t Ht; apply list_elem_of_In in Ht; cbn in Ht; unfold pm_len; cbn;
    repeat destruct Ht as [<-|Ht]; cbn; try lia; done.
Qed.

(** The output [o] is placed at [l]: inside the text, with its length and its bytes. *)
Definition placed_at (dbg : bool) (size : Z -> Z) (txt : list Z) (l : FunctionLoc) (o : CompileOutput) : Prop :=
  fl_length l = pm_len (cf_buffer (co_function o)) /\
  0 <= fl_start l /\ fl_start l + fl_length l <= pm_len txt /\
  holds_body dbg size (pm_get txt) l o.

(** C22: linking places every function: entry [d] of the function table is the
    location, inside the text, of the body compiled for defined function [d];
    the text holds that body there byte for byte, except in the fields that one
    of its own relocations rewrites (in a build with debug assertions; the others
    resolve none); the same holds of its host trampoline, which is present
    exactly when one was compiled; and two different functions occupy disjoint
    parts of the text. *)
Theorem link_functions_correct {B E} `{TextSectionBuilderLaws B} `{TrapCodes} dbg n outs (b0 : B) module
    txt funcs offs trs (Hwf : outputs_wf n outs) (Htw : Forall traps_wf outs)
    (Hrw : Forall (relocs_wf (tb_reloc_size (B:=B))) outs) (Hb : 0 <= tb_pos b0)
    (Hlink : link_and_finish (E:=E) dbg b0 (mkUnlinked (build_indices outs) outs) module
             = Ok (txt, funcs, (offs, trs))) :
  length funcs = n /\
  (forall d info, funcs !! d = Some info -> exists o,
     o ∈ outs /\ co_key o = wasm_function (Z.of_nat d) /\
     start_srcloc info = cf_start_srcloc (co_function o) /\
     placed_at dbg (tb_reloc_size (B:=B)) txt (wasm_func_loc info) o /\
     match host_to_wasm_trampoline info with
     | Some l => exists o', o' ∈ outs /\ co_key o' = array_to_wasm_trampoline (Z.of_nat d) /\
         placed_at dbg (tb_reloc_size (B:=B)) txt l o'
     | None => forall o', o' ∈ outs -> co_key o' <> array_to_wasm_trampoline (Z.of_nat d)
     end) /\
  (forall d d' info info', funcs !! d = Some info -> funcs !! d' = Some info' -> d <> d' ->
     let l := wasm_func_loc info in let l' := wasm_func_loc info' in
     fl_start l + fl_length l <= fl_start l' \/ fl_start l' + fl_length l' <= fl_start l).
Proof.
  destruct (link_entry dbg _ _ _ _ _ _ _ _ Hwf Htw Hlink) as (s & Hinv & Hby & -> & _ & _ & Hlen & Hent).
  assert (Hat : forall i o l, outs !! i = Some o -> ls_locs s !! i = Some l ->
            placed_at dbg (tb_reloc_size (B:=B)) (tb_finish (ls_builder s)) l o).
  { intros i o l Ho Hl. destruct (placed_lookup _ _ _ _ _ _ _ (li_placed _ _ _ Hinv) Ho Hl) as (? & ? & ?).
    pose proof (finish_length (ls_builder s)) as Hfin. split; [done|]. split; [lia|]. split; [lia|]. by eapply finished_bytes. }
  split; [done|]. split.
  - intros d info Hd. destruct (Hent _ _ Hd) as (i & o & Ho & Hk & Hl & Hsrc & Htr). exists o.
    split; [by eapply list_elem_of_lookup_2|]. do 2 (split; [done|]). split; [by eapply Hat|].
    rewrite Htr. pose proof (trampoline_index outs (Z.of_nat d)) as Hj.
    destruct (bt_get (array_to_wasm_trampoline (Z.of_nat d)) _) as [j|]; [|done]. destruct Hj as (oj & Hoj & Hkj). cbn.
    unfold pm_get in Hoj |- *. destruct (0 <=? j); [|done].
    pose proof (placed_length _ _ _ _ (li_placed _ _ _ Hinv)) as Hll.
    destruct (lookup_lt_is_Some_2 (ls_locs s) (Z.to_nat j)) as [lj Hlj];
      [apply lookup_lt_Some in Hoj; lia|].
    rewrite Hlj. exists oj. split; [by eapply list_elem_of_lookup_2|]. split; [done|]. by eapply Hat.
  - intros d d' info info' Hd Hd' Hne. cbn zeta. pose proof (li_placed _ _ _ Hinv) as Hpl.
    destruct (Hent _ _ Hd) as (i & o & Ho & Hk & Hl & _).
    destruct (Hent _ _ Hd') as (i' & o' & Ho' & Hk' & Hl' & _).
    destruct (lt_eq_lt_dec i i') as [[Hlt|<-]|Hgt].
    + left. by eapply placed_disjoint.
    + rewrite Ho in Ho'. injection Ho' as <-. rewrite Hk in Hk'. injection Hk'. lia.
    + right. by eapply placed_disjoint.
Qed.

(** The link of the example. *)
Definition example_link : outcome unit (list Z * list CompiledFunctionInfo * (list Z * list Trap)) :=
  link_and_finish (B:=list Z) true [] (mkUnlinked (build_indices example_outputs) example_outputs) default_module.

Lemma example_relocs_wf : Forall (relocs_wf (tb_reloc_size (B:=list Z))) example_outputs.
Proof.
  apply list.Forall_forall. intros o Ho. apply list_elem_of_In in Ho. cbn in Ho.
  destruct Ho as [<-|[<-|[<-|[]]]]; intros p (r & Hr & Hp); apply list_elem_of_In in Hr; cbn in Hr;
    [|destruct Hr|destruct Hr].
  destruct Hr as [<-|[]]. cbn in Hp. unfold pm_len. cbn. lia.
Qed.

Lemma link_functions_correct_witness :
  exists txt funcs offs trs info o, example_link = Ok (txt, funcs, (offs, trs)) /\ length funcs = 2%nat /\
    funcs !! 1%nat = Some info /\ o ∈ example_outputs /\ co_key o = wasm_function 1 /\
    placed_at true (tb_reloc_size (B:=list Z)) txt (wasm_func_loc info) o.
Proof.
  destruct example_link as [[[txt funcs] [offs trs]]|e|] eqn:Hl; [|by vm_compute in Hl..].
  destruct (link_functions_correct (B:=list Z) true 2 example_outputs [] default_module txt funcs offs trs
    example_outputs_wf example_traps_wf example_relocs_wf (pm_len_nonneg (A:=Z) []) Hl) as (Hn & Hf & _).
  destruct (funcs !! 1%nat) as [info|] eqn:Hi; [|apply lookup_ge_None in Hi; lia].
  destruct (Hf 1%nat info Hi) as (o & Ho & Hk & _ & Hp & _). exists txt, funcs, offs, trs, info, o. auto 10.
Defined.

(** The trap table finds a position exactly when it is in it. *)
Lemma lookup_trap_spec {E} c off :
  strictly_increasing (cm_trap_offsets c) -> length (cm_traps c) = length (cm_trap_offsets c) ->
  0 <= off < 2 ^ 32 ->
  match lookup_trap_code (E:=E) c off with
  | Ok (Some t) => exists j, cm_trap_offsets c !! j = Some off /\ cm_traps c !! j = Some t
  | Ok None => off ∉ cm_trap_offsets c
  | _ => False
  end.
Proof.
  intros Hs Hlen Hoff. unfold lookup_trap_code. rewrite try_from_intro by done. cbn [unwrap mbind outcome_bind].
  destruct (binary_search (cm_trap_offsets c) off) as [j|] eqn:Hbs.
  - apply binary_search_spec in Hbs; [|done].
    destruct (lookup_lt_is_Some_2 (cm_traps c) j) as [t Ht]; [apply lookup_lt_Some in Hbs; lia|].
    unfold pm_index, pm_get. rewrite (proj2 (Z.leb_le _ _)), Nat2Z.id, Ht by lia. cbn. eauto.
  - intros [j Hj]%list_elem_of_lookup. apply (binary_search_spec _ _ j Hs) in Hj. congruence.
Qed.

(** The traps of a placed output are found at their places. *)
Lemma trap_found {B E} `{TextSectionBuilderLaws B} `{TrapCodes} (b0 : B) outs s mm len data pub i o l t :
  link_inv b0 outs s -> 0 <= tb_pos b0 -> Forall traps_wf outs ->
  outs !! i = Some o -> ls_locs s !! i = Some l -> t ∈ fn_traps o ->
  lookup_trap_code (E:=E) (mkCodeMemory mm len data pub (tb_offsets (ls_traps s)) (tb_traps (ls_traps s)))
    (fl_start l + ti_offset t) = Ok (Some (ti_trap t)).
Proof.
  intros [] Hb Htw Ho Hl Ht.
  destruct (placed_lookup _ _ _ _ _ _ _ li_placed0 Ho Hl) as (? & Hlen & _).
  assert (Hwo : traps_wf o) by (eapply list.Forall_lookup_1; done).
  pose proof (tw_inside _ Hwo _ Ht). pose proof (li_width0 l ltac:(by eapply list_elem_of_lookup_2)).
  destruct (li_traps0 _ _ _ _ Ho Hl Ht) as (j & Hj & Hj').
  pose proof (lookup_trap_spec (E:=E) (mkCodeMemory mm len data pub (tb_offsets (ls_traps s)) (tb_traps (ls_traps s)))
    (fl_start l + ti_offset t) li_sorted0 li_length0 ltac:(lia)) as Hs.
  destruct (lookup_trap_code _ _) as [[t'|]| |]; [| |done..]; cbn in Hs.
  - destruct Hs as (j' & Hp & Ht'). assert (j' = j) as ->.
    { destruct (lt_eq_lt_dec j j') as [[Hlt'|?]|Hlt']; [|done|];
        pose proof (li_sorted0 _ _ _ _ Hlt' ltac:(eassumption) ltac:(eassumption)); lia. }
    congruence.
  - exfalso. apply Hs. by eapply list_elem_of_lookup_2.
Qed.

(** C23: a fault at the offset of a trap recorded for function [d] is reported
    as that trap, and every offset of the text that is reported as a trap is
    one that the compiler recorded for the function or host trampoline placed
    there. *)
Theorem trap_lookup_correct {B E} `{TextSectionBuilderLaws B} `{TrapCodes} dbg n outs (b0 : B) module
    txt funcs offs trs mm len data pub
    (Hwf : outputs_wf n outs) (Htw : Forall traps_wf outs) (Hb : 0 <= tb_pos b0)
    (Hlink : link_and_finish (E:=E) dbg b0 (mkUnlinked (build_indices outs) outs) module
             = Ok (txt, funcs, (offs, trs))) :
  let c := mkCodeMemory mm len data pub offs trs in
  (forall d info, funcs !! d = Some info -> exists o,
     o ∈ outs /\ co_key o = wasm_function (Z.of_nat d) /\
     forall t, t ∈ fn_traps o ->
       lookup_trap_code (E:=E) c (fl_start (wasm_func_loc info) + ti_offset t) = Ok (Some (ti_trap t))) /\
  (forall off tr, 0 <= off < 2 ^ 32 -> lookup_trap_code (E:=E) c off = Ok (Some tr) ->
     exists d info o l t, funcs !! d = Some info /\ o ∈ outs /\ t ∈ fn_traps o /\
       off = fl_start l + ti_offset t /\ tr = ti_trap t /\
       ((co_key o = wasm_function (Z.of_nat d) /\ l = wasm_func_loc info) \/
        (co_key o = array_to_wasm_trampoline (Z.of_nat d) /\ host_to_wasm_trampoline info = Some l))).
Proof.
  cbn zeta. destruct (link_entry dbg _ _ _ _ _ _ _ _ Hwf Htw Hlink) as (s & Hinv & _ & _ & -> & -> & Hn & Hent).
  pose proof Hinv as Hinv'. destruct Hinv. split.
  - intros d info Hd. destruct (Hent _ _ Hd) as (i & o & Ho & Hk & Hl & _ & _). exists o.
    split; [by eapply list_elem_of_lookup_2|]. split; [done|]. intros t Ht. by eapply trap_found.
  - intros off tr Hoff Hlk.
    pose proof (lookup_trap_spec (E:=E) (mkCodeMemory mm len data pub (tb_offsets (ls_traps s)) (tb_traps (ls_traps s)))
      off li_sorted0 li_length0 Hoff) as Hs.
    rewrite Hlk in Hs. cbn in Hs. destruct Hs as (j & Hp & Ht).
    destruct (li_only0 _ _ _ Hp Ht) as (i & o & l & t & Ho & Hl & Hin & -> & ->).
    destruct (link_located n outs b0 s funcs i o l Hwf Hinv' Hn Hent Ho Hl) as (d & info & Hf & Hc).
    exists d, info, o, l, t. split; [done|]. split; [by eapply list_elem_of_lookup_2|done].
Qed.

Lemma trap_lookup_correct_witness :
  exists funcs offs trs txt, example_link = Ok (txt, funcs, (offs, trs)) /\
  exists o, o ∈ example_outputs /\ co_key o = wasm_function 1 /\
    forall t, t ∈ fn_traps o ->
      lookup_trap_code (E:=unit) (mkCodeMemory (mkMmap 65536 4096) 13 [] true offs trs) (9 + ti_offset t) = Ok (Some (ti_trap t)).
Proof.
  destruct example_link as [[[txt funcs] [offs trs]]|e|] eqn:Hl; [|by vm_compute in Hl..].
  exists funcs, offs, trs, txt. split; [done|].
  assert (Hb : 0 <= tb_pos ([] : list Z)) by (exact (pm_len_nonneg (A:=Z) [])).
  destruct (trap_lookup_correct (B:=list Z) true 2 example_outputs [] default_module txt funcs offs trs
    (mkMmap 65536 4096) 13 [] true example_outputs_wf example_traps_wf Hb Hl) as [Hf _].
  assert (funcs !! 1%nat = Some (mkFunctionInfo (mkFunctionLoc 9 4) None 20)) as Hd
    by (vm_compute in Hl; by injection Hl as _ <- _ _).
  exact (Hf 1%nat _ Hd).
Defined.
