(* ===== verification/CodeRegistry.v ===== *)
(** * From a module to the registry of its code

    The compilation jobs of a module produce exactly the outputs the linker
    needs, the registry maps an address to the code that contains it, and
    publishing makes the text executable and nothing else. *)
From stdpp Require Import base list option numbers.
From S2P Require Import Prelude Types Trap Module VMOffsets Mmap BTree Code CodeLink.
Local Open Scope Z_scope.

(** ** The jobs of a module *)
Section Jobs.
Context {Body : Type} `{TrapCodes}.

Lemma mapO_app_inv {E X Y} (f : X -> outcome E Y) l1 l2 ys :
  mapO f (l1 ++ l2) = Ok ys ->
  exists ys1 ys2, mapO f l1 = Ok ys1 /\ mapO f l2 = Ok ys2 /\ ys = ys1 ++ ys2.
Proof.
  rewrite mapO_ok. intros (ys1 & ys2 & H1 & H2 & ->)%Forall2_app_inv_l.
  exists ys1, ys2. by rewrite !mapO_ok.
Qed.

(** A defined function that needs a host trampoline. *)
Definition escapes (module : TranslatedModule) (d : Z) : Prop :=
  exists fd, pm_get (functions module) (num_imported_functions module + d) = Some fd /\ is_escaping fd = true.

(** The outputs of the first [n] functions. *)
Record jobs_done (module : TranslatedModule) (n : nat) (outs : list CompileOutput) : Prop := {
  jd_wf : outputs_wf n outs;
  jd_tramp : forall d, 0 <= d < Z.of_nat n ->
    (exists o, o ∈ outs /\ co_key o = array_to_wasm_trampoline d) <-> escapes module d }.

Lemma fresh_key n outs o :
  outputs_wf n outs -> o ∈ outs ->
  co_key o <> wasm_function (Z.of_nat n) /\ co_key o <> array_to_wasm_trampoline (Z.of_nat n).
Proof.
  intros Hwf Ho. destruct (ow_keys _ _ Hwf o Ho) as (d & Hd & Hk).
  split; intros Hk'; rewrite Hk' in Hk; destruct Hk as [[=]|[=]]; lia.
Qed.

Lemma outputs_wf_step n outs new :
  outputs_wf n outs ->
  (co_key <$> new = [wasm_function (Z.of_nat n)] \/
   co_key <$> new = [wasm_function (Z.of_nat n); array_to_wasm_trampoline (Z.of_nat n)]) ->
  outputs_wf (S n) (outs ++ new).
Proof.
  intros Hwf Hnew.
  assert (Hin : forall o, o ∈ new -> co_key o = wasm_function (Z.of_nat n) \/
                                     co_key o = array_to_wasm_trampoline (Z.of_nat n)).
  { intros o Ho. apply (list_elem_of_fmap_2 co_key) in Ho.
    destruct Hnew as [Hn|Hn]; rewrite Hn in Ho;
      rewrite !elem_of_cons, elem_of_nil in Ho; tauto. }
  split.
  - intros o [Ho|Ho]%elem_of_app.
    + destruct (ow_keys _ _ Hwf o Ho) as (d & Hd & Hk). exists d. split; [lia|done].
    + exists (Z.of_nat n). split; [lia|]. by apply Hin.
  - intros d Hd. destruct (decide (d = Z.of_nat n)) as [->|Hne].
    + assert (wasm_function (Z.of_nat n) ∈ co_key <$> new) as Hk
        by (destruct Hnew as [-> | ->]; by left).
      apply list_elem_of_fmap in Hk as (o & Hk & Ho). exists o. split; [apply elem_of_app; by right|done].
    + destruct (ow_all _ _ Hwf d) as (o & Ho & Hk); [lia|]. exists o.
      split; [apply elem_of_app; by left|done].
  - rewrite fmap_app. apply list.NoDup_app. split; [apply Hwf|]. split.
    + intros k (o & -> & Ho)%list_elem_of_fmap Hk.
      destruct (fresh_key _ _ _ Hwf Ho) as [H1 H2].
      apply list_elem_of_fmap in Hk as (o' & Heq & Ho'). rewrite Heq in H1, H2.
      by destruct (Hin _ Ho').
    + destruct Hnew as [-> | ->]; [apply NoDup_singleton|].
      apply list.NoDup_cons. split; [|apply NoDup_singleton].
      intros Hx%list_elem_of_singleton. discriminate Hx.
Qed.

Lemma jobs_done_step module n outs new fd :
  jobs_done module n outs ->
  pm_get (functions module) (num_imported_functions module + Z.of_nat n) = Some fd ->
  co_key <$> new = (if is_escaping fd
     then [wasm_function (Z.of_nat n); array_to_wasm_trampoline (Z.of_nat n)]
     else [wasm_function (Z.of_nat n)]) ->
  jobs_done module (S n) (outs ++ new).
Proof.
  intros [Hwf Htr] Hfd Hnew. split.
  - apply outputs_wf_step; [done|]. destruct (is_escaping fd); auto.
  - intros d Hd. destruct (decide (d = Z.of_nat n)) as [->|Hne].
    + split.
      * intros (o & [Ho|Ho]%elem_of_app & Hk).
        -- by destruct (fresh_key _ _ _ Hwf Ho) as [_ ?].
        -- apply (list_elem_of_fmap_2 co_key) in Ho. rewrite Hnew, Hk in Ho. exists fd.
           split; [done|]. destruct (is_escaping fd); [done|].
           apply list_elem_of_singleton in Ho. discriminate Ho.
      * intros (fd' & Hfd' & Hesc). rewrite Hfd in Hfd'. injection Hfd' as <-. rewrite Hesc in Hnew.
        assert (array_to_wasm_trampoline (Z.of_nat n) ∈ co_key <$> new) as Hk
          by (rewrite Hnew; right; by left).
        apply list_elem_of_fmap in Hk as (o & Hk & Ho). exists o.
        split; [apply elem_of_app; by right|done].
    + rewrite <- Htr by lia. split; intros (o & Ho & Hk); exists o; (split; [|done]).
      * apply elem_of_app in Ho as [Ho|Ho]; [done|].
        apply (list_elem_of_fmap_2 co_key) in Ho. rewrite Hnew, Hk in Ho.
        destruct (is_escaping fd); rewrite ?elem_of_cons, ?elem_of_nil in Ho;
          destruct_or?; try done; injection Ho; lia.
      * apply elem_of_app. by left.
Qed.

Lemma from_module_jobs module (bodies : list Body) inputs compiler outs :
  from_module module bodies = Ok inputs -> mapO (fun f => f compiler) inputs = Ok outs ->
  jobs_done module (length bodies) outs.
Proof.
  unfold from_module. revert inputs outs; induction bodies as [|b bodies IH] using rev_ind; intros inputs outs.
  - cbn. intros [= <-] [= <-]. split; [|cbn; lia].
    split; [by intros ? ?%elem_of_nil|cbn; lia|constructor].
  - rewrite imap_app, foldM_app. intros (in1 & Hin1 & Hstep)%bind_ok Hrun.
    cbn [imap foldM] in Hstep. rewrite length_app. cbn [length].
    replace (length bodies + 1)%nat with (S (length bodies)) by lia.
    match type of Hstep with match ?x with _ => _ end = _ => destruct x as [in2| |] eqn:Hf; [|done..] end.
    injection Hstep as <-. cbn [fst snd] in Hf. rewrite Nat.add_0_r in Hf.
    apply bind_ok in Hf as (fi & [-> _]%add_ok & (fd & Hfd%unwrap_ok & Hin2)%bind_ok).
    injection Hin2 as <-.
    destruct (is_escaping fd) eqn:Hesc; apply mapO_app_inv in Hrun as (o1 & o2 & Ho1 & Ho2 & ->);
      eapply jobs_done_step; [by eapply IH|done| |by eapply IH|done|]; rewrite Hesc.
    + cbn in Ho2. apply bind_ok in Ho2 as (x & (f & _ & [= <-])%bind_ok & Ho2).
      by apply bind_ok in Ho2 as (y & (z & (f' & _ & [= <-])%bind_ok & [= <-])%bind_ok & [= <-]).
    + cbn in Ho2. by apply bind_ok in Ho2 as (x & (f & _ & [= <-])%bind_ok & [= <-]).
Qed.

(** An output is what the compiler made of the body with that index, or the
    trampoline it made for that function. *)
Definition compiled_by (compiler : Compiler Body) (bodies : list Body) (o : CompileOutput) : Prop :=
  exists d : nat,
    (co_key o = wasm_function (Z.of_nat d) /\
       exists b, bodies !! d = Some b /\ compile_function compiler (Z.of_nat d) b = Ok (co_function o)) \/
    (co_key o = array_to_wasm_trampoline (Z.of_nat d) /\
       compile_array_to_wasm_trampoline compiler (Z.of_nat d) = Ok (co_function o)).

Lemma from_module_provenance module (bodies : list Body) inputs compiler :
  from_module module bodies = Ok inputs ->
  Forall (fun job : CompileInput Body => forall o, job compiler = Ok o -> compiled_by compiler bodies o) inputs.
Proof.
  apply (foldM_ind (fun l => Forall (fun job : CompileInput Body => forall o, job compiler = Ok o -> compiled_by compiler bodies o) l));
    [constructor|].
  intros l [i b] l' (d & b' & Hb & Hp)%elem_of_lookup_imap Hl (fi & _ & (fd & _ & Hok)%bind_ok)%bind_ok.
  cbn [fst snd] in Hok. injection Hb as -> ->. injection Hok as <-.
  assert (Hmain : forall o, (f ← compile_function compiler (Z.of_nat d) b'; Ok (mkCompileOutput (wasm_function (Z.of_nat d)) f)) = Ok o ->
    compiled_by compiler bodies o) by (intros o (f & Hf & [= <-])%bind_ok; exists d; left; eauto).
  assert (Htramp : forall o, (f ← compile_array_to_wasm_trampoline compiler (Z.of_nat d); Ok (mkCompileOutput (array_to_wasm_trampoline (Z.of_nat d)) f)) = Ok o ->
    compiled_by compiler bodies o) by (intros o (f & Hf & [= <-])%bind_ok; exists d; right; eauto).
  destruct (is_escaping fd); apply list.Forall_app; (split; [done|]); repeat constructor; done.
Qed.

Lemma outputs_provenance module (bodies : list Body) inputs compiler outs :
  from_module module bodies = Ok inputs -> mapO (fun f => f compiler) inputs = Ok outs ->
  Forall (compiled_by compiler bodies) outs.
Proof.
  intros Hi%(from_module_provenance _ _ _ compiler). rewrite mapO_ok. intros Hr.
  induction Hr as [|f o inputs outs Hf Hr IH]; [constructor|]. apply Forall_cons_1 in Hi as [H1 H2]. constructor; auto.
Qed.

(** Since there are no builtins, no builtin trampoline is ever added. *)
Lemma no_builtin_jobs (compiler : Compiler Body) outs outs' :
  compile_required_builtin_trampolines compiler outs = Ok outs' -> outs' = outs.
Proof.
  unfold compile_required_builtin_trampolines. intros (rss & _ & (new & Hnew & [= <-])%bind_ok)%bind_ok.
  destruct (foldl _ _ _) as [|b bs]; cbn in Hnew; [injection Hnew as <-; by rewrite app_nil_r|done].
Qed.
End Jobs.

(** C25: compiling a module yields one output per defined function, under the
    key of that function, plus a host trampoline for exactly the functions that
    escape; no two outputs share a key and the index maps are those of the
    outputs, so the linker's preconditions hold. *)
Theorem compile_outputs_complete {Body} module (bodies : list Body) compiler inputs u
    (Hjobs : from_module module bodies = Ok inputs) (Hc : compile inputs compiler = Ok u) :
  outputs_wf (length bodies) (outputs u) /\
  indices u = build_indices (outputs u) /\
  (forall d, 0 <= d < Z.of_nat (length bodies) ->
     (exists o, o ∈ outputs u /\ co_key o = array_to_wasm_trampoline d) <-> escapes module d).
Proof.
  unfold compile in Hc. apply bind_ok in Hc as (outs & Hrun & (outs' & ->%no_builtin_jobs & [= <-])%bind_ok).
  cbn [outputs indices]. destruct (from_module_jobs _ _ _ _ _ Hjobs Hrun) as [Hwf Htr]. done.
Qed.

(** A compiler that emits one byte per function. *)
Definition example_compiler : Compiler Z :=
  mkCompiler (fun d b => Ok (mkCompiledFunction [b] [] [] [] 1 d d []))
             (fun d => Ok (mkCompiledFunction [0] [] [] [] 1 d d [])) (fun _ => Err Unsupported).

Lemma compile_outputs_complete_witness :
  exists inputs u, from_module example_module [17; 18] = Ok inputs /\ compile inputs example_compiler = Ok u /\
    outputs_wf 2 (outputs u).
Proof.
  destruct (from_module example_module [17; 18]) as [inputs| |] eqn:Hi; [|by vm_compute in Hi..].
  destruct (compile inputs example_compiler) as [u| |] eqn:Hc.
  - exists inputs, u. split; [done|]. split; [done|].
    exact (proj1 (compile_outputs_complete example_module [17; 18] example_compiler inputs u Hi Hc)).
  - exfalso. vm_compute in Hi. injection Hi as <-. by vm_compute in Hc.
  - exfalso. vm_compute in Hi. injection Hi as <-. by vm_compute in Hc.
Defined.

(** ** Relocations *)

(** The builder after appending the bodies of the outputs, relocating nothing. *)
Definition append_all {B} `{TextSectionBuilder B} (outs : list CompileOutput) (b : B) : B :=
  foldl (fun b o => (tb_append b (cf_buffer (co_function o)) (cf_alignment (co_function o))).2) b outs.

Lemma release_relocs {B E} `{TextSectionBuilder B} module idx off rs (b b' : B) :
  foldM (link_reloc (E:=E) false module idx off) rs b = Ok b' -> b' = b.
Proof.
  apply (foldM_ind (fun s => s = b)); [done|]. intros s r s' _ -> Hs. unfold link_reloc in Hs.
  by apply bind_ok in Hs as (t & _ & [= <-]).
Qed.

(** In a build without debug assertions the linker resolves no relocation:
    the call that patches the text is an argument of [debug_assert!], so the
    finished text is that of the bare function bodies, whatever relocations the
    functions carry. *)
Lemma release_link_skips_relocations {B E} `{TextSectionBuilder B} `{TrapCodes} u module (b0 : B)
    txt funcs tt_ (Hlink : link_and_finish (E:=E) false b0 u module = Ok (txt, funcs, tt_)) :
  txt = tb_finish (append_all (outputs u) b0).
Proof.
  unfold link_and_finish in Hlink. apply bind_ok in Hlink as (s & Hs & (r & _ & [= <- _ _])%bind_ok).
  f_equal. clear r. change b0 with (ls_builder (mkLink b0 [] traps_default)).
  revert Hs. generalize (mkLink b0 [] traps_default). unfold append_all.
  induction (outputs u) as [|o outs IH]; intros s0; cbn [foldM foldl]; [by intros [= <-]|].
  destruct (link_output false module (indices u) s0 o) as [s1| |] eqn:Hl; [|done..].
  intros Hs. rewrite (IH _ Hs). f_equal. unfold link_output in Hl.
  destruct (tb_append _ _ _) as [off b1]. cbn [snd].
  apply bind_ok in Hl as (rs & _ & (b2 & ->%release_relocs & Hl)%bind_ok).
  do 3 apply bind_ok in Hl as (? & _ & Hl). by apply bind_ok in Hl as (? & _ & [= <-]).
Qed.

(** A builder that zeroes the byte a relocation refers to. *)
Definition zero_builder : TextSectionBuilder (list Z) := {|
  tb_append b body align := (pm_len b, b ++ body);
  tb_resolve_reloc b off knd addend target := (true, pm_set b off 0);
  tb_finish b := b;
  tb_pos b := pm_len b;
  tb_byte b p := pm_get b p;
  tb_reloc_size knd := 1 |}.

(** A function that calls itself. *)
Definition reloc_outputs : list CompileOutput :=
  [mkCompileOutput (wasm_function 0)
     (mkCompiledFunction [9; 9] [mkMachReloc 1 0 (ExternalName_User 0) 0] [] [(0, 0)] 1 0 0 [])].

Lemma release_link_skips_relocations_witness :
  exists txt funcs tt_,
    link_and_finish (E:=unit) (H:=zero_builder) false [] (mkUnlinked (build_indices reloc_outputs) reloc_outputs)
      default_module = Ok (txt, funcs, tt_) /\ txt = [9; 9].
Proof.
  destruct (link_and_finish (E:=unit) (H:=zero_builder) false []
    (mkUnlinked (build_indices reloc_outputs) reloc_outputs) default_module)
    as [[[txt funcs] tt_]| |] eqn:Hl; [|by vm_compute in Hl..].
  exists txt, funcs, tt_. split; [done|].
  exact (@release_link_skips_relocations _ _ zero_builder _ _ _ _ _ _ _ Hl).
Defined.

(** ** The registry *)

(** Registered regions are the texts of their code, non-empty, inside the
    address space and pairwise disjoint. *)
Record registry_ok (reg : GlobalRegistry) : Prop := {
  rg_sorted : bt_sorted reg;
  rg_text : forall e s c, (e, (s, c)) ∈ reg -> 0 <= s <= e /\ e < 2 ^ 64 /\ text (E:=unit) c = Ok (s, e - s + 1);
  rg_disjoint : forall e s c e' s' c', (e, (s, c)) ∈ reg -> (e', (s', c')) ∈ reg -> e <> e' -> e < s' \/ e' < s }.

(** The region of code [c] does not meet a registered one. *)
Definition region_fresh (reg : GlobalRegistry) (start len : Z) : Prop :=
  forall e s c, (e, (s, c)) ∈ reg -> e < start \/ start + len <= s.

Lemma lookup_code_spec reg pc c off :
  registry_ok reg -> 0 <= pc < 2 ^ 64 ->
  lookup_code reg pc = Some (c, off) <->
  exists e s, (e, (s, c)) ∈ reg /\ s <= pc <= e /\ off = pc - s.
Proof.
  intros [Hs Ht Hd] Hpc. unfold lookup_code. pose proof (bt_range_from_spec pc reg Hs) as Hr.
  destruct (bt_range_from pc reg) as [[e [s m]]|].
  - destruct Hr as (Hin & Hge%Z.ltb_ge & Hmin). destruct (Ht _ _ _ Hin) as (? & ? & _). split.
    + unfold checked_sub. destruct (try_from 64 (pc - s)) as [o|] eqn:Ho; [|done].
      apply try_from_Some in Ho as [-> ?]. cbn. intros [= <- <-]. exists e, s. split; [done|]. split; [lia|done].
    + intros (e' & s' & Hin' & Hpc' & ->). destruct (Ht _ _ _ Hin') as (? & ? & _).
      assert (e' = e) as ->.
      { destruct (decide (e' = e)) as [|Hne]; [done|].
        assert (e <= e') by (apply Z.ltb_ge; eapply Hmin; [done|apply Z.ltb_ge; lia]).
        destruct (Hd _ _ _ _ _ _ Hin' Hin Hne); lia. }
      pose proof (bt_elem_get _ _ _ Hs Hin) as Hg. rewrite (bt_elem_get _ _ _ Hs Hin') in Hg.
      injection Hg as -> ->. unfold checked_sub. by rewrite try_from_intro by lia.
  - split; [done|]. intros (e & s & Hin & Hpc' & _). apply Hr, Z.ltb_lt in Hin. lia.
Qed.

Lemma text_ok {E E'} c r : text (E:=E) c = Ok r -> text (E:=E') c = Ok r.
Proof.
  unfold text, mmap_slice. destruct (cm_len c <=? mm_len (cm_mmap c)); cbn; [|done].
  by destruct (checked_sub 64 (cm_len c) 0); cbn; [intros [= <-]|].
Qed.

Lemma register_code_ok {E} reg code start len reg' :
  registry_ok reg -> text (E:=E) code = Ok (start, len) -> 0 <= start -> 0 < len ->
  region_fresh reg start len -> register_code (E:=E) code reg = Ok reg' ->
  reg' = bt_insert (start + len - 1) (start, code) reg /\ registry_ok reg'.
Proof.
  intros [Hs Ht Hd] Htext Hst Hlen Hfresh. unfold register_code. rewrite Htext. cbn [mbind outcome_bind fst snd].
  rewrite (proj2 (Z.eqb_neq _ _)) by lia.
  intros (e & [-> ?]%add_ok & (e2 & [-> ?]%sub_ok & Hr)%bind_ok)%bind_ok.
  apply bind_ok in Hr as (u & _ & [= <-]). split; [done|].
  assert (Hin : forall e s c, (e, (s, c)) ∈ bt_insert (start + len - 1) (start, code) reg ->
    (e = start + len - 1 /\ s = start /\ c = code) \/ (e, (s, c)) ∈ reg)
    by (intros e s c [[= -> -> ->]|?]%bt_insert_elem; [by left|by right]).
  split.
  - by apply bt_insert_sorted.
  - intros e s c [(-> & -> & ->)|He]%Hin; [|by apply Ht]. split; [lia|]. split; [lia|].
    rewrite (text_ok _ _ Htext). do 2 f_equal. lia.
  - intros e s c e' s' c' [(-> & -> & ->)|He]%Hin [(-> & -> & ->)|He']%Hin Hne; [done| | |].
    + destruct (Hfresh _ _ _ He'); lia.
    + destruct (Hfresh _ _ _ He); lia.
    + by apply (Hd e s c e' s' c').
Qed.

(** Registering the text of code whose region is fresh cannot fail. *)
Lemma register_code_total {E} reg code start len :
  registry_ok reg -> text (E:=E) code = Ok (start, len) -> 0 <= start -> 0 < len -> start + len < 2 ^ 64 ->
  region_fresh reg start len -> is_ok (register_code (E:=E) code reg) = true.
Proof.
  intros Hreg Htext Hst Hlen Htop Hfresh. unfold register_code. rewrite Htext. cbn [mbind outcome_bind fst snd].
  rewrite (proj2 (Z.eqb_neq _ _)) by lia. unfold add, sub. rewrite !ofits_intro by lia. cbn [mbind outcome_bind].
  rewrite ofits_intro by lia. cbn [mbind outcome_bind]. rewrite bool_decide_true; [done|].
  destruct (bt_get _ reg) as [[s c]|] eqn:Hg; [|done]. apply bt_get_elem in Hg.
  destruct (rg_text _ Hreg _ _ _ Hg) as (? & _). destruct (Hfresh _ _ _ Hg); lia.
Qed.

(** C24: registering the code of a module whose text lies apart from all
    registered texts keeps the registry well formed, makes every address of the
    text resolve to that code with its offset, and changes no other lookup. *)
Theorem registry_lookup_correct {E} reg code start len reg' pc
    (Hreg : registry_ok reg) (Htext : text (E:=E) code = Ok (start, len)) (Hst : 0 <= start) (Hlen : 0 < len)
    (Hfresh : region_fresh reg start len) (Hr : register_code (E:=E) code reg = Ok reg')
    (Hpc : 0 <= pc < 2 ^ 64) :
  registry_ok reg' /\
  lookup_code reg' pc =
    if (start <=? pc) && (pc <? start + len) then Some (code, pc - start) else lookup_code reg pc.
Proof.
  pose proof Hreg as [Hs _ _].
  destruct (register_code_ok _ _ _ _ _ Hreg Htext Hst Hlen Hfresh Hr) as [-> Hok]. split; [done|].
  set (reg' := bt_insert _ _ _) in *.
  assert (Hnew : (start + len - 1, (start, code)) ∈ reg') by apply bt_get_elem, bt_get_insert_eq.
  destruct (andb _ _) eqn:Hin.
  - apply andb_true_iff in Hin as [H1%Z.leb_le H2%Z.ltb_lt].
    apply lookup_code_spec; [done|done|]. exists (start + len - 1), start. split; [done|]. lia.
  - assert (Hout : pc < start \/ start + len <= pc)
      by (apply andb_false_iff in Hin as [H1%Z.leb_gt|H2%Z.ltb_ge]; lia).
    apply option_eq. intros [c off]. rewrite !lookup_code_spec by done.
    split; intros (e & s & He & Hpcr & ->); exists e, s; (split; [|done]).
    + apply bt_insert_elem in He as [[= -> -> ->]|He]; [lia|done].
    + destruct (decide (e = start + len - 1)) as [->|Hne].
      * destruct (Hfresh _ _ _ He); lia.
      * apply bt_get_elem. unfold reg'. rewrite bt_get_insert_ne by done. by apply bt_elem_get.
Qed.

Definition example_code : CodeMemory := mkCodeMemory (mkMmap 65536 4096) 9 [] true [1; 5; 8] [StackOverflow].

Lemma registry_ok_nil : registry_ok [].
Proof. by split; [|intros ? ? ? ?%elem_of_nil|intros ? ? ? ? ? ? ?%elem_of_nil]. Qed.

Lemma registry_lookup_correct_witness :
  registry_ok [(65544, (65536, example_code))] /\
  lookup_code [(65544, (65536, example_code))] 65540 = Some (example_code, 4).
Proof.
  apply (registry_lookup_correct (E:=unit) [] example_code 65536 9 _ 65540 registry_ok_nil);
    [reflexivity|lia|lia|by intros ? ? ? ?%elem_of_nil|reflexivity|lia].
Defined.

(** ** Publishing *)
Section Publish.
Context {K : Type} `{KernelLaws K}.

Lemma protect_range_spec k0 m k start end_ p r k' :
  extends k0 m k -> 0 <= start <= end_ -> end_ <= mm_len m -> start mod host_page_size = 0 ->
  protect_range m start end_ p k = (r, k') ->
  match r with
  | Ok _ => extends k0 m k' /\
      (forall x, prot_at k' x = if in_range (mm_ptr m + start) (align_up (end_ - start) host_page_size) x
                                then Some p else prot_at k x)
  | Err e => e = MmapFailed /\ extends k0 m k'
  | Panic => False
  end.
Proof.
  intros He Hs Hle Hal. pose proof page_pos. pose proof He as [? ? [? Hptr] ? ? ? ?]. unfold protect_range.
  rewrite !(sm_lift_step _ _ _ tt), (sm_lift_step _ _ _ (end_ - start));
    [|unfold checked_sub; rewrite try_from_intro; [done|lia]|apply assert_ok..];
    [|by apply Z.eqb_eq|apply Z.leb_le; lia|apply Z.leb_le; lia].
  intros Hr. assert (extends k0 m k').
  { eapply os_mprotect_extends; [done| | | | |exact Hr]; [lia..|]. rewrite Zplus_mod, Hptr, Hal. by rewrite Z.mod_0_l by lia. }
  apply os_mprotect_spec in Hr as (_ & _ & Hr). by destruct r.
Qed.

(** Publishing the code of a vector makes exactly the pages of the text readable
    and executable (and not writable any more); every other address keeps its
    protection.  A failing [mprotect] leaves the mapping owned. *)
Lemma publish_spec dbg k0 k (v : MmapVec Z) offs trs r k' :
  vec_inv k0 k v -> publish dbg (code_memory_new v offs trs) k = (r, k') ->
  match r with
  | Ok c => c = mkCodeMemory (mv_mmap v) (mv_len v) (mv_data v) true offs trs /\ extends k0 (mv_mmap v) k' /\
      (forall x, prot_at k' x =
         if in_range (mm_ptr (mv_mmap v)) (align_up (mv_len v) host_page_size) x then Some PROT_RX
         else prot_at k x)
  | Err _ => extends k0 (mv_mmap v) k'
  | Panic => False
  end.
Proof.
  intros Hi. pose proof (vi_owned _ _ _ Hi) as He. pose proof (vi_fits _ _ _ Hi).
  assert (0 <= mv_len v) by (rewrite (vi_len _ _ _ Hi); apply pm_len_nonneg).
  assert (0 mod host_page_size = 0) by (pose proof page_pos; by rewrite Z.mod_0_l by lia).
  unfold publish. rewrite (sm_lift_step _ _ _ tt) by apply debug_assert_true.
  cbn [code_memory_new cm_mmap cm_len cm_data cm_trap_offsets cm_traps].
  rewrite (proj2 (Z.eqb_neq _ _)) by (pose proof (ex_len _ _ _ He); lia).
  unfold mbind, sm_bind, make_readonly, make_executable.
  destruct (protect_range (mv_mmap v) 0 (mv_len v) PROT_R k) as [r1 k1] eqn:Hro.
  apply (protect_range_spec k0) in Hro; [|done..]. destruct r1 as [u|e|]; [|intros [= <- <-]; by destruct Hro as [_ ?]|done].
  destruct Hro as [He1 Hro].
  destruct (protect_range (mv_mmap v) 0 (mv_len v) PROT_RX k1) as [r2 k2] eqn:Hrx.
  apply (protect_range_spec k0) in Hrx; [|done..]. destruct r2 as [u'|e|]; [|intros [= <- <-]; by destruct Hrx as [_ ?]|done].
  destruct Hrx as [He2 Hrx]. intros [= <- <-]. split; [done|]. split; [done|].
  intros x. rewrite Hrx, Hro, Z.add_0_r, Z.sub_0_r. by case_match.
Qed.
End Publish.
