(* ===== verification/Instance.v ===== *)
(** * Instances ([src/src/runtime/instance.rs])

    Creating an instance: the allocator provides a context, tables and memories,
    and initialisation fills in the context, the tables and the memories from
    the module, its imports and its initializers.  Contexts and memories are raw
    memory; the state of the computations is the kernel, that memory and the
    stack of the constant expression evaluator. *)
From stdpp Require Import base list gmap option numbers.
From S2P Require Import Prelude Types Module ModuleTypes TypeRegistry VMVal ConstEval VMOffsets Mmap RtMemory VMHeap BTree Code.
Local Open Scope Z_scope.

(** [b"vmcx"] as a little-endian number. *)
Definition VMCONTEXT_MAGIC : Z := le_combine [118; 109; 99; 120].

(** ** [Module] ([src/src/module.rs]) *)

(** A compiled module; [mo_type_ids_ptr] is the address of the type ids of the
    collection. *)
Record ModuleInner : Type := mkModule {
  mo_translated : TranslatedModule;
  mo_offsets : VMOffsets;
  mo_code : CodeMemory;
  mo_type_collection : RuntimeTypeCollection;
  mo_type_ids_ptr : Z;
  mo_function_info : list CompiledFunctionInfo }.

(** [Imports]. *)
Record Imports : Type := mkImports {
  im_functions : list VMFunctionImport;
  im_tables : list VMImport;
  im_memories : list VMImport;
  im_globals : list VMImport }.

(** ** State *)
Record World (K : Type) : Type := mkWorld { w_kernel : K; w_heap : heap; w_stack : list VMVal }.
Arguments mkWorld {K}.
Arguments w_kernel {K}.
Arguments w_heap {K}.
Arguments w_stack {K}.

Section Instance.
(** Writing through a pointer that is not aligned for its type, and copying
    uninitialised bytes of an integer type, are undefined behaviour; [strict] says
    whether they are caught (a debug build checks the alignment) or go through as
    on hardware. *)
Context {K : Type} (strict : bool).
Abbreviation M := (SM (World K) Error).

Definition with_kernel {A} (m : SM K Error A) : M A := fun w =>
  let r := m (w_kernel w) in (r.1, mkWorld r.2 (w_heap w) (w_stack w)).
Definition upd_heap (f : heap -> heap) (w : World K) : World K := mkWorld (w_kernel w) (f (w_heap w)) (w_stack w).
Definition with_heap (f : heap -> heap) : M unit := fun w => (Ok tt, upd_heap f w).
Definition write_ptr {A} `{VMStruct A} (a : Z) (v : A) : M unit :=
  _ ← sm_lift (assert_ (negb strict || (a mod vs_align (A:=A) =? 0)));
  with_heap (store_at a v).

(** [const_eval.eval(expr)?]. *)
Definition const_eval (expr : ConstExpr) : M VMVal := fun w =>
  match eval (w_stack w) expr with
  | Ok (v, stack) => (Ok v, mkWorld (w_kernel w) (w_heap w) stack)
  | Err e => (Err e, w)
  | Panic => (Panic, w)
  end.

(** [OwnedVMContext::as_mut_ptr] and [plus_offset_mut]. *)
Definition as_mut_ptr (vmctx : OwnedVMContext) : Z := mm_ptr (mv_mmap vmctx).
Definition plus_offset (vmctx : OwnedVMContext) (offset : Z) : Z := as_mut_ptr vmctx + offset.

(** ** [initialize_vmctx] *)

(** The function reference of an escaping function. *)
Definition func_ref_of (dbg : bool) (module : ModuleInner) (imports : Imports) (vmctx : OwnedVMContext)
    (index : Z) (func : FunctionDesc) : outcome Error VMFuncRef :=
  let shared_type :=
    ty ← pm_index (Module.types (mo_translated module)) (signature func);
    unwrap (lookup_shared_type (mo_type_collection module) ty) in
  d ← defined_func_index (mo_translated module) index;
  match d with
  | Some def_index =>
      info ← pm_index (mo_function_info module) def_index;
      array_call ← unwrap (host_to_wasm_trampoline info);
      array_call ← resolve_function_loc dbg (mo_code module) array_call;
      wasm_call ← resolve_function_loc dbg (mo_code module) (wasm_func_loc info);
      _ ← assert_ (negb (wasm_call =? 0));
      type_index ← shared_type;
      Ok (mkVMFuncRef array_call wasm_call (as_mut_ptr vmctx) type_index)
  | None =>
      import ← pm_index (im_functions imports) index;
      type_index ← shared_type;
      Ok (mkVMFuncRef (fi_array_call import) (fi_wasm_call import) (fi_vmctx import) type_index)
  end.

Definition initialize_vmfunc_refs (dbg : bool) (vmctx : OwnedVMContext) (module : ModuleInner) (imports : Imports) : M unit :=
  sm_for (fun p =>
      r ← sm_lift (func_ref_of dbg module imports vmctx p.1 p.2);
      off ← sm_lift (vmctx_vmfunc_ref (mo_offsets module) (func_ref p.2));
      write_ptr (plus_offset vmctx off) r)
    (filter (fun p => is_escaping p.2) (pm_iter (functions (mo_translated module)))).

(** [ptr::copy_nonoverlapping] of a slice of structures. *)
Definition copy_slice {A} `{VMStruct A} (l : list A) (dst : Z) : M unit :=
  sm_for (fun p => write_ptr (dst + p.1 * Z.of_nat vs_size) p.2) (pm_iter l).

Definition initialize_vmctx (dbg : bool) (builtins_init : Z) (vmctx : OwnedVMContext) (tables_ : list Table)
    (memories_ : list Memory) (module : ModuleInner) (imports : Imports) : M unit :=
  let offsets := mo_offsets module in
  let m := mo_translated module in
  o ← sm_lift vmctx_magic;
  _ ← write_ptr (plus_offset vmctx o) (mkU32 VMCONTEXT_MAGIC);
  o ← sm_lift (vmctx_builtin_functions (static_ offsets));
  _ ← write_ptr (plus_offset vmctx o) (mkUsize builtins_init);
  o ← sm_lift (vmctx_type_ids (static_ offsets));
  _ ← write_ptr (plus_offset vmctx o) (mkUsize (mo_type_ids_ptr module));
  _ ← initialize_vmfunc_refs dbg vmctx module imports;
  _ ← copy_slice (im_functions imports) (plus_offset vmctx (vmctx_imported_functions_begin offsets));
  _ ← copy_slice (im_tables imports) (plus_offset vmctx (vmctx_imported_tables_begin offsets));
  _ ← copy_slice (im_memories imports) (plus_offset vmctx (vmctx_imported_memories_begin offsets));
  _ ← copy_slice (im_globals imports) (plus_offset vmctx (vmctx_imported_globals_begin offsets));
  _ ← sm_for (fun p =>
        d ← sm_lift (defined_table_index m p.1);
        match d with
        | Some def_index =>
            o ← sm_lift (vmctx_vmtable_definition offsets def_index);
            t ← sm_lift (pm_index tables_ def_index);
            write_ptr (plus_offset vmctx o) (as_vmtable_definition t)
        | None => mret tt
        end) (pm_iter (tables m));
  _ ← sm_for (fun p =>
        d ← sm_lift (defined_memory_index m p.1);
        match d with
        | Some def_index =>
            _ ← sm_lift (assert_ (negb (md_shared p.2)));
            o ← sm_lift (vmctx_vmmemory_definition offsets def_index);
            x ← sm_lift (pm_index memories_ def_index);
            write_ptr (plus_offset vmctx o) (as_vmmemory_definition x)
        | None => mret tt
        end) (pm_iter (memories m));
  sm_for (fun p =>
        val ← const_eval p.2;
        o ← sm_lift (vmctx_vmglobal_definition offsets p.1);
        g ← sm_lift (from_vmval strict val);
        write_ptr (plus_offset vmctx o) g) (pm_iter (global_initializers m)).

(** ** [initialize_tables], [initialize_memories] *)
Definition set_elements (t : Table) (l : list (option Z)) : Table :=
  mkTable (mkMmapVec (mv_mmap (tbl_elements t)) (mv_len (tbl_elements t)) l) (tbl_maximum t).

(** [slice[offset..offset + src.len()].copy_from_slice(src)]. *)
Definition copy_into {A} (slice src : list A) (offset : Z) : outcome Error (list A) :=
  end_ ← add 64 offset (pm_len src);
  _ ← assert_ (end_ <=? pm_len slice);
  Ok (take (Z.to_nat offset) slice ++ src ++ drop (Z.to_nat end_) slice).

(** An element given by an expression must be a non-null reference. *)
Definition eval_funcref (expr : ConstExpr) : M (option Z) :=
  v ← const_eval expr;
  funcref ← sm_lift (get_funcref v);
  _ ← sm_lift (assert_ (negb (funcref =? 0)));
  mret (Some funcref).

Fixpoint eval_funcrefs (exprs : list ConstExpr) : M (list (option Z)) :=
  match exprs with
  | [] => mret []
  | e :: exprs => x ← eval_funcref e; xs ← eval_funcrefs exprs; mret (x :: xs)
  end.

Definition eval_offset (expr : ConstExpr) : M Z :=
  v ← const_eval expr; sm_lift (get_u64 v).

(** The tables behind [&mut] are part of the state. *)
Definition fold_state {S X} (f : S -> X -> M S) : list X -> S -> M S :=
  fix go l s := match l with [] => mret s | x :: l => s ← f s x; go l s end.

Definition initialize_tables (tables_ : list Table) (module : ModuleInner) : M (list Table) :=
  let m := mo_translated module in
  tables_ ← fold_state (fun ts p =>
      val ← match p.2 with
            | TableInitialValue_RefNull => mret None
            | TableInitialValue_ConstExpr expr => eval_funcref expr
            end;
      t ← sm_lift (pm_index ts p.1);
      mret (pm_set ts p.1 (set_elements t (replicate (length (mv_slice (tbl_elements t))) val))))
    (pm_iter (initial_values (table_initializers m))) tables_;
  fold_state (fun ts segment =>
      elements ← match ts_elements segment with
                 | TSE_Functions _ => sm_lift Panic
                 | TSE_Expressions exprs => eval_funcrefs exprs
                 end;
      offset ← eval_offset (ts_offset segment);
      d ← sm_lift (defined_table_index m (ts_table_index segment));
      match d with
      | Some def_index =>
          t ← sm_lift (pm_index ts def_index);
          l ← sm_lift (copy_into (mv_slice (tbl_elements t)) elements offset);
          mret (pm_set ts def_index (set_elements t l))
      | None => sm_lift Panic
      end)
    (segments (table_initializers m)) tables_.

Definition initialize_memories (memories_ : list Memory) (module : ModuleInner) : M unit :=
  let m := mo_translated module in
  sm_for (fun init =>
      offset ← eval_offset (mi_offset init);
      d ← sm_lift (defined_memory_index m (mi_memory_index init));
      match d with
      | Some def_index =>
          mem ← sm_lift (pm_index memories_ def_index);
          slice ← sm_lift (memory_as_slice_mut mem);
          end_ ← sm_lift (add 64 offset (pm_len (mi_data init)));
          _ ← sm_lift (assert_ (end_ <=? slice.2));
          with_heap (heap_write (slice.1 + offset) (Some <$> mi_data init))
      | None => sm_lift Panic
      end)
    (memory_initializers m).
End Instance.
