(* ===== verification/ModuleLoad.v ===== *)
(** * Loading a module ([src/src/module.rs])

    [Module::from_bytes] takes a binary through the whole front half of the
    virtual machine: translation, compilation, linking, registration of its types
    with the engine, publication of its code and registration of the code for
    trap lookup.  The state is what these touch: the kernel's address space, the
    registry of code and the engine's registry of types; values dropped on an
    error path are released.

    Shown: loading keeps the engine consistent whether it succeeds or fails; a
    loaded module's functions and trampolines lie in executable memory of its
    own, found there by address, with the traps recorded by the compiler. *)
From stdpp Require Import base list gmap option numbers strings.
From S2P Require Import Prelude Types TypeTrace Trap Module ModuleTypes TypeRegistry TypeRegistryInv TypeRegistryUse TypeRegistryClient VMVal ConstEval ModuleTranslator ModuleTranslatorTypes ModuleTranslatorInv ModuleTranslatorSpec VMOffsets Mmap BTree Code CodeLink CodeRegistry Instance.
Local Open Scope Z_scope.

(** ** The engine's state *)
Record EngineState (K S : Type) : Type := mkEngine {
  en_kernel : K;
  en_code : GlobalRegistry;
  en_types : TypeRegistryInner S }.
Arguments mkEngine {K S}.
Arguments en_kernel {K S}.
Arguments en_code {K S}.
Arguments en_types {K S}.

Section State.
Context {K S : Type}.
Abbreviation Engine := (EngineState K S).

Definition in_kernel {A} (m : SM K Error A) : SM Engine Error A := fun en =>
  let r := m (en_kernel en) in (r.1, mkEngine r.2 (en_code en) (en_types en)).
Definition in_types {A} (m : TypeRegistryInner S -> outcome Error (A * TypeRegistryInner S)) : SM Engine Error A := fun en =>
  match m (en_types en) with
  | Ok (a, s) => (Ok a, mkEngine (en_kernel en) (en_code en) s)
  | Err e => (Err e, en)
  | Panic => (Panic, en)
  end.
Definition in_code (m : GlobalRegistry -> outcome Error GlobalRegistry) : SM Engine Error unit := fun en =>
  match m (en_code en) with
  | Ok reg => (Ok tt, mkEngine (en_kernel en) reg (en_types en))
  | Err e => (Err e, en)
  | Panic => (Panic, en)
  end.
End State.

Section Load.
Context {K : Type} `{Kernel K} {S : Type} `{Slab S WasmSubType} {T : Type} `{TextSectionBuilder T} `{TrapCodes}.
(** The parser and validator of the binary format, the compiler with its text
    section builder and pointer width, and the address at which a collection
    keeps its type ids. *)
Context {V B C : Type} (dbg : bool) (validator_types : V -> option ValidatorTypes)
  (validate : V -> Payload B C -> Error + V) (other_custom : C -> outcome Error unit)
  (compiler : TranslatedModule -> ModuleTypes -> Compiler B) (text_section_builder : Z -> T)
  (pointer_width : Z) (type_ids_ptr : RuntimeTypeCollection -> Z).

(** [Module::from_bytes]. *)
Definition from_bytes (v : V) (id : Z) (bytes : reader (Payload B C)) : SM (EngineState K S) Error ModuleInner :=
  p ← sm_lift (translate dbg validator_types validate other_custom (translator_new v id) bytes);
  let '(translation, types) := p in
  let function_body_data := function_bodies translation in
  inputs ← sm_lift (from_module (module translation) function_body_data);
  unlinked_outputs ← sm_lift (compile inputs (compiler (module translation) types));
  linked ← sm_lift (link_and_finish dbg (text_section_builder (pm_len (outputs unlinked_outputs))) unlinked_outputs (module translation));
  let '(code, function_info, (trap_offsets, traps)) := linked in
  type_collection ← in_types (fun s => register_module_types dbg s types);
  sm_on_err
    (vec ← in_kernel (from_slice dbg code);
     let code := code_memory_new vec trap_offsets traps in
     code ← sm_on_err (in_kernel (publish dbg code)) (in_kernel (mmap_drop (cm_mmap code)));
     _ ← in_code (register_code code);
     offsets ← sm_lift (for_module pointer_width (module translation));
     mret (mkModule (module translation) offsets code type_collection (type_ids_ptr type_collection) function_info))
    (in_types (fun s => s ← drop_collection dbg s type_collection; Ok (tt, s))).
End Load.

(** ** Consistency of the engine *)
Section Consistency.
Context {K : Type} `{KernelLaws K} {S : Type} `{HSlab : Slab S WasmSubType} `{!SlabLaws S WasmSubType}.
Abbreviation Engine := (EngineState K S).

(** Both registries satisfy their invariants (of the entries [hs] registrations
    are outstanding), and registered code is executable. *)
Record engine_ok (en : Engine) (hs : list nat) : Prop := {
  eo_types : inv (en_types en) hs;
  eo_code : registry_ok (en_code en);
  eo_exec : forall e s c pc, (e, (s, c)) ∈ en_code en -> s <= pc <= e -> prot_at (en_kernel en) pc = Some PROT_RX }.

(** Code lies in executable memory and every address of it is looked up as its own. *)
Definition code_live (en : Engine) (c : CodeMemory) : Prop :=
  exists start len, text (E:=Error) c = Ok (start, len) /\ 0 <= start /\ 0 <= len /\ start + len < 2 ^ 64 /\
    forall pc, start <= pc < start + len ->
      prot_at (en_kernel en) pc = Some PROT_RX /\ lookup_code (en_code en) pc = Some (c, pc - start).

(** Publishing the text and registering it. *)
Definition publish_code (dbg : bool) (txt offs : list Z) (trs : list Trap) : SM Engine Error CodeMemory :=
  vec ← in_kernel (from_slice dbg txt);
  let code := code_memory_new vec offs trs in
  code ← sm_on_err (in_kernel (publish dbg code)) (in_kernel (mmap_drop (cm_mmap code)));
  _ ← in_code (register_code code);
  mret code.

(** The region of a fresh mapping meets no registered code. *)
Lemma mapping_fresh en hs m k' n : engine_ok en hs -> extends (en_kernel en) m k' -> n <= mm_len m ->
  region_fresh (en_code en) (mm_ptr m) n.
Proof.
  intros Hen He Hn e s c Hin. destruct (rg_text _ (eo_code _ _ Hen) _ _ _ Hin) as ([Hs Hse] & _).
  destruct (Z.ltb_spec e (mm_ptr m)) as [|H1]; [by left|]. destruct (Z.leb_spec (mm_ptr m + n) s) as [|H2]; [by right|].
  exfalso. pose proof (ex_len _ _ _ He). assert (Hx : in_range (mm_ptr m) (mm_len m) (Z.max s (mm_ptr m)) = true) by (apply in_range_spec; lia).
  apply (ex_fresh _ _ _ He) in Hx. rewrite (eo_exec _ _ Hen e s c) in Hx; [done|done|lia].
Qed.

(** Registering published code: the registry knows it and still knows the rest. *)
Lemma register_published dbg en hs v offs trs k1 k2 c (code := mkCodeMemory (mv_mmap v) (mv_len v) (mv_data v) true offs trs) :
  engine_ok en hs -> vec_inv (en_kernel en) k1 v -> 0 < mv_len v ->
  publish dbg (code_memory_new v offs trs) k1 = (Ok c, k2) ->
  c = code /\ exists reg, register_code (E:=Error) code (en_code en) = Ok reg /\
    engine_ok (mkEngine k2 reg (en_types en)) hs /\ code_live (mkEngine k2 reg (en_types en)) code /\
    (forall pc x, 0 <= pc < 2 ^ 64 -> lookup_code (en_code en) pc = Some x -> lookup_code reg pc = Some x).
Proof.
  intros Hen Hv Hpos Hp. destruct (publish_spec _ _ _ _ _ _ _ _ Hv Hp) as (-> & He & Hprot). split; [done|].
  pose proof (vi_fits _ _ _ Hv) as Hfit. destruct (ex_ptr _ _ _ He) as [Hptr _]. pose proof (ex_top _ _ _ He) as Htop.
  assert (Htext : text (E:=Error) code = Ok (mm_ptr (mv_mmap v), mv_len v)).
  { unfold text, mmap_slice, checked_sub. cbn [cm_len cm_mmap code]. rewrite (proj2 (Z.leb_le _ _)), try_from_intro by lia.
    cbn. by rewrite Z.add_0_r, Z.sub_0_r. }
  pose proof (mapping_fresh en hs _ _ (mv_len v) Hen He Hfit) as Hfresh.
  pose proof (register_code_total (E:=Error) (en_code en) code _ _ (eo_code _ _ Hen) Htext ltac:(lia) Hpos ltac:(lia) Hfresh) as Hok.
  destruct (register_code code (en_code en)) as [reg| |] eqn:Hr; [|done..]. exists reg. split; [done|].
  destruct (register_code_ok _ _ _ _ _ (eo_code _ _ Hen) Htext ltac:(lia) Hpos Hfresh Hr) as [Hreg Hrok].
  destruct (align_up_spec (mv_len v) host_page_size) as (Hup & _); [apply page_pos|lia|].
  assert (Hold : forall x e, (e, x) ∈ en_code en -> (e, x) ∈ reg).
  { intros x e Hin. apply bt_get_elem. subst reg. rewrite bt_get_insert_ne; [by apply bt_elem_get; [apply Hen|]|].
    intros ->. destruct x as [s c]. destruct (rg_text _ (eo_code _ _ Hen) _ _ _ Hin) as (? & _). destruct (Hfresh _ _ _ Hin); lia. }
  assert (Hnew : forall pc, mm_ptr (mv_mmap v) <= pc < mm_ptr (mv_mmap v) + mv_len v -> prot_at k2 pc = Some PROT_RX).
  { intros pc Hpc. rewrite Hprot, (proj2 (in_range_spec _ _ _)); [done|lia]. }
  split; [|split].
  - split; cbn; [apply Hen|done|]. intros e s c pc Hin Hpc. rewrite Hreg in Hin.
    apply bt_insert_elem in Hin as [[= -> -> ->]|Hin]; [apply Hnew; lia|].
    pose proof (eo_exec _ _ Hen _ _ _ _ Hin Hpc) as Hx. rewrite (ex_frame _ _ _ He); [done|].
    destruct (in_range _ _ pc) eqn:Hr'; [|done]. by rewrite (ex_fresh _ _ _ He) in Hx.
  - exists (mm_ptr (mv_mmap v)), (mv_len v). do 4 (split; [done || lia|]). intros pc Hpc. split; [by apply Hnew|].
    apply lookup_code_spec; [done|lia|]. eexists _, _. split; [rewrite Hreg; apply bt_get_elem, bt_get_insert_eq|]. lia.
  - intros pc [c off] Hpc. rewrite !lookup_code_spec by (done || apply Hen). intros (e & s & Hin & ?). exists e, s. eauto.
Qed.

(** A text the loader cannot place: its length is a multiple of the page size (the
    capacity test of the vector is strict) or near that of the address space. *)
Definition text_refused (txt : list Z) : Prop :=
  txt <> [] /\ (pm_len txt mod host_page_size = 0 \/ 2 ^ 64 < pm_len txt + host_page_size).

Lemma publish_code_spec dbg txt offs trs en hs r en' :
  engine_ok en hs -> publish_code dbg txt offs trs en = (r, en') ->
  en_types en' = en_types en /\
  match r with
  | Ok c => (exists mm, c = mkCodeMemory mm (pm_len txt) txt true offs trs) /\ engine_ok en' hs /\ code_live en' c /\
      (forall pc x, 0 <= pc < 2 ^ 64 -> lookup_code (en_code en) pc = Some x -> lookup_code (en_code en') pc = Some x)
  | Err _ => kernel_eq (en_kernel en') (en_kernel en) /\ en_code en' = en_code en
  | Panic => text_refused txt
  end.
Proof.
  intros Hen. unfold publish_code, mbind, sm_bind, in_kernel.
  destruct (from_slice dbg txt (en_kernel en)) as [rv k1] eqn:Hv. apply from_slice_correct in Hv. cbn [fst snd].
  destruct rv as [v|e|]; [|by intros [= <- <-]..]. destruct txt as [|z txt].
  { destruct Hv as [-> ->]. unfold sm_on_err, publish. rewrite (sm_lift_step _ _ _ tt) by apply debug_assert_true.
    cbn. intros [= <- <-]. split; [done|]. destruct en as [k reg tys]. split; [by eexists|]. split; [done|]. split; [|done].
    exists 1, 0. split; [done|]. split_and!; [lia|lia|lia|]. lia. }
  destruct Hv as [Hv Hdata]. assert (Hpos : 0 < mv_len v) by (rewrite (vi_len _ _ _ Hv), Hdata; unfold pm_len; cbn; lia).
  assert (Hlen : mv_len v = pm_len (z :: txt)) by (by rewrite (vi_len _ _ _ Hv), Hdata).
  unfold sm_on_err. cbn [en_kernel en_code en_types].
  destruct (publish dbg (code_memory_new v offs trs) k1) as [rp k2] eqn:Hp. cbn [fst snd]. destruct rp as [c|e|].
  - destruct (register_published _ _ _ _ _ _ _ _ _ Hen Hv Hpos Hp) as (-> & reg & Hr & Hok & Hlive & Hold).
    unfold in_code. cbn [en_code]. rewrite Hr. intros [= <- <-]. split; [done|].
    split; [exists (mv_mmap v); by rewrite Hlen, Hdata|done].
  - apply (publish_spec _ _ _ _ _ _ _ _ Hv) in Hp. destruct (drop_restores _ _ _ Hp) as (k3 & Hd & Heq).
    cbn [code_memory_new cm_mmap en_kernel]. rewrite Hd. by intros [= <- <-].
  - by destruct (publish_spec _ _ _ _ _ _ _ _ Hv Hp).
Qed.
End Consistency.

(** ** Installing linked code *)
Section Install.
Context {K : Type} `{KernelLaws K} {S : Type} `{HSlab : Slab S WasmSubType} `{!SlabLaws S WasmSubType}.
Abbreviation Engine := (EngineState K S).
Context (dbg : bool) (pointer_width : Z) (type_ids_ptr : RuntimeTypeCollection -> Z).

(** What [from_bytes] does with the engine once the code is linked. *)
Definition install_module (m : TranslatedModule) (types : ModuleTypes) (linked : list Z * list CompiledFunctionInfo * (list Z * list Trap)) :
    SM Engine Error ModuleInner :=
  let '(txt, infos, (offs, trs)) := linked in
  type_collection ← in_types (fun s => register_module_types dbg s types);
  sm_on_err
    (code ← publish_code dbg txt offs trs;
     offsets ← sm_lift (for_module pointer_width m);
     mret (mkModule m offsets code type_collection (type_ids_ptr type_collection) infos))
    (in_types (fun s => s ← drop_collection dbg s type_collection; Ok (tt, s))).

(** The engine goes on as before: its invariants hold, what was registered is
    still found, and the types in use are unchanged. *)
Record goes_on (hs : list nat) (en en' : Engine) : Prop := {
  go_ok : engine_ok en' hs;
  go_lookup : forall pc x, 0 <= pc < 2 ^ 64 -> lookup_code (en_code en) pc = Some x -> lookup_code (en_code en') pc = Some x;
  go_types : survives (en_types en) (en_types en') hs }.

(** A module installed in the engine, which goes on with its types registered. *)
Record installed (en : Engine) (hs : list nat) (m : TranslatedModule) (mt : ModuleTypes) (infos : list CompiledFunctionInfo)
    (mo : ModuleInner) (en' : Engine) : Prop := {
  is_module : mo_translated mo = m;
  is_offsets : mo_offsets mo = layout_of m /\ layout_ok (mo_offsets mo);
  is_infos : mo_function_info mo = infos;
  is_types : collection_of (en_types en') mt (mo_type_collection mo);
  is_code : code_live en' (mo_code mo);
  is_engine : engine_ok en' (rc_rec_groups (mo_type_collection mo) ++ hs);
  is_lookup : forall pc x, 0 <= pc < 2 ^ 64 -> lookup_code (en_code en) pc = Some x -> lookup_code (en_code en') pc = Some x;
  is_survive : survives (en_types en) (en_types en') hs }.

Lemma install_module_spec m mt txt infos offs trs en hs r en' :
  pointer_width = 8 -> engine_ok en hs -> module_wf m -> module_types_wf mt -> module_fits (en_types en) mt ->
  install_module m mt (txt, infos, (offs, trs)) en = (r, en') ->
  match r with
  | Ok mo => installed en hs m mt infos mo en' /\ exists mm, mo_code mo = mkCodeMemory mm (pm_len txt) txt true offs trs
  | Err _ => goes_on hs en en' /\ kernel_eq (en_kernel en') (en_kernel en) /\ en_code en' = en_code en
  | Panic => text_refused txt \/ 2 ^ 32 <= layout_size m
  end.
Proof.
  intros Hw Hen Hwf Hmt Hfits. destruct Hen as [Hinv Hreg Hexec].
  destruct (register_ok (E:=Error) dbg (en_types en) hs mt Hinv Hmt Hfits) as (c & s1 & Hr & Hcol & Hg & _).
  unfold install_module. erewrite sm_step by (unfold in_types; rewrite Hr; reflexivity).
  set (en1 := mkEngine (en_kernel en) (en_code en) s1).
  assert (Hen1 : engine_ok en1 (rc_rec_groups c ++ hs)) by (split; [exact (gsr_inv _ _ _ _ Hg)|done|done]).
  pose proof (registered_survives _ _ _ _ _ Hinv Hg) as Hsurv.
  unfold sm_on_err, mbind at 1, sm_bind at 1.
  destruct (publish_code dbg txt offs trs en1) as [rc en2] eqn:Hp.
  destruct (publish_code_spec _ _ _ _ _ _ _ _ Hen1 Hp) as [Hty Hspec]. destruct rc as [code|e|].
  - destruct Hspec as (Hcode & Hok & Hlive & Hold). rewrite Hw, for_module_closed by done. unfold mbind, sm_bind, sm_lift.
    destruct (Z.ltb_spec (layout_size m) (2 ^ 32)); [|intros [= <- <-]; by right].
    intros [= <- <-]. split; [|done]. split; cbn; try done; [split; [done|by apply layout_of_ok]|by rewrite Hty..].
  - destruct Hspec as [Hk Hc]. unfold in_types. rewrite Hty.
    destruct (drop_collection_ok (E:=Error) dbg s1 c hs (gsr_inv _ _ _ _ Hg)) as (s3 & Hd & Hinv3 & Hsh). cbn [en_types en1]. rewrite Hd.
    cbn. intros [= <- <-]. cbn [en_kernel en_code en_types]. split; [|done]. rewrite Hc. split; cbn; [|done|].
    + split; cbn; [done|done|]. intros e' s c' pc Hin Hpc. rewrite (proj1 Hk). by eapply Hexec.
    + intros j x Hx Hj. destruct (Hsurv j x Hx Hj) as [H1 H2]. rewrite <- H2.
      exact (shrunk_survives _ _ _ _ (gsr_inv _ _ _ _ Hg) Hinv3 Hsh j x Hx H1).
  - intros [= <- <-]. by left.
Qed.
End Install.

(** ** Loading *)
Section Loading.
Context {K : Type} `{KernelLaws K} {S : Type} `{HSlab : Slab S WasmSubType} `{!SlabLaws S WasmSubType}.
Context {T : Type} `{TextSectionBuilderLaws T} `{TrapCodes}.
Context {V B C : Type} (dbg : bool) (validator_types : V -> option ValidatorTypes)
  (validate : V -> Payload B C -> Error + V) (other_custom : C -> outcome Error unit)
  (compiler : TranslatedModule -> ModuleTypes -> Compiler B) (text_section_builder : Z -> T)
  (pointer_width : Z) (type_ids_ptr : RuntimeTypeCollection -> Z).
Abbreviation translate_ := (translate dbg validator_types validate other_custom).
Abbreviation from_bytes_ := (from_bytes (K:=K) (S:=S) dbg validator_types validate other_custom compiler text_section_builder pointer_width type_ids_ptr).

(** The part that does not touch the engine: translating, compiling, linking. *)
Definition front (v : V) (id : Z) (bytes : reader (Payload B C)) :
    outcome Error (ModuleTranslation B * ModuleTypes * UnlinkedCompileOutputs * (list Z * list CompiledFunctionInfo * (list Z * list Trap))) :=
  p ← translate_ (translator_new v id) bytes;
  inputs ← from_module (module p.1) (function_bodies p.1);
  u ← compile inputs (compiler (module p.1) p.2);
  linked ← link_and_finish dbg (text_section_builder (pm_len (outputs u))) u (module p.1);
  Ok (p, u, linked).

Lemma from_bytes_split v id bytes en :
  from_bytes_ v id bytes en =
  match front v id bytes with
  | Ok (tr, mt, _, linked) => install_module dbg pointer_width type_ids_ptr (module tr) mt linked en
  | Err e => (Err e, en)
  | Panic => (Panic, en)
  end.
Proof.
  unfold from_bytes, front, mbind, sm_bind, outcome_bind, sm_lift, install_module, publish_code.
  destruct (translate_ (translator_new v id) bytes) as [[tr mt]| |]; [|done..]. cbn [fst snd].
  destruct (from_module (module tr) (function_bodies tr)) as [inputs| |]; [|done..].
  destruct (compile inputs (compiler (module tr) mt)) as [u| |]; [|done..].
  destruct (link_and_finish _ _ u (module tr)) as [[[txt infos] [offs trs]]| |]; [|done..].
  unfold mbind, sm_bind, sm_on_err, mret, sm_ret.
  destruct (in_types (fun s => register_module_types dbg s mt) en) as [[c| |] en1]; [|done..].
  destruct (in_kernel (from_slice dbg txt) en1) as [[vec| |] en2]; [|done..].
  destruct (in_kernel (publish dbg (code_memory_new vec offs trs)) en2) as [[code| |] en3]; [| |done].
  - by destruct (in_code (register_code code) en3) as [[[]| |] en4]; [destruct (for_module pointer_width (module tr))|..].
  - by destruct (in_kernel (mmap_drop _) en3) as [[]].
Qed.

(** What the parameters promise: the validator's type tables are consistent, the
    code generator lists a function's traps in order and inside its body and its
    relocations inside its body, and a text section starts at a position that is
    not negative. *)
Context (validator_lawful : forall v vt, validator_types v = Some vt -> exists groups, validator_types_ok vt groups).
Context (compiler_lawful : forall m mt bodies o, compiled_by (compiler m mt) bodies o -> traps_wf o /\ relocs_wf (tb_reloc_size (B:=T)) o).
Context (builder_lawful : forall n, 0 <= tb_pos (text_section_builder n)).

(** What linked code is known to be. *)
Record front_facts (tr : ModuleTranslation B) (mt : ModuleTypes) (outs : list CompileOutput) (s : LinkState (B:=T))
    (infos : list CompiledFunctionInfo) : Prop := {
  ff_module : module_wf (module tr);
  ff_types : module_types_wf mt;
  ff_outputs : outputs_wf (length (function_bodies tr)) outs;
  ff_compiled : Forall (compiled_by (compiler (module tr) mt) (function_bodies tr)) outs;
  ff_traps : Forall traps_wf outs;
  ff_relocs : Forall (relocs_wf (tb_reloc_size (B:=T))) outs;
  ff_bytes : linked_bytes dbg outs s;
  ff_linked : link_inv (text_section_builder (pm_len outs)) outs s;
  ff_length : length infos = length (function_bodies tr);
  ff_entries : forall d info, infos !! d = Some info -> entry_of outs s d info }.

Lemma front_ok v id bytes tr mt u txt infos offs trs :
  type_sections bytes <= 1 -> entity_count bytes < 2 ^ 32 ->
  front v id bytes = Ok (tr, mt, u, (txt, infos, (offs, trs))) ->
  translate_ (translator_new v id) bytes = Ok (tr, mt) /\
  exists s, front_facts tr mt (outputs u) s infos /\
    txt = tb_finish (ls_builder s) /\ offs = tb_offsets (ls_traps s) /\ trs = tb_traps (ls_traps s).
Proof.
  intros Hts Hcount. unfold front. intros ([tr' mt'] & Htr & (inputs & Hi & (u' & Hc & (linked & Hl & Heq)%bind_ok)%bind_ok)%bind_ok)%bind_ok.
  cbn [fst snd] in *. injection Heq as <- <- <- ->. split; [done|].
  unfold compile in Hc. apply bind_ok in Hc as (outs & Hrun & (outs' & ->%no_builtin_jobs & [= <-])%bind_ok). cbn [outputs] in *.
  destruct (translate_ok _ _ _ _ validator_lawful _ _ _ _ _ Hts Htr) as (Hmt & Hinv & Htot).
  destruct (from_module_jobs _ _ _ _ _ Hi Hrun) as [Hwf _].
  pose proof (outputs_provenance _ _ _ _ _ Hi Hrun) as Hprov.
  assert (Htw : Forall traps_wf outs) by (eapply list.Forall_impl; [exact Hprov|]; intros o ?; by eapply compiler_lawful).
  assert (Hrw : Forall (relocs_wf (tb_reloc_size (B:=T))) outs) by (eapply list.Forall_impl; [exact Hprov|]; intros o ?; by eapply compiler_lawful).
  destruct (link_entry dbg _ _ _ _ _ _ _ _ Hwf Htw Hl) as (s & Hlinv & Hby & -> & -> & -> & Hlen & Hent).
  exists s. split; [|done]. split; try done. eapply mod_inv_wf; [exact Hinv|lia].
Qed.

(** The byte of the code memory at an address. *)
Definition code_byte (c : CodeMemory) (addr : Z) : option Z := pm_get (cm_data c) (addr - mm_ptr (cm_mmap c)).

(** Where the loaded code of an output is: resolved to an address, holding the
    compiled bytes there (but for its resolved relocations), executable, and
    every trap the compiler recorded in it is found by address. *)
Record code_at (en : EngineState K S) (c : CodeMemory) (l : FunctionLoc) (o : CompileOutput) (addr : Z) : Prop := {
  ca_resolved : resolve_function_loc (E:=Error) dbg c l = Ok addr;
  ca_length : fl_length l = pm_len (cf_buffer (co_function o));
  ca_bytes : forall i x, cf_buffer (co_function o) !! i = Some x ->
    dbg = false \/ ~ relocated (tb_reloc_size (B:=T)) o (Z.of_nat i) -> code_byte c (addr + Z.of_nat i) = Some x;
  ca_exec : forall pc, addr <= pc < addr + fl_length l ->
    prot_at (en_kernel en) pc = Some PROT_RX /\ exists off, lookup_code (en_code en) pc = Some (c, off);
  ca_traps : forall t, t ∈ fn_traps o -> exists off, lookup_code (en_code en) (addr + ti_offset t) = Some (c, off) /\
    lookup_trap_code (E:=Error) c off = Ok (Some (ti_trap t)) }.

Lemma located_code en tr mt outs s infos mm d info key l :
  front_facts tr mt outs s infos ->
  let c := mkCodeMemory mm (pm_len (tb_finish (ls_builder s))) (tb_finish (ls_builder s)) true (tb_offsets (ls_traps s)) (tb_traps (ls_traps s)) in
  code_live en c -> infos !! d = Some info -> located info key (Z.of_nat d) l ->
  exists o addr, compiled_by (compiler (module tr) mt) (function_bodies tr) o /\ co_key o = key /\ code_at en c l o addr.
Proof.
  intros [Hm Hmt Hwf Hprov Htw Hrw Hby Hlinv Hlen Hent] c (start & len & Htext & Hst & Hlen0 & Htop & Hlive) Hd Hloc.
  destruct (link_placed _ _ _ _ _ _ _ _ Hwf Hlinv (Hent _ _ Hd) Hloc) as (i & o & Ho & Hl & Hk).
  destruct (placed_lookup _ _ _ _ _ _ _ (li_placed _ _ _ Hlinv) Ho Hl) as (Hs0 & Hlo & Hend).
  pose proof (builder_lawful (pm_len outs)). pose proof (finish_length (ls_builder s)). pose proof (pm_len_nonneg (cf_buffer (co_function o))).
  assert (start = mm_ptr mm /\ len = pm_len (tb_finish (ls_builder s))) as [Hstart ->].
  { revert Htext. unfold text, mmap_slice. cbn [cm_len cm_mmap c]. intros (u & _ & (n & [-> _]%unwrap_ok%try_from_Some & [= <- <-])%bind_ok)%bind_ok. lia. }
  exists o, (start + fl_start l). split; [by eapply list.Forall_lookup_1|]. split; [done|]. split.
  - unfold resolve_function_loc. rewrite Htext. cbn [mbind outcome_bind fst snd]. unfold add. rewrite ofits_intro by lia.
    cbn [mbind outcome_bind]. rewrite (proj2 (Z.leb_le _ _)), (proj2 (Z.leb_le _ _)) by (unfold saturating_add; lia). by rewrite debug_assert_true.
  - done.
  - intros j x Hx Hno. unfold code_byte. cbn [cm_data cm_mmap c].
    replace (start + fl_start l + Z.of_nat j - mm_ptr mm) with (fl_start l + Z.of_nat j) by lia.
    by eapply (finished_bytes dbg).
  - intros pc Hpc. destruct (Hlive pc) as [? ?]; [lia|]. eauto.
  - intros t Ht. assert (Hwo : traps_wf o) by (by eapply list.Forall_lookup_1). pose proof (tw_inside _ Hwo _ Ht).
    destruct (Hlive (start + fl_start l + ti_offset t)) as [_ Hlk]; [lia|]. eexists. split; [exact Hlk|].
    replace (start + fl_start l + ti_offset t - start) with (fl_start l + ti_offset t) by lia. by eapply trap_found.
Qed.

(** C5: loading a module keeps the engine consistent.  When [from_bytes] succeeds, the
    module has the layout of its entities, its types are registered, and for each of
    its functions and host trampolines the bytes compiled for it (but for the fields
    its relocations rewrite) are at an address that is
    executable, is looked up as this module's code and reports the traps the
    compiler recorded; all code and types in use before are found as before.
    When it fails, the address space and the registry of code are what they were
    and the registrations made are taken back.  It panics only where translation,
    compilation or linking do, for a text whose length is a multiple of the page
    size, or for a context of 4 GiB or more. *)
Theorem from_bytes_loads v id bytes en hs r en'
    (Hw : pointer_width = 8) (Hen : engine_ok en hs) (Hts : type_sections bytes <= 1) (Hcount : entity_count bytes < 2 ^ 32)
    (Hfits : forall tr mt, translate_ (translator_new v id) bytes = Ok (tr, mt) -> module_fits (en_types en) mt)
    (Hr : from_bytes_ v id bytes en = (r, en')) :
  match r with
  | Ok mo => exists tr mt infos, translate_ (translator_new v id) bytes = Ok (tr, mt) /\
      installed en hs (module tr) mt infos mo en' /\ length infos = length (function_bodies tr) /\
      forall d info key l, infos !! d = Some info -> located info key (Z.of_nat d) l ->
        exists o addr, compiled_by (compiler (module tr) mt) (function_bodies tr) o /\ co_key o = key /\
          code_at en' (mo_code mo) l o addr
  | Err _ => goes_on hs en en' /\ kernel_eq (en_kernel en') (en_kernel en) /\ en_code en' = en_code en
  | Panic => front v id bytes = Panic \/ exists tr mt u txt rest, front v id bytes = Ok (tr, mt, u, (txt, rest.1, rest.2)) /\
      (text_refused (K:=K) txt \/ 2 ^ 32 <= layout_size (module tr))
  end.
Proof.
  rewrite from_bytes_split in Hr. destruct (front v id bytes) as [[[[tr mt] u] [[txt infos] [offs trs]]]|e|] eqn:Hf.
  - destruct (front_ok _ _ _ _ _ _ _ _ _ _ Hts Hcount Hf) as (Htr & s & Hff & -> & -> & ->).
    pose proof (install_module_spec _ _ _ _ _ _ _ _ _ _ _ _ _ Hw Hen (ff_module _ _ _ _ _ Hff) (ff_types _ _ _ _ _ Hff) (Hfits _ _ Htr) Hr) as Hs.
    destruct r as [mo|e|].
    + destruct Hs as [Hin [mm Hc]]. exists tr, mt, infos. split; [done|]. split; [done|]. split; [apply Hff|].
      intros d info key l Hd Hl. pose proof (is_code _ _ _ _ _ _ _ Hin) as Hlive. rewrite Hc in Hlive |- *. by eapply located_code.
    + done.
    + right. by exists tr, mt, u, (tb_finish (ls_builder s)), (infos, (tb_offsets (ls_traps s), tb_traps (ls_traps s))).
  - injection Hr as <- <-. split; [split; done|done].
  - injection Hr as <- <-. by left.
Qed.
End Loading.

(** *** A module loaded *)

(** A compiler that emits three bytes per function, the second of which traps. *)
Definition loading_compiler (m : TranslatedModule) (mt : ModuleTypes) : Compiler unit :=
  mkCompiler (fun d _ => Ok (mkCompiledFunction [d; 11; 195] [] [(1, 254)] [] 16 d d []))
             (fun d => Ok (mkCompiledFunction [d; 195] [] [] [] 16 d d [])) (fun _ => Err Unsupported).
Definition new_engine : EngineState LogKernel VecSlab := mkEngine initial_kernel [] registry_new.
Definition load_example : outcome Error ModuleInner * EngineState LogKernel VecSlab :=
  from_bytes true (fun _ : unit => Some example_validator_types) (fun _ _ => inr tt) (fun _ => Ok tt)
    loading_compiler (fun _ : Z => [] : list Z) 8 (fun _ => 4096) tt 1 example_payloads new_engine.

Lemma loading_compiler_lawful m mt bodies o :
  compiled_by (loading_compiler m mt) bodies o -> traps_wf o /\ relocs_wf (tb_reloc_size (B:=list Z)) o.
Proof.
  intros Hc. split; [|destruct o as [k f], Hc as (d & [(_ & b & _ & [= <-])|(_ & [= <-])]); by intros p (r & ?%elem_of_nil & _)].
  revert Hc.
  assert (forall k d, traps_wf (mkCompileOutput k (mkCompiledFunction [d; 11; 195] [] [(1, 254)] [] 16 d d []))) as H1.
  { intros k d. split; [apply strictly_increasing_check; reflexivity|].
    intros t Ht. apply list_elem_of_In in Ht. destruct Ht as [<-|[]]. by vm_compute. }
  destruct o as [k f]. intros (d & [(_ & b & _ & [= <-])|(_ & [= <-])]); [apply H1|].
  split; [apply strictly_increasing_check; reflexivity|]. by intros t ?%elem_of_nil.
Qed.

Lemma new_engine_ok : engine_ok new_engine [].
Proof.
  split; cbn [en_types en_code en_kernel new_engine]; [exact inv_new|exact registry_ok_nil|].
  intros e s c pc Hin. by apply elem_of_nil in Hin.
Qed.

Lemma from_bytes_loads_witness : exists mo en' info o addr, load_example = (Ok mo, en') /\
  engine_ok en' (rc_rec_groups (mo_type_collection mo) ++ []) /\ mo_function_info mo !! 1%nat = Some info /\
  co_key o = wasm_function 1 /\ code_at (T:=list Z) true en' (mo_code mo) (wasm_func_loc info) o addr.
Proof.
  destruct load_example as [r en'] eqn:Hr.
  pose proof (from_bytes_loads (C:=unit) true (fun _ : unit => Some example_validator_types) (fun _ _ => inr tt) (fun _ => Ok tt)
    loading_compiler (fun _ : Z => [] : list Z) 8 (fun _ => 4096) example_lawful loading_compiler_lawful
    (fun _ => pm_len_nonneg (A:=Z) []) tt 1 example_payloads new_engine [] r en' eq_refl new_engine_ok) as Hload.
  assert (is_ok r = true) as Hok by (apply (f_equal (is_ok ∘ fst)) in Hr; vm_compute in Hr; by rewrite Hr).
  destruct r as [mo|e|]; [|discriminate Hok..].
  destruct Hload as (tr & mt & infos & _ & Hin & _ & Hcode); [vm_compute; congruence|vm_compute; congruence| |exact Hr|].
  { intros tr mt Htr. vm_compute in Htr. injection Htr as <- <-.
    split; [vm_compute; congruence|]. split; [vm_compute; congruence|]. cbn. by intros e ?%not_elem_of_nil. }
  destruct (infos !! 1%nat) as [info|] eqn:Hi.
  - destruct (Hcode 1%nat info _ _ Hi (or_introl (conj eq_refl eq_refl))) as (o & addr & _ & Hk & Hat).
    exists mo, en', info, o, addr. split; [reflexivity|]. split; [exact (is_engine _ _ _ _ _ _ _ Hin)|].
    split; [rewrite (is_infos _ _ _ _ _ _ _ Hin); exact Hi|]. split; [exact Hk|exact Hat].
  - exfalso. rewrite <- (is_infos _ _ _ _ _ _ _ Hin) in Hi. apply (f_equal fst) in Hr. vm_compute in Hr. injection Hr as <-. by vm_compute in Hi.
Defined.
