(* ===== verification/InstanceInit.v ===== *)
(** * A new context holds what its layout says

    [initialize_vmctx] as a sequence of writes to fields of the layout.  The
    fields are disjoint ([VMOffsets]), so each holds what was written to it. *)
From stdpp Require Import base list gmap option strings numbers.
From S2P Require Import Prelude Types Module ModuleTypes TypeRegistry VMVal ConstEval VMOffsets Mmap RtMemory VMHeap BTree Code Instance.
Local Open Scope Z_scope.

(** ** Writing fields *)
#[global] Instance vm_field_eq_dec : EqDecision vm_field.
Proof. solve_decision. Defined.

Abbreviation field_write := (vm_field * list byte_cell)%type.
Definition put_field (vp : Z) (o : VMOffsets) (h : heap) (w : field_write) : heap :=
  heap_write (vp + (extent_spec o w.1).1) w.2 h.
Definition put_fields (vp : Z) (o : VMOffsets) (ws : list field_write) (h : heap) : heap := foldl (put_field vp o) h ws.

Definition in_layout (o : VMOffsets) (f : vm_field) : Prop := 0 <= member_index f < member_count o f.
Definition write_ok (o : VMOffsets) (w : field_write) : Prop :=
  in_layout o w.1 /\ Z.of_nat (length w.2) = (extent_spec o w.1).2.
Definition read_field (vp : Z) (o : VMOffsets) (f : vm_field) (h : heap) : list byte_cell :=
  heap_read (vp + (extent_spec o f).1) (Z.to_nat (extent_spec o f).2) h.

Lemma put_fields_app vp o ws1 ws2 h : put_fields vp o (ws1 ++ ws2) h = put_fields vp o ws2 (put_fields vp o ws1 h).
Proof. apply foldl_app. Qed.

Lemma extent_size_nonneg o f : 0 <= (extent_spec o f).2.
Proof. destruct f; cbn; lia. Qed.

(** A field that was written holds what was written, when all writes to it agree. *)
Lemma put_fields_read vp o ws h f c : layout_ok o -> Forall (write_ok o) ws ->
  (forall c', (f, c') ∈ ws -> c' = c) -> f ∈ ws.*1 -> read_field vp o f (put_fields vp o ws h) = c.
Proof.
  intros Hl. induction ws as [|[g d] ws IH] using rev_ind; [by intros _ _ ?%not_elem_of_nil|].
  intros [Hws [Hw _]%list.Forall_cons_1]%list.Forall_app Hagree Hin. rewrite put_fields_app.
  change (put_fields vp o [(g, d)] (put_fields vp o ws h)) with (heap_write (vp + (extent_spec o g).1) d (put_fields vp o ws h)).
  destruct Hw as [Hg Hd]. cbn [fst snd] in Hg, Hd. destruct (decide (f = g)) as [->|Hne].
  - assert (d = c) as -> by (apply Hagree; set_solver). unfold read_field. rewrite <- Hd, Nat2Z.id. apply heap_read_write.
  - rewrite fmap_app in Hin. apply elem_of_app in Hin as [Hin|Hin%list_elem_of_singleton]; [|done].
    unfold read_field. rewrite heap_read_other; [apply IH; [done| |done]; intros c' Hc'; apply Hagree; set_solver|].
    apply list_elem_of_fmap in Hin as ([f' c'] & -> & Hin). rewrite list.Forall_forall in Hws. destruct (Hws _ Hin) as [Hf _]. cbn [fst] in Hf |- *.
    pose proof (extents_disjoint o f' g Hl Hne Hf Hg) as Hdis. unfold disjoint in *. cbn [fst snd] in *.
    rewrite Z2Nat.id by apply extent_size_nonneg. lia.
Qed.

(** Nothing outside the context changes. *)
Lemma put_fields_frame vp o ws h a : layout_ok o -> Forall (write_ok o) ws ->
  a < vp \/ vp + vo_size o <= a -> put_fields vp o ws h !! a = h !! a.
Proof.
  intros Hl Hws Ha. revert h; induction ws as [|[f c] ws IH]; intros h; [done|].
  apply list.Forall_cons in Hws as [[Hf Hc] Hws]. cbn [fst snd] in *. change (put_fields vp o ((f, c) :: ws) h) with (put_fields vp o ws (heap_write (vp + (extent_spec o f).1) c h)).
  rewrite IH by done.
  pose proof (extent_in_section _ _ Hl Hf) as [Hb He]. pose proof (section_in_context _ f Hl) as [Hb' He'].
  apply heap_write_other. lia.
Qed.

Lemma pm_iter_elem {V} (l : list V) i x : (i, x) ∈ pm_iter l <-> pm_get l i = Some x.
Proof.
  unfold pm_iter, pm_get. rewrite elem_of_lookup_imap. split.
  - intros (k & y & [= -> ->] & Hk). rewrite (proj2 (Z.leb_le _ _)) by lia. by rewrite Nat2Z.id.
  - intros H. destruct (Z.leb_spec 0 i); [|done]. exists (Z.to_nat i), x. split; [|done]. by rewrite Z2Nat.id.
Qed.

(** ** Computations that write fields *)
Section Writes.
Context {K : Type} (strict : bool) (vmctx : OwnedVMContext) (o : VMOffsets).
Abbreviation M := (SM (World K) Error).

(** [m] succeeds, and its effect is exactly the writes [ws]. *)
Definition writes (m : M unit) (ws : list field_write) : Prop :=
  forall w, w_stack w = [] -> m w = (Ok tt, upd_heap (put_fields (as_mut_ptr vmctx) o ws) w).

Lemma writes_ret : writes (mret tt) [].
Proof. intros [] Hs. done. Qed.

Lemma writes_seq (m1 m2 : M unit) ws1 ws2 : writes m1 ws1 -> writes m2 ws2 -> writes (_ ← m1; m2) (ws1 ++ ws2).
Proof.
  intros H1 H2 w Hs. unfold mbind, sm_bind. rewrite H1 by done. rewrite H2 by done. unfold upd_heap. cbn. by rewrite put_fields_app.
Qed.

Lemma writes_lift {A} (x : outcome Error A) a (k : A -> M unit) ws : x = Ok a -> writes (k a) ws -> writes (y ← sm_lift x; k y) ws.
Proof. intros -> Hk w Hs. unfold mbind, sm_bind, sm_lift. by apply Hk. Qed.

Lemma writes_ptr {A} `{VMStruct A} off f (v : A) : off = (extent_spec o f).1 ->
  (strict = true -> plus_offset vmctx off mod vs_align (A:=A) = 0) ->
  writes (write_ptr strict (plus_offset vmctx off) v) [(f, vs_encode v)].
Proof.
  intros -> Hal w Hs. unfold write_ptr. rewrite (sm_lift_step _ _ _ tt); [done|]. apply assert_ok.
  destruct strict; [|done]. by apply Z.eqb_eq, Hal.
Qed.

Lemma writes_for {X} (f : X -> M unit) (g : X -> list field_write) l :
  (forall x, x ∈ l -> writes (f x) (g x)) -> writes (sm_for f l) (l ≫= g).
Proof.
  induction l as [|x l IH]; intros Hf; [apply writes_ret|]. cbn. apply writes_seq; [apply Hf; by left|].
  apply IH. intros y Hy. apply Hf. by right.
Qed.

Lemma writes_eval expr v (k : VMVal -> M unit) ws : eval (E:=Error) [] expr = Ok (v, []) -> writes (k v) ws -> writes (y ← const_eval expr; k y) ws.
Proof.
  intros He Hk [k0 h0 s0] Hs. cbn in Hs. subst s0. unfold mbind, sm_bind, const_eval. cbn [w_stack]. rewrite He. by apply Hk.
Qed.
End Writes.

(** ** The specification of a context *)
Section Spec.
Context {K : Type} (strict dbg : bool) (builtins_init : Z) (vmctx : OwnedVMContext) (tables_ : list Table) (memories_ : list Memory)
  (module : ModuleInner) (imports : Imports).
Abbreviation m := (mo_translated module).
Abbreviation o := (mo_offsets module).
Abbreviation M := (SM (World K) Error).

(** The escaping function whose reference is in slot [i]. *)
Definition slot_func (i : Z) : option (Z * FunctionDesc) :=
  snd <$> list_find (fun p => is_escaping p.2 = true /\ func_ref p.2 = i) (pm_iter (functions m)).

(** The reference of a function: for an import, what was imported; for a definition,
    the addresses of its host trampoline and its body in the module's code and the
    context itself; and the engine's index of its type. *)
Definition func_ref_content (index : Z) (func : FunctionDesc) : option VMFuncRef :=
  ty ← pm_get (Module.types m) (signature func);
  type_index ← pm_get (rc_types (mo_type_collection module)) ty;
  if index <? num_imported_functions m then
    import ← pm_get (im_functions imports) index;
    Some (mkVMFuncRef (fi_array_call import) (fi_wasm_call import) (fi_vmctx import) type_index)
  else
    info ← pm_get (mo_function_info module) (index - num_imported_functions m);
    trampoline ← host_to_wasm_trampoline info;
    let code := mm_ptr (cm_mmap (mo_code module)) in
    Some (mkVMFuncRef (code + fl_start trampoline) (code + fl_start (wasm_func_loc info)) (as_mut_ptr vmctx) type_index).

Lemma resolve_ok c l a : resolve_function_loc (E:=Error) dbg c l = Ok a -> a = mm_ptr (cm_mmap c) + fl_start l.
Proof.
  unfold resolve_function_loc, text, mmap_slice.
  intros (r & (u & _ & (n & _ & [= <-])%bind_ok)%bind_ok & (a' & [-> _]%add_ok & (u' & _ & [= <-])%bind_ok)%bind_ok)%bind_ok.
  cbn. lia.
Qed.

(** What [initialize_vmfunc_refs] computes is that reference. *)
Lemma func_ref_of_content index func r : func_ref_of dbg module imports vmctx index func = Ok r -> func_ref_content index func = Some r.
Proof.
  unfold func_ref_of, func_ref_content, defined_func_index, is_imported_func. intros (d & Hd & Hr)%bind_ok.
  destruct (index <? num_imported_functions m).
  - injection Hd as <-.
    apply bind_ok in Hr as (imp & Hi%unwrap_ok & (ti & (ty & Hty%unwrap_ok & Hti%unwrap_ok)%bind_ok & [= <-])%bind_ok).
    rewrite Hty. cbn. unfold lookup_shared_type in Hti. rewrite Hti. cbn. by rewrite Hi.
  - apply bind_ok in Hd as (j & Hj & [= <-]). apply bind_ok in Hr as (info & Hi%unwrap_ok & Hr).
    apply bind_ok in Hr as (t & Ht%unwrap_ok & (ac & Hac%resolve_ok & (wc & Hwc%resolve_ok & (u & _ & Hr)%bind_ok)%bind_ok)%bind_ok).
    apply bind_ok in Hr as (ti & (ty & Hty%unwrap_ok & Hti%unwrap_ok)%bind_ok & [= <-]).
    unfold sub, ofits in Hj. destruct (fits 32 _); [|done]. injection Hj as <-.
    rewrite Hty. cbn. unfold lookup_shared_type in Hti. rewrite Hti. cbn. rewrite Hi. cbn. rewrite Ht. cbn. by subst.
Qed.

(** What each field holds; the stack limit and the last words of the header are
    left as they are. *)
Definition field_content (f : vm_field) : option (list byte_cell) :=
  match f with
  | F_magic => Some (vs_encode (mkU32 VMCONTEXT_MAGIC))
  | F_builtin_functions => Some (vs_encode (mkUsize builtins_init))
  | F_type_ids => Some (vs_encode (mkUsize (mo_type_ids_ptr module)))
  | F_stack_limit | F_last_wasm_exit_fp | F_last_wasm_exit_pc | F_last_wasm_entry_fp => None
  | F_func_ref i => p ← slot_func i; r ← func_ref_content p.1 p.2; Some (vs_encode r)
  | F_imported_function i => vs_encode <$> pm_get (im_functions imports) i
  | F_imported_table i => vs_encode <$> pm_get (im_tables imports) i
  | F_imported_memory i => vs_encode <$> pm_get (im_memories imports) i
  | F_imported_global i => vs_encode <$> pm_get (im_globals imports) i
  | F_table i => (fun t => vs_encode (as_vmtable_definition t)) <$> pm_get tables_ i
  | F_memory i => (fun x => vs_encode (as_vmmemory_definition x)) <$> pm_get memories_ i
  | F_global i => e ← pm_get (global_initializers m) i; r ← ok (eval (E:=Error) [] e); Some (vmval_bytes r.1)
  end.

(** What instantiation relies on: the module is well formed and laid out, the
    imports are as many as declared, the allocator returned what was asked for,
    escaping functions have slots of their own and can be called from the host,
    memories are not shared and global initializers can be evaluated. *)
Record instance_ready : Prop := {
  ry_wf : module_wf m;
  ry_offsets : for_module (E:=Error) 8 m = Ok o;
  ry_functions : pm_len (im_functions imports) = num_imported_functions m;
  ry_tables : pm_len (im_tables imports) = num_imported_tables m;
  ry_memories : pm_len (im_memories imports) = num_imported_memories m;
  ry_globals : pm_len (im_globals imports) = num_imported_globals m;
  ry_own_tables : pm_len tables_ = pm_len (tables m) - num_imported_tables m;
  ry_own_memories : pm_len memories_ = pm_len (memories m) - num_imported_memories m;
  ry_own_globals : pm_len (global_initializers m) = pm_len (globals m) - num_imported_globals m;
  ry_slots : forall i f, pm_get (functions m) i = Some f -> is_escaping f = true -> 0 <= func_ref f < num_escaped_functions m;
  ry_unique : forall i j f g, pm_get (functions m) i = Some f -> pm_get (functions m) j = Some g ->
    is_escaping f = true -> func_ref f = func_ref g -> i = j;
  ry_refs : forall i f, pm_get (functions m) i = Some f -> is_escaping f = true ->
    exists r, func_ref_of dbg module imports vmctx i f = Ok r;
  ry_shared : Forall (fun x => md_shared x = false) (memories m);
  ry_init : forall e, e ∈ global_initializers m -> exists v, eval (E:=Error) [] e = Ok (v, []) /\ length (vmval_bytes v) = 16%nat }.

(** Where undefined behaviour is caught: the context is aligned, the globals have
    the alignment of their type (see [for_module_exact]) and are initialised with
    vectors, whose union has no uninitialised bytes. *)
Definition defined_behaviour : Prop := strict = true ->
  as_mut_ptr vmctx mod VMGlobalDefinition_align = 0 /\
  (global_initializers m <> [] -> Z.odd (num_imported_functions m) = true) /\
  forall e v s, e ∈ global_initializers m -> eval (E:=Error) [] e = Ok (v, s) -> Forall is_Some (vmval_bytes v).

(** [c] succeeds and fills the fields in [P], with what the specification says. *)
Definition realizes (c : M unit) (P : vm_field -> Prop) : Prop :=
  exists ws, writes vmctx o c ws /\ Forall (fun w => write_ok o w /\ field_content w.1 = Some w.2) ws /\
    forall f, P f -> f ∈ ws.*1.

Lemma realizes_ret : realizes (mret tt) (fun _ => False).
Proof. exists []. split; [apply writes_ret|]. split; [constructor|done]. Qed.

Lemma realizes_seq c1 c2 P1 P2 : realizes c1 P1 -> realizes c2 P2 -> realizes (_ ← c1; c2) (fun f => P1 f \/ P2 f).
Proof.
  intros (ws1 & W1 & S1 & C1) (ws2 & W2 & S2 & C2). exists (ws1 ++ ws2). split; [by apply writes_seq|].
  split; [by apply list.Forall_app|]. intros f [Hf|Hf]; rewrite fmap_app, elem_of_app; auto.
Qed.

Lemma realizes_lift {A} (x : outcome Error A) a (k : A -> M unit) P : x = Ok a -> realizes (k a) P -> realizes (y ← sm_lift x; k y) P.
Proof. intros Hx (ws & W & S & C). exists ws. split; [by eapply writes_lift|done]. Qed.

Lemma realizes_weaken c P Q : realizes c P -> (forall f, Q f -> P f) -> realizes c Q.
Proof. intros (ws & W & S & C) H. exists ws. split; [done|]. split; [done|]. auto. Qed.

Lemma realizes_ptr {A} `{VMStructLaws A} off f (v : A) : off = (extent_spec o f).1 -> in_layout o f ->
  Z.of_nat vs_size = (extent_spec o f).2 -> vs_sized v -> field_content f = Some (vs_encode v) ->
  (strict = true -> plus_offset vmctx (extent_spec o f).1 mod vs_align (A:=A) = 0) ->
  realizes (write_ptr strict (plus_offset vmctx off) v) (fun g => g = f).
Proof.
  intros -> Hf Hs Hv Hc Hal. exists [(f, vs_encode v)]. split; [by apply writes_ptr|]. split.
  - constructor; [|constructor]. split; [|done]. split; [done|]. cbn [fst snd]. by rewrite vs_encode_length.
  - intros g ->. by left.
Qed.

Lemma realizes_for {X} (f : X -> M unit) (P : X -> vm_field -> Prop) l :
  (forall x, x ∈ l -> realizes (f x) (P x)) -> realizes (sm_for f l) (fun g => exists x, x ∈ l /\ P x g).
Proof.
  induction l as [|x l IH]; intros Hf.
  - eapply realizes_weaken; [apply realizes_ret|]. by intros g (x & ?%not_elem_of_nil & _).
  - cbn [sm_for]. eapply realizes_weaken; [apply realizes_seq; [apply Hf; by left|apply IH; intros y Hy; apply Hf; by right]|].
    intros g (y & [->|Hy]%elem_of_cons & Hg); [by left|right; eauto].
Qed.

Lemma realizes_eval expr v (k : VMVal -> M unit) P : eval (E:=Error) [] expr = Ok (v, []) -> realizes (k v) P ->
  realizes (y ← const_eval expr; k y) P.
Proof. intros He (ws & W & S & C). exists ws. split; [by eapply writes_eval|done]. Qed.

(** *** The parts of [initialize_vmctx] *)
Hypothesis ready : instance_ready.
Hypothesis sound : defined_behaviour.

Lemma ready_layout : o = layout_of m /\ layout_ok o /\ layout_size m < 2 ^ 32.
Proof.
  pose proof (ry_wf ready) as Hwf. pose proof (ry_offsets ready) as Ho. rewrite for_module_closed in Ho by done.
  destruct (Z.ltb_spec (layout_size m) (2 ^ 32)); [|done]. injection Ho as Ho. rewrite <- Ho. split; [done|]. split; [by apply layout_of_ok|done].
Qed.

(** The alignment of the fields, where it is checked. *)
Lemma aligned_8 f : strict = true -> plus_offset vmctx (extent_spec o f).1 mod 8 = 0.
Proof.
  intros Hs. destruct (sound Hs) as [Hb _]. change VMGlobalDefinition_align with 16 in Hb. unfold plus_offset.
  destruct ready_layout as [-> _]. pose proof (extent_aligned m f). Z.div_mod_to_equations. lia.
Qed.

Lemma aligned_4 f : strict = true -> plus_offset vmctx (extent_spec o f).1 mod 4 = 0.
Proof. intros Hs. pose proof (aligned_8 f Hs). Z.div_mod_to_equations. lia. Qed.

Lemma aligned_global i : global_initializers m <> [] -> strict = true ->
  plus_offset vmctx (extent_spec o (F_global i)).1 mod VMGlobalDefinition_align = 0.
Proof.
  intros Hne Hs. destruct (sound Hs) as (Hb & Ho & _). unfold plus_offset. destruct ready_layout as [-> _].
  pose proof (globals_aligned m i (Ho Hne)). change VMGlobalDefinition_align with 16 in *. Z.div_mod_to_equations. lia.
Qed.

Lemma ready_accessor f : in_layout o f -> field_extent (E:=Error) o f = Ok (extent_spec o f).
Proof.
  intros [Hf1 Hf2]. rewrite (accessors_total m o f (ry_wf ready) (ry_offsets ready) Hf1). by rewrite (proj2 (Z.ltb_lt _ _)).
Qed.

Lemma accessor_ok (x : outcome Error Z) (sz : Z) e : (y ← x; Ok (y, sz)) = Ok e -> x = Ok e.1.
Proof. by intros (y & -> & [= <-])%bind_ok. Qed.

Lemma slot_func_ready i f : pm_get (functions m) i = Some f -> is_escaping f = true -> slot_func (func_ref f) = Some (i, f).
Proof.
  intros Hf He. unfold slot_func. destruct (list_find _ (pm_iter (functions m))) as [[k [j g]]|] eqn:Hfind.
  - apply list_find_Some in Hfind as (Hk & [He' Hs] & _). apply list_elem_of_lookup_2, pm_iter_elem in Hk. cbn [fst snd] in *.
    assert (i = j) as -> by (by eapply (ry_unique ready)). cbn. congruence.
  - exfalso. rewrite list_find_None, list.Forall_forall in Hfind. apply (Hfind (i, f)); [by apply pm_iter_elem|done].
Qed.

Lemma func_refs_realized : realizes (initialize_vmfunc_refs strict dbg vmctx module imports)
  (fun g => exists i f, pm_get (functions m) i = Some f /\ is_escaping f = true /\ g = F_func_ref (func_ref f)).
Proof.
  eapply realizes_weaken; [apply (realizes_for _ (fun p g => g = F_func_ref (func_ref p.2)))|].
  - intros [i f] [He Hin]%list_elem_of_filter. apply Is_true_eq_true in He. apply pm_iter_elem in Hin. cbn [fst snd] in *.
    destruct (ry_refs ready i f Hin He) as (r & Hr).
    assert (Hl : in_layout o (F_func_ref (func_ref f)))
      by (destruct ready_layout as [-> _]; unfold in_layout; cbn; exact (ry_slots ready i f Hin He)).
    eapply realizes_lift; [exact Hr|]. eapply realizes_lift; [exact (accessor_ok _ _ _ (ready_accessor _ Hl))|].
    apply (realizes_ptr _ (F_func_ref (func_ref f))); [done|done|done|done| |apply aligned_8].
    cbn. rewrite (slot_func_ready i f Hin He). cbn. by rewrite (func_ref_of_content _ _ _ Hr).
  - intros g (i & f & Hf & He & ->). exists (i, f). split; [|done]. apply list_elem_of_filter. split; [by apply Is_true_eq_left|]. by apply pm_iter_elem.
Qed.

(** Copying imports. *)
Lemma copy_realized {A} `{VMStructLaws A} (l : list A) (begin_ : Z) (fld : Z -> vm_field) :
  (forall i, 0 <= i < pm_len l -> in_layout o (fld i) /\ extent_spec o (fld i) = (begin_ + i * Z.of_nat vs_size, Z.of_nat vs_size)) ->
  (forall i, field_content (fld i) = vs_encode <$> pm_get l i) -> Forall vs_sized l -> vs_align (A:=A) = 8 ->
  realizes (copy_slice strict l (plus_offset vmctx begin_)) (fun g => exists i, 0 <= i < pm_len l /\ g = fld i).
Proof.
  intros Hlay Hc Hs Hal. eapply realizes_weaken; [apply (realizes_for _ (fun p g => g = fld p.1))|].
  - intros [i v] Hin%pm_iter_elem. cbn [fst snd]. destruct (Hlay i) as [Hl He]; [by eapply pm_get_range|].
    replace (plus_offset vmctx begin_ + i * Z.of_nat vs_size) with (plus_offset vmctx (begin_ + i * Z.of_nat vs_size)) by (unfold plus_offset; lia).
    apply (realizes_ptr _ (fld i)); [by rewrite He|done|by rewrite He| |by rewrite Hc, Hin|rewrite Hal; apply aligned_8].
    rewrite list.Forall_forall in Hs. apply Hs. unfold pm_get in Hin. destruct (0 <=? i); [|done]. by eapply list_elem_of_lookup_2.
  - intros g (i & Hi & ->). destruct (pm_get_is_Some l i Hi) as [v Hv]. exists (i, v). split; [by apply pm_iter_elem|done].
Qed.

Lemma all_sized {A} `{VMStruct A} (l : list A) : (forall a : A, vs_sized a) -> Forall vs_sized l.
Proof. intros Hs. apply list.Forall_forall. intros; apply Hs. Qed.

(** Defined tables, memories and globals. *)
Lemma tables_realized :
  realizes (sm_for (fun p =>
        d ← sm_lift (defined_table_index m p.1);
        match d with
        | Some def_index =>
            off ← sm_lift (vmctx_vmtable_definition o def_index);
            t ← sm_lift (pm_index tables_ def_index);
            write_ptr strict (plus_offset vmctx off) (as_vmtable_definition t)
        | None => mret tt
        end) (pm_iter (tables m))) (fun g => exists i, 0 <= i < pm_len tables_ /\ g = F_table i).
Proof.
  pose proof (ry_own_tables ready) as Hlen. pose proof (wf_tables _ (ry_wf ready)) as Hn. pose proof (wf_tables_len _ (ry_wf ready)) as Hl32.
  set (n := num_imported_tables m) in *.
  eapply realizes_weaken; [apply (realizes_for _ (fun p g => n <= p.1 /\ g = F_table (p.1 - n)))|].
  - intros [i t] Hin%pm_iter_elem. cbn [fst snd]. pose proof (pm_get_range _ _ _ Hin) as Hi.
    unfold defined_table_index, is_imported_table. fold n.
    destruct (index_space_split (E:=Error) n (pm_len (tables m)) i Hn Hi Hl32) as [[Hlt ->]|(Hge & -> & -> & Hd & _)].
    + eapply realizes_lift; [done|]. cbn. eapply realizes_weaken; [apply realizes_ret|]. intros g [? _]. lia.
    + eapply realizes_lift; [done|]. cbn [mbind outcome_bind].
      assert (Hly : in_layout o (F_table (i - n))) by (destruct ready_layout as [-> _]; unfold in_layout; cbn; fold n; lia).
      destruct (pm_get_is_Some tables_ (i - n)) as [x Hx]; [lia|].
      eapply realizes_lift; [exact (accessor_ok _ _ _ (ready_accessor _ Hly))|].
      eapply realizes_lift; [unfold pm_index; by rewrite Hx|].
      eapply realizes_weaken; [apply (realizes_ptr _ (F_table (i - n))); [done|done|done|done|cbn; by rewrite Hx|apply aligned_8]|]. by intros g [_ ->].
  - intros g (i & Hi & ->). destruct (pm_get_is_Some (tables m) (i + n)) as [t Ht]; [lia|].
    exists (i + n, t). split; [by apply pm_iter_elem|]. cbn [fst]. split; [lia|]. f_equal. lia.
Qed.

Lemma memories_realized :
  realizes (sm_for (fun p =>
        d ← sm_lift (defined_memory_index m p.1);
        match d with
        | Some def_index =>
            _ ← sm_lift (assert_ (negb (md_shared p.2)));
            off ← sm_lift (vmctx_vmmemory_definition o def_index);
            x ← sm_lift (pm_index memories_ def_index);
            write_ptr strict (plus_offset vmctx off) (as_vmmemory_definition x)
        | None => mret tt
        end) (pm_iter (memories m))) (fun g => exists i, 0 <= i < pm_len memories_ /\ g = F_memory i).
Proof.
  pose proof (ry_own_memories ready) as Hlen. pose proof (wf_memories _ (ry_wf ready)) as Hn. pose proof (wf_memories_len _ (ry_wf ready)) as Hl32.
  set (n := num_imported_memories m) in *.
  eapply realizes_weaken; [apply (realizes_for _ (fun p g => n <= p.1 /\ g = F_memory (p.1 - n)))|].
  - intros [i t] Hin%pm_iter_elem. cbn [fst snd]. pose proof (pm_get_range _ _ _ Hin) as Hi.
    unfold defined_memory_index, is_imported_memory. fold n.
    destruct (index_space_split (E:=Error) n (pm_len (memories m)) i Hn Hi Hl32) as [[Hlt ->]|(Hge & -> & -> & Hd & _)].
    + eapply realizes_lift; [done|]. cbn. eapply realizes_weaken; [apply realizes_ret|]. intros g [? _]. lia.
    + eapply realizes_lift; [done|]. cbn [mbind outcome_bind].
      assert (Hly : in_layout o (F_memory (i - n))) by (destruct ready_layout as [-> _]; unfold in_layout; cbn; fold n; lia).
      destruct (pm_get_is_Some memories_ (i - n)) as [x Hx]; [lia|].
      assert (Hsh : md_shared t = false).
      { pose proof (ry_shared ready) as Hs. rewrite list.Forall_forall in Hs. apply Hs. unfold pm_get in Hin.
        destruct (0 <=? i); [|done]. by eapply list_elem_of_lookup_2. }
      eapply (realizes_lift _ tt); [by rewrite Hsh|].
      eapply realizes_lift; [exact (accessor_ok _ _ _ (ready_accessor _ Hly))|].
      eapply realizes_lift; [unfold pm_index; by rewrite Hx|].
      eapply realizes_weaken; [apply (realizes_ptr _ (F_memory (i - n))); [done|done|done|done|cbn; by rewrite Hx|apply aligned_8]|]. by intros g [_ ->].
  - intros g (i & Hi & ->). destruct (pm_get_is_Some (memories m) (i + n)) as [t Ht]; [lia|].
    exists (i + n, t). split; [by apply pm_iter_elem|]. cbn [fst]. split; [lia|]. f_equal. lia.
Qed.

(** A union without uninitialised bytes is copied. *)
Lemma copied v : (strict = true -> length (vmval_bytes v) = 16%nat /\ Forall is_Some (vmval_bytes v)) ->
  from_vmval (E:=Error) strict v = Ok (mkVMGlobal (vmval_bytes v)).
Proof.
  intros Hv. unfold from_vmval, copy_bytes. destruct strict; [|done]. destruct (Hv eq_refl) as [Hl Hall].
  unfold read_le. rewrite take_ge by lia.
  destruct (mapM id (vmval_bytes v)) as [bs|] eqn:Hm; [done|]. apply mapM_None in Hm. exfalso.
  rewrite Exists_exists in Hm. destruct Hm as (x & Hx & Hn). rewrite list.Forall_forall in Hall. destruct (Hall x (proj2 (list_elem_of_In _ _) Hx)) as [b Hb]. cbn in Hn. congruence.
Qed.

Lemma globals_realized :
  realizes (sm_for (fun p =>
        val ← const_eval p.2;
        off ← sm_lift (vmctx_vmglobal_definition o p.1);
        g ← sm_lift (from_vmval strict val);
        write_ptr strict (plus_offset vmctx off) g) (pm_iter (global_initializers m)))
    (fun g => exists i, 0 <= i < pm_len (global_initializers m) /\ g = F_global i).
Proof.
  eapply realizes_weaken; [apply (realizes_for _ (fun p g => g = F_global p.1))|].
  - intros [i e] Hin%pm_iter_elem. cbn [fst snd]. pose proof (pm_get_range _ _ _ Hin) as Hi.
    destruct (ry_init ready e) as (v & He & Hv).
    { unfold pm_get in Hin. destruct (0 <=? i); [|done]. by eapply list_elem_of_lookup_2. }
    assert (Hly : in_layout o (F_global i)) by (rewrite (ry_own_globals ready) in Hi; destruct ready_layout as [-> _]; unfold in_layout; cbn; lia).
    eapply realizes_eval; [exact He|]. eapply realizes_lift; [exact (accessor_ok _ _ _ (ready_accessor _ Hly))|].
    eapply (realizes_lift _ (mkVMGlobal (vmval_bytes v))).
    { apply copied. intros Hs. destruct (sound Hs) as (_ & _ & Hi'). split; [done|]. eapply Hi'; [|exact He]. by apply pm_iter_elem, list_elem_of_fmap_2 with (f := snd) in Hin; rewrite pm_iter_snd in Hin. }
    apply (realizes_ptr _ (F_global i)); [done|done|done|exact Hv|cbn; rewrite Hin; cbn; by rewrite He|].
    apply aligned_global. intros Hnil. rewrite Hnil in Hin. unfold pm_get in Hin. destruct (0 <=? i); by rewrite ?lookup_nil in Hin.
  - intros g (i & Hi & ->). destruct (pm_get_is_Some (global_initializers m) i Hi) as [e He].
    exists (i, e). split; [by apply pm_iter_elem|done].
Qed.

(** The fields initialisation fills. *)
Definition filled (f : vm_field) : Prop := in_layout o f /\ field_content f <> None.

Lemma initialize_vmctx_realized : realizes (initialize_vmctx strict dbg builtins_init vmctx tables_ memories_ module imports) filled.
Proof.
  destruct ready_layout as (Ho & Hlay & Hsz). pose proof (ry_wf ready) as Hwf.
  assert (Hst : static_ o = mkStatic 8) by apply (lo_static _ Hlay).
  unfold initialize_vmctx. rewrite Hst.
  eapply realizes_weaken.
  { eapply realizes_lift; [reflexivity|]. eapply realizes_seq; [apply (realizes_ptr _ F_magic); [done|by split|done|done|done|apply aligned_4]|].
    eapply realizes_lift; [reflexivity|]. eapply realizes_seq; [apply (realizes_ptr _ F_builtin_functions); [done|by split|done|done|done|apply aligned_8]|].
    eapply realizes_lift; [reflexivity|]. eapply realizes_seq; [apply (realizes_ptr _ F_type_ids); [done|by split|done|done|done|apply aligned_8]|].
    eapply realizes_seq; [apply func_refs_realized|].
    eapply realizes_seq; [apply (copy_realized _ _ F_imported_function);
      [intros i; rewrite (ry_functions ready); rewrite Ho; unfold in_layout; cbn; intros; split; [lia|done]|done|by apply all_sized|done]|].
    eapply realizes_seq; [apply (copy_realized _ _ F_imported_table);
      [intros i; rewrite (ry_tables ready); rewrite Ho; unfold in_layout; cbn; intros; split; [lia|done]|done|by apply all_sized|done]|].
    eapply realizes_seq; [apply (copy_realized _ _ F_imported_memory);
      [intros i; rewrite (ry_memories ready); rewrite Ho; unfold in_layout; cbn; intros; split; [lia|done]|done|by apply all_sized|done]|].
    eapply realizes_seq; [apply (copy_realized _ _ F_imported_global);
      [intros i; rewrite (ry_globals ready); rewrite Ho; unfold in_layout; cbn; intros; split; [lia|done]|done|by apply all_sized|done]|].
    eapply realizes_seq; [apply tables_realized|]. eapply realizes_seq; [apply memories_realized|]. apply globals_realized. }
  intros f [_ Hf]. destruct f; cbn in Hf; try done;
    [by left|right; by left|do 2 right; by left|do 3 right; left|do 4 right; left|do 5 right; left|do 6 right; left|do 7 right; left
    |do 8 right; left|do 9 right; left|do 10 right];
    try (match type of Hf with context [pm_get ?l ?i] => destruct (pm_get l i) eqn:Hg; [|done]; exists i; split; [by eapply pm_get_range|done] end).
  unfold slot_func in Hf. destruct (list_find _ _) as [[k [j g]]|] eqn:Hfind; [|done].
  apply list_find_Some in Hfind as (Hk & [He Hs] & _). apply list_elem_of_lookup_2, pm_iter_elem in Hk. cbn [fst snd] in *.
  exists j, g. split; [done|]. split; [done|]. by rewrite Hs.
Qed.
End Spec.

Lemma initialize_vmctx_ok {K} strict dbg builtins_init vmctx tables_ memories_ module imports (w : World K)
    (Hready : instance_ready dbg vmctx tables_ memories_ module imports) (Hdef : defined_behaviour strict vmctx module)
    (Hstack : w_stack w = []) :
  exists w', initialize_vmctx strict dbg builtins_init vmctx tables_ memories_ module imports w = (Ok tt, w') /\
    w_kernel w' = w_kernel w /\ w_stack w' = [] /\
    (forall f c, in_layout (mo_offsets module) f ->
       field_content builtins_init vmctx tables_ memories_ module imports f = Some c ->
       read_field (as_mut_ptr vmctx) (mo_offsets module) f (w_heap w') = c) /\
    (forall a, a < as_mut_ptr vmctx \/ as_mut_ptr vmctx + vo_size_ (mo_offsets module) <= a -> w_heap w' !! a = w_heap w !! a).
Proof.
  destruct (ready_layout _ _ _ _ _ _ Hready) as (_ & Hlay & _).
  destruct (initialize_vmctx_realized (K:=K) strict dbg builtins_init _ _ _ _ _ Hready Hdef) as (ws & Hw & Hs & Hc).
  rewrite list.Forall_forall in Hs. eexists. split; [by apply Hw|]. split; [done|]. split; [done|]. split.
  - intros f c Hf Hfc. apply put_fields_read; [done|apply list.Forall_forall; intros x Hx; by apply Hs| |].
    + intros c' Hin. destruct (Hs _ Hin) as [_ E]. cbn in E. congruence.
    + apply Hc. split; [done|congruence].
  - intros a Ha. apply put_fields_frame; [done| |done]. apply list.Forall_forall. intros x Hx. by apply Hs.
Qed.


(** A module with an imported function and table, a function, a memory and a
    global of its own, all of them exported. *)
Definition instance_module : TranslatedModule :=
  {| name := None; Module.types := [0];
     functions := [mkFunctionDesc 0 1; mkFunctionDesc 0 0];
     tables := [mkTableDesc FUNCREF false 4 None false];
     memories := [mkMemoryDesc 1 None DEFAULT_OFFSET_GUARD_SIZE 16 false false];
     globals := [mkGlobalDesc Val_V128 true false]; start := None;
     imports := [mkImport "env" "f" (EntityType_Function (Module_ 0)); mkImport "env" "t" (EntityType_Table (mkTableDesc FUNCREF false 4 None false))];
     exports := [("f"%string, Ent_Function 0); ("g"%string, Ent_Function 1); ("t"%string, Ent_Table 0);
                 ("m"%string, Ent_Memory 0); ("x"%string, Ent_Global 0)];
     global_initializers := [mkConstExpr [V128Const 7]];
     table_initializers := {| initial_values := []; segments := [] |};
     memory_initializers := []; passive_table_initializers := ∅;
     passive_memory_initializers := ∅; active_table_initializers := ∅;
     active_memory_initializers := ∅; num_imported_functions := 1;
     num_imported_tables := 1; num_imported_memories := 0;
     num_imported_globals := 0; num_escaped_functions := 2 |}.

(** Its code is mapped at 0x10000, its context at 0x20000. *)
Definition instance_compiled : ModuleInner :=
  mkModule instance_module (layout_of instance_module)
    (mkCodeMemory (mkMmap 65536 4096) 256 [] true [] []) (mkCollection [] [5]) 8192
    [mkFunctionInfo (mkFunctionLoc 0 64) (Some (mkFunctionLoc 64 32)) 0].
Definition instance_vmctx : OwnedVMContext := mkMmapVec (mkMmap 131072 4096) 4096 (replicate 4096 0).
Definition instance_imports : Imports :=
  mkImports [mkVMFunctionImport 70000 70064 262144] [mkVMImport 262400 262144] [] [].
Definition instance_memories : list Memory := [mkMemory (mkMmap 1048576 6442450944) 65536 None 16 DEFAULT_OFFSET_GUARD_SIZE].

Lemma instance_module_ready : instance_ready true instance_vmctx [] instance_memories instance_compiled instance_imports.
Proof.
  assert (Hf : forall i f, pm_get (functions instance_module) i = Some f ->
    (i = 0 /\ f = mkFunctionDesc 0 1) \/ (i = 1 /\ f = mkFunctionDesc 0 0)).
  { intros i f Hi. pose proof (pm_get_range _ _ _ Hi) as Hr. unfold pm_len in Hr. cbn in Hr.
    assert (i = 0 \/ i = 1) as [->| ->] by lia; cbn in Hi; injection Hi as <-; auto. }
  split; cbn [mo_translated mo_offsets instance_compiled]; try done.
  - intros i f [[-> ->]|[-> ->]]%Hf _; cbn; lia.
  - intros i j f g [[-> ->]|[-> ->]]%Hf [[-> ->]|[-> ->]]%Hf _; cbn; done.
  - intros i f [[-> ->]|[-> ->]]%Hf _; eexists; vm_compute; reflexivity.
  - constructor; [done|constructor].
  - intros e [->|[]%not_elem_of_nil]%elem_of_cons. exists (vm_v128 7). split; vm_compute; reflexivity.
Qed.

Lemma instance_module_defined : defined_behaviour true instance_vmctx instance_compiled.
Proof.
  intros _. split; [reflexivity|]. split; [reflexivity|].
  intros e v s [->|[]%not_elem_of_nil]%elem_of_cons He. vm_compute in He. injection He as <- <-. repeat constructor; eexists; reflexivity.
Qed.


(** The same module with its global of type [i32], and with another imported
    function: initialising the global is caught, in the first case for the
    uninitialised bytes of the union, in the second for the misaligned pointer. *)
Definition with_global (ty : WasmValType) (e : ConstExpr) (extra : list FunctionDesc) : ModuleInner :=
  let m := {| name := None; Module.types := [0];
     functions := extra ++ [mkFunctionDesc 0 1; mkFunctionDesc 0 0];
     tables := []; memories := []; globals := [mkGlobalDesc ty true false]; start := None;
     imports := []; exports := []; global_initializers := [e];
     table_initializers := {| initial_values := []; segments := [] |};
     memory_initializers := []; passive_table_initializers := ∅;
     passive_memory_initializers := ∅; active_table_initializers := ∅;
     active_memory_initializers := ∅; num_imported_functions := 1 + pm_len extra;
     num_imported_tables := 0; num_imported_memories := 0;
     num_imported_globals := 0; num_escaped_functions := 2 |} in
  mkModule m (layout_of m) (mo_code instance_compiled) (mo_type_collection instance_compiled) 8192
    (mo_function_info instance_compiled).
Definition run_init (strict : bool) (extra : list FunctionDesc) (module : ModuleInner) : outcome Error unit :=
  (initialize_vmctx strict true 4096 instance_vmctx [] [] module
    (mkImports (mkVMFunctionImport 70000 70064 262144 :: ((fun _ => mkVMFunctionImport 71000 71064 262144) <$> extra)) [] [] [])
    (mkWorld tt ∅ [])).1.

Lemma global_initialisation_undefined :
  let i32 := mkConstExpr [I32Const 7] in let v128 := mkConstExpr [V128Const 7] in
  let extra := [mkFunctionDesc 0 reserved_value] in
  run_init true [] (with_global Val_V128 v128 []) = Ok tt /\
  run_init true [] (with_global Val_I32 i32 []) = Panic /\ run_init false [] (with_global Val_I32 i32 []) = Ok tt /\
  run_init true extra (with_global Val_V128 v128 extra) = Panic /\ run_init false extra (with_global Val_V128 v128 extra) = Ok tt.
Proof. vm_compute. auto 6. Qed.
