(* ===== verification/Store.v ===== *)
(** * Stores, exports and linking
      ([src/src/store.rs], [src/src/instance.rs], [src/src/func.rs],
       [src/src/global.rs], [src/src/memory.rs], [src/src/table.rs],
       [src/src/lib.rs], [src/src/linker.rs], [src/src/runtime/instance.rs])

    A store owns instances and the entities they export, and hands out indices
    as handles.  Exports are materialised on first use.  The linker maps pairs of
    names to such handles and resolves the imports of a module against them. *)
From stdpp Require Import base list gmap option strings numbers.
From S2P Require Import Prelude Types Module ModuleTypes TypeRegistry VMVal ConstEval VMOffsets Mmap RtMemory VMHeap BTree Code Instance.
Local Open Scope Z_scope.

(** ** Handles *)
Inductive Extern : Type :=
| Ext_Func (h : Z)
| Ext_Table (h : Z)
| Ext_Memory (h : Z)
| Ext_Global (h : Z).

(** [ExportedFunction], [ExportedTable], [ExportedMemory], [ExportedGlobal]. *)
Record Exported (D : Type) : Type := mkExported { ex_definition : Z; ex_vmctx : Z; ex_desc : D }.
Arguments mkExported {D}.
Arguments ex_definition {D}.
Arguments ex_vmctx {D}.
Arguments ex_desc {D}.

Inductive Export : Type :=
| Exp_Function (func_ref : Z)
| Exp_Table (t : Exported TableDesc)
| Exp_Memory (m : Exported MemoryDesc)
| Exp_Global (g : Exported GlobalDesc).

(** [runtime::Instance]. *)
Record RtInstance : Type := mkInstance {
  ri_module : ModuleInner;
  ri_vmctx : OwnedVMContext;
  ri_tables : list Table;
  ri_memories : list Memory;
  ri_dropped_elems : gset Z;
  ri_dropped_data : gset Z;
  ri_exports : list (option Extern) }.

(** ** [Store] *)
Record Store : Type := mkStore {
  instances : list RtInstance;
  exported_funcs : list Z;
  exported_tables : list (Exported TableDesc);
  exported_memories : list (Exported MemoryDesc);
  exported_globals : list (Exported GlobalDesc);
  wasm_vmval_storage : list VMVal;
  vmctx2instance : gmap Z Z }.

Definition store_new : Store := mkStore [] [] [] [] [] [] ∅.

Definition take_wasm_vmval_storage (s : Store) : list VMVal * Store :=
  (wasm_vmval_storage s,
   mkStore (instances s) (exported_funcs s) (exported_tables s) (exported_memories s) (exported_globals s) [] (vmctx2instance s)).
Definition return_wasm_vmval_storage (storage : list VMVal) (s : Store) : Store :=
  mkStore (instances s) (exported_funcs s) (exported_tables s) (exported_memories s) (exported_globals s) storage (vmctx2instance s).

Definition get_instance_from_vmctx {E} (s : Store) (vmctx : Z) : outcome E Z := unwrap (vmctx2instance s !! vmctx).

Definition push_instance (i : RtInstance) (s : Store) : Z * Store :=
  let handle := pm_len (instances s) in
  (handle, mkStore (pm_push (instances s) i) (exported_funcs s) (exported_tables s) (exported_memories s)
             (exported_globals s) (wasm_vmval_storage s) (<[as_mut_ptr (ri_vmctx i) := handle]> (vmctx2instance s))).
Definition push_function (f : Z) (s : Store) : Z * Store :=
  (pm_len (exported_funcs s),
   mkStore (instances s) (pm_push (exported_funcs s) f) (exported_tables s) (exported_memories s) (exported_globals s)
     (wasm_vmval_storage s) (vmctx2instance s)).
Definition push_table (t : Exported TableDesc) (s : Store) : Z * Store :=
  (pm_len (exported_tables s),
   mkStore (instances s) (exported_funcs s) (pm_push (exported_tables s) t) (exported_memories s) (exported_globals s)
     (wasm_vmval_storage s) (vmctx2instance s)).
Definition push_memory (m : Exported MemoryDesc) (s : Store) : Z * Store :=
  (pm_len (exported_memories s),
   mkStore (instances s) (exported_funcs s) (exported_tables s) (pm_push (exported_memories s) m) (exported_globals s)
     (wasm_vmval_storage s) (vmctx2instance s)).
Definition push_global (g : Exported GlobalDesc) (s : Store) : Z * Store :=
  (pm_len (exported_globals s),
   mkStore (instances s) (exported_funcs s) (exported_tables s) (exported_memories s) (pm_push (exported_globals s) g)
     (wasm_vmval_storage s) (vmctx2instance s)).

Definition set_instance (h : Z) (i : RtInstance) (s : Store) : Store :=
  mkStore (pm_set (instances s) h i) (exported_funcs s) (exported_tables s) (exported_memories s) (exported_globals s)
    (wasm_vmval_storage s) (vmctx2instance s).

(** [Extern::from_export]. *)
Definition from_export (e : Export) (s : Store) : Extern * Store :=
  match e with
  | Exp_Function f => let r := push_function f s in (Ext_Func r.1, r.2)
  | Exp_Table t => let r := push_table t s in (Ext_Table r.1, r.2)
  | Exp_Memory m => let r := push_memory m s in (Ext_Memory r.1, r.2)
  | Exp_Global g => let r := push_global g s in (Ext_Global r.1, r.2)
  end.

(** [Func::as_vmfunction_import] reads the function reference; the others copy
    two pointers. *)
Definition as_vmfunction_import {E} (h : heap) (s : Store) (f : Z) : outcome E VMFunctionImport :=
  p ← pm_index (exported_funcs s) f;
  r ← load_at (A:=VMFuncRef) p h;
  Ok (mkVMFunctionImport (fr_wasm_call r) (fr_array_call r) (fr_vmctx r)).
Definition as_vmtable_import {E} (s : Store) (t : Z) : outcome E VMImport :=
  x ← pm_index (exported_tables s) t; Ok (mkVMImport (ex_definition x) (ex_vmctx x)).
Definition as_vmmemory_import {E} (s : Store) (t : Z) : outcome E VMImport :=
  x ← pm_index (exported_memories s) t; Ok (mkVMImport (ex_definition x) (ex_vmctx x)).
Definition as_vmglobal_import {E} (s : Store) (t : Z) : outcome E VMImport :=
  x ← pm_index (exported_globals s) t; Ok (mkVMImport (ex_definition x) (ex_vmctx x)).

(** ** Exports of an instance ([runtime/instance.rs]) *)
Section Exports.
Context {E : Type} (h : heap) (i : RtInstance).
Abbreviation m := (mo_translated (ri_module i)).
Abbreviation o := (mo_offsets (ri_module i)).

Definition get_func_ref (index : Z) : outcome E (option Z) :=
  if is_reserved_value index then Ok None
  else
    func ← pm_index (functions m) index;
    off ← vmctx_vmfunc_ref o (func_ref func);
    Ok (Some (plus_offset (ri_vmctx i) off)).

Definition get_exported_func (index : Z) : outcome E Z :=
  r ← get_func_ref index;
  p ← unwrap r;
  _ ← assert_ (negb (p =? 0));
  Ok p.

Definition table_ptr (index : Z) : outcome E Z :=
  off ← vmctx_vmtable_definition o index; Ok (plus_offset (ri_vmctx i) off).
Definition memory_ptr (index : Z) : outcome E Z :=
  off ← vmctx_vmmemory_definition o index; Ok (plus_offset (ri_vmctx i) off).
Definition global_ptr (index : Z) : outcome E Z :=
  off ← vmctx_vmglobal_definition o index; Ok (plus_offset (ri_vmctx i) off).

Definition imported_function (index : Z) : outcome E VMFunctionImport :=
  off ← vmctx_vmfunction_import o index; load_at (plus_offset (ri_vmctx i) off) h.
Definition imported_table (index : Z) : outcome E VMImport :=
  off ← vmctx_vmtable_import o index; load_at (plus_offset (ri_vmctx i) off) h.
Definition imported_memory (index : Z) : outcome E VMImport :=
  off ← vmctx_vmmemory_import o index; load_at (plus_offset (ri_vmctx i) off) h.
Definition imported_global (index : Z) : outcome E VMImport :=
  off ← vmctx_vmglobal_import o index; load_at (plus_offset (ri_vmctx i) off) h.

(** Definition and context: the instance's own, or those of the import. *)
Definition home (d : option Z) (own : Z -> outcome E Z) (import : outcome E VMImport) : outcome E (Z * Z) :=
  match d with
  | Some def_index => p ← own def_index; Ok (p, as_mut_ptr (ri_vmctx i))
  | None => x ← import; Ok (vi_from x, vi_vmctx x)
  end.

Definition get_exported_table (index : Z) : outcome E (Exported TableDesc) :=
  d ← defined_table_index m index;
  p ← home d table_ptr (imported_table index);
  t ← pm_index (tables m) index;
  Ok (mkExported p.1 p.2 t).
Definition get_exported_memory (index : Z) : outcome E (Exported MemoryDesc) :=
  d ← defined_memory_index m index;
  p ← home d memory_ptr (imported_memory index);
  t ← pm_index (memories m) index;
  Ok (mkExported p.1 p.2 t).
Definition get_exported_global (index : Z) : outcome E (Exported GlobalDesc) :=
  d ← defined_global_index m index;
  p ← home d global_ptr (imported_global index);
  t ← pm_index (globals m) index;
  Ok (mkExported p.1 p.2 t).

Definition get_export_by_index (index : EntityIndex) : outcome E Export :=
  match index with
  | Ent_Function x => Exp_Function <$> get_exported_func x
  | Ent_Global x => Exp_Global <$> get_exported_global x
  | Ent_Table x => Exp_Table <$> get_exported_table x
  | Ent_Memory x => Exp_Memory <$> get_exported_memory x
  | Ent_Tag _ => Panic
  end.
End Exports.

(** ** [Instance] ([instance.rs]) *)

(** [IndexMap::get_full]: position and value of a key. *)
Fixpoint get_full_from (k : string) (l : list (string * EntityIndex)) (n : Z) : option (Z * EntityIndex) :=
  match l with
  | [] => None
  | (k', v) :: l => if bool_decide (k = k') then Some (n, v) else get_full_from k l (n + 1)
  end.
Definition get_full (k : string) (l : list (string * EntityIndex)) : option (Z * EntityIndex) := get_full_from k l 0.

Definition set_export (i : RtInstance) (n : Z) (e : Extern) : RtInstance :=
  mkInstance (ri_module i) (ri_vmctx i) (ri_tables i) (ri_memories i) (ri_dropped_elems i) (ri_dropped_data i)
    (pm_set (ri_exports i) n (Some e)).

Definition get_export_inner {E} (h : heap) (inst : Z) (entity : EntityIndex) (n : Z) (s : Store) : outcome E (Extern * Store) :=
  data ← pm_index (instances s) inst;
  cached ← pm_index (ri_exports data) n;
  match cached with
  | Some e => Ok (e, s)
  | None =>
      x ← get_export_by_index h data entity;
      let r := from_export x s in
      data ← pm_index (instances r.2) inst;
      Ok (r.1, set_instance inst (set_export data n r.1) r.2)
  end.

Definition get_export {E} (h : heap) (inst : Z) (name : string) (s : Store) : outcome E (option Extern * Store) :=
  data ← pm_index (instances s) inst;
  match get_full name (exports (mo_translated (ri_module data))) with
  | None => Ok (None, s)
  | Some (n, entity) => r ← get_export_inner h inst entity n s; Ok (Some r.1, r.2)
  end.

(** All exports; those not materialised yet are filled in first. *)
Definition instance_exports {E} (h : heap) (inst : Z) (s : Store) : outcome E (list (string * Extern) * Store) :=
  data ← pm_index (instances s) inst;
  let names := exports (mo_translated (ri_module data)) in
  s ← (if existsb (fun e => match e with None => true | Some _ => false end) (ri_exports data) then
         foldM (fun s p => match get_full p.1 names with
                           | Some (n, entity) => r ← get_export_inner h inst entity n s; Ok r.2
                           | None => Ok s
                           end) names s
       else Ok s);
  data ← pm_index (instances s) inst;
  l ← mapO (fun p => v ← unwrap p.2; Ok (p.1.1, v))
        (zip (exports (mo_translated (ri_module data))) (ri_exports data));
  Ok (l, s).

(** ** Instantiation *)
Section Instantiate.
Context {K : Type} `{Kernel K} (alloc : InstanceAllocator K) (strict dbg : bool) (builtins_init : Z).
Abbreviation M := (SM (World K) Error).

(** Dropping what has been allocated. *)
Definition drop_parts (vmctx : OwnedVMContext) (ts : list Table) (ms : list Memory) : SM K Error unit :=
  _ ← sm_for (fun x => mmap_drop (mem_mmap x)) ms;
  _ ← sm_for (fun t => mmap_drop (mv_mmap (tbl_elements t))) ts;
  mmap_drop (mv_mmap vmctx).

(** [runtime::Instance::new_unchecked].  The bytes of the new context are those
    of its vector. *)
Definition instance_new_unchecked (module : ModuleInner) (imports : Imports) : M RtInstance :=
  let m := mo_translated module in
  r ← with_kernel (allocate_module dbg m (mo_offsets module));
  let '(vmctx, ts, ms) := r in
  sm_on_err
    (_ ← with_heap (heap_write (as_mut_ptr vmctx) (Some <$> mv_data vmctx));
     _ ← initialize_vmctx strict dbg builtins_init vmctx ts ms module imports;
     ts ← initialize_tables ts module;
     _ ← initialize_memories ms module;
     mret (mkInstance module vmctx ts ms (active_table_initializers m) (active_memory_initializers m)
             (replicate (length (exports m)) None)))
    (with_kernel (drop_parts vmctx ts ms)).

(** State of the embedder: the world and the store. *)
Definition on_world {A} (m : M A) : SM (World K * Store) Error A := fun s =>
  let r := m s.1 in (r.1, (r.2, s.2)).
Definition on_store {A} (f : Store -> A * Store) : SM (World K * Store) Error A := fun s =>
  let r := f s.2 in (Ok r.1, (s.1, r.2)).

(** [Instance::new_unchecked]. *)
Definition new_unchecked (module : ModuleInner) (imports : Imports) : SM (World K * Store) Error Z :=
  instance ← on_world (instance_new_unchecked module imports);
  on_store (push_instance instance).
End Instantiate.

(** ** [Linker] ([linker.rs]) *)
Record ImportKey : Type := mkImportKey { ik_name : Z; ik_module : Z }.
#[global] Instance ImportKey_eq_dec : EqDecision ImportKey.
Proof. solve_decision. Defined.
#[global] Instance ImportKey_countable : Countable ImportKey.
Proof. refine (inj_countable' (fun k => (ik_name k, ik_module k)) (fun p => mkImportKey p.1 p.2) _). by intros []. Defined.

Record Linker : Type := mkLinker {
  string2idx : gmap string Z;
  strings : list string;
  lk_map : gmap ImportKey Extern }.

Definition linker_new : Linker := mkLinker ∅ [] ∅.

Definition linker_get (l : Linker) (module name : string) : option Extern :=
  m ← string2idx l !! module;
  n ← string2idx l !! name;
  lk_map l !! mkImportKey n m.

Definition intern_str (string : string) (l : Linker) : Z * Linker :=
  match string2idx l !! string with
  | Some idx => (idx, l)
  | None =>
      let idx := pm_len (strings l) in
      (idx, mkLinker (<[string := idx]> (string2idx l)) (strings l ++ [string]) (lk_map l))
  end.

Definition import_key (module : string) (name : option string) (l : Linker) : ImportKey * Linker :=
  let r := intern_str module l in
  match name with
  | Some name => let r' := intern_str name r.2 in (mkImportKey r'.1 r.1, r'.2)
  | None => (mkImportKey USIZE_MAX r.1, r.2)
  end.

(** An occupied entry is an error and leaves the linker as it is. *)
Definition linker_insert (key : ImportKey) (item : Extern) : SM Linker Error unit := fun l =>
  match lk_map l !! key with
  | Some _ =>
      (m ← pm_index (strings l) (ik_module key);
       n ← pm_index (strings l) (ik_name key);
       Err (AlreadyDefined m n), l)
  | None => (Ok tt, mkLinker (string2idx l) (strings l) (<[key := item]> (lk_map l)))
  end.

Definition sm_run {S A} (f : S -> A * S) : SM S Error A := fun s => let r := f s in (Ok r.1, r.2).

(** The order in which a [HashMap] is iterated is not specified: it is a
    parameter. *)
Definition alias_module (iter : gmap ImportKey Extern -> list (ImportKey * Extern)) (module as_module : string)
  : SM Linker Error unit :=
  module ← sm_run (intern_str module);
  as_module ← sm_run (intern_str as_module);
  items ← sm_run (fun l => ((fun p => (ik_name p.1, p.2)) <$> filter (fun p => ik_module p.1 = module) (iter (lk_map l)), l));
  sm_for (fun p => linker_insert (mkImportKey p.1 as_module) p.2) items.

(** The exports are named first (interning the names), then inserted. *)
Fixpoint import_keys (module : string) (exps : list (string * Extern)) (l : Linker) : list (ImportKey * Extern) * Linker :=
  match exps with
  | [] => ([], l)
  | e :: exps =>
      let r := import_key module (Some e.1) l in
      let r' := import_keys module exps r.2 in
      ((r.1, e.2) :: r'.1, r'.2)
  end.

Definition define_exports (module_name : string) (exps : list (string * Extern)) : SM Linker Error unit :=
  keys ← sm_run (import_keys module_name exps);
  sm_for (fun p => linker_insert p.1 p.2) keys.

Definition define_instance (h : heap) (module_name : string) (inst : Z) : SM (Linker * Store) Error unit := fun s =>
  match instance_exports h inst s.2 with
  | Ok (exps, store) => let r := define_exports module_name exps s.1 in (r.1, (r.2, store))
  | Err e => (Err e, s)
  | Panic => (Panic, s)
  end.

(** One import of the loop in [instantiate]. *)
Definition resolve_import (l : Linker) (h : heap) (s : Store) (imports : Imports) (import : Import) : outcome Error Imports :=
  def ← ok_or (linker_get l (imp_module import) (imp_name import))
          (MissingImport (imp_module import) (imp_name import) (imp_ty import));
  match def, imp_ty import with
  | Ext_Func f, EntityType_Function _ =>
      x ← as_vmfunction_import h s f;
      Ok (mkImports (im_functions imports ++ [x]) (im_tables imports) (im_memories imports) (im_globals imports))
  | Ext_Table t, EntityType_Table _ =>
      x ← as_vmtable_import s t;
      Ok (mkImports (im_functions imports) (im_tables imports ++ [x]) (im_memories imports) (im_globals imports))
  | Ext_Memory t, EntityType_Memory _ =>
      x ← as_vmmemory_import s t;
      Ok (mkImports (im_functions imports) (im_tables imports) (im_memories imports ++ [x]) (im_globals imports))
  | Ext_Global t, EntityType_Global _ =>
      x ← as_vmglobal_import s t;
      Ok (mkImports (im_functions imports) (im_tables imports) (im_memories imports) (im_globals imports ++ [x]))
  | _, _ => Panic
  end.

Definition resolve_imports (l : Linker) (h : heap) (s : Store) (imports : list Import) : outcome Error Imports :=
  foldM (resolve_import l h s) imports (mkImports [] [] [] []).

Definition instantiate {K} `{Kernel K} (alloc : InstanceAllocator K) (strict dbg : bool) (builtins_init : Z)
    (l : Linker) (module : ModuleInner) : SM (World K * Store) Error Z := fun s =>
  (imports ← sm_lift (resolve_imports l (w_heap s.1) s.2 (imports (mo_translated module)));
   new_unchecked alloc strict dbg builtins_init module imports) s.
