(* ===== verification/TrapHandling.v ===== *)
(** * Traps and backtraces at run time
      ([src/src/placeholder/trap_handling/mod.rs],
       [src/src/placeholder/trap_handling/backtrace.rs],
       [src/src/placeholder/arch.rs], [src/src/placeholder/signals.rs])

    Every entry into compiled code is an activation: a [CallThreadState] on the
    host's stack, linked into a thread-local list.  A trap, raised by the host or
    by a signal, records its reason and a backtrace in the innermost activation
    and jumps back to where that one was entered.

    The state is the thread's: the head of the list, the activations by their
    address, and memory.  Address [0] is the null pointer.  A computation that
    ends with [Err a] is a [longjmp] in flight to the buffer of activation [a];
    [setjmp] catches it.  Dereferencing null or reading an unwritten [unwind]
    field is undefined behaviour and a [Panic]. *)
From stdpp Require Import base list gmap option numbers.
From S2P Require Import Prelude Types Trap Module VMVal VMOffsets Mmap RtMemory VMHeap BTree Code.
Local Open Scope Z_scope.

(** ** Data *)
Record Frame : Type := mkFrame { fr_pc : Z; fr_fp : Z }.
Definition Backtrace : Type := list Frame.

Inductive TrapReason : Type :=
| Reason_Wasm (trap : Trap.Trap)
| Reason_Jit (pc : Z) (faulting_addr : option Z) (trap : Trap.Trap).

Inductive UnwindReason : Type :=
| Unwind_Trap (reason : TrapReason).

(** [trap_handling::Trap]. *)
Record CaughtTrap : Type := mkCaughtTrap { ti_reason : TrapReason; ti_backtrace : option Backtrace }.

(** The [jmp_buf] is identified with the address of its activation. *)
Record CallThreadState : Type := mkCTS {
  cts_unwind : option (UnwindReason * option Backtrace);
  cts_offsets : StaticVMOffsets;
  cts_vmctx : Z;
  cts_prev : Z;
  old_last_wasm_exit_fp : Z;
  old_last_wasm_exit_pc : Z;
  old_last_wasm_entry_fp : Z }.

Record Thread : Type := mkThread { tls : option Z; states : gmap Z CallThreadState; mem : heap }.

(** ** The architecture ([arch.rs])

    The alignment of frame pointers ([1]: none), the slot of the return address
    above the frame pointer, and the removal of a pointer authentication code. *)
Record Arch : Type := mkArch { fp_alignment : Z; pc_slot : Z; strip_pac : Z -> Z }.
Definition x86_64 : Arch := mkArch 16 1 id.
Definition riscv64 : Arch := mkArch 16 1 id.
Definition s390x : Arch := mkArch 8 14 id.
Definition aarch64 (xpaclri : Z -> Z) : Arch := mkArch 1 1 xpaclri.

Definition NEXT_OLDER_FP_FROM_FP_OFFSET : Z := 0.

Section Arch.
Context {E : Type} (arch : Arch) (h : heap).
(** Reading a [usize] through a raw pointer. *)
Definition read_usize (a : Z) : outcome E Z := _ ← assert_ (negb (a =? 0)); x ← load_at (A:=usize) a h; Ok (usize_value x).
Definition get_next_older_pc_from_fp (fp : Z) : outcome E Z := pc ← read_usize (fp + 8 * pc_slot arch); Ok (strip_pac arch pc).
Definition assert_fp_is_aligned (fp : Z) : outcome E unit := assert_ (fp mod fp_alignment arch =? 0).
End Arch.

(** ** Walking the stack ([backtrace.rs]) *)
Section Trace.
Context {E : Type} (dbg : bool) (arch : Arch) {S : Type} (f : Frame -> S -> bool * S).

(** One frame: the older program counter and frame pointer. *)
Definition next_older (h : heap) (fp : Z) : outcome E (Z * Z) :=
  pc ← get_next_older_pc_from_fp arch h fp;
  _ ← assert_ (NEXT_OLDER_FP_FROM_FP_OFFSET =? 0);
  next_older_fp ← read_usize h (fp + 8 * NEXT_OLDER_FP_FROM_FP_OFFSET);
  _ ← assert_ (fp <? next_older_fp);
  Ok (pc, next_older_fp).

(** The loop of [trace_through_wasm]; [None] is an exhausted fuel, and [false]
    in the result a [ControlFlow::Break]. *)
Fixpoint walk (fuel : nat) (h : heap) (pc fp trampoline_fp : Z) (s : S) : option (outcome E (bool * S)) :=
  match fuel with
  | O => None
  | Datatypes.S fuel =>
      if fp =? trampoline_fp then Some (Ok (true, s))
      else
        match (_ ← assert_ (fp <? trampoline_fp); assert_fp_is_aligned arch fp) with
        | Ok _ =>
            let r := f (mkFrame pc fp) s in
            if r.1 then
              match next_older h fp with
              | Ok (pc, fp) => walk fuel h pc fp trampoline_fp r.2
              | Err e => Some (Err e)
              | Panic => Some Panic
              end
            else Some (Ok (false, r.2))
        | Err e => Some (Err e)
        | Panic => Some Panic
        end
  end.
(** The frame pointers increase, so their distance bounds the iterations. *)
Definition walk_fuel (fp trampoline_fp : Z) : nat := Datatypes.S (Z.to_nat (trampoline_fp - fp)).

Definition trace_through_wasm (h : heap) (pc fp trampoline_fp : Z) (s : S) : outcome E (bool * S) :=
  _ ← assert_ (negb (pc =? 0));
  _ ← assert_ (negb (fp =? 0));
  _ ← assert_ (negb (trampoline_fp =? 0));
  default Panic (walk (walk_fuel fp trampoline_fp) h pc fp trampoline_fp s).

(** [CallThreadState::iter] from an address on: the list is as long as there are
    activations, at most. *)
Fixpoint iter_states (fuel : nat) (sts : gmap Z CallThreadState) (a : Z) : outcome E (list CallThreadState) :=
  if a =? 0 then Ok []
  else
    match fuel with
    | O => Panic
    | Datatypes.S fuel => this ← unwrap (sts !! a); rest ← iter_states fuel sts (cts_prev this); Ok (this :: rest)
    end.

(** The context's record of the last exit from and entry into wasm. *)
Definition vmctx_field (h : heap) (vmctx : Z) (o : outcome E Z) : outcome E Z := o ← o; read_usize h (vmctx + o).

(** Activations end where the program counter is zero. *)
Fixpoint trace_activations (h : heap) (l : list (Z * Z * Z)) (s : S) : outcome E S :=
  match l with
  | [] => Ok s
  | (pc, fp, sp) :: l =>
      if pc =? 0 then
        _ ← debug_assert dbg (fp =? 0);
        _ ← debug_assert dbg (sp =? 0);
        Ok s
      else
        r ← trace_through_wasm h pc fp sp s;
        if r.1 : bool then trace_activations h l r.2 else Ok r.2
  end.

Definition trace_with_trap_state (t : Thread) (state : Z) (trap_pc_and_fp : option (Z * Z)) (s : S) : outcome E S :=
  this ← unwrap (states t !! state);
  let field o := vmctx_field (mem t) (cts_vmctx this) o in
  last_wasm_exit ← match trap_pc_and_fp with
                   | Some p => Ok p
                   | None =>
                       pc ← field (vmctx_last_wasm_exit_pc (cts_offsets this));
                       fp ← field (vmctx_last_wasm_entry_fp (cts_offsets this));
                       Ok (pc, fp)
                   end;
  last_wasm_entry_fp ← field (vmctx_last_wasm_entry_fp (cts_offsets this));
  older ← iter_states (size (states t)) (states t) state;
  trace_activations (mem t)
    ((last_wasm_exit.1, last_wasm_exit.2, last_wasm_entry_fp) ::
     ((fun c => (old_last_wasm_exit_pc c, old_last_wasm_exit_fp c, old_last_wasm_entry_fp c)) <$> older)) s.
End Trace.

Definition push_frame (frame : Frame) (frames : Backtrace) : bool * Backtrace := (true, frames ++ [frame]).
Definition new_with_trap_state {E} (dbg : bool) (arch : Arch) (t : Thread) (state : Z) (trap_pc_and_fp : option (Z * Z)) : outcome E Backtrace :=
  trace_with_trap_state dbg arch push_frame t state trap_pc_and_fp [].

(** ** Activations ([trap_handling/mod.rs]) *)
Section Activations.
(** Where the compiler places a local variable: an address not in use. *)
Context (dbg : bool) (arch : Arch) (place : gset Z -> Z).
Abbreviation M := (SM Thread Z).

Definition deref (a : Z) : M CallThreadState := fun t => (unwrap (states t !! a), t).
Definition set_state (a : Z) (c : CallThreadState) : M unit := fun t => (Ok tt, mkThread (tls t) (<[a := c]> (states t)) (mem t)).
(** A local variable comes into and goes out of existence. *)
Definition add_state (c : CallThreadState) : M Z := fun t =>
  let a := place (dom (states t)) in (Ok a, mkThread (tls t) (<[a := c]> (states t)) (mem t)).
Definition remove_state (a : Z) : M unit := fun t => (Ok tt, mkThread (tls t) (delete a (states t)) (mem t)).
(** [Cell::replace] on the thread-local. *)
Definition tls_replace (x : option Z) : M (option Z) := fun t => (Ok (tls t), mkThread x (states t) (mem t)).
Definition reading {A} (f : Thread -> outcome Z A) : M A := fun t => (f t, t).
Definition write_usize (a x : Z) : M unit := fun t => (Ok tt, mkThread (tls t) (states t) (store_at a (mkUsize x) (mem t))).

Definition cts_new (vmctx : Z) (vmoffsets : StaticVMOffsets) : M CallThreadState :=
  exit_fp ← reading (fun t => vmctx_field (mem t) vmctx (vmctx_last_wasm_exit_fp vmoffsets));
  exit_pc ← reading (fun t => vmctx_field (mem t) vmctx (vmctx_last_wasm_exit_pc vmoffsets));
  entry_fp ← reading (fun t => vmctx_field (mem t) vmctx (vmctx_last_wasm_entry_fp vmoffsets));
  mret (mkCTS None vmoffsets vmctx 0 exit_fp exit_pc entry_fp).

Definition set_prev (p : Z) (c : CallThreadState) : CallThreadState :=
  mkCTS (cts_unwind c) (cts_offsets c) (cts_vmctx c) p (old_last_wasm_exit_fp c) (old_last_wasm_exit_pc c) (old_last_wasm_entry_fp c).
Definition set_unwind (u : UnwindReason * option Backtrace) (c : CallThreadState) : CallThreadState :=
  mkCTS (Some u) (cts_offsets c) (cts_vmctx c) (cts_prev c) (old_last_wasm_exit_fp c) (old_last_wasm_exit_pc c) (old_last_wasm_entry_fp c).

Definition push (self : Z) : M unit :=
  c ← deref self;
  _ ← sm_lift (assert_ (cts_prev c =? 0));
  old ← tls_replace (Some self);
  set_state self (set_prev (default 0 old) c).
Definition pop (self : Z) : M unit :=
  c ← deref self;
  _ ← set_state self (set_prev 0 c);
  head ← tls_replace (Some (cts_prev c));
  sm_lift (assert_ (default 0 head =? self)).

Definition read_unwind (self : Z) : M (UnwindReason * option Backtrace) := c ← deref self; sm_lift (unwrap (cts_unwind c)).

(** [Drop for CallThreadState]: the context's fields are restored. *)
Definition cts_drop (self : Z) : M unit :=
  c ← deref self;
  let restore o x := o ← sm_lift o; write_usize (cts_vmctx c + o) x in
  _ ← restore (vmctx_last_wasm_exit_fp (cts_offsets c)) (old_last_wasm_exit_fp c);
  _ ← restore (vmctx_last_wasm_exit_pc (cts_offsets c)) (old_last_wasm_exit_pc c);
  _ ← restore (vmctx_last_wasm_entry_fp (cts_offsets c)) (old_last_wasm_entry_fp c);
  remove_state self.

(** [with] owns the activation; [None] is [Ok(())]. *)
Definition with_ (self : CallThreadState) (closure : Z -> M Z) : M (option (UnwindReason * option Backtrace)) :=
  a ← add_state self;
  _ ← push a;
  ret ← closure a;
  _ ← pop a;
  r ← (if ret =? 0 then mret None else u ← read_unwind a; mret (Some u));
  _ ← cts_drop a;
  mret r.

(** [setjmp] returns again, with [1], when the buffer is jumped to. *)
Definition setjmp (buf : Z) (body : M unit) : M Z := fun t =>
  match body t with
  | (Ok _, t) => (Ok 0, t)
  | (Err target, t) => if target =? buf then (Ok 1, t) else (Err target, t)
  | (Panic, t) => (Panic, t)
  end.
Definition longjmp {A} (buf : Z) : M A := sm_lift (Err buf).

Definition unwind_with {A} (self : Z) (reason : UnwindReason) : M A :=
  backtrace ← match reason with
              | Unwind_Trap _ => b ← reading (fun t => new_with_trap_state dbg arch t self None); mret (Some b)
              end;
  c ← deref self;
  _ ← set_state self (set_unwind (reason, backtrace) c);
  longjmp self.

Definition set_jit_trap (self pc fp : Z) (faulting_addr : option Z) (trap : Trap.Trap) : M unit :=
  b ← reading (fun t => new_with_trap_state dbg arch t self (Some (pc, fp)));
  c ← deref self;
  set_state self (set_unwind (Unwind_Trap (Reason_Jit pc faulting_addr trap), Some b) c).

Definition raise_trap {A} (reason : TrapReason) : M A :=
  head ← reading (fun t => unwrap (tls t));
  unwind_with head (Unwind_Trap reason).

Definition catch_traps (caller : Z) (vmctx_plan : StaticVMOffsets) (closure : Z -> M unit) : M (option CaughtTrap) :=
  state ← cts_new caller vmctx_plan;
  result ← with_ state (fun a => setjmp a (closure caller));
  match result with
  | None => mret None
  | Some (Unwind_Trap reason, backtrace) => mret (Some (mkCaughtTrap reason backtrace))
  end.

(** ** Signals ([signals.rs]) *)
Inductive Signal : Type := SIGSEGV | SIGBUS | SIGFPE | SIGILL | OtherSignal (n : Z).

(** The part of [trap_handler] that handles traps, in a thread interrupted at [pc] with frame pointer [fp]:
    [false] when the previous handler is called. *)
Definition trap_handler (reg : GlobalRegistry) (signum : Signal) (si_addr pc fp : Z) : M bool :=
  _ ← sm_lift (match signum with OtherSignal _ => Panic | _ => Ok tt end);
  head ← reading (fun t => Ok (tls t));
  match head with
  | None => mret false
  | Some info =>
      _ ← deref info;
      let faulting_addr := match signum with SIGSEGV | SIGBUS => Some si_addr | _ => None end in
      match lookup_code reg pc with
      | None => mret false
      | Some (code, text_offset) =>
          trap ← sm_lift (lookup_trap_code code text_offset);
          match trap with
          | None => mret false
          | Some trap =>
              _ ← set_jit_trap info pc fp faulting_addr trap;
              longjmp info
          end
      end
  end.
End Activations.

(** *** Installing and chaining handlers

    [sigaction] with its flag [SA_SIGINFO] and its handler; the process has one
    per signal, and the crate remembers the one it replaced. *)
#[global] Instance Signal_eq_dec : EqDecision Signal.
Proof. solve_decision. Defined.
Record sigaction : Type := mkSigaction { sa_siginfo : bool; sa_sigaction : Z }.
Definition SIG_DFL : Z := 0.
Definition SIG_IGN : Z := 1.
Record Signals : Type := mkSignals {
  registered : bool;
  installed : Signal -> sigaction;
  previous : Signal -> option sigaction }.
Definition update {A} (f : Signal -> A) (k : Signal) (a : A) : Signal -> A := fun x => if decide (x = k) then a else f x.

Section Handlers.
(** The address of [trap_handler], the target, and the signals for which the
    kernel accepts a handler. *)
Context (trap_handler_ptr : Z) (x86_or_s390x macos_or_freebsd : bool) (accepts : Signal -> bool).

Definition foreach_handler : list Signal :=
  [SIGSEGV; SIGILL] ++ (if x86_or_s390x then [SIGFPE] else []) ++ (if macos_or_freebsd then [SIGBUS] else []).
Definition install (s : Signals) (signal : Signal) : outcome unit Signals :=
  _ ← assert_ (accepts signal);
  Ok (mkSignals (registered s) (update (installed s) signal (mkSigaction true trap_handler_ptr))
        (update (previous s) signal (Some (installed s signal)))).
Definition ensure_signal_handlers_are_registered (s : Signals) : outcome unit Signals :=
  if registered s then Ok s
  else s ← foldM install foreach_handler s; Ok (mkSignals true (installed s) (previous s)).

(** The end of [trap_handler]: what becomes of a signal that was no trap. *)
Inductive Forwarded : Type :=
| Called_siginfo (handler : Z)
| Reinstalled
| Called (handler : Z).
Definition forward (s : Signals) (signum : Signal) : outcome unit (Forwarded * Signals) :=
  prev ← unwrap (previous s signum);
  if sa_siginfo prev then Ok (Called_siginfo (sa_sigaction prev), s)
  else if (sa_sigaction prev =? SIG_DFL) || (sa_sigaction prev =? SIG_IGN) then
    Ok (Reinstalled, mkSignals (registered s) (update (installed s) signum prev) (previous s))
  else Ok (Called (sa_sigaction prev), s).
End Handlers.
