(* ===== verification/TrapHandlingSpec.v ===== *)
(** * Traps and backtraces: theorems

    The frame walk terminates and finds the frames that calls have laid out; a
    backtrace is the frames of all activations.  Activations are entered and left
    in the order of a stack: a trap always reaches the innermost activation, and
    [catch_traps] leaves the thread as it found it. *)
From stdpp Require Import base list gmap option numbers.
From S2P Require Import Prelude Types Trap Module VMVal VMOffsets Mmap RtMemory VMHeap BTree Code TrapHandling.
Local Open Scope Z_scope.

(** ** The frame walk *)
Section Walk.
Context {E : Type} (dbg : bool) (arch : Arch).

Lemma next_older_increases h fp pc' fp' : next_older (E:=E) arch h fp = Ok (pc', fp') -> fp < fp'.
Proof.
  intros (pc & _ & ([] & _ & (x & _ & ([] & H & [= -> ->])%bind_ok)%bind_ok)%bind_ok)%bind_ok.
  by apply assert_ok, Z.ltb_lt in H.
Qed.
Lemma walk_some {S} (f : Frame -> S -> bool * S) h fuel pc fp tr s : (Z.to_nat (tr - fp) < fuel)%nat -> is_Some (walk (E:=E) arch f fuel h pc fp tr s).
Proof.
  revert pc fp s. induction fuel as [|fuel IH]; intros pc fp s Hf; [lia|]. cbn [walk]. destruct (Z.eqb_spec fp tr) as [->|Hne]; [by eexists|].
  destruct (Z.ltb_spec fp tr) as [Hlt|]; cbn; [|by eexists]. destruct (assert_fp_is_aligned arch fp); [|by eexists..].
  destruct (f (mkFrame pc fp) s).1; [|by eexists]. destruct (next_older arch h fp) as [[pc' fp']|e|] eqn:Hn; [|by eexists..].
  apply next_older_increases in Hn. apply IH. lia.
Qed.

(** A run of wasm frames, the innermost first: each points to the next older one,
    the oldest to the trampoline's frame. *)
Definition next_fp (frames : list Frame) (tr : Z) : Z := match frames with [] => tr | f :: _ => fr_fp f end.
Fixpoint stack_of (h : heap) (frames : list Frame) (tr : Z) : Prop :=
  match frames with
  | [] => True
  | f :: older =>
      0 < fr_fp f < next_fp older tr /\ fr_fp f mod fp_alignment arch = 0 /\
      read_usize (E:=E) h (fr_fp f) = Ok (next_fp older tr) /\
      (exists ret, read_usize (E:=E) h (fr_fp f + 8 * pc_slot arch) = Ok ret /\
        match older with [] => True | g :: _ => fr_pc g = strip_pac arch ret end) /\
      stack_of h older tr
  end.
Lemma stack_below h frames tr : stack_of h frames tr -> next_fp frames tr <= tr.
Proof.
  induction frames as [|f older IH]; cbn; [lia|]. intros (Hlt & _ & _ & _ & Ho). specialize (IH Ho). lia.
Qed.
Lemma walk_stack h frames tr pc s : stack_of h frames tr -> match frames with [] => True | f :: _ => fr_pc f = pc end ->
  walk (E:=E) arch push_frame (walk_fuel (next_fp frames tr) tr) h pc (next_fp frames tr) tr s = Some (Ok (true, s ++ frames)).
Proof.
  intros Hs Hpc. assert (forall fuel pc s, (Z.to_nat (tr - next_fp frames tr) < fuel)%nat -> match frames with [] => True | f :: _ => fr_pc f = pc end ->
    walk (E:=E) arch push_frame fuel h pc (next_fp frames tr) tr s = Some (Ok (true, s ++ frames))) as G; [|apply G; [unfold walk_fuel; lia|done]].
  clear s pc Hpc. induction frames as [|[fpc ffp] older IH]; intros fuel pc s Hf Hpc; cbn [next_fp fr_fp fr_pc] in *.
  - destruct fuel; [lia|]. cbn [walk]. by rewrite Z.eqb_refl, app_nil_r.
  - subst fpc. destruct Hs as (Hlt & Hal & Hfp & (ret & Hret & Hpc) & Ho). cbn [fr_fp fr_pc] in *. pose proof (stack_below _ _ _ Ho).
    destruct fuel as [|fuel]; [lia|]. cbn [walk]. rewrite (proj2 (Z.eqb_neq _ _)) by lia. rewrite (proj2 (Z.ltb_lt ffp tr)) by lia. cbn.
    unfold assert_fp_is_aligned. rewrite Hal. cbn. unfold next_older, get_next_older_pc_from_fp, NEXT_OLDER_FP_FROM_FP_OFFSET.
    rewrite Hret. cbn. rewrite Z.add_0_r, Hfp. cbn. rewrite (proj2 (Z.ltb_lt _ _)) by lia. cbn.
    rewrite IH; [by rewrite <- app_assoc|done|lia|]. by destruct older.
Qed.

(** One activation: where wasm was left, and the frame of the trampoline that
    entered it. *)
Definition activation_of (h : heap) (a : Z * Z * Z) (frames : list Frame) : Prop :=
  a.1.1 <> 0 /\ a.1.2 <> 0 /\ a.2 <> 0 /\ stack_of h frames a.2 /\ a.1.2 = next_fp frames a.2 /\
  match frames with [] => True | f :: _ => fr_pc f = a.1.1 end.
Lemma trace_activation h a frames s : activation_of h a frames ->
  trace_through_wasm (E:=E) arch push_frame h a.1.1 a.1.2 a.2 s = Ok (true, s ++ frames).
Proof.
  destruct a as [[pc fp] sp]. intros (H1 & H2 & H3 & Hs & Hfp & Hpc). cbn [fst snd] in *. unfold trace_through_wasm.
  rewrite (proj2 (Z.eqb_neq pc 0)), (proj2 (Z.eqb_neq fp 0)), (proj2 (Z.eqb_neq sp 0)) by done.
  cbn [negb assert_ mbind outcome_bind]. by rewrite Hfp, walk_stack.
Qed.
(** Activations, and one that has never left wasm or the end of the list. *)
Lemma trace_all h acts framess rest s : Forall2 (activation_of h) acts framess -> rest = [] \/ (exists l, rest = (0, 0, 0) :: l) ->
  trace_activations (E:=E) dbg arch push_frame h (acts ++ rest) s = Ok (s ++ concat framess).
Proof.
  intros Hf Hr. revert s. induction Hf as [|a frames acts framess Ha Hf IH]; intros s; cbn [app trace_activations].
  - cbn. rewrite app_nil_r. destruct Hr as [->|[l ->]]; [done|]. cbn. by rewrite !debug_assert_true.
  - destruct a as [[pc fp] sp]. destruct (Ha) as (H1 & _). cbn [fst] in H1. rewrite (proj2 (Z.eqb_neq pc 0)) by done.
    pose proof (trace_activation _ _ _ s Ha) as Ht. cbn [fst snd] in Ht. rewrite Ht. cbn. rewrite IH. by rewrite app_assoc.
Qed.
End Walk.

(** ** The list of activations *)
Fixpoint linked (sts : gmap Z CallThreadState) (a : Z) (l : list Z) : Prop :=
  match l with
  | [] => a = 0
  | x :: l => a = x /\ x <> 0 /\ exists c, sts !! x = Some c /\ linked sts (cts_prev c) l
  end.
(** The activations of a thread, the innermost first. *)
Record thread_ok (t : Thread) (l : list Z) : Prop := {
  to_linked : linked (states t) (default 0 (tls t)) l;
  to_nodup : NoDup l }.
Definition kept (t t' : Thread) (l : list Z) : Prop := forall x, x ∈ l -> states t' !! x = states t !! x.

Lemma linked_kept sts sts' a l : linked sts a l -> (forall x, x ∈ l -> sts' !! x = sts !! x) -> linked sts' a l.
Proof.
  revert a. induction l as [|x l IH]; cbn; intros a; [done|]. intros (-> & Hx & c & Hc & Hl) Hk. split; [done|]. split; [done|].
  exists c. rewrite Hk by left. split; [done|]. apply IH; [done|]. intros y Hy. apply Hk. by right.
Qed.
Lemma linked_known sts a l x : linked sts a l -> x ∈ l -> is_Some (sts !! x).
Proof.
  revert a. induction l as [|y l IH]; intros a; [by intros _ ?%not_elem_of_nil|]. intros (-> & _ & c & Hc & Hl) [->|Hx]%elem_of_cons; [by eexists|by eapply IH].
Qed.
Lemma linked_iter {E} sts a l fuel : linked sts a l -> (length l <= fuel)%nat ->
  exists cs, iter_states (E:=E) fuel sts a = Ok cs /\ Forall2 (fun x c => sts !! x = Some c) l cs.
Proof.
  revert a fuel. induction l as [|x l IH]; intros a fuel; cbn [linked].
  - intros -> _. exists []. by destruct fuel.
  - intros (-> & Hx & c & Hc & Hl) Hf. destruct fuel as [|fuel]; cbn in Hf; [lia|]. destruct (IH (cts_prev c) fuel Hl) as (cs & Hcs & Hf2); [lia|].
    exists (c :: cs). cbn [iter_states]. rewrite (proj2 (Z.eqb_neq x 0)), Hc by done. cbn. rewrite Hcs. cbn. split; [done|]. by constructor.
Qed.
Lemma linked_size sts a l : linked sts a l -> NoDup l -> (length l <= size sts)%nat.
Proof.
  intros Hl Hn. rewrite <- size_dom. rewrite <- (size_list_to_set (C:=gset Z) l) by done. apply subseteq_size.
  intros x Hx%elem_of_list_to_set. apply elem_of_dom. by eapply linked_known.
Qed.

(** *** Backtraces *)
Definition old_activation (c : CallThreadState) : Z * Z * Z := (old_last_wasm_exit_pc c, old_last_wasm_exit_fp c, old_last_wasm_entry_fp c).
Section Backtraces.
Context {E : Type} (dbg : bool) (arch : Arch).
Abbreviation at_entry t c := (vmctx_field (E:=E) (mem t) (cts_vmctx c) (vmctx_last_wasm_entry_fp (cts_offsets c))).

Lemma trace_state t state l c p entry : thread_ok t (state :: l) -> states t !! state = Some c -> at_entry t c = Ok entry ->
  exists cs, Forall2 (fun x c => states t !! x = Some c) l cs /\
    new_with_trap_state (E:=E) dbg arch t state (Some p) = trace_activations dbg arch push_frame (mem t) ((p, entry) :: (old_activation <$> c :: cs)) [].
Proof.
  intros [(Ha & Hn & c' & Hc' & Hl) Hnd] Hc He. assert (c' = c) as -> by congruence.
  destruct (linked_iter (E:=E) (states t) state (state :: l) (size (states t))) as (cs & Hcs & Hf).
  { split; [done|]. split; [done|]. by exists c. }
  { apply (linked_size _ (default 0 (tls t))); [|done]. split; [done|]. split; [done|]. by exists c. }
  apply Forall2_cons_inv_l in Hf as (c' & tl & Hc'' & Hf & ->). assert (c' = c) as -> by congruence. exists tl. split; [done|].
  unfold new_with_trap_state, trace_with_trap_state. rewrite Hc. cbn [unwrap mbind outcome_bind]. rewrite He. cbn [mbind outcome_bind]. rewrite Hcs.
  by destruct p.
Qed.
(** A trap raised by the host finds the innermost activation without its frames:
    the walk starts at the trampoline's own frame. *)
Lemma host_trap_frames t state c pc entry : states t !! state = Some c -> at_entry t c = Ok entry ->
  vmctx_field (E:=E) (mem t) (cts_vmctx c) (vmctx_last_wasm_exit_pc (cts_offsets c)) = Ok pc ->
  new_with_trap_state (E:=E) dbg arch t state None = new_with_trap_state (E:=E) dbg arch t state (Some (pc, entry)).
Proof.
  intros Hc He Hp. unfold new_with_trap_state, trace_with_trap_state. rewrite Hc. cbn [unwrap mbind outcome_bind]. rewrite Hp, He. done.
Qed.
End Backtraces.

(** ** Reading memory fails only by panicking *)
Definition no_err {E A} (x : outcome E A) : Prop := forall e, x <> Err e.
Create HintDb no_err.
Section NoErr.
Context {E : Type}.
Lemma no_err_ok {A} (a : A) : no_err (E:=E) (Ok a).
Proof. done. Qed.
Lemma no_err_panic {A} : no_err (E:=E) (A:=A) Panic.
Proof. done. Qed.
Lemma no_err_bind {A B} (x : outcome E A) (k : A -> outcome E B) : no_err x -> (forall a, no_err (k a)) -> no_err (x ≫= k).
Proof. intros Hx Hk. destruct x; cbn; [apply Hk|by edestruct Hx|done]. Qed.
Lemma no_err_assert b : no_err (E:=E) (assert_ b).
Proof. by destruct b. Qed.
Lemma no_err_debug_assert d b : no_err (E:=E) (debug_assert d b).
Proof. unfold debug_assert. by destruct d, b. Qed.
Lemma no_err_unwrap {A} (o : option A) : no_err (E:=E) (unwrap o).
Proof. by destruct o. Qed.
Lemma no_err_fmap {A B} (f : A -> B) (x : outcome E A) : no_err x -> no_err (f <$> x).
Proof. intros Hx. destruct x; cbn; [done|by edestruct Hx|done]. Qed.
Lemma no_err_add w x y : no_err (E:=E) (add w x y).
Proof. unfold add, ofits. by case_match. Qed.
End NoErr.
#[export] Hint Resolve no_err_ok no_err_panic no_err_bind no_err_assert no_err_debug_assert no_err_unwrap no_err_fmap no_err_add : no_err.

Section TraceNoErr.
Context {E : Type} (dbg : bool) (arch : Arch).
Lemma no_err_read h a : no_err (read_usize (E:=E) h a).
Proof. unfold read_usize, load_at. cbn. unfold get_word, read_le. auto 10 with no_err. Qed.
Hint Resolve no_err_read : no_err.
Lemma no_err_field h v o : no_err o -> no_err (vmctx_field (E:=E) h v o).
Proof. unfold vmctx_field. auto with no_err. Qed.
Lemma no_err_exit_fp s : no_err (vmctx_last_wasm_exit_fp (E:=E) s).
Proof. unfold vmctx_last_wasm_exit_fp, vmctx_stack_limit, vmctx_type_ids, vmctx_builtin_functions, vmctx_magic. auto 10 with no_err. Qed.
Lemma no_err_exit_pc s : no_err (vmctx_last_wasm_exit_pc (E:=E) s).
Proof. unfold vmctx_last_wasm_exit_pc. auto using no_err_exit_fp with no_err. Qed.
Lemma no_err_entry_fp s : no_err (vmctx_last_wasm_entry_fp (E:=E) s).
Proof. unfold vmctx_last_wasm_entry_fp. auto using no_err_exit_pc with no_err. Qed.
Hint Resolve no_err_field no_err_exit_fp no_err_exit_pc no_err_entry_fp : no_err.
Lemma no_err_next h fp : no_err (next_older (E:=E) arch h fp).
Proof. unfold next_older, get_next_older_pc_from_fp. auto 10 with no_err. Qed.
Lemma no_err_walk {S} (f : Frame -> S -> bool * S) fuel h pc fp tr s r : walk (E:=E) arch f fuel h pc fp tr s = Some r -> no_err r.
Proof.
  revert pc fp s. induction fuel as [|fuel IH]; intros pc fp s; cbn [walk]; [done|]. destruct (fp =? tr); [intros [= <-]; auto with no_err|].
  assert (no_err (E:=E) (_ ← assert_ (fp <? tr); assert_fp_is_aligned arch fp)) as Hc by (unfold assert_fp_is_aligned; auto with no_err).
  destruct (_ ← assert_ (fp <? tr); assert_fp_is_aligned arch fp); [|by edestruct Hc|intros [= <-]; auto with no_err].
  destruct (f (mkFrame pc fp) s).1; [|intros [= <-]; auto with no_err]. pose proof (no_err_next h fp) as Hn.
  destruct (next_older arch h fp) as [[pc' fp']| |]; [apply IH|by edestruct Hn|intros [= <-]; auto with no_err].
Qed.
Lemma no_err_trace {S} (f : Frame -> S -> bool * S) h pc fp tr s : no_err (trace_through_wasm (E:=E) arch f h pc fp tr s).
Proof.
  unfold trace_through_wasm. repeat (apply no_err_bind; [auto with no_err|intros []]).
  destruct (walk_some (E:=E) arch f h (walk_fuel fp tr) pc fp tr s) as [r Hr]; [unfold walk_fuel; lia|]. rewrite Hr. by eapply no_err_walk.
Qed.
Lemma no_err_iter fuel sts a : no_err (iter_states (E:=E) fuel sts a).
Proof. revert a. induction fuel as [|fuel IH]; intros a; cbn [iter_states]; destruct (a =? 0); auto 10 with no_err. Qed.
Lemma no_err_activations {S} (f : Frame -> S -> bool * S) h l s : no_err (trace_activations (E:=E) dbg arch f h l s).
Proof.
  revert s. induction l as [|[[pc fp] sp] l IH]; intros s; cbn [trace_activations]; [auto with no_err|]. destruct (pc =? 0); [auto with no_err|].
  apply no_err_bind; [apply no_err_trace|]. intros [[] s']; cbn [fst snd]; [apply IH|auto with no_err].
Qed.
Lemma no_err_backtrace t state p : no_err (new_with_trap_state (E:=E) dbg arch t state p).
Proof.
  unfold new_with_trap_state, trace_with_trap_state. apply no_err_bind; [auto with no_err|]. intros c. apply no_err_bind; [destruct p; auto 10 with no_err|].
  intros last. apply no_err_bind; [auto with no_err|]. intros entry. apply no_err_bind; [apply no_err_iter|]. intros older. apply no_err_activations.
Qed.
End TraceNoErr.
#[export] Hint Resolve no_err_read no_err_field no_err_exit_fp no_err_exit_pc no_err_entry_fp no_err_backtrace : no_err.

(** ** Activations form a stack *)

(** A computation that leaves the activations alone, or jumps to the innermost
    one with its [unwind] field written. *)
Definition settled {A} (t : Thread) (r : outcome Z A * Thread) : Prop :=
  match r with
  | (Ok _, t') => default 0 (tls t') = default 0 (tls t) /\ states t' = states t
  | (Err j, t') => default 0 (tls t') = default 0 (tls t) /\ j = default 0 (tls t) /\
      exists c u, states t !! j = Some c /\ states t' = <[j := set_unwind u c]> (states t)
  | (Panic, _) => True
  end.
Definition respects {A} (m : SM Thread Z A) : Prop := forall t, settled t (m t).
Section Respects.
Context (dbg : bool) (arch : Arch).
Lemma respects_ret {A} (a : A) : respects (mret a).
Proof. by intros t. Qed.
Lemma respects_bind {A B} (m : SM Thread Z A) (k : A -> SM Thread Z B) : respects m -> (forall a, respects (k a)) -> respects (m ≫= k).
Proof.
  intros Hm Hk t. unfold mbind, sm_bind. specialize (Hm t). destruct (m t) as [[a|j|] t1]; [|done..].
  destruct Hm as [Ht Hs]. specialize (Hk a t1). unfold settled in *. by rewrite Ht, Hs in Hk.
Qed.
Lemma respects_reading {A} (f : Thread -> outcome Z A) : (forall t, no_err (f t)) -> respects (reading f).
Proof. intros Hf t. unfold reading. specialize (Hf t). destruct (f t); [done|by edestruct Hf|done]. Qed.
Lemma respects_lift {A} (o : outcome Z A) : no_err o -> respects (sm_lift o).
Proof. intros Hf. by apply (respects_reading (fun _ => o)). Qed.

Lemma raise_trap_respects {A} reason : respects (raise_trap (A:=A) dbg arch reason).
Proof.
  intros t. unfold raise_trap, mbind, sm_bind, reading at 1. destruct (tls t) as [head|] eqn:Ht; [|done]. cbn [unwrap].
  unfold unwind_with, mbind, sm_bind, reading. pose proof (no_err_backtrace (E:=Z) dbg arch t head None) as Hn.
  destruct (new_with_trap_state dbg arch t head None) as [b|e|]; [|by edestruct Hn|done]. cbn [mret sm_ret].
  unfold deref. destruct (states t !! head) as [c|] eqn:Hc; cbn; [|done]. rewrite Ht. repeat (split; [done|]). by eauto.
Qed.
Lemma trap_handler_respects reg signum si_addr pc fp : respects (trap_handler dbg arch reg signum si_addr pc fp).
Proof.
  apply respects_bind; [apply respects_lift; by destruct signum|]. intros _ t. unfold mbind at 1, sm_bind, reading at 1.
  destruct (tls t) as [head|] eqn:Ht; [|done]. unfold mbind at 1, sm_bind, deref. destruct (states t !! head) as [c|] eqn:Hc; cbn [unwrap]; [|done].
  destruct (lookup_code reg pc) as [[code off]|]; [|done]. unfold mbind at 1, sm_bind, sm_lift.
  assert (no_err (E:=Z) (lookup_trap_code code off)) as Hn by (unfold lookup_trap_code, pm_index; apply no_err_bind; [auto with no_err|intros; case_match; auto with no_err]).
  destruct (lookup_trap_code code off) as [[trap|]|e|]; [|done|by edestruct Hn|done].
  unfold set_jit_trap, mbind, sm_bind, reading. pose proof (no_err_backtrace (E:=Z) dbg arch t head (Some (pc, fp))) as Hn'.
  destruct (new_with_trap_state dbg arch t head (Some (pc, fp))) as [b|e|]; [|by edestruct Hn'|done].
  unfold deref. rewrite Hc. cbn. rewrite Ht. repeat (split; [done|]). by eauto.
Qed.
End Respects.

(** ** [catch_traps] *)
Section Catch.
Context (dbg : bool) (arch : Arch) (place : gset Z -> Z).
(** A local variable lives at an address of its own. *)
Definition place_fresh : Prop := forall X, place X ∉ X /\ place X <> 0.
Context (place_ok : place_fresh).

(** The thread inside and after an activation [c] entered from [t]. *)
Definition new_activation (t : Thread) : Z := place (dom (states t)).
Definition entered (t : Thread) (c : CallThreadState) : Thread :=
  mkThread (Some (new_activation t)) (<[new_activation t := set_prev (default 0 (tls t)) c]> (states t)) (mem t).
Definition with_fields (c : CallThreadState) (h : heap) : heap :=
  store_at (cts_vmctx c + 48) (mkUsize (old_last_wasm_entry_fp c))
    (store_at (cts_vmctx c + 40) (mkUsize (old_last_wasm_exit_pc c))
       (store_at (cts_vmctx c + 32) (mkUsize (old_last_wasm_exit_fp c)) h)).
Definition left_behind (t : Thread) (c : CallThreadState) (t1 : Thread) : Thread :=
  mkThread (Some (default 0 (tls t))) (states t) (with_fields c (mem t1)).

Lemma entered_fresh t : states t !! new_activation t = None.
Proof. apply not_elem_of_dom, place_ok. Qed.

(** What the activation at an address says about the trap that ended it. *)
Definition trap_info (t : Thread) (a : Z) : option CaughtTrap :=
  c ← states t !! a; u ← cts_unwind c; let '(Unwind_Trap reason, b) := u in Some (mkCaughtTrap reason b).

Lemma header_offsets {E} plan : ptr_size plan = 8 ->
  vmctx_last_wasm_exit_fp (E:=E) plan = Ok 32 /\ vmctx_last_wasm_exit_pc (E:=E) plan = Ok 40 /\ vmctx_last_wasm_entry_fp (E:=E) plan = Ok 48.
Proof. destruct plan as [p]; cbn; intros ->. by vm_compute. Qed.

Lemma cts_drop_run a c t : ptr_size (cts_offsets c) = 8 -> states t !! a = Some c ->
  cts_drop a t = (Ok tt, mkThread (tls t) (delete a (states t)) (with_fields c (mem t))).
Proof.
  intros Hp Ha. destruct (header_offsets (E:=Z) (cts_offsets c) Hp) as (H1 & H2 & H3).
  unfold cts_drop, deref, sm_lift, mbind, sm_bind. rewrite Ha. cbn [unwrap]. by rewrite H1, H2, H3.
Qed.
Lemma pop_run a c t : states t !! a = Some c -> default 0 (tls t) = a ->
  pop a t = (Ok tt, mkThread (Some (cts_prev c)) (<[a := set_prev 0 c]> (states t)) (mem t)).
Proof.
  intros Ha Ht. unfold pop, deref, sm_lift, mbind, sm_bind. rewrite Ha. cbn [unwrap]. unfold set_state, tls_replace. cbn [tls states mem].
  by rewrite Ht, Z.eqb_refl.
Qed.
Lemma cts_new_saved caller plan t c t' : cts_new caller plan t = (Ok c, t') -> t' = t /\ cts_unwind c = None /\ cts_prev c = 0 /\ cts_offsets c = plan /\ cts_vmctx c = caller.
Proof.
  unfold cts_new, reading, mbind, sm_bind. destruct (vmctx_field _ _ _); [|done..]. destruct (vmctx_field _ _ _); [|done..].
  destruct (vmctx_field _ _ _); [|done..]. by intros [= <- <-].
Qed.

(** What [catch_traps] does, in terms of what the closure does in the new
    activation. *)
Lemma catch_traps_run caller plan closure t c : cts_new caller plan t = (Ok c, t) -> ptr_size plan = 8 -> settled (entered t c) (closure caller (entered t c)) ->
  let a := new_activation t in
  match closure caller (entered t c) with
  | (Ok _, t1) => catch_traps place caller plan closure t = (Ok None, left_behind t c t1)
  | (Err j, t1) => j = a /\ is_Some (trap_info t1 a) /\ catch_traps place caller plan closure t = (Ok (trap_info t1 a), left_behind t c t1)
  | (Panic, t1) => catch_traps place caller plan closure t = (Panic, t1)
  end.
Proof.
  intros Hc Hp Hr a. destruct (cts_new_saved _ _ _ _ _ Hc) as (_ & Hu & Hpr & Ho & Hv).
  assert (catch_traps place caller plan closure t = (
    x ← (ret ← setjmp a (closure caller); _ ← pop a;
      r ← (if ret =? 0 then mret None else u ← read_unwind a; mret (Some u)); _ ← cts_drop a; mret r);
    match x with None => mret None | Some (Unwind_Trap reason, backtrace) => mret (Some (mkCaughtTrap reason backtrace)) end) (entered t c)) as ->.
  { unfold catch_traps, with_, mbind, sm_bind. rewrite Hc. unfold add_state, push, mbind, sm_bind, deref, tls_replace, set_state, sm_lift.
    cbn [tls states mem]. rewrite lookup_insert_eq. cbn [unwrap]. rewrite Hpr. cbn [Z.eqb assert_]. rewrite insert_insert_eq. done. }
  unfold setjmp, mbind, sm_bind. destruct (closure caller (entered t c)) as [[[]|j|] t1]; [| |done].
  - destruct Hr as [Ht Hs]. cbn in Ht, Hs. assert (states t1 !! a = Some (set_prev (default 0 (tls t)) c)) as Ha by (by rewrite Hs, lookup_insert_eq).
    rewrite (pop_run _ _ _ Ha Ht). cbn [Z.eqb]. unfold mret, sm_ret.
    rewrite (cts_drop_run _ (set_prev 0 (set_prev (default 0 (tls t)) c))); [|by cbn; rewrite Ho|apply lookup_insert_eq].
    unfold left_behind. cbn [tls states mem cts_prev set_prev]. rewrite Hs, insert_insert_eq, delete_insert_id by apply entered_fresh. done.
  - destruct Hr as (Ht & -> & c' & u & Hc' & Hs). cbn in Ht, Hc', Hs |- *. rewrite lookup_insert_eq in Hc'. injection Hc' as <-. rewrite insert_insert_eq in Hs. 
    split; [done|]. rewrite Z.eqb_refl.
    assert (states t1 !! a = Some (set_unwind u (set_prev (default 0 (tls t)) c))) as Ha by (by rewrite Hs, lookup_insert_eq).
    unfold trap_info. rewrite Ha. destruct u as [[reason] b]. split; [by eexists|]. cbn [cts_unwind set_unwind mbind option_bind].
    rewrite (pop_run _ _ _ Ha Ht). cbn [Z.eqb]. unfold read_unwind, deref, sm_lift, mbind, sm_bind. cbn [states]. rewrite lookup_insert_eq. cbn [unwrap cts_unwind set_prev set_unwind]. unfold mret, sm_ret.
    rewrite (cts_drop_run _ (set_prev 0 (set_unwind (Unwind_Trap reason, b) (set_prev (default 0 (tls t)) c)))); [|by cbn; rewrite Ho|apply lookup_insert_eq].
    unfold left_behind. cbn [tls states mem cts_prev set_prev set_unwind]. rewrite Hs, insert_insert_eq, delete_insert_id by apply entered_fresh. done.
Qed.

Lemma catch_traps_respects caller plan closure : ptr_size plan = 8 -> respects (closure caller) -> respects (catch_traps place caller plan closure).
Proof.
  intros Hp Hr t. destruct (cts_new caller plan t) as [[c|j|] t'] eqn:Hc.
  - destruct (cts_new_saved _ _ _ _ _ Hc) as (-> & _). pose proof (catch_traps_run caller plan closure t c Hc Hp (Hr _)) as H.
    destruct (closure caller (entered t c)) as [[[]|j|] t1]; [by rewrite H|by destruct H as (_ & _ & ->)|by rewrite H].
  - exfalso. revert Hc. unfold cts_new, reading, mbind, sm_bind. 
    pose proof (no_err_field (E:=Z) (mem t) caller _ (no_err_exit_fp plan)) as H1. pose proof (no_err_field (E:=Z) (mem t) caller _ (no_err_exit_pc plan)) as H2.
    pose proof (no_err_field (E:=Z) (mem t) caller _ (no_err_entry_fp plan)) as H3.
    destruct (vmctx_field (mem t) caller (vmctx_last_wasm_exit_fp plan)); [|by edestruct H1|done].
    destruct (vmctx_field (mem t) caller (vmctx_last_wasm_exit_pc plan)); [|by edestruct H2|done].
    destruct (vmctx_field (mem t) caller (vmctx_last_wasm_entry_fp plan)); [done|by edestruct H3|done].
  - unfold catch_traps, mbind, sm_bind. by rewrite Hc.
Qed.

(** The context's fields are what they were. *)
Lemma read_written {E} a x h : a <> 0 -> u64_ok x -> read_usize (E:=E) (store_at a (mkUsize x) h) a = Ok x.
Proof.
  intros Ha Hx. unfold read_usize. rewrite (proj2 (Z.eqb_neq a 0)) by done. cbn [negb assert_ mbind outcome_bind].
  rewrite (load_of_read _ (mkUsize x)); [done|exact Hx|]. unfold store_at. exact (heap_read_write a (word 8 x) h).
Qed.
Lemma read_elsewhere {E} a b x h : a + 8 <= b \/ b + 8 <= a -> read_usize (E:=E) (store_at b (mkUsize x) h) a = read_usize h a.
Proof.
  intros Hd. unfold read_usize, load_at, store_at. rewrite heap_read_other; [done|]. unfold disjoint. cbn [fst snd vs_size vs_encode usize_struct usize_value]. rewrite word_length. lia.
Qed.
Definition fields_ok (c : CallThreadState) : Prop := u64_ok (old_last_wasm_exit_fp c) /\ u64_ok (old_last_wasm_exit_pc c) /\ u64_ok (old_last_wasm_entry_fp c).
Lemma field_address {E} h v off x : vmctx_field (E:=E) h v (Ok off) = Ok x -> v + off <> 0.
Proof. cbn. unfold read_usize. destruct (Z.eqb_spec (v + off) 0); [done|done]. Qed.
Lemma fields_restored caller plan t c t1 : cts_new caller plan t = (Ok c, t) -> ptr_size plan = 8 -> fields_ok c ->
  cts_new caller plan (left_behind t c t1) = (Ok c, left_behind t c t1).
Proof.
  intros Hc Hp (R1 & R2 & R3). destruct (header_offsets (E:=Z) plan Hp) as (H1 & H2 & H3). revert Hc. unfold cts_new, reading, mbind, sm_bind.
  rewrite H1, H2, H3. destruct (vmctx_field (mem t) caller (Ok 32)) as [x| |] eqn:E1; [|done..]. destruct (vmctx_field (mem t) caller (Ok 40)) as [y| |] eqn:E2; [|done..].
  destruct (vmctx_field (mem t) caller (Ok 48)) as [z| |] eqn:E3; [|done..]. intros [= <-]. cbn in R1, R2, R3.
  apply field_address in E1, E2, E3. unfold vmctx_field, left_behind, with_fields. cbn [mbind outcome_bind mem cts_vmctx old_last_wasm_exit_fp old_last_wasm_exit_pc old_last_wasm_entry_fp].
  rewrite (read_written (caller + 48)), !(read_elsewhere _ (caller + 48)), (read_written (caller + 40)), (read_elsewhere _ (caller + 40)), read_written by lia. done.
Qed.
End Catch.

(** ** Whatever happens inside an activation *)

(** What host and compiled code may do on a thread: change memory, raise a trap,
    receive a signal at some program counter, enter compiled code again. *)
Inductive activity : Type :=
| Act_mem (f : heap -> heap)
| Act_seq (p q : activity)
| Act_trap (reason : TrapReason)
| Act_signal (signum : Signal) (si_addr pc fp : Z)
| Act_catch (caller : Z) (p : activity).
Definition host_offsets : StaticVMOffsets := mkStatic 8.

Section Activity.
Context (dbg : bool) (arch : Arch) (place : gset Z -> Z) (reg : GlobalRegistry).
Fixpoint run (p : activity) : SM Thread Z unit :=
  match p with
  | Act_mem f => fun t => (Ok tt, mkThread (tls t) (states t) (f (mem t)))
  | Act_seq p q => _ ← run p; run q
  | Act_trap reason => raise_trap dbg arch reason
  | Act_signal signum si_addr pc fp => _ ← trap_handler dbg arch reg signum si_addr pc fp; mret tt
  | Act_catch caller p => _ ← catch_traps place caller host_offsets (fun _ => run p); mret tt
  end.
Lemma run_respects p : place_fresh place -> respects (run p).
Proof.
  intros Hp. induction p as [f|p IHp q IHq|reason|signum si_addr pc fp|caller p IH]; cbn [run].
  - by intros t.
  - by apply respects_bind.
  - apply raise_trap_respects.
  - apply respects_bind; [apply trap_handler_respects|]. intros _. apply respects_ret.
  - apply respects_bind; [by apply catch_traps_respects|]. intros _. apply respects_ret.
Qed.
End Activity.

(** C8: A trap never escapes a call into compiled code.  Whatever happens during
    the call, host traps, signals and nested calls included, [catch_traps] either
    returns, with the thread's list of activations and the fields of the context as
    they were before, or the code inside it has panicked; and it reports a trap
    exactly when the code inside did not return by itself.  (An empty list, [None]
    before the first call, is left as a null head.) *)
Theorem catch_traps_contains_traps dbg arch place reg caller p t c :
  place_fresh place -> cts_new caller host_offsets t = (Ok c, t) -> fields_ok c ->
  let inside := run dbg arch place reg p (entered place t c) in
  match catch_traps place caller host_offsets (fun _ => run dbg arch place reg p) t with
  | (Ok trap, t') =>
      tls t' = Some (default 0 (tls t)) /\ states t' = states t /\ cts_new caller host_offsets t' = (Ok c, t') /\
      (trap = None <-> inside.1 = Ok tt) /\ (is_Some trap <-> inside.1 = Err (new_activation place t))
  | (Err _, _) => False
  | (Panic, _) => inside.1 = Panic
  end.
Proof.
  intros Hp Hc Hf inside. pose proof (catch_traps_run place Hp caller host_offsets (fun _ => run dbg arch place reg p) t c Hc eq_refl (run_respects dbg arch place reg p Hp _)) as H.
  cbn beta in H. fold inside in H. destruct inside as [[[]|j|] t1]; cbn [fst].
  - rewrite H. repeat (split; [done|]). split; [by apply fields_restored|]. split; [done|]. split; [by intros [x Hx]|done].
  - destruct H as (-> & [x Hx] & ->). rewrite Hx. repeat (split; [done|]). split; [by apply fields_restored|]. split; done.
  - by rewrite H.
Qed.

(** Entering an activation puts it in front of the list. *)
Lemma entered_ok place t c l : place_fresh place -> thread_ok t l -> thread_ok (entered place t c) (new_activation place t :: l).
Proof.
  intros Hp [Hl Hn]. assert (forall x, x ∈ l -> x <> new_activation place t) as Hne.
  { intros x Hx ->. destruct (linked_known _ _ _ _ Hl Hx) as [y Hy]. by rewrite (entered_fresh place Hp) in Hy. }
  split.
  - cbn [tls states entered default linked]. split; [done|]. split; [apply Hp|]. eexists. rewrite lookup_insert_eq. split; [done|]. cbn [cts_prev set_prev].
    apply (linked_kept (states t)); [done|]. intros x Hx. rewrite lookup_insert_ne; [done|]. intros Heq. by apply (Hne x Hx).
  - constructor; [|done]. intros Hin. by apply (Hne _ Hin).
Qed.

(** The backtrace of a trap that the host raises in a new activation: the frames of
    the enclosing ones. *)
Lemma host_backtrace dbg arch place t t1 c l cs caller pc entry framess rest :
  place_fresh place -> thread_ok t l -> Forall2 (fun x c => states t !! x = Some c) l cs -> cts_new caller host_offsets t = (Ok c, t) ->
  default 0 (tls t1) = new_activation place t -> states t1 = states (entered place t c) ->
  read_usize (E:=Z) (mem t1) (caller + 40) = Ok pc -> read_usize (E:=Z) (mem t1) (caller + 48) = Ok entry -> pc <> 0 -> entry <> 0 ->
  (exists acts, old_activation <$> c :: cs = acts ++ rest /\ Forall2 (activation_of (E:=Z) arch (mem t1)) acts framess) ->
  (rest = [] \/ exists l, rest = (0, 0, 0) :: l) ->
  new_with_trap_state (E:=Z) dbg arch t1 (new_activation place t) None = Ok (concat framess).
Proof.
  intros Hp Hok Hcs Hc Htl Hst Hpc Hen Hpc0 Hen0 (acts & Hacts & Hf) Hr. set (a := new_activation place t) in *.
  destruct (cts_new_saved _ _ _ _ _ Hc) as (_ & _ & _ & Ho & Hv). destruct (header_offsets (E:=Z) host_offsets eq_refl) as (O1 & O2 & O3).
  assert (states t1 !! a = Some (set_prev (default 0 (tls t)) c)) as Ha by (rewrite Hst; apply lookup_insert_eq).
  assert (thread_ok t1 (a :: l)) as Hok1.
  { destruct (entered_ok place t c l Hp Hok) as [Hl Hn]. split; [|done]. rewrite Htl, Hst. exact Hl. }
  rewrite (host_trap_frames dbg arch t1 a (set_prev (default 0 (tls t)) c) pc entry Ha);
    [|unfold vmctx_field; cbn [set_prev cts_vmctx cts_offsets]; rewrite Ho, Hv, ?O2, ?O3; cbn [mbind outcome_bind]; assumption..].
  destruct (trace_state (E:=Z) dbg arch t1 a l (set_prev (default 0 (tls t)) c) (pc, entry) entry Hok1 Ha) as (cs' & Hcs' & ->).
  { unfold vmctx_field. cbn [set_prev cts_vmctx cts_offsets]. rewrite Ho, Hv, O3. done. }
  assert (cs' = cs) as ->.
  { assert (forall x, x ∈ l -> states t1 !! x = states t !! x) as Hk.
    { intros x Hx. rewrite Hst. cbn [states entered]. rewrite lookup_insert_ne; [done|]. intros <-. by destruct (proj1 (list.NoDup_cons _ _) (to_nodup _ _ Hok1)). }
    clear -Hcs Hcs' Hk. revert cs' Hcs'. induction Hcs as [|x y l cs Hx Hcs IH]; intros cs' Hcs'; inversion Hcs'; subst; [done|]. f_equal.
    - rewrite Hk in H1 by left. congruence.
    - apply IH; [|done]. intros z Hz. apply Hk. by right. }
  change (old_activation <$> set_prev (default 0 (tls t)) c :: cs) with (old_activation <$> c :: cs). rewrite Hacts.
  apply (trace_all dbg arch (mem t1) ((pc, entry, entry) :: acts) ([] :: framess) rest []); [|done]. constructor; [|done]. by split_and!.
Qed.

(** C18: A trap that the host raises is delivered.  If the code inside a call gets as far
    as raising a trap (wasm has been entered and left, so that the context has the entry
    frame and the exit address), the call returns, and what it returns is that trap
    with a backtrace.  The backtrace consists of the frames of the enclosing activations,
    the innermost first, as far back as one that never left wasm; the frames of the
    activation that raised the trap are missing, because the walk through them starts at
    the entry frame instead of the exit frame. *)
Theorem raised_trap_is_delivered dbg arch place reg caller p reason t c t1 l cs pc entry framess rest :
  place_fresh place -> thread_ok t l -> Forall2 (fun x c => states t !! x = Some c) l cs -> cts_new caller host_offsets t = (Ok c, t) ->
  run dbg arch place reg p (entered place t c) = (Ok tt, t1) ->
  read_usize (E:=Z) (mem t1) (caller + 40) = Ok pc -> read_usize (E:=Z) (mem t1) (caller + 48) = Ok entry -> pc <> 0 -> entry <> 0 ->
  (exists acts, old_activation <$> c :: cs = acts ++ rest /\ Forall2 (activation_of (E:=Z) arch (mem t1)) acts framess) ->
  (rest = [] \/ exists l, rest = (0, 0, 0) :: l) ->
  catch_traps place caller host_offsets (fun _ => run dbg arch place reg (Act_seq p (Act_trap reason))) t =
    (Ok (Some (mkCaughtTrap reason (Some (concat framess)))), left_behind t c t1).
Proof.
  intros Hp Hok Hcs Hc Hrun Hpc Hen Hpc0 Hen0 Hacts Hrest. set (q := Act_seq p (Act_trap reason)).
  pose proof (run_respects dbg arch place reg p Hp (entered place t c)) as Hr. rewrite Hrun in Hr. destruct Hr as [Ht Hs].
  pose proof (host_backtrace dbg arch place t t1 c l cs caller pc entry framess rest Hp Hok Hcs Hc Ht Hs Hpc Hen Hpc0 Hen0 Hacts Hrest) as Hb.
  cbn in Ht, Hs. set (frames := concat framess) in *.
  assert (run dbg arch place reg q (entered place t c) = (Err (new_activation place t), mkThread (tls t1)
    (<[new_activation place t := set_unwind (Unwind_Trap reason, Some frames) (set_prev (default 0 (tls t)) c)]> (states t1)) (mem t1))) as Hq.
  { unfold q. cbn [run]. unfold mbind, sm_bind at 1. rewrite Hrun. unfold raise_trap, reading at 1, mbind, sm_bind.
    destruct (tls t1) as [a|] eqn:Htl; cbn in Ht; [subst a|destruct (Hp (dom (states t))) as [_ []]; by rewrite Ht]. cbn [unwrap].
    unfold unwind_with, reading, mbind, sm_bind. rewrite Hb. unfold mret, sm_ret, deref. rewrite Hs, lookup_insert_eq. cbn. by rewrite Hs, Htl. }
  pose proof (catch_traps_run place Hp caller host_offsets (fun _ => run dbg arch place reg q) t c Hc eq_refl (run_respects dbg arch place reg q Hp _)) as H.
  cbn beta in H. rewrite Hq in H. destruct H as (_ & _ & ->). unfold trap_info. cbn [states]. rewrite lookup_insert_eq. done.
Qed.


(** ** After the last activation

    [pop] leaves the head of the list at [Some(null)], which a later signal takes
    for an activation; before the first call the head is [None] and the signal is
    passed on. *)
Lemma no_activation_signal dbg arch reg si_addr pc fp t : tls t = None -> trap_handler dbg arch reg SIGSEGV si_addr pc fp t = (Ok false, t).
Proof. intros Ht. unfold trap_handler, mbind, sm_bind, reading, sm_lift. by rewrite Ht. Qed.
Lemma stray_signal dbg arch reg si_addr pc fp t c t1 : default 0 (tls t) = 0 -> states t !! 0 = None ->
  (trap_handler dbg arch reg SIGSEGV si_addr pc fp (left_behind t c t1)).1 = Panic.
Proof. intros Ht Hs. unfold trap_handler, mbind, sm_bind, reading, sm_lift, left_behind, deref. cbn [tls states]. by rewrite Ht, Hs. Qed.

(** ** Handlers are chained *)
Lemma install_all ptr accepts l s s' : NoDup l -> foldM (install ptr accepts) l s = Ok s' ->
  forall k, (k ∈ l -> installed s' k = mkSigaction true ptr /\ previous s' k = Some (installed s k)) /\
            (k ∉ l -> installed s' k = installed s k /\ previous s' k = previous s k).
Proof.
  intros Hn. revert s. induction l as [|x l IH]; cbn [foldM]; intros s; [intros [= <-] k; split; [by intros ?%not_elem_of_nil|done]|].
  apply list.NoDup_cons in Hn as [Hx Hn]. intros (s1 & ([] & Ha & [= <-])%bind_ok & Hs')%bind_ok k. destruct (IH Hn _ Hs' k) as [H1 H2]. clear IH Hs'. cbn [installed previous] in *.
  unfold update in *. split.
  - intros [->|Hk]%elem_of_cons; [destruct (H2 Hx) as [-> ->]; by rewrite !decide_True by done|].
    destruct (H1 Hk) as [-> ->]. by rewrite decide_False by (by intros ->).
  - intros [Hkx Hk]%not_elem_of_cons. destruct (H2 Hk) as [-> ->]. by rewrite !decide_False.
Qed.
Lemma foreach_nodup fpe bus : NoDup (foreach_handler fpe bus).
Proof. apply (bool_decide_unpack _). by destruct fpe, bus; vm_compute. Qed.
(** Registration is done once; it directs every signal of the target to the trap
    handler, and a signal that is no trap goes to the handler that was there. *)
Lemma signals_are_chained ptr fpe bus accepts s s' k : registered s = false -> ensure_signal_handlers_are_registered ptr fpe bus accepts s = Ok s' ->
  k ∈ foreach_handler fpe bus ->
  ensure_signal_handlers_are_registered ptr fpe bus accepts s' = Ok s' /\ installed s' k = mkSigaction true ptr /\
  (exists o, forward s' k = Ok o /\ match o.1 with
    | Called_siginfo h => installed s k = mkSigaction true h
    | Reinstalled => installed o.2 k = installed s k /\ (sa_sigaction (installed s k) = SIG_DFL \/ sa_sigaction (installed s k) = SIG_IGN)
    | Called h => installed s k = mkSigaction false h
    end).
Proof.
  intros Hr He Hk. unfold ensure_signal_handlers_are_registered in He. rewrite Hr in He. apply bind_ok in He as (s1 & Hs1 & [= <-]).
  destruct (proj1 (install_all _ _ _ _ _ (foreach_nodup fpe bus) Hs1 k) Hk) as [Hi Hp]. cbn [installed]. split; [done|]. split; [done|].
  unfold forward. cbn [previous]. rewrite Hp. cbn [unwrap mbind outcome_bind]. destruct (installed s k) as [si h]. cbn [sa_siginfo sa_sigaction].
  destruct si; [by eexists|]. destruct (Z.eqb_spec h SIG_DFL) as [->|]; cbn [orb]; [eexists; split; [done|]; cbn; unfold update; rewrite decide_True by done; auto|].
  destruct (Z.eqb_spec h SIG_IGN) as [->|]; cbn [orb]; [eexists; split; [done|]; cbn; unfold update; rewrite decide_True by done; auto|]. by eexists.
Qed.

(** ** Examples *)
Module Example.
(** One address above all in use. *)
Definition above (X : gset Z) : Z := 1 + foldr Z.max 0 (elements X).
Lemma above_fresh : place_fresh above.
Proof.
  intros X. assert (0 <= foldr Z.max 0 (elements X) /\ forall x, x ∈ elements X -> x <= foldr Z.max 0 (elements X)) as [H0 H].
  { induction (elements X) as [|y l [IH0 IH]]; cbn; [split; [lia|by intros x ?%not_elem_of_nil]|]. split; [lia|].
    intros x [->|Hx]%elem_of_cons; [lia|]. specialize (IH x Hx). lia. }
  unfold above. split; [|lia]. intros Hx%elem_of_elements%H. lia.
Qed.

(** A context at [4096] whose fields are zero, and wasm frames of two calls. *)
Definition writes (l : list (Z * Z)) (h : heap) : heap := foldr (fun p h => store_at p.1 (mkUsize p.2) h) h l.
Definition fresh_context : heap := writes [(4128, 0); (4136, 0); (4144, 0)] ∅.
Definition outside : Thread := mkThread None ∅ fresh_context.
Definition outer_cts : CallThreadState := mkCTS None host_offsets 4096 0 0 0 0.
Definition outer_frames : list Frame := [mkFrame 65600 8128].
Definition inner_frames : list Frame := [mkFrame 65541 8000; mkFrame 65570 8032].
Definition two_calls : Thread :=
  let inner_cts := mkCTS None host_offsets 4096 1 8128 65600 8144 in
  mkThread (Some 2) {[1 := outer_cts; 2 := inner_cts]}
    (writes [(8000, 8032); (8008, 65570); (8032, 8064); (8040, 77); (8128, 8144); (8136, 78); (4144, 8064)] ∅).
Definition code : CodeMemory := mkCodeMemory (mkMmap 65536 4096) 100 [] true [5] [IntegerDivisionByZero].
Definition registry : GlobalRegistry := [(65635, (65536, code))].
End Example.

(** A nested call traps, the outer one goes on and traps as well. *)
Definition nested_traps : activity :=
  Act_seq (Act_mem (Example.writes [(4128, 8000); (4136, 65541); (4144, 8064); (8000, 8064); (8008, 77)]))
    (Act_seq (Act_catch 4096 (Act_trap (Reason_Wasm HeapMisaligned))) (Act_trap (Reason_Wasm TableOutOfBounds))).
Lemma nested_traps_end : (catch_traps Example.above 4096 host_offsets (fun _ => run true x86_64 Example.above [] nested_traps) Example.outside).1 =
  Ok (Some (mkCaughtTrap (Reason_Wasm TableOutOfBounds) (Some []))).
Proof. vm_compute. reflexivity. Qed.
Lemma catch_traps_contains_traps_witness :
  match catch_traps Example.above 4096 host_offsets (fun _ => run true x86_64 Example.above [] nested_traps) Example.outside with
  | (Ok trap, t') => tls t' = Some 0 /\ states t' = ∅
  | _ => True
  end.
Proof.
  pose proof (catch_traps_contains_traps true x86_64 Example.above [] 4096 nested_traps Example.outside Example.outer_cts Example.above_fresh eq_refl) as H.
  assert (fields_ok Example.outer_cts) as Hf by (unfold fields_ok; cbn [Example.outer_cts old_last_wasm_exit_fp old_last_wasm_exit_pc old_last_wasm_entry_fp]; lia). specialize (H Hf). cbn zeta in H.
  destruct (catch_traps _ _ _ _ Example.outside) as [[trap|e|] t']; [|exact I..]. destruct H as (H1 & H2 & _). exact (conj H1 H2).
Defined.

(** The host, called from wasm, calls wasm again, whose code calls the host, and it traps. *)
Definition called_from_wasm : Thread :=
  mkThread (Some 1) {[1 := Example.outer_cts]} (Example.writes [(8128, 8144); (8136, 78); (4128, 8128); (4136, 65600); (4144, 8144)] ∅).
Lemma raised_trap_is_delivered_witness :
  (catch_traps Example.above 4096 host_offsets
    (fun _ => run true x86_64 Example.above []
       (Act_seq (Act_mem (Example.writes [(4128, 8000); (4136, 65541); (4144, 8064)])) (Act_trap (Reason_Wasm TableOutOfBounds)))) called_from_wasm).1 =
  Ok (Some (mkCaughtTrap (Reason_Wasm TableOutOfBounds) (Some Example.outer_frames))).
Proof.
  erewrite (raised_trap_is_delivered true x86_64 Example.above [] 4096 _ (Reason_Wasm TableOutOfBounds) called_from_wasm (mkCTS None host_offsets 4096 0 8128 65600 8144)
    _ [1] [Example.outer_cts] 65541 8064 [Example.outer_frames] [(0, 0, 0)] Example.above_fresh).
  - reflexivity.
  - split; [|apply (bool_decide_unpack _); vm_compute; exact I]. repeat split; try done. eexists. split; [reflexivity|]. reflexivity.
  - repeat constructor.
  - reflexivity.
  - reflexivity.
  - reflexivity.
  - reflexivity.
  - discriminate.
  - discriminate.
  - exists [(65600, 8128, 8144)]. split; [reflexivity|]. repeat constructor; try done; try (eexists; split; [reflexivity|done]).
  - right. by exists [].
Defined.

