(* ===== verification/Call.v ===== *)
(** * Calling a function from the host
      ([src/src/func.rs], [src/src/store.rs], [src/src/runtime/vmcontext.rs])

    [Func::call_unchecked] writes its arguments into an array of [VMVal]s, enters
    the function's context with a new stack limit, runs the function's array-call
    trampoline under [catch_traps] and reads the results out of the same array.

    The state is the thread with its memory, the store, the type registry of the
    engine and the signal handlers of the process.  A computation fails with [inl a], a jump to activation [a], or
    with [inr e], an error of the crate. *)
From stdpp Require Import base list gmap option strings numbers.
From S2P Require Import Prelude Types Trap Module ModuleTypes TypeRegistry VMVal ConstEval VMOffsets Mmap RtMemory VMHeap BTree Code Instance Store TrapHandling.
Local Open Scope Z_scope.

Section Call.
Context {S : Type} `{Slab S WasmSubType}.
Record CallState : Type := mkCallState {
  cs_thread : Thread; cs_store : Store; cs_reg : TypeRegistryInner S; cs_signals : Signals }.
Definition CallError : Type := (Z + Error)%type.
Abbreviation M := (SM CallState CallError).

(** ** Access to the parts of the state *)
Definition on_thread {A} (m : SM Thread Z A) : M A := fun w =>
  let r := m (cs_thread w) in
  (match r.1 with Ok a => Ok a | Err j => Err (inl j) | Panic => Panic end, mkCallState r.2 (cs_store w) (cs_reg w) (cs_signals w)).
Definition asking {A} (f : CallState -> outcome CallError A) : M A := fun w => (f w, w).
Definition on_store {A} (f : Store -> A * Store) : M A := fun w =>
  let r := f (cs_store w) in (Ok r.1, mkCallState (cs_thread w) r.2 (cs_reg w) (cs_signals w)).
Definition on_registry {A} (f : TypeRegistryInner S -> outcome CallError (A * TypeRegistryInner S)) : M A := fun w =>
  match f (cs_reg w) with
  | Ok (a, reg) => (Ok a, mkCallState (cs_thread w) (cs_store w) reg (cs_signals w))
  | Err e => (Err e, w)
  | Panic => (Panic, w)
  end.
Definition memory (w : CallState) : heap := mem (cs_thread w).
Definition set_memory (h : heap) : M unit := fun w =>
  (Ok tt, mkCallState (mkThread (tls (cs_thread w)) (states (cs_thread w)) h) (cs_store w) (cs_reg w) (cs_signals w)).

(** Local variables are dropped when an error is returned, not when a jump passes. *)
Definition dropping {A} (m : M A) (cleanup : M unit) : M A := fun w =>
  match m w with
  | (Err (inl j), w) => (Err (inl j), w)
  | (Err (inr e), w) => match cleanup w with (Panic, w) => (Panic, w) | (_, w) => (Err (inr e), w) end
  | r => r
  end.

(** ** Values in memory *)
Definition write_vmval (a : Z) (v : VMVal) (h : heap) : heap := heap_write a (vmval_bytes v) h.
Definition read_vmval (a : Z) (h : heap) : VMVal := mkVMVal (heap_read a 16 h).
(** A [Vec<VMVal>] with its elements at [a]. *)
Fixpoint write_vmvals (a : Z) (vs : list VMVal) (h : heap) : heap :=
  match vs with
  | [] => h
  | v :: vs => write_vmval a v (write_vmvals (a + 16) vs h)
  end.
Fixpoint read_vmvals (a : Z) (n : nat) (h : heap) : list VMVal :=
  match n with
  | O => []
  | Datatypes.S n => read_vmval a h :: read_vmvals (a + 16) n h
  end.

(** [placeholder::signals::ensure_signal_handlers_are_registered], for the address
    of the handler, the target and the kernel's answers. *)
Record SignalEnv : Type := mkSignalEnv {
  se_trap_handler : Z; se_x86_or_s390x : bool; se_macos_or_freebsd : bool; se_accepts : Signal -> bool }.
Definition handlers_registered (env : SignalEnv) (s : Signals) : outcome unit Signals :=
  ensure_signal_handlers_are_registered (se_trap_handler env) (se_x86_or_s390x env) (se_macos_or_freebsd env) (se_accepts env) s.
Definition register_handlers (env : SignalEnv) : M unit := fun w =>
  match handlers_registered env (cs_signals w) with
  | Ok s => (Ok tt, mkCallState (cs_thread w) (cs_store w) (cs_reg w) s)
  | _ => (Panic, w)
  end.

(** ** [Func] *)
Section Func.
(** The signal environment, the code behind function pointers, the host's stack
    pointer, and where the allocator puts the argument storage. *)
Context (dbg : bool) (arch : Arch) (env : SignalEnv) (place : gset Z -> Z).
Context (code_at : Z -> Z -> Z -> Z -> Z -> SM Thread Z unit) (stack_pointer : Z) (storage_ptr : Z).

(** [Val::as_vmval] in a store: a function is its reference's address. *)
Definition as_vmval_in {E} (s : Store) (v : Val Z) : outcome E VMVal :=
  match v with
  | V_FuncRef (Some f) => p ← pm_index (exported_funcs s) f; Ok (as_vmval (fun _ => p) v)
  | _ => Ok (as_vmval (fun _ => 0) v)
  end.

Definition stored_func_ref (f : Z) : M VMFuncRef :=
  asking (fun w => p ← pm_index (exported_funcs (cs_store w)) f; load_at (A:=VMFuncRef) p (memory w)).

(** [Func::ty]. *)
Definition func_ty (f : Z) : M RegisteredType :=
  func_ref ← stored_func_ref f;
  ty ← on_registry (fun reg => get_type dbg reg (fr_type_index func_ref));
  sm_lift (unwrap ty).

(** [VMContext::from_opaque]. *)
Definition from_opaque (opaque : Z) : M Z :=
  _ ← (if dbg then asking (fun w => m ← load_at (A:=u32) opaque (memory w); assert_ (u32_value m =? VMCONTEXT_MAGIC)) else mret tt);
  mret opaque.

Record WasmExecutionGuard : Type := mkGuard { stack_limit_ptr : Z; prev_stack : Z }.
Definition MAX_WASM_STACK : Z := 512 * 1024.
Definition enter_wasm (vmctx : Z) (offsets : StaticVMOffsets) : M WasmExecutionGuard :=
  wasm_stack_limit ← sm_lift (unwrap (checked_sub 64 stack_pointer MAX_WASM_STACK));
  o ← sm_lift (vmctx_stack_limit offsets);
  let stack_limit_ptr := vmctx + o in
  prev_stack ← asking (fun w => read_usize (memory w) stack_limit_ptr);
  _ ← on_thread (write_usize stack_limit_ptr wasm_stack_limit);
  mret (mkGuard stack_limit_ptr prev_stack).
Definition guard_drop (g : WasmExecutionGuard) : M unit := on_thread (write_usize (stack_limit_ptr g) (prev_stack g)).

Definition trap_code_of (t : CaughtTrap) : Trap.Trap :=
  match ti_reason t with Reason_Wasm trap_code => trap_code | Reason_Jit _ _ trap_code => trap_code end.

(** [Func::call_unchecked_raw]. *)
Definition call_unchecked_raw (f args_results_ptr args_results_len : Z) : M unit :=
  func_ref ← stored_func_ref f;
  vmctx ← from_opaque (fr_vmctx func_ref);
  i ← asking (fun w => get_instance_from_vmctx (cs_store w) vmctx);
  instance ← asking (fun w => pm_index (instances (cs_store w)) i);
  let offsets := static_ (mo_offsets (ri_module instance)) in
  guard ← enter_wasm vmctx offsets;
  _ ← register_handlers env;
  res ← on_thread (catch_traps place vmctx offsets
          (fun caller => code_at (fr_array_call func_ref) vmctx caller args_results_ptr args_results_len));
  _ ← guard_drop guard;
  match res with
  | Some trap => sm_err (inr (Error_Trap (trap_code_of trap)))
  | None => mret tt
  end.

(** [resize_with] and the copying of arguments and results. *)
Definition resize_with (n : nat) (v : VMVal) (l : list VMVal) : list VMVal := take n l ++ replicate (n - length l) v.
Fixpoint copy_args {E} (s : Store) (params : list (Val Z)) (slots : list VMVal) : outcome E (list VMVal) :=
  match params, slots with
  | arg :: params, _ :: slots => v ← as_vmval_in s arg; rest ← copy_args s params slots; Ok (v :: rest)
  | _, slots => Ok slots
  end.
Fixpoint copy_results {E} (tys : list WasmValType) (i : Z) (results : list (Val Z)) (values : list VMVal) : outcome E (list (Val Z)) :=
  match results, values with
  | _ :: results, vmval :: values =>
      ty ← pm_index tys i;
      v ← val_from_vmval vmval ty;
      rest ← copy_results tys (i + 1) results values;
      Ok (v :: rest)
  | results, _ => Ok results
  end.

(** [Func::call_unchecked]; the result is the new contents of [results].  The
    registered type is dropped at the end of the function, on both paths. *)
Definition call_unchecked (f : Z) (params results : list (Val Z)) : M (list (Val Z)) :=
  ty ← func_ty f;
  wft ← sm_lift (unwrap_func (rt_ty ty));
  let values_vec_size := Nat.max (length params) (length (fn_results wft)) in
  values_vec ← on_store take_wasm_vmval_storage;
  _ ← sm_lift (debug_assert dbg (bool_decide (values_vec = [])));
  values_vec ← asking (fun w => copy_args (cs_store w) params (resize_with values_vec_size (vm_v128 0) values_vec));
  _ ← (fun w => set_memory (write_vmvals storage_ptr values_vec (memory w)) w);
  let drop_ty := on_registry (fun reg => reg ← drop_registered dbg reg ty; Ok (tt, reg)) in
  _ ← dropping (call_unchecked_raw f storage_ptr (Z.of_nat values_vec_size)) drop_ty;
  values_vec ← asking (fun w => Ok (read_vmvals storage_ptr values_vec_size (memory w)));
  results ← sm_lift (copy_results (fn_results wft) 0 results values_vec);
  _ ← on_store (fun s => (tt, return_wasm_vmval_storage [] s));
  _ ← drop_ty;
  mret results.
End Func.
End Call.
Arguments CallState : clear implicits.
Arguments mkCallState {S}.
