(* ===== verification/CallSpec.v ===== *)
(** * Calling a function from the host: theorems

    A call runs the function's compiled code on the arguments in a thread prepared for
    it, returns what the code left in the argument storage, reports its traps as
    errors, and leaves the store, the registry, the thread and the fields of the
    context as they were. *)
From stdpp Require Import base list gmap option strings numbers.
From S2P Require Import Prelude Types Trap Module ModuleTypes TypeRegistry VMVal ConstEval VMOffsets Mmap RtMemory VMHeap BTree Code Instance Store TrapHandling TrapHandlingSpec Call.
Local Open Scope Z_scope.

(** ** Regions of memory *)
Definition same_on (a n : Z) (h h' : heap) : Prop := forall x, a <= x < a + n -> h' !! x = h !! x.
Lemma same_on_refl a n h : same_on a n h h.
Proof. done. Qed.
Lemma same_on_trans a n h1 h2 h3 : same_on a n h1 h2 -> same_on a n h2 h3 -> same_on a n h1 h3.
Proof. intros H1 H2 x Hx. by rewrite H2, H1. Qed.
Lemma same_on_sub a n b m h h' : same_on a n h h' -> a <= b -> b + m <= a + n -> same_on b m h h'.
Proof. intros H ? ? x Hx. apply H. lia. Qed.
Lemma same_on_write a n b cells h : disjoint (a, n) (b, Z.of_nat (length cells)) -> same_on a n h (heap_write b cells h).
Proof. unfold disjoint. cbn. intros Hd x Hx. apply heap_write_other. lia. Qed.
Lemma same_on_read a n h h' : same_on a (Z.of_nat n) h h' -> heap_read a n h' = heap_read a n h.
Proof.
  revert a. induction n as [|n IH]; intros a Hs; cbn [heap_read]; [done|]. rewrite Hs by lia. f_equal. apply IH. intros x Hx. apply Hs. lia.
Qed.
Lemma same_on_load {E A} `{VMStruct A} a h h' : same_on a (Z.of_nat vs_size) h h' -> load_at (E:=E) (A:=A) a h' = load_at a h.
Proof. intros Hs. unfold load_at. by rewrite (same_on_read _ _ h h'). Qed.
Lemma same_on_usize {E} a h h' : same_on a 8 h h' -> read_usize (E:=E) h' a = read_usize h a.
Proof. intros Hs. unfold read_usize. by rewrite (same_on_load _ h h'). Qed.
Lemma same_on_store a n b x h : disjoint (a, n) (b, 8) -> same_on a n h (store_at b (mkUsize x) h).
Proof. intros Hd. unfold store_at. apply same_on_write. cbn [vs_encode usize_struct usize_value]. by rewrite word_length. Qed.

(** ** Arrays of values *)
Definition whole (v : VMVal) : Prop := length (vmval_bytes v) = 16%nat.
Lemma write_vmvals_other a n b vs h : Forall whole vs -> disjoint (a, n) (b, 16 * Z.of_nat (length vs)) -> same_on a n h (write_vmvals b vs h).
Proof.
  revert b. induction vs as [|v vs IH]; intros b Hw Hd; cbn [write_vmvals]; [done|]. apply Forall_cons_iff in Hw as [Hv Hw]. unfold disjoint in *. cbn [fst snd length] in *.
  eapply same_on_trans; [apply (IH (b + 16)); [done|unfold disjoint; cbn [fst snd]; lia]|]. apply same_on_write. unfold disjoint. cbn [fst snd]. rewrite Hv. lia.
Qed.
Lemma read_vmvals_same a n h h' : same_on a (16 * Z.of_nat n) h h' -> read_vmvals a n h' = read_vmvals a n h.
Proof.
  revert a. induction n as [|n IH]; intros a Hs; cbn [read_vmvals]; [done|]. f_equal; [|apply IH; intros x Hx; apply Hs; lia].
  unfold read_vmval. f_equal. apply same_on_read. intros x Hx. apply Hs. lia.
Qed.
Lemma read_write_vmvals a vs h : Forall whole vs -> read_vmvals a (length vs) (write_vmvals a vs h) = vs.
Proof.
  revert a h. induction vs as [|v vs IH]; intros a h Hw; cbn [write_vmvals read_vmvals length]; [done|]. apply Forall_cons_iff in Hw as [Hv Hw]. f_equal.
  - unfold read_vmval, write_vmval. rewrite <- Hv, heap_read_write. by destruct v.
  - rewrite (read_vmvals_same _ _ (write_vmvals (a + 16) vs h)); [by apply IH|]. apply same_on_write. unfold disjoint. cbn [fst snd]. rewrite Hv. lia.
Qed.
Lemma read_vmvals_length a n h : length (read_vmvals a n h) = n.
Proof. revert a. induction n as [|n IH]; intros a; cbn; [done|by rewrite IH]. Qed.

Lemma read_vmvals_app a n m h : read_vmvals a (n + m) h = read_vmvals a n h ++ read_vmvals (a + 16 * Z.of_nat n) m h.
Proof.
  revert a. induction n as [|n IH]; intros a; [by rewrite Z.mul_0_r, Z.add_0_r|]. cbn [read_vmvals Nat.add app]. rewrite IH. replace (a + 16 * Z.of_nat (S n)) with (a + 16 + 16 * Z.of_nat n) by lia. done.
Qed.

(** *** Arguments and results *)
Definition arg_vmval (v : Val Z) : VMVal := as_vmval (fun _ => 0) v.
Definition typed (vs : list (Val Z)) (tys : list WasmValType) : Prop := Forall2 (fun v ty => val_has_type v ty = true) vs tys.
Definition decoded (ms : list VMVal) (tys : list WasmValType) (vs : list (Val Z)) : Prop :=
  Forall3 (fun m ty v => forall E, val_from_vmval (E:=E) m ty = Ok v) ms tys vs.

Lemma union_whole n x : (n <= 16)%nat -> whole (union_of n x).
Proof. intros Hn. unfold whole, union_of. cbn [vmval_bytes]. rewrite length_app, length_fmap, le_split_length, length_replicate. lia. Qed.
Lemma arg_whole v : whole (arg_vmval v).
Proof. destruct v; apply union_whole; lia. Qed.
Lemma copy_args_typed {E} s vs tys slots : typed vs tys -> (length vs <= length slots)%nat ->
  copy_args (E:=E) s vs slots = Ok ((arg_vmval <$> vs) ++ drop (length vs) slots).
Proof.
  intros Ht. revert slots. induction Ht as [|v ty vs tys Hv Ht IH]; intros slots Hl; [by destruct slots|]. destruct slots as [|s0 slots]; cbn in Hl; [lia|].
  cbn [copy_args]. assert (as_vmval_in (E:=E) s v = Ok (arg_vmval v)) as -> by (destruct v, ty; done). cbn [mbind outcome_bind]. rewrite IH by lia. done.
Qed.
Lemma copy_results_decoded {E} ms tys vs : decoded ms tys vs -> forall pre slots more, length slots = length vs ->
  copy_results (E:=E) (pre ++ tys) (Z.of_nat (length pre)) slots (ms ++ more) = Ok vs.
Proof.
  intros Hd. induction Hd as [|m ty v ms tys vs Hm Hd IH]; intros pre slots more Hl; (destruct slots as [|s0 slots]; [|]); try discriminate; [done|]. 
  cbn [app copy_results]. assert (pm_index (E:=E) (pre ++ ty :: tys) (Z.of_nat (length pre)) = Ok ty) as ->.
  { unfold pm_index, pm_get. rewrite (proj2 (Z.leb_le _ _)) by lia. rewrite Nat2Z.id. by rewrite list_lookup_middle. }
  cbn [mbind outcome_bind]. rewrite Hm. cbn [mbind outcome_bind]. specialize (IH (pre ++ [ty]) slots more). rewrite length_app, <- app_assoc in IH. cbn [length app] in IH.
  replace (Z.of_nat (length pre + 1)) with (Z.of_nat (length pre) + 1) in IH by lia. injection Hl as Hl. by rewrite IH.
Qed.

(** ** The registered type is held during the call *)
Lemma get_and_drop {S E E'} `{Slab S WasmSubType} dbg (reg : TypeRegistryInner S) idx sty e i :
  slab_get (types reg) idx = Some sty -> type_to_rec_group reg !! idx = Some e -> arcs reg !! e = Some i -> 1 <= registrations i < 2 ^ 64 - 1 ->
  exists reg1, get_type (E:=E) dbg reg idx = Ok (Some (mkRegistered e sty idx), reg1) /\ drop_registered (E:=E') dbg reg1 (mkRegistered e sty idx) = Ok reg.
Proof.
  intros Hsub He Hi Hr. pose proof (lookup_lt_Some _ _ _ Hi) as Hlt. exists (set_registrations reg e i (registrations i + 1)). split.
  - unfold get_type, incr_ref_count, arc, add. rewrite Hsub, He. cbn [unwrap mbind outcome_bind]. rewrite Hi. cbn [unwrap mbind outcome_bind].
    unfold ofits. rewrite (proj2 (fits_spec _ _)) by lia. cbn [mbind outcome_bind set_registrations arcs]. rewrite list_lookup_insert_eq by done.
    cbn [unwrap mbind outcome_bind registrations]. rewrite (proj2 (Z.eqb_neq _ _)) by lia. by rewrite debug_assert_true.
  - unfold drop_registered, release, decr_ref_count, arc, sub. cbn [rt_entry set_registrations arcs]. rewrite list_lookup_insert_eq by done.
    cbn [unwrap mbind outcome_bind registrations]. unfold ofits. rewrite (proj2 (fits_spec _ _)) by lia. cbn [mbind outcome_bind fst snd].
    rewrite (proj2 (Z.eqb_neq _ _)) by lia. f_equal. unfold set_registrations. cbn. rewrite list_insert_insert_eq, Z.add_simpl_r.
    destruct reg, i. cbn in *. by rewrite list_insert_id.
Qed.

(** ** One call *)
Section Calls.
Context {S : Type} `{Slab S WasmSubType}.
Context (dbg : bool) (env : SignalEnv) (place : gset Z -> Z) (place_ok : place_fresh place).
Context (code_at : Z -> Z -> Z -> Z -> Z -> SM Thread Z unit) (stack_pointer storage_ptr : Z).
Abbreviation call_raw := (call_unchecked_raw dbg env place code_at stack_pointer).
Abbreviation call := (call_unchecked dbg env place code_at stack_pointer storage_ptr).

(** The fields of the context that a call saves and restores. *)
Definition saved_field (o : Z) : Prop := o = 24 \/ o = 32 \/ o = 40 \/ o = 48.
(** An exported function [f] whose reference is [r], with [n] slots of storage
    away from the reference and the context; the kernel accepts the signal handlers. *)
Record callable (w : CallState S) (f : Z) (r : VMFuncRef) (n : nat) : Prop := {
  cb_ref : exists p, pm_index (E:=CallError) (exported_funcs (cs_store w)) f = Ok p /\ load_at (E:=CallError) p (memory w) = Ok r /\
    disjoint (p, 32) (storage_ptr, 16 * Z.of_nat n);
  cb_instance : exists k inst, vmctx2instance (cs_store w) !! fr_vmctx r = Some k /\ pm_index (E:=CallError) (instances (cs_store w)) k = Ok inst /\
    static_ (mo_offsets (ri_module inst)) = host_offsets;
  cb_magic : load_at (E:=CallError) (fr_vmctx r) (memory w) = Ok (mkU32 VMCONTEXT_MAGIC);
  cb_fields : forall o, saved_field o -> fr_vmctx r + o <> 0 /\ exists x, read_usize (E:=CallError) (memory w) (fr_vmctx r + o) = Ok x /\ u64_ok x;
  cb_apart : disjoint (fr_vmctx r, 56) (storage_ptr, 16 * Z.of_nat n);
  cb_stack : MAX_WASM_STACK <= stack_pointer < 2 ^ 64;
  cb_signals : exists s, handlers_registered env (cs_signals w) = Ok s }.
(** The type registered for it. *)
Record registered_as (w : CallState S) (r : VMFuncRef) (ty : WasmFuncType) : Prop := {
  ra_type : exists sty e i, slab_get (types (cs_reg w)) (fr_type_index r) = Some sty /\ as_func sty = Some ty /\
    type_to_rec_group (cs_reg w) !! fr_type_index r = Some e /\ arcs (cs_reg w) !! e = Some i /\ 1 <= registrations i < 2 ^ 64 - 1 }.

(** What a call leaves unchanged. *)
Record left_as_found (r : VMFuncRef) (w w' : CallState S) : Prop := {
  lf_store : cs_store w' = cs_store w;
  lf_reg : cs_reg w' = cs_reg w;
  lf_states : states (cs_thread w') = states (cs_thread w);
  lf_tls : default 0 (tls (cs_thread w')) = default 0 (tls (cs_thread w));
  lf_fields : forall o, saved_field o -> read_usize (E:=CallError) (memory w') (fr_vmctx r + o) = read_usize (memory w) (fr_vmctx r + o) }.

Lemma read_usize_any {E E'} h a x : read_usize (E:=E) h a = Ok x -> read_usize (E:=E') h a = Ok x.
Proof.
  unfold read_usize, load_at. cbn [vs_decode usize_struct]. unfold get_word, read_le. destruct (a =? 0); [done|]. cbn [negb assert_ mbind outcome_bind].
  match goal with |- context [unwrap ?o] => generalize o end. intros [y|]; cbn; congruence.
Qed.

(** The thread in which the code runs. *)
Definition with_limit (r : VMFuncRef) (t : Thread) : Thread :=
  mkThread (tls t) (states t) (store_at (fr_vmctx r + 24) (mkUsize (stack_pointer - MAX_WASM_STACK)) (mem t)).
Lemma enter_run (w : CallState S) r prev : MAX_WASM_STACK <= stack_pointer < 2 ^ 64 -> read_usize (E:=CallError) (memory w) (fr_vmctx r + 24) = Ok prev ->
  enter_wasm stack_pointer (fr_vmctx r) host_offsets w = (Ok (mkGuard (fr_vmctx r + 24) prev), mkCallState (with_limit r (cs_thread w)) (cs_store w) (cs_reg w) (cs_signals w)).
Proof.
  intros Hs Hp. unfold enter_wasm, mbind, sm_bind, sm_lift, asking. unfold checked_sub, try_from. rewrite (proj2 (fits_spec _ _)) by (unfold MAX_WASM_STACK in *; lia).
  cbn [unwrap]. change (vmctx_stack_limit host_offsets) with (Ok (E:=CallError) 24). cbn [mbind outcome_bind]. by rewrite Hp.
Qed.

Lemma cts_new_fields t vmctx xfp xpc efp : read_usize (E:=Z) (mem t) (vmctx + 32) = Ok xfp -> read_usize (E:=Z) (mem t) (vmctx + 40) = Ok xpc ->
  read_usize (E:=Z) (mem t) (vmctx + 48) = Ok efp -> cts_new vmctx host_offsets t = (Ok (mkCTS None host_offsets vmctx 0 xfp xpc efp), t).
Proof.
  intros H1 H2 H3. destruct (header_offsets (E:=Z) host_offsets eq_refl) as (O1 & O2 & O3). unfold cts_new, reading, mbind, sm_bind, vmctx_field.
  rewrite O1, O2, O3. cbn [mbind outcome_bind]. by rewrite H1, H2, H3.
Qed.
Lemma func_ref_run (w : CallState S) f r p : pm_index (E:=CallError) (exported_funcs (cs_store w)) f = Ok p -> load_at (E:=CallError) p (memory w) = Ok r ->
  stored_func_ref f w = (Ok r, w).
Proof. intros Hp Hr. unfold stored_func_ref, asking. rewrite Hp. cbn [mbind outcome_bind]. by rewrite Hr. Qed.
Lemma from_opaque_run (w : CallState S) o : load_at (E:=CallError) o (memory w) = Ok (mkU32 VMCONTEXT_MAGIC) -> from_opaque dbg o w = (Ok o, w).
Proof.
  intros Hm. unfold from_opaque. destruct dbg; [|done]. unfold mbind at 1, sm_bind, asking. rewrite Hm. cbn [mbind outcome_bind u32_value]. by rewrite Z.eqb_refl.
Qed.
(** The saved fields of the context in memory, and the activation that keeps them. *)
Definition word_at (h : heap) (a : Z) : Z := match read_usize (E:=CallError) h a with Ok x => x | _ => 0 end.
Definition saved_activation (h : heap) (vmctx : Z) : CallThreadState :=
  mkCTS None host_offsets vmctx 0 (word_at h (vmctx + 32)) (word_at h (vmctx + 40)) (word_at h (vmctx + 48)).
Definition handlers (w : CallState S) : Signals := match handlers_registered env (cs_signals w) with Ok s => s | _ => cs_signals w end.
(** The thread in which the code runs, and the state after it ended with memory [h]:
    the saved fields are written back. *)
Definition activated (w : CallState S) (r : VMFuncRef) : Thread :=
  entered place (with_limit r (cs_thread w)) (saved_activation (memory w) (fr_vmctx r)).
Definition restored (w : CallState S) (r : VMFuncRef) (h : heap) : heap :=
  store_at (fr_vmctx r + 24) (mkUsize (word_at (memory w) (fr_vmctx r + 24))) (with_fields (saved_activation (memory w) (fr_vmctx r)) h).
Definition closed (w : CallState S) (r : VMFuncRef) (h : heap) : CallState S :=
  mkCallState (mkThread (Some (default 0 (tls (cs_thread w)))) (states (cs_thread w)) (restored w r h)) (cs_store w) (cs_reg w) (handlers w).

Lemma registered_handlers s s' : handlers_registered env s = Ok s' -> registered s' = true.
Proof.
  unfold handlers_registered, ensure_signal_handlers_are_registered. destruct (registered s) eqn:Hr; [by intros [= <-]|]. by intros (s1 & _ & [= <-])%bind_ok.
Qed.
Lemma handlers_in_place w f r n : callable w f r n -> registered (handlers w) = true.
Proof. intros Hcb. destruct (cb_signals _ _ _ _ Hcb) as [s Hs]. unfold handlers. rewrite Hs. by eapply registered_handlers. Qed.
Lemma field_word w f r n o : callable w f r n -> saved_field o ->
  fr_vmctx r + o <> 0 /\ read_usize (E:=CallError) (memory w) (fr_vmctx r + o) = Ok (word_at (memory w) (fr_vmctx r + o)) /\ u64_ok (word_at (memory w) (fr_vmctx r + o)).
Proof. intros Hcb Ho. destruct (cb_fields _ _ _ _ Hcb o Ho) as (Hn & x & Hx & Hu). unfold word_at. rewrite Hx. done. Qed.

Lemma closed_left w f r n h : callable w f r n -> left_as_found r w (closed w r h).
Proof.
  intros Hcb. split; [done..|]. intros o Ho. unfold memory at 1, closed, restored, with_fields. cbn [cs_thread mem].
  destruct (field_word w f r n o Hcb Ho) as (No & -> & _).
  destruct (field_word w f r n 24 Hcb) as (N1 & _ & U1); [by left|]. destruct (field_word w f r n 32 Hcb) as (N2 & _ & U2); [by right; left|].
  destruct (field_word w f r n 40 Hcb) as (N3 & _ & U3); [by right; right; left|]. destruct (field_word w f r n 48 Hcb) as (N4 & _ & U4); [by right; right; right|].
  cbn [saved_activation cts_vmctx old_last_wasm_exit_fp old_last_wasm_exit_pc old_last_wasm_entry_fp].
  destruct Ho as [->|[->|[->| ->]]]; repeat (rewrite read_elsewhere by lia); by rewrite read_written.
Qed.
Lemma restored_elsewhere w r h a n : disjoint (a, n) (fr_vmctx r + 24, 32) -> same_on a n h (restored w r h).
Proof.
  intros Hd. unfold restored, with_fields. cbn [saved_activation cts_vmctx]. unfold disjoint in Hd. cbn [fst snd] in Hd.
  repeat (eapply same_on_trans; [|apply same_on_store; unfold disjoint; cbn [fst snd]; lia]). apply same_on_refl.
Qed.

Lemma raw_enters (w : CallState S) f r n : callable w f r n ->
  call_raw f storage_ptr (Z.of_nat n) w =
    (res ← on_thread (catch_traps place (fr_vmctx r) host_offsets (fun caller => code_at (fr_array_call r) (fr_vmctx r) caller storage_ptr (Z.of_nat n)));
     _ ← guard_drop (mkGuard (fr_vmctx r + 24) (word_at (memory w) (fr_vmctx r + 24)));
     match res with Some trap => sm_err (inr (Error_Trap (trap_code_of trap))) | None => mret tt end)
      (mkCallState (with_limit r (cs_thread w)) (cs_store w) (cs_reg w) (handlers w)).
Proof.
  intros Hcb. destruct (field_word w f r n 24 Hcb) as (_ & Hl & _); [by left|].
  destruct Hcb as [(p & Hp & Hr & _) (k & inst & Hk & Hi & Ho) Hm _ _ Hs (s & Hsig)].
  unfold call_unchecked_raw. erewrite sm_step by (by eapply func_ref_run). rewrite (sm_step _ _ _ _ _ (from_opaque_run w _ Hm)).
  erewrite sm_step by (unfold asking, get_instance_from_vmctx; by rewrite Hk). erewrite sm_step by (unfold asking; by rewrite Hi).
  rewrite Ho. rewrite (sm_step _ _ _ _ _ (enter_run _ _ _ Hs Hl)). unfold handlers. rewrite Hsig.
  erewrite sm_step by (unfold register_handlers; cbn [cs_signals]; rewrite Hsig; reflexivity). done.
Qed.
(** What a call does, in terms of what the code does in its activation. *)
Lemma raw_run (w : CallState S) f r n : callable w f r n ->
  let ended := code_at (fr_array_call r) (fr_vmctx r) (fr_vmctx r) storage_ptr (Z.of_nat n) (activated w r) in
  settled (activated w r) ended ->
  match ended with
  | (Ok _, t1) => call_raw f storage_ptr (Z.of_nat n) w = (Ok tt, closed w r (mem t1))
  | (Err _, t1) => exists info, trap_info t1 (default 0 (tls (activated w r))) = Some info /\
      call_raw f storage_ptr (Z.of_nat n) w = (Err (inr (Error_Trap (trap_code_of info))), closed w r (mem t1))
  | (Panic, _) => (call_raw f storage_ptr (Z.of_nat n) w).1 = Panic
  end.
Proof.
  intros Hcb ended Hset.
  destruct (field_word w f r n 32 Hcb) as (N2 & R2 & U2); [by right; left|].
  destruct (field_word w f r n 40 Hcb) as (N3 & R3 & U3); [by right; right; left|]. destruct (field_word w f r n 48 Hcb) as (N4 & R4 & U4); [by right; right; right|].
  set (t := with_limit r (cs_thread w)). set (c := saved_activation (memory w) (fr_vmctx r)).
  destruct (field_word w f r n 24 Hcb) as (N1 & _ & _); [by left|].
  assert (cts_new (fr_vmctx r) host_offsets t = (Ok c, t)) as Hc by (by apply cts_new_fields; unfold t, with_limit; cbn [mem];
    (rewrite read_elsewhere by lia; by eapply read_usize_any)).
  pose proof (catch_traps_run place place_ok (fr_vmctx r) host_offsets
    (fun caller => code_at (fr_array_call r) (fr_vmctx r) caller storage_ptr (Z.of_nat n)) t c Hc eq_refl Hset) as H1. cbn beta in H1.
  change (code_at (fr_array_call r) (fr_vmctx r) (fr_vmctx r) storage_ptr (Z.of_nat n) (entered place t c)) with ended in H1.
  rewrite (raw_enters w f r n Hcb). fold t. unfold mbind, sm_bind, on_thread. cbn [cs_thread cs_store cs_reg cs_signals].
  destruct ended as [[[]|j|] t1].
  - rewrite H1. reflexivity.
  - destruct H1 as (-> & [info Hinfo] & H1). rewrite H1, Hinfo. exists info. split; [exact Hinfo|reflexivity].
  - rewrite H1. reflexivity.
Qed.

Lemma callable_args w f r n reg vs : callable w f r n -> Forall whole vs -> length vs = n ->
  callable (mkCallState (mkThread (tls (cs_thread w)) (states (cs_thread w)) (write_vmvals storage_ptr vs (memory w))) (cs_store w) reg (cs_signals w)) f r n.
Proof.
  intros [(p & Hp & Hr & Hd) Hi Hm Hf Ha Hs Hsig] Hw <-.
  assert (forall o m, 0 <= o -> o + m <= 56 -> same_on (fr_vmctx r + o) m (memory w) (write_vmvals storage_ptr vs (memory w))) as Hh.
  { intros o m H0 H1. apply write_vmvals_other; [done|]. unfold disjoint in *. cbn [fst snd] in *. lia. }
  split; unfold memory; cbn [cs_thread cs_store cs_reg mem]; try done.
  - exists p. split; [done|]. split; [|done]. rewrite (same_on_load _ (memory w)); [done|]. by apply write_vmvals_other.
  - rewrite (same_on_load _ (memory w)); [done|]. pose proof (Hh 0 4) as H0. rewrite Z.add_0_r in H0. apply H0; lia.
  - intros o Ho. destruct (Hf o Ho) as (N & x & Hx & U). split; [done|]. exists x. split; [|done]. rewrite (same_on_usize _ (memory w)); [done|].
    apply Hh; destruct Ho as [->|[->|[->| ->]]]; lia.
Qed.

(** The call up to the point where the function runs. *)
Definition args_of (params : list (Val Z)) (n : nat) : list VMVal := (arg_vmval <$> params) ++ replicate (n - length params) (vm_v128 0).
Definition with_args (w : CallState S) (params : list (Val Z)) (n : nat) (reg : TypeRegistryInner S) : CallState S :=
  mkCallState (mkThread (tls (cs_thread w)) (states (cs_thread w)) (write_vmvals storage_ptr (args_of params n) (memory w))) (cs_store w) reg (cs_signals w).
Lemma args_whole params n : Forall whole (args_of params n).
Proof.
  apply list.Forall_app. split; [apply list.Forall_fmap, list.Forall_forall; intros; apply arg_whole|]. apply Forall_replicate. by apply union_whole.
Qed.
Lemma args_length params n : (length params <= n)%nat -> length (args_of params n) = n.
Proof. intros Hl. unfold args_of. rewrite length_app, length_fmap, length_replicate. lia. Qed.

Lemma call_enters w f r ty params results : callable w f r (Nat.max (length params) (length (fn_results ty))) -> registered_as w r ty ->
  wasm_vmval_storage (cs_store w) = [] -> typed params (fn_params ty) ->
  let n := Nat.max (length params) (length (fn_results ty)) in
  exists reg1 drop_ty, (forall t s g, drop_ty (mkCallState t s reg1 g) = (Ok (E:=CallError) tt, mkCallState t s (cs_reg w) g)) /\
    call f params results w =
      (_ ← dropping (call_raw f storage_ptr (Z.of_nat n)) drop_ty;
       values_vec ← asking (fun w => Ok (read_vmvals storage_ptr n (memory w)));
       results ← sm_lift (copy_results (fn_results ty) 0 results values_vec);
       _ ← on_store (fun s => (tt, return_wasm_vmval_storage [] s));
       _ ← drop_ty;
       mret results) (with_args w params n reg1).
Proof.
  intros [(p & Hp & Hr & _) _ _ _ _ _ _] [(sty & e & i & Hsty & Hty & He & Hi & Hn)] Hst Ht n.
  destruct (get_and_drop (E:=CallError) (E':=CallError) dbg (cs_reg w) _ _ _ _ Hsty He Hi Hn) as (reg1 & Hget & Hdrop).
  set (h := mkRegistered e sty (fr_type_index r)) in *. set (drop_ty := on_registry (fun reg => reg ← drop_registered dbg reg h; Ok (tt, reg))).
  exists reg1, drop_ty. split; [intros t s g; unfold drop_ty, on_registry; cbn [cs_reg cs_thread cs_store cs_signals]; by rewrite Hdrop|].
  assert (func_ty dbg f w = (Ok h, mkCallState (cs_thread w) (cs_store w) reg1 (cs_signals w))) as Hf.
  { unfold func_ty. rewrite (sm_step _ _ _ _ _ (func_ref_run w f r p Hp Hr)). unfold on_registry, mbind, sm_bind. by rewrite Hget. }
  unfold call_unchecked. rewrite (sm_step _ _ _ _ _ Hf). unfold unwrap_func. cbn [rt_ty h]. rewrite Hty. cbn [unwrap]. unfold mbind at 1, sm_bind, sm_lift at 1.
  unfold mbind at 1, sm_bind, on_store at 1. unfold take_wasm_vmval_storage. cbn [fst snd cs_store cs_thread cs_reg]. rewrite Hst.
  unfold mbind at 1, sm_bind, sm_lift at 1. cbn [bool_decide decide_rel]. rewrite debug_assert_true. fold n.
  assert (forall E s, copy_args (E:=E) s params (resize_with n (vm_v128 0) []) = Ok (args_of params n)) as Hargs.
  { intros E s. rewrite (copy_args_typed s params _ _ Ht); unfold resize_with; rewrite take_nil, Nat.sub_0_r; cbn [app]; [by rewrite drop_replicate|rewrite length_replicate; lia]. }
  unfold mbind at 1, sm_bind, asking at 1. cbn [cs_store]. rewrite Hargs. unfold mbind at 1, sm_bind, set_memory at 1, memory. cbn [cs_thread cs_store cs_reg].
  unfold with_args, memory. replace (mkStore _ _ _ _ _ [] _) with (cs_store w) by (destruct (cs_store w); cbn in *; by rewrite Hst). reflexivity.
Qed.
Lemma args_in_place w params n reg h : (length params <= n)%nat -> same_on storage_ptr (16 * Z.of_nat n) (memory (with_args w params n reg)) h ->
  read_vmvals storage_ptr (length params) h = arg_vmval <$> params.
Proof.
  intros Hl Hsame. rewrite (read_vmvals_same _ _ (memory (with_args w params n reg))) by (eapply same_on_sub; [exact Hsame|lia|lia]).
  pose proof (read_write_vmvals storage_ptr (args_of params n) (memory w) (args_whole params n)) as Hrw. rewrite args_length in Hrw by lia.
  replace n with (length params + (n - length params))%nat in Hrw at 1 by lia. rewrite read_vmvals_app in Hrw. apply (f_equal (take (length params))) in Hrw.
  unfold args_of in Hrw. rewrite !take_app_length' in Hrw by (by rewrite ?read_vmvals_length, ?length_fmap). exact Hrw.
Qed.
Lemma word_kept w params n reg r o : (length params <= n)%nat -> disjoint (fr_vmctx r, 56) (storage_ptr, 16 * Z.of_nat n) -> saved_field o ->
  word_at (memory (with_args w params n reg)) (fr_vmctx r + o) = word_at (memory w) (fr_vmctx r + o).
Proof.
  intros Hl Ha Ho. unfold word_at. rewrite (same_on_usize _ (memory w)); [done|]. apply write_vmvals_other; [apply args_whole|]. rewrite args_length by lia.
  unfold disjoint in *. cbn [fst snd] in *. destruct Ho as [->|[->|[->| ->]]]; lia.
Qed.

(** The thread in which the function's code runs when it is called on [params]: the
    arguments are in the storage, the stack limit is set, and a new activation that
    keeps the saved fields of the context is the innermost one. *)
Definition entry_thread (w : CallState S) (r : VMFuncRef) (params : list (Val Z)) (n : nat) : Thread :=
  entered place
    (mkThread (tls (cs_thread w)) (states (cs_thread w))
       (store_at (fr_vmctx r + 24) (mkUsize (stack_pointer - MAX_WASM_STACK)) (write_vmvals storage_ptr (args_of params n) (memory w))))
    (saved_activation (memory w) (fr_vmctx r)).
Lemma entry_activated w f r params n reg : (length params <= n)%nat -> callable w f r n ->
  activated (with_args w params n reg) r = entry_thread w r params n.
Proof.
  intros Hl Hcb. unfold activated, entry_thread, saved_activation, with_limit. pose proof (cb_apart _ _ _ _ Hcb) as Ha.
  rewrite !word_kept by (done || unfold saved_field; auto). done.
Qed.
Lemma closed_args w f r params n reg h : (length params <= n)%nat -> callable w f r n ->
  closed (with_args w params n reg) r h = mkCallState (cs_thread (closed w r h)) (cs_store w) reg (handlers w).
Proof.
  intros Hl Hcb. unfold closed, restored, saved_activation. pose proof (cb_apart _ _ _ _ Hcb) as Ha.
  rewrite !word_kept by (done || unfold saved_field; auto). done.
Qed.
Lemma entry_magic w f r params n : (length params <= n)%nat -> callable w f r n ->
  load_at (E:=CallError) (fr_vmctx r) (mem (entry_thread w r params n)) = Ok (mkU32 VMCONTEXT_MAGIC).
Proof.
  intros Hl Hcb. pose proof (cb_apart _ _ _ _ Hcb) as Ha. rewrite (same_on_load _ (memory w)); [exact (cb_magic _ _ _ _ Hcb)|]. cbn [mem entry_thread entered].
  eapply same_on_trans; [|apply same_on_store; unfold disjoint; cbn [fst snd vs_size u32_struct]; lia]. apply write_vmvals_other; [apply args_whole|].
  rewrite args_length by lia. unfold disjoint in *. cbn [fst snd vs_size u32_struct] in *. lia.
Qed.
Lemma entry_args w f r params n : (length params <= n)%nat -> callable w f r n ->
  read_vmvals storage_ptr (length params) (mem (entry_thread w r params n)) = arg_vmval <$> params.
Proof.
  intros Hl Hcb. pose proof (cb_apart _ _ _ _ Hcb) as Ha. apply (args_in_place w params n (cs_reg w)); [done|]. cbn [mem entry_thread entered].
  unfold memory, with_args. cbn [cs_thread mem]. apply same_on_store. unfold disjoint in *. cbn [fst snd] in *. lia.
Qed.

(** Calling an exported function from the host runs its compiled code in the thread
    prepared for it.  When the code returns, the call returns the results it left in
    the storage; when it jumps to the activation, the call returns the trap recorded
    there as an error. *)
Lemma call_exact (w : CallState S) f r ty params results :
  let n := Nat.max (length params) (length (fn_results ty)) in
  callable w f r n -> registered_as w r ty -> wasm_vmval_storage (cs_store w) = [] ->
  typed params (fn_params ty) -> length results = length (fn_results ty) ->
  let ended := code_at (fr_array_call r) (fr_vmctx r) (fr_vmctx r) storage_ptr (Z.of_nat n) (entry_thread w r params n) in
  settled (entry_thread w r params n) ended ->
  match ended with
  | (Ok _, t1) => forall vs, decoded (read_vmvals storage_ptr (length (fn_results ty)) (mem t1)) (fn_results ty) vs ->
      call f params results w = (Ok vs, closed w r (mem t1))
  | (Err _, t1) => exists info, trap_info t1 (default 0 (tls (entry_thread w r params n))) = Some info /\
      call f params results w = (Err (inr (Error_Trap (trap_code_of info))), closed w r (mem t1))
  | (Panic, _) => (call f params results w).1 = Panic
  end.
Proof.
  intros n Hcb Hra Hst Ht Hl ended Hset. assert (length params <= n)%nat as Hn by lia.
  destruct (call_enters w f r ty params results Hcb Hra Hst Ht) as (reg1 & drop_ty & Hdrop & Hcall). fold n in Hcall.
  set (w1 := with_args w params n reg1) in *.
  pose proof (callable_args w f r n reg1 (args_of params n) Hcb (args_whole params n) (args_length params n Hn)) as Hcb1. fold w1 in Hcb1.
  pose proof (raw_run w1 f r n Hcb1) as Hraw. cbn zeta in Hraw.
  assert (activated w1 r = entry_thread w r params n) as Hact by (by apply (entry_activated w f)).
  rewrite Hact in Hraw. fold ended in Hraw. specialize (Hraw Hset). rewrite Hcall. destruct ended as [[[]|j|] t1].
  - intros vs Hd. unfold dropping, mbind, sm_bind. rewrite Hraw. unfold w1. rewrite (closed_args w f) by done. unfold asking, sm_lift, memory. cbn [cs_thread cs_store cs_reg cs_signals closed mem].
    assert (copy_results (E:=CallError) (fn_results ty) 0 results (read_vmvals storage_ptr n (restored w r (mem t1))) = Ok vs) as ->.
    { replace n with (length (fn_results ty) + (n - length (fn_results ty)))%nat by lia. rewrite read_vmvals_app.
      apply (copy_results_decoded _ (fn_results ty) vs) with (pre := []).
      - rewrite (read_vmvals_same _ _ (mem t1)); [done|]. apply restored_elsewhere. pose proof (cb_apart _ _ _ _ Hcb) as Ha. unfold disjoint in *. cbn [fst snd] in *. lia.
      - rewrite Hl, <- (Forall3_length_lr _ _ _ _ Hd). by rewrite (Forall3_length_lm _ _ _ _ Hd). }
    unfold on_store. cbn [cs_thread cs_store cs_reg cs_signals fst snd]. rewrite Hdrop. unfold return_wasm_vmval_storage, mret, sm_ret, closed.
    do 2 f_equal. destruct (cs_store w); cbn in *. by rewrite Hst.
  - destruct Hraw as (info & Hinfo & Hraw). exists info. split; [done|].
    unfold dropping, mbind, sm_bind. rewrite Hraw. unfold w1. rewrite (closed_args w f), Hdrop by done. done.
  - unfold dropping, mbind, sm_bind. destruct (call_raw f storage_ptr (Z.of_nat n) w1) as [res w2]. cbn [fst] in Hraw. by subst res.
Qed.
End Calls.
