(* ===== verification/LinkerSpec.v ===== *)
(** * The linker implements a map from names to definitions

    The linker interns names and keys its definitions by pairs of interned
    indices.  Its operations refine those of a map from pairs of names, errors
    and the definitions an error leaves behind included. *)
From stdpp Require Import base list gmap option strings numbers.
From S2P Require Import Prelude Types Module ModuleTypes TypeRegistry VMVal ConstEval VMOffsets Mmap RtMemory VMHeap BTree Code Instance Store.
Local Open Scope Z_scope.

(** ** The specification *)
Abbreviation definitions := (gmap (string * string) Extern).

(** Define items under a module name, one after the other. *)
Fixpoint spec_define (module : string) (items : list (string * Extern)) (a : definitions) : outcome Error unit * definitions :=
  match items with
  | [] => (Ok tt, a)
  | (name, x) :: items =>
      match a !! (module, name) with
      | Some _ => (Err (AlreadyDefined module name), a)
      | None => spec_define module items (<[(module, name) := x]> a)
      end
  end.

(** The definitions of a module. *)
Definition items_of (module : string) (a : definitions) : list (string * Extern) :=
  (fun p => (p.1.2, p.2)) <$> filter (fun p => p.1.1 = module) (map_to_list a).

(** ** Refinement *)
Record linker_inv (l : Linker) : Prop := {
  lv_index : forall s i, string2idx l !! s = Some i <-> pm_get (strings l) i = Some s;
  lv_keys : forall k x, lk_map l !! k = Some x ->
    is_Some (pm_get (strings l) (ik_module k)) /\ is_Some (pm_get (strings l) (ik_name k)) }.

Record refines (l : Linker) (a : definitions) : Prop := {
  rf_inv : linker_inv l;
  rf_get : forall m n, linker_get l m n = a !! (m, n) }.

Lemma refines_new : refines linker_new ∅.
Proof.
  split; [split|].
  - intros s i. cbn. split; [done|]. unfold pm_get. destruct (0 <=? i); by rewrite ?lookup_nil.
  - done.
  - done.
Qed.

Lemma linker_get_key l m n i j : linker_inv l -> pm_get (strings l) i = Some m -> pm_get (strings l) j = Some n ->
  linker_get l m n = lk_map l !! mkImportKey j i.
Proof.
  intros Hl Hi Hj. apply (lv_index _ Hl) in Hi, Hj. unfold linker_get. rewrite Hi. cbn. by rewrite Hj.
Qed.

(** *** Interning *)
Lemma intern_str_ok s l (r := intern_str s l) : linker_inv l ->
  linker_inv r.2 /\ pm_get (strings r.2) r.1 = Some s /\ (forall i t, pm_get (strings l) i = Some t -> pm_get (strings r.2) i = Some t) /\
  lk_map r.2 = lk_map l.
Proof.
  intros Hl. subst r. unfold intern_str. destruct (string2idx l !! s) as [i|] eqn:Hs; cbn.
  { split; [done|]. split; [by apply (lv_index _ Hl)|done]. }
  assert (Hold : forall i t, pm_get (strings l) i = Some t -> pm_get (strings l ++ [s]) i = Some t)
    by (intros; by apply pm_get_push_old).
  split; [|split; [apply pm_get_push_new|done]]. split; cbn.
  - intros t i. split.
    + intros [[<- <-]|[Hne Hi]]%lookup_insert_Some; [apply pm_get_push_new|]. by apply Hold, (lv_index _ Hl).
    + intros [Hi|[-> ->]]%pm_get_push_inv.
      * apply (lv_index _ Hl) in Hi. rewrite lookup_insert_ne; [done|]. intros ->. congruence.
      * by rewrite lookup_insert_eq.
  - intros k x Hk. destruct (lv_keys _ Hl k x Hk) as [[m Hm] [n Hn]].
    rewrite (Hold _ _ Hm), (Hold _ _ Hn). eauto.
Qed.

Lemma linker_get_intern s l m n : linker_inv l -> linker_get (intern_str s l).2 m n = linker_get l m n.
Proof.
  intros Hl. destruct (intern_str_ok s l Hl) as (Hl' & Hs & Hold & Hmap).
  destruct (linker_get l m n) as [x|] eqn:Hg.
  - unfold linker_get in Hg. apply bind_Some in Hg as (i & Hi & (j & Hj & Hk)%bind_Some).
    apply (lv_index _ Hl) in Hi, Hj. rewrite (linker_get_key _ m n i j Hl'); [by rewrite Hmap|by apply Hold|by apply Hold].
  - destruct (linker_get (intern_str s l).2 m n) as [x|] eqn:Hg'; [|done]. exfalso.
    unfold linker_get in Hg'. apply bind_Some in Hg' as (i & Hi & (j & Hj & Hk)%bind_Some).
    rewrite Hmap in Hk. destruct (lv_keys _ Hl _ _ Hk) as [[m' Hm'] [n' Hn']]. cbn in Hm', Hn'.
    apply (lv_index _ Hl') in Hi, Hj. pose proof (Hold _ _ Hm') as E1. pose proof (Hold _ _ Hn') as E2.
    rewrite Hi in E1. rewrite Hj in E2. injection E1 as <-. injection E2 as <-.
    rewrite (linker_get_key l m n i j Hl Hm' Hn') in Hg. congruence.
Qed.

Lemma refines_intern s l a : refines l a -> refines (intern_str s l).2 a.
Proof.
  intros [Hl Hg]. split; [by apply intern_str_ok|]. intros m n. by rewrite linker_get_intern.
Qed.

(** *** Inserting *)
Definition keyed (l : Linker) (k : ImportKey) (m n : string) : Prop :=
  pm_get (strings l) (ik_module k) = Some m /\ pm_get (strings l) (ik_name k) = Some n.

Lemma linker_insert_ok l a k x m n : refines l a -> keyed l k m n ->
  match a !! (m, n) with
  | Some _ => linker_insert k x l = (Err (AlreadyDefined m n), l)
  | None => exists l', linker_insert k x l = (Ok tt, l') /\ refines l' (<[(m, n) := x]> a) /\
      forall k m n, keyed l k m n -> keyed l' k m n
  end.
Proof.
  intros [Hl Hg] [Hm Hn]. unfold linker_insert.
  assert (Hk : lk_map l !! k = a !! (m, n)) by (rewrite <- Hg, (linker_get_key l m n _ _ Hl Hm Hn); by destruct k).
  rewrite Hk. destruct (a !! (m, n)) as [y|] eqn:Ha.
  { unfold pm_index. rewrite Hm. cbn [unwrap mbind outcome_bind]. by rewrite Hn. }
  eexists. split; [done|]. split; [|by intros k' m' n']. split; [split; cbn|].
  - apply (lv_index _ Hl).
  - intros k' x' [[<- _]|[_ Hk']]%lookup_insert_Some; [split; by eexists|]. by eapply lv_keys.
  - intros m' n'. unfold linker_get. cbn [string2idx lk_map].
    destruct (decide ((m, n) = (m', n'))) as [[= <- <-]|Hne].
    + rewrite lookup_insert_eq. rewrite (proj2 (lv_index _ Hl m _) Hm). cbn [mbind option_bind].
      rewrite (proj2 (lv_index _ Hl n _) Hn). cbn [mbind option_bind]. destruct k. apply lookup_insert_eq.
    + rewrite lookup_insert_ne by done. rewrite <- Hg. unfold linker_get.
      destruct (string2idx l !! m') as [i|] eqn:Hi; [|done]. cbn. destruct (string2idx l !! n') as [j|] eqn:Hj; [|done]. cbn.
      rewrite lookup_insert_ne; [done|]. intros ->. apply Hne. apply (lv_index _ Hl) in Hi, Hj. cbn in Hm, Hn. congruence.
Qed.

(** Inserting items under keys that stand for their names. *)
Lemma insert_items_ok module (items : list (string * Extern)) keys l a :
  refines l a -> Forall2 (fun p k => keyed l k.1 module p.1 /\ k.2 = p.2) items keys ->
  exists r l' a', sm_for (fun p => linker_insert p.1 p.2) keys l = (r, l') /\
    spec_define module items a = (r, a') /\ refines l' a'.
Proof.
  intros Hr Hf. revert l a Hr Hf. induction items as [|[n x] items IH] in keys |- *; intros l a Hr Hf.
  - apply Forall2_nil_inv_l in Hf as ->. exists (Ok tt), l, a. done.
  - apply Forall2_cons_inv_l in Hf as ([k y] & keys' & [Hk Hy] & Hf & ->). cbn in Hk, Hy. subst y. cbn [sm_for spec_define].
    pose proof (linker_insert_ok l a k x module n Hr Hk) as Hi. destruct (a !! (module, n)).
    + exists (Err (AlreadyDefined module n)), l, a. split; [|done]. unfold mbind, sm_bind. cbn [fst snd]. by rewrite Hi.
    + destruct Hi as (l1 & Hi & Hr1 & Hkeep). destruct (IH keys' l1 _ Hr1) as (r & l' & a' & H1 & H2 & H3).
      * eapply list.Forall2_impl; [exact Hf|]. intros p q [? ?]. split; [by apply Hkeep|done].
      * exists r, l', a'. split; [|done]. unfold mbind, sm_bind. cbn [fst snd]. by rewrite Hi.
Qed.

(** *** Operations *)
Lemma keyed_intern s l k m n : linker_inv l -> keyed l k m n -> keyed (intern_str s l).2 k m n.
Proof. intros Hl [Hm Hn]. destruct (intern_str_ok s l Hl) as (_ & _ & Hold & _). split; by apply Hold. Qed.

Lemma import_key_ok module name l a (r := import_key module (Some name) l) : refines l a ->
  refines r.2 a /\ keyed r.2 r.1 module name /\ forall k m n, keyed l k m n -> keyed r.2 k m n.
Proof.
  intros Hr. subst r. cbn. pose proof (refines_intern module l a Hr) as Hr1.
  pose proof (refines_intern name _ a Hr1) as Hr2.
  destruct (intern_str_ok module l (rf_inv _ _ Hr)) as (_ & Hm & _ & _).
  destruct (intern_str_ok name _ (rf_inv _ _ Hr1)) as (_ & Hn & Hold & _).
  split; [done|]. split; [by split; [apply Hold|]|]. intros k m n Hk. by apply keyed_intern, keyed_intern; [apply Hr1|apply Hr|].
Qed.

Lemma import_keys_ok module exps l a (r := import_keys module exps l) : refines l a ->
  refines r.2 a /\ Forall2 (fun p k => keyed r.2 k.1 module p.1 /\ k.2 = p.2) exps r.1 /\
  forall k m n, keyed l k m n -> keyed r.2 k m n.
Proof.
  subst r. revert l; induction exps as [|[n x] exps IH]; intros l Hr; cbn [import_keys fst snd]; [by split; [|split; [constructor|]]|].
  destruct (import_key_ok module n l a Hr) as (Hr1 & Hk & Hkeep).
  destruct (IH _ Hr1) as (Hr2 & Hf & Hkeep2). split; [done|]. split.
  - constructor; [|done]. split; [|done]. by apply Hkeep2.
  - intros k m' n' Hk'. by apply Hkeep2, Hkeep.
Qed.

Lemma define_exports_ok module exps l a : refines l a ->
  exists r l' a', define_exports module exps l = (r, l') /\ spec_define module exps a = (r, a') /\ refines l' a'.
Proof.
  intros Hr. destruct (import_keys_ok module exps l a Hr) as (Hr1 & Hf & _).
  unfold define_exports, mbind, sm_bind, sm_run. cbn. by apply insert_items_ok.
Qed.

Lemma sm_for_fmap {S X Y} (g : X -> Y) (f : Y -> SM S Error unit) l s :
  sm_for f (g <$> l) s = sm_for (fun x => f (g x)) l s.
Proof.
  revert s; induction l as [|x l IH]; intros s; cbn; [done|]. unfold mbind, sm_bind. destruct (f (g x) s) as [[]?]; [apply IH|done..].
Qed.

Lemma items_of_elem module a n x : (n, x) ∈ items_of module a <-> a !! (module, n) = Some x.
Proof.
  unfold items_of. rewrite list_elem_of_fmap. split.
  - intros ([[m n'] x'] & [= -> ->] & Hin). apply list_elem_of_filter in Hin as [Hm Hin]. cbn in Hm. subst m.
    by apply elem_of_map_to_list in Hin.
  - intros Ha. exists ((module, n), x). split; [done|]. apply list_elem_of_filter. split; [done|]. by apply elem_of_map_to_list.
Qed.

Lemma items_of_nodup module a : NoDup (items_of module a).
Proof.
  apply NoDup_fmap_2_strong.
  - intros [[m n] x] [[m' n'] x'] Hx Hy. apply list_elem_of_filter in Hx as [Hx _], Hy as [Hy _]. cbn in *. congruence.
  - apply list.NoDup_filter, NoDup_map_to_list.
Qed.

(** The names of the items an iteration finds under a module. *)
Definition named (l : Linker) (p : ImportKey * Extern) : string * Extern := (default EmptyString (pm_get (strings l) (ik_name p.1)), p.2).

Lemma named_items l a module mi found : refines l a -> pm_get (strings l) mi = Some module ->
  found ≡ₚ map_to_list (lk_map l) ->
  named l <$> filter (fun p => ik_module p.1 = mi) found ≡ₚ items_of module a.
Proof.
  intros [Hl Hg] Hmi Hperm.
  assert (Hin : forall p, p ∈ filter (fun p => ik_module p.1 = mi) found -> exists n, p.1 = mkImportKey (ik_name p.1) mi /\
      pm_get (strings l) (ik_name p.1) = Some n /\ lk_map l !! p.1 = Some p.2).
  { intros [k x] [Hk Hx]%list_elem_of_filter. cbn in *. rewrite Hperm in Hx. apply elem_of_map_to_list in Hx.
    destruct (lv_keys _ Hl k x Hx) as [_ [n Hn]]. exists n. destruct k. cbn in *. by subst. }
  apply NoDup_Permutation; [|apply items_of_nodup|].
  - apply NoDup_fmap_2_strong; [|apply list.NoDup_filter; rewrite Hperm; apply NoDup_map_to_list].
    intros [k x] [k' x'] Hx Hy [= En Ex]. destruct (Hin _ Hx) as (n & E1 & E2 & _), (Hin _ Hy) as (n' & E1' & E2' & _). cbn in *.
    rewrite E2, E2' in En. cbn in En. subst n'. apply (lv_index _ Hl) in E2, E2'. rewrite E2 in E2'. injection E2' as E2'.
    rewrite E1, E1', E2', Ex. done.
  - intros [n x]. rewrite items_of_elem, <- Hg, list_elem_of_fmap. split.
    + intros ([k y] & [= -> ->] & Hp). destruct (Hin _ Hp) as (n & E1 & E2 & E3). cbn in *. rewrite E2. cbn.
      rewrite (linker_get_key l module n mi (ik_name k) Hl Hmi E2), <- E1. done.
    + intros Hx. pose proof Hx as Hx'. unfold linker_get in Hx. apply bind_Some in Hx as (i & Hi & (j & Hj & Hk)%bind_Some).
      apply (lv_index _ Hl) in Hi, Hj.
      assert (i = mi) as -> by (apply (lv_index _ Hl) in Hi, Hmi; congruence).
      exists (mkImportKey j mi, x). split; [unfold named; cbn; by rewrite Hj|].
      apply list_elem_of_filter. split; [done|]. rewrite Hperm. by apply elem_of_map_to_list.
Qed.

Lemma alias_module_ok iter module as_module l a : refines l a -> (forall m, iter m ≡ₚ map_to_list m) ->
  exists items r l' a', items ≡ₚ items_of module a /\ alias_module iter module as_module l = (r, l') /\
    spec_define as_module items a = (r, a') /\ refines l' a'.
Proof.
  intros Hr Hiter. set (l1 := (intern_str module l).2). set (l2 := (intern_str as_module l1).2).
  pose proof (refines_intern module l a Hr) as Hr1. pose proof (refines_intern as_module l1 a Hr1) as Hr2. fold l1 in Hr1. fold l2 in Hr2.
  destruct (intern_str_ok module l (rf_inv _ _ Hr)) as (_ & Hm & _ & _).
  destruct (intern_str_ok as_module l1 (rf_inv _ _ Hr1)) as (_ & Ha & Hold & _). fold l1 in Hm. fold l2 in Ha, Hold.
  set (mi := (intern_str module l).1) in *. set (ai := (intern_str as_module l1).1) in *.
  set (found := filter (fun p => ik_module p.1 = mi) (iter (lk_map l2))).
  destruct (insert_items_ok as_module (named l2 <$> found) ((fun p => (mkImportKey (ik_name p.1) ai, p.2)) <$> found) l2 a Hr2)
    as (r & l' & a' & H1 & H2 & H3).
  { rewrite Forall2_fmap. apply Forall_Forall2_diag. apply list.Forall_forall. intros [k x] Hk. cbn.
    split; [|done]. split; [done|]. cbn. subst found. apply list_elem_of_filter in Hk as [_ Hk]. rewrite Hiter in Hk.
    apply elem_of_map_to_list in Hk. destruct (lv_keys _ (rf_inv _ _ Hr2) _ _ Hk) as [_ [n Hn]]. by rewrite Hn. }
  exists (named l2 <$> found), r, l', a'. split; [|split; [|done]].
  - apply named_items; [done|by apply Hold|apply Hiter].
  - rewrite <- H1, sm_for_fmap. unfold alias_module, mbind, sm_bind, sm_run. cbn.
    fold mi l1. fold ai l2. fold found. by rewrite sm_for_fmap.
Qed.

(** C16: the linker refines a map from pairs of names: defining the exports of
    an instance and aliasing a module behave as defining their items one after
    the other, with an error that names exactly the first name already taken and
    keeps what was defined before it; and a lookup returns what the map holds.
    An alias defines the items of the source module in some order. *)
Theorem linker_refines l a (Hr : refines l a) :
  (forall module name, linker_get l module name = a !! (module, name)) /\
  (forall module exps, exists r l' a', define_exports module exps l = (r, l') /\
     spec_define module exps a = (r, a') /\ refines l' a') /\
  (forall iter module as_module, (forall m, iter m ≡ₚ map_to_list m) ->
     exists items r l' a', items ≡ₚ items_of module a /\ alias_module iter module as_module l = (r, l') /\
       spec_define as_module items a = (r, a') /\ refines l' a').
Proof.
  split; [apply Hr|]. split; [intros; by apply define_exports_ok|]. intros. by apply alias_module_ok.
Qed.

Lemma linker_refines_witness : exists l' a',
  define_exports "env" [("f", Ext_Func 0); ("m", Ext_Memory 0); ("f", Ext_Func 1)]%string linker_new
    = (Err (AlreadyDefined "env" "f"), l') /\
  refines l' a' /\ a' !! ("env", "m")%string = Some (Ext_Memory 0).
Proof.
  destruct (linker_refines linker_new ∅ refines_new) as (_ & Hd & _).
  destruct (Hd "env"%string [("f", Ext_Func 0); ("m", Ext_Memory 0); ("f", Ext_Func 1)]%string) as (r & l' & a' & H1 & H2 & H3).
  injection H2 as <- <-. exists l'. eexists. split; [exact H1|]. split; [exact H3|reflexivity].
Defined.
