(* ===== verification/StoreSpec.v ===== *)
(** * Linking modules

    The imports of a module are resolved to what the linker defines under their
    names, in order; and an instance that exports an entity it has imported
    exports exactly that entity. *)
From stdpp Require Import base list gmap option strings numbers.
From S2P Require Import Prelude Types Module ModuleTypes TypeRegistry VMVal ConstEval ModuleTranslator ModuleTranslatorImports VMOffsets Mmap RtMemory VMHeap BTree Code Instance InstanceInit Store LinkerSpec.
Local Open Scope Z_scope.

(** ** Resolving imports *)
Inductive resolved : Type :=
| R_Func (x : VMFunctionImport)
| R_Table (x : VMImport)
| R_Memory (x : VMImport)
| R_Global (x : VMImport).

(** The definition [x] can be bound to an import of type [ty], as [r]. *)
Inductive binds (h : heap) (s : Store) : Extern -> EntityType -> resolved -> Prop :=
| bind_func f ty x : as_vmfunction_import (E:=Error) h s f = Ok x -> binds h s (Ext_Func f) (EntityType_Function ty) (R_Func x)
| bind_table t ty x : as_vmtable_import (E:=Error) s t = Ok x -> binds h s (Ext_Table t) (EntityType_Table ty) (R_Table x)
| bind_memory t ty x : as_vmmemory_import (E:=Error) s t = Ok x -> binds h s (Ext_Memory t) (EntityType_Memory ty) (R_Memory x)
| bind_global t ty x : as_vmglobal_import (E:=Error) s t = Ok x -> binds h s (Ext_Global t) (EntityType_Global ty) (R_Global x).

Definition bound (a : definitions) (h : heap) (s : Store) (i : Import) (r : resolved) : Prop :=
  exists x, a !! (imp_module i, imp_name i) = Some x /\ binds h s x (imp_ty i) r.

(** The resolved imports by kind, in order. *)
Definition collect (rs : list resolved) : Imports :=
  mkImports (omap (fun r => match r with R_Func x => Some x | _ => None end) rs)
    (omap (fun r => match r with R_Table x => Some x | _ => None end) rs)
    (omap (fun r => match r with R_Memory x => Some x | _ => None end) rs)
    (omap (fun r => match r with R_Global x => Some x | _ => None end) rs).

Lemma imports_eq im f t g m : im_functions im = f -> im_tables im = t -> im_memories im = m -> im_globals im = g -> im = mkImports f t m g.
Proof. destruct im; cbn. by intros -> -> -> ->. Qed.

Lemma collect_snoc rs r : collect (rs ++ [r]) =
  match r with
  | R_Func x => mkImports (im_functions (collect rs) ++ [x]) (im_tables (collect rs)) (im_memories (collect rs)) (im_globals (collect rs))
  | R_Table x => mkImports (im_functions (collect rs)) (im_tables (collect rs) ++ [x]) (im_memories (collect rs)) (im_globals (collect rs))
  | R_Memory x => mkImports (im_functions (collect rs)) (im_tables (collect rs)) (im_memories (collect rs) ++ [x]) (im_globals (collect rs))
  | R_Global x => mkImports (im_functions (collect rs)) (im_tables (collect rs)) (im_memories (collect rs)) (im_globals (collect rs) ++ [x])
  end.
Proof. unfold collect. rewrite !omap_snoc. destruct r; cbn; by rewrite ?app_nil_r. Qed.

(** The handles in a definition exist in the store (and a function reference
    can be read). *)
Definition live (h : heap) (s : Store) (x : Extern) : Prop :=
  match x with
  | Ext_Func f => exists v, as_vmfunction_import (E:=Error) h s f = Ok v
  | Ext_Table t => exists v, as_vmtable_import (E:=Error) s t = Ok v
  | Ext_Memory t => exists v, as_vmmemory_import (E:=Error) s t = Ok v
  | Ext_Global t => exists v, as_vmglobal_import (E:=Error) s t = Ok v
  end.

Definition same_kind (x : Extern) (ty : EntityType) : bool :=
  match x, ty with
  | Ext_Func _, EntityType_Function _ | Ext_Table _, EntityType_Table _
  | Ext_Memory _, EntityType_Memory _ | Ext_Global _, EntityType_Global _ => true
  | _, _ => false
  end.

Lemma resolve_import_spec l a h s rs i : refines l a -> (forall k x, a !! k = Some x -> live h s x) ->
  match a !! (imp_module i, imp_name i) with
  | None => resolve_import l h s (collect rs) i = Err (MissingImport (imp_module i) (imp_name i) (imp_ty i))
  | Some x => if same_kind x (imp_ty i)
              then exists r, binds h s x (imp_ty i) r /\ resolve_import l h s (collect rs) i = Ok (collect (rs ++ [r]))
              else resolve_import l h s (collect rs) i = Panic
  end.
Proof.
  intros Hr Hlive. unfold resolve_import. rewrite (rf_get _ _ Hr). destruct (a !! _) as [x|] eqn:Ha; [|done].
  cbn [ok_or mbind outcome_bind]. pose proof (Hlive _ _ Ha) as Hl.
  destruct x, (imp_ty i); cbn [same_kind live] in *; try done; destruct Hl as [v Hv]; rewrite Hv; cbn [mbind outcome_bind];
    (eexists; split; [by constructor|]); by rewrite collect_snoc.
Qed.

Lemma resolve_loop l a h s imps rs : refines l a -> (forall k x, a !! k = Some x -> live h s x) ->
  match foldM (resolve_import l h s) imps (collect rs) with
  | Ok im => exists rs', Forall2 (bound a h s) imps rs' /\ im = collect (rs ++ rs')
  | Err e => exists pre i post rs', imps = pre ++ i :: post /\ Forall2 (bound a h s) pre rs' /\
      a !! (imp_module i, imp_name i) = None /\ e = MissingImport (imp_module i) (imp_name i) (imp_ty i)
  | Panic => exists pre i post rs' x, imps = pre ++ i :: post /\ Forall2 (bound a h s) pre rs' /\
      a !! (imp_module i, imp_name i) = Some x /\ same_kind x (imp_ty i) = false
  end.
Proof.
  intros Hr Hlive. revert rs; induction imps as [|i imps IH]; intros rs; cbn [foldM].
  { exists []. rewrite app_nil_r. by split; [constructor|]. }
  pose proof (resolve_import_spec l a h s rs i Hr Hlive) as Hi. destruct (a !! (imp_module i, imp_name i)) as [x|] eqn:Ha.
  2:{ rewrite Hi. exists [], i, imps, []. by split; [|split; [constructor|]]. }
  destruct (same_kind x (imp_ty i)) eqn:Hk.
  2:{ rewrite Hi. exists [], i, imps, [], x. by split; [|split; [constructor|]]. }
  destruct Hi as (r & Hb & ->). assert (Hbd : bound a h s i r) by (by exists x).
  specialize (IH (rs ++ [r])). destruct (foldM _ imps (collect (rs ++ [r]))) as [im|e|].
  - destruct IH as (rs' & Hf & ->). exists (r :: rs'). split; [by constructor|]. by rewrite <- app_assoc.
  - destruct IH as (pre & j & post & rs' & -> & Hf & Hm). exists (i :: pre), j, post, (r :: rs'). split; [done|]. split; [by constructor|done].
  - destruct IH as (pre & j & post & rs' & y & -> & Hf & Hm). exists (i :: pre), j, post, (r :: rs'), y. split; [done|]. split; [by constructor|done].
Qed.

(** Resolved imports are as many as the module declares of each kind. *)
Lemma collect_counts a h s imps rs (im := collect rs) : Forall2 (bound a h s) imps rs ->
  pm_len (im_functions im) = pm_len (imported_functions imps) /\ pm_len (im_tables im) = pm_len (imported_tables imps) /\
  pm_len (im_memories im) = pm_len (imported_memories imps) /\ pm_len (im_globals im) = pm_len (imported_globals imps).
Proof.
  subst im. unfold pm_len, collect, imported_functions, imported_tables, imported_memories, imported_globals. cbn.
  induction 1 as [|i r imps rs (x & _ & Hb) Hf (H1 & H2 & H3 & H4)]; [done|].
  remember (imp_ty i) as t eqn:Et. destruct Hb; cbn; rewrite <- Et; cbn; (split; [|split; [|split]]); lia.
Qed.

(** C17: resolving the imports of a module against a linker: either every import
    is bound to the definition of its name, in order and by kind, in the numbers
    the module declares; or the error names the first import without a
    definition; or, at the first definition of another kind, the code panics. *)
Theorem resolve_imports_correct l a h s imps (Hr : refines l a) (Hlive : forall k x, a !! k = Some x -> live h s x) :
  match resolve_imports l h s imps with
  | Ok im => exists rs, Forall2 (bound a h s) imps rs /\ im = collect rs /\
      pm_len (im_functions im) = pm_len (imported_functions imps) /\ pm_len (im_tables im) = pm_len (imported_tables imps) /\
      pm_len (im_memories im) = pm_len (imported_memories imps) /\ pm_len (im_globals im) = pm_len (imported_globals imps)
  | Err e => exists pre i post rs, imps = pre ++ i :: post /\ Forall2 (bound a h s) pre rs /\
      a !! (imp_module i, imp_name i) = None /\ e = MissingImport (imp_module i) (imp_name i) (imp_ty i)
  | Panic => exists pre i post rs x, imps = pre ++ i :: post /\ Forall2 (bound a h s) pre rs /\
      a !! (imp_module i, imp_name i) = Some x /\ same_kind x (imp_ty i) = false
  end.
Proof.
  pose proof (resolve_loop l a h s imps [] Hr Hlive) as H. unfold resolve_imports. change (mkImports [] [] [] []) with (collect []).
  destruct (foldM _ imps (collect [])) as [im|e|]; [|done..]. destruct H as (rs & Hf & ->). exists rs. split; [done|]. split; [done|].
  by eapply collect_counts.
Qed.

(** A linker with one function, whose reference is read from memory. *)
Lemma resolve_imports_correct_witness :
  let l := (define_exports "env" [("f", Ext_Func 0)]%string linker_new).2 in
  let s := (push_function 64 store_new).2 in
  let h := store_at 64 (mkVMFuncRef 11 12 13 5) ∅ in
  exists pre i post rs, [mkImport "env" "f" (EntityType_Function (Module_ 0)); mkImport "env" "g" (EntityType_Function (Module_ 0))] = pre ++ i :: post /\
    Forall2 (bound {[ ("env", "f")%string := Ext_Func 0 ]} h s) pre rs /\ imp_name i = "g"%string.
Proof.
  intros l s h. set (imps := [mkImport "env" "f" _; _]).
  assert (Hr : refines l {[ ("env", "f")%string := Ext_Func 0 ]}).
  { destruct (define_exports_ok "env" [("f", Ext_Func 0)]%string linker_new ∅ refines_new) as (r & l' & a' & H1 & H2 & H3).
    subst l. rewrite H1. injection H2 as _ <-. exact H3. }
  assert (Hlive : forall k x, ({[ ("env", "f")%string := Ext_Func 0 ]} : definitions) !! k = Some x -> live h s x).
  { intros k x [_ <-]%lookup_singleton_Some. exists (mkVMFunctionImport 12 11 13). vm_compute. reflexivity. }
  pose proof (resolve_imports_correct l _ h s imps Hr Hlive) as H.
  assert (He : resolve_imports l h s imps = Err (MissingImport "env" "g" (EntityType_Function (Module_ 0)))) by (vm_compute; reflexivity).
  rewrite He in H. destruct H as (pre & i & post & rs & Hi & Hf & _ & [= _ Hn _]). exists pre, i, post, rs. done.
Defined.

(** ** Exports *)
Section Exports.
Context (dbg : bool) (builtins_init : Z) (h : heap) (i : RtInstance) (ts : list Table) (imports : Imports).
Abbreviation m := (mo_translated (ri_module i)).
Abbreviation o := (mo_offsets (ri_module i)).
Abbreviation vp := (as_mut_ptr (ri_vmctx i)).
Abbreviation ms := (ri_memories i).

(** The instance's context holds what initialisation put there. *)
Definition context_holds : Prop := forall f c, in_layout o f ->
  field_content builtins_init (ri_vmctx i) ts ms (ri_module i) imports f = Some c -> read_field vp o f h = c.

(** Every pointer and length is a machine word. *)
Record words_ok : Prop := {
  wo_vmctx : 0 < vp < 2 ^ 64;
  wo_functions : Forall vs_valid (im_functions imports);
  wo_tables : Forall vs_valid (im_tables imports);
  wo_memories : Forall vs_valid (im_memories imports);
  wo_globals : Forall vs_valid (im_globals imports);
  wo_own_tables : Forall (fun t => vs_valid (as_vmtable_definition t)) ts;
  wo_own_memories : Forall (fun x => vs_valid (as_vmmemory_definition x)) ms;
  wo_refs : forall j f r, pm_get (functions m) j = Some f -> func_ref_of dbg (ri_module i) imports (ri_vmctx i) j f = Ok r -> vs_valid r }.

Hypothesis ready : instance_ready dbg (ri_vmctx i) ts ms (ri_module i) imports.
Hypothesis holds : context_holds.
Hypothesis words : words_ok.

Lemma pm_get_elem {A} (l : list A) k x : pm_get l k = Some x -> x ∈ l.
Proof. unfold pm_get. destruct (0 <=? k); [|done]. apply list_elem_of_lookup_2. Qed.

Lemma load_field {A} `{VMStructLaws A} f (v : A) : in_layout o f -> Z.of_nat vs_size = (extent_spec o f).2 -> vs_valid v ->
  field_content builtins_init (ri_vmctx i) ts ms (ri_module i) imports f = Some (vs_encode v) ->
  load_at (E:=Error) (plus_offset (ri_vmctx i) (extent_spec o f).1) h = Ok v.
Proof.
  intros Hf Hs Hv Hc. apply load_of_read; [done|]. rewrite <- (holds f _ Hf Hc). unfold read_field. by rewrite <- Hs, Nat2Z.id.
Qed.

(** An entity of an index space with [n] imports before the defined ones. *)
Lemma exported_spec {D} (ents : list D) t (n idx : Z) (off : Z -> outcome Error Z) (imported : outcome Error VMImport)
    (fld ifld : Z -> vm_field) imps :
  pm_get ents idx = Some t -> 0 <= n <= pm_len ents -> pm_len ents < 2 ^ 32 -> pm_len imps = n -> Forall vs_valid imps ->
  (forall d, 0 <= d < pm_len ents - n -> off d = Ok (plus_offset (ri_vmctx i) (extent_spec o (fld d)).1)) ->
  (forall k, 0 <= k < n -> in_layout o (ifld k) /\ Z.of_nat 16 = (extent_spec o (ifld k)).2) ->
  (forall k, field_content builtins_init (ri_vmctx i) ts ms (ri_module i) imports (ifld k) = vs_encode <$> pm_get imps k) ->
  (0 <= idx < n -> imported = load_at (plus_offset (ri_vmctx i) (extent_spec o (ifld idx)).1) h) ->
  exists e, (d ← (if idx <? n then Ok None else j ← sub 32 idx n; Ok (Some j));
             p ← home i d off imported; x ← pm_index ents idx; Ok (mkExported p.1 p.2 x)) = Ok e /\ ex_desc e = t /\
    if idx <? n then pm_get imps idx = Some (mkVMImport (ex_definition e) (ex_vmctx e))
    else ex_vmctx e = vp /\ 0 <= idx - n < pm_len ents - n /\
      ex_definition e = plus_offset (ri_vmctx i) (extent_spec o (fld (idx - n))).1.
Proof.
  intros Ht Hn Hl Hlen Hval Hown Himp Hc Hld. pose proof (pm_get_range _ _ _ Ht) as Hi. unfold pm_index. rewrite Ht.
  destruct (index_space_split (E:=Error) n (pm_len ents) idx Hn Hi Hl) as [[Hlt ->]|(Hge & -> & -> & Hd & _)].
  - destruct (pm_get_is_Some imps idx) as [x Hx]; [lia|]. destruct (Himp idx) as [Hf Hs]; [lia|].
    cbn [mbind outcome_bind home]. rewrite Hld by lia. rewrite (load_field (ifld idx) x); [|done|exact Hs| |by rewrite Hc, Hx].
    + eexists. split; [done|]. split; [done|]. by destruct x.
    + rewrite list.Forall_forall in Hval. by eapply Hval, pm_get_elem.
  - cbn [mbind outcome_bind home]. rewrite (Hown (idx - n) Hd). eexists. split; [done|]. split; [done|]. split; [done|]. split; [lia|done].
Qed.

Lemma accessor f sz (x : outcome Error Z) : in_layout o f -> field_extent (E:=Error) o f = (y ← x; Ok (y, sz)) -> x = Ok (extent_spec o f).1.
Proof. intros Hf He. apply (accessor_ok x sz). by rewrite <- He, (ready_accessor _ _ _ _ _ _ ready). Qed.

Lemma ready_in_layout f : 0 <= member_index f < member_count (layout_of m) f -> in_layout o f.
Proof. destruct (ready_layout _ _ _ _ _ _ ready) as (Ho & _ & _). by rewrite Ho. Qed.

(** The conditions of [exported_spec] for the fields [fld] and [ifld]. *)
Ltac exported_condition fld ifld :=
  first [ done | apply ready | apply words
   | intros d Hd; cbv delta [table_ptr memory_ptr global_ptr] beta; by rewrite (accessor (fld d) _ _ (ready_in_layout (fld d) Hd) eq_refl)
   | intros k Hk; split; [by apply ready_in_layout|done]
   | let Hk := fresh in intros Hk; cbv delta [imported_table imported_memory imported_global] beta;
     match type of Hk with _ <= ?k < _ => by rewrite (accessor (ifld k) _ _ (ready_in_layout (ifld k) Hk) eq_refl) end ].

Lemma exported_table_spec idx t : pm_get (tables m) idx = Some t ->
  exists e, get_exported_table (E:=Error) h i idx = Ok e /\ ex_desc e = t /\
    if idx <? num_imported_tables m then pm_get (im_tables imports) idx = Some (mkVMImport (ex_definition e) (ex_vmctx e))
    else ex_vmctx e = vp /\ exists x, pm_get ts (idx - num_imported_tables m) = Some x /\
      load_at (E:=Error) (ex_definition e) h = Ok (as_vmtable_definition x).
Proof.
  intros Ht.
  destruct (exported_spec (tables m) t (num_imported_tables m) idx (table_ptr i) (imported_table h i idx) F_table F_imported_table (im_tables imports))
    as (e & He & Hd & Hcase); [exported_condition F_table F_imported_table .. |].
  exists e. split; [exact He|]. split; [done|]. destruct (idx <? num_imported_tables m); [done|]. destruct Hcase as (Hv & Hr & ->).
  split; [done|]. rewrite <- (ry_own_tables _ _ _ _ _ _ ready) in Hr. destruct (pm_get_is_Some ts _ Hr) as [x Hx]. exists x. split; [done|].
  rewrite (ry_own_tables _ _ _ _ _ _ ready) in Hr. apply (load_field (F_table _)); [by apply ready_in_layout|done| |cbn; by rewrite Hx].
  pose proof (wo_own_tables words) as Hval. rewrite list.Forall_forall in Hval. by eapply Hval, pm_get_elem.
Qed.

Lemma exported_memory_spec idx t : pm_get (memories m) idx = Some t ->
  exists e, get_exported_memory (E:=Error) h i idx = Ok e /\ ex_desc e = t /\
    if idx <? num_imported_memories m then pm_get (im_memories imports) idx = Some (mkVMImport (ex_definition e) (ex_vmctx e))
    else ex_vmctx e = vp /\ exists x, pm_get ms (idx - num_imported_memories m) = Some x /\
      load_at (E:=Error) (ex_definition e) h = Ok (as_vmmemory_definition x).
Proof.
  intros Ht.
  destruct (exported_spec (memories m) t (num_imported_memories m) idx (memory_ptr i) (imported_memory h i idx) F_memory F_imported_memory (im_memories imports))
    as (e & He & Hd & Hcase); [exported_condition F_memory F_imported_memory .. |].
  exists e. split; [exact He|]. split; [done|]. destruct (idx <? num_imported_memories m); [done|]. destruct Hcase as (Hv & Hr & ->).
  split; [done|]. rewrite <- (ry_own_memories _ _ _ _ _ _ ready) in Hr. destruct (pm_get_is_Some ms _ Hr) as [x Hx]. exists x. split; [done|].
  rewrite (ry_own_memories _ _ _ _ _ _ ready) in Hr. apply (load_field (F_memory _)); [by apply ready_in_layout|done| |cbn; by rewrite Hx].
  pose proof (wo_own_memories words) as Hval. rewrite list.Forall_forall in Hval. by eapply Hval, pm_get_elem.
Qed.

Lemma exported_global_spec idx t : pm_get (globals m) idx = Some t ->
  exists e, get_exported_global (E:=Error) h i idx = Ok e /\ ex_desc e = t /\
    if idx <? num_imported_globals m then pm_get (im_globals imports) idx = Some (mkVMImport (ex_definition e) (ex_vmctx e))
    else ex_vmctx e = vp /\ exists x v, pm_get (global_initializers m) (idx - num_imported_globals m) = Some x /\
      eval (E:=Error) [] x = Ok (v, []) /\ load_at (E:=Error) (ex_definition e) h = Ok (mkVMGlobal (vmval_bytes v)).
Proof.
  intros Ht.
  destruct (exported_spec (globals m) t (num_imported_globals m) idx (global_ptr i) (imported_global h i idx) F_global F_imported_global (im_globals imports))
    as (e & He & Hd & Hcase); [exported_condition F_global F_imported_global .. |].
  exists e. split; [exact He|]. split; [done|]. destruct (idx <? num_imported_globals m); [done|]. destruct Hcase as (Hv & Hr & ->).
  split; [done|]. rewrite <- (ry_own_globals _ _ _ _ _ _ ready) in Hr. destruct (pm_get_is_Some (global_initializers m) _ Hr) as [x Hx].
  destruct (ry_init _ _ _ _ _ _ ready x (pm_get_elem _ _ _ Hx)) as (v & Hev & Hlen). exists x, v. split; [done|]. split; [done|].
  rewrite (ry_own_globals _ _ _ _ _ _ ready) in Hr. apply (load_field (F_global _)); [by apply ready_in_layout|done|exact Hlen|].
  cbn. rewrite Hx. cbn. by rewrite Hev.
Qed.

(** Functions are exported through their reference. *)
Lemma exported_func_spec idx f : pm_get (functions m) idx = Some f -> is_escaping f = true ->
  exists p r, get_exported_func (E:=Error) i idx = Ok p /\ func_ref_of dbg (ri_module i) imports (ri_vmctx i) idx f = Ok r /\
    load_at (E:=Error) p h = Ok r /\
    (idx < num_imported_functions m -> pm_get (im_functions imports) idx = Some (mkVMFunctionImport (fr_wasm_call r) (fr_array_call r) (fr_vmctx r))) /\
    (num_imported_functions m <= idx -> fr_vmctx r = vp).
Proof.
  intros Hf He. destruct (ry_refs _ _ _ _ _ _ ready idx f Hf He) as [r Hr]. pose proof (ry_slots _ _ _ _ _ _ ready idx f Hf He) as Hs.
  pose proof (pm_get_range _ _ _ Hf) as Hi. pose proof (ry_wf _ _ _ _ _ _ ready) as Hwf.
  assert (Hly : in_layout o (F_func_ref (func_ref f))) by (by apply ready_in_layout).
  exists (plus_offset (ri_vmctx i) (extent_spec o (F_func_ref (func_ref f))).1), r. split; [|split; [done|split; [|split]]].
  - unfold get_exported_func, get_func_ref, is_reserved_value, reserved_value.
    rewrite (proj2 (Z.eqb_neq _ _)) by (pose proof (wf_funcs_len _ Hwf); intros ->;
      destruct (ready_layout _ _ _ _ _ _ ready) as (_ & _ & Hsz); destruct Hwf; unfold layout_size in Hsz; lia).
    unfold pm_index. rewrite Hf. cbn [unwrap mbind outcome_bind]. rewrite (accessor _ _ _ Hly eq_refl). cbn [mbind outcome_bind unwrap].
    pose proof (wo_vmctx words) as Hvp. pose proof (lo_func_refs _ (proj1 (proj2 (ready_layout _ _ _ _ _ _ ready)))) as Hfr.
    rewrite (proj2 (Z.eqb_neq _ _)); [done|]. unfold plus_offset. cbn. rewrite Hfr. lia.
  - apply (load_field (F_func_ref (func_ref f))); [done|done|by eapply (wo_refs words)|].
    cbn. rewrite (slot_func_ready _ _ _ _ _ _ ready idx f Hf He). cbn. by rewrite (func_ref_of_content _ _ _ _ _ _ _ Hr).
  - intros Hlt. unfold func_ref_of, defined_func_index, is_imported_func in Hr. rewrite (proj2 (Z.ltb_lt _ _)) in Hr by done.
    cbn [mbind outcome_bind] in Hr. apply bind_ok in Hr as (x & Hx & (ty & _ & [= <-])%bind_ok).
    unfold pm_index in Hx. apply unwrap_ok in Hx. rewrite Hx. by destruct x.
  - intros Hge. unfold func_ref_of, defined_func_index, is_imported_func in Hr. rewrite (proj2 (Z.ltb_ge _ _)) in Hr by done.
    apply bind_ok in Hr as (d & (j & _ & [= <-])%bind_ok & Hr). repeat (apply bind_ok in Hr as (? & _ & Hr)). by injection Hr as <-.
Qed.

(** The module has the entity, and a reference to it if it is a function. *)
Definition exportable (index : EntityIndex) : Prop :=
  match index with
  | Ent_Function idx => exists f, pm_get (functions m) idx = Some f /\ is_escaping f = true
  | Ent_Table idx => 0 <= idx < pm_len (tables m)
  | Ent_Memory idx => 0 <= idx < pm_len (memories m)
  | Ent_Global idx => 0 <= idx < pm_len (globals m)
  | Ent_Tag _ => False
  end.

(** What another module sees when it imports [x], the export of [index]: what
    this instance has imported itself, or a definition in its context. *)
Definition exported_as (s : Store) (index : EntityIndex) (x : Extern) : Prop :=
  match index, x with
  | Ent_Function idx, Ext_Func k => exists v, as_vmfunction_import (E:=Error) h s k = Ok v /\
      if idx <? num_imported_functions m then pm_get (im_functions imports) idx = Some v
      else exists f r, pm_get (functions m) idx = Some f /\ func_ref_of dbg (ri_module i) imports (ri_vmctx i) idx f = Ok r /\
        v = mkVMFunctionImport (fr_wasm_call r) (fr_array_call r) vp
  | Ent_Table idx, Ext_Table k => exists v, as_vmtable_import (E:=Error) s k = Ok v /\
      if idx <? num_imported_tables m then pm_get (im_tables imports) idx = Some v
      else vi_vmctx v = vp /\ exists t, pm_get ts (idx - num_imported_tables m) = Some t /\
        load_at (E:=Error) (vi_from v) h = Ok (as_vmtable_definition t)
  | Ent_Memory idx, Ext_Memory k => exists v, as_vmmemory_import (E:=Error) s k = Ok v /\
      if idx <? num_imported_memories m then pm_get (im_memories imports) idx = Some v
      else vi_vmctx v = vp /\ exists x, pm_get ms (idx - num_imported_memories m) = Some x /\
        load_at (E:=Error) (vi_from v) h = Ok (as_vmmemory_definition x)
  | Ent_Global idx, Ext_Global k => exists v, as_vmglobal_import (E:=Error) s k = Ok v /\
      if idx <? num_imported_globals m then pm_get (im_globals imports) idx = Some v
      else vi_vmctx v = vp /\ exists x y, pm_get (global_initializers m) (idx - num_imported_globals m) = Some x /\
        eval (E:=Error) [] x = Ok (y, []) /\ load_at (E:=Error) (vi_from v) h = Ok (mkVMGlobal (vmval_bytes y))
  | _, _ => False
  end.

Lemma pushed_index {A} (l : list A) x : pm_index (E:=Error) (pm_push l x) (pm_len l) = Ok x.
Proof. unfold pm_index. by rewrite pm_get_push_new. Qed.

Lemma exports_sound s index : exportable index ->
  exists e, get_export_by_index (E:=Error) h i index = Ok e /\ exported_as (from_export e s).2 index (from_export e s).1.
Proof.
  destruct index as [idx|idx|idx|idx|idx]; cbn [exportable get_export_by_index]; [intros (f & Hf & He)|intros [t Ht]%pm_get_is_Some..|done].
  - destruct (exported_func_spec idx f Hf He) as (p & r & -> & Hr & Hl & Himp & Hown). eexists. split; [done|].
    cbn [from_export push_function fst snd exported_as]. unfold as_vmfunction_import. cbn [exported_funcs]. rewrite pushed_index.
    cbn [mbind outcome_bind]. rewrite Hl. eexists. split; [done|].
    destruct (Z.ltb_spec idx (num_imported_functions m)) as [Hlt|Hge]; [by apply Himp|]. exists f, r. split; [done|]. split; [done|].
    by rewrite <- (Hown Hge).
  - destruct (exported_table_spec idx t Ht) as (e & -> & _ & Hc). eexists. split; [done|].
    cbn [from_export push_table fst snd exported_as]. unfold as_vmtable_import. cbn [exported_tables]. rewrite pushed_index. by eexists.
  - destruct (exported_memory_spec idx t Ht) as (e & -> & _ & Hc). eexists. split; [done|].
    cbn [from_export push_memory fst snd exported_as]. unfold as_vmmemory_import. cbn [exported_memories]. rewrite pushed_index. by eexists.
  - destruct (exported_global_spec idx t Ht) as (e & -> & _ & Hc). eexists. split; [done|].
    cbn [from_export push_global fst snd exported_as]. unfold as_vmglobal_import. cbn [exported_globals]. rewrite pushed_index. by eexists.
Qed.

(** *** The cache of exports *)
Definition cache_ok (s : Store) (es : list (option Extern)) : Prop := pm_len es = pm_len (exports m) /\
  forall n k index x, pm_get (exports m) n = Some (k, index) -> pm_get es n = Some (Some x) -> exported_as s index x.

Lemma pm_index_push_old {A} (l : list A) y k x : pm_index (E:=Error) l k = Ok x -> pm_index (E:=Error) (pm_push l y) k = Ok x.
Proof. unfold pm_index. intros Hx%unwrap_ok. by rewrite (pm_get_push_old _ y _ _ Hx). Qed.

(** Handles keep their meaning when others are added. *)
Lemma exported_as_stable e s index x : exported_as s index x -> exported_as (from_export e s).2 index x.
Proof.
  destruct index, x; cbn [exported_as]; try done; intros (v & Hv & Hc); exists v; (split; [|exact Hc]); clear Hc; revert Hv;
    unfold as_vmfunction_import, as_vmtable_import, as_vmmemory_import, as_vmglobal_import; destruct e; cbn; try done;
    intros (y & Hy & Hr)%bind_ok; by rewrite (pm_index_push_old _ _ _ _ Hy).
Qed.

Lemma get_full_position name l n index : get_full name l = Some (n, index) -> pm_get l n = Some (name, index).
Proof.
  unfold get_full. assert (H : forall l k, 0 <= k -> get_full_from name l k = Some (n, index) -> k <= n /\ pm_get l (n - k) = Some (name, index)).
  { clear l. induction l as [|[k' v] l IH]; intros k Hk; cbn; [done|]. case_bool_decide as Hn.
    - intros [= <- <-]. rewrite Z.sub_diag. subst. split; [lia|done].
    - intros Hr. destruct (IH (k + 1) ltac:(lia) Hr) as [Hle Hg]. split; [lia|]. revert Hg. unfold pm_get.
      rewrite !(proj2 (Z.leb_le _ _)) by lia. by replace (Z.to_nat (n - k)) with (S (Z.to_nat (n - (k + 1)))) by lia. }
  intros Hr. destruct (H l 0 ltac:(lia) Hr) as [_ Hg]. by rewrite Z.sub_0_r in Hg.
Qed.

Lemma cached_export inst s j es name n index x : pm_get (instances s) inst = Some j -> ri_module j = ri_module i -> ri_exports j = es ->
  get_full name (exports m) = Some (n, index) -> pm_get es n = Some (Some x) -> get_export (E:=Error) h inst name s = Ok (Some x, s).
Proof.
  intros Hj Hm He Hn Hx. unfold get_export, get_export_inner, pm_index. rewrite Hj. cbn [unwrap mbind outcome_bind].
  rewrite Hm, Hn. cbn [mbind outcome_bind]. by rewrite He, Hx.
Qed.

Lemma exports_cached inst s name n index : pm_get (instances s) inst = Some i -> cache_ok s (ri_exports i) ->
  get_full name (exports m) = Some (n, index) -> exportable index ->
  exists x s' es, get_export (E:=Error) h inst name s = Ok (Some x, s') /\ exported_as s' index x /\
    get_export (E:=Error) h inst name s' = Ok (Some x, s') /\
    pm_get (instances s') inst = Some (mkInstance (ri_module i) (ri_vmctx i) (ri_tables i) ms (ri_dropped_elems i) (ri_dropped_data i) es) /\
    cache_ok s' es.
Proof.
  intros Hi [Hlen Hc] Hn Hx. pose proof (get_full_position _ _ _ _ Hn) as Hpos. pose proof (pm_get_range _ _ _ Hpos) as Hr.
  destruct (pm_get_is_Some (ri_exports i) n) as [[x|] He]; [lia|..].
  { exists x, s, (ri_exports i). assert (Hg : get_export (E:=Error) h inst name s = Ok (Some x, s)) by (by eapply cached_export).
    split; [done|]. split; [by eapply Hc|]. split; [done|]. split; [rewrite Hi; by destruct i|]. by split. }
  destruct (exports_sound s index Hx) as (e & Hg & Hs).
  set (x := (from_export e s).1). set (s1 := (from_export e s).2) in *. pose proof (pm_get_range _ _ _ Hi) as Hir.
  assert (Hinst : instances s1 = instances s) by (subst s1; by destruct e).
  assert (Hget : pm_get (instances (set_instance inst (set_export i n x) s1)) inst = Some (set_export i n x))
    by (cbn [set_instance instances]; rewrite Hinst; by apply pm_get_set_eq).
  assert (Hnew : pm_get (ri_exports (set_export i n x)) n = Some (Some x)) by (apply pm_get_set_eq; lia).
  exists x, (set_instance inst (set_export i n x) s1), (pm_set (ri_exports i) n (Some x)). split; [|split; [|split; [|split]]].
  - unfold get_export, get_export_inner, pm_index. rewrite Hi. cbn [unwrap mbind outcome_bind]. rewrite Hn. cbn [mbind outcome_bind].
    rewrite He. cbn [unwrap mbind outcome_bind]. rewrite Hg. cbn [mbind outcome_bind]. fold s1 x. rewrite Hinst, Hi. done.
  - exact Hs.
  - by eapply cached_export.
  - exact Hget.
  - split; [unfold pm_len, pm_set; by rewrite length_insert|]. intros n' k index' y Hk Hy.
    destruct (Z.eq_dec n n') as [<-|Hne].
    + change (pm_set (ri_exports i) n (Some x)) with (ri_exports (set_export i n x)) in Hy. rewrite Hnew in Hy. simplify_eq. exact Hs.
    + rewrite pm_get_set_ne in Hy by lia. apply (exported_as_stable e s). by eapply Hc.
Qed.
End Exports.

(** C15: asking an instance for an export by name: a handle is produced through
    which another module gets exactly what this instance imported, when the
    export passes on an import, and otherwise the definition in this instance's
    context, with the contents initialisation gave it; asking again gives the
    same handle and leaves the store as it is, and the cache stays coherent. *)
Theorem exports_transparent dbg builtins_init h i ts imports inst s name n index
    (ready : instance_ready dbg (ri_vmctx i) ts (ri_memories i) (ri_module i) imports)
    (holds : context_holds builtins_init h i ts imports) (words : words_ok dbg i ts imports)
    (Hi : pm_get (instances s) inst = Some i) (Hc : cache_ok dbg h i ts imports s (ri_exports i))
    (Hn : get_full name (exports (mo_translated (ri_module i))) = Some (n, index)) (Hx : exportable i index) :
  exists x s' es, get_export (E:=Error) h inst name s = Ok (Some x, s') /\ exported_as dbg h i ts imports s' index x /\
    get_export (E:=Error) h inst name s' = Ok (Some x, s') /\
    pm_get (instances s') inst =
      Some (mkInstance (ri_module i) (ri_vmctx i) (ri_tables i) (ri_memories i) (ri_dropped_elems i) (ri_dropped_data i) es) /\
    cache_ok dbg h i ts imports s' es.
Proof. by eapply exports_cached. Qed.

(** The imported function of [instance_module] is passed on unchanged. *)
Definition exporting_instance : RtInstance := mkInstance instance_compiled instance_vmctx [] instance_memories ∅ ∅ (replicate 5 None).

Lemma exporting_words : words_ok true exporting_instance [] instance_imports.
Proof.
  split; cbn; try (repeat constructor; cbn; lia).
  intros j f r Hf. pose proof (pm_get_range _ _ _ Hf) as Hr. unfold pm_len in Hr. cbn in Hr.
  assert (j = 0 \/ j = 1) as [->| ->] by lia; cbn in Hf; injection Hf as <-; intros H.
  - assert (H1 : func_ref_of true instance_compiled instance_imports instance_vmctx 0 (mkFunctionDesc 0 1) = Ok (mkVMFuncRef 70064 70000 262144 5))
      by (vm_compute; reflexivity). unfold exporting_instance in H; cbn [ri_module ri_vmctx] in H. rewrite H1 in H. injection H as <-. cbn; lia.
  - assert (H1 : func_ref_of true instance_compiled instance_imports instance_vmctx 1 (mkFunctionDesc 0 0) = Ok (mkVMFuncRef 65600 65536 131072 5))
      by (vm_compute; reflexivity). unfold exporting_instance in H; cbn [ri_module ri_vmctx] in H. rewrite H1 in H. injection H as <-. cbn; lia.
Qed.

Lemma exports_transparent_witness :
  exists w' x s', initialize_vmctx true true 4096 instance_vmctx [] instance_memories instance_compiled instance_imports (mkWorld tt ∅ []) = (Ok tt, w') /\
    get_export (E:=Error) (w_heap w') 0 "f" (push_instance exporting_instance store_new).2 = Ok (Some (Ext_Func x), s') /\
    as_vmfunction_import (E:=Error) (w_heap w') s' x = Ok (mkVMFunctionImport 70000 70064 262144).
Proof.
  destruct (initialize_vmctx_ok true true 4096 instance_vmctx [] instance_memories instance_compiled instance_imports (mkWorld tt ∅ [])
    instance_module_ready instance_module_defined eq_refl) as (w' & Hw & _ & _ & Hc & _).
  destruct (exports_transparent true 4096 (w_heap w') exporting_instance [] instance_imports 0 (push_instance exporting_instance store_new).2 "f" 0 (Ent_Function 0))
    as (x & s' & es & Hg & Ha & _).
  - exact instance_module_ready.
  - exact Hc.
  - exact exporting_words.
  - reflexivity.
  - split; [reflexivity|]. intros n k index x _ Hx. exfalso.
    apply pm_get_elem, elem_of_replicate in Hx. by destruct Hx.
  - reflexivity.
  - exists (mkFunctionDesc 0 1). by split.
  - destruct x as [x| | |]; try done. destruct Ha as (v & Hv & Hi). exists w', x, s'. split; [exact Hw|]. split; [exact Hg|].
    rewrite Hv. cbn in Hi. by injection Hi as <-.
Defined.
