(* ===== verification/HeapAccess.v ===== *)
(** * Addressing linear memory and tables
      ([src/src/cranelift/memory.rs], [src/src/cranelift/mod.rs],
       [make_memory] and [make_table] of [src/src/cranelift/env.rs])

    The translator emits IR instructions through a builder: here a list of
    instructions, each defining the next SSA value.  The meaning of single
    instructions belongs to the code generator: it is the class [ClifSem], with
    the documented two's-complement behaviour as [ClifLaws].  Facts for
    proof-carrying code and value labels annotate values without changing the
    instructions and are not modelled. *)
From stdpp Require Import base list option numbers.
From S2P Require Import Prelude Types Trap Module VMOffsets Mmap RtMemory.
Local Open Scope Z_scope.

(** ** The instructions the code emits *)
Inductive ir_type : Type := I32_ty | I64_ty.

#[global] Instance ir_type_eq_dec : EqDecision ir_type.
Proof. solve_decision. Defined.

Definition bits (t : ir_type) : Z := match t with I32_ty => 32 | I64_ty => 64 end.

Inductive IntCC : Type := NotEqual | UnsignedGreaterThan | UnsignedGreaterThanOrEqual.

(** An SSA value: the parameters come first, then one value per instruction. *)
Definition Value : Type := nat.

(** Global values: the [VMContext] pointer and loads relative to a global value. *)
Inductive GlobalValue : Type :=
| GV_VMContext
| GV_Load (base : GlobalValue) (offset : Z).

Inductive inst : Type :=
| I_iconst (ty : ir_type) (imm : Z)
| I_global_value (gv : GlobalValue)
| I_uextend (ty : ir_type) (x : Value)
| I_iadd (x y : Value)
| I_iadd_imm (x : Value) (imm : Z)
| I_band_imm (x : Value) (imm : Z)
| I_ishl_imm (x : Value) (imm : Z)
| I_imul_imm (x : Value) (imm : Z)
| I_uadd_overflow_trap (x y : Value) (code : Z)
| I_icmp (cc : IntCC) (x y : Value)
| I_icmp_imm (cc : IntCC) (x : Value) (imm : Z)
| I_select_spectre_guard (c x y : Value)
| I_trapnz (c : Value) (code : Z)
| I_trap (code : Z).

(** The builder: the number of values defined so far and the instructions. *)
Record FunctionBuilder : Type := mkBuilder { fb_values : nat; fb_insts : list inst }.

(** Emitting code may panic; it never returns an error. *)
Definition Emit (A : Type) : Type := SM FunctionBuilder Error A.
Definition ins (i : inst) : Emit Value := fun b =>
  (Ok (fb_values b), mkBuilder (S (fb_values b)) (fb_insts b ++ [i])).

Inductive Reachability (A : Type) : Type := Reachable (a : A) | Unreachable.
Arguments Reachable {A}.
Arguments Unreachable {A}.

(** ** Flags of a load or store *)
Module mem_flags.
Inductive AliasRegion : Type := Heap | Table | Vmctx.

Record MemFlags : Type := mkFlags {
  notrap : bool; aligned : bool; readonly : bool; checked : bool; little : bool;
  alias_region : option AliasRegion; trap_code : option Z }.
(** [MemFlags::new]: an access that may trap, as an out-of-bounds heap access. *)
Definition flags_new `{TrapCodes} : MemFlags := mkFlags false false false false false None (Some HEAP_OUT_OF_BOUNDS).
(** [MemFlags::trusted]: no trap, aligned. *)
Definition trusted : MemFlags := mkFlags true true false false false None None.
Definition with_notrap (f : MemFlags) : MemFlags :=
  mkFlags true (aligned f) (readonly f) (checked f) (little f) (alias_region f) None.
Definition with_readonly (f : MemFlags) : MemFlags :=
  mkFlags (notrap f) (aligned f) true (checked f) (little f) (alias_region f) (trap_code f).
Definition with_aligned (f : MemFlags) : MemFlags :=
  mkFlags (notrap f) true (readonly f) (checked f) (little f) (alias_region f) (trap_code f).
Definition with_alias_region (r : option AliasRegion) (f : MemFlags) : MemFlags :=
  mkFlags (notrap f) (aligned f) (readonly f) (checked f) (little f) r (trap_code f).
Definition with_trap_code (c : option Z) (f : MemFlags) : MemFlags :=
  mkFlags (notrap f) (aligned f) (readonly f) (checked f) (little f) (alias_region f) c.
Definition with_little (f : MemFlags) : MemFlags :=
  mkFlags (notrap f) (aligned f) (readonly f) (checked f) true (alias_region f) (trap_code f).
Definition with_checked (f : MemFlags) : MemFlags :=
  mkFlags (notrap f) (aligned f) (readonly f) true (little f) (alias_region f) (trap_code f).
End mem_flags.

(** ** [CraneliftMemory]; [cl_memory_type] says whether the memory has a memory
    type, which it has under proof-carrying code. *)
Record CraneliftMemory : Type := mkCraneliftMemory {
  cl_base_gv : GlobalValue;
  cl_index_type : ir_type;
  cl_memory_type : bool;
  cl_bound : Z;
  cl_min_size : Z;
  cl_max_size : option Z;
  cl_offset_guard_size : Z;
  cl_page_size_log2 : Z }.

(** What the translation environment says about the target. *)
Record TargetEnv : Type := mkTargetEnv {
  te_spectre : bool;
  te_page_size_align_log2 : Z }.

Section Translate.
Context `{TrapCodes} (dbg : bool) (env : TargetEnv).

(** [i64::try_from(x).unwrap()] on an unsigned value. *)
Definition imm64 (x : Z) : outcome Error Z := if sfits 64 x then Ok x else Panic.

Definition cast_index_to_pointer_ty (index : Value) (index_ty pointer_ty : ir_type) : Emit Value :=
  if decide (index_ty = pointer_ty) then mret index
  else
    _ ← sm_lift (assert_ (bits index_ty <? bits pointer_ty));
    ins (I_uextend pointer_ty index).

(** [compute_addr]. *)
Definition compute_addr (m : CraneliftMemory) (addr_ty : ir_type) (index : Value) (offset : Z) : Emit Value :=
  heap_base ← ins (I_global_value (cl_base_gv m));
  base_and_index ← ins (I_iadd heap_base index);
  if offset =? 0 then mret base_and_index
  else
    offset_val ← ins (I_iconst addr_ty offset);
    ins (I_iadd base_and_index offset_val).

(** [explicit_check_oob_condition_and_compute_addr]. *)
Definition explicit_check_oob_condition_and_compute_addr (m : CraneliftMemory) (addr_ty : ir_type)
    (index : Value) (offset : Z) (spectre : bool) (oob : Value) : Emit Value :=
  _ ← (if spectre then mret 0%nat else ins (I_trapnz oob HEAP_OUT_OF_BOUNDS));
  addr ← compute_addr m addr_ty index offset;
  if spectre then
    null ← ins (I_iconst addr_ty 0);
    ins (I_select_spectre_guard oob null addr)
  else mret addr.

(** [bounds_check_and_compute_addr]. *)
Definition bounds_check_and_compute_addr (m : CraneliftMemory) (index : Value) (offset access_size : Z) :
    Emit (Reachability Value) :=
  index ← cast_index_to_pointer_ty index (cl_index_type m) I64_ty;
  offset_and_size ← sm_lift (add 64 offset access_size);
  _ ← sm_lift (assert_ (te_page_size_align_log2 env <=? cl_page_size_log2 m));
  if cl_bound m <? offset_and_size then
    _ ← ins (I_trap HEAP_OUT_OF_BOUNDS);
    mret Unreachable
  else if bool_decide (cl_index_type m = I32_ty) &&
          (2 ^ 32 - 1 <=? saturating_add 64 (saturating_add 64 (cl_bound m) (cl_offset_guard_size m)) offset_and_size)
  then
    addr ← compute_addr m I64_ty index offset;
    mret (Reachable addr)
  else
    adjusted_bound ← sm_lift (unwrap (checked_sub 64 (cl_bound m) offset_and_size));
    imm ← sm_lift (imm64 adjusted_bound);
    adjusted_bound_value ← ins (I_iconst I64_ty imm);
    oob ← ins (I_icmp UnsignedGreaterThan index adjusted_bound_value);
    addr ← explicit_check_oob_condition_and_compute_addr m I64_ty index offset (te_spectre env) oob;
    mret (Reachable addr).

(** [prepare_addr]: the flags of the access, the wasm index and the address. *)
Definition prepare_addr (m : CraneliftMemory) (index : Value) (access_size memarg_offset : Z) :
    Emit (Reachability (mem_flags.MemFlags * Value * Value)) :=
  addr ← match try_from 32 memarg_offset with
         | Some offset => bounds_check_and_compute_addr m index offset access_size
         | None =>
             imm ← sm_lift (imm64 memarg_offset);
             offset ← ins (I_iconst (cl_index_type m) imm);
             adjusted_index ← ins (I_uadd_overflow_trap index offset HEAP_OUT_OF_BOUNDS);
             bounds_check_and_compute_addr m adjusted_index 0 access_size
         end;
  match addr with
  | Unreachable => mret Unreachable
  | Reachable addr =>
      let flags := mem_flags.with_little mem_flags.flags_new in
      let flags := if cl_memory_type m then mem_flags.with_checked flags else flags in
      let flags := mem_flags.with_alias_region (Some mem_flags.Heap) flags in
      mret (Reachable (flags, index, addr))
  end.

(** [prepare_atomic_addr]. *)
Definition prepare_atomic_addr (m : CraneliftMemory) (index : Value) (loaded_bytes memarg_offset : Z) :
    Emit (Reachability (mem_flags.MemFlags * Value * Value)) :=
  _ ← (if 1 <? loaded_bytes then
         effective_addr ← (if memarg_offset =? 0 then mret index
                           else imm ← sm_lift (imm64 memarg_offset); ins (I_iadd_imm index imm));
         _ ← sm_lift (debug_assert dbg (is_power_of_two loaded_bytes));
         mask ← sm_lift (unwrap (checked_sub 8 loaded_bytes 1));
         misalignment ← ins (I_band_imm effective_addr mask);
         f ← ins (I_icmp_imm NotEqual misalignment 0);
         _ ← ins (I_trapnz f TRAP_HEAP_MISALIGNED);
         mret tt
       else mret tt);
  prepare_addr m index loaded_bytes memarg_offset.

(** ** [CraneliftTable] *)
Record CraneliftTable : Type := mkCraneliftTable {
  ct_base_gv : GlobalValue;
  ct_bound : Z;
  ct_element_size : Z }.

(** [u32::trailing_zeros]. *)
Definition trailing_zeros (x : Z) : Z := if x =? 0 then 32 else Z.log2 (Z.land x (- x)).

(** [CraneliftTable::prepare_addr]; also whether the returned flags carry the
    table trap code. *)
Definition table_prepare_addr (t : CraneliftTable) (index : Value) (index_ty pointer_type : ir_type)
    (spectre : bool) : Emit (Value * option Z) :=
  imm ← sm_lift (imm64 (ct_bound t));
  bound ← ins (I_iconst index_ty imm);
  oob ← ins (I_icmp UnsignedGreaterThanOrEqual index bound);
  _ ← (if spectre then mret 0%nat else ins (I_trapnz oob TRAP_TABLE_OUT_OF_BOUNDS));
  index ← (if decide (index_ty = pointer_type) then mret index else ins (I_uextend pointer_type index));
  base ← ins (I_global_value (ct_base_gv t));
  offset ← (if ct_element_size t =? 1 then mret index
            else if is_power_of_two (ct_element_size t)
                 then ins (I_ishl_imm index (trailing_zeros (ct_element_size t)))
                 else ins (I_imul_imm index (ct_element_size t)));
  element_addr ← ins (I_iadd base offset);
  if spectre then
    zero ← ins (I_iconst pointer_type 0);
    r ← ins (I_select_spectre_guard oob zero element_addr);
    mret (r, Some TRAP_TABLE_OUT_OF_BOUNDS)
  else mret (element_addr, None).
End Translate.

(** ** [make_memory] and [make_table] *)
Section Make.
Context (dbg pcc : bool) (module : TranslatedModule) (offsets : VMOffsets).

(** [i32::try_from(offset).unwrap()]. *)
Definition offset32 (x : Z) : outcome Error Z := if sfits 32 x then Ok x else Panic.

Definition make_memory (index : Z) : outcome Error CraneliftMemory :=
  plan ← pm_index (memories module) index;
  d ← defined_memory_index module index;
  base_gv ← match d with
            | Some def_index =>
                if md_shared plan then Panic
                else
                  o ← vmctx_vmmemory_definition_base offsets def_index;
                  base_offset ← offset32 o;
                  Ok (GV_Load GV_VMContext base_offset)
            | None =>
                f ← vmctx_vmmemory_import_from offsets index;
                from_offset ← offset32 f;
                o ← unwrap (VMMemoryDefinition_layout.1 !! 0%nat);
                base_offset ← offset32 o;
                Ok (GV_Load (GV_Load GV_VMContext from_offset) base_offset)
            end;
  min_size ← match minimum_byte_size dbg plan with
             | Ok x => Ok x
             | Err _ =>
                 _ ← debug_assert dbg (md_minimum plan =? Z.shiftl 1 48);
                 ps ← (if dbg then page_size dbg plan else Ok (Z.shiftl 1 16));
                 _ ← debug_assert dbg (ps =? Z.shiftl 1 16);
                 Ok (2 ^ 64 - 1)
             | Panic => Panic
             end;
  max_size ← match maximum_byte_size dbg plan with
             | Ok x => Ok (Some x)
             | Err _ => Ok None
             | Panic => Panic
             end;
  bound ← max_size_based_on_index_type dbg plan;
  Ok {| cl_base_gv := base_gv;
        cl_index_type := if md_memory64 plan then I64_ty else I32_ty;
        cl_memory_type := pcc;
        cl_bound := bound;
        cl_min_size := min_size;
        cl_max_size := max_size;
        cl_offset_guard_size := md_offset_guard_size plan;
        cl_page_size_log2 := md_page_size_log2 plan |}.

(** The size in bytes of a reference: a pointer for functions, [I32] for GC references. *)
Definition reference_bytes (h : WasmHeapType) : outcome Error Z :=
  match top_inner (top h) with
  | Top_Func => Ok 8
  | Top_Any | Top_Extern => Ok 4
  | Top_Exn | Top_Cont => Panic
  end.

Definition make_table (index : Z) : outcome Error CraneliftTable :=
  table ← pm_index (tables module) index;
  d ← defined_table_index module index;
  base_gv ← match d with
            | Some def_index =>
                o ← vmctx_vmtable_definition_base offsets def_index;
                base_offset ← offset32 o;
                Ok (GV_Load GV_VMContext base_offset)
            | None =>
                f ← vmctx_vmtable_import_from offsets index;
                from_offset ← offset32 f;
                o ← unwrap (VMTableDefinition_layout.1 !! 0%nat);
                base_offset ← offset32 o;
                Ok (GV_Load (GV_Load GV_VMContext from_offset) base_offset)
            end;
  element_size ← (if is_vmgcref_type (heap_type (td_element_type table)) then Ok 4
                  else reference_bytes (heap_type (td_element_type table)));
  bound ← (if bool_decide (Some (td_minimum table) = td_maximum table) then Ok (td_minimum table) else Panic);
  Ok (mkCraneliftTable base_gv bound element_size).
End Make.

(** ** Running the emitted instructions *)

(** A run-time value: its width in bits and its unsigned contents. *)
Definition rtval : Type := Z * Z.
Inductive step_result : Type := Next (v : rtval) | TrapStep (code : Z) | Stuck.

Class ClifSem := {
  gv_value : GlobalValue -> Z;
  sem : list rtval -> inst -> step_result }.

(** What the code generator documents of the instructions; comparisons yield
    an 8-bit truth value and effect-only instructions an unused one. *)
Class ClifLaws `{ClifSem} := {
  sem_iconst : forall env ty imm, sem env (I_iconst ty imm) = Next (bits ty, wrap (bits ty) imm);
  sem_global_value : forall env gv, sem env (I_global_value gv) = Next (64, gv_value gv);
  sem_uextend : forall env ty x w a, env !! x = Some (w, a) -> w < bits ty ->
    sem env (I_uextend ty x) = Next (bits ty, a);
  sem_iadd : forall env x y w a b, env !! x = Some (w, a) -> env !! y = Some (w, b) ->
    sem env (I_iadd x y) = Next (w, wrap w (a + b));
  sem_band_imm : forall env x w a imm, env !! x = Some (w, a) ->
    sem env (I_band_imm x imm) = Next (w, wrap w (Z.land a imm));
  sem_iadd_imm : forall env x w a imm, env !! x = Some (w, a) ->
    sem env (I_iadd_imm x imm) = Next (w, wrap w (a + imm));
  sem_ishl_imm : forall env x w a imm, env !! x = Some (w, a) -> 0 <= imm < w ->
    sem env (I_ishl_imm x imm) = Next (w, wrap w (Z.shiftl a imm));
  sem_imul_imm : forall env x w a imm, env !! x = Some (w, a) ->
    sem env (I_imul_imm x imm) = Next (w, wrap w (a * imm));
  sem_uadd_overflow_trap : forall env x y w a b code, env !! x = Some (w, a) -> env !! y = Some (w, b) ->
    sem env (I_uadd_overflow_trap x y code) = if a + b <? 2 ^ w then Next (w, a + b) else TrapStep code;
  sem_icmp_ugt : forall env x y w a b, env !! x = Some (w, a) -> env !! y = Some (w, b) ->
    sem env (I_icmp UnsignedGreaterThan x y) = Next (8, if b <? a then 1 else 0);
  sem_icmp_uge : forall env x y w a b, env !! x = Some (w, a) -> env !! y = Some (w, b) ->
    sem env (I_icmp UnsignedGreaterThanOrEqual x y) = Next (8, if b <=? a then 1 else 0);
  sem_icmp_ne_imm : forall env x w a imm, env !! x = Some (w, a) ->
    sem env (I_icmp_imm NotEqual x imm) = Next (8, if a =? wrap w imm then 0 else 1);
  sem_select : forall env c x y w wc vc a b, env !! c = Some (wc, vc) ->
    env !! x = Some (w, a) -> env !! y = Some (w, b) ->
    sem env (I_select_spectre_guard c x y) = Next (w, if vc =? 0 then b else a);
  sem_trapnz : forall env c wc vc code, env !! c = Some (wc, vc) ->
    sem env (I_trapnz c code) = if vc =? 0 then Next (8, 0) else TrapStep code;
  sem_trap : forall env code, sem env (I_trap code) = TrapStep code }.

Inductive run_result : Type := Done (env : list rtval) | Trapped (code : Z) | RunStuck.

Fixpoint run `{ClifSem} (is_ : list inst) (env : list rtval) : run_result :=
  match is_ with
  | [] => Done env
  | i :: is' => match sem env i with
                | Next v => run is' (env ++ [v])
                | TrapStep c => Trapped c
                | Stuck => RunStuck
                end
  end.

(** Emit into a fresh block whose parameters are [env]. *)
Definition emit {A} (e : Emit A) (env : list rtval) : outcome Error A * list inst :=
  let '(r, b) := e (mkBuilder (length env) []) in (r, fb_insts b).

(** The value of an emitted address after the run. *)
Definition outcome_at (r : run_result) (v : Value) : option rtval :=
  match r with Done env => env !! v | _ => None end.

(** ** A concrete semantics *)
Definition exec (gvv : GlobalValue -> Z) (env : list rtval) (i : inst) : step_result :=
  let at1 x k := match env !! x with Some v => k v | None => Stuck end in
  match i with
  | I_iconst ty imm => Next (bits ty, wrap (bits ty) imm)
  | I_global_value gv => Next (64, gvv gv)
  | I_uextend ty x => at1 x (fun a => Next (bits ty, a.2))
  | I_iadd x y => at1 x (fun a => at1 y (fun b => Next (a.1, wrap a.1 (a.2 + b.2))))
  | I_iadd_imm x imm => at1 x (fun a => Next (a.1, wrap a.1 (a.2 + imm)))
  | I_band_imm x imm => at1 x (fun a => Next (a.1, wrap a.1 (Z.land a.2 imm)))
  | I_ishl_imm x imm => at1 x (fun a => Next (a.1, wrap a.1 (Z.shiftl a.2 imm)))
  | I_imul_imm x imm => at1 x (fun a => Next (a.1, wrap a.1 (a.2 * imm)))
  | I_uadd_overflow_trap x y code => at1 x (fun a => at1 y (fun b =>
      if a.2 + b.2 <? 2 ^ a.1 then Next (a.1, a.2 + b.2) else TrapStep code))
  | I_icmp UnsignedGreaterThan x y => at1 x (fun a => at1 y (fun b => Next (8, if b.2 <? a.2 then 1 else 0)))
  | I_icmp UnsignedGreaterThanOrEqual x y => at1 x (fun a => at1 y (fun b => Next (8, if b.2 <=? a.2 then 1 else 0)))
  | I_icmp NotEqual x y => at1 x (fun a => at1 y (fun b => Next (8, if a.2 =? b.2 then 0 else 1)))
  | I_icmp_imm NotEqual x imm => at1 x (fun a => Next (8, if a.2 =? wrap a.1 imm then 0 else 1))
  | I_icmp_imm UnsignedGreaterThan x imm => at1 x (fun a => Next (8, if wrap a.1 imm <? a.2 then 1 else 0))
  | I_icmp_imm UnsignedGreaterThanOrEqual x imm => at1 x (fun a => Next (8, if wrap a.1 imm <=? a.2 then 1 else 0))
  | I_select_spectre_guard c x y => at1 c (fun vc => at1 x (fun a => at1 y (fun b =>
      Next (a.1, if vc.2 =? 0 then b.2 else a.2))))
  | I_trapnz c code => at1 c (fun vc => if vc.2 =? 0 then Next (8, 0) else TrapStep code)
  | I_trap code => TrapStep code
  end.

(** Memory of which every global value is [base]. *)
Definition exec_sem (gvv : GlobalValue -> Z) : ClifSem := {| gv_value := gvv; sem := exec gvv |}.

Lemma exec_laws gvv : @ClifLaws (exec_sem gvv).
Proof.
  split; cbn; intros;
    repeat match goal with H : _ !! _ = Some _ |- _ => rewrite H; clear H end; done.
Qed.

(** ** Correctness of the emitted code *)
Section Run.
Context `{ClifLaws}.

Lemma run_app is1 is2 env :
  run (is1 ++ is2) env =
  match run is1 env with Done env' => run is2 env' | Trapped c => Trapped c | RunStuck => RunStuck end.
Proof.
  revert env; induction is1 as [|i is1 IH]; intros env; cbn; [done|].
  destruct (sem env i); [apply IH|done..].
Qed.

Lemma run_next i is_ env v : sem env i = Next v -> run (i :: is_) env = run is_ (env ++ [v]).
Proof. cbn. by intros ->. Qed.

Lemma lookup_new (env : list rtval) v : (env ++ [v]) !! length env = Some v.
Proof. apply list_lookup_middle; done. Qed.

Lemma lookup_old (env : list rtval) v w x : env !! x = Some w -> (env ++ [v]) !! x = Some w.
Proof. apply lookup_app_l_Some. Qed.

Lemma length_snoc (env : list rtval) v : length (env ++ [v]) = S (length env).
Proof. rewrite length_app. cbn. lia. Qed.

(** The instructions of [compute_addr] for an index in value [x], when [n]
    values are defined. *)
Definition addr_insts (gv : GlobalValue) (x n : nat) (offset : Z) : list inst :=
  [I_global_value gv; I_iadd n x] ++
  (if offset =? 0 then [] else [I_iconst I64_ty offset; I_iadd (S n) (S (S n))]).
Definition addr_value (n : nat) (offset : Z) : nat := if offset =? 0 then S n else S (S (S n)).

#[local] Arguments addr_insts : simpl never.
#[local] Arguments addr_value : simpl never.

Lemma compute_addr_emit m x offset n pre :
  compute_addr m I64_ty x offset (mkBuilder n pre) =
  (Ok (addr_value n offset),
   mkBuilder (S (addr_value n offset)) (pre ++ addr_insts (cl_base_gv m) x n offset)).
Proof.
  unfold compute_addr, addr_insts, addr_value, mbind, sm_bind, ins. cbn.
  destruct (offset =? 0); cbn; by rewrite <- !app_assoc.
Qed.

Lemma run_addr gv x idx offset env :
  env !! x = Some (64, idx) -> 0 <= offset < 2 ^ 32 ->
  exists env', run (addr_insts gv x (length env) offset) env = Done (env ++ env') /\
    length (env ++ env') = S (addr_value (length env) offset) /\
    (env ++ env') !! addr_value (length env) offset = Some (64, wrap 64 (gv_value gv + idx + offset)).
Proof.
  intros Hx Hoff. unfold addr_insts, addr_value. cbn [app].
  erewrite run_next by apply sem_global_value.
  erewrite run_next by (eapply sem_iadd; [apply lookup_new|by apply lookup_old]).
  destruct (Z.eqb_spec offset 0) as [->|Hne].
  - cbn [run]. rewrite <- app_assoc. eexists. split; [done|]. rewrite app_assoc, !length_snoc.
    split; [done|]. rewrite Z.add_0_r. by rewrite <- (length_snoc env (64, gv_value gv)), lookup_new.
  - erewrite run_next by apply sem_iconst.
    erewrite run_next.
    2:{ eapply sem_iadd.
        - apply lookup_old. by rewrite <- (length_snoc env (64, gv_value gv)), lookup_new.
        - rewrite <- (length_snoc env (64, gv_value gv)).
          erewrite <- (length_snoc (env ++ [_])). apply lookup_new. }
    cbn [run]. rewrite <- !app_assoc. eexists. split; [done|]. rewrite !app_assoc, !length_snoc.
    split; [done|].
    rewrite <- (length_snoc env (64, gv_value gv)) at 1.
    rewrite <- (length_snoc (env ++ [(64, gv_value gv)]) (64, wrap 64 (gv_value gv + idx))) at 1.
    rewrite <- (length_snoc ((env ++ [(64, gv_value gv)]) ++ [(64, wrap 64 (gv_value gv + idx))])
                  (64, wrap 64 offset)) at 1.
    rewrite lookup_new. do 2 f_equal. unfold wrap. cbn [bits].
    rewrite (Z.mod_small offset) by lia. by rewrite Zplus_mod_idemp_l.
Qed.
End Run.

#[local] Arguments addr_insts : simpl never.
#[local] Arguments addr_value : simpl never.

(** The accesses that carry no bounds check: those of 32-bit memories whose
    bound, guard, offset and size add up to 4 GiB less one byte.  The comment
    above the code derives another condition, in which offset and size are
    subtracted. *)
Definition unchecked (m : CraneliftMemory) (offset access_size : Z) : bool :=
  bool_decide (cl_index_type m = I32_ty) &&
  (2 ^ 32 - 1 <=? cl_bound m + cl_offset_guard_size m + (offset + access_size)).

(** The saturating sums of the code decide the same. *)
Lemma unchecked_saturating m offset access_size :
  0 <= cl_bound m -> 0 <= cl_offset_guard_size m -> 0 <= offset + access_size ->
  bool_decide (cl_index_type m = I32_ty) &&
  (2 ^ 32 - 1 <=? saturating_add 64 (saturating_add 64 (cl_bound m) (cl_offset_guard_size m)) (offset + access_size)) =
  unchecked m offset access_size.
Proof.
  intros. unfold unchecked, saturating_add. f_equal. apply eq_true_iff_eq. rewrite !Z.leb_le. lia.
Qed.

(** The instructions before the bounds check: the index as a pointer-sized value. *)
Definition cast_insts (ty : ir_type) (x : nat) : list inst :=
  match ty with I32_ty => [I_uextend I64_ty x] | I64_ty => [] end.
Definition cast_value (ty : ir_type) (x n : nat) : nat := match ty with I32_ty => n | I64_ty => x end.
Definition cast_count (ty : ir_type) (n : nat) : nat := match ty with I32_ty => S n | I64_ty => n end.

Lemma cast_emit ty x n :
  cast_index_to_pointer_ty x ty I64_ty (mkBuilder n []) =
  (Ok (cast_value ty x n), mkBuilder (cast_count ty n) (cast_insts ty x)).
Proof. by destruct ty. Qed.

Lemma run_cast `{ClifLaws} ty x idx env :
  env !! x = Some (bits ty, idx) ->
  exists env', run (cast_insts ty x) env = Done env' /\ length env' = cast_count ty (length env) /\
    env' !! cast_value ty x (length env) = Some (64, idx).
Proof.
  intros Hx. destruct ty; cbn.
  - erewrite sem_uextend by (done || cbn; lia). eexists. split; [done|].
    rewrite length_snoc, lookup_new. done.
  - by exists env.
Qed.

(** Parameters of an access that the validator and the types guarantee, for
    offsets up to the largest signed immediate. *)
Record access_ok (env : TargetEnv) (m : CraneliftMemory) (offset access_size : Z) : Prop := {
  ao_offset : 0 <= offset < 2 ^ 63;
  ao_index : offset < 2 ^ bits (cl_index_type m);
  ao_size : 0 < access_size < 2 ^ 8;
  ao_page : te_page_size_align_log2 env <= cl_page_size_log2 m;
  ao_bound : 0 <= cl_bound m < 2 ^ 63;
  ao_guard : 0 <= cl_offset_guard_size m < 2 ^ 63 }.

Section Bounds.
Context `{ClifLaws} `{TrapCodes} (env : TargetEnv) (m : CraneliftMemory).

(** What the code of a bounds check does at run time. *)
Definition bounds_spec (idx offset access_size : Z) (r : Reachability Value) (is_ : list inst)
    (vals : list rtval) : Prop :=
  let addr := wrap 64 (gv_value (cl_base_gv m) + idx + offset) in
  match r with
  | Unreachable => cl_bound m < offset + access_size /\ run is_ vals = Trapped HEAP_OUT_OF_BOUNDS
  | Reachable v =>
      offset + access_size <= cl_bound m /\
      if unchecked m offset access_size then outcome_at (run is_ vals) v = Some (64, addr)
      else if cl_bound m <? idx + offset + access_size then
        if te_spectre env then outcome_at (run is_ vals) v = Some (64, 0)
        else run is_ vals = Trapped HEAP_OUT_OF_BOUNDS
      else outcome_at (run is_ vals) v = Some (64, addr)
  end.

(** The explicit check, after the index has been cast. *)
Lemma run_explicit vals x idx offset bound_imm r is_ :
  vals !! x = Some (64, idx) -> 0 <= offset < 2 ^ 32 -> 0 <= bound_imm < 2 ^ 64 ->
  (let n := length vals in
   let addr := addr_insts (cl_base_gv m) x (if te_spectre env then S (S n) else S (S (S n))) offset in
   let v := addr_value (if te_spectre env then S (S n) else S (S (S n))) offset in
   is_ = [I_iconst I64_ty bound_imm; I_icmp UnsignedGreaterThan x n] ++
         (if te_spectre env then [] else [I_trapnz (S n) HEAP_OUT_OF_BOUNDS]) ++ addr ++
         (if te_spectre env then [I_iconst I64_ty 0; I_select_spectre_guard (S n) (S v) v] else []) /\
   r = (if te_spectre env then S (S v) else v)) ->
  let a := wrap 64 (gv_value (cl_base_gv m) + idx + offset) in
  if bound_imm <? idx then
    if te_spectre env then outcome_at (run is_ vals) r = Some (64, 0)
    else run is_ vals = Trapped HEAP_OUT_OF_BOUNDS
  else outcome_at (run is_ vals) r = Some (64, a).
Proof.
  intros Hx Hoff Hb [-> ->]. cbn zeta. cbn [app].
  erewrite run_next by apply sem_iconst. cbn [bits]. rewrite wrap_small by lia.
  erewrite run_next by (eapply sem_icmp_ugt; [by apply lookup_old|apply lookup_new]).
  set (c := if bound_imm <? idx then 1 else 0).
  pose (vals2 := (vals ++ [(64, bound_imm)]) ++ [(8, c)]).
  change ((vals ++ [(64, bound_imm)]) ++ [(8, c)]) with vals2.
  assert (Hl2 : length vals2 = S (S (length vals))) by (unfold vals2; by rewrite !length_snoc).
  assert (Hx2 : vals2 !! x = Some (64, idx)) by (unfold vals2; by do 2 apply lookup_old).
  assert (Hc2 : vals2 !! S (length vals) = Some (8, c))
    by (unfold vals2; rewrite <- (length_snoc vals (64, bound_imm)); apply lookup_new).
  destruct (te_spectre env); cbn [app].
  - rewrite run_app, <- Hl2.
    destruct (run_addr (cl_base_gv m) x idx offset vals2 Hx2 Hoff) as (e & -> & Hl & Hv).
    erewrite run_next by apply sem_iconst.
    erewrite run_next.
    2:{ rewrite <- Hl. eapply sem_select; [apply lookup_old, lookup_app_l_Some, Hc2|apply lookup_new|].
        by apply lookup_old. }
    cbn [run outcome_at]. rewrite <- Hl, <- (length_snoc (vals2 ++ e) (bits I64_ty, wrap (bits I64_ty) 0)).
    rewrite lookup_new. unfold c. by destruct (bound_imm <? idx).
  - cbn [run]. erewrite sem_trapnz by apply Hc2. unfold c.
    destruct (bound_imm <? idx); cbn [Z.eqb]; [done|].
    rewrite app_nil_r. pose (vals3 := vals2 ++ [(8, 0)]).
    change (vals2 ++ [(8, 0)]) with vals3.
    assert (Hl3 : length vals3 = S (S (S (length vals)))) by (unfold vals3; by rewrite length_snoc, Hl2).
    rewrite <- Hl3.
    destruct (run_addr (cl_base_gv m) x idx offset vals3) as (e & -> & Hl & Hv);
      [by apply lookup_old|done|]. done.
Qed.

Lemma bounds_check_spec x idx offset access_size vals :
  access_ok env m offset access_size -> offset < 2 ^ 32 ->
  vals !! x = Some (bits (cl_index_type m), idx) -> 0 <= idx < 2 ^ 64 ->
  exists r is_, emit (bounds_check_and_compute_addr env m x offset access_size) vals = (Ok r, is_) /\
    bounds_spec idx offset access_size r is_ vals.
Proof.
  intros [] Hnarrow Hx Hidx. unfold emit, bounds_check_and_compute_addr.
  destruct (run_cast _ _ _ _ Hx) as (vals1 & Hrun & Hl & Hv).
  unfold mbind at 1, sm_bind at 1. rewrite cast_emit.
  set (x' := cast_value _ _ _) in *. set (n := cast_count _ _) in *. set (pre := cast_insts _ _) in *.
  unfold mbind at 1, sm_bind at 1, sm_lift at 1, add. rewrite ofits_intro by lia.
  unfold mbind at 1, sm_bind at 1, sm_lift at 1. rewrite (proj2 (Z.leb_le _ _)) by lia.
  cbn [assert_]. destruct (Z.ltb_spec (cl_bound m) (offset + access_size)) as [Hlt|Hge].
  - cbn. eexists _, _. split; [done|]. cbn. split; [done|].
    rewrite run_app, Hrun. cbn. by rewrite sem_trap.
  - rewrite unchecked_saturating by lia. destruct (unchecked m offset access_size) eqn:Hun.
    + unfold mbind at 1, sm_bind at 1. rewrite compute_addr_emit. cbn.
      eexists _, _. split; [done|]. cbn. split; [done|]. rewrite Hun, run_app, Hrun, <- Hl.
      destruct (run_addr (cl_base_gv m) x' idx offset vals1 Hv ltac:(lia)) as (e & -> & _ & Ha). done.
    + unfold mbind at 1, sm_bind at 1, sm_lift at 1, checked_sub. rewrite try_from_intro by lia. cbn [unwrap].
      unfold mbind at 1, sm_bind at 1, sm_lift at 1, imm64.
      rewrite (proj2 (sfits_spec 64 _)) by lia.
      unfold explicit_check_oob_condition_and_compute_addr, mbind, sm_bind, ins. cbn [fb_values fb_insts].
      assert (Hspec : forall r is_,
        (is_ = pre ++ ([I_iconst I64_ty (cl_bound m - (offset + access_size)); I_icmp UnsignedGreaterThan x' n] ++
           (if te_spectre env then [] else [I_trapnz (S n) HEAP_OUT_OF_BOUNDS]) ++
           addr_insts (cl_base_gv m) x' (if te_spectre env then S (S n) else S (S (S n))) offset ++
           (if te_spectre env then [I_iconst I64_ty 0; I_select_spectre_guard (S n)
              (S (addr_value (if te_spectre env then S (S n) else S (S (S n))) offset))
              (addr_value (if te_spectre env then S (S n) else S (S (S n))) offset)] else [])) /\
         r = (if te_spectre env then S (S (addr_value (if te_spectre env then S (S n) else S (S (S n))) offset))
              else addr_value (if te_spectre env then S (S n) else S (S (S n))) offset)) ->
        bounds_spec idx offset access_size (Reachable r) is_ vals).
      { intros r is_ [-> ->]. cbn. split; [done|]. rewrite Hun, run_app, Hrun.
        rewrite <- Hl.
        pose proof (run_explicit vals1 x' idx offset (cl_bound m - (offset + access_size)) _ _ Hv ltac:(lia)
          ltac:(lia) (conj eq_refl eq_refl)) as He. cbn zeta in He.
        destruct (Z.ltb_spec (cl_bound m - (offset + access_size)) idx),
          (Z.ltb_spec (cl_bound m) (idx + offset + access_size)); try lia; exact He. }
      destruct (te_spectre env) eqn:Hsp.
      * cbn [mret sm_ret]. rewrite compute_addr_emit. cbn. eexists _, _. split; [done|].
        apply Hspec. split; [|done]. by rewrite <- !app_assoc.
      * cbn [mret sm_ret]. rewrite compute_addr_emit. cbn. eexists _, _. split; [done|].
        apply Hspec. split; [|done]. by rewrite <- !app_assoc, app_nil_r.
Qed.

(** *** [prepare_addr] *)

(** Emitting only appends: the code does not depend on what was emitted before. *)
Definition appends {A} (e : Emit A) : Prop := forall n pre,
  e (mkBuilder n pre) =
  let '(r, b) := e (mkBuilder n []) in (r, mkBuilder (fb_values b) (pre ++ fb_insts b)).

Lemma appends_ret {A} (a : A) : appends (mret a).
Proof. intros n pre. cbn. by rewrite app_nil_r. Qed.
Lemma appends_lift {A} (r : outcome Error A) : appends (sm_lift r).
Proof. intros n pre. cbn. by rewrite app_nil_r. Qed.
Lemma appends_ins i : appends (ins i).
Proof. by intros n pre. Qed.
Lemma appends_bind {A B} (e : Emit A) (k : A -> Emit B) : appends e -> (forall a, appends (k a)) -> appends (e ≫= k).
Proof.
  intros He Hk n pre. unfold mbind, sm_bind. rewrite He. destruct (e (mkBuilder n [])) as [[a| |] [n' is_]]; cbn; [|done..].
  rewrite (Hk a n' (pre ++ is_)), (Hk a n' is_). destruct (k a (mkBuilder n' [])) as [r b]. cbn. by rewrite app_assoc.
Qed.
Ltac appends :=
  repeat first [apply appends_ret | apply appends_lift | apply appends_ins | apply appends_bind; [|intros ?]
               | progress case_match | progress case_decide].

Lemma bounds_check_appends x offset access_size : appends (bounds_check_and_compute_addr env m x offset access_size).
Proof.
  unfold bounds_check_and_compute_addr, cast_index_to_pointer_ty, explicit_check_oob_condition_and_compute_addr, compute_addr.
  appends.
Qed.

(** The flags of a heap access: it may trap as an out-of-bounds access, is
    little-endian and touches the heap only. *)
Definition heap_flags : mem_flags.MemFlags := {|
  mem_flags.notrap := false; mem_flags.aligned := false; mem_flags.readonly := false;
  mem_flags.checked := cl_memory_type m; mem_flags.little := true;
  mem_flags.alias_region := Some mem_flags.Heap; mem_flags.trap_code := Some HEAP_OUT_OF_BOUNDS |}.

(** What the code of an access does at run time.  Offsets from 4 GiB on are added
    to the index by the emitted code, which traps when the sum overflows; smaller
    ones are part of the check. *)
Definition access_spec (x : Value) (idx offset access_size : Z)
    (r : Reachability (mem_flags.MemFlags * Value * Value)) (is_ : list inst) (vals : list rtval) : Prop :=
  let wide := 2 ^ 32 <=? offset in
  let least := (if wide then 0 else offset) + access_size in
  let addr := wrap 64 (gv_value (cl_base_gv m) + idx + offset) in
  match r with
  | Unreachable => cl_bound m < least /\ run is_ vals = Trapped HEAP_OUT_OF_BOUNDS
  | Reachable (flags, index, v) =>
      least <= cl_bound m /\ flags = heap_flags /\ index = x /\
      if unchecked m offset access_size then outcome_at (run is_ vals) v = Some (64, addr)
      else if cl_bound m <? idx + offset + access_size then
        if te_spectre env && negb (wide && (2 ^ 64 <=? idx + offset))
        then outcome_at (run is_ vals) v = Some (64, 0)
        else run is_ vals = Trapped HEAP_OUT_OF_BOUNDS
      else outcome_at (run is_ vals) v = Some (64, addr)
  end.

(** The result of [prepare_addr], from that of the bounds check. *)
Definition accessed (x : Value) (r : Reachability Value) : Reachability (mem_flags.MemFlags * Value * Value) :=
  match r with Unreachable => Unreachable | Reachable v => Reachable (heap_flags, x, v) end.

Lemma prepare_addr_narrow x access_size offset vals r is_ : 0 <= offset < 2 ^ 32 ->
  emit (bounds_check_and_compute_addr env m x offset access_size) vals = (Ok r, is_) ->
  emit (prepare_addr env m x access_size offset) vals = (Ok (accessed x r), is_).
Proof.
  intros Ho. unfold emit, prepare_addr. rewrite try_from_intro by lia. unfold mbind, sm_bind.
  destruct (bounds_check_and_compute_addr _ _ _ _ _ _) as [r' b]. intros [= -> <-].
  destruct r; [|done]. unfold accessed, heap_flags. by destruct (cl_memory_type m).
Qed.

(** The instructions that add a large offset to the index. *)
Definition wide_insts (x n : nat) (offset : Z) : list inst :=
  [I_iconst I64_ty offset; I_uadd_overflow_trap x n HEAP_OUT_OF_BOUNDS].

Lemma prepare_addr_wide x access_size offset vals v0 v1 r is_ : 2 ^ 32 <= offset < 2 ^ 63 -> cl_index_type m = I64_ty ->
  emit (bounds_check_and_compute_addr env m (S (length vals)) 0 access_size) ((vals ++ [v0]) ++ [v1]) = (Ok r, is_) ->
  emit (prepare_addr env m x access_size offset) vals = (Ok (accessed x r), wide_insts x (length vals) offset ++ is_).
Proof.
  intros Ho Ht. unfold emit, prepare_addr. rewrite (proj2 (try_from_None 32 offset)) by lia.
  unfold imm64. rewrite (proj2 (sfits_spec 64 _)) by lia. rewrite Ht. unfold mbind, sm_bind, sm_lift, ins. cbn [fb_values fb_insts app].
  rewrite (bounds_check_appends _ _ _ _ [_; _]), !length_snoc.
  destruct (bounds_check_and_compute_addr _ _ _ _ _ _) as [r' b]. intros [= -> <-].
  destruct r; [|done]. unfold accessed, heap_flags. by destruct (cl_memory_type m).
Qed.

Lemma prepare_addr_spec x idx offset access_size vals :
  access_ok env m offset access_size ->
  vals !! x = Some (bits (cl_index_type m), idx) -> 0 <= idx < 2 ^ 64 ->
  exists r is_, emit (prepare_addr env m x access_size offset) vals = (Ok r, is_) /\
    access_spec x idx offset access_size r is_ vals.
Proof.
  intros Hok Hx Hidx. pose proof Hok as []. unfold access_spec.
  destruct (Z.leb_spec (2 ^ 32) offset) as [Hw|Hn]; cbn zeta.
  - assert (Ht : cl_index_type m = I64_ty) by (destruct (cl_index_type m); [cbn in *; lia|done]).
    rewrite Ht in Hx. set (sum := idx + offset).
    destruct (bounds_check_spec (S (length vals)) (wrap 64 sum) 0 access_size ((vals ++ [(64, offset)]) ++ [(64, wrap 64 sum)]))
      as (r & is_ & He & Hs); [split; cbn; rewrite ?Ht; cbn; lia|lia|rewrite Ht, <- (length_snoc vals (64, offset)); exact (lookup_new (vals ++ [(64, offset)]) _)|apply wrap_bound; lia|].
    eexists _, _. split; [eapply prepare_addr_wide; [lia|done|exact He]|].
    assert (Hrun : run (wide_insts x (length vals) offset ++ is_) vals =
                   if 2 ^ 64 <=? sum then Trapped HEAP_OUT_OF_BOUNDS else run is_ ((vals ++ [(64, offset)]) ++ [(64, wrap 64 sum)])).
    { rewrite run_app. unfold wide_insts. erewrite run_next by apply sem_iconst. cbn [bits]. rewrite wrap_small by lia.
      cbn [run]. erewrite sem_uadd_overflow_trap by (apply lookup_old, Hx || apply lookup_new). fold sum.
      cbn [bits]. destruct (Z.ltb_spec sum (2 ^ 64)), (Z.leb_spec (2 ^ 64) sum); try lia; [|done].
      by rewrite wrap_small by lia. }
    assert (Hun : forall o, unchecked m o access_size = false) by (intros o; unfold unchecked; by rewrite Ht).
    rewrite Hrun. unfold bounds_spec in Hs. rewrite Hun in *.
    destruct r as [v|]; cbn in *; destruct Hs as [Hb Hs]; [|split; [lia|by destruct (2 ^ 64 <=? sum)]].
    split; [lia|]. split; [done|]. split; [done|]. rewrite !Z.add_0_r in Hs.
    destruct (Z.leb_spec (2 ^ 64) sum); cbn.
    + rewrite (proj2 (Z.ltb_lt _ _)) by lia. by rewrite andb_false_r.
    + rewrite (wrap_small 64 sum) in * by lia. rewrite andb_true_r, <- Z.add_assoc. exact Hs.
  - destruct (bounds_check_spec x idx offset access_size vals) as (r & is_ & He & Hs); [done..|].
    eexists _, _. split; [apply prepare_addr_narrow; [lia|exact He]|]. cbn [andb negb]. rewrite andb_true_r.
    destruct r; cbn in *; [|done]. destruct Hs. done.
Qed.
End Bounds.
