(* ===== verification/Clif.v ===== *)
(** * The interface of the code generator

    Function bodies are translated through Cranelift's [FunctionBuilder]: blocks
    with parameters, SSA values, one instruction appended at a time to the
    current block.  Cranelift is not part of this repository, so the builder is
    the class [FunctionBuilder]; [FunctionBuilderLaws] states what its
    documentation promises, with the type constraints of the instructions as a
    table ([inst_sig]).  A command used outside its documented preconditions may
    panic.  Value labels, source locations, stack maps and proof-carrying-code
    facts only annotate the function and are left out; the order in which global
    values and constants are created is not observable, and they are written into
    the instructions that use them. *)
From stdpp Require Import base list gmap option numbers.
From S2P Require Import Prelude Trap Module HeapAccess.
Local Open Scope Z_scope.

Module ir.
(** [ir::Type], restricted to the types the translator mentions. *)
Inductive Type_ : Type :=
| I8 | I16 | I32 | I64 | F32 | F64
| I8X16 | I16X8 | I32X4 | I64X2 | F32X4 | F64X2.

#[global] Instance Type_eq_dec : EqDecision Type_.
Proof. solve_decision. Defined.

Definition lane_type (t : Type_) : Type_ :=
  match t with
  | I8X16 => I8 | I16X8 => I16 | I32X4 => I32 | I64X2 => I64 | F32X4 => F32 | F64X2 => F64
  | t => t
  end.
Definition is_vector (t : Type_) : bool :=
  match t with I8X16 | I16X8 | I32X4 | I64X2 | F32X4 | F64X2 => true | _ => false end.
Definition bytes (t : Type_) : Z :=
  match t with I8 => 1 | I16 => 2 | I32 | F32 => 4 | I64 | F64 => 8 | _ => 16 end.
Definition lane_count (t : Type_) : Z := bytes t / bytes (lane_type t).
(** A scalar integer. *)
Definition is_int (t : Type_) : bool := match t with I8 | I16 | I32 | I64 => true | _ => false end.
Definition is_float (t : Type_) : bool := match t with F32 | F64 => true | _ => false end.

(** [ir::Opcode]: the instructions without further data. *)
Inductive Opcode : Type :=
(* integers *)
| Iadd | Isub | Imul | Sdiv | Udiv | Srem | Urem | Band | Bor | Bxor | Bnot | BandNot
| Ishl | Sshr | Ushr | Rotl | Rotr | Clz | Ctz | Popcnt | Ineg | Iabs
| Ireduce | Sextend | Uextend
(* floats *)
| Fadd | Fsub | Fmul | Fdiv | Fmin | Fmax | Fcopysign | Sqrt | Ceil | Floor | Trunc | Nearest | Fabs | Fneg | Fma
| FcvtToSint | FcvtToUint | FcvtToSintSat | FcvtToUintSat | FcvtFromSint | FcvtFromUint | Fdemote | Fpromote
(* moves *)
| Bitcast | Select | Iconst | F32const | F64const | Vconst
(* vectors *)
| Splat | ScalarToVector | Insertlane | Extractlane | Shuffle | Swizzle
| SaddSat | UaddSat | SsubSat | UsubSat | Smin | Umin | Smax | Umax | AvgRound
| Bitselect | VanyTrue | VallTrue | VhighBits
| SwidenLow | SwidenHigh | UwidenLow | UwidenHigh | Snarrow | Unarrow | Uunarrow | IaddPairwise
| FvpromoteLow | Fvdemote | SqmulRoundSat
| X86Pshufb | X86Blendv | X86Cvtt2dq | X86Pmulhrsw | X86Pmaddubsw
(* addresses *)
| IaddImm | BandImm | IshlImm | ImulImm | SelectSpectreGuard
(* the frame; the address of a stack slot of the size and alignment in the immediates *)
| GetFramePointer | GetReturnAddress | StackAddr.

(** Loads and stores. *)
Inductive MemOpcode : Type :=
| Load | Uload8 | Sload8 | Uload16 | Sload16 | Uload32 | Sload32
| Store | Istore8 | Istore16 | Istore32
| Sload8x8 | Uload8x8 | Sload16x4 | Uload16x4 | Sload32x2 | Uload32x2.

(** [ir::AliasRegion] and [ir::MemFlags]. *)
Include mem_flags.

Inductive ArgumentPurpose : Type := Normal | VMContext.
Record AbiParam : Type := mkAbiParam { value_type : Type_; purpose : ArgumentPurpose }.
Record Signature : Type := mkSignature { params : list AbiParam; returns : list AbiParam }.

(** [ExtFuncData]: name space and index of the callee, its signature. *)
Record ExtFuncData : Type := mkExtFunc { ef_namespace : Z; ef_index : Z; ef_signature : Z; ef_colocated : bool }.
End ir.

#[global] Instance Purpose_eq_dec : EqDecision ir.ArgumentPurpose.
Proof. solve_decision. Defined.

(** Condition codes. *)
Module IntCC.
Inductive t : Type :=
| Equal | NotEqual | SignedLessThan | SignedGreaterThanOrEqual | SignedGreaterThan | SignedLessThanOrEqual
| UnsignedLessThan | UnsignedGreaterThanOrEqual | UnsignedGreaterThan | UnsignedLessThanOrEqual.
End IntCC.
Module FloatCC.
Inductive t : Type := Equal | NotEqual | LessThan | LessThanOrEqual | GreaterThan | GreaterThanOrEqual.
End FloatCC.

(** Entities. *)
Abbreviation Value := Z.
Abbreviation Block := Z.
Abbreviation Inst := Z.

Inductive InstData : Type :=
| Op (opcode : ir.Opcode) (ctrl : option ir.Type_) (args : list Value) (imm : list Z)
| Icmp (cc : IntCC.t) (x y : Value)
| IcmpImm (cc : IntCC.t) (x : Value) (imm : Z)
| Fcmp (cc : FloatCC.t) (x y : Value)
| LoadOp (opcode : ir.MemOpcode) (ty : ir.Type_) (flags : ir.MemFlags) (addr : Value) (offset : Z)
| StoreOp (opcode : ir.MemOpcode) (flags : ir.MemFlags) (val addr : Value) (offset : Z)
| GlobalValueOp (gv : GlobalValue)
| UaddOverflowTrap (x y : Value) (code : Z)
| Trapz (c : Value) (code : Z)
| Trapnz (c : Value) (code : Z)
| Fence
| CallOp (callee : Z) (args : list Value)
| CallIndirectOp (sig : Z) (addr : Value) (args : list Value)
| TrapOp (code : Z)
| Jump (dest : Block) (args : list Value)
| Brif (c : Value) (b1 : Block) (args1 : list Value) (b2 : Block) (args2 : list Value)
| BrTable (v : Value) (default : Block) (targets : list Block)
| Return_ (args : list Value).

Definition is_terminator (i : InstData) : bool :=
  match i with TrapOp _ | Jump _ _ | Brif _ _ _ _ _ | BrTable _ _ _ | Return_ _ => true | _ => false end.
(** The blocks an instruction may branch to. *)
Definition branch_targets (i : InstData) : list Block :=
  match i with
  | Jump d _ => [d]
  | Brif _ b1 _ b2 _ => [b1; b2]
  | BrTable _ d ts => d :: ts
  | _ => []
  end.

(** ** The builder *)
Class FunctionBuilder (B : Type) := {
  (* commands *)
  create_block : SM B Error Block;
  append_block_param : Block -> ir.Type_ -> SM B Error Value;
  append_block_params_for_function_params : Block -> SM B Error unit;
  append_block_params_for_function_returns : Block -> SM B Error unit;
  switch_to_block : Block -> SM B Error unit;
  seal_block : Block -> SM B Error unit;
  ensure_inserted_block : SM B Error unit;
  build : InstData -> SM B Error Inst;
  change_jump_destination : Inst -> Block -> Block -> SM B Error unit;
  declare_var : Z -> ir.Type_ -> SM B Error unit;
  def_var : Z -> Value -> SM B Error unit;
  use_var : Z -> SM B Error Value;
  import_signature : ir.Signature -> SM B Error Z;
  import_function : ir.ExtFuncData -> SM B Error Z;
  finalize : SM B Error unit;
  (* queries *)
  dfg_num_blocks : B -> Z;
  dfg_num_insts : B -> Z;
  dfg_value_type : B -> Value -> option ir.Type_;
  block_params : B -> Block -> list Value;
  inst_results : B -> Inst -> list Value;
  func_signature : B -> ir.Signature;
  dfg_signature : B -> Z -> option ir.Signature;
  dfg_ext_func : B -> Z -> option ir.ExtFuncData;
  special_param_vmctx : B -> option Value;
  is_unreachable : B -> bool }.
