(* ===== verification/ClifLaws.v ===== *)
(** * What the code generator's interface promises

    The type constraints of the instructions as a table, and the documented
    behaviour of the builder: blocks are created unfilled and unsealed, an
    instruction goes to the current block unless it is filled, terminators fill
    it and make it a predecessor of their targets, which must not be sealed yet;
    reading a variable may add parameters to blocks, but not to blocks that have
    not been entered. *)
From stdpp Require Import base list gmap option numbers.
From S2P Require Import Prelude Trap Module HeapAccess Clif.
Local Open Scope Z_scope.

(** ** Types of instructions *)
Definition same2 (P : ir.Type_ -> bool) (tys : list ir.Type_) : option (list ir.Type_) :=
  match tys with [s; t] => if bool_decide (s = t) && P s then Some [s] else None | _ => None end.
Definition same3 (P : ir.Type_ -> bool) (tys : list ir.Type_) : option (list ir.Type_) :=
  match tys with [s; t; u] => if bool_decide (s = t) && bool_decide (t = u) && P s then Some [s] else None | _ => None end.
Definition same1 (P : ir.Type_ -> bool) (tys : list ir.Type_) : option (list ir.Type_) :=
  match tys with [s] => if P s then Some [s] else None | _ => None end.
Definition convert (P : ir.Type_ -> ir.Type_ -> bool) (ctrl : option ir.Type_) (tys : list ir.Type_) : option (list ir.Type_) :=
  match ctrl, tys with Some t, [s] => if P s t then Some [t] else None | _, _ => None end.

(** Integers and floats, as scalars or in lanes. *)
Definition int_lanes (t : ir.Type_) : bool := ir.is_int (ir.lane_type t).
Definition float_lanes (t : ir.Type_) : bool := ir.is_float (ir.lane_type t).
Definition int_vector (t : ir.Type_) : bool := ir.is_vector t && int_lanes t.
(** The vector of integers with the lanes of a vector. *)
Definition truth_type (t : ir.Type_) : ir.Type_ :=
  match t with ir.F32X4 => ir.I32X4 | ir.F64X2 => ir.I64X2 | t => if ir.is_vector t then t else ir.I8 end.
Definition widened (t : ir.Type_) : option ir.Type_ :=
  match t with ir.I8X16 => Some ir.I16X8 | ir.I16X8 => Some ir.I32X4 | ir.I32X4 => Some ir.I64X2 | _ => None end.
Definition narrowed (t : ir.Type_) : option ir.Type_ :=
  match t with ir.I16X8 => Some ir.I8X16 | ir.I32X4 => Some ir.I16X8 | ir.I64X2 => Some ir.I32X4 | _ => None end.

Definition op_sig (o : ir.Opcode) (ctrl : option ir.Type_) (tys : list ir.Type_) (imm : list Z) : option (list ir.Type_) :=
  match o with
  | ir.Iadd | ir.Isub | ir.Imul | ir.Smin | ir.Umin | ir.Smax | ir.Umax => same2 int_lanes tys
  | ir.Sdiv | ir.Udiv | ir.Srem | ir.Urem => same2 ir.is_int tys
  | ir.Band | ir.Bor | ir.Bxor | ir.BandNot => same2 (fun _ => true) tys
  | ir.Bnot => same1 (fun _ => true) tys
  | ir.Ishl | ir.Sshr | ir.Ushr | ir.Rotl | ir.Rotr =>
      match tys with [s; t] => if int_lanes s && ir.is_int t then Some [s] else None | _ => None end
  | ir.Clz | ir.Ctz => same1 ir.is_int tys
  | ir.Popcnt | ir.Ineg | ir.Iabs => same1 int_lanes tys
  | ir.Ireduce => convert (fun s t => ir.is_int s && ir.is_int t && (ir.bytes t <? ir.bytes s)) ctrl tys
  | ir.Sextend | ir.Uextend => convert (fun s t => ir.is_int s && ir.is_int t && (ir.bytes s <? ir.bytes t)) ctrl tys
  | ir.Fadd | ir.Fsub | ir.Fmul | ir.Fdiv | ir.Fmin | ir.Fmax | ir.Fcopysign => same2 float_lanes tys
  | ir.Sqrt | ir.Ceil | ir.Floor | ir.Trunc | ir.Nearest | ir.Fabs | ir.Fneg => same1 float_lanes tys
  | ir.Fma => same3 float_lanes tys
  | ir.FcvtToSint | ir.FcvtToUint => convert (fun s t => ir.is_float s && ir.is_int t) ctrl tys
  | ir.FcvtToSintSat | ir.FcvtToUintSat =>
      convert (fun s t => float_lanes s && int_lanes t && (ir.lane_count s =? ir.lane_count t)) ctrl tys
  | ir.FcvtFromSint | ir.FcvtFromUint =>
      convert (fun s t => int_lanes s && float_lanes t && (ir.lane_count s =? ir.lane_count t)) ctrl tys
  | ir.Fdemote => convert (fun s t => ir.is_float s && ir.is_float t && (ir.bytes t <? ir.bytes s)) ctrl tys
  | ir.Fpromote => convert (fun s t => ir.is_float s && ir.is_float t && (ir.bytes s <? ir.bytes t)) ctrl tys
  | ir.Bitcast => convert (fun s t => ir.bytes s =? ir.bytes t) ctrl tys
  | ir.Select | ir.SelectSpectreGuard =>
      match tys with [c; s; t] => if ir.is_int c && bool_decide (s = t) then Some [s] else None | _ => None end
  | ir.Iconst => match ctrl, tys with Some t, [] => if ir.is_int t then Some [t] else None | _, _ => None end
  | ir.F32const => match tys with [] => Some [ir.F32] | _ => None end
  | ir.F64const => match tys with [] => Some [ir.F64] | _ => None end
  | ir.Vconst => match ctrl, tys with Some t, [] => if ir.is_vector t && (pm_len imm =? 16) then Some [t] else None | _, _ => None end
  | ir.Splat | ir.ScalarToVector => convert (fun s t => ir.is_vector t && bool_decide (s = ir.lane_type t)) ctrl tys
  | ir.Insertlane =>
      match tys, imm with
      | [s; t], [lane] => if ir.is_vector s && bool_decide (t = ir.lane_type s) && (0 <=? lane) && (lane <? ir.lane_count s) then Some [s] else None
      | _, _ => None
      end
  | ir.Extractlane =>
      match tys, imm with
      | [s], [lane] => if ir.is_vector s && (0 <=? lane) && (lane <? ir.lane_count s) then Some [ir.lane_type s] else None
      | _, _ => None
      end
  | ir.Shuffle => match tys with [ir.I8X16; ir.I8X16] => if pm_len imm =? 16 then Some [ir.I8X16] else None | _ => None end
  | ir.Swizzle | ir.X86Pshufb => match tys with [ir.I8X16; ir.I8X16] => Some [ir.I8X16] | _ => None end
  | ir.SaddSat | ir.UaddSat | ir.SsubSat | ir.UsubSat | ir.AvgRound => same2 int_vector tys
  | ir.Bitselect => same3 (fun _ => true) tys
  | ir.X86Blendv => same3 ir.is_vector tys
  | ir.VanyTrue | ir.VallTrue => match tys with [s] => if ir.is_vector s then Some [ir.I8] else None | _ => None end
  | ir.VhighBits => convert (fun s t => ir.is_vector s && ir.is_int t) ctrl tys
  | ir.SwidenLow | ir.SwidenHigh | ir.UwidenLow | ir.UwidenHigh => match tys with [s] => t ← widened s; Some [t] | _ => None end
  | ir.Snarrow | ir.Unarrow | ir.Uunarrow =>
      match tys with [s; t] => if bool_decide (s = t) then u ← narrowed s; Some [u] else None | _ => None end
  | ir.IaddPairwise => same2 int_vector tys
  | ir.FvpromoteLow => match tys with [ir.F32X4] => Some [ir.F64X2] | _ => None end
  | ir.Fvdemote => match tys with [ir.F64X2] => Some [ir.F32X4] | _ => None end
  | ir.SqmulRoundSat | ir.X86Pmulhrsw => same2 (fun t => bool_decide (t = ir.I16X8)) tys
  | ir.X86Cvtt2dq =>
      convert (fun s t => match s, t with ir.F32X4, ir.I32X4 | ir.F64X2, ir.I64X2 => true | _, _ => false end) ctrl tys
  | ir.X86Pmaddubsw => match tys with [ir.I8X16; ir.I8X16] => Some [ir.I16X8] | _ => None end
  | ir.IaddImm | ir.BandImm | ir.IshlImm | ir.ImulImm => same1 ir.is_int tys
  | ir.GetFramePointer | ir.GetReturnAddress | ir.StackAddr => match ctrl, tys with Some ir.I64, [] => Some [ir.I64] | _, _ => None end
  end.

(** The type a load yields, and the types a store takes. *)
Definition load_ok (o : ir.MemOpcode) (ty : ir.Type_) : bool :=
  match o with
  | ir.Load => true
  | ir.Uload8 | ir.Sload8 => ir.is_int ty && (1 <? ir.bytes ty)
  | ir.Uload16 | ir.Sload16 => ir.is_int ty && (2 <? ir.bytes ty)
  | ir.Uload32 | ir.Sload32 => bool_decide (ty = ir.I64)
  | ir.Sload8x8 | ir.Uload8x8 => bool_decide (ty = ir.I16X8)
  | ir.Sload16x4 | ir.Uload16x4 => bool_decide (ty = ir.I32X4)
  | ir.Sload32x2 | ir.Uload32x2 => bool_decide (ty = ir.I64X2)
  | _ => false
  end.
Definition store_ok (o : ir.MemOpcode) (ty : ir.Type_) : bool :=
  match o with
  | ir.Store => true
  | ir.Istore8 => ir.is_int ty && (1 <? ir.bytes ty)
  | ir.Istore16 => ir.is_int ty && (2 <? ir.bytes ty)
  | ir.Istore32 => bool_decide (ty = ir.I64)
  | _ => false
  end.

(** ** The builder's state as its user sees it *)
Class BuilderView (B : Type) := {
  current : B -> option Block;
  entry : B -> option Block;
  known : B -> Block -> Prop;
  filled : B -> Block -> Prop;
  sealed : B -> Block -> Prop;
  (* an instruction branches to a block *)
  edge : B -> Inst -> Block -> Prop;
  (* the parameters a block has been given explicitly *)
  declared : B -> Block -> list ir.Type_;
  (* no variable has been read in the block *)
  clean : B -> Block -> Prop;
  var_type : B -> Z -> option ir.Type_ }.

Section View.
Context {B : Type} `{FunctionBuilder B, BuilderView B}.

Definition has_type (b : B) (v : Value) (t : ir.Type_) : Prop := dfg_value_type b v = Some t.
(** The current block takes further instructions. *)
Definition open (b : B) : Prop := exists k, current b = Some k /\ known b k /\ ~ filled b k.

Definition target_ok (b : B) (d : Block) (args : list Value) : Prop :=
  known b d /\ ~ sealed b d /\ Forall2 (has_type b) args (declared b d).
Definition param_types (l : list ir.AbiParam) : list ir.Type_ := ir.value_type <$> l.

(** An instruction that satisfies its constraints, and its result types. *)
Definition inst_ok (b : B) (i : InstData) (ts : list ir.Type_) : Prop :=
  match i with
  | Op o ctrl args imm => exists tys, Forall2 (has_type b) args tys /\ op_sig o ctrl tys imm = Some ts
  | Icmp _ x y => exists t, has_type b x t /\ has_type b y t /\ int_lanes t = true /\ ts = [truth_type t]
  | IcmpImm _ x _ => exists t, has_type b x t /\ ir.is_int t = true /\ ts = [ir.I8]
  | Fcmp _ x y => exists t, has_type b x t /\ has_type b y t /\ float_lanes t = true /\ ts = [truth_type t]
  | LoadOp o ty _ addr _ => has_type b addr ir.I64 /\ load_ok o ty = true /\ ts = [ty]
  | StoreOp o _ val addr _ => exists t, has_type b addr ir.I64 /\ has_type b val t /\ store_ok o t = true /\ ts = []
  | GlobalValueOp _ => ts = [ir.I64]
  | UaddOverflowTrap x y _ => exists t, has_type b x t /\ has_type b y t /\ (t = ir.I32 \/ t = ir.I64) /\ ts = [t]
  | Trapz c _ | Trapnz c _ => exists t, has_type b c t /\ ir.is_int t = true /\ ts = []
  | Fence | TrapOp _ => ts = []
  | CallOp callee args => exists f s, dfg_ext_func b callee = Some f /\ dfg_signature b (ir.ef_signature f) = Some s /\
      Forall2 (has_type b) args (param_types (ir.params s)) /\ ts = param_types (ir.returns s)
  | CallIndirectOp sig addr args => exists s, dfg_signature b sig = Some s /\ has_type b addr ir.I64 /\
      Forall2 (has_type b) args (param_types (ir.params s)) /\ ts = param_types (ir.returns s)
  | Jump d args => target_ok b d args /\ ts = []
  | Brif c b1 args1 b2 args2 => (exists t, has_type b c t /\ ir.is_int t = true) /\ target_ok b b1 args1 /\ target_ok b b2 args2 /\ ts = []
  | BrTable v d targets => has_type b v ir.I32 /\ Forall (fun d => target_ok b d []) (d :: targets) /\ ts = []
  | Return_ args => Forall2 (has_type b) args (param_types (ir.returns (func_signature b))) /\ ts = []
  end.

(** What every command keeps; variables change only by their declaration. *)
Record keeps (b b' : B) : Prop := {
  ex_types : forall v t, has_type b v t -> has_type b' v t;
  ex_known : forall k, known b k -> known b' k;
  ex_sig : func_signature b' = func_signature b;
  ex_sigs : forall r s, dfg_signature b r = Some s -> dfg_signature b' r = Some s;
  ex_funcs : forall r f, dfg_ext_func b r = Some f -> dfg_ext_func b' r = Some f;
  ex_vmctx : forall v, special_param_vmctx b = Some v -> special_param_vmctx b' = Some v;
  ex_entry : forall k, entry b = Some k -> entry b' = Some k }.
Definition extends (b b' : B) : Prop := keeps b b' /\ forall x, var_type b' x = var_type b x.

(** Blocks and the position are as before, but for the parameters of [x]. *)
Record same_blocks (x : option Block) (b b' : B) : Prop := {
  sb_declared : forall k, known b k -> x <> Some k -> declared b' k = declared b k;
  sb_filled : forall k, filled b' k <-> filled b k;
  sb_sealed : forall k, sealed b' k <-> sealed b k;
  sb_edge : forall j d, edge b' j d <-> edge b j d }.
Record same_flow (x : option Block) (b b' : B) : Prop := {
  sf_blocks : same_blocks x b b';
  sf_current : current b' = current b;
  sf_clean : forall k, clean b k -> clean b' k }.

(** The effect of instruction [k] on blocks. *)
Record flow_after (i : InstData) (k : Inst) (b b' : B) : Prop := {
  fa_declared : forall d, known b d -> declared b' d = declared b d;
  fa_filled : forall d, filled b' d <-> filled b d \/ (is_terminator i = true /\ current b = Some d);
  fa_sealed : forall d, sealed b' d <-> sealed b d;
  fa_fresh : forall d, ~ edge b k d;
  fa_edge : forall j d, edge b' j d <-> edge b j d \/ (j = k /\ d ∈ branch_targets i);
  fa_current : current b' = current b;
  fa_clean : forall d, clean b d -> clean b' d }.
End View.

(** ** The laws *)
Class FunctionBuilderLaws (B : Type) `{FunctionBuilder B, BuilderView B} := {
  law_clean : forall (b : B) k, clean b k -> Forall2 (has_type b) (block_params b k) (declared b k);
  law_unreachable : forall (b : B) k, current b = Some k -> entry b = Some k \/ (exists j, edge b j k) -> is_unreachable b = false;
  law_create_block : forall b : B, exists k b', create_block b = (Ok k, b') /\ extends b b' /\ same_flow None b b' /\
    ~ known b k /\ known b' k /\ ~ filled b k /\ ~ sealed b k /\ (forall j, ~ edge b j k) /\ declared b' k = [] /\ clean b' k /\ entry b' = entry b;
  law_append_block_param : forall (b : B) k t, known b k -> clean b k -> ~ filled b k ->
    exists v b', append_block_param k t b = (Ok v, b') /\ extends b b' /\ same_flow (Some k) b b' /\
      declared b' k = declared b k ++ [t];
  law_append_function_params : forall (b : B) k, known b k -> clean b k -> ~ filled b k -> declared b k = [] ->
    exists b', append_block_params_for_function_params k b = (Ok tt, b') /\ extends b b' /\ same_flow (Some k) b b' /\
      declared b' k = param_types (ir.params (func_signature b)) /\ entry b' = entry b;
  law_append_function_returns : forall (b : B) k, known b k -> clean b k -> ~ filled b k -> declared b k = [] ->
    exists b', append_block_params_for_function_returns k b = (Ok tt, b') /\ extends b b' /\ same_flow (Some k) b b' /\
      declared b' k = param_types (ir.returns (func_signature b));
  law_switch_to_block : forall (b : B) k, known b k -> ~ filled b k -> (forall c, current b = Some c -> filled b c) ->
    exists b', switch_to_block k b = (Ok tt, b') /\ extends b b' /\ same_blocks None b b' /\ current b' = Some k /\
      (forall j, clean b j -> clean b' j) /\ entry b' = entry b;
  law_seal_block : forall (b : B) k, known b k -> ~ sealed b k ->
    exists b', seal_block k b = (Ok tt, b') /\ extends b b' /\ current b' = current b /\
      (forall j, known b j -> declared b' j = declared b j) /\ (forall j, filled b' j <-> filled b j) /\
      (forall j, sealed b' j <-> sealed b j \/ j = k) /\ (forall j d, edge b' j d <-> edge b j d) /\
      (forall j, clean b j -> ~ filled b j -> clean b' j) /\ entry b' = entry b;
  law_ensure_inserted : forall (b : B) k, current b = Some k ->
    exists b', ensure_inserted_block b = (Ok tt, b') /\ extends b b' /\ same_flow None b b' /\
      (entry b = None -> entry b' = Some k) /\
      (entry b = None -> clean b k -> declared b k = param_types (ir.params (func_signature b)) ->
       forall i p, list_find (fun p => ir.purpose p = ir.VMContext) (ir.params (func_signature b)) = Some (i, p) ->
       exists v, special_param_vmctx b' = Some v /\ has_type b' v (ir.value_type p));
  law_build : forall (b : B) i ts, open b -> inst_ok b i ts ->
    exists k b', build i b = (Ok k, b') /\ extends b b' /\ Forall2 (has_type b') (inst_results b' k) ts /\ flow_after i k b b';
  law_change_jump_destination : forall (b : B) i old new, edge b i old -> known b new -> ~ sealed b old -> ~ sealed b new ->
    declared b old = declared b new -> (forall j, ~ edge b j new) ->
    exists b', change_jump_destination i old new b = (Ok tt, b') /\ extends b b' /\ current b' = current b /\
      (forall j, known b j -> declared b' j = declared b j) /\ (forall j, filled b' j <-> filled b j) /\
      (forall j, sealed b' j <-> sealed b j) /\ (forall j, clean b j -> clean b' j) /\
      (forall j d, edge b' j d <-> (edge b j d /\ ~ (j = i /\ d = old)) \/ (j = i /\ d = new));
  law_declare_var : forall (b : B) x t, var_type b x = None ->
    exists b', declare_var x t b = (Ok tt, b') /\ keeps b b' /\ same_flow None b b' /\ var_type b' x = Some t /\
      (forall y, y <> x -> var_type b' y = var_type b y);
  law_def_var : forall (b : B) x v t, var_type b x = Some t -> has_type b v t ->
    exists b', def_var x v b = (Ok tt, b') /\ extends b b' /\ same_flow None b b';
  law_use_var : forall (b : B) x t, var_type b x = Some t -> open b ->
    exists v b', use_var x b = (Ok v, b') /\ extends b b' /\ has_type b' v t /\ same_blocks None b b' /\
      current b' = current b /\ (forall j, clean b j -> ~ filled b j -> current b <> Some j -> clean b' j);
  law_import_signature : forall (b : B) s, exists r b', import_signature s b = (Ok r, b') /\ extends b b' /\ same_flow None b b' /\
    dfg_signature b' r = Some s;
  law_import_function : forall (b : B) f s, dfg_signature b (ir.ef_signature f) = Some s ->
    exists r b', import_function f b = (Ok r, b') /\ extends b b' /\ same_flow None b b' /\ dfg_ext_func b' r = Some f;
  (* every block that has been entered is complete *)
  law_finalize : forall b : B, (forall k, filled b k \/ current b = Some k -> filled b k /\ sealed b k) ->
    exists b', finalize b = (Ok tt, b') }.
