(* ===== verification/FuncState.v ===== *)
(** * The state of function translation ([src/src/cranelift/state.rs])

    A stack of SSA values that mirrors the operand stack of wasm, a stack of
    control frames, whether the current code is reachable, and caches of the
    entities the function uses.  Stacks are [Vec]s: the top is at the end. *)
From stdpp Require Import base list gmap option numbers.
From S2P Require Import Prelude Types Trap Module ModuleTypes VMOffsets HeapAccess Clif.
Local Open Scope Z_scope.

(** [wasmparser::BlockType]. *)
Inductive BlockType : Type :=
| BT_Empty
| BT_Type (ty : wasmparser.ValType)
| BT_FuncType (index : Z).

(** [CraneliftGlobal] ([mod.rs]). *)
Inductive CraneliftGlobal : Type :=
| CG_Const (v : Value)
| CG_Memory (gv : GlobalValue) (offset : Z) (ty : ir.Type_)
| CG_Custom.

Inductive ElseData : Type :=
| NoElse (branch_inst : Inst) (placeholder : Block)
| WithElse (else_block : Block).

Inductive ControlStackFrame : Type :=
| If_ (destination : Block) (else_data : ElseData) (num_param_values num_return_values original_stack_size : Z)
      (exit_is_branched_to : bool) (blocktype : BlockType) (head_is_reachable : bool) (consequent_ends_reachable : option bool)
| Block_ (destination : Block) (num_param_values num_return_values original_stack_size : Z) (exit_is_branched_to : bool)
| Loop_ (destination header : Block) (num_param_values num_return_values original_stack_size : Z).

Record FuncTranslationState : Type := mkState {
  stack : list Value;
  control_stack : list ControlStackFrame;
  reachable : bool;
  signatures : gmap Z (Z * Z);
  st_functions : gmap Z (Z * Z);
  st_tables : gmap Z CraneliftTable;
  st_memories : gmap Z CraneliftMemory;
  st_globals : gmap Z CraneliftGlobal }.

Definition state_new : FuncTranslationState := mkState [] [] true ∅ ∅ ∅ ∅ ∅.

Definition set_stack (l : list Value) (s : FuncTranslationState) : FuncTranslationState :=
  mkState l (control_stack s) (reachable s) (signatures s) (st_functions s) (st_tables s) (st_memories s) (st_globals s).
Definition set_control_stack (l : list ControlStackFrame) (s : FuncTranslationState) : FuncTranslationState :=
  mkState (stack s) l (reachable s) (signatures s) (st_functions s) (st_tables s) (st_memories s) (st_globals s).
Definition set_reachable (r : bool) (s : FuncTranslationState) : FuncTranslationState :=
  mkState (stack s) (control_stack s) r (signatures s) (st_functions s) (st_tables s) (st_memories s) (st_globals s).

(** [Vec::truncate] does nothing when the vector is short enough. *)
Definition truncate {A} (n : Z) (l : list A) : list A := if n <? pm_len l then take (Z.to_nat n) l else l.

(** ** [ControlStackFrame] *)
Definition num_return_values (f : ControlStackFrame) : Z :=
  match f with If_ _ _ _ n _ _ _ _ _ | Block_ _ _ n _ _ | Loop_ _ _ _ n _ => n end.
Definition num_param_values (f : ControlStackFrame) : Z :=
  match f with If_ _ _ n _ _ _ _ _ _ | Block_ _ n _ _ _ | Loop_ _ _ n _ _ => n end.
Definition following_code (f : ControlStackFrame) : Block :=
  match f with If_ d _ _ _ _ _ _ _ _ | Block_ d _ _ _ _ | Loop_ d _ _ _ _ => d end.
Definition br_destination (f : ControlStackFrame) : Block :=
  match f with If_ d _ _ _ _ _ _ _ _ | Block_ d _ _ _ _ => d | Loop_ _ h _ _ _ => h end.
Definition original_stack_size (f : ControlStackFrame) : Z :=
  match f with If_ _ _ _ _ n _ _ _ _ | Block_ _ _ _ n _ | Loop_ _ _ _ _ n => n end.
Definition is_loop (f : ControlStackFrame) : bool :=
  match f with Loop_ _ _ _ _ _ => true | _ => false end.
Definition is_if (f : ControlStackFrame) : bool :=
  match f with If_ _ _ _ _ _ _ _ _ _ => true | _ => false end.
Definition exit_is_branched_to (f : ControlStackFrame) : bool :=
  match f with If_ _ _ _ _ _ e _ _ _ | Block_ _ _ _ _ e => e | Loop_ _ _ _ _ _ => false end.
Definition set_branched_to_exit (f : ControlStackFrame) : ControlStackFrame :=
  match f with
  | If_ d e p r n _ bt h c => If_ d e p r n true bt h c
  | Block_ d p r n _ => Block_ d p r n true
  | Loop_ d h p r n => Loop_ d h p r n
  end.

(** What a branch to the frame carries. *)
Definition branch_arity (f : ControlStackFrame) : Z :=
  if is_loop f then num_param_values f else num_return_values f.

Section Ops.
Context {E : Type} (dbg : bool).

Definition truncate_value_stack_to_else_params (f : ControlStackFrame) (l : list Value) : outcome E (list Value) :=
  _ ← debug_assert dbg (is_if f);
  Ok (truncate (original_stack_size f) l).

(** An [If] frame has its parameters on the stack twice, of which
    [original_stack_size] counts one. *)
Definition truncate_value_stack_to_original_size (f : ControlStackFrame) (l : list Value) : outcome E (list Value) :=
  num_duplicated_params ← (if is_if f then
                             _ ← debug_assert dbg (num_param_values f <=? original_stack_size f);
                             Ok (num_param_values f)
                           else Ok 0);
  Ok (truncate (wrapping_sub 64 (original_stack_size f) num_duplicated_params) l).

(** ** [FuncTranslationState] *)
Definition ensure_length_is_at_least (n : Z) (s : FuncTranslationState) : outcome E unit :=
  debug_assert dbg (n <=? pm_len (stack s)).

Definition clear (s : FuncTranslationState) : outcome E FuncTranslationState :=
  _ ← debug_assert dbg (pm_len (stack s) =? 0);
  _ ← debug_assert dbg (pm_len (control_stack s) =? 0);
  Ok (mkState (stack s) (control_stack s) true ∅ ∅ ∅ ∅ ∅).

Definition push1 (v : Value) (s : FuncTranslationState) : FuncTranslationState := set_stack (stack s ++ [v]) s.
Definition pushn (vs : list Value) (s : FuncTranslationState) : FuncTranslationState := set_stack (stack s ++ vs) s.

Definition pop1 (s : FuncTranslationState) : outcome E (Value * FuncTranslationState) :=
  v ← unwrap (list.last (stack s));
  Ok (v, set_stack (take (length (stack s) - 1) (stack s)) s).
Definition peek1 (s : FuncTranslationState) : outcome E Value := unwrap (list.last (stack s)).
Definition pop2 (s : FuncTranslationState) : outcome E (Value * Value * FuncTranslationState) :=
  r2 ← pop1 s; r1 ← pop1 r2.2; Ok (r1.1, r2.1, r1.2).
Definition pop3 (s : FuncTranslationState) : outcome E (Value * Value * Value * FuncTranslationState) :=
  r3 ← pop1 s; r2 ← pop1 r3.2; r1 ← pop1 r2.2; Ok (r1.1, r2.1, r3.1, r1.2).

Definition popn (n : Z) (s : FuncTranslationState) : outcome E FuncTranslationState :=
  _ ← ensure_length_is_at_least n s;
  let new_len := wrapping_sub 64 (pm_len (stack s)) n in
  Ok (set_stack (truncate new_len (stack s)) s).

(** Slicing from beyond the end panics. *)
Definition peekn (n : Z) (s : FuncTranslationState) : outcome E (list Value) :=
  _ ← ensure_length_is_at_least n s;
  let from := wrapping_sub 64 (pm_len (stack s)) n in
  _ ← assert_ (from <=? pm_len (stack s));
  Ok (drop (Z.to_nat from) (stack s)).

Definition push_block (following_code : Block) (num_param_types num_result_types : Z) (s : FuncTranslationState)
  : outcome E FuncTranslationState :=
  _ ← debug_assert dbg (num_param_types <=? pm_len (stack s));
  Ok (set_control_stack (control_stack s ++
        [Block_ following_code num_param_types num_result_types (wrapping_sub 64 (pm_len (stack s)) num_param_types) false]) s).

Definition push_loop (header following_code : Block) (num_param_types num_result_types : Z) (s : FuncTranslationState)
  : outcome E FuncTranslationState :=
  _ ← debug_assert dbg (num_param_types <=? pm_len (stack s));
  Ok (set_control_stack (control_stack s ++
        [Loop_ following_code header num_param_types num_result_types (wrapping_sub 64 (pm_len (stack s)) num_param_types)]) s).

(** [for i in len.wrapping_sub(n)..len]: the parameters are pushed a second
    time; an empty range when the subtraction wrapped. *)
Definition push_if (destination : Block) (else_data : ElseData) (num_param_types num_result_types : Z) (blocktype : BlockType)
    (s : FuncTranslationState) : outcome E FuncTranslationState :=
  _ ← debug_assert dbg (num_param_types <=? pm_len (stack s));
  let from := wrapping_sub 64 (pm_len (stack s)) num_param_types in
  let dup := if from <? pm_len (stack s) then drop (Z.to_nat from) (stack s) else [] in
  let stack := stack s ++ dup in
  Ok (set_control_stack (control_stack s ++
        [If_ destination else_data num_param_types num_result_types (wrapping_sub 64 (pm_len stack) num_param_types)
             false blocktype (reachable s) None]) (set_stack stack s)).

(** Only the ordinary return values are wasm results. *)
Definition initialize (sig : ir.Signature) (exit_block : Block) (s : FuncTranslationState) : outcome E FuncTranslationState :=
  s ← clear s;
  push_block exit_block 0 (pm_len (filter (fun p => ir.purpose p = ir.Normal) (ir.returns sig))) s.
End Ops.

(** [is_wasm_parameter] ([env.rs]): the first two parameters are the contexts of
    callee and caller. *)
Definition is_wasm_parameter (index : nat) : bool := (2 <=? index)%nat.
Definition num_wasm_parameters (signature : ir.Signature) : Z :=
  pm_len (filter (fun i => is_wasm_parameter i) (seq 0 (length (ir.params signature)))).
