(* ===== verification/WasmOp.v ===== *)
(** * The operators of wasm function bodies

    [wasmparser::Operator] as far as [src/src/cranelift/code_translator.rs] names
    its constructors, with the immediates the translator reads. *)
From stdpp Require Import base list numbers.
From S2P Require Import Prelude ModuleTypes FuncState.
Local Open Scope Z_scope.

(** [MemArg]: the static offset and the memory; the alignment is a hint. *)
Record MemArg : Type := mkMemArg { ma_offset : Z; ma_memory : Z }.

Module Operator.
Inductive WasmOperator : Type :=
| Unreachable | Nop | Drop | Select | Block (blockty : BlockType) | Loop (blockty : BlockType)
| If (blockty : BlockType) | Else | End | Br (relative_depth : Z) | BrIf (relative_depth : Z)
| BrTable (targets : list Z) (default : Z) | Return | Call (function_index : Z)
| CallIndirect (type_index : Z) (table_index : Z) | ReturnCall (function_index : Z)
| ReturnCallIndirect (type_index : Z) (table_index : Z) | LocalGet (local_index : Z) | LocalSet (local_index : Z)
| LocalTee (local_index : Z) | GlobalGet (global_index : Z) | GlobalSet (global_index : Z) | MemoryGrow (mem : Z)
| MemorySize (mem : Z) | I32Const (value : Z) | I64Const (value : Z) | F32Const (value : Z) | F64Const (value : Z)
| I32Add | I64Add | I32Sub | I64Sub | I32Mul | I64Mul | I32DivS | I64DivS | I32DivU | I64DivU | I32RemS | I64RemS
| I32RemU | I64RemU | I32And | I64And | I32Or | I64Or | I32Xor | I64Xor | I32Shl | I64Shl | I32ShrS | I64ShrS
| I32ShrU | I64ShrU | I32Rotl | I64Rotl | I32Rotr | I64Rotr | I32Clz | I64Clz | I32Ctz | I64Ctz | I32Popcnt
| I64Popcnt | I32WrapI64 | I64ExtendI32S | I64ExtendI32U | F32Add | F64Add | F32Sub | F64Sub | F32Mul | F64Mul
| F32Div | F64Div | F32Min | F64Min | F32Max | F64Max | F32Copysign | F64Copysign | F32Sqrt | F64Sqrt | F32Ceil
| F64Ceil | F32Floor | F64Floor | F32Trunc | F64Trunc | F32Nearest | F64Nearest | F32Abs | F64Abs | F32Neg | F64Neg
| I32TruncF64S | I32TruncF32S | I32TruncF64U | I32TruncF32U | I64TruncF64U | I64TruncF32U | I64TruncF64S
| I64TruncF32S | F32DemoteF64 | F32ConvertI64S | F32ConvertI32S | F32ConvertI64U | F32ConvertI32U | F64ConvertI64S
| F64ConvertI32S | F64ConvertI64U | F64ConvertI32U | F64PromoteF32 | F32ReinterpretI32 | F64ReinterpretI64
| I32ReinterpretF32 | I64ReinterpretF64 | I32LtS | I64LtS | I32LtU | I64LtU | I32LeS | I64LeS | I32LeU | I64LeU
| I32GtS | I64GtS | I32GtU | I64GtU | I32GeS | I64GeS | I32GeU | I64GeU | I32Eqz | I64Eqz | I32Eq | I64Eq | F32Eq
| F64Eq | I32Ne | I64Ne | F32Ne | F64Ne | F32Gt | F64Gt | F32Ge | F64Ge | F32Lt | F64Lt | F32Le | F64Le
| I32Load8U (memarg : MemArg) | I32Load16U (memarg : MemArg) | I32Load8S (memarg : MemArg)
| I32Load16S (memarg : MemArg) | I64Load8U (memarg : MemArg) | I64Load16U (memarg : MemArg)
| I64Load8S (memarg : MemArg) | I64Load16S (memarg : MemArg) | I64Load32S (memarg : MemArg)
| I64Load32U (memarg : MemArg) | I32Load (memarg : MemArg) | F32Load (memarg : MemArg) | I64Load (memarg : MemArg)
| F64Load (memarg : MemArg) | I32Store (memarg : MemArg) | I64Store (memarg : MemArg) | F32Store (memarg : MemArg)
| F64Store (memarg : MemArg) | I32Store8 (memarg : MemArg) | I64Store8 (memarg : MemArg)
| I32Store16 (memarg : MemArg) | I64Store16 (memarg : MemArg) | I64Store32 (memarg : MemArg) | I32Extend8S
| I32Extend16S | I64Extend8S | I64Extend16S | I64Extend32S | I32TruncSatF64S | I32TruncSatF32S | I32TruncSatF64U
| I32TruncSatF32U | I64TruncSatF64S | I64TruncSatF32S | I64TruncSatF64U | I64TruncSatF32U | TableFill (table : Z)
| TableGet (table : Z) | TableSet (table : Z) | TableGrow (table : Z) | TableSize (table : Z)
| RefNull (hty : wasmparser.HeapType) | RefIsNull | RefFunc (function_index : Z) | TypedSelect
| MemoryInit (data_index : Z) (mem : Z) | MemoryCopy (src_mem : Z) (dst_mem : Z) | MemoryFill (mem : Z)
| DataDrop (data_index : Z) | TableInit (elem_index : Z) (table : Z) | TableCopy (dst_table : Z) (src_table : Z)
| ElemDrop (elem_index : Z) | MemoryAtomicWait32 (memarg : MemArg) | MemoryAtomicWait64 (memarg : MemArg)
| MemoryAtomicNotify (memarg : MemArg) | I32AtomicLoad (memarg : MemArg) | I64AtomicLoad (memarg : MemArg)
| I32AtomicLoad8U (memarg : MemArg) | I32AtomicLoad16U (memarg : MemArg) | I64AtomicLoad8U (memarg : MemArg)
| I64AtomicLoad16U (memarg : MemArg) | I64AtomicLoad32U (memarg : MemArg) | I32AtomicStore (memarg : MemArg)
| I64AtomicStore (memarg : MemArg) | I32AtomicStore8 (memarg : MemArg) | I32AtomicStore16 (memarg : MemArg)
| I64AtomicStore8 (memarg : MemArg) | I64AtomicStore16 (memarg : MemArg) | I64AtomicStore32 (memarg : MemArg)
| I32AtomicRmwAdd (memarg : MemArg) | I64AtomicRmwAdd (memarg : MemArg) | I32AtomicRmw8AddU (memarg : MemArg)
| I32AtomicRmw16AddU (memarg : MemArg) | I64AtomicRmw8AddU (memarg : MemArg) | I64AtomicRmw16AddU (memarg : MemArg)
| I64AtomicRmw32AddU (memarg : MemArg) | I32AtomicRmwSub (memarg : MemArg) | I64AtomicRmwSub (memarg : MemArg)
| I32AtomicRmw8SubU (memarg : MemArg) | I32AtomicRmw16SubU (memarg : MemArg) | I64AtomicRmw8SubU (memarg : MemArg)
| I64AtomicRmw16SubU (memarg : MemArg) | I64AtomicRmw32SubU (memarg : MemArg) | I32AtomicRmwAnd (memarg : MemArg)
| I64AtomicRmwAnd (memarg : MemArg) | I32AtomicRmw8AndU (memarg : MemArg) | I32AtomicRmw16AndU (memarg : MemArg)
| I64AtomicRmw8AndU (memarg : MemArg) | I64AtomicRmw16AndU (memarg : MemArg) | I64AtomicRmw32AndU (memarg : MemArg)
| I32AtomicRmwOr (memarg : MemArg) | I64AtomicRmwOr (memarg : MemArg) | I32AtomicRmw8OrU (memarg : MemArg)
| I32AtomicRmw16OrU (memarg : MemArg) | I64AtomicRmw8OrU (memarg : MemArg) | I64AtomicRmw16OrU (memarg : MemArg)
| I64AtomicRmw32OrU (memarg : MemArg) | I32AtomicRmwXor (memarg : MemArg) | I64AtomicRmwXor (memarg : MemArg)
| I32AtomicRmw8XorU (memarg : MemArg) | I32AtomicRmw16XorU (memarg : MemArg) | I64AtomicRmw8XorU (memarg : MemArg)
| I64AtomicRmw16XorU (memarg : MemArg) | I64AtomicRmw32XorU (memarg : MemArg) | I32AtomicRmwXchg (memarg : MemArg)
| I64AtomicRmwXchg (memarg : MemArg) | I32AtomicRmw8XchgU (memarg : MemArg) | I32AtomicRmw16XchgU (memarg : MemArg)
| I64AtomicRmw8XchgU (memarg : MemArg) | I64AtomicRmw16XchgU (memarg : MemArg) | I64AtomicRmw32XchgU (memarg : MemArg)
| I32AtomicRmwCmpxchg (memarg : MemArg) | I64AtomicRmwCmpxchg (memarg : MemArg)
| I32AtomicRmw8CmpxchgU (memarg : MemArg) | I32AtomicRmw16CmpxchgU (memarg : MemArg)
| I64AtomicRmw8CmpxchgU (memarg : MemArg) | I64AtomicRmw16CmpxchgU (memarg : MemArg)
| I64AtomicRmw32CmpxchgU (memarg : MemArg) | AtomicFence | V128Const (value : list Z) | V128Load (memarg : MemArg)
| V128Load8x8S (memarg : MemArg) | V128Load8x8U (memarg : MemArg) | V128Load16x4S (memarg : MemArg)
| V128Load16x4U (memarg : MemArg) | V128Load32x2S (memarg : MemArg) | V128Load32x2U (memarg : MemArg) | V128Store
| I8x16Splat | I16x8Splat | I32x4Splat | I64x2Splat | F32x4Splat | F64x2Splat | V128Load8Splat (memarg : MemArg)
| V128Load16Splat (memarg : MemArg) | V128Load32Splat (memarg : MemArg) | V128Load64Splat (memarg : MemArg)
| V128Load32Zero (memarg : MemArg) | V128Load64Zero (memarg : MemArg) | V128Load8Lane (memarg : MemArg) (lane : Z)
| V128Load16Lane (memarg : MemArg) (lane : Z) | V128Load32Lane (memarg : MemArg) (lane : Z)
| V128Load64Lane (memarg : MemArg) (lane : Z) | V128Store8Lane (memarg : MemArg) (lane : Z)
| V128Store16Lane (memarg : MemArg) (lane : Z) | V128Store32Lane (memarg : MemArg) (lane : Z)
| V128Store64Lane (memarg : MemArg) (lane : Z) | I8x16ExtractLaneS (lane : Z) | I16x8ExtractLaneS (lane : Z)
| I8x16ExtractLaneU (lane : Z) | I16x8ExtractLaneU (lane : Z) | I32x4ExtractLane (lane : Z)
| I64x2ExtractLane (lane : Z) | F32x4ExtractLane (lane : Z) | F64x2ExtractLane (lane : Z)
| I8x16ReplaceLane (lane : Z) | I16x8ReplaceLane (lane : Z) | I32x4ReplaceLane (lane : Z)
| I64x2ReplaceLane (lane : Z) | F32x4ReplaceLane (lane : Z) | F64x2ReplaceLane (lane : Z)
| I8x16Shuffle (lanes : list Z) | I8x16Swizzle | I8x16Add | I16x8Add | I32x4Add | I64x2Add | I8x16AddSatS
| I16x8AddSatS | I8x16AddSatU | I16x8AddSatU | I8x16Sub | I16x8Sub | I32x4Sub | I64x2Sub | I8x16SubSatS | I16x8SubSatS
| I8x16SubSatU | I16x8SubSatU | I8x16MinS | I16x8MinS | I32x4MinS | I8x16MinU | I16x8MinU | I32x4MinU | I8x16MaxS
| I16x8MaxS | I32x4MaxS | I8x16MaxU | I16x8MaxU | I32x4MaxU | I8x16AvgrU | I16x8AvgrU | I8x16Neg | I16x8Neg | I32x4Neg
| I64x2Neg | I8x16Abs | I16x8Abs | I32x4Abs | I64x2Abs | I16x8Mul | I32x4Mul | I64x2Mul | V128Or | V128Xor | V128And
| V128AndNot | V128Not | I8x16Shl | I16x8Shl | I32x4Shl | I64x2Shl | I8x16ShrU | I16x8ShrU | I32x4ShrU | I64x2ShrU
| I8x16ShrS | I16x8ShrS | I32x4ShrS | I64x2ShrS | V128Bitselect | V128AnyTrue | I8x16AllTrue | I16x8AllTrue
| I32x4AllTrue | I64x2AllTrue | I8x16Bitmask | I16x8Bitmask | I32x4Bitmask | I64x2Bitmask | I8x16Eq | I16x8Eq
| I32x4Eq | I64x2Eq | I8x16Ne | I16x8Ne | I32x4Ne | I64x2Ne | I8x16GtS | I16x8GtS | I32x4GtS | I64x2GtS | I8x16LtS
| I16x8LtS | I32x4LtS | I64x2LtS | I8x16GtU | I16x8GtU | I32x4GtU | I8x16LtU | I16x8LtU | I32x4LtU | I8x16GeS
| I16x8GeS | I32x4GeS | I64x2GeS | I8x16LeS | I16x8LeS | I32x4LeS | I64x2LeS | I8x16GeU | I16x8GeU | I32x4GeU
| I8x16LeU | I16x8LeU | I32x4LeU | F32x4Eq | F64x2Eq | F32x4Ne | F64x2Ne | F32x4Lt | F64x2Lt | F32x4Gt | F64x2Gt
| F32x4Le | F64x2Le | F32x4Ge | F64x2Ge | F32x4Add | F64x2Add | F32x4Sub | F64x2Sub | F32x4Mul | F64x2Mul | F32x4Div
| F64x2Div | F32x4Max | F64x2Max | F32x4Min | F64x2Min | F32x4PMax | F64x2PMax | F32x4PMin | F64x2PMin | F32x4Sqrt
| F64x2Sqrt | F32x4Neg | F64x2Neg | F32x4Abs | F64x2Abs | F32x4ConvertI32x4S | F32x4ConvertI32x4U
| F64x2ConvertLowI32x4S | F64x2ConvertLowI32x4U | F64x2PromoteLowF32x4 | F32x4DemoteF64x2Zero | I32x4TruncSatF32x4S
| I32x4TruncSatF64x2SZero | I32x4RelaxedTruncF32x4U | I32x4TruncSatF32x4U | I32x4RelaxedTruncF64x2UZero
| I32x4TruncSatF64x2UZero | I8x16NarrowI16x8S | I16x8NarrowI32x4S | I8x16NarrowI16x8U | I16x8NarrowI32x4U
| I16x8ExtendLowI8x16S | I16x8ExtendHighI8x16S | I16x8ExtendLowI8x16U | I16x8ExtendHighI8x16U | I32x4ExtendLowI16x8S
| I32x4ExtendHighI16x8S | I32x4ExtendLowI16x8U | I32x4ExtendHighI16x8U | I64x2ExtendLowI32x4S | I64x2ExtendHighI32x4S
| I64x2ExtendLowI32x4U | I64x2ExtendHighI32x4U | I16x8ExtAddPairwiseI8x16S | I32x4ExtAddPairwiseI16x8S
| I16x8ExtAddPairwiseI8x16U | I32x4ExtAddPairwiseI16x8U | F32x4Ceil | F64x2Ceil | F32x4Floor | F64x2Floor | F32x4Trunc
| F64x2Trunc | F32x4Nearest | F64x2Nearest | I32x4DotI16x8S | I8x16Popcnt | I16x8Q15MulrSatS | I16x8ExtMulLowI8x16S
| I16x8ExtMulHighI8x16S | I16x8ExtMulLowI8x16U | I16x8ExtMulHighI8x16U | I32x4ExtMulLowI16x8S | I32x4ExtMulHighI16x8S
| I32x4ExtMulLowI16x8U | I32x4ExtMulHighI16x8U | I64x2ExtMulLowI32x4S | I64x2ExtMulHighI32x4S | I64x2ExtMulLowI32x4U
| I64x2ExtMulHighI32x4U | F32x4RelaxedMax | F64x2RelaxedMax | F32x4RelaxedMin | F64x2RelaxedMin | I8x16RelaxedSwizzle
| F32x4RelaxedMadd | F64x2RelaxedMadd | F32x4RelaxedNmadd | F64x2RelaxedNmadd | I8x16RelaxedLaneselect
| I16x8RelaxedLaneselect | I32x4RelaxedLaneselect | I64x2RelaxedLaneselect | I32x4RelaxedTruncF32x4S
| I32x4RelaxedTruncF64x2SZero | I16x8RelaxedQ15mulrS | I16x8RelaxedDotI8x16I7x16S | I32x4RelaxedDotI8x16I7x16AddS
| CallRef (type_index : Z) | RefAsNonNull | BrOnNull (relative_depth : Z) | BrOnNonNull (relative_depth : Z)
| ReturnCallRef (type_index : Z) | RefI31 | I31GetS | I31GetU | StructNew | StructNewDefault | StructGet | StructGetS
| StructGetU | StructSet | ArrayNew | ArrayNewDefault | ArrayNewFixed | ArrayNewData | ArrayNewElem | ArrayGet
| ArrayGetS | ArrayGetU | ArraySet | ArrayLen | ArrayFill | ArrayCopy | ArrayInitData | ArrayInitElem | RefTestNonNull
| RefTestNullable | RefCastNonNull | RefCastNullable | BrOnCast | BrOnCastFail | AnyConvertExtern | ExternConvertAny
| RefEq | MemoryDiscard | GlobalAtomicGet | GlobalAtomicSet | GlobalAtomicRmwAdd | GlobalAtomicRmwSub
| GlobalAtomicRmwAnd | GlobalAtomicRmwOr | GlobalAtomicRmwXor | GlobalAtomicRmwXchg | GlobalAtomicRmwCmpxchg
| TableAtomicGet | TableAtomicSet | TableAtomicRmwXchg | TableAtomicRmwCmpxchg | StructAtomicGet | StructAtomicGetS
| StructAtomicGetU | StructAtomicSet | StructAtomicRmwAdd | StructAtomicRmwSub | StructAtomicRmwAnd
| StructAtomicRmwOr | StructAtomicRmwXor | StructAtomicRmwXchg | StructAtomicRmwCmpxchg | ArrayAtomicGet
| ArrayAtomicGetS | ArrayAtomicGetU | ArrayAtomicSet | ArrayAtomicRmwAdd | ArrayAtomicRmwSub | ArrayAtomicRmwAnd
| ArrayAtomicRmwOr | ArrayAtomicRmwXor | ArrayAtomicRmwXchg | ArrayAtomicRmwCmpxchg | RefI31Shared | TryTable | Throw
| ThrowRef | Try | Catch | Rethrow | Delegate | CatchAll | ContNew | ContBind | Suspend | Resume | ResumeThrow
| Switch | I64Add128 | I64Sub128 | I64MulWideS | I64MulWideU.
End Operator.
