(* ===== verification/FuncEnv.v ===== *)
(** * The translation environment ([src/src/cranelift/env.rs], the signatures of
      [src/src/utils.rs], [src/src/cranelift/utils.rs], and the getters of
      [src/src/cranelift/state.rs] that call the environment)

    What the operator translator asks about the module: signatures, globals,
    memories and tables, and the code of direct and indirect calls.  Global
    values are structural, so creating the one of the context twice is the same
    as caching it. *)
From stdpp Require Import base list gmap option numbers.
From S2P Require Import Prelude Types Trap Module ModuleTypes VMOffsets Code HeapAccess Clif FuncState WasmOp.
Local Open Scope Z_scope.

(** [TranslationEnvironment]: the module, its types and layout, what the target
    supports ([TargetIsa]), and the switches set by [new]. *)
Record TranslationEnvironment : Type := mkEnv {
  env_module : TranslatedModule;
  env_types : ModuleTypes;
  env_offsets : VMOffsets;
  env_target : TargetEnv;
  env_table_spectre : bool;
  enable_pcc : bool;
  relaxed_simd_deterministic : bool;
  has_native_fma : bool;
  is_x86 : bool;
  use_x86_blendv_for_relaxed_laneselect : ir.Type_ -> bool;
  use_x86_pshufb_for_relaxed_swizzle : bool;
  use_x86_pmulhrsw_for_relaxed_q15mul : bool;
  use_x86_pmaddubsw_for_dot : bool }.

(** Pointers of the target. *)
Definition pointer_type : ir.Type_ := ir.I64.

(** ** Types and signatures ([utils.rs]) *)
Definition reference_type {E} (wasm_ht : WasmHeapType) : outcome E ir.Type_ :=
  match top_inner (top wasm_ht) with
  | Top_Func => Ok pointer_type
  | Top_Any | Top_Extern => Ok ir.I32
  | Top_Exn | Top_Cont => Panic
  end.
Definition value_type {E} (ty : WasmValType) : outcome E ir.Type_ :=
  match ty with
  | Val_I32 => Ok ir.I32
  | Val_I64 => Ok ir.I64
  | Val_F32 => Ok ir.F32
  | Val_F64 => Ok ir.F64
  | Val_V128 => Ok ir.I8X16
  | Val_Ref rf => reference_type (Types.heap_type rf)
  end.

Definition blank_sig : list ir.AbiParam := [ir.mkAbiParam pointer_type ir.VMContext; ir.mkAbiParam pointer_type ir.Normal].
Definition wasm_call_signature {E} (func_ty : WasmFuncType) : outcome E ir.Signature :=
  let cvt ty := t ← value_type ty; Ok (ir.mkAbiParam t ir.Normal) in
  ps ← mapO cvt (fn_params func_ty);
  rs ← mapO cvt (fn_results func_ty);
  Ok (ir.mkSignature (blank_sig ++ ps) rs).
Definition array_call_signature : ir.Signature :=
  ir.mkSignature (blank_sig ++ [ir.mkAbiParam pointer_type ir.Normal; ir.mkAbiParam pointer_type ir.Normal]) [].

(** The environment's [reference_type] also says whether the value belongs into
    stack maps, and is not implemented for exceptions and continuations. *)
Definition env_reference_type {E} (hty : WasmHeapType) : outcome E (ir.Type_ * bool) :=
  ty ← reference_type hty;
  needs_stack_map ← match top_inner (top hty) with
                    | Top_Extern | Top_Any => Ok true
                    | Top_Func => Ok false
                    | _ => Panic
                    end;
  Ok (ty, needs_stack_map).

(** [is_wasm_return]. *)
Definition is_wasm_return (signature : ir.Signature) (index : nat) : bool :=
  match ir.returns signature !! index with
  | Some p => bool_decide (ir.purpose p = ir.Normal)
  | None => false
  end.

(** ** The monad: builder and translation state *)
Record TState (B : Type) : Type := mkT { bld : B; st : FuncTranslationState }.
Arguments mkT {B}.
Arguments bld {B}.
Arguments st {B}.

Section Env.
Context {B : Type} `{FunctionBuilder B} `{TrapCodes} (dbg : bool) (env : TranslationEnvironment).
Abbreviation M := (SM (TState B) Error).
Abbreviation module := (env_module env).

Definition onb {A} (c : SM B Error A) : M A := fun t => let r := c (bld t) in (r.1, mkT r.2 (st t)).
Definition query {A} (f : B -> A) : M A := fun t => (Ok (f (bld t)), t).
Definition get_st {A} (f : FuncTranslationState -> A) : M A := fun t => (Ok (f (st t)), t).
Definition upd (f : FuncTranslationState -> FuncTranslationState) : M unit := fun t => (Ok tt, mkT (bld t) (f (st t))).
Definition peek {A} (f : FuncTranslationState -> outcome Error A) : M A := fun t => (f (st t), t).
Definition mod_st (f : FuncTranslationState -> outcome Error FuncTranslationState) : M unit := fun t =>
  match f (st t) with
  | Ok s => (Ok tt, mkT (bld t) s)
  | Err e => (Err e, t)
  | Panic => (Panic, t)
  end.
Definition pop_st {A} (f : FuncTranslationState -> outcome Error (A * FuncTranslationState)) : M A := fun t =>
  match f (st t) with
  | Ok (a, s) => (Ok a, mkT (bld t) s)
  | Err e => (Err e, t)
  | Panic => (Panic, t)
  end.
(** [todo!()]. *)
Definition todo {A} : M A := sm_lift Panic.

(** [builder.ins()]: append an instruction; its first result. *)
Definition insi (i : InstData) : M Inst := onb (build i).
Definition ins1 (i : InstData) : M Value :=
  k ← insi i;
  vs ← query (fun b => inst_results b k);
  sm_lift (unwrap (head vs)).
Definition value_type_of (v : Value) : M ir.Type_ :=
  t ← query (fun b => dfg_value_type b v); sm_lift (unwrap t).

Definition op0 (o : ir.Opcode) (ctrl : ir.Type_) (imm : Z) : M Value := ins1 (Op o (Some ctrl) [] [imm]).
Definition op1 (o : ir.Opcode) (x : Value) : M Value := ins1 (Op o None [x] []).
Definition op1_to (o : ir.Opcode) (ctrl : ir.Type_) (x : Value) : M Value := ins1 (Op o (Some ctrl) [x] []).
Definition op2 (o : ir.Opcode) (x y : Value) : M Value := ins1 (Op o None [x; y] []).
Definition op3 (o : ir.Opcode) (x y z : Value) : M Value := ins1 (Op o None [x; y; z] []).

(** ** Code of [memory.rs] and [mod.rs] on this builder

    [HeapAccess] numbers values from the operands on, one per instruction; the
    same instructions are appended here, under the builder's own names. *)
Definition ir_ty (t : ir_type) : ir.Type_ := match t with I32_ty => ir.I32 | I64_ty => ir.I64 end.
Definition cc_of (c : IntCC) : IntCC.t :=
  match c with
  | NotEqual => IntCC.NotEqual
  | UnsignedGreaterThan => IntCC.UnsignedGreaterThan
  | UnsignedGreaterThanOrEqual => IntCC.UnsignedGreaterThanOrEqual
  end.
Definition inst_data (vs : list Value) (i : inst) : option InstData :=
  match i with
  | I_iconst ty imm => Some (Op ir.Iconst (Some (ir_ty ty)) [] [imm])
  | I_global_value gv => Some (GlobalValueOp gv)
  | I_uextend ty x => x ← vs !! x; Some (Op ir.Uextend (Some (ir_ty ty)) [x] [])
  | I_iadd x y => x ← vs !! x; y ← vs !! y; Some (Op ir.Iadd None [x; y] [])
  | I_iadd_imm x imm => x ← vs !! x; Some (Op ir.IaddImm None [x] [imm])
  | I_band_imm x imm => x ← vs !! x; Some (Op ir.BandImm None [x] [imm])
  | I_ishl_imm x imm => x ← vs !! x; Some (Op ir.IshlImm None [x] [imm])
  | I_imul_imm x imm => x ← vs !! x; Some (Op ir.ImulImm None [x] [imm])
  | I_uadd_overflow_trap x y code => x ← vs !! x; y ← vs !! y; Some (UaddOverflowTrap x y code)
  | I_icmp cc x y => x ← vs !! x; y ← vs !! y; Some (Icmp (cc_of cc) x y)
  | I_icmp_imm cc x imm => x ← vs !! x; Some (IcmpImm (cc_of cc) x imm)
  | I_select_spectre_guard c x y => c ← vs !! c; x ← vs !! x; y ← vs !! y; Some (Op ir.SelectSpectreGuard None [c; x; y] [])
  | I_trapnz c code => c ← vs !! c; Some (Trapnz c code)
  | I_trap code => Some (TrapOp code)
  end.

(** Instructions without a result get the place holder [0]. *)
Fixpoint replay (l : list inst) (vs : list Value) : M (list Value) :=
  match l with
  | [] => mret vs
  | i :: l =>
      d ← sm_lift (unwrap (inst_data vs i));
      k ← insi d;
      rs ← query (fun b => inst_results b k);
      replay l (vs ++ [default 0 (head rs)])
  end.
Definition run_emit {A} (args : list Value) (e : Emit A) : M (A * list Value) :=
  let r := e (mkBuilder (length args) []) in
  vs ← replay (fb_insts r.2) args;
  a ← sm_lift r.1;
  mret (a, vs).

(** [CraneliftMemory::prepare_addr]: the flags, the wasm index, the address. *)
Definition mem_prepare_addr (m : CraneliftMemory) (index : Value) (access_size : Z) (memarg : MemArg)
  : M (Reachability (ir.MemFlags * Value * Value)) :=
  r ← run_emit [index] (prepare_addr (env_target env) m 0%nat access_size (ma_offset memarg));
  match r.1 with
  | Unreachable => mret Unreachable
  | Reachable (flags, i, a) =>
      wasm_index ← sm_lift (unwrap (r.2 !! i));
      addr ← sm_lift (unwrap (r.2 !! a));
      mret (Reachable (flags, wasm_index, addr))
  end.

(** [CraneliftTable::prepare_addr]; an index that is no 32- or 64-bit integer
    has no constant of its type. *)
Definition tbl_prepare_addr (table : CraneliftTable) (index : Value) : M (Value * ir.MemFlags) :=
  ty ← value_type_of index;
  index_ty ← sm_lift (match ty with ir.I32 => Ok I32_ty | ir.I64 => Ok I64_ty | _ => Panic end);
  r ← run_emit [index] (table_prepare_addr table 0%nat index_ty I64_ty (env_table_spectre env));
  addr ← sm_lift (unwrap (r.2 !! r.1.1));
  mret (addr, ir.with_trap_code r.1.2 (ir.with_alias_region (Some ir.Table) (ir.with_aligned ir.flags_new))).

(** ** Making entities *)
Definition convert_heap_type_ (ty : wasmparser.HeapType) : outcome Error WasmHeapType :=
  convert_heap_type (env_types env) (Module.types module) ty.

Definition func_type_of (interned_index : Z) : outcome Error WasmFuncType :=
  t ← unwrap (get_wasm_type (env_types env) interned_index); unwrap_func t.

Definition make_direct_func (index : Z) : M Z :=
  f ← sm_lift (pm_index (functions module) index);
  ty ← sm_lift (pm_index (Module.types module) (signature f));
  sig ← sm_lift (func_type_of ty);
  sig ← sm_lift (wasm_call_signature sig);
  signature ← onb (import_signature sig);
  d ← sm_lift (defined_func_index module index);
  onb (import_function (ir.mkExtFunc NS_WASM_FUNC index signature (bool_decide (is_Some d)))).

Definition make_indirect_sig (sig_index : Z) : M Z :=
  interned_index ← sm_lift (pm_index (Module.types module) sig_index);
  wasm_func_ty ← sm_lift (func_type_of interned_index);
  sig ← sm_lift (wasm_call_signature wasm_func_ty);
  onb (import_signature sig).

Definition get_global_location (index : Z) : outcome Error (GlobalValue * Z) :=
  d ← defined_global_index module index;
  match d with
  | Some def_index =>
      o ← vmctx_vmglobal_definition (env_offsets env) def_index;
      offset ← offset32 o;
      Ok (GV_VMContext, offset)
  | None =>
      f ← vmctx_vmglobal_import_from (env_offsets env) index;
      from_offset ← offset32 f;
      Ok (GV_Load GV_VMContext from_offset, 0)
  end.

Definition make_global (index : Z) : outcome Error CraneliftGlobal :=
  global ← pm_index (globals module) index;
  _ ← debug_assert dbg (negb (gd_shared global));
  loc ← get_global_location index;
  ty ← value_type (gd_content_type global);
  Ok (CG_Memory loc.1 loc.2 ty).

(** *** The caches of [state.rs] *)
Definition get_direct_func (index : Z) : M (Z * Z) :=
  c ← get_st (fun s => st_functions s !! index);
  match c with
  | Some r => mret r
  | None =>
      fref ← make_direct_func index;
      f ← query (fun b => dfg_ext_func b fref);
      f ← sm_lift (unwrap f);
      sig ← query (fun b => dfg_signature b (ir.ef_signature f));
      sig ← sm_lift (unwrap sig);
      let r := (fref, num_wasm_parameters sig) in
      _ ← upd (fun s => mkState (stack s) (control_stack s) (reachable s) (signatures s) (<[index := r]> (st_functions s))
                          (st_tables s) (st_memories s) (st_globals s));
      mret r
  end.

Definition get_indirect_sig (index : Z) : M (Z * Z) :=
  c ← get_st (fun s => signatures s !! index);
  match c with
  | Some r => mret r
  | None =>
      sig_ref ← make_indirect_sig index;
      sig ← query (fun b => dfg_signature b sig_ref);
      sig ← sm_lift (unwrap sig);
      let r := (sig_ref, num_wasm_parameters sig) in
      _ ← upd (fun s => mkState (stack s) (control_stack s) (reachable s) (<[index := r]> (signatures s)) (st_functions s)
                          (st_tables s) (st_memories s) (st_globals s));
      mret r
  end.

Definition get_global (index : Z) : M CraneliftGlobal :=
  c ← get_st (fun s => st_globals s !! index);
  match c with
  | Some r => mret r
  | None =>
      r ← sm_lift (make_global index);
      _ ← upd (fun s => mkState (stack s) (control_stack s) (reachable s) (signatures s) (st_functions s)
                          (st_tables s) (st_memories s) (<[index := r]> (st_globals s)));
      mret r
  end.

Definition get_memory (index : Z) : M CraneliftMemory :=
  c ← get_st (fun s => st_memories s !! index);
  match c with
  | Some r => mret r
  | None =>
      r ← sm_lift (make_memory dbg (enable_pcc env) module (env_offsets env) index);
      _ ← upd (fun s => mkState (stack s) (control_stack s) (reachable s) (signatures s) (st_functions s)
                          (st_tables s) (<[index := r]> (st_memories s)) (st_globals s));
      mret r
  end.

Definition get_table (index : Z) : M CraneliftTable :=
  c ← get_st (fun s => st_tables s !! index);
  match c with
  | Some r => mret r
  | None =>
      r ← sm_lift (make_table module (env_offsets env) index);
      _ ← upd (fun s => mkState (stack s) (control_stack s) (reachable s) (signatures s) (st_functions s)
                          (<[index := r]> (st_tables s)) (st_memories s) (st_globals s));
      mret r
  end.

(** ** [CallBuilder] (calls that are not tail calls) *)
Definition load_ptr (flags : ir.MemFlags) (base : Value) (offset : outcome Error Z) : M Value :=
  o ← sm_lift offset;
  o ← sm_lift (offset32 o);
  ins1 (LoadOp ir.Load pointer_type flags base o).

Definition caller_vmctx : M Value :=
  v ← query special_param_vmctx; sm_lift (unwrap v).

Definition direct_call (callee_index callee : Z) (call_args : list Value) : M Inst :=
  caller ← caller_vmctx;
  if negb (is_imported_func module callee_index) then insi (CallOp callee (caller :: caller :: call_args))
  else
    f ← query (fun b => dfg_ext_func b callee);
    f ← sm_lift (unwrap f);
    base ← ins1 (GlobalValueOp GV_VMContext);
    let mem_flags := ir.with_readonly ir.trusted in
    func_addr ← load_ptr mem_flags base (vmctx_vmfunction_import_wasm_call (env_offsets env) callee_index);
    vmctx ← load_ptr mem_flags base (vmctx_vmfunction_import_vmctx (env_offsets env) callee_index);
    insi (CallIndirectOp (ir.ef_signature f) func_addr (vmctx :: caller :: call_args)).

Inductive CheckIndirectCallTypeSignature : Type :=
| Runtime
| StaticMatch (may_be_null : bool)
| StaticTrap.

(** The offset of a field of [VMFuncRef]. *)
Definition func_ref_field (k : nat) : outcome Error Z := unwrap (VMFuncRef_layout.1 !! k).

Definition load_type_index (funcref_ptr : Value) : M Value :=
  o ← sm_lift (func_ref_field 3);
  o ← sm_lift (offset32 o);
  ins1 (LoadOp ir.Load ir.I32 (ir.with_trap_code (Some TRAP_INDIRECT_CALL_TO_NULL) (ir.with_readonly ir.trusted)) funcref_ptr o).

(** The type index of a shared type has [size_of_vmshared_type_index] bytes. *)
Definition check_indirect_call_type_signature (table_index ty_index : Z) (funcref_ptr : Value) : M CheckIndirectCallTypeSignature :=
  table ← sm_lift (pm_index (tables module) table_index);
  let elem := td_element_type table in
  _ ← sm_lift (assert_ (negb (ht_shared (Types.heap_type elem))));
  match ht_ty (Types.heap_type elem) with
  | Heap_Func =>
      let mem_flags := ir.with_readonly ir.trusted in
      vmctx ← ins1 (GlobalValueOp GV_VMContext);
      o ← sm_lift (vmctx_type_ids (static_ (env_offsets env)));
      type_ids ← ins1 (LoadOp ir.Load pointer_type mem_flags vmctx o);
      offset ← sm_lift (unwrap (checked_mul 32 ty_index size_of_vmshared_type_index));
      offset ← sm_lift (offset32 offset);
      expected_type_id ← ins1 (LoadOp ir.Load ir.I32 mem_flags type_ids offset);
      actual_type_id ← load_type_index funcref_ptr;
      cmp ← ins1 (Icmp IntCC.Equal expected_type_id actual_type_id);
      _ ← insi (Trapz cmp TRAP_BAD_SIGNATURE);
      mret Runtime
  | Heap_ConcreteFunc (Module_ expected_type) =>
      actual_ty ← sm_lift (pm_index (Module.types module) ty_index);
      if actual_ty =? expected_type then mret (StaticMatch (nullable elem))
      else
        _ ← (if nullable elem then _ ← load_type_index funcref_ptr; mret tt else mret tt);
        _ ← insi (TrapOp TRAP_BAD_SIGNATURE);
        mret StaticTrap
  | Heap_NoFunc =>
      _ ← sm_lift (assert_ (nullable elem));
      _ ← insi (TrapOp TRAP_INDIRECT_CALL_TO_NULL);
      mret StaticTrap
  | _ => sm_lift Panic
  end.

Definition load_func_and_vmctx (callee : Value) (callee_load_trap_code : option Z) : M (Value * Value) :=
  let mem_flags := ir.with_readonly ir.trusted in
  func_addr ← load_ptr (ir.with_trap_code callee_load_trap_code mem_flags) callee (func_ref_field 1);
  callee_vmctx ← load_ptr mem_flags callee (func_ref_field 2);
  mret (func_addr, callee_vmctx).

Definition unchecked_indirect_call (sig_ref : Z) (func_addr callee_vmctx : Value) (call_args : list Value) : M Inst :=
  caller ← caller_vmctx;
  insi (CallIndirectOp sig_ref func_addr (callee_vmctx :: caller :: call_args)).

Definition indirect_call (table_index : Z) (table : CraneliftTable) (ty_index sig_ref : Z) (callee : Value) (call_args : list Value)
  : M (Reachability Inst) :=
  r ← tbl_prepare_addr table callee;
  funcref_ptr ← ins1 (LoadOp ir.Load pointer_type r.2 r.1 0);
  check ← check_indirect_call_type_signature table_index ty_index funcref_ptr;
  let call trap_code :=
    p ← load_func_and_vmctx funcref_ptr trap_code;
    inst ← unchecked_indirect_call sig_ref p.1 p.2 call_args;
    mret (Reachable inst) in
  match check with
  | Runtime => call None
  | StaticMatch may_be_null => call (if may_be_null then Some TRAP_INDIRECT_CALL_TO_NULL else None)
  | StaticTrap => mret Unreachable
  end.
End Env.
