(* ===== verification/CodeTranslator.v ===== *)
(** * Translating operators: helpers and control flow
      ([src/src/cranelift/code_translator.rs], [src/src/cranelift/utils.rs])

    Operators are translated one at a time against the value stack and the
    control stack of [FuncState]; instructions and blocks are made through the
    builder of [Clif].  The validator is asked for the types of blocks: it is the
    record [FuncValidator]. *)
From stdpp Require Import base list gmap option numbers.
From S2P Require Import Prelude Types Trap Module ModuleTypes VMOffsets HeapAccess Clif FuncState WasmOp FuncEnv.
Local Open Scope Z_scope.

#[global] Instance UnpackedIndex_eq_dec : EqDecision wasmparser.UnpackedIndex.
Proof. solve_decision. Defined.
#[global] Instance AbstractHeapType_eq_dec : EqDecision wasmparser.AbstractHeapType.
Proof. solve_decision. Defined.
#[global] Instance HeapType_eq_dec : EqDecision wasmparser.HeapType.
Proof. solve_decision. Defined.
#[global] Instance RefType_eq_dec : EqDecision wasmparser.RefType.
Proof. solve_decision. Defined.
#[global] Instance ValType_eq_dec : EqDecision wasmparser.ValType.
Proof. solve_decision. Defined.

(** What is asked of wasmparser's function validator: the types of the module and
    the type of the topmost operand. *)
Record FuncValidator : Type := mkValidator {
  sub_type_at : Z -> option wasmparser.SubType;
  get_operand_type : option (option wasmparser.ValType) }.

(** ** [utils.rs] *)
Definition blocktype_params_results (validator : FuncValidator) (ty : BlockType)
  : outcome Error (list wasmparser.ValType * list wasmparser.ValType) :=
  match ty with
  | BT_Empty => Ok ([], [])
  | BT_Type ty => Ok ([], [ty])
  | BT_FuncType ty_index =>
      t ← unwrap (sub_type_at validator ty_index);
      match wasmparser.inner (wasmparser.composite_type t) with
      | wasmparser.CFunc f => Ok (wasmparser.params f, wasmparser.results f)
      | _ => Panic
      end
  end.

Section Translate.
Context {B : Type} `{FunctionBuilder B} `{TrapCodes} (dbg : bool) (env : TranslationEnvironment).
Abbreviation M := (SM (TState B) Error).

(** The machine type of a wasm type. *)
Definition param_type (ty : wasmparser.ValType) : outcome Error ir.Type_ :=
  match ty with
  | wasmparser.I32 => Ok ir.I32
  | wasmparser.I64 => Ok ir.I64
  | wasmparser.F32 => Ok ir.F32
  | wasmparser.F64 => Ok ir.F64
  | wasmparser.Ref rt =>
      hty ← convert_heap_type_ env (wasmparser.heap_type rt);
      t ← env_reference_type hty;
      Ok t.1
  | wasmparser.V128 => Ok ir.I8X16
  end.

Fixpoint append_params (block : Block) (params : list wasmparser.ValType) : M unit :=
  match params with
  | [] => mret tt
  | ty :: params =>
      t ← sm_lift (param_type ty);
      _ ← onb (append_block_param block t);
      append_params block params
  end.
Definition block_with_params (params : list wasmparser.ValType) : M Block :=
  block ← onb create_block;
  _ ← append_params block params;
  mret block.

(** ** Vectors

    All 128-bit vectors are one type in wasm; values are cast between the lane
    types, [I8X16] being the canonical one.  The immediate of a [bitcast] says
    whether its flags fix the byte order to little endian. *)
Definition bitcast_little (ty : ir.Type_) (v : Value) : M Value := ins1 (Op ir.Bitcast (Some ty) [v] [1]).

Definition optionally_bitcast_vector (value : Value) (needed_type : ir.Type_) : M Value :=
  ty ← value_type_of value;
  if bool_decide (ty = needed_type) then mret value else bitcast_little needed_type value.

Definition is_non_canonical_v128 (ty : ir.Type_) : bool :=
  match ty with ir.I64X2 | ir.I32X4 | ir.I16X8 | ir.F32X4 | ir.F64X2 => true | _ => false end.

Fixpoint any_non_canonical (values : list Value) : M bool :=
  match values with
  | [] => mret false
  | v :: values => ty ← value_type_of v; if is_non_canonical_v128 ty then mret true else any_non_canonical values
  end.
Fixpoint canonicalise_all (values : list Value) : M (list Value) :=
  match values with
  | [] => mret []
  | v :: values =>
      ty ← value_type_of v;
      c ← (if is_non_canonical_v128 ty then bitcast_little ir.I8X16 v else mret v);
      cs ← canonicalise_all values;
      mret (c :: cs)
  end.
Definition canonicalise_v128_values (values : list Value) : M (list Value) :=
  any ← any_non_canonical values;
  if any : bool then canonicalise_all values else mret values.

Definition canonicalise_then_jump (destination : Block) (params : list Value) : M Inst :=
  canonicalised ← canonicalise_v128_values params;
  insi (Jump destination canonicalised).
Definition canonicalise_brif (cond : Value) (block_then : Block) (params_then : list Value)
    (block_else : Block) (params_else : list Value) : M Inst :=
  canonicalised_then ← canonicalise_v128_values params_then;
  canonicalised_else ← canonicalise_v128_values params_else;
  insi (Brif cond block_then canonicalised_then block_else canonicalised_else).

Definition pop1' : M Value := pop_st pop1.
Definition pop2' : M (Value * Value) := pop_st pop2.
Definition pop3' : M (Value * Value * Value) := pop_st pop3.
Definition push (v : Value) : M unit := upd (push1 v).

Definition pop1_with_bitcast (needed_type : ir.Type_) : M Value :=
  v ← pop1'; optionally_bitcast_vector v needed_type.
Definition pop2_with_bitcast (needed_type : ir.Type_) : M (Value * Value) :=
  p ← pop2';
  bitcast_a ← optionally_bitcast_vector p.1 needed_type;
  bitcast_b ← optionally_bitcast_vector p.2 needed_type;
  mret (bitcast_a, bitcast_b).
Definition pop3_with_bitcast (needed_type : ir.Type_) : M (Value * Value * Value) :=
  p ← pop3';
  bitcast_a ← optionally_bitcast_vector p.1.1 needed_type;
  bitcast_b ← optionally_bitcast_vector p.1.2 needed_type;
  bitcast_c ← optionally_bitcast_vector p.2 needed_type;
  mret (bitcast_a, bitcast_b, bitcast_c).

(** *** Arguments of calls and returns *)

(** [ZipEq]: the iterators must have the same length. *)
Fixpoint zip_eq {X Y} (l : list X) (k : list Y) : outcome Error (list (X * Y)) :=
  match l, k with
  | [], [] => Ok []
  | x :: l, y :: k => r ← zip_eq l k; Ok ((x, y) :: r)
  | _, _ => Panic
  end.

(** The arguments that need a cast, by position, with the type to cast to. *)
Fixpoint bitcast_changes (pairs : list (ir.Type_ * (nat * Value))) : M (list (ir.Type_ * nat)) :=
  match pairs with
  | [] => mret []
  | (param_type, (i, arg)) :: pairs =>
      c ← (if ir.is_vector param_type then
             arg_type ← value_type_of arg;
             _ ← sm_lift (assert_ (ir.is_vector arg_type));
             mret (negb (bool_decide (arg_type = param_type)))
           else mret false);
      cs ← bitcast_changes pairs;
      mret (if c : bool then (param_type, i) :: cs else cs)
  end.
Definition enumerate {X} (l : list X) : list (nat * X) := imap (fun i x => (i, x)) l.
Definition bitcast_arguments (arguments : list Value) (params : list ir.AbiParam) (param_predicate : nat -> bool)
  : M (list (ir.Type_ * nat)) :=
  let filtered_param_types := (fun p => ir.value_type p.2) <$> filter (fun p => param_predicate p.1) (enumerate params) in
  pairs ← sm_lift (zip_eq filtered_param_types (enumerate arguments));
  bitcast_changes pairs.

(** The arguments are changed in place. *)
Fixpoint apply_changes (changes : list (ir.Type_ * nat)) (args : list Value) : M (list Value) :=
  match changes with
  | [] => mret args
  | (t, i) :: changes =>
      arg ← sm_lift (unwrap (args !! i));
      c ← bitcast_little t arg;
      apply_changes changes (<[i := c]> args)
  end.
Definition bitcast_wasm_returns (arguments : list Value) : M (list Value) :=
  sig ← query func_signature;
  changes ← bitcast_arguments arguments (ir.returns sig) (is_wasm_return sig);
  apply_changes changes arguments.
Definition bitcast_wasm_params (callee_signature : Z) (arguments : list Value) : M (list Value) :=
  sig ← query (fun b => dfg_signature b callee_signature);
  sig ← sm_lift (unwrap sig);
  changes ← bitcast_arguments arguments (ir.params sig) is_wasm_parameter;
  apply_changes changes arguments.

(** Write back the top of the stack ([peekn_mut]). *)
Definition write_top (args : list Value) (s : FuncTranslationState) : FuncTranslationState :=
  set_stack (take (length (stack s) - length args) (stack s) ++ args) s.

(** ** Comparisons *)
Definition translate_icmp (cc : IntCC.t) : M unit :=
  p ← pop2'; val ← ins1 (Icmp cc p.1 p.2); r ← op1_to ir.Uextend ir.I32 val; push r.
Definition translate_fcmp (cc : FloatCC.t) : M unit :=
  p ← pop2'; val ← ins1 (Fcmp cc p.1 p.2); r ← op1_to ir.Uextend ir.I32 val; push r.
Definition translate_vector_icmp (cc : IntCC.t) (needed_type : ir.Type_) : M unit :=
  p ← pop2';
  bitcast_a ← optionally_bitcast_vector p.1 needed_type;
  bitcast_b ← optionally_bitcast_vector p.2 needed_type;
  r ← ins1 (Icmp cc bitcast_a bitcast_b); push r.
Definition translate_vector_fcmp (cc : FloatCC.t) (needed_type : ir.Type_) : M unit :=
  p ← pop2';
  bitcast_a ← optionally_bitcast_vector p.1 needed_type;
  bitcast_b ← optionally_bitcast_vector p.2 needed_type;
  r ← ins1 (Fcmp cc bitcast_a bitcast_b); push r.

(** ** Memory *)
Definition mem_op_size (opcode : ir.MemOpcode) (ty : ir.Type_) : outcome Error Z :=
  match opcode with
  | ir.Istore8 | ir.Sload8 | ir.Uload8 => Ok 1
  | ir.Istore16 | ir.Sload16 | ir.Uload16 => Ok 2
  | ir.Istore32 | ir.Sload32 | ir.Uload32 => Ok 4
  | ir.Store | ir.Load => Ok (ir.bytes ty)
  | _ => Panic
  end.

Definition translate_load (memarg : MemArg) (opcode : ir.MemOpcode) (result_ty : ir.Type_) : M (Reachability unit) :=
  index ← pop1';
  mem_op_size ← sm_lift (mem_op_size opcode result_ty);
  mem ← get_memory dbg env (ma_memory memarg);
  r ← mem_prepare_addr env mem index mem_op_size memarg;
  match r with
  | Unreachable => mret Unreachable
  | Reachable (flags, _, base) =>
      load ← ins1 (LoadOp opcode result_ty flags base 0);
      _ ← push load;
      mret (Reachable tt)
  end.

(** [unwrap_or_return_unreachable_state!]. *)
Definition or_unreachable {A} (c : M (Reachability A)) (k : A -> M unit) : M unit :=
  r ← c;
  match r with
  | Reachable x => k x
  | Unreachable => upd (set_reachable false)
  end.

Definition translate_store (memarg : MemArg) (opcode : ir.MemOpcode) : M unit :=
  val ← pop1';
  index ← pop1';
  val_ty ← value_type_of val;
  mem_op_size ← sm_lift (mem_op_size opcode val_ty);
  mem ← get_memory dbg env (ma_memory memarg);
  or_unreachable (mem_prepare_addr env mem index mem_op_size memarg) (fun '(flags, _, base) =>
    _ ← insi (StoreOp opcode flags val base 0);
    mret tt).
End Translate.
