(* ===== verification/CodeTranslatorCtl.v ===== *)
(** * Translating operators: control flow, calls, variables
      ([src/src/cranelift/code_translator.rs])

    The reachable cases of blocks, branches, calls and variables, and the
    treatment of operators in unreachable code. *)
From stdpp Require Import base list gmap option numbers.
From S2P Require Import Prelude Types Trap Module ModuleTypes VMOffsets HeapAccess Clif FuncState WasmOp FuncEnv CodeTranslator.
Local Open Scope Z_scope.

Section Control.
Context {B : Type} `{FunctionBuilder B} `{TrapCodes} (dbg : bool) (env : TranslationEnvironment) (validator : FuncValidator).
Abbreviation M := (SM (TState B) Error).

(** ** Blocks *)
Definition translate_block (blockty : BlockType) : M unit :=
  pr ← sm_lift (blocktype_params_results validator blockty);
  next ← block_with_params env pr.2;
  mod_st (push_block dbg next (pm_len pr.1) (pm_len pr.2)).

Definition translate_loop (blockty : BlockType) : M unit :=
  pr ← sm_lift (blocktype_params_results validator blockty);
  loop_body ← block_with_params env pr.1;
  next ← block_with_params env pr.2;
  args ← peek (peekn dbg (pm_len pr.1));
  _ ← canonicalise_then_jump loop_body args;
  _ ← mod_st (push_loop dbg loop_body next (pm_len pr.1) (pm_len pr.2));
  _ ← mod_st (popn dbg (pm_len pr.1));
  params ← query (fun b => block_params b loop_body);
  _ ← upd (pushn params);
  onb (switch_to_block loop_body).

Definition translate_if (blockty : BlockType) : M unit :=
  val ← pop1';
  next_block ← onb create_block;
  pr ← sm_lift (blocktype_params_results validator blockty);
  let params := pr.1 in
  let results := pr.2 in
  d ← (if bool_decide (params = results) then
         destination ← block_with_params env results;
         args ← peek (peekn dbg (pm_len params));
         branch_inst ← canonicalise_brif val next_block [] destination args;
         mret (destination, NoElse branch_inst destination)
       else
         destination ← block_with_params env results;
         else_block ← block_with_params env params;
         args ← peek (peekn dbg (pm_len params));
         _ ← canonicalise_brif val next_block [] else_block args;
         _ ← onb (seal_block else_block);
         mret (destination, WithElse else_block));
  _ ← onb (seal_block next_block);
  _ ← onb (switch_to_block next_block);
  mod_st (push_if dbg d.1 d.2 (pm_len params) (pm_len results) blockty).

(** The frame at [i] is replaced by [f]. *)
Definition set_frame (i : Z) (f : ControlStackFrame) (s : FuncTranslationState) : FuncTranslationState :=
  set_control_stack (pm_set (control_stack s) i f) s.

Definition top_index : M Z :=
  n ← get_st (fun s => pm_len (control_stack s)); sm_lift (unwrap (checked_sub 64 n 1)).

Definition set_consequent (r : bool) (f : ControlStackFrame) : ControlStackFrame :=
  match f with
  | If_ d e p rv n x bt h _ => If_ d e p rv n x bt h (Some r)
  | f => f
  end.

Definition translate_else : M unit :=
  i ← top_index;
  frame ← peek (fun s => unwrap (pm_get (control_stack s) i));
  match frame with
  | If_ destination else_data _ num_return_values _ _ blocktype head_is_reachable consequent_ends_reachable =>
      _ ← sm_lift (debug_assert dbg (negb (bool_decide (is_Some consequent_ends_reachable))));
      r ← get_st reachable;
      _ ← upd (set_frame i (set_consequent r frame));
      if head_is_reachable then
        _ ← upd (set_reachable true);
        else_block ← match else_data with
                     | NoElse branch_inst placeholder =>
                         pr ← sm_lift (blocktype_params_results validator blocktype);
                         let params := pr.1 in
                         _ ← sm_lift (debug_assert dbg (pm_len params =? num_return_values));
                         else_block ← block_with_params env params;
                         args ← peek (peekn dbg (pm_len params));
                         _ ← canonicalise_then_jump destination args;
                         _ ← mod_st (popn dbg (pm_len params));
                         _ ← onb (change_jump_destination branch_inst placeholder else_block);
                         _ ← onb (seal_block else_block);
                         mret else_block
                     | WithElse else_block =>
                         args ← peek (peekn dbg num_return_values);
                         _ ← canonicalise_then_jump destination args;
                         _ ← mod_st (popn dbg num_return_values);
                         mret else_block
                     end;
        onb (switch_to_block else_block)
      else mret tt
  | _ => sm_lift Panic
  end.

(** [control_stack.pop().unwrap()]. *)
Definition pop_frame : M ControlStackFrame :=
  pop_st (fun s => f ← unwrap (list.last (control_stack s));
                   Ok (f, set_control_stack (take (length (control_stack s) - 1) (control_stack s)) s)).

Definition translate_end : M unit :=
  frame ← pop_frame;
  let next_block := following_code frame in
  return_args ← peek (peekn dbg (num_return_values frame));
  _ ← canonicalise_then_jump next_block return_args;
  _ ← onb (switch_to_block next_block);
  _ ← onb (seal_block next_block);
  _ ← match frame with
      | Loop_ _ header _ _ _ => onb (seal_block header)
      | _ => mret tt
      end;
  _ ← mod_st (fun s => l ← truncate_value_stack_to_original_size dbg frame (stack s); Ok (set_stack l s));
  params ← query (fun b => block_params b next_block);
  upd (pushn params).

(** ** Branches *)

(** The index of the frame [relative_depth] below the top. *)
Definition frame_index (relative_depth : Z) : M Z :=
  i ← top_index; sm_lift (unwrap (checked_sub 64 i relative_depth)).
Definition frame_at (i : Z) : M ControlStackFrame :=
  peek (fun s => unwrap (pm_get (control_stack s) i)).

(** Mark the frame as branched to; its arity and destination. *)
Definition branch_to (relative_depth : Z) : M (Z * Block) :=
  i ← frame_index relative_depth;
  frame ← frame_at i;
  _ ← upd (set_frame i (set_branched_to_exit frame));
  mret (branch_arity frame, br_destination frame).

Definition translate_br (relative_depth : Z) : M unit :=
  d ← branch_to relative_depth;
  destination_args ← peek (peekn dbg d.1);
  _ ← canonicalise_then_jump d.2 destination_args;
  _ ← mod_st (popn dbg d.1);
  upd (set_reachable false).

Definition translate_br_if_args (relative_depth : Z) : M (Block * list Value) :=
  d ← branch_to relative_depth;
  inputs ← peek (peekn dbg d.1);
  mret (d.2, inputs).
Definition translate_br_if (relative_depth : Z) : M unit :=
  val ← pop1';
  d ← translate_br_if_args relative_depth;
  next_block ← onb create_block;
  _ ← canonicalise_brif val d.1 d.2 next_block [];
  _ ← onb (seal_block next_block);
  onb (switch_to_block next_block).

(** Without arguments, [br_table] jumps to the destinations directly. *)
Fixpoint table_destinations (depths : list Z) : M (list Block) :=
  match depths with
  | [] => mret []
  | depth :: depths => d ← branch_to depth; ds ← table_destinations depths; mret (d.2 :: ds)
  end.

(** With arguments, every depth gets one block of its own; the map and the
    sequence of new blocks. *)
Definition split_edge (m : gmap Z Block) (seq : list (Z * Block)) (depth : Z) : M (Block * gmap Z Block * list (Z * Block)) :=
  match m !! depth with
  | Some block => mret (block, m, seq)
  | None => block ← onb create_block; mret (block, <[depth := block]> m, seq ++ [(depth, block)])
  end.
Fixpoint split_edges (depths : list Z) (m : gmap Z Block) (seq : list (Z * Block))
  : M (list Block * gmap Z Block * list (Z * Block)) :=
  match depths with
  | [] => mret ([], m, seq)
  | depth :: depths =>
      r ← split_edge m seq depth;
      rs ← split_edges depths r.1.2 r.2;
      mret (r.1.1 :: rs.1.1, rs.1.2, rs.2)
  end.
Fixpoint fill_edges (return_count : Z) (seq : list (Z * Block)) : M unit :=
  match seq with
  | [] => mret tt
  | (depth, dest_block) :: seq =>
      _ ← onb (switch_to_block dest_block);
      _ ← onb (seal_block dest_block);
      d ← branch_to depth;
      destination_args ← peek (peekn dbg return_count);
      _ ← canonicalise_then_jump d.2 destination_args;
      fill_edges return_count seq
  end.

Definition translate_br_table (targets : list Z) (default : Z) : M unit :=
  let min_depth := fold_left Z.min targets default in
  i ← frame_index min_depth;
  min_depth_frame ← frame_at i;
  let jump_args_count := branch_arity min_depth_frame in
  val ← pop1';
  _ ← (if jump_args_count =? 0 then
         data ← table_destinations targets;
         block ← branch_to default;
         _ ← insi (BrTable val block.2 data);
         mret tt
       else
         let return_count := jump_args_count in
         r ← split_edges targets ∅ [];
         rd ← split_edge r.1.2 r.2 default;
         _ ← insi (BrTable val rd.1.1 r.1.1);
         _ ← fill_edges return_count rd.2;
         mod_st (popn dbg return_count));
  upd (set_reachable false).

Definition translate_return : M unit :=
  frame ← frame_at 0;
  let return_count := num_return_values frame in
  return_args ← peek (peekn dbg return_count);
  return_args ← bitcast_wasm_returns return_args;
  _ ← upd (write_top return_args);
  _ ← insi (Return_ return_args);
  _ ← mod_st (popn dbg return_count);
  upd (set_reachable false).

(** [br_on_null] falls through with the reference, [br_on_non_null] without it. *)
Definition translate_ref_is_null (value : Value) : M Value :=
  byte_is_null ← ins1 (IcmpImm IntCC.Equal value 0);
  op1_to ir.Uextend ir.I32 byte_is_null.
Definition translate_br_on_null (relative_depth : Z) : M unit :=
  r ← pop1';
  d ← translate_br_if_args relative_depth;
  is_null ← translate_ref_is_null r;
  else_block ← onb create_block;
  _ ← canonicalise_brif is_null d.1 d.2 else_block [];
  _ ← onb (seal_block else_block);
  _ ← onb (switch_to_block else_block);
  push r.
Definition translate_br_on_non_null (relative_depth : Z) : M unit :=
  r ← peek peek1;
  is_null ← translate_ref_is_null r;
  d ← translate_br_if_args relative_depth;
  else_block ← onb create_block;
  _ ← canonicalise_brif is_null else_block [] d.1 d.2;
  _ ← pop1';
  _ ← onb (seal_block else_block);
  onb (switch_to_block else_block).

(** ** Calls *)

(** The results of a call replace its arguments on the stack. *)
Definition finish_call (call : Inst) (sig : Z) (num_args : Z) : M unit :=
  inst_results ← query (fun b => inst_results b call);
  s ← query (fun b => dfg_signature b sig);
  s ← sm_lift (unwrap s);
  _ ← sm_lift (debug_assert dbg (pm_len inst_results =? pm_len (ir.returns s)));
  _ ← mod_st (popn dbg num_args);
  upd (pushn inst_results).

Definition translate_call (function_index : Z) : M unit :=
  r ← get_direct_func env function_index;
  let fref := r.1 in
  let num_args := r.2 in
  args ← peek (peekn dbg num_args);
  f ← query (fun b => dfg_ext_func b fref);
  f ← sm_lift (unwrap f);
  args ← bitcast_wasm_params (ir.ef_signature f) args;
  _ ← upd (write_top args);
  call ← direct_call env function_index fref args;
  finish_call call (ir.ef_signature f) num_args.

Definition translate_call_indirect (type_index table_index : Z) : M unit :=
  r ← get_indirect_sig env type_index;
  let sigref := r.1 in
  let num_args := r.2 in
  callee ← pop1';
  args ← peek (peekn dbg num_args);
  args ← bitcast_wasm_params sigref args;
  _ ← upd (write_top args);
  table ← get_table env table_index;
  args ← peek (peekn dbg num_args);
  or_unreachable (indirect_call env table_index table type_index sigref callee args) (fun call =>
    finish_call call sigref num_args).

(** Tail calls and typed references prepare the arguments; the calls themselves
    are not implemented. *)
Definition translate_return_call (function_index : Z) : M unit :=
  r ← get_direct_func env function_index;
  args ← peek (peekn dbg r.2);
  f ← query (fun b => dfg_ext_func b r.1);
  f ← sm_lift (unwrap f);
  args ← bitcast_wasm_params (ir.ef_signature f) args;
  _ ← upd (write_top args);
  todo.
Definition translate_return_call_indirect (type_index table_index : Z) : M unit :=
  r ← get_indirect_sig env type_index;
  callee ← pop1';
  args ← peek (peekn dbg r.2);
  args ← bitcast_wasm_params r.1 args;
  _ ← upd (write_top args);
  todo.
Definition translate_call_ref (type_index : Z) : M unit :=
  r ← get_indirect_sig env type_index;
  callee ← pop1';
  ty ← sm_lift (unwrap (get_operand_type validator));
  needs_null_check ← sm_lift (match ty with
                              | None => Ok true
                              | Some (wasmparser.Ref t) => Ok (wasmparser.is_nullable t)
                              | Some _ => Panic
                              end);
  args ← peek (peekn dbg r.2);
  args ← bitcast_wasm_params r.1 args;
  _ ← upd (write_top args);
  todo.
Definition translate_return_call_ref (type_index : Z) : M unit :=
  r ← get_indirect_sig env type_index;
  callee ← pop1';
  args ← peek (peekn dbg r.2);
  args ← bitcast_wasm_params r.1 args;
  _ ← upd (write_top args);
  todo.

(** ** Variables *)

(** Vectors are stored in their canonical type. *)
Definition canonical_value (val : Value) : M Value :=
  ty ← value_type_of val;
  if ir.is_vector ty then optionally_bitcast_vector val ir.I8X16 else mret val.

Definition translate_local_get (local_index : Z) : M unit := val ← onb (use_var local_index); push val.
Definition translate_local_set (local_index : Z) : M unit :=
  val ← pop1'; val ← canonical_value val; onb (def_var local_index val).
Definition translate_local_tee (local_index : Z) : M unit :=
  val ← peek peek1; val ← canonical_value val; onb (def_var local_index val).

(** Globals are in the alias region of tables. *)
Definition global_flags : ir.MemFlags := ir.with_alias_region (Some ir.Table) ir.trusted.
Definition translate_global_get (global_index : Z) : M unit :=
  g ← get_global dbg env global_index;
  val ← match g with
        | CG_Const val => mret val
        | CG_Memory gv offset ty =>
            addr ← ins1 (GlobalValueOp gv);
            ins1 (LoadOp ir.Load ty global_flags addr offset)
        | CG_Custom => todo
        end;
  push val.
Definition translate_global_set (global_index : Z) : M unit :=
  g ← get_global dbg env global_index;
  match g with
  | CG_Const _ => sm_lift Panic
  | CG_Memory gv offset ty =>
      addr ← ins1 (GlobalValueOp gv);
      val ← pop1';
      val ← (if ir.is_vector ty then optionally_bitcast_vector val ir.I8X16 else mret val);
      val_ty ← value_type_of val;
      _ ← sm_lift (debug_assert dbg (bool_decide (ty = val_ty)));
      _ ← insi (StoreOp ir.Store global_flags val addr offset);
      mret tt
  | CG_Custom => val ← pop1'; todo
  end.

Definition translate_select : M unit :=
  p ← pop3';
  arg1 ← canonical_value p.1.1;
  arg2 ← canonical_value p.1.2;
  r ← op3 ir.Select p.2 arg1 arg2; push r.

(** ** Unreachable code *)
Definition reserved_block : Block := reserved_value.

Definition unreachable_else : M unit :=
  i ← top_index;
  frame ← frame_at i;
  match frame with
  | If_ _ else_data _ _ _ _ blocktype head_is_reachable consequent_ends_reachable =>
      _ ← sm_lift (debug_assert dbg (negb (bool_decide (is_Some consequent_ends_reachable))));
      r ← get_st reachable;
      _ ← upd (set_frame i (set_consequent r frame));
      if head_is_reachable then
        _ ← upd (set_reachable true);
        let to_else_params :=
          mod_st (fun s => f ← unwrap (list.last (control_stack s));
                           l ← truncate_value_stack_to_else_params dbg f (stack s);
                           Ok (set_stack l s)) in
        else_block ← match else_data with
                     | NoElse branch_inst placeholder =>
                         pr ← sm_lift (blocktype_params_results validator blocktype);
                         else_block ← block_with_params env pr.1;
                         _ ← to_else_params;
                         _ ← onb (change_jump_destination branch_inst placeholder else_block);
                         _ ← onb (seal_block else_block);
                         mret else_block
                     | WithElse else_block => _ ← to_else_params; mret else_block
                     end;
        onb (switch_to_block else_block)
      else mret tt
  | _ => sm_lift Panic
  end.

(** Whether the code after the frame can be reached although its end is not. *)
Definition reachable_anyway (frame : ControlStackFrame) : bool :=
  match frame with
  | Loop_ _ _ _ _ _ => false
  | If_ _ _ _ _ _ _ _ head_is_reachable (Some consequent_ends_reachable) => head_is_reachable && consequent_ends_reachable
  | If_ _ _ _ _ _ _ _ head_is_reachable None => head_is_reachable
  | _ => false
  end.

Definition unreachable_end : M unit :=
  frame ← pop_frame;
  _ ← mod_st (fun s => l ← truncate_value_stack_to_original_size dbg frame (stack s); Ok (set_stack l s));
  _ ← match frame with
      | Loop_ _ header _ _ _ => onb (seal_block header)
      | _ => mret tt
      end;
  if exit_is_branched_to frame || reachable_anyway frame then
    _ ← onb (switch_to_block (following_code frame));
    _ ← onb (seal_block (following_code frame));
    params ← query (fun b => block_params b (following_code frame));
    _ ← upd (pushn params);
    upd (set_reachable true)
  else mret tt.

Definition translate_unreachable_operator (op : Operator.WasmOperator) : M unit :=
  r ← get_st reachable;
  _ ← sm_lift (debug_assert dbg (negb r));
  match op with
  | Operator.If blockty =>
      mod_st (push_if dbg reserved_block (NoElse reserved_value reserved_block) 0 0 blockty)
  | Operator.Loop _ | Operator.Block _ => mod_st (push_block dbg reserved_block 0 0)
  | Operator.Else => unreachable_else
  | Operator.End => unreachable_end
  | _ => mret tt
  end.
End Control.
