(* ===== verification/CodeTranslatorOps.v ===== *)
(** * Translating operators: arithmetic, memory accesses and vectors
      ([src/src/cranelift/code_translator.rs])

    The remaining cases of [translate_operator], one definition per section of
    the source; a section hands an operator it does not know to the next. *)
From stdpp Require Import base list gmap option numbers.
From S2P Require Import Prelude Types Trap Module ModuleTypes VMOffsets HeapAccess Clif FuncState WasmOp FuncEnv CodeTranslator CodeTranslatorCtl.
Import Operator.
Local Open Scope Z_scope.

(** The lane type an operator works on. *)
Definition type_of (operator : WasmOperator) : outcome Error ir.Type_ :=
  match operator with
  | V128Load _ | V128Store | V128Const _ | V128Not | V128And
  | V128AndNot | V128Or | V128Xor | V128AnyTrue | V128Bitselect => Ok ir.I8X16
  | I8x16Shuffle _ | I8x16Splat | V128Load8Splat _ | V128Load8Lane _ _
  | V128Store8Lane _ _ | I8x16ExtractLaneS _ | I8x16ExtractLaneU _
  | I8x16ReplaceLane _ | I8x16Eq | I8x16Ne | I8x16LtS | I8x16LtU
  | I8x16GtS | I8x16GtU | I8x16LeS | I8x16LeU | I8x16GeS
  | I8x16GeU | I8x16Neg | I8x16Abs | I8x16AllTrue | I8x16Shl
  | I8x16ShrS | I8x16ShrU | I8x16Add | I8x16AddSatS | I8x16AddSatU
  | I8x16Sub | I8x16SubSatS | I8x16SubSatU | I8x16MinS | I8x16MinU
  | I8x16MaxS | I8x16MaxU | I8x16AvgrU | I8x16Bitmask | I8x16Popcnt
  | I8x16RelaxedLaneselect => Ok ir.I8X16
  | I16x8Splat | V128Load16Splat _ | V128Load16Lane _ _ | V128Store16Lane _ _
  | I16x8ExtractLaneS _ | I16x8ExtractLaneU _ | I16x8ReplaceLane _ | I16x8Eq
  | I16x8Ne | I16x8LtS | I16x8LtU | I16x8GtS | I16x8GtU
  | I16x8LeS | I16x8LeU | I16x8GeS | I16x8GeU | I16x8Neg
  | I16x8Abs | I16x8AllTrue | I16x8Shl | I16x8ShrS | I16x8ShrU
  | I16x8Add | I16x8AddSatS | I16x8AddSatU | I16x8Sub | I16x8SubSatS
  | I16x8SubSatU | I16x8MinS | I16x8MinU | I16x8MaxS | I16x8MaxU
  | I16x8AvgrU | I16x8Mul | I16x8Bitmask | I16x8RelaxedLaneselect => Ok ir.I16X8
  | I32x4Splat | V128Load32Splat _ | V128Load32Lane _ _ | V128Store32Lane _ _
  | I32x4ExtractLane _ | I32x4ReplaceLane _ | I32x4Eq | I32x4Ne
  | I32x4LtS | I32x4LtU | I32x4GtS | I32x4GtU | I32x4LeS
  | I32x4LeU | I32x4GeS | I32x4GeU | I32x4Neg | I32x4Abs
  | I32x4AllTrue | I32x4Shl | I32x4ShrS | I32x4ShrU | I32x4Add
  | I32x4Sub | I32x4Mul | I32x4MinS | I32x4MinU | I32x4MaxS
  | I32x4MaxU | I32x4Bitmask | I32x4TruncSatF32x4S | I32x4TruncSatF32x4U
  | I32x4RelaxedLaneselect | V128Load32Zero _ => Ok ir.I32X4
  | I64x2Splat | V128Load64Splat _ | V128Load64Lane _ _ | V128Store64Lane _ _
  | I64x2ExtractLane _ | I64x2ReplaceLane _ | I64x2Eq | I64x2Ne
  | I64x2LtS | I64x2GtS | I64x2LeS | I64x2GeS | I64x2Neg
  | I64x2Abs | I64x2AllTrue | I64x2Shl | I64x2ShrS | I64x2ShrU
  | I64x2Add | I64x2Sub | I64x2Mul | I64x2Bitmask
  | I64x2RelaxedLaneselect | V128Load64Zero _ => Ok ir.I64X2
  | F32x4Splat | F32x4ExtractLane _ | F32x4ReplaceLane _ | F32x4Eq
  | F32x4Ne | F32x4Lt | F32x4Gt | F32x4Le | F32x4Ge
  | F32x4Abs | F32x4Neg | F32x4Sqrt | F32x4Add | F32x4Sub
  | F32x4Mul | F32x4Div | F32x4Min | F32x4Max | F32x4PMin
  | F32x4PMax | F32x4ConvertI32x4S | F32x4ConvertI32x4U | F32x4Ceil
  | F32x4Floor | F32x4Trunc | F32x4Nearest | F32x4RelaxedMax
  | F32x4RelaxedMin | F32x4RelaxedMadd | F32x4RelaxedNmadd => Ok ir.F32X4
  | F64x2Splat | F64x2ExtractLane _ | F64x2ReplaceLane _ | F64x2Eq
  | F64x2Ne | F64x2Lt | F64x2Gt | F64x2Le | F64x2Ge
  | F64x2Abs | F64x2Neg | F64x2Sqrt | F64x2Add | F64x2Sub
  | F64x2Mul | F64x2Div | F64x2Min | F64x2Max | F64x2PMin
  | F64x2PMax | F64x2Ceil | F64x2Floor | F64x2Trunc | F64x2Nearest
  | F64x2RelaxedMax | F64x2RelaxedMin | F64x2RelaxedMadd | F64x2RelaxedNmadd => Ok ir.F64X2
  | _ => Panic
  end.

Section Operators.
Context {B : Type} `{FunctionBuilder B} `{TrapCodes} (dbg : bool) (env : TranslationEnvironment) (validator : FuncValidator).
Abbreviation M := (SM (TState B) Error).

(** The common shapes: operands are popped (and cast to a lane type), and the
    result of one instruction is pushed. *)
Definition unary (o : ir.Opcode) : M unit := x ← pop1'; r ← op1 o x; push r.
Definition unary_to (o : ir.Opcode) (ty : ir.Type_) : M unit := x ← pop1'; r ← op1_to o ty x; push r.
Definition binary (o : ir.Opcode) : M unit := '(x, y) ← pop2'; r ← op2 o x y; push r.
Definition unary_cast (ty : ir.Type_) (o : ir.Opcode) : M unit := x ← pop1_with_bitcast ty; r ← op1 o x; push r.
Definition unary_cast_to (ty : ir.Type_) (o : ir.Opcode) (to : ir.Type_) : M unit :=
  x ← pop1_with_bitcast ty; r ← op1_to o to x; push r.
Definition binary_cast (ty : ir.Type_) (o : ir.Opcode) : M unit := '(x, y) ← pop2_with_bitcast ty; r ← op2 o x y; push r.

(** Integer operators. *)
Definition translate_integer (op : WasmOperator) (next : M unit) : M unit :=
  match op with
  | I32Add | I64Add => binary ir.Iadd
  | I32Sub | I64Sub => binary ir.Isub
  | I32Mul | I64Mul => binary ir.Imul
  | I32DivS | I64DivS => binary ir.Sdiv
  | I32DivU | I64DivU => binary ir.Udiv
  | I32RemS | I64RemS => binary ir.Srem
  | I32RemU | I64RemU => binary ir.Urem
  | I32And | I64And => binary ir.Band
  | I32Or | I64Or => binary ir.Bor
  | I32Xor | I64Xor => binary ir.Bxor
  | I32Shl | I64Shl => binary ir.Ishl
  | I32ShrS | I64ShrS => binary ir.Sshr
  | I32ShrU | I64ShrU => binary ir.Ushr
  | I32Rotl | I64Rotl => binary ir.Rotl
  | I32Rotr | I64Rotr => binary ir.Rotr
  | I32Clz | I64Clz => unary ir.Clz
  | I32Ctz | I64Ctz => unary ir.Ctz
  | I32Popcnt | I64Popcnt => unary ir.Popcnt
  | I32WrapI64 => unary_to ir.Ireduce ir.I32
  | I64ExtendI32S => unary_to ir.Sextend ir.I64
  | I64ExtendI32U => unary_to ir.Uextend ir.I64
  | _ => next
  end.

(** Floating-point operators. *)
Definition translate_float (op : WasmOperator) (next : M unit) : M unit :=
  match op with
  | F32Add | F64Add => binary ir.Fadd
  | F32Sub | F64Sub => binary ir.Fsub
  | F32Mul | F64Mul => binary ir.Fmul
  | F32Div | F64Div => binary ir.Fdiv
  | F32Min | F64Min => binary ir.Fmin
  | F32Max | F64Max => binary ir.Fmax
  | F32Copysign | F64Copysign => binary ir.Fcopysign
  | F32Sqrt | F64Sqrt => unary ir.Sqrt
  | F32Ceil | F64Ceil => unary ir.Ceil
  | F32Floor | F64Floor => unary ir.Floor
  | F32Trunc | F64Trunc => unary ir.Trunc
  | F32Nearest | F64Nearest => unary ir.Nearest
  | F32Abs | F64Abs => unary ir.Fabs
  | F32Neg | F64Neg => unary ir.Fneg
  | I32TruncF64S | I32TruncF32S => unary_to ir.FcvtToSint ir.I32
  | I32TruncF64U | I32TruncF32U => unary_to ir.FcvtToUint ir.I32
  | I64TruncF64U | I64TruncF32U => unary_to ir.FcvtToUint ir.I64
  | I64TruncF64S | I64TruncF32S => unary_to ir.FcvtToSint ir.I64
  | F32DemoteF64 => unary_to ir.Fdemote ir.F32
  | F32ConvertI64S | F32ConvertI32S => unary_to ir.FcvtFromSint ir.F32
  | F32ConvertI64U | F32ConvertI32U => unary_to ir.FcvtFromUint ir.F32
  | F64ConvertI64S | F64ConvertI32S => unary_to ir.FcvtFromSint ir.F64
  | F64ConvertI64U | F64ConvertI32U => unary_to ir.FcvtFromUint ir.F64
  | F64PromoteF32 => unary_to ir.Fpromote ir.F64
  | F32ReinterpretI32 => val ← pop1'; r ← ins1 (Op ir.Bitcast (Some ir.F32) [val] [0]); push r
  | F64ReinterpretI64 => val ← pop1'; r ← ins1 (Op ir.Bitcast (Some ir.F64) [val] [0]); push r
  | I32ReinterpretF32 => val ← pop1'; r ← ins1 (Op ir.Bitcast (Some ir.I32) [val] [0]); push r
  | I64ReinterpretF64 => val ← pop1'; r ← ins1 (Op ir.Bitcast (Some ir.I64) [val] [0]); push r
  | _ => next
  end.

(** Comparison operators. *)
Definition translate_comparison (op : WasmOperator) (next : M unit) : M unit :=
  match op with
  | I32LtS | I64LtS => translate_icmp IntCC.SignedLessThan
  | I32LtU | I64LtU => translate_icmp IntCC.UnsignedLessThan
  | I32LeS | I64LeS => translate_icmp IntCC.SignedLessThanOrEqual
  | I32LeU | I64LeU => translate_icmp IntCC.UnsignedLessThanOrEqual
  | I32GtS | I64GtS => translate_icmp IntCC.SignedGreaterThan
  | I32GtU | I64GtU => translate_icmp IntCC.UnsignedGreaterThan
  | I32GeS | I64GeS => translate_icmp IntCC.SignedGreaterThanOrEqual
  | I32GeU | I64GeU => translate_icmp IntCC.UnsignedGreaterThanOrEqual
  | I32Eqz | I64Eqz => arg ← pop1'; val ← ins1 (IcmpImm IntCC.Equal arg 0); r ← op1_to ir.Uextend ir.I32 val; push r
  | I32Eq | I64Eq => translate_icmp IntCC.Equal
  | F32Eq | F64Eq => translate_fcmp FloatCC.Equal
  | I32Ne | I64Ne => translate_icmp IntCC.NotEqual
  | F32Ne | F64Ne => translate_fcmp FloatCC.NotEqual
  | F32Gt | F64Gt => translate_fcmp FloatCC.GreaterThan
  | F32Ge | F64Ge => translate_fcmp FloatCC.GreaterThanOrEqual
  | F32Lt | F64Lt => translate_fcmp FloatCC.LessThan
  | F32Le | F64Le => translate_fcmp FloatCC.LessThanOrEqual
  | _ => next
  end.

(** Loads. *)
Definition translate_load_op (op : WasmOperator) (next : M unit) : M unit :=
  match op with
  | I32Load8U memarg => or_unreachable (translate_load dbg env memarg ir.Uload8 ir.I32) (fun _ => mret tt)
  | I32Load16U memarg => or_unreachable (translate_load dbg env memarg ir.Uload16 ir.I32) (fun _ => mret tt)
  | I32Load8S memarg => or_unreachable (translate_load dbg env memarg ir.Sload8 ir.I32) (fun _ => mret tt)
  | I32Load16S memarg => or_unreachable (translate_load dbg env memarg ir.Sload16 ir.I32) (fun _ => mret tt)
  | I64Load8U memarg => or_unreachable (translate_load dbg env memarg ir.Uload8 ir.I64) (fun _ => mret tt)
  | I64Load16U memarg => or_unreachable (translate_load dbg env memarg ir.Uload16 ir.I64) (fun _ => mret tt)
  | I64Load8S memarg => or_unreachable (translate_load dbg env memarg ir.Sload8 ir.I64) (fun _ => mret tt)
  | I64Load16S memarg => or_unreachable (translate_load dbg env memarg ir.Sload16 ir.I64) (fun _ => mret tt)
  | I64Load32S memarg => or_unreachable (translate_load dbg env memarg ir.Sload32 ir.I64) (fun _ => mret tt)
  | I64Load32U memarg => or_unreachable (translate_load dbg env memarg ir.Uload32 ir.I64) (fun _ => mret tt)
  | I32Load memarg => or_unreachable (translate_load dbg env memarg ir.Load ir.I32) (fun _ => mret tt)
  | F32Load memarg => or_unreachable (translate_load dbg env memarg ir.Load ir.F32) (fun _ => mret tt)
  | I64Load memarg => or_unreachable (translate_load dbg env memarg ir.Load ir.I64) (fun _ => mret tt)
  | F64Load memarg => or_unreachable (translate_load dbg env memarg ir.Load ir.F64) (fun _ => mret tt)
  | _ => next
  end.

(** Stores. *)
Definition translate_store_op (op : WasmOperator) (next : M unit) : M unit :=
  match op with
  | I32Store memarg | I64Store memarg | F32Store memarg | F64Store memarg => translate_store dbg env memarg ir.Store
  | I32Store8 memarg | I64Store8 memarg => translate_store dbg env memarg ir.Istore8
  | I32Store16 memarg | I64Store16 memarg => translate_store dbg env memarg ir.Istore16
  | I64Store32 memarg => translate_store dbg env memarg ir.Istore32
  | _ => next
  end.

(** Sign extension and saturating conversions. *)
Definition translate_extension (op : WasmOperator) (next : M unit) : M unit :=
  match op with
  | I32Extend8S => val ← pop1'; r ← op1_to ir.Ireduce ir.I8 val; _ ← push r; val ← pop1'; r ← op1_to ir.Sextend ir.I32 val; push r
  | I32Extend16S =>
      val ← pop1';
      r ← op1_to ir.Ireduce ir.I16 val;
      _ ← push r;
      val ← pop1';
      r ← op1_to ir.Sextend ir.I32 val;
      push r
  | I64Extend8S => val ← pop1'; r ← op1_to ir.Ireduce ir.I8 val; _ ← push r; val ← pop1'; r ← op1_to ir.Sextend ir.I64 val; push r
  | I64Extend16S =>
      val ← pop1';
      r ← op1_to ir.Ireduce ir.I16 val;
      _ ← push r;
      val ← pop1';
      r ← op1_to ir.Sextend ir.I64 val;
      push r
  | I64Extend32S =>
      val ← pop1';
      r ← op1_to ir.Ireduce ir.I32 val;
      _ ← push r;
      val ← pop1';
      r ← op1_to ir.Sextend ir.I64 val;
      push r
  | I32TruncSatF64S | I32TruncSatF32S => unary_to ir.FcvtToSintSat ir.I32
  | I32TruncSatF64U | I32TruncSatF32U => unary_to ir.FcvtToUintSat ir.I32
  | I64TruncSatF64S | I64TruncSatF32S => unary_to ir.FcvtToSintSat ir.I64
  | I64TruncSatF64U | I64TruncSatF32U => unary_to ir.FcvtToUintSat ir.I64
  | _ => next
  end.

(** ** Operators the environment does not implement

    Their operands are popped before the environment is called. *)
Definition translate_memory_grow (memory_index : Z) (delta : Value) : M Value := todo.
Definition translate_memory_size (memory_index : Z) : M Value := todo.
Definition translate_memory_copy (src_index dst_index : Z) (src_pos dst_pos len : Value) : M unit := todo.
Definition translate_memory_fill (memory_index : Z) (dst value len : Value) : M unit := todo.
Definition translate_memory_init (memory_index data_index : Z) (dst src len : Value) : M unit := todo.
Definition translate_data_drop (data_index : Z) : M unit := todo.
Definition translate_table_size (table_index : Z) : M Value := todo.
Definition translate_table_grow (table_index : Z) (delta initial_value : Value) : M Value := todo.
Definition translate_table_get (table_index : Z) (index : Value) : M Value := todo.
Definition translate_table_set (table_index : Z) (value index : Value) : M unit := todo.
Definition translate_table_copy (src_index dst_index : Z) (dst src len : Value) : M unit := todo.
Definition translate_table_fill (table_index : Z) (dst value len : Value) : M unit := todo.
Definition translate_table_init (table_index elem_index : Z) (dst src len : Value) : M unit := todo.
Definition translate_elem_drop (elem_index : Z) : M unit := todo.
Definition translate_atomic_wait (memory_index : Z) (address expected_value timeout : Value) : M Value := todo.
Definition translate_atomic_notify (memory_index : Z) (address count : Value) : M Value := todo.
Definition translate_ref_func (index : Z) : M Value := todo.
Definition translate_ref_i31 (value : Value) : M Value := todo.
Definition translate_i31_get_s (value : Value) : M Value := todo.
Definition translate_i31_get_u (value : Value) : M Value := todo.

Definition translate_ref_null (hty : WasmHeapType) : M Value :=
  _ ← sm_lift (assert_ (negb (ht_shared hty)));
  ty ← sm_lift (env_reference_type hty);
  op0 ir.Iconst ty.1 0.

(** Constants, and the size of memories. *)
Definition translate_const (op : WasmOperator) (next : M unit) : M unit :=
  match op with
  | MemoryGrow mem => delta ← pop1'; r ← translate_memory_grow mem delta; push r
  | MemorySize mem => r ← translate_memory_size mem; push r
  | I32Const value => r ← op0 ir.Iconst ir.I32 value; push r
  | I64Const value => r ← op0 ir.Iconst ir.I64 value; push r
  | F32Const value => r ← ins1 (Op ir.F32const None [] [value]); push r
  | F64Const value => r ← ins1 (Op ir.F64const None [] [value]); push r
  | _ => next
  end.

(** Reference types. *)
Definition translate_reference (op : WasmOperator) (next : M unit) : M unit :=
  match op with
  | TableFill table => len ← pop1'; val ← pop1'; dest ← pop1'; translate_table_fill table dest val len
  | TableGet table => index ← pop1'; r ← translate_table_get table index; push r
  | TableSet table => value ← pop1'; index ← pop1'; translate_table_set table value index
  | TableGrow table => delta ← pop1'; init_value ← pop1'; r ← translate_table_grow table delta init_value; push r
  | TableSize table => r ← translate_table_size table; push r
  | RefNull hty => hty ← sm_lift (convert_heap_type_ env hty); r ← translate_ref_null hty; push r
  | RefIsNull => value ← pop1'; r ← translate_ref_is_null value; push r
  | RefFunc function_index => r ← translate_ref_func function_index; push r
  | TypedSelect => translate_select
  | _ => next
  end.

(** Bulk memory operations; [table.copy] passes the tables in the other order
    than the environment names them. *)
Definition translate_bulk_memory (op : WasmOperator) (next : M unit) : M unit :=
  match op with
  | MemoryInit data_index mem => len ← pop1'; src ← pop1'; dest ← pop1'; translate_memory_init mem data_index dest src len
  | MemoryCopy src_mem dst_mem =>
      len ← pop1'; src_pos ← pop1'; dst_pos ← pop1'; translate_memory_copy src_mem dst_mem src_pos dst_pos len
  | MemoryFill mem => len ← pop1'; val ← pop1'; dest ← pop1'; translate_memory_fill mem dest val len
  | DataDrop data_index => translate_data_drop data_index
  | TableInit elem_index table => len ← pop1'; src ← pop1'; dest ← pop1'; translate_table_init table elem_index dest src len
  | TableCopy dst_table src_table =>
      len ← pop1'; src ← pop1'; dest ← pop1'; translate_table_copy dst_table src_table dest src len
  | ElemDrop elem_index => translate_elem_drop elem_index
  | _ => next
  end.

(** ** Threads *)
Definition atomic_effective_addr (addr : Value) (memarg : MemArg) : M Value :=
  if ma_offset memarg =? 0 then mret addr
  else
    imm ← sm_lift (imm64 (ma_offset memarg));
    offset ← op0 ir.Iconst ir.I32 imm;
    ins1 (UaddOverflowTrap addr offset HEAP_OUT_OF_BOUNDS).
Definition atomic_wait (implied_ty : ir.Type_) (memarg : MemArg) : M unit :=
  timeout ← pop1';
  expected ← pop1';
  ty ← value_type_of expected;
  _ ← sm_lift (assert_ (bool_decide (ty = implied_ty)));
  addr ← pop1';
  effective_addr ← atomic_effective_addr addr memarg;
  res ← translate_atomic_wait (ma_memory memarg) effective_addr expected timeout;
  push res.
Definition translate_atomic_load : M unit := todo.
Definition translate_atomic_store : M unit := todo.
Definition translate_atomic_rmw : M unit := todo.
Definition translate_atomic_cas : M unit := todo.

Definition translate_atomic_sync (op : WasmOperator) (next : M unit) : M unit :=
  match op with
  | MemoryAtomicWait32 memarg => atomic_wait ir.I32 memarg
  | MemoryAtomicWait64 memarg => atomic_wait ir.I64 memarg
  | MemoryAtomicNotify memarg =>
      count ← pop1'; addr ← pop1';
      effective_addr ← atomic_effective_addr addr memarg;
      res ← translate_atomic_notify (ma_memory memarg) effective_addr count;
      push res
  | AtomicFence => _ ← insi Fence; mret tt
  | _ => next
  end.

(** Atomic loads and stores. *)
Definition translate_atomic_access (op : WasmOperator) (next : M unit) : M unit :=
  match op with
  | I32AtomicLoad _ | I64AtomicLoad _ | I32AtomicLoad8U _ | I32AtomicLoad16U _ | I64AtomicLoad8U _
  | I64AtomicLoad16U _ | I64AtomicLoad32U _ => translate_atomic_load
  | I32AtomicStore _ | I64AtomicStore _ | I32AtomicStore8 _ | I32AtomicStore16 _ | I64AtomicStore8 _
  | I64AtomicStore16 _ | I64AtomicStore32 _ => translate_atomic_store
  | _ => next
  end.

(** Atomic read-modify-write and compare-exchange. *)
Definition translate_atomic_update (op : WasmOperator) (next : M unit) : M unit :=
  match op with
  | I32AtomicRmwAdd _ | I64AtomicRmwAdd _ | I32AtomicRmw8AddU _ | I32AtomicRmw16AddU _ | I64AtomicRmw8AddU _
  | I64AtomicRmw16AddU _ | I64AtomicRmw32AddU _ | I32AtomicRmwSub _ | I64AtomicRmwSub _ | I32AtomicRmw8SubU _
  | I32AtomicRmw16SubU _ | I64AtomicRmw8SubU _ | I64AtomicRmw16SubU _ | I64AtomicRmw32SubU _ | I32AtomicRmwAnd _
  | I64AtomicRmwAnd _ | I32AtomicRmw8AndU _ | I32AtomicRmw16AndU _ | I64AtomicRmw8AndU _ | I64AtomicRmw16AndU _
  | I64AtomicRmw32AndU _ | I32AtomicRmwOr _ | I64AtomicRmwOr _ | I32AtomicRmw8OrU _ | I32AtomicRmw16OrU _
  | I64AtomicRmw8OrU _ | I64AtomicRmw16OrU _ | I64AtomicRmw32OrU _ | I32AtomicRmwXor _ | I64AtomicRmwXor _
  | I32AtomicRmw8XorU _ | I32AtomicRmw16XorU _ | I64AtomicRmw8XorU _ | I64AtomicRmw16XorU _ | I64AtomicRmw32XorU _
  | I32AtomicRmwXchg _ | I64AtomicRmwXchg _ | I32AtomicRmw8XchgU _ | I32AtomicRmw16XchgU _ | I64AtomicRmw8XchgU _
  | I64AtomicRmw16XchgU _ | I64AtomicRmw32XchgU _ => translate_atomic_rmw
  | I32AtomicRmwCmpxchg _ | I64AtomicRmwCmpxchg _ | I32AtomicRmw8CmpxchgU _ | I32AtomicRmw16CmpxchgU _
  | I64AtomicRmw8CmpxchgU _ | I64AtomicRmw16CmpxchgU _ | I64AtomicRmw32CmpxchgU _ => translate_atomic_cas
  | _ => next
  end.

(** ** Vectors *)
Definition translate_extending_load (memarg : MemArg) (opcode : ir.MemOpcode) (ty : ir.Type_) : M unit :=
  index ← pop1';
  mem ← get_memory dbg env (ma_memory memarg);
  or_unreachable (mem_prepare_addr env mem index 8 memarg) (fun '(flags, _, base) =>
    loaded ← ins1 (LoadOp opcode ty flags base 0);
    push loaded).

(** Constants and loads. *)
Definition translate_simd_load (op : WasmOperator) (next : M unit) : M unit :=
  match op with
  | V128Const value => v ← ins1 (Op ir.Vconst (Some ir.I8X16) [] value); push v
  | V128Load memarg => or_unreachable (translate_load dbg env memarg ir.Load ir.I8X16) (fun _ => mret tt)
  | V128Load8x8S memarg => translate_extending_load memarg ir.Sload8x8 ir.I16X8
  | V128Load8x8U memarg => translate_extending_load memarg ir.Uload8x8 ir.I16X8
  | V128Load16x4S memarg => translate_extending_load memarg ir.Sload16x4 ir.I32X4
  | V128Load16x4U memarg => translate_extending_load memarg ir.Uload16x4 ir.I32X4
  | V128Load32x2S memarg => translate_extending_load memarg ir.Sload32x2 ir.I64X2
  | V128Load32x2U memarg => translate_extending_load memarg ir.Uload32x2 ir.I64X2
  | V128Store => todo
  | _ => next
  end.

(** Splats and single lanes of memory. *)
Definition translate_simd_splat (op : WasmOperator) (next : M unit) : M unit :=
  match op with
  | I8x16Splat | I16x8Splat =>
      ty ← sm_lift (type_of op);
      x ← pop1';
      reduced ← op1_to ir.Ireduce (ir.lane_type ty) x;
      splatted ← op1_to ir.Splat ty reduced;
      push splatted
  | I32x4Splat | I64x2Splat | F32x4Splat | F64x2Splat =>
      ty ← sm_lift (type_of op);
      x ← pop1';
      splatted ← op1_to ir.Splat ty x;
      push splatted
  | V128Load8Splat memarg | V128Load16Splat memarg | V128Load32Splat memarg | V128Load64Splat memarg =>
      ty ← sm_lift (type_of op);
      or_unreachable (translate_load dbg env memarg ir.Load (ir.lane_type ty)) (fun _ =>
        x ← pop1';
        splatted ← op1_to ir.Splat ty x;
        push splatted)
  | V128Load32Zero memarg | V128Load64Zero memarg =>
      ty ← sm_lift (type_of op);
      or_unreachable (translate_load dbg env memarg ir.Load (ir.lane_type ty)) (fun _ =>
        x ← pop1';
        as_vector ← op1_to ir.ScalarToVector ty x;
        push as_vector)
  | V128Load8Lane memarg lane | V128Load16Lane memarg lane | V128Load32Lane memarg lane
  | V128Load64Lane memarg lane =>
      ty ← sm_lift (type_of op);
      vector ← pop1_with_bitcast ty;
      or_unreachable (translate_load dbg env memarg ir.Load (ir.lane_type ty)) (fun _ =>
        replacement ← pop1';
        r ← ins1 (Op ir.Insertlane None [vector; replacement] [lane]);
        push r)
  | V128Store8Lane memarg lane | V128Store16Lane memarg lane | V128Store32Lane memarg lane
  | V128Store64Lane memarg lane =>
      ty ← sm_lift (type_of op);
      vector ← pop1_with_bitcast ty;
      r ← ins1 (Op ir.Extractlane None [vector] [lane]);
      _ ← push r;
      translate_store dbg env memarg ir.Store
  | _ => next
  end.

(** Lanes, shuffles. *)
Definition translate_simd_lane (op : WasmOperator) (next : M unit) : M unit :=
  match op with
  | I8x16ExtractLaneS lane | I16x8ExtractLaneS lane =>
      ty ← sm_lift (type_of op);
      vector ← pop1_with_bitcast ty;
      extracted ← ins1 (Op ir.Extractlane None [vector] [lane]);
      r ← op1_to ir.Sextend ir.I32 extracted;
      push r
  | I8x16ExtractLaneU lane | I16x8ExtractLaneU lane =>
      ty ← sm_lift (type_of op);
      vector ← pop1_with_bitcast ty;
      extracted ← ins1 (Op ir.Extractlane None [vector] [lane]);
      r ← op1_to ir.Uextend ir.I32 extracted;
      push r
  | I32x4ExtractLane lane | I64x2ExtractLane lane | F32x4ExtractLane lane | F64x2ExtractLane lane =>
      ty ← sm_lift (type_of op);
      vector ← pop1_with_bitcast ty;
      r ← ins1 (Op ir.Extractlane None [vector] [lane]);
      push r
  | I8x16ReplaceLane lane | I16x8ReplaceLane lane =>
      ty ← sm_lift (type_of op);
      '(vector, replacement) ← pop2';
      reduced ← op1_to ir.Ireduce (ir.lane_type ty) replacement;
      vector ← optionally_bitcast_vector vector ty;
      r ← ins1 (Op ir.Insertlane None [vector; reduced] [lane]);
      push r
  | I32x4ReplaceLane lane | I64x2ReplaceLane lane | F32x4ReplaceLane lane | F64x2ReplaceLane lane =>
      ty ← sm_lift (type_of op);
      '(vector, replacement) ← pop2';
      vector ← optionally_bitcast_vector vector ty;
      r ← ins1 (Op ir.Insertlane None [vector; replacement] [lane]);
      push r
  | I8x16Shuffle lanes =>
      '(a, b) ← pop2_with_bitcast ir.I8X16;
      shuffled ← ins1 (Op ir.Shuffle None [a; b] lanes);
      push shuffled
  | I8x16Swizzle => binary_cast ir.I8X16 ir.Swizzle
  | _ => next
  end.

(** Integer and bitwise arithmetic. *)
Definition translate_simd_int (op : WasmOperator) (next : M unit) : M unit :=
  match op with
  | I8x16Add | I16x8Add | I32x4Add | I64x2Add => ty ← sm_lift (type_of op); binary_cast ty ir.Iadd
  | I8x16AddSatS | I16x8AddSatS => ty ← sm_lift (type_of op); binary_cast ty ir.SaddSat
  | I8x16AddSatU | I16x8AddSatU => ty ← sm_lift (type_of op); binary_cast ty ir.UaddSat
  | I8x16Sub | I16x8Sub | I32x4Sub | I64x2Sub => ty ← sm_lift (type_of op); binary_cast ty ir.Isub
  | I8x16SubSatS | I16x8SubSatS => ty ← sm_lift (type_of op); binary_cast ty ir.SsubSat
  | I8x16SubSatU | I16x8SubSatU => ty ← sm_lift (type_of op); binary_cast ty ir.UsubSat
  | I8x16MinS | I16x8MinS | I32x4MinS => ty ← sm_lift (type_of op); binary_cast ty ir.Smin
  | I8x16MinU | I16x8MinU | I32x4MinU => ty ← sm_lift (type_of op); binary_cast ty ir.Umin
  | I8x16MaxS | I16x8MaxS | I32x4MaxS => ty ← sm_lift (type_of op); binary_cast ty ir.Smax
  | I8x16MaxU | I16x8MaxU | I32x4MaxU => ty ← sm_lift (type_of op); binary_cast ty ir.Umax
  | I8x16AvgrU | I16x8AvgrU => ty ← sm_lift (type_of op); binary_cast ty ir.AvgRound
  | I8x16Neg | I16x8Neg | I32x4Neg | I64x2Neg => ty ← sm_lift (type_of op); unary_cast ty ir.Ineg
  | I8x16Abs | I16x8Abs | I32x4Abs | I64x2Abs => ty ← sm_lift (type_of op); unary_cast ty ir.Iabs
  | I16x8Mul | I32x4Mul | I64x2Mul => ty ← sm_lift (type_of op); binary_cast ty ir.Imul
  | V128Or => ty ← sm_lift (type_of op); binary_cast ty ir.Bor
  | V128Xor => ty ← sm_lift (type_of op); binary_cast ty ir.Bxor
  | V128And => ty ← sm_lift (type_of op); binary_cast ty ir.Band
  | V128AndNot => ty ← sm_lift (type_of op); binary_cast ty ir.BandNot
  | V128Not => unary ir.Bnot
  | I8x16Shl | I16x8Shl | I32x4Shl | I64x2Shl =>
      ty ← sm_lift (type_of op);
      '(a, b) ← pop2';
      bitcast_a ← optionally_bitcast_vector a ty;
      r ← op2 ir.Ishl bitcast_a b;
      push r
  | I8x16ShrU | I16x8ShrU | I32x4ShrU | I64x2ShrU =>
      ty ← sm_lift (type_of op);
      '(a, b) ← pop2';
      bitcast_a ← optionally_bitcast_vector a ty;
      r ← op2 ir.Ushr bitcast_a b;
      push r
  | I8x16ShrS | I16x8ShrS | I32x4ShrS | I64x2ShrS =>
      ty ← sm_lift (type_of op);
      '(a, b) ← pop2';
      bitcast_a ← optionally_bitcast_vector a ty;
      r ← op2 ir.Sshr bitcast_a b;
      push r
  | V128Bitselect => '(a, b, c) ← pop3_with_bitcast ir.I8X16; r ← op3 ir.Bitselect c a b; push r
  | _ => next
  end.

(** Tests and comparisons. *)
Definition translate_simd_compare (op : WasmOperator) (next : M unit) : M unit :=
  match op with
  | V128AnyTrue =>
      ty ← sm_lift (type_of op);
      a ← pop1_with_bitcast ty;
      bool_result ← op1 ir.VanyTrue a;
      r ← op1_to ir.Uextend ir.I32 bool_result;
      push r
  | I8x16AllTrue | I16x8AllTrue | I32x4AllTrue | I64x2AllTrue =>
      ty ← sm_lift (type_of op);
      a ← pop1_with_bitcast ty;
      bool_result ← op1 ir.VallTrue a;
      r ← op1_to ir.Uextend ir.I32 bool_result;
      push r
  | I8x16Bitmask | I16x8Bitmask | I32x4Bitmask | I64x2Bitmask => ty ← sm_lift (type_of op); unary_cast_to ty ir.VhighBits ir.I32
  | I8x16Eq | I16x8Eq | I32x4Eq | I64x2Eq => ty ← sm_lift (type_of op); translate_vector_icmp IntCC.Equal ty
  | I8x16Ne | I16x8Ne | I32x4Ne | I64x2Ne => ty ← sm_lift (type_of op); translate_vector_icmp IntCC.NotEqual ty
  | I8x16GtS | I16x8GtS | I32x4GtS | I64x2GtS => ty ← sm_lift (type_of op); translate_vector_icmp IntCC.SignedGreaterThan ty
  | I8x16LtS | I16x8LtS | I32x4LtS | I64x2LtS => ty ← sm_lift (type_of op); translate_vector_icmp IntCC.SignedLessThan ty
  | I8x16GtU | I16x8GtU | I32x4GtU => ty ← sm_lift (type_of op); translate_vector_icmp IntCC.UnsignedGreaterThan ty
  | I8x16LtU | I16x8LtU | I32x4LtU => ty ← sm_lift (type_of op); translate_vector_icmp IntCC.UnsignedLessThan ty
  | I8x16GeS | I16x8GeS | I32x4GeS | I64x2GeS =>
      ty ← sm_lift (type_of op);
      translate_vector_icmp IntCC.SignedGreaterThanOrEqual ty
  | I8x16LeS | I16x8LeS | I32x4LeS | I64x2LeS => ty ← sm_lift (type_of op); translate_vector_icmp IntCC.SignedLessThanOrEqual ty
  | I8x16GeU | I16x8GeU | I32x4GeU => ty ← sm_lift (type_of op); translate_vector_icmp IntCC.UnsignedGreaterThanOrEqual ty
  | I8x16LeU | I16x8LeU | I32x4LeU => ty ← sm_lift (type_of op); translate_vector_icmp IntCC.UnsignedLessThanOrEqual ty
  | F32x4Eq | F64x2Eq => ty ← sm_lift (type_of op); translate_vector_fcmp FloatCC.Equal ty
  | F32x4Ne | F64x2Ne => ty ← sm_lift (type_of op); translate_vector_fcmp FloatCC.NotEqual ty
  | F32x4Lt | F64x2Lt => ty ← sm_lift (type_of op); translate_vector_fcmp FloatCC.LessThan ty
  | F32x4Gt | F64x2Gt => ty ← sm_lift (type_of op); translate_vector_fcmp FloatCC.GreaterThan ty
  | F32x4Le | F64x2Le => ty ← sm_lift (type_of op); translate_vector_fcmp FloatCC.LessThanOrEqual ty
  | F32x4Ge | F64x2Ge => ty ← sm_lift (type_of op); translate_vector_fcmp FloatCC.GreaterThanOrEqual ty
  | _ => next
  end.

(** Floating-point arithmetic and conversions. *)
Definition translate_simd_float (op : WasmOperator) (next : M unit) : M unit :=
  match op with
  | F32x4Add | F64x2Add => ty ← sm_lift (type_of op); binary_cast ty ir.Fadd
  | F32x4Sub | F64x2Sub => ty ← sm_lift (type_of op); binary_cast ty ir.Fsub
  | F32x4Mul | F64x2Mul => ty ← sm_lift (type_of op); binary_cast ty ir.Fmul
  | F32x4Div | F64x2Div => ty ← sm_lift (type_of op); binary_cast ty ir.Fdiv
  | F32x4Max | F64x2Max => ty ← sm_lift (type_of op); binary_cast ty ir.Fmax
  | F32x4Min | F64x2Min => ty ← sm_lift (type_of op); binary_cast ty ir.Fmin
  | F32x4PMax | F64x2PMax =>
      ty ← sm_lift (type_of op);
      '(a, b) ← pop2_with_bitcast ty;
      cmp ← ins1 (Fcmp FloatCC.LessThan a b);
      cmp ← optionally_bitcast_vector cmp ty;
      r ← op3 ir.Bitselect cmp b a;
      push r
  | F32x4PMin | F64x2PMin =>
      ty ← sm_lift (type_of op);
      '(a, b) ← pop2_with_bitcast ty;
      cmp ← ins1 (Fcmp FloatCC.LessThan b a);
      cmp ← optionally_bitcast_vector cmp ty;
      r ← op3 ir.Bitselect cmp b a;
      push r
  | F32x4Sqrt | F64x2Sqrt => ty ← sm_lift (type_of op); unary_cast ty ir.Sqrt
  | F32x4Neg | F64x2Neg => ty ← sm_lift (type_of op); unary_cast ty ir.Fneg
  | F32x4Abs | F64x2Abs => ty ← sm_lift (type_of op); unary_cast ty ir.Fabs
  | F32x4ConvertI32x4S => unary_cast_to ir.I32X4 ir.FcvtFromSint ir.F32X4
  | F32x4ConvertI32x4U => unary_cast_to ir.I32X4 ir.FcvtFromUint ir.F32X4
  | F64x2ConvertLowI32x4S =>
      a ← pop1_with_bitcast ir.I32X4;
      widened_a ← op1 ir.SwidenLow a;
      r ← op1_to ir.FcvtFromSint ir.F64X2 widened_a;
      push r
  | F64x2ConvertLowI32x4U =>
      a ← pop1_with_bitcast ir.I32X4;
      widened_a ← op1 ir.UwidenLow a;
      r ← op1_to ir.FcvtFromUint ir.F64X2 widened_a;
      push r
  | F64x2PromoteLowF32x4 => unary_cast ir.F32X4 ir.FvpromoteLow
  | F32x4DemoteF64x2Zero => unary_cast ir.F64X2 ir.Fvdemote
  | I32x4TruncSatF32x4S => unary_cast_to ir.F32X4 ir.FcvtToSintSat ir.I32X4
  | I32x4TruncSatF64x2SZero =>
      a ← pop1_with_bitcast ir.F64X2;
      converted_a ← op1_to ir.FcvtToSintSat ir.I64X2 a;
      zero ← ins1 (Op ir.Vconst (Some ir.I64X2) [] (replicate 16 0));
      r ← op2 ir.Snarrow converted_a zero;
      push r
  | I32x4RelaxedTruncF32x4U | I32x4TruncSatF32x4U => unary_cast_to ir.F32X4 ir.FcvtToUintSat ir.I32X4
  | I32x4RelaxedTruncF64x2UZero | I32x4TruncSatF64x2UZero =>
      a ← pop1_with_bitcast ir.F64X2;
      converted_a ← op1_to ir.FcvtToUintSat ir.I64X2 a;
      zero ← ins1 (Op ir.Vconst (Some ir.I64X2) [] (replicate 16 0));
      r ← op2 ir.Uunarrow converted_a zero;
      push r
  | _ => next
  end.

(** Narrowing and widening. *)
Definition translate_simd_narrow (op : WasmOperator) (next : M unit) : M unit :=
  match op with
  | I8x16NarrowI16x8S => binary_cast ir.I16X8 ir.Snarrow
  | I16x8NarrowI32x4S => binary_cast ir.I32X4 ir.Snarrow
  | I8x16NarrowI16x8U => binary_cast ir.I16X8 ir.Unarrow
  | I16x8NarrowI32x4U => binary_cast ir.I32X4 ir.Unarrow
  | I16x8ExtendLowI8x16S => unary_cast ir.I8X16 ir.SwidenLow
  | I16x8ExtendHighI8x16S => unary_cast ir.I8X16 ir.SwidenHigh
  | I16x8ExtendLowI8x16U => unary_cast ir.I8X16 ir.UwidenLow
  | I16x8ExtendHighI8x16U => unary_cast ir.I8X16 ir.UwidenHigh
  | I32x4ExtendLowI16x8S => unary_cast ir.I16X8 ir.SwidenLow
  | I32x4ExtendHighI16x8S => unary_cast ir.I16X8 ir.SwidenHigh
  | I32x4ExtendLowI16x8U => unary_cast ir.I16X8 ir.UwidenLow
  | I32x4ExtendHighI16x8U => unary_cast ir.I16X8 ir.UwidenHigh
  | I64x2ExtendLowI32x4S => unary_cast ir.I32X4 ir.SwidenLow
  | I64x2ExtendHighI32x4S => unary_cast ir.I32X4 ir.SwidenHigh
  | I64x2ExtendLowI32x4U => unary_cast ir.I32X4 ir.UwidenLow
  | I64x2ExtendHighI32x4U => unary_cast ir.I32X4 ir.UwidenHigh
  | _ => next
  end.

(** Pairwise addition, rounding, extended multiplication. *)
Definition translate_simd_ext (op : WasmOperator) (next : M unit) : M unit :=
  match op with
  | I16x8ExtAddPairwiseI8x16S =>
      a ← pop1_with_bitcast ir.I8X16;
      widen_low ← op1 ir.SwidenLow a;
      widen_high ← op1 ir.SwidenHigh a;
      r ← op2 ir.IaddPairwise widen_low widen_high;
      push r
  | I32x4ExtAddPairwiseI16x8S =>
      a ← pop1_with_bitcast ir.I16X8;
      widen_low ← op1 ir.SwidenLow a;
      widen_high ← op1 ir.SwidenHigh a;
      r ← op2 ir.IaddPairwise widen_low widen_high;
      push r
  | I16x8ExtAddPairwiseI8x16U =>
      a ← pop1_with_bitcast ir.I8X16;
      widen_low ← op1 ir.UwidenLow a;
      widen_high ← op1 ir.UwidenHigh a;
      r ← op2 ir.IaddPairwise widen_low widen_high;
      push r
  | I32x4ExtAddPairwiseI16x8U =>
      a ← pop1_with_bitcast ir.I16X8;
      widen_low ← op1 ir.UwidenLow a;
      widen_high ← op1 ir.UwidenHigh a;
      r ← op2 ir.IaddPairwise widen_low widen_high;
      push r
  | F32x4Ceil | F64x2Ceil => ty ← sm_lift (type_of op); unary_cast ty ir.Ceil
  | F32x4Floor | F64x2Floor => ty ← sm_lift (type_of op); unary_cast ty ir.Floor
  | F32x4Trunc | F64x2Trunc => ty ← sm_lift (type_of op); unary_cast ty ir.Trunc
  | F32x4Nearest | F64x2Nearest => ty ← sm_lift (type_of op); unary_cast ty ir.Nearest
  | I32x4DotI16x8S =>
      '(a, b) ← pop2_with_bitcast ir.I16X8;
      alow ← op1 ir.SwidenLow a;
      blow ← op1 ir.SwidenLow b;
      low ← op2 ir.Imul alow blow;
      ahigh ← op1 ir.SwidenHigh a;
      bhigh ← op1 ir.SwidenHigh b;
      high ← op2 ir.Imul ahigh bhigh;
      r ← op2 ir.IaddPairwise low high;
      push r
  | I8x16Popcnt => ty ← sm_lift (type_of op); unary_cast ty ir.Popcnt
  | I16x8Q15MulrSatS => binary_cast ir.I16X8 ir.SqmulRoundSat
  | I16x8ExtMulLowI8x16S =>
      '(a, b) ← pop2_with_bitcast ir.I8X16;
      a_low ← op1 ir.SwidenLow a;
      b_low ← op1 ir.SwidenLow b;
      r ← op2 ir.Imul a_low b_low;
      push r
  | I16x8ExtMulHighI8x16S =>
      '(a, b) ← pop2_with_bitcast ir.I8X16;
      a_high ← op1 ir.SwidenHigh a;
      b_high ← op1 ir.SwidenHigh b;
      r ← op2 ir.Imul a_high b_high;
      push r
  | I16x8ExtMulLowI8x16U =>
      '(a, b) ← pop2_with_bitcast ir.I8X16;
      a_low ← op1 ir.UwidenLow a;
      b_low ← op1 ir.UwidenLow b;
      r ← op2 ir.Imul a_low b_low;
      push r
  | I16x8ExtMulHighI8x16U =>
      '(a, b) ← pop2_with_bitcast ir.I8X16;
      a_high ← op1 ir.UwidenHigh a;
      b_high ← op1 ir.UwidenHigh b;
      r ← op2 ir.Imul a_high b_high;
      push r
  | I32x4ExtMulLowI16x8S =>
      '(a, b) ← pop2_with_bitcast ir.I16X8;
      a_low ← op1 ir.SwidenLow a;
      b_low ← op1 ir.SwidenLow b;
      r ← op2 ir.Imul a_low b_low;
      push r
  | I32x4ExtMulHighI16x8S =>
      '(a, b) ← pop2_with_bitcast ir.I16X8;
      a_high ← op1 ir.SwidenHigh a;
      b_high ← op1 ir.SwidenHigh b;
      r ← op2 ir.Imul a_high b_high;
      push r
  | I32x4ExtMulLowI16x8U =>
      '(a, b) ← pop2_with_bitcast ir.I16X8;
      a_low ← op1 ir.UwidenLow a;
      b_low ← op1 ir.UwidenLow b;
      r ← op2 ir.Imul a_low b_low;
      push r
  | I32x4ExtMulHighI16x8U =>
      '(a, b) ← pop2_with_bitcast ir.I16X8;
      a_high ← op1 ir.UwidenHigh a;
      b_high ← op1 ir.UwidenHigh b;
      r ← op2 ir.Imul a_high b_high;
      push r
  | I64x2ExtMulLowI32x4S =>
      '(a, b) ← pop2_with_bitcast ir.I32X4;
      a_low ← op1 ir.SwidenLow a;
      b_low ← op1 ir.SwidenLow b;
      r ← op2 ir.Imul a_low b_low;
      push r
  | I64x2ExtMulHighI32x4S =>
      '(a, b) ← pop2_with_bitcast ir.I32X4;
      a_high ← op1 ir.SwidenHigh a;
      b_high ← op1 ir.SwidenHigh b;
      r ← op2 ir.Imul a_high b_high;
      push r
  | I64x2ExtMulLowI32x4U =>
      '(a, b) ← pop2_with_bitcast ir.I32X4;
      a_low ← op1 ir.UwidenLow a;
      b_low ← op1 ir.UwidenLow b;
      r ← op2 ir.Imul a_low b_low;
      push r
  | I64x2ExtMulHighI32x4U =>
      '(a, b) ← pop2_with_bitcast ir.I32X4;
      a_high ← op1 ir.UwidenHigh a;
      b_high ← op1 ir.UwidenHigh b;
      r ← op2 ir.Imul a_high b_high;
      push r
  | _ => next
  end.

(** Relaxed operators: deterministic lowerings, or what the target has. *)
Definition deterministic_or (native : bool) : bool := relaxed_simd_deterministic env || negb native.
Definition dot_i8x16 (a b : Value) : M Value :=
  if deterministic_or (use_x86_pmaddubsw_for_dot env) then
    alo ← op1 ir.SwidenLow a;
    blo ← op1 ir.SwidenLow b;
    lo ← op2 ir.Imul alo blo;
    ahi ← op1 ir.SwidenHigh a;
    bhi ← op1 ir.SwidenHigh b;
    hi ← op2 ir.Imul ahi bhi;
    op2 ir.IaddPairwise lo hi
  else op2 ir.X86Pmaddubsw a b.
Definition multiply_add (a b c : Value) : M Value :=
  if relaxed_simd_deterministic env || has_native_fma env then op3 ir.Fma a b c
  else mul ← op2 ir.Fmul a b; op2 ir.Fadd mul c.

Definition translate_relaxed_simd (op : WasmOperator) (next : M unit) : M unit :=
  match op with
  | F32x4RelaxedMax | F64x2RelaxedMax =>
      ty ← sm_lift (type_of op);
      '(a, b) ← pop2_with_bitcast ty;
      r ← (if deterministic_or (is_x86 env) then op2 ir.Fmax a b
           else cmp ← ins1 (Fcmp FloatCC.LessThan a b);
                cmp ← optionally_bitcast_vector cmp ty;
                op3 ir.Bitselect cmp b a);
      push r
  | F32x4RelaxedMin | F64x2RelaxedMin =>
      ty ← sm_lift (type_of op);
      '(a, b) ← pop2_with_bitcast ty;
      r ← (if deterministic_or (is_x86 env) then op2 ir.Fmin a b
           else cmp ← ins1 (Fcmp FloatCC.LessThan b a);
                cmp ← optionally_bitcast_vector cmp ty;
                op3 ir.Bitselect cmp b a);
      push r
  | I8x16RelaxedSwizzle =>
      '(a, b) ← pop2_with_bitcast ir.I8X16;
      r ← (if deterministic_or (use_x86_pshufb_for_relaxed_swizzle env) then op2 ir.Swizzle a b else op2 ir.X86Pshufb a b);
      push r
  | F32x4RelaxedMadd | F64x2RelaxedMadd =>
      ty ← sm_lift (type_of op);
      '(a, b, c) ← pop3_with_bitcast ty;
      r ← multiply_add a b c;
      push r
  | F32x4RelaxedNmadd | F64x2RelaxedNmadd =>
      ty ← sm_lift (type_of op);
      '(a, b, c) ← pop3_with_bitcast ty;
      a ← op1 ir.Fneg a;
      r ← multiply_add a b c;
      push r
  | I8x16RelaxedLaneselect | I16x8RelaxedLaneselect | I32x4RelaxedLaneselect | I64x2RelaxedLaneselect =>
      ty ← sm_lift (type_of op);
      '(a, b, c) ← pop3_with_bitcast ty;
      r ← (if deterministic_or (use_x86_blendv_for_relaxed_laneselect env ty) then op3 ir.Bitselect c a b
           else op3 ir.X86Blendv c a b);
      push r
  | I32x4RelaxedTruncF32x4S =>
      a ← pop1_with_bitcast ir.F32X4;
      r ← (if deterministic_or (is_x86 env) then op1_to ir.FcvtToSintSat ir.I32X4 a else op1_to ir.X86Cvtt2dq ir.I32X4 a);
      push r
  | I32x4RelaxedTruncF64x2SZero =>
      a ← pop1_with_bitcast ir.F64X2;
      converted_a ← (if deterministic_or (is_x86 env) then op1_to ir.FcvtToSintSat ir.I64X2 a
                     else op1_to ir.X86Cvtt2dq ir.I64X2 a);
      zero ← ins1 (Op ir.Vconst (Some ir.I64X2) [] (replicate 16 0));
      r ← op2 ir.Snarrow converted_a zero;
      push r
  | I16x8RelaxedQ15mulrS =>
      '(a, b) ← pop2_with_bitcast ir.I16X8;
      r ← (if deterministic_or (use_x86_pmulhrsw_for_relaxed_q15mul env) then op2 ir.SqmulRoundSat a b
           else op2 ir.X86Pmulhrsw a b);
      push r
  | I16x8RelaxedDotI8x16I7x16S =>
      '(a, b) ← pop2_with_bitcast ir.I8X16;
      r ← dot_i8x16 a b;
      push r
  | I32x4RelaxedDotI8x16I7x16AddS =>
      c ← pop1_with_bitcast ir.I32X4;
      '(a, b) ← pop2_with_bitcast ir.I8X16;
      dot ← dot_i8x16 a b;
      dotlo ← op1 ir.SwidenLow dot;
      dothi ← op1 ir.SwidenHigh dot;
      dot32 ← op2 ir.IaddPairwise dotlo dothi;
      r ← op2 ir.Iadd dot32 c;
      push r
  | _ => next
  end.

(** Typed function references. *)
Definition translate_function_reference (op : WasmOperator) (next : M unit) : M unit :=
  match op with
  | CallRef type_index => translate_call_ref dbg env validator type_index
  | RefAsNonNull =>
      r ← pop1';
      is_null ← translate_ref_is_null r;
      _ ← insi (Trapnz is_null TRAP_NULL_REFERENCE);
      push r
  | BrOnNull relative_depth => translate_br_on_null dbg relative_depth
  | BrOnNonNull relative_depth => translate_br_on_non_null dbg relative_depth
  | ReturnCallRef type_index => translate_return_call_ref dbg env type_index
  | _ => next
  end.

(** Garbage collection and the proposals that are not supported: 31-bit
    references are not implemented, the rest is an error. *)
Definition translate_unsupported (op : WasmOperator) : M unit :=
  match op with
  | RefI31 => val ← pop1'; r ← translate_ref_i31 val; push r
  | I31GetS => i31ref ← pop1'; r ← translate_i31_get_s i31ref; push r
  | I31GetU => i31ref ← pop1'; r ← translate_i31_get_u i31ref; push r
  | StructNew | StructNewDefault | StructGet | StructGetS | StructGetU | StructSet | ArrayNew | ArrayNewDefault
  | ArrayNewFixed | ArrayNewData | ArrayNewElem | ArrayGet | ArrayGetS | ArrayGetU | ArraySet | ArrayLen
  | ArrayFill | ArrayCopy | ArrayInitData | ArrayInitElem | RefTestNonNull | RefTestNullable | RefCastNonNull
  | RefCastNullable | BrOnCast | BrOnCastFail | AnyConvertExtern | ExternConvertAny | RefEq | MemoryDiscard
  | GlobalAtomicGet | GlobalAtomicSet | GlobalAtomicRmwAdd | GlobalAtomicRmwSub | GlobalAtomicRmwAnd
  | GlobalAtomicRmwOr | GlobalAtomicRmwXor | GlobalAtomicRmwXchg | GlobalAtomicRmwCmpxchg | TableAtomicGet
  | TableAtomicSet | TableAtomicRmwXchg | TableAtomicRmwCmpxchg | StructAtomicGet | StructAtomicGetS
  | StructAtomicGetU | StructAtomicSet | StructAtomicRmwAdd | StructAtomicRmwSub | StructAtomicRmwAnd
  | StructAtomicRmwOr | StructAtomicRmwXor | StructAtomicRmwXchg | StructAtomicRmwCmpxchg | ArrayAtomicGet
  | ArrayAtomicGetS | ArrayAtomicGetU | ArrayAtomicSet | ArrayAtomicRmwAdd | ArrayAtomicRmwSub | ArrayAtomicRmwAnd
  | ArrayAtomicRmwOr | ArrayAtomicRmwXor | ArrayAtomicRmwXchg | ArrayAtomicRmwCmpxchg | RefI31Shared | TryTable
  | Throw | ThrowRef | Try | Catch | Rethrow | Delegate | CatchAll | ContNew | ContBind | Suspend | Resume
  | ResumeThrow | Switch | I64Add128 | I64Sub128 | I64MulWideS => sm_err Unsupported
  | _ => sm_lift Panic
  end.

(** Control flow, calls and variables. *)
Definition translate_control (op : WasmOperator) (next : M unit) : M unit :=
  match op with
  | Unreachable => _ ← insi (TrapOp TRAP_UNREACHABLE); upd (set_reachable false)
  | Nop => mret tt
  | Drop => _ ← pop1'; mret tt
  | Select => translate_select
  | Block blockty => translate_block dbg env validator blockty
  | Loop blockty => translate_loop dbg env validator blockty
  | If blockty => translate_if dbg env validator blockty
  | Else => translate_else dbg env validator
  | End => translate_end dbg
  | Br relative_depth => translate_br dbg relative_depth
  | BrIf relative_depth => translate_br_if dbg relative_depth
  | BrTable targets default => translate_br_table dbg targets default
  | Return => translate_return dbg
  | Call function_index => translate_call dbg env function_index
  | CallIndirect type_index table_index => translate_call_indirect dbg env type_index table_index
  | ReturnCall function_index => translate_return_call dbg env function_index
  | ReturnCallIndirect type_index table_index => translate_return_call_indirect dbg env type_index table_index
  | LocalGet local_index => translate_local_get local_index
  | LocalSet local_index => translate_local_set local_index
  | LocalTee local_index => translate_local_tee local_index
  | GlobalGet global_index => translate_global_get dbg env global_index
  | GlobalSet global_index => translate_global_set dbg env global_index
  | _ => next
  end.

(** ** [translate_operator] *)
Definition translate_arithmetic (op : WasmOperator) (next : M unit) : M unit :=
  translate_const op (translate_integer op (translate_float op (translate_comparison op (translate_load_op op
    (translate_store_op op (translate_extension op next)))))).
Definition translate_simd (op : WasmOperator) (next : M unit) : M unit :=
  translate_simd_load op (translate_simd_splat op (translate_simd_lane op (translate_simd_int op (translate_simd_compare op
    (translate_simd_float op (translate_simd_narrow op (translate_simd_ext op (translate_relaxed_simd op next)))))))).

Definition translate_reachable_operator (op : WasmOperator) : M unit :=
  translate_control op (translate_arithmetic op (translate_reference op (translate_bulk_memory op (translate_atomic_sync op
    (translate_atomic_access op (translate_atomic_update op (translate_simd op (translate_function_reference op
      (translate_unsupported op))))))))).

Definition translate_operator (op : WasmOperator) : M unit :=
  r ← get_st reachable;
  if negb r then translate_unreachable_operator dbg env validator op
  else
    u ← query is_unreachable;
    _ ← sm_lift (debug_assert dbg (negb u));
    translate_reachable_operator op.
End Operators.
