(* ===== verification/FuncTranslator.v ===== *)
(** * Translating function bodies ([src/src/cranelift/func_translator.rs])

    The body is read declaration by declaration and operator by operator; each
    operator is first translated and then handed to the validator.  Reader and
    validator are wasmparser's: what the reader yields is a list of results, the
    validator a record of operations on its own state. *)
From stdpp Require Import base list gmap option numbers.
From S2P Require Import Prelude Types Trap Module ModuleTypes VMOffsets HeapAccess Clif FuncState WasmOp FuncEnv CodeTranslator CodeTranslatorCtl CodeTranslatorOps.
Local Open Scope Z_scope.

(** [FuncValidator] with its state. *)
Record ValidatorOps (V : Type) : Type := mkValidatorOps {
  define_locals : Z -> wasmparser.ValType -> V -> outcome Error V;
  validate_op : Operator.WasmOperator -> V -> outcome Error V;
  validate_finish : V -> outcome Error V;
  validator_view : V -> FuncValidator }.
Arguments define_locals {V}.
Arguments validate_op {V}.
Arguments validate_finish {V}.
Arguments validator_view {V}.

(** [FunctionBody]: what its reader yields; an [Err] is a malformed item. *)
Record FunctionBody : Type := mkBody {
  body_locals : outcome Error (list (outcome Error (Z * wasmparser.ValType)));
  body_ops : list (outcome Error Operator.WasmOperator) }.

Section Body.
Context {B : Type} `{FunctionBuilder B} `{TrapCodes} (dbg : bool) (env : TranslationEnvironment).
Context {V : Type} (vops : ValidatorOps V).
Abbreviation M := (SM (TState B) Error).

(** One local per wasm parameter, in order; the number of locals. *)
Fixpoint declare_parameters (entry_block : Block) (params : list ir.AbiParam) (i : nat) (next_local : Z) : M Z :=
  match params with
  | [] => mret next_local
  | param_type :: params =>
      next_local ← (if is_wasm_parameter i then
                      _ ← onb (declare_var next_local (ir.value_type param_type));
                      ps ← query (fun b => block_params b entry_block);
                      param_value ← sm_lift (unwrap (ps !! i));
                      _ ← onb (def_var next_local param_value);
                      sm_lift (add 64 next_local 1)
                    else mret next_local);
      declare_parameters entry_block params (S i) next_local
  end.
Definition declare_wasm_parameters (entry_block : Block) : M Z :=
  sig ← query func_signature;
  declare_parameters entry_block (ir.params sig) 0 0.

(** Locals start as zero or null; a non-nullable reference has no initial value. *)
Definition local_init (wasm_type : wasmparser.ValType) : M (ir.Type_ * option Value) :=
  match wasm_type with
  | wasmparser.I32 => v ← op0 ir.Iconst ir.I32 0; mret (ir.I32, Some v)
  | wasmparser.I64 => v ← op0 ir.Iconst ir.I64 0; mret (ir.I64, Some v)
  | wasmparser.F32 => v ← ins1 (Op ir.F32const None [] [0]); mret (ir.F32, Some v)
  | wasmparser.F64 => v ← ins1 (Op ir.F64const None [] [0]); mret (ir.F64, Some v)
  | wasmparser.V128 => v ← ins1 (Op ir.Vconst (Some ir.I8X16) [] (replicate 16 0)); mret (ir.I8X16, Some v)
  | wasmparser.Ref rt =>
      hty ← sm_lift (convert_heap_type_ env (wasmparser.heap_type rt));
      t ← sm_lift (env_reference_type hty);
      init ← (if wasmparser.is_nullable rt then v ← translate_ref_null hty; mret (Some v) else mret None);
      mret (t.1, init)
  end.
Fixpoint declare_count (count : nat) (ty : ir.Type_) (init : option Value) (next_local : Z) : M Z :=
  match count with
  | O => mret next_local
  | S count =>
      _ ← onb (declare_var next_local ty);
      _ ← match init with Some v => onb (def_var next_local v) | None => mret tt end;
      next_local ← sm_lift (add 64 next_local 1);
      declare_count count ty init next_local
  end.
Definition declare_locals (count : Z) (wasm_type : wasmparser.ValType) (next_local : Z) : M Z :=
  t ← local_init wasm_type;
  declare_count (Z.to_nat count) t.1 t.2 next_local.

(** The validator's state is threaded beside the translation. *)
Abbreviation MV := (SM (V * TState B) Error).
Definition translating {A} (m : M A) : MV A := fun s => let r := m s.2 in (r.1, (s.1, r.2)).
Definition validating (f : V -> outcome Error V) : MV unit := fun s =>
  match f s.1 with
  | Ok v => (Ok tt, (v, s.2))
  | Err e => (Err e, s)
  | Panic => (Panic, s)
  end.
Definition view : MV FuncValidator := fun s => (Ok (validator_view vops s.1), s).

Fixpoint local_decls (decls : list (outcome Error (Z * wasmparser.ValType))) (next_local : Z) : MV unit :=
  match decls with
  | [] => mret tt
  | d :: decls =>
      d ← sm_lift d;
      _ ← validating (define_locals vops d.1 d.2);
      next_local ← translating (declare_locals d.1 d.2 next_local);
      local_decls decls next_local
  end.
Definition translate_local_decls (body : FunctionBody) (num_params : Z) : MV unit :=
  decls ← sm_lift (body_locals body);
  local_decls decls num_params.

Fixpoint translate_operators (ops : list (outcome Error Operator.WasmOperator)) : MV unit :=
  match ops with
  | [] => mret tt
  | op :: ops =>
      op ← sm_lift op;
      v ← view;
      _ ← translating (translate_operator dbg env v op);
      _ ← validating (validate_op vops op);
      translate_operators ops
  end.

(** A reachable end of the function returns what is on the stack. *)
Definition emit_return : M unit :=
  r ← get_st reachable;
  u ← query is_unreachable;
  _ ← (if r && negb u then
         args ← get_st stack;
         args ← bitcast_wasm_returns args;
         _ ← upd (set_stack args);
         _ ← insi (Return_ args);
         mret tt
       else mret tt);
  upd (set_stack []).

Definition translate_function_body (body : FunctionBody) : MV unit :=
  n ← translating (get_st (fun s => pm_len (control_stack s)));
  _ ← sm_lift (debug_assert dbg (n =? 1));
  _ ← translate_operators (body_ops body);
  _ ← validating (validate_finish vops);
  translating emit_return.

Definition translate_body (body : FunctionBody) : MV unit :=
  nb ← translating (query dfg_num_blocks);
  _ ← sm_lift (debug_assert dbg (nb =? 0));
  ni ← translating (query dfg_num_insts);
  _ ← sm_lift (debug_assert dbg (ni =? 0));
  entry_block ← translating (onb create_block);
  _ ← translating (onb (append_block_params_for_function_params entry_block));
  _ ← translating (onb (switch_to_block entry_block));
  _ ← translating (onb (seal_block entry_block));
  _ ← translating (onb ensure_inserted_block);
  num_params ← translating (declare_wasm_parameters entry_block);
  exit_block ← translating (onb create_block);
  _ ← translating (onb (append_block_params_for_function_returns exit_block));
  sig ← translating (query func_signature);
  _ ← translating (mod_st (initialize dbg sig exit_block));
  _ ← translate_local_decls body num_params;
  _ ← translate_function_body body;
  translating (onb finalize).
End Body.
