(* ===== verification/Compiler.v ===== *)
(** * The compiler ([src/src/cranelift/compiler.rs], the constructor of
      [src/src/cranelift/env.rs], [src/src/cranelift/builtins.rs])

    Functions and the trampolines between the host's array calling convention and
    wasm's are built with Cranelift's function builder and handed to its code
    generator.  The contexts that hold translator and builder are kept in a pool
    and used again.

    The code generator and the empty function that building starts with are
    parameters. *)
From stdpp Require Import base list gmap option numbers.
From S2P Require Import Prelude Types Trap Module ModuleTypes VMOffsets VMVal Mmap RtMemory VMHeap BTree Code Instance HeapAccess Clif FuncState WasmOp FuncEnv CodeTranslator CodeTranslatorCtl CodeTranslatorOps FuncTranslator TrapHandling.
Local Open Scope Z_scope.

(** ** The target *)
Record TargetIsa : Type := mkIsa {
  isa_pointer_bytes : Z;
  isa_page_size_align_log2 : Z;
  isa_preferred_alignment : Z;
  isa_enable_pcc : bool;
  isa_has_native_fma : bool;
  isa_is_x86 : bool;
  isa_x86_blendv : ir.Type_ -> bool;
  isa_x86_pshufb : bool;
  isa_x86_pmulhrsw : bool;
  isa_x86_pmaddubsw : bool }.
(** [TranslationEnvironment::new]. *)
Definition env_new {E} (isa : TargetIsa) (module : TranslatedModule) (types : ModuleTypes) : outcome E TranslationEnvironment :=
  vmoffsets ← for_module (isa_pointer_bytes isa) module;
  Ok (mkEnv module types vmoffsets (mkTargetEnv true (isa_page_size_align_log2 isa)) true (isa_enable_pcc isa) false
        (isa_has_native_fma isa) (isa_is_x86 isa) (isa_x86_blendv isa) (isa_x86_pshufb isa) (isa_x86_pmulhrsw isa) (isa_x86_pmaddubsw isa)).

(** ** Code of trampolines *)
Section Trampolines.
Context {B : Type} `{FunctionBuilder B} `{TrapCodes} (dbg : bool) (offsets : StaticVMOffsets).
Abbreviation M := (SM (TState B) Error).

(** [FunctionCompiler::builder]. *)
Definition builder : M Block :=
  block0 ← onb create_block;
  _ ← onb (append_block_params_for_function_params block0);
  _ ← onb (switch_to_block block0);
  _ ← onb (seal_block block0);
  mret block0.

Definition declare_and_call (signature : ir.Signature) (func_index : Z) (args : list Value) : M Inst :=
  signature ← onb (import_signature signature);
  callee ← onb (import_function (ir.mkExtFunc NS_WASM_FUNC func_index signature true));
  insi (CallOp callee args).

Definition debug_assert_enough_capacity_for_length (length : Z) (capacity : Value) : M unit :=
  if dbg then
    enough_capacity ← ins1 (IcmpImm IntCC.UnsignedGreaterThanOrEqual capacity length);
    _ ← insi (Trapz enough_capacity TRAP_INTERNAL_ASSERT);
    mret tt
  else mret tt.
Definition debug_assert_vmctx_kind (vmctx : Value) (expected_vmctx_magic : Z) : M unit :=
  if dbg then
    magic ← ins1 (LoadOp ir.Load ir.I32 (ir.with_little ir.trusted) vmctx 0);
    is_expected_vmctx ← ins1 (IcmpImm IntCC.Equal magic expected_vmctx_magic);
    _ ← insi (Trapz is_expected_vmctx TRAP_INTERNAL_ASSERT);
    mret tt
  else mret tt.

(** [i32::try_from(i.wrapping_mul(value_size))]. *)
Definition value_size : Z := 16.
Definition slot_offset {E} (i : Z) : outcome E Z := unwrap (let o := wrap 64 (i * value_size) in if o <? 2 ^ 31 then Some o else None).
Definition array_flags : ir.MemFlags := ir.with_little (ir.with_notrap ir.flags_new).

Fixpoint load_values (i : Z) (types : list WasmValType) (values_vec_ptr : Value) : M (list Value) :=
  match types with
  | [] => mret []
  | ty :: types =>
      ir_ty ← sm_lift (value_type ty);
      o ← sm_lift (slot_offset i);
      val ← ins1 (LoadOp ir.Load ir_ty array_flags values_vec_ptr o);
      rest ← load_values (i + 1) types values_vec_ptr;
      mret (val :: rest)
  end.
Definition load_values_from_array (types : list WasmValType) (values_vec_ptr values_vec_capacity : Value) : M (list Value) :=
  _ ← debug_assert_enough_capacity_for_length (pm_len types) values_vec_capacity;
  load_values 0 types values_vec_ptr.

Fixpoint store_values (i : Z) (values : list Value) (values_vec_ptr : Value) : M unit :=
  match values with
  | [] => mret tt
  | val :: values =>
      o ← sm_lift (slot_offset i);
      _ ← insi (StoreOp ir.Store array_flags val values_vec_ptr o);
      store_values (i + 1) values values_vec_ptr
  end.
Definition store_values_to_array (types : list WasmValType) (values : list Value) (values_vec_ptr values_vec_capacity : Value) : M unit :=
  _ ← sm_lift (debug_assert dbg (pm_len types =? pm_len values));
  _ ← debug_assert_enough_capacity_for_length (pm_len types) values_vec_capacity;
  store_values 0 values values_vec_ptr.

(** The body of [compile_array_to_wasm_trampoline]. *)
Definition array_to_wasm_trampoline_body (func_ty : WasmFuncType) (wasm_call_sig : ir.Signature) (index : Z) : M unit :=
  block0 ← builder;
  params ← query (fun b => block_params b block0);
  vmctx ← sm_lift (unwrap (params !! 0%nat));
  caller_vmctx ← sm_lift (unwrap (params !! 1%nat));
  values_vec_ptr ← sm_lift (unwrap (params !! 2%nat));
  values_vec_len ← sm_lift (unwrap (params !! 3%nat));
  args ← load_values_from_array (fn_params func_ty) values_vec_ptr values_vec_len;
  let args := vmctx :: caller_vmctx :: args in
  _ ← debug_assert_vmctx_kind vmctx VMCONTEXT_MAGIC;
  fp ← ins1 (Op ir.GetFramePointer (Some pointer_type) [] []);
  o ← sm_lift (vmctx_last_wasm_entry_fp offsets);
  _ ← insi (StoreOp ir.Store ir.trusted fp vmctx o);
  call ← declare_and_call wasm_call_sig index args;
  results ← query (fun b => inst_results b call);
  _ ← store_values_to_array (fn_results func_ty) results values_vec_ptr values_vec_len;
  _ ← insi (Return_ []);
  onb finalize.

Definition save_last_wasm_exit_fp_and_pc (vmctx : Value) : M unit :=
  trampoline_fp ← ins1 (Op ir.GetFramePointer (Some pointer_type) [] []);
  wasm_fp ← ins1 (LoadOp ir.Load pointer_type ir.trusted trampoline_fp NEXT_OLDER_FP_FROM_FP_OFFSET);
  o ← sm_lift (vmctx_last_wasm_exit_fp offsets);
  _ ← insi (StoreOp ir.Store ir.trusted wasm_fp vmctx o);
  wasm_pc ← ins1 (Op ir.GetReturnAddress (Some pointer_type) [] []);
  o ← sm_lift (vmctx_last_wasm_exit_pc offsets);
  _ ← insi (StoreOp ir.Store ir.trusted wasm_pc vmctx o);
  mret tt.

(** The body of [compile_wasm_to_builtin]. *)
Definition wasm_to_builtin_body (sig : ir.Signature) (index : Z) : M unit :=
  block0 ← builder;
  params ← query (fun b => block_params b block0);
  vmctx ← sm_lift (unwrap (params !! 0%nat));
  _ ← debug_assert_vmctx_kind vmctx VMCONTEXT_MAGIC;
  _ ← save_last_wasm_exit_fp_and_pc vmctx;
  let mem_flags := ir.with_readonly ir.trusted in
  o ← sm_lift (vmctx_builtin_functions offsets);
  array_addr ← ins1 (LoadOp ir.Load pointer_type mem_flags vmctx o);
  func_offset ← sm_lift (unwrap (let o := wrap 32 (index * ir.bytes pointer_type) in if o <? 2 ^ 31 then Some o else None));
  func_addr ← ins1 (LoadOp ir.Load pointer_type mem_flags array_addr func_offset);
  block_params ← query (fun b => block_params b block0);
  sig ← onb (import_signature sig);
  call ← insi (CallIndirectOp sig func_addr block_params);
  results ← query (fun b => inst_results b call);
  _ ← insi (Return_ results);
  onb finalize.

(** The body of [compile_wasm_to_array_trampoline]: not finished in the source. *)
Definition allocate_stack_array_and_spill_args (ty : WasmFuncType) (args : list Value) : M (Value * Z) :=
  let values_vec_len := Z.max (pm_len (fn_params ty)) (pm_len (fn_results ty)) in
  values_vec_byte_size ← sm_lift (unwrap (try_from 32 (wrap 64 (value_size * values_vec_len))));
  values_vec_len ← sm_lift (unwrap (try_from 32 values_vec_len));
  values_vec_ptr ← ins1 (Op ir.StackAddr (Some pointer_type) [] [values_vec_byte_size; 4; 0]);
  len ← op0 ir.Iconst ir.I32 values_vec_len;
  _ ← store_values_to_array (fn_params ty) args values_vec_ptr len;
  mret (values_vec_ptr, values_vec_len).
Definition wasm_to_array_trampoline_body (ty : WasmFuncType) : M unit :=
  block0 ← builder;
  args ← query (fun b => block_params b block0);
  _ ← sm_lift (unwrap (args !! 0%nat));
  _ ← sm_lift (unwrap (args !! 1%nat));
  r ← allocate_stack_array_and_spill_args ty (drop 2 args);
  _ ← op0 ir.Iconst pointer_type r.2;
  todo.
End Trampolines.

(** ** Builtins ([builtins.rs])

    [foreach_builtin_function!] lists no builtins yet; the signature of another
    index is [unreachable!()]. *)
Definition builtin_functions : list ir.Signature := [].
Definition builtin_functions_total_number : Z := pm_len builtin_functions.
Definition builtin_signature {E} (index : Z) : outcome E ir.Signature := unwrap (pm_get builtin_functions index).

(** ** The compiler and its contexts *)

(** What is set of a function before its body is built: its name (a namespace
    and an index), its signature, and the offset in the VMContext of the field its
    stack limit is loaded from. *)
Record Function_ : Type := mkFunction { func_name : option (Z * Z); func_signature : ir.Signature; func_stack_limit : option Z }.
Definition with_signature (sig : ir.Signature) : Function_ := mkFunction None sig None.

(** [MachBufferFinalized]: what the code generator returns. *)
Record MachBufferFinalized : Type := mkMachBuffer {
  mb_data : list Z;
  mb_relocs : list FinalizedMachReloc;
  mb_traps : list (Z * Z);
  mb_alignment : Z }.

Section Driver.
Context {B : Type} `{FunctionBuilder B} `{TrapCodes} (dbg : bool) (isa : TargetIsa).
(** A function without code, the code generator, and what a built function knows
    of its callees and its stack. *)
Context (new_function : Function_ -> B) (codegen : B -> outcome Error MachBufferFinalized).
Context (user_named_funcs : B -> list (Z * Z)) (sized_stack_slots : B -> list (Z * Z)).

(** [CompilationContext]: the translator's state, and the function being
    compiled; a cleared context has none. *)
Record CompilationContext : Type := mkContext { func_translator : FuncTranslationState; codegen_func : option B }.
Definition context_default : CompilationContext := mkContext (mkState [] [] true ∅ ∅ ∅ ∅ ∅) None.
Definition clear_context (c : CompilationContext) : CompilationContext := mkContext (func_translator c) None.
Record CraneliftCompiler : Type := mkCraneliftCompiler { contexts : list CompilationContext; cc_offsets : StaticVMOffsets }.
Definition compiler_new : CraneliftCompiler := mkCraneliftCompiler [] (mkStatic (isa_pointer_bytes isa)).
Abbreviation C := (SM CraneliftCompiler Error).

(** [function_compiler]: a used context from the end of the pool, or a new one. *)
Definition function_compiler : C CompilationContext := fun c =>
  match list.last (contexts c) with
  | Some ctx => (Ok (clear_context ctx), mkCraneliftCompiler (removelast (contexts c)) (cc_offsets c))
  | None => (Ok context_default, c)
  end.
Definition get_offsets : C StaticVMOffsets := fun c => (Ok (cc_offsets c), c).

(** The source locations that [finish] records: [pos] is the position of the
    body's reader and the bytes that remain. *)
Definition srclocs (pos : option (Z * Z)) : outcome Error (Z * Z) :=
  match pos with
  | None => Ok (filepos_default, filepos_default)
  | Some (offset, len) =>
      start ← unwrap (try_from 32 offset);
      end_ ← add 64 offset len;
      end_ ← unwrap (try_from 32 end_);
      Ok (start, end_)
  end.
Definition give_back (ctx : CompilationContext) : C unit := fun c => (Ok tt, mkCraneliftCompiler (contexts c ++ [ctx]) (cc_offsets c)).
(** [FunctionCompiler::finish]. *)
Definition finish_function (ctx : CompilationContext) (pos : option (Z * Z)) : C CompiledFunction :=
  func ← sm_lift (unwrap (codegen_func ctx));
  compiled_code ← sm_lift (codegen func);
  let alignment := Z.max (mb_alignment compiled_code) (isa_preferred_alignment isa) in
  locs ← sm_lift (srclocs pos);
  _ ← give_back (clear_context ctx);
  mret (mkCompiledFunction (mb_data compiled_code) (mb_relocs compiled_code) (mb_traps compiled_code)
          (user_named_funcs func) alignment locs.1 locs.2 (sized_stack_slots func)).

(** Build a function in a context. *)
Definition in_context {A} (ctx : CompilationContext) (func : Function_) (m : SM (TState B) Error A) : C CompilationContext := fun c =>
  match m (mkT (new_function func) (func_translator ctx)) with
  | (Ok _, t) => (Ok (mkContext (st t) (Some (bld t))), c)
  | (Err e, _) => (Err e, c)
  | (Panic, _) => (Panic, c)
  end.

(** The type of a defined function: its index and type. *)
Definition function_type {E} (module : TranslatedModule) (types : ModuleTypes) (index : Z) : outcome E (Z * WasmFuncType) :=
  index ← Module.func_index module index;
  f ← pm_index (functions module) index;
  ty ← pm_index (Module.types module) (signature f);
  sub ← unwrap (get_wasm_type types ty);
  func_ty ← unwrap_func sub;
  Ok (index, func_ty).

(** [compile_function]; the body comes with its validator and its position. *)
Definition cl_compile_function {V} (vops : ValidatorOps V) (module : TranslatedModule) (types : ModuleTypes) (index : Z)
    (validator : V) (body : FunctionBody) (pos : Z * Z) : C CompiledFunction :=
  compiler ← function_compiler;
  r ← sm_lift (function_type module types index);
  sig ← sm_lift (wasm_call_signature r.2);
  offsets ← get_offsets;
  stack_limit ← sm_lift (vmctx_stack_limit offsets);
  env ← sm_lift (env_new isa module types);
  ctx ← in_context compiler (mkFunction (Some (NS_WASM_FUNC, r.1)) sig (Some stack_limit)) (fun t => let r := translate_body dbg env vops body (validator, t) in (r.1, r.2.2));
  finish_function ctx (Some pos).
Definition cl_compile_array_to_wasm_trampoline (module : TranslatedModule) (types : ModuleTypes) (index : Z) : C CompiledFunction :=
  r ← sm_lift (function_type module types index);
  wasm_call_sig ← sm_lift (wasm_call_signature r.2);
  compiler ← function_compiler;
  offsets ← get_offsets;
  ctx ← in_context compiler (with_signature array_call_signature) (array_to_wasm_trampoline_body dbg offsets r.2 wasm_call_sig r.1);
  finish_function ctx None.
Definition cl_compile_wasm_to_array_trampoline (wasm_func_ty : WasmFuncType) : C CompiledFunction :=
  wasm_call_sig ← sm_lift (wasm_call_signature wasm_func_ty);
  compiler ← function_compiler;
  ctx ← in_context compiler (with_signature wasm_call_sig) (wasm_to_array_trampoline_body dbg wasm_func_ty);
  finish_function ctx None.
Definition cl_compile_wasm_to_builtin (index : Z) : C CompiledFunction :=
  sig ← sm_lift (builtin_signature index);
  compiler ← function_compiler;
  offsets ← get_offsets;
  ctx ← in_context compiler (with_signature sig) (wasm_to_builtin_body dbg offsets sig index);
  finish_function ctx None.
End Driver.
Arguments mkContext {B}.
Arguments mkCraneliftCompiler {B}.
