(* ===== verification/WasmTyping.v ===== *)
(** * The operand types of wasm's plain operators

    The signatures the wasm specification gives to the operators that only pop
    operands and push results, on machine types; all 128-bit vectors are [V128].
    Written from the specification, independently of the translator. *)
From stdpp Require Import base list numbers.
From S2P Require Import Prelude Clif FuncState WasmOp.
Import Operator.
Local Open Scope Z_scope.

Abbreviation V128 := ir.I8X16.
Abbreviation sig := (list ir.Type_ * list ir.Type_)%type.

Definition unop (t : ir.Type_) : option sig := Some ([t], [t]).
Definition binop (t : ir.Type_) : option sig := Some ([t; t], [t]).
Definition ternop (t : ir.Type_) : option sig := Some ([t; t; t], [t]).
Definition testop (t : ir.Type_) : option sig := Some ([t], [ir.I32]).
Definition relop (t : ir.Type_) : option sig := Some ([t; t], [ir.I32]).
Definition cvtop (s t : ir.Type_) : option sig := Some ([s], [t]).
Definition shiftop : option sig := Some ([V128; ir.I32], [V128]).
(** A lane, when its index is in range. *)
Definition lane_in (lane count : Z) (s : option sig) : option sig := if (0 <=? lane) && (lane <? count) then s else None.
Definition extract (lane count : Z) (t : ir.Type_) : option sig := lane_in lane count (cvtop V128 t).
Definition replace (lane count : Z) (t : ir.Type_) : option sig := lane_in lane count (Some ([V128; t], [V128])).
Definition with_lanes (l : list Z) (s : option sig) : option sig := if pm_len l =? 16 then s else None.

Definition numeric_sig (op : WasmOperator) : option sig :=
  match op with
  | I32Const _ => Some ([], [ir.I32])
  | I64Const _ => Some ([], [ir.I64])
  | F32Const _ => Some ([], [ir.F32])
  | F64Const _ => Some ([], [ir.F64])
  | I32Clz | I32Ctz | I32Popcnt | I32Extend8S | I32Extend16S => unop ir.I32
  | I64Clz | I64Ctz | I64Popcnt | I64Extend8S | I64Extend16S | I64Extend32S => unop ir.I64
  | F32Sqrt | F32Ceil | F32Floor | F32Trunc | F32Nearest | F32Abs | F32Neg => unop ir.F32
  | F64Sqrt | F64Ceil | F64Floor | F64Trunc | F64Nearest | F64Abs | F64Neg => unop ir.F64
  | I32Add | I32Sub | I32Mul | I32DivS | I32DivU | I32RemS | I32RemU | I32And | I32Or | I32Xor
  | I32Shl | I32ShrS | I32ShrU | I32Rotl | I32Rotr => binop ir.I32
  | I64Add | I64Sub | I64Mul | I64DivS | I64DivU | I64RemS | I64RemU | I64And | I64Or | I64Xor
  | I64Shl | I64ShrS | I64ShrU | I64Rotl | I64Rotr => binop ir.I64
  | F32Add | F32Sub | F32Mul | F32Div | F32Min | F32Max | F32Copysign => binop ir.F32
  | F64Add | F64Sub | F64Mul | F64Div | F64Min | F64Max | F64Copysign => binop ir.F64
  | I32Eqz => testop ir.I32
  | I64Eqz => testop ir.I64
  | I32Eq | I32Ne | I32LtS | I32LtU | I32GtS | I32GtU | I32LeS | I32LeU | I32GeS | I32GeU => relop ir.I32
  | I64Eq | I64Ne | I64LtS | I64LtU | I64GtS | I64GtU | I64LeS | I64LeU | I64GeS | I64GeU => relop ir.I64
  | F32Eq | F32Ne | F32Lt | F32Gt | F32Le | F32Ge => relop ir.F32
  | F64Eq | F64Ne | F64Lt | F64Gt | F64Le | F64Ge => relop ir.F64
  | I32WrapI64 => cvtop ir.I64 ir.I32
  | I64ExtendI32S | I64ExtendI32U => cvtop ir.I32 ir.I64
  | I32TruncF32S | I32TruncF32U | I32TruncSatF32S | I32TruncSatF32U | I32ReinterpretF32 => cvtop ir.F32 ir.I32
  | I32TruncF64S | I32TruncF64U | I32TruncSatF64S | I32TruncSatF64U => cvtop ir.F64 ir.I32
  | I64TruncF32S | I64TruncF32U | I64TruncSatF32S | I64TruncSatF32U => cvtop ir.F32 ir.I64
  | I64TruncF64S | I64TruncF64U | I64TruncSatF64S | I64TruncSatF64U | I64ReinterpretF64 => cvtop ir.F64 ir.I64
  | F32ConvertI32S | F32ConvertI32U | F32ReinterpretI32 => cvtop ir.I32 ir.F32
  | F32ConvertI64S | F32ConvertI64U => cvtop ir.I64 ir.F32
  | F64ConvertI32S | F64ConvertI32U => cvtop ir.I32 ir.F64
  | F64ConvertI64S | F64ConvertI64U | F64ReinterpretI64 => cvtop ir.I64 ir.F64
  | F32DemoteF64 => cvtop ir.F64 ir.F32
  | F64PromoteF32 => cvtop ir.F32 ir.F64
  | Nop | AtomicFence => Some ([], [])
  | _ => None
  end.

Definition vector_sig (op : WasmOperator) : option sig :=
  match op with
  | V128Const value => with_lanes value (Some ([], [V128]))
  | I8x16Shuffle lanes => with_lanes lanes (binop V128)
  | I8x16Splat | I16x8Splat | I32x4Splat => cvtop ir.I32 V128
  | I64x2Splat => cvtop ir.I64 V128
  | F32x4Splat => cvtop ir.F32 V128
  | F64x2Splat => cvtop ir.F64 V128
  | I8x16ExtractLaneS lane | I8x16ExtractLaneU lane => extract lane 16 ir.I32
  | I16x8ExtractLaneS lane | I16x8ExtractLaneU lane => extract lane 8 ir.I32
  | I32x4ExtractLane lane => extract lane 4 ir.I32
  | I64x2ExtractLane lane => extract lane 2 ir.I64
  | F32x4ExtractLane lane => extract lane 4 ir.F32
  | F64x2ExtractLane lane => extract lane 2 ir.F64
  | I8x16ReplaceLane lane => replace lane 16 ir.I32
  | I16x8ReplaceLane lane => replace lane 8 ir.I32
  | I32x4ReplaceLane lane => replace lane 4 ir.I32
  | I64x2ReplaceLane lane => replace lane 2 ir.I64
  | F32x4ReplaceLane lane => replace lane 4 ir.F32
  | F64x2ReplaceLane lane => replace lane 2 ir.F64
  | V128AnyTrue | I8x16AllTrue | I16x8AllTrue | I32x4AllTrue | I64x2AllTrue
  | I8x16Bitmask | I16x8Bitmask | I32x4Bitmask | I64x2Bitmask => testop V128
  | I8x16Shl | I16x8Shl | I32x4Shl | I64x2Shl | I8x16ShrU | I16x8ShrU | I32x4ShrU | I64x2ShrU
  | I8x16ShrS | I16x8ShrS | I32x4ShrS | I64x2ShrS => shiftop
  | V128Not | I8x16Neg | I16x8Neg | I32x4Neg | I64x2Neg | I8x16Abs | I16x8Abs | I32x4Abs | I64x2Abs | I8x16Popcnt
  | F32x4Sqrt | F64x2Sqrt | F32x4Neg | F64x2Neg | F32x4Abs | F64x2Abs | F32x4Ceil | F64x2Ceil | F32x4Floor | F64x2Floor
  | F32x4Trunc | F64x2Trunc | F32x4Nearest | F64x2Nearest
  | F32x4ConvertI32x4S | F32x4ConvertI32x4U | F64x2ConvertLowI32x4S | F64x2ConvertLowI32x4U
  | F64x2PromoteLowF32x4 | F32x4DemoteF64x2Zero | I32x4TruncSatF32x4S | I32x4TruncSatF64x2SZero
  | I32x4TruncSatF32x4U | I32x4TruncSatF64x2UZero
  | I32x4RelaxedTruncF32x4U | I32x4RelaxedTruncF64x2UZero | I32x4RelaxedTruncF32x4S | I32x4RelaxedTruncF64x2SZero
  | I16x8ExtendLowI8x16S | I16x8ExtendHighI8x16S | I16x8ExtendLowI8x16U | I16x8ExtendHighI8x16U
  | I32x4ExtendLowI16x8S | I32x4ExtendHighI16x8S | I32x4ExtendLowI16x8U | I32x4ExtendHighI16x8U
  | I64x2ExtendLowI32x4S | I64x2ExtendHighI32x4S | I64x2ExtendLowI32x4U | I64x2ExtendHighI32x4U
  | I16x8ExtAddPairwiseI8x16S | I32x4ExtAddPairwiseI16x8S | I16x8ExtAddPairwiseI8x16U | I32x4ExtAddPairwiseI16x8U => unop V128
  | I8x16Swizzle | I8x16Add | I16x8Add | I32x4Add | I64x2Add | I8x16AddSatS | I16x8AddSatS | I8x16AddSatU | I16x8AddSatU
  | I8x16Sub | I16x8Sub | I32x4Sub | I64x2Sub | I8x16SubSatS | I16x8SubSatS | I8x16SubSatU | I16x8SubSatU
  | I8x16MinS | I16x8MinS | I32x4MinS | I8x16MinU | I16x8MinU | I32x4MinU | I8x16MaxS | I16x8MaxS | I32x4MaxS
  | I8x16MaxU | I16x8MaxU | I32x4MaxU | I8x16AvgrU | I16x8AvgrU | I16x8Mul | I32x4Mul | I64x2Mul
  | V128Or | V128Xor | V128And | V128AndNot
  | I8x16Eq | I16x8Eq | I32x4Eq | I64x2Eq | I8x16Ne | I16x8Ne | I32x4Ne | I64x2Ne | I8x16GtS | I16x8GtS | I32x4GtS | I64x2GtS
  | I8x16LtS | I16x8LtS | I32x4LtS | I64x2LtS | I8x16GtU | I16x8GtU | I32x4GtU | I8x16LtU | I16x8LtU | I32x4LtU
  | I8x16GeS | I16x8GeS | I32x4GeS | I64x2GeS | I8x16LeS | I16x8LeS | I32x4LeS | I64x2LeS
  | I8x16GeU | I16x8GeU | I32x4GeU | I8x16LeU | I16x8LeU | I32x4LeU
  | F32x4Eq | F64x2Eq | F32x4Ne | F64x2Ne | F32x4Lt | F64x2Lt | F32x4Gt | F64x2Gt | F32x4Le | F64x2Le | F32x4Ge | F64x2Ge
  | F32x4Add | F64x2Add | F32x4Sub | F64x2Sub | F32x4Mul | F64x2Mul | F32x4Div | F64x2Div | F32x4Max | F64x2Max
  | F32x4Min | F64x2Min | F32x4PMax | F64x2PMax | F32x4PMin | F64x2PMin
  | I8x16NarrowI16x8S | I16x8NarrowI32x4S | I8x16NarrowI16x8U | I16x8NarrowI32x4U
  | I32x4DotI16x8S | I16x8Q15MulrSatS
  | I16x8ExtMulLowI8x16S | I16x8ExtMulHighI8x16S | I16x8ExtMulLowI8x16U | I16x8ExtMulHighI8x16U
  | I32x4ExtMulLowI16x8S | I32x4ExtMulHighI16x8S | I32x4ExtMulLowI16x8U | I32x4ExtMulHighI16x8U
  | I64x2ExtMulLowI32x4S | I64x2ExtMulHighI32x4S | I64x2ExtMulLowI32x4U | I64x2ExtMulHighI32x4U
  | F32x4RelaxedMax | F64x2RelaxedMax | F32x4RelaxedMin | F64x2RelaxedMin | I8x16RelaxedSwizzle
  | I16x8RelaxedQ15mulrS | I16x8RelaxedDotI8x16I7x16S => binop V128
  | V128Bitselect | F32x4RelaxedMadd | F64x2RelaxedMadd | F32x4RelaxedNmadd | F64x2RelaxedNmadd
  | I8x16RelaxedLaneselect | I16x8RelaxedLaneselect | I32x4RelaxedLaneselect | I64x2RelaxedLaneselect
  | I32x4RelaxedDotI8x16I7x16AddS => ternop V128
  | _ => None
  end.

Definition plain_sig (op : WasmOperator) : option sig :=
  match numeric_sig op with Some s => Some s | None => vector_sig op end.
