(* ===== verification/WasmSem.v ===== *)
(** * The meaning of wasm code

    A reference semantics for the integer, variable and control instructions of
    wasm, against which the translation of function bodies is proved.  Integer
    operations are those of the specification on unsigned integers; instructions
    are structured, and [flatten] is the operator sequence of the binary format
    that the translator reads.  Stacks have their top at the end. *)
From stdpp Require Import base list option numbers.
From S2P Require Import Prelude Trap ModuleTypes FuncState WasmOp Clif WasmTyping.
Local Open Scope Z_scope.
Import Operator.

(** ** Integers of [n] bits *)
Module Int.
Section Width.
Context (n : Z).
Definition of_bool (b : bool) : Z := if b then 1 else 0.
Definition neg (i : Z) : Z := signed n i.
Definition iadd (i j : Z) : Z := wrap n (i + j).
Definition isub (i j : Z) : Z := wrap n (i - j).
Definition imul (i j : Z) : Z := wrap n (i * j).
Definition idiv_u (i j : Z) : Trap + Z := if j =? 0 then inl IntegerDivisionByZero else inr (i / j).
Definition idiv_s (i j : Z) : Trap + Z :=
  if j =? 0 then inl IntegerDivisionByZero
  else if Z.quot (neg i) (neg j) =? 2 ^ (n - 1) then inl IntegerOverflow
  else inr (wrap n (Z.quot (neg i) (neg j))).
Definition irem_u (i j : Z) : Trap + Z := if j =? 0 then inl IntegerDivisionByZero else inr (i - j * (i / j)).
Definition irem_s (i j : Z) : Trap + Z :=
  if j =? 0 then inl IntegerDivisionByZero else inr (wrap n (neg i - neg j * Z.quot (neg i) (neg j))).
Definition ishl (i j : Z) : Z := wrap n (i * 2 ^ (j mod n)).
Definition ishr_u (i j : Z) : Z := i / 2 ^ (j mod n).
Definition ishr_s (i j : Z) : Z := wrap n (neg i / 2 ^ (j mod n)).
Definition irotl (i j : Z) : Z := wrap n (i * 2 ^ (j mod n)) + i / 2 ^ (n - j mod n).
Definition irotr (i j : Z) : Z := i / 2 ^ (j mod n) + wrap n (i * 2 ^ (n - j mod n)).
(** The bits, the lowest first. *)
Definition ibits (i : Z) : list bool := Z.testbit i <$> seqZ 0 n.
Fixpoint zeros (l : list bool) : Z := match l with false :: l => 1 + zeros l | _ => 0 end.
Definition iclz (i : Z) : Z := zeros (rev (ibits i)).
Definition ictz (i : Z) : Z := zeros (ibits i).
Definition ipopcnt (i : Z) : Z := pm_len (filter (fun b => b = true) (ibits i)).
(** The low [m] bits as a signed number. *)
Definition iextend_s (m i : Z) : Z := wrap n (swrap m i).
End Width.
End Int.

(** ** Operators *)

(** The width of an operator's first operand. *)
Definition operand_bits (op : WasmOperator) : Z :=
  match numeric_sig op with Some (t :: _, _) => 8 * ir.bytes t | _ => 0 end.

Definition eval_binary (op : WasmOperator) (i j : Z) : option (Trap + Z) :=
  let n := operand_bits op in
  let ok z := Some (inr z) in
  let rel b := Some (inr (Int.of_bool b)) in
  match op with
  | I32Add | I64Add => ok (Int.iadd n i j)
  | I32Sub | I64Sub => ok (Int.isub n i j)
  | I32Mul | I64Mul => ok (Int.imul n i j)
  | I32DivS | I64DivS => Some (Int.idiv_s n i j)
  | I32DivU | I64DivU => Some (Int.idiv_u i j)
  | I32RemS | I64RemS => Some (Int.irem_s n i j)
  | I32RemU | I64RemU => Some (Int.irem_u i j)
  | I32And | I64And => ok (Z.land i j)
  | I32Or | I64Or => ok (Z.lor i j)
  | I32Xor | I64Xor => ok (Z.lxor i j)
  | I32Shl | I64Shl => ok (Int.ishl n i j)
  | I32ShrS | I64ShrS => ok (Int.ishr_s n i j)
  | I32ShrU | I64ShrU => ok (Int.ishr_u n i j)
  | I32Rotl | I64Rotl => ok (Int.irotl n i j)
  | I32Rotr | I64Rotr => ok (Int.irotr n i j)
  | I32Eq | I64Eq => rel (i =? j)
  | I32Ne | I64Ne => rel (negb (i =? j))
  | I32LtS | I64LtS => rel (Int.neg n i <? Int.neg n j)
  | I32LtU | I64LtU => rel (i <? j)
  | I32GtS | I64GtS => rel (Int.neg n j <? Int.neg n i)
  | I32GtU | I64GtU => rel (j <? i)
  | I32LeS | I64LeS => rel (Int.neg n i <=? Int.neg n j)
  | I32LeU | I64LeU => rel (i <=? j)
  | I32GeS | I64GeS => rel (Int.neg n j <=? Int.neg n i)
  | I32GeU | I64GeU => rel (j <=? i)
  | _ => None
  end.
Definition eval_unary (op : WasmOperator) (i : Z) : option Z :=
  let n := operand_bits op in
  match op with
  | I32Clz | I64Clz => Some (Int.iclz n i)
  | I32Ctz | I64Ctz => Some (Int.ictz n i)
  | I32Popcnt | I64Popcnt => Some (Int.ipopcnt n i)
  | I32Eqz | I64Eqz => Some (Int.of_bool (i =? 0))
  | I32Extend8S | I64Extend8S => Some (Int.iextend_s n 8 i)
  | I32Extend16S | I64Extend16S => Some (Int.iextend_s n 16 i)
  | I64Extend32S => Some (Int.iextend_s n 32 i)
  | I32WrapI64 => Some (wrap 32 i)
  | I64ExtendI32U => Some i
  | I64ExtendI32S => Some (wrap 64 (signed 32 i))
  | I32ReinterpretF32 | I64ReinterpretF64 | F32ReinterpretI32 | F64ReinterpretI64 => Some i
  | _ => None
  end.
Definition eval_numeric (op : WasmOperator) (args : list Z) : option (Trap + list Z) :=
  match op, args with
  | I32Const v, [] => Some (inr [wrap 32 v])
  | I64Const v, [] => Some (inr [wrap 64 v])
  | (F32Const v | F64Const v), [] => Some (inr [v])
  | Nop, [] => Some (inr [])
  | _, [i] => (fun z => inr [z]) <$> eval_unary op i
  | _, [i; j] => r ← eval_binary op i j; Some (match r with inl t => inl t | inr z => inr [z] end)
  | _, _ => None
  end.

(** ** Instructions *)
Inductive instr : Type :=
| Plain (op : WasmOperator)
| IBlock (bt : BlockType) (body : list instr)
| ILoop (bt : BlockType) (body : list instr)
| IIf (bt : BlockType) (thn : list instr) (els : option (list instr))
| IBr (l : Z)
| IBrIf (l : Z)
| IReturn
| IUnreachable.
Fixpoint flatten1 (i : instr) : list WasmOperator :=
  match i with
  | Plain op => [op]
  | IBlock bt body => Block bt :: flat_map flatten1 body ++ [End]
  | ILoop bt body => Loop bt :: flat_map flatten1 body ++ [End]
  | IIf bt thn els =>
      If bt :: flat_map flatten1 thn ++ match els with Some els => Else :: flat_map flatten1 els | None => [] end ++ [End]
  | IBr l => [Br l]
  | IBrIf l => [BrIf l]
  | IReturn => [Return]
  | IUnreachable => [Unreachable]
  end.
Definition flatten (code : list instr) : list WasmOperator := flat_map flatten1 code.

(** ** Running

    A branch carries the values of the block it leaves; the label takes as many
    as it needs.  The numbers of parameters and results of a block type are a
    parameter. *)
Inductive res : Type :=
| RNormal (ws ls : list Z)
| RBranch (l : nat) (ws ls : list Z)
| RReturn (ws : list Z)
| RTrap (t : Trap)
| RFuel
| RStuck.

Definition top_n (n : nat) (ws : list Z) : option (list Z * list Z) :=
  if (n <=? length ws)%nat then Some (take (length ws - n) ws, drop (length ws - n) ws) else None.

(** An instruction that neither branches nor opens a block: how many operands
    it takes, and its results and the locals after it. *)
Definition num_operands (op : WasmOperator) : option nat :=
  match op with
  | LocalGet _ => Some 0%nat
  | Drop | LocalSet _ | LocalTee _ => Some 1%nat
  | Select => Some 3%nat
  | op => '(ins, _) ← numeric_sig op; Some (length ins)
  end.
Definition eval_plain (op : WasmOperator) (xs ls : list Z) : option (Trap + (list Z * list Z)) :=
  match op, xs with
  | Drop, [_] => Some (inr ([], ls))
  | Select, [i; j; c] => Some (inr ([if c =? 0 then j else i], ls))
  | LocalGet x, [] => z ← pm_get ls x; Some (inr ([z], ls))
  | LocalSet x, [z] => _ ← pm_get ls x; Some (inr ([], pm_set ls x z))
  | LocalTee x, [z] => _ ← pm_get ls x; Some (inr ([z], pm_set ls x z))
  | op, xs => r ← eval_numeric op xs; Some (match r with inl t => inl t | inr zs => inr (zs, ls) end)
  end.
(** The operators with a meaning here: floating-point arithmetic has none. *)
Definition has_meaning (op : WasmOperator) : bool :=
  match op with
  | F32Const v => fits 32 v
  | F64Const v => fits 64 v
  | Drop | Select | LocalGet _ | LocalSet _ | LocalTee _ => true
  | op => match numeric_sig op with Some (ins, _) => match eval_numeric op (replicate (length ins) 1) with Some _ => true | None => false end | None => false end
  end.
Definition exec_plain (op : WasmOperator) (ws ls : list Z) : res :=
  match n ← num_operands op; '(base, xs) ← top_n n ws; r ← eval_plain op xs ls; Some (base, r) with
  | Some (base, inr (zs, ls)) => RNormal (base ++ zs) ls
  | Some (_, inl t) => RTrap t
  | None => RStuck
  end.

Section Run.
Context (arity : BlockType -> nat * nat).

(** The end of a block with [n] results entered on top of [base]. *)
Definition leave (base : list Z) (n : nat) (r : res) : res :=
  match r with
  | RNormal ws ls => RNormal (base ++ ws) ls
  | RBranch 0 ws ls => match top_n n ws with Some (_, ws) => RNormal (base ++ ws) ls | None => RStuck end
  | RBranch (S l) ws ls => RBranch l ws ls
  | r => r
  end.
Definition branch (l : Z) (ws ls : list Z) : res := if l <? 0 then RStuck else RBranch (Z.to_nat l) ws ls.

(** One instruction; [run] runs the code inside it. *)
Section Instr.
Context (run : list instr -> list Z -> list Z -> res).
Definition run_block (bt : BlockType) (body : list instr) (ws ls : list Z) : res :=
  match top_n (arity bt).1 ws with
  | Some (base, args) => leave base (arity bt).2 (run body args ls)
  | None => RStuck
  end.
Definition exec_instr (i : instr) (ws ls : list Z) : res :=
  match i with
  | Plain op => exec_plain op ws ls
  | IBlock bt body => run_block bt body ws ls
  | ILoop bt body =>
      match top_n (arity bt).1 ws with
      | Some (base, args) =>
          match run body args ls with
          | RBranch 0 ws ls =>
              match top_n (arity bt).1 ws with Some (_, args) => run [ILoop bt body] (base ++ args) ls | None => RStuck end
          | r => leave base (arity bt).2 r
          end
      | None => RStuck
      end
  | IIf bt thn els =>
      match top_n 1 ws with
      | Some (ws, [c]) => run_block bt (if c =? 0 then default [] els else thn) ws ls
      | _ => RStuck
      end
  | IBr l => branch l ws ls
  | IBrIf l =>
      match top_n 1 ws with
      | Some (ws, [c]) => if c =? 0 then RNormal ws ls else branch l ws ls
      | _ => RStuck
      end
  | IReturn => RReturn ws
  | IUnreachable => RTrap UnreachableCodeReached
  end.
End Instr.
Fixpoint exec (fuel : nat) (code : list instr) (ws ls : list Z) : res :=
  match fuel, code with
  | O, _ => RFuel
  | S _, [] => RNormal ws ls
  | S fuel, i :: code => match exec_instr (exec fuel) i ws ls with RNormal ws ls => exec fuel code ws ls | r => r end
  end.

(** A call: the results, or a trap; the body is a block with the function's results. *)
Definition invoke (fuel : nat) (body : list instr) (locals : list Z) (nresults : nat) : option (Trap + list Z) :=
  match exec fuel body [] locals with
  | RNormal ws _ => if (length ws =? nresults)%nat then Some (inr ws) else None
  | RBranch 0 ws _ | RReturn ws => '(_, rs) ← top_n nresults ws; Some (inr rs)
  | RTrap t => Some (inl t)
  | _ => None
  end.
End Run.
