(* ===== verification/FuncValid.v ===== *)
(** * Validity of function bodies

    The validation algorithm of the wasm specification, on machine types:
    references of one hierarchy share a machine type, so subtyping between them
    is equality here.  A frame keeps the operands pushed since it was entered,
    topmost first; after an unconditional branch the frame is dead, and operands
    of unknown type ([None]) can be popped from it.  The number of operands and
    frames is limited, as the specification allows. *)
From stdpp Require Import base list gmap option numbers.
From S2P Require Import Prelude Types Trap Module ModuleTypes VMOffsets HeapAccess Clif FuncState WasmOp FuncEnv CodeTranslator WasmTyping.
Import Operator.
Local Open Scope Z_scope.

Inductive vkind : Type :=
| KBlock
| KLoop
(* whether parameters and results are the same wasm types *)
| KIf (same : bool)
| KElse.

Record vframe : Type := mkV {
  v_kind : vkind;
  v_start : list ir.Type_;
  v_end : list ir.Type_;
  v_ops : list (option ir.Type_);
  v_dead : bool }.

Definition set_ops (l : list (option ir.Type_)) (f : vframe) : vframe := mkV (v_kind f) (v_start f) (v_end f) l (v_dead f).
(** The rest of the frame cannot be reached. *)
Definition kill (f : vframe) : vframe := mkV (v_kind f) (v_start f) (v_end f) [] true.

(** Pop an operand, of any or of a given type. *)
Definition vpop_any (f : vframe) : option (option ir.Type_ * vframe) :=
  match v_ops f with
  | [] => if v_dead f then Some (None, f) else None
  | t :: l => Some (t, set_ops l f)
  end.
Definition vpop (t : ir.Type_) (f : vframe) : option vframe :=
  '(t', f') ← vpop_any f;
  match t' with
  | Some t' => if bool_decide (t' = t) then Some f' else None
  | None => Some f'
  end.
(** Types are listed from the bottom of the stack up. *)
Fixpoint vpops_rev (ts : list ir.Type_) (f : vframe) : option vframe :=
  match ts with
  | [] => Some f
  | t :: ts => f ← vpop t f; vpops_rev ts f
  end.
Definition vpops (ts : list ir.Type_) (f : vframe) : option vframe := vpops_rev (rev ts) f.
Definition vpush (ts : list ir.Type_) (f : vframe) : vframe := set_ops (rev (Some <$> ts) ++ v_ops f) f.
Definition vapply (s : sig) (f : vframe) : option vframe := f ← vpops s.1 f; Some (vpush s.2 f).

Definition enter (k : vkind) (start end_ : list ir.Type_) : vframe := mkV k start end_ (rev (Some <$> start)) false.
(** What a branch to the frame carries. *)
Definition label_types (f : vframe) : list ir.Type_ :=
  match v_kind f with KLoop => v_start f | _ => v_end f end.

(** Operands, counting those an [if] keeps for its [else], and frames. *)
Definition frame_height (f : vframe) : Z := 1 + pm_len (v_ops f) + pm_len (v_start f) + pm_len (v_end f).
Definition height (fs : list vframe) : Z := foldr (fun f n => frame_height f + n) 0 fs.
Definition max_height : Z := 2 ^ 32.

Section Valid.
Context (env : TranslationEnvironment) (validator : FuncValidator) (locals : list ir.Type_).

Definition block_sig (bt : BlockType) : option (list ir.Type_ * list ir.Type_ * bool) :=
  '(ps, rs) ← ok (blocktype_params_results validator bt);
  p ← ok (mapO (param_type env) ps);
  r ← ok (mapO (param_type env) rs);
  Some (p, r, bool_decide (ps = rs)).

(** Local variables. *)
Definition local_sig (op : WasmOperator) : option sig :=
  match op with
  | LocalGet i => t ← pm_get locals i; Some ([], [t])
  | LocalSet i => t ← pm_get locals i; Some ([t], [])
  | LocalTee i => t ← pm_get locals i; Some ([t], [t])
  | _ => None
  end.

(** *** Entities of the module *)
Abbreviation module := (env_module env).
Definition global_type (index : Z) : option ir.Type_ :=
  g ← pm_get (globals module) index;
  if gd_shared g then None else ok (FuncEnv.value_type (E:=Error) (gd_content_type g)).
Definition direct_sig (index : Z) : option ir.Signature :=
  f ← pm_get (functions module) index;
  ty ← pm_get (Module.types module) (signature f);
  ft ← ok (func_type_of env ty);
  ok (wasm_call_signature (E:=Error) ft).
Definition indirect_sig (index : Z) : option ir.Signature :=
  ty ← pm_get (Module.types module) index;
  ft ← ok (func_type_of env ty);
  ok (wasm_call_signature (E:=Error) ft).
(** The first two parameters are the contexts. *)
Definition call_sig (s : ir.Signature) : sig := (drop 2 (ir.value_type <$> ir.params s), ir.value_type <$> ir.returns s).

(** A 32-bit memory that is not shared, in pages the target can map. *)
Definition memory32 (d : MemoryDesc) : bool :=
  let bytes n := n * 2 ^ md_page_size_log2 d in
  negb (md_memory64 d) && negb (md_shared d) && ((md_page_size_log2 d =? 16) || (md_page_size_log2 d =? 0)) &&
  (te_page_size_align_log2 (env_target env) <=? md_page_size_log2 d) && (0 <=? md_minimum d) && (bytes (md_minimum d) <=? 2 ^ 32) &&
  (0 <=? md_offset_guard_size d) &&
  match md_maximum d with Some mx => (md_minimum d <=? mx) && (bytes mx <=? 2 ^ 32) | None => true end.
Definition memory_access (memarg : MemArg) (s : sig) : option sig :=
  d ← pm_get (memories module) (ma_memory memarg);
  if memory32 d && (0 <=? ma_offset memarg) && (ma_offset memarg <? 2 ^ 32) then Some s else None.
Definition lane_access (lanes lane : Z) (memarg : MemArg) (s : sig) : option sig :=
  if (0 <=? lane) && (lane <? lanes) then memory_access memarg s else None.

(** A null reference, of a type that is not shared. *)
Definition null_type (hty : wasmparser.HeapType) : option ir.Type_ :=
  h ← ok (convert_heap_type_ env hty);
  t ← ok (env_reference_type (E:=Error) h);
  if ht_shared h then None else Some t.1.

(** A table of functions with a fixed size. *)
Definition function_table (d : TableDesc) : bool :=
  bool_decide (Some (td_minimum d) = td_maximum d) && (0 <=? td_minimum d) && (td_minimum d <? 2 ^ 32) &&
  negb (ht_shared (Types.heap_type (td_element_type d))) &&
  match ht_ty (Types.heap_type (td_element_type d)) with
  | Heap_Func | Heap_ConcreteFunc (Module_ _) => true
  | Heap_NoFunc => nullable (td_element_type d)
  | _ => false
  end.

Definition access_sig (op : WasmOperator) : option sig :=
  match op with
  | I32Load8U a | I32Load16U a | I32Load8S a | I32Load16S a | I32Load a => memory_access a ([ir.I32], [ir.I32])
  | I64Load8U a | I64Load16U a | I64Load8S a | I64Load16S a | I64Load32S a | I64Load32U a | I64Load a => memory_access a ([ir.I32], [ir.I64])
  | F32Load a => memory_access a ([ir.I32], [ir.F32])
  | F64Load a => memory_access a ([ir.I32], [ir.F64])
  | I32Store a | I32Store8 a | I32Store16 a => memory_access a ([ir.I32; ir.I32], [])
  | I64Store a | I64Store8 a | I64Store16 a | I64Store32 a => memory_access a ([ir.I32; ir.I64], [])
  | F32Store a => memory_access a ([ir.I32; ir.F32], [])
  | F64Store a => memory_access a ([ir.I32; ir.F64], [])
  | V128Load a | V128Load8x8S a | V128Load8x8U a | V128Load16x4S a | V128Load16x4U a | V128Load32x2S a | V128Load32x2U a
  | V128Load8Splat a | V128Load16Splat a | V128Load32Splat a | V128Load64Splat a | V128Load32Zero a | V128Load64Zero a =>
      memory_access a ([ir.I32], [ir.I8X16])
  | V128Load8Lane a lane => lane_access 16 lane a ([ir.I32; ir.I8X16], [ir.I8X16])
  | V128Load16Lane a lane => lane_access 8 lane a ([ir.I32; ir.I8X16], [ir.I8X16])
  | V128Load32Lane a lane => lane_access 4 lane a ([ir.I32; ir.I8X16], [ir.I8X16])
  | V128Load64Lane a lane => lane_access 2 lane a ([ir.I32; ir.I8X16], [ir.I8X16])
  | V128Store8Lane a lane => lane_access 16 lane a ([ir.I32; ir.I8X16], [])
  | V128Store16Lane a lane => lane_access 8 lane a ([ir.I32; ir.I8X16], [])
  | V128Store32Lane a lane => lane_access 4 lane a ([ir.I32; ir.I8X16], [])
  | V128Store64Lane a lane => lane_access 2 lane a ([ir.I32; ir.I8X16], [])
  | _ => None
  end.
Definition entity_sig (op : WasmOperator) : option sig :=
  match op with
  | RefNull hty => t ← null_type hty; Some ([], [t])
  | GlobalGet i => t ← global_type i; Some ([], [t])
  | GlobalSet i => t ← global_type i; Some ([t], [])
  | Call i => s ← direct_sig i; Some (call_sig s)
  | CallIndirect type_index table_index =>
      s ← indirect_sig type_index;
      d ← pm_get (tables module) table_index;
      if function_table d then Some ((call_sig s).1 ++ [ir.I32], (call_sig s).2) else None
  | _ => access_sig op
  end.

Definition operator_sig (op : WasmOperator) : option sig :=
  match plain_sig op with Some s => Some s | None => match local_sig op with Some s => Some s | None => entity_sig op end end.

(** A value is selected of two of the same type. *)
Definition join (t1 t2 : option ir.Type_) : option (option ir.Type_) :=
  match t1, t2 with
  | Some t1, Some t2 => if bool_decide (t1 = t2) then Some (Some t1) else None
  | Some t, None | None, Some t => Some (Some t)
  | None, None => Some None
  end.
Definition is_reference (t : option ir.Type_) : bool := match t with Some t => ir.is_int t | None => true end.

Definition label (fs : list vframe) (depth : Z) : option (list ir.Type_) := f ← pm_get fs depth; Some (label_types f).
(** Every target takes what is on the stack, and all take equally many. *)
Definition table_ok (fs : list vframe) (n : Z) (f : vframe) (depth : Z) : bool :=
  match label fs depth with
  | Some ts => (pm_len ts =? n) && bool_decide (is_Some (vpops ts f))
  | None => false
  end.

Definition vstep_raw (op : WasmOperator) (fs : list vframe) : option (list vframe) :=
  match fs with
  | [] => None
  | f :: outer =>
      match op with
      | Unreachable => Some (kill f :: outer)
      | Block bt => '(ps, rs, _) ← block_sig bt; f ← vpops ps f; Some (enter KBlock ps rs :: f :: outer)
      | Loop bt => '(ps, rs, _) ← block_sig bt; f ← vpops ps f; Some (enter KLoop ps rs :: f :: outer)
      | If bt =>
          '(ps, rs, same) ← block_sig bt;
          f ← vpop ir.I32 f;
          f ← vpops ps f;
          Some (enter (KIf same) ps rs :: f :: outer)
      | Else =>
          match v_kind f with
          | KIf _ => f' ← vpops (v_end f) f;
                     if bool_decide (v_ops f' = []) then Some (enter KElse (v_start f) (v_end f) :: outer) else None
          | _ => None
          end
      | End =>
          f' ← vpops (v_end f) f;
          if bool_decide (v_ops f' = []) && (match v_kind f with KIf same => same | _ => true end) then
            match outer with
            | [] => Some []
            | g :: outer => Some (vpush (v_end f) g :: outer)
            end
          else None
      | Br depth => ts ← label fs depth; _ ← vpops ts f; Some (kill f :: outer)
      | BrIf depth => ts ← label fs depth; f ← vpop ir.I32 f; f ← vpops ts f; Some (vpush ts f :: outer)
      | BrTable targets default =>
          f1 ← vpop ir.I32 f;
          ts ← label fs default;
          if forallb (table_ok fs (pm_len ts) f1) (default :: targets) then Some (kill f :: outer) else None
      | Return => g ← list.last fs; _ ← vpops (v_end g) f; Some (kill f :: outer)
      | Drop => '(_, f) ← vpop_any f; Some (f :: outer)
      | Select | TypedSelect =>
          f ← vpop ir.I32 f;
          '(t1, f) ← vpop_any f;
          '(t2, f) ← vpop_any f;
          t ← join t1 t2;
          Some (set_ops (t :: v_ops f) f :: outer)
      | RefIsNull => '(t, f) ← vpop_any f; if is_reference t then Some (vpush [ir.I32] f :: outer) else None
      | RefAsNonNull => '(t, f) ← vpop_any f; if is_reference t then Some (set_ops (t :: v_ops f) f :: outer) else None
      | BrOnNull depth =>
          ts ← label fs depth;
          '(t, f) ← vpop_any f;
          f ← vpops ts f;
          let f := vpush ts f in
          if is_reference t then Some (set_ops (t :: v_ops f) f :: outer) else None
      | BrOnNonNull depth =>
          ts ← label fs depth;
          t ← list.last ts;
          f ← vpops ts f;
          if ir.is_int t then Some (vpush (take (length ts - 1) ts) f :: outer) else None
      | _ => s ← operator_sig op; f ← vapply s f; Some (f :: outer)
      end
  end.
Definition vstep (op : WasmOperator) (fs : list vframe) : option (list vframe) :=
  fs' ← vstep_raw op fs;
  if height fs' <? max_height then Some fs' else None.

Fixpoint vsteps (ops : list WasmOperator) (fs : list vframe) : option (list vframe) :=
  match ops with
  | [] => Some fs
  | op :: ops => fs ← vstep op fs; vsteps ops fs
  end.
(** The body ends with the [end] of the function. *)
Definition valid_body (results : list ir.Type_) (ops : list WasmOperator) : bool :=
  (height [enter KBlock [] results] <? max_height) && match vsteps ops [enter KBlock [] results] with Some [] => true | _ => false end.
End Valid.

(** ** Locals

    A local has a machine type; one that starts as null is not shared. *)
Definition local_type (env : TranslationEnvironment) (ty : wasmparser.ValType) : option ir.Type_ :=
  t ← ok (param_type env ty);
  match ty with
  | wasmparser.Ref rt =>
      hty ← ok (convert_heap_type_ env (wasmparser.heap_type rt));
      if wasmparser.is_nullable rt && ht_shared hty then None else Some t
  | _ => Some t
  end.
Fixpoint decl_types (env : TranslationEnvironment) (decls : list (Z * wasmparser.ValType)) : option (list ir.Type_) :=
  match decls with
  | [] => Some []
  | (count, ty) :: decls => t ← local_type env ty; ts ← decl_types env decls; Some (replicate (Z.to_nat count) t ++ ts)
  end.
