(* ===== verification/CtlEnv.v ===== *)
(** * What the environment answers

    For entities that validate, the environment describes where they are. *)
From stdpp Require Import base list gmap option numbers.
From S2P Require Import Prelude Types Trap Module ModuleTypes VMOffsets HeapAccess Clif ClifLaws FuncState WasmOp FuncEnv CodeTranslator CodeTranslatorCtl CodeTranslatorOps WasmTyping FuncValid.
Local Open Scope Z_scope.

(** The layout is that of the module, its context is smaller than 2 GiB. *)
Record env_ok (env : TranslationEnvironment) : Prop := {
  en_module : module_wf (env_module env);
  en_offsets : for_module (E:=Error) 8 (env_module env) = Ok (env_offsets env);
  en_small : vo_size (env_offsets env) < 2 ^ 31;
  en_types : pm_len (Module.types (env_module env)) < 2 ^ 29 }.

Section Env.
Context (dbg : bool) (env : TranslationEnvironment) (EO : env_ok env).
Abbreviation m := (env_module env).
Abbreviation o := (env_offsets env).

Lemma env_layout : o = layout_of m /\ layout_ok o.
Proof.
  destruct EO as [Hm Ho _ _]. rewrite for_module_closed in Ho by done. destruct (Z.ltb_spec (layout_size m) (2 ^ 32)); [|done].
  injection Ho as <-. split; [done|by apply layout_of_ok].
Qed.
(** The place of an existing member. *)
Lemma member_at f : 0 <= member_index f < member_count o f ->
  exists x n, field_extent (E:=Error) o f = Ok (x, n) /\ 0 <= x /\ x + n < 2 ^ 31 /\ n = (extent_spec o f).2.
Proof.
  intros Hi. destruct env_layout as [_ Hl]. pose proof (extent_in_section _ _ Hl Hi) as [H1 H2]. pose proof (section_in_context _ f Hl) as [H3 H4].
  pose proof (en_small _ EO). exists (extent_spec o f).1, (extent_spec o f).2. split; [|split; [lia|split; [lia|done]]].
  rewrite (accessors_total m); [|apply EO|apply EO|lia]. rewrite (proj2 (Z.ltb_lt _ _)) by lia. by destruct (extent_spec o f).
Qed.
Lemma offset32_ok x : 0 <= x < 2 ^ 31 -> offset32 x = Ok x.
Proof. intros H. unfold offset32, sfits. by rewrite (proj2 (Z.leb_le _ _)), (proj2 (Z.ltb_lt _ _)) by lia. Qed.
(** A field of a member. *)
Lemma field_at base l k x n f : base = Ok x -> l.1 !! k = Some f -> 0 <= x -> x + n < 2 ^ 31 -> 0 <= f <= n ->
  exists y, field_of (E:=Error) base l k = Ok y /\ offset32 y = Ok y.
Proof.
  intros -> Hf Hx Hn Hfn. exists (x + f). split; [|apply offset32_ok; lia]. unfold field_of, u32_offset_of. cbn. rewrite Hf. cbn.
  rewrite try_from_intro by lia. cbn. unfold add. apply ofits_intro. lia.
Qed.

(** ** Globals *)
Lemma global_location i g : pm_get (globals m) i = Some g -> exists gv off, get_global_location env i = Ok (gv, off).
Proof.
  intros Hg%pm_get_range. destruct env_layout as [El Hl]. pose proof (en_module _ EO) as W. unfold get_global_location, defined_global_index, is_imported_global.
  destruct (index_space_split (E:=Error) (num_imported_globals m) (pm_len (globals m)) i) as [[Hi ->]|(Hi & -> & -> & Hd & _)]; [apply W|done|apply W| |].
  - destruct (member_at (F_imported_global i)) as (x & n & Hx & H0 & Hn & En); [rewrite El; cbn; lia|]. cbn in En. apply bind_ok in Hx as (x' & Hx & [= -> <-]).
    destruct (field_at _ VMGlobalImport_layout 0 x 16 0 Hx) as (y & Hy & Ho); [done|done|lia|lia|]. cbn [mbind outcome_bind].
    unfold vmctx_vmglobal_import_from. rewrite Hy. cbn. rewrite Ho. by eexists _, _.
  - destruct (member_at (F_global (i - num_imported_globals m))) as (x & n & Hx & H0 & Hn & En); [rewrite El; cbn; lia|]. cbn in En.
    apply bind_ok in Hx as (x' & Hx & [= -> <-]). cbn [mbind outcome_bind]. rewrite Hx. cbn. rewrite offset32_ok by (lia). by eexists _, _.
Qed.
Lemma global_made i ty : global_type env i = Some ty -> exists gv off, make_global dbg env i = Ok (CG_Memory gv off ty).
Proof.
  intros (g & Hg & H)%bind_Some. destruct (gd_shared g) eqn:Hs; [done|]. destruct (global_location i g Hg) as (gv & off & Hl).
  exists gv, off. unfold make_global, pm_index. rewrite Hg. cbn. rewrite Hs, debug_assert_true by done. cbn. rewrite Hl. cbn.
  destruct (FuncEnv.value_type (gd_content_type g)); by simplify_eq/=.
Qed.

(** ** Functions *)
Lemma function_defined i f : pm_get (functions m) i = Some f -> exists d, defined_func_index (E:=Error) m i = Ok d.
Proof.
  intros Hf%pm_get_range. pose proof (en_module _ EO) as W. unfold defined_func_index, is_imported_func.
  destruct (index_space_split (E:=Error) (num_imported_functions m) (pm_len (functions m)) i) as [[Hi ->]|(Hi & -> & -> & Hd & _)]; [apply W|done|apply W|by eexists..].
Qed.
Lemma import_at i k f : is_imported_func m i = true -> 0 <= i -> VMFunctionImport_layout.1 !! k = Some f -> 0 <= f <= 24 ->
  exists y, field_of (E:=Error) (vmctx_vmfunction_import o i) VMFunctionImport_layout k = Ok y /\ offset32 y = Ok y.
Proof.
  intros Hi%Z.ltb_lt H0 Hk Hf. destruct env_layout as [El Hl].
  destruct (member_at (F_imported_function i)) as (x & n & Hx & Hx0 & Hn & En); [rewrite El; cbn; lia|]. cbn in En. apply bind_ok in Hx as (x' & Hx & [= -> <-]).
  eapply (field_at _ _ k x 24 f Hx); [done|done|lia|lia].
Qed.

(** ** Memories *)
Lemma memory_base i d : pm_get (memories m) i = Some d -> md_shared d = false -> exists x, defined_memory_index (E:=Error) m i = Ok x /\
  match x with
  | Some k => exists y, vmctx_vmmemory_definition_base (E:=Error) o k = Ok y /\ offset32 y = Ok y
  | None => exists y, vmctx_vmmemory_import_from (E:=Error) o i = Ok y /\ offset32 y = Ok y
  end.
Proof.
  intros Hg%pm_get_range Hs. destruct env_layout as [El Hl]. pose proof (en_module _ EO) as W. unfold defined_memory_index, is_imported_memory.
  destruct (index_space_split (E:=Error) (num_imported_memories m) (pm_len (memories m)) i) as [[Hi ->]|(Hi & -> & -> & Hd & _)]; [apply W|done|apply W| |].
  - exists None. split; [done|]. destruct (member_at (F_imported_memory i)) as (x & n & Hx & H0 & Hn & En); [rewrite El; cbn; lia|].
    cbn in En. apply bind_ok in Hx as (x' & Hx & [= -> <-]). eapply (field_at _ _ 0 x 16 0 Hx); [done|done|lia|lia].
  - eexists (Some _). split; [done|]. destruct (member_at (F_memory (i - num_imported_memories m))) as (x & n & Hx & H0 & Hn & En); [rewrite El; cbn; lia|].
    cbn in En. apply bind_ok in Hx as (x' & Hx & [= -> <-]). eapply (field_at _ _ 0 x 16 0 Hx); [done|done|lia|lia].
Qed.
Lemma memory32_inv d : memory32 env d = true -> md_memory64 d = false /\ md_shared d = false /\ memory_type_valid d /\
  te_page_size_align_log2 (env_target env) <= md_page_size_log2 d /\ md_minimum d * 2 ^ md_page_size_log2 d <= 2 ^ 32 /\
  0 <= md_offset_guard_size d /\
  match md_maximum d with Some mx => mx * 2 ^ md_page_size_log2 d <= 2 ^ 32 | None => True end.
Proof.
  unfold memory32. rewrite !andb_true_iff, !negb_true_iff, orb_true_iff, !Z.eqb_eq, !Z.leb_le.
  intros (((((((H1 & H2) & H3) & H4) & H5) & H6) & H8) & H7). split; [done|]. split; [done|].
  assert (1 <= 2 ^ md_page_size_log2 d) as Hp by (destruct H3 as [-> | ->]; lia).
  assert (md_maximum d = None \/ exists mx, md_maximum d = Some mx /\ md_minimum d <= mx /\ mx * 2 ^ md_page_size_log2 d <= 2 ^ 32) as Hmx.
  { destruct (md_maximum d) as [mx|]; [right|by left]. apply andb_true_iff in H7 as [?%Z.leb_le ?%Z.leb_le]. by exists mx. }
  split; [|split; [done|split; [done|split; [done|]]]].
  - split; [tauto|nia|]. intros mx Hm. destruct Hmx as [?|(? & ? & ? & ?)]; simplify_eq. nia.
  - destruct Hmx as [->|(? & -> & ? & ?)]; done.
Qed.
Lemma memory_made pcc i d : pm_get (memories m) i = Some d -> memory32 env d = true ->
  exists mem, make_memory dbg pcc m o i = Ok mem /\ cl_index_type mem = I32_ty /\ cl_bound mem = 2 ^ 32 /\
    cl_page_size_log2 mem = md_page_size_log2 d /\ cl_offset_guard_size mem = md_offset_guard_size d.
Proof.
  intros Hg (H64 & Hs & Hv & _ & Hmin & _ & Hmax)%memory32_inv. destruct (memory_base i d Hg Hs) as (x & Hx & Hb).
  pose proof (mt_min _ Hv) as Hmn. assert (1 <= 2 ^ md_page_size_log2 d) as Hp by (destruct (mt_page _ Hv) as [-> | ->]; lia).
  assert (minimum_byte_size dbg d = Ok (md_minimum d * 2 ^ md_page_size_log2 d)) as Emin.
  { unfold minimum_byte_size. rewrite page_size_valid by done. cbn. unfold checked_mul. rewrite try_from_intro by nia. done. }
  assert (max_size_based_on_index_type (E:=Error) dbg d = Ok (2 ^ 32)) as Ems by (unfold max_size_based_on_index_type; by rewrite H64).
  assert (exists mx, maximum_byte_size dbg d = Ok mx) as (mx & Emax).
  { unfold maximum_byte_size. destruct (md_maximum d) as [mx|] eqn:Em.
    - rewrite page_size_valid by done. cbn. unfold checked_mul. rewrite try_from_intro; [by eexists|]. pose proof (mt_max _ Hv mx Em). nia.
    - rewrite Emin. cbn. unfold max_size_based_on_index_type. rewrite H64. by eexists. }
  unfold make_memory, pm_index. rewrite Hg. cbn [unwrap mbind outcome_bind]. rewrite Hx. cbn [mbind outcome_bind].
  rewrite Emin, Emax, Ems, H64. destruct x as [k|]; destruct Hb as (y & Hy & Ho).
  - rewrite Hs. unfold vmctx_vmmemory_definition_base in *. rewrite Hy. cbn [mbind outcome_bind]. rewrite Ho. by eexists.
  - unfold vmctx_vmmemory_import_from in *. rewrite Hy. cbn [mbind outcome_bind]. rewrite Ho. cbn. by eexists.
Qed.

(** ** Tables *)
Lemma table_base i d : pm_get (tables m) i = Some d -> exists x, defined_table_index (E:=Error) m i = Ok x /\
  match x with
  | Some k => exists y, vmctx_vmtable_definition_base (E:=Error) o k = Ok y /\ offset32 y = Ok y
  | None => exists y, vmctx_vmtable_import_from (E:=Error) o i = Ok y /\ offset32 y = Ok y
  end.
Proof.
  intros Hg%pm_get_range. destruct env_layout as [El Hl]. pose proof (en_module _ EO) as W. unfold defined_table_index, is_imported_table.
  destruct (index_space_split (E:=Error) (num_imported_tables m) (pm_len (tables m)) i) as [[Hi ->]|(Hi & -> & -> & Hd & _)]; [apply W|done|apply W| |].
  - exists None. split; [done|]. destruct (member_at (F_imported_table i)) as (x & n & Hx & H0 & Hn & En); [rewrite El; cbn; lia|].
    cbn in En. apply bind_ok in Hx as (x' & Hx & [= -> <-]). eapply (field_at _ _ 0 x 16 0 Hx); [done|done|lia|lia].
  - eexists (Some _). split; [done|]. destruct (member_at (F_table (i - num_imported_tables m))) as (x & n & Hx & H0 & Hn & En); [rewrite El; cbn; lia|].
    cbn in En. apply bind_ok in Hx as (x' & Hx & [= -> <-]). eapply (field_at _ _ 0 x 16 0 Hx); [done|done|lia|lia].
Qed.
Lemma function_table_inv d : function_table d = true -> Some (td_minimum d) = td_maximum d /\ 0 <= td_minimum d < 2 ^ 32 /\
  ht_shared (Types.heap_type (td_element_type d)) = false /\
  match ht_ty (Types.heap_type (td_element_type d)) with
  | Heap_Func | Heap_ConcreteFunc (Module_ _) => True
  | Heap_NoFunc => nullable (td_element_type d) = true
  | _ => False
  end.
Proof.
  unfold function_table. rewrite !andb_true_iff, negb_true_iff, bool_decide_eq_true, Z.leb_le, Z.ltb_lt.
  intros ((((H1 & H2) & H3) & H4) & H5). split; [done|]. split; [done|]. split; [done|]. by repeat case_match.
Qed.
Lemma table_made i d : pm_get (tables m) i = Some d -> function_table d = true ->
  exists gv, make_table m o i = Ok (mkCraneliftTable gv (td_minimum d) 8).
Proof.
  intros Hg (Hm & Hb & Hs & He)%function_table_inv. destruct (table_base i d Hg) as (x & Hx & Hy).
  assert (top_inner (top (Types.heap_type (td_element_type d))) = Top_Func) as Ht by (unfold top; cbn; by repeat case_match).
  unfold make_table, pm_index. rewrite Hg. cbn [unwrap mbind outcome_bind]. rewrite Hx. cbn [mbind outcome_bind].
  unfold is_vmgcref_type, reference_bytes. rewrite Ht, bool_decide_eq_true_2 by done. destruct x as [k|]; destruct Hy as (y & Hy & Ho).
  - unfold vmctx_vmtable_definition_base in *. rewrite Hy. cbn [mbind outcome_bind]. rewrite Ho. by eexists.
  - unfold vmctx_vmtable_import_from in *. rewrite Hy. cbn [mbind outcome_bind]. rewrite Ho. cbn. by eexists.
Qed.
(** The identifiers of the module's types. *)
Lemma type_ids_at : exists x, vmctx_type_ids (E:=Error) (static_ o) = Ok x.
Proof.
  destruct (member_at F_type_ids) as (x & n & Hx & _); [cbn; lia|]. apply bind_ok in Hx as (x' & Hx & _). by exists x'.
Qed.
Lemma type_offset i ty : pm_get (Module.types m) i = Some ty ->
  exists x, checked_mul 32 i size_of_vmshared_type_index = Some x /\ offset32 x = Ok x.
Proof.
  intros Hi%pm_get_range. pose proof (en_types _ EO). exists (i * 4). split.
  - unfold checked_mul, size_of_vmshared_type_index. rewrite try_from_intro; [done|lia].
  - apply offset32_ok. lia.
Qed.
End Env.
