(* ===== verification/OpTyping.v ===== *)
(** * Typing straight-line translation

    How translation steps act on the builder and the value stack, against the
    laws of [ClifLaws].  A wasm operand is represented by a value of its machine
    type, a 128-bit vector by a value of any vector type.  A computation that
    emits no terminator leaves the control flow as it is ([straight]). *)
From stdpp Require Import base list gmap option numbers.
From S2P Require Import Prelude Types Trap Module ModuleTypes VMOffsets HeapAccess Clif ClifLaws FuncState WasmOp FuncEnv CodeTranslator CodeTranslatorCtl CodeTranslatorOps WasmTyping.
Local Open Scope Z_scope.

(** The representative of the vector types. *)
Definition canon (t : ir.Type_) : ir.Type_ := if ir.is_vector t then ir.I8X16 else t.

Lemma canon_idemp t : canon (canon t) = canon t.
Proof. by destruct t. Qed.

(** ** Successful runs *)
Section Wp.
Context {B : Type}.
Abbreviation M := (SM (TState B) Error).

Definition wp {A} (m : M A) (t : TState B) (Q : A -> TState B -> Prop) : Prop := exists a t', m t = (Ok a, t') /\ Q a t'.

Lemma wp_mono {A} (m : M A) t (P Q : A -> TState B -> Prop) : wp m t P -> (forall a t', P a t' -> Q a t') -> wp m t Q.
Proof. intros (a & t' & Hm & HP) H. exists a, t'. auto. Qed.
Lemma wp_ret {A} (a : A) t (Q : A -> TState B -> Prop) : Q a t -> wp (mret a) t Q.
Proof. intros. by exists a, t. Qed.
Lemma wp_bind {A C} (m : M A) (k : A -> M C) t Q : wp m t (fun a t' => wp (k a) t' Q) -> wp (m ≫= k) t Q.
Proof. intros (a & t' & Hm & c & t'' & Hk & HQ). exists c, t''. split; [|done]. unfold mbind, sm_bind. by rewrite Hm. Qed.
Lemma wp_assoc {A C D} (m : M A) (k : A -> M C) (f : C -> M D) t Q : wp (m ≫= (fun a => k a ≫= f)) t Q -> wp ((m ≫= k) ≫= f) t Q.
Proof. unfold wp, mbind, sm_bind. by destruct (m t) as [[a|e|] t']. Qed.
Lemma wp_lift {A} (x : outcome Error A) a t (Q : A -> TState B -> Prop) : x = Ok a -> Q a t -> wp (sm_lift x) t Q.
Proof. intros -> H. by exists a, t. Qed.
Lemma wp_query {A} (f : B -> A) t (Q : A -> TState B -> Prop) : Q (f (bld t)) t -> wp (query f) t Q.
Proof. intros H. by exists (f (bld t)), t. Qed.
Lemma wp_get {A} (f : FuncTranslationState -> A) t (Q : A -> TState B -> Prop) : Q (f (st t)) t -> wp (get_st f) t Q.
Proof. intros H. by exists (f (st t)), t. Qed.
Lemma wp_upd f t (Q : unit -> TState B -> Prop) : Q tt (mkT (bld t) (f (st t))) -> wp (upd f) t Q.
Proof. intros H. eexists tt, _. by split. Qed.
Lemma wp_peek {A} (f : FuncTranslationState -> outcome Error A) a t (Q : A -> TState B -> Prop) :
  f (st t) = Ok a -> Q a t -> wp (peek f) t Q.
Proof. intros Hf H. exists a, t. unfold peek. by rewrite Hf. Qed.
Lemma wp_mod f s t (Q : unit -> TState B -> Prop) : f (st t) = Ok s -> Q tt (mkT (bld t) s) -> wp (mod_st f) t Q.
Proof. intros Hf H. eexists tt, _. split; [unfold mod_st; by rewrite Hf|done]. Qed.
Lemma wp_onb {A} (c : SM B Error A) a b' t (Q : A -> TState B -> Prop) : c (bld t) = (Ok a, b') -> Q a (mkT b' (st t)) -> wp (onb c) t Q.
Proof. intros Hc H. eexists a, _. split; [unfold onb; by rewrite Hc|done]. Qed.

Lemma wp_pop1 v l t (Q : Value -> TState B -> Prop) : stack (st t) = l ++ [v] -> Q v (mkT (bld t) (set_stack l (st t))) -> wp pop1' t Q.
Proof.
  intros Hs H. eexists v, _. split; [|exact H]. unfold pop1', pop_st, pop1. rewrite Hs, last_snoc. cbn.
  by rewrite length_app, Nat.add_sub, take_app_length.
Qed.
Lemma pop1_snoc {E} v l s : stack s = l ++ [v] -> pop1 (E:=E) s = Ok (v, set_stack l s).
Proof. intros Hs. unfold pop1. rewrite Hs, last_snoc. cbn. by rewrite length_app, Nat.add_sub, take_app_length. Qed.
Lemma wp_pop2 v w l t (Q : Value * Value -> TState B -> Prop) :
  stack (st t) = l ++ [v; w] -> Q (v, w) (mkT (bld t) (set_stack l (st t))) -> wp pop2' t Q.
Proof.
  intros Hs H. eexists (v, w), _. split; [|exact H]. unfold pop2', pop_st, pop2.
  rewrite (pop1_snoc w (l ++ [v])) by (by rewrite <- app_assoc). cbn. by rewrite (pop1_snoc v l).
Qed.
Lemma wp_pop3 u v w l t (Q : Value * Value * Value -> TState B -> Prop) :
  stack (st t) = l ++ [u; v; w] -> Q (u, v, w) (mkT (bld t) (set_stack l (st t))) -> wp pop3' t Q.
Proof.
  intros Hs H. eexists (u, v, w), _. split; [|exact H]. unfold pop3', pop_st, pop3.
  rewrite (pop1_snoc w (l ++ [u; v])) by (by rewrite <- app_assoc). cbn.
  rewrite (pop1_snoc v (l ++ [u])) by (by rewrite <- app_assoc). cbn. by rewrite (pop1_snoc u l).
Qed.
Lemma wp_push v t (Q : unit -> TState B -> Prop) : Q tt (mkT (bld t) (push1 v (st t))) -> wp (push v) t Q.
Proof. apply wp_upd. Qed.
End Wp.

Section Typing.
Context {B : Type} {FB : FunctionBuilder B} {BV : BuilderView B} {LAWS : FunctionBuilderLaws B} {TC : TrapCodes}.
Abbreviation M := (SM (TState B) Error).

(** ** Straight-line code *)
Record straight (b b' : B) : Prop := {
  sl_extends : extends b b';
  sl_declared : forall k, known b k -> declared b' k = declared b k;
  sl_filled : forall k, filled b' k <-> filled b k;
  sl_sealed : forall k, sealed b' k <-> sealed b k;
  sl_edge : forall j d, edge b' j d <-> edge b j d;
  sl_current : current b' = current b;
  sl_clean : forall j, clean b j -> ~ filled b j -> current b <> Some j -> clean b' j }.

Lemma keeps_refl (b : B) : keeps b b.
Proof. by split. Qed.
Lemma keeps_trans (a b c : B) : keeps a b -> keeps b c -> keeps a c.
Proof. intros [] []. split; try (intros; eauto; fail). congruence. Qed.
Lemma extends_refl (b : B) : extends b b.
Proof. split; [apply keeps_refl|done]. Qed.
Lemma extends_trans (a b c : B) : extends a b -> extends b c -> extends a c.
Proof. intros [H1 H2] [H3 H4]. split; [by eapply keeps_trans|]. intros. by rewrite H4. Qed.

Lemma straight_refl b : straight b b.
Proof. by split; [apply extends_refl|..]. Qed.
Lemma straight_trans a b c : straight a b -> straight b c -> straight a c.
Proof.
  intros [X1 D1 F1 S1 E1 U1 C1] [X2 D2 F2 S2 E2 U2 C2]. split.
  - by eapply extends_trans.
  - intros k Hk. rewrite D2; [by apply D1|]. by apply (ex_known _ _ (proj1 X1)).
  - intros k. by rewrite F2.
  - intros k. by rewrite S2.
  - intros j d. by rewrite E2.
  - by rewrite U2.
  - intros j Hj Hf Hc. apply C2; [by apply C1|by rewrite F1|by rewrite U1].
Qed.
Lemma straight_open b b' : straight b b' -> open b -> open b'.
Proof. intros Hs (k & Hk & Hn & Hf). exists k. rewrite (sl_current _ _ Hs), (sl_filled _ _ Hs). split; [done|]. split; [|done].
  by apply (ex_known _ _ (proj1 (sl_extends _ _ Hs))).
Qed.
Lemma straight_type b b' v t : straight b b' -> has_type b v t -> has_type b' v t.
Proof. intros Hs. apply (ex_types _ _ (proj1 (sl_extends _ _ Hs))). Qed.
Lemma same_flow_straight b b' : extends b b' -> same_flow None b b' -> straight b b'.
Proof. intros X [[]]. split; try done; auto. Qed.

(** The operand type [t] is represented by [v]. *)
Definition repr (b : B) (v : Value) (t : ir.Type_) : Prop := exists t', has_type b v t' /\ canon t' = t.
Lemma straight_repr b b' v t : straight b b' -> repr b v t -> repr b' v t.
Proof. intros Hs (t' & Ht & Hc). exists t'. split; [by eapply straight_type|done]. Qed.
Lemma straight_reprs b b' vs ts : straight b b' -> Forall2 (repr b) vs ts -> Forall2 (repr b') vs ts.
Proof. intros Hs Hr. eapply list.Forall2_impl; [exact Hr|]. intros. by eapply straight_repr. Qed.

(** A computation that emits straight-line code and leaves the translation
    state as it is. *)
Definition emits {A} (m : M A) (t : TState B) (P : B -> A -> Prop) : Prop :=
  wp m t (fun a t' => straight (bld t) (bld t') /\ st t' = st t /\ P (bld t') a).

Lemma build_straight b i ts : open b -> inst_ok b i ts -> is_terminator i = false ->
  exists k b', build i b = (Ok k, b') /\ straight b b' /\ Forall2 (has_type b') (inst_results b' k) ts.
Proof.
  intros Ho Hi Ht. destruct (law_build b i ts Ho Hi) as (k & b' & Hb & Hx & Hr & Hf). exists k, b'. split; [done|]. split; [|done].
  destruct Hf as [D F S _ E U C]. split; try done; auto.
  - intros d. rewrite F, Ht. naive_solver.
  - intros j d. rewrite E. split; [|tauto]. intros [?|[_ Hd]]; [done|]. by destruct i; try done; apply not_elem_of_nil in Hd.
Qed.

Lemma emits_insi t i ts : open (bld t) -> inst_ok (bld t) i ts -> is_terminator i = false ->
  emits (insi i) t (fun b k => Forall2 (has_type b) (inst_results b k) ts).
Proof.
  intros Ho Hi Ht. destruct (build_straight (bld t) i ts Ho Hi Ht) as (k & b' & Hb & Hs & Hr).
  eapply wp_onb; [exact Hb|]. by split.
Qed.
Lemma emits_ins1 t i ty : open (bld t) -> inst_ok (bld t) i [ty] -> is_terminator i = false ->
  emits (ins1 i) t (fun b v => has_type b v ty).
Proof.
  intros Ho Hi Ht. apply wp_bind. eapply wp_mono; [by eapply emits_insi|]. intros k t' (Hs & Hst & Hr). apply wp_bind, wp_query.
  inversion Hr as [|v ty' vs tys Hv Hvs Heq]; subst. inversion Hvs; subst. eapply wp_lift; [reflexivity|]. by split.
Qed.
Lemma emits_type t v ty : has_type (bld t) v ty -> emits (value_type_of v) t (fun _ a => a = ty).
Proof.
  intros Hv. apply wp_bind, wp_query. unfold has_type in Hv. rewrite Hv. eapply wp_lift; [reflexivity|].
  split; [apply straight_refl|done].
Qed.

(** Sequencing. *)
Lemma emits_bind {A C} (m : M A) (k : A -> M C) t P Q :
  emits m t P -> (forall a t', straight (bld t) (bld t') -> st t' = st t -> P (bld t') a -> emits (k a) t' Q) -> emits (m ≫= k) t Q.
Proof.
  intros Hm Hk. apply wp_bind. eapply wp_mono; [exact Hm|]. intros a t' (Hs & He & Hp).
  eapply wp_mono; [by apply Hk|]. intros c t'' (Hs' & He' & Hq). split; [by eapply straight_trans|]. split; [congruence|done].
Qed.
Lemma emits_ret {A} (a : A) t (P : B -> A -> Prop) : P (bld t) a -> emits (mret a) t P.
Proof. intros. apply wp_ret. by split; [apply straight_refl|]. Qed.
Lemma emits_lift {A} (x : outcome Error A) a t : x = Ok a -> emits (sm_lift x) t (fun _ a' => a' = a).
Proof. intros ->. by apply (emits_ret a). Qed.
Lemma emits_wp {A} (m : M A) t (P : B -> A -> Prop) Q : emits m t P ->
  (forall a t', straight (bld t) (bld t') -> st t' = st t -> P (bld t') a -> Q a t') -> wp m t Q.
Proof. intros Hm Hk. eapply wp_mono; [exact Hm|]. intros a t' (Hs & He & Hp). by apply Hk. Qed.

(** Instructions on values of exact types. *)
Lemma emits_op t o ctrl args imm tys ty : open (bld t) -> Forall2 (has_type (bld t)) args tys -> op_sig o ctrl tys imm = Some [ty] ->
  emits (ins1 (Op o ctrl args imm)) t (fun b v => has_type b v ty).
Proof. intros Ho Ha Hs. apply emits_ins1; [done| |done]. by exists tys. Qed.

(** Casting a vector. *)
Lemma is_vector_bytes t : ir.is_vector t = true -> ir.bytes t = 16.
Proof. by destruct t. Qed.
Lemma canon_vector t : canon t = ir.I8X16 -> ir.is_vector t = true.
Proof. by destruct t. Qed.
Lemma emits_bitcast t v ty ty' : open (bld t) -> has_type (bld t) v ty' -> ir.is_vector ty' = true -> ir.is_vector ty = true ->
  emits (bitcast_little ty v) t (fun b a => has_type b a ty).
Proof.
  intros Ho Hv H1 H2. apply (emits_op _ _ _ _ _ [ty']); [done|by constructor|]. cbn. by rewrite !is_vector_bytes.
Qed.
Lemma emits_cast t v ty : open (bld t) -> repr (bld t) v ir.I8X16 -> ir.is_vector ty = true ->
  emits (optionally_bitcast_vector v ty) t (fun b a => has_type b a ty).
Proof.
  intros Ho (ty' & Hv & Hc%canon_vector) Hty. eapply emits_bind; [by apply emits_type|]. intros ? t' Hs He ->. case_bool_decide as E.
  - apply emits_ret. subst. by eapply straight_type.
  - eapply emits_bitcast; [by eapply straight_open|by eapply straight_type|done|done].
Qed.

(** ** Stepping through an operator

    [at_ b s pre ws t]: straight-line code has been emitted since [b]; the
    translation state is [s] but for the value stack, which is [pre] and the
    values [ws] of the operator at hand. *)
Definition at_ (b : B) (s : FuncTranslationState) (pre ws : list Value) (t : TState B) : Prop :=
  straight b (bld t) /\ st t = set_stack (pre ++ ws) s /\ open (bld t).
Definition steps {A} (m : M A) (ws ws' : list Value) (t : TState B) (P : B -> A -> Prop) : Prop :=
  forall b s pre, at_ b s pre ws t -> wp m t (fun a t' => straight (bld t) (bld t') /\ at_ b s pre ws' t' /\ P (bld t') a).

Lemma steps_bind {A C} (m : M A) (k : A -> M C) t ws ws' b s pre P Q :
  steps m ws ws' t P -> at_ b s pre ws t ->
  (forall a t', straight (bld t) (bld t') -> at_ b s pre ws' t' -> P (bld t') a -> wp (k a) t' Q) -> wp (m ≫= k) t Q.
Proof. intros Hm Ha Hk. apply wp_bind. eapply wp_mono; [by apply Hm|]. intros a t' (? & ? & ?). by apply Hk. Qed.
Lemma steps_emits {A} (m : M A) ws t (P : B -> A -> Prop) : (open (bld t) -> emits m t P) -> steps m ws ws t P.
Proof.
  intros Hm b s pre (Hs & He & Ho). eapply wp_mono; [by apply Hm|]. intros a t' (Hs' & He' & Hp). split; [done|]. split; [|done].
  split; [by eapply straight_trans|]. split; [congruence|by eapply straight_open].
Qed.
Lemma at_restack b s pre ws ws' t : at_ b s pre ws t -> at_ b s pre ws' (mkT (bld t) (set_stack (pre ++ ws') (st t))).
Proof. intros (Hs & He & Ho). split; [done|]. split; [cbn; by rewrite He|done]. Qed.
Lemma steps_pop1 ws v t : steps pop1' (ws ++ [v]) ws t (fun _ a => a = v).
Proof.
  intros b s pre Ha. pose proof Ha as (Hs & He & Ho). eapply (wp_pop1 v (pre ++ ws)); [by rewrite He, app_assoc|].
  split; [apply straight_refl|]. split; [by eapply at_restack|done].
Qed.
Lemma steps_pop2 ws v w t : steps pop2' (ws ++ [v; w]) ws t (fun _ a => a = (v, w)).
Proof.
  intros b s pre Ha. pose proof Ha as (Hs & He & Ho). eapply (wp_pop2 v w (pre ++ ws)); [by rewrite He, app_assoc|].
  split; [apply straight_refl|]. split; [by eapply at_restack|done].
Qed.
Lemma steps_pop3 ws u v w t : steps pop3' (ws ++ [u; v; w]) ws t (fun _ a => a = (u, v, w)).
Proof.
  intros b s pre Ha. pose proof Ha as (Hs & He & Ho). eapply (wp_pop3 u v w (pre ++ ws)); [by rewrite He, app_assoc|].
  split; [apply straight_refl|]. split; [by eapply at_restack|done].
Qed.
Lemma steps_push ws v t : steps (push v) ws (ws ++ [v]) t (fun _ _ => True).
Proof.
  intros b s pre (Hs & He & Ho). apply wp_push. split; [apply straight_refl|]. split; [|done]. split; [done|]. split; [|done].
  cbn. unfold push1. rewrite He. cbn. by rewrite <- app_assoc.
Qed.
Lemma steps_lift {A} (x : outcome Error A) a ws t : x = Ok a -> steps (sm_lift x) ws ws t (fun _ a' => a' = a).
Proof. intros ->. apply steps_emits. intros _. by apply (emits_ret a). Qed.
Lemma steps_seq {A C} (m : M A) (k : A -> M C) ws ws1 ws' t P Q : steps m ws ws1 t P ->
  (forall a t', straight (bld t) (bld t') -> P (bld t') a -> steps (k a) ws1 ws' t' Q) -> steps (m ≫= k) ws ws' t Q.
Proof.
  intros Hm Hk b s pre Ha. apply wp_bind. eapply wp_mono; [by apply Hm|]. intros a t' (Hs & Ha' & Hp).
  eapply wp_mono; [by apply Hk|]. intros c t'' (Hs' & Ha'' & Hq). split; [by eapply straight_trans|done].
Qed.
Lemma steps_ret {A} (a : A) ws t (P : B -> A -> Prop) : P (bld t) a -> steps (mret a) ws ws t P.
Proof. intros. apply steps_emits. intros _. by apply emits_ret. Qed.

(** The operand type determines a scalar's machine type. *)
Lemma repr_scalar b v t : ir.is_vector t = false -> repr b v t -> has_type b v t.
Proof. intros Ht (t' & Hv & Hc). destruct t'; cbn in Hc; subst; try done. Qed.
Lemma repr_vector b v : repr b v ir.I8X16 -> exists t, has_type b v t /\ ir.is_vector t = true.
Proof. intros (t' & Hv & Hc%canon_vector). by exists t'. Qed.

(** *** Steps of operators *)
Lemma steps_cast ws v ty t : repr (bld t) v ir.I8X16 -> ir.is_vector ty = true ->
  steps (optionally_bitcast_vector v ty) ws ws t (fun b a => has_type b a ty).
Proof. intros. apply steps_emits. intros. by apply emits_cast. Qed.
Lemma steps_pop1_cast ws v ty t : repr (bld t) v ir.I8X16 -> ir.is_vector ty = true ->
  steps (pop1_with_bitcast ty) (ws ++ [v]) ws t (fun b a => has_type b a ty).
Proof.
  intros Hv Hty. eapply steps_seq; [apply steps_pop1|]. intros ? t' Hs ->. apply steps_cast; [by eapply straight_repr|done].
Qed.
Lemma steps_pop2_cast ws v w ty t : repr (bld t) v ir.I8X16 -> repr (bld t) w ir.I8X16 -> ir.is_vector ty = true ->
  steps (pop2_with_bitcast ty) (ws ++ [v; w]) ws t (fun b p => has_type b p.1 ty /\ has_type b p.2 ty).
Proof.
  intros Hv Hw Hty. eapply steps_seq; [apply steps_pop2|]. intros ? t1 Hs1 ->.
  eapply steps_seq; [apply steps_cast; [by eapply straight_repr|done]|]. intros a t2 Hs2 Ha.
  eapply steps_seq; [apply steps_cast; [|done]|].
  { eapply straight_repr; [|exact Hw]. by eapply straight_trans. }
  intros c t3 Hs3 Hc. apply steps_ret. split; [by eapply straight_type|done].
Qed.
Lemma steps_pop3_cast ws u v w ty t : repr (bld t) u ir.I8X16 -> repr (bld t) v ir.I8X16 -> repr (bld t) w ir.I8X16 -> ir.is_vector ty = true ->
  steps (pop3_with_bitcast ty) (ws ++ [u; v; w]) ws t
    (fun b p => has_type b p.1.1 ty /\ has_type b p.1.2 ty /\ has_type b p.2 ty).
Proof.
  intros Hu Hv Hw Hty. eapply steps_seq; [apply steps_pop3|]. intros ? t1 Hs1 ->.
  eapply steps_seq; [apply steps_cast; [by eapply straight_repr|done]|]. intros a t2 Hs2 Ha.
  assert (straight (bld t) (bld t2)) by (by eapply straight_trans).
  eapply steps_seq; [apply steps_cast; [by eapply straight_repr|done]|]. intros c t3 Hs3 Hc.
  assert (straight (bld t) (bld t3)) by (by eapply straight_trans).
  eapply steps_seq; [apply steps_cast; [by eapply straight_repr|done]|]. intros d t4 Hs4 Hd.
  apply steps_ret. cbn. split; [|split; [by eapply straight_type|done]]. eapply straight_type; [exact Hs4|]. by eapply (straight_type _ _ _ _ Hs3).
Qed.
Lemma steps_op ws t o ctrl args imm tys ty : Forall2 (has_type (bld t)) args tys -> op_sig o ctrl tys imm = Some [ty] ->
  steps (ins1 (Op o ctrl args imm)) ws ws t (fun b v => has_type b v ty).
Proof. intros. apply steps_emits. intros. by eapply emits_op. Qed.
Lemma steps_bnot ws t x : repr (bld t) x ir.I8X16 -> steps (ins1 (Op ir.Bnot None [x] [])) ws ws t (fun b v => repr b v ir.I8X16).
Proof.
  intros (ty & Hx & Hc). apply steps_emits. intros Ho. eapply wp_mono; [by eapply (emits_op t ir.Bnot None [x] [] [ty] ty); [|constructor|]|].
  intros v t' (Hs & He & Hv). split; [done|]. split; [done|]. by exists ty.
Qed.
Lemma steps_vconst ws t ty l : ir.is_vector ty = true -> pm_len l =? 16 = true ->
  steps (ins1 (Op ir.Vconst (Some ty) [] l)) ws ws t (fun b v => has_type b v ty).
Proof. intros Hv Hl. eapply (steps_op _ _ _ _ _ _ []); [done|]. unfold op_sig. by rewrite Hv, Hl. Qed.
Lemma steps_shuffle ws t x y l : has_type (bld t) x ir.I8X16 -> has_type (bld t) y ir.I8X16 -> pm_len l =? 16 = true ->
  steps (ins1 (Op ir.Shuffle None [x; y] l)) ws ws t (fun b v => has_type b v ir.I8X16).
Proof. intros Hx Hy Hl. eapply steps_op; [by repeat constructor|]. unfold op_sig. by rewrite Hl. Qed.
Lemma steps_extractlane ws t ctrl x lane ty : has_type (bld t) x ty -> ir.is_vector ty = true -> (0 <=? lane) && (lane <? ir.lane_count ty) = true ->
  steps (ins1 (Op ir.Extractlane ctrl [x] [lane])) ws ws t (fun b v => has_type b v (ir.lane_type ty)).
Proof. intros Hx Hv Hl. eapply steps_op; [by constructor|]. cbn. by rewrite Hv, <- andb_assoc, Hl. Qed.
Lemma steps_insertlane ws t ctrl x y lane ty : has_type (bld t) x ty -> has_type (bld t) y (ir.lane_type ty) -> ir.is_vector ty = true ->
  (0 <=? lane) && (lane <? ir.lane_count ty) = true ->
  steps (ins1 (Op ir.Insertlane ctrl [x; y] [lane])) ws ws t (fun b v => has_type b v ty).
Proof.
  intros Hx Hy Hv Hl. eapply steps_op; [by repeat constructor|]. cbn. by rewrite Hv, bool_decide_eq_true_2, <- andb_assoc, Hl.
Qed.
Lemma steps_icmp ws t cc x y ty : has_type (bld t) x ty -> has_type (bld t) y ty -> int_lanes ty = true ->
  steps (ins1 (Icmp cc x y)) ws ws t (fun b v => has_type b v (truth_type ty)).
Proof. intros. apply steps_emits. intros. apply emits_ins1; [done| |done]. by exists ty. Qed.
Lemma steps_icmp_imm ws t cc x imm ty : has_type (bld t) x ty -> ir.is_int ty = true ->
  steps (ins1 (IcmpImm cc x imm)) ws ws t (fun b v => has_type b v ir.I8).
Proof. intros. apply steps_emits. intros. apply emits_ins1; [done| |done]. by exists ty. Qed.
Lemma steps_fcmp ws t cc x y ty : has_type (bld t) x ty -> has_type (bld t) y ty -> float_lanes ty = true ->
  steps (ins1 (Fcmp cc x y)) ws ws t (fun b v => has_type b v (truth_type ty)).
Proof. intros. apply steps_emits. intros. apply emits_ins1; [done| |done]. by exists ty. Qed.
Lemma steps_insi ws t i : inst_ok (bld t) i [] -> is_terminator i = false -> steps (insi i) ws ws t (fun _ _ => True).
Proof. intros Hi Ht. apply steps_emits. intros. eapply wp_mono; [by eapply emits_insi|]. intros ? ? (? & ? & ?). by split. Qed.

(** ** Operators *)
Definition op_typed (m : M unit) (ins outs : list ir.Type_) : Prop :=
  forall t pre vs, stack (st t) = pre ++ vs -> Forall2 (repr (bld t)) vs ins -> open (bld t) ->
  wp m t (fun _ t' => exists vs', straight (bld t) (bld t') /\ st t' = set_stack (pre ++ vs') (st t) /\ Forall2 (repr (bld t')) vs' outs).

Lemma at_start t pre vs : stack (st t) = pre ++ vs -> open (bld t) -> at_ (bld t) (st t) pre vs t.
Proof. intros Hs Ho. split; [apply straight_refl|]. split; [|done]. rewrite <- Hs. by destruct (st t). Qed.
Definition leaves (b : B) (s : FuncTranslationState) (pre : list Value) (outs : list ir.Type_) (t : TState B) : Prop :=
  exists vs, at_ b s pre vs t /\ Forall2 (repr (bld t)) vs outs.
Lemma op_typed_intro (m : M unit) ins outs :
  (forall b s pre vs t, Forall2 (repr (bld t)) vs ins -> at_ b s pre vs t -> wp m t (fun _ => leaves b s pre outs)) -> op_typed m ins outs.
Proof.
  intros Hm t pre vs Hs Hv Ho. eapply wp_mono; [by eapply Hm, at_start|].
  intros _ t' (vs' & (Hs' & He & _) & Hr). by exists vs'.
Qed.
Lemma finish_push b s pre ws v t ty outs : at_ b s pre ws t -> repr (bld t) v ty ->
  Forall2 (repr (bld t)) ws outs -> wp (push v) t (fun _ => leaves b s pre (outs ++ [ty])).
Proof.
  intros Ha Hv Hw. eapply wp_mono; [by apply (steps_push ws v t b s pre)|]. intros _ t' (Hs & Ha' & _). exists (ws ++ [v]).
  split; [done|]. apply Forall2_app; [by eapply straight_reprs|]. constructor; [|done]. by eapply straight_repr.
Qed.
Lemma finish b s pre ws t outs : at_ b s pre ws t -> Forall2 (repr (bld t)) ws outs -> wp (mret tt) t (fun _ => leaves b s pre outs).
Proof. intros. apply wp_ret. by exists ws. Qed.
End Typing.

(** ** Plain operators are translated well-typed

    Every numeric and vector operator of [WasmTyping] is translated without
    panicking when its operands are on the stack, to straight-line code that
    replaces them by its results. *)
Import Operator.
Local Open Scope Z_scope.

(** ** Stepping tactics

    After a step, what is known of the values holds in the new state. *)
Ltac carry_over Hs :=
  repeat match goal with
    | Hv : has_type ?b _ _ |- _ => match type of Hs with straight b _ => apply (straight_type _ _ _ _ Hs) in Hv end
    | Hv : repr ?b _ _ |- _ => match type of Hs with straight b _ => apply (straight_repr _ _ _ _ Hs) in Hv end
    end.
Ltac split_pair v := lazymatch type of v with (_ * _)%type => let x := fresh "x" in let y := fresh "y" in destruct v as [x y]; split_pair x | _ => idtac end.
Ltac tidy H :=
  lazymatch type of H with
  | _ /\ _ => let H' := fresh "Hv" in destruct H as [H H']; tidy H; tidy H'
  | True => clear H
  | (_, _) = (_, _) => injection H; clear H; intros; subst
  | _ = _ => subst
  | _ => idtac
  end.
Ltac next Ha :=
  let v := fresh "v" in let t' := fresh "t" in let Hs := fresh "Str" in let Ha' := fresh "At" in let Hv := fresh "Hv" in
  intros v t' Hs Ha' Hv; carry_over Hs; clear Hs Ha; cbn beta in Hv; split_pair v; cbn [fst snd] in Hv; cbn [app] in Ha'; tidy Hv; cbn beta iota.
(** The operands of an instruction have known types. *)
Ltac known_types := repeat first [apply List.Forall2_nil|apply List.Forall2_cons; [eassumption|]].
Ltac represented := first [assumption|eexists; split; [eassumption|reflexivity]].
Ltac one_step ws :=
  lazymatch goal with
  | |- steps pop1' _ _ _ _ =>
      lazymatch ws with
      | [?x] => exact (steps_pop1 [] x _) | [?x; ?y] => exact (steps_pop1 [x] y _) | [?x; ?y; ?z] => exact (steps_pop1 [x; y] z _) end
  | |- steps pop2' _ _ _ _ => lazymatch ws with [?x; ?y] => exact (steps_pop2 [] x y _) end
  | |- steps pop3' _ _ _ _ => lazymatch ws with [?x; ?y; ?z] => exact (steps_pop3 [] x y z _) end
  | |- steps (pop1_with_bitcast _) _ _ _ _ =>
      lazymatch ws with
      | [?x] => apply (steps_pop1_cast [] x) | [?x; ?y; ?z] => apply (steps_pop1_cast [x; y] z) end; [assumption|reflexivity]
  | |- steps (pop2_with_bitcast _) _ _ _ _ => lazymatch ws with [?x; ?y] => apply (steps_pop2_cast [] x y) end; [assumption..|reflexivity]
  | |- steps (pop3_with_bitcast _) _ _ _ _ => lazymatch ws with [?x; ?y; ?z] => apply (steps_pop3_cast [] x y z) end; [assumption..|reflexivity]
  | |- steps (optionally_bitcast_vector _ _) _ _ _ _ => apply steps_cast; [represented|reflexivity]
  | |- steps (ins1 (Op ir.Bnot _ _ _)) _ _ _ _ => apply steps_bnot; assumption
  | |- steps (ins1 (Op ir.Vconst _ _ _)) _ _ _ _ => apply steps_vconst; [reflexivity|first [reflexivity|assumption]]
  | |- steps (ins1 (Op ir.Shuffle _ _ _)) _ _ _ _ => apply steps_shuffle; assumption
  | |- steps (ins1 (Op ir.Extractlane _ _ _)) _ _ _ _ => eapply steps_extractlane; [eassumption|reflexivity|assumption]
  | |- steps (ins1 (Op ir.Insertlane _ _ _)) _ _ _ _ => eapply steps_insertlane; [eassumption|eassumption|reflexivity|assumption]
  | |- steps (ins1 (Op _ _ _ _)) _ _ _ _ => eapply steps_op; [known_types|first [reflexivity|eassumption]]
  | |- steps (ins1 (Icmp _ _ _)) _ _ _ _ => eapply steps_icmp; [eassumption..|reflexivity]
  | |- steps (ins1 (IcmpImm _ _ _)) _ _ _ _ => eapply steps_icmp_imm; [eassumption|reflexivity]
  | |- steps (ins1 (Fcmp _ _ _)) _ _ _ _ => eapply steps_fcmp; [eassumption..|reflexivity]
  | |- steps (insi _) _ _ _ _ => apply steps_insi; reflexivity
  | |- steps (sm_lift _) _ _ _ _ => apply steps_lift; reflexivity
  | |- steps (push ?v) _ _ _ _ => apply steps_push
  end.
Ltac go :=
  lazymatch goal with
  | |- wp ((if ?c then _ else _) ≫= _) _ _ => destruct c; go
  | |- wp ((_ ≫= _) ≫= _) _ _ => apply wp_assoc; go
  | Ha : at_ ?b ?s ?pre ?ws ?t |- wp (_ ≫= _) ?t _ =>
      eapply (steps_bind _ _ _ ws); [one_step ws|exact Ha|next Ha; go]
  | Ha : at_ ?b ?s ?pre ?ws ?t |- wp (push ?v) ?t _ =>
      lazymatch ws with [] => eapply (finish_push _ _ _ [] _ _ _ [] Ha); [represented|apply List.Forall2_nil] end
  | Ha : at_ ?b ?s ?pre ?ws ?t |- wp (mret tt) ?t _ => eapply finish; [exact Ha|known_types]
  end.

Section Plain.
Context {B : Type} {FB : FunctionBuilder B} {BV : BuilderView B} {LAWS : FunctionBuilderLaws B} {TC : TrapCodes}.
Context (dbg : bool) (env : TranslationEnvironment) (validator : FuncValidator).
Abbreviation M := (SM (TState B) Error).

Ltac expose :=
  lazy [translate_reachable_operator translate_control translate_arithmetic translate_const translate_integer translate_float
    translate_comparison translate_load_op translate_store_op translate_extension translate_reference translate_bulk_memory
    translate_atomic_sync translate_atomic_access translate_atomic_update translate_simd translate_simd_load translate_simd_splat
    translate_simd_lane translate_simd_int translate_simd_compare translate_simd_float translate_simd_narrow translate_simd_ext
    translate_relaxed_simd translate_function_reference
    unary unary_to binary unary_cast unary_cast_to binary_cast translate_icmp translate_fcmp translate_vector_icmp translate_vector_fcmp
    op0 op1 op1_to op2 op3 dot_i8x16 multiply_add CodeTranslatorOps.type_of].
Ltac operands :=
  repeat match goal with
    | H : Forall2 _ _ (_ :: _) |- _ => apply Forall2_cons_inv_r in H as (? & ? & ? & H & ->)
    | H : Forall2 _ _ [] |- _ => apply Forall2_nil_inv_r in H as ->
    | H : repr _ _ ?t |- _ => lazymatch t with ir.I8X16 => fail | _ => apply repr_scalar in H; [|reflexivity] end
    end.
(** The immediates of the operator, and its operand types. *)
Ltac signature H :=
  unfold extract, replace, lane_in, with_lanes, unop, binop, ternop, testop, relop, cvtop, shiftop in H;
  try match type of H with (if ?c then _ else _) = _ => let Hc := fresh "Hc" in destruct c eqn:Hc; [|discriminate H] end;
  injection H; clear H; intros; subst.
Ltac typed H := signature H; apply op_typed_intro; intros b s pre vs t Hv Ha; operands; expose; go.

Lemma numeric_typed op ins outs : numeric_sig op = Some (ins, outs) -> op_typed (translate_reachable_operator dbg env validator op) ins outs.
Proof. intros H. destruct op; lazy [numeric_sig] in H; try discriminate H; typed H. Qed.
Lemma vector_typed op ins outs : vector_sig op = Some (ins, outs) -> op_typed (translate_reachable_operator dbg env validator op) ins outs.
Proof. intros H. destruct op; lazy [vector_sig] in H; try discriminate H; typed H. Qed.
End Plain.
