(* ===== verification/CtlInv.v ===== *)
(** * The state of the builder during translation

    What holds of the blocks of the open control frames between two operators,
    and how builder commands act on it.  Blocks that belong to frames are
    protected: no command touches them but the ones that enter or leave their
    frame ([evolves]). *)
From stdpp Require Import base list gmap option numbers.
From S2P Require Import Prelude Types Trap Module ModuleTypes VMOffsets HeapAccess Clif ClifLaws FuncState WasmOp FuncEnv CodeTranslator CodeTranslatorCtl CodeTranslatorOps WasmTyping FuncValid OpTyping.
Local Open Scope Z_scope.

(** ** Frames and their blocks *)
Definition blocks_of (f : ControlStackFrame) : list Block :=
  match f with
  | Block_ d _ _ _ _ => [d]
  | Loop_ d h _ _ _ => [d; h]
  | If_ d (WithElse e) _ _ _ _ _ _ None => [d; e]
  | If_ d _ _ _ _ _ _ _ _ => [d]
  end.
Abbreviation frame_blocks fs := (concat (blocks_of <$> fs)).
Definition header_of (f : ControlStackFrame) : list Block := match f with Loop_ _ h _ _ _ => [h] | _ => [] end.
Abbreviation headers fs := (concat (header_of <$> fs)).

(** The branch of an [if] that may still be redirected to an [else]. *)
Definition pending (f : ControlStackFrame) : option Inst :=
  match f with If_ _ (NoElse i _) _ _ _ _ _ _ None => Some i | _ => None end.

Section Inv.
Context {B : Type} {FB : FunctionBuilder B} {BV : BuilderView B} {LAWS : FunctionBuilderLaws B} {TC : TrapCodes}.
Abbreviation M := (SM (TState B) Error).

Record dest_ok (b : B) (d : Block) (tys : list ir.Type_) : Prop := {
  do_known : known b d; do_filled : ~ filled b d; do_sealed : ~ sealed b d; do_current : current b <> Some d;
  do_declared : declared b d = tys; do_clean : clean b d }.
Record header_ok (b : B) (h : Block) (tys : list ir.Type_) : Prop := {
  ho_known : known b h; ho_sealed : ~ sealed b h; ho_declared : declared b h = tys }.
Record else_ok (b : B) (e : Block) : Prop := {
  eo_known : known b e; eo_filled : ~ filled b e; eo_sealed : sealed b e; eo_current : current b <> Some e;
  eo_edge : exists j, edge b j e }.

(** The code after the frame is reached by a branch that stays. *)
Definition firm (b : B) (f : ControlStackFrame) : Prop := exists j, edge b j (following_code f) /\ pending f <> Some j.

(** Instructions go to a block that can be reached. *)
Definition live (b : B) : Prop :=
  exists c, current b = Some c /\ known b c /\ ~ filled b c /\ (entry b = Some c \/ exists j, edge b j c).
Definition ended (b : B) : Prop := exists c, current b = Some c /\ known b c /\ filled b c.
(** Blocks that have been entered are sealed, loop headers excepted. *)
Definition tight (b : B) (hs : list Block) : Prop := forall k, filled b k \/ current b = Some k -> sealed b k \/ k ∈ hs.

Lemma live_open b : live b -> open b.
Proof. intros (c & Hc & Hk & Hf & _). by exists c. Qed.
Lemma live_reached b : live b -> is_unreachable b = false.
Proof. intros (c & Hc & _ & _ & Hr). by eapply law_unreachable. Qed.

(** ** Evolution *)
Record evolves (K : list Block) (b b' : B) : Prop := {
  ev_extends : extends b b';
  ev_declared : forall k, k ∈ K -> declared b' k = declared b k;
  ev_filled : forall k, k ∈ K -> filled b' k -> filled b k \/ current b = Some k;
  ev_sealed : forall k, k ∈ K -> sealed b' k <-> sealed b k;
  ev_current : forall k, k ∈ K -> current b' = Some k -> current b = Some k;
  ev_clean : forall k, k ∈ K -> clean b k -> ~ filled b k -> current b <> Some k -> clean b' k;
  ev_edge : forall j k, k ∈ K -> edge b j k -> edge b' j k }.

Lemma evolves_refl K b : evolves K b b.
Proof. split; try done; auto using extends_refl. Qed.
Lemma evolves_trans K a b c : evolves K a b -> evolves K b c -> evolves K a c.
Proof.
  intros [X1 D1 F1 S1 U1 C1 E1] [X2 D2 F2 S2 U2 C2 E2]. split.
  - by eapply extends_trans.
  - intros k Hk. rewrite D2 by done. by apply D1.
  - intros k Hk Hf. destruct (F2 k Hk Hf) as [?|?]; [by apply F1|right; by apply U1].
  - intros k Hk. by rewrite S2, S1.
  - intros k Hk ?. by apply U1, U2.
  - intros k Hk Hc Hf Hu. apply C2; [done|by apply C1| |].
    + intros [?|?]%F1; done.
    + intros ?%U1; done.
  - intros j k Hk ?. by apply E2, E1.
Qed.
Lemma evolves_mono K K' b b' : K' ⊆ K -> evolves K b b' -> evolves K' b b'.
Proof. intros Hs []. split; try done; intros; eauto. Qed.
Lemma straight_evolves K b b' : (forall k, k ∈ K -> known b k) -> straight b b' -> evolves K b b'.
Proof.
  intros HK [X D F S E U C]. split; auto.
  - intros k Hk Hf. left. by apply F.
  - intros k Hk Hc. by rewrite <- U.
  - intros j k _ He. by apply E.
Qed.

(** A branch, together with the straight-line code before it. *)
Record branched (ds : list Block) (j : Inst) (b b' : B) : Prop := {
  br_extends : extends b b';
  br_declared : forall k, known b k -> declared b' k = declared b k;
  br_filled : forall k, filled b' k <-> filled b k \/ current b = Some k;
  br_sealed : forall k, sealed b' k <-> sealed b k;
  br_fresh : forall d, ~ edge b j d;
  br_edge : forall i d, edge b' i d <-> edge b i d \/ (i = j /\ d ∈ ds);
  br_current : current b' = current b;
  br_clean : forall k, clean b k -> ~ filled b k -> current b <> Some k -> clean b' k }.
Lemma branched_evolves K ds j b b' : (forall k, k ∈ K -> known b k) -> branched ds j b b' -> evolves K b b'.
Proof.
  intros HK [X D F S N E U C]. split; auto.
  - intros k _ Hf. by apply F.
  - intros k _ Hc. by rewrite <- U.
  - intros i k _ He. apply E. by left.
Qed.
Lemma straight_branched b b1 b2 i j : straight b b1 -> extends b1 b2 -> flow_after i j b1 b2 -> is_terminator i = true ->
  branched (branch_targets i) j b b2.
Proof.
  intros [X D F S E U C] X2 [D2 F2 S2 N2 E2 U2 C2] Ht. split.
  - by eapply extends_trans.
  - intros k Hk. rewrite D2; [by apply D|]. by apply (ex_known _ _ (proj1 X)).
  - intros k. rewrite F2, F, U, Ht. tauto.
  - intros k. by rewrite S2.
  - intros d He. by apply (N2 d), E.
  - intros i' d. by rewrite E2, E.
  - by rewrite U2.
  - intros k Hc Hf Hk. by apply C2, C.
Qed.
Lemma branched_ended ds j b b' : live b -> branched ds j b b' -> ended b'.
Proof.
  intros (c & Hc & Hk & _) Hb. exists c. rewrite (br_current _ _ _ _ Hb). split; [done|].
  split; [by apply (ex_known _ _ (proj1 (br_extends _ _ _ _ Hb)))|]. apply (br_filled _ _ _ _ Hb). by right.
Qed.
Lemma branched_tight hs ds j b b' : tight b hs -> branched ds j b b' -> tight b' hs.
Proof.
  intros Ht Hb k Hk. rewrite (br_sealed _ _ _ _ Hb). apply Ht. rewrite (br_filled _ _ _ _ Hb), (br_current _ _ _ _ Hb) in Hk. tauto.
Qed.
Lemma straight_tight hs b b' : tight b hs -> straight b b' -> tight b' hs.
Proof.
  intros Ht Hs k Hk. rewrite (sl_sealed _ _ Hs). apply Ht. by rewrite (sl_filled _ _ Hs), (sl_current _ _ Hs) in Hk.
Qed.
Lemma straight_live b b' : live b -> straight b b' -> live b'.
Proof.
  intros (c & Hc & Hk & Hf & He) Hs. exists c. rewrite (sl_current _ _ Hs), (sl_filled _ _ Hs). destruct (sl_extends _ _ Hs) as [X _].
  split; [done|]. split; [by apply (ex_known _ _ X)|]. split; [done|]. destruct He as [He|[j He]]; [left|right].
  - by apply (ex_entry _ _ X).
  - exists j. by apply (sl_edge _ _ Hs).
Qed.

(** ** A new block *)
Record made (b b' : B) (k : Block) (tys : list ir.Type_) : Prop := {
  md_extends : extends b b';
  md_declared : forall j, known b j -> declared b' j = declared b j;
  md_filled : forall j, filled b' j <-> filled b j;
  md_sealed : forall j, sealed b' j <-> sealed b j;
  md_edge : forall i j, edge b' i j <-> edge b i j;
  md_current : current b' = current b;
  md_clean : forall j, clean b j -> clean b' j;
  md_new : ~ known b k; md_known : known b' k; md_unfilled : ~ filled b k; md_unsealed : ~ sealed b k;
  md_no_edge : forall j, ~ edge b j k; md_params : declared b' k = tys; md_fresh : clean b' k }.

Lemma made_evolves K b b' k tys : (forall k, k ∈ K -> known b k) -> made b b' k tys -> evolves K b b'.
Proof.
  intros HK []. split; auto.
  - intros j _ Hf. left. naive_solver.
  - intros j _. congruence.
  - naive_solver.
Qed.
Lemma made_live b b' k tys : live b -> made b b' k tys -> live b'.
Proof.
  intros (c & Hc & Hk & Hf & He) Hm. exists c. rewrite (md_current _ _ _ _ Hm), (md_filled _ _ _ _ Hm). destruct (md_extends _ _ _ _ Hm) as [X _].
  split; [done|]. split; [by apply (ex_known _ _ X)|]. split; [done|]. destruct He as [He|[j He]]; [left|right].
  - by apply (ex_entry _ _ X).
  - exists j. by apply (md_edge _ _ _ _ Hm).
Qed.
Lemma made_tight hs b b' k tys : tight b hs -> made b b' k tys -> tight b' hs.
Proof. intros Ht Hm j Hj. rewrite (md_sealed _ _ _ _ Hm). apply Ht. by rewrite (md_filled _ _ _ _ Hm), (md_current _ _ _ _ Hm) in Hj. Qed.
Lemma made_not_current b b' k tys : live b -> made b b' k tys -> current b' <> Some k.
Proof. intros (c & Hc & Hk & _) Hm. rewrite (md_current _ _ _ _ Hm), Hc. intros [= ->]. by apply (md_new _ _ _ _ Hm). Qed.
Lemma made_dest b b' k tys : current b' <> Some k -> made b b' k tys -> dest_ok b' k tys.
Proof. intros Hc Hm. destruct Hm as []. split; naive_solver. Qed.

(** ** Commands *)
Lemma wp_create_block t (Q : Block -> TState B -> Prop) :
  (forall k b', made (bld t) b' k [] -> Q k (mkT b' (st t))) -> wp (onb create_block) t Q.
Proof.
  intros HQ. destruct (law_create_block (bld t)) as (k & b' & Hc & X & [[D F S E] U C] & Hn & Hk & Hf & Hs & Hj & Hd & Hcl & He).
  eapply wp_onb; [exact Hc|]. apply HQ. split; auto.
Qed.

Lemma append_params_made env ps tys k t b0 tys0 : mapO (param_type env) ps = Ok tys -> made b0 (bld t) k tys0 ->
  wp (append_params env k ps) t (fun _ t' => st t' = st t /\ made b0 (bld t') k (tys0 ++ tys)).
Proof.
  revert tys tys0 t. induction ps as [|p ps IH]; intros tys tys0 t Hp Hm; cbn in *.
  - simplify_eq. apply wp_ret. rewrite app_nil_r. by split.
  - apply bind_ok in Hp as (ty & Hty & (tl & Htl & [= <-])%bind_ok). apply wp_bind. eapply wp_lift; [exact Hty|].
    apply wp_bind. destruct Hm as [X D F S E U C N K UF US NE P FR].
    destruct (law_append_block_param (bld t) k ty) as (v & b' & Ha & X' & [[D' F' S' E'] U' C'] & Hd); [done|done|by rewrite F|].
    eapply wp_onb; [exact Ha|]. eapply wp_mono; [apply (IH tl (tys0 ++ [ty])); [done|]|].
    + cbn. split; try done.
      * by eapply extends_trans.
      * intros j Hj. rewrite D'; [by apply D|by apply (ex_known _ _ (proj1 X))|]. intros [= ->]. done.
      * intros j. by rewrite F'.
      * intros j. by rewrite S'.
      * intros i j. by rewrite E'.
      * by rewrite U'.
      * auto.
      * by apply (ex_known _ _ (proj1 X')).
      * by rewrite Hd, P.
      * auto.
    + intros [] t' [He Hm']. split; [by rewrite He|]. by rewrite <- app_assoc in Hm'.
Qed.
Lemma wp_block_with_params env ps tys t (Q : Block -> TState B -> Prop) : mapO (param_type env) ps = Ok tys ->
  (forall k b', made (bld t) b' k tys -> Q k (mkT b' (st t))) -> wp (block_with_params env ps) t Q.
Proof.
  intros Hp HQ. apply wp_bind, wp_create_block. intros k b' Hm. apply wp_bind.
  eapply wp_mono; [by eapply (append_params_made _ _ _ _ (mkT b' (st t)) (bld t) [])|]. intros [] [b1 s1] [He Hm1]. cbn in He. subst.
  by apply wp_ret, HQ.
Qed.

(** Branches. *)
Lemma wp_terminate i t b0 (Q : Inst -> TState B -> Prop) : straight b0 (bld t) -> open (bld t) -> inst_ok (bld t) i [] -> is_terminator i = true ->
  (forall j b', branched (branch_targets i) j b0 b' -> Q j (mkT b' (st t))) -> wp (insi i) t Q.
Proof.
  intros Hs Ho Hi Ht HQ. destruct (law_build (bld t) i [] Ho Hi) as (j & b' & Hb & X & _ & Hf). eapply wp_onb; [exact Hb|].
  apply HQ. by eapply straight_branched.
Qed.

(** Values in their canonical types. *)
Lemma emits_canonicalise_all vs tys t : open (bld t) -> Forall2 (repr (bld t)) vs tys ->
  emits (canonicalise_all vs) t (fun b l => Forall2 (has_type b) l tys).
Proof.
  revert tys t. induction vs as [|v vs IH]; intros tys t Ho Hv; [apply Forall2_nil_inv_l in Hv as ->|apply Forall2_cons_inv_l in Hv as (ty & tl & Hv & Hvs & ->)]; cbn.
  { by apply emits_ret. }
  destruct Hv as (ty' & Hv & Hc). eapply emits_bind; [by apply emits_type|]. intros ? t1 Hs1 He1 ->.
  eapply (emits_bind _ _ _ (fun b a => has_type b a ty)).
  { destruct (is_non_canonical_v128 ty') eqn:Hn.
    - eapply (wp_mono _ _ (fun a t' => straight (bld t1) (bld t') /\ st t' = st t1 /\ has_type (bld t') a ir.I8X16)).
      + eapply emits_bitcast; [by eapply straight_open|by eapply straight_type| |done]. by destruct ty'.
      + intros a t' (? & ? & ?). split; [done|]. split; [done|]. by destruct ty'; cbn in Hc, Hn; subst.
    - apply emits_ret. eapply straight_type; [done|]. by destruct ty'; cbn in Hc, Hn; subst. }
  intros c t2 Hs2 He2 Hc2. eapply emits_bind; [apply IH|].
  - eapply straight_open; [exact Hs2|]. by eapply straight_open.
  - eapply straight_reprs; [exact Hs2|]. by eapply straight_reprs.
  - intros l t3 Hs3 He3 Hl. apply emits_ret. constructor; [by eapply straight_type|done].
Qed.
Lemma emits_any vs tys t : Forall2 (repr (bld t)) vs tys ->
  emits (any_non_canonical vs) t (fun b c => c = false -> Forall2 (has_type b) vs tys).
Proof.
  revert tys t. induction vs as [|v vs IH]; intros tys t Hv; [apply Forall2_nil_inv_l in Hv as ->|apply Forall2_cons_inv_l in Hv as (ty & tl & Hv & Hvs & ->)]; cbn.
  { by apply emits_ret. }
  destruct Hv as (ty' & Hv & Hc). eapply emits_bind; [by apply emits_type|]. intros ? t1 Hs1 He1 ->.
  destruct (is_non_canonical_v128 ty') eqn:Hn; [by apply emits_ret|].
  eapply wp_mono; [apply (IH tl); by eapply straight_reprs|]. intros c t' (Hs & He & Hf). split; [done|]. split; [done|].
  intros Hcf. constructor; [|by apply Hf]. assert (ty' = ty) as <- by (by destruct ty').
  eapply straight_type; [exact Hs|]. by eapply straight_type.
Qed.
Lemma emits_canonicalise vs tys t : open (bld t) -> Forall2 (repr (bld t)) vs tys ->
  emits (canonicalise_v128_values vs) t (fun b l => Forall2 (has_type b) l tys).
Proof.
  intros Ho Hv. eapply emits_bind; [by apply emits_any|]. intros c t1 Hs He Hc. destruct c; [|by apply emits_ret, Hc].
  apply emits_canonicalise_all; [by eapply straight_open|by eapply straight_reprs].
Qed.
Lemma straight_known b b' k : straight b b' -> known b k -> known b' k.
Proof. intros Hs. apply (ex_known _ _ (proj1 (sl_extends _ _ Hs))). Qed.
Lemma straight_target b b' d l : straight b b' -> known b d -> ~ sealed b d -> Forall2 (has_type b') l (declared b d) -> target_ok b' d l.
Proof.
  intros Hs Hk Hd Hl. split; [by eapply straight_known|]. rewrite (sl_sealed _ _ Hs), (sl_declared _ _ Hs) by done. done.
Qed.

Lemma wp_jump d vs t (Q : Inst -> TState B -> Prop) : open (bld t) -> known (bld t) d -> ~ sealed (bld t) d ->
  Forall2 (repr (bld t)) vs (declared (bld t) d) ->
  (forall j b', branched [d] j (bld t) b' -> Q j (mkT b' (st t))) -> wp (canonicalise_then_jump d vs) t Q.
Proof.
  intros Ho Hk Hs Hv HQ. apply wp_bind. eapply emits_wp; [by apply emits_canonicalise|]. intros l t' Hst He Hl.
  eapply wp_terminate; [exact Hst|by eapply straight_open| |done|by rewrite He].
  split; [|done]. by eapply straight_target.
Qed.
Lemma wp_brif c b1 vs1 b2 vs2 t cty (Q : Inst -> TState B -> Prop) : open (bld t) ->
  has_type (bld t) c cty -> ir.is_int cty = true ->
  known (bld t) b1 -> ~ sealed (bld t) b1 -> Forall2 (repr (bld t)) vs1 (declared (bld t) b1) ->
  known (bld t) b2 -> ~ sealed (bld t) b2 -> Forall2 (repr (bld t)) vs2 (declared (bld t) b2) ->
  (forall j b', branched [b1; b2] j (bld t) b' -> Q j (mkT b' (st t))) -> wp (canonicalise_brif c b1 vs1 b2 vs2) t Q.
Proof.
  intros Ho Hc Hi Hk1 Hs1 Hv1 Hk2 Hs2 Hv2 HQ. apply wp_bind. eapply emits_wp; [by apply emits_canonicalise|]. intros l1 t1 St1 He1 Hl1.
  apply wp_bind. eapply emits_wp; [apply emits_canonicalise; [by eapply straight_open|by eapply straight_reprs]|]. intros l2 t2 St2 He2 Hl2.
  assert (straight (bld t) (bld t2)) as St by (by eapply straight_trans).
  eapply wp_terminate; [exact St|by eapply straight_open| |done|].
  - split; [exists cty; split; [by apply (straight_type _ _ _ _ St)|done]|]. split; [|split; [|done]]; [|by eapply straight_target; [exact St|..]].
    eapply straight_target; [exact St|done..|]. eapply list.Forall2_impl; [exact Hl1|]. intros. by apply (straight_type _ _ _ _ St2).
  - by rewrite He2, He1.
Qed.

(** Entering and sealing blocks. *)
Record switched (k : Block) (b b' : B) : Prop := {
  sw_extends : extends b b'; sw_blocks : same_blocks None b b'; sw_current : current b' = Some k;
  sw_clean : forall j, clean b j -> clean b' j }.
Record sealed_at (k : Block) (b b' : B) : Prop := {
  sa_extends : extends b b'; sa_current : current b' = current b;
  sa_declared : forall j, known b j -> declared b' j = declared b j;
  sa_filled : forall j, filled b' j <-> filled b j;
  sa_sealed : forall j, sealed b' j <-> sealed b j \/ j = k;
  sa_edge : forall j d, edge b' j d <-> edge b j d;
  sa_clean : forall j, clean b j -> ~ filled b j -> clean b' j }.

Lemma wp_switch k t (Q : unit -> TState B -> Prop) : known (bld t) k -> ~ filled (bld t) k -> ended (bld t) ->
  (forall b', switched k (bld t) b' -> Q tt (mkT b' (st t))) -> wp (onb (switch_to_block k)) t Q.
Proof.
  intros Hk Hf (c & Hc & _ & Hcf) HQ. destruct (law_switch_to_block (bld t) k) as (b' & Hs & X & Hb & Hu & Hcl & He); [done|done| |].
  { intros c' Hc'. by simplify_eq. }
  eapply wp_onb; [exact Hs|]. by apply HQ.
Qed.
Lemma wp_seal k t (Q : unit -> TState B -> Prop) : known (bld t) k -> ~ sealed (bld t) k ->
  (forall b', sealed_at k (bld t) b' -> Q tt (mkT b' (st t))) -> wp (onb (seal_block k)) t Q.
Proof.
  intros Hk Hs HQ. destruct (law_seal_block (bld t) k Hk Hs) as (b' & Hb & ? & ? & ? & ? & ? & ? & ? & ?). eapply wp_onb; [exact Hb|]. by apply HQ.
Qed.
Lemma switched_evolves K k b b' : (forall j, j ∈ K -> known b j) -> k ∉ K -> switched k b b' -> evolves K b b'.
Proof.
  intros HK Hk [X [D F S E] U C]. split; auto.
  - intros j _ Hf. left. by apply F.
  - intros j Hj Hc. rewrite U in Hc. by simplify_eq.
  - intros i j _ He. by apply E.
Qed.
Lemma sealed_evolves K k b b' : (forall j, j ∈ K -> known b j) -> k ∉ K -> sealed_at k b b' -> evolves K b b'.
Proof.
  intros HK Hk [X U D F S E C]. split; auto.
  - intros j _ Hf. left. by apply F.
  - intros j Hj. rewrite S. split; [|by left]. by intros [?| ->].
  - intros j _. by rewrite U.
  - intros i j _ He. by apply E.
Qed.
Lemma switched_tight hs k b b' : tight b hs -> switched k b b' -> tight b' (k :: hs).
Proof.
  intros Ht [X [D F S E] U C] j Hj. rewrite F, U, S in *. rewrite elem_of_cons. destruct Hj as [Hj|[= ->]]; [|auto].
  destruct (Ht j) as [?|?]; auto.
Qed.
Lemma sealed_tight hs k b b' : tight b (k :: hs) -> sealed_at k b b' -> tight b' hs.
Proof.
  intros Ht [X U D F S E C] j Hj. rewrite F, U, S in *. destruct (Ht j Hj) as [?|Hi]; [auto|]. apply elem_of_cons in Hi as [->|?]; auto.
Qed.
Lemma sealed_tight' hs k b b' : tight b hs -> sealed_at k b b' -> tight b' hs.
Proof. intros Ht. apply sealed_tight. intros j Hj. rewrite elem_of_cons. destruct (Ht j Hj); auto. Qed.
Lemma switched_live k b b' : known b k -> ~ filled b k -> (exists j, edge b j k) -> switched k b b' -> live b'.
Proof.
  intros Hk Hf [j He] [X [D F S E] U C]. exists k. split; [done|]. split; [by apply (ex_known _ _ (proj1 X))|]. rewrite F. split; [done|].
  right. exists j. by apply E.
Qed.
Lemma sealed_live k b b' : live b -> sealed_at k b b' -> live b'.
Proof.
  intros (c & Hc & Hk & Hf & He) [X U D F S E C]. exists c. rewrite U, F. split; [done|]. split; [by apply (ex_known _ _ (proj1 X))|].
  split; [done|]. destruct He as [He|[j He]]; [left; by apply (ex_entry _ _ (proj1 X))|right; exists j; by apply E].
Qed.
Lemma sealed_ended k b b' : ended b -> sealed_at k b b' -> ended b'.
Proof.
  intros (c & Hc & Hk & Hf) [X U D F S E C]. exists c. rewrite U, F. split; [done|]. split; [by apply (ex_known _ _ (proj1 X))|done].
Qed.
End Inv.
