(* ===== verification/CtlSim.v ===== *)
(** * The simulation of validation by translation

    [sim t vs]: the translation state [t] and the validation state [vs] after
    the same operators.  Either the code at hand is reachable and the value stack
    represents the operands of all frames, or it is not, and the stack is good up
    to the operands of the innermost frame entered while it was. *)
From stdpp Require Import base list gmap option numbers.
From S2P Require Import Prelude Types Trap Module ModuleTypes VMOffsets HeapAccess Clif ClifLaws FuncState WasmOp FuncEnv CodeTranslator CodeTranslatorCtl CodeTranslatorOps WasmTyping FuncValid OpTyping CtlInv.
Local Open Scope Z_scope.

Section Frames.
Context {B : Type} {FB : FunctionBuilder B} {BV : BuilderView B} {LAWS : FunctionBuilderLaws B} {TC : TrapCodes}.
Context (env : TranslationEnvironment) (validator : FuncValidator).

(** ** One frame *)
Definition kind_ok (b : B) (f : ControlStackFrame) (v : vframe) : Prop :=
  match f with
  | Block_ _ _ _ _ _ => v_kind v = KBlock
  | Loop_ _ h _ _ _ => v_kind v = KLoop /\ header_ok b h (v_start v)
  | If_ d (NoElse i p) _ _ _ _ bt head None =>
      head = true /\ v_kind v = KIf true /\ p = d /\ edge b i d /\ v_start v = v_end v /\
      block_sig env validator bt = Some (v_start v, v_end v, true)
  | If_ _ (WithElse e) _ _ _ _ _ head None => head = true /\ v_kind v = KIf false /\ else_ok b e
  | If_ d _ _ _ _ _ _ head (Some c) => head = true /\ v_kind v = KElse /\ (c = true -> exists j, edge b j d)
  end.
Record frame_ok (b : B) (f : ControlStackFrame) (v : vframe) : Prop := {
  fo_params : num_param_values f = pm_len (v_start v);
  fo_returns : num_return_values f = pm_len (v_end v);
  fo_dest : dest_ok b (following_code f) (v_end v);
  fo_canon : Forall (fun t => canon t = t) (v_end v);
  fo_kind : kind_ok b f v;
  fo_exit : exit_is_branched_to f = true -> firm b f }.

(** The stack below the frame's operands, given the stack around the frame. *)
Definition base_ok (b : B) (f : ControlStackFrame) (v : vframe) (under base : list Value) : Prop :=
  match f with
  | If_ _ _ _ _ orig _ _ _ None =>
      exists saved, base = under ++ saved /\ Forall2 (repr b) saved (v_start v) /\ orig = pm_len base
  | If_ _ _ n _ orig _ _ _ (Some _) => base = under /\ orig = pm_len under + n
  | _ => base = under /\ original_stack_size f = pm_len under
  end.
Definition alive (v : vframe) (tys : list ir.Type_) : Prop := v_dead v = false /\ v_ops v = rev (Some <$> tys).

(** ** Stacks of frames, innermost first *)
Inductive layers (b : B) : list ControlStackFrame -> list vframe -> list Value -> Prop :=
| L_nil : layers b [] [] []
| L_cons f v fs vs under base seg tys :
    layers b fs vs under -> frame_ok b f v -> base_ok b f v under base ->
    alive v tys -> Forall2 (repr b) seg tys -> layers b (f :: fs) (v :: vs) (base ++ seg).

(** *** Under evolution *)
Lemma extends_repr b b' v t : extends b b' -> repr b v t -> repr b' v t.
Proof. intros [X _] (t' & Ht & Hc). exists t'. split; [by apply (ex_types _ _ X)|done]. Qed.
Lemma extends_reprs b b' vs ts : extends b b' -> Forall2 (repr b) vs ts -> Forall2 (repr b') vs ts.
Proof. intros X Hr. eapply list.Forall2_impl; [exact Hr|]. intros. by eapply extends_repr. Qed.
Lemma extends_known b b' k : extends b b' -> known b k -> known b' k.
Proof. intros [X _]. apply (ex_known _ _ X). Qed.

Lemma dest_evolves K b b' d tys : d ∈ K -> evolves K b b' -> dest_ok b d tys -> dest_ok b' d tys.
Proof.
  intros Hd [X D F S U C E] [Hk Hf Hs Hc Hdc Hcl]. split; auto.
  - by eapply extends_known.
  - intros [?|?]%F; done.
  - by rewrite S.
  - by rewrite D.
Qed.
Lemma header_evolves K b b' d tys : d ∈ K -> evolves K b b' -> header_ok b d tys -> header_ok b' d tys.
Proof.
  intros Hd [X D F S U C E] [Hk Hs Hdc]. split; [by eapply extends_known|by rewrite S|by rewrite D].
Qed.
Lemma else_evolves K b b' d : d ∈ K -> evolves K b b' -> else_ok b d -> else_ok b' d.
Proof.
  intros Hd [X D F S U C E] [Hk Hf Hs Hc [j Hj]]. split; auto.
  - by eapply extends_known.
  - intros [?|?]%F; done.
  - by rewrite S.
  - exists j. by apply E.
Qed.
Lemma dest_in_blocks f : following_code f ∈ blocks_of f.
Proof. destruct f as [? [] ? ? ? ? ? ? []| |]; cbn; left. Qed.
Lemma frame_evolves K b b' f v : blocks_of f ⊆ K -> evolves K b b' -> frame_ok b f v -> frame_ok b' f v.
Proof.
  intros Hs He [Hp Hr Hd Hcn Hk Hx]. assert (following_code f ∈ K) as Hf by apply Hs, dest_in_blocks. split; try done.
  - by eapply dest_evolves.
  - destruct f as [d [i p|e] ? ? ? ? bt head [c|]| |d h]; cbn in *; try done.
    + destruct Hk as (? & ? & Hj). repeat split; try done. intros Hc. destruct (Hj Hc) as [j ?]. exists j. by eapply (ev_edge K).
    + destruct Hk as (? & ? & ? & ? & ? & ?). repeat split; try done. by eapply (ev_edge K).
    + destruct Hk as (? & ? & Hj). repeat split; try done. intros Hc. destruct (Hj Hc) as [j ?]. exists j. by eapply (ev_edge K).
    + destruct Hk as (? & ? & ?). split; [done|]. split; [done|]. eapply (else_evolves K); [|done..]. apply Hs. right. left.
    + destruct Hk as [? ?]. split; [done|]. eapply (header_evolves K); [|done..]. apply Hs. right. left.
  - intros Hb. destruct (Hx Hb) as (j & Hj & Hn). exists j. split; [by eapply (ev_edge K)|done].
Qed.
Lemma base_evolves b b' f v under base : extends b b' -> base_ok b f v under base -> base_ok b' f v under base.
Proof.
  intros X. destruct f as [? ? ? ? ? ? ? ? []| |]; cbn; try done. intros (saved & ? & ? & ?). exists saved. split; [done|].
  split; [by eapply extends_reprs|done].
Qed.
Lemma layers_evolves K b b' fs vs stk : frame_blocks fs ⊆ K -> evolves K b b' -> layers b fs vs stk -> layers b' fs vs stk.
Proof.
  intros Hs He. induction 1 as [|f v fs vs under base seg tys _ IH Hf Hb Ha Hr]; [constructor|]. cbn in Hs.
  econstructor; [apply IH; set_solver|eapply frame_evolves; [|done..]; set_solver| |done|].
  - eapply base_evolves; [|done]. apply (ev_extends _ _ _ He).
  - eapply extends_reprs; [|done]. apply (ev_extends _ _ _ He).
Qed.
Lemma frame_known b f v k : frame_ok b f v -> k ∈ blocks_of f -> known b k.
Proof.
  intros [_ _ Hd _ Hk _] Hi. pose proof (do_known _ _ _ Hd).
  destruct f as [d [i p|e] ? ? ? ? bt head [c|]| |d h]; cbn in *; set_unfold in Hi; destruct_or?; subst; try done.
  - destruct Hk as (_ & _ & []). done.
  - destruct Hk as (_ & []). done.
Qed.
Lemma layers_known b fs vs stk k : layers b fs vs stk -> k ∈ frame_blocks fs -> known b k.
Proof.
  induction 1 as [|f v fs vs under base seg tys _ IH Hf _ _ _]; cbn; [by intros ?%not_elem_of_nil|].
  intros [?|?]%elem_of_app; [by eapply frame_known|auto].
Qed.
Lemma layers_length b fs vs stk : layers b fs vs stk -> length fs = length vs.
Proof. induction 1; cbn; congruence. Qed.

Lemma height_length vs : pm_len vs <= height vs.
Proof.
  unfold pm_len. induction vs as [|v vs IH]; [done|]. change (height (v :: vs)) with (frame_height v + height vs).
  unfold frame_height, pm_len. cbn [length]. lia.
Qed.
(** The stack is as long as the validator says. *)
Lemma layers_height b fs vs stk : layers b fs vs stk -> pm_len stk + pm_len fs <= height vs.
Proof.
  unfold pm_len. induction 1 as [|f v fs vs under base seg tys _ IH Hf Hb [_ Ha] Hr]; [done|].
  change (height (v :: vs)) with (frame_height v + height vs). unfold frame_height, pm_len. cbn [length]. rewrite Ha, length_app, length_rev, length_fmap. apply Forall2_length in Hr.
  assert (Z.of_nat (length base) <= Z.of_nat (length under) + Z.of_nat (length (v_start v))); [|lia].
  destruct f as [? ? ? ? ? ? ? ? []| |]; cbn in Hb; [destruct Hb; subst; lia| |destruct Hb; subst; lia..].
  destruct Hb as (saved & -> & Hsv%Forall2_length & _). rewrite length_app. lia.
Qed.
End Frames.

(** ** The simulation of validation by translation

    [sim t vs]: the translation state [t] and the validation state [vs] after
    the same operators.  Either the code at hand is reachable and the value stack
    represents the operands of all frames, or it is not, and the stack is good up
    to the operands of the innermost frame entered while it was. *)
Import Operator.
Local Open Scope Z_scope.

(** ** Popping from a frame *)
Definition same_frame (f f' : vframe) : Prop := v_kind f' = v_kind f /\ v_start f' = v_start f /\ v_end f' = v_end f.
Lemma same_trans f g h : same_frame f g -> same_frame g h -> same_frame f h.
Proof. unfold same_frame. intros (? & ? & ?) (? & ? & ?). by repeat split; congruence. Qed.
Lemma vpop_any_same f t f' : vpop_any f = Some (t, f') -> same_frame f f'.
Proof. unfold vpop_any. destruct (v_ops f); [destruct (v_dead f)|]; intros; by simplify_eq. Qed.
Lemma vpop_same t f f' : vpop t f = Some f' -> same_frame f f'.
Proof.
  unfold vpop. intros ([[t'|] g] & Hp & Hg)%bind_Some; [case_bool_decide|]; simplify_eq; by eapply vpop_any_same.
Qed.
Lemma vpops_rev_same ts f f' : vpops_rev ts f = Some f' -> same_frame f f'.
Proof.
  revert f. induction ts as [|t ts IH]; cbn; intros f H; [by simplify_eq|]. apply bind_Some in H as (g & Hg & H).
  eapply same_trans; [by eapply vpop_same|by apply IH].
Qed.
Lemma vpops_same ts f f' : vpops ts f = Some f' -> same_frame f f'.
Proof. apply vpops_rev_same. Qed.
Lemma vapply_same s f f' : vapply s f = Some f' -> same_frame f f'.
Proof. intros (g & Hg & [= <-])%bind_Some. by apply vpops_same in Hg. Qed.

Lemma vpop_any_alive f t f' tys : alive f tys -> vpop_any f = Some (t, f') -> exists rest ty, tys = rest ++ [ty] /\ t = Some ty /\ alive f' rest.
Proof.
  intros [Hd Ho]. unfold vpop_any. rewrite Ho. destruct tys as [|ty rest _] using rev_ind; cbn; [by rewrite Hd|].
  rewrite fmap_app, rev_app_distr. cbn. intros [= <- <-]. by exists rest, ty.
Qed.
Lemma vpop_alive f t f' tys : alive f tys -> vpop t f = Some f' -> exists rest, tys = rest ++ [t] /\ alive f' rest.
Proof.
  intros Ha ([t' g] & Hp & Hg)%bind_Some. destruct (vpop_any_alive _ _ _ _ Ha Hp) as (rest & ty & -> & -> & Hg').
  case_bool_decide; simplify_eq. by exists rest.
Qed.
Lemma vpops_rev_alive ts f f' tys : alive f tys -> vpops_rev ts f = Some f' -> exists rest, tys = rest ++ rev ts /\ alive f' rest.
Proof.
  revert f tys. induction ts as [|t ts IH]; cbn; intros f tys Ha H.
  - simplify_eq. exists tys. by rewrite app_nil_r.
  - apply bind_Some in H as (g & Hg & H). destruct (vpop_alive _ _ _ _ Ha Hg) as (r & -> & Hg').
    destruct (IH _ _ Hg' H) as (rest & -> & Hf). exists rest. by rewrite <- app_assoc.
Qed.
Lemma vpops_alive ts f f' tys : alive f tys -> vpops ts f = Some f' -> exists rest, tys = rest ++ ts /\ alive f' rest.
Proof. intros Ha H. destruct (vpops_rev_alive _ _ _ _ Ha H) as (rest & -> & Hf). exists rest. by rewrite rev_involutive. Qed.
Lemma alive_push f tys ts : alive f tys -> alive (vpush ts f) (tys ++ ts).
Proof. intros [Hd Ho]. split; [done|]. cbn. by rewrite Ho, fmap_app, rev_app_distr. Qed.
Lemma alive_push1 f tys t : alive f tys -> alive (set_ops (Some t :: v_ops f) f) (tys ++ [t]).
Proof. apply (alive_push f tys [t]). Qed.
Lemma alive_enter k s e : alive (enter k s e) s.
Proof. done. Qed.
Lemma vapply_alive s f f' tys : alive f tys -> vapply s f = Some f' -> exists rest, tys = rest ++ s.1 /\ alive f' (rest ++ s.2).
Proof.
  intros Ha (g & Hg & [= <-])%bind_Some. destruct (vpops_alive _ _ _ _ Ha Hg) as (rest & -> & Hr). exists rest. split; [done|].
  by apply alive_push.
Qed.

(** Placeholders of frames opened in unreachable code. *)
Definition placeholder_ok (p : ControlStackFrame) (v : vframe) : Prop :=
  match p with
  | Block_ _ n _ _ e => n = 0 /\ e = false /\ (v_kind v = KBlock \/ v_kind v = KLoop)
  | If_ _ _ n _ _ e _ head c => n = 0 /\ e = false /\ head = false /\
      match c with None => exists same, v_kind v = KIf same | Some _ => v_kind v = KElse end
  | Loop_ _ _ _ _ _ => False
  end.

Section Sim.
Context {B : Type} {FB : FunctionBuilder B} {BV : BuilderView B} {LAWS : FunctionBuilderLaws B} {TC : TrapCodes}.
Context (dbg : bool) (env : TranslationEnvironment) (validator : FuncValidator) (locals results : list ir.Type_).
Abbreviation M := (SM (TState B) Error).
Abbreviation layers := (layers env validator).
Abbreviation frame_ok := (frame_ok env validator).

(** ** The surroundings of the code

    Locals are declared with their types, the context is the first parameter,
    and the caches of the translation state hold what they were filled with. *)
Abbreviation direct_sig := (direct_sig env).
Abbreviation indirect_sig := (indirect_sig env).

Record world (t : TState B) : Prop := {
  w_locals : forall i ty, pm_get locals i = Some ty -> var_type (bld t) i = Some ty;
  w_vmctx : exists v, special_param_vmctx (bld t) = Some v /\ has_type (bld t) v ir.I64;
  w_returns : ir.returns (func_signature (bld t)) = (fun ty => ir.mkAbiParam ty ir.Normal) <$> results;
  w_functions : forall i r, st_functions (st t) !! i = Some r -> exists f s, dfg_ext_func (bld t) r.1 = Some f /\
    dfg_signature (bld t) (ir.ef_signature f) = Some s /\ direct_sig i = Some s /\ r.2 = num_wasm_parameters s;
  w_signatures : forall i r, signatures (st t) !! i = Some r -> exists s, dfg_signature (bld t) r.1 = Some s /\
    indirect_sig i = Some s /\ r.2 = num_wasm_parameters s;
  w_globals : forall i g, st_globals (st t) !! i = Some g -> make_global dbg env i = Ok g;
  w_memories : forall i m, st_memories (st t) !! i = Some m -> make_memory dbg (enable_pcc env) (env_module env) (env_offsets env) i = Ok m;
  w_tables : forall i m, st_tables (st t) !! i = Some m -> make_table (env_module env) (env_offsets env) i = Ok m }.

Definition same_caches (s s' : FuncTranslationState) : Prop :=
  signatures s' = signatures s /\ st_functions s' = st_functions s /\ st_tables s' = st_tables s /\
  st_memories s' = st_memories s /\ st_globals s' = st_globals s.
Lemma world_extends t t' : world t -> extends (bld t) (bld t') -> same_caches (st t) (st t') -> world t'.
Proof.
  intros [L V R F S G Me T] [X Hv] (E1 & E2 & E3 & E4 & E5). split.
  - intros i ty Hi. rewrite Hv. auto.
  - destruct V as (v & H1 & H2). exists v. split; [by apply (ex_vmctx _ _ X)|by apply (ex_types _ _ X)].
  - by rewrite (ex_sig _ _ X).
  - intros i r. rewrite E2. intros (f & s & H1 & H2 & H3)%F. exists f, s. split; [by apply (ex_funcs _ _ X)|].
    split; [by apply (ex_sigs _ _ X)|done].
  - intros i r. rewrite E1. intros (s & H1 & H2)%S. exists s. split; [by apply (ex_sigs _ _ X)|done].
  - intros i g. rewrite E5. auto.
  - intros i g. rewrite E4. auto.
  - intros i g. rewrite E3. auto.
Qed.

(** ** The relation *)
Definition frames (t : TState B) : list ControlStackFrame := rev (control_stack (st t)).

Record shared (t : TState B) (fs : list ControlStackFrame) : Prop := {
  sh_nodup : NoDup (frame_blocks fs);
  sh_tight : tight (bld t) (headers fs);
  sh_world : world t }.

Definition live_at (t : TState B) (vs : list vframe) : Prop :=
  reachable (st t) = true /\ layers (bld t) (frames t) vs (stack (st t)) /\ live (bld t) /\ shared t (frames t).
Definition dead_at (t : TState B) (vs : list vframe) : Prop :=
  exists ps f fs pvs v rvs under base junk,
    reachable (st t) = false /\ frames t = ps ++ f :: fs /\ vs = pvs ++ v :: rvs /\ Forall2 placeholder_ok ps pvs /\
    layers (bld t) fs rvs under /\ frame_ok (bld t) f v /\ base_ok (bld t) f v under base /\
    stack (st t) = base ++ junk /\ Forall (fun p => pm_len base <= original_stack_size p < max_height) ps /\
    ended (bld t) /\ shared t (f :: fs).

Definition bottom (vs : list vframe) : Prop := exists g, list.last vs = Some g /\ v_end g = results.
Record sim (t : TState B) (vs : list vframe) : Prop := {
  sim_bottom : bottom vs;
  sim_height : height vs < max_height;
  sim_stack : pm_len (stack (st t)) < max_height;
  sim_state : live_at t vs \/ dead_at t vs }.

(** After the last [end]. *)
Definition finished (t : TState B) : Prop :=
  control_stack (st t) = [] /\ tight (bld t) [] /\ world t /\
  ((reachable (st t) = true /\ live (bld t) /\ Forall2 (repr (bld t)) (stack (st t)) results) \/
   (reachable (st t) = false /\ ended (bld t) /\ stack (st t) = [])).
Definition sim_or_finished (t : TState B) (vs : list vframe) : Prop :=
  match vs with [] => finished t | _ => sim t vs end.

Lemma frame_ok_same b f v v' : same_frame v v' -> frame_ok b f v -> frame_ok b f v'.
Proof.
  intros (Hk & Hs & He) [Hp Hr Hd Hcn Hki Hx]. split; rewrite ?Hk, ?Hs, ?He; try done.
  destruct f as [d [i p|e] ? ? ? ? bt head [c|]| |d h]; cbn in *; by rewrite ?Hk, ?Hs, ?He.
Qed.
Lemma base_ok_same b f v v' under base : same_frame v v' -> base_ok b f v under base -> base_ok b f v' under base.
Proof. intros (Hk & Hs & He). destruct f as [d ? ? ? ? ? bt head [c|]| |d h]; cbn; by rewrite ?Hk, ?Hs, ?He. Qed.
Lemma placeholder_same p v v' : same_frame v v' -> placeholder_ok p v -> placeholder_ok p v'.
Proof. intros (Hk & Hs & He). destruct p as [? ? ? ? ? ? ? ? []| |]; cbn; by rewrite ?Hk. Qed.

(** The innermost frame of reachable code. *)
Lemma layers_head b f fs v vs stk : layers b (f :: fs) (v :: vs) stk ->
  exists under base seg tys, layers b fs vs under /\ frame_ok b f v /\ base_ok b f v under base /\ alive v tys /\
    Forall2 (repr b) seg tys /\ stk = base ++ seg.
Proof. intros H. inversion H; subst. by exists under, base, seg, tys. Qed.
Lemma layers_cons_inv b fs v vs stk : layers b fs (v :: vs) stk -> exists f fs', fs = f :: fs'.
Proof. intros H. inversion H; subst. by eexists _, _. Qed.
End Sim.
