(* ===== verification/CtlSteps.v ===== *)
(** * Steps on control frames and the value stack

    The building blocks of the simulation: how the pieces of the translator act
    on related states. *)
From stdpp Require Import base list gmap option numbers.
From S2P Require Import Prelude Types Trap Module ModuleTypes VMOffsets HeapAccess Clif ClifLaws FuncState WasmOp FuncEnv CodeTranslator CodeTranslatorCtl CodeTranslatorOps WasmTyping FuncValid OpTyping CtlInv CtlSim.
Local Open Scope Z_scope.

(** ** Lists as stacks *)
Lemma pm_len_Forall2 {A C} (P : A -> C -> Prop) l k : Forall2 P l k -> pm_len l = pm_len k.
Proof. unfold pm_len. intros H%Forall2_length. lia. Qed.
Lemma wrapping_sub_len n m : 0 <= m <= n -> n < max_height -> wrapping_sub 64 n m = n - m.
Proof. intros H1 H2. unfold wrapping_sub. apply wrap_small. unfold max_height in H2. lia. Qed.
Lemma truncate_app {A} (l k : list A) : truncate (pm_len l) (l ++ k) = l.
Proof.
  unfold truncate, pm_len. zcase; [by rewrite Nat2Z.id, take_app_length|]. rewrite length_app in *.
  assert (k = []) as -> by (apply length_zero_iff_nil; lia). by rewrite app_nil_r.
Qed.
Lemma truncate_keeps {A} n (l k : list A) : pm_len l <= n -> exists k', truncate n (l ++ k) = l ++ k' /\ pm_len k' <= pm_len k.
Proof.
  intros Hn. unfold truncate. zcase; [|by exists k]. exists (take (Z.to_nat n - length l) k). unfold pm_len in *. split.
  - rewrite take_app. by rewrite take_ge by lia.
  - rewrite length_take. lia.
Qed.
Lemma rev_lookup {A} (l : list A) (d : nat) : (d < length l)%nat -> rev l !! (length l - 1 - d)%nat = l !! d.
Proof.
  revert d. induction l as [|x l IH]; intros d Hd; cbn in *; [lia|]. destruct d as [|d]; cbn.
  - rewrite Nat.sub_0_r, Nat.sub_0_r, lookup_app_r; rewrite length_rev; [|lia]. by rewrite Nat.sub_diag.
  - rewrite lookup_app_l by (rewrite length_rev; lia). replace (length l - 0 - S d)%nat with (length l - 1 - d)%nat by lia. apply IH. lia.
Qed.
Lemma rev_insert {A} (l : list A) (d : nat) x : (d < length l)%nat -> rev (<[(length l - 1 - d)%nat := x]> (rev l)) = <[d := x]> l.
Proof.
  revert d. induction l as [|y l IH]; intros d Hd; cbn in *; [lia|]. destruct d as [|d]; cbn.
  - rewrite Nat.sub_0_r, Nat.sub_0_r, insert_app_r_alt; rewrite length_rev; [|lia]. rewrite Nat.sub_diag. cbn.
    by rewrite rev_app_distr, rev_involutive.
  - rewrite insert_app_l by (rewrite length_rev; lia). replace (length l - 0 - S d)%nat with (length l - 1 - d)%nat by lia.
    rewrite rev_app_distr. cbn. by rewrite IH by lia.
Qed.

Section Steps.
Context {B : Type} {FB : FunctionBuilder B} {BV : BuilderView B} {LAWS : FunctionBuilderLaws B} {TC : TrapCodes}.
Context (dbg : bool) (env : TranslationEnvironment) (validator : FuncValidator) (locals results : list ir.Type_).
Abbreviation M := (SM (TState B) Error).
Abbreviation layers := (layers env validator).
Abbreviation frame_ok := (frame_ok env validator).
Abbreviation world := (world dbg env locals results).
Abbreviation shared := (shared dbg env locals results).
Abbreviation live_at := (live_at dbg env validator locals results).
Abbreviation dead_at := (dead_at dbg env validator locals results).

(** ** Frames *)
Lemma wp_debug_assert c t (Q : unit -> TState B -> Prop) : c = true -> Q tt t -> wp (sm_lift (debug_assert dbg c)) t Q.
Proof. intros -> H. eapply wp_lift; [apply debug_assert_true|done]. Qed.
Lemma frames_length (t : TState B) : length (control_stack (st t)) = length (frames t).
Proof. unfold frames. by rewrite length_rev. Qed.
Lemma frames_lookup (t : TState B) d f : frames t !! d = Some f -> pm_get (control_stack (st t)) (pm_len (frames t) - 1 - Z.of_nat d) = Some f.
Proof.
  intros Hf. pose proof (lookup_lt_Some _ _ _ Hf) as Hl. unfold pm_get, pm_len. zcase; [|lia].
  rewrite <- (rev_involutive (control_stack (st t))). fold (frames t). rewrite <- Hf, <- (rev_lookup (frames t) d Hl). f_equal. lia.
Qed.
Lemma frames_set (t : TState B) d f (b : B) : (d < length (frames t))%nat ->
  frames (mkT b (set_frame (pm_len (frames t) - 1 - Z.of_nat d) f (st t))) = <[d := f]> (frames t).
Proof.
  intros Hl. unfold frames at 1, set_frame, pm_set, pm_len. cbn. rewrite <- (rev_involutive (control_stack (st t))). fold (frames t).
  rewrite <- (rev_insert (frames t) d f Hl). do 2 f_equal. lia.
Qed.
Lemma frames_length_Z (t : TState B) : pm_len (control_stack (st t)) = pm_len (frames t).
Proof. unfold pm_len. by rewrite frames_length. Qed.

Lemma wp_top_index t (Q : Z -> TState B -> Prop) : 0 < pm_len (frames t) < max_height ->
  Q (pm_len (frames t) - 1 - Z.of_nat 0) t -> wp top_index t Q.
Proof.
  intros Hl HQ. rewrite Z.sub_0_r in HQ. apply wp_bind, wp_get. rewrite frames_length_Z. eapply wp_lift; [|exact HQ].
  unfold checked_sub. rewrite try_from_intro; [done|]. unfold max_height in Hl. lia.
Qed.
Lemma wp_frame_at t d f (Q : ControlStackFrame -> TState B -> Prop) : frames t !! d = Some f -> Q f t ->
  wp (frame_at (pm_len (frames t) - 1 - Z.of_nat d)) t Q.
Proof. intros Hf HQ. eapply wp_peek; [|exact HQ]. by rewrite (frames_lookup _ _ _ Hf). Qed.
Lemma wp_frame_index t d (Q : Z -> TState B -> Prop) : (d < length (frames t))%nat -> pm_len (frames t) < max_height ->
  Q (pm_len (frames t) - 1 - Z.of_nat d) t -> wp (frame_index (Z.of_nat d)) t Q.
Proof.
  intros Hd Hl HQ. apply wp_bind, wp_top_index; [unfold pm_len in *; lia|]. rewrite Z.sub_0_r. eapply wp_lift; [|exact HQ].
  unfold checked_sub. rewrite try_from_intro; [done|]. unfold max_height, pm_len in *. lia.
Qed.
Lemma wp_branch_to t d f (Q : Z * Block -> TState B -> Prop) : frames t !! d = Some f -> pm_len (frames t) < max_height ->
  (forall t', bld t' = bld t -> frames t' = <[d := set_branched_to_exit f]> (frames t) ->
     stack (st t') = stack (st t) -> reachable (st t') = reachable (st t) -> same_caches (st t) (st t') ->
     Q (branch_arity f, br_destination f) t') ->
  wp (branch_to (Z.of_nat d)) t Q.
Proof.
  intros Hf Hl HQ. apply wp_bind, wp_frame_index; [by eapply lookup_lt_Some|done|].
  apply wp_bind. eapply wp_frame_at; [exact Hf|]. apply wp_bind, wp_upd, wp_ret. apply HQ; try done.
  apply frames_set. by eapply lookup_lt_Some.
Qed.
Lemma wp_pop_frame t f fs (Q : ControlStackFrame -> TState B -> Prop) : frames t = f :: fs ->
  Q f (mkT (bld t) (set_control_stack (rev fs) (st t))) -> wp pop_frame t Q.
Proof.
  intros Hf HQ. eexists f, _. split; [|exact HQ]. unfold pop_frame, pop_st. unfold frames in Hf.
  assert (control_stack (st t) = rev fs ++ [f]) as Hc by (by rewrite <- (rev_involutive (control_stack _)), Hf).
  rewrite Hc, last_snoc. cbn. by rewrite length_app, Nat.add_sub, take_app_length.
Qed.

(** ** The value stack *)
Lemma peekn_app (s : FuncTranslationState) l k : stack s = l ++ k -> pm_len (stack s) < max_height ->
  peekn (E:=Error) dbg (pm_len k) s = Ok k.
Proof.
  intros Hs Hb. unfold peekn, ensure_length_is_at_least. rewrite Hs, pm_len_app in *. pose proof (pm_len_nonneg l). pose proof (pm_len_nonneg k).
  rewrite wrapping_sub_len by lia. rewrite !(proj2 (Z.leb_le _ _)) by lia. rewrite debug_assert_true. cbn. f_equal.
  replace (pm_len l + pm_len k - pm_len k) with (pm_len l) by lia. unfold pm_len. by rewrite Nat2Z.id, drop_app_length.
Qed.
Lemma popn_app (s : FuncTranslationState) l k : stack s = l ++ k -> pm_len (stack s) < max_height ->
  popn (E:=Error) dbg (pm_len k) s = Ok (set_stack l s).
Proof.
  intros Hs Hb. unfold popn, ensure_length_is_at_least. rewrite Hs, pm_len_app in *. pose proof (pm_len_nonneg l). pose proof (pm_len_nonneg k).
  rewrite wrapping_sub_len by lia. rewrite (proj2 (Z.leb_le _ _)) by lia. rewrite debug_assert_true. cbn [mbind outcome_bind]. replace (pm_len l + pm_len k - pm_len k) with (pm_len l) by lia. by rewrite truncate_app.
Qed.
Lemma wp_peekn n l k t (Q : list Value -> TState B -> Prop) : stack (st t) = l ++ k -> pm_len (stack (st t)) < max_height -> n = pm_len k ->
  Q k t -> wp (peek (peekn dbg n)) t Q.
Proof. intros Hs Hb -> HQ. eapply wp_peek; [by eapply peekn_app|done]. Qed.
Lemma wp_popn n l k t (Q : unit -> TState B -> Prop) : stack (st t) = l ++ k -> pm_len (stack (st t)) < max_height -> n = pm_len k ->
  Q tt (mkT (bld t) (set_stack l (st t))) -> wp (mod_st (popn dbg n)) t Q.
Proof. intros Hs Hb -> HQ. eapply wp_mod; [by eapply popn_app|done]. Qed.

(** *** Leaving a frame *)
Lemma truncate_original (b : B) f v under base junk : frame_ok b f v -> base_ok b f v under base -> pm_len base < max_height ->
  truncate_value_stack_to_original_size (E:=Error) dbg f (base ++ junk) = Ok under.
Proof.
  intros Hf Hb Hl. pose proof (pm_len_nonneg under) as Hu. unfold truncate_value_stack_to_original_size.
  pose proof (fo_params _ _ _ _ _ Hf) as Hp. destruct f as [d e n r orig x bt h [c|]|d n r orig x|d h n r orig]; cbn in *.
  - destruct Hb as [-> ->]. rewrite (proj2 (Z.leb_le _ _)), debug_assert_true by lia. cbn. pose proof (pm_len_nonneg (v_start v)).
    replace (wrapping_sub 64 (pm_len under + n) n) with (pm_len under); [by rewrite truncate_app|].
    unfold wrapping_sub. rewrite wrap_small; unfold max_height in *; lia.
  - destruct Hb as (saved & -> & Hs%pm_len_Forall2 & ->). rewrite pm_len_app in *. pose proof (pm_len_nonneg saved).
    rewrite (proj2 (Z.leb_le _ _)), debug_assert_true by lia. cbn. rewrite wrapping_sub_len by lia.
    replace (pm_len under + pm_len saved - n) with (pm_len under) by lia. by rewrite <- app_assoc, truncate_app.
  - destruct Hb as [-> ->]. rewrite wrapping_sub_len by lia. by rewrite Z.sub_0_r, truncate_app.
  - destruct Hb as [-> ->]. rewrite wrapping_sub_len by lia. by rewrite Z.sub_0_r, truncate_app.
Qed.

(** ** Related states *)
Lemma nodup_tail fs f : NoDup (frame_blocks (f :: fs)) -> NoDup (frame_blocks fs) /\ forall k, k ∈ blocks_of f -> k ∉ frame_blocks fs.
Proof. cbn. intros (? & Hd & ?)%list.NoDup_app. split; [done|]. intros k Hk. by apply Hd. Qed.
Lemma shared_straight t t' fs : shared t fs -> straight (bld t) (bld t') -> same_caches (st t) (st t') -> shared t' fs.
Proof. intros [N T W] Hs Hc. split; [done|by eapply straight_tight|]. eapply world_extends; [done| |done]. apply (sl_extends _ _ Hs). Qed.

Lemma shared_same t t' fs : shared t fs -> bld t' = bld t -> same_caches (st t) (st t') -> shared t' fs.
Proof. intros Hsh Hb Hc. eapply shared_straight; [done| |done]. rewrite Hb. apply straight_refl. Qed.

(** The validator's frames after leaving [v]. *)
Definition leave_frames (v : vframe) (vs : list vframe) : list vframe :=
  match vs with [] => [] | g :: vs => vpush (v_end v) g :: vs end.
(** What a step leads to; in unreachable code the stack does not grow. *)
Definition post (t : TState B) (vs : list vframe) (t' : TState B) : Prop :=
  match vs with
  | [] => finished dbg env locals results t'
  | _ => live_at t' vs \/ (dead_at t' vs /\ pm_len (stack (st t')) <= pm_len (stack (st t)))
  end.

Lemma dead_here t f v fs rvs under base junk : reachable (st t) = false -> frames t = f :: fs -> layers (bld t) fs rvs under ->
  frame_ok (bld t) f v -> base_ok (bld t) f v under base -> stack (st t) = base ++ junk -> ended (bld t) -> shared t (f :: fs) ->
  dead_at t (v :: rvs).
Proof. intros. exists [], f, fs, [], v, rvs, under, base, junk. split_and!; done || constructor. Qed.
Lemma dead_same t v v' vs : same_frame v v' -> dead_at t (v :: vs) -> dead_at t (v' :: vs).
Proof.
  intros Hv (ps & f & fs & pvs & u & rvs & under & base & junk & Hr & Hf & Hvs & Hp & Hl & Hfo & Hb & Hs & Hn & He & Hsh).
  destruct Hp as [|p pv ps pvs Hpv Hp]; simplify_eq/=.
  - eapply dead_here; [done..| | |done|done|done]; [by eapply frame_ok_same|by eapply base_ok_same].
  - exists (p :: ps), f, fs, (v' :: pvs), u, rvs, under, base, junk. split_and!; try done.
    constructor; [by eapply placeholder_same|done].
Qed.
Lemma frames_nil (t : TState B) : frames t = [] -> control_stack (st t) = [].
Proof. unfold frames. intros H. by rewrite <- (rev_involutive (control_stack _)), H. Qed.

Lemma leave_dead t0 t v fs rvs under : reachable (st t) = false -> frames t = fs -> layers (bld t) fs rvs under -> stack (st t) = under ->
  ended (bld t) -> shared t fs -> pm_len (stack (st t)) <= pm_len (stack (st t0)) -> post t0 (leave_frames v rvs) t.
Proof.
  intros Hr Hf Hl Hs He Hsh Hle. destruct Hl as [|f g fs rvs under base seg tys Hl Hfo Hb Ha Hseg]; cbn.
  - split; [by apply frames_nil|]. destruct Hsh as [_ T W]. split; [done|]. split; [done|]. by right.
  - right. split; [|done]. eapply (dead_same _ g); [done|]. by eapply dead_here.
Qed.
Lemma leave_live t0 t v fs rvs under args : reachable (st t) = true -> frames t = fs -> layers (bld t) fs rvs under -> stack (st t) = under ++ args ->
  Forall2 (repr (bld t)) args (v_end v) -> live (bld t) -> shared t fs -> bottom results (v :: rvs) -> post t0 (leave_frames v rvs) t.
Proof.
  intros Hr Hf Hl Hs Ha He Hsh Hbt. destruct Hl as [|f g fs rvs under base seg tys Hl Hfo Hb Hg Hseg]; cbn.
  - split; [by apply frames_nil|]. destruct Hsh as [_ T W]. split; [done|]. split; [done|]. left.
    split; [done|]. split; [done|]. destruct Hbt as (? & [= <-] & <-). by rewrite Hs.
  - left. split; [done|]. rewrite Hf. split; [|done]. rewrite Hs, <- app_assoc.
    econstructor; [done|by apply (frame_ok_same _ _ _ _ g)|by apply (base_ok_same _ _ g)|by apply alive_push|by apply Forall2_app].
Qed.

(** Redirecting the branch of an [if] to its [else]. *)
Record redirected (i : Inst) (old new : Block) (b b' : B) : Prop := {
  rd_extends : extends b b'; rd_current : current b' = current b;
  rd_declared : forall j, known b j -> declared b' j = declared b j;
  rd_filled : forall j, filled b' j <-> filled b j;
  rd_sealed : forall j, sealed b' j <-> sealed b j;
  rd_clean : forall j, clean b j -> clean b' j;
  rd_edge : forall j d, edge b' j d <-> (edge b j d /\ ~ (j = i /\ d = old)) \/ (j = i /\ d = new) }.
Lemma wp_redirect i old new t (Q : unit -> TState B -> Prop) : edge (bld t) i old -> known (bld t) new -> ~ sealed (bld t) old ->
  ~ sealed (bld t) new -> declared (bld t) old = declared (bld t) new -> (forall j, ~ edge (bld t) j new) ->
  (forall b', redirected i old new (bld t) b' -> Q tt (mkT b' (st t))) -> wp (onb (change_jump_destination i old new)) t Q.
Proof.
  intros He Hk Hs1 Hs2 Hd Hn HQ.
  destruct (law_change_jump_destination (bld t) i old new) as (b' & Hb & ? & ? & ? & ? & ? & ? & ?); [done..|].
  eapply wp_onb; [exact Hb|]. by apply HQ.
Qed.
Lemma redirected_evolves K i old new b b' : (forall j, j ∈ K -> known b j) -> old ∉ K -> redirected i old new b b' -> evolves K b b'.
Proof.
  intros HK Ho [X U D F S C E]. split; auto.
  - intros j _ Hf. left. by apply F.
  - intros j _. by rewrite U.
  - intros j k Hk He. apply E. left. split; [done|]. by intros [_ ->].
Qed.
Lemma redirected_tight hs i old new b b' : tight b hs -> redirected i old new b b' -> tight b' hs.
Proof. intros Ht [X U D F S C E] k Hk. rewrite F, U in Hk. rewrite S. auto. Qed.
Lemma redirected_ended i old new b b' : ended b -> redirected i old new b b' -> ended b'.
Proof.
  intros (c & Hc & Hk & Hf) [X U D F S C E]. exists c. rewrite U, F. split; [done|]. split; [by eapply extends_known|done].
Qed.
Lemma switched_tight_sealed hs k b b' : tight b hs -> sealed b k -> switched k b b' -> tight b' hs.
Proof.
  intros Ht Hs [X [D F S E] U C] j Hj. rewrite F, U, S in *. destruct Hj as [Hj|[= ->]]; auto.
Qed.
Lemma made_ended b b' k tys : ended b -> made b b' k tys -> ended b'.
Proof.
  intros (c & Hc & Hk & Hf) [X D F S E U C N K UF US NE P FR]. exists c. rewrite U, F. split; [done|].
  split; [by eapply extends_known|done].
Qed.

(** The frame [d] loses its pending branch to the new block [k], which is
    entered. *)
Record else_entered (K : list Block) (hs : list Block) (i : Inst) (d : Block) (tys : list ir.Type_) (b b' : B) : Prop := {
  ee_evolves : evolves K b b'; ee_dest : dest_ok b' d tys; ee_live : live b'; ee_tight : tight b' hs;
  ee_firm : forall j, j <> i -> edge b j d -> edge b' j d }.
Lemma wp_else_tail K hs i d k tys t (Q : unit -> TState B -> Prop) :
  (forall j, j ∈ K -> known (bld t) j) -> d ∉ K -> k ∉ K -> k <> d -> edge (bld t) i d -> dest_ok (bld t) d tys ->
  known (bld t) k -> ~ filled (bld t) k -> ~ sealed (bld t) k -> declared (bld t) k = tys -> (forall j, ~ edge (bld t) j k) ->
  ended (bld t) -> tight (bld t) hs ->
  (forall b', else_entered K hs i d tys (bld t) b' -> Q tt (mkT b' (st t))) ->
  wp (_ ← onb (change_jump_destination i d k); _ ← onb (seal_block k); mret k) t (fun x t' => wp (onb (switch_to_block x)) t' Q).
Proof.
  intros HK Hd Hk Hkd He Hdo Kk Kf Ks Kd Kn Hend Ht HQ. destruct (Hdo) as [Dk Df Ds Dc Dd Dcl].
  apply wp_bind, wp_redirect; [done|done|done|done|congruence|done|]. intros b1 R1. pose proof R1 as [X1 U1 D1 F1 S1 C1 E1].
  apply wp_bind, wp_seal; cbn [bld st]; [by eapply extends_known|by rewrite S1|]. intros b2 R2. pose proof R2 as [X2 U2 D2 F2 S2 E2 C2].
  apply wp_ret, wp_switch; cbn [bld st]; [by do 2 (eapply extends_known; [eassumption|])|by rewrite F2, F1| |].
  { eapply sealed_ended; [|exact R2]. by eapply redirected_ended. }
  intros b3 R3. pose proof R3 as [X3 [D3 F3 S3 E3] U3 C3]. apply HQ.
  assert (known b1 d) as Kd1 by (by eapply extends_known). assert (known b2 d) as Kd2 by (by eapply extends_known). split.
  - eapply evolves_trans; [exact (redirected_evolves _ _ _ _ _ _ HK Hd R1)|].
    eapply evolves_trans; [eapply sealed_evolves; [|exact Hk|exact R2]; intros j Hj; eapply extends_known; eauto|].
    eapply switched_evolves; [|exact Hk|exact R3]. intros j Hj. do 2 (eapply extends_known; [eassumption|]). auto.
  - split.
    + by eapply extends_known.
    + by rewrite F3, F2, F1.
    + rewrite S3, S2, S1. intros [?|?]; congruence.
    + rewrite U3. congruence.
    + rewrite D3, D2, D1; done.
    + apply C3, C2; [by apply C1|by rewrite F1].
  - eapply switched_live; [| | |exact R3]; [by do 2 (eapply extends_known; [eassumption|])|by rewrite F2, F1|].
    exists i. apply E2, E1. by right.
  - eapply switched_tight_sealed; [|apply S2; by right|exact R3]. eapply sealed_tight'; [|exact R2]. by eapply redirected_tight.
  - intros j Hj Hjd. apply E3, E2, E1. left. split; [done|]. by intros [-> _].
Qed.

(** *** Dropping the operands of a branch of an [if] *)
Lemma frames_snoc (t : TState B) f fs : frames t = f :: fs -> control_stack (st t) = rev fs ++ [f].
Proof. unfold frames. intros Hf. by rewrite <- (rev_involutive (control_stack _)), Hf. Qed.
Lemma wp_to_else t f fs base junk (Q : unit -> TState B -> Prop) : frames t = f :: fs -> is_if f = true -> original_stack_size f = pm_len base ->
  stack (st t) = base ++ junk -> Q tt (mkT (bld t) (set_stack base (st t))) ->
  wp (mod_st (fun s => f ← unwrap (list.last (control_stack s));
                       l ← truncate_value_stack_to_else_params dbg f (stack s);
                       Ok (set_stack l s))) t Q.
Proof.
  intros Hf Hi Ho Hs HQ. eapply wp_mod; [|exact HQ]. rewrite (frames_snoc _ _ _ Hf), last_snoc. cbn.
  unfold truncate_value_stack_to_else_params. rewrite Hi, debug_assert_true. cbn. by rewrite Ho, Hs, truncate_app.
Qed.
Lemma block_sig_inv bt p r same : block_sig env validator bt = Some (p, r, same) ->
  exists ps rs, blocktype_params_results validator bt = Ok (ps, rs) /\ mapO (param_type env) ps = Ok p /\ mapO (param_type env) rs = Ok r /\
    same = bool_decide (ps = rs) /\ pm_len ps = pm_len p /\ pm_len rs = pm_len r.
Proof.
  unfold block_sig. intros ([ps rs] & H1 & (p' & H2 & (r' & H3 & [= <- <- <-])%bind_Some)%bind_Some)%bind_Some.
  exists ps, rs. destruct (blocktype_params_results validator bt) as [[]| |]; try discriminate H1. cbn in H1. simplify_eq.
  destruct (mapO _ ps) eqn:E1; try discriminate H2. destruct (mapO _ rs) eqn:E2; try discriminate H3. cbn in *. simplify_eq.
  apply mapO_ok, pm_len_Forall2 in E1, E2. done.
Qed.

(** *** Entering the code after a frame *)
Record entered (K hs : list Block) (d : Block) (tys : list ir.Type_) (b b' : B) : Prop := {
  en_evolves : evolves K b b'; en_live : live b'; en_tight : tight b' hs;
  en_params : Forall2 (has_type b') (block_params b' d) tys;
  en_clean : clean b' d; en_unfilled : ~ filled b' d; en_declared : declared b' d = tys }.
Lemma wp_enter {A} K hs d tys t (k : M A) (Q : A -> TState B -> Prop) : (forall j, j ∈ K -> known (bld t) j) -> d ∉ K ->
  known (bld t) d -> ~ filled (bld t) d -> ~ sealed (bld t) d -> declared (bld t) d = tys -> clean (bld t) d ->
  (exists j, edge (bld t) j d) -> ended (bld t) -> tight (bld t) hs ->
  (forall b', entered K hs d tys (bld t) b' -> wp k (mkT b' (st t)) Q) ->
  wp (_ ← onb (switch_to_block d); _ ← onb (seal_block d); k) t Q.
Proof.
  intros HK Hd Kd Fd Sd Dd Cd He Hend Ht HQ. apply wp_bind, wp_switch; [done..|]. intros b1 R1. pose proof R1 as [X1 [D1 F1 S1 E1] U1 C1].
  apply wp_bind, wp_seal; cbn [bld st]; [by apply (extends_known _ _ _ X1)|by rewrite S1|]. intros b2 R2. pose proof R2 as [X2 U2 D2 F2 S2 E2 C2].
  assert (known b1 d) as K1 by (by apply (extends_known _ _ _ X1)).
  assert (clean b2 d) as C by (apply C2; [by apply C1|by rewrite F1]).
  assert (declared b2 d = tys) as De by (rewrite D2, D1; done). apply HQ. split.
  - eapply evolves_trans; [exact (switched_evolves _ _ _ _ HK Hd R1)|]. eapply sealed_evolves; [|exact Hd|exact R2]. intros j Hj.
    apply (extends_known _ _ _ X1). auto.
  - eapply sealed_live; [|exact R2]. exact (switched_live _ _ _ Kd Fd He R1).
  - eapply sealed_tight; [|exact R2]. exact (switched_tight _ _ _ _ Ht R1).
  - rewrite <- De. apply law_clean, C.
  - done.
  - by rewrite F2, F1.
  - done.
Qed.
(** Sealing a block and going on in it. *)
Lemma wp_seal_switch K hs k t (Q : unit -> TState B -> Prop) : (forall j, j ∈ K -> known (bld t) j) -> k ∉ K ->
  known (bld t) k -> ~ filled (bld t) k -> ~ sealed (bld t) k -> (exists j, edge (bld t) j k) -> ended (bld t) -> tight (bld t) hs ->
  (forall b', evolves K (bld t) b' -> live b' -> tight b' hs -> Q tt (mkT b' (st t))) ->
  wp (onb (seal_block k)) t (fun _ t' => wp (onb (switch_to_block k)) t' Q).
Proof.
  intros HK Hn Kk Fk Sk [j He] Hen Ht HQ. apply wp_seal; [done|done|]. intros b1 R1. pose proof (sa_extends _ _ _ R1) as X1.
  assert (known b1 k) as K1 by (by apply (extends_known _ _ _ X1)). assert (~ filled b1 k) as F1 by (by rewrite (sa_filled _ _ _ R1)).
  apply wp_switch; [done|done|by eapply sealed_ended|]. intros b2 R2. apply HQ.
  - eapply evolves_trans; [exact (sealed_evolves _ _ _ _ HK Hn R1)|]. eapply switched_evolves; [|exact Hn|exact R2].
    intros i Hi. apply (extends_known _ _ _ X1). auto.
  - eapply switched_live; [exact K1|exact F1| |exact R2]. exists j. by apply (sa_edge _ _ _ R1).
  - eapply switched_tight_sealed; [|apply (sa_sealed _ _ _ R1); by right|exact R2]. by eapply sealed_tight'.
Qed.
Lemma types_repr b vs tys : Forall2 (has_type b) vs tys -> Forall (fun t => canon t = t) tys -> Forall2 (repr b) vs tys.
Proof.
  induction 1 as [|v t vs tys Hv _ IH]; intros Hc; [constructor|]. inversion Hc; subst. constructor; [by exists t|auto].
Qed.
End Steps.
