(* ===== verification/CtlDead.v ===== *)
(** * Unreachable code

    Operators in unreachable code only maintain the control stack; an [else] or
    [end] that can be reached from elsewhere makes the code reachable again. *)
From stdpp Require Import base list gmap option numbers.
From S2P Require Import Prelude Types Trap Module ModuleTypes VMOffsets HeapAccess Clif ClifLaws FuncState WasmOp FuncEnv CodeTranslator CodeTranslatorCtl CodeTranslatorOps WasmTyping FuncValid OpTyping CtlInv CtlSim CtlSteps.
Local Open Scope Z_scope.

(** Operators that open, split or close a frame. *)
Definition structural (op : Operator.WasmOperator) : bool :=
  match op with Operator.Block _ | Operator.Loop _ | Operator.If _ | Operator.Else | Operator.End => true | _ => false end.

Ltac inv_some :=
  repeat match goal with
  | H : (_ ≫= _) = Some _ |- _ => let x := fresh "x" in let Hx := fresh "Hx" in apply bind_Some in H as (x & Hx & H)
  | H : Some _ = Some _ |- _ => injection H as H; try subst
  | H : None = Some _ |- _ => discriminate H
  | H : (let '(_, _) := ?x in _) = Some _ |- _ => destruct x
  | H : (if ?c then _ else _) = Some _ |- _ => let E := fresh "Ec" in destruct c eqn:E; [|discriminate H]
  | H : (match ?c with _ => _ end) = Some _ |- _ => let E := fresh "Ec" in destruct c eqn:E
  end.

(** Frames that differ in their operands only. *)
Ltac frames_same :=
  repeat match goal with
  | H : vpop_any _ = Some _ |- _ => apply vpop_any_same in H
  | H : vpop _ _ = Some _ |- _ => apply vpop_same in H
  | H : vpops _ _ = Some _ |- _ => apply vpops_same in H
  | H : vapply _ _ = Some _ |- _ => apply vapply_same in H
  end;
  repeat first [done|match goal with H : same_frame ?f _ |- same_frame ?f _ => apply (same_trans _ _ _ H); clear H end].

Section Dead.
Context {B : Type} {FB : FunctionBuilder B} {BV : BuilderView B} {LAWS : FunctionBuilderLaws B} {TC : TrapCodes}.
Context (dbg : bool) (env : TranslationEnvironment) (validator : FuncValidator) (locals results : list ir.Type_).
Abbreviation M := (SM (TState B) Error).
Abbreviation layers := (layers env validator).
Abbreviation frame_ok := (frame_ok env validator).
Abbreviation shared := (shared dbg env locals results).
Abbreviation live_at := (live_at dbg env validator locals results).
Abbreviation dead_at := (dead_at dbg env validator locals results).
Abbreviation post := (post dbg env validator locals results).
Abbreviation vstep_raw := (vstep_raw env validator locals).

Lemma vstep_same op v vs vs' : structural op = false -> vstep_raw op (v :: vs) = Some vs' -> exists v', vs' = v' :: vs /\ same_frame v v'.
Proof.
  intros Hs H. destruct op; try discriminate Hs; lazy [vstep_raw] in H; inv_some; eexists; (split; [reflexivity|]); subst; frames_same.
Qed.

(** ** Opening a frame *)
Lemma dead_push t t' p w v v' vs : dead_at t (v :: vs) -> same_frame v v' -> placeholder_ok p w ->
  bld t' = bld t -> frames t' = p :: frames t -> stack (st t') = stack (st t) -> reachable (st t') = reachable (st t) ->
  same_caches (st t) (st t') -> pm_len (stack (st t)) = original_stack_size p -> pm_len (stack (st t)) < max_height ->
  dead_at t' (w :: v' :: vs).
Proof.
  intros Hd Hv Hp Hb Hf Hs Hr Hc Ho Hm. apply (dead_same _ _ _ _ _ _ v v' _ Hv) in Hd.
  destruct Hd as (ps & f & fs & pvs & u & rvs & under & base & junk & Hre & Hfr & Hvs & Hps & Hl & Hfo & Hba & Hst & Hn & He & [N T W]).
  exists (p :: ps), f, fs, (w :: pvs), u, rvs, under, base, junk. rewrite Hb, Hf, Hs, Hr, Hfr, Hvs. split_and!; try done.
  - by constructor.
  - constructor; [|done]. rewrite <- Ho. split; [|done]. rewrite Hst, pm_len_app. pose proof (pm_len_nonneg junk). lia.
  - split; [done|by rewrite Hb|]. eapply world_extends; [exact W| |done]. rewrite Hb. apply extends_refl.
Qed.

Lemma wrap_len {A} (l : list A) : pm_len l < max_height -> wrapping_sub 64 (pm_len l) 0 = pm_len l.
Proof. intros. pose proof (pm_len_nonneg l). rewrite wrapping_sub_len; lia. Qed.
Lemma push_block_dead t k (Q : unit -> TState B -> Prop) : pm_len (stack (st t)) < max_height ->
  (forall s', stack s' = stack (st t) -> control_stack s' = control_stack (st t) ++ [Block_ k 0 0 (pm_len (stack (st t))) false] ->
     reachable s' = reachable (st t) -> same_caches (st t) s' -> Q tt (mkT (bld t) s')) ->
  wp (mod_st (push_block dbg k 0 0)) t Q.
Proof.
  intros Hl HQ. pose proof (pm_len_nonneg (stack (st t))). eapply wp_mod.
  - unfold push_block. rewrite (proj2 (Z.leb_le _ _)), debug_assert_true by lia. rewrite wrap_len by done. reflexivity.
  - by apply HQ.
Qed.
Lemma push_if_dead t d e bt (Q : unit -> TState B -> Prop) : pm_len (stack (st t)) < max_height -> reachable (st t) = false ->
  (forall s', stack s' = stack (st t) ->
     control_stack s' = control_stack (st t) ++ [If_ d e 0 0 (pm_len (stack (st t))) false bt false None] ->
     reachable s' = reachable (st t) -> same_caches (st t) s' -> Q tt (mkT (bld t) s')) ->
  wp (mod_st (push_if dbg d e 0 0 bt)) t Q.
Proof.
  intros Hl Hr HQ. pose proof (pm_len_nonneg (stack (st t))). eapply wp_mod.
  - unfold push_if. rewrite (proj2 (Z.leb_le _ _)), debug_assert_true by lia. cbn [mbind outcome_bind].
    rewrite !(wrap_len (stack (st t))) by done. rewrite Z.ltb_irrefl. cbv zeta iota. rewrite app_nil_r, (wrap_len (stack (st t))), Hr by done. reflexivity.
  - by apply HQ.
Qed.

Lemma pushed (t : TState B) s' f : control_stack s' = control_stack (st t) ++ [f] -> frames (mkT (bld t) s') = f :: frames t.
Proof. intros E. unfold frames. cbn. by rewrite E, rev_app_distr. Qed.

(** ** The [else] of a frame *)
Lemma dead_frames_pos t vs : dead_at t vs -> 0 < pm_len (frames t) /\ pm_len (frames t) = pm_len vs.
Proof.
  intros (ps & f & fs & pvs & u & rvs & under & base & junk & Hre & Hfr & -> & Hps & Hl & _). rewrite Hfr, !pm_len_app.
  apply Forall2_length in Hps. apply layers_length in Hl. unfold pm_len. cbn. lia.
Qed.
Lemma wp_unreachable t op (Q : unit -> TState B -> Prop) : reachable (st t) = false -> structural op = false -> Q tt t ->
  wp (translate_unreachable_operator dbg env validator op) t Q.
Proof.
  intros Hr Hs HQ. apply wp_bind, wp_get. rewrite Hr. apply wp_bind, wp_debug_assert; [done|].
  destruct op; try discriminate Hs; by apply wp_ret.
Qed.

Lemma dead_else_placeholder t p ps vs v f fs pvs u rvs under base junk vs' :
  reachable (st t) = false -> frames t = p :: ps ++ f :: fs -> pm_len (frames t) < max_height -> vs = pvs ++ u :: rvs ->
  placeholder_ok p v -> Forall2 placeholder_ok ps pvs -> layers (bld t) fs rvs under -> frame_ok (bld t) f u ->
  base_ok (bld t) f u under base -> stack (st t) = base ++ junk -> Forall (fun p => pm_len base <= original_stack_size p < max_height) (p :: ps) ->
  ended (bld t) -> shared t (f :: fs) -> vstep_raw Operator.Else (v :: vs) = Some vs' ->
  wp (unreachable_else dbg env validator) t (fun _ => post t vs').
Proof.
  intros Hr Hf Hlen -> Hp Hps Hl Hfo Hb Hs Hn He [N T W] Hv.
  apply wp_bind, wp_top_index; [split; [rewrite Hf; unfold pm_len; cbn; lia|done]|].
  apply wp_bind. eapply wp_frame_at; [by rewrite Hf|].
  lazy [vstep_raw] in Hv. destruct (v_kind v) as [| |same|] eqn:Hk; try discriminate Hv. inv_some.
  destruct p as [d e n r orig x0 bt h c|d n r orig x0|]; cbn in Hp; [|by destruct Hp as (_ & _ & [?|?]); congruence|done].
  destruct Hp as (-> & -> & -> & Hc). destruct c; [congruence|]. apply wp_bind, wp_debug_assert; [done|].
  apply wp_bind, wp_get, wp_bind, wp_upd, wp_ret. right. split; [|done]. rewrite Hr. set (t' := mkT _ _).
  assert (frames t' = If_ d e 0 r orig false bt false (Some false) :: ps ++ f :: fs) as Hf'.
  { unfold t'. rewrite frames_set; rewrite Hf; [done|cbn; lia]. }
  exists (If_ d e 0 r orig false bt false (Some false) :: ps), f, fs, (enter KElse (v_start v) (v_end v) :: pvs), u, rvs, under, base, junk.
  split_and!; try done.
  - by constructor.
  - inversion Hn; subst. by constructor.
  - by eapply shared_same.
Qed.

(** The state in which the [else] of a real frame is entered. *)
Lemma else_live t t' d e n r orig x bt v fs rvs under saved K :
  layers (bld t) fs rvs under -> K = frame_blocks fs -> evolves K (bld t) (bld t') -> dest_ok (bld t') d (v_end v) -> Forall (fun t => canon t = t) (v_end v) ->
  n = pm_len (v_start v) -> r = pm_len (v_end v) -> orig = pm_len (under ++ saved) -> Forall2 (repr (bld t)) saved (v_start v) ->
  forall c, (c = true -> exists j, edge (bld t') j d) -> (x = true -> exists j, edge (bld t') j d) ->
  reachable (st t') = true -> frames t' = If_ d e n r orig x bt true (Some c) :: fs -> stack (st t') = under ++ saved ->
  live (bld t') -> shared t' (frames t') -> live_at t' (enter KElse (v_start v) (v_end v) :: rvs).
Proof.
  intros Hl -> He Hd Hcn -> -> -> Hs c Hc Hx Hr Hf Hst Hli Hsh. split; [done|]. split; [|done]. rewrite Hf, Hst.
  econstructor; [by eapply layers_evolves| | |apply alive_enter|].
  - split; try done.
    + by destruct e.
    + intros Hb. destruct (Hx Hb) as [j Hj]. exists j. by destruct e.
  - cbn. split; [done|]. rewrite pm_len_app. apply pm_len_Forall2 in Hs. lia.
  - eapply extends_reprs; [|done]. apply (ev_extends _ _ _ He).
Qed.

Lemma dead_else_real t f fs v rvs under base junk vs' :
  reachable (st t) = false -> frames t = f :: fs -> pm_len (frames t) < max_height ->
  layers (bld t) fs rvs under -> frame_ok (bld t) f v -> base_ok (bld t) f v under base -> stack (st t) = base ++ junk ->
  ended (bld t) -> shared t (f :: fs) -> vstep_raw Operator.Else (v :: rvs) = Some vs' ->
  wp (unreachable_else dbg env validator) t (fun _ => post t vs').
Proof.
  intros Hr Hf Hlen Hl [Fp Fr Fd Fcn Fk Fx] Hb Hs He [N T W] Hv.
  apply wp_bind, wp_top_index; [split; [rewrite Hf; unfold pm_len; cbn; lia|done]|].
  apply wp_bind. eapply wp_frame_at; [by rewrite Hf|].
  lazy [vstep_raw] in Hv. destruct (v_kind v) as [| |same|] eqn:Hk; try discriminate Hv. inv_some.
  apply nodup_tail in N as [N Nd].
  destruct f as [d e n r orig x0 bt h c|d n r orig x0|d hd n r orig]; cbn in Fk; [|congruence|destruct Fk; congruence].
  destruct c as [c|]; [destruct e, Fk as (_ & ? & _); congruence|].
  cbn in Hb. destruct Hb as (saved & -> & Hsv & ->). cbn in Fp, Fr, Fd, Fx.
  apply wp_bind, wp_debug_assert; [done|]. apply wp_bind, wp_get, wp_bind, wp_upd. rewrite Hr.
  assert (h = true) as -> by (destruct e; apply Fk). apply wp_bind, wp_upd. apply wp_bind. set (t1 := mkT _ _).
  assert (frames t1 = If_ d e n r (pm_len (under ++ saved)) x0 bt true (Some false) :: fs) as Hf1.
  { change (frames t1) with (frames (mkT (bld t) (set_frame (pm_len (frames t) - 1 - Z.of_nat 0) (If_ d e n r (pm_len (under ++ saved)) x0 bt true (Some false)) (st t)))).
    rewrite frames_set; rewrite Hf; [done|cbn; lia]. }
  destruct e as [i p|e].
  - destruct Fk as (_ & _ & -> & Hi & Hse & Hsig). destruct (block_sig_inv _ _ _ _ _ _ Hsig) as (ps & rs & Hbt & Hps & _).
    apply wp_bind. eapply wp_lift; [exact Hbt|]. apply wp_bind. eapply wp_block_with_params; [exact Hps|]. intros k b1 Hm.
    apply wp_bind. eapply wp_to_else; [exact Hf1|done|done|exact Hs|]. cbn [bld st fst].
    assert (forall j, j ∈ d :: frame_blocks fs -> known (bld t) j) as HK.
    { intros j [->|Hj]%elem_of_cons; [apply (do_known _ _ _ Fd)|by eapply layers_known]. }
    pose proof (made_evolves (d :: frame_blocks fs) _ _ _ _ HK Hm) as E1.
    assert (forall j, j ∈ d :: frame_blocks fs -> j <> k) as Hnk by (intros j Hj ->; by apply (md_new _ _ _ _ Hm), HK).
    eapply (wp_else_tail (frame_blocks fs) (headers fs) i d k (v_end v)); cbn [bld st].
    + intros j Hj. eapply extends_known; [apply (md_extends _ _ _ _ Hm)|]. apply HK. by right.
    + apply Nd. left.
    + intros Hj. by apply (Hnk k); [right|].
    + intros ->. by apply (Hnk d); [left|].
    + by apply (md_edge _ _ _ _ Hm).
    + eapply dest_evolves; [|exact E1|done]. left.
    + apply (md_known _ _ _ _ Hm).
    + rewrite (md_filled _ _ _ _ Hm). apply (md_unfilled _ _ _ _ Hm).
    + rewrite (md_sealed _ _ _ _ Hm). apply (md_unsealed _ _ _ _ Hm).
    + by rewrite (md_params _ _ _ _ Hm).
    + intros j. rewrite (md_edge _ _ _ _ Hm). apply (md_no_edge _ _ _ _ Hm).
    + by eapply made_ended.
    + by eapply made_tight.
    + intros b2 [V2 D2 L2 T2 F2]. left.
      eapply (else_live t _ d (NoElse i d) n r _ x0 bt v fs rvs under saved); try done; try exact Hf1; try discriminate.
      * eapply evolves_trans; [|exact V2]. eapply evolves_mono; [|exact E1]. intros j. by right.
      * intros Hex. destruct (Fx Hex) as (j & Hj & Hn). exists j. apply F2; [by intros ->|]. by apply (md_edge _ _ _ _ Hm).
      * match goal with |- CtlSim.shared _ _ _ _ _ ?x => change x with (frames t1) end. rewrite Hf1. split; [|done|].
        { cbn. constructor; [|done]. apply Nd. left. }
        eapply world_extends; [exact W| |done]. eapply extends_trans; [apply (md_extends _ _ _ _ Hm)|apply (ev_extends _ _ _ V2)].
  - destruct Fk as (_ & _ & [Ke Kf Ks Kc [j Hj]]). apply wp_bind. eapply wp_to_else; [exact Hf1|done|done|exact Hs|].
    apply wp_ret, wp_switch; [done|done|done|]. intros b1 Hsw. left.
    assert (forall j, j ∈ d :: frame_blocks fs -> known (bld t) j) as HK.
    { intros k [->|Hk']%elem_of_cons; [apply (do_known _ _ _ Fd)|by eapply layers_known]. }
    assert (evolves (d :: frame_blocks fs) (bld t) b1) as V.
    { eapply switched_evolves; [done| |done]. intros [->|Hk']%elem_of_cons; [|by eapply Nd; [right; left|]].
      by apply (do_sealed _ _ _ Fd). }
    eapply (else_live t _ d (WithElse e) n r _ x0 bt v fs rvs under saved); try done; try exact Hf1; try discriminate.
    + eapply evolves_mono; [|exact V]. intros k. by right.
    + eapply dest_evolves; [|exact V|done]. left.
    + intros Hex. destruct (Fx Hex) as (i & Hi & Hn). exists i. apply (ev_edge _ _ _ V); [left|done].
    + eapply switched_live; [done|done| |done]. by exists j.
    + match goal with |- CtlSim.shared _ _ _ _ _ ?x => change x with (frames t1) end. rewrite Hf1. split; [|by eapply switched_tight_sealed|].
      { cbn. constructor; [|done]. apply Nd. left. }
      eapply world_extends; [exact W| |done]. apply (ev_extends _ _ _ V).
Qed.

(** ** The [end] of a frame *)
Lemma dead_end_placeholder t p ps vs v f fs pvs u rvs under base junk vs' :
  reachable (st t) = false -> frames t = p :: ps ++ f :: fs -> vs = pvs ++ u :: rvs ->
  placeholder_ok p v -> Forall2 placeholder_ok ps pvs -> layers (bld t) fs rvs under -> frame_ok (bld t) f u ->
  base_ok (bld t) f u under base -> stack (st t) = base ++ junk ->
  Forall (fun p => pm_len base <= original_stack_size p < max_height) (p :: ps) ->
  ended (bld t) -> shared t (f :: fs) -> vstep_raw Operator.End (v :: vs) = Some vs' ->
  wp (unreachable_end dbg) t (fun _ => post t vs').
Proof.
  intros Hr Hf -> Hp Hps Hl Hfo Hb Hs Hn He Hsh Hv. inversion Hn as [|? ? Ho Hn']; subst. clear Hn.
  destruct (truncate_keeps (original_stack_size p) base junk) as (junk' & Ht & Hle); [lia|].
  assert (exists g vs0, pvs ++ u :: rvs = g :: vs0 /\ vs' = vpush (v_end v) g :: vs0) as (g & vs0 & Hg & ->).
  { lazy [vstep_raw] in Hv. inv_some; [by destruct pvs|]. by eexists _, _. }
  apply wp_bind. eapply wp_pop_frame; [exact Hf|]. apply wp_bind. eapply (wp_mod _ (set_stack (base ++ junk') _)).
  { assert (truncate_value_stack_to_original_size (E:=Error) dbg p (base ++ junk) = Ok (base ++ junk')) as E; [|cbn; by rewrite Hs, E].
    unfold truncate_value_stack_to_original_size. pose proof (pm_len_nonneg base).
    destruct p as [d e n r orig x bt h c|d n r orig x|]; cbn in Hp, Ho, Ht |- *; [| |done]; destruct Hp as (-> & _).
    - rewrite (proj2 (Z.leb_le _ _)), debug_assert_true by lia. cbn. by rewrite wrapping_sub_len, Z.sub_0_r, Ht by lia.
    - by rewrite wrapping_sub_len, Z.sub_0_r, Ht by lia. }
  set (t1 := mkT _ _). assert (frames t1 = ps ++ f :: fs) as Hf1 by apply rev_involutive.
  assert (dead_at t1 (pvs ++ u :: rvs)) as Hd.
  { exists ps, f, fs, pvs, u, rvs, under, base, junk'. split_and!; try done. by eapply shared_same. }
  assert (post t (vpush (v_end v) g :: vs0) t1) as Hpost.
  { right. split; [by rewrite Hg in Hd; eapply dead_same; [|exact Hd]|]. cbn. rewrite Hs, !pm_len_app. lia. }
  destruct p as [d e n r orig x bt h c|d n r orig x|]; cbn in Hp; [| |done].
  - destruct Hp as (_ & -> & -> & _). apply wp_bind, wp_ret. by destruct c; apply wp_ret.
  - destruct Hp as (_ & -> & _). by apply wp_bind, wp_ret, wp_ret.
Qed.

Lemma vstep_end v vs vs' : vstep_raw Operator.End (v :: vs) = Some vs' -> vs' = leave_frames v vs /\ v_kind v <> KIf false.
Proof.
  intros H. lazy [vstep_raw] in H. inv_some; apply andb_true_iff in Ec as [_ Hk]; (split; [done|]); intros E; by rewrite E in Hk.
Qed.
(** The code after the frame is reached although its end is not. *)
Lemma left_edge b f v : frame_ok b f v -> v_kind v <> KIf false -> exit_is_branched_to f || reachable_anyway f = true ->
  exists j, edge b j (following_code f).
Proof.
  intros [_ _ _ _ Fk Fx] Hv [Hx|Hx]%orb_true_iff; [destruct (Fx Hx) as (j & Hj & _); by exists j|].
  destruct f as [d [i p|e] n r orig x bt h [c|]| |]; cbn in *; try done.
  - apply andb_true_iff in Hx as [_ ->]. destruct Fk as (_ & _ & Hj). auto.
  - destruct Fk as (_ & _ & -> & Hi & _). by exists i.
  - apply andb_true_iff in Hx as [_ ->]. destruct Fk as (_ & _ & Hj). auto.
  - by destruct Fk as (_ & ? & _).
Qed.
Lemma dead_end_real t f fs v rvs under base junk vs' :
  reachable (st t) = false -> frames t = f :: fs -> pm_len (stack (st t)) < max_height -> bottom results (v :: rvs) ->
  layers (bld t) fs rvs under -> frame_ok (bld t) f v -> base_ok (bld t) f v under base -> stack (st t) = base ++ junk ->
  ended (bld t) -> shared t (f :: fs) -> vstep_raw Operator.End (v :: rvs) = Some vs' ->
  wp (unreachable_end dbg) t (fun _ => post t vs').
Proof.
  intros Hr Hf Hlen Hbt Hl Hfo Hb Hs He [N T W] [-> Hk]%vstep_end. apply nodup_tail in N as [N Nd].
  assert (pm_len base < max_height /\ pm_len under <= pm_len base) as [Hbl Hub].
  { split; [rewrite Hs, pm_len_app in Hlen; pose proof (pm_len_nonneg junk); lia|].
    destruct f as [? ? ? ? ? ? ? ? []| |]; cbn in Hb; try (destruct Hb as [-> _]; lia). destruct Hb as (saved & -> & _).
    rewrite pm_len_app. pose proof (pm_len_nonneg saved). lia. }
  assert (pm_len under <= pm_len (stack (st t))) as Hle by (rewrite Hs, pm_len_app; pose proof (pm_len_nonneg junk); lia).
  apply wp_bind. eapply wp_pop_frame; [exact Hf|]. apply wp_bind.
  eapply (wp_mod _ (set_stack under (set_control_stack (rev fs) (st t)))); [cbn; by erewrite Hs, truncate_original|].
  set (t1 := mkT _ _). assert (frames t1 = fs) as Hf1 by apply rev_involutive.
  assert (forall j, j ∈ frame_blocks fs -> known (bld t) j) as HK by (intros j Hj; by eapply layers_known).
  destruct (header_of f) as [|hd ?] eqn:Hh.
  - assert (tight (bld t) (headers fs)) as T' by (by cbn in T; rewrite Hh in T).
    assert (match f with Loop_ _ header _ _ _ => onb (seal_block header) | _ => mret tt end = mret tt :> M unit) as -> by (by destruct f).
    apply wp_bind, wp_ret. destruct (exit_is_branched_to f || reachable_anyway f) eqn:Hx.
    + destruct (fo_dest _ _ _ _ _ Hfo) as [Dk Df Ds Dc Dd Dcl].
      eapply (wp_enter (frame_blocks fs) (headers fs) _ (v_end v)); try done; [apply Nd, dest_in_blocks|by eapply left_edge|].
      intros b' [V L T2 P _ _ _]. apply wp_bind, wp_query, wp_bind, wp_upd, wp_upd. eapply leave_live; try done.
      * eapply layers_evolves; [|exact V|done]. done.
      * cbn. apply types_repr; [done|]. apply (fo_canon _ _ _ _ _ Hfo).
      * split; [done..|]. eapply world_extends; [exact W|apply (ev_extends _ _ _ V)|done].
    + apply wp_ret. eapply leave_dead; try done. by apply (shared_same _ _ _ _ t).
  - destruct f as [| |d h n r orig]; try discriminate Hh. cbn in Hh. simplify_eq. destruct (fo_kind _ _ _ _ _ Hfo) as [_ [Kh Sh Dh]].
    apply wp_bind, wp_seal; [done|done|]. intros b' R. apply wp_ret. eapply leave_dead; try done.
    + eapply layers_evolves; [|eapply sealed_evolves; [exact HK| |exact R]|done]; [done|]. apply Nd. right. left.
    + by eapply sealed_ended.
    + split; [done|exact (sealed_tight _ _ _ _ T R)|]. eapply world_extends; [exact W|apply (sa_extends _ _ _ R)|done].
Qed.

(** ** All operators *)
Lemma dead_step op t vs vs' : dead_at t vs -> pm_len (stack (st t)) < max_height -> height vs < max_height -> bottom results vs ->
  vstep_raw op vs = Some vs' -> wp (translate_unreachable_operator dbg env validator op) t (fun _ => post t vs').
Proof.
  intros Hd Hlen Hh Hbt Hv. pose proof (dead_frames_pos _ _ Hd) as [Hpos Hfl].
  assert (pm_len (frames t) < max_height) as Hfm.
  { rewrite Hfl. eapply Z.le_lt_trans; [|exact Hh]. apply height_length. }
  assert (reachable (st t) = false) as Hr by (by destruct Hd as (?&?&?&?&?&?&?&?&?&?&_)).
  destruct vs as [|v vs]; [by destruct Hd as (?&?&?&[]&?&?&?&?&?&_&_&?&_)|].
  destruct (structural op) eqn:Hs; [|].
  2:{ destruct (vstep_same _ _ _ _ Hs Hv) as (v' & -> & Hsm). apply wp_unreachable; [done..|]. right.
      split; [by eapply dead_same|done]. }
  apply wp_bind, wp_get. rewrite Hr. apply wp_bind, wp_debug_assert; [done|].
  destruct op; try discriminate Hs.
  - lazy [vstep_raw] in Hv. inv_some. apply push_block_dead; [done|]. intros s' E1 E2 E3 E4. right. split; [|cbn; by rewrite E1].
    eapply (dead_push t _ (Block_ _ _ _ _ _) _ v); try done; [frames_same|cbn; tauto|by eapply pushed].
  - lazy [vstep_raw] in Hv. inv_some. apply push_block_dead; [done|]. intros s' E1 E2 E3 E4. right. split; [|cbn; by rewrite E1].
    eapply (dead_push t _ (Block_ _ _ _ _ _) _ v); try done; [frames_same|cbn; tauto|by eapply pushed].
  - lazy [vstep_raw] in Hv. inv_some. apply push_if_dead; [done|done|]. intros s' E1 E2 E3 E4. right. split; [|cbn; by rewrite E1].
    eapply (dead_push t _ (If_ _ _ _ _ _ _ _ _ _) _ v); try done; [frames_same| |by eapply pushed]. by repeat split; eexists.
  - destruct Hd as (ps & f & fs & pvs & u & rvs & under & base & junk & _ & Hfr & Hvs & Hps & Hl & Hfo & Hba & Hst & Hn & He & Hsh).
    destruct Hps as [|p pv ps pvs Hp Hps]; simplify_eq/=; [by eapply dead_else_real|by eapply dead_else_placeholder].
  - destruct Hd as (ps & f & fs & pvs & u & rvs & under & base & junk & _ & Hfr & Hvs & Hps & Hl & Hfo & Hba & Hst & Hn & He & Hsh).
    destruct Hps as [|p pv ps pvs Hp Hps]; simplify_eq/=; [by eapply dead_end_real|by eapply dead_end_placeholder].
Qed.
End Dead.
