(* ===== verification/CtlLive.v ===== *)
(** * Reachable code: branches

    Operators that transfer control out of the current block, and the marking of
    the frames they branch to. *)
From stdpp Require Import base list gmap option numbers.
From S2P Require Import Prelude Types Trap Module ModuleTypes VMOffsets HeapAccess Clif ClifLaws FuncState WasmOp FuncEnv CodeTranslator CodeTranslatorCtl CodeTranslatorOps WasmTyping FuncValid OpTyping CtlInv CtlSim CtlSteps CtlDead.
Local Open Scope Z_scope.

Section Live.
Context {B : Type} {FB : FunctionBuilder B} {BV : BuilderView B} {LAWS : FunctionBuilderLaws B} {TC : TrapCodes}.
Context (dbg : bool) (env : TranslationEnvironment) (validator : FuncValidator) (locals results : list ir.Type_).
Abbreviation M := (SM (TState B) Error).
Abbreviation layers := (layers env validator).
Abbreviation frame_ok := (frame_ok env validator).
Abbreviation shared := (shared dbg env locals results).
Abbreviation live_at := (live_at dbg env validator locals results).
Abbreviation dead_at := (dead_at dbg env validator locals results).
Abbreviation post := (post dbg env validator locals results).
Abbreviation vstep_raw := (vstep_raw env validator locals).

(** ** The innermost frame *)
Record here (t : TState B) (f : ControlStackFrame) (fs : list ControlStackFrame) (v : vframe) (vs : list vframe)
    (under base seg : list Value) (tys : list ir.Type_) : Prop := {
  h_reachable : reachable (st t) = true; h_frames : frames t = f :: fs; h_layers : layers (bld t) fs vs under;
  h_frame : frame_ok (bld t) f v; h_base : base_ok (bld t) f v under base; h_alive : alive v tys;
  h_seg : Forall2 (repr (bld t)) seg tys; h_stack : stack (st t) = base ++ seg; h_live : live (bld t);
  h_shared : shared t (f :: fs) }.
Lemma live_here t v vs : live_at t (v :: vs) -> exists f fs under base seg tys, here t f fs v vs under base seg tys.
Proof.
  intros (Hr & Hl & Hli & Hsh). destruct (layers_cons_inv _ _ _ _ _ _ _ Hl) as (f & fs & Hf). rewrite Hf in Hl.
  destruct (layers_head _ _ _ _ _ _ _ _ Hl) as (under & base & seg & tys & ? & ? & ? & ? & ? & ?).
  exists f, fs, under, base, seg, tys. split; try done. by rewrite <- Hf.
Qed.
Lemma here_live t f fs v vs under base seg tys : here t f fs v vs under base seg tys -> live_at t (v :: vs).
Proof. intros []. split; [done|]. rewrite h_frames0, h_stack0. split; [by econstructor|done]. Qed.
(** The builder moved on. *)
Lemma here_evolves_w t t' f fs v v' vs under base seg tys seg' tys' : here t f fs v vs under base seg tys -> same_frame v v' ->
  evolves (frame_blocks (f :: fs)) (bld t) (bld t') -> live (bld t') -> tight (bld t') (headers (f :: fs)) ->
  frames t' = frames t -> reachable (st t') = true -> world dbg env locals results t' -> stack (st t') = base ++ seg' ->
  alive v' tys' -> Forall2 (repr (bld t')) seg' tys' -> here t' f fs v' vs under base seg' tys'.
Proof.
  intros [Hr Hf Hl Hfo Hb Ha Hs Hst Hli [N T W]] Hv V L' T' Hf' Hr' W' Hs' Ha' Hr2. split; try done; [congruence|..].
  - eapply layers_evolves; [|exact V|done]. cbn. set_solver.
  - apply (frame_ok_same _ _ _ _ v); [done|]. eapply frame_evolves; [|exact V|done]. cbn. set_solver.
  - apply (base_ok_same _ _ v); [done|]. eapply base_evolves; [apply (ev_extends _ _ _ V)|done].
Qed.
Lemma here_world t t' f fs v vs under base seg tys : here t f fs v vs under base seg tys -> extends (bld t) (bld t') ->
  same_caches (st t) (st t') -> world dbg env locals results t'.
Proof. intros H X Hc. eapply world_extends; [|exact X|exact Hc]. apply H. Qed.
Lemma here_evolves t t' f fs v v' vs under base seg tys seg' tys' : here t f fs v vs under base seg tys -> same_frame v v' ->
  evolves (frame_blocks (f :: fs)) (bld t) (bld t') -> live (bld t') -> tight (bld t') (headers (f :: fs)) ->
  frames t' = frames t -> reachable (st t') = true -> same_caches (st t) (st t') -> stack (st t') = base ++ seg' ->
  alive v' tys' -> Forall2 (repr (bld t')) seg' tys' -> here t' f fs v' vs under base seg' tys'.
Proof.
  intros H Hv V ? ? ? ? Hc ? ? ?. eapply here_evolves_w; try done. eapply here_world; [exact H|apply (ev_extends _ _ _ V)|done].
Qed.
Lemma here_known t f fs v vs under base seg tys k : here t f fs v vs under base seg tys -> k ∈ frame_blocks (f :: fs) -> known (bld t) k.
Proof. intros []. cbn. intros [?|?]%elem_of_app; [by eapply frame_known|by eapply layers_known]. Qed.
Lemma here_straight t t' f fs v v' vs under base seg tys seg' tys' : here t f fs v vs under base seg tys -> same_frame v v' ->
  straight (bld t) (bld t') -> frames t' = frames t -> reachable (st t') = reachable (st t) -> same_caches (st t) (st t') ->
  stack (st t') = base ++ seg' -> alive v' tys' -> Forall2 (repr (bld t')) seg' tys' -> here t' f fs v' vs under base seg' tys'.
Proof.
  intros H Hv Hs ? Hr ? ? ? ?. eapply here_evolves; try done.
  - apply straight_evolves; [|done]. intros k. by eapply here_known.
  - eapply straight_live; [apply H|done].
  - eapply straight_tight; [apply H|done].
  - rewrite Hr. apply H.
Qed.

(** ** Frames that are branched to *)
Lemma layers_lookup b fs vs stk d w : layers b fs vs stk -> vs !! d = Some w -> exists g, fs !! d = Some g /\ frame_ok b g w.
Proof.
  intros Hl. revert d. induction Hl as [|f v fs vs under base seg tys _ IH Hf _ _ _]; intros d Hd; [done|].
  destruct d as [|d]; cbn in *; [|by apply IH]. simplify_eq. by exists f.
Qed.
Lemma here_lookup t f fs v vs under base seg tys d w : here t f fs v vs under base seg tys -> (v :: vs) !! d = Some w ->
  exists g, (f :: fs) !! d = Some g /\ frame_ok (bld t) g w.
Proof. intros [] Hd. eapply layers_lookup; [|exact Hd]. by econstructor. Qed.
Record target (b : B) (g : ControlStackFrame) (w : vframe) : Prop := {
  tg_arity : branch_arity g = pm_len (label_types w); tg_known : known b (br_destination g); tg_sealed : ~ sealed b (br_destination g);
  tg_declared : declared b (br_destination g) = label_types w }.
Lemma frame_target b g w : frame_ok b g w -> target b g w.
Proof.
  intros [Fp Fr [Dk Df Ds Dc Dd Dcl] Fcn Fk Fx].
  destruct g as [d [i p|e] n r orig x bt h [c|]| |d h n r orig]; cbn in *.
  1-4: destruct Fk as (_ & Hk & _); split; unfold label_types; rewrite ?Hk; done.
  - split; unfold label_types; rewrite ?Fk; done.
  - destruct Fk as (Hk & [Hk1 Hk2 Hk3]). split; unfold label_types; rewrite ?Hk; done.
Qed.
Lemma set_branched_same g : following_code (set_branched_to_exit g) = following_code g /\ blocks_of (set_branched_to_exit g) = blocks_of g /\
  header_of (set_branched_to_exit g) = header_of g /\ pending (set_branched_to_exit g) = pending g.
Proof. by destruct g as [? [] ? ? ? ? ? ? []| |]. Qed.
(** A new branch to the frame's destination stays. *)
Lemma new_firm b b' ds j g w : frame_ok b g w -> branched ds j b b' -> br_destination g ∈ ds -> is_loop g = false -> firm b' g.
Proof.
  intros [_ _ _ _ Fk _] Hb Hd Hl. exists j. split; [apply (br_edge _ _ _ _ Hb); right; split; [done|by destruct g]|].
  intros Hp. destruct g as [d [i p|e] n r orig x bt h [c|]| |]; cbn in Hp; simplify_eq.
  destruct Fk as (_ & _ & _ & Hi & _). by apply (br_fresh _ _ _ _ Hb d).
Qed.
Lemma frame_mark b g w : frame_ok b g w -> (is_loop g = false -> firm b g) -> frame_ok b (set_branched_to_exit g) w.
Proof.
  intros [Fp Fr Fd Fcn Fk Fx] Hm. destruct (set_branched_same g) as (E1 & E2 & E3 & E4).
  split; rewrite ?E1; try done; try (by destruct g).
  intros Hx. unfold firm. rewrite E1, E4. apply Hm. by destruct g.
Qed.

(** The frames at depths [D] are marked. *)
Definition mark (D : list nat) (i : nat) (g : ControlStackFrame) : ControlStackFrame :=
  if bool_decide (i ∈ D) then set_branched_to_exit g else g.
Definition mark_at (D : list nat) (fs : list ControlStackFrame) : list ControlStackFrame := imap (mark D) fs.
Definition shift (D : list nat) : list nat := omap (fun i => match i with S i => Some i | O => None end) D.
Lemma elem_shift D i : i ∈ shift D <-> S i ∈ D.
Proof.
  unfold shift. rewrite list_elem_of_omap. split; [intros ([|j] & Hj & ?); by simplify_eq|]. intros. by exists (S i).
Qed.
Lemma mark_at_cons D f fs : mark_at D (f :: fs) = mark D 0 f :: mark_at (shift D) fs.
Proof.
  unfold mark_at. cbn. f_equal. apply imap_ext. intros i g _. cbn. unfold mark. by rewrite (bool_decide_ext _ _ (symmetry (elem_shift D i))).
Qed.
Lemma mark_at_nil fs : mark_at [] fs = fs.
Proof. unfold mark_at. induction fs as [|f fs IH]; cbn; [done|]. f_equal. exact IH. Qed.
Lemma set_branched_idemp g : set_branched_to_exit (set_branched_to_exit g) = set_branched_to_exit g.
Proof. by destruct g. Qed.
Lemma mark_branched D i g : set_branched_to_exit (mark D i g) = set_branched_to_exit g.
Proof. unfold mark. case_bool_decide; [apply set_branched_idemp|done]. Qed.
Lemma mark_same D i g : branch_arity (mark D i g) = branch_arity g /\ br_destination (mark D i g) = br_destination g /\
  blocks_of (mark D i g) = blocks_of g /\ header_of (mark D i g) = header_of g.
Proof. unfold mark. case_bool_decide; [|done]. by destruct g as [? [] ? ? ? ? ? ? []| |]. Qed.
Lemma mark_at_insert D d g fs : fs !! d = Some g -> <[d := set_branched_to_exit (mark D d g)]> (mark_at D fs) = mark_at (d :: D) fs.
Proof.
  intros Hd. apply list_eq. intros i. unfold mark_at. destruct (decide (i = d)) as [->|Hn].
  - rewrite list_lookup_insert_eq by (rewrite length_imap; by eapply lookup_lt_Some). rewrite list_lookup_imap, Hd. cbn.
    rewrite mark_branched. unfold mark. by rewrite bool_decide_eq_true_2 by left.
  - rewrite list_lookup_insert_ne, !list_lookup_imap by done. destruct (fs !! i); [|done]. cbn. unfold mark. f_equal.
    rewrite (bool_decide_ext (i ∈ d :: D) (i ∈ D)); [done|]. rewrite elem_of_cons. naive_solver.
Qed.
Lemma blocks_mark D fs : frame_blocks (mark_at D fs) = frame_blocks fs /\ headers (mark_at D fs) = headers fs.
Proof.
  revert D. induction fs as [|f fs IH]; intros D; [done|]. rewrite mark_at_cons. cbn. destruct (mark_same D 0 f) as (_ & _ & E1 & E2).
  rewrite E1, E2. destruct (IH (shift D)) as [I1 I2]. by split; f_equal.
Qed.
Lemma frame_mark_at D i b g w : frame_ok b g w -> (i ∈ D -> is_loop g = false -> firm b g) -> frame_ok b (mark D i g) w.
Proof. intros Hf Hm. unfold mark. case_bool_decide; [|done]. apply frame_mark; auto. Qed.
Lemma base_mark_at D i b g w under base : base_ok b g w under base -> base_ok b (mark D i g) w under base.
Proof. unfold mark. case_bool_decide; [|done]. by destruct g as [? [] ? ? ? ? ? ? []| |]. Qed.
Lemma layers_mark D b fs vs stk : layers b fs vs stk -> (forall i g, i ∈ D -> fs !! i = Some g -> is_loop g = false -> firm b g) ->
  layers b (mark_at D fs) vs stk.
Proof.
  intros Hl. revert D. induction Hl as [|f v fs vs under base seg tys Hl IH Hf Hb Ha Hs]; intros D Hm; [constructor|]. rewrite mark_at_cons.
  econstructor; [|apply frame_mark_at; [done|]|by apply base_mark_at|done|done].
  - apply IH. intros i g Hi%elem_shift Hg. by apply (Hm (S i)).
  - intros Hi. by apply (Hm 0%nat).
Qed.

(** *** Branching to frames *)
Lemma wp_branch_to_marked t D fs d g (Q : Z * Block -> TState B -> Prop) : frames t = mark_at D fs -> fs !! d = Some g ->
  pm_len (frames t) < max_height ->
  (forall t', bld t' = bld t -> frames t' = mark_at (d :: D) fs ->
     stack (st t') = stack (st t) -> reachable (st t') = reachable (st t) -> same_caches (st t) (st t') ->
     Q (branch_arity g, br_destination g) t') ->
  wp (branch_to (Z.of_nat d)) t Q.
Proof.
  intros Hf Hd Hl HQ. destruct (mark_same D d g) as (E1 & E2 & _). rewrite <- E1, <- E2 in HQ.
  eapply wp_branch_to; [|done|].
  - rewrite Hf. unfold mark_at. by rewrite list_lookup_imap, Hd.
  - intros t' Hb Hf'. rewrite Hf, mark_at_insert in Hf' by done. by apply HQ.
Qed.

(** Reachable code ends. *)
Lemma die_at_w t t' f fs v v' vs under base seg tys D junk : here t f fs v vs under base seg tys ->
  evolves (frame_blocks (f :: fs)) (bld t) (bld t') -> ended (bld t') -> tight (bld t') (headers (f :: fs)) ->
  same_frame v v' -> frames t' = mark_at D (f :: fs) ->
  (forall i g, i ∈ D -> (f :: fs) !! i = Some g -> is_loop g = false -> firm (bld t') g) ->
  reachable (st t') = false -> stack (st t') = base ++ junk -> world dbg env locals results t' -> dead_at t' (v' :: vs).
Proof.
  intros H V Hen T' Hv Hf HD Hr Hs W'. pose proof H as [_ _ Hl Hfo Hba _ _ _ Hli [N T W]].
  apply (dead_same _ _ _ _ _ _ v); [done|]. rewrite mark_at_cons in Hf. destruct (blocks_mark D (f :: fs)) as [B1 B2]. rewrite mark_at_cons in B1, B2.
  eapply dead_here; [done|exact Hf| | |by apply base_mark_at; eapply base_evolves; [apply V|]|exact Hs|done|].
  - apply layers_mark; [eapply layers_evolves; [|exact V|done]; cbn; set_solver|]. intros i g Hi%elem_shift Hg. by apply (HD (S i)).
  - apply frame_mark_at; [eapply frame_evolves; [|exact V|done]; cbn; set_solver|]. intros Hi. by apply (HD 0%nat).
  - split; [by rewrite B1|by rewrite B2|done].
Qed.
Lemma die_at t t' f fs v v' vs under base seg tys D junk : here t f fs v vs under base seg tys ->
  evolves (frame_blocks (f :: fs)) (bld t) (bld t') -> ended (bld t') -> tight (bld t') (headers (f :: fs)) ->
  same_frame v v' -> frames t' = mark_at D (f :: fs) ->
  (forall i g, i ∈ D -> (f :: fs) !! i = Some g -> is_loop g = false -> firm (bld t') g) ->
  reachable (st t') = false -> stack (st t') = base ++ junk -> same_caches (st t) (st t') -> dead_at t' (v' :: vs).
Proof.
  intros H V ? ? ? ? ? ? ? Hc. eapply die_at_w; try done. eapply here_world; [exact H|apply (ev_extends _ _ _ V)|done].
Qed.
Lemma here_frame t f fs v vs under base seg tys i g : here t f fs v vs under base seg tys -> (f :: fs) !! i = Some g ->
  (exists w, (v :: vs) !! i = Some w /\ frame_ok (bld t) g w) /\ blocks_of g ⊆ frame_blocks (f :: fs).
Proof.
  intros H Hg. split.
  - destruct (lookup_lt_is_Some_2 (v :: vs) i) as [w Hw].
    { apply lookup_lt_Some in Hg. cbn in *. by rewrite <- (layers_length _ _ _ _ _ _ (h_layers _ _ _ _ _ _ _ _ _ H)). }
    destruct (here_lookup _ _ _ _ _ _ _ _ _ _ _ H Hw) as (g' & Hg' & Hgo). simplify_eq. by exists w.
  - intros x Hx. apply list_elem_of_In, in_concat. exists (blocks_of g). rewrite <- !list_elem_of_In. split; [|done].
    apply list_elem_of_fmap. exists g. split; [done|]. by eapply list_elem_of_lookup_2.
Qed.
(** It ends with a branch to the marked frames. *)
Lemma die t t' f fs v v' vs under base seg tys D ds j junk : here t f fs v vs under base seg tys -> branched ds j (bld t) (bld t') ->
  same_frame v v' -> frames t' = mark_at D (f :: fs) -> (forall i g, i ∈ D -> (f :: fs) !! i = Some g -> br_destination g ∈ ds) ->
  reachable (st t') = false -> stack (st t') = base ++ junk -> same_caches (st t) (st t') -> dead_at t' (v' :: vs).
Proof.
  intros H Hb Hv Hf HD Hr Hs Hc. eapply (die_at t t'); try done.
  - eapply branched_evolves; [|done]; intros k; by eapply here_known.
  - eapply branched_ended; [apply H|done].
  - eapply branched_tight; [apply H|done].
  - intros i g Hi Hg Hlo. destruct (here_frame _ _ _ _ _ _ _ _ _ _ _ H Hg) as [(w & _ & Hgo) _]. eapply new_firm; [done|done| |done].
    by eapply HD.
Qed.

(** Reachable code goes on in a new block after a conditional branch. *)
Lemma firm_evolves K b b' g : following_code g ∈ K -> evolves K b b' -> firm b g -> firm b' g.
Proof. intros Hk V (j & Hj & Hn). exists j. split; [by apply (ev_edge _ _ _ V)|done]. Qed.
Lemma wp_fall t f fs v vs under base seg tys k b1 b2 ds j s2 (Q : unit -> TState B -> Prop) :
  here t f fs v vs under base seg tys -> made (bld t) b1 k [] -> branched ds j b1 b2 -> k ∈ ds ->
  (forall b', evolves (frame_blocks (f :: fs)) (bld t) b' -> live b' -> tight b' (headers (f :: fs)) ->
     (forall i g, (f :: fs) !! i = Some g -> br_destination g ∈ ds -> is_loop g = false -> firm b' g) -> Q tt (mkT b' s2)) ->
  wp (onb (seal_block k)) (mkT b2 s2) (fun _ t' => wp (onb (switch_to_block k)) t' Q).
Proof.
  intros H Hm Hb Hk HQ. pose proof (h_shared _ _ _ _ _ _ _ _ _ H) as [N T W]. pose proof (h_live _ _ _ _ _ _ _ _ _ H) as Hl.
  set (K := frame_blocks (f :: fs)) in *. assert (forall i, i ∈ K -> known (bld t) i) as HK by (intros i; by eapply here_known).
  pose proof (md_extends _ _ _ _ Hm) as X1. pose proof (br_extends _ _ _ _ Hb) as X2.
  assert (forall i, i ∈ K -> known b1 i) as HK1 by (intros i Hi; apply (extends_known _ _ _ X1); auto).
  assert (k ∉ K) as Hn by (intros Hi; by apply (md_new _ _ _ _ Hm), HK).
  assert (current b1 <> Some k) as Hc by (by eapply made_not_current).
  assert (known b2 k) as K2 by (by apply (extends_known _ _ _ X2), (md_known _ _ _ _ Hm)).
  assert (~ filled b2 k) as F2.
  { rewrite (br_filled _ _ _ _ Hb), (md_filled _ _ _ _ Hm). intros [?|?]; [|done]. by apply (md_unfilled _ _ _ _ Hm). }
  pose proof (made_evolves K _ _ _ _ HK Hm) as V1. pose proof (branched_evolves K _ _ _ _ HK1 Hb) as V2.
  eapply (wp_seal_switch K (headers (f :: fs))); cbn [bld st]; try done.
  - intros i Hi. apply (extends_known _ _ _ X2). auto.
  - rewrite (br_sealed _ _ _ _ Hb), (md_sealed _ _ _ _ Hm). apply (md_unsealed _ _ _ _ Hm).
  - exists j. apply (br_edge _ _ _ _ Hb). by right.
  - eapply branched_ended; [|exact Hb]. by eapply made_live.
  - eapply branched_tight; [|exact Hb]. by eapply made_tight.
  - intros b4 V3 L4 T4. apply HQ; [exact (evolves_trans _ _ _ _ V1 (evolves_trans _ _ _ _ V2 V3))|done|done|].
    intros i g Hg Hd Hlo. destruct (here_frame _ _ _ _ _ _ _ _ _ _ _ H Hg) as [(w & _ & Hgo) Hgk].
    eapply firm_evolves; [|exact V3|]; [apply Hgk, dest_in_blocks|].
    eapply new_firm; [by eapply frame_evolves; [exact Hgk|exact V1|]|exact Hb|done|done].
Qed.
Lemma go_on t t' f fs v v' vs under base seg tys D seg' tys' : here t f fs v vs under base seg tys -> same_frame v v' ->
  evolves (frame_blocks (f :: fs)) (bld t) (bld t') -> live (bld t') -> tight (bld t') (headers (f :: fs)) ->
  frames t' = mark_at D (f :: fs) -> (forall i g, i ∈ D -> (f :: fs) !! i = Some g -> is_loop g = false -> firm (bld t') g) ->
  reachable (st t') = true -> same_caches (st t) (st t') -> stack (st t') = base ++ seg' ->
  alive v' tys' -> Forall2 (repr (bld t')) seg' tys' -> live_at t' (v' :: vs).
Proof.
  intros [Hr Hf Hl Hfo Hb Ha Hs Hst Hli [N T W]] Hv V L' T' Hf' HD Hr' Hc Hs' Ha' Hr2. destruct (blocks_mark D (f :: fs)) as [B1 B2].
  split; [done|]. rewrite Hf', Hs'. split; [|split; [done|split; [by rewrite B1|by rewrite B2|]]].
  - apply layers_mark; [|done]. econstructor; [eapply layers_evolves; [|exact V|done]; cbn; set_solver| | |done|done].
    + apply (frame_ok_same _ _ _ _ v); [done|]. eapply frame_evolves; [|exact V|done]. cbn. set_solver.
    + apply (base_ok_same _ _ v); [done|]. eapply base_evolves; [apply (ev_extends _ _ _ V)|done].
  - eapply world_extends; [exact W|apply (ev_extends _ _ _ V)|done].
Qed.

(** ** Branch operators *)
Definition bounded (t : TState B) : Prop := pm_len (stack (st t)) < max_height /\ pm_len (frames t) < max_height.
Lemma label_inv vs depth ts : label vs depth = Some ts -> exists d w, depth = Z.of_nat d /\ vs !! d = Some w /\ ts = label_types w.
Proof.
  intros (w & Hw & [= <-])%bind_Some. unfold pm_get in Hw. destruct (Z.leb_spec 0 depth); [|done].
  exists (Z.to_nat depth), w. split; [lia|done].
Qed.
Lemma mark_none (t : TState B) f fs : frames t = f :: fs -> frames t = mark_at [] (f :: fs).
Proof. intros ->. by rewrite mark_at_nil. Qed.
End Live.
