(* ===== verification/CtlBranch.v ===== *)
(** * Reachable code: branch operators *)
From stdpp Require Import base list gmap option numbers.
From S2P Require Import Prelude Types Trap Module ModuleTypes VMOffsets HeapAccess Clif ClifLaws FuncState WasmOp FuncEnv CodeTranslator CodeTranslatorCtl CodeTranslatorOps WasmTyping FuncValid OpTyping CtlInv CtlSim CtlSteps CtlDead CtlLive.
Local Open Scope Z_scope.

(** ** Signatures of wasm functions *)
Definition normal (t : ir.Type_) : ir.AbiParam := ir.mkAbiParam t ir.Normal.
Lemma value_type_canon {E} ty t : FuncEnv.value_type (E:=E) ty = Ok t -> canon t = t.
Proof. destruct ty; cbn; try (by intros [= <-]). unfold reference_type. by case_match; intros [= <-]. Qed.
Lemma map_normal {E} l ps : mapO (fun ty => t ← FuncEnv.value_type (E:=E) ty; Ok (ir.mkAbiParam t ir.Normal)) l = Ok ps ->
  exists ts, ps = normal <$> ts /\ Forall (fun t => canon t = t) ts.
Proof.
  revert ps. induction l as [|ty l IH]; cbn; intros ps.
  - intros [= <-]. by exists [].
  - intros (p & (t & Ht & [= <-])%bind_ok & (tl & (ts & -> & Hc)%IH & [= <-])%bind_ok)%bind_ok. exists (t :: ts).
    split; [done|]. constructor; [by eapply value_type_canon|done].
Qed.
Lemma call_signature_shape {E} ft sig : wasm_call_signature (E:=E) ft = Ok sig -> exists ps rs, sig = ir.mkSignature (blank_sig ++ (normal <$> ps)) (normal <$> rs) /\
  Forall (fun t => canon t = t) ps /\ Forall (fun t => canon t = t) rs.
Proof.
  intros (? & (ps & -> & Hp)%map_normal & (? & (rs & -> & Hr)%map_normal & [= <-])%bind_ok)%bind_ok. by exists ps, rs.
Qed.
Lemma normal_types l : param_types (normal <$> l) = l.
Proof. unfold param_types. by rewrite <- list_fmap_compose, list_fmap_id. Qed.

Lemma ok_inv {E A} (x : outcome E A) a : ok x = Some a -> x = Ok a.
Proof. by destruct x; intros [= ->]. Qed.
Section Args.
Context {B : Type} {FB : FunctionBuilder B} {BV : BuilderView B} {LAWS : FunctionBuilderLaws B} {TC : TrapCodes}.
Abbreviation M := (SM (TState B) Error).

(** The changes that make [args], at positions [k] on, have types [tys]. *)
Inductive changes_ok (b : B) : list (ir.Type_ * nat) -> nat -> list Value -> list ir.Type_ -> Prop :=
| C_nil k : changes_ok b [] k [] []
| C_keep cs k a args ty tys : has_type b a ty -> changes_ok b cs (S k) args tys -> changes_ok b cs k (a :: args) (ty :: tys)
| C_cast cs k a args ty tys : repr b a ir.I8X16 -> ir.is_vector ty = true -> changes_ok b cs (S k) args tys ->
    changes_ok b ((ty, k) :: cs) k (a :: args) (ty :: tys).

Definition numbered (k : nat) (args : list Value) : list (nat * Value) := imap (fun i x => ((k + i)%nat, x)) args.
Lemma numbered_cons k a args : numbered k (a :: args) = (k, a) :: numbered (S k) args.
Proof.
  unfold numbered. cbn. f_equal; [by rewrite Nat.add_0_r|]. apply imap_ext. intros i x _. cbn. f_equal. lia.
Qed.
Lemma zip_eq_zip {X Y} (l : list X) (k : list Y) : length l = length k -> zip_eq l k = Ok (zip l k).
Proof. revert k. induction l as [|x l IH]; intros [|y k] Hl; cbn in *; try lia; [done|]. rewrite IH by lia. done. Qed.

Lemma changes_straight b b' cs k args tys : straight b b' -> changes_ok b cs k args tys -> changes_ok b' cs k args tys.
Proof.
  intros Hs. induction 1; constructor; auto; [by eapply straight_type|by eapply straight_repr].
Qed.
Lemma emits_changes t k args tys : Forall2 (repr (bld t)) args tys ->
  emits (bitcast_changes (zip tys (numbered k args))) t (fun b cs => changes_ok b cs k args tys).
Proof.
  intros Ha. revert t k Ha. revert tys. induction args as [|a args IH]; intros tys t k Ha.
  - apply Forall2_nil_inv_l in Ha as ->. cbn. apply emits_ret. constructor.
  - apply Forall2_cons_inv_l in Ha as (ty & tl & Hr & Ha & ->). rewrite numbered_cons. cbn.
    eapply (emits_bind _ _ _ (fun b (c : bool) => if c then repr b a ir.I8X16 /\ ir.is_vector ty = true else has_type b a ty)).
    + destruct (ir.is_vector ty) eqn:Hv; [|by apply emits_ret, repr_scalar].
      assert (ty = ir.I8X16) as -> by (destruct Hr as (t' & _ & <-); by destruct t').
      destruct (repr_vector _ _ Hr) as (t' & Ht & Htv). eapply emits_bind; [by apply emits_type|]. intros ? t1 Hs1 He1 ->.
      eapply emits_bind; [apply (emits_lift _ tt); by rewrite Htv|].
      intros _ t2 Hs2 _ _. apply emits_ret. case_bool_decide as E; cbn.
      { subst. eapply straight_type; [exact Hs2|]. by eapply straight_type. }
      split; [|done]. eapply straight_repr; [exact Hs2|]. by eapply straight_repr.
    + intros c t1 Hs1 He1 Hc. eapply emits_bind; [apply (IH tl); by eapply straight_reprs|]. intros cs t2 Hs2 He2 Hcs. apply emits_ret.
      destruct c; [destruct Hc as [Hc Hv]; constructor; [by eapply straight_repr|done|done]|constructor; [by eapply straight_type|done]].
Qed.
Lemma emits_apply t cs k pre args tys : open (bld t) -> changes_ok (bld t) cs k args tys -> length pre = k ->
  emits (apply_changes cs (pre ++ args)) t (fun b l => exists args', l = pre ++ args' /\ Forall2 (has_type b) args' tys).
Proof.
  intros Ho Hc. revert t pre Ho Hc. revert k args tys. induction cs as [|[ty i] cs IH]; intros k args tys t pre Ho Hc Hp.
  - cbn. apply emits_ret. exists args. split; [done|]. clear Hp. remember (@nil (ir.Type_ * nat)) as cs eqn:E.
    induction Hc; [constructor|constructor; auto|done].
  - (* reach the argument that changes *)
    remember ((ty, i) :: cs) as cs' eqn:Ecs. revert pre Hp. induction Hc as [|cs0 k a args ty0 tys Ha Hc IHc|cs0 k a args ty0 tys Ha Hv Hc IHc]; intros pre Hp.
    + done.
    + subst cs0. eapply wp_mono; [rewrite cons_middle, app_assoc; apply IHc; [done|rewrite length_app; cbn; lia]|].
      intros l t' (Hs & He & args' & -> & Ha'). split; [done|]. split; [done|]. exists (a :: args'). rewrite <- app_assoc. split; [done|].
      constructor; [by eapply straight_type|done].
    + simplify_eq. cbn. eapply (emits_bind _ _ _ (fun _ x => x = a)).
      { apply emits_lift. by rewrite lookup_app_r, Nat.sub_diag by lia. }
      intros ? t1 Hs1 He1 ->. destruct (repr_vector _ _ Ha) as (t' & Ht & Htv).
      eapply emits_bind; [eapply emits_bitcast; [by eapply straight_open|by eapply straight_type|done|done]|].
      intros c t2 Hs2 He2 Hcv. rewrite insert_app_r_alt, Nat.sub_diag by lia. cbn. rewrite cons_middle, app_assoc.
      eapply wp_mono; [eapply (IH (S (length pre)) args tys)|].
      * eapply straight_open; [exact Hs2|]. by eapply straight_open.
      * eapply changes_straight; [exact Hs2|]. by eapply changes_straight.
      * rewrite length_app. cbn. lia.
      * intros l t3 (Hs & He & args' & -> & Ha'). split; [done|]. split; [done|]. exists (c :: args'). rewrite <- app_assoc. split; [done|].
        constructor; [by eapply straight_type|done].
Qed.

(** The types the predicate selects. *)
Definition selected (params : list ir.AbiParam) (P : nat -> bool) : list ir.Type_ :=
  (fun p => ir.value_type p.2) <$> filter (fun p : nat * ir.AbiParam => P p.1) (enumerate params).
Lemma emits_arguments t args tys params P : open (bld t) -> Forall2 (repr (bld t)) args tys -> selected params P = tys ->
  emits (changes ← bitcast_arguments args params P; apply_changes changes args) t (fun b l => Forall2 (has_type b) l tys).
Proof.
  intros Ho Ha Hs. unfold bitcast_arguments. fold (selected params P). rewrite Hs.
  assert (enumerate args = numbered 0 args) as E by (apply imap_ext; done). rewrite E.
  rewrite zip_eq_zip; [|unfold numbered; rewrite length_imap; symmetry; by eapply Forall2_length].
  eapply emits_bind; [|].
  - eapply (emits_bind _ _ _ (fun _ ps => ps = zip tys (numbered 0 args))).
    { by apply emits_lift. }
    intros ? t1 Hs1 He1 ->. apply emits_changes. by eapply straight_reprs.
  - intros cs t1 Hs1 He1 Hc. eapply wp_mono; [eapply (emits_apply _ _ 0 [] args tys); [by eapply straight_open|exact Hc|done]|].
    intros l t2 (Hs2 & He2 & args' & -> & Ha'). by split.
Qed.
Lemma selected_from k params (P : nat -> bool) : (forall i, (i < length params)%nat -> P (k + i)%nat = true) ->
  (fun p => ir.value_type p.2) <$> filter (fun p : nat * ir.AbiParam => P p.1) (imap (fun i x => ((k + i)%nat, x)) params) = ir.value_type <$> params.
Proof.
  revert k. induction params as [|p ps IH]; intros k H; [done|]. cbn. rewrite decide_True by (cbn; rewrite H by (cbn; lia); done). cbn. f_equal.
  rewrite <- (IH (S k)); [|intros i Hi; replace (S k + i)%nat with (k + S i)%nat by lia; apply H; cbn; lia].
  do 2 f_equal. apply imap_ext. intros i x _. cbn. f_equal. lia.
Qed.
Lemma selected_all params P : (forall i, (i < length params)%nat -> P i = true) -> selected params P = ir.value_type <$> params.
Proof. apply (selected_from 0). Qed.
Lemma selected_wasm ps : selected (blank_sig ++ (normal <$> ps)) is_wasm_parameter = ps.
Proof.
  rewrite <- (normal_types ps) at 2. rewrite <- (selected_from 2 _ is_wasm_parameter) by done. done.
Qed.
Lemma num_wasm ps rs : num_wasm_parameters (ir.mkSignature (blank_sig ++ (normal <$> ps)) rs) = pm_len ps.
Proof.
  unfold num_wasm_parameters, pm_len. cbn. f_equal. rewrite length_fmap.
  assert (forall k n, filter (fun i => is_wasm_parameter i) (seq (S (S k)) n) = seq (S (S k)) n) as G.
  { intros k n. revert k. induction n as [|n IH]; intros k; [done|]. cbn. rewrite decide_True by done. by rewrite IH. }
  by rewrite (G 0%nat), !decide_False, length_seq by tauto.
Qed.
End Args.

(** ** Reachable code: branch operators *)

Section Branch.
Context {B : Type} {FB : FunctionBuilder B} {BV : BuilderView B} {LAWS : FunctionBuilderLaws B} {TC : TrapCodes}.
Context (dbg : bool) (env : TranslationEnvironment) (validator : FuncValidator) (locals results : list ir.Type_).
Abbreviation M := (SM (TState B) Error).
Abbreviation here := (here dbg env validator locals results).
Abbreviation live_at := (live_at dbg env validator locals results).
Abbreviation dead_at := (dead_at dbg env validator locals results).
Abbreviation post := (post dbg env validator locals results).
Abbreviation vstep_raw := (vstep_raw env validator locals).

(** A step of reachable code to [vs]. *)
Definition live_step (m : M unit) (op : Operator.WasmOperator) : Prop :=
  forall t v vs vs', live_at t (v :: vs) -> bounded t -> bottom results (v :: vs) -> vstep_raw op (v :: vs) = Some vs' ->
    height vs' < max_height -> wp m t (fun _ => post t vs').

Lemma here_split t f fs v vs under base seg rest ts : here t f fs v vs under base seg (rest ++ ts) ->
  exists sr args, seg = sr ++ args /\ Forall2 (repr (bld t)) sr rest /\ Forall2 (repr (bld t)) args ts /\
    stack (st t) = (base ++ sr) ++ args /\ pm_len args = pm_len ts.
Proof.
  intros H. destruct (Forall2_app_inv_r _ _ (h_seg _ _ _ _ _ _ _ _ _ _ _ _ _ _ H)) as (sr & args & Hsr & Ha & ->).
  exists sr, args. split; [done|]. split; [done|]. split; [done|].
  split; [by rewrite (h_stack _ _ _ _ _ _ _ _ _ _ _ _ _ _ H), app_assoc|by eapply pm_len_Forall2].
Qed.

Lemma step_unreachable : live_step (_ ← insi (TrapOp TRAP_UNREACHABLE); upd (set_reachable false)) Operator.Unreachable.
Proof.
  intros t v vs vs' Hl [Hb _] Hbt Hv Hht. destruct (live_here _ _ _ _ _ _ _ _ Hl) as (f & fs & under & base & seg & tys & H).
  lazy [FuncValid.vstep_raw] in Hv. simplify_eq. apply wp_bind.
  eapply wp_terminate; [apply straight_refl|apply live_open, H|done|done|]. intros j b' Hbr. apply wp_upd. right. split; [|done].
  eapply (die _ _ _ _ _ t _ f fs v _ vs _ _ _ _ [] _ _ seg H); try done.
  - apply mark_none, H.
  - by intros i g ?%not_elem_of_nil.
  - apply H.
Qed.

Lemma step_br depth : live_step (translate_br dbg depth) (Operator.Br depth).
Proof.
  intros t v vs vs' Hl [Hb Hfb] Hbt Hv Hht. destruct (live_here _ _ _ _ _ _ _ _ Hl) as (f & fs & under & base & seg & tys & H).
  lazy [FuncValid.vstep_raw] in Hv. inv_some. destruct (label_inv _ _ _ Hx) as (d & w & -> & Hw & ->).
  destruct (vpops_alive _ _ _ _ (h_alive _ _ _ _ _ _ _ _ _ _ _ _ _ _ H) Hx0) as (rest & -> & _).
  destruct (here_lookup _ _ _ _ _ _ _ _ _ _ _ _ _ _ _ _ H Hw) as (g & Hg & Hgo). destruct (frame_target _ _ _ _ _ Hgo) as [Ta Tk Ts Td].
  destruct (here_split _ _ _ _ _ _ _ _ _ _ H) as (sr & args & -> & Hsr & Ha & Hst & Hla).
  apply wp_bind. eapply wp_branch_to_marked; [apply mark_none, H|exact Hg|done|]. intros t1 E1 E2 E3 E4 E5. cbn [fst snd].
  apply wp_bind. eapply wp_peekn; [by rewrite E3|by rewrite E3|cbn; congruence|].
  apply wp_bind. eapply wp_jump; rewrite ?E1; [apply live_open, H|done|done|by rewrite Td|]. intros j b' Hbr.
  apply wp_bind. eapply wp_popn; cbn [st]; [by rewrite E3|by rewrite E3|cbn; congruence|]. apply wp_upd. right. cbn.
  split; [|rewrite Hst, !pm_len_app; pose proof (pm_len_nonneg args); lia].
  eapply (die _ _ _ _ _ t _ f fs v _ vs _ _ _ _ [d] _ _ sr H); try done.
  intros i g' ->%list_elem_of_singleton Hg'. simplify_eq. left.
Qed.

(** Popping the condition. *)
Lemma br_args t D f fs v vs under base seg rest w d g (Q : Block * list Value -> TState B -> Prop) t1 :
  here t f fs v vs under base seg rest -> bld t1 = bld t -> frames t1 = mark_at D (f :: fs) -> pm_len (frames t1) < max_height ->
  (v :: vs) !! d = Some w -> (f :: fs) !! d = Some g -> forall l args, stack (st t1) = l ++ args -> pm_len (stack (st t1)) < max_height ->
  Forall2 (repr (bld t)) args (label_types w) ->
  (forall t', bld t' = bld t -> frames t' = mark_at (d :: D) (f :: fs) -> stack (st t') = stack (st t1) ->
     reachable (st t') = reachable (st t1) -> same_caches (st t1) (st t') -> Q (br_destination g, args) t') ->
  wp (translate_br_if_args dbg (Z.of_nat d)) t1 Q.
Proof.
  intros H Eb Hf Hl Hw Hg l args Hs Hsl Ha HQ. destruct (here_lookup _ _ _ _ _ _ _ _ _ _ _ _ _ _ _ _ H Hw) as (g' & Hg' & Hgo). simplify_eq.
  destruct (frame_target _ _ _ _ _ Hgo) as [Ta Tk Ts Td].
  apply wp_bind. eapply wp_branch_to_marked; [exact Hf|exact Hg|done|]. intros t2 E1 E2 E3 E4 E5. cbn [fst snd].
  apply wp_bind. eapply wp_peekn; [by rewrite E3|by rewrite E3|cbn; apply pm_len_Forall2 in Ha; congruence|].
  apply wp_ret. apply HQ; try done. congruence.
Qed.

Lemma step_br_if depth : live_step (translate_br_if dbg depth) (Operator.BrIf depth).
Proof.
  intros t v vs vs' Hl [Hb Hfb] Hbt Hv Hht. destruct (live_here _ _ _ _ _ _ _ _ Hl) as (f & fs & under & base & seg & tys & H).
  lazy [FuncValid.vstep_raw] in Hv. inv_some. destruct (label_inv _ _ _ Hx) as (d & w & -> & Hw & ->).
  destruct (vpop_alive _ _ _ _ (h_alive _ _ _ _ _ _ _ _ _ _ _ _ _ _ H) Hx0) as (r1 & -> & Ha1).
  destruct (vpops_alive _ _ _ _ Ha1 Hx1) as (rest & -> & Ha2).
  destruct (here_lookup _ _ _ _ _ _ _ _ _ _ _ _ _ _ _ _ H Hw) as (g & Hg & Hgo). destruct (frame_target _ _ _ _ _ Hgo) as [Ta Tk Ts Td].
  destruct (here_split _ _ _ _ _ _ _ _ _ _ H) as (s1 & c & -> & Hs1 & Hc & Hst & _).
  apply Forall2_cons_inv_r in Hc as (cv & ? & Hcv%repr_scalar & ->%Forall2_nil_inv_r & ->); [|done].
  destruct (Forall2_app_inv_r _ _ Hs1) as (sr & args & Hsr & Ha & ->).
  apply wp_bind. eapply wp_pop1; [exact Hst|]. apply wp_bind.
  eapply (br_args t [] f fs v vs under base _ _ w d g _ _ H); [done|apply mark_none, H|done|done|done|cbn; by rewrite app_assoc| |exact Ha|].
  { cbn. rewrite Hst, pm_len_app in Hb. unfold pm_len in *. cbn in *. lia. }
  intros t2 E1 E2 E3 E4 E5. cbn in E3, E4. cbn [fst snd]. apply wp_bind, wp_create_block. intros k b1 Hm. rewrite E1 in Hm.
  pose proof (md_extends _ _ _ _ Hm) as X1. apply wp_bind.
  eapply (wp_brif _ _ _ _ _ _ ir.I32); cbn [bld st].
  - eapply live_open, made_live; [apply H|exact Hm].
  - by apply (ex_types _ _ (proj1 X1)).
  - done.
  - by apply (extends_known _ _ _ X1).
  - by rewrite (md_sealed _ _ _ _ Hm).
  - rewrite (md_declared _ _ _ _ Hm), Td by done. by eapply extends_reprs.
  - apply (md_known _ _ _ _ Hm).
  - rewrite (md_sealed _ _ _ _ Hm). apply (md_unsealed _ _ _ _ Hm).
  - by rewrite (md_params _ _ _ _ Hm).
  - intros j b2 Hbr. apply wp_bind. eapply (wp_fall _ _ _ _ _ t); [exact H|exact Hm|exact Hbr|right; left|].
    intros b' V L T Hfi. left. eapply (go_on _ _ _ _ _ t _ f fs v _ vs _ _ _ _ [d]); try done.
    + frames_same.
    + intros i g' ->%list_elem_of_singleton Hg'. simplify_eq. apply (Hfi _ _ Hg). left.
    + cbn. rewrite E4. apply H.
    + apply alive_push, Ha2.
    + eapply extends_reprs; [apply (ev_extends _ _ _ V)|]. by apply Forall2_app.
Qed.

(** ** [return] *)
Lemma wp_outermost t vs g stk (Q : ControlStackFrame -> TState B -> Prop) : layers env validator (bld t) (frames t) vs stk ->
  list.last vs = Some g -> (forall f, frame_ok env validator (bld t) f g -> Q f t) -> wp (frame_at 0) t Q.
Proof.
  intros Hl Hg HQ. rewrite last_lookup in Hg. destruct (layers_lookup _ _ _ _ _ _ _ _ Hl Hg) as (f & Hf & Hfo).
  assert (0 = pm_len (frames t) - 1 - Z.of_nat (Nat.pred (length vs))) as ->.
  { rewrite <- (layers_length _ _ _ _ _ _ Hl). unfold pm_len. apply lookup_lt_Some in Hf. lia. }
  eapply wp_frame_at; [exact Hf|auto].
Qed.
Lemma emits_returns t args : open (bld t) -> world dbg env locals results t -> Forall2 (repr (bld t)) args results ->
  emits (bitcast_wasm_returns args) t (fun b l => Forall2 (has_type b) l results).
Proof.
  intros Ho W Ha. eapply (emits_bind _ _ _ (fun _ s => s = func_signature (bld t))).
  { apply wp_query. by split; [apply straight_refl|]. }
  intros ? t1 Hs1 He1 ->. eapply emits_arguments; [by eapply straight_open|by eapply straight_reprs|].
  rewrite (w_returns _ _ _ _ _ W). rewrite selected_all.
  - by rewrite <- list_fmap_compose, list_fmap_id.
  - intros i Hi. unfold is_wasm_return. rewrite (w_returns _ _ _ _ _ W), list_lookup_fmap. rewrite length_fmap in Hi.
    destruct (lookup_lt_is_Some_2 _ _ Hi) as [ty ->]. done.
Qed.
Lemma write_top_app s l k k' : stack s = l ++ k -> length k = length k' -> write_top k' s = set_stack (l ++ k') s.
Proof. intros Hs Hl. unfold write_top. rewrite Hs, length_app, <- Hl, Nat.add_sub, take_app_length. done. Qed.

Lemma step_return : live_step (translate_return dbg) Operator.Return.
Proof.
  intros t v vs vs' Hl [Hb Hfb] Hbt Hv Hht. pose proof Hl as (_ & Hly & _ & _).
  destruct (live_here _ _ _ _ _ _ _ _ Hl) as (f & fs & under & base & seg & tys & H).
  lazy [FuncValid.vstep_raw] in Hv. inv_some. destruct Hbt as (g0 & Hg0 & Hend). assert (x = g0) as -> by congruence. rewrite Hend in Hx0.
  destruct (vpops_alive _ _ _ _ (h_alive _ _ _ _ _ _ _ _ _ _ _ _ _ _ H) Hx0) as (rest & -> & _).
  destruct (here_split _ _ _ _ _ _ _ _ _ _ H) as (sr & args & -> & Hsr & Ha & Hst & Hla).
  apply wp_bind. eapply wp_outermost; [exact Hly|exact Hg0|]. intros f0 Hf0.
  apply wp_bind. eapply wp_peekn; [exact Hst|done|rewrite (fo_returns _ _ _ _ _ Hf0); congruence|].
  apply wp_bind. eapply emits_wp; [apply emits_returns; [apply live_open, H|apply H|done]|]. intros l t1 Hs1 He1 Hl1.
  apply wp_bind, wp_upd. rewrite (write_top_app _ (base ++ sr) args); [|by rewrite He1|by rewrite (Forall2_length Ha), (Forall2_length Hl1)].
  rewrite He1. apply wp_bind. eapply wp_terminate; [exact Hs1|eapply straight_open; [done|apply live_open, H]| |done|].
  { split; [|done]. cbn [bld]. rewrite (ex_sig _ _ (proj1 (sl_extends _ _ Hs1))), (w_returns _ _ _ _ _ (sh_world _ _ _ _ _ _ (h_shared _ _ _ _ _ _ _ _ _ _ _ _ _ _ H))).
    unfold param_types. by rewrite <- list_fmap_compose, list_fmap_id. }
  intros j b' Hbr. cbn [branch_targets st] in *.
  assert (pm_len l = pm_len args) as Hll by (apply pm_len_Forall2 in Hl1; congruence).
  apply wp_bind. eapply (wp_popn _ _ (base ++ sr) l); cbn [st stack set_stack]; [done| |rewrite (fo_returns _ _ _ _ _ Hf0); congruence|].
  { rewrite pm_len_app, Hll, <- pm_len_app, <- Hst. done. }
  apply wp_upd. right. split; [|cbn; rewrite Hst, !pm_len_app; pose proof (pm_len_nonneg args); lia].
  eapply (die _ _ _ _ _ t _ f fs v _ vs _ _ _ _ [] _ _ sr H); try done; [apply mark_none, H|by intros i g ?%not_elem_of_nil].
Qed.
End Branch.
