(* ===== verification/CtlTable.v ===== *)
(** * Reachable code: [br_table]

    Without arguments the table jumps to the destinations; with arguments every
    depth gets a block of its own that passes them on. *)
From stdpp Require Import base list gmap option numbers.
From S2P Require Import Prelude Types Trap Module ModuleTypes VMOffsets HeapAccess Clif ClifLaws FuncState WasmOp FuncEnv CodeTranslator CodeTranslatorCtl CodeTranslatorOps WasmTyping FuncValid OpTyping CtlInv CtlSim CtlSteps CtlDead CtlLive CtlBranch.
Local Open Scope Z_scope.

Lemma fold_min_in (l : list Z) d : fold_left Z.min l d ∈ d :: l.
Proof.
  revert d. induction l as [|x l IH]; intros d; cbn; [left|]. specialize (IH (Z.min d x)).
  apply elem_of_cons in IH as [->|H]; [|by right; right].
  destruct (Z.min_spec d x) as [[_ ->]|[_ ->]]; [left|right; left].
Qed.

Section Table.
Context {B : Type} {FB : FunctionBuilder B} {BV : BuilderView B} {LAWS : FunctionBuilderLaws B} {TC : TrapCodes}.
Context (dbg : bool) (env : TranslationEnvironment) (validator : FuncValidator) (locals results : list ir.Type_).
Abbreviation M := (SM (TState B) Error).
Abbreviation here := (here dbg env validator locals results).
Abbreviation live_step := (live_step dbg env validator locals results).

(** All targets take [ts]. *)
Definition targets_ok (ts : list ir.Type_) (vs : list vframe) (depths : list Z) : Prop :=
  Forall (fun depth => exists d w, depth = Z.of_nat d /\ vs !! d = Some w /\ label_types w = ts) depths.
Lemma table_targets vs ts f1 tys1 rest depths : alive f1 tys1 -> tys1 = rest ++ ts -> forallb (table_ok vs (pm_len ts) f1) depths = true ->
  targets_ok ts vs depths.
Proof.
  intros Ha Ht Hall. apply list.Forall_forall. intros depth Hd. rewrite forallb_forall in Hall.
  specialize (Hall depth (proj1 (list_elem_of_In _ _) Hd)). unfold table_ok in Hall. destruct (label vs depth) as [ts'|] eqn:Hl; [|done].
  destruct (label_inv _ _ _ Hl) as (d & w & -> & Hw & ->). exists d, w. split; [done|]. split; [done|].
  apply andb_true_iff in Hall as [Hn Hp]. apply bool_decide_eq_true_1 in Hp as [f2 Hp]. apply Z.eqb_eq in Hn.
  destruct (vpops_alive _ _ _ _ Ha Hp) as (rest' & E & _). subst tys1. apply app_inj_2 in E as [_ E]; [done|].
  unfold pm_len in Hn. lia.
Qed.

(** ** Destinations without arguments *)
Lemma wp_destinations t f fs v vs under base seg tys depths D t1 (Q : list Block -> TState B -> Prop) :
  here t f fs v vs under base seg tys -> targets_ok [] (v :: vs) depths ->
  bld t1 = bld t -> frames t1 = mark_at D (f :: fs) -> pm_len (frames t1) < max_height ->
  (forall ds t' D', bld t' = bld t -> frames t' = mark_at (D' ++ D) (f :: fs) -> pm_len (frames t') < max_height ->
     stack (st t') = stack (st t1) -> reachable (st t') = reachable (st t1) -> same_caches (st t1) (st t') ->
     Forall (fun d => target_ok (bld t) d []) ds ->
     (forall i g, i ∈ D' -> (f :: fs) !! i = Some g -> br_destination g ∈ ds) -> Q ds t') ->
  wp (table_destinations depths) t1 Q.
Proof.
  intros H Ht. revert D t1 Q. induction Ht as [|depth depths (d & w & -> & Hw & Hlw) Ht IH]; intros D t1 Q Eb Hf Hl HQ; cbn.
  - apply wp_ret. apply (HQ [] t1 []); try done. by intros i g ?%not_elem_of_nil.
  - destruct (here_lookup _ _ _ _ _ _ _ _ _ _ _ _ _ _ _ _ H Hw) as (g & Hg & Hgo). destruct (frame_target _ _ _ _ _ Hgo) as [Ta Tk Ts Td].
    apply wp_bind. eapply wp_branch_to_marked; [exact Hf|exact Hg|done|]. intros t2 E1 E2 E3 E4 E5. cbn [fst snd].
    assert (pm_len (frames t2) = pm_len (frames t1)) as El by (rewrite E2, Hf; unfold pm_len, mark_at; by rewrite !length_imap).
    apply wp_bind. apply (IH (d :: D)); [congruence|done|by rewrite El|]. intros ds t3 D' F1 F2 F3 F4 F5 F6 Hds Hin. apply wp_ret.
    apply (HQ _ _ (D' ++ [d])); try done; try congruence.
    + by rewrite <- app_assoc.
    + destruct F6 as (? & ? & ? & ? & ?), E5 as (? & ? & ? & ? & ?). repeat split; congruence.
    + constructor; [|done]. split; [done|]. split; [done|]. by rewrite Td, Hlw.
    + intros i g' [Hi| ->%list_elem_of_singleton]%elem_of_app Hg'; [right; by eapply Hin|]. simplify_eq. left.
Qed.

(** ** Blocks for the edges *)
Record pend (b : B) (k : Block) : Prop := {
  pd_known : known b k; pd_filled : ~ filled b k; pd_sealed : ~ sealed b k; pd_current : current b <> Some k; pd_declared : declared b k = [] }.
Lemma pend_evolves K b b' k : k ∈ K -> evolves K b b' -> pend b k -> pend b' k.
Proof.
  intros Hk [X D F S U C E] [H1 H2 H3 H4 H5]. split; [by eapply extends_known| |by rewrite S|by intros ?%U|by rewrite D].
  intros [?|?]%F; done.
Qed.
Abbreviation blocks seq := (snd <$> seq).
Record growing (K hs : list Block) (depths : list Z) (b0 b : B) (m : gmap Z Block) (seq : list (Z * Block)) : Prop := {
  gr_evolves : evolves K b0 b; gr_live : live b; gr_tight : tight b hs; gr_known : forall k, k ∈ K -> known b k;
  gr_pend : Forall (pend b) (blocks seq); gr_new : forall k, k ∈ blocks seq -> k ∉ K; gr_nodup : NoDup (blocks seq);
  gr_map : forall depth k, m !! depth = Some k -> (depth, k) ∈ seq; gr_depths : Forall (fun depth => depth ∈ depths) (fst <$> seq) }.
Lemma wp_split_edge K hs depths b0 depth m seq t (Q : Block * gmap Z Block * list (Z * Block) -> TState B -> Prop) :
  growing K hs depths b0 (bld t) m seq -> depth ∈ depths ->
  (forall k m' seq' b', growing K hs depths b0 b' m' seq' -> k ∈ blocks seq' -> blocks seq ⊆ blocks seq' ->
     Q (k, m', seq') (mkT b' (st t))) ->
  wp (split_edge m seq depth) t Q.
Proof.
  intros G Hd HQ. pose proof G as [V L T HK P N ND HM HD]. unfold split_edge. destruct (m !! depth) as [k|] eqn:Hm.
  - apply wp_ret. destruct t as [b s]. apply HQ; [done| |done]. apply list_elem_of_fmap. exists (depth, k). by split; [|apply HM].
  - apply wp_bind, wp_create_block. intros k b' Hmade. apply wp_ret.
    assert (evolves (K ++ blocks seq) (bld t) b') as V'.
    { eapply made_evolves; [|exact Hmade]. intros j [?|Hj]%elem_of_app; [auto|].
      rewrite list.Forall_forall in P. by apply (pd_known _ _ (P j Hj)). }
    assert (k ∉ K) as HkK by (intros Hk; by apply (md_new _ _ _ _ Hmade), HK).
    assert (k ∉ blocks seq) as Hks.
    { intros Hk. rewrite list.Forall_forall in P. apply (md_new _ _ _ _ Hmade), (pd_known _ _ (P k Hk)). }
    apply HQ; [split| |].
    + eapply evolves_trans; [exact V|]. eapply evolves_mono; [|exact V']. intros j ?. apply elem_of_app. by left.
    + by eapply made_live.
    + by eapply made_tight.
    + intros j Hj. apply (extends_known _ _ _ (md_extends _ _ _ _ Hmade)). auto.
    + rewrite fmap_app, Forall_app. split.
      * apply list.Forall_forall. intros j Hj. rewrite list.Forall_forall in P. eapply (pend_evolves (K ++ blocks seq)); [|done|auto].
        apply elem_of_app. by right.
      * constructor; [|done]. cbn. split; [apply (md_known _ _ _ _ Hmade)| | |by eapply made_not_current|apply (md_params _ _ _ _ Hmade)].
        { rewrite (md_filled _ _ _ _ Hmade). apply (md_unfilled _ _ _ _ Hmade). }
        { rewrite (md_sealed _ _ _ _ Hmade). apply (md_unsealed _ _ _ _ Hmade). }
    + rewrite fmap_app. intros j [?| ->%list_elem_of_singleton]%elem_of_app; auto.
    + rewrite fmap_app. apply list.NoDup_app. split; [done|]. split; [|apply list.NoDup_singleton]. intros j Hj ->%list_elem_of_singleton. done.
    + intros dp j. destruct (decide (dp = depth)) as [->|Hn].
      * rewrite lookup_insert_eq. intros [= ->]. apply elem_of_app. right. left.
      * rewrite lookup_insert_ne by done. intros ?%HM. apply elem_of_app. by left.
    + rewrite fmap_app, Forall_app. split; [done|]. by constructor.
    + rewrite fmap_app. apply elem_of_app. right. left.
    + rewrite fmap_app. set_solver.
Qed.
Lemma wp_split_edges K hs depths b0 l m seq t (Q : list Block * gmap Z Block * list (Z * Block) -> TState B -> Prop) :
  growing K hs depths b0 (bld t) m seq -> l ⊆ depths ->
  (forall ks m' seq' b', growing K hs depths b0 b' m' seq' -> ks ⊆ blocks seq' -> blocks seq ⊆ blocks seq' -> Q (ks, m', seq') (mkT b' (st t))) ->
  wp (split_edges l m seq) t Q.
Proof.
  revert m seq t Q. induction l as [|depth l IH]; intros m seq t Q G Hs HQ; cbn.
  - apply wp_ret. destruct t as [b s]. apply HQ; [done| |done]. by intros ? ?%not_elem_of_nil.
  - apply wp_bind. eapply wp_split_edge; [exact G|apply Hs; left|]. intros k m1 seq1 b1 G1 Hk Hsub. cbn [fst snd].
    apply wp_bind. eapply IH; [exact G1|intros x ?; apply Hs; by right|]. intros ks m2 seq2 b2 G2 Hks Hsub2. apply wp_ret. cbn [fst snd st].
    apply HQ; [done| |]; [|set_solver]. intros x [->|?]%elem_of_cons; auto.
Qed.

(** ** Passing the arguments on *)
Record filling (t0 : TState B) (f : ControlStackFrame) (fs : list ControlStackFrame) (D : list nat) (t : TState B) : Prop := {
  fl_evolves : evolves (frame_blocks (f :: fs)) (bld t0) (bld t); fl_ended : ended (bld t);
  fl_tight : tight (bld t) (headers (f :: fs)); fl_frames : frames t = mark_at D (f :: fs);
  fl_firm : forall i g, i ∈ D -> (f :: fs) !! i = Some g -> is_loop g = false -> firm (bld t) g }.
Lemma wp_fill_edges t0 f fs v vs under base seg tys ts l args s0 n es D t (Q : unit -> TState B -> Prop) :
  here t0 f fs v vs under base seg tys -> filling t0 f fs D t -> pm_len (frames t) < max_height ->
  stack (st t) = l ++ args -> pm_len (stack (st t)) < max_height -> n = pm_len ts -> Forall2 (repr (bld t0)) args ts ->
  reachable (st t) = reachable s0 -> same_caches s0 (st t) -> stack s0 = stack (st t) ->
  Forall (pend (bld t)) (blocks es) -> (forall k, k ∈ blocks es -> k ∉ frame_blocks (f :: fs)) -> NoDup (blocks es) ->
  targets_ok ts (v :: vs) (fst <$> es) ->
  (forall D' t', filling t0 f fs D' t' -> stack (st t') = stack s0 -> reachable (st t') = reachable s0 -> same_caches s0 (st t') -> Q tt t') ->
  wp (fill_edges dbg n es) t Q.
Proof.
  intros H. revert D t. induction es as [|[depth k] es IH]; intros D t F Hl Hs Hsl -> Ha Hr Hc Hs0 HP HN HND HT HQ; cbn.
  { apply wp_ret. by apply (HQ D). }
  inversion HP as [|? ? [Pk Pf Ps Pc Pd] HP']; subst. apply list.NoDup_cons in HND as [Hk HND]. inversion HT as [|? ? (d & w & Hd & Hw & Hlw) HT']; subst.
  destruct F as [V En T Ff Fi]. set (K := frame_blocks (f :: fs)) in *.
  assert (forall j, j ∈ K -> known (bld t0) j) as HK0 by (intros j; by eapply here_known).
  assert (forall j, j ∈ K ++ blocks es -> known (bld t) j) as HK.
  { intros j [Hj|Hj]%elem_of_app; [apply (extends_known _ _ _ (ev_extends _ _ _ V)); auto|].
    rewrite list.Forall_forall in HP'. apply (pd_known _ _ (HP' j Hj)). }
  assert (k ∉ K ++ blocks es) as Hn by (intros [?|?]%elem_of_app; [|done]; by apply (HN k); [left|]).
  destruct (here_lookup _ _ _ _ _ _ _ _ _ _ _ _ _ _ _ _ H Hw) as (g & Hg & Hgo). 
  destruct (here_frame _ _ _ _ _ _ _ _ _ _ _ _ _ _ _ _ H Hg) as [_ Hgk].
  apply wp_bind, wp_switch; [done|done|done|]. intros b1 R1. pose proof (sw_extends _ _ _ R1) as X1. pose proof (sw_blocks _ _ _ R1) as [_ F1 S1 E1].
  apply wp_bind, wp_seal; cbn [bld st]; [by apply (extends_known _ _ _ X1)|by rewrite S1|]. intros b2 R2. pose proof (sa_extends _ _ _ R2) as X2.
  assert (evolves (K ++ blocks es) (bld t) b2) as V2.
  { eapply evolves_trans; [exact (switched_evolves _ _ _ _ HK Hn R1)|]. eapply sealed_evolves; [|exact Hn|exact R2].
    intros j Hj. apply (extends_known _ _ _ X1). auto. }
  assert (evolves K (bld t0) b2) as V02.
  { eapply evolves_trans; [exact V|]. eapply evolves_mono; [|exact V2]. set_solver. }
  assert (frame_ok env validator b2 g w) as Hg2 by (by eapply frame_evolves). destruct (frame_target _ _ _ _ _ Hg2) as [Ta Tk Ts Td].
  assert (current b2 = Some k) as Hcur by (rewrite (sa_current _ _ _ R2); apply (sw_current _ _ _ R1)).
  assert (~ filled b2 k) as Hfk by (by rewrite (sa_filled _ _ _ R2), F1).
  assert (known b2 k) as Hkk by (by apply (extends_known _ _ _ X2), (extends_known _ _ _ X1)).
  apply wp_bind. eapply wp_branch_to_marked; [exact Ff|exact Hg|done|]. intros t3 E1' E2' E3' E4' E5'. cbn [fst snd st bld] in *.
  apply wp_bind. eapply wp_peekn; [by rewrite E3'|by rewrite E3'|by apply pm_len_Forall2 in Ha|].
  apply wp_bind. eapply wp_jump; rewrite ?E1'; [by exists k|done|done|rewrite Td; eapply extends_reprs; [apply V02|done]|].
  intros j b4 Hbr. assert (forall i, i ∈ K ++ blocks es -> known b2 i) as HK2 by (intros i Hi; apply (extends_known _ _ _ (ev_extends _ _ _ V2)); auto).
  pose proof (branched_evolves _ _ _ _ _ HK2 Hbr) as V4.
  assert (evolves K b2 b4) as V4' by (eapply evolves_mono; [|exact V4]; set_solver).
  eapply (IH (d :: D)); cbn [bld st]; try done.
  - split; cbn [bld].
    + by eapply evolves_trans.
    + exists k. rewrite (br_current _ _ _ _ Hbr). split; [done|]. split; [|by apply (br_filled _ _ _ _ Hbr); right].
      apply (extends_known _ _ _ (br_extends _ _ _ _ Hbr)), (extends_known _ _ _ X2), (extends_known _ _ _ X1), Pk.
    + eapply branched_tight; [|exact Hbr]. eapply sealed_tight; [|exact R2]. exact (switched_tight _ _ _ _ T R1).
    + done.
    + intros i g' Hi Hg' Hlo. destruct (decide (i = d)) as [->|Hne].
      * simplify_eq. eapply new_firm; [exact Hg2|exact Hbr|left|done].
      * apply elem_of_cons in Hi as [?|Hi]; [done|]. destruct (here_frame _ _ _ _ _ _ _ _ _ _ _ _ _ _ _ _ H Hg') as [_ Hgk'].
        eapply (firm_evolves K); [apply Hgk', dest_in_blocks|exact V4'|]. eapply (firm_evolves K); [apply Hgk', dest_in_blocks| |by apply (Fi i)].
        eapply evolves_mono; [|exact V2]. set_solver.
  - unfold frames at 1. cbn [st]. fold (frames t3). rewrite E2'. rewrite Ff in Hl. unfold pm_len, mark_at in *. rewrite length_imap in *. done.
  - by rewrite E3'.
  - by rewrite E3'.
  - by rewrite E4'.
  - destruct E5' as (? & ? & ? & ? & ?), Hc as (? & ? & ? & ? & ?). repeat split; congruence.
  - congruence.
  - apply list.Forall_forall. intros i Hi. rewrite list.Forall_forall in HP'. eapply (pend_evolves (K ++ blocks es)); [set_solver|exact V4|].
    eapply (pend_evolves (K ++ blocks es)); [set_solver|exact V2|auto].
  - intros i Hi. apply HN. by right.
Qed.

(** ** The operator *)
Lemma same_caches_trans s1 s2 s3 : same_caches s1 s2 -> same_caches s2 s3 -> same_caches s1 s3.
Proof. intros (? & ? & ? & ? & ?) (? & ? & ? & ? & ?). repeat split; congruence. Qed.
Lemma table_plain t f fs v v' vs under base seg tys cv targets default t1 l t0 :
  here t f fs v vs under base seg tys -> same_frame v v' -> targets_ok [] (v :: vs) (default :: targets) -> bld t1 = bld t -> frames t1 = f :: fs ->
  pm_len (frames t1) < max_height -> stack (st t1) = base ++ l -> same_caches (st t) (st t1) -> has_type (bld t) cv ir.I32 ->
  pm_len (stack (st t1)) <= pm_len (stack (st t0)) ->
  wp (_ ← (data ← table_destinations targets; block ← branch_to default; _ ← insi (BrTable cv block.2 data); mret tt); upd (set_reachable false))
     t1 (fun _ => post dbg env validator locals results t0 (v' :: vs)).
Proof.
  intros H Hv Ht Eb Hf Hl Hs Hc Hcv Hle. inversion Ht as [|? ? (dd & w & -> & Hw & Hlw) Ht']; subst.
  apply wp_bind, wp_bind. eapply (wp_destinations t); [exact H|exact Ht'|done|by apply mark_none|done|].
  intros ds t2 D F1 F2 F3 F4 F5 F6 Hds Hin. rewrite app_nil_r in F2.
  destruct (here_lookup _ _ _ _ _ _ _ _ _ _ _ _ _ _ _ _ H Hw) as (g & Hg & Hgo). destruct (frame_target _ _ _ _ _ Hgo) as [Ta Tk Ts Td].
  apply wp_bind. eapply wp_branch_to_marked; [exact F2|exact Hg|done|]. intros t3 G1 G2 G3 G4 G5. cbn [fst snd].
  apply wp_bind. eapply (wp_terminate _ t3 (bld t)).
  - rewrite G1, F1. apply straight_refl.
  - rewrite G1, F1. apply live_open, H.
  - rewrite G1, F1. split; [done|]. split; [|done]. constructor; [|done]. split; [done|]. split; [done|]. by rewrite Td, Hlw.
  - done.
  - intros j b' Hbr. apply wp_ret, wp_upd. right. split; [|cbn; by rewrite G3, F4].
    eapply (die _ _ _ _ _ t _ f fs v _ vs _ _ _ _ (dd :: D) _ _ l H); try done.
    + intros i g' [->|Hi]%elem_of_cons Hg'; [simplify_eq; left|right; by eapply Hin].
    + cbn. by rewrite G3, F4.
    + cbn. eapply same_caches_trans; [exact Hc|]. by eapply same_caches_trans.
Qed.
Lemma table_args t f fs v v' vs under base seg tys ts cv targets default t1 l args t0 :
  here t f fs v vs under base seg tys -> same_frame v v' -> targets_ok ts (v :: vs) (default :: targets) -> bld t1 = bld t -> frames t1 = f :: fs ->
  pm_len (frames t1) < max_height -> stack (st t1) = (base ++ l) ++ args -> pm_len (stack (st t1)) < max_height -> Forall2 (repr (bld t)) args ts ->
  same_caches (st t) (st t1) -> has_type (bld t) cv ir.I32 -> pm_len (stack (st t1)) <= pm_len (stack (st t0)) ->
  wp (_ ← (r ← split_edges targets ∅ []; rd ← split_edge r.1.2 r.2 default; _ ← insi (BrTable cv rd.1.1 r.1.1);
           _ ← fill_edges dbg (pm_len ts) rd.2; mod_st (popn dbg (pm_len ts))); upd (set_reachable false))
     t1 (fun _ => post dbg env validator locals results t0 (v' :: vs)).
Proof.
  intros H Hv Ht Eb Hf Hl Hs Hsl Ha Hc Hcv Hle. set (K := frame_blocks (f :: fs)).
  assert (growing K (headers (f :: fs)) (default :: targets) (bld t) (bld t1) ∅ []) as G0.
  { rewrite Eb. split; try done; [apply evolves_refl|apply H|apply H|intros k; by eapply here_known|by intros ? ?%not_elem_of_nil|constructor]. }
  apply wp_bind, wp_bind. eapply wp_split_edges; [exact G0|set_solver|]. intros ks m1 seq1 b1 G1 Hks _. cbn [fst snd].
  apply wp_bind. eapply wp_split_edge; [exact G1|left|]. intros k m2 seq2 b2 G2 Hk Hsub. cbn [fst snd st].
  destruct G2 as [V2 L2 T2 K2 P2 N2 ND2 _ D2]. rewrite list.Forall_forall in P2.
  apply wp_bind. eapply (wp_terminate _ _ b2); cbn [bld]; [apply straight_refl|by apply live_open| |done|].
  { split; [apply (ex_types _ _ (proj1 (ev_extends _ _ _ V2))); done|]. split; [|done]. apply list.Forall_forall. intros d Hd.
    assert (d ∈ blocks seq2) as Hd2 by (apply elem_of_cons in Hd as [->|Hd]; auto). destruct (P2 d Hd2) as [P1 P3 P4 P5 P6].
    split; [done|]. split; [done|]. by rewrite P6. }
  intros j b3 Hbr. assert (forall i, i ∈ K ++ blocks seq2 -> known b2 i) as HK2.
  { intros i [Hi|Hi]%elem_of_app; [auto|apply (pd_known _ _ (P2 i Hi))]. }
  pose proof (branched_evolves _ _ _ _ _ HK2 Hbr) as V3.
  apply wp_bind. eapply (wp_fill_edges t f fs v vs under base seg tys ts (base ++ l) args (st t1) _ seq2 [] _ _ H); cbn [bld st]; try done.
  - split; cbn [bld]; [| | |by apply mark_none|by intros ? ? ?%not_elem_of_nil].
    + eapply evolves_trans; [exact V2|]. eapply evolves_mono; [|exact V3]. set_solver.
    + by eapply branched_ended.
    + by eapply branched_tight.
  - apply list.Forall_forall. intros i Hi. eapply (pend_evolves (K ++ blocks seq2)); [set_solver|exact V3|auto].
  - unfold targets_ok in *. rewrite list.Forall_forall in D2, Ht |- *. auto.
  - intros D' t4 [V4 En4 T4 F4 Fi4] S4 R4 C4. eapply (wp_popn _ _ (base ++ l) args); [by rewrite S4|by rewrite S4|by apply pm_len_Forall2 in Ha|].
    apply wp_upd. right. split; [|cbn; rewrite Hs, !pm_len_app in Hle; rewrite pm_len_app; pose proof (pm_len_nonneg args); lia].
    eapply (die_at _ _ _ _ _ t _ f fs v _ vs _ _ _ _ D' l H); try done. cbn. by eapply same_caches_trans.
Qed.

Lemma step_br_table targets default : live_step (translate_br_table dbg targets default) (Operator.BrTable targets default).
Proof.
  intros t v vs vs' Hl [Hb Hfb] Hbt Hv Hht. destruct (live_here _ _ _ _ _ _ _ _ Hl) as (f & fs & under & base & seg & tys & H).
  lazy [FuncValid.vstep_raw] in Hv. inv_some.
  destruct (vpop_alive _ _ _ _ (h_alive _ _ _ _ _ _ _ _ _ _ _ _ _ _ H) Hx) as (r1 & -> & Ha1).
  rename x0 into ts. assert (exists rest, r1 = rest ++ ts) as [rest ->].
  { apply andb_true_iff in Ec as [Hd _]. unfold table_ok in Hd. rewrite Hx0 in Hd. apply andb_true_iff in Hd as [_ Hd].
    apply bool_decide_eq_true_1 in Hd as [f2 Hp]. destruct (vpops_alive _ _ _ _ Ha1 Hp) as (rest & -> & _). by exists rest. }
  pose proof (table_targets _ _ _ _ _ (default :: targets) Ha1 eq_refl Ec) as Ht.
  destruct (here_split _ _ _ _ _ _ _ _ _ _ _ _ _ _ _ H) as (s1 & c & -> & Hs1 & Hc & Hst & _).
  apply Forall2_cons_inv_r in Hc as (cv & ? & Hcv%repr_scalar & ->%Forall2_nil_inv_r & ->); [|done].
  destruct (Forall2_app_inv_r _ _ Hs1) as (sr & args & Hsr & Ha & ->).
  pose proof (h_frames _ _ _ _ _ _ _ _ _ _ _ _ _ _ H) as Hf.
  pose proof (fold_min_in targets default) as Hmin. unfold targets_ok in Ht. rewrite list.Forall_forall in Ht.
  destruct (Ht _ Hmin) as (d & w & Hd & Hw & Hlw). unfold translate_br_table. rewrite Hd.
  destruct (here_lookup _ _ _ _ _ _ _ _ _ _ _ _ _ _ _ _ H Hw) as (g & Hg & Hgo). destruct (frame_target _ _ _ _ _ Hgo) as [Ta Tk Ts Td].
  apply wp_bind, wp_frame_index; [rewrite Hf; by eapply lookup_lt_Some|done|]. apply wp_bind. eapply wp_frame_at; [by rewrite Hf|].
  apply wp_bind. eapply wp_pop1; [exact Hst|]. rewrite Ta, Hlw. set (t1 := mkT _ _).
  assert (pm_len (stack (st t1)) <= pm_len (stack (st t))) as Hle.
  { cbn. rewrite Hst, !pm_len_app. unfold pm_len. cbn. lia. }
  rewrite <- list.Forall_forall in Ht. destruct (Z.eqb_spec (pm_len ts) 0) as [E|E].
  - assert (ts = []) as -> by (apply length_zero_iff_nil; unfold pm_len in E; lia).
    by eapply (table_plain t f fs v _ vs _ _ _ _ _ _ _ t1 _ t H).
  - eapply (table_args t f fs v _ vs _ base _ _ ts cv targets default t1 sr args t H); try done; [cbn; by rewrite app_assoc|lia].
Qed.
End Table.
