(* ===== verification/CtlBlocks.v ===== *)
(** * Reachable code: blocks, loops and conditionals *)
From stdpp Require Import base list gmap option numbers.
From S2P Require Import Prelude Types Trap Module ModuleTypes VMOffsets HeapAccess Clif ClifLaws FuncState WasmOp FuncEnv CodeTranslator CodeTranslatorCtl CodeTranslatorOps WasmTyping FuncValid OpTyping CtlInv CtlSim CtlSteps CtlDead CtlLive CtlBranch.
Local Open Scope Z_scope.

Section Blocks.
Context {B : Type} {FB : FunctionBuilder B} {BV : BuilderView B} {LAWS : FunctionBuilderLaws B} {TC : TrapCodes}.
Context (dbg : bool) (env : TranslationEnvironment) (validator : FuncValidator) (locals results : list ir.Type_).
Abbreviation M := (SM (TState B) Error).
Abbreviation here := (here dbg env validator locals results).
Abbreviation frame_ok := (frame_ok env validator).
Abbreviation layers := (layers env validator).
Abbreviation shared := (shared dbg env locals results).
Abbreviation live_at := (live_at dbg env validator locals results).
Abbreviation live_step := (live_step dbg env validator locals results).

(** ** Opening a frame *)
Lemma param_type_canonical ps tys : mapO (param_type env) ps = Ok tys -> Forall (fun t => canon t = t) tys.
Proof.
  intros H%mapO_ok. induction H as [|p ty ps tys Hp _ IH]; constructor; [|done]. clear IH.
  destruct p as [| | | | |rt]; cbn in Hp; try (by simplify_eq). inv_ok. unfold env_reference_type, reference_type in *. inv_ok.
  destruct (top_inner (top x)); try done; by simplify_eq.
Qed.
Lemma open_frame t t' f fs v v' vs under base sr args rest tys w f' base' seg' tys' :
  here t f fs v vs under base (sr ++ args) tys -> same_frame v v' -> alive v' rest -> Forall2 (repr (bld t)) sr rest ->
  evolves (frame_blocks (f :: fs)) (bld t) (bld t') -> live (bld t') -> tight (bld t') (headers (f' :: f :: fs)) ->
  NoDup (blocks_of f') -> (forall k, k ∈ blocks_of f' -> ~ known (bld t) k) ->
  frames t' = f' :: f :: fs -> reachable (st t') = true -> same_caches (st t) (st t') -> stack (st t') = base' ++ seg' ->
  frame_ok (bld t') f' w -> base_ok (bld t') f' w (base ++ sr) base' -> alive w tys' -> Forall2 (repr (bld t')) seg' tys' ->
  live_at t' (w :: v' :: vs).
Proof.
  intros H Hv Ha Hsr V L T ND Hn Hf Hr Hc Hs Hw Hb Haw Hseg. pose proof H as [_ _ Hl Hfo Hba _ _ _ _ [N _ W]].
  split; [done|]. rewrite Hf, Hs. split; [|split; [done|split; [|done|]]].
  - econstructor; [|exact Hw|exact Hb|exact Haw|exact Hseg].
    econstructor; [eapply layers_evolves; [|exact V|done]; cbn; set_solver| | |exact Ha|eapply extends_reprs; [apply V|done]].
    + apply (frame_ok_same _ _ _ _ v); [done|]. eapply frame_evolves; [|exact V|done]. cbn. set_solver.
    + apply (base_ok_same _ _ v); [done|]. eapply base_evolves; [apply (ev_extends _ _ _ V)|done].
  - change (frame_blocks (f' :: f :: fs)) with (blocks_of f' ++ frame_blocks (f :: fs)). apply list.NoDup_app. split; [done|].
    split; [|done]. intros k Hk Hk'. apply (Hn k Hk). by eapply here_known.
  - eapply world_extends; [exact W|apply (ev_extends _ _ _ V)|done].
Qed.
Lemma made_new_known b b1 b2 k1 k2 t1 t2 : made b b1 k1 t1 -> made b1 b2 k2 t2 -> ~ known b k2 /\ k1 <> k2.
Proof.
  intros M1 M2. split.
  - intros Hk. apply (md_new _ _ _ _ M2). by apply (extends_known _ _ _ (md_extends _ _ _ _ M1)).
  - intros ->. apply (md_new _ _ _ _ M2), (md_known _ _ _ _ M1).
Qed.

Lemma frames_push (t : TState B) s' (b : B) fs g : frames t = fs -> control_stack s' = control_stack (st t) ++ [g] -> frames (mkT b s') = g :: fs.
Proof. intros <- E. unfold frames. cbn. by rewrite E, rev_app_distr. Qed.
Lemma wp_push_block t k l args r (Q : unit -> TState B -> Prop) : stack (st t) = l ++ args -> pm_len (stack (st t)) < max_height ->
  Q tt (mkT (bld t) (set_control_stack (control_stack (st t) ++ [Block_ k (pm_len args) r (pm_len l) false]) (st t))) ->
  wp (mod_st (push_block dbg k (pm_len args) r)) t Q.
Proof.
  intros Hs Hb HQ. eapply wp_mod; [|exact HQ]. unfold push_block. rewrite Hs, pm_len_app in *. pose proof (pm_len_nonneg l). pose proof (pm_len_nonneg args).
  rewrite (proj2 (Z.leb_le _ _)), debug_assert_true by lia. cbn [mbind outcome_bind]. do 5 f_equal. rewrite wrapping_sub_len by lia. f_equal. lia.
Qed.
Lemma wp_push_loop t h k l args r (Q : unit -> TState B -> Prop) : stack (st t) = l ++ args -> pm_len (stack (st t)) < max_height ->
  Q tt (mkT (bld t) (set_control_stack (control_stack (st t) ++ [Loop_ k h (pm_len args) r (pm_len l)]) (st t))) ->
  wp (mod_st (push_loop dbg h k (pm_len args) r)) t Q.
Proof.
  intros Hs Hb HQ. eapply wp_mod; [|exact HQ]. unfold push_loop. rewrite Hs, pm_len_app in *. pose proof (pm_len_nonneg l). pose proof (pm_len_nonneg args).
  rewrite (proj2 (Z.leb_le _ _)), debug_assert_true by lia. cbn [mbind outcome_bind]. do 5 f_equal. rewrite wrapping_sub_len by lia. lia.
Qed.
Lemma wp_push_if t d e bt l args r (Q : unit -> TState B -> Prop) : stack (st t) = l ++ args -> pm_len (stack (st t)) + pm_len args < max_height ->
  Q tt (mkT (bld t) (set_control_stack (control_stack (st t) ++ [If_ d e (pm_len args) r (pm_len (l ++ args)) false bt (reachable (st t)) None])
                       (set_stack ((l ++ args) ++ args) (st t)))) ->
  wp (mod_st (push_if dbg d e (pm_len args) r bt)) t Q.
Proof.
  intros Hs Hb HQ. eapply wp_mod; [|exact HQ]. clear HQ. unfold push_if. rewrite Hs in *. pose proof (pm_len_nonneg l). pose proof (pm_len_nonneg args).
  assert (pm_len (l ++ args) = pm_len l + pm_len args) as E by apply pm_len_app.
  rewrite (proj2 (Z.leb_le (pm_len args) (pm_len (l ++ args)))), debug_assert_true by lia. cbn [mbind outcome_bind].
  replace (wrapping_sub 64 (pm_len (l ++ args)) (pm_len args)) with (pm_len l) by (rewrite wrapping_sub_len; lia).
  assert ((if pm_len l <? pm_len (l ++ args) then drop (Z.to_nat (pm_len l)) (l ++ args) else []) = args) as ->.
  { zcase; [unfold pm_len; by rewrite Nat2Z.id, drop_app_length|]. symmetry. apply length_zero_iff_nil. unfold pm_len in *. lia. }
  cbv zeta. replace (wrapping_sub 64 (pm_len ((l ++ args) ++ args)) (pm_len args)) with (pm_len (l ++ args)); [done|].
  rewrite (pm_len_app (l ++ args)), wrapping_sub_len; lia.
Qed.

Lemma step_block bt : live_step (translate_block dbg env validator bt) (Operator.Block bt).
Proof.
  intros t v vs vs' Hl [Hb Hfb] Hbt Hv Hht. destruct (live_here _ _ _ _ _ _ _ _ Hl) as (f & fs & under & base & seg & tys & H).
  lazy [FuncValid.vstep_raw] in Hv. inv_some. rename l0 into rs, l into ps, Hx into Hsig.
  destruct (block_sig_inv _ _ _ _ _ _ Hsig) as (wps & wrs & Hbt' & Hps & Hrs & _ & Hlp & Hlr).
  destruct (vpops_alive _ _ _ _ (h_alive _ _ _ _ _ _ _ _ _ _ _ _ _ _ H) Hx0) as (rest & -> & Ha).
  destruct (here_split _ _ _ _ _ _ _ _ _ _ _ _ _ _ _ H) as (sr & args & -> & Hsr & Har & Hst & Hla).
  apply wp_bind. eapply wp_lift; [exact Hbt'|]. apply wp_bind. eapply wp_block_with_params; [exact Hrs|]. intros k b1 Hm.
  cbn [fst snd]. rewrite Hlp, Hlr, <- Hla. eapply (wp_push_block _ _ (base ++ sr)); cbn [bld st]; [done|done|].
  pose proof (made_evolves (frame_blocks (f :: fs)) _ _ _ _ (fun j => here_known _ _ _ _ _ _ _ _ _ _ _ _ _ _ j H) Hm) as V. left.
  assert (live b1) as L by (eapply made_live; [apply H|exact Hm]).
  eapply (open_frame t _ f fs v _ vs _ _ sr args rest _ _ (Block_ k (pm_len args) (pm_len rs) (pm_len (base ++ sr)) false)); try done.
  - frames_same.
  - eapply made_tight; [|exact Hm]. apply (sh_tight _ _ _ _ _ _ (h_shared _ _ _ _ _ _ _ _ _ _ _ _ _ _ H)).
  - apply list.NoDup_singleton.
  - intros j ->%list_elem_of_singleton. apply (md_new _ _ _ _ Hm).
  - eapply frames_push; [apply H|done].
  - apply H.
  - split; try done.
    + eapply made_dest; [|exact Hm]. eapply made_not_current; [apply H|exact Hm].
    + by eapply param_type_canonical.
  - eapply extends_reprs; [apply V|done].
Qed.

Lemma made_dest_kept b b1 b2 k1 k2 t1 t2 : live b -> made b b1 k1 t1 -> made b1 b2 k2 t2 -> dest_ok b2 k1 t1 /\ dest_ok b2 k2 t2.
Proof.
  intros L M1 M2. assert (dest_ok b1 k1 t1) as D1 by (eapply made_dest; [by eapply made_not_current|done]). split.
  - eapply (dest_evolves [k1]); [left| |exact D1]. eapply made_evolves; [|exact M2]. intros k ->%list_elem_of_singleton. apply D1.
  - eapply made_dest; [|done]. eapply made_not_current; [|done]. by eapply made_live.
Qed.
Lemma step_loop bt : live_step (translate_loop dbg env validator bt) (Operator.Loop bt).
Proof.
  intros t v vs vs' Hl [Hb Hfb] Hbt Hv Hht. destruct (live_here _ _ _ _ _ _ _ _ Hl) as (f & fs & under & base & seg & tys & H).
  lazy [FuncValid.vstep_raw] in Hv. inv_some. rename l0 into rs, l into ps, Hx into Hsig.
  destruct (block_sig_inv _ _ _ _ _ _ Hsig) as (wps & wrs & Hbt' & Hps & Hrs & _ & Hlp & Hlr).
  destruct (vpops_alive _ _ _ _ (h_alive _ _ _ _ _ _ _ _ _ _ _ _ _ _ H) Hx0) as (rest & -> & Ha).
  destruct (here_split _ _ _ _ _ _ _ _ _ _ _ _ _ _ _ H) as (sr & args & -> & Hsr & Har & Hst & Hla).
  pose proof (h_live _ _ _ _ _ _ _ _ _ _ _ _ _ _ H) as L0.
  apply wp_bind. eapply wp_lift; [exact Hbt'|]. cbn [fst snd]. apply wp_bind. eapply wp_block_with_params; [exact Hps|]. intros h b1 M1.
  apply wp_bind. eapply wp_block_with_params; [exact Hrs|]. cbn [bld st]. intros k b2 M2. rewrite Hlp, Hlr, <- Hla.
  destruct (made_new_known _ _ _ _ _ _ _ M1 M2) as [Nk Nhk]. destruct (made_dest_kept _ _ _ _ _ _ _ L0 M1 M2) as [Dh Dk].
  pose proof (extends_trans _ _ _ (md_extends _ _ _ _ M1) (md_extends _ _ _ _ M2)) as X2.
  assert (live b2) as L2 by (eapply made_live; [|exact M2]; by eapply made_live).
  set (K := frame_blocks (f :: fs)). assert (forall j, j ∈ K -> known (bld t) j) as HK by (intros j; by eapply here_known).
  assert (evolves K (bld t) b2) as V2.
  { eapply evolves_trans; [by eapply made_evolves; [|exact M1]|]. eapply made_evolves; [|exact M2].
    intros j Hj. apply (extends_known _ _ _ (md_extends _ _ _ _ M1)). auto. }
  apply wp_bind. eapply wp_peekn; cbn [st]; [exact Hst|done|done|].
  apply wp_bind. eapply wp_jump; cbn [bld]; [by apply live_open|apply Dh|apply Dh|rewrite (do_declared _ _ _ Dh); by eapply extends_reprs|].
  intros j b3 Hbr. cbn [st]. apply wp_bind. eapply wp_push_loop; cbn [bld st]; [exact Hst|done|].
  apply wp_bind. eapply wp_popn; cbn [bld st]; [exact Hst|done|done|]. apply wp_bind, wp_query, wp_bind, wp_upd. cbn [bld st].
  assert (forall i, i ∈ k :: K -> known b2 i) as HK2.
  { intros i [->|Hi]%elem_of_cons; [apply Dk|]. apply (extends_known _ _ _ X2). auto. }
  assert (h ∉ k :: K) as Hh by (intros [?|?]%elem_of_cons; [done|]; by apply (md_new _ _ _ _ M1), HK).
  pose proof (branched_evolves _ _ _ _ _ HK2 Hbr) as V3.
  destruct Dh as [h1 h2 h3 h4 h5 h6]. pose proof (br_extends _ _ _ _ Hbr) as X3.
  assert (declared b3 h = ps) as Hd3 by (by rewrite (br_declared _ _ _ _ Hbr)).
  assert (clean b3 h) as Hc3 by (by apply (br_clean _ _ _ _ Hbr)).
  assert (known b3 h) as Hk3 by (by apply (extends_known _ _ _ X3)).
  assert (~ filled b3 h) as Hf3 by (rewrite (br_filled _ _ _ _ Hbr); tauto).
  pose proof (law_clean b3 h Hc3) as Hpar. rewrite Hd3 in Hpar.
  eapply wp_switch; cbn [bld st]; [done|done|by eapply branched_ended|]. intros b4 R4.
  assert (evolves (k :: K) b3 b4) as V4.
  { eapply switched_evolves; [|exact Hh|exact R4]. intros i Hi. apply (extends_known _ _ _ X3). auto. }
  pose proof (sw_extends _ _ _ R4) as X4. pose proof (sw_blocks _ _ _ R4) as [D4 F4 S4 E4]. left.
  eapply (open_frame t _ f fs v _ vs _ _ sr args rest _ _ (Loop_ k h (pm_len args) (pm_len rs) (pm_len (base ++ sr)))); try done; cbn [bld].
  - frames_same.
  - eapply evolves_trans; [exact V2|]. eapply evolves_mono; [|by eapply evolves_trans]. set_solver.
  - eapply switched_live; [exact Hk3|exact Hf3| |exact R4]. exists j. apply (br_edge _ _ _ _ Hbr). right. split; [done|left].
  - change (headers (Loop_ k h (pm_len args) (pm_len rs) (pm_len (base ++ sr)) :: f :: fs)) with (h :: headers (f :: fs)).
    eapply switched_tight; [|exact R4]. eapply branched_tight; [|exact Hbr]. eapply made_tight; [|exact M2]. eapply made_tight; [|exact M1].
    apply (sh_tight _ _ _ _ _ _ (h_shared _ _ _ _ _ _ _ _ _ _ _ _ _ _ H)).
  - constructor; [by intros ->%list_elem_of_singleton|apply list.NoDup_singleton].
  - intros i [->| ->%list_elem_of_singleton]%elem_of_cons; [done|apply (md_new _ _ _ _ M1)].
  - eapply frames_push; [apply H|done].
  - apply H.
  - split; try done.
    + eapply (dest_evolves (k :: K)); [left|exact V4|]. by eapply (dest_evolves (k :: K)); [left|exact V3|].
    + by eapply param_type_canonical.
    + split; [done|]. split; [by apply (extends_known _ _ _ X4)|by rewrite S4, (br_sealed _ _ _ _ Hbr)|]. by rewrite D4.
  - eapply extends_reprs; [exact X4|]. apply types_repr; [done|]. by eapply param_type_canonical.
Qed.

(** *** [if] *)
Lemma if_room t f fs v v' vs under base seg tys sr args rest ps rs same : here t f fs v vs under base seg tys -> same_frame v v' -> alive v' rest ->
  Forall2 (repr (bld t)) sr rest -> Forall2 (repr (bld t)) args ps -> height (enter (KIf same) ps rs :: v' :: vs) < max_height ->
  pm_len (base ++ sr) + pm_len args + pm_len args < max_height.
Proof.
  intros H Hv Ha Hsr Har Hht. assert (layers (bld t) (f :: fs) (v' :: vs) (base ++ sr)) as Hly.
  { pose proof H as [_ _ Hl Hfo Hba _ _ _ _ _]. econstructor; [done|by apply (frame_ok_same _ _ _ _ v)|by apply (base_ok_same _ _ v)|done|done]. }
  apply layers_height in Hly. change (height (enter (KIf same) ps rs :: v' :: vs)) with (frame_height (enter (KIf same) ps rs) + height (v' :: vs)) in Hht.
  apply pm_len_Forall2 in Har. unfold frame_height, pm_len in *. cbn in Hht, Hly. rewrite length_rev, length_fmap in Hht. lia.
Qed.
Lemma if_tail t f fs v v' vs under base sr args rest ps rs tys dest ed bt nb s1 b3 same :
  here t f fs v vs under base (sr ++ args ++ tys) (rest ++ ps ++ [ir.I32]) -> same_frame v v' -> alive v' rest ->
  Forall2 (repr (bld t)) sr rest -> Forall2 (repr (bld t)) args ps ->
  s1 = set_stack ((base ++ sr) ++ args) (st t) -> height (enter (KIf same) ps rs :: v' :: vs) < max_height ->
  let f' := If_ dest ed (pm_len args) (pm_len rs) (pm_len ((base ++ sr) ++ args)) false bt true None in
  evolves (frame_blocks (f :: fs)) (bld t) b3 -> ended b3 -> tight b3 (headers (f :: fs)) ->
  frame_ok b3 f' (enter (KIf same) ps rs) -> NoDup (blocks_of f') -> (forall k, k ∈ blocks_of f' -> ~ known (bld t) k) ->
  known b3 nb -> ~ filled b3 nb -> ~ sealed b3 nb -> (exists j, edge b3 j nb) -> ~ known (bld t) nb -> nb ∉ blocks_of f' ->
  wp (_ ← onb (seal_block nb); _ ← onb (switch_to_block nb); mod_st (push_if dbg dest ed (pm_len args) (pm_len rs) bt)) (mkT b3 s1)
     (fun _ => post dbg env validator locals results t (enter (KIf same) ps rs :: v' :: vs)).
Proof.
  intros H Hv Ha Hsr Har -> Hht f' V En T Fo ND Nn Nk Nf Ns Ne Nkn Nb. set (K := frame_blocks (f :: fs)) in *.
  assert (forall i, i ∈ blocks_of f' ++ K -> known b3 i) as HK.
  { intros i [Hi|Hi]%elem_of_app; [by eapply frame_known|]. apply (extends_known _ _ _ (ev_extends _ _ _ V)). by eapply here_known. }
  assert (nb ∉ blocks_of f' ++ K) as Hnb.
  { intros [?|Hi]%elem_of_app; [done|]. apply Nkn. by eapply here_known. }
  apply wp_bind. eapply wp_mono; [eapply (wp_seal_switch (blocks_of f' ++ K) (headers (f :: fs)) nb _ (fun _ t' => exists b', t' = mkT b' _ /\
    evolves (blocks_of f' ++ K) b3 b' /\ live b' /\ tight b' (headers (f :: fs)))); try done|].
  { intros b' V' L' T'. exists b'. split; [reflexivity|done]. }
  intros [] t4 H4. apply wp_bind. eapply wp_mono; [exact H4|]. intros [] t5 (b5 & -> & V5 & L5 & T5). clear H4.
  pose proof (if_room _ _ _ _ _ _ _ _ _ _ _ _ _ _ _ _ H Hv Ha Hsr Har Hht) as Hlen.
  eapply wp_push_if; cbn [bld st stack set_stack]; [reflexivity|rewrite pm_len_app; lia|]. left.
  change (reachable (set_stack ((base ++ sr) ++ args) (st t))) with (reachable (st t)). rewrite (h_reachable _ _ _ _ _ _ _ _ _ _ _ _ _ _ H).
  assert (evolves K b3 b5) as V5' by (eapply evolves_mono; [|exact V5]; set_solver).
  eapply (open_frame t _ f fs v _ vs _ _ sr (args ++ tys) rest _ _ f' ((base ++ sr) ++ args) args); try done; cbn [bld].
  - by eapply evolves_trans.
  - eapply frames_push; [apply H|done].
  - apply H.
  - eapply frame_evolves; [|exact V5|done]. set_solver.
  - exists args. split; [done|]. split; [|done]. eapply extends_reprs; [apply V5'|]. eapply extends_reprs; [apply V|done].
  - eapply extends_reprs; [apply V5'|]. eapply extends_reprs; [apply V|done].
Qed.


Section If.
(** The condition has been popped, and the block of the first branch made. *)
Variables (t : TState B) (f : ControlStackFrame) (fs : list ControlStackFrame) (v v' : vframe) (vs : list vframe)
  (under base sr args : list Value) (rest ps : list ir.Type_) (cv : Value) (bt : BlockType) (wps : list wasmparser.ValType) (nb : Block) (b1 : B).
Hypotheses (H : here t f fs v vs under base (sr ++ args ++ [cv]) (rest ++ ps ++ [ir.I32])) (Hv : same_frame v v') (Ha : alive v' rest)
  (Hsr : Forall2 (repr (bld t)) sr rest) (Har : Forall2 (repr (bld t)) args ps) (Hcv : has_type (bld t) cv ir.I32)
  (M1 : made (bld t) b1 nb []) (Hps : mapO (param_type env) wps = Ok ps) (Hlen : pm_len (base ++ sr ++ args) < max_height).

Lemma if_live : live (bld t) /\ live b1 /\ extends (bld t) b1 /\ forall j, j ∈ frame_blocks (f :: fs) -> known (bld t) j.
Proof.
  pose proof (h_live _ _ _ _ _ _ _ _ _ _ _ _ _ _ H) as L0. split; [done|]. split; [by eapply made_live|]. split; [apply M1|].
  intros j. by eapply here_known.
Qed.
Lemma if_no_else : block_sig env validator bt = Some (ps, ps, true) -> height (enter (KIf true) ps ps :: v' :: vs) < max_height ->
  wp (d ← (destination ← block_with_params env wps;
           args ← peek (peekn dbg (pm_len args));
           branch_inst ← canonicalise_brif cv nb [] destination args;
           mret (destination, NoElse branch_inst destination));
      _ ← onb (seal_block nb); _ ← onb (switch_to_block nb); mod_st (push_if dbg d.1 d.2 (pm_len args) (pm_len ps) bt))
     (mkT b1 (set_stack (base ++ sr ++ args) (st t)))
     (fun _ => post dbg env validator locals results t (enter (KIf true) ps ps :: v' :: vs)).
Proof.
  intros Hsig Hht. destruct if_live as (L0 & L1 & X1 & HK). set (K := frame_blocks (f :: fs)) in *.
  apply wp_bind, wp_bind. eapply wp_block_with_params; [exact Hps|]. cbn [bld st]. intros d b2 M2.
  destruct (made_new_known _ _ _ _ _ _ _ M1 M2) as [Nd Nnd]. destruct (made_dest_kept _ _ _ _ _ _ _ L0 M1 M2) as [Dn Dd].
  pose proof (extends_trans _ _ _ X1 (md_extends _ _ _ _ M2)) as X2. assert (live b2) as L2 by (by eapply made_live).
  assert (evolves K (bld t) b2) as V2.
  { eapply evolves_trans; [by eapply made_evolves; [|exact M1]|]. eapply made_evolves; [|exact M2]. intros j Hj. apply (extends_known _ _ _ X1). auto. }
  apply wp_bind. eapply (wp_peekn _ _ (base ++ sr) args); cbn [st stack set_stack]; [by rewrite app_assoc|done|done|].
  apply wp_bind. eapply (wp_brif _ _ _ _ _ _ ir.I32); cbn [bld]; [by apply live_open|by apply (ex_types _ _ (proj1 X2))|done|apply Dn|apply Dn|by rewrite (do_declared _ _ _ Dn)|
    apply Dd|apply Dd|rewrite (do_declared _ _ _ Dd); by eapply extends_reprs|].
  intros j b3 Hbr. apply wp_ret. cbn [fst snd st]. rewrite app_assoc.
  assert (forall i, i ∈ d :: nb :: K -> known b2 i) as HK2.
  { intros i [->|[->|Hi]%elem_of_cons]%elem_of_cons; [apply Dd|apply Dn|]. apply (extends_known _ _ _ X2). auto. }
  pose proof (branched_evolves _ _ _ _ _ HK2 Hbr) as V3.
  assert (dest_ok b3 nb []) as Dn3 by (eapply (dest_evolves (d :: nb :: K)); [right; left|exact V3|done]).
  eapply (if_tail t f fs v _ vs under base sr args rest ps ps [cv] d (NoElse j d) bt nb _ b3); try done; try (by apply Dn3).
  - eapply evolves_trans; [exact V2|]. eapply evolves_mono; [|exact V3]. set_solver.
  - by eapply branched_ended.
  - eapply branched_tight; [|exact Hbr]. eapply made_tight; [|exact M2]. eapply made_tight; [apply H|exact M1].
  - split; try done.
    + by apply pm_len_Forall2 in Har.
    + eapply (dest_evolves (d :: nb :: K)); [left|exact V3|done].
    + by eapply param_type_canonical.
    + cbn. split_and!; try done. apply (br_edge _ _ _ _ Hbr). right. split; [done|]. right. left.
  - apply list.NoDup_singleton.
  - by intros i ->%list_elem_of_singleton.
  - exists j. apply (br_edge _ _ _ _ Hbr). right. split; [done|]. left.
  - apply (md_new _ _ _ _ M1).
  - by intros ->%list_elem_of_singleton.
Qed.
Lemma if_with_else rs wrs : mapO (param_type env) wrs = Ok rs -> height (enter (KIf false) ps rs :: v' :: vs) < max_height ->
  wp (d ← (destination ← block_with_params env wrs;
           else_block ← block_with_params env wps;
           args ← peek (peekn dbg (pm_len args));
           _ ← canonicalise_brif cv nb [] else_block args;
           _ ← onb (seal_block else_block);
           mret (destination, WithElse else_block));
      _ ← onb (seal_block nb); _ ← onb (switch_to_block nb); mod_st (push_if dbg d.1 d.2 (pm_len args) (pm_len rs) bt))
     (mkT b1 (set_stack (base ++ sr ++ args) (st t)))
     (fun _ => post dbg env validator locals results t (enter (KIf false) ps rs :: v' :: vs)).
Proof.
  intros Hrs Hht. destruct if_live as (L0 & L1 & X1 & HK). set (K := frame_blocks (f :: fs)) in *.
  apply wp_bind, wp_bind. eapply wp_block_with_params; [exact Hrs|]. cbn [bld st]. intros d b2 M2. assert (live b2) as L2 by (by eapply made_live).
  apply wp_bind. eapply wp_block_with_params; [exact Hps|]. cbn [bld st]. intros e b3 M3. assert (live b3) as L3 by (by eapply made_live).
  destruct (made_new_known _ _ _ _ _ _ _ M1 M2) as [Nd Nnd]. destruct (made_new_known _ _ _ _ _ _ _ M2 M3) as [Ne Nde].
  destruct (made_dest_kept _ _ _ _ _ _ _ L0 M1 M2) as [Dn2 _]. destruct (made_dest_kept _ _ _ _ _ _ _ L1 M2 M3) as [Dd De].
  pose proof (md_extends _ _ _ _ M2) as X12. pose proof (extends_trans _ _ _ X1 (extends_trans _ _ _ X12 (md_extends _ _ _ _ M3))) as X3.
  assert (dest_ok b3 nb []) as Dn.
  { eapply (dest_evolves [nb]); [left| |exact Dn2]. eapply made_evolves; [|exact M3]. intros k ->%list_elem_of_singleton. apply Dn2. }
  assert (evolves K (bld t) b3) as V3.
  { eapply evolves_trans; [by eapply made_evolves; [|exact M1]|]. eapply evolves_trans; [eapply made_evolves; [|exact M2]|eapply made_evolves; [|exact M3]];
      intros j Hj; repeat (first [apply (extends_known _ _ _ X12)|apply (extends_known _ _ _ X1)]); auto. }
  apply wp_bind. eapply (wp_peekn _ _ (base ++ sr) args); cbn [st stack set_stack]; [by rewrite app_assoc|done|done|].
  apply wp_bind. eapply (wp_brif _ _ _ _ _ _ ir.I32); cbn [bld]; [by apply live_open|by apply (ex_types _ _ (proj1 X3))|done|apply Dn|apply Dn|by rewrite (do_declared _ _ _ Dn)|
    apply De|apply De|rewrite (do_declared _ _ _ De); by eapply extends_reprs|].
  intros j b4 Hbr. assert (forall i, i ∈ e :: d :: nb :: K -> known b3 i) as HK3.
  { intros i [->|[->|[->|Hi]%elem_of_cons]%elem_of_cons]%elem_of_cons; [apply De|apply Dd|apply Dn|]. apply (extends_known _ _ _ X3). auto. }
  pose proof (branched_evolves _ _ _ _ _ HK3 Hbr) as V4. pose proof (br_extends _ _ _ _ Hbr) as X4.
  assert (dest_ok b4 e ps) as De4 by (eapply (dest_evolves (e :: d :: nb :: K)); [left|exact V4|done]).
  apply wp_bind, wp_seal; cbn [bld]; [apply De4|apply De4|]. intros b5 R5. apply wp_ret. cbn [fst snd st]. rewrite app_assoc.
  assert (e ∉ d :: nb :: K) as He.
  { intros [?|[->|Hi]%elem_of_cons]%elem_of_cons; [congruence| |]; apply Ne; [apply (md_known _ _ _ _ M1)|]. apply (extends_known _ _ _ X1). auto. }
  assert (evolves (d :: nb :: K) b4 b5) as V5.
  { eapply sealed_evolves; [|exact He|exact R5]. intros i Hi. apply (extends_known _ _ _ X4), HK3. by right. }
  assert (evolves (d :: nb :: K) b3 b5) as V35 by (eapply evolves_trans; [eapply evolves_mono; [|exact V4]; set_solver|exact V5]).
  assert (dest_ok b5 nb []) as Dn5 by (eapply (dest_evolves (d :: nb :: K)); [right; left|exact V35|done]).
  eapply (if_tail t f fs v _ vs under base sr args rest ps rs [cv] d (WithElse e) bt nb _ b5); try done; try (by apply Dn5).
  - eapply evolves_trans; [exact V3|]. eapply evolves_mono; [|exact V35]. set_solver.
  - eapply sealed_ended; [|exact R5]. by eapply branched_ended.
  - eapply sealed_tight'; [|exact R5]. eapply branched_tight; [|exact Hbr]. eapply made_tight; [|exact M3]. eapply made_tight; [|exact M2].
    eapply made_tight; [apply H|exact M1].
  - split; try done.
    + by apply pm_len_Forall2 in Har.
    + eapply (dest_evolves (d :: nb :: K)); [left|exact V35|done].
    + by eapply param_type_canonical.
    + cbn. split; [done|]. split; [done|]. destruct De4 as [E1 E2 E3 E4 E5 E6]. split.
      * by apply (extends_known _ _ _ (sa_extends _ _ _ R5)).
      * by rewrite (sa_filled _ _ _ R5).
      * apply (sa_sealed _ _ _ R5). by right.
      * by rewrite (sa_current _ _ _ R5).
      * exists j. apply (sa_edge _ _ _ R5), (br_edge _ _ _ _ Hbr). right. split; [done|]. right. left.
  - constructor; [by intros ->%list_elem_of_singleton|apply list.NoDup_singleton].
  - intros i [->| ->%list_elem_of_singleton]%elem_of_cons; [done|]. intros Hk. apply Ne. by apply (extends_known _ _ _ X1).
  - exists j. apply (sa_edge _ _ _ R5), (br_edge _ _ _ _ Hbr). right. split; [done|]. left.
  - apply (md_new _ _ _ _ M1).
  - intros [->| ->%list_elem_of_singleton]%elem_of_cons; [done|]. apply Ne, (md_known _ _ _ _ M1).
Qed.
End If.

Lemma step_if bt : live_step (translate_if dbg env validator bt) (Operator.If bt).
Proof.
  intros t v vs vs' Hl [Hb Hfb] Hbt Hv Hht. destruct (live_here _ _ _ _ _ _ _ _ Hl) as (f & fs & under & base & seg & tys & H).
  lazy [FuncValid.vstep_raw] in Hv. inv_some. rename l0 into rs, l into ps, Hx into Hsig, b into same.
  destruct (block_sig_inv _ _ _ _ _ _ Hsig) as (wps & wrs & Hbt' & Hps & Hrs & Hsame & Hlp & Hlr).
  destruct (vpop_alive _ _ _ _ (h_alive _ _ _ _ _ _ _ _ _ _ _ _ _ _ H) Hx0) as (r1 & -> & Ha1).
  destruct (vpops_alive _ _ _ _ Ha1 Hx1) as (rest & -> & Ha).
  destruct (here_split _ _ _ _ _ _ _ _ _ _ _ _ _ _ _ H) as (s1 & c & -> & Hs1 & Hc & Hst & _).
  apply Forall2_cons_inv_r in Hc as (cv & ? & Hcv%repr_scalar & ->%Forall2_nil_inv_r & ->); [|done].
  destruct (Forall2_app_inv_r _ _ Hs1) as (sr & args & Hsr & Har & ->). pose proof (pm_len_Forall2 _ _ _ Har) as Hla.
  assert (pm_len (base ++ sr ++ args) < max_height) as Hlen by (rewrite Hst, pm_len_app in Hb; unfold pm_len in *; cbn in *; lia).
  rewrite <- !app_assoc in H. assert (same_frame v x0) as Hvv by frames_same.
  apply wp_bind. eapply wp_pop1; [exact Hst|]. apply wp_bind, wp_create_block. cbn [bld st]. intros nb b1 M1.
  apply wp_bind. eapply wp_lift; [exact Hbt'|]. cbn [fst snd]. rewrite Hlp, Hlr, <- Hla. subst same. case_bool_decide as Es.
  - subst wrs. assert (ps = rs) as <- by congruence. by eapply (if_no_else t f fs v x0 vs under base sr args rest ps cv bt wps).
  - by eapply (if_with_else t f fs v x0 vs under base sr args rest ps cv bt wps).
Qed.
End Blocks.
