(* ===== verification/CtlEnds.v ===== *)
(** * Reachable code: [else] and [end] *)
From stdpp Require Import base list gmap option numbers.
From S2P Require Import Prelude Types Trap Module ModuleTypes VMOffsets HeapAccess Clif ClifLaws FuncState WasmOp FuncEnv CodeTranslator CodeTranslatorCtl CodeTranslatorOps WasmTyping FuncValid OpTyping CtlInv CtlSim CtlSteps CtlDead CtlLive CtlBranch CtlBlocks.
Local Open Scope Z_scope.

Section Ends.
Context {B : Type} {FB : FunctionBuilder B} {BV : BuilderView B} {LAWS : FunctionBuilderLaws B} {TC : TrapCodes}.
Context (dbg : bool) (env : TranslationEnvironment) (validator : FuncValidator) (locals results : list ir.Type_).
Abbreviation M := (SM (TState B) Error).
Abbreviation here := (here dbg env validator locals results).
Abbreviation live_step := (live_step dbg env validator locals results).
Abbreviation vstep_raw := (vstep_raw env validator locals).

(** At the end of a reachable frame its results are all it has. *)
Lemma ops_done v f tys : alive v tys -> vpops (v_end v) v = Some f -> v_ops f = [] -> tys = v_end v.
Proof.
  intros Ha Hp Ho. destruct (vpops_alive _ _ _ _ Ha Hp) as (rest & -> & [_ Hr]). rewrite Ho in Hr.
  destruct rest as [|x rest _] using rev_ind; [done|]. by rewrite fmap_app, rev_app_distr in Hr.
Qed.
Lemma wp_frame_top t f fs (Q : ControlStackFrame -> TState B -> Prop) : frames t = f :: fs -> Q f t ->
  wp (peek (fun s => unwrap (pm_get (control_stack s) (pm_len (frames t) - 1 - Z.of_nat 0)))) t Q.
Proof. intros Hf HQ. eapply (wp_frame_at t 0); [by rewrite Hf|done]. Qed.

Section Else.
(** The frame has been marked as having an [else]; [seg] are the results of its
    first branch. *)
Variables (t : TState B) (d : Block) (e : ElseData) (n r : Z) (x : bool) (bt : BlockType) (fs : list ControlStackFrame) (v : vframe)
  (vs : list vframe) (under saved seg : list Value) (t1 : TState B).
Abbreviation f := (If_ d e n r (pm_len (under ++ saved)) x bt true None).
Hypotheses (H : here t f fs v vs under (under ++ saved) seg (v_end v)) (Hsv : Forall2 (repr (bld t)) saved (v_start v))
  (Hf1 : frames t1 = If_ d e n r (pm_len (under ++ saved)) x bt true (Some true) :: fs) (E1 : bld t1 = bld t)
  (E2 : stack (st t1) = stack (st t)) (E3 : reachable (st t1) = true) (E4 : same_caches (st t) (st t1)) (Hb : pm_len (stack (st t)) < max_height).
Abbreviation after := (post dbg env validator locals results t (enter KElse (v_start v) (v_end v) :: vs)).

Lemma else_facts : n = pm_len (v_start v) /\ r = pm_len (v_end v) /\ dest_ok (bld t) d (v_end v) /\ pm_len seg = pm_len (v_end v) /\
  NoDup (frame_blocks fs) /\ (forall k, k ∈ blocks_of f -> k ∉ frame_blocks fs) /\ forall j, j ∈ d :: frame_blocks fs -> known (bld t) j.
Proof.
  destruct H as [Hr Hf Hly [Fp Fr Fd Fcn Fk Fx] Hba Ha Hseg Hst Hli [N T W]]. apply nodup_tail in N as [N Nd].
  split_and!; try done; [by apply pm_len_Forall2 in Hseg|]. intros j [->|Hj]%elem_of_cons; [apply Fd|by eapply layers_known].
Qed.
(** What entering the [else] leads to. *)
Lemma else_after b' : evolves (frame_blocks fs) (bld t) b' -> dest_ok b' d (v_end v) -> (exists j, edge b' j d) -> live b' -> tight b' (headers fs) ->
  after (mkT b' (set_stack (under ++ saved) (st t1))).
Proof.
  intros V D Hj L T. destruct else_facts as (Hn & Hr & _ & _ & N & Nd & _). destruct H as [_ _ Hly [_ _ _ Fcn _ _] _ _ _ _ _ [_ _ W]]. left.
  eapply (else_live _ _ _ _ _ t _ d e n r _ x bt v fs vs under saved); try done; try exact Hf1.
  match goal with |- CtlSim.shared _ _ _ _ _ ?x => change x with (frames t1) end. rewrite Hf1. split; [|done|].
  - cbn. destruct e; (constructor; [|done]); apply Nd; left.
  - eapply world_extends; [exact W|apply (ev_extends _ _ _ V)|done].
Qed.

Lemma else_new i : e = NoElse i d ->
  wp (else_block ← (pr ← sm_lift (blocktype_params_results validator bt);
                    let params := pr.1 in
                    _ ← sm_lift (debug_assert dbg (pm_len params =? r));
                    else_block ← block_with_params env params;
                    args ← peek (peekn dbg (pm_len params));
                    _ ← canonicalise_then_jump d args;
                    _ ← mod_st (popn dbg (pm_len params));
                    _ ← onb (change_jump_destination i d else_block);
                    _ ← onb (seal_block else_block);
                    mret else_block);
      onb (switch_to_block else_block)) t1 (fun _ => after).
Proof.
  intros He. destruct else_facts as (Hn & Hr & Fd & Hls & N & Nd & HK). pose proof H as [_ _ Hly [_ _ _ _ Fk _] _ _ Hseg Hst Hli [_ T W]].
  rewrite He in Fk. destruct Fk as (_ & _ & _ & Hi & Hse & Hsig). destruct (block_sig_inv _ _ _ _ _ _ Hsig) as (ps & rs & Hbt' & Hps & _ & _ & Hlp & _).
  apply wp_bind, wp_bind. eapply wp_lift; [exact Hbt'|]. cbn [fst snd]. apply wp_bind, wp_debug_assert; [apply Z.eqb_eq; congruence|].
  apply wp_bind. eapply wp_block_with_params; [exact Hps|]. rewrite E1. intros k b1 Hm.
  apply wp_bind. eapply (wp_peekn _ _ (under ++ saved) seg); cbn [st]; [congruence|by rewrite E2|congruence|].
  pose proof (made_evolves (d :: frame_blocks fs) _ _ _ _ HK Hm) as V1. pose proof (md_extends _ _ _ _ Hm) as X1.
  assert (dest_ok b1 d (v_end v)) as Fd1 by (eapply dest_evolves; [left|exact V1|done]).
  assert (live b1) as L1 by (by eapply made_live).
  apply wp_bind. eapply wp_jump; cbn [bld]; [by apply live_open|apply Fd1|apply Fd1|rewrite (do_declared _ _ _ Fd1); by apply (extends_reprs _ _ _ _ X1)|].
  intros j b2 Hbr. cbn [st]. apply wp_bind. eapply (wp_popn _ _ (under ++ saved) seg); cbn [bld st]; [congruence|by rewrite E2|congruence|].
  assert (forall j, j ∈ d :: frame_blocks fs -> j <> k) as Hnk by (intros i' Hi' ->; by apply (md_new _ _ _ _ Hm), HK).
  assert (forall j, j ∈ k :: d :: frame_blocks fs -> known b1 j) as HK1.
  { intros i' [->|Hi']%elem_of_cons; [apply (md_known _ _ _ _ Hm)|apply (extends_known _ _ _ X1); auto]. }
  pose proof (branched_evolves _ _ _ _ _ HK1 Hbr) as V2. pose proof (br_extends _ _ _ _ Hbr) as X2.
  assert (dest_ok b1 k (v_start v)) as Dk by (eapply made_dest; [exact (made_not_current _ _ _ _ Hli Hm)|done]).
  assert (dest_ok b2 k (v_start v)) as [Kk Kf Ks _ Kd _] by (eapply (dest_evolves (k :: d :: frame_blocks fs)); [left|exact V2|done]).
  assert (i <> j) as Hij by (intros ->; apply (br_fresh _ _ _ _ Hbr d), (md_edge _ _ _ _ Hm), Hi).
  assert (forall x, x ∈ blocks_of f -> x = d) as Hbl by (rewrite He; cbn; by intros ? ?%list_elem_of_singleton).
  eapply (wp_else_tail (frame_blocks fs) (headers fs) i d k (v_end v)); cbn [bld st]; try done; try congruence.
  - intros i' Hi'. apply (extends_known _ _ _ X2), HK1. right. by right.
  - apply Nd. rewrite He. left.
  - intros Hj. by apply (Hnk k); [right|].
  - intros ->. by apply (Hnk d); [left|].
  - apply (br_edge _ _ _ _ Hbr). left. by apply (md_edge _ _ _ _ Hm).
  - eapply (dest_evolves (k :: d :: frame_blocks fs)); [right; left|exact V2|done].
  - intros i'. rewrite (br_edge _ _ _ _ Hbr), (md_edge _ _ _ _ Hm). intros [He'|[_ ->%list_elem_of_singleton]]; [by apply (md_no_edge _ _ _ _ Hm i')|].
    by apply (Hnk d); [left|].
  - by eapply branched_ended.
  - eapply branched_tight; [|exact Hbr]. by eapply made_tight.
  - intros b3 [V3 D3 L3 T3 F3]. apply else_after; try done.
    + eapply evolves_trans; [eapply evolves_mono; [|exact V1]; intros i'; by right|].
      eapply evolves_trans; [|exact V3]. eapply evolves_mono; [|exact V2]. intros i' ?. right. by right.
    + exists j. apply F3; [done|]. apply (br_edge _ _ _ _ Hbr). right. split; [done|left].
Qed.
Lemma else_made k : e = WithElse k ->
  wp (else_block ← (args ← peek (peekn dbg r);
                    _ ← canonicalise_then_jump d args;
                    _ ← mod_st (popn dbg r);
                    mret k);
      onb (switch_to_block else_block)) t1 (fun _ => after).
Proof.
  intros He. destruct else_facts as (Hn & Hr & Fd & Hls & N & Nd & HK). pose proof H as [_ _ Hly [_ _ _ _ Fk _] _ _ Hseg Hst Hli [_ T W]].
  rewrite He in Fk. destruct Fk as (_ & _ & [Ke Kf Ks Kc [i Hi]]).
  apply wp_bind, wp_bind. eapply (wp_peekn _ _ (under ++ saved) seg); [congruence|by rewrite E2|congruence|].
  apply wp_bind. eapply wp_jump; rewrite ?E1; [by apply live_open|apply Fd|apply Fd|by rewrite (do_declared _ _ _ Fd)|]. intros j b1 Hbr.
  apply wp_bind. eapply (wp_popn _ _ (under ++ saved) seg); cbn [bld st]; [congruence|by rewrite E2|congruence|]. apply wp_ret.
  pose proof (br_extends _ _ _ _ Hbr) as X1. pose proof (branched_evolves _ _ _ _ _ HK Hbr) as V1.
  assert (~ filled b1 k) as Kf1 by (rewrite (br_filled _ _ _ _ Hbr); tauto).
  assert (known b1 k) as Kk1 by (by apply (extends_known _ _ _ X1)).
  eapply wp_switch; cbn [bld st]; [done|done|by eapply branched_ended|]. intros b2 R2.
  assert (k ∉ d :: frame_blocks fs) as Hk.
  { intros [->|Hk']%elem_of_cons; [by apply (do_sealed _ _ _ Fd)|]. apply (Nd k); [rewrite He; right; left|done]. }
  assert (evolves (d :: frame_blocks fs) b1 b2) as V2.
  { eapply switched_evolves; [|exact Hk|exact R2]. intros i' Hi'. apply (extends_known _ _ _ X1). auto. }
  assert (evolves (d :: frame_blocks fs) (bld t) b2) as V by (by eapply evolves_trans).
  apply else_after.
  - eapply evolves_mono; [|exact V]. intros i'. by right.
  - eapply dest_evolves; [left|exact V|done].
  - exists j. apply (ev_edge _ _ _ V2); [left|]. apply (br_edge _ _ _ _ Hbr). right. split; [done|left].
  - eapply switched_live; [done|done| |exact R2]. exists i. apply (br_edge _ _ _ _ Hbr). by left.
  - eapply switched_tight_sealed; [|by apply (br_sealed _ _ _ _ Hbr)|exact R2]. by eapply branched_tight.
Qed.
End Else.

Lemma step_else : live_step (translate_else dbg env validator) Operator.Else.
Proof.
  intros t v vs vs' Hl [Hb Hfb] Hbt Hv Hht. destruct (live_here _ _ _ _ _ _ _ _ Hl) as (f & fs & under & base & seg & tys & H).
  lazy [FuncValid.vstep_raw] in Hv. destruct (v_kind v) as [| |same|] eqn:Hk; try discriminate Hv. inv_some. apply bool_decide_eq_true_1 in Ec.
  pose proof H as [Hr Hf _ [_ _ _ _ Fk _] Hba Ha _ _ _ _]. pose proof (ops_done _ _ _ Ha Hx Ec) as ->.
  apply wp_bind, wp_top_index; [split; [rewrite Hf; unfold pm_len; cbn; lia|done]|]. apply wp_bind. eapply wp_frame_top; [exact Hf|].
  destruct f as [d e n r orig x0 bt h c|d n r orig x0|d hd n r orig]; cbn in Fk; [|congruence|destruct Fk; congruence].
  destruct c as [c|]; [destruct e, Fk as (_ & ? & _); congruence|].
  cbn in Hba. destruct Hba as (saved & -> & Hsv & ->). assert (h = true) as -> by (destruct e; apply Fk).
  apply wp_bind, wp_debug_assert; [done|]. apply wp_bind, wp_get, wp_bind, wp_upd. rewrite Hr. apply wp_bind, wp_upd. set (t1 := mkT _ _).
  assert (frames t1 = If_ d e n r (pm_len (under ++ saved)) x0 bt true (Some true) :: fs) as Hf1.
  { change (frames t1) with (frames (mkT (bld t) (set_frame (pm_len (frames t) - 1 - Z.of_nat 0) (If_ d e n r (pm_len (under ++ saved)) x0 bt true (Some true)) (st t)))).
    rewrite frames_set; rewrite Hf; [done|cbn; lia]. }
  destruct e as [i p|e].
  - assert (p = d) as -> by apply Fk. by eapply (else_new t d (NoElse i d) n r x0 bt fs v vs under saved seg).
  - by eapply (else_made t d (WithElse e) n r x0 bt fs v vs under saved seg).
Qed.

(** ** [end] *)
Lemma end_header f fs s b (K := frame_blocks fs) tys :
  (forall i, i ∈ header_of f ++ K -> known b i) -> live b -> tight b (headers (f :: fs)) -> match f with Loop_ _ h _ _ _ => ~ sealed b h | _ => True end ->
  known b (following_code f) -> ~ filled b (following_code f) -> clean b (following_code f) -> declared b (following_code f) = tys ->
  (forall h, h ∈ header_of f -> h ∉ K) ->
  wp (match f with Loop_ _ header _ _ _ => onb (seal_block header) | _ => mret tt end) (mkT b s)
    (fun _ t' => exists b', t' = mkT b' s /\ evolves K b b' /\ live b' /\ tight b' (headers fs) /\
       Forall2 (has_type b') (block_params b' (following_code f)) tys).
Proof.
  intros HK L T Hs Kd Fd Cd Dd Hh. destruct (header_of f) as [|h l] eqn:Ef.
  - assert (match f with Loop_ _ header _ _ _ => onb (seal_block header) | _ => mret tt end = mret tt :> M unit) as -> by (by destruct f).
    apply wp_ret. exists b. split; [done|]. split; [apply evolves_refl|]. split; [done|]. cbn in T. rewrite Ef in T. split; [done|].
    rewrite <- Dd. by apply law_clean.
  - destruct f as [| |d h' n r orig]; cbn in Ef; simplify_eq. apply wp_seal; [apply HK; left|done|]. intros b' R. exists b'. split; [done|].
    split; [eapply sealed_evolves; [|apply (Hh h); left|exact R]; intros i Hi; apply HK; by right|]. split; [by eapply sealed_live|].
    split; [exact (sealed_tight _ _ _ _ T R)|]. rewrite <- (sa_declared _ _ _ R) by done. apply law_clean. by apply (sa_clean _ _ _ R).
Qed.
Lemma step_end : live_step (translate_end dbg) Operator.End.
Proof.
  intros t v vs vs' Hl [Hb Hfb] Hbt Hv Hht. destruct (live_here _ _ _ _ _ _ _ _ Hl) as (f & fs & under & base & seg & tys & H).
  assert (vs' = leave_frames v vs) as -> by (by eapply vstep_end).
  lazy [FuncValid.vstep_raw] in Hv. apply bind_Some in Hv as (f' & Hx & Hv). destruct (bool_decide (v_ops f' = []) && _) eqn:Ec; [|discriminate Hv].
  apply andb_true_iff in Ec as [Ec%bool_decide_eq_true_1 _]. clear Hv.
  pose proof H as [Hr Hf Hly Hfo Hba Ha Hseg Hst Hli [N T W]]. pose proof Hfo as [Fp Fr Fd Fcn Fk Fx].
  pose proof (ops_done _ _ _ Ha Hx Ec) as ->. pose proof (pm_len_Forall2 _ _ _ Hseg) as Hls.
  set (K := frame_blocks fs). apply nodup_tail in N as [N Nd].
  assert (forall j, j ∈ frame_blocks (f :: fs) -> known (bld t) j) as HK by (intros j; by eapply here_known).
  assert (pm_len base < max_height) as Hbl by (rewrite Hst, pm_len_app in Hb; pose proof (pm_len_nonneg seg); lia).
  apply wp_bind. eapply wp_pop_frame; [exact Hf|]. cbn [bld st].
  apply wp_bind. eapply (wp_peekn _ _ base seg); cbn [st]; [exact Hst|done|congruence|].
  apply wp_bind. eapply wp_jump; cbn [bld]; [by apply live_open|apply Fd|apply Fd|by rewrite (do_declared _ _ _ Fd)|]. intros j b1 Hbr. cbn [st].
  pose proof (branched_evolves _ _ _ _ _ HK Hbr) as V1. pose proof (br_extends _ _ _ _ Hbr) as X1.
  assert (dest_ok b1 (following_code f) (v_end v)) as [D1 D2 D3 D4 D5 D6].
  { eapply (dest_evolves (frame_blocks (f :: fs))); [|exact V1|done]. cbn. apply elem_of_app. left. apply dest_in_blocks. }
  assert (forall h, h ∈ header_of f -> h ∈ blocks_of f /\ h ∉ K) as Hhd.
  { intros h Hh. assert (h ∈ blocks_of f) as Hh' by (destruct f as [? [] ? ? ? ? ? ? []| |]; set_solver). split; [done|by apply Nd]. }
  eapply (wp_enter (header_of f ++ K) (headers (f :: fs)) _ (v_end v)); cbn [bld]; try done.
  - intros i Hi. apply (extends_known _ _ _ X1), HK. cbn. set_solver.
  - intros [Hi|Hi]%elem_of_app; [|by eapply Nd; [apply dest_in_blocks|]].
    destruct f as [| |dd h n r orig]; cbn in Hi; try by apply not_elem_of_nil in Hi. apply list_elem_of_singleton in Hi as ->. clear Fd D1 D2 D3 D4 D5 D6.
    assert (NoDup (frame_blocks (Loop_ h h n r orig :: fs))) as Hnd by apply H. cbn in Hnd. apply list.NoDup_cons in Hnd as [Hnd _]. apply Hnd. left.
  - exists j. apply (br_edge _ _ _ _ Hbr). right. split; [done|left].
  - by eapply branched_ended.
  - by eapply branched_tight.
  - intros b2 [V2 L2 T2 P2 C2 F2 De2]. cbn [st].
    assert (forall i, i ∈ header_of f ++ K -> known b2 i) as HK2.
    { intros i Hi. apply (extends_known _ _ _ (ev_extends _ _ _ V2)), (extends_known _ _ _ X1), HK. cbn. set_solver. }
    apply wp_bind. eapply (wp_mono _ _ (fun _ t' => exists b3, t' = mkT b3 (set_control_stack (rev fs) (st t)) /\ evolves K b2 b3 /\ live b3 /\
      tight b3 (headers fs) /\ Forall2 (has_type b3) (block_params b3 (following_code f)) (v_end v))).
    + apply end_header; try done.
      * destruct f as [| |dd h n r orig]; try done. cbn in Fk. destruct Fk as [_ [h1 h2 h3]]. cbn.
        rewrite (ev_sealed _ _ _ V2) by (cbn; set_solver). by rewrite (br_sealed _ _ _ _ Hbr).
      * by apply (extends_known _ _ _ (ev_extends _ _ _ V2)).
      * intros h Hh. by apply Hhd.
    + intros [] t3 (b3 & -> & V3 & L3 & T3 & P3).
      assert (evolves K (bld t) b3) as V.
      { eapply evolves_trans; [eapply evolves_mono; [|exact V1]; cbn; set_solver|]. eapply evolves_trans; [|exact V3].
        eapply evolves_mono; [|exact V2]. set_solver. }
      apply wp_bind. eapply (wp_mod _ (set_stack under (set_control_stack (rev fs) (st t)))); [cbn; by erewrite Hst, truncate_original|].
      apply wp_bind, wp_query, wp_upd. cbn [bld st]. eapply (leave_live _ _ _ _ _ t _ v fs vs under); try done.
      * apply rev_involutive.
      * eapply layers_evolves; [|exact V|done]. done.
      * cbn [bld]. by apply types_repr.
      * split; [done..|]. eapply world_extends; [exact W|apply (ev_extends _ _ _ V)|done].
Qed.
End Ends.
