(* ===== verification/CtlOps.v ===== *)
(** * Reachable code: operators that neither open nor close frames

    [runs m ins outs]: when the operands [ins] are on the stack, [m] replaces
    them by [outs], or it emits code that traps, in which case the rest of the
    frame is unreachable. *)
From stdpp Require Import base list gmap option numbers.
From S2P Require Import Prelude Types Trap Module ModuleTypes VMOffsets HeapAccess Clif ClifLaws FuncState WasmOp FuncEnv CodeTranslator CodeTranslatorCtl CodeTranslatorOps WasmTyping FuncValid OpTyping CtlInv CtlSim CtlSteps CtlDead CtlLive CtlBranch.
Local Open Scope Z_scope.

Section Ops.
Context {B : Type} {FB : FunctionBuilder B} {BV : BuilderView B} {LAWS : FunctionBuilderLaws B} {TC : TrapCodes}.
Context (dbg : bool) (env : TranslationEnvironment) (validator : FuncValidator) (locals results : list ir.Type_).
Abbreviation M := (SM (TState B) Error).
Abbreviation world := (world dbg env locals results).
Abbreviation here := (here dbg env validator locals results).
Abbreviation live_at := (live_at dbg env validator locals results).
Abbreviation post := (post dbg env validator locals results).

Record fell_through (t t' : TState B) (pre : list Value) (outs : list ir.Type_) : Prop := {
  ft_reachable : reachable (st t') = reachable (st t); ft_straight : straight (bld t) (bld t');
  ft_stack : exists vs, stack (st t') = pre ++ vs /\ Forall2 (repr (bld t')) vs outs }.
Record trapped (t t' : TState B) (pre vs : list Value) : Prop := {
  tr_reachable : reachable (st t') = false; tr_branched : exists j, branched [] j (bld t) (bld t');
  tr_stack : exists junk, stack (st t') = pre ++ junk /\ pm_len junk <= pm_len vs }.
Definition runs (m : M unit) (ins outs : list ir.Type_) : Prop := forall t pre vs,
  world t -> open (bld t) -> stack (st t) = pre ++ vs -> pm_len (stack (st t)) < max_height -> Forall2 (repr (bld t)) vs ins ->
  wp m t (fun _ t' => control_stack (st t') = control_stack (st t) /\ world t' /\ (fell_through t t' pre outs \/ trapped t t' pre vs)).

Lemma op_typed_runs m ins outs : op_typed m ins outs -> runs m ins outs.
Proof.
  intros Hm t pre vs W Ho Hs Hl Hv. eapply wp_mono; [by eapply Hm|]. intros [] t' (vs' & Hst & He & Hr).
  rewrite He. split; [done|]. split; [eapply world_extends; [exact W|apply (sl_extends _ _ Hst)|by rewrite He]|]. left.
  split; [by rewrite He|done|]. exists vs'. by rewrite He.
Qed.
Lemma live_runs (m : M unit) s v v' vs t : runs m s.1 s.2 -> live_at t (v :: vs) -> bounded t -> vapply s v = Some v' ->
  wp m t (fun _ => post t (v' :: vs)).
Proof.
  intros Hm Hl [Hb _] Hv. destruct (live_here _ _ _ _ _ _ _ _ Hl) as (f & fs & under & base & seg & tys & H).
  pose proof (h_alive _ _ _ _ _ _ _ _ _ _ _ _ _ _ H) as Ha. destruct (vapply_alive _ _ _ _ Ha Hv) as (rest & -> & Ha').
  destruct (here_split _ _ _ _ _ _ _ _ _ _ _ _ _ _ _ H) as (sr & si & -> & Hsr & Hsi & Hst & _). apply vapply_same in Hv.
  eapply wp_mono; [apply (Hm t (base ++ sr) si); try done; [apply H|apply live_open, H]|]. intros [] t' (Hc & W' & Hor).
  assert (frames t' = frames t) as Hf by (unfold frames; by rewrite Hc). destruct Hor as [[Hr Hs (vs' & Hs' & Hv')]|[Hr [j Hbr] (junk & Hs' & Hle)]].
  - left. eapply here_live. eapply (here_evolves_w _ _ _ _ _ t t'); try done.
    + apply straight_evolves; [|done]. intros k. by eapply here_known.
    + eapply straight_live; [apply H|done].
    + eapply straight_tight; [apply H|done].
    + rewrite Hr. apply H.
    + by rewrite Hs', <- app_assoc.
    + apply Forall2_app; [by eapply straight_reprs|done].
  - right. split; [|rewrite Hs', Hst, !pm_len_app; lia]. eapply (die_at_w _ _ _ _ _ t t' f fs v v' vs _ _ _ _ [] (sr ++ junk) H); try done.
    + eapply branched_evolves; [|done]. intros k. by eapply here_known.
    + eapply branched_ended; [apply H|done].
    + eapply branched_tight; [apply H|done].
    + rewrite Hf. apply mark_none, H.
    + by intros i g ?%not_elem_of_nil.
    + by rewrite Hs', <- app_assoc.
Qed.

(** ** Stack operators *)
Lemma drop_typed ty : op_typed (B:=B) (_ ← pop1'; mret tt) [ty] [].
Proof.
  apply op_typed_intro. intros b s pre vs t (v & ? & Hv & ->%Forall2_nil_inv_r & ->)%Forall2_cons_inv_r Ha.
  eapply steps_bind; [exact (steps_pop1 [] v t)|exact Ha|]. intros ? t1 Hs Ha1 ->. by eapply finish.
Qed.
Lemma emits_canonical v ty t : open (bld t) -> repr (bld t) v ty -> emits (canonical_value v) t (fun b a => has_type b a ty).
Proof.
  intros Ho Hr. pose proof Hr as (ty' & Hv & Hc). eapply emits_bind; [by apply emits_type|]. intros ? t1 Hs1 He1 ->.
  destruct (ir.is_vector ty') eqn:E.
  - assert (ty = ir.I8X16) as -> by (by destruct ty'). apply emits_cast; [by eapply straight_open|by eapply straight_repr|done].
  - assert (ty' = ty) as <- by (by destruct ty'). apply emits_ret. by eapply straight_type.
Qed.
Lemma steps_canonical ws v ty t : repr (bld t) v ty -> steps (canonical_value v) ws ws t (fun b a => has_type b a ty).
Proof. intros Hr. apply steps_emits. intros Ho. by apply emits_canonical. Qed.
Lemma select_typed ty : op_typed (B:=B) translate_select [ty; ty; ir.I32] [ty].
Proof.
  apply op_typed_intro. intros b s pre vs t Hvs Ha.
  apply Forall2_cons_inv_r in Hvs as (x & ? & Hx & Hvs & ->). apply Forall2_cons_inv_r in Hvs as (y & ? & Hy & Hvs & ->).
  apply Forall2_cons_inv_r in Hvs as (c & ? & Hc%repr_scalar & ->%Forall2_nil_inv_r & ->); [|done].
  assert (canon ty = ty) as Hcn by (destruct Hx as (t' & _ & <-); apply canon_idemp).
  eapply steps_bind; [exact (steps_pop3 [] x y c t)|exact Ha|]. intros ? t1 Hs1 Ha1 ->. cbn [fst snd].
  eapply steps_bind; [apply steps_canonical; by eapply straight_repr|exact Ha1|]. intros x' t2 Hs2 Ha2 Hx'.
  eapply steps_bind; [apply steps_canonical; eapply straight_repr; [exact Hs2|by eapply straight_repr]|exact Ha2|]. intros y' t3 Hs3 Ha3 Hy'.
  eapply steps_bind; [|exact Ha3|].
  - eapply (steps_op _ _ _ _ _ _ [ir.I32; ty; ty]); [|unfold op_sig; rewrite bool_decide_eq_true_2 by done; reflexivity].
    constructor; [eapply straight_type; [exact Hs3|]; eapply straight_type; [exact Hs2|]; by eapply straight_type|].
    constructor; [by eapply straight_type|]. by constructor.
  - intros r t4 Hs4 Ha4 Hr. eapply (finish_push _ _ _ [] _ _ _ [] Ha4); [by exists ty|constructor].
Qed.
Lemma steps_is_null ws v ty t : has_type (bld t) v ty -> ir.is_int ty = true ->
  steps (translate_ref_is_null v) ws ws t (fun b a => has_type b a ir.I32).
Proof.
  intros Hv Hi. eapply steps_seq; [by eapply steps_icmp_imm|]. intros a t1 Hs1 Hav. apply (steps_op _ _ _ _ _ _ [ir.I8]); [by constructor|done].
Qed.
Lemma int_scalar ty : ir.is_int ty = true -> ir.is_vector ty = false.
Proof. by destruct ty. Qed.
Lemma ref_is_null_typed ty : ir.is_int ty = true -> op_typed (B:=B) (value ← pop1'; r ← translate_ref_is_null value; push r) [ty] [ir.I32].
Proof.
  intros Hi. apply op_typed_intro. intros b s pre vs t Hvs Ha.
  apply Forall2_cons_inv_r in Hvs as (v & ? & Hv & ->%Forall2_nil_inv_r & ->). apply repr_scalar in Hv; [|by apply int_scalar].
  eapply steps_bind; [exact (steps_pop1 [] v t)|exact Ha|]. intros ? t1 Hs1 Ha1 ->.
  eapply steps_bind; [eapply steps_is_null; [by eapply straight_type|done]|exact Ha1|]. intros r t2 Hs2 Ha2 Hr.
  eapply (finish_push _ _ _ [] _ _ _ [] Ha2); [by exists ir.I32|constructor].
Qed.
Lemma ref_as_non_null_typed ty : ir.is_int ty = true ->
  op_typed (B:=B) (r ← pop1'; is_null ← translate_ref_is_null r; _ ← insi (Trapnz is_null TRAP_NULL_REFERENCE); push r) [ty] [ty].
Proof.
  intros Hi. apply op_typed_intro. intros b s pre vs t Hvs Ha.
  apply Forall2_cons_inv_r in Hvs as (v & ? & Hv & ->%Forall2_nil_inv_r & ->). apply repr_scalar in Hv; [|by apply int_scalar].
  eapply steps_bind; [exact (steps_pop1 [] v t)|exact Ha|]. intros ? t1 Hs1 Ha1 ->.
  eapply steps_bind; [eapply steps_is_null; [by eapply straight_type|done]|exact Ha1|]. intros r t2 Hs2 Ha2 Hr.
  eapply steps_bind; [apply steps_insi; [by exists ir.I32|done]|exact Ha2|]. intros ? t3 Hs3 Ha3 _.
  eapply (finish_push _ _ _ [] _ _ _ [] Ha3); [|constructor]. exists ty. split; [|by destruct ty].
  eapply straight_type; [exact Hs3|]. eapply straight_type; [exact Hs2|]. by eapply straight_type.
Qed.

(** ** Local variables *)
Lemma local_get_runs i ty : pm_get locals i = Some ty -> canon ty = ty -> runs (translate_local_get i) [] [ty].
Proof.
  intros Hi Hc t pre vs W Ho Hs Hl ->%Forall2_nil_inv_r. pose proof (w_locals _ _ _ _ _ W _ _ Hi) as Hv.
  destruct (law_use_var (bld t) i ty Hv Ho) as (v & b' & Hu & X & Ht & [D F S E] & U & C). apply wp_bind. eapply wp_onb; [exact Hu|].
  apply wp_push. split; [done|]. split; [by eapply world_extends|]. left.
  assert (straight (bld t) b') as Hst by (by split; auto). split; [done|done|]. exists [v]. cbn. rewrite Hs, app_nil_r. split; [done|].
  constructor; [|constructor]. by exists ty.
Qed.
Lemma emits_def i ty v t : world t -> pm_get locals i = Some ty -> has_type (bld t) v ty -> emits (onb (def_var i v)) t (fun _ _ => True).
Proof.
  intros W Hi Hv. destruct (law_def_var (bld t) i v ty) as (b' & Hd & X & Hf); [by eapply w_locals|done|].
  eapply wp_onb; [exact Hd|]. split; [by apply same_flow_straight|done].
Qed.
Lemma emits_set i ty v t : open (bld t) -> world t -> pm_get locals i = Some ty -> repr (bld t) v ty ->
  emits (val ← canonical_value v; onb (def_var i val)) t (fun _ _ => True).
Proof.
  intros Ho W Hi Hv. eapply emits_bind; [by apply emits_canonical|]. intros a t1 Hs1 He1 Ha. eapply emits_def; [|done|done].
  eapply world_extends; [exact W|apply (sl_extends _ _ Hs1)|by rewrite He1].
Qed.
Lemma emits_runs (t t' : TState B) pre vs' outs : world t -> straight (bld t) (bld t') -> st t' = set_stack (pre ++ vs') (st t) ->
  Forall2 (repr (bld t')) vs' outs -> forall vs, control_stack (st t') = control_stack (st t) /\ world t' /\ (fell_through t t' pre outs \/ trapped t t' pre vs).
Proof.
  intros W Hs He Hv vs. rewrite He. split; [done|]. split; [eapply world_extends; [exact W|apply (sl_extends _ _ Hs)|by rewrite He]|]. left.
  split; [by rewrite He|done|]. exists vs'. by rewrite He.
Qed.
Lemma local_set_runs i ty : pm_get locals i = Some ty -> runs (translate_local_set i) [ty] [].
Proof.
  intros Hi t pre vs W Ho Hs Hl (v & ? & Hv & ->%Forall2_nil_inv_r & ->)%Forall2_cons_inv_r. apply wp_bind. eapply wp_pop1; [exact Hs|].
  set (t1 := mkT _ _). eapply emits_wp; [apply (emits_set i ty v t1); try done; eapply world_extends; [exact W|apply extends_refl|done]|].
  intros [] t2 Hs2 He2 _. eapply (emits_runs t t2 pre []); [done|done| |constructor]. rewrite He2. cbn. by rewrite app_nil_r.
Qed.
Lemma local_tee_runs i ty : pm_get locals i = Some ty -> runs (translate_local_tee i) [ty] [ty].
Proof.
  intros Hi t pre vs W Ho Hs Hl (v & ? & Hv & ->%Forall2_nil_inv_r & ->)%Forall2_cons_inv_r. apply wp_bind.
  eapply (wp_peek _ v); [unfold peek1; by rewrite Hs, last_snoc|]. eapply emits_wp; [by apply (emits_set i ty v t)|].
  intros [] t2 Hs2 He2 _. eapply (emits_runs t t2 pre [v]); [done|done| |constructor; [by eapply straight_repr|constructor]].
  rewrite He2, <- Hs. by destruct (st t).
Qed.
End Ops.

(** ** Reachable code: branches on null *)

Section BrOn.
Context {B : Type} {FB : FunctionBuilder B} {BV : BuilderView B} {LAWS : FunctionBuilderLaws B} {TC : TrapCodes}.
Context (dbg : bool) (env : TranslationEnvironment) (validator : FuncValidator) (locals results : list ir.Type_).
Abbreviation M := (SM (TState B) Error).
Abbreviation here := (here dbg env validator locals results).
Abbreviation live_at := (live_at dbg env validator locals results).
Abbreviation live_step := (live_step dbg env validator locals results).

Lemma emits_is_null v ty t : open (bld t) -> has_type (bld t) v ty -> ir.is_int ty = true ->
  emits (translate_ref_is_null v) t (fun b a => has_type b a ir.I32).
Proof.
  intros Ho Hv Hi. eapply emits_bind; [apply (emits_ins1 _ _ ir.I8); [done| |done]; by exists ty|]. intros a t1 Hs1 He1 Ha.
  apply (emits_op _ _ _ _ _ [ir.I8]); [by eapply straight_open|by constructor|done].
Qed.

(** After the test for null, in a state whose frames are still unmarked. *)
Lemma here_emitted t f fs v vs under base seg tys b' : here t f fs v vs under base seg tys -> straight (bld t) b' ->
  here (mkT b' (st t)) f fs v vs under base seg tys.
Proof.
  intros H Hs. eapply (here_straight _ _ _ _ _ t); try done; [apply H..|]. eapply straight_reprs; [exact Hs|apply H].
Qed.
Lemma wp_br_on_brif t f fs v vs under base seg tys d g w args c s2 k b1 ds t1 t2 l1 l2 (Q : Inst -> TState B -> Prop) :
  here t f fs v vs under base seg tys -> (f :: fs) !! d = Some g -> (v :: vs) !! d = Some w ->
  Forall2 (repr (bld t)) args (label_types w) -> has_type (bld t) c ir.I32 -> made (bld t) b1 k [] ->
  (t1, l1, t2, l2, ds) = (br_destination g, args, k, [], [br_destination g; k]) \/ (t1, l1, t2, l2, ds) = (k, [], br_destination g, args, [k; br_destination g]) ->
  (forall j b2, branched ds j b1 b2 -> Q j (mkT b2 s2)) -> wp (canonicalise_brif c t1 l1 t2 l2) (mkT b1 s2) Q.
Proof.
  intros H Hg Hw Ha Hc Hm Ho HQ.
  destruct (here_lookup _ _ _ _ _ _ _ _ _ _ _ _ _ _ _ _ H Hw) as (g' & Hg' & Hgo). simplify_eq. destruct (frame_target _ _ _ _ _ Hgo) as [Ta Tk Ts Td].
  pose proof (md_extends _ _ _ _ Hm) as X1. assert (live b1) as L1 by (eapply made_live; [apply H|exact Hm]).
  assert (known b1 (br_destination g)) as Tk1 by (by apply (extends_known _ _ _ X1)).
  assert (~ sealed b1 (br_destination g)) as Ts1 by (by rewrite (md_sealed _ _ _ _ Hm)).
  assert (Forall2 (repr b1) args (declared b1 (br_destination g))) as Ha1.
  { rewrite (md_declared _ _ _ _ Hm), Td by done. by apply (extends_reprs _ _ _ _ X1). }
  assert (~ sealed b1 k) as Ks by (rewrite (md_sealed _ _ _ _ Hm); apply (md_unsealed _ _ _ _ Hm)).
  assert (Forall2 (repr b1) [] (declared b1 k)) as Hn by (by rewrite (md_params _ _ _ _ Hm)).
  assert (has_type b1 c ir.I32) as Hc1 by (by apply (ex_types _ _ (proj1 X1))).
  destruct Ho as [Ho|Ho]; simplify_eq; eapply (wp_brif _ _ _ _ _ _ ir.I32); cbn [bld]; try done; try (by apply live_open); apply (md_known _ _ _ _ Hm).
Qed.

Lemma step_br_on_null depth : live_step (translate_br_on_null dbg depth) (Operator.BrOnNull depth).
Proof.
  intros t v vs vs' Hl [Hb Hfb] Hbt Hv Hht. destruct (live_here _ _ _ _ _ _ _ _ Hl) as (f & fs & under & base & seg & tys & H).
  lazy [FuncValid.vstep_raw] in Hv. inv_some. destruct (label_inv _ _ _ Hx) as (d & w & -> & Hw & ->).
  destruct (vpop_any_alive _ _ _ _ (h_alive _ _ _ _ _ _ _ _ _ _ _ _ _ _ H) Hx0) as (r1 & ty & -> & -> & Ha1). cbn in Ec.
  destruct (vpops_alive _ _ _ _ Ha1 Hx1) as (rest & -> & Ha2).
  destruct (here_lookup _ _ _ _ _ _ _ _ _ _ _ _ _ _ _ _ H Hw) as (g & Hg & Hgo).
  destruct (here_split _ _ _ _ _ _ _ _ _ _ _ _ _ _ _ H) as (s1 & c & -> & Hs1 & Hc & Hst & _).
  apply Forall2_cons_inv_r in Hc as (r & ? & Hrr & ->%Forall2_nil_inv_r & ->). pose proof (repr_scalar _ _ _ (int_scalar _ Ec) Hrr) as Hrv.
  destruct (Forall2_app_inv_r _ _ Hs1) as (sr & args & Hsr & Ha & ->).
  apply wp_bind. eapply wp_pop1; [exact Hst|]. apply wp_bind.
  eapply (br_args _ _ _ _ _ t [] f fs v vs under base _ _ w d g _ _ H); [done|apply mark_none, H|done|done|done|cbn; by rewrite app_assoc| |exact Ha|].
  { cbn. rewrite Hst, pm_len_app in Hb. unfold pm_len in *. cbn in *. lia. }
  intros t2 E1 E2 E3 E4 E5. cbn in E3, E4. cbn [fst snd]. apply wp_bind.
  eapply emits_wp; [apply (emits_is_null _ ty); rewrite ?E1; [apply live_open, H|done|done]|]. intros n t3 Hs3 He3 Hn. rewrite E1 in Hs3.
  pose proof (here_emitted _ _ _ _ _ _ _ _ _ _ H Hs3) as H3. assert (Forall2 (repr (bld t3)) args (label_types w)) as Ha3 by (by eapply straight_reprs).
  apply wp_bind, wp_create_block. intros k b4 Hm. apply wp_bind.
  eapply (wp_br_on_brif (mkT (bld t3) (st t)) f fs v vs under base _ _ d g w args n _ k b4 _ _ _ _ _ _ H3); [done|done|done|done|done|by left|].
  intros j b5 Hbr. apply wp_bind. eapply wp_mono.
  { eapply (wp_fall _ _ _ _ _ (mkT (bld t3) (st t)) f fs v vs under base _ _ _ _ _ _ _ _ (fun _ t' => exists b', t' = mkT b' (st t3) /\
      evolves (frame_blocks (f :: fs)) (bld t3) b' /\ live b' /\ tight b' (headers (f :: fs)) /\ (is_loop g = false -> firm b' g)) H3 Hm Hbr).
    - right. left.
    - intros b' V L T Hfi. exists b'. split_and!; try done. apply (Hfi _ _ Hg). left. }
  intros [] t6 Hw6. apply wp_bind. eapply wp_mono; [exact Hw6|]. intros [] t7 (b' & -> & V & L & T & Hfi). apply wp_push. left.
  eapply (go_on _ _ _ _ _ (mkT (bld t3) (st t)) _ f fs v _ vs _ _ _ _ [d] ((sr ++ args) ++ [r]) _ H3); try done; cbn [bld st] in *.
  - frames_same.
  - unfold frames. cbn. rewrite He3. exact E2.
  - intros i g' ->%list_elem_of_singleton Hg' Hlo. simplify_eq. by apply Hfi.
  - cbn. rewrite He3, E4. apply H.
  - cbn. by rewrite He3.
  - cbn. rewrite He3, E3, <- !app_assoc. reflexivity.
  - apply alive_push1, alive_push, Ha2.
  - eapply extends_reprs; [apply V|]. eapply straight_reprs; [exact Hs3|]. apply Forall2_app; [by apply Forall2_app|by constructor].
Qed.

Lemma here_last t f fs v vs under base seg tys rest ts ty : here t f fs v vs under base seg tys -> tys = rest ++ ts -> list.last ts = Some ty ->
  exists sr args r, seg = sr ++ args ++ [r] /\ Forall2 (repr (bld t)) sr rest /\ Forall2 (repr (bld t)) (args ++ [r]) ts /\ repr (bld t) r ty.
Proof.
  intros H -> Hl. destruct (here_split _ _ _ _ _ _ _ _ _ _ _ _ _ _ _ H) as (sr & a & -> & Hsr & Ha & _).
  apply last_Some in Hl as [l ->]. pose proof Ha as Ha'. apply Forall2_app_inv_r in Ha' as (args & c & Hargs & Hc & ->).
  apply Forall2_cons_inv_r in Hc as (r & ? & Hr & ->%Forall2_nil_inv_r & ->). by exists sr, args, r.
Qed.
Lemma step_br_on_non_null depth : live_step (translate_br_on_non_null dbg depth) (Operator.BrOnNonNull depth).
Proof.
  intros t v vs vs' Hl [Hb Hfb] Hbt Hv Hht. destruct (live_here _ _ _ _ _ _ _ _ Hl) as (f & fs & under & base & seg & tys & H).
  lazy [FuncValid.vstep_raw] in Hv. inv_some. destruct (label_inv _ _ _ Hx) as (d & w & -> & Hw & ->).
  destruct (vpops_alive _ _ _ _ (h_alive _ _ _ _ _ _ _ _ _ _ _ _ _ _ H) Hx1) as (rest & -> & Ha2).
  destruct (here_lookup _ _ _ _ _ _ _ _ _ _ _ _ _ _ _ _ H Hw) as (g & Hg & Hgo).
  destruct (here_last _ _ _ _ _ _ _ _ _ _ _ _ H eq_refl Hx0) as (sr & args & r & -> & Hsr & Ha & Hrr).
  pose proof (repr_scalar _ _ _ (int_scalar _ Ec) Hrr) as Hrv. pose proof (h_stack _ _ _ _ _ _ _ _ _ _ _ _ _ _ H) as Hst.
  rewrite 2 app_assoc in Hst. apply wp_bind. eapply (wp_peek _ r); [unfold peek1; by rewrite Hst, last_snoc|]. apply wp_bind.
  eapply emits_wp; [eapply emits_is_null; [apply live_open, H|exact Hrv|done]|]. intros n t1 Hs1 He1 Hn.
  pose proof (here_emitted _ _ _ _ _ _ _ _ _ _ H Hs1) as H1.
  assert (Forall2 (repr (bld t1)) (args ++ [r]) (label_types w)) as Ha1 by (by eapply straight_reprs). rewrite <- He1 in H1.
  destruct t1 as [b1 s1]. cbn [bld st] in *. subst s1. apply wp_bind.
  eapply (br_args _ _ _ _ _ _ [] f fs v vs under base _ _ w d g _ _ H1); [done|apply mark_none, H1|done|done|done| |exact Hb|exact Ha1|].
  { cbn [st]. by rewrite Hst, <- app_assoc. }
  intros t2 E1 E2 E3 E4 E5. cbn [bld st] in E1, E3, E4, E5. cbn [fst snd]. apply wp_bind, wp_create_block. intros k b4 Hm. rewrite E1 in Hm. apply wp_bind.
  eapply (wp_br_on_brif _ f fs v vs under base _ _ d g w (args ++ [r]) n _ k b4 _ _ _ _ _ _ H1); [done|done|done|done|done|by right|].
  intros j b5 Hbr. apply wp_bind. eapply wp_pop1; cbn [bld st]; [by rewrite E3|]. apply wp_bind.
  eapply (wp_fall _ _ _ _ _ _ f fs v vs under base _ _ _ _ _ _ _ _ _ H1 Hm Hbr); [left|]. intros b' V L T Hfi. left.
  eapply (go_on _ _ _ _ _ _ _ f fs v _ vs _ _ _ _ [d] (sr ++ args) (rest ++ take (length (label_types w) - 1) (label_types w)) H1); try done; cbn [bld st] in *.
  - frames_same.
  - intros i g' ->%list_elem_of_singleton Hg' Hlo. simplify_eq. apply (Hfi _ _ Hg); [right; left|done].
  - cbn. rewrite E4. apply H.
  - cbn. by rewrite app_assoc.
  - apply alive_push, Ha2.
  - apply Forall2_app; [eapply extends_reprs; [apply V|]; by eapply straight_reprs|]. rewrite <- (Forall2_length Ha1), length_app, Nat.add_sub.
    eapply extends_reprs; [apply V|]. rewrite <- (take_app_length args [r]) at 1. by apply Forall2_take.
Qed.
End BrOn.
