(* ===== verification/CtlModule.v ===== *)
(** * Reachable code: entities of the module

    Globals and direct calls.  [near t0 pre ws t]: since [t0] straight-line code
    has been emitted and entities have been cached; the stack is [pre] and the
    values [ws] of the operator at hand. *)
From stdpp Require Import base list gmap option numbers.
From S2P Require Import Prelude Types Trap Module ModuleTypes VMOffsets HeapAccess Clif ClifLaws FuncState WasmOp FuncEnv CodeTranslator CodeTranslatorCtl CodeTranslatorOps WasmTyping FuncValid CtlEnv OpTyping CtlInv CtlSim CtlSteps CtlDead CtlLive CtlBranch CtlOps.
Local Open Scope Z_scope.

Section Entities.
Context {B : Type} {FB : FunctionBuilder B} {BV : BuilderView B} {LAWS : FunctionBuilderLaws B} {TC : TrapCodes}.
Context (dbg : bool) (env : TranslationEnvironment) (locals results : list ir.Type_).
Context (EO : env_ok env).
Abbreviation M := (SM (TState B) Error).
Abbreviation world := (world dbg env locals results).
Abbreviation runs := (runs dbg env locals results).
Abbreviation module := (env_module env).

Record near (t0 : TState B) (pre ws : list Value) (t : TState B) : Prop := {
  n_world : world t; n_straight : straight (bld t0) (bld t);
  n_control : control_stack (st t) = control_stack (st t0); n_reachable : reachable (st t) = reachable (st t0);
  n_stack : stack (st t) = pre ++ ws; n_open : open (bld t) }.
(** How an operator on [vs] ends. *)
Definition ends (t0 : TState B) (pre vs : list Value) (outs : list ir.Type_) (t : TState B) : Prop :=
  control_stack (st t) = control_stack (st t0) /\ world t /\ (fell_through t0 t pre outs \/ trapped t0 t pre vs).

Lemma near_runs m ins outs :
  (forall t0 t pre vs, near t0 pre vs t -> pm_len (pre ++ vs) < max_height -> Forall2 (repr (bld t)) vs ins ->
     wp m t (fun _ => ends t0 pre vs outs)) -> runs m ins outs.
Proof.
  intros Hm t pre vs W Ho Hs Hl Hv. rewrite Hs in Hl. apply Hm; [|done..]. by split.
Qed.
Lemma near_ends t0 pre ws vs outs t : near t0 pre ws t -> Forall2 (repr (bld t)) ws outs -> ends t0 pre vs outs t.
Proof. intros [W S C R K O] Hv. split; [done|]. split; [done|]. left. split; [done|done|]. by exists ws. Qed.
Lemma near_trap {A} (k : Inst -> M A) t0 pre ws t code (Q : A -> TState B -> Prop) : near t0 pre ws t ->
  (forall j t', control_stack (st t') = control_stack (st t0) -> stack (st t') = pre ++ ws -> world t' ->
     branched [] j (bld t0) (bld t') -> wp (k j) t' Q) -> wp (insi (TrapOp code) ≫= k) t Q.
Proof.
  intros [W S C R K O] Hk. destruct (law_build (bld t) (TrapOp code) [] O) as (j & b' & Hb & X & _ & Hf); [done|].
  apply wp_bind. eapply wp_onb; [exact Hb|]. apply (Hk j); cbn; try done; [by eapply world_extends|by apply (straight_branched _ _ _ _ _ S X Hf)].
Qed.
Lemma ends_trapped t0 pre ws vs outs j t : control_stack (st t) = control_stack (st t0) -> stack (st t) = pre ++ ws -> world t ->
  branched [] j (bld t0) (bld t) -> pm_len ws <= pm_len vs -> wp (upd (set_reachable false)) t (fun _ => ends t0 pre vs outs).
Proof.
  intros C K W Hb Hl. apply wp_upd. split; [done|]. split; [by eapply world_extends; [exact W|apply extends_refl|]|].
  right. split; [done|by exists j|by exists ws].
Qed.

(** ** Steps *)
Lemma near_steps {A C} (m : M A) (k : A -> M C) t0 pre ws ws' t P Q : steps m ws ws' t P -> near t0 pre ws t ->
  (forall a t', straight (bld t) (bld t') -> near t0 pre ws' t' -> P (bld t') a -> wp (k a) t' Q) -> wp (m ≫= k) t Q.
Proof.
  intros Hm [W S Cs R K O] Hk. apply wp_bind. eapply wp_mono; [apply (Hm (bld t) (st t) pre)|].
  - split; [apply straight_refl|]. split; [|done]. rewrite <- K. by destruct (st t).
  - intros a t' (Hs & (_ & He & Ho) & Hp). apply Hk; [done| |done]. split; rewrite ?He; try done.
    + eapply world_extends; [exact W|apply (sl_extends _ _ Hs)|by rewrite He].
    + by eapply straight_trans.
Qed.
Lemma near_emits {A C} (m : M A) (k : A -> M C) t0 pre ws t P Q : emits m t P -> near t0 pre ws t ->
  (forall a t', straight (bld t) (bld t') -> near t0 pre ws t' -> P (bld t') a -> wp (k a) t' Q) -> wp (m ≫= k) t Q.
Proof. intros Hm. eapply near_steps. by apply steps_emits. Qed.
Lemma near_insi {C} i (k : Inst -> M C) t0 pre ws t tys Q : inst_ok (bld t) i tys -> is_terminator i = false -> near t0 pre ws t ->
  (forall j t', straight (bld t) (bld t') -> near t0 pre ws t' -> Forall2 (has_type (bld t')) (inst_results (bld t') j) tys -> wp (k j) t' Q) ->
  wp (insi i ≫= k) t Q.
Proof. intros Hi Ht Hn. apply (near_emits _ _ _ _ _ _ (fun b j => Forall2 (has_type b) (inst_results b j) tys)); [|done]. apply emits_insi; [apply Hn|done|done]. Qed.
Lemma near_ins1 {C} i (k : Value -> M C) t0 pre ws t ty Q : inst_ok (bld t) i [ty] -> is_terminator i = false -> near t0 pre ws t ->
  (forall v t', straight (bld t) (bld t') -> near t0 pre ws t' -> has_type (bld t') v ty -> wp (k v) t' Q) -> wp (ins1 i ≫= k) t Q.
Proof. intros Hi Ht Hn. apply (near_emits _ _ _ _ _ _ (fun b v => has_type b v ty)); [|done]. apply emits_ins1; [apply Hn|done|done]. Qed.
Lemma near_push t0 pre ws t v vs tys ty : near t0 pre ws t -> Forall2 (repr (bld t)) ws tys -> repr (bld t) v ty ->
  wp (push v) t (fun _ => ends t0 pre vs (tys ++ [ty])).
Proof.
  intros [W S C R K O] Hw Hv. apply wp_push. eapply (near_ends _ _ (ws ++ [v])).
  - split; cbn; try done; [by eapply world_extends; [exact W|apply extends_refl|]|]. by rewrite K, app_assoc.
  - cbn. apply Forall2_app; [done|]. by constructor.
Qed.
Lemma near_restack t0 pre ws ws' t s : near t0 pre ws t -> s = set_stack (pre ++ ws') (st t) -> near t0 pre ws' (mkT (bld t) s).
Proof. intros [W S C R K O] ->. split; cbn; try done. by eapply world_extends; [exact W|apply extends_refl|]. Qed.

(** ** Globals *)
Lemma near_global {C} i ty (k : CraneliftGlobal -> M C) t0 pre ws t Q : global_type env i = Some ty -> near t0 pre ws t ->
  (forall gv off t', bld t' = bld t -> near t0 pre ws t' -> wp (k (CG_Memory gv off ty)) t' Q) -> wp (get_global dbg env i ≫= k) t Q.
Proof.
  intros Hi Hn Hk. pose proof Hn as [W S Cs R K O]. destruct (global_made dbg env EO i ty Hi) as (gv & off & Hg).
  apply wp_bind, wp_bind, wp_get. destruct (st_globals (st t) !! i) as [g|] eqn:E.
  - apply wp_ret. pose proof (w_globals _ _ _ _ _ W _ _ E) as H. rewrite Hg in H. injection H as <-. by apply Hk.
  - apply wp_bind. eapply wp_lift; [exact Hg|]. apply wp_bind, wp_upd, wp_ret, Hk; [done|]. split; cbn; try done.
    destruct W as []. split; cbn; try done. intros j g [[<- <-]|[_ Hj]]%lookup_insert_Some; [done|by eauto].
Qed.
Lemma global_canon i ty : global_type env i = Some ty -> canon ty = ty.
Proof. intros (g & _ & H)%bind_Some. destruct (gd_shared g); [done|]. by eapply value_type_canon, ok_inv. Qed.
Lemma global_get_runs i ty : global_type env i = Some ty -> runs (translate_global_get dbg env i) [] [ty].
Proof.
  intros Hi. apply near_runs. intros t0 t pre vs Hn Hl ->%Forall2_nil_inv_r. eapply near_global; [done|exact Hn|]. intros gv off t1 Eb Hn1.
  apply wp_assoc. eapply near_ins1; [done|done|exact Hn1|]. intros a t2 Hs2 Hn2 Ha.
  eapply near_ins1; [done|done|exact Hn2|]. intros v t3 Hs3 Hn3 Hv.
  eapply (near_push _ _ [] _ _ _ []); [done|constructor|]. exists ty. split; [done|by eapply global_canon].
Qed.
Lemma global_set_runs i ty : global_type env i = Some ty -> runs (translate_global_set dbg env i) [ty] [].
Proof.
  intros Hi. apply near_runs. intros t0 t pre vs Hn Hl (v & ? & Hv & ->%Forall2_nil_inv_r & ->)%Forall2_cons_inv_r.
  eapply near_global; [done|exact Hn|]. intros gv off t1 Eb Hn1. rewrite <- Eb in Hv.
  eapply near_ins1; [done|done|exact Hn1|]. intros a t2 Hs2 Hn2 Ha.
  eapply near_steps; [exact (steps_pop1 [] v t2)|exact Hn2|]. intros ? t3 Hs3 Hn3 ->.
  assert (repr (bld t3) v ty) as Hv3 by (eapply straight_repr; [exact Hs3|by eapply straight_repr]).
  eapply (near_emits _ _ _ _ _ _ (fun b v => has_type b v ty)); [|exact Hn3|].
  { destruct (ir.is_vector ty) eqn:E; [|by apply emits_ret, repr_scalar]. assert (ty = ir.I8X16) as ->.
    { pose proof (global_canon _ _ Hi). by destruct ty. } apply emits_cast; [apply Hn3|done|done]. }
  intros v' t4 Hs4 Hn4 Hv'. eapply near_emits; [by apply emits_type|exact Hn4|]. intros ? t5 Hs5 Hn5 ->.
  apply wp_bind. apply wp_debug_assert; [by rewrite bool_decide_eq_true_2|].
  eapply near_insi; [|done|exact Hn5|].
  { exists ty. split; [|split; [by eapply straight_type|done]].
    eapply straight_type; [exact Hs5|]. eapply straight_type; [exact Hs4|]. by eapply straight_type. }
  intros j t6 Hs6 Hn6 _. apply wp_ret. by eapply near_ends.
Qed.

(** ** Functions and signatures *)
Lemma direct_shape i s : direct_sig env i = Some s -> exists ps rs, s = ir.mkSignature (blank_sig ++ (normal <$> ps)) (normal <$> rs) /\
  Forall (fun t => canon t = t) ps /\ Forall (fun t => canon t = t) rs.
Proof.
  intros (f & _ & (ty & _ & (ft & _ & H)%bind_Some)%bind_Some)%bind_Some. by eapply call_signature_shape, ok_inv.
Qed.
Lemma indirect_shape i s : indirect_sig env i = Some s -> exists ps rs, s = ir.mkSignature (blank_sig ++ (normal <$> ps)) (normal <$> rs) /\
  Forall (fun t => canon t = t) ps /\ Forall (fun t => canon t = t) rs.
Proof. intros (ty & _ & (ft & _ & H)%bind_Some)%bind_Some. by eapply call_signature_shape, ok_inv. Qed.
Lemma shape_sig ps rs : call_sig (ir.mkSignature (blank_sig ++ (normal <$> ps)) (normal <$> rs)) = (ps, rs).
Proof. unfold call_sig. cbn. fold (param_types (normal <$> ps)) (param_types (normal <$> rs)). by rewrite !normal_types. Qed.

(** Imports into the function being built. *)
Lemma near_import_signature {C} s (k : Z -> M C) t0 pre ws t Q : near t0 pre ws t ->
  (forall r t', straight (bld t) (bld t') -> near t0 pre ws t' -> dfg_signature (bld t') r = Some s -> wp (k r) t' Q) ->
  wp (onb (import_signature s) ≫= k) t Q.
Proof.
  intros Hn. destruct (law_import_signature (bld t) s) as (r & b' & Hi & X & F & Hr).
  eapply (near_emits _ _ _ _ _ _ (fun b r => dfg_signature b r = Some s)); [|exact Hn].
  eapply wp_onb; [exact Hi|]. split; [by apply same_flow_straight|done].
Qed.
Lemma near_import_function {C} f s (k : Z -> M C) t0 pre ws t Q : dfg_signature (bld t) (ir.ef_signature f) = Some s -> near t0 pre ws t ->
  (forall r t', straight (bld t) (bld t') -> near t0 pre ws t' -> dfg_ext_func (bld t') r = Some f -> wp (k r) t' Q) ->
  wp (onb (import_function f) ≫= k) t Q.
Proof.
  intros Hf Hn. destruct (law_import_function (bld t) f s Hf) as (r & b' & Hi & X & F & Hr).
  eapply (near_emits _ _ _ _ _ _ (fun b r => dfg_ext_func b r = Some f)); [|exact Hn].
  eapply wp_onb; [exact Hi|]. split; [by apply same_flow_straight|done].
Qed.
Lemma near_direct {C} i s (k : Z * Z -> M C) t0 pre ws t Q : direct_sig env i = Some s -> near t0 pre ws t ->
  (forall fref f t', straight (bld t) (bld t') -> near t0 pre ws t' -> dfg_ext_func (bld t') fref = Some f ->
     dfg_signature (bld t') (ir.ef_signature f) = Some s -> wp (k (fref, num_wasm_parameters s)) t' Q) ->
  wp (get_direct_func env i ≫= k) t Q.
Proof.
  intros Hi Hn Hk. apply wp_assoc, wp_bind, wp_get. destruct (st_functions (st t) !! i) as [[fref n]|] eqn:E.
  - destruct (w_functions _ _ _ _ _ (n_world _ _ _ _ Hn) _ _ E) as (f & s' & Hf & Hs & Hi' & Hr). simplify_eq/=.
    apply wp_bind, wp_ret. eapply Hk; [apply straight_refl|done..].
  - apply wp_assoc. unfold make_direct_func. pose proof Hi as (f & Hf & (ty & Hty & (ft & Hft%ok_inv & Hsig%ok_inv)%bind_Some)%bind_Some)%bind_Some.
    destruct (function_defined env EO i f Hf) as (d & Hd). 
    do 4 (apply wp_assoc, wp_bind; eapply wp_lift; [first [exact Hft|exact Hsig|unfold pm_index; by rewrite ?Hf, ?Hty]|]). apply wp_assoc. eapply near_import_signature; [exact Hn|]. intros sr t1 Hs1 Hn1 Hsr.
    apply wp_assoc, wp_bind. eapply wp_lift; [exact Hd|]. eapply near_import_function; [exact Hsr|exact Hn1|]. intros fref t2 Hs2 Hn2 Hfr.
    assert (dfg_signature (bld t2) sr = Some s) as Hsr2 by (by apply (ex_sigs _ _ (proj1 (sl_extends _ _ Hs2)))).
    apply wp_assoc, wp_bind, wp_query. apply wp_assoc, wp_bind. eapply wp_lift; [by rewrite Hfr|]. cbn [ir.ef_signature].
    apply wp_assoc, wp_bind, wp_query. apply wp_assoc, wp_bind. eapply wp_lift; [by rewrite Hsr2|].
    apply wp_assoc, wp_bind, wp_upd, wp_bind, wp_ret. eapply Hk; cbn; [by eapply straight_trans| |done|done].
    destruct Hn2 as [W S Cs R K O]. split; cbn; try done. destruct W as []. split; cbn; try done.
    intros j r [[<- <-]|[_ Hj]]%lookup_insert_Some; [by eexists _, _|by eauto].
Qed.
Lemma near_indirect {C} i s (k : Z * Z -> M C) t0 pre ws t Q : indirect_sig env i = Some s -> near t0 pre ws t ->
  (forall r t', straight (bld t) (bld t') -> near t0 pre ws t' -> dfg_signature (bld t') r = Some s -> wp (k (r, num_wasm_parameters s)) t' Q) ->
  wp (get_indirect_sig env i ≫= k) t Q.
Proof.
  intros Hi Hn Hk. apply wp_assoc, wp_bind, wp_get. destruct (signatures (st t) !! i) as [[r n]|] eqn:E.
  - destruct (w_signatures _ _ _ _ _ (n_world _ _ _ _ Hn) _ _ E) as (s' & Hs & Hi' & Hr). simplify_eq/=.
    apply wp_bind, wp_ret. eapply Hk; [apply straight_refl|done..].
  - apply wp_assoc. unfold make_indirect_sig. pose proof Hi as (ty & Hty & (ft & Hft%ok_inv & Hsig%ok_inv)%bind_Some)%bind_Some.
    do 3 (apply wp_assoc, wp_bind; eapply wp_lift; [first [exact Hft|exact Hsig|unfold pm_index; by rewrite ?Hty]|]). eapply near_import_signature; [exact Hn|]. intros sr t1 Hs1 Hn1 Hsr.
    apply wp_assoc, wp_bind, wp_query. apply wp_assoc, wp_bind. eapply wp_lift; [by rewrite Hsr|].
    apply wp_assoc, wp_bind, wp_upd, wp_bind, wp_ret. eapply Hk; cbn; [done| |done].
    destruct Hn1 as [W S Cs R K O]. split; cbn; try done. destruct W as []. split; cbn; try done.
    intros j r [[<- <-]|[_ Hj]]%lookup_insert_Some; [by eexists _|by eauto].
Qed.

(** ** Calls *)
Abbreviation shape ps rs := (ir.mkSignature (blank_sig ++ (normal <$> ps)) (normal <$> rs)).
Lemma near_arguments {C} r ps rs vs (k : list Value -> M C) t0 pre t Q : dfg_signature (bld t) r = Some (shape ps rs) -> near t0 pre vs t ->
  Forall2 (repr (bld t)) vs ps ->
  (forall args t', straight (bld t) (bld t') -> near t0 pre args t' -> Forall2 (has_type (bld t')) args ps -> wp (k args) t' Q) ->
  wp (args ← bitcast_wasm_params r vs; _ ← upd (write_top args); k args) t Q.
Proof.
  intros Hr Hn Hv Hk. eapply (near_emits _ _ _ _ _ _ (fun b args => Forall2 (has_type b) args ps)); [|exact Hn|].
  - apply wp_bind, wp_query, wp_bind. eapply wp_lift; [by rewrite Hr|]. apply emits_arguments; [apply Hn|done|apply selected_wasm].
  - intros args t1 Hs1 Hn1 Ha. apply wp_bind, wp_upd, Hk; [done| |done]. eapply near_restack; [exact Hn1|].
    unfold write_top. rewrite (n_stack _ _ _ _ Hn1). apply Forall2_length in Ha as Hla. apply Forall2_length in Hv.
    replace (length (pre ++ vs) - length args)%nat with (length pre) by (rewrite length_app; lia). by rewrite take_app_length.
Qed.
Lemma near_finish call r ps rs args vs t0 pre t n : dfg_signature (bld t) r = Some (shape ps rs) -> near t0 pre args t ->
  pm_len (pre ++ args) < max_height -> n = pm_len args -> Forall (fun t => canon t = t) rs -> Forall2 (has_type (bld t)) (inst_results (bld t) call) rs ->
  wp (finish_call dbg call r n) t (fun _ => ends t0 pre vs rs).
Proof.
  intros Hr Hn Hl Hlen Hc Hv. apply wp_bind, wp_query, wp_bind, wp_query, wp_bind. eapply wp_lift; [by rewrite Hr|].
  apply wp_bind, wp_debug_assert.
  { apply Z.eqb_eq. cbn. unfold pm_len. rewrite length_fmap. f_equal. by eapply Forall2_length. }
  apply wp_bind. eapply wp_popn; [apply Hn|by rewrite (n_stack _ _ _ _ Hn)|done|]. apply wp_upd.
  eapply (near_ends _ _ (inst_results (bld t) call)); [|by apply types_repr]. by eapply (near_restack _ _ args _ t).
Qed.
Lemma near_caller {C} (k : Value -> M C) t0 pre ws t Q : near t0 pre ws t -> (forall v, has_type (bld t) v ir.I64 -> wp (k v) t Q) ->
  wp (caller_vmctx ≫= k) t Q.
Proof.
  intros Hn Hk. destruct (w_vmctx _ _ _ _ _ (n_world _ _ _ _ Hn)) as (v & Hv & Ht). apply wp_assoc, wp_bind, wp_query, wp_bind.
  eapply wp_lift; [by rewrite Hv|]. by apply Hk.
Qed.
Lemma near_load_ptr {C} flags base off o (k : Value -> M C) t0 pre ws t Q : off = Ok o -> offset32 o = Ok o -> has_type (bld t) base ir.I64 ->
  near t0 pre ws t -> (forall v t', straight (bld t) (bld t') -> near t0 pre ws t' -> has_type (bld t') v ir.I64 -> wp (k v) t' Q) ->
  wp (load_ptr flags base off ≫= k) t Q.
Proof.
  intros -> Ho Hb Hn. apply (near_emits _ _ _ _ _ _ (fun b v => has_type b v ir.I64)); [|exact Hn]. pose proof (n_open _ _ _ _ Hn).
  apply wp_bind. eapply wp_lift; [done|]. apply wp_bind. eapply wp_lift; [exact Ho|]. by apply emits_ins1.
Qed.
Lemma straight_types b b' vs tys : straight b b' -> Forall2 (has_type b) vs tys -> Forall2 (has_type b') vs tys.
Proof. intros Hs H. eapply list.Forall2_impl; [exact H|]. intros. by eapply straight_type. Qed.
Lemma straight_signature b b' r s : straight b b' -> dfg_signature b r = Some s -> dfg_signature b' r = Some s.
Proof. intros Hs. apply (ex_sigs _ _ (proj1 (sl_extends _ _ Hs))). Qed.
Lemma shape_args (b : B) v w args ps : has_type b v ir.I64 -> has_type b w ir.I64 -> Forall2 (has_type b) args ps ->
  Forall2 (has_type b) (v :: w :: args) (param_types (blank_sig ++ (normal <$> ps))).
Proof.
  intros Hv Hw Ha. cbn. fold (param_types (normal <$> ps)). rewrite normal_types. by repeat constructor.
Qed.
Lemma call_indirect_ok b r addr v w args ps rs : dfg_signature b r = Some (shape ps rs) -> has_type b addr ir.I64 -> has_type b v ir.I64 ->
  has_type b w ir.I64 -> Forall2 (has_type b) args ps -> inst_ok b (CallIndirectOp r addr (v :: w :: args)) rs.
Proof. intros Hr Ha Hv Hw Hargs. eexists. split; [exact Hr|]. split; [done|]. split; [by apply shape_args|]. cbn. by rewrite normal_types. Qed.

Lemma near_direct_call {C} i fref f ps rs args (k : Inst -> M C) t0 pre t Q : is_Some (pm_get (functions module) i) -> dfg_ext_func (bld t) fref = Some f ->
  dfg_signature (bld t) (ir.ef_signature f) = Some (shape ps rs) -> near t0 pre args t -> Forall2 (has_type (bld t)) args ps ->
  (forall j t', straight (bld t) (bld t') -> near t0 pre args t' -> Forall2 (has_type (bld t')) (inst_results (bld t') j) rs -> wp (k j) t' Q) ->
  wp (direct_call env i fref args ≫= k) t Q.
Proof.
  intros [fd Hi] Hf Hsig Hn Ha Hk. apply pm_get_range in Hi as [Hi _]. apply wp_assoc. eapply near_caller; [exact Hn|]. intros v Hv. destruct (is_imported_func module i) eqn:E; cbn [negb].
  2:{ eapply near_insi; [|done|exact Hn|exact Hk]. eexists f, _. split; [done|]. split; [exact Hsig|].
      split; [by apply shape_args|cbn; by rewrite normal_types]. }
  destruct (import_at env EO i 0 0) as (y & Hy & Hoy); [done|done|done|lia|]. destruct (import_at env EO i 2 16) as (z & Hz & Hoz); [done|done|done|lia|].
  apply wp_assoc, wp_bind, wp_query. apply wp_assoc, wp_bind. eapply wp_lift; [by rewrite Hf|].
  apply wp_assoc. eapply near_ins1; [done|done|exact Hn|]. intros base t1 Hs1 Hn1 Hb.
  apply wp_assoc. eapply near_load_ptr; [exact Hy|done|done|exact Hn1|]. intros fa t2 Hs2 Hn2 Hfa.
  apply wp_assoc. eapply near_load_ptr; [exact Hz|done|by eapply straight_type|exact Hn2|]. intros ctx t3 Hs3 Hn3 Hctx.
  assert (straight (bld t) (bld t3)) as Hs by (eapply straight_trans; [exact Hs1|by eapply straight_trans]).
  eapply near_insi; [|done|exact Hn3|]; [eapply call_indirect_ok; [by eapply straight_signature|by eapply (straight_type _ _ _ _ Hs3)|done|by eapply (straight_type _ _ _ _ Hs)|by eapply straight_types]|].
  intros j t4 Hs4 Hn4 Hj. apply Hk; [by eapply straight_trans|done|done].
Qed.
Lemma call_runs i s : direct_sig env i = Some s -> runs (translate_call dbg env i) (call_sig s).1 (call_sig s).2.
Proof.
  intros Hi. destruct (direct_shape _ _ Hi) as (ps & rs & -> & Hps & Hrs). rewrite shape_sig. cbn [fst snd].
  apply near_runs. intros t0 t pre vs Hn Hl Hv. eapply near_direct; [exact Hi|exact Hn|]. intros fref f t1 Hs1 Hn1 Hf Hsig. cbn [fst snd]. rewrite num_wasm.
  pose proof (pm_len_Forall2 _ _ _ Hv) as Hlen. apply wp_bind. eapply wp_peekn; [apply Hn1|by rewrite (n_stack _ _ _ _ Hn1)|done|].
  apply wp_bind, wp_query, wp_bind. eapply wp_lift; [by rewrite Hf|]. eapply near_arguments; [exact Hsig|exact Hn1|by eapply straight_reprs|].
  intros args t2 Hs2 Hn2 Ha. pose proof (pm_len_Forall2 _ _ _ Ha) as Hla. eapply near_direct_call; [|by apply (ex_funcs _ _ (proj1 (sl_extends _ _ Hs2)))|by eapply straight_signature|exact Hn2|done|].
  { apply bind_Some in Hi as (fd & Hi & _). by eexists. }
  intros j t3 Hs3 Hn3 Hj. eapply near_finish; [|exact Hn3| |done|done|done].
  - eapply straight_signature; [exact Hs3|]. by eapply straight_signature.
  - rewrite pm_len_app in *. lia.
Qed.
End Entities.
