(* ===== verification/CtlMemory.v ===== *)
(** * Reachable code: memory and tables

    Loads and stores of 32-bit memories, and calls through tables of functions.
    The code of [memory.rs] is replayed on the builder: for these memories it is
    either a trap or a sum of the base and the extended index. *)
From stdpp Require Import base list gmap option numbers.
From S2P Require Import Prelude Types Trap Module ModuleTypes VMOffsets HeapAccess Clif ClifLaws FuncState WasmOp FuncEnv CodeTranslator CodeTranslatorCtl CodeTranslatorOps WasmTyping FuncValid CtlEnv OpTyping CtlInv CtlSim CtlSteps CtlDead CtlLive CtlBranch CtlOps CtlModule.
Local Open Scope Z_scope.

(** ** The emitted instructions *)
Section Emitted.
Context {TC : TrapCodes}.

(** A memory of 4 GiB behind 32-bit indices. *)
Record memory_ok (target : TargetEnv) (m : CraneliftMemory) : Prop := {
  mo_index : cl_index_type m = I32_ty; mo_bound : cl_bound m = 2 ^ 32;
  mo_page : te_page_size_align_log2 target <= cl_page_size_log2 m; mo_guard : 0 <= cl_offset_guard_size m }.

Lemma bounds_check_emit target m size offset : memory_ok target m -> 0 <= offset < 2 ^ 32 -> 0 <= size <= 16 ->
  bounds_check_and_compute_addr target m 0%nat offset size (mkBuilder 1 []) =
    if 2 ^ 32 <? offset + size then (Ok Unreachable, mkBuilder 3 [I_uextend I64_ty 0%nat; I_trap HEAP_OUT_OF_BOUNDS])
    else (Ok (Reachable (addr_value 2 offset)), mkBuilder (S (addr_value 2 offset)) (I_uextend I64_ty 0%nat :: addr_insts (cl_base_gv m) 1 2 offset)).
Proof.
  intros [Hi Hb Hp Hg] Ho Hs. unfold bounds_check_and_compute_addr.
  unfold mbind at 1, sm_bind at 1. rewrite cast_emit, Hi, Hb. cbn [cast_value cast_count cast_insts app].
  unfold mbind at 1, sm_bind at 1, sm_lift at 1, add. rewrite ofits_intro by lia.
  unfold mbind at 1, sm_bind at 1, sm_lift at 1. rewrite (proj2 (Z.leb_le _ _)) by lia. cbn [assert_].
  destruct (Z.ltb_spec (2 ^ 32) (offset + size)); [done|]. rewrite bool_decide_eq_true_2, (proj2 (Z.leb_le _ _)); [|unfold saturating_add; lia|done].
  cbn [andb]. unfold mbind at 1, sm_bind at 1. by rewrite compute_addr_emit.
Qed.
Lemma prepare_addr_emit target m size offset : memory_ok target m -> 0 <= offset < 2 ^ 32 -> 0 <= size <= 16 ->
  prepare_addr target m 0%nat size offset (mkBuilder 1 []) =
    if 2 ^ 32 <? offset + size then (Ok Unreachable, mkBuilder 3 [I_uextend I64_ty 0%nat; I_trap HEAP_OUT_OF_BOUNDS])
    else (Ok (Reachable (heap_flags m, 0%nat, addr_value 2 offset)),
          mkBuilder (S (addr_value 2 offset)) (I_uextend I64_ty 0%nat :: addr_insts (cl_base_gv m) 1 2 offset)).
Proof.
  intros Hm Ho Hs. unfold prepare_addr. rewrite try_from_intro by lia. unfold mbind, sm_bind. rewrite bounds_check_emit by done.
  destruct (2 ^ 32 <? offset + size); [done|]. unfold heap_flags. by destruct (cl_memory_type m).
Qed.
Lemma table_prepare_addr_emit gv bound spectre : 0 <= bound < 2 ^ 32 ->
  table_prepare_addr (mkCraneliftTable gv bound 8) 0%nat I32_ty I64_ty spectre (mkBuilder 1 []) =
    let check := [I_iconst I32_ty bound; I_icmp UnsignedGreaterThanOrEqual 0%nat 1%nat] in
    if spectre then
      (Ok (8%nat, Some TRAP_TABLE_OUT_OF_BOUNDS), mkBuilder 9 (check ++
         [I_uextend I64_ty 0%nat; I_global_value gv; I_ishl_imm 3%nat 3; I_iadd 4%nat 5%nat; I_iconst I64_ty 0; I_select_spectre_guard 2%nat 7%nat 6%nat]))
    else
      (Ok (7%nat, None), mkBuilder 8 (check ++
         [I_trapnz 2%nat TRAP_TABLE_OUT_OF_BOUNDS; I_uextend I64_ty 0%nat; I_global_value gv; I_ishl_imm 4%nat 3; I_iadd 5%nat 6%nat])).
Proof.
  intros Hb. unfold table_prepare_addr, imm64. cbn [ct_bound]. rewrite (proj2 (sfits_spec 64 _)) by lia. by destruct spectre.
Qed.
End Emitted.

(** *** Their types

    Types of the values so far, [None] for an instruction without a result. *)
Definition inst_type (tys : list (option ir.Type_)) (i : inst) : option (option ir.Type_) :=
  let at_ x := tys !! x ≫= id in
  match i with
  | I_iconst ty _ => Some (Some (ir_ty ty))
  | I_global_value _ => Some (Some ir.I64)
  | I_uextend ty x => t ← at_ x; if ir.is_int t && (ir.bytes t <? ir.bytes (ir_ty ty)) then Some (Some (ir_ty ty)) else None
  | I_iadd x y => t ← at_ x; u ← at_ y; if bool_decide (t = u) && int_lanes t then Some (Some t) else None
  | I_iadd_imm x _ | I_band_imm x _ | I_ishl_imm x _ | I_imul_imm x _ => t ← at_ x; if ir.is_int t then Some (Some t) else None
  | I_icmp _ x y => t ← at_ x; u ← at_ y; if bool_decide (t = u) && int_lanes t then Some (Some (truth_type t)) else None
  | I_icmp_imm _ x _ => t ← at_ x; if ir.is_int t then Some (Some ir.I8) else None
  | I_select_spectre_guard c x y =>
      s ← at_ c; t ← at_ x; u ← at_ y; if ir.is_int s && bool_decide (t = u) then Some (Some t) else None
  | I_trapnz c _ => t ← at_ c; if ir.is_int t then Some None else None
  | I_uadd_overflow_trap _ _ _ | I_trap _ => None
  end.
Fixpoint insts_type (tys : list (option ir.Type_)) (l : list inst) : option (list (option ir.Type_)) :=
  match l with
  | [] => Some tys
  | i :: l => t ← inst_type tys i; insts_type (tys ++ [t]) l
  end.

Section Replay.
Context {B : Type} {FB : FunctionBuilder B} {BV : BuilderView B} {LAWS : FunctionBuilderLaws B} {TC : TrapCodes}.
Abbreviation M := (SM (TState B) Error).

Definition otyped (b : B) (v : Value) (t : option ir.Type_) : Prop := match t with Some t => has_type b v t | None => True end.
Definition results_of (t : option ir.Type_) : list ir.Type_ := match t with Some t => [t] | None => [] end.

Lemma lookup_typed b vs tys x t : Forall2 (otyped b) vs tys -> tys !! x ≫= id = Some t -> exists v, vs !! x = Some v /\ has_type b v t.
Proof.
  intros Hv (o & Hx & Ho)%bind_Some. destruct (Forall2_lookup_r _ _ _ _ _ Hv Hx) as (v & ? & H). unfold id in Ho. subst. by exists v.
Qed.
Lemma inst_type_ok b vs tys i t : Forall2 (otyped b) vs tys -> inst_type tys i = Some t ->
  exists d, inst_data vs i = Some d /\ inst_ok b d (results_of t) /\ is_terminator d = false.
Proof.
  intros Hv Hi. destruct i; cbn in Hi; try discriminate Hi.
  1,2: simplify_eq; eexists; split; [done|]; split; [|done]; try done; by exists []; destruct ty.
  all: repeat match type of Hi with mbind _ _ = Some _ => apply bind_Some in Hi as (? & [? [? ?]]%(lookup_typed _ _ _ _ _ Hv) & Hi) end.
  all: match type of Hi with (if ?c then _ else _) = Some _ => destruct c eqn:E; [|discriminate Hi] end; simplify_eq; cbn [inst_data]; unfold HeapAccess.Value in *.
  all: repeat match goal with H : _ !! _ = Some _ |- _ => rewrite H; clear H end; eexists; split; [reflexivity|]; split; [|done].
  all: rewrite ?andb_true_iff, ?bool_decide_eq_true in E.
  - eexists [_]. split; [by repeat constructor|]. cbn. destruct E as [-> E]. by destruct ty; rewrite E.
  - destruct E as [-> E]. eexists [_; _]. split; [by repeat constructor|]. cbn. by rewrite bool_decide_eq_true_2, E.
  - eexists [_]. split; [by repeat constructor|]. cbn. by rewrite E.
  - eexists [_]. split; [by repeat constructor|]. cbn. by rewrite E.
  - eexists [_]. split; [by repeat constructor|]. cbn. by rewrite E.
  - eexists [_]. split; [by repeat constructor|]. cbn. by rewrite E.
  - destruct E as [-> E]. by eexists.
  - by eexists.
  - destruct E as [E ->]. eexists [_; _; _]. split; [by repeat constructor|]. cbn. by rewrite bool_decide_eq_true_2, E.
  - by eexists.
Qed.
Lemma otyped_straight b b' vs tys : straight b b' -> Forall2 (otyped b) vs tys -> Forall2 (otyped b') vs tys.
Proof. intros Hs H. eapply list.Forall2_impl; [exact H|]. intros v [t|] Ht; [|done]. by eapply straight_type. Qed.
Lemma emits_replay l tys tys' vs t : open (bld t) -> insts_type tys l = Some tys' -> Forall2 (otyped (bld t)) vs tys ->
  emits (replay l vs) t (fun b vs' => Forall2 (otyped b) vs' tys').
Proof.
  revert tys vs t. induction l as [|i l IH]; intros tys vs t Ho Hl Hv; cbn in Hl |- *.
  - simplify_eq. by apply emits_ret.
  - apply bind_Some in Hl as (ty & Hi & Hl). destruct (inst_type_ok _ _ _ _ _ Hv Hi) as (d & Hd & Hok & Ht). rewrite Hd.
    apply wp_bind. eapply wp_lift; [done|]. 
    eapply (emits_bind _ _ _ (fun b k => Forall2 (has_type b) (inst_results b k) (results_of ty)) (fun b vs' => Forall2 (otyped b) vs' tys')); [by apply emits_insi|].
    intros k t1 Hs1 He1 Hk. apply wp_bind, wp_query.
    apply (IH (tys ++ [ty])); [by eapply straight_open|done|]. apply Forall2_app; [by eapply otyped_straight|]. constructor; [|constructor].
    destruct ty as [ty|]; [|done]. inversion Hk as [|v ty' ? ? Hv' ? Heq]; subst. done.
Qed.
End Replay.

Section Memory.
Context {B : Type} {FB : FunctionBuilder B} {BV : BuilderView B} {LAWS : FunctionBuilderLaws B} {TC : TrapCodes}.
Context (dbg : bool) (env : TranslationEnvironment) (locals results : list ir.Type_).
Context (EO : env_ok env).
Abbreviation M := (SM (TState B) Error).
Abbreviation world := (world dbg env locals results).
Abbreviation runs := (runs dbg env locals results).
Abbreviation near := (near dbg env locals results).
Abbreviation ends := (ends dbg env locals results).
Abbreviation module := (env_module env).

(** ** Linear memory *)
Lemma memory_access_inv a s s' : memory_access env a s = Some s' -> s' = s /\ 0 <= ma_offset a < 2 ^ 32 /\
  exists d, pm_get (memories module) (ma_memory a) = Some d /\ memory32 env d = true.
Proof.
  intros (d & Hd & H)%bind_Some. destruct (memory32 env d) eqn:Hm; [|done]. destruct (Z.leb_spec 0 (ma_offset a)); [|done].
  destruct (Z.ltb_spec (ma_offset a) (2 ^ 32)); [|done]. simplify_eq/=. split; [done|]. split; [done|]. by exists d.
Qed.
Lemma near_memory {C} i d (k : CraneliftMemory -> M C) t0 pre ws t Q : pm_get (memories module) i = Some d -> memory32 env d = true ->
  near t0 pre ws t -> (forall m t', bld t' = bld t -> near t0 pre ws t' -> memory_ok (env_target env) m -> wp (k m) t' Q) ->
  wp (get_memory dbg env i ≫= k) t Q.
Proof.
  intros Hi Hd Hn Hk. destruct (memory_made dbg env EO (enable_pcc env) i d Hi Hd) as (m & Hm & H1 & H2 & H3 & H4).
  apply memory32_inv in Hd as (_ & _ & _ & Hp & _ & Hg & _).
  assert (memory_ok (env_target env) m) as Hok by (split; congruence || lia).
  apply wp_bind, wp_bind, wp_get. destruct (st_memories (st t) !! i) as [m'|] eqn:E.
  - apply wp_ret. pose proof (w_memories _ _ _ _ _ (n_world _ _ _ _ _ _ _ _ Hn) _ _ E) as H. rewrite Hm in H. injection H as <-. by apply Hk.
  - apply wp_bind. eapply wp_lift; [exact Hm|]. apply wp_bind, wp_upd, wp_ret, Hk; [done| |done]. destruct Hn as [W S Cs R K O].
    split; cbn; try done. destruct W as []. split; cbn; try done. intros j g [[<- <-]|[_ Hj]]%lookup_insert_Some; [done|by eauto].
Qed.
Lemma addr_insts_type gv offset : exists tys, insts_type [Some ir.I32] (I_uextend I64_ty 0%nat :: addr_insts gv 1 2 offset) = Some tys /\
  tys !! 0%nat = Some (Some ir.I32) /\ tys !! addr_value 2 offset = Some (Some ir.I64).
Proof. unfold addr_insts, addr_value. destruct (offset =? 0); by eexists. Qed.
Lemma near_prepare {C} m index size a (k : Reachability (ir.MemFlags * Value * Value) -> M C) t0 pre ws t Q :
  memory_ok (env_target env) m -> 0 <= ma_offset a < 2 ^ 32 -> 0 <= size <= 16 -> has_type (bld t) index ir.I32 -> near t0 pre ws t ->
  (forall flags i addr t', straight (bld t) (bld t') -> near t0 pre ws t' -> has_type (bld t') addr ir.I64 -> wp (k (Reachable (flags, i, addr))) t' Q) ->
  (forall j t', control_stack (st t') = control_stack (st t0) -> stack (st t') = pre ++ ws -> world t' ->
     branched [] j (bld t0) (bld t') -> wp (k Unreachable) t' Q) ->
  wp (mem_prepare_addr env m index size a ≫= k) t Q.
Proof.
  intros Hm Ho Hs Hi Hn Hk Hu. unfold mem_prepare_addr, run_emit. cbn [length]. rewrite prepare_addr_emit by done.
  destruct (2 ^ 32 <? ma_offset a + size); cbn [fst snd fb_insts].
  - do 2 apply wp_assoc. cbn [replay]. apply wp_assoc, wp_bind. eapply wp_lift; [done|]. apply wp_assoc.
    eapply near_insi; [|done|exact Hn|]; [by exists [ir.I32]; repeat constructor|]. intros j t1 Hs1 Hn1 _.
    apply wp_assoc, wp_bind, wp_query. apply wp_assoc, wp_bind. eapply wp_lift; [done|]. apply wp_assoc.
    eapply near_trap; [exact Hn1|]. intros j' t2 Hc Hst W Hb. apply wp_assoc, wp_bind, wp_query, wp_bind, wp_ret.
    apply wp_assoc, wp_bind. eapply wp_lift; [done|]. apply wp_bind, wp_ret, wp_bind, wp_ret. by eapply Hu.
  - destruct (addr_insts_type (cl_base_gv m) (ma_offset a)) as (tys & Ht & Hz & Ha). do 2 apply wp_assoc.
    eapply near_emits; [|exact Hn|].
    { eapply emits_replay; [apply Hn|exact Ht|]. by repeat constructor. }
    intros vs t1 Hs1 Hn1 Hv. apply wp_assoc, wp_bind. eapply wp_lift; [done|]. apply wp_bind, wp_ret. cbn [fst snd].
    destruct (Forall2_lookup_r _ _ _ _ _ Hv Hz) as (i & Hi' & _).
    destruct (Forall2_lookup_r _ _ _ _ _ Hv Ha) as (addr & Haddr & Hat). unfold HeapAccess.Value in *. rewrite Hi', Haddr.
    do 2 (apply wp_assoc, wp_bind; eapply wp_lift; [done|]). apply wp_bind, wp_ret. by apply Hk.
Qed.

(** A memory that the operator may access at an offset. *)
Definition may_access (a : MemArg) : Prop := 0 <= ma_offset a < 2 ^ 32 /\
  exists d, pm_get (memories module) (ma_memory a) = Some d /\ memory32 env d = true.
Lemma near_load a opcode ty size (k : unit -> M unit) t0 pre ws vs outs index t : may_access a -> mem_op_size opcode ty = Ok size -> 0 <= size <= 16 ->
  load_ok opcode ty = true -> near t0 pre (ws ++ [index]) t -> has_type (bld t) index ir.I32 -> pm_len ws <= pm_len vs ->
  (forall v t', straight (bld t) (bld t') -> near t0 pre (ws ++ [v]) t' -> has_type (bld t') v ty -> wp (k tt) t' (fun _ => ends t0 pre vs outs)) ->
  wp (or_unreachable (translate_load dbg env a opcode ty) k) t (fun _ => ends t0 pre vs outs).
Proof.
  intros (Ho & d & Hd & Hm) Hsz Hsize Hok Hn Hi Hl Hk. apply wp_assoc.
  eapply near_steps; [exact (steps_pop1 ws index t)|exact Hn|]. intros ? t1 Hs1 Hn1 ->. apply wp_assoc, wp_bind. eapply wp_lift; [exact Hsz|].
  apply wp_assoc. eapply near_memory; [exact Hd|done|exact Hn1|]. intros m t2 Eb Hn2 Hmok. apply wp_assoc.
  eapply near_prepare; [done|done|done|rewrite Eb; by eapply straight_type|exact Hn2| |].
  - intros flags wi addr t3 Hs3 Hn3 Ha. apply wp_assoc. eapply near_ins1; [done|done|exact Hn3|]. intros v t4 Hs4 Hn4 Hv.
    apply wp_assoc. eapply near_steps; [apply steps_push|exact Hn4|]. intros _ t5 Hs5 Hn5 _. apply wp_bind, wp_ret.
    apply (Hk v); [|done|by eapply straight_type]. rewrite Eb in Hs3. eapply straight_trans; [exact Hs1|]. eapply straight_trans; [exact Hs3|]. by eapply straight_trans.
  - intros j t3 Hc Hst W Hb. apply wp_bind, wp_ret. by eapply ends_trapped.
Qed.
Lemma load_runs a opcode ty size : may_access a -> mem_op_size opcode ty = Ok size -> 0 <= size <= 16 -> load_ok opcode ty = true -> canon ty = ty ->
  runs (or_unreachable (translate_load dbg env a opcode ty) (fun _ => mret tt)) [ir.I32] [ty].
Proof.
  intros Ha Hsz Hs Hok Hc. apply near_runs. intros t0 t pre vs Hn Hl (i & ? & Hi%repr_scalar & ->%Forall2_nil_inv_r & ->)%Forall2_cons_inv_r; [|done].
  eapply (near_load _ _ _ _ _ _ _ [] _ _ i); try done. intros v t1 Hs1 Hn1 Hv. apply wp_ret. eapply near_ends; [exact Hn1|].
  constructor; [by exists ty|constructor].
Qed.
Lemma near_store a opcode ty size t0 pre vs index val t : may_access a -> mem_op_size opcode ty = Ok size -> 0 <= size <= 16 -> store_ok opcode ty = true ->
  near t0 pre [index; val] t -> has_type (bld t) index ir.I32 -> has_type (bld t) val ty ->
  wp (translate_store dbg env a opcode) t (fun _ => ends t0 pre vs []).
Proof.
  intros (Ho & d & Hd & Hm) Hsz Hsize Hok Hn Hi Hv.
  eapply near_steps; [exact (steps_pop1 [index] val t)|exact Hn|]. intros ? t1 Hs1 Hn1 ->.
  eapply near_steps; [exact (steps_pop1 [] index t1)|exact Hn1|]. intros ? t2 Hs2 Hn2 ->.
  assert (straight (bld t) (bld t2)) as Hs by (by eapply straight_trans).
  eapply near_emits; [apply emits_type; by eapply (straight_type _ _ _ _ Hs)|exact Hn2|]. intros ? t3 Hs3 Hn3 ->.
  apply wp_bind. eapply wp_lift; [exact Hsz|]. eapply near_memory; [exact Hd|done|exact Hn3|]. intros m t4 Eb Hn4 Hmok.
  assert (straight (bld t) (bld t4)) as Hs4 by (rewrite Eb; by eapply straight_trans).
  eapply near_prepare; [done|done|done|by eapply (straight_type _ _ _ _ Hs4)|exact Hn4| |].
  - intros flags wi addr t5 Hs5 Hn5 Ha. cbn [fst snd]. eapply near_insi; [|done|exact Hn5|].
    { exists ty. split; [done|]. split; [eapply straight_type; [exact Hs5|]; by eapply (straight_type _ _ _ _ Hs4)|done]. }
    intros j t6 Hs6 Hn6 _. apply wp_ret. by eapply near_ends.
  - intros j t5 Hc Hst W Hb. eapply ends_trapped; [done|exact Hst|done|done|apply pm_len_nonneg].
Qed.
Lemma two_operands (b : B) vs s u : Forall2 (repr b) vs [s; u] -> exists x y, vs = [x; y] /\ repr b x s /\ repr b y u.
Proof.
  intros (x & l & Hx & Hl & ->)%Forall2_cons_inv_r. apply Forall2_cons_inv_r in Hl as (y & l' & Hy & ->%Forall2_nil_inv_r & ->). by exists x, y.
Qed.
Lemma store_runs a opcode ty size : may_access a -> mem_op_size opcode ty = Ok size -> 0 <= size <= 16 -> store_ok opcode ty = true -> ir.is_vector ty = false ->
  runs (translate_store dbg env a opcode) [ir.I32; ty] [].
Proof.
  intros Ha Hsz Hs Hok Hc. apply near_runs. intros t0 t pre vs Hn Hl (i & v & -> & Hi & Hv)%two_operands.
  apply repr_scalar in Hi, Hv; [|done..].  by eapply near_store.
Qed.

(** *** Vectors *)
Lemma extending_runs a opcode ty : may_access a -> load_ok opcode ty = true -> ir.is_vector ty = true ->
  runs (translate_extending_load dbg env a opcode ty) [ir.I32] [ir.I8X16].
Proof.
  intros (Ho & d & Hd & Hm) Hok Hvec. apply near_runs. intros t0 t pre vs Hn Hl (i & ? & Hi%repr_scalar & ->%Forall2_nil_inv_r & ->)%Forall2_cons_inv_r; [|done].
  eapply near_steps; [exact (steps_pop1 [] i t)|exact Hn|]. intros ? t1 Hs1 Hn1 ->. eapply near_memory; [exact Hd|done|exact Hn1|]. intros m t2 Eb Hn2 Hmok.
  eapply near_prepare; [done|done|done|rewrite Eb; by eapply straight_type|exact Hn2| |].
  - intros flags wi addr t3 Hs3 Hn3 Haddr. eapply near_ins1; [done|done|exact Hn3|]. intros v t4 Hs4 Hn4 Hv.
    eapply (near_push _ _ _ _ _ _ [] _ _ _ []); [done|constructor|]. exists ty. split; [done|by destruct ty].
  - intros j t5 Hc Hst W Hb. by eapply ends_trapped.
Qed.
(** A lane is loaded, then made a vector. *)
Lemma vector_load_runs a o ty : may_access a -> ir.is_vector ty = true -> op_sig o (Some ty) [ir.lane_type ty] [] = Some [ty] ->
  runs (or_unreachable (translate_load dbg env a ir.Load (ir.lane_type ty)) (fun _ => x ← pop1'; r ← op1_to o ty x; push r)) [ir.I32] [ir.I8X16].
Proof.
  intros Ha Hvec Hop. apply near_runs. intros t0 t pre vs Hn Hl (i & ? & Hi%repr_scalar & ->%Forall2_nil_inv_r & ->)%Forall2_cons_inv_r; [|done].
  eapply (near_load _ _ _ (ir.bytes (ir.lane_type ty)) _ _ _ [] _ _ i); try done; [by destruct ty|]. intros v t1 Hs1 Hn1 Hv.
  eapply near_steps; [exact (steps_pop1 [] v t1)|exact Hn1|]. intros ? t2 Hs2 Hn2 ->.
  eapply near_ins1; [|done|exact Hn2|]; [exists [ir.lane_type ty]; split; [constructor; [by eapply straight_type|constructor]|exact Hop]|].
  intros r t3 Hs3 Hn3 Hr. eapply (near_push _ _ _ _ _ _ [] _ _ _ []); [done|constructor|]. exists ty. split; [done|by destruct ty].
Qed.
Lemma lane_load_runs a ty lane : may_access a -> ir.is_vector ty = true -> (0 <=? lane) && (lane <? ir.lane_count ty) = true ->
  runs (vector ← pop1_with_bitcast ty; or_unreachable (translate_load dbg env a ir.Load (ir.lane_type ty)) (fun _ =>
    replacement ← pop1'; r ← ins1 (Op ir.Insertlane None [vector; replacement] [lane]); push r)) [ir.I32; ir.I8X16] [ir.I8X16].
Proof.
  intros Ha Hvec Hlane. apply near_runs. intros t0 t pre vs Hn Hl (i & x & -> & Hi & Hx)%two_operands.
  apply repr_scalar in Hi; [|done].  eapply near_steps; [exact (steps_pop1_cast [i] x ty t Hx Hvec)|exact Hn|]. intros w t1 Hs1 Hn1 Hw.
  eapply (near_load _ _ _ (ir.bytes (ir.lane_type ty)) _ _ _ [] _ _ i); try done; [by destruct ty|by eapply straight_type|]. intros v t2 Hs2 Hn2 Hv.
  eapply near_steps; [exact (steps_pop1 [] v t2)|exact Hn2|]. intros ? t3 Hs3 Hn3 ->.
  eapply near_steps; [eapply (steps_insertlane [] t3 None w v lane ty); [|by eapply straight_type|done|done]|exact Hn3|].
  { eapply straight_type; [exact Hs3|]. by eapply straight_type. }
  intros r t4 Hs4 Hn4 Hr. eapply (near_push _ _ _ _ _ _ [] _ _ _ []); [done|constructor|]. exists ty. split; [done|by destruct ty].
Qed.
Lemma lane_store_runs a ty lane : may_access a -> ir.is_vector ty = true -> (0 <=? lane) && (lane <? ir.lane_count ty) = true ->
  runs (vector ← pop1_with_bitcast ty; r ← ins1 (Op ir.Extractlane None [vector] [lane]); _ ← push r; translate_store dbg env a ir.Store)
    [ir.I32; ir.I8X16] [].
Proof.
  intros Ha Hvec Hlane. apply near_runs. intros t0 t pre vs Hn Hl (i & x & -> & Hi & Hx)%two_operands.
  apply repr_scalar in Hi; [|done].  eapply near_steps; [exact (steps_pop1_cast [i] x ty t Hx Hvec)|exact Hn|]. intros w t1 Hs1 Hn1 Hw.
  eapply near_steps; [exact (steps_extractlane [i] t1 None w lane ty Hw Hvec Hlane)|exact Hn1|]. intros r t2 Hs2 Hn2 Hr.
  eapply near_steps; [exact (steps_push [i] r t2)|exact Hn2|]. intros _ t3 Hs3 Hn3 _.
  eapply (near_store _ _ (ir.lane_type ty) (ir.bytes (ir.lane_type ty)) _ _ _ i r); [done|done|by destruct ty|done|exact Hn3| |by eapply straight_type].
  eapply straight_type; [exact Hs3|]. eapply straight_type; [exact Hs2|]. by eapply straight_type.
Qed.
End Memory.

(** ** Reachable code: calls through tables, null references *)

Section Indirect.
Context {B : Type} {FB : FunctionBuilder B} {BV : BuilderView B} {LAWS : FunctionBuilderLaws B} {TC : TrapCodes}.
Context (dbg : bool) (env : TranslationEnvironment) (locals results : list ir.Type_).
Context (EO : env_ok env).
Abbreviation M := (SM (TState B) Error).
Abbreviation world := (world dbg env locals results).
Abbreviation runs := (runs dbg env locals results).
Abbreviation near := (near dbg env locals results).
Abbreviation ends := (ends dbg env locals results).
Abbreviation module := (env_module env).

Lemma near_table {C} i d (k : CraneliftTable -> M C) t0 pre ws t Q : pm_get (tables module) i = Some d -> function_table d = true ->
  near t0 pre ws t -> (forall gv t', bld t' = bld t -> near t0 pre ws t' -> wp (k (mkCraneliftTable gv (td_minimum d) 8)) t' Q) ->
  wp (get_table env i ≫= k) t Q.
Proof.
  intros Hi Hd Hn Hk. destruct (table_made env EO i d Hi Hd) as (gv & Hm). apply wp_bind, wp_bind, wp_get.
  destruct (st_tables (st t) !! i) as [m'|] eqn:E.
  - apply wp_ret. pose proof (w_tables _ _ _ _ _ (n_world _ _ _ _ _ _ _ _ Hn) _ _ E) as H. rewrite Hm in H. injection H as <-. by apply Hk.
  - apply wp_bind. eapply wp_lift; [exact Hm|]. apply wp_bind, wp_upd, wp_ret, Hk; [done|]. destruct Hn as [W S Cs R K O].
    split; cbn; try done. destruct W as []. split; cbn; try done. intros j g [[<- <-]|[_ Hj]]%lookup_insert_Some; [done|by eauto].
Qed.
(** The address of an element. *)
Lemma near_element {C} gv bound index (k : Value * ir.MemFlags -> M C) t0 pre ws t Q : 0 <= bound < 2 ^ 32 -> has_type (bld t) index ir.I32 -> near t0 pre ws t ->
  (forall addr flags t', straight (bld t) (bld t') -> near t0 pre ws t' -> has_type (bld t') addr ir.I64 -> wp (k (addr, flags)) t' Q) ->
  wp (tbl_prepare_addr env (mkCraneliftTable gv bound 8) index ≫= k) t Q.
Proof.
  intros Hb Hi Hn Hk. apply wp_assoc. eapply near_emits; [by apply emits_type|exact Hn|]. intros ? t1 Hs1 Hn1 ->.
  apply wp_assoc, wp_bind. eapply wp_lift; [done|]. unfold run_emit. cbn [length]. rewrite table_prepare_addr_emit by done. cbv zeta.
  assert (has_type (bld t1) index ir.I32) as Hi1 by (by eapply straight_type).
  destruct (env_table_spectre env); cbn [fst snd fb_insts]; do 2 apply wp_assoc.
  all: eapply near_emits; [eapply (emits_replay _ [Some ir.I32]); [apply Hn1|reflexivity|by repeat constructor]|exact Hn1|]; intros vs t2 Hs2 Hn2 Hv.
  all: apply wp_assoc, wp_bind; eapply wp_lift; [done|]; apply wp_bind, wp_ret; cbn [fst snd].
  - destruct (Forall2_lookup_r _ _ _ 8%nat _ Hv eq_refl) as (addr & Haddr & Hat). unfold HeapAccess.Value in *. rewrite Haddr.
    apply wp_assoc, wp_bind. eapply wp_lift; [done|]. apply wp_bind, wp_ret. apply Hk; [by eapply straight_trans|done|done].
  - destruct (Forall2_lookup_r _ _ _ 7%nat _ Hv eq_refl) as (addr & Haddr & Hat). unfold HeapAccess.Value in *. rewrite Haddr.
    apply wp_assoc, wp_bind. eapply wp_lift; [done|]. apply wp_bind, wp_ret. apply Hk; [by eapply straight_trans|done|done].
Qed.
Lemma near_type_index {C} funcref (k : Value -> M C) t0 pre ws t Q : has_type (bld t) funcref ir.I64 -> near t0 pre ws t ->
  (forall v t', straight (bld t) (bld t') -> near t0 pre ws t' -> has_type (bld t') v ir.I32 -> wp (k v) t' Q) ->
  wp (load_type_index funcref ≫= k) t Q.
Proof.
  intros Hf Hn. apply (near_emits _ _ _ _ _ _ _ _ _ _ (fun b v => has_type b v ir.I32)); [|exact Hn]. pose proof (n_open _ _ _ _ _ _ _ _ Hn).
  apply wp_bind. eapply wp_lift; [done|]. apply wp_bind. eapply wp_lift; [done|]. by apply emits_ins1.
Qed.
(** The check of the signature passes or traps, at run time or at once. *)
Lemma near_check {C} table ty_index ty d funcref (k : CheckIndirectCallTypeSignature -> M C) t0 pre ws t Q :
  pm_get (tables module) table = Some d -> function_table d = true -> pm_get (Module.types module) ty_index = Some ty ->
  has_type (bld t) funcref ir.I64 -> near t0 pre ws t ->
  (forall c t', c <> StaticTrap -> straight (bld t) (bld t') -> near t0 pre ws t' -> wp (k c) t' Q) ->
  (forall j t', control_stack (st t') = control_stack (st t0) -> stack (st t') = pre ++ ws -> world t' ->
     branched [] j (bld t0) (bld t') -> wp (k StaticTrap) t' Q) ->
  wp (check_indirect_call_type_signature env table ty_index funcref ≫= k) t Q.
Proof.
  intros Hd (_ & _ & Hsh & Hty)%function_table_inv Hi Hf Hn Hk Hu. unfold check_indirect_call_type_signature, pm_index.
  apply wp_assoc, wp_bind. eapply wp_lift; [by rewrite Hd|]. rewrite Hsh. apply wp_assoc, wp_bind. eapply wp_lift; [done|].
  destruct (ht_ty (Types.heap_type (td_element_type d))) as [| | |[ |expected| ]| | | | | | | | | | | | |]; try done.
  - destruct (type_ids_at env EO) as (o & Ho). destruct (type_offset env EO ty_index ty Hi) as (x & Hx & Hox).
    apply wp_assoc. eapply near_ins1; [done|done|exact Hn|]. intros vmctx t1 Hs1 Hn1 Hv1. apply wp_assoc, wp_bind. eapply wp_lift; [exact Ho|].
    apply wp_assoc. eapply near_ins1; [done|done|exact Hn1|]. intros ids t2 Hs2 Hn2 Hv2. apply wp_assoc, wp_bind. eapply wp_lift; [by rewrite Hx|].
    apply wp_assoc, wp_bind. eapply wp_lift; [exact Hox|]. apply wp_assoc. eapply near_ins1; [done|done|exact Hn2|]. intros expected t3 Hs3 Hn3 Hv3.
    assert (straight (bld t) (bld t3)) as Hs by (eapply straight_trans; [exact Hs1|by eapply straight_trans]).
    apply wp_assoc. eapply near_type_index; [by apply (straight_type _ _ _ _ Hs)|exact Hn3|]. intros actual t4 Hs4 Hn4 Hv4.
    apply wp_assoc. eapply near_ins1; [|done|exact Hn4|]; [by exists ir.I32; split; [eapply straight_type|]|]. intros cmp t5 Hs5 Hn5 Hv5.
    apply wp_assoc. eapply near_insi; [|done|exact Hn5|]; [by exists ir.I8|]. intros j t6 Hs6 Hn6 _. apply wp_bind, wp_ret, Hk; [done| |done].
    eapply straight_trans; [exact Hs|]. eapply straight_trans; [exact Hs4|]. by eapply straight_trans.
  - apply wp_assoc, wp_bind. eapply wp_lift; [by rewrite Hi|]. destruct (ty =? expected).
    + apply wp_bind, wp_ret, Hk; [done|apply straight_refl|done].
    + apply wp_assoc. destruct (nullable (td_element_type d)).
      * apply wp_assoc. eapply near_type_index; [done|exact Hn|]. intros v t1 Hs1 Hn1 _. apply wp_bind, wp_ret.
        apply wp_assoc. eapply near_trap; [exact Hn1|]. intros j t2 Hc Hst W Hb. apply wp_bind, wp_ret. by eapply Hu.
      * apply wp_bind, wp_ret. apply wp_assoc. eapply near_trap; [exact Hn|]. intros j t2 Hc Hst W Hb. apply wp_bind, wp_ret. by eapply Hu.
  - rewrite Hty. apply wp_assoc, wp_bind. eapply wp_lift; [done|]. apply wp_assoc. eapply near_trap; [exact Hn|].
    intros j t2 Hc Hst W Hb. apply wp_bind, wp_ret. by eapply Hu.
Qed.
(** The call itself. *)
Lemma near_call_funcref {C} r ps rs funcref code args (k : Reachability Inst -> M C) t0 pre t Q :
  dfg_signature (bld t) r = Some (ir.mkSignature (blank_sig ++ (normal <$> ps)) (normal <$> rs)) -> has_type (bld t) funcref ir.I64 ->
  near t0 pre args t -> Forall2 (has_type (bld t)) args ps ->
  (forall j t', straight (bld t) (bld t') -> near t0 pre args t' -> Forall2 (has_type (bld t')) (inst_results (bld t') j) rs -> wp (k (Reachable j)) t' Q) ->
  wp ((p ← load_func_and_vmctx funcref code; inst ← unchecked_indirect_call r p.1 p.2 args; mret (Reachable inst)) ≫= k) t Q.
Proof.
  intros Hr Hf Hn Ha Hk. apply wp_assoc. apply wp_assoc.
  eapply near_load_ptr; [done|done|done|exact Hn|]. intros addr t1 Hs1 Hn1 Hv1.
  apply wp_assoc. eapply near_load_ptr; [done|done|by eapply straight_type|exact Hn1|]. intros ctx t2 Hs2 Hn2 Hv2. apply wp_bind, wp_ret.
  assert (straight (bld t) (bld t2)) as Hs by (by eapply straight_trans). cbn [fst snd].
  apply wp_assoc, wp_assoc. eapply near_caller; [exact Hn2|]. intros caller Hc.
  eapply near_insi; [|done|exact Hn2|].
  { apply call_indirect_ok with (ps := ps); [by eapply straight_signature|by eapply (straight_type _ _ _ _ Hs2)|done|done|by eapply straight_types]. }
  intros j t3 Hs3 Hn3 Hj. apply wp_bind, wp_ret, Hk; [by eapply straight_trans|done|done].
Qed.
Lemma call_indirect_runs type_index table_index s d : indirect_sig env type_index = Some s -> pm_get (tables module) table_index = Some d ->
  function_table d = true -> runs (translate_call_indirect dbg env type_index table_index) ((call_sig s).1 ++ [ir.I32]) (call_sig s).2.
Proof.
  intros Hi Hd Hft. destruct (indirect_shape _ _ _ Hi) as (ps & rs & -> & Hps & Hrs). rewrite shape_sig. cbn [fst snd].
  pose proof Hi as (ty & Hty & _)%bind_Some. pose proof (function_table_inv _ Hft) as (_ & Hb & _).
  apply near_runs. intros t0 t pre vs Hn Hl Hv. destruct (Forall2_app_inv_r _ _ Hv) as (args & l & Hargs & Hlast & ->).
  apply Forall2_cons_inv_r in Hlast as (callee & ? & Hc & ->%Forall2_nil_inv_r & ->). apply repr_scalar in Hc; [|done].
  eapply near_indirect; [exact Hi|exact Hn|]. intros r t1 Hs1 Hn1 Hr. cbn [fst snd]. rewrite num_wasm.
  eapply near_steps; [exact (steps_pop1 args callee t1)|exact Hn1|]. intros ? t2 Hs2 Hn2 ->.
  assert (straight (bld t) (bld t2)) as Hs by (by eapply straight_trans).
  assert (pm_len (pre ++ args) < max_height) as Hl2 by (rewrite !pm_len_app in *; pose proof (pm_len_nonneg [callee]); lia).
  pose proof (pm_len_Forall2 _ _ _ Hargs) as Hlen. apply wp_bind. eapply wp_peekn; [apply Hn2|by rewrite (n_stack _ _ _ _ _ _ _ _ Hn2)|done|].
  eapply near_arguments; [by eapply (straight_signature _ _ _ _ Hs2)|exact Hn2|by eapply (straight_reprs _ _ _ _ Hs)|]. intros args' t3 Hs3 Hn3 Ha.
  pose proof (pm_len_Forall2 _ _ _ Ha) as Hla. assert (pm_len (pre ++ args') < max_height) as Hl3 by (rewrite !pm_len_app in *; lia).
  eapply near_table; [exact Hd|done|exact Hn3|]. intros gv t4 Eb Hn4. apply wp_bind. eapply wp_peekn; [apply Hn4|by rewrite (n_stack _ _ _ _ _ _ _ _ Hn4)|done|].
  assert (straight (bld t) (bld t4)) as Hs4 by (rewrite Eb; by eapply straight_trans).
  unfold or_unreachable, indirect_call. apply wp_assoc. eapply near_element; [exact Hb|by eapply (straight_type _ _ _ _ Hs4)|exact Hn4|].
  intros addr flags t5 Hs5 Hn5 Haddr. cbn [fst snd]. apply wp_assoc. eapply near_ins1; [done|done|exact Hn5|]. intros funcref t6 Hs6 Hn6 Hf.
  apply wp_assoc. eapply near_check; [exact Hd|done|exact Hty|done|exact Hn6| |].
  - intros c t7 Hct Hs7 Hn7. assert (straight (bld t3) (bld t7)) as Hs37.
    { rewrite <- Eb. eapply straight_trans; [exact Hs5|]. by eapply straight_trans. }
    assert (dfg_signature (bld t7) r = Some (ir.mkSignature (blank_sig ++ (normal <$> ps)) (normal <$> rs))) as Hr7.
    { eapply straight_signature; [exact Hs37|]. eapply straight_signature; [exact Hs3|]. by eapply (straight_signature _ _ _ _ Hs2). }
    destruct c; [| |done]; (eapply near_call_funcref; [exact Hr7|by eapply (straight_type _ _ _ _ Hs7)|exact Hn7|by eapply (straight_types _ _ _ _ Hs37)|]);
      intros j t8 Hs8 Hn8 Hj; (eapply near_finish; [by eapply (straight_signature _ _ _ _ Hs8)|exact Hn8|done|done|done|done]).
  - intros j t7 Hc7 Hst W Hb7. apply wp_bind, wp_ret. eapply ends_trapped; [done|exact Hst|done|done|].
    rewrite pm_len_app. pose proof (pm_len_nonneg [callee]). lia.
Qed.

(** ** Null references *)
Lemma ref_null_runs hty ty : null_type env hty = Some ty ->
  runs (hty ← sm_lift (convert_heap_type_ env hty); r ← translate_ref_null hty; push r) [] [ty].
Proof.
  intros (h & Hh%ok_inv & (rt & Hr%ok_inv & H)%bind_Some)%bind_Some. destruct (ht_shared h) eqn:Hs; [done|]. simplify_eq.
  apply near_runs. intros t0 t pre vs Hn Hl ->%Forall2_nil_inv_r. apply wp_bind. eapply wp_lift; [exact Hh|].
  assert (ir.is_int rt.1 = true /\ canon rt.1 = rt.1) as [Hi Hc].
  { apply bind_ok in Hr as (ty & Hty & (n & _ & [= <-])%bind_ok). cbn. revert Hty. unfold reference_type. by case_match; intros [= <-]. }
  apply wp_assoc, wp_bind. eapply wp_lift; [by rewrite Hs|]. apply wp_assoc, wp_bind. eapply wp_lift; [exact Hr|].
  eapply near_ins1; [|done|exact Hn|]; [exists []; split; [done|]; cbn; by rewrite Hi|]. intros v t1 Hs1 Hn1 Hv.
  eapply (near_push _ _ _ _ _ _ [] _ _ _ []); [done|constructor|]. by exists rt.1.
Qed.
End Indirect.
