(* ===== verification/CtlStep.v ===== *)
(** * One operator, and a body

    Translating an operator that validates keeps the simulation, and so does
    translating a sequence of them. *)
From stdpp Require Import base list gmap option numbers.
From S2P Require Import Prelude Types Trap Module ModuleTypes VMOffsets HeapAccess Clif ClifLaws FuncState WasmOp FuncEnv CodeTranslator CodeTranslatorCtl CodeTranslatorOps FuncTranslator WasmTyping FuncValid CtlEnv OpTyping CtlInv CtlSim CtlSteps CtlDead CtlLive CtlBranch CtlTable CtlBlocks CtlEnds CtlOps CtlModule CtlMemory.
Local Open Scope Z_scope.

(** Operators whose effect on the stack is not given by a signature. *)
Definition special (op : Operator.WasmOperator) : bool :=
  match op with
  | Operator.Unreachable | Operator.Block _ | Operator.Loop _ | Operator.If _ | Operator.Else | Operator.End
  | Operator.Br _ | Operator.BrIf _ | Operator.BrTable _ _ | Operator.Return | Operator.Drop | Operator.Select | Operator.TypedSelect
  | Operator.RefIsNull | Operator.RefAsNonNull | Operator.BrOnNull _ | Operator.BrOnNonNull _ => true
  | _ => false
  end.

Section Step.
Context {B : Type} {FB : FunctionBuilder B} {BV : BuilderView B} {LAWS : FunctionBuilderLaws B} {TC : TrapCodes}.
Context (dbg : bool) (env : TranslationEnvironment) (validator : FuncValidator) (locals results : list ir.Type_).
Context (EO : env_ok env).
Context (locals_canonical : Forall (fun t => canon t = t) locals).
Abbreviation M := (SM (TState B) Error).
Abbreviation live_at := (live_at dbg env validator locals results).
Abbreviation dead_at := (dead_at dbg env validator locals results).
Abbreviation post := (post dbg env validator locals results).
Abbreviation vstep_raw := (vstep_raw env validator locals).
Abbreviation operator_sig := (operator_sig env locals).
Abbreviation runs := (runs dbg env locals results).
Abbreviation live_step := (live_step dbg env validator locals results).
Abbreviation translate := (translate_reachable_operator dbg env validator).

Lemma vstep_plain op v vs vs' : special op = false -> vstep_raw op (v :: vs) = Some vs' ->
  exists s v', operator_sig op = Some s /\ vapply s v = Some v' /\ vs' = v' :: vs.
Proof.
  intros Hs H. assert ((s ← operator_sig op; f ← vapply s v; Some (f :: vs)) = Some vs') as H'.
  { destruct op; try discriminate Hs; exact H. }
  apply bind_Some in H' as (s & Hs' & (v' & Hv & [= <-])%bind_Some). by exists s, v'.
Qed.

(** ** Operators with a signature *)
Lemma locals_canon_at i ty : pm_get locals i = Some ty -> canon ty = ty.
Proof.
  unfold pm_get. case_match; [|done]. intros Hl. by eapply list.Forall_lookup_1 in locals_canonical.
Qed.
Lemma local_runs op s : local_sig locals op = Some s -> runs (translate op) s.1 s.2.
Proof.
  intros H. destruct op; try discriminate H; apply bind_Some in H as (ty & Hi & [= <-]).
  - apply local_get_runs; [done|by eapply locals_canon_at].
  - by apply local_set_runs.
  - by apply local_tee_runs.
Qed.
Lemma memory_accessible a s s' : memory_access env a s = Some s' -> s' = s /\ may_access env a.
Proof. intros (-> & Ho & Hd)%memory_access_inv. split; [done|by split]. Qed.
Lemma lane_accessible n lane a s s' : lane_access env n lane a s = Some s' -> s' = s /\ may_access env a /\ (0 <=? lane) && (lane <? n) = true.
Proof. unfold lane_access. destruct (_ && _) eqn:E; [|done]. intros [-> H]%memory_accessible. done. Qed.
Lemma runs_lift {A} (x : outcome Error A) a (k : A -> M unit) ins outs : x = Ok a -> runs (k a) ins outs -> runs (sm_lift x ≫= k) ins outs.
Proof. intros -> H t pre vs W Ho Hs Hl Hv. apply wp_bind. eapply wp_lift; [done|]. by apply H. Qed.
Lemma access_runs op s : access_sig env op = Some s -> runs (translate op) s.1 s.2.
Proof.
  intros H. destruct op; try discriminate H; cbn in H; (apply memory_accessible in H as [-> Ha] || apply lane_accessible in H as (-> & Ha & Hl));
    cbn [fst snd].
  all: first [by eapply load_runs|by eapply store_runs|by eapply extending_runs|eapply runs_lift; [reflexivity|]].
  all: first [by eapply vector_load_runs|by eapply lane_load_runs|by eapply lane_store_runs].
Qed.
Lemma entity_runs op s : entity_sig env op = Some s -> runs (translate op) s.1 s.2.
Proof.
  intros H. destruct op; try (by apply access_runs); cbn in H; inv_some.
  - by apply call_runs.
  - by eapply call_indirect_runs.
  - by apply global_get_runs.
  - by apply global_set_runs.
  - by apply ref_null_runs.
Qed.
Lemma sig_runs op s : operator_sig op = Some s -> runs (translate op) s.1 s.2.
Proof.
  unfold FuncValid.operator_sig, plain_sig. destruct (numeric_sig op) as [[ins outs]|] eqn:En.
  { intros [= <-]. by apply op_typed_runs, numeric_typed. }
  destruct (vector_sig op) as [[ins outs]|] eqn:Ev.
  { intros [= <-]. by apply op_typed_runs, vector_typed. }
  destruct (local_sig locals op) as [r|] eqn:El; [|apply entity_runs]. intros [= <-]. by apply local_runs.
Qed.

(** ** Operators on operands of any type *)
Lemma vpops_snoc ts ty v v1 v2 : vpop ty v = Some v1 -> vpops ts v1 = Some v2 -> vpops (ts ++ [ty]) v = Some v2.
Proof. intros H1 H2. unfold vpops. rewrite rev_app_distr. cbn. by rewrite H1. Qed.
Lemma vpop_of_any v ty v1 : vpop_any v = Some (Some ty, v1) -> vpop ty v = Some v1.
Proof. intros H. unfold vpop. rewrite H. cbn. by rewrite bool_decide_eq_true_2. Qed.
Lemma vpops1 ty v v1 : vpop ty v = Some v1 -> vpops [ty] v = Some v1.
Proof. intros. by apply (vpops_snoc [] ty v v1). Qed.
Lemma step_any m op : (forall v vs vs' tys, alive v tys -> vstep_raw op (v :: vs) = Some vs' ->
    exists s v', vapply s v = Some v' /\ vs' = v' :: vs /\ runs m s.1 s.2) -> live_step m op.
Proof.
  intros Hm t v vs vs' Hl Hb Hbt Hv Hht. destruct (live_here _ _ _ _ _ _ _ _ Hl) as (f & fs & under & base & seg & tys & H).
  destruct (Hm v vs vs' tys) as (s & v' & Hs & -> & Hr); [apply H|done|]. by eapply live_runs.
Qed.
Lemma vapply_pops ins outs v v' : vpops ins v = Some v' -> vapply (ins, outs) v = Some (vpush outs v').
Proof. intros H. unfold vapply. cbn [fst snd]. by rewrite H. Qed.

Lemma step_drop : live_step (translate Operator.Drop) Operator.Drop.
Proof.
  apply step_any. intros v vs vs' tys Ha Hv. lazy [FuncValid.vstep_raw] in Hv. inv_some.
  destruct (vpop_any_alive _ _ _ _ Ha Hx) as (? & ty & -> & -> & _).
  exists ([ty], []), v0. split; [|split; [done|apply op_typed_runs, drop_typed]].
  rewrite (vapply_pops _ _ _ v0); [by destruct v0|by apply vpops1, vpop_of_any].
Qed.
Lemma select_any v vs vs' tys : alive v tys -> vstep_raw Operator.Select (v :: vs) = Some vs' ->
  exists ty v', vapply ([ty; ty; ir.I32], [ty]) v = Some v' /\ vs' = v' :: vs.
Proof.
  intros Ha Hv. lazy [FuncValid.vstep_raw] in Hv. inv_some. destruct (vpop_alive _ _ _ _ Ha Hx) as (? & -> & Ha1).
  destruct (vpop_any_alive _ _ _ _ Ha1 Hx0) as (? & t1 & -> & -> & Ha2). destruct (vpop_any_alive _ _ _ _ Ha2 Hx1) as (? & t2 & -> & -> & Ha3).
  cbn in Hx2. case_bool_decide; simplify_eq. exists t2. eexists. split; [|reflexivity]. apply vapply_pops.
  eapply (vpops_snoc [t2; t2]); [done|]. eapply (vpops_snoc [t2]); [by apply vpop_of_any|]. by apply vpops1, vpop_of_any.
Qed.
Lemma step_select : live_step (translate Operator.Select) Operator.Select.
Proof.
  apply step_any. intros v vs vs' tys Ha Hv. destruct (select_any _ _ _ _ Ha Hv) as (ty & v' & Hs & ->).
  exists ([ty; ty; ir.I32], [ty]), v'. split; [done|]. split; [done|]. apply op_typed_runs, select_typed.
Qed.
Lemma step_typed_select : live_step (translate Operator.TypedSelect) Operator.TypedSelect.
Proof.
  apply step_any. intros v vs vs' tys Ha Hv. destruct (select_any _ _ _ _ Ha Hv) as (ty & v' & Hs & ->).
  exists ([ty; ty; ir.I32], [ty]), v'. split; [done|]. split; [done|]. apply op_typed_runs, select_typed.
Qed.
Lemma step_ref_is_null : live_step (translate Operator.RefIsNull) Operator.RefIsNull.
Proof.
  apply step_any. intros v vs vs' tys Ha Hv. lazy [FuncValid.vstep_raw] in Hv. inv_some.
  destruct (vpop_any_alive _ _ _ _ Ha Hx) as (? & ty & -> & -> & _). eexists ([ty], [ir.I32]), _.
  split; [by apply vapply_pops, vpops1, vpop_of_any|]. split; [done|]. by apply op_typed_runs, ref_is_null_typed.
Qed.
Lemma step_ref_as_non_null : live_step (translate Operator.RefAsNonNull) Operator.RefAsNonNull.
Proof.
  apply step_any. intros v vs vs' tys Ha Hv. lazy [FuncValid.vstep_raw] in Hv. inv_some.
  destruct (vpop_any_alive _ _ _ _ Ha Hx) as (? & ty & -> & -> & _). eexists ([ty], [ty]), _.
  split; [by apply vapply_pops, vpops1, vpop_of_any|]. split; [done|]. by apply op_typed_runs, ref_as_non_null_typed.
Qed.

(** ** All operators *)
Lemma live_operator op : live_step (translate op) op.
Proof.
  destruct (special op) eqn:Hs.
  - destruct op; try discriminate Hs; lazymatch goal with
    | |- CtlBranch.live_step _ _ _ _ _ _ Operator.Unreachable => apply step_unreachable
    | |- CtlBranch.live_step _ _ _ _ _ _ (Operator.Block _) => apply step_block
    | |- CtlBranch.live_step _ _ _ _ _ _ (Operator.Loop _) => apply step_loop
    | |- CtlBranch.live_step _ _ _ _ _ _ (Operator.If _) => apply step_if
    | |- CtlBranch.live_step _ _ _ _ _ _ Operator.Else => apply step_else
    | |- CtlBranch.live_step _ _ _ _ _ _ Operator.End => apply step_end
    | |- CtlBranch.live_step _ _ _ _ _ _ (Operator.Br _) => apply step_br
    | |- CtlBranch.live_step _ _ _ _ _ _ (Operator.BrIf _) => apply step_br_if
    | |- CtlBranch.live_step _ _ _ _ _ _ (Operator.BrTable _ _) => apply step_br_table
    | |- CtlBranch.live_step _ _ _ _ _ _ Operator.Return => apply step_return
    | |- CtlBranch.live_step _ _ _ _ _ _ Operator.Drop => apply step_drop
    | |- CtlBranch.live_step _ _ _ _ _ _ Operator.Select => apply step_select
    | |- CtlBranch.live_step _ _ _ _ _ _ Operator.TypedSelect => apply step_typed_select
    | |- CtlBranch.live_step _ _ _ _ _ _ Operator.RefIsNull => apply step_ref_is_null
    | |- CtlBranch.live_step _ _ _ _ _ _ Operator.RefAsNonNull => apply step_ref_as_non_null
    | |- CtlBranch.live_step _ _ _ _ _ _ (Operator.BrOnNull _) => apply step_br_on_null
    | |- CtlBranch.live_step _ _ _ _ _ _ (Operator.BrOnNonNull _) => apply step_br_on_non_null
    end.
  - intros t v vs vs' Hl Hb _ Hv _. destruct (vstep_plain _ _ _ _ Hs Hv) as (s & v' & Ho & Ha & ->).
    eapply live_runs; [by apply sig_runs|done..].
Qed.

(** ** The simulation *)
Lemma last_end f g vs : same_frame f g -> bottom results (f :: vs) -> bottom results (g :: vs).
Proof.
  intros (_ & _ & He) (h & Hh & <-). destruct vs as [|v vs]; [|by exists h]. cbn in *. simplify_eq. by exists g.
Qed.
Lemma bottom_push f vs : bottom results (f :: vs) -> forall g, bottom results (g :: f :: vs).
Proof. intros (h & Hh & He) g. exists h. by split. Qed.
Lemma vstep_bottom op vs vs' : vstep_raw op vs = Some vs' -> bottom results vs -> vs' = [] \/ bottom results vs'.
Proof.
  destruct vs as [|v vs]; [done|]. intros Hv Hb. destruct (structural op) eqn:Hs.
  2:{ destruct (vstep_same _ _ _ _ _ _ _ Hs Hv) as (v' & -> & Hsm). right. by eapply last_end. }
  destruct op; try discriminate Hs; lazy [FuncValid.vstep_raw] in Hv; inv_some.
  - right. apply bottom_push. eapply last_end; [|exact Hb]. frames_same.
  - right. apply bottom_push. eapply last_end; [|exact Hb]. frames_same.
  - right. apply bottom_push. eapply last_end; [|exact Hb]. frames_same.
  - right. destruct Hb as (h & Hh & He). destruct vs as [|w vs]; [|by exists h]. cbn in *. simplify_eq. by eexists.
  - by left.
  - right. destruct Hb as (h & Hh & He). eapply (last_end v0); [done|]. by exists h.
Qed.
Lemma post_sim t vs t' : post t vs t' -> vs = [] \/ bottom results vs -> height vs < max_height -> pm_len (stack (st t)) < max_height ->
  sim_or_finished dbg env validator locals results t' vs.
Proof.
  intros Hp Hb Hh Hs. destruct vs as [|v vs]; [done|]. destruct Hb as [|Hb]; [done|]. destruct Hp as [Hl|[Hd Hle]].
  - split; [done|done| |by left]. destruct Hl as (_ & Hl & _). apply layers_height in Hl. pose proof (pm_len_nonneg (frames t')). lia.
  - split; [done|done|lia|by right].
Qed.
Lemma operator_step op t vs vs' : sim dbg env validator locals results t vs -> vstep env validator locals op vs = Some vs' ->
  wp (translate_operator dbg env validator op) t (fun _ t' => sim_or_finished dbg env validator locals results t' vs').
Proof.
  intros [Hb Hh Hs Hst] (w & Hv & Hw)%bind_Some. destruct (Z.ltb_spec (height w) max_height) as [Hh'|]; simplify_eq.
  assert (vs' = [] \/ bottom results vs') as Hb' by (by eapply vstep_bottom).
  apply wp_bind, wp_get. destruct Hst as [Hl|Hd].
  - pose proof Hl as (Hr & Hly & Hli & _). rewrite Hr. cbn [negb]. apply wp_bind, wp_query. rewrite (live_reached _ Hli).
    apply wp_bind, wp_debug_assert; [done|]. destruct vs as [|v vs]; [by destruct Hb as (? & ? & _)|].
    eapply wp_mono; [eapply live_operator; try done|].
    + split; [done|]. apply layers_height in Hly. pose proof (pm_len_nonneg (stack (st t))). lia.
    + intros [] t' Hp. by eapply post_sim.
  - assert (reachable (st t) = false) as -> by (by destruct Hd as (?&?&?&?&?&?&?&?&?&?&_)). cbn [negb].
    eapply wp_mono; [by eapply dead_step|]. intros [] t' Hp. by eapply post_sim.
Qed.
End Step.

(** ** The operators of a function body

    The loop over the operators, the return at the end of the function and the
    completion of the function. *)

(** ** Validators that know the same types *)
Definition same_types (v v' : FuncValidator) : Prop := sub_type_at v = sub_type_at v'.
Lemma block_sig_view env v v' bt : same_types v v' -> block_sig env v bt = block_sig env v' bt.
Proof. intros H. unfold block_sig, blocktype_params_results. destruct bt; try done. by rewrite H. Qed.
Lemma vstep_view env v v' locals op vs : same_types v v' -> vstep env v locals op vs = vstep env v' locals op vs.
Proof.
  intros H. unfold vstep. assert (vstep_raw env v locals op vs = vstep_raw env v' locals op vs) as ->; [|done].
  destruct vs; [done|]. destruct op; try reflexivity; lazy [vstep_raw]; by rewrite (block_sig_view _ _ _ _ H).
Qed.

Section Views.
Context {B : Type} {FB : FunctionBuilder B} {BV : BuilderView B} {LAWS : FunctionBuilderLaws B} {TC : TrapCodes}.
Context (dbg : bool) (env : TranslationEnvironment) (locals results : list ir.Type_).

Lemma frame_view v v' (b : B) f w : same_types v v' -> frame_ok env v b f w -> frame_ok env v' b f w.
Proof.
  intros H [Fp Fr Fd Fc Fk Fx]. split; try done.
  destruct f as [d [i p|e] ? ? ? ? bt head [c|]| |d h]; cbn in *; try done. by rewrite <- (block_sig_view _ _ _ _ H).
Qed.
Lemma layers_view v v' (b : B) fs vs stk : same_types v v' -> layers env v b fs vs stk -> layers env v' b fs vs stk.
Proof. intros H. induction 1; [constructor|]. econstructor; try done. by eapply frame_view. Qed.
Lemma sim_view v v' (t : TState B) vs : same_types v v' -> sim dbg env v locals results t vs -> sim dbg env v' locals results t vs.
Proof.
  intros H [Hb Hh Hs [Hl|Hd]]; split; try done.
  - left. destruct Hl as (Hr & Hl & Hli & Hsh). split; [done|]. split; [by eapply layers_view|done].
  - right. destruct Hd as (ps & f & fs & pvs & u & rvs & under & base & junk & Hre & Hfr & Hvs & Hps & Hl & Hfo & Hrest).
    exists ps, f, fs, pvs, u, rvs, under, base, junk. split_and!; try done; try apply Hrest; [by eapply layers_view|by eapply frame_view].
Qed.
End Views.

(** ** Translation beside validation *)
Section Mv.
Context {B V : Type}.
Abbreviation MV := (SM (V * TState B) Error).
Definition wpv {A} (m : MV A) (s : V * TState B) (Q : A -> V -> TState B -> Prop) : Prop :=
  exists a v t, m s = (Ok a, (v, t)) /\ Q a v t.
Lemma wpv_bind {A C} (m : MV A) (k : A -> MV C) s Q : wpv m s (fun a v t => wpv (k a) (v, t) Q) -> wpv (m ≫= k) s Q.
Proof. intros (a & v & t & Hm & c & v' & t' & Hk & HQ). exists c, v', t'. split; [|done]. unfold mbind, sm_bind. by rewrite Hm. Qed.
Lemma wpv_ret {A} (a : A) v t (Q : A -> V -> TState B -> Prop) : Q a v t -> wpv (mret a) (v, t) Q.
Proof. intros. by exists a, v, t. Qed.
Lemma wpv_lift {A} (x : outcome Error A) a v t (Q : A -> V -> TState B -> Prop) : x = Ok a -> Q a v t -> wpv (sm_lift x) (v, t) Q.
Proof. intros -> H. by exists a, v, t. Qed.
Lemma wpv_translating {A} (m : SM (TState B) Error A) v t Q : wp m t (fun a t' => Q a v t') -> wpv (translating m) (v, t) Q.
Proof. intros (a & t' & Hm & HQ). exists a, v, t'. split; [|done]. unfold translating. cbn. by rewrite Hm. Qed.
Lemma wpv_validating f v v' t (Q : unit -> V -> TState B -> Prop) : f v = Ok v' -> Q tt v' t -> wpv (validating f) (v, t) Q.
Proof. intros Hf HQ. exists tt, v', t. split; [|done]. unfold validating. cbn. by rewrite Hf. Qed.
Lemma wpv_mono {A} (m : MV A) s (P Q : A -> V -> TState B -> Prop) : wpv m s P -> (forall a v t, P a v t -> Q a v t) -> wpv m s Q.
Proof. intros (a & v & t & Hm & HP) H. exists a, v, t. auto. Qed.
Lemma wpv_debug dbg c v t (Q : unit -> V -> TState B -> Prop) : c = true -> Q tt v t -> wpv (sm_lift (debug_assert dbg c)) (v, t) Q.
Proof. intros -> HQ. eapply wpv_lift; [by apply debug_assert_true|done]. Qed.
End Mv.

Section Body.
Context {B : Type} {FB : FunctionBuilder B} {BV : BuilderView B} {LAWS : FunctionBuilderLaws B} {TC : TrapCodes}.
Context (dbg : bool) (env : TranslationEnvironment) {V : Type} (vops : ValidatorOps V) (validator : FuncValidator).
(** The types of the module stay the same while a function is validated. *)
Context (view_types : forall v, same_types (validator_view vops v) validator).
Context (EO : env_ok env).
Context (locals results : list ir.Type_) (locals_canonical : Forall (fun t => canon t = t) locals).
Abbreviation sim := (sim dbg env validator locals results).
Abbreviation sim_or_finished := (sim_or_finished dbg env validator locals results).
Abbreviation finished := (finished dbg env locals results).

(** The validator accepts the operators one after the other. *)
Fixpoint accepts (ops : list Operator.WasmOperator) (v : V) : outcome Error V :=
  match ops with
  | [] => Ok v
  | op :: ops => v ← validate_op vops op v; accepts ops v
  end.

Lemma viewed_step v op t vs vs' : sim t vs -> vstep env validator locals op vs = Some vs' ->
  wp (translate_operator dbg env (validator_view vops v) op) t (fun _ t' => sim_or_finished t' vs').
Proof.
  intros Hs Hv. pose proof (view_types v) as Ht. eapply wp_mono.
  - eapply operator_step; [done|done|eapply (sim_view _ _ _ _ validator); [|exact Hs]; done|rewrite (vstep_view _ _ _ _ _ _ Ht); exact Hv].
  - intros [] t' Hp. destruct vs'; [done|]. by eapply sim_view.
Qed.
Lemma operators_ok ops v v' t vs : sim_or_finished t vs -> vsteps env validator locals ops vs = Some [] -> accepts ops v = Ok v' ->
  wpv (translate_operators dbg env vops (Ok <$> ops)) (v, t) (fun _ v1 t' => v1 = v' /\ finished t').
Proof.
  revert v t vs. induction ops as [|op ops IH]; intros v t vs Hs Hv Ha; cbn in *.
  { simplify_eq. by apply wpv_ret. }
  apply bind_Some in Hv as (vs1 & Hv & Hvs). apply bind_ok in Ha as (v1 & Ho & Ha).
  destruct vs as [|f vs]; [done|]. apply wpv_bind. eapply wpv_lift; [reflexivity|]. apply wpv_bind. exists (validator_view vops v), v, t.
  split; [done|]. apply wpv_bind, wpv_translating. eapply wp_mono; [by eapply viewed_step|]. intros [] t1 H1.
  apply wpv_bind. eapply wpv_validating; [exact Ho|]. by eapply IH.
Qed.

(** ** The end of the function *)
Definition complete (t : TState B) : Prop :=
  stack (st t) = [] /\ control_stack (st t) = [] /\ ended (bld t) /\ tight (bld t) [].
Lemma emit_return_ok t : finished t -> wp emit_return t (fun _ t' => complete t').
Proof.
  intros (Hc & Ht & W & Hor). apply wp_bind, wp_get, wp_bind, wp_query. destruct Hor as [(Hr & Hl & Hst)|(Hr & He & Hst)]; rewrite Hr.
  - rewrite (live_reached _ Hl). cbn [negb andb]. apply wp_bind, wp_bind, wp_get, wp_bind.
    eapply emits_wp; [by eapply emits_returns; [apply live_open|..]|]. intros l t1 Hs1 He1 Hl1. apply wp_bind, wp_upd, wp_bind.
    eapply wp_terminate; [exact Hs1|eapply straight_open; [done|by apply live_open]| |done|].
    { split; [|done]. cbn [bld]. rewrite (ex_sig _ _ (proj1 (sl_extends _ _ Hs1))), (w_returns _ _ _ _ _ W).
      unfold param_types. by rewrite <- list_fmap_compose, list_fmap_id. }
    intros j b' Hb. apply wp_ret, wp_upd. split; [done|]. split; [cbn; by rewrite He1|].
    split; [by eapply branched_ended|by eapply branched_tight].
  - cbn [andb]. by apply wp_bind, wp_ret, wp_upd.
Qed.
Lemma finalize_ok t : complete t -> wp (onb finalize) t (fun _ t' => st t' = st t).
Proof.
  intros (_ & _ & (c & Hc & _ & Hf) & Ht). destruct (law_finalize (bld t)) as (b' & Hb); [|by eapply wp_onb].
  intros k Hk. assert (filled (bld t) k) as Hk' by (destruct Hk; [done|congruence]). split; [done|].
  destruct (Ht k Hk) as [?|[]%not_elem_of_nil]. done.
Qed.

Lemma function_body_ok body ops v v1 v' t : body_ops body = Ok <$> ops -> sim t [enter KBlock [] results] -> pm_len (control_stack (st t)) = 1 ->
  vsteps env validator locals ops [enter KBlock [] results] = Some [] -> accepts ops v = Ok v1 -> validate_finish vops v1 = Ok v' ->
  wpv (translate_function_body dbg env vops body) (v, t) (fun _ v2 t' => v2 = v' /\ complete t').
Proof.
  intros Hb Hs Hc Hv Ha Hf. apply wpv_bind, wpv_translating, wp_get. apply wpv_bind, wpv_debug; [by rewrite Hc|].
  apply wpv_bind. rewrite Hb. eapply wpv_mono; [by apply (operators_ok ops v v1 t [enter KBlock [] results])|]. intros [] ? t1 [-> H1].
  apply wpv_bind. eapply wpv_validating; [exact Hf|]. apply wpv_translating. eapply wp_mono; [by apply emit_return_ok|]. by intros [] t2 H2.
Qed.
End Body.
