(* ===== verification/CtlFunction.v ===== *)
(** * Translating a function

    A valid body is translated without an error or a panic, and the function is
    complete afterwards. *)
From stdpp Require Import base list gmap option numbers.
From S2P Require Import Prelude Types Trap Module ModuleTypes VMOffsets HeapAccess Clif ClifLaws FuncState WasmOp FuncEnv CodeTranslator CodeTranslatorCtl CodeTranslatorOps FuncTranslator WasmTyping FuncValid CtlEnv OpTyping CtlInv CtlSim CtlSteps CtlBranch CtlStep.
Local Open Scope Z_scope.

Lemma pm_get_snoc {A} (l : list A) x k : pm_get (l ++ [x]) k = if bool_decide (k = pm_len l) then Some x else pm_get l k.
Proof.
  case_bool_decide as Hk; [subst; apply pm_get_push_new|]. destruct (pm_get (l ++ [x]) k) eqn:E.
  - apply pm_get_push_inv in E as [?|[]]; [by symmetry|done].
  - destruct (pm_get l k) eqn:E'; [|done]. pose proof (pm_get_push_old _ x _ _ E') as E2. unfold pm_push in E2. congruence.
Qed.
Lemma pm_get_end {A} (l : list A) : pm_get l (pm_len l) = None.
Proof. destruct (pm_get l (pm_len l)) eqn:E; [|done]. apply pm_get_range in E. lia. Qed.

Section Entry.
Context {B : Type} {FB : FunctionBuilder B} {BV : BuilderView B} {LAWS : FunctionBuilderLaws B} {TC : TrapCodes}.
Context (dbg : bool) (env : TranslationEnvironment).
Abbreviation M := (SM (TState B) Error).

(** A builder for a function with the signature, nothing added yet. *)
Record fresh (b : B) (sig : ir.Signature) : Prop := {
  fr_blocks : dfg_num_blocks b = 0; fr_insts : dfg_num_insts b = 0; fr_current : current b = None; fr_entry : entry b = None;
  fr_filled : forall k, ~ filled b k; fr_vars : forall x, var_type b x = None; fr_sig : func_signature b = sig }.

(** ** Variables are declared *)
Record quiet (b b' : B) : Prop := {
  qu_keeps : keeps b b';
  qu_declared : forall k, known b k -> declared b' k = declared b k;
  qu_filled : forall k, filled b' k <-> filled b k;
  qu_sealed : forall k, sealed b' k <-> sealed b k;
  qu_edge : forall j d, edge b' j d <-> edge b j d;
  qu_current : current b' = current b;
  qu_clean : forall j, clean b j -> ~ filled b j -> current b <> Some j -> clean b' j }.
Lemma straight_quiet b b' : straight b b' -> quiet b b'.
Proof. intros [[X ?] ? ? ? ? ? ?]. by split. Qed.
Lemma quiet_trans a b c : quiet a b -> quiet b c -> quiet a c.
Proof.
  intros [X1 D1 F1 S1 E1 U1 C1] [X2 D2 F2 S2 E2 U2 C2]. split.
  - by eapply keeps_trans.
  - intros k Hk. rewrite D2; [by apply D1|]. by apply (ex_known _ _ X1).
  - intros k. by rewrite F2.
  - intros k. by rewrite S2.
  - intros j d. by rewrite E2.
  - by rewrite U2.
  - intros j Hj Hf Hc. apply C2; [by apply C1|by rewrite F1|by rewrite U1].
Qed.
Lemma same_flow_quiet b b' : keeps b b' -> same_flow None b b' -> quiet b b'.
Proof. intros X [[]]. split; try done; auto. Qed.
Lemma quiet_refl b : quiet b b.
Proof. apply straight_quiet, straight_refl. Qed.

Lemma same_flow_refl (b : B) : same_flow None b b.
Proof. by repeat split. Qed.
Lemma same_flow_trans (a b c : B) : same_flow None a b -> keeps a b -> same_flow None b c -> same_flow None a c.
Proof.
  intros [[D1 F1 S1 E1] U1 C1] X [[D2 F2 S2 E2] U2 C2]. split; [split|..].
  - intros k Hk Hn. rewrite D2; [by apply D1|by apply (ex_known _ _ X)|done].
  - intros k. by rewrite F2.
  - intros k. by rewrite S2.
  - intros j d. by rewrite E2.
  - by rewrite U2.
  - auto.
Qed.

(** The variables with their types. *)
Definition vars (b : B) (tys : list ir.Type_) : Prop := forall x, var_type b x = pm_get tys x.
Lemma wp_declare t tys ty (Q : unit -> TState B -> Prop) : vars (bld t) tys ->
  (forall b', keeps (bld t) b' -> same_flow None (bld t) b' -> vars b' (tys ++ [ty]) -> Q tt (mkT b' (st t))) -> wp (onb (declare_var (pm_len tys) ty)) t Q.
Proof.
  intros Hv HQ. destruct (law_declare_var (bld t) (pm_len tys) ty) as (b' & Hd & X & F & Hx & Hy); [by rewrite Hv, pm_get_end|].
  eapply wp_onb; [exact Hd|]. apply HQ; [done|done|]. intros x. rewrite pm_get_snoc. case_bool_decide as E; [by subst|]. by rewrite Hy, Hv.
Qed.
Lemma wp_define t tys x ty v (Q : unit -> TState B -> Prop) : vars (bld t) tys -> pm_get tys x = Some ty -> has_type (bld t) v ty ->
  (forall b', keeps (bld t) b' -> same_flow None (bld t) b' -> vars b' tys -> Q tt (mkT b' (st t))) -> wp (onb (def_var x v)) t Q.
Proof.
  intros Hv Hx Ht HQ. destruct (law_def_var (bld t) x v ty) as (b' & Hd & [X Y] & F); [by rewrite Hv|done|]. eapply wp_onb; [exact Hd|].
  apply HQ; [done|done|]. intros y. by rewrite Y.
Qed.
Lemma wp_next (tys : list ir.Type_) ty t (Q : Z -> TState B -> Prop) : pm_len (tys ++ [ty]) < max_height -> Q (pm_len (tys ++ [ty])) t -> wp (sm_lift (add 64 (pm_len tys) 1)) t Q.
Proof.
  intros Hl HQ. eapply wp_lift; [|exact HQ]. apply add_ok. rewrite pm_len_snoc in *. unfold max_height in Hl. pose proof (pm_len_nonneg tys). lia.
Qed.

(** ** Declared locals *)
Lemma declare_count_ok n ty init tys t : vars (bld t) tys -> (forall v, init = Some v -> has_type (bld t) v ty) ->
  pm_len (tys ++ replicate n ty) < max_height ->
  wp (declare_count n ty init (pm_len tys)) t (fun i t' => i = pm_len (tys ++ replicate n ty) /\ st t' = st t /\ quiet (bld t) (bld t') /\
    vars (bld t') (tys ++ replicate n ty)).
Proof.
  revert tys t. induction n as [|n IH]; intros tys t Hv Hi Hl; cbn [declare_count replicate] in *.
  { rewrite app_nil_r. apply wp_ret. by split_and!; [..|apply quiet_refl|]. }
  assert (tys ++ ty :: replicate n ty = (tys ++ [ty]) ++ replicate n ty) as E by (by rewrite <- app_assoc). rewrite E in *.
  apply wp_bind, (wp_declare _ _ _ _ Hv). intros b1 X1 F1 V1. apply wp_bind.
  apply (wp_mono _ _ (fun _ t' => st t' = st t /\ quiet (bld t) (bld t') /\ vars (bld t') (tys ++ [ty]))).
  - destruct init as [v|]; [|apply wp_ret; split_and!; [done|by apply same_flow_quiet|done]].
    eapply wp_define; [exact V1|by rewrite pm_get_snoc, bool_decide_eq_true_2|by apply (ex_types _ _ X1), Hi|].
    intros b2 X2 F2 V2. split_and!; [done|eapply quiet_trans; by apply same_flow_quiet|done].
  - intros [] t2 (E2 & Q2 & V2). apply wp_bind, (wp_next tys ty); [rewrite pm_len_app in Hl; pose proof (pm_len_nonneg (replicate n ty)); lia|].
    eapply wp_mono; [apply IH; [done| |done]|].
    + intros v Hv'. by apply (ex_types _ _ (qu_keeps _ _ Q2)), Hi.
    + intros i t3 (-> & E3 & Q3 & V3). split_and!; [done|congruence|by eapply quiet_trans|done].
Qed.
Lemma emits_null rt hty ty t : open (bld t) -> convert_heap_type_ env (wasmparser.heap_type rt) = Ok hty -> ht_shared hty = false ->
  FuncEnv.env_reference_type (E:=Error) hty = Ok ty -> emits (translate_ref_null hty) t (fun b v => has_type b v ty.1).
Proof.
  intros Ho Hh Hs Ht. eapply emits_bind; [eapply emits_lift; by rewrite Hs|]. intros ? t1 Hs1 He1 _.
  eapply emits_bind; [by apply emits_lift|]. intros ? t2 Hs2 He2 ->. apply (emits_op _ _ _ _ _ []).
  - eapply straight_open; [exact Hs2|]. by eapply straight_open.
  - constructor.
  - unfold env_reference_type, reference_type in Ht. destruct (top_inner (top hty)); cbn in Ht; by simplify_eq.
Qed.
Lemma local_init_ok wty ty t : open (bld t) -> local_type env wty = Some ty ->
  emits (local_init env wty) t (fun b r => r.1 = ty /\ forall v, r.2 = Some v -> has_type b v ty).
Proof.
  intros Ho H. apply bind_Some in H as (t0 & Ht & H). apply ok_inv in Ht.
  destruct wty as [| | | | |rt]; cbn in Ht; simplify_eq;
    try (eapply emits_bind; [by apply (emits_op _ _ _ _ _ []); [..|done]|]; intros v t1 Hs1 He1 Hv; apply emits_ret; split; [done|]; by intros ? [= <-]).
  apply bind_Some in H as (hty & Hh & H). apply ok_inv in Hh. rewrite Hh in Ht. cbn in Ht. apply bind_ok in Ht as (r & Hr & [= <-]).
  eapply emits_bind; [by apply emits_lift|]. intros ? t1 Hs1 He1 ->. eapply emits_bind; [by apply emits_lift|]. intros ? t2 Hs2 He2 ->.
  destruct (wasmparser.is_nullable rt && ht_shared hty) eqn:Ens; [done|]. simplify_eq.
  eapply (emits_bind _ _ _ (fun b i => forall v, i = Some v -> has_type b v r.1)).
  - destruct (wasmparser.is_nullable rt); [|by apply emits_ret]. cbn in Ens. eapply emits_bind; [eapply emits_null; [|done..]|].
    + eapply straight_open; [exact Hs2|]. by eapply straight_open.
    + intros v t3 Hs3 He3 Hv. apply emits_ret. by intros ? [= <-].
  - intros i t3 Hs3 He3 Hi. apply emits_ret. by split.
Qed.

Lemma quiet_open b b' : quiet b b' -> open b -> open b'.
Proof.
  intros Hq (k & Hk & Hn & Hf). exists k. rewrite (qu_current _ _ Hq), (qu_filled _ _ Hq). split; [done|]. split; [|done].
  by apply (ex_known _ _ (qu_keeps _ _ Hq)).
Qed.
Lemma declare_locals_ok count wty ty tys t : open (bld t) -> vars (bld t) tys -> local_type env wty = Some ty ->
  pm_len (tys ++ replicate (Z.to_nat count) ty) < max_height ->
  wp (declare_locals env count wty (pm_len tys)) t (fun i t' => i = pm_len (tys ++ replicate (Z.to_nat count) ty) /\ st t' = st t /\
    quiet (bld t) (bld t') /\ vars (bld t') (tys ++ replicate (Z.to_nat count) ty)).
Proof.
  intros Ho Hv Hty Hl. apply wp_bind. eapply emits_wp; [by apply local_init_ok|]. intros [? i] t1 Hs1 He1 [E Hi]. cbn in E. subst. cbn [fst snd].
  eapply wp_mono; [apply declare_count_ok; [|exact Hi|done]|].
  - intros x. rewrite <- Hv. apply (proj2 (sl_extends _ _ Hs1)).
  - intros j t2 (-> & E2 & Q2 & V2). split_and!; [done|congruence| |done]. eapply quiet_trans; [by apply straight_quiet|done].
Qed.

Context {V : Type} (vops : ValidatorOps V).
(** The validator accepts the declarations. *)
Fixpoint accepts_locals (decls : list (Z * wasmparser.ValType)) (v : V) : outcome Error V :=
  match decls with
  | [] => Ok v
  | d :: decls => v ← define_locals vops d.1 d.2 v; accepts_locals decls v
  end.
Lemma local_decls_ok decls tys ltys v v' t : open (bld t) -> vars (bld t) tys -> decl_types env decls = Some ltys ->
  pm_len (tys ++ ltys) < max_height -> accepts_locals decls v = Ok v' ->
  wpv (local_decls env vops (Ok <$> decls) (pm_len tys)) (v, t) (fun _ v1 t' => v1 = v' /\ st t' = st t /\ quiet (bld t) (bld t') /\ vars (bld t') (tys ++ ltys)).
Proof.
  revert tys ltys v t. induction decls as [|[count wty] decls IH]; intros tys ltys v t Ho Hv Hd Hl Ha; cbn in *.
  { simplify_eq. rewrite app_nil_r. apply wpv_ret. by split_and!; [..|apply quiet_refl|]. }
  apply bind_Some in Hd as (ty & Hty & (tl & Htl & [= <-])%bind_Some). apply bind_ok in Ha as (v1 & Hv1 & Ha). rewrite (app_assoc tys) in Hl |- *.
  apply wpv_bind. eapply wpv_lift; [reflexivity|]. apply wpv_bind. eapply wpv_validating; [exact Hv1|]. apply wpv_bind, wpv_translating.
  eapply wp_mono; [apply declare_locals_ok; [done|done|done|]|].
  { rewrite (pm_len_app _ tl) in Hl. pose proof (pm_len_nonneg tl). cbn [fst]. lia. }
  intros i t1 (-> & E1 & Q1 & V1). eapply wpv_mono; [by apply IH; [eapply quiet_open|..]|].
  intros [] v2 t2 (-> & E2 & Q2 & V2). split_and!; [done|congruence|by eapply quiet_trans|done].
Qed.

(** ** Parameters *)
Lemma declare_parameters_ok k all dn ps t : all = dn ++ ps -> clean (bld t) k -> declared (bld t) k = param_types all -> known (bld t) k ->
  vars (bld t) (drop 2 (param_types dn)) -> pm_len all < max_height ->
  wp (declare_parameters k ps (length dn) (pm_len (drop 2 (param_types dn)))) t (fun i t' => i = pm_len (drop 2 (param_types all)) /\ st t' = st t /\
    keeps (bld t) (bld t') /\ same_flow None (bld t) (bld t') /\ vars (bld t') (drop 2 (param_types all))).
Proof.
  revert dn t. induction ps as [|p ps IH]; intros dn t -> Hc Hd Hk Hv Hl; cbn [declare_parameters].
  { rewrite app_nil_r. apply wp_ret. by split_and!; [..|apply keeps_refl|apply same_flow_refl|]. }
  assert (dn ++ p :: ps = (dn ++ [p]) ++ ps) as E by (by rewrite <- app_assoc). rewrite E in *.
  apply wp_bind. apply (wp_mono _ _ (fun i t' => i = pm_len (drop 2 (param_types (dn ++ [p]))) /\ st t' = st t /\ keeps (bld t) (bld t') /\
    same_flow None (bld t) (bld t') /\ vars (bld t') (drop 2 (param_types (dn ++ [p]))))).
  - unfold param_types in *. rewrite (fmap_app _ dn [p]). cbn [fmap list_fmap]. unfold is_wasm_parameter. destruct (Nat.leb_spec 2 (length dn)) as [H2|H2].
    + rewrite (drop_app_le _ [ir.value_type p]) by (by rewrite length_fmap). apply wp_bind, (wp_declare _ _ _ _ Hv). intros b1 X1 F1 V1.
      apply wp_bind, wp_query. pose proof (law_clean b1 k (sf_clean _ _ _ F1 _ Hc)) as Hp. cbn [bld].
      rewrite (sb_declared _ _ _ (sf_blocks _ _ _ F1)), Hd in Hp by done.
      destruct (Forall2_lookup_r _ _ _ (length dn) (ir.value_type p) Hp) as (w & Hw & Htw).
      { rewrite !fmap_app, <- app_assoc, lookup_app_r, length_fmap, Nat.sub_diag by (by rewrite length_fmap). done. }
      apply wp_bind. eapply wp_lift; [by rewrite Hw|]. apply wp_bind.
      eapply wp_define; [exact V1|by rewrite pm_get_snoc, bool_decide_eq_true_2|done|]. intros b2 X2 F2 V2.
      apply (wp_next _ (ir.value_type p)); [|split_and!; [done|done|by eapply keeps_trans|by eapply same_flow_trans|done]].
      rewrite pm_len_snoc. unfold pm_len in *. rewrite !length_app in Hl. cbn in Hl. rewrite length_drop, length_fmap. lia.
    + assert (drop 2 ((ir.value_type <$> dn) ++ [ir.value_type p]) = drop 2 (ir.value_type <$> dn)) as ->.
      { rewrite !drop_ge; [done|rewrite length_fmap; lia|rewrite length_app, length_fmap; cbn; lia]. }
      apply wp_ret. by split_and!; [..|apply keeps_refl|apply same_flow_refl|].
  - intros i t1 (-> & E1 & X1 & F1 & V1). assert (S (length dn) = length (dn ++ [p])) as -> by (rewrite length_app; cbn; lia).
    eapply wp_mono; [apply IH; try done|].
    + by apply (sf_clean _ _ _ F1).
    + by rewrite (sb_declared _ _ _ (sf_blocks _ _ _ F1)).
    + by apply (ex_known _ _ X1).
    + intros i t2 (-> & E2 & X2 & F2 & V2). split_and!; [done|congruence|by eapply keeps_trans|by eapply same_flow_trans|done].
Qed.
End Entry.

(** ** Translating a function

    A valid body is translated without an error or a panic, and the function is
    complete afterwards. *)

Section Function.
Context {B : Type} {FB : FunctionBuilder B} {BV : BuilderView B} {LAWS : FunctionBuilderLaws B} {TC : TrapCodes}.
Context (dbg : bool) (env : TranslationEnvironment).
Abbreviation M := (SM (TState B) Error).

(** ** The entry block *)
Lemma wp_bind_inv {A C} (m : M A) (k : A -> M C) t Q : wp (m ≫= k) t Q -> wp m t (fun a t' => wp (k a) t' Q).
Proof.
  intros (c & t' & Hm & HQ). unfold mbind, sm_bind in Hm. destruct (m t) as [[a|e|] t1] eqn:E; try discriminate Hm.
  exists a, t1. split; [done|]. by exists c, t'.
Qed.
Record entered_at (b : B) (k : Block) (sig : ir.Signature) : Prop := {
  ea_current : current b = Some k; ea_entry : entry b = Some k; ea_known : known b k; ea_sealed : sealed b k; ea_clean : clean b k;
  ea_declared : declared b k = param_types (ir.params sig); ea_filled : forall j, ~ filled b j; ea_sig : func_signature b = sig;
  ea_vars : vars b [];
  ea_vmctx : forall i p, list_find (fun p => ir.purpose p = ir.VMContext) (ir.params sig) = Some (i, p) ->
    exists v, special_param_vmctx b = Some v /\ has_type b v (ir.value_type p) }.

Definition enter_function : M Block :=
  entry_block ← onb create_block;
  _ ← onb (append_block_params_for_function_params entry_block);
  _ ← onb (switch_to_block entry_block);
  _ ← onb (seal_block entry_block);
  _ ← onb ensure_inserted_block;
  mret entry_block.
Lemma enter_function_ok t sig : fresh (bld t) sig -> wp enter_function t (fun k t' => st t' = st t /\ entered_at (bld t') k sig).
Proof.
  intros [_ _ Hc He Hf Hv Hs]. destruct t as [b0 s0]. cbn [bld st] in *. apply wp_bind.
  destruct (law_create_block b0) as (k & b1 & C1 & [X1 Y1] & [[D1 F1 S1 E1] U1 L1] & Hn & Hk & Hnf & Hns & Hj & Hd & Hcl & He1).
  eapply wp_onb; [exact C1|]. apply wp_bind.
  destruct (law_append_function_params b1 k) as (b2 & C2 & [X2 Y2] & [[D2 F2 S2 E2] U2 L2] & Hd2 & He2); [done|done|by rewrite F1|done|].
  eapply wp_onb; [exact C2|]. apply wp_bind. assert (known b2 k) as K2 by (by apply (ex_known _ _ X2)).
  assert (forall j, ~ filled b2 j) as NF2 by (intros j; by rewrite F2, F1).
  destruct (law_switch_to_block b2 k) as (b3 & C3 & [X3 Y3] & [D3 F3 S3 E3] & U3 & L3 & He3); [done|done| |].
  { intros c. rewrite U2, U1, Hc. done. }
  eapply wp_onb; [exact C3|]. apply wp_bind. assert (known b3 k) as K3 by (by apply (ex_known _ _ X3)).
  destruct (law_seal_block b3 k) as (b4 & C4 & [X4 Y4] & U4 & D4 & F4 & S4 & E4 & L4 & He4); [done|by rewrite S3, S2, S1|].
  eapply wp_onb; [exact C4|]. apply wp_bind.
  destruct (law_ensure_inserted b4 k) as (b5 & C5 & [X5 Y5] & [[D5 F5 S5 E5] U5 L5] & He5 & Hvm); [by rewrite U4|].
  eapply wp_onb; [exact C5|]. apply wp_ret. cbn [bld st]. split; [done|].
  assert (entry b4 = None) as N4 by congruence. assert (known b4 k) as K4 by (by apply (ex_known _ _ X4)).
  assert (forall j, ~ filled b4 j) as NF4 by (intros j; by rewrite F4, F3).
  assert (func_signature b4 = sig) as G4.
  { by rewrite (ex_sig _ _ X4), (ex_sig _ _ X3), (ex_sig _ _ X2), (ex_sig _ _ X1). }
  assert (clean b4 k) as L4' by (apply L4; [by apply L3, L2|by rewrite F3]).
  assert (declared b4 k = param_types (ir.params sig)) as Hd4.
  { rewrite D4, D3, Hd2, (ex_sig _ _ X1), Hs by done. done. }
  split.
  - by rewrite U5, U4.
  - by apply He5.
  - by apply (ex_known _ _ X5).
  - apply S5, S4. by right.
  - by apply L5.
  - by rewrite D5.
  - intros j. by rewrite F5.
  - by rewrite (ex_sig _ _ X5).
  - intros x. by rewrite Y5, Y4, Y3, Y2, Y1, Hv; destruct x.
  - rewrite G4 in Hvm. by apply Hvm.
Qed.

(** ** The outermost frame *)
Record prepared (b : B) (e : Block) (results tys : list ir.Type_) : Prop := {
  pr_live : live b; pr_tight : tight b []; pr_exit : dest_ok b e results; pr_vars : vars b tys;
  pr_vmctx : exists v, special_param_vmctx b = Some v /\ has_type b v ir.I64;
  pr_returns : ir.returns (func_signature b) = normal <$> results }.
Lemma prepared_quiet b b' e results tys tys' : prepared b e results tys -> quiet b b' -> vars b' tys' -> prepared b' e results tys'.
Proof.
  intros [(c & Hc & Hk & Hf & He) T [Dk Df Ds Dc Dd Dcl] _ (v & Hv & Hvt) R] [X D F S E U C] V. split; [| |split|done| |].
  - exists c. rewrite U, F. split; [done|]. split; [by apply (ex_known _ _ X)|]. split; [done|].
    destruct He as [He|[j He]]; [left; by apply (ex_entry _ _ X)|right; exists j; by apply E].
  - intros k. rewrite F, U, S. apply T.
  - by apply (ex_known _ _ X).
  - by rewrite F.
  - by rewrite S.
  - by rewrite U.
  - by rewrite D.
  - auto.
  - exists v. split; [by apply (ex_vmctx _ _ X)|by apply (ex_types _ _ X)].
  - by rewrite (ex_sig _ _ X).
Qed.
Lemma entered_prepared b b1 b2 k e ps rs tys : entered_at b k (ir.mkSignature (blank_sig ++ ps) (normal <$> rs)) -> keeps b b1 -> same_flow None b b1 ->
  vars b1 tys -> made b1 b2 e rs -> prepared b2 e rs tys.
Proof.
  intros [Hc He Hk Hs Hcl Hd Hf Hg _ Hvm] X [[D F S E] U C] V Hm. pose proof (md_extends _ _ _ _ Hm) as [X2 Y2].
  assert (live b1) as L1.
  { exists k. rewrite U, F. split; [done|]. split; [by apply (ex_known _ _ X)|]. split; [done|]. left. by apply (ex_entry _ _ X). }
  split; [by eapply made_live| | | | |].
  - eapply made_tight; [|exact Hm]. intros j [Hj|Hj]; [by rewrite F in Hj; destruct (Hf j)|]. left. rewrite U in Hj. simplify_eq. by apply S.
  - eapply made_dest; [|exact Hm]. by eapply made_not_current.
  - intros x. by rewrite Y2.
  - destruct (Hvm 0%nat (ir.mkAbiParam pointer_type ir.VMContext)) as (v & Hv & Ht); [done|]. exists v.
    split; [by apply (ex_vmctx _ _ X2), (ex_vmctx _ _ X)|by apply (ex_types _ _ X2), (ex_types _ _ X)].
  - by rewrite (ex_sig _ _ X2), (ex_sig _ _ X), Hg.
Qed.
Lemma wp_exit_block t rs (Q : Block -> TState B -> Prop) : ir.returns (func_signature (bld t)) = normal <$> rs ->
  (forall e b', made (bld t) b' e rs -> Q e (mkT b' (st t))) ->
  wp (onb create_block) t (fun e t' => wp (onb (append_block_params_for_function_returns e)) t' (fun _ => Q e)).
Proof.
  intros Hr HQ. apply wp_create_block. intros e b1 [X D F S E U C N K UF US NE P FR].
  destruct (law_append_function_returns b1 e) as (b2 & Ha & X' & [[D' F' S' E'] U' C'] & Hd); [done|done|by rewrite F|done|].
  eapply wp_onb; [exact Ha|]. apply HQ. split; try done.
  - by eapply extends_trans.
  - intros j Hj. rewrite D'; [by apply D|by apply (ex_known _ _ (proj1 X))|]. intros [= ->]. done.
  - intros j. by rewrite F'.
  - intros j. by rewrite S'.
  - intros i j. by rewrite E'.
  - by rewrite U'.
  - auto.
  - by apply (ex_known _ _ (proj1 X')).
  - by rewrite Hd, (ex_sig _ _ (proj1 X)), Hr, normal_types.
  - auto.
Qed.

Definition first_state (s : FuncTranslationState) (e : Block) (n : Z) : FuncTranslationState :=
  mkState [] [Block_ e 0 n 0 false] true ∅ ∅ ∅ ∅ ∅.
Lemma initialize_ok s sig e rs : stack s = [] -> control_stack s = [] -> ir.returns sig = normal <$> rs ->
  initialize (E:=Error) dbg sig e s = Ok (first_state s e (pm_len rs)).
Proof.
  intros Hs Hc Hr. unfold initialize. rewrite Hr. assert (pm_len (filter (fun p => ir.purpose p = ir.Normal) (normal <$> rs)) = pm_len rs) as ->.
  { clear. unfold pm_len. f_equal. induction rs as [|r rs IH]; [done|]. rewrite fmap_cons, filter_cons_True by done. cbn [length]. by rewrite IH. }
  unfold clear, push_block. rewrite Hs, Hc, !debug_assert_true by done. cbn. by rewrite debug_assert_true.
Qed.
Lemma prepared_sim validator locals results b s e : prepared b e results locals -> Forall (fun t => canon t = t) results ->
  height [enter KBlock [] results] < max_height ->
  sim dbg env validator locals results (mkT b (first_state s e (pm_len results))) [enter KBlock [] results].
Proof.
  intros [L T D Vv Vm R] Hc Hh. split; [by eexists|done|done|left]. split; [done|]. split; [|split; [done|]].
  - unfold frames. cbn [st control_stack first_state rev app stack bld]. eapply (L_cons _ _ _ _ _ _ _ [] [] [] []); [constructor| |done|apply alive_enter|constructor].
    by split; cbn.
  - split; [cbn; constructor; [apply not_elem_of_nil|constructor]|done|]. split; try done; cbn [st first_state st_functions signatures st_globals st_memories st_tables].
    intros i ty Hi. cbn [bld]. by rewrite Vv.
Qed.

(** ** The function *)
Context {V : Type} (vops : ValidatorOps V) (validator : FuncValidator).
Context (EO : env_ok env).
Context (view_types : forall v, same_types (validator_view vops v) validator).

(** What the function's type and its declarations say about locals and results. *)
Definition local_types (sig : ir.Signature) (ltys : list ir.Type_) : list ir.Type_ := drop 2 (param_types (ir.params sig)) ++ ltys.
Definition accepts_body (decls : list (Z * wasmparser.ValType)) (ops : list Operator.WasmOperator) (v : V) : outcome Error V :=
  v ← accepts_locals vops decls v; v ← accepts vops ops v; validate_finish vops v.

Lemma local_type_canon wty ty : local_type env wty = Some ty -> canon ty = ty.
Proof.
  intros (t & Ht & H)%bind_Some. apply ok_inv in Ht. assert (t = ty) as <-.
  { destruct wty; try (by simplify_eq). apply bind_Some in H as (h & _ & H). case_match; by simplify_eq. }
  destruct wty; cbn in Ht; simplify_eq; try done. apply bind_ok in Ht as (h & _ & (rr & Hr & [= <-])%bind_ok).
  unfold env_reference_type, reference_type in Hr. destruct (top_inner (top h)); cbn in Hr; by simplify_eq.
Qed.
Lemma decl_types_canon decls ltys : decl_types env decls = Some ltys -> Forall (fun t => canon t = t) ltys.
Proof.
  revert ltys. induction decls as [|[n wty] decls IH]; cbn; intros ltys; [intros [= <-]; constructor|].
  intros (ty & Hty%local_type_canon & (tl & Htl & [= <-])%bind_Some)%bind_Some. apply Forall_app. split; [by apply Forall_replicate|auto].
Qed.

(** Everything before the first operator. *)
Definition prologue (body : FunctionBody) : SM (V * TState B) Error unit :=
  nb ← translating (query dfg_num_blocks);
  _ ← sm_lift (debug_assert dbg (nb =? 0));
  ni ← translating (query dfg_num_insts);
  _ ← sm_lift (debug_assert dbg (ni =? 0));
  entry_block ← translating (onb create_block);
  _ ← translating (onb (append_block_params_for_function_params entry_block));
  _ ← translating (onb (switch_to_block entry_block));
  _ ← translating (onb (seal_block entry_block));
  _ ← translating (onb ensure_inserted_block);
  num_params ← translating (declare_wasm_parameters entry_block);
  exit_block ← translating (onb create_block);
  _ ← translating (onb (append_block_params_for_function_returns exit_block));
  sig ← translating (query func_signature);
  _ ← translating (mod_st (initialize dbg sig exit_block));
  translate_local_decls env vops body num_params.
Lemma translate_body_split body s : translate_body dbg env vops body s = (_ ← prologue body; _ ← translate_function_body dbg env vops body; translating (onb finalize)) s.
Proof.
  unfold translate_body, prologue, mbind, sm_bind. repeat lazymatch goal with |- match ?x with _ => _ end = _ => destruct x as [[?|?|] ?]; [|reflexivity..] end. reflexivity.
Qed.
Lemma prologue_ok ft sig decls ltys ops v v1 b s : fresh b sig -> stack s = [] -> control_stack s = [] -> wasm_call_signature (E:=Error) ft = Ok sig ->
  decl_types env decls = Some ltys -> pm_len (ir.params sig) + pm_len ltys < max_height -> height [enter KBlock [] (param_types (ir.returns sig))] < max_height -> accepts_locals vops decls v = Ok v1 ->
  Forall (fun t => canon t = t) (local_types sig ltys) /\
  wpv (prologue (mkBody (Ok (Ok <$> decls)) (Ok <$> ops))) (v, mkT b s) (fun _ v' t => v' = v1 /\ pm_len (control_stack (st t)) = 1 /\
    sim dbg env validator (local_types sig ltys) (param_types (ir.returns sig)) t [enter KBlock [] (param_types (ir.returns sig))]).
Proof.
  intros Hfr Hs Hc Hft Hd Hlen Hh A1. destruct (call_signature_shape _ _ Hft) as (ps & rs & -> & Hps & Hrs).
  unfold local_types. cbn [ir.params ir.returns] in *. rewrite normal_types in *.
  assert (drop 2 (param_types (blank_sig ++ (normal <$> ps))) = ps) as Edr by (unfold param_types, blank_sig; cbn; apply normal_types).
  rewrite Edr. rewrite pm_len_app in Hlen. split; [apply Forall_app; split; [done|by eapply decl_types_canon]|].
  assert (pm_len (ps ++ ltys) < max_height) as Hlp by (rewrite pm_len_app; unfold pm_len in *; rewrite length_fmap in Hlen; cbn in Hlen; lia).
  unfold prologue. apply wpv_bind, wpv_translating, wp_query. apply wpv_bind, wpv_debug; [cbn [bld]; by rewrite (fr_blocks _ _ Hfr)|].
  apply wpv_bind, wpv_translating, wp_query. apply wpv_bind, wpv_debug; [cbn [bld]; by rewrite (fr_insts _ _ Hfr)|].
  pose proof (enter_function_ok (mkT b s) _ Hfr) as H. apply wp_bind_inv in H. apply wpv_bind, wpv_translating. eapply wp_mono; [exact H|clear H].
  intros k t1 H%wp_bind_inv. apply wpv_bind, wpv_translating. eapply wp_mono; [exact H|clear H].
  intros [] t2 H%wp_bind_inv. apply wpv_bind, wpv_translating. eapply wp_mono; [exact H|clear H].
  intros [] t3 H%wp_bind_inv. apply wpv_bind, wpv_translating. eapply wp_mono; [exact H|clear H].
  intros [] t4 H%wp_bind_inv. apply wpv_bind, wpv_translating. eapply wp_mono; [exact H|clear H].
  intros [] t5 (? & ? & [= <- <-] & E5 & En). apply wpv_bind, wpv_translating, wp_bind, wp_query. rewrite (ea_sig _ _ _ En).
  eapply wp_mono; [apply (declare_parameters_ok k _ [] _ t5 eq_refl); try apply En|].
  { cbn [ir.params app]. rewrite (pm_len_app blank_sig). pose proof (pm_len_nonneg ltys). lia. }
  cbn [ir.params app]. rewrite Edr. intros i t6 (-> & E6 & X6 & F6 & V6). apply wpv_bind, wpv_translating.
  eapply wp_mono; [apply (wp_exit_block _ rs (fun e t' => exists b', t' = mkT b' (st t6) /\ made (bld t6) b' e rs))|].
  { by rewrite (ex_sig _ _ X6), (ea_sig _ _ _ En). }
  { intros e b' Hm. by exists b'. }
  intros e t7 H7. apply wpv_bind, wpv_translating. eapply wp_mono; [exact H7|]. intros [] t8 (b8 & -> & Hm).
  pose proof (entered_prepared _ _ _ _ _ _ _ _ En X6 F6 V6 Hm) as Hpr. cbn [st bld] in *.
  apply wpv_bind, wpv_translating, wp_query. apply wpv_bind, wpv_translating.
  eapply wp_mod; [apply (initialize_ok _ _ _ rs); cbn [bld st]; [congruence|congruence|apply Hpr]|]. cbn [bld st].
  apply wpv_bind. eapply wpv_lift; [reflexivity|].
  eapply wpv_mono; [apply (local_decls_ok _ _ _ _ ltys _ v1); [apply live_open, Hpr|apply Hpr|done|done|done]|].
  intros [] ? t9 (-> & E9 & Q9 & V9). destruct t9 as [b9 s9]. cbn [st bld] in *. subst s9. split; [done|]. split; [done|].
  apply prepared_sim; [by eapply prepared_quiet|done|done].
Qed.

Lemma function_ok ft sig decls ltys ops v v' b s : fresh b sig -> stack s = [] -> control_stack s = [] -> wasm_call_signature (E:=Error) ft = Ok sig ->
  decl_types env decls = Some ltys -> pm_len (ir.params sig) + pm_len ltys < max_height ->
  valid_body env validator (local_types sig ltys) (param_types (ir.returns sig)) ops = true -> accepts_body decls ops v = Ok v' ->
  wpv (translate_body dbg env vops (mkBody (Ok (Ok <$> decls)) (Ok <$> ops))) (v, mkT b s) (fun _ v1 t => v1 = v' /\ stack (st t) = [] /\ control_stack (st t) = []).
Proof.
  intros Hfr Hs Hc Hft Hd Hlen Hval (v1 & A1 & (v2 & A2 & A3)%bind_ok)%bind_ok. apply andb_true_iff in Hval as [Hh%Z.ltb_lt Hvs].
  destruct (prologue_ok ft sig decls ltys ops v v1 b s) as [Hcan H]; try done.
  unfold wpv. setoid_rewrite translate_body_split. apply wpv_bind. eapply wpv_mono; [exact H|]. clear H. intros [] ? t9 (-> & Hcs & Hsim). apply wpv_bind.
  eapply wpv_mono; [eapply (function_body_ok _ _ _ _ view_types EO _ _ Hcan); try done|].
  - by destruct (vsteps _ _ _ _ _) as [[|]|].
  - intros [] ? t10 [-> Hcm]. apply wpv_translating. eapply wp_mono; [by apply finalize_ok|]. intros [] t11 E11. rewrite E11.
    destruct Hcm as (? & ? & _). done.
Qed.
End Function.
