(* ===== verification/RecBuilder.v ===== *)
(** * A recording builder

    An instance of the code generator's interface that records the function as
    it is built and panics whenever a documented precondition is not met: an
    instruction whose operands have the wrong types, a branch to a sealed block
    or with the wrong arguments, a block that is sealed twice, left before it is
    filled or not sealed when the function is finished.  It shows that the laws
    can hold, and runs the translator on concrete functions. *)
From stdpp Require Import base list gmap option numbers.
From S2P Require Import Prelude Trap Module HeapAccess Clif ClifLaws.
Local Open Scope Z_scope.

Record Blk : Type := mkBlk { bl_params : list (Value * ir.Type_); bl_filled : bool; bl_sealed : bool }.
(** What happens in a block, in order: instructions (by their number), and
    definitions and uses of variables. *)
Inductive Event : Type := EInst (k : Inst) | EDef (x : Z) (v : Value) | EUse (x : Z) (v : Value).
Record Rec : Type := mkRec {
  r_sig : ir.Signature; r_current : option Block; r_entry : option Block; r_blocks : gmap Block Blk;
  r_values : list ir.Type_; r_insts : list (InstData * list Value); r_vars : gmap Z ir.Type_;
  r_sigs : list ir.Signature; r_funcs : list ir.ExtFuncData; r_trace : list (option Block * Event) }.
Definition start (sig : ir.Signature) : Rec := mkRec sig None None ∅ [] [] ∅ [] [] [].

Definition set_current c b := mkRec (r_sig b) c (r_entry b) (r_blocks b) (r_values b) (r_insts b) (r_vars b) (r_sigs b) (r_funcs b) (r_trace b).
Definition set_entry e b := mkRec (r_sig b) (r_current b) e (r_blocks b) (r_values b) (r_insts b) (r_vars b) (r_sigs b) (r_funcs b) (r_trace b).
Definition set_blocks l b := mkRec (r_sig b) (r_current b) (r_entry b) l (r_values b) (r_insts b) (r_vars b) (r_sigs b) (r_funcs b) (r_trace b).
Definition set_values l b := mkRec (r_sig b) (r_current b) (r_entry b) (r_blocks b) l (r_insts b) (r_vars b) (r_sigs b) (r_funcs b) (r_trace b).
Definition set_insts l b := mkRec (r_sig b) (r_current b) (r_entry b) (r_blocks b) (r_values b) l (r_vars b) (r_sigs b) (r_funcs b) (r_trace b).
Definition set_vars m b := mkRec (r_sig b) (r_current b) (r_entry b) (r_blocks b) (r_values b) (r_insts b) m (r_sigs b) (r_funcs b) (r_trace b).
Definition set_sigs l b := mkRec (r_sig b) (r_current b) (r_entry b) (r_blocks b) (r_values b) (r_insts b) (r_vars b) l (r_funcs b) (r_trace b).
Definition set_funcs l b := mkRec (r_sig b) (r_current b) (r_entry b) (r_blocks b) (r_values b) (r_insts b) (r_vars b) (r_sigs b) l (r_trace b).
Definition log e b := mkRec (r_sig b) (r_current b) (r_entry b) (r_blocks b) (r_values b) (r_insts b) (r_vars b) (r_sigs b) (r_funcs b) (r_trace b ++ [(r_current b, e)]).

Definition blk (b : Rec) (k : Block) : option Blk := r_blocks b !! k.
Definition blk_filled (b : Rec) (k : Block) : bool := match blk b k with Some x => bl_filled x | None => false end.
Definition blk_sealed (b : Rec) (k : Block) : bool := match blk b k with Some x => bl_sealed x | None => false end.
Definition blk_params (b : Rec) (k : Block) : list (Value * ir.Type_) := match blk b k with Some x => bl_params x | None => [] end.
Definition on_block (k : Block) (f : Blk -> Blk) (b : Rec) : Rec := set_blocks (alter f k (r_blocks b)) b.
(** A number that neither a block nor a branch uses. *)
Definition new_block (b : Rec) : Block :=
  1 + foldr Z.max (-1) (((map_to_list (r_blocks b)).*1) ++ concat (branch_targets ∘ fst <$> r_insts b)).
Definition val_type (b : Rec) (v : Value) : option ir.Type_ := pm_get (r_values b) v.

(** New values of the given types. *)
Definition fresh_values (b : Rec) (ts : list ir.Type_) : list Value := (fun i => Z.of_nat (length (r_values b) + i)) <$> seq 0 (length ts).
Definition add_params (k : Block) (ts : list ir.Type_) (b : Rec) : Rec :=
  set_values (r_values b ++ ts) (on_block k (fun x => mkBlk (bl_params x ++ zip (fresh_values b ts) ts) (bl_filled x) (bl_sealed x)) b).
Definition insert (b : Rec) : Rec := match r_entry b with Some _ => b | None => set_entry (r_current b) b end.

(** ** Checking instructions *)
Definition arg_types (b : Rec) (args : list Value) : option (list ir.Type_) := mapM (val_type b) args.
Definition args_match (b : Rec) (args : list Value) (ts : list ir.Type_) : bool := bool_decide (arg_types b args = Some ts).
Definition check_target (b : Rec) (d : Block) (args : list Value) : bool :=
  match blk b d with Some x => negb (bl_sealed x) && args_match b args (snd <$> bl_params x) | None => false end.
Definition guard_types (c : bool) (ts : list ir.Type_) : option (list ir.Type_) := if c then Some ts else None.
Definition is_i64 (b : Rec) (v : Value) : bool := bool_decide (val_type b v = Some ir.I64).
Definition check_inst (b : Rec) (i : InstData) : option (list ir.Type_) :=
  match i with
  | Op o ctrl args imm => tys ← arg_types b args; op_sig o ctrl tys imm
  | Icmp _ x y => t ← val_type b x; guard_types (bool_decide (val_type b y = Some t) && int_lanes t) [truth_type t]
  | IcmpImm _ x _ => t ← val_type b x; guard_types (ir.is_int t) [ir.I8]
  | Fcmp _ x y => t ← val_type b x; guard_types (bool_decide (val_type b y = Some t) && float_lanes t) [truth_type t]
  | LoadOp o ty _ addr _ => guard_types (is_i64 b addr && load_ok o ty) [ty]
  | StoreOp o _ val addr _ => t ← val_type b val; guard_types (is_i64 b addr && store_ok o t) []
  | GlobalValueOp _ => Some [ir.I64]
  | UaddOverflowTrap x y _ => t ← val_type b x; guard_types (bool_decide (val_type b y = Some t) && (bool_decide (t = ir.I32) || bool_decide (t = ir.I64))) [t]
  | Trapz c _ | Trapnz c _ => t ← val_type b c; guard_types (ir.is_int t) []
  | Fence | TrapOp _ => Some []
  | CallOp callee args =>
      f ← pm_get (r_funcs b) callee; s ← pm_get (r_sigs b) (ir.ef_signature f);
      guard_types (args_match b args (param_types (ir.params s))) (param_types (ir.returns s))
  | CallIndirectOp sig addr args =>
      s ← pm_get (r_sigs b) sig;
      guard_types (is_i64 b addr && args_match b args (param_types (ir.params s))) (param_types (ir.returns s))
  | Jump d args => guard_types (check_target b d args) []
  | Brif c b1 args1 b2 args2 => t ← val_type b c; guard_types (ir.is_int t && check_target b b1 args1 && check_target b b2 args2) []
  | BrTable v d targets => guard_types (bool_decide (val_type b v = Some ir.I32) && forallb (fun d => check_target b d []) (d :: targets)) []
  | Return_ args => guard_types (args_match b args (param_types (ir.returns (r_sig b)))) []
  end.

Definition is_open (b : Rec) : bool := match r_current b with Some k => negb (blk_filled b k) | None => false end.
Definition fill (i : InstData) (b : Rec) : Rec :=
  match r_current b with
  | Some k => if is_terminator i then on_block k (fun x => mkBlk (bl_params x) true (bl_sealed x)) b else b
  | None => b
  end.
Definition add_inst (i : InstData) (ts : list ir.Type_) (b : Rec) : Rec :=
  fill i (insert (set_values (r_values b ++ ts) (set_insts (r_insts b ++ [(i, fresh_values b ts)]) b))).

Definition retarget (old new : Block) (i : InstData) : InstData :=
  let f d := if bool_decide (d = old) then new else d in
  match i with
  | Jump d args => Jump (f d) args
  | Brif c b1 args1 b2 args2 => Brif c (f b1) args1 (f b2) args2
  | BrTable v d ts => BrTable v (f d) (f <$> ts)
  | i => i
  end.
Definition has_edge (b : Rec) (d : Block) : bool := existsb (fun i => bool_decide (d ∈ branch_targets i.1)) (r_insts b).
Definition block_done (b : Rec) (k : Block) : bool :=
  negb (blk_filled b k || bool_decide (r_current b = Some k)) || (blk_filled b k && blk_sealed b k).

Definition returns {A} (a : A) (b : Rec) : outcome Error A * Rec := (Ok a, b).
Definition panics {A} (b : Rec) : outcome Error A * Rec := (Panic, b).

#[global] Instance rec_builder : FunctionBuilder Rec := {
  create_block b := returns (new_block b) (set_blocks (<[new_block b := mkBlk [] false false]> (r_blocks b)) b);
  append_block_param k t b := if bool_decide (is_Some (blk b k)) && negb (blk_filled b k) then returns (pm_len (r_values b)) (add_params k [t] b) else panics b;
  append_block_params_for_function_params k b :=
    if bool_decide (is_Some (blk b k)) && negb (blk_filled b k) && bool_decide (blk_params b k = []) then returns tt (add_params k (param_types (ir.params (r_sig b))) b) else panics b;
  append_block_params_for_function_returns k b :=
    if bool_decide (is_Some (blk b k)) && negb (blk_filled b k) && bool_decide (blk_params b k = []) then returns tt (add_params k (param_types (ir.returns (r_sig b))) b) else panics b;
  switch_to_block k b :=
    if bool_decide (is_Some (blk b k)) && negb (blk_filled b k) && match r_current b with Some c => blk_filled b c | None => true end
    then returns tt (set_current (Some k) b) else panics b;
  seal_block k b :=
    if bool_decide (is_Some (blk b k)) && negb (blk_sealed b k) then returns tt (on_block k (fun x => mkBlk (bl_params x) (bl_filled x) true) b) else panics b;
  ensure_inserted_block b := match r_current b with Some _ => returns tt (insert b) | None => panics b end;
  build i b :=
    match check_inst b i with
    | Some ts => if is_open b then returns (pm_len (r_insts b)) (log (EInst (pm_len (r_insts b))) (add_inst i ts b)) else panics b
    | None => panics b
    end;
  change_jump_destination i old new b :=
    if negb (blk_sealed b old) && negb (blk_sealed b new) && bool_decide (is_Some (blk b new)) then
      returns tt (set_insts (alter (fun x => (retarget old new x.1, x.2)) (Z.to_nat i) (r_insts b)) b)
    else panics b;
  declare_var x t b := match r_vars b !! x with None => returns tt (set_vars (<[x := t]> (r_vars b)) b) | Some _ => panics b end;
  def_var x v b := if bool_decide (is_Some (r_vars b !! x)) && bool_decide (val_type b v = r_vars b !! x) then returns tt (log (EDef x v) b) else panics b;
  use_var x b :=
    match r_vars b !! x with
    | Some t => if is_open b then returns (pm_len (r_values b)) (log (EUse x (pm_len (r_values b))) (set_values (r_values b ++ [t]) b)) else panics b
    | None => panics b
    end;
  import_signature s b := returns (pm_len (r_sigs b)) (set_sigs (r_sigs b ++ [s]) b);
  import_function f b :=
    if bool_decide (is_Some (pm_get (r_sigs b) (ir.ef_signature f))) then returns (pm_len (r_funcs b)) (set_funcs (r_funcs b ++ [f]) b) else panics b;
  finalize b := if forallb (block_done b) (map_to_list (r_blocks b)).*1 then returns tt b else panics b;
  dfg_num_blocks b := Z.of_nat (size (r_blocks b));
  dfg_num_insts b := pm_len (r_insts b);
  dfg_value_type := val_type;
  block_params b k := fst <$> blk_params b k;
  inst_results b i := match pm_get (r_insts b) i with Some x => x.2 | None => [] end;
  func_signature := r_sig;
  dfg_signature b r := pm_get (r_sigs b) r;
  dfg_ext_func b r := pm_get (r_funcs b) r;
  special_param_vmctx b :=
    k ← r_entry b; p ← list_find (fun p => ir.purpose p = ir.VMContext) (ir.params (r_sig b)); fst <$> blk_params b k !! p.1;
  is_unreachable b :=
    match r_current b with
    | Some k => negb (bool_decide (r_entry b = Some k)) && blk_sealed b k && negb (has_edge b k)
    | None => true
    end }.

#[global] Instance rec_view : BuilderView Rec := {
  current := r_current;
  entry := r_entry;
  known b k := is_Some (blk b k);
  filled b k := blk_filled b k = true;
  sealed b k := blk_sealed b k = true;
  edge b j d := exists i, pm_get (r_insts b) j = Some i /\ d ∈ branch_targets i.1;
  declared b k := snd <$> blk_params b k;
  clean b k := Forall2 (fun v t => val_type b v = Some t) (fst <$> blk_params b k) (snd <$> blk_params b k);
  var_type b x := r_vars b !! x }.
