(* ===== verification/RecBuilderLaws.v ===== *)
(** * The recording builder keeps the laws *)
From stdpp Require Import base list gmap option numbers.
From S2P Require Import Prelude Trap Module HeapAccess Clif ClifLaws RecBuilder.
Local Open Scope Z_scope.

Lemma pm_get_app_l {A} (l k : list A) i x : pm_get l i = Some x -> pm_get (l ++ k) i = Some x.
Proof. unfold pm_get. case_match; [|done]. apply lookup_app_l_Some. Qed.
Lemma pm_get_alter {A} (f : A -> A) (l : list A) k j : is_Some (pm_get l k) ->
  pm_get (alter f (Z.to_nat k) l) j = if bool_decide (j = k) then f <$> pm_get l k else pm_get l j.
Proof.
  unfold pm_get. intros Hk. destruct (Z.leb_spec 0 k); [|by destruct Hk]. case_bool_decide as E.
  - subst. rewrite (proj2 (Z.leb_le _ _)) by lia. by rewrite list_lookup_alter_eq.
  - destruct (Z.leb_spec 0 j); [|done]. rewrite list_lookup_alter_ne; [done|]. intros ?. apply E. lia.
Qed.

(** ** Growing records *)
Record grows (b b' : Rec) : Prop := {
  g_values : r_values b `prefix_of` r_values b';
  g_blocks : forall k x, blk b k = Some x -> exists y, blk b' k = Some y /\ bl_params x `prefix_of` bl_params y;
  g_sig : r_sig b' = r_sig b;
  g_sigs : r_sigs b `prefix_of` r_sigs b';
  g_funcs : r_funcs b `prefix_of` r_funcs b';
  g_entry : forall k, r_entry b = Some k -> r_entry b' = Some k }.
Lemma prefix_get {A} (l k : list A) i x : l `prefix_of` k -> pm_get l i = Some x -> pm_get k i = Some x.
Proof. intros [m ->]. apply pm_get_app_l. Qed.
Lemma grows_keeps b b' : grows b b' -> keeps b b'.
Proof.
  intros [V Bl S Sg F E]. split; cbn; try done.
  - intros v t. by apply prefix_get.
  - intros k [x Hx]. destruct (Bl _ _ Hx) as (y & -> & _). done.
  - intros r s. by apply prefix_get.
  - intros r f. by apply prefix_get.
  - intros v (k & Hk & (p & Hp & Hv)%bind_Some)%bind_Some. rewrite (E _ Hk), S. cbn. rewrite Hp. cbn.
    unfold blk_params in *. destruct (blk b k) as [x|] eqn:Hx; [|done]. destruct (Bl _ _ Hx) as (y & -> & l & ->).
    apply fmap_Some in Hv as (q & Hq & ->). by rewrite (lookup_app_l_Some _ _ _ _ Hq).
Qed.
Lemma blocks_same_blk (b b' : Rec) : r_blocks b' = r_blocks b -> forall k, blk b' k = blk b k.
Proof. intros E k. unfold blk. by rewrite E. Qed.
Lemma grows_other b b' : r_blocks b' = r_blocks b -> r_values b `prefix_of` r_values b' -> r_sig b' = r_sig b -> r_sigs b `prefix_of` r_sigs b' ->
  r_funcs b `prefix_of` r_funcs b' -> (forall k, r_entry b = Some k -> r_entry b' = Some k) -> grows b b'.
Proof. intros E. split; try done. intros k x Hx. exists x. by rewrite (blocks_same_blk _ _ E). Qed.

(** A block is changed. *)
Lemma blk_on b k f j : is_Some (blk b k) -> blk (on_block k f b) j = if bool_decide (j = k) then f <$> blk b k else blk b j.
Proof. intros _. unfold blk, on_block. cbn. case_bool_decide; subst; [apply lookup_alter_eq|by apply lookup_alter_ne]. Qed.
Lemma grows_on b k f : is_Some (blk b k) -> (forall x, bl_params x `prefix_of` bl_params (f x)) -> grows b (on_block k f b).
Proof.
  intros Hk Hf. split; try done. intros j x Hx. rewrite blk_on by done. case_bool_decide as E; [|by exists x].
  subst. rewrite Hx. by exists (f x).
Qed.
Lemma rec_grows_trans a b c : grows a b -> grows b c -> grows a c.
Proof.
  intros [V Bl S Sg F E] [V2 Bl2 S2 Sg2 F2 E2]. split; try (by etrans); auto.
  intros k x (y & Hy & P)%Bl. destruct (Bl2 _ _ Hy) as (z & Hz & P2). exists z. split; [done|by etrans].
Qed.

(** Values are added, blocks stay. *)
Lemma clean_grows b b' k : r_values b `prefix_of` r_values b' -> blk b' k = blk b k -> clean b k -> clean b' k.
Proof.
  cbn. unfold blk_params. intros V -> Hc. eapply list.Forall2_impl; [exact Hc|]. intros v t. by apply prefix_get.
Qed.
Lemma same_flow_other x (b b' : Rec) : r_blocks b' = r_blocks b -> r_values b `prefix_of` r_values b' -> r_insts b' = r_insts b ->
  r_current b' = r_current b -> same_flow x b b'.
Proof.
  intros E V I C. pose proof (blocks_same_blk _ _ E) as Hb. split; [split|done|]; cbn; unfold blk_params, blk_filled, blk_sealed.
  - intros k _ _. by rewrite Hb.
  - intros k. by rewrite Hb.
  - intros k. by rewrite Hb.
  - intros j d. by rewrite I.
  - intros k. by apply clean_grows.
Qed.
Lemma extends_other (b b' : Rec) : r_blocks b' = r_blocks b -> r_values b `prefix_of` r_values b' -> r_sig b' = r_sig b -> r_sigs b `prefix_of` r_sigs b' ->
  r_funcs b `prefix_of` r_funcs b' -> (forall k, r_entry b = Some k -> r_entry b' = Some k) -> r_vars b' = r_vars b -> extends b b'.
Proof. intros. split; [by apply grows_keeps, grows_other|]. intros x. cbn. congruence. Qed.

(** ** New values *)
Lemma fresh_values_typed b ts V : r_values b ++ ts `prefix_of` V -> Forall2 (fun v t => pm_get V v = Some t) (fresh_values b ts) ts.
Proof.
  intros [m ->]. apply Forall2_same_length_lookup_2; [unfold fresh_values; by rewrite length_fmap, length_seq|].
  intros i v t Hv Ht. unfold fresh_values in Hv. apply list_lookup_fmap_Some in Hv as (j & -> & Hj). apply lookup_seq in Hj as [-> Hi]. cbn.
  unfold pm_get. rewrite (proj2 (Z.leb_le _ _)), Nat2Z.id by lia. rewrite <- app_assoc, lookup_app_r by lia.
  rewrite Nat.add_comm, Nat.add_sub. by apply lookup_app_l_Some.
Qed.
Lemma grows_params b k ts : is_Some (blk b k) -> grows b (add_params k ts b).
Proof.
  intros Hk. eapply rec_grows_trans; [eapply (grows_on b k (fun x => mkBlk _ (bl_filled x) (bl_sealed x)) Hk); intros x; by apply prefix_app_r|].
  apply grows_other; try done. by apply prefix_app_r.
Qed.
Lemma blk_add b k ts j : is_Some (blk b k) -> blk (add_params k ts b) j =
  if bool_decide (j = k) then (fun x => mkBlk (bl_params x ++ zip (fresh_values b ts) ts) (bl_filled x) (bl_sealed x)) <$> blk b k else blk b j.
Proof. apply blk_on. Qed.
Lemma add_params_law b k ts : is_Some (blk b k) -> clean b k ->
  extends b (add_params k ts b) /\ same_flow (Some k) b (add_params k ts b) /\ declared (add_params k ts b) k = declared b k ++ ts.
Proof.
  intros Hk Hc. pose proof (grows_params b k ts Hk) as G. pose proof (blk_add b k ts) as Hb. destruct Hk as [x Hx].
  assert (length (fresh_values b ts) = length ts) as Hlen by (unfold fresh_values; by rewrite length_fmap, length_seq).
  split; [split; [by apply grows_keeps|done]|]. split; [split; [split|done|]|]; cbn; unfold blk_params, blk_filled, blk_sealed.
  - intros j _ Hj. rewrite Hb by done. by rewrite bool_decide_eq_false_2 by congruence.
  - intros j. rewrite Hb by done. case_bool_decide; [|done]. subst. by rewrite Hx.
  - intros j. rewrite Hb by done. case_bool_decide; [|done]. subst. by rewrite Hx.
  - done.
  - intros j Hj. rewrite Hb by done. case_bool_decide; [|by eapply list.Forall2_impl; [exact Hj|]; intros v t; apply prefix_get, G].
    subst. rewrite Hx in Hj |- *. cbn. rewrite !fmap_app, fst_zip, snd_zip by lia. apply Forall2_app.
    + eapply list.Forall2_impl; [exact Hj|]. intros v t. apply prefix_get, G.
    + by apply (fresh_values_typed b ts).
  - rewrite Hb by done. rewrite bool_decide_eq_true_2, Hx by done. cbn. by rewrite fmap_app, snd_zip by lia.
Qed.

(** ** Instructions that satisfy their constraints pass the check *)
Lemma arg_types_ok b args ts : Forall2 (has_type b) args ts -> arg_types b args = Some ts.
Proof. intros H. by apply mapM_Some. Qed.
Lemma args_match_ok b args ts : Forall2 (has_type b) args ts -> args_match b args ts = true.
Proof. intros H. by apply bool_decide_eq_true_2, arg_types_ok. Qed.
Lemma target_check b d args : target_ok b d args -> check_target b d args = true.
Proof.
  intros ([x Hx] & Hs & Ha). cbn in Hs, Ha. unfold check_target, blk_sealed, blk_params in *. rewrite Hx in *.
  rewrite (args_match_ok _ _ _ Ha). by destruct (bl_sealed x).
Qed.
Lemma is_i64_ok b v : has_type b v ir.I64 -> is_i64 b v = true.
Proof. intros H. by apply bool_decide_eq_true_2. Qed.
Lemma check_inst_ok b i ts : inst_ok b i ts -> check_inst b i = Some ts.
Proof.
  unfold has_type. cbn [dfg_value_type rec_builder]. destruct i; cbn [inst_ok check_inst]; unfold has_type; cbn [dfg_value_type rec_builder dfg_ext_func dfg_signature func_signature].
  - intros (tys & Ha & Hs). by rewrite (arg_types_ok _ _ _ Ha).
  - intros (t & -> & -> & Hi & ->). cbn. by rewrite bool_decide_eq_true_2, Hi.
  - intros (t & -> & Hi & ->). cbn. by rewrite Hi.
  - intros (t & -> & -> & Hi & ->). cbn. by rewrite bool_decide_eq_true_2, Hi.
  - intros (Ha & Hl & ->). by rewrite (is_i64_ok _ _ Ha), Hl.
  - intros (t & Ha & -> & Hl & ->). cbn. by rewrite (is_i64_ok _ _ Ha), Hl.
  - by intros ->.
  - intros (t & -> & -> & [->| ->] & ->); cbn; by rewrite bool_decide_eq_true_2.
  - intros (t & -> & Hi & ->). cbn. by rewrite Hi.
  - intros (t & -> & Hi & ->). cbn. by rewrite Hi.
  - by intros ->.
  - intros (f & s & -> & Hs & Ha & ->). cbn. rewrite Hs. cbn. by rewrite (args_match_ok _ _ _ Ha).
  - intros (s & -> & Hi & Ha & ->). cbn. by rewrite (is_i64_ok _ _ Hi), (args_match_ok _ _ _ Ha).
  - by intros ->.
  - intros (Ht & ->). by rewrite (target_check _ _ _ Ht).
  - intros ((t & -> & Hi) & H1 & H2 & ->). cbn. by rewrite Hi, (target_check _ _ _ H1), (target_check _ _ _ H2).
  - intros (Hv & Ht & ->). rewrite bool_decide_eq_true_2 by done. assert (forallb (fun d => check_target b d []) (default :: targets) = true) as ->; [|done].
    apply forallb_forall. intros d Hd%list_elem_of_In. eapply target_check. by eapply list.Forall_forall in Ht.
  - intros (Ha & ->). by rewrite (args_match_ok _ _ _ Ha).
Qed.

(** ** Adding instructions *)
Lemma pm_get_snoc_inst {A} (l : list A) x j y : pm_get (l ++ [x]) j = Some y <-> pm_get l j = Some y \/ (j = pm_len l /\ y = x).
Proof.
  split; [by apply pm_get_push_inv|]. intros [H|[-> ->]]; [by apply pm_get_app_l|apply pm_get_push_new].
Qed.
Lemma insert_same b : r_blocks (insert b) = r_blocks b /\ r_values (insert b) = r_values b /\ r_insts (insert b) = r_insts b /\
  r_current (insert b) = r_current b /\ r_sig (insert b) = r_sig b /\ r_sigs (insert b) = r_sigs b /\ r_funcs (insert b) = r_funcs b /\
  r_vars (insert b) = r_vars b /\ forall k, r_entry b = Some k -> r_entry (insert b) = Some k.
Proof. unfold insert. destruct (r_entry b) eqn:E; split_and!; try done; intros k; congruence. Qed.
Lemma fill_spec i b : r_values (fill i b) = r_values b /\ r_insts (fill i b) = r_insts b /\ r_current (fill i b) = r_current b /\
  r_sig (fill i b) = r_sig b /\ r_sigs (fill i b) = r_sigs b /\ r_funcs (fill i b) = r_funcs b /\ r_vars (fill i b) = r_vars b /\ r_entry (fill i b) = r_entry b.
Proof. unfold fill. destruct (r_current b) as [k|] eqn:E; [destruct (is_terminator i)|]; by split_and!. Qed.
Lemma blk_fill i b j : (forall k, r_current b = Some k -> is_Some (blk b k)) ->
  blk (fill i b) j = if bool_decide (r_current b = Some j) && is_terminator i then (fun x => mkBlk (bl_params x) true (bl_sealed x)) <$> blk b j else blk b j.
Proof.
  intros Hc. unfold fill. destruct (r_current b) as [k|]; [|done]. destruct (is_terminator i); [|by rewrite andb_false_r].
  rewrite blk_on by auto. rewrite andb_true_r. do 2 case_bool_decide; simplify_eq; done.
Qed.
Lemma open_current b : open b -> is_open b = true /\ exists k, r_current b = Some k.
Proof.
  intros (k & Hk & _ & Hf). cbn in *. unfold is_open. rewrite Hk. split; [|by exists k]. by destruct (blk_filled b k).
Qed.

Lemma add_inst_same i ts b : r_values (add_inst i ts b) = r_values b ++ ts /\ r_insts (add_inst i ts b) = r_insts b ++ [(i, fresh_values b ts)] /\
  r_current (add_inst i ts b) = r_current b /\ r_sig (add_inst i ts b) = r_sig b /\ r_sigs (add_inst i ts b) = r_sigs b /\
  r_funcs (add_inst i ts b) = r_funcs b /\ r_vars (add_inst i ts b) = r_vars b /\ (forall k, r_entry b = Some k -> r_entry (add_inst i ts b) = Some k).
Proof.
  unfold add_inst. set (b0 := set_values _ _). destruct (fill_spec i (insert b0)) as (-> & -> & -> & -> & -> & -> & -> & ->).
  destruct (insert_same b0) as (_ & -> & -> & -> & -> & -> & -> & -> & H). by split_and!.
Qed.
Lemma blk_add_inst i ts b j : (forall k, r_current b = Some k -> is_Some (blk b k)) ->
  blk (add_inst i ts b) j = if bool_decide (r_current b = Some j) && is_terminator i then (fun x => mkBlk (bl_params x) true (bl_sealed x)) <$> blk b j else blk b j.
Proof.
  intros Hc. unfold add_inst. set (b0 := set_values _ _). destruct (insert_same b0) as (Hb & _ & _ & Hcu & _).
  pose proof (blocks_same_blk _ _ Hb) as Hb'. rewrite blk_fill, Hb', Hcu; [done|]. intros k Hk. rewrite Hb'. apply Hc. by rewrite Hcu in Hk.
Qed.
Lemma build_law b i ts : open b -> inst_ok b i ts ->
  exists k b', build i b = (Ok k, b') /\ extends b b' /\ Forall2 (has_type b') (inst_results b' k) ts /\ flow_after i k b b'.
Proof.
  intros Ho Hi. set (b' := log (EInst (pm_len (r_insts b))) (add_inst i ts b)). exists (pm_len (r_insts b)), b'. pose proof Ho as (c & Hc & [x Hx] & Hf). destruct (open_current _ Ho) as [Ho' _].
  split; [cbn; by rewrite (check_inst_ok _ _ _ Hi), Ho'|]. cbn in Hc, Hf.
  destruct (add_inst_same i ts b) as (V & I & C & S & Sg & F & Va & E).
  change (r_values b' = r_values b ++ ts) in V. change (r_insts b' = r_insts b ++ [(i, fresh_values b ts)]) in I. change (r_sig b' = r_sig b) in S.
  change (r_sigs b' = r_sigs b) in Sg. change (r_funcs b' = r_funcs b) in F. change (r_vars b' = r_vars b) in Va. change (r_current b' = r_current b) in C.
  change (forall k, r_entry b = Some k -> r_entry b' = Some k) in E.
  assert (forall j, blk b' j = if bool_decide (r_current b = Some j) && is_terminator i then (fun x => mkBlk (bl_params x) true (bl_sealed x)) <$> blk b j else blk b j) as Hb.
  { intros j. apply (blk_add_inst i ts b j). intros k Hk. simplify_eq. by exists x. }
  clearbody b'. assert (forall j, blk_params b' j = blk_params b j) as Hp.
  { intros j. unfold blk_params. rewrite Hb. by destruct (_ && _), (blk b j). }
  split; [split|split; [|split]].
  - apply grows_keeps. split; rewrite ?V, ?S, ?Sg, ?F; try done; [by apply prefix_app_r|].
    intros k y Hy. rewrite Hb, Hy. destruct (_ && _); by eexists.
  - intros y. cbn. by rewrite Va.
  - unfold has_type. cbn. unfold val_type. rewrite I, (pm_get_push_new (r_insts b) (i, fresh_values b ts) : pm_get (_ ++ _) _ = _). cbn. rewrite V. by apply fresh_values_typed.
  - intros d _. cbn. by rewrite Hp.
  - intros d. cbn. unfold blk_filled. rewrite Hb, Hc. case_bool_decide as Ed; [|naive_solver]. simplify_eq. destruct (is_terminator i); cbn; [|naive_solver].
    rewrite Hx. cbn. tauto.
  - intros d. cbn. unfold blk_sealed. rewrite Hb. by destruct (_ && _), (blk b d).
  - intros d (y & Hy & _). cbn in Hy. apply pm_get_range in Hy. lia.
  - intros j d. cbn. rewrite I. split.
    + intros (y & [Hy|[-> ->]]%pm_get_snoc_inst & Hd); [left; by exists y|by right].
    + intros [(y & Hy & Hd)|[-> Hd]]; [exists y|eexists]; (split; [apply pm_get_snoc_inst; auto|done]).
  - done.
  - intros d. cbn. rewrite Hp. intros Hcl. eapply list.Forall2_impl; [exact Hcl|]. intros v t. apply prefix_get. rewrite V. by apply prefix_app_r.
Qed.

(** ** Redirected branches *)
Lemma retarget_targets old new i d : d ∈ branch_targets (retarget old new i) <-> (d ∈ branch_targets i /\ d <> old) \/ (d = new /\ old ∈ branch_targets i).
Proof.
  assert (forall x, (if bool_decide (x = old) then new else x) = d <-> (x = d /\ d <> old) \/ (d = new /\ x = old)) as E.
  { intros x. case_bool_decide; naive_solver. }
  destruct i; cbn; rewrite ?elem_of_nil; try tauto; rewrite ?elem_of_cons, ?elem_of_nil, ?list_elem_of_fmap.
  - split; [intros [Hd|[]]; symmetry in Hd; apply E in Hd; naive_solver|]. intros H. left. symmetry. apply E. naive_solver.
  - pose proof (E b1) as E1. pose proof (E b2) as E2. split.
    + intros [Hd|[Hd|[]]]; symmetry in Hd; [apply E1 in Hd|apply E2 in Hd]; naive_solver.
    + intros [([Hd|[Hd|[]]] & Hn)|[Hd [Ho|[Ho|[]]]]]; [left|right; left|left|right; left]; symmetry; [apply E1|apply E2|apply E1|apply E2]; auto.
  - split.
    + intros [Hd|(x & Hd & Hx)]; symmetry in Hd; apply E in Hd; naive_solver.
    + intros [([Hd|Hd] & Hn)|[Hd [Ho|Ho]]]; [left|right; exists d|left|right; exists old]; try (split; [|done]); symmetry; apply E; auto.
Qed.
Lemma change_law b i old new : edge b i old -> known b new -> ~ sealed b old -> ~ sealed b new ->
  exists b', change_jump_destination i old new b = (Ok tt, b') /\ extends b b' /\ current b' = current b /\
    (forall j, known b j -> declared b' j = declared b j) /\ (forall j, filled b' j <-> filled b j) /\
    (forall j, sealed b' j <-> sealed b j) /\ (forall j, clean b j -> clean b' j) /\
    (forall j d, edge b' j d <-> (edge b j d /\ ~ (j = i /\ d = old)) \/ (j = i /\ d = new)).
Proof.
  intros (x & Hx & Hd) Hn Ho Hs. cbn in Hx, Hd, Hn, Ho, Hs. eexists. split.
  { cbn. destruct (blk_sealed b old); [done|]. destruct (blk_sealed b new); [done|]. by rewrite bool_decide_eq_true_2. }
  split; [by apply extends_other|]. split; [done|]. split; [done|]. split; [done|]. split; [done|]. split; [done|].
  intros j d. cbn. rewrite pm_get_alter by (by exists x). case_bool_decide as E.
  - subst. rewrite Hx. cbn. split.
    + intros (? & [= <-] & [[H1 H2]|[-> H2]]%retarget_targets); [left; split; [by exists x|naive_solver]|by right].
    + intros [[(? & ? & H1) H2]|[_ ->]]; simplify_eq; eexists; (split; [reflexivity|]); apply retarget_targets; [left|by right]. split; [done|]. naive_solver.
  - split; [intros H; left; split; [done|naive_solver]|naive_solver].
Qed.

(** ** Blocks *)
Lemma foldr_max l k : k ∈ l -> k <= foldr Z.max (-1) l.
Proof. induction 1; cbn; lia. Qed.
Lemma new_block_new b : blk b (new_block b) = None /\ forall i x, pm_get (r_insts b) i = Some x -> new_block b ∉ branch_targets x.1.
Proof.
  assert (forall k, k ∈ ((map_to_list (r_blocks b)).*1) ++ concat (branch_targets ∘ fst <$> r_insts b) -> new_block b <> k) as H.
  { intros k Hk%foldr_max. unfold new_block. lia. }
  split.
  - destruct (blk b (new_block b)) as [x|] eqn:E; [|done]. destruct (H (new_block b)); [|done]. apply elem_of_app. left.
    apply list_elem_of_fmap. exists (new_block b, x). split; [done|]. by apply elem_of_map_to_list.
  - intros i x Hx Ht. destruct (H (new_block b)); [|done]. apply elem_of_app. right. apply list_elem_of_In, in_concat. exists (branch_targets x.1).
    rewrite <- !list_elem_of_In. split; [|done]. apply list_elem_of_fmap. exists x. split; [done|]. unfold pm_get in Hx. case_match; [|done].
    by eapply list_elem_of_lookup_2.
Qed.
Lemma create_law b : exists k b', create_block b = (Ok k, b') /\ extends b b' /\ same_flow None b b' /\
  ~ known b k /\ known b' k /\ ~ filled b k /\ ~ sealed b k /\ (forall j, ~ edge b j k) /\ declared b' k = [] /\ clean b' k /\ entry b' = entry b.
Proof.
  exists (new_block b). eexists. split; [reflexivity|]. destruct (new_block_new b) as [Hn He]. set (n := new_block b) in *. set (b' := set_blocks _ b).
  assert (forall k, blk b' k = if bool_decide (k = n) then Some (mkBlk [] false false) else blk b k) as Hb.
  { intros k. unfold blk, b'. cbn. case_bool_decide; subst; [apply lookup_insert_eq|by apply lookup_insert_ne]. }
  split; [split; [|done]|split].
  - apply grows_keeps. split; try done. intros k x Hx. rewrite Hb. case_bool_decide; [congruence|]. by exists x.
  - split; [split|done|]; cbn; unfold blk_params, blk_filled, blk_sealed.
    + intros k [x Hx] _. rewrite Hb. by rewrite bool_decide_eq_false_2 by congruence.
    + intros k. rewrite Hb. case_bool_decide; [|done]. subst. by rewrite Hn.
    + intros k. rewrite Hb. case_bool_decide; [|done]. subst. by rewrite Hn.
    + done.
    + intros k Hc. rewrite Hb. case_bool_decide; [constructor|exact Hc].
  - cbn. unfold blk_filled, blk_sealed, blk_params. rewrite Hn, Hb, bool_decide_eq_true_2 by done. split_and!; try done.
    intros j (x & Hx & Hd). by eapply He.
Qed.
Lemma append_law b k ts : known b k -> clean b k -> ~ filled b k -> bool_decide (is_Some (blk b k)) && negb (blk_filled b k) = true /\
  extends b (add_params k ts b) /\ same_flow (Some k) b (add_params k ts b) /\ declared (add_params k ts b) k = declared b k ++ ts.
Proof.
  intros Hk Hc Hf. split; [|by apply add_params_law]. cbn in *. rewrite bool_decide_eq_true_2 by done. by destruct (blk_filled b k).
Qed.
Lemma declared_nil b k : declared b k = [] -> blk_params b k = [].
Proof. cbn. by destruct (blk_params b k). Qed.

Lemma seal_law b k : known b k -> ~ sealed b k ->
  exists b', seal_block k b = (Ok tt, b') /\ extends b b' /\ current b' = current b /\
    (forall j, known b j -> declared b' j = declared b j) /\ (forall j, filled b' j <-> filled b j) /\
    (forall j, sealed b' j <-> sealed b j \/ j = k) /\ (forall j d, edge b' j d <-> edge b j d) /\
    (forall j, clean b j -> ~ filled b j -> clean b' j) /\ entry b' = entry b.
Proof.
  intros Hk Hs. cbn in Hs. eexists. split; [cbn; rewrite bool_decide_eq_true_2 by done; by destruct (blk_sealed b k)|].
  pose proof (fun j => blk_on b k (fun x => mkBlk (bl_params x) (bl_filled x) true) j Hk) as Hb. destruct Hk as [x Hx].
  assert (forall j, blk_params (on_block k (fun x => mkBlk (bl_params x) (bl_filled x) true) b) j = blk_params b j) as Hp.
  { intros j. unfold blk_params. rewrite Hb. case_bool_decide; [|done]. subst. by rewrite Hx. }
  split; [split; [apply grows_keeps, grows_on; [by exists x|done]|done]|]. split; [done|]. split_and!; cbn; unfold blk_filled, blk_sealed.
  - intros j _. by rewrite Hp.
  - intros j. rewrite Hb. case_bool_decide; [|done]. subst. by rewrite Hx.
  - intros j. rewrite Hb. case_bool_decide; [|naive_solver]. subst. rewrite Hx. cbn. tauto.
  - done.
  - intros j Hc _. by rewrite Hp.
  - done.
Qed.
Lemma find_param b k i p : clean b k -> declared b k = param_types (ir.params (r_sig b)) ->
  list_find (fun p => ir.purpose p = ir.VMContext) (ir.params (r_sig b)) = Some (i, p) ->
  exists v, fst <$> blk_params b k !! i = Some v /\ val_type b v = Some (ir.value_type p).
Proof.
  cbn. intros Hc Hd (Hi & _)%list_find_Some. rewrite Hd in Hc.
  destruct (Forall2_lookup_r _ _ _ i (ir.value_type p) Hc) as (v & Hv & Ht); [unfold param_types; by rewrite list_lookup_fmap, Hi|].
  exists v. by rewrite <- list_lookup_fmap.
Qed.
Lemma insert_law b k : current b = Some k -> exists b', ensure_inserted_block b = (Ok tt, b') /\ extends b b' /\ same_flow None b b' /\
  (entry b = None -> entry b' = Some k) /\
  (entry b = None -> clean b k -> declared b k = param_types (ir.params (func_signature b)) ->
   forall i p, list_find (fun p => ir.purpose p = ir.VMContext) (ir.params (func_signature b)) = Some (i, p) ->
   exists v, special_param_vmctx b' = Some v /\ has_type b' v (ir.value_type p)).
Proof.
  intros Hc. cbn in Hc. exists (insert b). split; [cbn; by rewrite Hc|]. destruct (insert_same b) as (Bl & V & I & C & S & Sg & F & Va & E).
  split; [by apply extends_other; rewrite ?V, ?Sg, ?F|]. split; [by apply same_flow_other; rewrite ?V|]. split.
  - cbn. intros He. unfold insert. by rewrite He.
  - intros He Hcl Hd i p Hp. cbn in He. destruct (find_param b k i p Hcl Hd Hp) as (v & Hv & Ht). exists v.
    unfold has_type. cbn. unfold val_type. rewrite V. split; [|done]. unfold insert. rewrite He. cbn. rewrite Hc. cbn in Hp |- *. rewrite Hp. exact Hv.
Qed.

#[global] Instance rec_laws : FunctionBuilderLaws Rec.
Proof.
  split.
  - done.
  - intros b k Hk Hr. cbn in *. rewrite Hk. destruct Hr as [->|(j & x & Hx & Hd)]; [by rewrite bool_decide_eq_true_2|].
    assert (has_edge b k = true) as ->; [|by rewrite andb_false_r]. apply existsb_exists. exists x. split; [|by apply bool_decide_eq_true_2].
    unfold pm_get in Hx. case_match; [|done]. apply list_elem_of_In. by eapply list_elem_of_lookup_2.
  - apply create_law.
  - intros b k t Hk Hc Hf. destruct (append_law b k [t] Hk Hc Hf) as (E & H). eexists _, _. split; [cbn; rewrite E; reflexivity|exact H].
  - intros b k Hk Hc Hf Hd. destruct (append_law b k (param_types (ir.params (r_sig b))) Hk Hc Hf) as (E & X & S & D). eexists.
    split; [cbn; rewrite E, (bool_decide_eq_true_2 _ (declared_nil _ _ Hd)); reflexivity|]. by rewrite Hd in D.
  - intros b k Hk Hc Hf Hd. destruct (append_law b k (param_types (ir.returns (r_sig b))) Hk Hc Hf) as (E & X & S & D). eexists.
    split; [cbn; rewrite E, (bool_decide_eq_true_2 _ (declared_nil _ _ Hd)); reflexivity|]. by rewrite Hd in D.
  - intros b k Hk Hf Hc. cbn in *. eexists. rewrite bool_decide_eq_true_2 by done. destruct (blk_filled b k); [done|]. cbn.
    split; [destruct (r_current b) as [c|]; [rewrite (Hc c eq_refl)|]; reflexivity|]. by split_and!; [apply extends_other|..].
  - apply seal_law.
  - apply insert_law.
  - apply build_law.
  - intros b i old new He Hn Ho Hs _ _. by apply change_law.
  - intros b x t Hx. cbn in *. rewrite Hx. eexists. split; [reflexivity|]. split; [by apply grows_keeps, grows_other|].
    split; [by apply same_flow_other|]. cbn. split; [apply lookup_insert_eq|]. intros y Hy. by apply lookup_insert_ne.
  - intros b x v t Hx Hv. unfold has_type in Hv. cbn in *. rewrite Hx, Hv, !bool_decide_eq_true_2 by done. exists (log (EDef x v) b).
    split; [done|]. split; [by apply extends_other|by apply same_flow_other].
  - intros b x t Hx Ho. destruct (open_current _ Ho) as [Ho' _]. cbn in *. rewrite Hx, Ho'. eexists _, _. split; [reflexivity|].
    assert (r_values b `prefix_of` r_values b ++ [t]) as P by (by apply prefix_app_r).
    split; [by apply extends_other|]. split; [apply (pm_get_push_new (r_values b) t)|].
    destruct (same_flow_other None b (set_values (r_values b ++ [t]) b)) as [Sb Cu Cl]; try done. split; [done|]. split; [done|].
    intros j Hj _ _. by apply (Cl j).
  - intros b s. eexists _, _. split; [reflexivity|]. split; [apply extends_other; try done; by apply prefix_app_r|].
    split; [by apply same_flow_other|]. apply (pm_get_push_new (r_sigs b) s).
  - intros b f s Hs. cbn in *. rewrite bool_decide_eq_true_2 by (by exists s). eexists _, _. split; [reflexivity|].
    split; [apply extends_other; try done; by apply prefix_app_r|]. split; [by apply same_flow_other|]. apply (pm_get_push_new (r_funcs b) f).
  - intros b H. cbn in *. assert (forallb (block_done b) (map_to_list (r_blocks b)).*1 = true) as ->; [|by eexists].
    apply forallb_forall. intros k _. unfold block_done. destruct (blk_filled b k || bool_decide (r_current b = Some k)) eqn:E; [|done].
    destruct (H k) as [-> ->]; [|done]. apply orb_true_iff in E as [?|?%bool_decide_eq_true]; auto.
Qed.
