(* ===== verification/ClifMachine.v ===== *)
(** * Running the code of functions

    The recorded function as a machine: the events of a block run in order,
    registers hold the bits of values, variables hold what was last defined on
    the path taken, and a branch passes arguments to the parameters of its target.
    What instructions compute is the class [ClifArith]; [ClifArithLaws] states the
    documented meaning of the integer instructions. *)
From stdpp Require Import base list gmap option numbers relations.
From S2P Require Import Prelude Trap Module ModuleTypes HeapAccess Clif ClifLaws FuncState WasmOp WasmTyping WasmSem RecBuilder.
Local Open Scope Z_scope.

Definition bits (t : ir.Type_) : Z := 8 * ir.bytes t.
Definition in_range (t : ir.Type_) (x : Z) : Prop := 0 <= x < 2 ^ bits t.

(** ** Instructions *)

(** The results, or a trap code. *)
Class ClifArith := {
  op_value : ir.Opcode -> option ir.Type_ -> list (ir.Type_ * Z) -> list Z -> option (Z + list Z);
  icmp_value : IntCC.t -> ir.Type_ -> Z -> Z -> option bool }.

Section Documented.
Context `{TrapCodes}.
(** Binary instructions on integers of [n] bits. *)
Definition binary_value (o : ir.Opcode) (n x y : Z) : option (Z + Z) :=
  let s := y mod n in
  match o with
  | ir.Iadd => Some (inr ((x + y) mod 2 ^ n))
  | ir.Isub => Some (inr ((x - y) mod 2 ^ n))
  | ir.Imul => Some (inr ((x * y) mod 2 ^ n))
  | ir.Udiv => Some (if y =? 0 then inl INTEGER_DIVISION_BY_ZERO else inr (x / y))
  | ir.Urem => Some (if y =? 0 then inl INTEGER_DIVISION_BY_ZERO else inr (x mod y))
  | ir.Sdiv =>
      Some (if y =? 0 then inl INTEGER_DIVISION_BY_ZERO
            else if (signed n x =? - 2 ^ (n - 1)) && (signed n y =? -1) then inl INTEGER_OVERFLOW
            else inr (Z.quot (signed n x) (signed n y) mod 2 ^ n))
  | ir.Srem => Some (if y =? 0 then inl INTEGER_DIVISION_BY_ZERO else inr (Z.rem (signed n x) (signed n y) mod 2 ^ n))
  | ir.Band => Some (inr (Z.land x y))
  | ir.Bor => Some (inr (Z.lor x y))
  | ir.Bxor => Some (inr (Z.lxor x y))
  | ir.Ishl => Some (inr (Z.shiftl x s mod 2 ^ n))
  | ir.Ushr => Some (inr (Z.shiftr x s))
  | ir.Sshr => Some (inr (Z.shiftr (signed n x) s mod 2 ^ n))
  | ir.Rotl => Some (inr (Z.lor (Z.shiftl x s mod 2 ^ n) (Z.shiftr x (n - s))))
  | ir.Rotr => Some (inr (Z.lor (Z.shiftr x s) (Z.shiftl x (n - s) mod 2 ^ n)))
  | _ => None
  end.
Definition unary_value (o : ir.Opcode) (n x : Z) : option Z :=
  match o with
  | ir.Clz => Some (Int.iclz n x)
  | ir.Ctz => Some (Int.ictz n x)
  | ir.Popcnt => Some (Int.ipopcnt n x)
  | _ => None
  end.
Definition convert_value (o : ir.Opcode) (s t : ir.Type_) (x : Z) : option Z :=
  match o with
  | ir.Ireduce => Some (x mod 2 ^ bits t)
  | ir.Uextend => Some x
  | ir.Sextend => Some (signed (bits s) x mod 2 ^ bits t)
  | ir.Bitcast => Some x
  | _ => None
  end.
Definition compare (cc : IntCC.t) (n x y : Z) : bool :=
  match cc with
  | IntCC.Equal => x =? y
  | IntCC.NotEqual => negb (x =? y)
  | IntCC.SignedLessThan => signed n x <? signed n y
  | IntCC.SignedGreaterThanOrEqual => signed n y <=? signed n x
  | IntCC.SignedGreaterThan => signed n y <? signed n x
  | IntCC.SignedLessThanOrEqual => signed n x <=? signed n y
  | IntCC.UnsignedLessThan => x <? y
  | IntCC.UnsignedGreaterThanOrEqual => y <=? x
  | IntCC.UnsignedGreaterThan => y <? x
  | IntCC.UnsignedLessThanOrEqual => x <=? y
  end.

Class ClifArithLaws `{ClifArith} : Prop := {
  law_binary : forall o t x y r, ir.is_int t = true -> in_range t x -> in_range t y -> binary_value o (bits t) x y = Some r ->
    op_value o None [(t, x); (t, y)] [] = Some (match r with inl c => inl c | inr z => inr [z] end);
  law_unary : forall o t x z, ir.is_int t = true -> in_range t x -> unary_value o (bits t) x = Some z -> op_value o None [(t, x)] [] = Some (inr [z]);
  law_convert : forall o s t x z imm, ir.is_vector s = false -> ir.is_vector t = false -> op_sig o (Some t) [s] imm = Some [t] -> in_range s x ->
    convert_value o s t x = Some z -> op_value o (Some t) [(s, x)] imm = Some (inr [z]);
  law_select : forall c t b x y, in_range c b -> op_value ir.Select None [(c, b); (t, x); (t, y)] [] = Some (inr [if b =? 0 then y else x]);
  law_iconst : forall t v, ir.is_int t = true -> op_value ir.Iconst (Some t) [] [v] = Some (inr [v mod 2 ^ bits t]);
  law_f32const : forall v, op_value ir.F32const None [] [v] = Some (inr [v]);
  law_f64const : forall v, op_value ir.F64const None [] [v] = Some (inr [v]);
  law_icmp : forall cc t x y, ir.is_int t = true -> in_range t x -> in_range t y -> icmp_value cc t x y = Some (compare cc (bits t) x y) }.
End Documented.

(** ** The machine *)
Abbreviation registers := (gmap Value Z).
Abbreviation variables := (gmap Z Z).
Inductive conf : Type :=
| Running (events : list Event) (regs : registers) (vars : variables)
| Goto (d : Block) (args : list Z) (regs : registers) (vars : variables)
| Returned (results : list Z)
| Trapped (code : Z).

Section Machine.
Context `{ClifArith} (F : Rec).
(** The events of a block. *)
Definition block_code (d : Block) : list Event := snd <$> filter (fun p => p.1 = Some d) (r_trace F).
Definition assign (vs : list Value) (xs : list Z) (regs : registers) : registers := list_to_map (zip vs xs) ∪ regs.
Definition typed_arg (regs : registers) (v : Value) : option (ir.Type_ * Z) := t ← val_type F v; x ← regs !! v; Some (t, x).
Definition read_args (regs : registers) (vs : list Value) : option (list Z) := mapM (regs !!.) vs.

Definition step_inst (i : InstData) (rs : list Value) (evs : list Event) (regs : registers) (vars : variables) : option conf :=
  let next xs := Running evs (assign rs xs regs) vars in
  let branch d args := xs ← read_args regs args; Some (Goto d xs regs vars) in
  match i with
  | Op o ctrl args imm =>
      xs ← mapM (typed_arg regs) args;
      r ← op_value o ctrl xs imm;
      Some (match r with inl code => Trapped code | inr zs => next zs end)
  | Icmp cc x y => x ← typed_arg regs x; y ← regs !! y; b ← icmp_value cc x.1 x.2 y; Some (next [Z.b2z b])
  | IcmpImm cc x imm => x ← typed_arg regs x; b ← icmp_value cc x.1 x.2 (imm mod 2 ^ bits x.1); Some (next [Z.b2z b])
  | Trapz c code => c ← regs !! c; Some (if c =? 0 then Trapped code else next [])
  | Trapnz c code => c ← regs !! c; Some (if c =? 0 then next [] else Trapped code)
  | TrapOp code => Some (Trapped code)
  | Jump d args => branch d args
  | Brif c b1 args1 b2 args2 => c ← regs !! c; if c =? 0 then branch b2 args2 else branch b1 args1
  | BrTable v d ts => x ← regs !! v; branch (default d (pm_get ts x)) []
  | Return_ args => xs ← read_args regs args; Some (Returned xs)
  | _ => None
  end.
Definition step (c : conf) : option conf :=
  match c with
  | Running (EDef x v :: evs) regs vars => z ← regs !! v; Some (Running evs regs (<[x := z]> vars))
  | Running (EUse x v :: evs) regs vars => z ← vars !! x; Some (Running evs (<[v := z]> regs) vars)
  | Running (EInst k :: evs) regs vars => i ← pm_get (r_insts F) k; step_inst i.1 i.2 evs regs vars
  | Goto d args regs vars =>
      x ← blk F d;
      if (length args =? length (bl_params x))%nat then Some (Running (block_code d) (assign (fst <$> bl_params x) args regs) vars) else None
  | _ => None
  end.
Definition steps : conf -> conf -> Prop := rtc (fun c c' => step c = Some c').
Fixpoint run (fuel : nat) (c : conf) : conf :=
  match fuel with
  | O => c
  | S fuel => match step c with Some c' => run fuel c' | None => c end
  end.
(** Call the function: its arguments go to the parameters of the entry block. *)
Definition call (args : list Z) : option conf := d ← r_entry F; Some (Goto d args ∅ ∅).
End Machine.

(** ** An instance *)
#[global] Instance documented_arith `{TrapCodes} : ClifArith := {
  op_value o ctrl args imm :=
    match o, ctrl, args, imm with
    | ir.Select, _, [(_, b); (_, x); (_, y)], _ => Some (inr [if b =? 0 then y else x])
    | ir.Iconst, Some t, [], [v] => Some (inr [v mod 2 ^ bits t])
    | (ir.F32const | ir.F64const), _, [], [v] => Some (inr [v])
    | o, None, [(t, x); (_, y)], _ => r ← binary_value o (bits t) x y; Some (match r with inl c => inl c | inr z => inr [z] end)
    | o, None, [(t, x)], _ => z ← unary_value o (bits t) x; Some (inr [z])
    | o, Some t, [(s, x)], _ => z ← convert_value o s t x; Some (inr [z])
    | _, _, _, _ => None
    end;
  icmp_value cc t x y := Some (compare cc (bits t) x y) }.
#[global] Instance documented_arith_laws `{TrapCodes} : ClifArithLaws.
Proof.
  split; try done.
  - intros o t x y r _ _ _ Hr. destruct o; try discriminate Hr; cbn in *; by simplify_eq.
  - intros o t x z _ _ Hz. destruct o; try discriminate Hz; cbn in *; by simplify_eq.
  - intros o s t x z imm _ _ _ _ Hz. destruct o; try discriminate Hz; cbn in *; by simplify_eq.
Qed.

(** ** Lemmas *)
Section Lemmas.
Context `{ClifArith} (F : Rec).
Lemma steps_one c c' c'' : step F c = Some c' -> steps F c' c'' -> steps F c c''.
Proof. intros Hs. by apply rtc_l. Qed.
Lemma steps_trans c c' c'' : steps F c c' -> steps F c' c'' -> steps F c c''.
Proof. unfold steps. intros ? ?. by etrans. Qed.
Lemma steps_run c c' : steps F c c' -> exists n, run F n c = c'.
Proof. induction 1 as [c|c c1 c2 H1 _ [n IH]]; [by exists O|]. exists (S n). cbn. by rewrite H1. Qed.
End Lemmas.

(** ** Integer instructions and wasm's integer operators

    Both are documented separately; here their meanings are compared, width by
    width, and results are shown to stay in range. *)

Section Width.
Context (n : Z) (Hn : 0 < n).
Abbreviation R x := (0 <= x < 2 ^ n).

Lemma shift_bound y : 0 <= y mod n < n.
Proof. by apply Z.mod_pos_bound. Qed.
Lemma high_bit x k : R x -> n <= k -> Z.testbit x k = false.
Proof.
  intros [Hx0 Hx] Hk. destruct (decide (x = 0)) as [->|]; [apply Z.bits_0|]. apply Z.bits_above_log2; [lia|].
  apply Z.lt_le_trans with n; [|done]. apply Z.log2_lt_pow2; lia.
Qed.
Lemma range_of_bits x : 0 <= x -> (forall k, n <= k -> Z.testbit x k = false) -> R x.
Proof.
  intros H0 Hb. split; [done|]. destruct (decide (x = 0)) as [->|]; [lia|]. apply Z.log2_lt_pow2; [lia|].
  destruct (Z.lt_ge_cases (Z.log2 x) n) as [|Hge]; [done|]. specialize (Hb _ Hge). rewrite Z.bit_log2 in Hb by lia. done.
Qed.
Lemma bitwise_range f x y : (forall k, Z.testbit (f x y) k = false \/ Z.testbit x k = true \/ Z.testbit y k = true) ->
  0 <= f x y -> R x -> R y -> R (f x y).
Proof.
  intros Hf H0 Hx Hy. apply range_of_bits; [done|]. intros k Hk. destruct (Hf k) as [|[H|H]]; [done|..]; by rewrite high_bit in H.
Qed.
Lemma land_range x y : R x -> R y -> R (Z.land x y).
Proof.
  intros Hx Hy. apply (bitwise_range Z.land); [|apply Z.land_nonneg; lia|done..]. intros k. rewrite Z.land_spec. destruct (Z.testbit x k), (Z.testbit y k); auto.
Qed.
Lemma lor_range x y : R x -> R y -> R (Z.lor x y).
Proof.
  intros Hx Hy. apply (bitwise_range Z.lor); [|apply Z.lor_nonneg; lia|done..]. intros k. rewrite Z.lor_spec. destruct (Z.testbit x k), (Z.testbit y k); auto.
Qed.
Lemma lxor_range x y : R x -> R y -> R (Z.lxor x y).
Proof.
  intros Hx Hy. apply (bitwise_range Z.lxor); [|apply Z.lxor_nonneg; lia|done..]. intros k. rewrite Z.lxor_spec. destruct (Z.testbit x k), (Z.testbit y k); auto.
Qed.
Lemma shiftr_range x s : 0 <= s -> R x -> R (Z.shiftr x s).
Proof.
  intros Hs Hx. rewrite Z.shiftr_div_pow2 by done. assert (0 < 2 ^ s) by (by apply Z.pow_pos_nonneg). split; [apply Z.div_pos; lia|].
  apply Z.le_lt_trans with x; [apply Z.div_le_upper_bound; nia|lia].
Qed.
Lemma mod_range x : R (x mod 2 ^ n).
Proof. apply Z.mod_pos_bound. apply Z.pow_pos_nonneg; lia. Qed.

(** ** Rotation: the two parts have no bit in common *)
Lemma rotated_disjoint x s : 0 <= s < n -> R x -> Z.land (Z.shiftl x s mod 2 ^ n) (Z.shiftr x (n - s)) = 0.
Proof.
  intros Hs Hx. apply Z.bits_inj_0. intros k. destruct (Z.lt_ge_cases k 0); [by rewrite Z.testbit_neg_r|].
  rewrite Z.land_spec. destruct (Z.lt_ge_cases k s).
  - rewrite Z.mod_pow2_bits_low, Z.shiftl_spec_low by lia. done.
  - rewrite (Z.shiftr_spec x) by lia. rewrite (high_bit x (k + (n - s))) by (done || lia). apply andb_false_r.
Qed.
Lemma rotl_agrees x y : R x -> Z.lor (Z.shiftl x (y mod n) mod 2 ^ n) (Z.shiftr x (n - y mod n)) = Int.irotl n x y.
Proof.
  intros Hx. pose proof (shift_bound y). rewrite <- Z.add_nocarry_lor by (by apply rotated_disjoint). unfold Int.irotl, wrap.
  by rewrite Z.shiftl_mul_pow2, Z.shiftr_div_pow2 by lia.
Qed.
Lemma rotr_agrees x y : R x -> Z.lor (Z.shiftr x (y mod n)) (Z.shiftl x (n - y mod n) mod 2 ^ n) = Int.irotr n x y.
Proof.
  intros Hx. pose proof (shift_bound y). destruct (decide (y mod n = 0)) as [E|].
  - rewrite E, Z.sub_0_r, Z.shiftl_mul_pow2, Z.mod_mul, Z.lor_0_r by lia. unfold Int.irotr, wrap. rewrite E, Z.sub_0_r, Z.mod_mul by lia.
    by rewrite Z.shiftr_div_pow2, Z.add_0_r by lia.
  - rewrite <- Z.add_nocarry_lor.
    + unfold Int.irotr, wrap. by rewrite Z.shiftl_mul_pow2, Z.shiftr_div_pow2 by lia.
    + rewrite Z.land_comm. replace (y mod n) with (n - (n - y mod n)) at 2 by lia. apply rotated_disjoint; [lia|done].
Qed.

(** ** Division *)
Lemma signed_nonzero y : R y -> y <> 0 -> signed n y <> 0.
Proof. unfold signed. intros. case_match; lia. Qed.
(** The quotient leaves the range of signed numbers in one case only. *)
Lemma overflow_iff a b : - 2 ^ (n - 1) <= a < 2 ^ (n - 1) -> - 2 ^ (n - 1) <= b < 2 ^ (n - 1) -> b <> 0 ->
  Z.quot a b = 2 ^ (n - 1) <-> a = - 2 ^ (n - 1) /\ b = -1.
Proof.
  intros Ha Hb Hz. assert (0 < 2 ^ (n - 1)) by (apply Z.pow_pos_nonneg; lia). split.
  - intros Hq. pose proof (Z.quot_rem' a b) as Hd. pose proof (Z.rem_bound_abs a b Hz). rewrite Hq in Hd.
    assert (Z.abs (Z.quot a b) <= Z.abs a) as Hle. { rewrite <- Z.quot_abs by done. apply Z.quot_le_upper_bound; [lia|]. nia. }
    rewrite Hq in Hle. assert (a = - 2 ^ (n - 1)) by lia. split; [done|]. nia.
  - intros [-> ->]. replace (-1) with (- (1)) by lia. rewrite Z.quot_opp_r by lia. rewrite Z.quot_1_r. lia.
Qed.
Lemma sdiv_agrees x y : R x -> R y -> y <> 0 -> (signed n x =? - 2 ^ (n - 1)) && (signed n y =? -1) = (Z.quot (signed n x) (signed n y) =? 2 ^ (n - 1)).
Proof.
  intros Hx Hy Hz. destruct (overflow_iff (signed n x) (signed n y)) as [H1 H2]; [by apply signed_range..|by apply signed_nonzero|].
  destruct (Z.eqb_spec (Z.quot (signed n x) (signed n y)) (2 ^ (n - 1))) as [E|E].
  - destruct (H1 E) as [-> ->]. by rewrite !Z.eqb_refl.
  - apply andb_false_iff. destruct (Z.eqb_spec (signed n x) (- 2 ^ (n - 1))); [|by left]. right. apply Z.eqb_neq. intros ?. by apply E, H2.
Qed.

(** ** Counting bits *)
Lemma zeros_bound l : 0 <= Int.zeros l <= pm_len l.
Proof. induction l as [|[] l IH]; unfold pm_len in *; cbn; lia. Qed.
Lemma ibits_length x : pm_len (Int.ibits n x) = n.
Proof. unfold pm_len, Int.ibits. rewrite length_fmap, length_seqZ. lia. Qed.
Lemma count_range k : 0 <= k <= n -> R k.
Proof. intros Hk. split; [lia|]. apply Z.le_lt_trans with n; [lia|]. apply Z.pow_gt_lin_r; lia. Qed.
Lemma clz_range x : R (Int.iclz n x).
Proof. apply count_range. unfold Int.iclz. pose proof (zeros_bound (rev (Int.ibits n x))) as H. rewrite pm_len_rev, ibits_length in H. done. Qed.
Lemma ctz_range x : R (Int.ictz n x).
Proof. apply count_range. unfold Int.ictz. pose proof (zeros_bound (Int.ibits n x)) as H. rewrite ibits_length in H. done. Qed.
Lemma popcnt_range x : R (Int.ipopcnt n x).
Proof.
  apply count_range. unfold Int.ipopcnt. pose proof (ibits_length x) as H. unfold pm_len in *. pose proof (length_filter (fun b => b = true) (Int.ibits n x)). lia.
Qed.

(** ** All binary instructions *)
Definition int_value (o : ir.Opcode) (i j : Z) : option (Trap + Z) :=
  match o with
  | ir.Iadd => Some (inr (Int.iadd n i j))
  | ir.Isub => Some (inr (Int.isub n i j))
  | ir.Imul => Some (inr (Int.imul n i j))
  | ir.Sdiv => Some (Int.idiv_s n i j)
  | ir.Udiv => Some (Int.idiv_u i j)
  | ir.Srem => Some (Int.irem_s n i j)
  | ir.Urem => Some (Int.irem_u i j)
  | ir.Band => Some (inr (Z.land i j))
  | ir.Bor => Some (inr (Z.lor i j))
  | ir.Bxor => Some (inr (Z.lxor i j))
  | ir.Ishl => Some (inr (Int.ishl n i j))
  | ir.Sshr => Some (inr (Int.ishr_s n i j))
  | ir.Ushr => Some (inr (Int.ishr_u n i j))
  | ir.Rotl => Some (inr (Int.irotl n i j))
  | ir.Rotr => Some (inr (Int.irotr n i j))
  | _ => None
  end.
Definition coded `{TrapCodes} (r : Trap + Z) : Z + Z := match r with inl t => inl (code_of_trap t) | inr z => inr z end.

Lemma int_value_agrees `{TrapCodes} o i j r : R i -> R j -> int_value o i j = Some r -> binary_value o n i j = Some (coded r).
Proof.
  intros Hi Hj Hr. pose proof (shift_bound j). destruct o; try discriminate Hr; injection Hr as <-; cbn [binary_value coded];
    try reflexivity.
  - unfold Int.idiv_s. destruct (Z.eqb_spec j 0); [done|]. rewrite sdiv_agrees by done. unfold Int.neg. by destruct (_ =? 2 ^ _).
  - unfold Int.idiv_u. by destruct (j =? 0).
  - unfold Int.irem_s. destruct (Z.eqb_spec j 0); [done|]. cbn. unfold wrap, Int.neg. do 3 f_equal.
    pose proof (Z.quot_rem' (signed n i) (signed n j)). lia.
  - unfold Int.irem_u. destruct (Z.eqb_spec j 0); [done|]. cbn. do 2 f_equal. rewrite Z.mod_eq by done. done.
  - unfold Int.ishl, wrap. by rewrite Z.shiftl_mul_pow2 by lia.
  - unfold Int.ishr_s, wrap, Int.neg. by rewrite Z.shiftr_div_pow2 by lia.
  - unfold Int.ishr_u. by rewrite Z.shiftr_div_pow2 by lia.
  - by rewrite rotl_agrees.
  - by rewrite rotr_agrees.
Qed.
Lemma int_value_range `{TrapCodes} o i j z : R i -> R j -> int_value o i j = Some (inr z) -> R z.
Proof.
  intros Hi Hj Hr. pose proof (shift_bound j). apply int_value_agrees in Hr; [|done..].
  destruct o; try discriminate Hr; cbn [binary_value coded] in Hr;
    repeat match type of Hr with context [if ?b then _ else _] => destruct b eqn:? end; try discriminate Hr; injection Hr as <-;
    try (by apply mod_range).
  - assert (0 < j) by (apply Z.eqb_neq in Heqb; lia). split; [apply Z.div_pos; lia|]. apply Z.le_lt_trans with i; [apply Z.div_le_upper_bound; nia|lia].
  - assert (0 < j) by (apply Z.eqb_neq in Heqb; lia). pose proof (Z.mod_pos_bound i j). lia.
  - by apply land_range.
  - by apply lor_range.
  - by apply lxor_range.
  - apply shiftr_range; [lia|done].
  - apply lor_range; [apply mod_range|apply shiftr_range; [lia|done]].
  - apply lor_range; [apply shiftr_range; [lia|done]|apply mod_range].
Qed.
End Width.
