(* ===== verification/SemOps.v ===== *)
(** * The code of operators computes their meaning

    Translating an operator that neither branches nor opens a block appends
    events to the current block; run on registers that hold the operands, they
    leave registers that hold the results of [WasmSem], or trap as wasm does. *)
From stdpp Require Import base list gmap option numbers.
From S2P Require Import Prelude Types Trap Module ModuleTypes VMOffsets HeapAccess Clif ClifLaws FuncState WasmOp FuncEnv CodeTranslator CodeTranslatorCtl CodeTranslatorOps WasmTyping WasmSem OpTyping RecBuilder RecBuilderLaws ClifMachine.
Local Open Scope Z_scope.

(** ** Growing a function by straight-line code *)
Definition emit (i : InstData) (ts : list ir.Type_) (b : Rec) : Rec := log (EInst (pm_len (r_insts b))) (add_inst i ts b).

Record grown (b b' : Rec) (evs : list Event) : Prop := {
  g_trace : r_trace b' = r_trace b ++ ((fun e => (r_current b, e)) <$> evs);
  g_insts : r_insts b `prefix_of` r_insts b';
  g_values : r_values b `prefix_of` r_values b';
  g_vars : r_vars b' = r_vars b;
  g_current : r_current b' = r_current b;
  g_blocks : r_blocks b' = r_blocks b;
  g_sig : r_sig b' = r_sig b;
  g_entry : forall e, r_entry b = Some e -> r_entry b' = Some e }.

Lemma grown_refl b : grown b b [].
Proof. split; try done. by rewrite app_nil_r. Qed.
Lemma grown_trans b b1 b2 evs1 evs2 : grown b b1 evs1 -> grown b1 b2 evs2 -> grown b b2 (evs1 ++ evs2).
Proof.
  intros [T1 I1 V1 X1 C1 B1 S1 E1] [T2 I2 V2 X2 C2 B2 S2 E2]. split; try (by etrans); [|auto].
  rewrite T2, T1, C1, fmap_app, app_assoc. done.
Qed.
Lemma grown_open b b' evs : grown b b' evs -> is_open b' = is_open b.
Proof. intros G. unfold is_open, blk_filled, blk. by rewrite (g_current _ _ _ G), (g_blocks _ _ _ G). Qed.

Lemma prefix_pm_get {A} (l k : list A) i x : l `prefix_of` k -> pm_get l i = Some x -> pm_get k i = Some x.
Proof. intros [k' ->] Hl. by apply pm_get_app_l. Qed.
Lemma prefix_pm_len {A} (l k : list A) : l `prefix_of` k -> pm_len l <= pm_len k.
Proof. intros [k' ->]. rewrite pm_len_app. unfold pm_len. lia. Qed.

Lemma emit_same i ts b : r_values (emit i ts b) = r_values b ++ ts /\ r_insts (emit i ts b) = r_insts b ++ [(i, fresh_values b ts)] /\
  r_current (emit i ts b) = r_current b.
Proof. destruct (add_inst_same i ts b) as (V & I & C & _). by split_and!. Qed.
Lemma emit_grown i ts b : is_terminator i = false -> grown b (emit i ts b) [EInst (pm_len (r_insts b))].
Proof.
  intros Ht. destruct (add_inst_same i ts b) as (V & I & C & S & _ & _ & Va & E). assert (r_trace (add_inst i ts b) = r_trace b /\ r_blocks (add_inst i ts b) = r_blocks b) as [T B].
  { unfold add_inst, fill, insert. rewrite Ht. cbn. destruct (r_entry b); cbn; by destruct (r_current b). }
  unfold emit. split; try done; cbn [log r_trace r_insts r_values r_vars r_current r_blocks r_sig r_entry].
  - by rewrite T, C.
  - rewrite I. by apply prefix_app_r.
  - rewrite V. by apply prefix_app_r.
Qed.

(** ** What code does to registers and variables *)

(** [F] has the instructions that were added between [b] and [b']. *)
Definition agrees (b b' F : Rec) : Prop :=
  (forall k, pm_len (r_insts b) <= k < pm_len (r_insts b') -> pm_get (r_insts F) k = pm_get (r_insts b') k) /\ r_values b' `prefix_of` r_values F.
Lemma agrees_split b b1 b2 F : r_insts b `prefix_of` r_insts b1 -> r_insts b1 `prefix_of` r_insts b2 -> r_values b1 `prefix_of` r_values b2 ->
  agrees b b2 F -> agrees b b1 F /\ agrees b1 b2 F.
Proof.
  intros P1 P2 V [Hi Hv]. pose proof (prefix_pm_len _ _ P1). pose proof (prefix_pm_len _ _ P2). split; split; [|by etrans| |done].
  - intros k Hk. rewrite Hi by lia. destruct (pm_get_is_Some (r_insts b1) k) as [x Hx].
    { split; [|lia]. unfold pm_len in *. lia. }
    rewrite Hx. by eapply prefix_pm_get.
  - intros k Hk. apply Hi. lia.
Qed.

Definition below (n : Z) (regs regs' : registers) : Prop := forall v, v < n -> regs' !! v = regs !! v.
Lemma low_refl n regs : below n regs regs.
Proof. done. Qed.
Lemma low_trans n m r1 r2 r3 : n <= m -> below n r1 r2 -> below m r2 r3 -> below n r1 r3.
Proof. intros Hnm H1 H2 v Hv. rewrite H2 by lia. by apply H1. Qed.
Lemma low_insert n regs v x : n <= v -> below n regs (<[v := x]> regs).
Proof. intros Hv w Hw. apply lookup_insert_ne. lia. Qed.

Definition typed (b : Rec) (v : Value) (t : ir.Type_) : Prop := val_type b v = Some t.
(** A register holds a number of its value's type. *)
Definition holds (b : Rec) (regs : registers) (v : Value) (x : Z) : Prop := exists t, typed b v t /\ regs !! v = Some x /\ in_range t x.
Definition locals_hold (b : Rec) (vars : variables) (ls : list Z) : Prop :=
  (forall i x, pm_get ls i = Some x -> exists t, r_vars b !! i = Some t /\ vars !! i = Some x /\ in_range t x) /\ (forall i t, r_vars b !! i = Some t -> is_Some (pm_get ls i)).
Lemma locals_vars b b' vars ls : r_vars b' = r_vars b -> locals_hold b vars ls -> locals_hold b' vars ls.
Proof. unfold locals_hold. by intros ->. Qed.

Lemma typed_prefix b b' v t : r_values b `prefix_of` r_values b' -> typed b v t -> typed b' v t.
Proof. apply prefix_pm_get. Qed.
Lemma typed_range b v t : typed b v t -> 0 <= v < pm_len (r_values b).
Proof. apply pm_get_range. Qed.
Lemma holds_prefix b b' regs regs' v x : r_values b `prefix_of` r_values b' -> below (pm_len (r_values b)) regs regs' -> holds b regs v x -> holds b' regs' v x.
Proof.
  intros P Hb (t & Ht & Hv & Hr). exists t. split; [by eapply typed_prefix|]. split; [|done]. rewrite Hb; [done|]. apply typed_range in Ht. lia.
Qed.
Lemma holds_typed b regs v t x : typed b v t -> holds b regs v x -> regs !! v = Some x /\ in_range t x.
Proof. intros Ht (t' & Ht' & Hv & Hr). unfold typed in *. by simplify_eq. Qed.
Lemma holds_args b F regs vs ts xs : r_values b `prefix_of` r_values F -> Forall2 (typed b) vs ts -> Forall2 (holds b regs) vs xs ->
  mapM (typed_arg F regs) vs = Some (zip ts xs) /\ Forall2 in_range ts xs.
Proof.
  intros P Ht. revert xs. induction Ht as [|v t vs ts Hv Ht IH]; intros xs; [intros ->%Forall2_nil_inv_l; by split; [|constructor]|].
  intros (x & xs' & Hx & Hxs & ->)%Forall2_cons_inv_l. destruct (IH _ Hxs) as [IHm IHr]. destruct (holds_typed _ _ _ _ _ Hv Hx) as [Hr Hi].
  split; [|by constructor]. cbn. unfold typed_arg. rewrite (typed_prefix _ F _ _ P Hv). cbn. rewrite Hr. cbn. unfold typed_arg in IHm. by rewrite IHm.
Qed.

Section Sem.
Context `{TC : TrapCodes} `{AR : ClifArith} `{LW : !ClifArithLaws}.
Abbreviation M := (SM (TState Rec) Error).

(** The events run to the end, or to a trap. *)
Definition does (b b' : Rec) (evs : list Event) (regs : registers) (vars : variables) (regs' : registers) (vars' : variables) : Prop :=
  forall F rest, agrees b b' F -> steps F (Running (evs ++ rest) regs vars) (Running rest regs' vars').
Definition traps_with (b b' : Rec) (evs : list Event) (regs : registers) (vars : variables) (code : Z) : Prop :=
  forall F rest, agrees b b' F -> steps F (Running (evs ++ rest) regs vars) (Trapped code).

Lemma does_nil b regs vars : does b b [] regs vars regs vars.
Proof. intros F rest _. apply rtc_refl. Qed.
Lemma does_app b b1 b2 e1 e2 r v r1 v1 r2 v2 : grown b b1 e1 -> grown b1 b2 e2 -> does b b1 e1 r v r1 v1 -> does b1 b2 e2 r1 v1 r2 v2 ->
  does b b2 (e1 ++ e2) r v r2 v2.
Proof.
  intros G1 G2 D1 D2 F rest Ha. destruct (agrees_split b b1 b2 F) as [A1 A2]; [apply G1|apply G2|apply G2|done|].
  rewrite <- app_assoc. eapply steps_trans; [by apply D1|by apply D2].
Qed.

Lemma emitted_inst i ts b F : agrees b (emit i ts b) F -> pm_get (r_insts F) (pm_len (r_insts b)) = Some (i, fresh_values b ts).
Proof.
  intros [Hi _]. destruct (emit_same i ts b) as (_ & I & _). rewrite Hi.
  - rewrite I. apply (pm_get_push_new (r_insts b)).
  - rewrite I, pm_len_snoc. lia.
Qed.
Lemma fresh_one b t : fresh_values b [t] = [pm_len (r_values b)].
Proof. unfold fresh_values, pm_len. cbn. f_equal. lia. Qed.
Lemma set_one v x regs : assign [v] [x] regs = <[v := x]> regs.
Proof. unfold assign. cbn. by rewrite insert_empty, <- insert_union_singleton_l. Qed.

(** One instruction with one result. *)
Lemma op_does o ctrl args imm t b regs vars ts xs z : Forall2 (typed b) args ts -> Forall2 (holds b regs) args xs -> op_value o ctrl (zip ts xs) imm = Some (inr [z]) ->
  does b (emit (Op o ctrl args imm) [t] b) [EInst (pm_len (r_insts b))] regs vars (<[pm_len (r_values b) := z]> regs) vars.
Proof.
  intros Ht Hx Ho F rest Ha. destruct (holds_args b F regs args ts xs) as [Hm _]; [|done|done|].
  { destruct Ha as [_ Hv]. rewrite (proj1 (emit_same _ _ _)) in Hv. etrans; [|exact Hv]. by apply prefix_app_r. }
  apply rtc_once. cbn [app step]. rewrite (emitted_inst _ _ _ _ Ha). cbn [mbind option_bind fst snd step_inst]. rewrite Hm. cbn [mbind option_bind]. rewrite Ho. cbn [mbind option_bind].
  by rewrite fresh_one, set_one.
Qed.
Lemma op_traps o ctrl args imm t b regs vars ts xs c : Forall2 (typed b) args ts -> Forall2 (holds b regs) args xs -> op_value o ctrl (zip ts xs) imm = Some (inl c) ->
  traps_with b (emit (Op o ctrl args imm) [t] b) [EInst (pm_len (r_insts b))] regs vars c.
Proof.
  intros Ht Hx Ho F rest Ha. destruct (holds_args b F regs args ts xs) as [Hm _]; [|done|done|].
  { destruct Ha as [_ Hv]. rewrite (proj1 (emit_same _ _ _)) in Hv. etrans; [|exact Hv]. by apply prefix_app_r. }
  apply rtc_once. cbn [app step]. rewrite (emitted_inst _ _ _ _ Ha). cbn [mbind option_bind fst snd step_inst]. rewrite Hm. cbn [mbind option_bind]. by rewrite Ho.
Qed.

(** ** The translator's primitives *)
Lemma wp_ins i t ts (Q : Inst -> TState Rec -> Prop) : is_open (bld t) = true -> check_inst (bld t) i = Some ts ->
  Q (pm_len (r_insts (bld t))) (mkT (emit i ts (bld t)) (st t)) -> wp (insi i) t Q.
Proof. intros Ho Hc HQ. eapply wp_onb; [|exact HQ]. cbn. by rewrite Hc, Ho. Qed.
Lemma wp_ins1 i t ty (Q : Value -> TState Rec -> Prop) : is_open (bld t) = true -> check_inst (bld t) i = Some [ty] ->
  Q (pm_len (r_values (bld t))) (mkT (emit i [ty] (bld t)) (st t)) -> wp (ins1 i) t Q.
Proof.
  intros Ho Hc HQ. apply wp_bind. eapply wp_ins; [done..|]. apply wp_bind, wp_query. eapply wp_lift; [|exact HQ].
  cbn [bld inst_results rec_builder]. destruct (emit_same i [ty] (bld t)) as (_ & -> & _). rewrite (pm_get_push_new (r_insts (bld t)) (i, _) : pm_get (_ ++ _) _ = _).
  cbn [snd]. by rewrite fresh_one.
Qed.
Lemma check_args b args ts : Forall2 (typed b) args ts -> arg_types b args = Some ts.
Proof. apply mapM_Some_2. Qed.
Lemma emit_typed i ty b : typed (emit i [ty] b) (pm_len (r_values b)) ty.
Proof. unfold typed, val_type. rewrite (proj1 (emit_same i [ty] b)). apply (pm_get_push_new (r_values b)). Qed.

(** ** Correct translations *)
Abbreviation meaning := (list Z -> list Z -> option (Trap + (list Z * list Z))).
Definition pure (f : list Z -> option (Trap + list Z)) : meaning := fun xs ls =>
  r ← f xs; Some (match r with inl t => inl t | inr zs => inr (zs, ls) end).

(** From the state [t] with the operands [args] on top of [pre] to [t']. *)
Definition translated (t : TState Rec) (pre args : list Value) (outs : list ir.Type_) (sem : meaning) (t' : TState Rec) : Prop :=
  exists evs vs, grown (bld t) (bld t') evs /\ st t' = set_stack (pre ++ vs) (st t) /\ Forall2 (typed (bld t')) vs outs /\
    forall regs vars xs ls, Forall2 (holds (bld t) regs) args xs -> locals_hold (bld t) vars ls ->
      match sem xs ls with
      | Some (inr (zs, ls')) => exists regs' vars', does (bld t) (bld t') evs regs vars regs' vars' /\ below (pm_len (r_values (bld t))) regs regs' /\
          Forall2 (holds (bld t') regs') vs zs /\ locals_hold (bld t') vars' ls'
      | Some (inl tr) => traps_with (bld t) (bld t') evs regs vars (code_of_trap tr)
      | None => True
      end.
Definition correct (m : M unit) (ins outs : list ir.Type_) (sem : meaning) : Prop :=
  forall t pre args, stack (st t) = pre ++ args -> Forall2 (typed (bld t)) args ins -> is_open (bld t) = true -> wp m t (fun _ => translated t pre args outs sem).

Lemma locals_grown b b' evs vars ls : grown b b' evs -> locals_hold b vars ls -> locals_hold b' vars ls.
Proof. intros G. apply locals_vars, G. Qed.

(** An instruction applied to the operands. *)
Lemma wp_op o ctrl imm ins ty f t pre args : Forall2 (typed (bld t)) args ins -> is_open (bld t) = true -> op_sig o ctrl ins imm = Some [ty] ->
  (forall xs, Forall2 in_range ins xs -> match f xs with
     | Some (inr zs) => exists z, zs = [z] /\ op_value o ctrl (zip ins xs) imm = Some (inr [z]) /\ in_range ty z
     | Some (inl tr) => op_value o ctrl (zip ins xs) imm = Some (inl (code_of_trap tr))
     | None => True
     end) ->
  wp (r ← ins1 (Op o ctrl args imm); push r) (mkT (bld t) (set_stack pre (st t))) (fun _ => translated t pre args [ty] (pure f)).
Proof.
  intros Ht Ho Hs Hf. apply wp_bind. eapply (wp_ins1 _ _ ty); [done|cbn; by rewrite (check_args _ _ _ Ht)|]. apply wp_push.
  eexists [EInst _], [_]. split; [by apply emit_grown|]. split; [done|]. cbn [bld]. split; [constructor; [apply emit_typed|constructor]|].
  intros regs vars xs ls Hx Hls. destruct (holds_args _ (bld t) _ _ _ _ (reflexivity _) Ht Hx) as [_ Hr]. specialize (Hf xs Hr). unfold pure.
  destruct (f xs) as [[tr|zs]|]; cbn [mbind option_bind]; [by eapply op_traps|..|done]. destruct Hf as (z & -> & Hv & Hz).
  eexists _, _. split; [by eapply op_does|]. split; [apply low_insert; lia|]. split; [|eapply locals_grown; [by apply emit_grown|exact Hls]].
  constructor; [|constructor]. exists ty. split; [apply emit_typed|]. by rewrite lookup_insert_eq.
Qed.

Lemma binary_correct o t : ir.is_int t = true -> op_sig o None [t; t] [] = Some [t] ->
  correct (binary o) [t; t] [t] (pure (fun xs => match xs with [i; j] => r ← int_value (bits t) o i j; Some (match r with inl tr => inl tr | inr z => inr [z] end) | _ => None end)).
Proof.
  intros Hi Hs s pre args Hst Ht Ho. destruct args as [|v [|w [|? ?]]]; try (exfalso; apply Forall2_length in Ht; discriminate Ht).
  apply wp_bind. eapply wp_pop2; [exact Hst|]. cbn [fst snd]. apply wp_op with (ins := [t; t]); [done..|]. assert (0 < bits t) by (by destruct t).
  intros xs Hr. apply Forall2_cons_inv_l in Hr as (i & ? & Ri & (j & ? & Rj & Hn & ->)%Forall2_cons_inv_l & ->). apply Forall2_nil_inv_l in Hn as ->.
  destruct (int_value (bits t) o i j) as [r|] eqn:E; cbn [mbind option_bind]; [|done]. cbn [zip zip_with].
  pose proof (law_binary o t i j _ Hi Ri Rj (int_value_agrees _ ltac:(done) _ _ _ _ Ri Rj E)) as L. destruct r as [tr|z]; cbn [coded] in L; [done|].
  exists z. split; [done|]. split; [done|]. exact (int_value_range (bits t) ltac:(done) o i j z Ri Rj E).
Qed.

(** ** Code that computes a value *)
Definition value_of (f : list Z -> option Z) : meaning := pure (fun xs => z ← f xs; Some (inr [z])).
Definition computes (b b' : Rec) (evs : list Event) (v : Value) (ty : ir.Type_) (args : list Value) (f : list Z -> option Z) : Prop :=
  grown b b' evs /\ typed b' v ty /\
  forall regs vars xs z, Forall2 (holds b regs) args xs -> f xs = Some z ->
    exists regs', does b b' evs regs vars regs' vars /\ below (pm_len (r_values b)) regs regs' /\ holds b' regs' v z.

Lemma computes_op o ctrl imm ins ty f b args : Forall2 (typed b) args ins -> op_sig o ctrl ins imm = Some [ty] ->
  (forall xs z, Forall2 in_range ins xs -> f xs = Some z -> op_value o ctrl (zip ins xs) imm = Some (inr [z]) /\ in_range ty z) ->
  computes b (emit (Op o ctrl args imm) [ty] b) [EInst (pm_len (r_insts b))] (pm_len (r_values b)) ty args f.
Proof.
  intros Ht Hs Hf. split; [by apply emit_grown|]. split; [apply emit_typed|]. intros regs vars xs z Hx Hz.
  destruct (holds_args _ b _ _ _ _ (reflexivity _) Ht Hx) as [_ Hr]. destruct (Hf xs z Hr Hz) as [Hv Hi].
  eexists. split; [by eapply op_does|]. split; [apply low_insert; lia|]. exists ty. split; [apply emit_typed|]. by rewrite lookup_insert_eq.
Qed.
Lemma of_bool_b2z c : Z.b2z c = Int.of_bool c.
Proof. by destruct c. Qed.
Lemma computes_icmp cc t b v w : ir.is_int t = true -> Forall2 (typed b) [v; w] [t; t] ->
  computes b (emit (Icmp cc v w) [ir.I8] b) [EInst (pm_len (r_insts b))] (pm_len (r_values b)) ir.I8 [v; w]
    (fun xs => match xs with [i; j] => Some (Int.of_bool (compare cc (bits t) i j)) | _ => None end).
Proof.
  intros Hi Ht. split; [by apply emit_grown|]. split; [apply emit_typed|]. intros regs vars xs z Hx Hz.
  destruct (holds_args _ b _ _ _ _ (reflexivity _) Ht Hx) as [_ Hr]. destruct xs as [|x [|y [|? ?]]]; simplify_eq.
  apply Forall2_cons_1 in Hr as [Rx [Ry _]%Forall2_cons_1]. exists (<[pm_len (r_values b) := Z.b2z (compare cc (bits t) x y)]> regs). split; [|split; [apply low_insert; lia|]].
  - intros F rest Ha. pose proof (emitted_inst _ _ _ _ Ha) as Hk. destruct (holds_args b F regs [v; w] [t; t] [x; y]) as [Hm _]; [|done|done|].
    { destruct Ha as [_ Hv]. rewrite (proj1 (emit_same _ _ _)) in Hv. etrans; [|exact Hv]. by apply prefix_app_r. }
    cbn in Hm. apply bind_Some in Hm as (a & Ha1 & (bs & Hb & [= -> ->])%bind_Some). apply bind_Some in Hb as (c & Hc & [= ->]).
    apply rtc_once. cbn [app step]. rewrite Hk. cbn [mbind option_bind fst snd step_inst]. rewrite Ha1. cbn [mbind option_bind fst snd].
    unfold typed_arg in Hc. apply bind_Some in Hc as (? & _ & (? & -> & [= _ ->])%bind_Some). cbn [mbind option_bind]. rewrite law_icmp by done. cbn [mbind option_bind].
    by rewrite fresh_one, set_one.
  - exists ir.I8. split; [apply emit_typed|]. rewrite lookup_insert_eq, of_bool_b2z. split; [done|]. by destruct (compare _ _ _ _).
Qed.
Lemma computes_icmp_imm cc t b v imm : ir.is_int t = true -> in_range t imm -> typed b v t ->
  computes b (emit (IcmpImm cc v imm) [ir.I8] b) [EInst (pm_len (r_insts b))] (pm_len (r_values b)) ir.I8 [v]
    (fun xs => match xs with [i] => Some (Int.of_bool (compare cc (bits t) i imm)) | _ => None end).
Proof.
  intros Hi Him Ht. split; [by apply emit_grown|]. split; [apply emit_typed|]. intros regs vars xs z Hx Hz. destruct xs as [|x [|? ?]]; simplify_eq.
  apply Forall2_cons_1 in Hx as [Hx _]. destruct (holds_typed _ _ _ _ _ Ht Hx) as [Hv Hr]. exists (<[pm_len (r_values b) := Z.b2z (compare cc (bits t) x imm)]> regs). split; [|split; [apply low_insert; lia|]].
  - intros F rest Ha. apply rtc_once. cbn [app step]. rewrite (emitted_inst _ _ _ _ Ha). cbn [mbind option_bind fst snd step_inst].
    assert (val_type F v = Some t) as Hvt. { eapply typed_prefix; [|exact Ht]. destruct Ha as [_ Hp]. rewrite (proj1 (emit_same _ _ _)) in Hp. etrans; [|exact Hp]. by apply prefix_app_r. }
    unfold typed_arg. rewrite Hvt. cbn [mbind option_bind]. rewrite Hv. cbn [mbind option_bind fst snd]. rewrite Z.mod_small by done. rewrite law_icmp by done. cbn [mbind option_bind].
    by rewrite fresh_one, set_one.
  - exists ir.I8. split; [apply emit_typed|]. rewrite lookup_insert_eq, of_bool_b2z. split; [done|]. by destruct (compare _ _ _ _).
Qed.
Lemma computes_then b b1 b2 e1 e2 v1 v2 s ty args f g : computes b b1 e1 v1 s args f -> computes b1 b2 e2 v2 ty [v1] g ->
  computes b b2 (e1 ++ e2) v2 ty args (fun xs => z ← f xs; g [z]).
Proof.
  intros (G1 & T1 & H1) (G2 & T2 & H2). split; [by eapply grown_trans|]. split; [done|]. intros regs vars xs z Hx (y & Hy & Hz)%bind_Some.
  destruct (H1 regs vars xs y Hx Hy) as (r1 & D1 & B1 & V1). destruct (H2 r1 vars [y] z) as (r2 & D2 & B2 & V2); [by repeat constructor|done|].
  exists r2. split; [by eapply does_app|]. split; [|done]. eapply low_trans; [|done|done]. apply prefix_pm_len, G1.
Qed.
Lemma computes_ext b b' evs v ty args f g : computes b b' evs v ty args f -> (forall xs z, g xs = Some z -> f xs = Some z) -> computes b b' evs v ty args g.
Proof. intros (G & T & H) Hg. split; [done|]. split; [done|]. intros regs vars xs z Hx Hz. by eapply H, Hg. Qed.
Lemma computes_pushed b b' evs v ty args f t pre : computes b b' evs v ty args f -> b = bld t ->
  wp (push v) (mkT b' (set_stack pre (st t))) (fun _ => translated t pre args [ty] (value_of f)).
Proof.
  intros (G & T & H) ->. apply wp_push. exists evs, [v]. split; [done|]. split; [done|]. split; [by repeat constructor|]. intros regs vars xs ls Hx Hls.
  unfold value_of, pure. destruct (f xs) as [z|] eqn:E; cbn [mbind option_bind]; [|done]. destruct (H regs vars xs z Hx E) as (regs' & D & Hb & V).
  exists regs', vars. split; [done|]. split; [done|]. split; [by repeat constructor|]. by eapply locals_grown.
Qed.

(** ** Shapes of operators *)
Lemma translated_mono t pre args outs s1 s2 t' : translated t pre args outs s1 t' -> (forall xs ls, length xs = length args -> s1 xs ls = s2 xs ls) -> translated t pre args outs s2 t'.
Proof.
  intros (evs & vs & G & S & T & H) He. exists evs, vs. split; [done|]. split; [done|]. split; [done|]. intros regs vars xs ls Hx Hl. rewrite <- He; [by apply H|].
  by apply Forall2_length in Hx.
Qed.
Lemma correct_mono m ins outs s1 s2 : correct m ins outs s1 -> (forall xs ls, length xs = length ins -> s1 xs ls = s2 xs ls) -> correct m ins outs s2.
Proof.
  intros Hc He t pre args Hs Ht Ho. eapply wp_mono; [by apply Hc|]. intros [] t' H. eapply translated_mono; [exact H|]. intros xs ls Hl. apply He. by rewrite Hl, (Forall2_length Ht).
Qed.
Lemma one_arg b (args : list Value) t : Forall2 (typed b) args [t] -> exists v, args = [v] /\ typed b v t.
Proof. intros (v & ? & Hv & Hn & ->)%Forall2_cons_inv_r. apply Forall2_nil_inv_r in Hn as ->. by exists v. Qed.
Lemma two_args b (args : list Value) t u : Forall2 (typed b) args [t; u] -> exists v w, args = [v; w] /\ typed b v t /\ typed b w u.
Proof. intros (v & ? & Hv & (w & -> & Hw)%one_arg & ->)%Forall2_cons_inv_r. by exists v, w. Qed.
Lemma one_range t xs : Forall2 in_range [t] xs -> exists x, xs = [x] /\ in_range t x.
Proof. intros (x & ? & Hx & Hn & ->)%Forall2_cons_inv_l. apply Forall2_nil_inv_l in Hn as ->. by exists x. Qed.
Lemma bits_pos t : 0 < bits t.
Proof. by destruct t. Qed.

Lemma unary_range o n x z : 0 < n -> unary_value o n x = Some z -> 0 <= z < 2 ^ n.
Proof. intros Hn Hz. destruct o; simplify_eq/=; [by apply clz_range|by apply ctz_range|by apply popcnt_range]. Qed.
Lemma unary_correct o t : ir.is_int t = true -> op_sig o None [t] [] = Some [t] ->
  correct (unary o) [t] [t] (value_of (fun xs => match xs with [i] => unary_value o (bits t) i | _ => None end)).
Proof.
  intros Hi Hs s pre args Hst (v & -> & Hv)%one_arg Ho. apply wp_bind. eapply wp_pop1; [exact Hst|]. apply wp_bind.
  eapply (wp_ins1 _ _ t); [done|cbn [check_inst]; by rewrite (check_args _ [v] [t]) by (by repeat constructor)|].
  eapply computes_pushed; [|done]. apply computes_op with [t]; [by repeat constructor|done|]. intros xs z (x & -> & Hr)%one_range Hz.
  split; [by apply law_unary|]. eapply unary_range; [apply bits_pos|done].
Qed.
Lemma convert_computes o s ty imm b v : ir.is_vector s = false -> ir.is_vector ty = false -> op_sig o (Some ty) [s] imm = Some [ty] -> typed b v s ->
  (forall x z, in_range s x -> convert_value o s ty x = Some z -> in_range ty z) ->
  computes b (emit (Op o (Some ty) [v] imm) [ty] b) [EInst (pm_len (r_insts b))] (pm_len (r_values b)) ty [v]
    (fun xs => match xs with [i] => convert_value o s ty i | _ => None end).
Proof.
  intros Vs Vt Hs Hv Hr. apply computes_op with [s]; [by repeat constructor|done|]. intros xs z (x & -> & Hx)%one_range Hz.
  split; [by apply law_convert|by eapply Hr].
Qed.
Lemma check_op1 b o ctrl v imm s ts : typed b v s -> op_sig o ctrl [s] imm = Some ts -> check_inst b (Op o ctrl [v] imm) = Some ts.
Proof. intros Hv Hs. cbn [check_inst]. by rewrite (check_args _ [v] [s]) by (by repeat constructor). Qed.
Lemma convert_correct o s ty imm : ir.is_vector s = false -> ir.is_vector ty = false -> op_sig o (Some ty) [s] imm = Some [ty] ->
  (forall x z, in_range s x -> convert_value o s ty x = Some z -> in_range ty z) ->
  correct (x ← pop1'; r ← ins1 (Op o (Some ty) [x] imm); push r) [s] [ty] (value_of (fun xs => match xs with [i] => convert_value o s ty i | _ => None end)).
Proof.
  intros Vs Vt Hs Hr t pre args Hst (v & -> & Hv)%one_arg Ho. apply wp_bind. eapply wp_pop1; [exact Hst|]. apply wp_bind.
  eapply (wp_ins1 _ _ ty); [done|by eapply check_op1|]. eapply computes_pushed; [|done]. by apply convert_computes.
Qed.
(** A comparison gives 8 bits, wasm wants 32. *)
Lemma flag_extended b b1 e1 v1 args f : computes b b1 e1 v1 ir.I8 args f ->
  computes b (emit (Op ir.Uextend (Some ir.I32) [v1] []) [ir.I32] b1) (e1 ++ [EInst (pm_len (r_insts b1))]) (pm_len (r_values b1)) ir.I32 args f.
Proof.
  intros H. pose proof H as (_ & T & _). assert (forall x z, in_range ir.I8 x -> convert_value ir.Uextend ir.I8 ir.I32 x = Some z -> in_range ir.I32 z) as Hr.
  { intros x z Hx [= <-]. unfold in_range, bits in *. cbn in *. lia. }
  eapply computes_ext; [exact (computes_then _ _ _ _ _ _ _ _ _ _ _ _ H (convert_computes ir.Uextend ir.I8 ir.I32 [] b1 v1 eq_refl eq_refl eq_refl T Hr))|].
  intros xs z Hz. cbn beta. by rewrite Hz.
Qed.
Lemma icmp_correct cc t : ir.is_int t = true ->
  correct (translate_icmp cc) [t; t] [ir.I32] (value_of (fun xs => match xs with [i; j] => Some (Int.of_bool (compare cc (bits t) i j)) | _ => None end)).
Proof.
  intros Hi s pre args Hst (v & w & -> & Hv & Hw)%two_args Ho. apply wp_bind. eapply wp_pop2; [exact Hst|]. cbn [fst snd]. apply wp_bind.
  eapply (wp_ins1 _ _ ir.I8); [done|cbn [check_inst bld]; unfold typed in *; rewrite Hv; cbn [mbind option_bind]; rewrite Hw, bool_decide_eq_true_2 by done; by destruct t|]. apply wp_bind.
  pose proof (computes_icmp cc t (bld s) v w Hi ltac:(by repeat constructor)) as Hc. cbn [bld st].
  eapply (wp_ins1 _ _ ir.I32); [cbn [bld]; by rewrite (grown_open _ _ _ (proj1 Hc))|by eapply check_op1; [apply Hc|]|]. eapply computes_pushed; [|done]. cbn [bld st]. by apply flag_extended.
Qed.
Lemma eqz_correct t : ir.is_int t = true ->
  correct (arg ← pop1'; val ← ins1 (IcmpImm IntCC.Equal arg 0); r ← op1_to ir.Uextend ir.I32 val; push r) [t] [ir.I32]
    (value_of (fun xs => match xs with [i] => Some (Int.of_bool (i =? 0)) | _ => None end)).
Proof.
  intros Hi s pre args Hst (v & -> & Hv)%one_arg Ho. apply wp_bind. eapply wp_pop1; [exact Hst|]. apply wp_bind.
  eapply (wp_ins1 _ _ ir.I8); [done|cbn [check_inst bld]; unfold typed in *; rewrite Hv; cbn [mbind option_bind]; by rewrite Hi|]. apply wp_bind.
  assert (in_range t 0) as H0 by (by destruct t). pose proof (computes_icmp_imm IntCC.Equal t (bld s) v 0 Hi H0 Hv) as Hc. cbn [bld st].
  eapply (wp_ins1 _ _ ir.I32); [cbn [bld]; by rewrite (grown_open _ _ _ (proj1 Hc))|by eapply check_op1; [apply Hc|]|]. eapply computes_pushed; [|done]. cbn [bld st]. by apply flag_extended.
Qed.
Lemma const_correct o ctrl v ty x : op_sig o ctrl [] [v] = Some [ty] -> op_value o ctrl [] [v] = Some (inr [x]) -> in_range ty x ->
  correct (r ← ins1 (Op o ctrl [] [v]); push r) [] [ty] (value_of (fun xs => match xs with [] => Some x | _ => None end)).
Proof.
  intros Hs Hv Hx t pre args Hst ->%Forall2_nil_inv_r Ho. rewrite app_nil_r in Hst. apply wp_bind.
  eapply (wp_ins1 _ _ ty); [done|done|]. replace (st t) with (set_stack pre (st t)) by (rewrite <- Hst; by destruct (st t)).
  eapply computes_pushed; [|done]. apply computes_op with []; [constructor|done|]. intros xs z ->%Forall2_nil_inv_l [= <-]. done.
Qed.

Lemma extend_correct s t : ir.is_int s = true -> ir.is_int t = true -> bits s < bits t ->
  correct (val ← pop1'; r ← op1_to ir.Ireduce s val; _ ← push r; val ← pop1'; r ← op1_to ir.Sextend t val; push r) [t] [t]
    (value_of (fun xs => match xs with [i] => Some (Int.iextend_s (bits t) (bits s) i) | _ => None end)).
Proof.
  intros Hs Ht Hb t0 pre args Hst (v & -> & Hv)%one_arg Ho. assert (ir.is_vector s = false /\ ir.is_vector t = false) as [Vs Vt] by (by destruct s, t).
  assert (op_sig ir.Ireduce (Some s) [t] [] = Some [s] /\ op_sig ir.Sextend (Some t) [s] [] = Some [t]) as [S1 S2].
  { unfold bits in Hb. cbn [op_sig convert]. rewrite Hs, Ht. by rewrite (proj2 (Z.ltb_lt (ir.bytes s) (ir.bytes t))) by lia. }
  assert (computes (bld t0) (emit (Op ir.Ireduce (Some s) [v] []) [s] (bld t0)) [EInst (pm_len (r_insts (bld t0)))] (pm_len (r_values (bld t0))) s [v]
            (fun xs => match xs with [i] => convert_value ir.Ireduce t s i | _ => None end)) as C1.
  { apply convert_computes; try done. intros x z _ [= <-]. apply mod_range, bits_pos. }
  apply wp_bind. eapply wp_pop1; [exact Hst|]. apply wp_bind. eapply (wp_ins1 _ _ s); [done|by eapply check_op1|]. apply wp_bind, wp_push. apply wp_bind.
  eapply wp_pop1; [reflexivity|]. apply wp_bind. cbn [bld st]. eapply (wp_ins1 _ _ t); [cbn [bld]; by rewrite (grown_open _ _ _ (proj1 C1))|by eapply check_op1; [apply C1|]|].
  eapply computes_pushed; [|done]. eapply computes_ext; [eapply computes_then; [exact C1|]|].
  - apply (convert_computes ir.Sextend s t []); try done; [apply emit_typed|]. intros x z _ [= <-]. apply mod_range, bits_pos.
  - intros [|x [|y l]] z Hz; simplify_eq. done.
Qed.

(** *** Parametric operators and variables *)
Lemma drop_correct t : correct (_ ← pop1'; mret tt) [t] [] (pure (fun xs => match xs with [_] => Some (inr []) | _ => None end)).
Proof.
  intros s pre args Hst (v & -> & Hv)%one_arg Ho. apply wp_bind. eapply wp_pop1; [exact Hst|]. apply wp_ret. exists [], []. rewrite app_nil_r. cbn [bld st].
  split; [apply grown_refl|]. split; [done|]. split; [constructor|]. intros regs vars xs ls Hx Hl. unfold pure. destruct xs as [|x [|? ?]]; cbn [mbind option_bind]; try done.
  exists regs, vars. split; [apply does_nil|]. split; [apply low_refl|]. split; [constructor|done].
Qed.
Lemma wp_canonical v t (s : TState Rec) (Q : Value -> TState Rec -> Prop) : typed (bld s) v t -> ir.is_vector t = false -> Q v s -> wp (canonical_value v) s Q.
Proof.
  intros Hv Hn HQ. apply wp_bind. apply wp_bind, wp_query. eapply wp_lift; [cbn; unfold typed in Hv; by rewrite Hv|]. rewrite Hn. by apply wp_ret.
Qed.
Lemma select_correct t : ir.is_vector t = false ->
  correct translate_select [t; t; ir.I32] [t] (value_of (fun xs => match xs with [i; j; c] => Some (if c =? 0 then j else i) | _ => None end)).
Proof.
  intros Hn s pre args Hst (v & ? & Hv & (w & c & -> & Hw & Hc)%two_args & ->)%Forall2_cons_inv_r Ho. apply wp_bind. eapply wp_pop3; [exact Hst|]. cbn [fst snd].
  apply wp_bind. eapply wp_canonical; [exact Hv|done|]. apply wp_bind. eapply wp_canonical; [exact Hw|done|]. apply wp_bind.
  assert (Forall2 (typed (bld s)) [c; v; w] [ir.I32; t; t]) as Hts by (by repeat constructor).
  assert (op_sig ir.Select None [ir.I32; t; t] [] = Some [t]) as Hsig by (cbn; by rewrite bool_decide_eq_true_2).
  eapply (wp_ins1 _ _ t); [done|cbn [check_inst bld]; by rewrite (check_args _ _ _ Hts)|]. cbn [bld st].
  pose proof (computes_op ir.Select None [] [ir.I32; t; t] t (fun xs => match xs with [c; i; j] => Some (if c =? 0 then j else i) | _ => None end) (bld s) [c; v; w] Hts Hsig) as (G & T & H).
  { intros xs z (c' & ? & Rc & (x & ? & Rx & (y & ? & Ry & Hnil & ->)%Forall2_cons_inv_l & ->)%Forall2_cons_inv_l & ->)%Forall2_cons_inv_l. apply Forall2_nil_inv_l in Hnil as ->.
    intros [= <-]. split; [by apply law_select|]. by case_match. }
  eapply computes_pushed; [|done]. split; [done|]. split; [done|]. intros regs vars xs z Hx Hz. destruct xs as [|x [|y [|b [|? ?]]]]; simplify_eq.
  apply (H regs vars [b; x; y]); [|done]. apply Forall2_cons_1 in Hx as [? [? [? _]%Forall2_cons_1]%Forall2_cons_1]. by repeat constructor.
Qed.
Lemma log_grown e b : grown b (log e b) [e].
Proof. by split. Qed.
Lemma get_correct x t : forall s pre, r_vars (bld s) !! x = Some t -> stack (st s) = pre -> is_open (bld s) = true ->
  wp (translate_local_get x) s (fun _ => translated s pre [] [t] (fun _ ls => z ← pm_get ls x; Some (inr ([z], ls)))).
Proof.
  intros s pre Hx Hst Ho. apply wp_bind. eapply wp_onb; [cbn; by rewrite Hx, Ho|]. apply wp_push. set (b' := log _ _). cbn [bld st].
  assert (typed b' (pm_len (r_values (bld s))) t) as Ht by apply (pm_get_push_new (r_values (bld s))).
  assert (grown (bld s) b' [EUse x (pm_len (r_values (bld s)))]) as G by (split; try done; by apply prefix_app_r).
  eexists _, [_]. split; [exact G|]. split; [unfold push1; by rewrite Hst|]. split; [by repeat constructor|].
  intros regs vars xs ls _ Hl. destruct (pm_get ls x) as [z|] eqn:E; cbn [mbind option_bind]; [|done]. destruct (proj1 Hl x z E) as (t' & Ht' & Hz & Hr). simplify_eq.
  exists (<[pm_len (r_values (bld s)) := z]> regs), vars. split; [|split; [apply low_insert; lia|split; [|by eapply locals_grown]]].
  - intros F rest _. apply rtc_once. cbn [app step]. by rewrite Hz.
  - constructor; [|constructor]. exists t. split; [done|]. by rewrite lookup_insert_eq.
Qed.
Lemma locals_set b vars ls x z t : r_vars b !! x = Some t -> 0 <= x -> in_range t z -> locals_hold b vars ls -> locals_hold b (<[x := z]> vars) (pm_set ls x z).
Proof.
  intros Hx H0 Hz [Hl Hf]. split; [intros i y Hi|intros i t' (y & Hy%pm_get_range)%Hf; apply pm_get_is_Some; unfold pm_len, pm_set in *; by rewrite length_insert]. unfold pm_get, pm_set in Hi. destruct (Z.leb_spec 0 i); [|done]. destruct (decide (Z.to_nat i = Z.to_nat x)) as [E|Hne].
  - apply list_lookup_insert_Some in Hi as [(_ & <- & Hlt)|(Hne & _)]; [|congruence]. destruct (decide (i = x)) as [->|Hix].
    + exists t. by rewrite lookup_insert_eq.
    + lia.
  - rewrite list_lookup_insert_ne in Hi by done. destruct (Hl i y) as (t' & ? & ? & ?); [unfold pm_get; by rewrite (proj2 (Z.leb_le _ _))|]. exists t'. by rewrite lookup_insert_ne by naive_solver.
Qed.
Lemma def_grown (s : TState Rec) x v t : r_vars (bld s) !! x = Some t -> typed (bld s) v t -> def_var x v (bld s) = (Ok tt, log (EDef x v) (bld s)).
Proof. intros Hx Hv. cbn. unfold typed in Hv. by rewrite Hx, Hv, !bool_decide_eq_true_2. Qed.
Lemma def_does b x v t regs vars ls z : r_vars b !! x = Some t -> typed b v t -> holds b regs v z -> locals_hold b vars ls -> is_Some (pm_get ls x) ->
  does b (log (EDef x v) b) [EDef x v] regs vars regs (<[x := z]> vars) /\ locals_hold (log (EDef x v) b) (<[x := z]> vars) (pm_set ls x z).
Proof.
  intros Hx Hv Hz Hl [y Hy]. destruct (holds_typed _ _ _ _ _ Hv Hz) as [Hr Hi]. split.
  - intros F rest _. apply rtc_once. cbn [app step]. by rewrite Hr.
  - eapply locals_grown; [apply log_grown|]. eapply locals_set; [done| |done|done]. by apply pm_get_range in Hy as [? _].
Qed.
Lemma set_correct x t s pre args : ir.is_vector t = false -> r_vars (bld s) !! x = Some t -> stack (st s) = pre ++ args -> Forall2 (typed (bld s)) args [t] ->
  wp (translate_local_set x) s (fun _ => translated s pre args [] (eval_plain (Operator.LocalSet x))).
Proof.
  intros Hn Hx Hst (v & -> & Hv)%one_arg. apply wp_bind. eapply wp_pop1; [exact Hst|]. apply wp_bind. eapply wp_canonical; [exact Hv|done|].
  eapply wp_onb; [by eapply (def_grown s)|]. exists [EDef x v], []. rewrite app_nil_r. split; [apply log_grown|]. split; [done|]. split; [constructor|].
  intros regs vars xs ls Hxs Hl. destruct xs as [|z [|? ?]]; try by (apply Forall2_length in Hxs). apply Forall2_cons_1 in Hxs as [Hz _]. cbn [eval_plain].
  destruct (pm_get ls x) as [y|] eqn:E; cbn [mbind option_bind]; [|done]. destruct (def_does (bld s) x v t regs vars ls z) as [D L]; [done..|by exists y|].
  eexists _, _. split; [exact D|]. split; [apply low_refl|]. split; [constructor|done].
Qed.
Lemma tee_correct x t s pre args : ir.is_vector t = false -> r_vars (bld s) !! x = Some t -> stack (st s) = pre ++ args -> Forall2 (typed (bld s)) args [t] ->
  wp (translate_local_tee x) s (fun _ => translated s pre args [t] (eval_plain (Operator.LocalTee x))).
Proof.
  intros Hn Hx Hst (v & -> & Hv)%one_arg. apply wp_bind. eapply wp_peek; [unfold peek1; by rewrite Hst, last_snoc|]. apply wp_bind. eapply wp_canonical; [exact Hv|done|].
  eapply wp_onb; [by eapply def_grown|]. exists [EDef x v], [v]. split; [apply log_grown|]. split; [cbn [st]; rewrite <- Hst; by destruct (st s)|]. split; [by repeat constructor|].
  intros regs vars xs ls Hxs Hl. destruct xs as [|z [|? ?]]; try by (apply Forall2_length in Hxs). apply Forall2_cons_1 in Hxs as [Hz _]. cbn [eval_plain].
  destruct (pm_get ls x) as [y|] eqn:E; cbn [mbind option_bind]; [|done]. destruct (def_does (bld s) x v t regs vars ls z) as [D L]; [done..|by exists y|].
  eexists _, _. split; [exact D|]. split; [apply low_refl|]. split; [|done]. by repeat constructor.
Qed.

(** ** All operators *)
Context (dbg : bool) (env : TranslationEnvironment) (validator : FuncValidator).

Ltac expose :=
  lazy [translate_reachable_operator translate_control translate_arithmetic translate_const translate_integer translate_float
    translate_comparison translate_load_op translate_store_op translate_extension unary_to op0 op1_to].
Ltac same_meaning :=
  let xs := fresh in let Hl := fresh in intros xs ? Hl; destruct xs as [|? [|? [|? ?]]]; try discriminate Hl; reflexivity.
Ltac in_type := let Hz := fresh in intros ? ? ? Hz; injection Hz as <-; first [apply mod_range, bits_pos | unfold in_range, bits in *; cbn in *; lia].
Ltac shape :=
  match goal with
  | |- correct (binary ?o) [?t; _] _ _ => eapply correct_mono; [apply (binary_correct o t); reflexivity|same_meaning]
  | |- correct (unary ?o) [?t] _ _ => eapply correct_mono; [apply (unary_correct o t); reflexivity|same_meaning]
  | |- correct (translate_icmp ?cc) [?t; _] _ _ => eapply correct_mono; [apply (icmp_correct cc t); reflexivity|same_meaning]
  | |- correct (x ← pop1'; r ← ins1 (Op ?o (Some ?ty) [x] ?imm); push r) [?s] _ _ =>
      eapply correct_mono; [apply (convert_correct o s ty imm); [reflexivity|reflexivity|reflexivity|in_type]|same_meaning]
  | |- correct (arg ← pop1'; val ← ins1 (IcmpImm _ arg 0); _) [?t] _ _ => eapply correct_mono; [apply (eqz_correct t); reflexivity|same_meaning]
  | |- correct (val ← pop1'; r ← ins1 (Op ir.Ireduce (Some ?s) [val] []); _) [?t] _ _ =>
      eapply correct_mono; [apply (extend_correct s t); [reflexivity|reflexivity|reflexivity]|same_meaning]
  end.
Lemma const_range t v : in_range t (v mod 2 ^ bits t).
Proof. apply mod_range, bits_pos. Qed.
Lemma numeric_correct op ins outs : numeric_sig op = Some (ins, outs) -> has_meaning op = true ->
  correct (translate_reachable_operator dbg env validator op) ins outs (eval_plain op).
Proof.
  intros Hs Hm. destruct op; lazy [numeric_sig unop binop testop relop cvtop] in Hs; try discriminate Hs; try discriminate Hm; injection Hs as <- <-; expose;
    try shape.
  - intros t pre args Hst ->%Forall2_nil_inv_r Ho. apply wp_ret. exists [], []. split; [apply grown_refl|]. split; [rewrite <- Hst; by destruct (st t)|].
    split; [constructor|]. intros regs vars xs ls ->%Forall2_nil_inv_l Hl. exists regs, vars. split; [apply does_nil|]. split; [apply low_refl|]. by split; [constructor|].
  - eapply correct_mono; [apply (const_correct ir.Iconst (Some ir.I32) value ir.I32 _ eq_refl (law_iconst ir.I32 value eq_refl)), const_range|same_meaning].
  - eapply correct_mono; [apply (const_correct ir.Iconst (Some ir.I64) value ir.I64 _ eq_refl (law_iconst ir.I64 value eq_refl)), const_range|same_meaning].
  - eapply correct_mono; [apply (const_correct ir.F32const None value ir.F32 _ eq_refl (law_f32const value)); by apply fits_spec|same_meaning].
  - eapply correct_mono; [apply (const_correct ir.F64const None value ir.F64 _ eq_refl (law_f64const value)); by apply fits_spec|same_meaning].
Qed.
End Sem.

