(* ===== verification/SemBuild.v ===== *)
(** * How translation grows a function

    Whatever an operator does, the function recorded so far stays: events and
    values are only added, and the parameters of a block do not change once it
    has been created. *)
From stdpp Require Import base list gmap option numbers.
From S2P Require Import Prelude Types Trap Module ModuleTypes VMOffsets HeapAccess Clif ClifLaws FuncState WasmOp FuncEnv CodeTranslator CodeTranslatorCtl CodeTranslatorOps WasmTyping WasmSem OpTyping RecBuilder RecBuilderLaws ClifMachine SemOps.
Local Open Scope Z_scope.

(** ** Growth *)
Record kept (b b' : Rec) : Prop := {
  k_trace : r_trace b `prefix_of` r_trace b';
  k_values : r_values b `prefix_of` r_values b';
  k_vars : r_vars b' = r_vars b;
  k_sig : r_sig b' = r_sig b;
  k_entry : forall e, r_entry b = Some e -> r_entry b' = Some e;
  k_blocks : forall d x, blk b d = Some x -> exists x', blk b' d = Some x' /\ bl_params x' = bl_params x }.
(** Events are in blocks that are complete or being filled. *)
Definition tidy (b : Rec) : Prop := forall d e, (Some d, e) ∈ r_trace b -> blk_filled b d = true \/ r_current b = Some d.
Definition grows (b b' : Rec) : Prop := kept b b' /\ (tidy b -> tidy b').

Lemma kept_refl b : kept b b.
Proof. split; try done. intros d x Hx. by exists x. Qed.
Lemma kept_trans a b c : kept a b -> kept b c -> kept a c.
Proof.
  intros [T1 V1 X1 S1 E1 B1] [T2 V2 X2 S2 E2 B2]. split; try (by etrans); [auto|].
  intros d x Hx. destruct (B1 d x Hx) as (y & Hy & P1). destruct (B2 d y Hy) as (z & Hz & P2). exists z. split; [done|congruence].
Qed.
Lemma growth_refl b : grows b b.
Proof. split; [apply kept_refl|done]. Qed.
Lemma growth_trans a b c : grows a b -> grows b c -> grows a c.
Proof. intros [K1 T1] [K2 T2]. split; [by eapply kept_trans|auto]. Qed.

(** ** Commands *)
Lemma build_inv i b k b' : build i b = (Ok k, b') -> exists ts, check_inst b i = Some ts /\ is_open b = true /\ k = pm_len (r_insts b) /\ b' = emit i ts b.
Proof.
  cbn. destruct (check_inst b i) as [ts|]; [|done]. destruct (is_open b); [|done]. intros [= <- <-]. by exists ts.
Qed.
Lemma open_known b : is_open b = true -> exists c, r_current b = Some c /\ blk_filled b c = false.
Proof. unfold is_open. destruct (r_current b) as [c|]; [|done]. intros H. exists c. split; [done|]. by destruct (blk_filled b c). Qed.
Lemma emit_blk i ts b d x : blk b d = Some x -> exists x', blk (emit i ts b) d = Some x' /\ bl_params x' = bl_params x /\ (bl_filled x = true -> bl_filled x' = true).
Proof.
  intros Hx. unfold emit, blk, log, add_inst, fill, insert, on_block, set_blocks, set_entry, set_values, set_insts. cbn [r_entry r_current r_blocks].
  destruct (r_entry b), (r_current b) as [c|] eqn:Ec, (is_terminator i); cbn [r_entry r_current r_blocks]; rewrite ?Ec; cbn [r_blocks]; try by exists x.
  all: destruct (decide (c = d)) as [->|]; [rewrite lookup_alter_eq|rewrite lookup_alter_ne by done]; unfold blk in Hx; rewrite Hx; by eexists.
Qed.
Lemma emit_trace i ts b : r_trace (emit i ts b) = r_trace b ++ [(r_current b, EInst (pm_len (r_insts b)))].
Proof.
  destruct (add_inst_same i ts b) as (_ & _ & C & _). unfold emit, log. cbn [r_trace]. rewrite C. f_equal.
  unfold add_inst, fill, insert, on_block, set_blocks, set_entry, set_values, set_insts. cbn [r_entry r_current r_trace].
  destruct (r_entry b), (r_current b), (is_terminator i); done.
Qed.
Lemma emit_grows i ts b : is_open b = true -> grows b (emit i ts b).
Proof.
  intros Ho. destruct (open_known _ Ho) as (c & Hc & _). destruct (add_inst_same i ts b) as (V & I & C & S & _ & _ & Va & E). split.
  - split; try done; try exact Va.
    + rewrite emit_trace. by apply prefix_app_r.
    + rewrite (proj1 (emit_same i ts b)). by apply prefix_app_r.
    + intros d x Hx. destruct (emit_blk i ts b d x Hx) as (x' & ? & ? & _). by exists x'.
  - intros Ht d e. rewrite emit_trace, elem_of_app, list_elem_of_singleton. change (r_current (emit i ts b)) with (r_current (add_inst i ts b)). rewrite C.
    intros [Hin|Heq]; [|right; congruence]. destruct (Ht d e Hin) as [Hf|]; [left|by right].
    unfold blk_filled in *. destruct (blk b d) as [x|] eqn:Ex; [|done]. destruct (emit_blk i ts b d x Ex) as (x' & -> & _ & Hx). auto.
Qed.
Lemma tidy_blocks b b' : r_trace b' = r_trace b -> r_current b' = r_current b -> (forall d, blk_filled b d = true -> blk_filled b' d = true) -> tidy b -> tidy b'.
Proof. intros Et Ec Hf Ht d e. rewrite Et, Ec. intros [?|?]%Ht; auto. Qed.
Lemma new_block_fresh b : blk b (new_block b) = None.
Proof.
  unfold blk. apply eq_None_not_Some. intros [x Hx]. unfold new_block in Hx.
  assert (forall l k, k ∈ l -> k <= foldr Z.max (-1) l) as Hm.
  { induction l as [|y l IH]; cbn; intros k Hk; [by apply not_elem_of_nil in Hk|]. apply elem_of_cons in Hk as [->|Hk]; [lia|]. specialize (IH k Hk). lia. }
  set (l := _ ++ _) in Hx. specialize (Hm l (1 + foldr Z.max (-1) l)). assert (1 + foldr Z.max (-1) l ∈ l) as Hin; [|specialize (Hm Hin); lia].
  unfold l at 2. apply elem_of_app. left. apply list_elem_of_fmap. exists (1 + foldr Z.max (-1) l, x). split; [done|]. by apply elem_of_map_to_list.
Qed.
Lemma create_inv b d b' : create_block b = (Ok d, b') -> d = new_block b /\ b' = set_blocks (<[new_block b := mkBlk [] false false]> (r_blocks b)) b.
Proof. by intros [= <- <-]. Qed.
Lemma set_block_grows b d x : (forall y, blk b d = Some y -> bl_params x = bl_params y /\ (bl_filled y = true -> bl_filled x = true)) -> grows b (set_blocks (<[d := x]> (r_blocks b)) b).
Proof.
  intros Hx. split; [split; try done|].
  - intros d' y Hy. unfold blk. cbn. destruct (decide (d = d')) as [<-|].
    + exists x. rewrite lookup_insert_eq. split; [done|]. by apply Hx.
    + exists y. by rewrite lookup_insert_ne.
  - apply tidy_blocks; try done. intros d' Hf. unfold blk_filled, blk in *. cbn. destruct (decide (d = d')) as [<-|].
    + rewrite lookup_insert_eq. destruct (r_blocks b !! d) as [y|] eqn:E; [|done]. by apply (proj2 (Hx y eq_refl)).
    + by rewrite lookup_insert_ne.
Qed.
Lemma seal_inv k b b' : seal_block k b = (Ok tt, b') -> exists x, blk b k = Some x /\ b' = on_block k (fun x => mkBlk (bl_params x) (bl_filled x) true) b.
Proof. cbn. case_bool_decide as Hk; [|done]. destruct (blk_sealed b k); [done|]. intros [= <-]. destruct Hk as [x Hx]. by exists x. Qed.
Lemma seal_grows k b b' : seal_block k b = (Ok tt, b') -> grows b b'.
Proof.
  intros (x & Hx & ->)%seal_inv. unfold on_block. replace (alter _ k (r_blocks b)) with (<[k := mkBlk (bl_params x) (bl_filled x) true]> (r_blocks b)).
  - apply set_block_grows. intros y Hy. by simplify_eq.
  - apply map_eq. intros j. destruct (decide (k = j)) as [<-|]; [rewrite lookup_insert_eq, lookup_alter_eq; unfold blk in Hx; by rewrite Hx|by rewrite lookup_insert_ne, lookup_alter_ne].
Qed.
Lemma switch_inv k b b' : switch_to_block k b = (Ok tt, b') -> is_Some (blk b k) /\ blk_filled b k = false /\ (forall c, r_current b = Some c -> blk_filled b c = true) /\ b' = set_current (Some k) b.
Proof.
  cbn. case_bool_decide as Hk; [|done]. destruct (blk_filled b k); [done|]. cbn. destruct (r_current b) as [c|]; [destruct (blk_filled b c) eqn:Hf; [|done]|]; intros [= <-].
  - split; [done|]. split; [done|]. split; [|done]. intros ? [= <-]. done.
  - done.
Qed.
Lemma switch_grows k b b' : switch_to_block k b = (Ok tt, b') -> grows b b'.
Proof.
  intros (Hk & Hf & Hc & ->)%switch_inv. split; [split; try done; intros d x Hx; by exists x|].
  intros Ht d e Hin. destruct (Ht d e Hin) as [?|Hd]; [by left|]. left. by apply Hc.
Qed.
Lemma grown_grows b b' evs : grown b b' evs -> grows b b'.
Proof.
  intros [T I V X C B S E]. split.
  - split; try done; [rewrite T; by apply prefix_app_r|]. intros d x Hx. exists x. unfold blk in *. by rewrite B.
  - intros Ht d e. rewrite T, C, elem_of_app. intros [Hin|(e' & Heq & _)%list_elem_of_fmap]; [|right; congruence].
    unfold blk_filled, blk. rewrite B. by apply (Ht d e).
Qed.

(** ** The effect of control operators on the recorded function

    Blocks with parameters, jumps and conditional branches on values that are no
    vectors, as equations on the builder and the translation state. *)

Section Blocks.
Context `{TC : TrapCodes} (dbg : bool) (env : TranslationEnvironment) (validator : FuncValidator).
Abbreviation M := (SM (TState Rec) Error).

(** ** New blocks *)
Record new_block_of (b b' : Rec) (d : Block) (tys : list ir.Type_) : Prop := {
  nb_fresh : blk b d = None;
  nb_blk : blk b' d = Some (mkBlk (zip (fresh_values b tys) tys) false false);
  nb_other : forall j, j <> d -> blk b' j = blk b j;
  nb_values : r_values b' = r_values b ++ tys;
  nb_insts : r_insts b' = r_insts b;
  nb_trace : r_trace b' = r_trace b;
  nb_vars : r_vars b' = r_vars b;
  nb_sig : r_sig b' = r_sig b;
  nb_entry : r_entry b' = r_entry b;
  nb_current : r_current b' = r_current b }.

Lemma fresh_cons b t ts b1 : r_values b1 = r_values b ++ [t] -> fresh_values b (t :: ts) = pm_len (r_values b) :: fresh_values b1 ts.
Proof.
  intros Hv. unfold fresh_values, pm_len. rewrite Hv, length_app. cbn [length seq fmap list_fmap]. f_equal; [lia|]. rewrite <- seq_shift, <- list_fmap_compose.
  apply list_fmap_ext. intros i x _. cbn. lia.
Qed.
Lemma append_inv k t b v b' : append_block_param k t b = (Ok v, b') -> exists x, blk b k = Some x /\ b' = add_params k [t] b.
Proof. cbn. case_bool_decide as Hk; [|done]. destruct (blk_filled b k); [done|]. intros [= <- <-]. destruct Hk as [x Hx]. by exists x. Qed.
Lemma blk_add_params k ts b x : blk b k = Some x -> blk (add_params k ts b) k = Some (mkBlk (bl_params x ++ zip (fresh_values b ts) ts) (bl_filled x) (bl_sealed x)).
Proof. intros Hx. unfold blk, add_params, on_block, set_blocks, set_values in *. cbn [r_blocks]. by rewrite lookup_alter_eq, Hx. Qed.
Lemma blk_add_params_ne k ts b j : j <> k -> blk (add_params k ts b) j = blk b j.
Proof. intros Hj. unfold blk, add_params, on_block, set_blocks, set_values in *. cbn [r_blocks]. by rewrite lookup_alter_ne. Qed.

Lemma append_params_inv d ps : forall t t' x, append_params env d ps t = (Ok tt, t') -> blk (bld t) d = Some x ->
  exists tys, mapO (param_type env) ps = Ok tys /\ st t' = st t /\
    blk (bld t') d = Some (mkBlk (bl_params x ++ zip (fresh_values (bld t) tys) tys) (bl_filled x) (bl_sealed x)) /\ (forall j, j <> d -> blk (bld t') j = blk (bld t) j) /\
    r_values (bld t') = r_values (bld t) ++ tys /\ r_insts (bld t') = r_insts (bld t) /\ r_trace (bld t') = r_trace (bld t) /\ r_vars (bld t') = r_vars (bld t) /\
    r_sig (bld t') = r_sig (bld t) /\ r_entry (bld t') = r_entry (bld t) /\ r_current (bld t') = r_current (bld t).
Proof.
  induction ps as [|ty ps IH]; intros t t' x H Hx; cbn [append_params mapO] in *.
  - injection H as <-. exists []. rewrite !app_nil_r. by destruct x.
  - apply sm_bind_ok in H as (ity & t1 & H1 & H). unfold sm_lift in H1. injection H1 as H1 <-. apply sm_bind_ok in H as (v & t2 & H2 & H).
    unfold onb in H2. destruct (append_block_param d ity (bld t)) as [r b2] eqn:E. cbn in H2. injection H2 as -> <-. apply append_inv in E as (_ & _ & ->).
    destruct (IH _ _ _ H (blk_add_params _ _ _ _ Hx)) as (tys & Hm & Hs & Hb & Ho & Hv & Hi & Ht & Hva & Hsg & He & Hc). cbn [bld st] in *.
    exists (ity :: tys). rewrite H1. cbn [mbind outcome_bind]. rewrite Hm. split; [done|]. split; [done|].
    rewrite (fresh_cons (bld t) ity tys (add_params d [ity] (bld t))) by done. rewrite fresh_one in Hb. cbn [zip zip_with bl_params bl_filled bl_sealed] in Hb.
    split; [by rewrite Hb, <- app_assoc|]. split; [intros j Hj; rewrite Ho by done; by apply blk_add_params_ne|]. split; [rewrite Hv; symmetry; apply (app_assoc _ [ity] tys)|done].
Qed.
Lemma block_with_params_inv ps t d t' : block_with_params env ps t = (Ok d, t') ->
  exists tys, mapO (param_type env) ps = Ok tys /\ st t' = st t /\ new_block_of (bld t) (bld t') d tys.
Proof.
  intros H. apply sm_bind_ok in H as (k & t1 & H1 & H). apply sm_bind_ok in H as ([] & t2 & H2 & H). injection H as <- <-.
  injection H1 as <- <-. destruct (append_params_inv _ _ _ _ (mkBlk [] false false) H2) as (tys & Hm & Hs & Hb & Ho & Hv & Hi & Ht & Hva & Hsg & He & Hc).
  { unfold blk. cbn. by rewrite lookup_insert_eq. }
  exists tys. split; [done|]. split; [done|]. split; try done; [apply new_block_fresh|]. intros j Hj. rewrite Ho by done. unfold blk. cbn. by rewrite lookup_insert_ne.
Qed.
Lemma new_block_grows b b' d tys : new_block_of b b' d tys -> grows b b'.
Proof.
  intros [F B O V I T X S E C]. split.
  - split; rewrite ?T, ?I, ?V, ?X; try done; [by apply prefix_app_r|by rewrite E|]. intros j x Hx. exists x. split; [|done]. rewrite O; [done|]. intros ->. by rewrite F in Hx.
  - apply tidy_blocks; try done. intros j Hf. unfold blk_filled in *. destruct (decide (j = d)) as [->|]; [by rewrite F in Hf|by rewrite O].
Qed.

(** ** Values that are no vectors *)
Definition scalar (t : ir.Type_) : Prop := ir.is_vector t = false.
Definition scalar_value (b : Rec) (v : Value) : Prop := exists t, typed b v t /\ scalar t.
Lemma scalar_no_cast b vs (s : FuncTranslationState) : Forall (scalar_value b) vs -> canonicalise_v128_values vs (mkT b s) = (Ok vs, mkT b s).
Proof.
  intros Hv. unfold canonicalise_v128_values. assert (any_non_canonical vs (mkT b s) = (Ok false, mkT b s)) as Ha; [|by rewrite (sm_step _ _ _ _ _ Ha)].
  induction Hv as [|v vs (t & Ht & Hs) _ IH]; [done|]. cbn [any_non_canonical]. erewrite sm_step; [|unfold value_type_of; erewrite sm_step by reflexivity; cbn; unfold typed in Ht; by rewrite Ht].
  assert (is_non_canonical_v128 t = false) as -> by (by destruct t). done.
Qed.
Lemma jump_inv d vs b s j t' : canonicalise_then_jump d vs (mkT b s) = (Ok j, t') -> Forall (scalar_value b) vs ->
  j = pm_len (r_insts b) /\ t' = mkT (emit (Jump d vs) [] b) s /\ is_open b = true.
Proof.
  intros H Hv. unfold canonicalise_then_jump in H. rewrite (sm_step _ _ _ _ _ (scalar_no_cast b vs s Hv)) in H. unfold insi, onb in H. cbn [bld st] in H.
  destruct (build (Jump d vs) b) as [r b'] eqn:E. cbn in H. injection H as -> <-. apply build_inv in E as (ts & Hc & Ho & -> & ->).
  cbn [check_inst] in Hc. unfold guard_types in Hc. case_match; by simplify_eq.
Qed.
Lemma brif_inv c b1 vs1 b2 vs2 b s j t' : canonicalise_brif c b1 vs1 b2 vs2 (mkT b s) = (Ok j, t') -> Forall (scalar_value b) vs1 -> Forall (scalar_value b) vs2 ->
  j = pm_len (r_insts b) /\ t' = mkT (emit (Brif c b1 vs1 b2 vs2) [] b) s /\ is_open b = true.
Proof.
  intros H Hv1 Hv2. unfold canonicalise_brif in H. rewrite (sm_step _ _ _ _ _ (scalar_no_cast b vs1 s Hv1)), (sm_step _ _ _ _ _ (scalar_no_cast b vs2 s Hv2)) in H. unfold insi, onb in H. cbn [bld st] in H.
  destruct (build (Brif c b1 vs1 b2 vs2) b) as [r b'] eqn:E. cbn in H. injection H as -> <-. apply build_inv in E as (ts & Hc & Ho & -> & ->).
  cbn [check_inst] in Hc. apply bind_Some in Hc as (ty & _ & Hc). unfold guard_types in Hc. case_match; by simplify_eq.
Qed.
End Blocks.
