(* ===== verification/SemEffects.v ===== *)
(** * The effect of control operators on the recorded function

    What a control operator has done when it succeeds: the blocks it made, the
    instruction it added, the block that is current afterwards and the new
    translation state. *)
From stdpp Require Import base list gmap option numbers.
From S2P Require Import Prelude Types Trap Module ModuleTypes VMOffsets HeapAccess Clif ClifLaws FuncState WasmOp FuncEnv CodeTranslator CodeTranslatorCtl CodeTranslatorOps WasmTyping WasmSem FuncValid OpTyping CtlInv CtlSim CtlSteps CtlDead CtlLive CtlBranch CtlBlocks RecBuilder RecBuilderLaws ClifMachine SemOps SemBuild.
Local Open Scope Z_scope.

(** ** Commands that move between blocks *)
Record moved (b b' : Rec) : Prop := {
  mv_trace : r_trace b' = r_trace b;
  mv_values : r_values b' = r_values b;
  mv_insts : r_insts b' = r_insts b;
  mv_vars : r_vars b' = r_vars b;
  mv_grows : grows b b' }.
Lemma moved_refl b : moved b b.
Proof. split; try done. apply growth_refl. Qed.
Lemma moved_trans a b c : moved a b -> moved b c -> moved a c.
Proof. intros [T1 V1 I1 X1 G1] [T2 V2 I2 X2 G2]. split; [congruence..|by eapply growth_trans]. Qed.
(** A block in which nothing has happened. *)
Definition untouched (b : Rec) (d : Block) : Prop := forall e, (Some d, e) ∉ r_trace b.

Section Lp.
Context `{TC : TrapCodes}.
Abbreviation M := (SM (TState Rec) Error).
(** If the computation succeeds, its result satisfies [Q]. *)
Definition lp {A} (m : M A) (t : TState Rec) (Q : A -> TState Rec -> Prop) : Prop := forall a t', m t = (Ok a, t') -> Q a t'.
Lemma lp_bind {A C} (m : M A) (k : A -> M C) t Q : lp m t (fun a t' => lp (k a) t' Q) -> lp (m ≫= k) t Q.
Proof. intros H c t' Hm. apply sm_bind_ok in Hm as (a & t1 & H1 & H2). by eapply H. Qed.
Lemma lp_wp {A} (m : M A) t Q : wp m t Q -> lp m t Q.
Proof. intros (a & t' & Hm & HQ) a1 t1 H1. rewrite Hm in H1. by simplify_eq. Qed.
Lemma lp_mono {A} (m : M A) t (P Q : A -> TState Rec -> Prop) : lp m t P -> (forall a t', P a t' -> Q a t') -> lp m t Q.
Proof. intros H HQ a t' Hm. by apply HQ, H. Qed.
Lemma lp_lift {A} (x : outcome Error A) t (Q : A -> TState Rec -> Prop) : (forall a, x = Ok a -> Q a t) -> lp (sm_lift x) t Q.
Proof. intros HQ a t' [= Hx <-]. by apply HQ. Qed.
Lemma lp_onb {A} (c : SM Rec Error A) t (Q : A -> TState Rec -> Prop) : (forall a b', c (bld t) = (Ok a, b') -> Q a (mkT b' (st t))) -> lp (onb c) t Q.
Proof. intros HQ a t'. unfold onb. destruct (c (bld t)) as [r b'] eqn:E. cbn. intros [= -> <-]. by apply HQ. Qed.
Lemma lp_insi i t (Q : Inst -> TState Rec -> Prop) :
  (forall ts, check_inst (bld t) i = Some ts -> is_open (bld t) = true -> Q (pm_len (r_insts (bld t))) (mkT (emit i ts (bld t)) (st t))) -> lp (insi i) t Q.
Proof. intros HQ. apply lp_onb. intros a b' (ts & Hc & Ho & -> & ->)%build_inv. by apply HQ. Qed.
Lemma lp_seal k t (Q : unit -> TState Rec -> Prop) :
  (forall b', moved (bld t) b' -> r_current b' = r_current (bld t) -> (forall j, blk_filled b' j = blk_filled (bld t) j) -> Q tt (mkT b' (st t))) -> lp (onb (seal_block k)) t Q.
Proof.
  intros HQ. apply lp_onb. intros [] b' H. pose proof (seal_grows _ _ _ H) as G. apply seal_inv in H as (x & Hx & ->). apply HQ; [by split|done|].
  intros j. unfold blk_filled, blk, on_block in *. cbn. destruct (decide (k = j)) as [->|]; [rewrite lookup_alter_eq, Hx; done|by rewrite lookup_alter_ne].
Qed.
Lemma lp_switch k t (Q : unit -> TState Rec -> Prop) : tidy (bld t) ->
  (forall b', moved (bld t) b' -> r_current b' = Some k -> untouched b' k -> Q tt (mkT b' (st t))) -> lp (onb (switch_to_block k)) t Q.
Proof.
  intros Ht HQ. apply lp_onb. intros [] b' H. pose proof (switch_grows _ _ _ H) as G. apply switch_inv in H as (Hk & Hf & Hc & ->). apply HQ; [by split|done|].
  intros e He. destruct (Ht k e He) as [?|Hk']; [congruence|]. by rewrite (Hc k Hk') in Hf.
Qed.
Lemma create_new b d b' : create_block b = (Ok d, b') -> new_block_of b b' d [].
Proof.
  intros [-> ->]%create_inv. split; try done; [apply new_block_fresh|unfold blk; cbn; by rewrite lookup_insert_eq| |by rewrite app_nil_r].
  intros j Hj. unfold blk. cbn. by rewrite lookup_insert_ne.
Qed.
Lemma lp_create t (Q : Block -> TState Rec -> Prop) : (forall d b', new_block_of (bld t) b' d [] -> Q d (mkT b' (st t))) -> lp (onb create_block) t Q.
Proof. intros HQ. apply lp_onb. intros d b' H%create_new. by apply HQ. Qed.
Lemma lp_new_block env ps t (Q : Block -> TState Rec -> Prop) :
  (forall tys d b', mapO (param_type env) ps = Ok tys -> new_block_of (bld t) b' d tys -> Q d (mkT b' (st t))) -> lp (block_with_params env ps) t Q.
Proof. intros HQ d [b' s'] (tys & Hm & Hs & Hn)%block_with_params_inv. cbn in Hs. subst. by eapply HQ. Qed.
Lemma lp_jump d vs t (Q : Inst -> TState Rec -> Prop) : Forall (scalar_value (bld t)) vs ->
  (is_open (bld t) = true -> Q (pm_len (r_insts (bld t))) (mkT (emit (Jump d vs) [] (bld t)) (st t))) -> lp (canonicalise_then_jump d vs) t Q.
Proof. destruct t as [b s]. intros Hv HQ j t' H. apply jump_inv in H as (-> & -> & Ho); [|done]. by apply HQ. Qed.
Lemma lp_brif c b1 vs1 b2 vs2 t (Q : Inst -> TState Rec -> Prop) : Forall (scalar_value (bld t)) vs1 -> Forall (scalar_value (bld t)) vs2 ->
  (is_open (bld t) = true -> Q (pm_len (r_insts (bld t))) (mkT (emit (Brif c b1 vs1 b2 vs2) [] (bld t)) (st t))) -> lp (canonicalise_brif c b1 vs1 b2 vs2) t Q.
Proof. destruct t as [b s]. intros Hv1 Hv2 HQ j t' H. apply brif_inv in H as (-> & -> & Ho); [|done..]. by apply HQ. Qed.
End Lp.

Section Effects.
Context `{TC : TrapCodes} (dbg : bool) (env : TranslationEnvironment) (validator : FuncValidator).
Abbreviation M := (SM (TState Rec) Error).
Abbreviation block_sig := (block_sig env validator).

Lemma new_tidy b b' d tys : new_block_of b b' d tys -> tidy b -> tidy b'.
Proof. intros H%new_block_grows. apply H. Qed.
Lemma emit_tidy i ts b : is_open b = true -> tidy b -> tidy (emit i ts b).
Proof. intros Ho. by apply emit_grows. Qed.
Lemma new_scalar b b' d tys vs : new_block_of b b' d tys -> Forall (scalar_value b) vs -> Forall (scalar_value b') vs.
Proof.
  intros H Hv. eapply list.Forall_impl; [exact Hv|]. intros v (t & Ht & Hs). exists t. split; [|done].
  eapply typed_prefix; [|exact Ht]. rewrite (nb_values _ _ _ _ H). by apply prefix_app_r.
Qed.
Lemma fresh_length b ts : length (fresh_values b ts) = length ts.
Proof. unfold fresh_values. by rewrite length_fmap, length_seq. Qed.
Lemma params_kept b b' d ps : kept b b' -> blk_params b d = ps -> is_Some (blk b d) -> blk_params b' d = ps.
Proof. intros K <- [x Hx]. destruct (k_blocks _ _ K d x Hx) as (x' & Hx' & E). unfold blk_params. by rewrite Hx, Hx'. Qed.
Lemma new_params b b' d tys : new_block_of b b' d tys -> block_params b' d = fresh_values b tys.
Proof. intros H. cbn. unfold blk_params. rewrite (nb_blk _ _ _ _ H). cbn. apply fst_zip. by rewrite fresh_length. Qed.
Lemma kept_block_params b b' d : kept b b' -> is_Some (blk b d) -> block_params b' d = block_params b d.
Proof. intros K Hd. cbn. by rewrite (params_kept _ _ _ _ K eq_refl Hd). Qed.
Lemma new_known b b' d tys : new_block_of b b' d tys -> is_Some (blk b' d).
Proof. intros H. rewrite (nb_blk _ _ _ _ H). by eexists. Qed.

(** ** Opening blocks *)
Lemma block_effect bt ps rs same t l args (Q : unit -> TState Rec -> Prop) : block_sig bt = Some (ps, rs, same) ->
  stack (st t) = l ++ args -> pm_len args = pm_len ps -> pm_len (stack (st t)) < max_height ->
  (forall d b', new_block_of (bld t) b' d rs ->
    Q tt (mkT b' (set_control_stack (control_stack (st t) ++ [Block_ d (pm_len args) (pm_len rs) (pm_len l) false]) (st t)))) ->
  lp (translate_block dbg env validator bt) t Q.
Proof.
  intros Hs Hst Hl Hb HQ. destruct (block_sig_inv _ _ _ _ _ _ Hs) as (wps & wrs & Hbt & Hps & Hrs & _ & Hlp & Hlr).
  apply lp_bind, lp_lift. rewrite Hbt. intros ? [= <-]. cbn [fst snd]. apply lp_bind, lp_new_block. intros tys d b' Ht Hn. assert (tys = rs) as -> by congruence.
  rewrite Hlp, Hlr, <- Hl. eapply lp_wp, wp_push_block; [exact Hst|done|]. by apply HQ.
Qed.
Lemma loop_effect bt ps rs same t l args (Q : unit -> TState Rec -> Prop) : block_sig bt = Some (ps, rs, same) ->
  stack (st t) = l ++ args -> pm_len args = pm_len ps -> pm_len (stack (st t)) < max_height -> Forall (scalar_value (bld t)) args -> tidy (bld t) ->
  (forall h b1 d b2 b', new_block_of (bld t) b1 h ps -> new_block_of b1 b2 d rs -> is_open b2 = true -> moved (emit (Jump h args) [] b2) b' -> r_current b' = Some h -> untouched b' h ->
    Q tt (mkT b' (set_stack (l ++ fresh_values (bld t) ps) (set_control_stack (control_stack (st t) ++ [Loop_ d h (pm_len args) (pm_len rs) (pm_len l)]) (st t))))) ->
  lp (translate_loop dbg env validator bt) t Q.
Proof.
  intros Hs Hst Hl Hb Hsc Ht HQ. destruct (block_sig_inv _ _ _ _ _ _ Hs) as (wps & wrs & Hbt & Hps & Hrs & _ & Hlp & Hlr).
  apply lp_bind, lp_lift. rewrite Hbt. intros ? [= <-]. cbn [fst snd]. rewrite Hlp, Hlr, <- Hl.
  apply lp_bind, lp_new_block. intros tys h b1 Hh N1. apply lp_bind, lp_new_block. intros tys' d b2 Hd N2. assert (tys' = rs) as -> by congruence. assert (tys = ps) as -> by congruence. cbn [bld st] in *.
  apply lp_bind. eapply lp_wp, wp_peekn; [exact Hst|done|done|]. apply lp_bind, lp_jump; [by do 2 (eapply new_scalar; [done|])|]. cbn [bld st]. intros Ho.
  apply lp_bind. eapply lp_wp, wp_push_loop; [exact Hst|done|]. apply lp_bind. eapply lp_wp, wp_popn; [exact Hst|done|done|]. apply lp_bind, lp_wp, wp_query. cbn [bld st].
  assert (block_params (emit (Jump h args) [] b2) h = fresh_values (bld t) ps) as ->.
  { rewrite (kept_block_params b1); [by eapply new_params| |by eapply new_known]. eapply kept_trans; [apply (new_block_grows _ _ _ _ N2)|]. by apply emit_grows. }
  apply lp_bind, lp_wp, wp_upd. apply lp_switch; cbn [bld st]; [apply emit_tidy, (new_tidy _ _ _ _ N2), (new_tidy _ _ _ _ N1); done|].
  intros b' Hm Hc Hu. by eapply HQ.
Qed.
(** A block is sealed and entered. *)
Lemma lp_seal_switch {A} k (m : M A) t Q : tidy (bld t) ->
  (forall b', moved (bld t) b' -> r_current b' = Some k -> untouched b' k -> lp m (mkT b' (st t)) Q) ->
  lp (_ ← onb (seal_block k); _ ← onb (switch_to_block k); m) t Q.
Proof.
  intros Ht HQ. apply lp_bind, lp_seal. intros b1 M1 _ _. apply lp_bind, lp_switch; cbn [bld st]; [by apply (mv_grows _ _ M1)|]. intros b' M2 Hc Hu. apply HQ; [|done..].
  by eapply moved_trans.
Qed.
Definition if_state (t : TState Rec) (l args : list Value) (rs : list ir.Type_) (bt : BlockType) (d : Block) (e : ElseData) : FuncTranslationState :=
  set_control_stack (control_stack (st t) ++ [If_ d e (pm_len args) (pm_len rs) (pm_len (l ++ args)) false bt (reachable (st t)) None]) (set_stack ((l ++ args) ++ args) (st t)).
Lemma if_effect bt ps rs same t l args cv (Q : unit -> TState Rec -> Prop) : block_sig bt = Some (ps, rs, same) ->
  stack (st t) = (l ++ args) ++ [cv] -> pm_len args = pm_len ps -> pm_len (l ++ args) + pm_len args < max_height -> Forall (scalar_value (bld t)) args -> tidy (bld t) ->
  (same = true -> forall nb b1 d b2 b', new_block_of (bld t) b1 nb [] -> new_block_of b1 b2 d rs -> is_open b2 = true ->
     moved (emit (Brif cv nb [] d args) [] b2) b' -> r_current b' = Some nb -> untouched b' nb -> Q tt (mkT b' (if_state t l args rs bt d (NoElse (pm_len (r_insts b2)) d)))) ->
  (same = false -> forall nb b1 d b2 e b3 b', new_block_of (bld t) b1 nb [] -> new_block_of b1 b2 d rs -> new_block_of b2 b3 e ps -> is_open b3 = true ->
     moved (emit (Brif cv nb [] e args) [] b3) b' -> r_current b' = Some nb -> untouched b' nb -> Q tt (mkT b' (if_state t l args rs bt d (WithElse e)))) ->
  lp (translate_if dbg env validator bt) t Q.
Proof.
  intros Hs Hst Hl Hb Hsc Ht HQ1 HQ2. destruct (block_sig_inv _ _ _ _ _ _ Hs) as (wps & wrs & Hbt & Hps & Hrs & -> & Hlp & Hlr).
  pose proof (pm_len_nonneg args) as H0. assert (pm_len (l ++ args) < max_height) as Hb' by lia.
  apply lp_bind. eapply lp_wp, wp_pop1; [exact Hst|]. apply lp_bind, lp_create. cbn [bld st]. intros nb b1 N1.
  apply lp_bind, lp_lift. rewrite Hbt. intros ? [= <-]. cbn [fst snd]. rewrite Hlp, Hlr, <- Hl. apply lp_bind. case_bool_decide as E.
  - apply lp_bind, lp_new_block. intros tys d b2 Hd N2. assert (tys = rs) as -> by congruence. cbn [bld st] in *.
    apply lp_bind. eapply lp_wp, wp_peekn; [reflexivity|done|done|]. apply lp_bind, lp_brif; [constructor|by do 2 (eapply new_scalar; [done|])|]. cbn [bld st]. intros Ho.
    apply lp_wp, wp_ret. cbn [fst snd]. apply lp_seal_switch; cbn [bld st]; [by apply emit_tidy, (new_tidy _ _ _ _ N2), (new_tidy _ _ _ _ N1)|]. intros b' Hm Hc Hu. eapply lp_wp, wp_push_if; [reflexivity|done|]. by eapply HQ1.
  - apply lp_bind, lp_new_block. intros tys d b2 Hd N2. assert (tys = rs) as -> by congruence. apply lp_bind, lp_new_block. intros tys e b3 He N3. assert (tys = ps) as -> by congruence. cbn [bld st] in *.
    apply lp_bind. eapply lp_wp, wp_peekn; [reflexivity|done|done|]. apply lp_bind, lp_brif; [constructor|by do 3 (eapply new_scalar; [done|])|]. cbn [bld st]. intros Ho.
    apply lp_bind, lp_seal. cbn [bld st]. intros b4 M4 _ _. apply lp_wp, wp_ret. cbn [fst snd]. apply lp_seal_switch; cbn [bld st]; [by apply (mv_grows _ _ M4), emit_tidy, (new_tidy _ _ _ _ N3), (new_tidy _ _ _ _ N2), (new_tidy _ _ _ _ N1)|]. intros b' Hm Hc Hu. eapply lp_wp, wp_push_if; [reflexivity|done|]. eapply HQ2; [done..| |done|done]. by eapply moved_trans.
Qed.

(** ** [else] and [end] *)
Definition shaped (t : TState Rec) (fs : list ControlStackFrame) (stk : list Value) (r : bool) : Prop := frames t = fs /\ stack (st t) = stk /\ reachable (st t) = r.
(** The branch instruction [i] goes to [new] instead of [old]. *)
Definition redirect (i : Inst) (old new : Block) (b : Rec) : Rec := set_insts (alter (fun x => (retarget old new x.1, x.2)) (Z.to_nat i) (r_insts b)) b.
Lemma redirect_grows i old new b : grows b (redirect i old new b).
Proof. split; [split; try done; intros d x Hx; by exists x|]. by apply tidy_blocks. Qed.
Lemma lp_redirect i old new t (Q : unit -> TState Rec -> Prop) : Q tt (mkT (redirect i old new (bld t)) (st t)) -> lp (onb (change_jump_destination i old new)) t Q.
Proof. intros HQ. apply lp_onb. intros [] b'. cbn. case_match; [|done]. by intros [= <-]. Qed.

Section Else.
Variables (t : TState Rec) (d : Block) (e : ElseData) (n r : Z) (x : bool) (bt : BlockType) (fs : list ControlStackFrame) (base seg : list Value).
Hypotheses (Hf : frames t = If_ d e n r (pm_len base) x bt true None :: fs) (Hst : stack (st t) = base ++ seg) (Hlen : pm_len (stack (st t)) < max_height)
  (Hfl : pm_len (frames t) < max_height) (Ht : tidy (bld t)).
Abbreviation after c := (If_ d e n r (pm_len base) x bt true (Some c) :: fs).
Lemma else_marked (c : bool) : frames (mkT (bld t) (set_frame (pm_len (frames t) - 1 - Z.of_nat 0) (If_ d e n r (pm_len base) x bt true (Some c)) (st t))) = after c.
Proof. rewrite frames_set; rewrite Hf; [done|cbn; lia]. Qed.
(** The first branch ends here: its results go to the code after the [if]. *)
Lemma else_effect (Q : unit -> TState Rec -> Prop) : reachable (st t) = true -> Forall (scalar_value (bld t)) seg -> pm_len seg = r ->
  match e with
  | NoElse i p => p = d /\ exists ps rs, block_sig bt = Some (ps, rs, true) /\ pm_len ps = r /\
      forall k b1 t', new_block_of (bld t) b1 k ps -> is_open b1 = true -> moved (redirect i d k (emit (Jump d seg) [] b1)) (bld t') ->
        r_current (bld t') = Some k -> untouched (bld t') k -> shaped t' (after true) base true -> Q tt t'
  | WithElse k => forall t', is_open (bld t) = true -> moved (emit (Jump d seg) [] (bld t)) (bld t') -> r_current (bld t') = Some k -> untouched (bld t') k ->
        shaped t' (after true) base true -> Q tt t'
  end -> lp (translate_else dbg env validator) t Q.
Proof.
  intros Hr Hsc Hs HQ. assert (0 < pm_len (frames t)) as H0 by (rewrite Hf; unfold pm_len; cbn; lia).
  apply lp_bind. apply lp_wp, wp_top_index; [done|]. apply lp_bind. eapply lp_wp, (wp_frame_at t 0); [by rewrite Hf|]. cbv beta iota.
  apply lp_bind, lp_wp, wp_debug_assert; [done|]. apply lp_bind, lp_wp, wp_get. rewrite Hr. apply lp_bind, lp_wp, wp_upd. apply lp_bind, lp_wp, wp_upd. cbn [set_consequent].
  pose proof (else_marked true) as Hf1. set (s1 := set_frame _ _ _) in *. apply lp_bind. destruct e as [i p|k].
  - destruct HQ as (-> & ps & rs & Hsig & Hps & HQ). destruct (block_sig_inv _ _ _ _ _ _ Hsig) as (wps & wrs & Hbt & Hwp & _ & _ & Hlp & _).
    apply lp_bind, lp_lift. rewrite Hbt. intros ? [= <-]. cbn [fst snd]. apply lp_bind, lp_wp, wp_debug_assert; [apply Z.eqb_eq; congruence|].
    apply lp_bind, lp_new_block. intros tys k b1 Hk N1. assert (tys = ps) as -> by congruence. cbn [bld st] in *.
    apply lp_bind. eapply lp_wp, (wp_peekn _ _ base seg); [exact Hst|exact Hlen|congruence|]. apply lp_bind, lp_jump; [by eapply new_scalar|]. cbn [bld st]. intros Ho.
    apply lp_bind. eapply lp_wp, (wp_popn _ _ base seg); [exact Hst|exact Hlen|congruence|]. apply lp_bind, lp_redirect. cbn [bld st].
    apply lp_bind, lp_seal. intros b2 M2 _ _. apply lp_wp, wp_ret. cbn [bld st] in *. apply lp_switch; cbn [bld st].
    { apply (mv_grows _ _ M2), redirect_grows, emit_tidy, (new_tidy _ _ _ _ N1); done. }
    intros b3 M3 Hc Hu. by eapply HQ; [done|done|eapply moved_trans| | |].
  - apply lp_bind. eapply lp_wp, (wp_peekn _ _ base seg); [exact Hst|exact Hlen|congruence|]. apply lp_bind, lp_jump; [done|]. cbn [bld st]. intros Ho.
    apply lp_bind. eapply lp_wp, (wp_popn _ _ base seg); [exact Hst|exact Hlen|congruence|]. apply lp_wp, wp_ret. apply lp_switch; cbn [bld st]; [by apply emit_tidy|].
    intros b3 M3 Hc Hu. by apply HQ.
Qed.
(** The first branch does not end. *)
Lemma dead_else_effect (Q : unit -> TState Rec -> Prop) : reachable (st t) = false ->
  match e with
  | NoElse i p => p = d /\ exists ps rs, block_sig bt = Some (ps, rs, true) /\
      forall k b1 t', new_block_of (bld t) b1 k ps -> moved (redirect i d k b1) (bld t') ->
        r_current (bld t') = Some k -> untouched (bld t') k -> shaped t' (after false) base true -> Q tt t'
  | WithElse k => forall t', moved (bld t) (bld t') -> r_current (bld t') = Some k -> untouched (bld t') k -> shaped t' (after false) base true -> Q tt t'
  end -> lp (unreachable_else dbg env validator) t Q.
Proof.
  intros Hr HQ. assert (0 < pm_len (frames t)) as H0 by (rewrite Hf; unfold pm_len; cbn; lia).
  apply lp_bind. apply lp_wp, wp_top_index; [done|]. apply lp_bind. eapply lp_wp, (wp_frame_at t 0); [by rewrite Hf|]. cbv beta iota.
  apply lp_bind, lp_wp, wp_debug_assert; [done|]. apply lp_bind, lp_wp, wp_get. rewrite Hr. apply lp_bind, lp_wp, wp_upd. apply lp_bind, lp_wp, wp_upd. cbn [set_consequent].
  pose proof (else_marked false) as Hf1. set (s1 := set_frame _ _ _) in *. apply lp_bind. destruct e as [i p|k].
  - destruct HQ as (-> & ps & rs & Hsig & HQ). destruct (block_sig_inv _ _ _ _ _ _ Hsig) as (wps & wrs & Hbt & Hwp & _ & _ & Hlp & _).
    apply lp_bind, lp_lift. rewrite Hbt. intros ? [= <-]. cbn [fst snd].
    apply lp_bind, lp_new_block. intros tys k b1 Hk N1. assert (tys = ps) as -> by congruence. cbn [bld st] in *.
    apply lp_bind. eapply lp_wp, wp_to_else; [exact Hf1|done|done|exact Hst|]. apply lp_bind, lp_redirect. cbn [bld st].
    apply lp_bind, lp_seal. intros b2 M2 _ _. apply lp_wp, wp_ret. cbn [bld st] in *. apply lp_switch; cbn [bld st].
    { by apply (mv_grows _ _ M2), redirect_grows, (new_tidy _ _ _ _ N1). }
    intros b3 M3 Hc Hu. by eapply HQ; [done|eapply moved_trans| | |].
  - apply lp_bind. eapply lp_wp, wp_to_else; [exact Hf1|done|done|exact Hst|]. apply lp_wp, wp_ret. apply lp_switch; cbn [bld st]; [done|].
    intros b3 M3 Hc Hu. by apply HQ.
Qed.
End Else.

(** The height of the stack around the frame. *)
Definition under_size (f : ControlStackFrame) : Z := original_stack_size f - (if is_if f then num_param_values f else 0).
Lemma truncate_under f under junk : under_size f = pm_len under -> 0 <= num_param_values f -> original_stack_size f < max_height ->
  truncate_value_stack_to_original_size (E:=Error) dbg f (under ++ junk) = Ok under.
Proof.
  intros Hu Hn Ho. pose proof (pm_len_nonneg under) as H0. unfold truncate_value_stack_to_original_size, under_size in *. destruct (is_if f).
  - rewrite (proj2 (Z.leb_le _ _)), debug_assert_true by lia. cbn [mbind outcome_bind]. rewrite wrapping_sub_len by lia. by rewrite Hu, truncate_app.
  - cbn [mbind outcome_bind]. rewrite wrapping_sub_len by lia. by rewrite Hu, truncate_app.
Qed.
Section End_.
Variables (t : TState Rec) (f : ControlStackFrame) (fs : list ControlStackFrame) (under : list Value).
Hypotheses (Hf : frames t = f :: fs) (Hu : under_size f = pm_len under) (Hn : 0 <= num_param_values f) (Ho : original_stack_size f < max_height)
  (Hlen : pm_len (stack (st t)) < max_height) (Ht : tidy (bld t)) (Hd : is_Some (blk (bld t) (following_code f))).
Lemma lp_header (t1 : TState Rec) (Q : unit -> TState Rec -> Prop) :
  (forall b', moved (bld t1) b' -> r_current b' = r_current (bld t1) -> Q tt (mkT b' (st t1))) ->
  lp (match f with Loop_ _ header _ _ _ => onb (seal_block header) | _ => mret tt end) t1 Q.
Proof.
  intros HQ. destruct t1 as [b1 s1]. destruct f; try (apply lp_wp, wp_ret; apply (HQ b1); [apply moved_refl|done]). apply lp_seal. intros b' Hm Hc _. by apply HQ.
Qed.
Lemma end_effect mid seg (Q : unit -> TState Rec -> Prop) : reachable (st t) = true -> stack (st t) = (under ++ mid) ++ seg -> pm_len seg = num_return_values f -> Forall (scalar_value (bld t)) seg ->
  (forall t', is_open (bld t) = true -> moved (emit (Jump (following_code f) seg) [] (bld t)) (bld t') -> r_current (bld t') = Some (following_code f) ->
     untouched (bld t') (following_code f) -> shaped t' fs (under ++ block_params (bld t) (following_code f)) true -> Q tt t') ->
  lp (translate_end dbg) t Q.
Proof.
  intros Hr Hst Hs Hsc HQ. apply lp_bind. eapply lp_wp, wp_pop_frame; [exact Hf|]. apply lp_bind. eapply lp_wp, wp_peekn; [exact Hst|exact Hlen|congruence|].
  apply lp_bind, lp_jump; [done|]. cbn [bld st]. intros Hop. apply lp_bind, lp_switch; cbn [bld st]; [by apply emit_tidy|]. intros b1 M1 C1 U1.
  apply lp_bind, lp_seal. cbn [bld st]. intros b2 M2 C2 _. apply lp_bind, lp_header. cbn [bld st]. intros b3 M3 C3. apply lp_bind.
  eapply lp_wp, (wp_mod _ (set_stack under _)); [cbn [st stack set_control_stack]; by rewrite Hst, <- app_assoc, truncate_under|].
  apply lp_bind, lp_wp, wp_query, lp_wp, wp_upd. cbn [bld st]. assert (moved (emit (Jump (following_code f) seg) [] (bld t)) b3) as M by (by eapply moved_trans; [|eapply moved_trans]).
  apply HQ; cbn [bld]; [done|done|congruence| |].
  - intros ev. unfold untouched in U1. rewrite (mv_trace _ _ M3), (mv_trace _ _ M2). apply U1.
  - split; [apply rev_involutive|]. split; [|done]. cbn [st stack set_stack pushn set_control_stack]. f_equal. apply kept_block_params; [|done].
    eapply kept_trans; [by apply emit_grows|apply (mv_grows _ _ M)].
Qed.
Lemma dead_end_effect junk (Q : unit -> TState Rec -> Prop) : reachable (st t) = false -> stack (st t) = under ++ junk ->
  (exit_is_branched_to f || reachable_anyway f = true -> forall t', moved (bld t) (bld t') -> r_current (bld t') = Some (following_code f) ->
     untouched (bld t') (following_code f) -> shaped t' fs (under ++ block_params (bld t) (following_code f)) true -> Q tt t') ->
  (exit_is_branched_to f || reachable_anyway f = false -> forall t', moved (bld t) (bld t') -> shaped t' fs under false -> Q tt t') ->
  lp (unreachable_end dbg) t Q.
Proof.
  intros Hr Hst HQ1 HQ2. apply lp_bind. eapply lp_wp, wp_pop_frame; [exact Hf|]. apply lp_bind.
  eapply lp_wp, (wp_mod _ (set_stack under _)); [cbn [st stack set_control_stack]; by rewrite Hst, truncate_under|].
  apply lp_bind, lp_header. cbn [bld st]. intros b1 M1 C1. destruct (exit_is_branched_to f || reachable_anyway f).
  - apply lp_bind, lp_switch; cbn [bld st]; [by apply (mv_grows _ _ M1)|]. intros b2 M2 C2 U2. apply lp_bind, lp_seal. cbn [bld st]. intros b3 M3 C3 _.
    apply lp_bind, lp_wp, wp_query. apply lp_bind, lp_wp, wp_upd. apply lp_wp, wp_upd. cbn [bld st]. assert (moved (bld t) b3) as M by (by eapply moved_trans; [|eapply moved_trans]).
    apply HQ1; cbn [bld]; [done|done|congruence| |].
    + intros ev. rewrite (mv_trace _ _ M3). apply U2.
    + split; [apply rev_involutive|]. split; [|done]. cbn [st stack set_stack pushn set_control_stack set_reachable]. f_equal. apply kept_block_params; [apply (mv_grows _ _ M)|done].
  - apply lp_wp, wp_ret. apply HQ2; [done|done|]. split; [apply rev_involutive|]. by split.
Qed.
End End_.

(** ** Branches *)
Lemma zip_eq_fst {X Y} (l : list X) (k : list Y) r : zip_eq l k = Ok r -> r.*1 = l.
Proof. revert k r. induction l as [|x l IH]; intros [|y k] r H; try discriminate H; [by injection H as <-|]. cbn in H. apply bind_ok in H as (r' & Hr & [= <-]). cbn. f_equal. by eapply IH. Qed.
Lemma no_changes pairs (t : TState Rec) : Forall (fun p => scalar p.1) pairs -> bitcast_changes pairs t = (Ok [], t).
Proof.
  induction 1 as [|[ty [i v]] pairs Hs _ IH]; [done|]. cbn in Hs. unfold scalar in Hs. cbn [bitcast_changes]. rewrite Hs.
  erewrite sm_step by reflexivity. by erewrite sm_step by exact IH.
Qed.
Lemma lp_returns args t (Q : list Value -> TState Rec -> Prop) : Forall scalar (ir.value_type <$> ir.returns (r_sig (bld t))) -> Q args t -> lp (bitcast_wasm_returns args) t Q.
Proof.
  intros Hs HQ. apply lp_bind, lp_wp, wp_query. cbn [func_signature rec_builder]. apply lp_bind. apply lp_bind, lp_lift. intros pairs Hp%zip_eq_fst.
  eapply lp_mono with (P := fun l t' => l = [] /\ t' = t); [|intros ? ? [-> ->]; by apply lp_wp, wp_ret].
  intros l t' H. rewrite no_changes in H; [by simplify_eq|]. apply (proj1 (Forall_fmap fst scalar pairs)). rewrite Hp.
  apply list.Forall_forall. intros ty ([i p] & -> & [_ Hi]%list_elem_of_filter)%list_elem_of_fmap. eapply list.Forall_forall in Hs; [exact Hs|].
  unfold enumerate in Hi. apply list_elem_of_lookup in Hi as [j Hj]. rewrite list_lookup_imap in Hj. destruct (ir.returns (r_sig (bld t)) !! j) as [p'|] eqn:Ej; cbn in Hj; simplify_eq.
  apply list_elem_of_fmap. exists p. split; [done|]. by eapply list_elem_of_lookup_2.
Qed.

Lemma unreachable_effect t (Q : unit -> TState Rec -> Prop) :
  (forall t', is_open (bld t) = true -> bld t' = emit (TrapOp TRAP_UNREACHABLE) [] (bld t) -> shaped t' (frames t) (stack (st t)) false -> Q tt t') ->
  lp (_ ← insi (TrapOp TRAP_UNREACHABLE); upd (set_reachable false)) t Q.
Proof. intros HQ. apply lp_bind, lp_insi. intros ts [= <-] Ho. by apply lp_wp, wp_upd, HQ. Qed.
Section Branch.
Variables (t : TState Rec) (l args : list Value).
Hypotheses (Hlen : pm_len (stack (st t)) < max_height) (Hfl : pm_len (frames t) < max_height) (Hsc : Forall (scalar_value (bld t)) args).
Lemma return_effect f (Q : unit -> TState Rec -> Prop) : stack (st t) = l ++ args -> list.last (frames t) = Some f -> pm_len args = num_return_values f ->
  Forall scalar (ir.value_type <$> ir.returns (r_sig (bld t))) ->
  (forall t', is_open (bld t) = true -> bld t' = emit (Return_ args) [] (bld t) -> shaped t' (frames t) l false -> Q tt t') -> lp (translate_return dbg) t Q.
Proof.
  intros Hst Hla Hn Hrs HQ. apply lp_bind. eapply lp_wp, (wp_peek _ f).
  { rewrite last_lookup in Hla. apply frames_lookup in Hla. assert (frames t <> []) as Hne by (intros E; rewrite E in Hla; by unfold pm_get, pm_len in Hla; cbn in Hla; case_match).
    replace (pm_len (frames t) - 1 - Z.of_nat (pred (length (frames t)))) with 0 in Hla; [by rewrite Hla|]. unfold pm_len. destruct (frames t); [done|]. cbn [length pred]. lia. }
  apply lp_bind. eapply lp_wp, wp_peekn; [exact Hst|done|done|]. apply lp_bind, lp_returns; [done|]. apply lp_bind, lp_wp, wp_upd.
  rewrite (write_top_app _ l args args); [|done|done]. apply lp_bind, lp_insi. cbn [bld st]. intros ts Hc Ho. apply lp_bind.
  eapply lp_wp, (wp_popn _ _ l args); [done|by cbn; rewrite <- Hst|done|]. apply lp_wp, wp_upd. assert (ts = []) as -> by (cbn in Hc; unfold guard_types in Hc; by case_match; simplify_eq).
  by apply HQ.
Qed.
Variables (d : nat) (g : ControlStackFrame).
Hypotheses (Hg : frames t !! d = Some g) (Ha : pm_len args = branch_arity g).
Lemma br_effect (Q : unit -> TState Rec -> Prop) : stack (st t) = l ++ args ->
  (forall t', is_open (bld t) = true -> bld t' = emit (Jump (br_destination g) args) [] (bld t) -> shaped t' (<[d := set_branched_to_exit g]> (frames t)) l false -> Q tt t') ->
  lp (translate_br dbg (Z.of_nat d)) t Q.
Proof.
  intros Hst HQ. apply lp_bind. eapply lp_wp, wp_branch_to; [exact Hg|done|]. intros t1 E1 E2 E3 E4 _. cbn [fst snd]. apply lp_bind.
  eapply lp_wp, wp_peekn; [by rewrite E3|by rewrite E3|done|]. apply lp_bind, lp_jump; [by rewrite E1|]. intros Ho. apply lp_bind.
  eapply lp_wp, wp_popn; [by cbn; rewrite E3|by cbn; rewrite E3|done|]. apply lp_wp, wp_upd. rewrite E1 in Ho. apply HQ; [done|cbn; by rewrite E1|]. by split_and!.
Qed.
Lemma br_if_effect cv (Q : unit -> TState Rec -> Prop) : stack (st t) = (l ++ args) ++ [cv] -> tidy (bld t) ->
  (forall nb b1 t', new_block_of (bld t) b1 nb [] -> is_open b1 = true -> moved (emit (Brif cv (br_destination g) args nb []) [] b1) (bld t') ->
     r_current (bld t') = Some nb -> untouched (bld t') nb -> shaped t' (<[d := set_branched_to_exit g]> (frames t)) (l ++ args) (reachable (st t)) -> Q tt t') ->
  lp (translate_br_if dbg (Z.of_nat d)) t Q.
Proof.
  intros Hst Ht HQ. assert (pm_len (l ++ args) < max_height) as Hlen' by (rewrite Hst, pm_len_snoc in Hlen; lia).
  apply lp_bind. eapply lp_wp, wp_pop1; [exact Hst|]. apply lp_bind. apply lp_bind. eapply lp_wp, wp_branch_to; [exact Hg|done|]. intros t1 E1 E2 E3 E4 _. cbn [fst snd bld st] in *.
  apply lp_bind. eapply lp_wp, wp_peekn; [by rewrite E3|by rewrite E3|done|]. apply lp_wp, wp_ret. apply lp_bind, lp_create. rewrite E1. intros nb b1 N1. cbn [fst snd bld st].
  apply lp_bind, lp_brif; [by eapply new_scalar|constructor|]. cbn [bld st]. intros Ho. apply lp_bind, lp_seal. cbn [bld st]. intros b2 M2 _ _.
  apply lp_switch; cbn [bld st]; [by apply (mv_grows _ _ M2), emit_tidy, (new_tidy _ _ _ _ N1)|]. intros b3 M3 C3 U3. eapply HQ; [done|done|by eapply moved_trans|done|done|]. by split_and!.
Qed.
End Branch.
End Effects.
