(* ===== verification/SemSim.v ===== *)
(** * The code of instructions computes their meaning

    Points of the translation correspond to points of the function that results:
    the events that follow in the current block.  A piece of code, translated from
    one state to another, takes the machine from the first point to the second
    one, or to the destination of a branch, a return or a trap, as [WasmSem]
    says. *)
From stdpp Require Import base list gmap option numbers.
From S2P Require Import Prelude Types Trap Module ModuleTypes VMOffsets HeapAccess Clif ClifLaws FuncState WasmOp FuncEnv CodeTranslator CodeTranslatorCtl CodeTranslatorOps WasmTyping WasmSem FuncValid CtlEnv OpTyping CtlInv CtlSim CtlSteps CtlDead CtlLive CtlBranch CtlBlocks CtlEnds CtlStep RecBuilder RecBuilderLaws ClifMachine SemOps SemBuild SemEffects.
Local Open Scope Z_scope.

(** ** Points *)
Section Points.
Context `{AR : ClifArith}.
Definition point (F b : Rec) (regs : registers) (vars : variables) : conf :=
  match r_current b with
  | Some c => Running (drop (length (block_code b c)) (block_code F c)) regs vars
  | None => Running [] regs vars
  end.

Lemma code_app b F l c : r_trace F = r_trace b ++ l -> block_code F c = block_code b c ++ (snd <$> filter (fun p => p.1 = Some c) l).
Proof. intros E. unfold block_code. by rewrite E, list.filter_app, fmap_app. Qed.
Lemma code_current (c : Block) (evs : list Event) : (snd <$> filter (fun p : option Block * Event => p.1 = Some c) ((fun e => (Some c, e)) <$> evs)) = evs.
Proof. induction evs as [|e evs IH]; [done|]. rewrite fmap_cons, filter_cons_True by done. cbn [fmap list_fmap snd]. f_equal. exact IH. Qed.
Lemma point_same F b b' regs vars : r_trace b' = r_trace b -> r_current b' = r_current b -> point F b' regs vars = point F b regs vars.
Proof. intros E1 E2. unfold point, block_code. by rewrite E1, E2. Qed.
Lemma point_grown F b b' evs : grown b b' evs -> is_Some (r_current b) -> r_trace b' `prefix_of` r_trace F ->
  exists rest, (forall regs vars, point F b regs vars = Running (evs ++ rest) regs vars) /\ forall regs vars, point F b' regs vars = Running rest regs vars.
Proof.
  intros G [c Hc] [l HF]. exists (snd <$> filter (fun p => p.1 = Some c) l). pose proof (g_trace _ _ _ G) as T. rewrite Hc in T.
  assert (block_code b' c = block_code b c ++ evs) as E1 by (rewrite (code_app _ _ _ c T); f_equal; by apply code_current).
  pose proof (code_app _ _ _ c HF) as E2. unfold point. rewrite (g_current _ _ _ G), Hc. split; intros regs' vars'; [rewrite E2, E1, <- app_assoc|rewrite E2]; by rewrite drop_app_length.
Qed.
Lemma untouched_code b d : untouched b d -> block_code b d = [].
Proof.
  intros U. unfold block_code. destruct (filter _ (r_trace b)) as [|[o e] l] eqn:E; [done|]. assert ((o, e) ∈ filter (fun p => p.1 = Some d) (r_trace b)) as Hin by (rewrite E; left).
  apply list_elem_of_filter in Hin as [Ho Hin]. cbn in Ho. subst. by apply U in Hin.
Qed.
Lemma point_fresh F b d regs vars : r_current b = Some d -> untouched b d -> point F b regs vars = Running (block_code F d) regs vars.
Proof. intros Hc U. unfold point. by rewrite Hc, (untouched_code _ _ U). Qed.

(** ** Branches *)
Lemma emit_next F i ts b regs vars : is_open b = true -> r_trace (emit i ts b) `prefix_of` r_trace F ->
  exists rest, point F b regs vars = Running (EInst (pm_len (r_insts b)) :: rest) regs vars.
Proof.
  intros (c & Hc & _)%open_known [l HF]. rewrite emit_trace, Hc, <- app_assoc in HF. unfold point. rewrite Hc, (code_app _ _ _ c HF), drop_app_length.
  cbn [app]. rewrite filter_cons_True by done. by eexists.
Qed.
Lemma read_holds b regs vs xs : Forall2 (holds b regs) vs xs -> read_args regs vs = Some xs.
Proof. intros H. apply mapM_Some_2. eapply list.Forall2_impl; [exact H|]. by intros v x (t & _ & Hv & _). Qed.
Lemma holds_ranges b regs vs xs ts : Forall2 (holds b regs) vs xs -> Forall2 (typed b) vs ts -> Forall2 in_range ts xs.
Proof.
  intros H. revert ts. induction H as [|v x vs xs Hv _ IH]; intros ts Ht.
  - apply Forall2_nil_inv_l in Ht as ->. constructor.
  - apply Forall2_cons_inv_l in Ht as (t & ts' & Ht & Hts & ->). constructor; [by eapply holds_typed|by apply IH].
Qed.
Lemma step_jump F b d args ts regs vars xs k rest : pm_get (r_insts F) k = Some (Jump d args, ts) -> Forall2 (holds b regs) args xs ->
  step F (Running (EInst k :: rest) regs vars) = Some (Goto d xs regs vars).
Proof. intros Hk Hx. cbn. rewrite Hk. cbn. by rewrite (read_holds _ _ _ _ Hx). Qed.
Lemma step_return_ F b args ts regs vars xs k rest : pm_get (r_insts F) k = Some (Return_ args, ts) -> Forall2 (holds b regs) args xs ->
  step F (Running (EInst k :: rest) regs vars) = Some (Returned xs).
Proof. intros Hk Hx. cbn. rewrite Hk. cbn. by rewrite (read_holds _ _ _ _ Hx). Qed.
Lemma step_brif F b c b1 args1 b2 args2 ts regs vars z xs1 xs2 k rest : pm_get (r_insts F) k = Some (Brif c b1 args1 b2 args2, ts) -> holds b regs c z ->
  Forall2 (holds b regs) args1 xs1 -> Forall2 (holds b regs) args2 xs2 ->
  step F (Running (EInst k :: rest) regs vars) = Some (if z =? 0 then Goto b2 xs2 regs vars else Goto b1 xs1 regs vars).
Proof. intros Hk (t & _ & Hz & _) H1 H2. cbn. rewrite Hk. cbn. rewrite Hz. cbn. rewrite (read_holds _ _ _ _ H1), (read_holds _ _ _ _ H2). by case_match. Qed.

(** ** Entering a block *)
Lemma fresh_NoDup b ts : NoDup (fresh_values b ts).
Proof. unfold fresh_values. apply list.NoDup_fmap_2; [intros x y; lia|]. apply NoDup_seq. Qed.
Lemma fresh_typed b b' ts : r_values b ++ ts `prefix_of` r_values b' -> Forall2 (typed b') (fresh_values b ts) ts.
Proof.
  intros P. apply Forall2_same_length_lookup_2; [by rewrite fresh_length|]. intros i v t Hv Ht. unfold fresh_values in Hv. rewrite list_lookup_fmap in Hv.
  destruct (seq 0 (length ts) !! i) as [j|] eqn:E; cbn in Hv; [|done]. apply lookup_seq in E as [-> _]. simplify_eq. eapply prefix_pm_get; [exact P|].
  unfold pm_get. rewrite (proj2 (Z.leb_le _ _)) by lia. rewrite Nat2Z.id, lookup_app_r by lia. by replace (length (r_values b) + (0 + i) - length (r_values b))%nat with i by lia.
Qed.
Lemma fresh_high b ts v : v ∈ fresh_values b ts -> pm_len (r_values b) <= v.
Proof. intros (i & -> & _)%list_elem_of_fmap. unfold pm_len. lia. Qed.
Lemma assign_low n vs xs regs : (forall v, v ∈ vs -> n <= v) -> below n regs (assign vs xs regs).
Proof.
  intros Hv w Hw. unfold assign. apply lookup_union_r. apply not_elem_of_list_to_map_1. intros Hin. apply list_elem_of_fmap in Hin as ([v x] & -> & Hin%elem_of_zip_l). apply Hv in Hin. cbn in Hw. lia.
Qed.
Lemma assign_get vs xs regs i v x : NoDup vs -> length xs = length vs -> vs !! i = Some v -> xs !! i = Some x -> assign vs xs regs !! v = Some x.
Proof.
  intros Hn Hl Hv Hx. unfold assign. apply lookup_union_Some_l, elem_of_list_to_map_1.
  - by rewrite fst_zip by lia.
  - apply list_elem_of_lookup. exists i. by rewrite lookup_zip_with, Hv, Hx.
Qed.
Lemma assign_holds b b' ts xs regs : r_values b ++ ts `prefix_of` r_values b' -> Forall2 in_range ts xs ->
  Forall2 (holds b' (assign (fresh_values b ts) xs regs)) (fresh_values b ts) xs.
Proof.
  intros P Hr. pose proof (fresh_typed _ _ _ P) as Ht. pose proof (Forall2_length Hr) as Hl. apply Forall2_same_length_lookup_2; [by rewrite fresh_length|]. intros i v x Hv Hx.
  destruct (Forall2_lookup_l _ _ _ _ _ Ht Hv) as (t & Hti & Htv). exists t. split; [done|]. split.
  - eapply assign_get; [apply fresh_NoDup|by rewrite fresh_length|done|done].
  - by eapply Forall2_lookup_lr.
Qed.
Lemma step_goto F b0 d xs regs vars : kept b0 F -> is_Some (blk b0 d) -> length xs = length (block_params b0 d) ->
  step F (Goto d xs regs vars) = Some (Running (block_code F d) (assign (block_params b0 d) xs regs) vars).
Proof.
  intros K [x Hx] Hl. destruct (k_blocks _ _ K d x Hx) as (x' & Hx' & E). cbn [step]. cbn in Hl. unfold blk_params in *. rewrite Hx in Hl. rewrite Hx'. cbn [mbind option_bind].
  rewrite E. rewrite length_fmap in Hl. rewrite (proj2 (Nat.eqb_eq _ _) Hl). cbn. unfold blk_params. by rewrite Hx.
Qed.
Lemma locals_kept b b' vars ls : kept b b' -> locals_hold b vars ls -> locals_hold b' vars ls.
Proof. intros K. apply locals_vars, K. Qed.
Lemma locals_back b b' vars ls : kept b b' -> locals_hold b' vars ls -> locals_hold b vars ls.
Proof. intros K. apply locals_vars. by rewrite (k_vars _ _ K). Qed.
End Points.

(** ** The instructions considered *)
Section Induction.
Variables (Q : instr -> Prop) (P : list instr -> Prop).
Hypotheses (Hnil : P []) (Hcons : forall i l, Q i -> P l -> P (i :: l)) (Hplain : forall op, Q (Plain op)) (Hblock : forall bt body, P body -> Q (IBlock bt body))
  (Hloop : forall bt body, P body -> Q (ILoop bt body)) (Hif : forall bt thn els, P thn -> (forall e, els = Some e -> P e) -> Q (IIf bt thn els))
  (Hbr : forall l, Q (IBr l)) (Hbrif : forall l, Q (IBrIf l)) (Hret : Q IReturn) (Hunr : Q IUnreachable).
Fixpoint instr_nested_ind (i : instr) : Q i :=
  let go := fix go (l : list instr) : P l := match l with [] => Hnil | i :: l => Hcons i l (instr_nested_ind i) (go l) end in
  match i with
  | Plain op => Hplain op
  | IBlock bt body => Hblock bt body (go body)
  | ILoop bt body => Hloop bt body (go body)
  | IIf bt thn els => Hif bt thn els (go thn)
      (match els return forall e, els = Some e -> P e with
       | Some e => fun e' H => eq_ind e P (go e) e' (f_equal (default e) H)
       | None => fun e' H => match H in _ = o return match o with None => True | Some e => P e end with eq_refl => I end
       end)
  | IBr l => Hbr l
  | IBrIf l => Hbrif l
  | IReturn => Hret
  | IUnreachable => Hunr
  end.
Lemma code_ind l : P l.
Proof. induction l as [|i l IH]; [exact Hnil|]. apply Hcons; [apply instr_nested_ind|done]. Qed.
End Induction.

Section Fragment.
Context (env : TranslationEnvironment) (validator : FuncValidator) (locals : list ir.Type_) (scalar_locals : Forall scalar locals).
Abbreviation block_sig := (block_sig env validator).
Abbreviation vstep := (vstep env validator locals).
Abbreviation vstep_raw := (vstep_raw env validator locals).
Abbreviation vsteps := (vsteps env validator locals).

(** Operators with a meaning, and no vectors in block types. *)
Definition block_ok (bt : BlockType) : bool :=
  match block_sig bt with Some (ps, rs, _) => forallb (fun t => negb (ir.is_vector t)) (ps ++ rs) | None => false end.
Definition op_ok (op : Operator.WasmOperator) : bool :=
  match op with
  | Operator.Block bt | Operator.Loop bt | Operator.If bt => block_ok bt
  | Operator.Else | Operator.End | Operator.Br _ | Operator.BrIf _ | Operator.Return | Operator.Unreachable => true
  | op => has_meaning op
  end.
(** Operators that stand alone. *)
Fixpoint instr_ok (i : instr) : bool :=
  match i with
  | Plain op => has_meaning op
  | IBlock bt body | ILoop bt body => block_ok bt && forallb instr_ok body
  | IIf bt thn els => block_ok bt && forallb instr_ok thn && match els with Some els => forallb instr_ok els | None => true end
  | _ => true
  end.
Definition arity_of (bt : BlockType) : nat * nat :=
  match block_sig bt with Some (ps, rs, _) => (length ps, length rs) | None => (0, 0)%nat end.

Lemma meaning_cases op : has_meaning op = true ->
  structural op = false /\ (op = Operator.Drop \/ op = Operator.Select \/ (exists x, op = Operator.LocalGet x \/ op = Operator.LocalSet x \/ op = Operator.LocalTee x) \/ is_Some (numeric_sig op)).
Proof. intros H. destruct op; try discriminate H; (split; [reflexivity|]); try (right; right; right; by eexists); try (right; right; left; eexists; tauto); tauto. Qed.
Lemma numeric_outs op ins outs : numeric_sig op = Some (ins, outs) -> Forall scalar outs /\ special op = false /\ num_operands op = Some (length ins).
Proof.
  intros H. destruct op; lazy [numeric_sig unop binop testop relop cvtop] in H; try discriminate H; injection H as <- <-; (split; [repeat constructor|by split]).
Qed.

Lemma eval_total op ins outs xs ls : numeric_sig op = Some (ins, outs) -> has_meaning op = true -> length xs = length ins -> is_Some (eval_plain op xs ls).
Proof.
  intros Hs Hm Hl. destruct op; lazy [numeric_sig unop binop testop relop cvtop] in Hs; try discriminate Hs; try discriminate Hm; injection Hs as <- <-;
    destruct xs as [|i [|j [|k xs]]]; try discriminate Hl; eexists; reflexivity.
Qed.

(** *** Operands that are no vectors *)
Definition scalar_frame (v : vframe) : Prop := Forall (fun o => forall t, o = Some t -> scalar t) (v_ops v) /\ Forall scalar (v_start v) /\ Forall scalar (v_end v).
Lemma scalar_pop_any v o v' : scalar_frame v -> vpop_any v = Some (o, v') -> scalar_frame v' /\ forall t, o = Some t -> scalar t.
Proof.
  intros (Ho & Hs & He). unfold vpop_any. destruct (v_ops v) as [|o' l] eqn:E; [destruct (v_dead v); [|done]; intros [= <- <-]; split; [by rewrite <- E in Ho|done]|].
  intros [= <- <-]. apply Forall_cons_iff in Ho as [Ho Hl]. done.
Qed.
Lemma scalar_pop t v v' : scalar_frame v -> vpop t v = Some v' -> scalar_frame v'.
Proof. intros Hv ([o w] & Hp & Hw)%bind_Some. destruct (scalar_pop_any _ _ _ Hv Hp) as [Hs _]. destruct o; [case_bool_decide|]; by simplify_eq. Qed.
Lemma scalar_pops ts v v' : scalar_frame v -> vpops ts v = Some v' -> scalar_frame v'.
Proof.
  unfold vpops. generalize (rev ts). intros l. revert v. induction l as [|t l IH]; intros v Hv H; cbn in H; [by simplify_eq|].
  apply bind_Some in H as (w & Hw & H). eapply IH; [|exact H]. by eapply scalar_pop.
Qed.
Lemma scalar_push ts v : Forall scalar ts -> scalar_frame v -> scalar_frame (vpush ts v).
Proof.
  intros Ht (Ho & Hs & He). split; [|done]. cbn. apply Forall_app. split; [|done]. apply Forall_rev, Forall_fmap. eapply list.Forall_impl; [exact Ht|]. by intros t Hts ? [= <-].
Qed.
Lemma scalar_enter k ps rs : Forall scalar ps -> Forall scalar rs -> scalar_frame (enter k ps rs).
Proof. intros Hp Hr. assert (enter k ps rs = vpush ps (mkV k ps rs [] false)) as -> by (unfold enter, vpush, set_ops; cbn; by rewrite app_nil_r).
  apply scalar_push; [done|]. by split; [constructor|].
Qed.
Lemma scalar_kill v : scalar_frame v -> scalar_frame (kill v).
Proof. intros (_ & Hs & He). split; [constructor|done]. Qed.
Lemma scalar_label vs d ts : Forall scalar_frame vs -> label vs d = Some ts -> Forall scalar ts.
Proof.
  intros Hv (i & w & -> & Hw & ->)%label_inv. eapply list.Forall_lookup_1 in Hw; [|exact Hv]. destruct Hw as (_ & Hs & He). unfold label_types. by destruct (v_kind w).
Qed.
Lemma block_ok_inv bt : block_ok bt = true -> exists ps rs same, block_sig bt = Some (ps, rs, same) /\ Forall scalar ps /\ Forall scalar rs.
Proof.
  unfold block_ok. destruct (block_sig bt) as [[[ps rs] same]|]; [|done]. intros H. exists ps, rs, same. split; [done|].
  apply Forall_app. apply list.Forall_forall. intros t Ht. rewrite forallb_forall in H. apply list_elem_of_In in Ht. specialize (H t Ht). unfold scalar. by destruct (ir.is_vector t).
Qed.
Lemma local_scalar x t : pm_get locals x = Some t -> scalar t.
Proof. unfold pm_get. case_match; [|done]. intros Hl. by eapply list.Forall_lookup_1 in scalar_locals. Qed.
Lemma scalar_operator op s : special op = false -> has_meaning op = true -> operator_sig env locals op = Some s -> Forall scalar s.2.
Proof.
  intros Hs Hm Ho. destruct (meaning_cases op Hm) as (_ & [->|[->|[(x & [->|[->| ->]])|[[ins outs] Hn]]]]); try discriminate Hs.
  - cbn in Ho. inv_some. constructor; [by eapply local_scalar|constructor].
  - cbn in Ho. inv_some. constructor.
  - cbn in Ho. inv_some. constructor; [by eapply local_scalar|constructor].
  - unfold operator_sig, plain_sig in Ho. rewrite Hn in Ho. injection Ho as <-. by eapply numeric_outs.
Qed.
Lemma vstep_scalar op vs vs' : op_ok op = true -> Forall scalar_frame vs -> vstep op vs = Some vs' -> Forall scalar_frame vs'.
Proof.
  intros Hop Hv (w & H & Hw)%bind_Some. destruct (height w <? max_height); [|done]. injection Hw as ->. destruct vs as [|v vs]; [done|]. pose proof Hv as Hv'. apply Forall_cons_iff in Hv as [Hf Hv].
  destruct (special op) eqn:Hs.
  - destruct op; try discriminate Hs; try discriminate Hop; lazy [FuncValid.vstep_raw] in H; cbn in Hop.
    all: try (destruct (block_ok_inv _ Hop) as (ps & rs & same & Hb & Hp & Hr); rewrite Hb in H). all: inv_some.
    all: lazymatch goal with
    | |- Forall _ (kill _ :: _) => constructor; [by apply scalar_kill|done]
    | |- Forall _ [] => constructor
    | |- Forall _ (enter KElse _ _ :: _) => constructor; [|done]; by apply scalar_enter; apply Hf
    | |- Forall _ (enter _ _ _ :: _) => constructor; [by apply scalar_enter|]; constructor; [|done]; eapply scalar_pops; [|eassumption]; try done; by eapply scalar_pop
    | |- Forall _ (vpush (v_end _) _ :: _) => apply Forall_cons_iff in Hv as [Hg Hv]; constructor; [|done]; apply scalar_push; [apply Hf|done]
    | |- Forall _ (vpush _ _ :: _) => constructor; [|done]; apply scalar_push; [by eapply scalar_label|]; eapply scalar_pops; [|eassumption]; by eapply scalar_pop
    | |- Forall _ (set_ops _ _ :: _) => idtac
    | |- _ => constructor; [|done]; by eapply scalar_pop_any
    end.
    assert (scalar_frame x) as Hx' by (by eapply scalar_pop). destruct (scalar_pop_any _ _ _ Hx' Hx0) as [H1 S1]. destruct (scalar_pop_any _ _ _ H1 Hx1) as [H2 S2].
    constructor; [|done]. destruct H2 as (O2 & ?). split; [|done]. constructor; [|done]. intros t ->.
    match goal with H : join ?a ?b = Some (Some t) |- _ => destruct a, b; cbn in H; [case_bool_decide|..]; simplify_eq; auto end.
  - assert (has_meaning op = true) as Hm by (destruct op; try discriminate Hs; exact Hop).
    destruct (vstep_plain _ _ _ _ _ _ _ Hs H) as (s & v' & Ho & Ha & ->). constructor; [|done]. apply bind_Some in Ha as (w' & Hp & [= <-]).
    apply scalar_push; [by eapply scalar_operator|by eapply scalar_pops].
Qed.
End Fragment.

(** ** Translating a sequence of operators *)
Section Run.
Context `{TC : TrapCodes}.
Context (dbg : bool) (env : TranslationEnvironment) (validator : FuncValidator) (locals results : list ir.Type_).
Context (EO : env_ok env) (locals_canonical : Forall (fun t => canon t = t) locals).
Abbreviation M := (SM (TState Rec) Error).
Abbreviation vstep := (vstep env validator locals).
Abbreviation vsteps := (vsteps env validator locals).
Abbreviation sim := (sim dbg env validator locals results).
Abbreviation instr_ok := (instr_ok env validator).
Fixpoint trs (ops : list Operator.WasmOperator) : M unit :=
  match ops with
  | [] => mret tt
  | op :: ops => _ ← translate_operator dbg env validator op; trs ops
  end.
Lemma lp_app ops1 ops2 t Q : lp (trs ops1) t (fun _ t1 => lp (trs ops2) t1 Q) -> lp (trs (ops1 ++ ops2)) t Q.
Proof.
  revert t. induction ops1 as [|op ops1 IH]; intros t H; cbn [trs app].
  - by apply (H tt t).
  - apply lp_bind. intros [] t1 H1. apply IH. intros [] t2 H2. apply (H tt t2). cbn [trs]. by rewrite (sm_step _ _ _ _ _ H1).
Qed.
Lemma trs_app ops1 ops2 t t' : trs (ops1 ++ ops2) t = (Ok tt, t') -> exists t1, trs ops1 t = (Ok tt, t1) /\ trs ops2 t1 = (Ok tt, t').
Proof. refine (lp_app ops1 ops2 t (fun _ t' => exists t1, trs ops1 t = (Ok tt, t1) /\ trs ops2 t1 = (Ok tt, t')) _ tt t'). intros [] t1 H1 [] t2 H2. by exists t1. Qed.
Lemma vsteps_app ops1 ops2 vs : vsteps (ops1 ++ ops2) vs = (vsteps ops1 vs ≫= vsteps ops2).
Proof. revert vs. induction ops1 as [|op ops1 IH]; intros vs; [done|]. cbn [FuncValid.vsteps app]. destruct (vstep op vs) as [vs1|]; [|done]. cbn [mbind option_bind]. apply IH. Qed.
Lemma vsteps_nil ops vs : vsteps ops [] = Some vs -> vs = [].
Proof. destruct ops; [by intros [= <-]|]. done. Qed.
Lemma sim_steps ops t vs vs' t' : sim t vs -> vsteps ops vs = Some vs' -> vs' <> [] -> trs ops t = (Ok tt, t') -> sim t' vs'.
Proof.
  revert t vs. induction ops as [|op ops IH]; intros t vs Hs Hv Hn H; cbn [trs FuncValid.vsteps] in *; [injection H as <-; injection Hv as <-; done|].
  apply bind_Some in Hv as (vs1 & Hv1 & Hv). apply sm_bind_ok in H as ([] & t1 & H1 & H2). destruct (operator_step dbg env validator locals results EO locals_canonical op t vs vs1 Hs Hv1) as ([] & t1' & H1' & Hp).
  rewrite H1' in H1. injection H1 as ->. destruct vs1 as [|v vs1]; [by apply vsteps_nil in Hv|]. by eapply IH.
Qed.

(** *** Whole instructions leave the frames *)
Lemma vstep_raw_of op vs vs' : vstep op vs = Some vs' -> vstep_raw env validator locals op vs = Some vs'.
Proof. intros (w & H & Hw)%bind_Some. by destruct (height w <? max_height); simplify_eq. Qed.
Definition balanced (ops : list Operator.WasmOperator) : Prop := forall v vs vs', vsteps ops (v :: vs) = Some vs' -> exists v', vs' = v' :: vs /\ same_frame v v'.
Lemma balanced_op op : structural op = false -> balanced [op].
Proof. intros Hs v vs vs' (w & H%vstep_raw_of & [= <-])%bind_Some. by eapply vstep_same. Qed.
Lemma end_balanced ops k ps rs v vs vs' : balanced ops -> vsteps (ops ++ [Operator.End]) (enter k ps rs :: v :: vs) = Some vs' -> exists v', vs' = v' :: vs /\ same_frame v v'.
Proof.
  intros Hb. rewrite vsteps_app. intros (vs1 & H1 & H2)%bind_Some. destruct (Hb _ _ _ H1) as (v1 & -> & _). cbn [FuncValid.vsteps] in H2. apply bind_Some in H2 as (w & [-> _]%vstep_raw_of%vstep_end & [= <-]).
  by eexists.
Qed.
Lemma code_balanced code : forallb instr_ok code = true -> balanced (flatten code).
Proof.
  apply (code_ind (fun i => instr_ok i = true -> balanced (flatten1 i)) (fun code => forallb instr_ok code = true -> balanced (flatten code))); clear code.
  - intros _ v vs vs' [= <-]. by exists v.
  - intros i code Hi Hc Hok v vs vs'. cbn in Hok. apply andb_true_iff in Hok as [Oi Oc]. change (flatten (i :: code)) with (flatten1 i ++ flatten code). rewrite vsteps_app. intros (vs1 & H1 & H2)%bind_Some.
    destruct (Hi Oi _ _ _ H1) as (v1 & -> & S1). destruct (Hc Oc _ _ _ H2) as (v2 & -> & S2). exists v2. split; [done|by eapply same_trans].
  - intros op H. by apply balanced_op, meaning_cases.
  - intros bt body Hb [_ Ho]%andb_true_iff v vs vs'. cbn [flatten1 FuncValid.vsteps]. intros (w & Hw%vstep_raw_of & H)%bind_Some. lazy [vstep_raw] in Hw. inv_some.
    destruct (end_balanced _ _ _ _ _ _ _ (Hb Ho) H) as (v' & -> & S'). exists v'. split; [done|]. eapply same_trans; [|exact S']. frames_same.
  - intros bt body Hb [_ Ho]%andb_true_iff v vs vs'. cbn [flatten1 FuncValid.vsteps]. intros (w & Hw%vstep_raw_of & H)%bind_Some. lazy [vstep_raw] in Hw. inv_some.
    destruct (end_balanced _ _ _ _ _ _ _ (Hb Ho) H) as (v' & -> & S'). exists v'. split; [done|]. eapply same_trans; [|exact S']. frames_same.
  - intros bt thn els Ht He [[_ O1]%andb_true_iff O2]%andb_true_iff v vs vs'. cbn [flatten1 FuncValid.vsteps]. intros (w & Hw%vstep_raw_of & H)%bind_Some. lazy [vstep_raw] in Hw. inv_some.
    assert (forall u, same_frame x0 u -> same_frame v u) as Hs by (intros u Hu; eapply same_trans; [|exact Hu]; frames_same). destruct els as [els|].
    + rewrite vsteps_app in H. apply bind_Some in H as (vs1 & H1 & H). destruct (Ht O1 _ _ _ H1) as (v1 & -> & _). cbn [app FuncValid.vsteps] in H.
      apply bind_Some in H as (vs2 & H2%vstep_raw_of & H). lazy [vstep_raw] in H2. destruct (v_kind v1); inv_some.
      destruct (end_balanced _ _ _ _ _ _ _ (He els eq_refl O2) H) as (v' & -> & S'). exists v'. auto.
    + cbn [app] in H. destruct (end_balanced _ _ _ _ _ _ _ (Ht O1) H) as (v' & -> & S'). exists v'. auto.
  - intros l _. by apply balanced_op.
  - intros l _. by apply balanced_op.
  - intros _. by apply balanced_op.
  - intros _. by apply balanced_op.
Qed.

Lemma flatten_ok code : forallb instr_ok code = true -> Forall (fun op => op_ok env validator op = true) (flatten code).
Proof.
  apply (code_ind (fun i => instr_ok i = true -> Forall (fun op => op_ok env validator op = true) (flatten1 i)) (fun code => forallb instr_ok code = true -> Forall (fun op => op_ok env validator op = true) (flatten code))); clear code.
  - constructor.
  - intros i code Hi Hc [Oi Oc]%andb_true_iff. apply Forall_app. auto.
  - intros op H. constructor; [|constructor]. destruct (meaning_cases op H) as [Hs _]. destruct op; try discriminate Hs; done.
  - intros bt body Hb [Ob Ho]%andb_true_iff. constructor; [done|]. apply Forall_app. split; [by apply Hb|by repeat constructor].
  - intros bt body Hb [Ob Ho]%andb_true_iff. constructor; [done|]. apply Forall_app. split; [by apply Hb|by repeat constructor].
  - intros bt thn els Ht He [[Ob O1]%andb_true_iff O2]%andb_true_iff. constructor; [done|]. apply Forall_app. split; [by apply Ht|]. apply Forall_app. split; [|by repeat constructor].
    destruct els as [els|]; [|constructor]. constructor; [done|]. by apply (He els).
  - by repeat constructor.
  - by repeat constructor.
  - by repeat constructor.
  - by repeat constructor.
Qed.
Lemma vsteps_scalar ops vs vs' : Forall scalar locals -> Forall (fun op => op_ok env validator op = true) ops -> Forall scalar_frame vs -> vsteps ops vs = Some vs' -> Forall scalar_frame vs'.
Proof.
  intros Hl Ho. revert vs. induction Ho as [|op ops Ho _ IH]; intros vs Hv H; cbn [FuncValid.vsteps] in H; [injection H as <-; done|].
  apply bind_Some in H as (vs1 & H1 & H). eapply IH; [|exact H]. by eapply vstep_scalar.
Qed.

(** *** Code that is not reached *)
Lemma lp_dead op t Q : reachable (st t) = false -> lp (translate_unreachable_operator dbg env validator op) t Q -> lp (translate_operator dbg env validator op) t Q.
Proof. intros Hr H. apply lp_bind, lp_wp, wp_get. by rewrite Hr. Qed.
Lemma lp_dead_plain op t (Q : unit -> TState Rec -> Prop) : structural op = false -> reachable (st t) = false -> Q tt t -> lp (trs [op]) t Q.
Proof. intros Hs Hr HQ. apply lp_bind, lp_dead; [done|]. by apply lp_wp, wp_unreachable, lp_wp, wp_ret. Qed.
Lemma lp_dead_block op t k (Q : unit -> TState Rec -> Prop) : reachable (st t) = false -> pm_len (stack (st t)) < max_height ->
  translate_unreachable_operator dbg env validator op = (r ← get_st reachable; _ ← sm_lift (debug_assert dbg (negb r)); mod_st (push_block dbg k 0 0)) ->
  Q tt (mkT (bld t) (set_control_stack (control_stack (st t) ++ [Block_ k 0 0 (pm_len (stack (st t))) false]) (st t))) -> lp (translate_operator dbg env validator op) t Q.
Proof.
  intros Hr Hl E HQ. apply lp_dead; [done|]. rewrite E. apply lp_bind, lp_wp, wp_get. rewrite Hr. apply lp_bind, lp_wp, wp_debug_assert; [done|].
  eapply lp_wp, wp_mod; [|exact HQ]. pose proof (pm_len_nonneg (stack (st t))). unfold push_block. rewrite (proj2 (Z.leb_le _ _)), debug_assert_true by lia. cbn [mbind outcome_bind]. by rewrite wrap_len.
Qed.
(** The end of a placeholder leads back to the state before it. *)
Lemma lp_dead_end t f (Q : unit -> TState Rec -> Prop) : reachable (st t) = false -> pm_len (stack (st t)) < max_height ->
  match f with Block_ _ 0 0 n false => n = pm_len (stack (st t)) | If_ _ _ 0 0 n false _ false _ => n = pm_len (stack (st t)) | _ => False end ->
  Q tt t -> lp (trs [Operator.End]) (mkT (bld t) (set_control_stack (control_stack (st t) ++ [f]) (st t))) Q.
Proof.
  intros Hr Hl Hf HQ. apply lp_bind, lp_dead; [done|]. apply lp_bind, lp_wp, wp_get. cbn [st reachable set_control_stack]. rewrite Hr. apply lp_bind, lp_wp, wp_debug_assert; [done|].
  apply lp_bind. eapply lp_wp, (wp_pop_frame _ f (frames t)); [unfold frames; cbn; by rewrite rev_unit|]. apply lp_bind.
  eapply lp_wp, (wp_mod _ (set_stack (stack (st t)) _)).
  { cbn [st stack set_control_stack bld]. rewrite <- (app_nil_r (stack (st t))) at 1. rewrite truncate_under; [done|..];
      destruct f as [? ? [] [] ? [] ? [] ?|? [] [] ? []|]; try done; unfold under_size; cbn in *; lia. }
  assert (mkT (bld t) (set_stack (stack (st t)) (set_control_stack (rev (frames t)) (set_control_stack (control_stack (st t) ++ [f]) (st t)))) = t) as E.
  { unfold frames. rewrite rev_involutive. by destruct t as [? []]. }
  cbn [bld st]. rewrite E. destruct f as [? ? [] [] ? [] ? [] []|? [] [] ? []|]; try done; by apply lp_bind, lp_wp, wp_ret, lp_wp, wp_ret, lp_wp, wp_ret.
Qed.
Lemma dead_code code : forallb instr_ok code = true -> forall t, reachable (st t) = false -> pm_len (stack (st t)) < max_height -> lp (trs (flatten code)) t (fun _ t' => t' = t).
Proof.
  apply (code_ind (fun i => instr_ok i = true -> forall t, reachable (st t) = false -> pm_len (stack (st t)) < max_height -> lp (trs (flatten1 i)) t (fun _ t' => t' = t))
                  (fun code => forallb instr_ok code = true -> forall t, reachable (st t) = false -> pm_len (stack (st t)) < max_height -> lp (trs (flatten code)) t (fun _ t' => t' = t))); clear code.
  - intros _ t _ _. by apply lp_wp, wp_ret.
  - intros i code Hi Hc [Oi Oc]%andb_true_iff t Hr Hl. apply lp_app. eapply lp_mono; [by apply Hi|]. intros [] t1 ->. by apply Hc.
  - intros op Ho t Hr Hl. by apply lp_dead_plain; [apply meaning_cases|..].
  - intros bt body Hb [_ Ho]%andb_true_iff t Hr Hl. cbn [flatten1 trs]. apply lp_bind. eapply lp_dead_block; [done|done|reflexivity|].
    apply lp_app. eapply lp_mono; [by apply Hb|]. intros [] t1 ->. by apply lp_dead_end.
  - intros bt body Hb [_ Ho]%andb_true_iff t Hr Hl. cbn [flatten1 trs]. apply lp_bind. eapply lp_dead_block; [done|done|reflexivity|].
    apply lp_app. eapply lp_mono; [by apply Hb|]. intros [] t1 ->. by apply lp_dead_end.
  - intros bt thn els Ht He [[_ O1]%andb_true_iff O2]%andb_true_iff t Hr Hl. cbn [flatten1 trs]. apply lp_bind, lp_dead; [done|]. apply lp_bind, lp_wp, wp_get. rewrite Hr.
    apply lp_bind, lp_wp, wp_debug_assert; [done|]. pose proof (pm_len_nonneg (stack (st t))).
    set (f c := If_ reserved_block (NoElse reserved_value reserved_block) 0 0 (pm_len (stack (st t))) false bt false c).
    eapply lp_wp, (wp_mod _ (set_control_stack (control_stack (st t) ++ [f None]) (st t))).
    { unfold push_if. rewrite (proj2 (Z.leb_le _ _)), debug_assert_true by lia. cbn [mbind outcome_bind]. rewrite !(wrap_len (stack (st t))) by done. rewrite Z.ltb_irrefl.
      cbv zeta iota. rewrite app_nil_r, (wrap_len (stack (st t))), Hr by done. by destruct (st t). }
    apply lp_app. eapply lp_mono; [by apply Ht|]. intros [] t1 ->. destruct els as [els|]; cbn [app]; [|by apply (lp_dead_end t (f None))].
    cbn [trs]. apply lp_bind, lp_dead; [done|]. apply lp_bind, lp_wp, wp_get. cbn [st reachable set_control_stack]. rewrite Hr. apply lp_bind, lp_wp, wp_debug_assert; [done|].
    apply lp_bind. apply lp_bind, lp_wp, wp_get, lp_lift. cbn [st control_stack set_control_stack]. intros i Hi. apply unwrap_ok, try_from_Some in Hi as [-> _].
    assert (pm_len (control_stack (st t) ++ [f None]) - 1 = pm_len (control_stack (st t))) as -> by (rewrite pm_len_snoc; lia).
    apply lp_bind. eapply lp_wp, (wp_peek _ (f None)); [cbn [st control_stack set_control_stack]; by rewrite (pm_get_push_new (control_stack (st t)) (f None) : pm_get (_ ++ _) _ = _)|].
    cbn [f]. apply lp_bind, lp_wp, wp_debug_assert; [done|]. apply lp_bind, lp_wp, wp_get. cbn [st reachable set_control_stack]. rewrite Hr. apply lp_bind, lp_wp, wp_upd. apply lp_wp, wp_ret.
    match goal with |- lp _ ?u _ => assert (u = mkT (bld t) (set_control_stack (control_stack (st t) ++ [f (Some false)]) (st t))) as -> end.
    { cbn [bld st set_consequent]. f_equal. unfold set_frame, pm_set, pm_len. cbn. rewrite Nat2Z.id. unfold set_control_stack. cbn. f_equal. by rewrite insert_app_r_alt, Nat.sub_diag by lia. }
    apply lp_app. eapply lp_mono; [by apply (He els)|]. intros [] t1 ->. by apply lp_dead_end.
  - intros l _ t Hr Hl. by apply lp_dead_plain.
  - intros l _ t Hr Hl. by apply lp_dead_plain.
  - intros _ t Hr Hl. by apply lp_dead_plain.
  - intros _ t Hr Hl. by apply lp_dead_plain.
Qed.
End Run.
