(* ===== verification/SemCode.v ===== *)
(** * Structured code

    The translation of a sequence of instructions, by induction on the code: what
    it leaves behind whether or not the code is run, and what running it does. *)
From stdpp Require Import base list gmap option numbers.
From S2P Require Import Prelude Types Trap Module ModuleTypes VMOffsets HeapAccess Clif ClifLaws FuncState WasmOp FuncEnv CodeTranslator CodeTranslatorCtl CodeTranslatorOps WasmTyping WasmSem FuncValid CtlEnv OpTyping CtlInv CtlSim CtlSteps CtlDead CtlLive CtlBranch CtlBlocks CtlEnds CtlStep RecBuilder RecBuilderLaws ClifMachine SemOps SemBuild SemEffects SemSim.
Local Open Scope Z_scope.

(** ** Frames that differ in being branched to *)
Definition marks (f f' : ControlStackFrame) : Prop := f' = f \/ f' = set_branched_to_exit f.
Lemma marks_trans f g h : marks f g -> marks g h -> marks f h.
Proof. unfold marks. intros [->| ->] [->| ->]; try tauto. right. by destruct f. Qed.
Lemma marks_same f f' : marks f f' -> br_destination f' = br_destination f /\ following_code f' = following_code f /\ is_loop f' = is_loop f /\
  num_return_values f' = num_return_values f /\ num_param_values f' = num_param_values f /\ original_stack_size f' = original_stack_size f /\ is_if f' = is_if f /\ branch_arity f' = branch_arity f.
Proof. intros [->| ->]; [by split_and!|]. by destruct f. Qed.
Lemma marks_exit f f' : marks f f' -> exit_is_branched_to f = true -> exit_is_branched_to f' = true.
Proof. intros [->| ->]; [done|]. by destruct f. Qed.
Abbreviation marked := (Forall2 marks).
Lemma marked_refl fs : marked fs fs.
Proof. induction fs; constructor; [by left|done]. Qed.
Lemma marked_trans fs gs hs : marked fs gs -> marked gs hs -> marked fs hs.
Proof.
  intros H. revert hs. induction H as [|f g fs gs H _ IH]; intros hs Hh; [by apply Forall2_nil_inv_l in Hh as ->|].
  apply Forall2_cons_inv_l in Hh as (h & hs' & H1 & H2 & ->). constructor; [by eapply marks_trans|auto].
Qed.
Lemma marked_insert fs d g : fs !! d = Some g -> marked fs (<[d := set_branched_to_exit g]> fs).
Proof.
  revert d. induction fs as [|f fs IH]; intros [|d] H; cbn in *; simplify_eq; constructor; [by right|apply marked_refl|by left|auto].
Qed.
(** The height of the stack below the frame's operands. *)
Definition base_size (f : ControlStackFrame) : Z :=
  match f with If_ _ _ n _ orig _ _ _ (Some _) => orig - n | f => original_stack_size f end.
Lemma marks_base f f' : marks f f' -> base_size f' = base_size f.
Proof. intros [->| ->]; [done|]. by destruct f as [? ? ? ? ? ? ? ? []| |]. Qed.
Lemma app_same_length {A} (a b c d : list A) : a ++ b = c ++ d -> pm_len a = pm_len c -> a = c /\ b = d.
Proof. intros H Hl. apply app_inj_1 in H; [done|]. unfold pm_len in Hl. lia. Qed.
Lemma top_n_app (l xs : list Z) : top_n (length xs) (l ++ xs) = Some (l, xs).
Proof.
  unfold top_n. rewrite length_app. rewrite (proj2 (Nat.leb_le _ _)) by lia. rewrite Nat.add_sub. by rewrite take_app_length, drop_app_length.
Qed.

Section Code.
Context `{TC : TrapCodes} `{AR : ClifArith} `{LW : !ClifArithLaws}.
Context (dbg : bool) (env : TranslationEnvironment) (validator : FuncValidator) (locals results : list ir.Type_).
Context (EO : env_ok env) (locals_canonical : Forall (fun t => canon t = t) locals) (scalar_locals : Forall scalar locals) (scalar_results : Forall scalar results).
Abbreviation vstep := (vstep env validator locals).
Abbreviation vsteps := (vsteps env validator locals).
Abbreviation sim := (sim dbg env validator locals results).
Abbreviation here := (here dbg env validator locals results).
Abbreviation instr_ok := (instr_ok env validator).
Abbreviation trs := (trs dbg env validator).
Abbreviation exec := (exec (arity_of env validator)).

(** ** What translation leaves behind *)
Record static (t t' : TState Rec) : Prop := {
  s_grows : grows (bld t) (bld t');
  s_insts : r_insts (bld t) `prefix_of` r_insts (bld t');
  s_frames : marked (frames t) (frames t') }.
Lemma static_refl t : static t t.
Proof. split; [apply growth_refl|done|apply marked_refl]. Qed.
Lemma static_trans t1 t2 t3 : static t1 t2 -> static t2 t3 -> static t1 t3.
Proof. intros [G1 I1 F1] [G2 I2 F2]. split; [by eapply growth_trans|by etrans|by eapply marked_trans]. Qed.
Lemma grows_values b b' : grows b b' -> pm_len (r_values b) <= pm_len (r_values b').
Proof. intros [K _]. apply prefix_pm_len, K. Qed.

(** ** What running it does

    [c] is where the machine starts, [regs] its registers there. *)
Definition result_ok (F : Rec) (t t' : TState Rec) (vs : list vframe) (base : list Value) (regs : registers) (c : conf) (r : res) : Prop :=
  let low := below (pm_len (r_values (bld t))) regs in
  match r with
  | RNormal ws ls => reachable (st t') = true /\ exists seg regs' vars', stack (st t') = base ++ seg /\ steps F c (point F (bld t') regs' vars') /\
      Forall2 (holds (bld t') regs') seg ws /\ locals_hold (bld t') vars' ls /\ low regs'
  | RBranch l ws ls => exists w g junk xs regs' vars', vs !! l = Some w /\ frames t' !! l = Some g /\ (is_loop g = true \/ exit_is_branched_to g = true) /\
      ws = junk ++ xs /\ Forall2 in_range (label_types w) xs /\ steps F c (Goto (br_destination g) xs regs' vars') /\ locals_hold (bld t') vars' ls /\ low regs'
  | RReturn ws => exists junk xs, ws = junk ++ xs /\ Forall2 in_range results xs /\ steps F c (Returned xs)
  | RTrap tr => steps F c (Trapped (code_of_trap tr))
  | RFuel => True
  | RStuck => False
  end.
Definition is_normal (r : res) : bool := match r with RNormal _ _ => true | _ => false end.
Lemma result_later F t t1 t2 vs base regs c r : static t1 t2 -> is_normal r = false -> result_ok F t t1 vs base regs c r -> result_ok F t t2 vs base regs c r.
Proof.
  intros [G I Fr] Hn. destruct r as [|l ws ls| | | |]; cbn; try done. intros (w & g & junk & xs & regs' & vars' & Hw & Hg & He & Hws & Hx & Hs & Hl & Hb).
  destruct (Forall2_lookup_l _ _ _ _ _ Fr Hg) as (g' & Hg' & Hm). destruct (marks_same _ _ Hm) as (E1 & _ & E3 & _).
  exists w, g', junk, xs, regs', vars'. split_and!; try done; [|by rewrite E1|by eapply locals_kept; [apply G|]]. rewrite E3. destruct He as [?|He]; [by left|right; by eapply marks_exit].
Qed.
Lemma result_from F t t0 t' vs base regs regs0 c c0 r : steps F c c0 -> below (pm_len (r_values (bld t))) regs regs0 -> pm_len (r_values (bld t)) <= pm_len (r_values (bld t0)) ->
  result_ok F t0 t' vs base regs0 c0 r -> result_ok F t t' vs base regs c r.
Proof.
  intros Hs Hb Hle. destruct r as [ws ls|l ws ls|ws|tr| |]; cbn; try done.
  - intros (Hr & seg & regs' & vars' & H1 & H2 & H3 & H4 & H5). split; [done|]. exists seg, regs', vars'. split_and!; try done; [by eapply steps_trans|by eapply low_trans].
  - intros (w & g & junk & xs & regs' & vars' & Hw & Hg & He & Hws & Hx & H2 & Hl & Hb'). exists w, g, junk, xs, regs', vars'. split_and!; try done; [by eapply steps_trans|by eapply low_trans].
  - intros (junk & xs & H1 & H2 & H3). exists junk, xs. split_and!; try done. by eapply steps_trans.
  - intros H. by eapply steps_trans.
Qed.
Lemma same_label v v' : same_frame v v' -> label_types v' = label_types v.
Proof. intros (Ek & Es & Ee). unfold label_types. by rewrite Ek, Es, Ee. Qed.
Lemma result_frame F t t' v v' vs base regs c r : same_frame v v' -> result_ok F t t' (v' :: vs) base regs c r -> result_ok F t t' (v :: vs) base regs c r.
Proof.
  intros Hv. destruct r as [|[|l] ws ls| | | |]; cbn; try done. intros (w & g & junk & xs & regs' & vars' & [= <-] & H). rewrite (same_label _ _ Hv) in H. by exists v, g, junk, xs, regs', vars'.
Qed.

(** ** The operands at hand *)
Lemma alive_scalar v tys : alive v tys -> scalar_frame v -> Forall scalar tys.
Proof.
  intros [_ Ho] (Hs & _ & _). rewrite Ho in Hs. apply Forall_rev in Hs. rewrite rev_involutive in Hs. apply Forall_fmap in Hs. eapply list.Forall_impl; [exact Hs|]. intros t Ht. by apply Ht.
Qed.
Lemma repr_typed b vs ts : Forall2 (repr b) vs ts -> Forall scalar ts -> Forall2 (typed b) vs ts.
Proof.
  induction 1 as [|v t vs ts Hv _ IH]; intros Hs; [constructor|]. apply Forall_cons_iff in Hs as [Ht Hs]. constructor; [exact (repr_scalar b v t Ht Hv)|auto].
Qed.
Lemma typed_scalar b vs ts : Forall2 (typed b) vs ts -> Forall scalar ts -> Forall (scalar_value b) vs.
Proof. induction 1 as [|v t vs ts Hv _ IH]; intros Hs; [constructor|]. apply Forall_cons_iff in Hs as [Ht Hs]. constructor; [by exists t|auto]. Qed.
Lemma base_ok_size (b : Rec) f v under base : base_ok b f v under base -> pm_len base = base_size f.
Proof.
  destruct f as [? ? ? ? ? ? ? ? []| |]; cbn.
  - intros [-> ->]. lia.
  - intros (saved & -> & _ & ->). done.
  - by intros [-> ->].
  - by intros [-> ->].
Qed.
(** After whole instructions the stack below is the same. *)
Lemma sim_here t v vs f fs base junk : sim t (v :: vs) -> reachable (st t) = true -> frames t = f :: fs -> stack (st t) = base ++ junk -> pm_len base = base_size f ->
  exists under tys, here t f fs v vs under base junk tys.
Proof.
  intros [_ _ _ [Hl|Hd]] Hr Hf Hst Hb; [|by destruct Hd as (?&?&?&?&?&?&?&?&?&?&_); congruence].
  destruct (live_here _ _ _ _ _ _ _ _ Hl) as (f' & fs' & under & base' & seg & tys & H). pose proof H as [_ Hf' _ _ Hba _ _ Hst' _ _].
  rewrite Hf in Hf'. injection Hf' as <- <-. rewrite Hst in Hst'. destruct (app_same_length _ _ _ _ Hst') as [-> ->]; [rewrite Hb; symmetry; by eapply base_ok_size|]. by exists under, tys.
Qed.
Lemma here_typed t f fs v vs under base seg rest ts : here t f fs v vs under base seg (rest ++ ts) -> scalar_frame v ->
  exists sr args, seg = sr ++ args /\ Forall2 (typed (bld t)) args ts /\ stack (st t) = (base ++ sr) ++ args /\ pm_len args = pm_len ts /\ Forall (scalar_value (bld t)) args /\ Forall2 (typed (bld t)) sr rest.
Proof.
  intros H Hv. pose proof (alive_scalar _ _ (h_alive _ _ _ _ _ _ _ _ _ _ _ _ _ _ H) Hv) as Hs. apply Forall_app in Hs as [Hsr Hs].
  destruct (here_split _ _ _ _ _ _ _ _ _ _ _ _ _ _ _ H) as (sr & args & -> & Hr1 & Ha & Hst & Hl). exists sr, args. split_and!; try done; [by apply repr_typed|by eapply typed_scalar; [apply repr_typed|]|by apply repr_typed].
Qed.
Lemma lp_live op t Q : reachable (st t) = true -> lp (translate_reachable_operator dbg env validator op) t Q -> lp (translate_operator dbg env validator op) t Q.
Proof. intros Hr H. apply lp_bind, lp_wp, wp_get. rewrite Hr. cbn [negb]. apply lp_bind, lp_wp, wp_query. apply lp_bind, lp_lift. intros [] _. exact H. Qed.

(** ** Correct code *)
Definition code_ok (ops : list Operator.WasmOperator) (meaning : nat -> list Z -> list Z -> res) : Prop :=
  forall t v vs vs' t' f fs under base seg tys, sim t (v :: vs) -> here t f fs v vs under base seg tys -> Forall scalar_frame (v :: vs) -> tidy (bld t) ->
    vsteps ops (v :: vs) = Some vs' -> trs ops t = (Ok tt, t') ->
    static t t' /\ (exists junk, stack (st t') = base ++ junk) /\
    forall F fuel ws ls regs vars, agrees (bld t) (bld t') F -> kept (bld t') F -> Forall2 (holds (bld t) regs) seg ws -> locals_hold (bld t) vars ls ->
      result_ok F t t' (v :: vs) base regs (point F (bld t) regs vars) (meaning fuel ws ls).

Lemma nil_ok : code_ok [] (fun fuel => exec fuel []).
Proof.
  intros t v vs vs' t' f fs under base seg tys Hsim H Hsc Ht [= <-] [= <-]. split; [apply static_refl|]. split; [exists seg; apply H|].
  intros F [|fuel] ws ls regs vars _ _ Hws Hls; cbn; [done|]. split; [apply H|]. exists seg, regs, vars. split_and!; try done; apply H.
Qed.
Lemma cons_ok i code : instr_ok i = true -> forallb instr_ok code = true -> code_ok (flatten1 i) (fun fuel => exec_instr (arity_of env validator) (exec fuel) i) ->
  code_ok (flatten code) (fun fuel => exec fuel code) -> code_ok (flatten (i :: code)) (fun fuel => exec fuel (i :: code)).
Proof.
  intros Oi Oc Hi Hc t v vs vs' t' f fs under base seg tys Hsim H Hsc Ht Hv Htr. change (flatten (i :: code)) with (flatten1 i ++ flatten code) in *.
  rewrite vsteps_app in Hv. apply bind_Some in Hv as (vs1 & Hv1 & Hv). rename t' into t2. apply trs_app in Htr as (t1 & Htr1 & Htr).
  assert (forallb instr_ok [i] = true) as Oi' by (cbn; by rewrite Oi). pose proof (code_balanced _ _ locals _ Oi') as Hba. cbn [flatten flat_map] in Hba. rewrite app_nil_r in Hba.
  destruct (Hba _ _ _ Hv1) as (v1 & -> & Hsame). pose proof (sim_steps _ _ _ _ _ EO locals_canonical _ _ _ _ _ Hsim Hv1 ltac:(done) Htr1) as Hsim1.
  destruct (Hi _ _ _ _ _ _ _ _ _ _ _ Hsim H Hsc Ht Hv1 Htr1) as (S1 & [junk Hst1] & R1). pose proof (proj2 (s_grows _ _ S1) Ht) as Ht1.
  destruct (reachable (st t1)) eqn:Hr1.
  - pose proof (s_frames _ _ S1) as Hf1. rewrite (h_frames _ _ _ _ _ _ _ _ _ _ _ _ _ _ H) in Hf1. apply Forall2_cons_inv_l in Hf1 as (f1 & fs1 & M1 & _ & Hf1).
    destruct (sim_here t1 v1 vs f1 fs1 base junk Hsim1 Hr1 Hf1 Hst1) as (under1 & tys1 & H1).
    { rewrite (marks_base _ _ M1). eapply base_ok_size, H. }
    assert (Forall scalar_frame (v1 :: vs)) as Hsc1.
    { eapply vsteps_scalar; [exact scalar_locals| |exact Hsc|exact Hv1]. pose proof (flatten_ok _ _ _ Oi') as Hfo. cbn [flatten flat_map] in Hfo. by rewrite app_nil_r in Hfo. }
    destruct (Hc _ _ _ _ _ _ _ _ _ _ _ Hsim1 H1 Hsc1 Ht1 Hv Htr) as (S2 & Hst2 & R2). split; [by eapply static_trans|]. split; [done|].
    intros F [|fuel] ws ls regs vars Ha Hk Hws Hls; cbn [WasmSem.exec]; [done|].
    destruct (agrees_split (bld t) (bld t1) (bld t2) F) as [A1 A2]; [apply S1|apply S2|apply S2|done|].
    assert (kept (bld t1) F) as K1 by (eapply kept_trans; [apply S2|done]). specialize (R1 F fuel ws ls regs vars A1 K1 Hws Hls).
    destruct (exec_instr _ _ i ws ls) as [ws1 ls1|l1 ws1 ls1|ws1|tr| |] eqn:E; try (eapply result_later; [exact S2|done|exact R1]).
    destruct R1 as (_ & seg1 & regs1 & vars1 & E1 & St & Hh & Hl & Hb). rewrite Hst1 in E1. apply app_inv_head in E1 as <-.
    apply (result_frame _ _ _ _ _ _ _ _ _ _ Hsame). eapply result_from; [exact St|exact Hb|apply grows_values, S1|]. by apply R2.
  - assert (t2 = t1) as ->. { eapply (dead_code dbg env validator code Oc t1 Hr1); [|exact Htr]. apply Hsim1. }
    split; [done|]. split; [by exists junk|]. intros F [|fuel] ws ls regs vars Ha Hk Hws Hls; cbn [WasmSem.exec]; [done|]. specialize (R1 F fuel ws ls regs vars Ha Hk Hws Hls).
    destruct (exec_instr _ _ i ws ls) as [ws1 ls1|l1 ws1 ls1|ws1|tr| |]; try exact R1. destruct R1 as [? _]. congruence.
Qed.

(** ** Operators that do not branch *)
Lemma open_is_open (b : Rec) : open b -> is_open b = true.
Proof. intros (k & Hk & _ & Hf). unfold is_open. cbn in Hk, Hf. rewrite Hk. by destruct (blk_filled b k). Qed.
Lemma here_open t f fs v vs under base seg tys : here t f fs v vs under base seg tys -> is_open (bld t) = true.
Proof. intros H. apply open_is_open, live_open, H. Qed.
Lemma here_local t f fs v vs under base seg tys x ty : here t f fs v vs under base seg tys -> pm_get locals x = Some ty -> r_vars (bld t) !! x = Some ty.
Proof. intros H. apply (w_locals _ _ _ _ _ (sh_world _ _ _ _ _ _ (h_shared _ _ _ _ _ _ _ _ _ _ _ _ _ _ H))). Qed.
Lemma plain_wp op t v vs vs' f fs under base seg tys : has_meaning op = true -> here t f fs v vs under base seg tys -> scalar_frame v -> vstep op (v :: vs) = Some vs' ->
  wp (translate_reachable_operator dbg env validator op) t (fun _ t' => exists sr args outs, seg = sr ++ args /\ num_operands op = Some (length args) /\ translated t (base ++ sr) args outs (eval_plain op) t').
Proof.
  intros Hm H Hv Hs%vstep_raw_of. pose proof (here_open _ _ _ _ _ _ _ _ _ H) as Ho. pose proof (h_alive _ _ _ _ _ _ _ _ _ _ _ _ _ _ H) as Ha.
  assert (forall rest ins outs, tys = rest ++ ins -> num_operands op = Some (length ins) ->
    (forall sr args, seg = sr ++ args -> stack (st t) = (base ++ sr) ++ args -> Forall2 (typed (bld t)) args ins ->
       wp (translate_reachable_operator dbg env validator op) t (fun _ => translated t (base ++ sr) args outs (eval_plain op))) ->
    wp (translate_reachable_operator dbg env validator op) t (fun _ t' => exists sr args outs, seg = sr ++ args /\ num_operands op = Some (length args) /\ translated t (base ++ sr) args outs (eval_plain op) t')) as Hsplit.
  { intros rest ins outs -> Hn Hw. destruct (here_typed _ _ _ _ _ _ _ _ _ _ H Hv) as (sr & args & -> & Hty & Hst & _). eapply wp_mono; [by eapply Hw|].
    intros [] t' Htr. exists sr, args, outs. split_and!; try done. by rewrite (Forall2_length Hty). }
  destruct (meaning_cases op Hm) as (_ & [->|[->|[(x & Hx)|[[ins outs] Hn]]]]).
  - lazy [vstep_raw] in Hs. inv_some. destruct (vpop_any_alive _ _ _ _ Ha Hx) as (rest & ty & -> & -> & _).
    eapply (Hsplit rest [ty] []); [done|done|]. intros sr args _ Hst Hty. eapply wp_mono; [by apply (drop_correct ty)|]. intros [] t' Htr. eapply translated_mono; [exact Htr|].
    rewrite (Forall2_length Hty). intros [|z [|? ?]] ls Hl; try discriminate Hl; reflexivity.
  - destruct (select_any _ _ _ _ _ _ _ Ha Hs) as (ty & v' & Hap & ->). destruct (vapply_alive _ _ _ _ Ha Hap) as (rest & E & _). cbn [fst] in E.
    pose proof (alive_scalar _ _ Ha Hv) as Hts. rewrite E in Hts. apply Forall_app in Hts as [_ [Hty _]%Forall_cons_iff].
    eapply (Hsplit rest _ [ty]); [exact E|done|]. intros sr args _ Hst Hargs. eapply wp_mono; [by apply (select_correct ty)|]. intros [] t' Htr. eapply translated_mono; [exact Htr|].
    rewrite (Forall2_length Hargs). intros [|i [|j [|c [|? ?]]]] ls Hl; try discriminate Hl; reflexivity.
  - assert (special op = false) as Hsp by (by destruct Hx as [->|[->| ->]]). destruct (vstep_plain _ _ _ _ _ _ _ Hsp Hs) as (s & v' & Hop & Hap & ->). destruct (vapply_alive _ _ _ _ Ha Hap) as (rest & E & _).
    destruct Hx as [->|[->| ->]]; cbn in Hop; destruct (pm_get locals x) as [ty|] eqn:Hty; try discriminate Hop; injection Hop as <-; pose proof (here_local _ _ _ _ _ _ _ _ _ _ _ H Hty) as Hvar;
      assert (ir.is_vector ty = false) as Hnv by (by eapply (local_scalar locals)).
    + eapply (Hsplit rest [] [ty]); [exact E|done|]. intros sr args _ Hst ->%Forall2_nil_inv_r. rewrite app_nil_r in Hst.
      eapply wp_mono; [by apply (get_correct x ty t (base ++ sr))|]. intros [] t' Htr. eapply translated_mono; [exact Htr|]. intros [|? ?] ls Hl; try discriminate Hl; reflexivity.
    + eapply (Hsplit rest [ty] []); [exact E|done|]. intros sr args _ Hst Hargs. by apply (set_correct x ty).
    + eapply (Hsplit rest [ty] [ty]); [exact E|done|]. intros sr args _ Hst Hargs. by apply (tee_correct x ty).
  - destruct (numeric_outs _ _ _ Hn) as (_ & Hsp & Hno). destruct (vstep_plain _ _ _ _ _ _ _ Hsp Hs) as (s & v' & Hop & Hap & ->).
    assert (s = (ins, outs)) as -> by (unfold operator_sig, plain_sig in Hop; rewrite Hn in Hop; congruence). destruct (vapply_alive _ _ _ _ Ha Hap) as (rest & E & _).
    eapply (Hsplit rest ins outs); [exact E|done|]. intros sr args _ Hst Hargs. by apply (numeric_correct dbg env validator op ins outs Hn Hm).
Qed.

Lemma lp_one op t (P : TState Rec -> Prop) : lp (translate_operator dbg env validator op) t (fun _ => P) -> forall t', trs [op] t = (Ok tt, t') -> P t'.
Proof. intros H t' Ht. cbn [SemSim.trs] in Ht. apply sm_bind_ok in Ht as ([] & t1 & H1 & H2). injection H2 as <-. by eapply H. Qed.
Lemma step_one op vs vs' : vsteps [op] vs = Some vs' -> vstep op vs = Some vs'.
Proof. cbn [FuncValid.vsteps]. intros (w & H & [= <-])%bind_Some. done. Qed.
Lemma holds_app b regs sr args ws : Forall2 (holds b regs) (sr ++ args) ws -> exists wsr xs, ws = wsr ++ xs /\ Forall2 (holds b regs) sr wsr /\ Forall2 (holds b regs) args xs.
Proof. intros (wsr & xs & H1 & H2 & ->)%Forall2_app_inv_l. by exists wsr, xs. Qed.
Lemma holds_later b b' regs regs' vs xs : r_values b `prefix_of` r_values b' -> below (pm_len (r_values b)) regs regs' -> Forall2 (holds b regs) vs xs -> Forall2 (holds b' regs') vs xs.
Proof. intros P Hb H. eapply list.Forall2_impl; [exact H|]. intros v x. by apply holds_prefix. Qed.

Lemma plain_total op t v vs vs' f fs under base seg tys xs ls : has_meaning op = true -> here t f fs v vs under base seg tys -> vstep op (v :: vs) = Some vs' ->
  num_operands op = Some (length xs) -> (forall i ty, r_vars (bld t) !! i = Some ty -> is_Some (pm_get ls i)) -> is_Some (eval_plain op xs ls).
Proof.
  intros Hm H Hs%vstep_raw_of Hn Hl. destruct (meaning_cases op Hm) as (_ & [->|[->|[(x & Hx)|[[ins outs] Ho]]]]).
  - destruct xs as [|? [|? ?]]; try discriminate Hn. by eexists.
  - destruct xs as [|? [|? [|? [|? ?]]]]; try discriminate Hn. by eexists.
  - assert (special op = false) as Hsp by (by destruct Hx as [->|[->| ->]]). destruct (vstep_plain _ _ _ _ _ _ _ Hsp Hs) as (s & v' & Hop & _ & _).
    assert (is_Some (pm_get ls x)) as [z Hz].
    { destruct Hx as [->|[->| ->]]; cbn in Hop; destruct (pm_get locals x) as [ty|] eqn:Hty; try discriminate Hop; by eapply Hl, here_local. }
    destruct Hx as [->|[->| ->]]; destruct xs as [|y [|? ?]]; try discriminate Hn; cbn [eval_plain]; rewrite Hz; by eexists.
  - eapply eval_total; [done|done|]. destruct (numeric_outs _ _ _ Ho) as (_ & _ & E). congruence.
Qed.
Lemma plain_ok op : has_meaning op = true -> code_ok [op] (fun _ => exec_plain op).
Proof.
  intros Hm t v vs vs' t' f fs under base seg tys Hsim H Hsc Ht Hv%step_one Htr. apply Forall_cons_iff in Hsc as [Hsv Hsc].
  revert t' Htr. apply lp_one, lp_live; [apply H|]. eapply lp_mono; [by eapply lp_wp, plain_wp|]. intros [] t' (sr & args & outs & -> & Hn & evs & vals & G & Es & Hty & Hrun).
  split; [|split].
  - split; [by eapply grown_grows|apply G|]. unfold frames. rewrite Es. apply marked_refl.
  - exists (sr ++ vals). by rewrite Es, app_assoc.
  - intros F _ ws ls regs vars Ha Hk Hws Hls. destruct (holds_app _ _ _ _ _ Hws) as (wsr & xs & -> & Hsr & Hxs). specialize (Hrun regs vars xs ls Hxs Hls).
    unfold exec_plain. rewrite Hn. cbn [mbind option_bind]. rewrite (Forall2_length Hxs), top_n_app. cbn [mbind option_bind].
    destruct (point_grown F (bld t) (bld t') evs G) as (rest & P1 & P2); [by destruct (open_known _ (here_open _ _ _ _ _ _ _ _ _ H)) as (c & -> & _)|apply Hk|].
    rewrite (Forall2_length Hxs) in Hn. destruct (plain_total _ _ _ _ _ _ _ _ _ _ _ xs ls Hm H Hv Hn (proj2 Hls)) as [rv Erv].
    rewrite P1, Erv in *. destruct rv as [tr|[zs ls']]; cbn [mbind option_bind result_ok]; [by apply Hrun|].
    destruct Hrun as (regs' & vars' & D & B & Hz & Hl). split; [rewrite Es; apply H|]. exists (sr ++ vals), regs', vars'.
    split; [by rewrite Es, app_assoc|]. split; [rewrite P2; by apply D|]. split; [|done]. apply Forall2_app; [|done]. eapply holds_later; [apply G|exact B|exact Hsr].
Qed.

(** ** Branches *)
Lemma agree_inst b b' F k x : agrees b b' F -> pm_len (r_insts b) <= k -> pm_get (r_insts b') k = Some x -> pm_get (r_insts F) k = Some x.
Proof. intros [Hi _] Hk Hx. rewrite Hi; [done|]. pose proof (pm_get_range _ _ _ Hx). lia. Qed.
Lemma emit_get i ts b : pm_get (r_insts (emit i ts b)) (pm_len (r_insts b)) = Some (i, fresh_values b ts).
Proof. rewrite (proj1 (proj2 (emit_same i ts b))). apply (pm_get_push_new (r_insts b)). Qed.
Lemma emit_insts i ts b : r_insts b `prefix_of` r_insts (emit i ts b).
Proof. rewrite (proj1 (proj2 (emit_same i ts b))). by apply prefix_app_r. Qed.
(** The next step is the instruction that was added. *)
Lemma emit_step F i ts b b' regs vars : is_open b = true -> agrees b b' F -> kept b' F -> r_trace (emit i ts b) `prefix_of` r_trace b' -> r_insts (emit i ts b) `prefix_of` r_insts b' ->
  exists rest k, point F b regs vars = Running (EInst k :: rest) regs vars /\ pm_get (r_insts F) k = Some (i, fresh_values b ts).
Proof.
  intros Ho Ha Hk P I. destruct (emit_next F i ts b regs vars Ho) as [rest Hp]; [etrans; [exact P|apply Hk]|]. exists rest, (pm_len (r_insts b)). split; [done|].
  eapply agree_inst; [exact Ha|lia|]. eapply prefix_pm_get; [exact I|apply emit_get].
Qed.
Lemma emitted_static t t' i : is_open (bld t) = true -> bld t' = emit i [] (bld t) -> marked (frames t) (frames t') -> static t t'.
Proof. intros Ho E Hf. split; rewrite ?E; [by apply emit_grows|apply emit_insts|done]. Qed.

Lemma sim_frames t vs : sim t vs -> pm_len (frames t) < max_height.
Proof.
  intros [_ Hh _ [Hl|Hd]].
  - destruct Hl as (_ & Hl & _). apply layers_height in Hl. pose proof (pm_len_nonneg (stack (st t))). lia.
  - destruct (dead_frames_pos _ _ _ _ _ _ _ Hd) as [_ ->]. pose proof (height_length vs). lia.
Qed.
Lemma unreachable_ok : code_ok [Operator.Unreachable] (fun _ ws ls => RTrap UnreachableCodeReached).
Proof.
  intros t v vs vs' t' f fs under base seg tys Hsim H Hsc Ht _ Htr.
  revert t' Htr. apply lp_one, lp_live; [apply H|]. apply unreachable_effect. intros t' Ho E (Ef & Es & Er).
  split; [by eapply emitted_static; [..|rewrite Ef; apply marked_refl]|]. split; [exists seg; rewrite Es; apply H|].
  intros F _ ws ls regs vars Ha Hk _ _. destruct (emit_step F (TrapOp TRAP_UNREACHABLE) [] (bld t) (bld t') regs vars Ho Ha Hk) as (rest & k & -> & Hi); [by rewrite E..|].
  apply rtc_once. cbn. by rewrite Hi.
Qed.
Lemma return_ok : code_ok [Operator.Return] (fun _ ws ls => RReturn ws).
Proof.
  intros t v vs vs' t' f fs under base seg tys Hsim H Hsc Ht Hv%step_one%vstep_raw_of Htr. apply Forall_cons_iff in Hsc as [Hsv Hsc].
  lazy [vstep_raw] in Hv. apply bind_Some in Hv as (g & Hg & (w & Hw & _)%bind_Some). destruct (sim_bottom _ _ _ _ _ _ _ Hsim) as (g' & Hg' & He). assert (g' = g) as -> by congruence. rewrite He in Hw.
  destruct (vpops_alive _ _ _ _ (h_alive _ _ _ _ _ _ _ _ _ _ _ _ _ _ H) Hw) as (rest & -> & _). destruct (here_typed _ _ _ _ _ _ _ _ _ _ H Hsv) as (sr & args & -> & Hty & Hst & Hl & Hsa & _).
  assert (exists f0, list.last (frames t) = Some f0 /\ pm_len args = num_return_values f0) as (f0 & Hf0 & Hn).
  { rewrite last_lookup in Hg. destruct (here_lookup _ _ _ _ _ _ _ _ _ _ _ _ _ _ _ _ H Hg) as (f0 & Hf0 & Hfo). exists f0. rewrite (h_frames _ _ _ _ _ _ _ _ _ _ _ _ _ _ H).
    rewrite last_lookup. split; [|rewrite (fo_returns _ _ _ _ _ Hfo); congruence]. pose proof (layers_length _ _ _ _ _ _ (h_layers _ _ _ _ _ _ _ _ _ _ _ _ _ _ H)) as E. cbn [length] in *. by rewrite E. }
  revert t' Htr. apply lp_one, lp_live; [apply H|]. eapply (return_effect dbg t (base ++ sr) args); [apply Hsim|by eapply sim_frames|done|exact Hf0|done| |].
  { change (r_sig (bld t)) with (func_signature (bld t)). rewrite (w_returns _ _ _ _ _ (sh_world _ _ _ _ _ _ (h_shared _ _ _ _ _ _ _ _ _ _ _ _ _ _ H))), <- list_fmap_compose, list_fmap_id. exact scalar_results. }
  intros t' Ho E (Ef & Es & Er). split; [by eapply emitted_static; [..|rewrite Ef; apply marked_refl]|]. split; [by exists sr|].
  intros F _ ws ls regs vars Ha Hk Hws _. destruct (holds_app _ _ _ _ _ Hws) as (wsr & xs & -> & _ & Hxs).
  destruct (emit_step F (Return_ args) [] (bld t) (bld t') regs vars Ho Ha Hk) as (rst & k & -> & Hi); [by rewrite E..|].
  exists wsr, xs. split; [done|]. split; [by eapply holds_ranges|]. eapply rtc_once, step_return_; [exact Hi|exact Hxs].
Qed.

(** The targets of a branch. *)
Lemma branch_target t f fs v vs under base seg tys l ts : here t f fs v vs under base seg tys -> label (v :: vs) l = Some ts ->
  exists d w g, l = Z.of_nat d /\ (v :: vs) !! d = Some w /\ ts = label_types w /\ frames t !! d = Some g /\ branch_arity g = pm_len ts.
Proof.
  intros H (d & w & -> & Hw & ->)%label_inv. destruct (here_lookup _ _ _ _ _ _ _ _ _ _ _ _ _ _ _ _ H Hw) as (g & Hg & Hgo). destruct (frame_target _ _ _ _ _ Hgo) as [Ta _ _ _].
  exists d, w, g. rewrite (h_frames _ _ _ _ _ _ _ _ _ _ _ _ _ _ H). by split_and!.
Qed.
Lemma branch_nat d ws ls : branch (Z.of_nat d) ws ls = RBranch d ws ls.
Proof. unfold branch. rewrite (proj2 (Z.ltb_ge _ _)) by lia. by rewrite Nat2Z.id. Qed.
Lemma marked_branch F t t' vs base regs c d w g ws ls wsr xs regs' vars' : vs !! d = Some w -> frames t !! d = Some g -> frames t' = <[d := set_branched_to_exit g]> (frames t) ->
  ws = wsr ++ xs -> Forall2 in_range (label_types w) xs -> steps F c (Goto (br_destination g) xs regs' vars') -> locals_hold (bld t') vars' ls -> below (pm_len (r_values (bld t))) regs regs' ->
  result_ok F t t' vs base regs c (RBranch d ws ls).
Proof.
  intros Hw Hg Hf Hws Hx Hs Hl Hb. exists w, (set_branched_to_exit g), wsr, xs, regs', vars'. split_and!; try done.
  - rewrite Hf. apply list_lookup_insert_eq. by eapply lookup_lt_Some.
  - destruct g; cbn; tauto.
  - assert (br_destination (set_branched_to_exit g) = br_destination g) as -> by (by destruct g). done.
Qed.
Lemma br_ok l : code_ok [Operator.Br l] (fun _ => branch l).
Proof.
  intros t v vs vs' t' f fs under base seg tys Hsim H Hsc Ht Hv%step_one%vstep_raw_of Htr. apply Forall_cons_iff in Hsc as [Hsv Hsc].
  lazy [vstep_raw] in Hv. apply bind_Some in Hv as (ts & Hts & (w' & Hw' & _)%bind_Some). destruct (branch_target _ _ _ _ _ _ _ _ _ _ _ H Hts) as (d & w & g & -> & Hw & -> & Hg & Har).
  destruct (vpops_alive _ _ _ _ (h_alive _ _ _ _ _ _ _ _ _ _ _ _ _ _ H) Hw') as (rest & -> & _). destruct (here_typed _ _ _ _ _ _ _ _ _ _ H Hsv) as (sr & args & -> & Hty & Hst & Hl & Hsa & _).
  revert t' Htr. apply lp_one, lp_live; [apply H|]. eapply (br_effect dbg t (base ++ sr) args); [apply Hsim|by eapply sim_frames|done|exact Hg|congruence|exact Hst|].
  intros t' Ho E (Ef & Es & Er). split; [eapply emitted_static; [done|exact E|rewrite Ef; by apply marked_insert]|]. split; [by exists sr|].
  intros F _ ws ls regs vars Ha Hk Hws Hls. destruct (holds_app _ _ _ _ _ Hws) as (wsr & xs & -> & _ & Hxs). rewrite branch_nat.
  destruct (emit_step F (Jump (br_destination g) args) [] (bld t) (bld t') regs vars Ho Ha Hk) as (rst & k & -> & Hi); [by rewrite E..|].
  eapply marked_branch; [done|done|done|done|by eapply holds_ranges|eapply rtc_once, step_jump; [exact Hi|exact Hxs]| |apply low_refl].
  eapply locals_kept; [|exact Hls]. rewrite E. by apply emit_grows.
Qed.

(** ** New blocks *)

(** Blocks are made, a branch is added and another block is entered. *)
Record branched_to (b b1 : Rec) (i : InstData) (b' : Rec) (nb : Block) : Prop := {
  bt_grows : grows b b1; bt_insts : r_insts b1 = r_insts b; bt_trace : r_trace b1 = r_trace b; bt_current : r_current b1 = r_current b; bt_open : is_open b1 = true;
  bt_moved : moved (emit i [] b1) b'; bt_now : r_current b' = Some nb; bt_fresh : untouched b' nb }.
Lemma branched_grows b b1 i b' nb : branched_to b b1 i b' nb -> grows b b'.
Proof. intros []. eapply growth_trans; [done|]. eapply growth_trans; [by apply emit_grows|]. apply bt_moved0. Qed.
Lemma branched_insts b b1 i b' nb : branched_to b b1 i b' nb -> r_insts b' = r_insts b ++ [(i, [])].
Proof. intros []. rewrite (mv_insts _ _ bt_moved0), (proj1 (proj2 (emit_same i [] b1))). by rewrite bt_insts0. Qed.
Lemma branched_next F b b1 i b' nb regs vars : branched_to b b1 i b' nb -> kept b' F -> exists rest, point F b regs vars = Running (EInst (pm_len (r_insts b)) :: rest) regs vars.
Proof.
  intros [] Hk. rewrite <- bt_insts0, <- (point_same F b b1 regs vars bt_trace0 bt_current0). apply (emit_next F i []); [done|]. rewrite <- (mv_trace _ _ bt_moved0). apply Hk.
Qed.
Lemma branched_inst b b1 i b' nb : branched_to b b1 i b' nb -> pm_get (r_insts b') (pm_len (r_insts b)) = Some (i, []).
Proof. intros H. rewrite (branched_insts _ _ _ _ _ H). apply (pm_get_push_new (r_insts b)). Qed.
Lemma new_same b b' d tys : new_block_of b b' d tys -> grows b b' /\ r_insts b' = r_insts b /\ r_trace b' = r_trace b /\ r_current b' = r_current b.
Proof. intros H. split; [by eapply new_block_grows|]. by destruct H. Qed.
(** A block without parameters is entered. *)
Lemma enter_plain F b' nb b0 regs vars : kept b0 F -> blk b0 nb = Some (mkBlk [] false false) -> r_current b' = Some nb -> untouched b' nb ->
  steps F (Goto nb [] regs vars) (point F b' regs vars).
Proof.
  intros K Hb Hc U. apply rtc_once. assert (block_params b0 nb = []) as Ep by (cbn; unfold blk_params; by rewrite Hb).
  rewrite (step_goto F b0); [|done|by rewrite Hb|by rewrite Ep]. rewrite Ep, (point_fresh _ _ _ _ _ Hc U). do 2 f_equal. unfold assign. cbn. apply (left_id_L ∅ (∪)).
Qed.
Lemma br_if_ok l : code_ok [Operator.BrIf l] (fun fuel => exec_instr (arity_of env validator) (exec fuel) (IBrIf l)).
Proof.
  intros t v vs vs' t' f fs under base seg tys Hsim H Hsc Ht Hv%step_one%vstep_raw_of Htr. apply Forall_cons_iff in Hsc as [Hsv Hsc].
  lazy [vstep_raw] in Hv. apply bind_Some in Hv as (ts & Hts & (w1 & Hw1 & (w' & Hw' & _)%bind_Some)%bind_Some). destruct (branch_target _ _ _ _ _ _ _ _ _ _ _ H Hts) as (d & w & g & -> & Hw & -> & Hg & Har).
  destruct (vpop_alive _ _ _ _ (h_alive _ _ _ _ _ _ _ _ _ _ _ _ _ _ H) Hw1) as (r1 & -> & Ha1). destruct (vpops_alive _ _ _ _ Ha1 Hw') as (rest & -> & _).
  rewrite <- app_assoc in H. destruct (here_typed _ _ _ _ _ _ _ _ _ _ H Hsv) as (sr & argc & -> & Hty & Hst & Hl & Hsa & _).
  apply Forall2_app_inv_r in Hty as (args & cs & Hty & (cv & -> & Hcv)%one_arg & ->). rewrite (app_assoc (base ++ sr)) in Hst. apply Forall_app in Hsa as [Hsa _].
  revert t' Htr. apply lp_one, lp_live; [apply H|]. eapply (br_if_effect dbg t (base ++ sr) args); [apply Hsim|by eapply sim_frames|done|exact Hg|by rewrite Har; apply pm_len_Forall2 in Hty|exact Hst|done|].
  intros nb b1 t' N1 Ho Hm Hc U (Ef & Es & Er). destruct (new_same _ _ _ _ N1) as (G1 & I1 & T1 & C1).
  assert (branched_to (bld t) b1 (Brif cv (br_destination g) args nb []) (bld t') nb) as Br by (by split).
  split; [split; [by eapply branched_grows|rewrite (branched_insts _ _ _ _ _ Br); by apply prefix_app_r|rewrite Ef; by apply marked_insert]|]. split; [exists (sr ++ args); by rewrite Es, app_assoc|].
  intros F fuel ws ls regs vars Ha Hk Hws Hls. rewrite app_assoc in Hws. destruct (holds_app _ _ _ _ _ Hws) as (wsa & zc & -> & Hsra & Hc1).
  apply Forall2_cons_inv_l in Hc1 as (z & ? & Hz & ->%Forall2_nil_inv_l & ->). cbn [exec_instr]. rewrite (top_n_app wsa [z] : top_n 1 _ = _). cbv beta iota.
  destruct (holds_app _ _ _ _ _ Hsra) as (wsr & xs & -> & Hsr & Hxs). destruct (branched_next F _ _ _ _ _ regs vars Br Hk) as [rst Hp]. rewrite Hp.
  pose proof (agree_inst _ _ _ _ _ Ha ltac:(reflexivity) (branched_inst _ _ _ _ _ Br)) as Hi. assert (locals_hold (bld t') vars ls) as Hl' by (eapply locals_kept; [apply (branched_grows _ _ _ _ _ Br)|done]).
  pose proof (step_brif F (bld t) cv _ args nb [] [] regs vars z xs [] _ rst Hi Hz Hxs ltac:(constructor)) as Hstep. destruct (z =? 0).
  - split; [rewrite Er; apply H|]. exists (sr ++ args), regs, vars. split; [by rewrite Es, app_assoc|]. split.
    + eapply steps_one; [exact Hstep|]. eapply (enter_plain F (bld t') nb b1); [|apply (nb_blk _ _ _ _ N1)|done|done]. eapply kept_trans; [|exact Hk]. eapply kept_trans; [by apply emit_grows|apply Hm].
    + split; [|by split; [|apply low_refl]]. eapply holds_later; [apply (branched_grows _ _ _ _ _ Br)|apply low_refl|done].
  - rewrite branch_nat. eapply marked_branch; [done|done|done|done|by eapply holds_ranges|by apply rtc_once|done|apply low_refl].
Qed.
End Code.
