(* ===== verification/SemBlocks.v ===== *)
(** * Blocks, loops and conditionals

    The cases of structured instructions, and the theorem for all code. *)
From stdpp Require Import base list gmap option numbers.
From S2P Require Import Prelude Types Trap Module ModuleTypes VMOffsets HeapAccess Clif ClifLaws FuncState WasmOp FuncEnv CodeTranslator CodeTranslatorCtl CodeTranslatorOps WasmTyping WasmSem FuncValid CtlEnv OpTyping CtlInv CtlSim CtlSteps CtlDead CtlLive CtlBranch CtlBlocks CtlEnds CtlStep RecBuilder RecBuilderLaws ClifMachine SemOps SemBuild SemEffects SemSim SemCode.
Local Open Scope Z_scope.

Section Blocks.
Context `{TC : TrapCodes} `{AR : ClifArith} `{LW : !ClifArithLaws}.
Context (dbg : bool) (env : TranslationEnvironment) (validator : FuncValidator) (locals results : list ir.Type_).
Context (EO : env_ok env) (locals_canonical : Forall (fun t => canon t = t) locals) (scalar_locals : Forall scalar locals) (scalar_results : Forall scalar results).
Abbreviation vstep := (vstep env validator locals).
Abbreviation vsteps := (vsteps env validator locals).
Abbreviation sim := (sim dbg env validator locals results).
Abbreviation here := (here dbg env validator locals results).
Abbreviation instr_ok := (instr_ok env validator).
Abbreviation trs := (trs dbg env validator).
Abbreviation exec := (exec (arity_of env validator)).
Abbreviation exec_instr fuel := (exec_instr (arity_of env validator) (exec fuel)).
Abbreviation code_ok := (code_ok dbg env validator locals results).
Abbreviation result_ok := (result_ok results).

(** ** Leaving a block

    The code after a block is the block [d]; its parameters were made in [b0]. *)
Record entry (b0 : Rec) (d : Block) (rs : list ir.Type_) (b : Rec) : Prop := {
  en_now : r_current b = Some d; en_fresh : untouched b d; en_values : r_values b0 ++ rs `prefix_of` r_values b;
  en_params : block_params b d = fresh_values b0 rs; en_known : is_Some (blk b d) }.
Lemma arrive F b0 d rs b xs regs vars : entry b0 d rs b -> kept b F -> Forall2 in_range rs xs ->
  let regs' := assign (fresh_values b0 rs) xs regs in
  steps F (Goto d xs regs vars) (point F b regs' vars) /\ Forall2 (holds b regs') (fresh_values b0 rs) xs /\ below (pm_len (r_values b0)) regs regs'.
Proof.
  intros [Hc U V P K] Hk Hx regs'. split; [|split].
  - apply rtc_once. rewrite (step_goto F b); [|done|done|by rewrite P, fresh_length, (Forall2_length Hx)]. by rewrite P, (point_fresh _ _ _ _ _ Hc U).
  - by apply assign_holds.
  - apply assign_low. intros v. apply fresh_high.
Qed.
(** How the result of the code in a block leads out of it. *)
Definition exits (F : Rec) (t t' : TState Rec) (d : Block) (rs : list ir.Type_) (vs : list vframe) (regs : registers) (c : conf) (r : res) : Prop :=
  let leads ws ls := reachable (st t') = true /\ exists regs' vars', Forall2 in_range rs ws /\ steps F c (Goto d ws regs' vars') /\ locals_hold (bld t') vars' ls /\ below (pm_len (r_values (bld t))) regs regs' in
  match r with
  | RNormal ws ls => leads ws ls
  | RBranch 0 ws ls => exists junk xs, ws = junk ++ xs /\ leads xs ls
  | RBranch (S l) ws ls => result_ok F t t' vs [] regs c (RBranch l ws ls)
  | r => result_ok F t t' vs [] regs c r
  end.
Lemma exits_leave F t t' d rs vs base sr regs c r wsr b0 : (reachable (st t') = true -> entry b0 d rs (bld t') /\ stack (st t') = base ++ sr ++ fresh_values b0 rs) ->
  kept (bld t) (bld t') -> kept (bld t') F -> pm_len (r_values (bld t)) <= pm_len (r_values b0) -> Forall2 (holds (bld t) regs) sr wsr ->
  exits F t t' d rs vs regs c r -> result_ok F t t' vs base regs c (leave wsr (length rs) r).
Proof.
  intros He Hk HF Hle Hsr Hx.
  assert (forall ws ls regs' vars', reachable (st t') = true -> Forall2 in_range rs ws -> steps F c (Goto d ws regs' vars') -> locals_hold (bld t') vars' ls ->
    below (pm_len (r_values (bld t))) regs regs' -> result_ok F t t' vs base regs c (RNormal (wsr ++ ws) ls)) as Hin.
  { intros ws ls regs' vars' Hr Hws Hs Hl Hb. destruct (He Hr) as [En Est]. destruct (arrive F b0 d rs (bld t') ws regs' vars' En HF Hws) as (S' & H' & B'). split; [done|].
    eexists _, _, vars'. split; [exact Est|]. split; [by eapply steps_trans|]. assert (below (pm_len (r_values (bld t))) regs (assign (fresh_values b0 rs) ws regs')) as B by (by eapply low_trans).
    split; [|done]. apply Forall2_app; [|done]. eapply holds_later; [apply Hk|exact B|done]. }
  destruct r as [ws ls|[|l] ws ls|ws|tr| |]; try exact Hx.
  - destruct Hx as (Hr & regs' & vars' & ? & ? & ? & ?). by eapply Hin.
  - destruct Hx as (junk & xs & -> & Hr & regs' & vars' & H1 & ? & ? & ?). cbn [leave]. rewrite (Forall2_length H1), top_n_app. by eapply Hin.
Qed.

(** The [end] of the frame [f]. *)
Record left_frame (t t' : TState Rec) (f : ControlStackFrame) (fs : list ControlStackFrame) (under seg : list Value) (rs : list ir.Type_) : Prop := {
  lf_grows : grows (bld t) (bld t'); lf_insts : r_insts (bld t) `prefix_of` r_insts (bld t'); lf_frames : frames t' = fs;
  lf_reachable : reachable (st t') = reachable (st t) || (exit_is_branched_to f || reachable_anyway f);
  lf_entry : reachable (st t') = true -> r_current (bld t') = Some (following_code f) /\ untouched (bld t') (following_code f) /\
    stack (st t') = under ++ block_params (bld t) (following_code f);
  lf_stack : reachable (st t') = false -> stack (st t') = under;
  lf_jump : reachable (st t) = true -> forall F regs vars ws, agrees (bld t) (bld t') F -> kept (bld t') F -> Forall2 (holds (bld t) regs) seg ws ->
    Forall2 in_range rs ws /\ steps F (point F (bld t) regs vars) (Goto (following_code f) ws regs vars) }.
Lemma end_step t v vs vs' t' f fs under mid seg : sim t (v :: vs) -> scalar_frame v -> tidy (bld t) -> frames t = f :: fs -> stack (st t) = (under ++ mid) ++ seg ->
  pm_len (under ++ mid) = base_size f -> under_size f = pm_len under -> 0 <= num_param_values f -> original_stack_size f < max_height -> is_Some (blk (bld t) (following_code f)) ->
  vsteps [Operator.End] (v :: vs) = Some vs' -> trs [Operator.End] t = (Ok tt, t') -> left_frame t t' f fs under seg (v_end v).
Proof.
  intros Hsim Hsv Ht Hf Hst Hb Hu Hn Ho Hd Hv%step_one%vstep_raw_of Htr. destruct (reachable (st t)) eqn:Hr.
  - destruct (sim_here _ _ _ _ _ t v vs f fs (under ++ mid) seg Hsim Hr Hf Hst Hb) as (under' & tys & H).
    lazy [vstep_raw] in Hv. apply bind_Some in Hv as (f' & Hx & Hv). destruct (bool_decide (v_ops f' = [])) eqn:Ec; [|discriminate Hv]. apply bool_decide_eq_true_1 in Ec.
    pose proof (ops_done _ _ _ (h_alive _ _ _ _ _ _ _ _ _ _ _ _ _ _ H) Hx Ec) as ->. pose proof (repr_typed _ _ _ (h_seg _ _ _ _ _ _ _ _ _ _ _ _ _ _ H) (proj2 (proj2 Hsv))) as Hty.
    revert t' Htr. apply lp_one, lp_live; [done|]. eapply (end_effect dbg t f fs under); try done; [apply Hsim| |by eapply typed_scalar; [|apply Hsv]|].
    { rewrite (fo_returns _ _ _ _ _ (h_frame _ _ _ _ _ _ _ _ _ _ _ _ _ _ H)). by apply pm_len_Forall2 in Hty. }
    intros t' Hop Hm Hc U (Ef & Es & Er). assert (branched_to (bld t) (bld t) (Jump (following_code f) seg) (bld t') (following_code f)) as Br by (split; try done; apply growth_refl).
    split; try done; [by eapply branched_grows|rewrite (branched_insts _ _ _ _ _ Br); by apply prefix_app_r|by rewrite Er, Hr|intros E; congruence|].
    intros _ F regs vars ws Ha Hk Hws. split; [by eapply holds_ranges|]. destruct (branched_next F _ _ _ _ _ regs vars Br Hk) as [rst ->].
    eapply rtc_once, step_jump; [exact (agree_inst _ _ _ _ _ Ha ltac:(reflexivity) (branched_inst _ _ _ _ _ Br))|exact Hws].
  - revert t' Htr. apply lp_one, lp_dead; [done|]. apply lp_bind, lp_wp, wp_get. rewrite Hr. apply lp_bind, lp_wp, wp_debug_assert; [done|].
    rewrite <- app_assoc in Hst. eapply (dead_end_effect dbg t f fs under); try done.
    + intros Hex t' Hm Hc U (Ef & Es & Er). split; try done; [apply Hm|by rewrite (mv_insts _ _ Hm)|by rewrite Er, Hex, orb_true_r|intros E; congruence|intros E; congruence].
    + intros Hex t' Hm (Ef & Es & Er). split; try done; [apply Hm|by rewrite (mv_insts _ _ Hm)|by rewrite Er, Hr, Hex|intros E; congruence|intros E; congruence].
Qed.
(** From the end of the code in the frame [f] to the code after it. *)
Record outward (F : Rec) (t t' : TState Rec) (f : ControlStackFrame) (fs : list ControlStackFrame) (seg : list Value) (rs : list ir.Type_) : Prop := {
  ow_grows : grows (bld t) (bld t'); ow_frames : marked fs (frames t');
  ow_exit : exit_is_branched_to f = true -> reachable (st t') = true;
  ow_jump : reachable (st t) = true -> reachable (st t') = true /\ forall regs vars ws, Forall2 (holds (bld t) regs) seg ws ->
    Forall2 in_range rs ws /\ steps F (point F (bld t) regs vars) (Goto (following_code f) ws regs vars) }.
Lemma left_outward F t t' f fs under seg rs : left_frame t t' f fs under seg rs -> agrees (bld t) (bld t') F -> kept (bld t') F -> outward F t t' f fs seg rs.
Proof.
  intros L Ha Hk. split; [apply L|rewrite (lf_frames _ _ _ _ _ _ _ L); apply marked_refl|intros E; by rewrite (lf_reachable _ _ _ _ _ _ _ L), E, orb_true_r|].
  intros Hr. split; [by rewrite (lf_reachable _ _ _ _ _ _ _ L), Hr|]. intros regs vars ws Hws. by apply (lf_jump _ _ _ _ _ _ _ L Hr).
Qed.
Lemma body_exits F t t1 t' f fs base seg v rs vs regs c r : outward F t1 t' f fs seg rs -> frames t1 = f :: fs -> stack (st t1) = base ++ seg ->
  match r with RBranch 0 _ _ => is_loop f = false /\ label_types v = rs | _ => True end -> result_ok F t t1 (v :: vs) base regs c r ->
  exits F t t' (following_code f) rs vs regs c r.
Proof.
  intros L Hf Hst Hlab R. destruct r as [ws ls|[|l] ws ls|ws|tr| |]; try exact R.
  - destruct R as (Hr & seg' & regs' & vars' & E & S & Hh & Hl & Hb). rewrite Hst in E. apply app_inv_head in E as <-. destruct (ow_jump _ _ _ _ _ _ _ L Hr) as [Hr' J]. destruct (J regs' vars' ws Hh) as [Hx Hj].
    split; [done|]. exists regs', vars'. split; [done|]. split; [by eapply steps_trans|]. split; [|done]. by eapply locals_kept; [apply L|].
  - destruct R as (w & g & junk & xs & regs' & vars' & [= <-] & Hg & He & -> & Hx & S & Hl & Hb). destruct Hlab as [Hlp <-]. rewrite Hf in Hg. injection Hg as <-. destruct He as [?|He]; [congruence|].
    exists junk, xs. split; [done|]. split; [by apply (ow_exit _ _ _ _ _ _ _ L)|]. exists regs', vars'. split; [done|].
    split; [by destruct f|]. split; [|done]. by eapply locals_kept; [apply L|].
  - destruct R as (w & g & junk & xs & regs' & vars' & Hw & Hg & He & Ews & Hx & S & Hl & Hb). rewrite Hf in Hg. destruct (Forall2_lookup_l _ _ _ _ _ (ow_frames _ _ _ _ _ _ _ L) Hg) as (g' & Hg' & Hm).
    destruct (marks_same _ _ Hm) as (E1 & _ & E3 & _). exists w, g', junk, xs, regs', vars'. split_and!; try done; [|by rewrite E1|by eapply locals_kept; [apply L|]].
    rewrite E3. destruct He as [?|He]; [by left|right; by eapply marks_exit].
Qed.

(** ** Blocks *)
Lemma arity_sig bt ps rs same : block_sig env validator bt = Some (ps, rs, same) -> arity_of env validator bt = (length ps, length rs).
Proof. intros H. unfold arity_of. by rewrite H. Qed.
Lemma new_entry b b' d rs b2 : new_block_of b b' d rs -> kept b' b2 -> is_Some (blk b2 d) /\ block_params b2 d = fresh_values b rs /\ r_values b ++ rs `prefix_of` r_values b2.
Proof.
  intros N K. split; [|split].
  - destruct (new_known _ _ _ _ N) as [x Hx]. destruct (k_blocks _ _ K d x Hx) as (x' & Hx' & _). by rewrite Hx'.
  - rewrite (kept_block_params _ _ _ K (new_known _ _ _ _ N)). by eapply new_params.
  - rewrite <- (nb_values _ _ _ _ N). apply K.
Qed.
Lemma left_enters b0 b1 t t' f fs under seg rs : left_frame t t' f fs under seg rs -> new_block_of b0 b1 (following_code f) rs -> kept b1 (bld t) -> reachable (st t') = true ->
  entry b0 (following_code f) rs (bld t') /\ stack (st t') = under ++ fresh_values b0 rs.
Proof.
  intros L N K Hr. destruct (lf_entry _ _ _ _ _ _ _ L Hr) as (Hc & U & Es). destruct (new_entry _ _ _ _ _ N K) as (_ & Ep & _).
  destruct (new_entry _ _ _ _ (bld t') N) as (Kn & Ep' & Ev); [eapply kept_trans; [exact K|apply L]|]. split; [by split|]. by rewrite Es, Ep.
Qed.
Lemma left_base t t' f fs under seg rs : left_frame t t' f fs under seg rs -> exists junk, stack (st t') = under ++ junk.
Proof.
  intros L. destruct (reachable (st t')) eqn:E; [destruct (lf_entry _ _ _ _ _ _ _ L E) as (_ & _ & ->); by eexists|]. rewrite (lf_stack _ _ _ _ _ _ _ L E). exists []. by rewrite app_nil_r.
Qed.
Lemma trs_cons op ops t t' : trs (op :: ops) t = (Ok tt, t') -> exists t1, trs [op] t = (Ok tt, t1) /\ trs ops t1 = (Ok tt, t').
Proof. apply (trs_app _ _ _ [op]). Qed.
Lemma vsteps_cons op ops vs vs' : vsteps (op :: ops) vs = Some vs' -> exists vs1, vsteps [op] vs = Some vs1 /\ vsteps ops vs1 = Some vs'.
Proof. intros (vs1 & H1 & H2)%bind_Some. exists vs1. cbn [FuncValid.vsteps]. by rewrite H1. Qed.
(** The code inside a block, from its first state to its last. *)
Lemma body_done body t1 v1 vs vs2 t2 f1 base seg : forallb instr_ok body = true -> code_ok (flatten body) (fun fuel => exec fuel body) -> sim t1 (v1 :: vs) -> Forall scalar_frame (v1 :: vs) -> tidy (bld t1) ->
  reachable (st t1) = true -> (exists fs1, frames t1 = f1 :: fs1) -> stack (st t1) = base ++ seg -> pm_len base = base_size f1 -> vsteps (flatten body) (v1 :: vs) = Some vs2 -> trs (flatten body) t1 = (Ok tt, t2) ->
  exists v2 junk f2 fs2, vs2 = v2 :: vs /\ same_frame v1 v2 /\ sim t2 (v2 :: vs) /\ scalar_frame v2 /\ static t1 t2 /\ stack (st t2) = base ++ junk /\ frames t2 = f2 :: fs2 /\ marks f1 f2 /\ tidy (bld t2) /\
    forall F fuel ws ls regs vars, agrees (bld t1) (bld t2) F -> kept (bld t2) F -> Forall2 (holds (bld t1) regs) seg ws -> locals_hold (bld t1) vars ls ->
      result_ok F t1 t2 (v1 :: vs) base regs (point F (bld t1) regs vars) (exec fuel body ws ls).
Proof.
  intros Ob Hb Hsim Hsc Ht Hr [fs1 Hf] Hst Hba Hv Htr. destruct (sim_here _ _ _ _ _ t1 v1 vs f1 fs1 base seg Hsim Hr Hf Hst Hba) as (under & tys & H).
  destruct (code_balanced _ _ _ _ Ob _ _ _ Hv) as (v2 & -> & Hs). destruct (Hb _ _ _ _ _ _ _ _ _ _ _ Hsim H Hsc Ht Hv Htr) as (S & [junk Hj] & R).
  pose proof (s_frames _ _ S) as Hm. rewrite Hf in Hm. apply Forall2_cons_inv_l in Hm as (f2 & fs2 & M & _ & Hf2). exists v2, junk, f2, fs2. split_and!; try done.
  - by eapply sim_steps.
  - eapply (vsteps_scalar _ _ _ _ _ _ scalar_locals (flatten_ok _ _ _ Ob) Hsc) in Hv. by apply Forall_cons_iff in Hv as [? _].
  - by apply (s_grows _ _ S).
Qed.

Lemma block_code_ok bt body : block_ok env validator bt = true -> forallb instr_ok body = true -> code_ok (flatten body) (fun fuel => exec fuel body) ->
  code_ok (flatten1 (IBlock bt body)) (fun fuel => exec_instr fuel (IBlock bt body)).
Proof.
  intros Obt Ob Hbody t v vs vs' t3 f fs under base seg tys Hsim H Hsc Ht Hv Htr. cbn [flatten1] in Hv, Htr.
  apply vsteps_cons in Hv as (vs1 & Hv1 & Hv). apply trs_cons in Htr as (t1 & Htr1 & Htr). rewrite vsteps_app in Hv. apply bind_Some in Hv as (vs2 & Hv2 & Hv3). apply trs_app in Htr as (t2 & Htr2 & Htr3).
  destruct (block_ok_inv _ _ _ Obt) as (ps & rs & same & Hsig & Hps & Hrs). pose proof Hv1 as Hv1'. apply step_one, vstep_raw_of in Hv1'. lazy [vstep_raw] in Hv1'. rewrite Hsig in Hv1'. cbn in Hv1'.
  apply bind_Some in Hv1' as (v' & Hp & [= <-]). destruct (vpops_alive _ _ _ _ (h_alive _ _ _ _ _ _ _ _ _ _ _ _ _ _ H) Hp) as (rest & -> & _).
  pose proof (proj1 (proj1 (Forall_cons_iff _ _ _) Hsc)) as Hsv. destruct (here_typed _ _ _ _ _ _ _ _ _ _ _ _ _ _ _ H Hsv) as (sr & args & -> & Hty & Hst & Hla & Hsa & Hsr).
  assert (sim t1 (enter KBlock ps rs :: v' :: vs)) as Hsim1 by (by eapply sim_steps).
  assert (Forall scalar_frame (enter KBlock ps rs :: v' :: vs)) as Hsc1 by (eapply vsteps_scalar; [exact scalar_locals| |exact Hsc|exact Hv1]; by repeat constructor).
  assert (exists d b1, new_block_of (bld t) b1 d rs /\ bld t1 = b1 /\ frames t1 = Block_ d (pm_len args) (pm_len rs) (pm_len (base ++ sr)) false :: frames t /\ stack (st t1) = stack (st t) /\ reachable (st t1) = true) as (d & b1 & N & <- & Hf1 & Es1 & Er1).
  { revert t1 Htr1 Htr2 Hsim1. intros t1 Htr1 _ _. revert t1 Htr1. apply lp_one, lp_live; [apply H|]. eapply (block_effect dbg env validator bt ps rs same t (base ++ sr) args); [done|exact Hst|done|apply Hsim|].
    intros d b1 N. exists d, b1. split_and!; try done; [|apply H]. unfold frames. cbn. by rewrite rev_unit. }
  destruct (new_same _ _ _ _ N) as (G1 & I1 & T1 & C1).
  destruct (body_done body t1 _ _ vs2 t2 (Block_ d (pm_len args) (pm_len rs) (pm_len (base ++ sr)) false) (base ++ sr) args Ob Hbody Hsim1 Hsc1 (proj2 G1 Ht) Er1 ltac:(by eexists) ltac:(by rewrite Es1) eq_refl Hv2 Htr2)
    as (v2 & junk & f2 & fs2 & -> & Hsame & Hsim2 & Hsv2 & S2 & Hst2 & Hf2 & M2 & Ht2 & R2).
  destruct (marks_same _ _ M2) as (_ & Efc & Elp & _ & Enp & Eor & Eif & _). cbn in Efc, Elp, Enp, Eor, Eif. destruct (new_entry _ _ _ _ (bld t2) N ltac:(apply S2)) as (Kd & _).
  assert (left_frame t2 t3 f2 fs2 (base ++ sr) junk (v_end v2)) as L.
  { eapply (end_step t2 v2 (v' :: vs)); try done; rewrite ?app_nil_r; try done; [by rewrite (marks_base _ _ M2)|unfold under_size; rewrite Eor, Eif; lia|rewrite Enp; apply pm_len_nonneg| |by rewrite Efc].
    rewrite Eor. pose proof (sim_stack _ _ _ _ _ _ _ Hsim) as Hb. rewrite Hst, pm_len_app in Hb. pose proof (pm_len_nonneg args). lia. }
  assert (v_end v2 = rs) as Evr by apply Hsame. rewrite Evr in L. assert (kept (bld t) (bld t3)) as K03 by (eapply kept_trans; [apply G1|]; eapply kept_trans; [apply S2|apply L]).
  split; [|split].
  - split; [eapply growth_trans; [exact G1|]; eapply growth_trans; [apply S2|apply L]|rewrite <- I1; etrans; [apply S2|apply L]|].
    rewrite (lf_frames _ _ _ _ _ _ _ L). pose proof (s_frames _ _ S2) as Hm. rewrite Hf1, Hf2 in Hm. by apply Forall2_cons_1 in Hm as [_ ?].
  - destruct (left_base _ _ _ _ _ _ _ L) as [j ->]. exists (sr ++ j). by rewrite app_assoc.
  - intros F fuel ws ls regs vars Ha Hk Hws Hls. destruct (holds_app _ _ _ _ _ Hws) as (wsr & xs & -> & Hwr & Hxs). cbn [WasmSem.exec_instr]. unfold run_block. rewrite (arity_sig _ _ _ _ Hsig). cbn [fst snd].
    assert (length xs = length ps) as Elx by (by rewrite <- (Forall2_length Hxs), (Forall2_length Hty)). rewrite <- Elx, top_n_app.
    assert (kept (bld t2) F) as K2 by (eapply kept_trans; [apply L|done]).
    destruct (agrees_split (bld t1) (bld t2) (bld t3) F) as [A12 A23]; [apply S2|apply L|apply L|by unfold agrees in *; rewrite I1|].
    apply (result_frame _ _ _ _ v v'); [by eapply vpops_same|].
    eapply (exits_leave F t t3 d rs _ base sr); [|exact K03|done|reflexivity|exact Hwr|].
    { intros Hr. rewrite <- Efc in N |- *. destruct (left_enters _ _ _ _ _ _ _ _ _ L N ltac:(apply S2) Hr) as [En Es]. split; [done|]. by rewrite Es, app_assoc. }
    rewrite <- Efc. eapply body_exits; [by eapply left_outward|done|exact Hst2| |].
    2:{ eapply (result_from _ F t t1 t2 _ _ regs regs (point F (bld t) regs vars)); [|apply low_refl|by apply grows_values|].
        2:{ apply (R2 F fuel xs ls regs vars); try done; [|by eapply locals_kept; [apply G1|]]. eapply holds_later; [apply G1|apply low_refl|done]. }
        rewrite (point_same F (bld t) (bld t1) regs vars T1 C1). apply rtc_refl. }
    by repeat case_match.
Qed.
(** ** Loops *)
Lemma loop_again fuel bt body ws ls : exec fuel [ILoop bt body] ws ls = RFuel \/ exists n, fuel = S n /\ exec fuel [ILoop bt body] ws ls = exec_instr n (ILoop bt body) ws ls.
Proof.
  destruct fuel as [|n]; [by left|]. cbn [WasmSem.exec]. destruct (exec_instr n _ ws ls) as [ws' ls'| | | | |] eqn:E; try (right; by exists n).
  destruct n as [|n]; [by left|]. right. exists (S n). by rewrite E.
Qed.
Lemma loop_code_ok bt body : block_ok env validator bt = true -> forallb instr_ok body = true -> code_ok (flatten body) (fun fuel => exec fuel body) ->
  code_ok (flatten1 (ILoop bt body)) (fun fuel => exec_instr fuel (ILoop bt body)).
Proof.
  intros Obt Ob Hbody t v vs vs' t3 f fs under base seg tys Hsim H Hsc Ht Hv Htr. cbn [flatten1] in Hv, Htr.
  apply vsteps_cons in Hv as (vs1 & Hv1 & Hv). apply trs_cons in Htr as (t1 & Htr1 & Htr). rewrite vsteps_app in Hv. apply bind_Some in Hv as (vs2 & Hv2 & Hv3). apply trs_app in Htr as (t2 & Htr2 & Htr3).
  destruct (block_ok_inv _ _ _ Obt) as (ps & rs & same & Hsig & Hps & Hrs). pose proof Hv1 as Hv1'. apply step_one, vstep_raw_of in Hv1'. lazy [vstep_raw] in Hv1'. rewrite Hsig in Hv1'. cbn in Hv1'.
  apply bind_Some in Hv1' as (v' & Hp & [= <-]). destruct (vpops_alive _ _ _ _ (h_alive _ _ _ _ _ _ _ _ _ _ _ _ _ _ H) Hp) as (rest & -> & _).
  pose proof (proj1 (proj1 (Forall_cons_iff _ _ _) Hsc)) as Hsv. destruct (here_typed _ _ _ _ _ _ _ _ _ _ _ _ _ _ _ H Hsv) as (sr & args & -> & Hty & Hst & Hla & Hsa & Hsr).
  assert (sim t1 (enter KLoop ps rs :: v' :: vs)) as Hsim1 by (by eapply sim_steps).
  assert (Forall scalar_frame (enter KLoop ps rs :: v' :: vs)) as Hsc1 by (eapply vsteps_scalar; [exact scalar_locals| |exact Hsc|exact Hv1]; by repeat constructor).
  assert (exists h b1 d b2, new_block_of (bld t) b1 h ps /\ new_block_of b1 b2 d rs /\ branched_to (bld t) b2 (Jump h args) (bld t1) h /\
    frames t1 = Loop_ d h (pm_len args) (pm_len rs) (pm_len (base ++ sr)) :: frames t /\ stack (st t1) = (base ++ sr) ++ fresh_values (bld t) ps /\ reachable (st t1) = true) as (h & b1 & d & b2 & N1 & N2 & Br & Hf1 & Es1 & Er1).
  { revert t1 Htr1 Htr2 Hsim1. intros t1 Htr1 _ _. revert t1 Htr1. apply lp_one, lp_live; [apply H|]. eapply (loop_effect dbg env validator bt ps rs same t (base ++ sr) args); [done|exact Hst|done|apply Hsim|done|done|].
    intros h b1 d b2 b' N1 N2 Ho M Hc U. destruct (new_same _ _ _ _ N1) as (G1 & I1 & T1 & C1), (new_same _ _ _ _ N2) as (G2 & I2 & T2 & C2). exists h, b1, d, b2.
    split_and!; try done; [|unfold frames; cbn; by rewrite rev_unit|apply H]. split; try done; [by eapply growth_trans|congruence..]. }
  pose proof (branched_grows _ _ _ _ _ Br) as G1. pose proof (branched_insts _ _ _ _ _ Br) as I1.
  assert (kept b2 (bld t1)) as K21 by (eapply kept_trans; [apply emit_grows, Br|apply (mv_grows _ _ (bt_moved _ _ _ _ _ Br))]).
  destruct (body_done body t1 _ _ vs2 t2 (Loop_ d h (pm_len args) (pm_len rs) (pm_len (base ++ sr))) (base ++ sr) (fresh_values (bld t) ps) Ob Hbody Hsim1 Hsc1 (proj2 G1 Ht) Er1 ltac:(by eexists) Es1 eq_refl Hv2 Htr2)
    as (v2 & junk & f2 & fs2 & -> & Hsame & Hsim2 & Hsv2 & S2 & Hst2 & Hf2 & M2 & Ht2 & R2).
  destruct (marks_same _ _ M2) as (Ebr & Efc & Elp & _ & Enp & Eor & Eif & _). cbn in Ebr, Efc, Elp, Enp, Eor, Eif. destruct (new_entry _ _ _ _ (bld t2) N2 ltac:(eapply kept_trans; [exact K21|apply S2])) as (Kd & _).
  assert (left_frame t2 t3 f2 fs2 (base ++ sr) junk (v_end v2)) as L.
  { eapply (end_step t2 v2 (v' :: vs)); try done; rewrite ?app_nil_r; try done; [by rewrite (marks_base _ _ M2)|unfold under_size; rewrite Eor, Eif; lia|rewrite Enp; apply pm_len_nonneg| |by rewrite Efc].
    rewrite Eor. pose proof (sim_stack _ _ _ _ _ _ _ Hsim) as Hb. rewrite Hst, pm_len_app in Hb. pose proof (pm_len_nonneg args). lia. }
  assert (v_end v2 = rs) as Evr by apply Hsame. rewrite Evr in L. assert (kept (bld t) (bld t3)) as K03 by (eapply kept_trans; [apply G1|]; eapply kept_trans; [apply S2|apply L]).
  split; [|split].
  - split; [eapply growth_trans; [exact G1|]; eapply growth_trans; [apply S2|apply L]|etrans; [|etrans; [apply S2|apply L]]; rewrite I1; by apply prefix_app_r|].
    rewrite (lf_frames _ _ _ _ _ _ _ L). pose proof (s_frames _ _ S2) as Hm. rewrite Hf1, Hf2 in Hm. by apply Forall2_cons_1 in Hm as [_ ?].
  - destruct (left_base _ _ _ _ _ _ _ L) as [j ->]. exists (sr ++ j). by rewrite app_assoc.
  - intros F fuel0 ws ls0 regs0 vars0 Ha Hk Hws Hls0. destruct (holds_app _ _ _ _ _ Hws) as (wsr & xs0 & -> & Hwr & Hxs).
    assert (kept (bld t2) F) as K2 by (eapply kept_trans; [apply L|done]). assert (kept (bld t1) F) as K1 by (eapply kept_trans; [apply S2|done]).
    destruct (agrees_split (bld t) (bld t1) (bld t3) F) as [A01 A13]; [rewrite I1; by apply prefix_app_r|etrans; [apply S2|apply L]|eapply kept_trans; [apply S2|apply L]|done|].
    destruct (agrees_split (bld t1) (bld t2) (bld t3) F) as [A12 A23]; [apply S2|apply L|apply L|done|].
    apply (result_frame _ _ _ _ v v'); [by eapply vpops_same|].
    assert (entry (bld t) h ps (bld t1)) as En1.
    { destruct (new_entry _ _ _ _ (bld t1) N1) as (Kn & Ep & Ev); [eapply kept_trans; [apply (new_block_grows _ _ _ _ N2)|done]|]. split; [apply Br|apply Br|done..]. }
    assert (forall fuel xs ls regs vars, Forall2 in_range ps xs -> below (pm_len (r_values (bld t))) regs0 regs -> locals_hold (bld t) vars ls ->
      result_ok F t t3 (v' :: vs) base regs0 (Goto h xs regs vars) (exec_instr fuel (ILoop bt body) (wsr ++ xs) ls)) as Hloop.
    { intros fuel. induction fuel as [fuel IH] using (well_founded_induction lt_wf). intros xs ls regs vars Hx Hlow Hls. cbn [WasmSem.exec_instr]. rewrite (arity_sig _ _ _ _ Hsig). cbn [fst snd].
      pose proof (Forall2_length Hx) as Elx. rewrite Elx, top_n_app.
      destruct (arrive F (bld t) h ps (bld t1) xs regs vars En1 K1 Hx) as (St & Hh & Hb).
      pose proof (R2 F fuel xs ls _ vars A12 K2 Hh ltac:(by eapply locals_kept; [apply G1|])) as R.
      apply (result_from _ F t t1 t2 _ _ regs0 _ (Goto h xs regs vars)) in R; [|exact St|by eapply low_trans|by apply grows_values].
      assert (match exec fuel body xs ls with RBranch 0 _ _ => False | _ => True end -> result_ok F t t3 (v' :: vs) base regs0 (Goto h xs regs vars) (leave wsr (length rs) (exec fuel body xs ls))) as Hout.
      { intros Hn. eapply (exits_leave F t t3 d rs _ base sr); [|exact K03|done| |exact Hwr|].
        { intros Hr. rewrite <- Efc in N2 |- *. destruct (left_enters _ _ _ _ _ _ _ _ _ L N2 ltac:(eapply kept_trans; [exact K21|apply S2]) Hr) as [En Es]. split; [done|]. by rewrite Es, app_assoc. }
        { by eapply grows_values, new_block_grows. }
        rewrite <- Efc. eapply body_exits; [by eapply left_outward|done|exact Hst2| |exact R]. by repeat case_match. }
      destruct (exec fuel body xs ls) as [ws1 ls1|[|l1] ws1 ls1|ws1|tr| |] eqn:E; try (by apply Hout).
      destruct R as (w & g & junk1 & xs1 & regs1 & vars1 & [= <-] & Hg & _ & -> & Hx1 & S1 & Hl1 & Hb1). cbn in Hx1. rewrite Hf2 in Hg. injection Hg as <-. rewrite Ebr in S1.
      rewrite <- Elx, (Forall2_length Hx1), top_n_app.
      destruct (loop_again fuel bt body (wsr ++ xs1) ls1) as [->|(n & -> & ->)]; [done|].
      eapply (result_from _ F t t t3); [exact S1|apply low_refl|reflexivity|]. apply IH; [lia|done|done|]. eapply locals_back; [|exact Hl1]. eapply kept_trans; [apply G1|apply S2]. }
    destruct (branched_next F _ _ _ _ _ regs0 vars0 Br K1) as [rst ->].
    eapply (result_from _ F t t t3); [eapply rtc_once, step_jump; [exact (agree_inst _ _ _ _ _ A01 ltac:(reflexivity) (branched_inst _ _ _ _ _ Br))|exact Hxs]|apply low_refl|reflexivity|].
    apply Hloop; [by eapply holds_ranges|apply low_refl|done].
Qed.
(** ** Conditionals

    At [else] the branch instruction of the [if] may be sent to a new block. *)
Definition aimed (e : ElseData) (d k : Block) (j : Z) (x : InstData * list Value) : InstData * list Value :=
  match e with NoElse i _ => if bool_decide (j = i) then (retarget d k x.1, x.2) else x | WithElse _ => x end.
Record turned (t t' : TState Rec) (d : Block) (e : ElseData) (ps rs : list ir.Type_) (seg : list Value) (k : Block) : Prop := {
  tn_grows : grows (bld t) (bld t'); tn_current : r_current (bld t') = Some k; tn_fresh : untouched (bld t') k;
  tn_len : pm_len (r_insts (bld t)) <= pm_len (r_insts (bld t'));
  tn_insts : forall j x, pm_get (r_insts (bld t)) j = Some x -> pm_get (r_insts (bld t')) j = Some (aimed e d k j x);
  tn_block : match e with NoElse _ _ => exists b1, new_block_of (bld t) b1 k ps /\ kept b1 (bld t') | WithElse k' => k' = k end;
  tn_jump : reachable (st t) = true -> forall F regs vars ws, kept (bld t') F -> agrees (bld t) (bld t') F ->
    Forall2 (holds (bld t) regs) seg ws -> Forall2 in_range rs ws /\ steps F (point F (bld t) regs vars) (Goto d ws regs vars) }.
Section Turn.
Variables (t t' : TState Rec) (d : Block) (e : ElseData) (ps rs : list ir.Type_) (seg : list Value) (k : Block) (b1 : Rec).
Hypotheses (G1 : grows (bld t) b1) (I1 : r_insts b1 = r_insts (bld t)) (T1 : r_trace b1 = r_trace (bld t)) (C1 : r_current b1 = r_current (bld t)).
Hypothesis (Hi : match e with NoElse i _ => is_Some (pm_get (r_insts (bld t)) i) | WithElse _ => True end).
Abbreviation sent b := (match e with NoElse i _ => redirect i d k b | WithElse _ => b end).
Lemma sent_grows b : grows b (sent b).
Proof. destruct e; [apply redirect_grows|apply growth_refl]. Qed.
Lemma sent_get b j : r_insts (bld t) `prefix_of` r_insts b -> pm_get (r_insts (sent b)) j = aimed e d k j <$> pm_get (r_insts b) j.
Proof.
  intros P. destruct e as [i p|k'].
  - unfold redirect. cbn [r_insts set_insts]. rewrite pm_get_alter; [|destruct Hi as [x Hx]; eexists; by eapply prefix_pm_get]. unfold aimed. case_bool_decide; subst; destruct (pm_get (r_insts b) _); done.
  - by destruct (pm_get (r_insts b) j).
Qed.
Lemma sent_len b : pm_len (r_insts (sent b)) = pm_len (r_insts b).
Proof. destruct e; [|done]. unfold redirect, pm_len. cbn. by rewrite length_alter. Qed.
Lemma aimed_end x : aimed e d k (pm_len (r_insts (bld t))) x = x.
Proof. destruct e as [i p|]; [|done]. cbn. destruct Hi as [y Hy]. apply pm_get_range in Hy. rewrite bool_decide_eq_false_2; [done|lia]. Qed.
Hypothesis (Hb : match e with NoElse _ _ => new_block_of (bld t) b1 k ps | WithElse k' => k' = k end).
Hypotheses (Hc : r_current (bld t') = Some k) (U : untouched (bld t') k).
Lemma turn_block : kept b1 (bld t') -> match e with NoElse _ _ => exists b1, new_block_of (bld t) b1 k ps /\ kept b1 (bld t') | WithElse k' => k' = k end.
Proof. intros K. destruct e; [by exists b1|exact Hb]. Qed.
Lemma turn_live : is_open b1 = true -> Forall2 (typed (bld t)) seg rs -> moved (sent (emit (Jump d seg) [] b1)) (bld t') -> turned t t' d e ps rs seg k.
Proof.
  intros Ho Hty Hm. set (b2 := emit (Jump d seg) [] b1) in *. assert (grows b1 (bld t')) as G by (eapply growth_trans; [by apply (emit_grows (Jump d seg) [])|]; eapply growth_trans; [apply sent_grows|apply Hm]).
  assert (r_insts b2 = r_insts (bld t) ++ [(Jump d seg, [])]) as I2 by (unfold b2; by rewrite (proj1 (proj2 (emit_same (Jump d seg) [] b1))), I1).
  assert (r_insts (bld t) `prefix_of` r_insts b2) as P by (rewrite I2; by apply prefix_app_r).
  split; try done; [by eapply growth_trans|rewrite (mv_insts _ _ Hm), sent_len; by apply prefix_pm_len| |by apply turn_block, G|].
  - intros j x Hj. rewrite (mv_insts _ _ Hm), sent_get by done. by rewrite (prefix_pm_get _ _ _ _ P Hj).
  - intros Hr F regs vars ws HF Ha Hws. split; [by eapply holds_ranges|]. destruct (emit_next F (Jump d seg) [] b1 regs vars Ho) as [rst Hp].
    { etrans; [|apply (k_trace _ _ HF)]. etrans; [apply (k_trace _ _ (proj1 (sent_grows b2)))|apply (mv_grows _ _ Hm)]. }
    rewrite (point_same F (bld t) b1 regs vars T1 C1) in Hp. rewrite Hp, I1. eapply rtc_once, step_jump; [|exact Hws]. eapply agree_inst; [exact Ha|reflexivity|].
    rewrite (mv_insts _ _ Hm), sent_get by done. rewrite I2, (pm_get_push_new (r_insts (bld t)) _ : pm_get (_ ++ _) _ = _). cbn [fmap option_fmap option_map]. by rewrite aimed_end.
Qed.
Lemma turn_dead : reachable (st t) = false -> moved (sent b1) (bld t') -> turned t t' d e ps rs seg k.
Proof.
  intros Hr Hm. assert (grows b1 (bld t')) as G by (eapply growth_trans; [apply sent_grows|apply Hm]).
  split; try done; [by eapply growth_trans|by rewrite (mv_insts _ _ Hm), sent_len, I1| |by apply turn_block, G|congruence].
  intros j x Hj. rewrite (mv_insts _ _ Hm), sent_get by (by rewrite I1). by rewrite I1, Hj.
Qed.
End Turn.
Lemma else_step t v vs vs' t' d e n x bt fs base seg ps rs same : sim t (v :: vs) -> scalar_frame v -> tidy (bld t) -> frames t = If_ d e n (pm_len rs) (pm_len base) x bt true None :: fs ->
  stack (st t) = base ++ seg -> block_sig env validator bt = Some (ps, rs, same) -> v_end v = rs ->
  match e with NoElse i p => p = d /\ same = true /\ is_Some (pm_get (r_insts (bld t)) i) | WithElse _ => True end ->
  vsteps [Operator.Else] (v :: vs) = Some vs' -> trs [Operator.Else] t = (Ok tt, t') ->
  exists k, turned t t' d e ps rs seg k /\ shaped t' (If_ d e n (pm_len rs) (pm_len base) x bt true (Some (reachable (st t))) :: fs) base true.
Proof.
  intros Hsim Hsv Ht Hf Hst Hsig Hend He Hv%step_one%vstep_raw_of Htr. pose proof (sim_frames _ _ _ _ _ _ _ Hsim) as Hfl. pose proof (sim_stack _ _ _ _ _ _ _ Hsim) as Hsl.
  assert (match e with NoElse i _ => is_Some (pm_get (r_insts (bld t)) i) | WithElse _ => True end) as Hi by (destruct e; [apply He|done]).
  destruct (reachable (st t)) eqn:Hr.
  - destruct (sim_here _ _ _ _ _ t v vs _ fs base seg Hsim Hr Hf Hst eq_refl) as (under' & tys & H).
    lazy [vstep_raw] in Hv. destruct (v_kind v); try discriminate Hv. apply bind_Some in Hv as (f' & Hx & Hv). case_bool_decide as Ec; [|done].
    pose proof (ops_done _ _ _ (h_alive _ _ _ _ _ _ _ _ _ _ _ _ _ _ H) Hx Ec) as ->. pose proof (repr_typed _ _ _ (h_seg _ _ _ _ _ _ _ _ _ _ _ _ _ _ H) (proj2 (proj2 Hsv))) as Hty. rewrite Hend in Hty.
    revert t' Htr. apply lp_one, lp_live; [done|]. eapply (else_effect dbg env validator t d e n (pm_len rs) x bt fs base seg); try done.
    { eapply typed_scalar; [exact Hty|]. rewrite <- Hend. apply Hsv. }
    { by apply pm_len_Forall2 in Hty. }
    destruct e as [i p|k].
    + destruct He as (-> & -> & _). split; [done|]. exists ps, rs. split; [done|]. split.
      { destruct (block_sig_inv _ _ _ _ _ _ Hsig) as (wps & wrs & _ & H1 & H2 & E & _). symmetry in E. apply bool_decide_eq_true in E as ->. congruence. }
      intros k b1 t' N Ho Hm Hc U Sh. exists k. split; [|done]. destruct (new_same _ _ _ _ N) as (G1 & I1 & T1 & C1). by apply (turn_live t t' d _ ps rs seg k b1).
    + intros t' Ho Hm Hc U Sh. exists k. split; [|done]. apply (turn_live t t' d _ ps rs seg k (bld t)); try done. apply growth_refl.
  - revert t' Htr. apply lp_one, lp_dead; [done|]. apply lp_bind, lp_wp, wp_get. rewrite Hr. apply lp_bind, lp_wp, wp_debug_assert; [done|].
    eapply (dead_else_effect dbg env validator t d e n (pm_len rs) x bt fs base seg); try done. destruct e as [i p|k].
    + destruct He as (-> & -> & _). split; [done|]. exists ps, rs. split; [done|]. intros k b1 t' N Hm Hc U Sh. exists k. split; [|done]. destruct (new_same _ _ _ _ N) as (G1 & I1 & T1 & C1). by apply (turn_dead t t' d _ ps rs seg k b1).
    + intros t' Hm Hc U Sh. exists k. split; [|done]. apply (turn_dead t t' d _ ps rs seg k (bld t)); try done. apply growth_refl.
Qed.
(** The state inside an [if]: [nb] is its first branch, [d] the code after it and [tgt] where the condition leads when it fails. *)
Record opened (t t1 : TState Rec) (bt : BlockType) (same : bool) (ps rs : list ir.Type_) (l args : list Value) (cv : Value) (nb d tgt : Block) (e : ElseData) (b1 b2 b3 : Rec) : Prop := {
  op_then : new_block_of (bld t) b1 nb []; op_exit : new_block_of b1 b2 d rs; op_made : grows b2 b3;
  op_branch : branched_to (bld t) b3 (Brif cv nb [] tgt args) (bld t1) nb;
  op_else : match e with NoElse i p => same = true /\ p = d /\ i = pm_len (r_insts (bld t)) /\ tgt = d | WithElse k => same = false /\ k = tgt /\ new_block_of b2 b3 tgt ps end;
  op_shape : shaped t1 (If_ d e (pm_len args) (pm_len rs) (pm_len (l ++ args)) false bt true None :: frames t) ((l ++ args) ++ args) true }.
Lemma if_opens bt ps rs same t t1 l args cv : block_sig env validator bt = Some (ps, rs, same) -> stack (st t) = (l ++ args) ++ [cv] -> pm_len args = pm_len ps ->
  pm_len (l ++ args) + pm_len args < max_height -> Forall (scalar_value (bld t)) args -> tidy (bld t) -> reachable (st t) = true -> trs [Operator.If bt] t = (Ok tt, t1) ->
  exists nb d tgt e b1 b2 b3, opened t t1 bt same ps rs l args cv nb d tgt e b1 b2 b3.
Proof.
  intros Hsig Hst Hl Hb Hsc Ht Hr. revert t1. apply lp_one, lp_live; [done|].
  assert (forall d e b', shaped (mkT b' (if_state t l args rs bt d e)) (If_ d e (pm_len args) (pm_len rs) (pm_len (l ++ args)) false bt true None :: frames t) ((l ++ args) ++ args) true) as Sh.
  { intros d e b'. split; [|by split]. unfold frames, if_state. cbn. by rewrite rev_unit, Hr. }
  eapply (if_effect dbg env validator bt ps rs same t l args cv); try done.
  - intros -> nb b1 d b2 b' N1 N2 Ho M Hc U. destruct (new_same _ _ _ _ N1) as (G1 & I1 & T1 & C1), (new_same _ _ _ _ N2) as (G2 & I2 & T2 & C2).
    exists nb, d, d, (NoElse (pm_len (r_insts b2)) d), b1, b2, b2. split; try done; [apply growth_refl| |by rewrite I2, I1]. split; try done; [by eapply growth_trans|congruence..].
  - intros -> nb b1 d b2 k b3 b' N1 N2 N3 Ho M Hc U. destruct (new_same _ _ _ _ N1) as (G1 & I1 & T1 & C1), (new_same _ _ _ _ N2) as (G2 & I2 & T2 & C2), (new_same _ _ _ _ N3) as (G3 & I3 & T3 & C3).
    exists nb, d, k, (WithElse k), b1, b2, b3. split; try done. split; try done; [by eapply growth_trans; [|eapply growth_trans]|congruence..].
Qed.
Record begun (bt : BlockType) (thn : list instr) (t t1 t2 : TState Rec) (v v' v2 : vframe) (vs : list vframe) (same : bool) (ps rs : list ir.Type_) (base sr args : list Value) (cv : Value)
    (nb d tgt : Block) (e : ElseData) (b1 b2 b3 : Rec) (junk : list Value) (x : bool) (fs2 : list ControlStackFrame) : Prop := {
  bg_sig : block_sig env validator bt = Some (ps, rs, same); bg_same : same_frame v v'; bg_types : Forall2 (typed (bld t)) args ps;
  bg_open : opened t t1 bt same ps rs (base ++ sr) args cv nb d tgt e b1 b2 b3;
  bg_room : pm_len ((base ++ sr) ++ args) < max_height;
  bg_frame : same_frame (enter (KIf same) ps rs) v2; bg_sim : sim t2 (v2 :: v' :: vs); bg_scalar : Forall scalar_frame (v2 :: v' :: vs);
  bg_static : static t1 t2; bg_stack : stack (st t2) = ((base ++ sr) ++ args) ++ junk; bg_marked : marked (frames t) fs2;
  bg_frames : frames t2 = If_ d e (pm_len args) (pm_len rs) (pm_len ((base ++ sr) ++ args)) x bt true None :: fs2; bg_tidy : tidy (bld t2);
  bg_run : forall F fuel ws ls regs vars, agrees (bld t1) (bld t2) F -> kept (bld t2) F -> Forall2 (holds (bld t1) regs) args ws -> locals_hold (bld t1) vars ls ->
    result_ok F t1 t2 (enter (KIf same) ps rs :: v' :: vs) ((base ++ sr) ++ args) regs (point F (bld t1) regs vars) (exec fuel thn ws ls) }.
Lemma if_begins bt thn ops t v vs vs' t' f fs under base seg tys : block_ok env validator bt = true -> forallb instr_ok thn = true -> code_ok (flatten thn) (fun fuel => exec fuel thn) ->
  sim t (v :: vs) -> here t f fs v vs under base seg tys -> Forall scalar_frame (v :: vs) -> tidy (bld t) ->
  vsteps (Operator.If bt :: flatten thn ++ ops) (v :: vs) = Some vs' -> trs (Operator.If bt :: flatten thn ++ ops) t = (Ok tt, t') ->
  exists t1 t2 v' v2 same ps rs sr args cv nb d tgt e b1 b2 b3 junk x fs2, seg = sr ++ args ++ [cv] /\ vsteps ops (v2 :: v' :: vs) = Some vs' /\ trs ops t2 = (Ok tt, t') /\
    begun bt thn t t1 t2 v v' v2 vs same ps rs base sr args cv nb d tgt e b1 b2 b3 junk x fs2.
Proof.
  intros Obt Ob Hbody Hsim H Hsc Ht Hv Htr.
  apply vsteps_cons in Hv as (vs1 & Hv1 & Hv). apply trs_cons in Htr as (t1 & Htr1 & Htr). rewrite vsteps_app in Hv. apply bind_Some in Hv as (vs2 & Hv2 & Hv3). apply trs_app in Htr as (t2 & Htr2 & Htr3).
  destruct (block_ok_inv _ _ _ Obt) as (ps & rs & same & Hsig & Hps & Hrs). pose proof Hv1 as Hv1'. apply step_one, vstep_raw_of in Hv1'. lazy [vstep_raw] in Hv1'. rewrite Hsig in Hv1'. cbn in Hv1'.
  apply bind_Some in Hv1' as (w1 & Hp1 & (v' & Hp & [= <-])%bind_Some). destruct (vpop_alive _ _ _ _ (h_alive _ _ _ _ _ _ _ _ _ _ _ _ _ _ H) Hp1) as (r1 & -> & Ha1). destruct (vpops_alive _ _ _ _ Ha1 Hp) as (rest & -> & Har).
  pose proof (proj1 (proj1 (Forall_cons_iff _ _ _) Hsc)) as Hsv. rewrite <- app_assoc in H. destruct (here_typed _ _ _ _ _ _ _ _ _ _ _ _ _ _ _ H Hsv) as (sr & argc & -> & Hty & Hst & Hla & Hsa & Hsr).
  apply Forall2_app_inv_r in Hty as (args & cs & Hty & (cv & -> & Hcv)%one_arg & ->). rewrite (app_assoc (base ++ sr)) in Hst. apply Forall_app in Hsa as [Hsa _].
  assert (same_frame v v') as Hvv by (eapply same_trans; [by eapply vpop_same|by eapply vpops_same]).
  assert (sim t1 (enter (KIf same) ps rs :: v' :: vs)) as Hsim1 by (by eapply sim_steps).
  assert (Forall scalar_frame (enter (KIf same) ps rs :: v' :: vs)) as Hsc1 by (eapply vsteps_scalar; [exact scalar_locals| |exact Hsc|exact Hv1]; by repeat constructor).
  pose proof (pm_len_Forall2 _ _ _ Hty) as Hlp. destruct (if_opens bt ps rs same t t1 (base ++ sr) args cv) as (nb & d & tgt & e & b1 & b2 & b3 & O); try done; [|apply H|].
  { rewrite pm_len_app. pose proof (h_seg _ _ _ _ _ _ _ _ _ _ _ _ _ _ H) as Hs. apply Forall2_app_inv in Hs as [Hs1 Hs]; [|by eapply Forall2_length]. apply Forall2_app_inv in Hs as [Hs2 _]; [|by eapply Forall2_length].
    eapply (if_room _ _ _ _ _ t f fs v v' vs); try done. apply Hsim1. }
  destruct O as [N1 N2 G3 Br El (Ef & Es & Er)]. assert (opened t t1 bt same ps rs (base ++ sr) args cv nb d tgt e b1 b2 b3) as O by (by split).
  destruct (body_done thn t1 _ _ vs2 t2 (If_ d e (pm_len args) (pm_len rs) (pm_len ((base ++ sr) ++ args)) false bt true None) ((base ++ sr) ++ args) args Ob Hbody Hsim1 Hsc1 (proj2 (branched_grows _ _ _ _ _ Br) Ht) Er ltac:(by eexists) Es eq_refl Hv2 Htr2)
    as (v2 & junk & f2 & fs2 & -> & Hsame & Hsim2 & Hsv2 & S2 & Hst2 & Hf2 & M2 & Ht2 & R2).
  assert (exists x, f2 = If_ d e (pm_len args) (pm_len rs) (pm_len ((base ++ sr) ++ args)) x bt true None) as [x ->] by (destruct M2 as [->| ->]; by eexists).
  exists t1, t2, v', v2, same, ps, rs, sr, args, cv, nb, d, tgt, e, b1, b2, b3, junk, x, fs2. split_and!; try done. split; try done.
  - pose proof (sim_stack _ _ _ _ _ _ _ Hsim) as Hb. rewrite Hst, pm_len_snoc in Hb. lia.
  - apply Forall_cons_iff in Hsc1 as [_ Hsc1]. by constructor.
  - pose proof (s_frames _ _ S2) as Hm. rewrite Ef, Hf2 in Hm. by apply Forall2_cons_1 in Hm as [_ ?].
Qed.
Section Begun.
Variables (bt : BlockType) (thn : list instr) (t t1 t2 : TState Rec) (v v' v2 : vframe) (vs : list vframe) (same : bool) (ps rs : list ir.Type_) (base sr args : list Value) (cv : Value)
  (nb d tgt : Block) (e : ElseData) (b1 b2 b3 : Rec) (junk : list Value) (x : bool) (fs2 : list ControlStackFrame).
Hypothesis (B : begun bt thn t t1 t2 v v' v2 vs same ps rs base sr args cv nb d tgt e b1 b2 b3 junk x fs2).
Lemma begun_kept : grows (bld t) (bld t1) /\ grows (bld t1) (bld t2) /\ kept b1 (bld t1) /\ kept b2 (bld t1) /\ kept b3 (bld t1) /\ pm_len (r_insts (bld t1)) = pm_len (r_insts (bld t)) + 1.
Proof.
  destruct B. destruct bg_open0 as [N1 N2 G3 Br _ _]. assert (kept b3 (bld t1)) as K3 by (eapply kept_trans; [apply emit_grows, Br|apply (mv_grows _ _ (bt_moved _ _ _ _ _ Br))]).
  assert (kept b2 (bld t1)) as K2 by (eapply kept_trans; [apply G3|done]). split_and!; try done; [by eapply branched_grows|apply bg_static0| |].
  - eapply kept_trans; [apply (new_block_grows _ _ _ _ N2)|done].
  - by rewrite (branched_insts _ _ _ _ _ Br), pm_len_snoc.
Qed.
Lemma begun_branch F k regs vars z xs : kept (bld t1) F -> pm_get (r_insts F) (pm_len (r_insts (bld t))) = Some (Brif cv nb [] k args, []) -> holds (bld t) regs cv z ->
  Forall2 (holds (bld t) regs) args xs -> steps F (point F (bld t) regs vars) (if z =? 0 then Goto k xs regs vars else point F (bld t1) regs vars).
Proof.
  intros Hk Hi Hz Hx. destruct begun_kept as (_ & _ & K1 & _). pose proof (bg_open _ _ _ _ _ _ _ _ _ _ _ _ _ _ _ _ _ _ _ _ _ _ _ _ _ _ B) as [N1 _ _ Br _ _].
  destruct (branched_next F _ _ _ _ _ regs vars Br Hk) as [rst ->]. eapply steps_one; [exact (step_brif F (bld t) cv _ [] k args [] regs vars z [] xs _ rst Hi Hz ltac:(constructor) Hx)|].
  destruct (z =? 0); [apply rtc_refl|]. eapply (enter_plain F (bld t1) nb b1); [by eapply kept_trans|apply (nb_blk _ _ _ _ N1)|apply Br|apply Br].
Qed.
Lemma begun_then F k fuel regs vars z xs ls : kept (bld t2) F -> agrees (bld t1) (bld t2) F -> pm_get (r_insts F) (pm_len (r_insts (bld t))) = Some (Brif cv nb [] k args, []) -> holds (bld t) regs cv z -> (z =? 0) = false ->
  Forall2 (holds (bld t) regs) args xs -> locals_hold (bld t) vars ls ->
  result_ok F t t2 (enter (KIf same) ps rs :: v' :: vs) ((base ++ sr) ++ args) regs (point F (bld t) regs vars) (exec fuel thn xs ls).
Proof.
  intros Hk Ha Hi Hz Ez Hx Hl. destruct begun_kept as (G1 & G2 & _). assert (kept (bld t1) F) as K1 by (eapply kept_trans; [apply G2|done]). pose proof (begun_branch F k regs vars z xs K1 Hi Hz Hx) as S. rewrite Ez in S.
  eapply result_from; [exact S|apply low_refl|by apply grows_values|]. apply (bg_run _ _ _ _ _ _ _ _ _ _ _ _ _ _ _ _ _ _ _ _ _ _ _ _ _ _ B); try done; [|by eapply locals_kept; [apply G1|]].
  eapply holds_later; [apply G1|apply low_refl|done].
Qed.
Lemma begun_values fuel els regs ws ls : Forall2 (holds (bld t) regs) (sr ++ args ++ [cv]) ws -> exists wsr xs z, Forall2 (holds (bld t) regs) sr wsr /\ Forall2 (holds (bld t) regs) args xs /\ holds (bld t) regs cv z /\ Forall2 in_range ps xs /\
  exec_instr fuel (IIf bt thn els) ws ls = leave wsr (length rs) (exec fuel (if z =? 0 then default [] els else thn) xs ls).
Proof.
  intros Hws. destruct (holds_app _ _ _ _ _ Hws) as (wsr & xc & -> & Hr & Hxc). destruct (holds_app _ _ _ _ _ Hxc) as (xs & zc & -> & Hx & Hc). apply Forall2_cons_inv_l in Hc as (z & ? & Hz & ->%Forall2_nil_inv_l & ->).
  pose proof (holds_ranges _ _ _ _ _ Hx (bg_types _ _ _ _ _ _ _ _ _ _ _ _ _ _ _ _ _ _ _ _ _ _ _ _ _ _ B)) as Hi.
  exists wsr, xs, z. split_and!; try done. cbn [WasmSem.exec_instr]. rewrite app_assoc, (top_n_app (wsr ++ xs) [z] : top_n 1 _ = _). unfold run_block.
  rewrite (arity_sig _ _ _ _ (bg_sig _ _ _ _ _ _ _ _ _ _ _ _ _ _ _ _ _ _ _ _ _ _ _ _ _ _ B)). cbn [fst snd]. by rewrite (Forall2_length Hi), top_n_app.
Qed.
Lemma begun_insts : r_insts (bld t) `prefix_of` r_insts (bld t2) /\ pm_get (r_insts (bld t2)) (pm_len (r_insts (bld t))) = Some (Brif cv nb [] tgt args, []).
Proof.
  destruct B. destruct bg_open0 as [_ _ _ Br _ _]. split; [etrans; [|apply bg_static0]; rewrite (branched_insts _ _ _ _ _ Br); by apply prefix_app_r|].
  eapply prefix_pm_get; [apply bg_static0|by eapply branched_inst].
Qed.
End Begun.
Lemma sig_same bt ps rs : block_sig env validator bt = Some (ps, rs, true) -> ps = rs.
Proof. intros H. destruct (block_sig_inv _ _ _ _ _ _ H) as (wps & wrs & _ & H1 & H2 & E & _). symmetry in E. apply bool_decide_eq_true in E as ->. congruence. Qed.
(** An [if] without [else] has the same parameters and results. *)
Lemma if_none_ok bt thn : block_ok env validator bt = true -> forallb instr_ok thn = true -> code_ok (flatten thn) (fun fuel => exec fuel thn) ->
  code_ok (flatten1 (IIf bt thn None)) (fun fuel => exec_instr fuel (IIf bt thn None)).
Proof.
  intros Obt Ob Hbody t v vs vs' t3 f fs under base seg tys Hsim H Hsc Ht Hv Htr. cbn [flatten1] in Hv, Htr.
  destruct (if_begins bt thn _ t v vs vs' t3 _ _ _ base seg tys Obt Ob Hbody Hsim H Hsc Ht Hv Htr) as (t1 & t2 & v' & v2 & same & ps & rs & sr & args & cv & nb & d & tgt & e & b1 & b2 & b3 & junk & x & fs2 & -> & Hv3 & Htr3 & B).
  destruct (begun_kept _ _ _ _ _ _ _ _ _ _ _ _ _ _ _ _ _ _ _ _ _ _ _ _ _ _ B) as (G1 & G2 & K1 & K2 & K3 & Il). pose proof (begun_insts _ _ _ _ _ _ _ _ _ _ _ _ _ _ _ _ _ _ _ _ _ _ _ _ _ _ B) as [P02 I2].
  pose proof B as [Hsig Hvv Hty O Hroom Hsame Hsim2 Hsc2 S2 Hst2 Hm2 Hf2 Ht2 R2]. destruct O as [N1 N2 G3 Br El Sh]. pose proof (proj1 (proj1 (Forall_cons_iff _ _ _) Hsc2)) as Hsv2.
  assert (same = true) as ->.
  { pose proof Hv3 as Hv4. apply step_one, vstep_raw_of in Hv4. lazy [vstep_raw] in Hv4. apply bind_Some in Hv4 as (w & _ & Hw). rewrite (proj1 Hsame) in Hw. cbn in Hw. destruct same; [done|]. by rewrite andb_false_r in Hw. }
  pose proof (sig_same _ _ _ Hsig) as <-. destruct e as [i p|k]; [|by destruct El]. destruct El as (_ & -> & -> & ->).
  destruct (new_entry _ _ _ _ (bld t2) N2 ltac:(eapply kept_trans; [exact K2|apply S2])) as (Kd & _). assert (v_end v2 = ps) as Evr by apply Hsame.
  assert (left_frame t2 t3 (If_ d (NoElse (pm_len (r_insts (bld t))) d) (pm_len args) (pm_len ps) (pm_len ((base ++ sr) ++ args)) x bt true None) fs2 (base ++ sr) junk ps) as L.
  { rewrite <- Evr. eapply (end_step t2 v2 (v' :: vs) vs' t3 _ fs2 (base ++ sr) args junk); try done; rewrite ?Evr; try done; [unfold under_size; cbn [original_stack_size is_if num_param_values]; rewrite pm_len_app; lia|apply pm_len_nonneg]. }
  assert (kept (bld t) (bld t3)) as K03 by (eapply kept_trans; [apply G1|]; eapply kept_trans; [apply S2|apply L]).
  split; [|split].
  - split; [eapply growth_trans; [exact G1|]; eapply growth_trans; [apply S2|apply L]|etrans; [exact P02|apply L]|]. by rewrite (lf_frames _ _ _ _ _ _ _ L).
  - destruct (left_base _ _ _ _ _ _ _ L) as [j ->]. exists (sr ++ j). by rewrite app_assoc.
  - intros F fuel ws ls regs vars Ha Hk Hws Hls. destruct (begun_values _ _ _ _ _ _ _ _ _ _ _ _ _ _ _ _ _ _ _ _ _ _ _ _ _ _ B fuel None regs ws ls Hws) as (wsr & xs & z & Hwr & Hxs & Hz & Hix & ->).
    assert (kept (bld t2) F) as HK2 by (eapply kept_trans; [apply L|done]). assert (kept (bld t1) F) as HK1 by (eapply kept_trans; [apply S2|done]).
    destruct (agrees_split (bld t) (bld t2) (bld t3) F) as [A02 A23]; [done|apply L|apply L|done|].
    destruct (agrees_split (bld t) (bld t1) (bld t2) F) as [A01 A12]; [rewrite (branched_insts _ _ _ _ _ Br); by apply prefix_app_r|apply S2|apply S2|done|].
    pose proof (agree_inst _ _ _ _ _ A02 ltac:(reflexivity) I2) as Hi.
    apply (result_frame _ _ _ _ v v'); [done|]. eapply (exits_leave F t t3 d ps _ base sr); [|exact K03|done|by eapply grows_values, new_block_grows|exact Hwr|].
    { intros Hr. destruct (left_enters _ _ _ _ _ _ _ _ _ L N2 ltac:(eapply kept_trans; [exact K2|apply S2]) Hr) as [En Es]. split; [done|]. by rewrite Es, app_assoc. }
    destruct (z =? 0) eqn:Ez.
    + pose proof (begun_branch _ _ _ _ _ _ _ _ _ _ _ _ _ _ _ _ _ _ _ _ _ _ _ _ _ _ B F d regs vars z xs HK1 Hi Hz Hxs) as S. rewrite Ez in S. destruct fuel as [|fuel]; cbn [default WasmSem.exec]; [done|].
      split; [by rewrite (lf_reachable _ _ _ _ _ _ _ L), !orb_true_r|]. exists regs, vars. split_and!; [done|exact S|by eapply locals_kept|apply low_refl].
    + change d with (following_code (If_ d (NoElse (pm_len (r_insts (bld t))) d) (pm_len args) (pm_len ps) (pm_len ((base ++ sr) ++ args)) x bt true None)).
      eapply body_exits; [by eapply left_outward|exact Hf2|exact Hst2| |eapply (begun_then _ _ _ _ _ _ _ _ _ _ _ _ _ _ _ _ _ _ _ _ _ _ _ _ _ _ B F d fuel regs vars z xs ls); done]. by repeat case_match.
Qed.
Lemma agrees_within b b' c c' F : agrees b c F -> pm_len (r_insts b) <= pm_len (r_insts b') -> r_insts c' `prefix_of` r_insts c -> r_values c' `prefix_of` r_values c -> agrees b' c' F.
Proof.
  intros [Hi Hv] Hl P V. split; [|by etrans]. intros j Hj. pose proof (prefix_pm_len _ _ P). rewrite Hi by lia. assert (0 <= j) as H0 by (pose proof (pm_len_nonneg (r_insts b')); lia).
  destruct (pm_get_is_Some (r_insts c') j) as [y Hy]; [lia|]. rewrite Hy. by eapply prefix_pm_get.
Qed.
Lemma prefix_of_get {A} (l k : list A) : (forall j x, pm_get l j = Some x -> pm_get k j = Some x) -> l `prefix_of` k.
Proof.
  revert k. induction l as [|y l IH]; intros k H; [apply prefix_nil|]. destruct k as [|y' k]; [by specialize (H 0 y eq_refl)|]. specialize (H 0 y eq_refl) as H0. injection H0 as ->.
  apply prefix_cons, IH. intros j x Hj. pose proof (pm_get_range _ _ _ Hj). specialize (H (j + 1) x). unfold pm_get in *. rewrite (proj2 (Z.leb_le _ _)) in Hj by lia.
  rewrite !(proj2 (Z.leb_le _ _)) in * by lia. replace (Z.to_nat (j + 1)) with (S (Z.to_nat j)) in H by lia. auto.
Qed.
Section Both.
Variables (bt : BlockType) (thn : list instr) (t t1 t2 t3 : TState Rec) (v v' v2 : vframe) (vs : list vframe) (same : bool) (ps rs : list ir.Type_) (base sr args : list Value) (cv : Value)
  (nb d tgt k : Block) (e : ElseData) (b1 b2 b3 : Rec) (junk : list Value) (x : bool) (fs2 : list ControlStackFrame).
Hypothesis (B : begun bt thn t t1 t2 v v' v2 vs same ps rs base sr args cv nb d tgt e b1 b2 b3 junk x fs2) (T : turned t2 t3 d e ps rs junk k).
Abbreviation outer := (pm_len (r_insts (bld t))).
Lemma both_entry : exists b0, entry b0 k ps (bld t3) /\ pm_len (r_values (bld t)) <= pm_len (r_values b0).
Proof.
  destruct (begun_kept _ _ _ _ _ _ _ _ _ _ _ _ _ _ _ _ _ _ _ _ _ _ _ _ _ _ B) as (G1 & G2 & K1 & K2 & K3 & Il). pose proof (op_else _ _ _ _ _ _ _ _ _ _ _ _ _ _ _ _ (bg_open _ _ _ _ _ _ _ _ _ _ _ _ _ _ _ _ _ _ _ _ _ _ _ _ _ _ B)) as El.
  destruct (bg_open _ _ _ _ _ _ _ _ _ _ _ _ _ _ _ _ _ _ _ _ _ _ _ _ _ _ B) as [N1 N2 _ _ _ _].
  destruct T as [G Hc U _ _ Tb _]. destruct e as [i p|k'].
  - destruct Tb as (b & N & K). exists (bld t2). destruct (new_entry _ _ _ _ _ N K) as (Kn & Ep & Ev). split; [by split|]. etrans; by apply grows_values.
  - subst k'. destruct El as (_ & -> & N). exists b2. destruct (new_entry _ _ _ _ (bld t3) N) as (Kn & Ep & Ev); [eapply kept_trans; [exact K3|]; eapply kept_trans; [apply G2|apply G]|].
    split; [by split|]. etrans; by eapply grows_values, new_block_grows.
Qed.
Lemma both_branch : pm_get (r_insts (bld t3)) outer = Some (Brif cv nb [] k args, []).
Proof.
  pose proof (begun_insts _ _ _ _ _ _ _ _ _ _ _ _ _ _ _ _ _ _ _ _ _ _ _ _ _ _ B) as [_ I2]. rewrite (tn_insts _ _ _ _ _ _ _ _ T _ _ I2). destruct (bg_open _ _ _ _ _ _ _ _ _ _ _ _ _ _ _ _ _ _ _ _ _ _ _ _ _ _ B) as [N1 N2 _ _ El _].
  pose proof (tn_block _ _ _ _ _ _ _ _ T) as Tb. destruct e as [i p|k']; [|by destruct El as (_ & -> & _); subst]. destruct El as (_ & -> & -> & ->). cbn. rewrite !bool_decide_eq_true_2 by done. cbn.
  rewrite (bool_decide_eq_true_2 (d = d)) by done. rewrite bool_decide_eq_false_2; [done|]. intros ->. pose proof (nb_fresh _ _ _ _ N2) as E. by rewrite (nb_blk _ _ _ _ N1) in E.
Qed.
Lemma both_insts j y : pm_get (r_insts (bld t2)) j = Some y -> j <> outer -> pm_get (r_insts (bld t3)) j = Some y.
Proof.
  intros Hj Hn. rewrite (tn_insts _ _ _ _ _ _ _ _ T _ _ Hj). pose proof (op_else _ _ _ _ _ _ _ _ _ _ _ _ _ _ _ _ (bg_open _ _ _ _ _ _ _ _ _ _ _ _ _ _ _ _ _ _ _ _ _ _ _ _ _ _ B)) as El.
  destruct e as [i p|k']; [|done]. destruct El as (_ & _ & -> & _). cbn. by rewrite bool_decide_eq_false_2.
Qed.
Lemma both_prefix : r_insts (bld t) `prefix_of` r_insts (bld t3).
Proof.
  apply prefix_of_get. intros j y Hj. pose proof (pm_get_range _ _ _ Hj). apply both_insts; [|lia]. eapply prefix_pm_get; [|exact Hj]. by eapply begun_insts.
Qed.
Lemma both_agrees t5 F : r_insts (bld t3) `prefix_of` r_insts (bld t5) -> r_values (bld t3) `prefix_of` r_values (bld t5) -> agrees (bld t) (bld t5) F -> agrees (bld t1) (bld t2) F /\ agrees (bld t2) (bld t3) F.
Proof.
  intros P V A. destruct (begun_kept _ _ _ _ _ _ _ _ _ _ _ _ _ _ _ _ _ _ _ _ _ _ _ _ _ _ B) as (G1 & G2 & _ & _ & _ & Il). pose proof (prefix_pm_len _ _ (s_insts _ _ (bg_static _ _ _ _ _ _ _ _ _ _ _ _ _ _ _ _ _ _ _ _ _ _ _ _ _ _ B))) as Hl.
  split; [|eapply agrees_within; [exact A|lia|done|done]]. split; [|etrans; [apply (k_values _ _ (proj1 (tn_grows _ _ _ _ _ _ _ _ T)))|]; etrans; [exact V|apply A]].
  intros j Hj. assert (0 <= j) as H0 by (pose proof (pm_len_nonneg (r_insts (bld t1))); lia). destruct (pm_get_is_Some (r_insts (bld t2)) j) as [y Hy]; [lia|]. rewrite Hy.
  eapply agree_inst; [exact A|lia|]. eapply prefix_pm_get; [exact P|]. apply both_insts; [done|lia].
Qed.
End Both.
Lemma if_some_ok bt thn els : block_ok env validator bt = true -> forallb instr_ok thn = true -> forallb instr_ok els = true -> code_ok (flatten thn) (fun fuel => exec fuel thn) ->
  code_ok (flatten els) (fun fuel => exec fuel els) -> code_ok (flatten1 (IIf bt thn (Some els))) (fun fuel => exec_instr fuel (IIf bt thn (Some els))).
Proof.
  intros Obt Ob Oe Hbody Helse t v vs vs' t5 f fs under base seg tys Hsim H Hsc Ht Hv Htr. cbn [flatten1] in Hv, Htr.
  destruct (if_begins bt thn _ t v vs vs' t5 _ _ _ base seg tys Obt Ob Hbody Hsim H Hsc Ht Hv Htr) as (t1 & t2 & v' & v2 & same & ps & rs & sr & args & cv & nb & d & tgt & e & b1 & b2 & b3 & junk & x & fs2 & -> & Hv3 & Htr3 & B).
  destruct (begun_kept _ _ _ _ _ _ _ _ _ _ _ _ _ _ _ _ _ _ _ _ _ _ _ _ _ _ B) as (G1 & G2 & K1 & K2 & K3 & Il). pose proof (begun_insts _ _ _ _ _ _ _ _ _ _ _ _ _ _ _ _ _ _ _ _ _ _ _ _ _ _ B) as [P02 I2].
  pose proof B as [Hsig Hvv Hty O Hroom Hsame Hsim2 Hsc2 S2 Hst2 Hm2 Hf2 Ht2 R2]. pose proof (proj1 (proj1 (Forall_cons_iff _ _ _) Hsc2)) as Hsv2. destruct Hsame as (Ek & Es2 & Ee2).
  apply vsteps_cons in Hv3 as (vs3 & Hv3 & Hv4). apply trs_cons in Htr3 as (t3 & Htr3 & Htr4).
  assert (vs3 = enter KElse ps rs :: v' :: vs) as ->.
  { pose proof Hv3 as Hw. apply step_one, vstep_raw_of in Hw. lazy [vstep_raw] in Hw. rewrite Ek, Es2, Ee2 in Hw. cbn [v_kind v_start v_end enter] in Hw. apply bind_Some in Hw as (w & _ & Hw). case_bool_decide; by simplify_eq. }
  destruct (else_step t2 v2 (v' :: vs) (enter KElse ps rs :: v' :: vs) t3 d e (pm_len args) x bt fs2 ((base ++ sr) ++ args) junk ps rs same) as (k & T & Ef3 & Est3 & Er3); try done.
  { destruct O as [_ _ _ _ El _]. destruct e; [|done]. destruct El as (-> & -> & -> & _). by rewrite I2. }
  assert (sim t3 (enter KElse ps rs :: v' :: vs)) as Hsim3 by (by eapply sim_steps).
  assert (Forall scalar_frame (enter KElse ps rs :: v' :: vs)) as Hsc3 by (eapply vsteps_scalar; [exact scalar_locals| |exact Hsc2|exact Hv3]; by repeat constructor).
  change ((flat_map flatten1 els ++ [Operator.End])) with (flatten els ++ [Operator.End]) in Hv4, Htr4. rewrite vsteps_app in Hv4. apply bind_Some in Hv4 as (vs4 & Hv4 & Hv5). apply trs_app in Htr4 as (t4 & Htr4 & Htr5).
  set (f3 := If_ d e (pm_len args) (pm_len rs) (pm_len ((base ++ sr) ++ args)) x bt true (Some (reachable (st t2)))) in *. assert (pm_len (base ++ sr) = base_size f3) as Hb3 by (unfold f3; cbn [base_size]; rewrite (pm_len_app (base ++ sr) args); lia).
  destruct (body_done els t3 _ _ vs4 t4 f3 (base ++ sr) args Oe Helse Hsim3 Hsc3 (proj2 (tn_grows _ _ _ _ _ _ _ _ T) Ht2) Er3 ltac:(by eexists) Est3 Hb3 Hv4 Htr4)
    as (v4 & junk4 & f4 & fs4 & -> & Hsame4 & Hsim4 & Hsv4 & S4 & Hst4 & Hf4 & M4 & Ht4 & R4).
  destruct (marks_same _ _ M4) as (_ & Efc & Elp & _ & Enp & Eor & Eif & _). cbn in Efc, Elp, Enp, Eor, Eif.
  assert (kept b2 (bld t4)) as K24 by (eapply kept_trans; [exact K2|]; eapply kept_trans; [apply S2|]; eapply kept_trans; [apply (tn_grows _ _ _ _ _ _ _ _ T)|apply S4]).
  pose proof (op_exit _ _ _ _ _ _ _ _ _ _ _ _ _ _ _ _ O) as N2. destruct (new_entry _ _ _ _ (bld t4) N2 K24) as (Kd & _). assert (v_end v4 = rs) as Evr by apply Hsame4.
  assert (left_frame t4 t5 f4 fs4 (base ++ sr) junk4 rs) as L.
  { rewrite <- Evr. eapply (end_step t4 v4 (v' :: vs) vs' t5 _ fs4 (base ++ sr) [] junk4); try done; rewrite ?app_nil_r; try done; [by rewrite (marks_base _ _ M4)|unfold under_size; rewrite Eor, Eif, Enp, (pm_len_app (base ++ sr) args); lia|rewrite Enp; apply pm_len_nonneg|by rewrite Eor|by rewrite Efc]. }
  pose proof (tn_grows _ _ _ _ _ _ _ _ T) as G3. assert (grows (bld t3) (bld t5)) as G35 by (eapply growth_trans; [apply S4|apply L]). assert (r_insts (bld t3) `prefix_of` r_insts (bld t5)) as P35 by (etrans; [apply S4|apply L]).
  assert (grows (bld t) (bld t3)) as G03 by (eapply growth_trans; [exact G1|]; by eapply growth_trans). assert (grows (bld t) (bld t5)) as G05 by (by eapply growth_trans).
  pose proof (both_prefix _ _ _ _ _ _ _ _ _ _ _ _ _ _ _ _ _ _ _ _ _ _ _ _ _ _ _ _ B T) as P03. pose proof (s_frames _ _ S4) as Hm4. rewrite Ef3, Hf4 in Hm4. apply Forall2_cons_1 in Hm4 as [_ Hm4].
  split; [|split].
  - split; [done|by etrans|]. rewrite (lf_frames _ _ _ _ _ _ _ L). by eapply marked_trans.
  - destruct (left_base _ _ _ _ _ _ _ L) as [j ->]. exists (sr ++ j). by rewrite app_assoc.
  - intros F fuel ws ls regs vars Ha Hk Hws Hls. destruct (begun_values _ _ _ _ _ _ _ _ _ _ _ _ _ _ _ _ _ _ _ _ _ _ _ _ _ _ B fuel (Some els) regs ws ls Hws) as (wsr & xs & z & Hwr & Hxs & Hz & Hix & ->).
    assert (kept (bld t4) F) as HK4 by (eapply kept_trans; [apply L|done]). assert (kept (bld t3) F) as HK3 by (eapply kept_trans; [apply G35|done]). assert (kept (bld t2) F) as HK2 by (eapply kept_trans; [apply G3|done]). assert (kept (bld t1) F) as HK1 by (eapply kept_trans; [apply G2|done]).
    destruct (both_agrees _ _ _ _ _ _ _ _ _ _ _ _ _ _ _ _ _ _ _ _ _ _ _ _ _ _ _ _ B T t5 F P35 ltac:(apply G35) Ha) as [A12 A23].
    assert (agrees (bld t3) (bld t5) F) as A35 by (eapply agrees_within; [exact Ha|by apply prefix_pm_len|done|done]). destruct (agrees_split (bld t3) (bld t4) (bld t5) F) as [A34 A45]; [apply S4|apply L|apply L|done|].
    pose proof (agree_inst _ _ _ _ _ Ha ltac:(reflexivity) (prefix_pm_get _ _ _ _ P35 (both_branch _ _ _ _ _ _ _ _ _ _ _ _ _ _ _ _ _ _ _ _ _ _ _ _ _ _ _ _ B T))) as Hi.
    apply (result_frame _ _ _ _ v v'); [done|]. eapply (exits_leave F t t5 d rs _ base sr); [|apply G05|done|by eapply grows_values, new_block_grows, O|exact Hwr|].
    { intros Hr. rewrite <- Efc in N2 |- *. destruct (left_enters _ _ _ _ _ _ _ _ _ L N2 K24 Hr) as [En Es]. split; [done|]. by rewrite Es, app_assoc. }
    destruct (z =? 0) eqn:Ez; cbn [default].
    + pose proof (begun_branch _ _ _ _ _ _ _ _ _ _ _ _ _ _ _ _ _ _ _ _ _ _ _ _ _ _ B F k regs vars z xs HK1 Hi Hz Hxs) as S. rewrite Ez in S.
      destruct (both_entry _ _ _ _ _ _ _ _ _ _ _ _ _ _ _ _ _ _ _ _ _ _ _ _ _ _ _ _ B T) as (b0 & En & Hle). destruct (arrive F b0 k ps (bld t3) xs regs vars En HK3 Hix) as (St & _ & Hb).
      assert (below (pm_len (r_values (bld t))) regs (assign (fresh_values b0 ps) xs regs)) as Hb' by (eapply low_trans; [exact Hle|apply low_refl|exact Hb]).
      rewrite <- Efc. eapply body_exits; [by eapply left_outward|exact Hf4|exact Hst4| |]; [|eapply (result_from _ F t t3 t4); [by eapply steps_trans|exact Hb'|by apply grows_values|]; apply R4; try done].
      * by repeat case_match.
      * eapply holds_later; [apply G03|exact Hb'|done].
      * by eapply locals_kept; [apply G03|].
    + change d with (following_code (If_ d e (pm_len args) (pm_len rs) (pm_len ((base ++ sr) ++ args)) x bt true None)).
      eapply body_exits; [|exact Hf2|exact Hst2| |eapply (begun_then _ _ _ _ _ _ _ _ _ _ _ _ _ _ _ _ _ _ _ _ _ _ _ _ _ _ B F k fuel regs vars z xs ls); done]; [|by repeat case_match].
      split; [by eapply growth_trans|by rewrite (lf_frames _ _ _ _ _ _ _ L)| |].
      * intros E. rewrite (lf_reachable _ _ _ _ _ _ _ L), (marks_exit f3 f4 M4 E). by rewrite orb_true_r.
      * intros E. split; [rewrite (lf_reachable _ _ _ _ _ _ _ L); unfold f3 in M4; rewrite E in M4; destruct M4 as [->| ->]; cbn; by rewrite !orb_true_r|].
        intros regs' vars' ws' Hws'. by apply (tn_jump _ _ _ _ _ _ _ _ T E F).
Qed.

(** ** All code *)
Lemma code_ok_all code : forallb instr_ok code = true -> code_ok (flatten code) (fun fuel => exec fuel code).
Proof.
  apply (code_ind (fun i => instr_ok i = true -> code_ok (flatten1 i) (fun fuel => exec_instr fuel i)) (fun code => forallb instr_ok code = true -> code_ok (flatten code) (fun fuel => exec fuel code))); clear code.
  - intros _. apply nil_ok.
  - intros i code Hi Hc [Oi Oc]%andb_true_iff. by apply cons_ok; auto.
  - intros op Ho. by apply plain_ok.
  - intros bt body Hb [Obt Ob]%andb_true_iff. apply block_code_ok; auto.
  - intros bt body Hb [Obt Ob]%andb_true_iff. apply loop_code_ok; auto.
  - intros bt thn els Ht He [[Obt Ob]%andb_true_iff Oe]%andb_true_iff. destruct els as [els|]; [apply if_some_ok|apply if_none_ok]; auto.
  - intros l _. apply br_ok; done.
  - intros l _. apply br_if_ok; done.
  - intros _. apply return_ok; done.
  - intros _. apply unreachable_ok; done.
Qed.
End Blocks.
