(* ===== verification/Trampoline.v ===== *)
(** * Trampolines: their code and what it does

    A trampoline is a function of a single block.  Its code, as the recording
    builder sees it, is run on a thread: registers hold the bits of values, calls
    of wasm functions are a parameter. *)
From stdpp Require Import base list gmap option numbers.
From S2P Require Import Prelude Types Trap Module ModuleTypes VMVal VMOffsets Mmap RtMemory VMHeap BTree Code Instance TrapHandling HeapAccess Clif ClifLaws FuncState WasmOp FuncEnv FuncTranslator Compiler RecBuilder RecBuilderLaws.
Local Open Scope Z_scope.

(** ** Running straight-line code *)
Abbreviation registers := (gmap Z Z).
Section Machine.
(** The frame the code runs in, what its traps and its calls do. *)
Context (frame_pointer return_address : Z) (trap : Z -> SM Thread Z unit).
Context (wasm_function : Z -> list Z -> SM Thread Z (list Z)).
Abbreviation M := (SM Thread Z).

Definition reg (regs : registers) (v : Value) : M Z := sm_lift (unwrap (regs !! v)).
Definition load_bits (ty : ir.Type_) (a : Z) : M Z := fun t =>
  (read_le (Z.to_nat (ir.bytes ty)) (heap_read a (Z.to_nat (ir.bytes ty)) (mem t)), t).
Definition store_bits (ty : ir.Type_) (a x : Z) : M unit := fun t =>
  (Ok tt, mkThread (tls t) (states t) (heap_write a (word (Z.to_nat (ir.bytes ty)) x) (mem t))).
Definition compare_imm (cc : IntCC.t) (x imm : Z) : option Z :=
  match cc with
  | IntCC.Equal => Some (Z.b2z (x =? imm))
  | IntCC.UnsignedGreaterThanOrEqual => Some (Z.b2z (imm <=? x))
  | _ => None
  end.

Definition exec_inst (f : Rec) (i : InstData) (regs : registers) : M (list Z) :=
  match i with
  | LoadOp ir.Load ty _ addr o => a ← reg regs addr; x ← load_bits ty (a + o); mret [x]
  | StoreOp ir.Store _ val addr o =>
      x ← reg regs val; a ← reg regs addr; ty ← sm_lift (unwrap (val_type f val)); _ ← store_bits ty (a + o) x; mret []
  | Op ir.GetFramePointer _ _ _ => mret [frame_pointer]
  | Op ir.GetReturnAddress _ _ _ => mret [return_address]
  | IcmpImm cc x imm => x ← reg regs x; r ← sm_lift (unwrap (compare_imm cc x imm)); mret [r]
  | Trapz c code => c ← reg regs c; _ ← (if c =? 0 then trap code else mret tt); mret []
  | CallOp callee args =>
      fn ← sm_lift (unwrap (pm_get (r_funcs f) callee));
      args ← sm_lift (unwrap (mapM (regs !!.) args));
      wasm_function (ir.ef_index fn) args
  | _ => sm_lift Panic
  end.
Definition assign (vs : list Value) (xs : list Z) (regs : registers) : registers := list_to_map (zip vs xs) ∪ regs.
Fixpoint exec_insts (f : Rec) (l : list (InstData * list Value)) (regs : registers) : M registers :=
  match l with
  | [] => mret regs
  | (i, rs) :: l => xs ← exec_inst f i regs; exec_insts f l (assign rs xs regs)
  end.
(** A function whose only block ends with a return. *)
Definition run_function (f : Rec) (args : list Z) : M (list Z) :=
  entry ← sm_lift (unwrap (r_entry f));
  let regs := assign (fst <$> blk_params f entry) args ∅ in
  match list.last (r_insts f) with
  | Some (Return_ vs, _) =>
      regs ← exec_insts f (removelast (r_insts f)) regs;
      sm_lift (unwrap (mapM (regs !!.) vs))
  | _ => sm_lift Panic
  end.
End Machine.

(** ** The code of a trampoline *)
Section Code.
Context `{TrapCodes} (dbg : bool).
Definition val_ids (n : Z) (k : nat) : list Value := (fun i => n + Z.of_nat i) <$> seq 0 k.
Definition capacity_check (n len : Z) (capacity : Value) : list (InstData * list Value) :=
  if dbg then [(IcmpImm IntCC.UnsignedGreaterThanOrEqual capacity len, [n]); (Trapz n TRAP_INTERNAL_ASSERT, [])] else [].
Definition kind_check (n : Z) (vmctx : Value) : list (InstData * list Value) :=
  if dbg then
    [(LoadOp ir.Load ir.I32 (ir.with_little ir.trusted) vmctx 0, [n]); (IcmpImm IntCC.Equal n VMCONTEXT_MAGIC, [n + 1]); (Trapz (n + 1) TRAP_INTERNAL_ASSERT, [])]
  else [].
Fixpoint load_code (n i : Z) (tys : list ir.Type_) (ptr : Value) : list (InstData * list Value) :=
  match tys with
  | [] => []
  | ty :: tys => (LoadOp ir.Load ty array_flags ptr (16 * i), [n]) :: load_code (n + 1) (i + 1) tys ptr
  end.
Fixpoint store_code (i : Z) (vs : list Value) (ptr : Value) : list (InstData * list Value) :=
  match vs with
  | [] => []
  | v :: vs => (StoreOp ir.Store array_flags v ptr (16 * i), []) :: store_code (i + 1) vs ptr
  end.
(** The numbers values get: four parameters, the check, the arguments, the check
    of the context, the frame pointer, the results. *)
Definition d1 : Z := if dbg then 1 else 0.
Definition arg_start : Z := 4 + d1.
Definition fp_id (ps : list ir.Type_) : Z := arg_start + pm_len ps + 2 * d1.
Definition trampoline_code (ps rs : list ir.Type_) : list (InstData * list Value) :=
  let results := val_ids (fp_id ps + 1) (length rs) in
  capacity_check 4 (pm_len ps) 3 ++ load_code arg_start 0 ps 2 ++
  kind_check (arg_start + pm_len ps) 0 ++
  [(Op ir.GetFramePointer (Some pointer_type) [] [], [fp_id ps]); (StoreOp ir.Store ir.trusted (fp_id ps) 0 48, []);
   (CallOp 0 (0 :: 1 :: val_ids arg_start (length ps)), results)] ++
  capacity_check (fp_id ps + 1 + pm_len rs) (pm_len rs) 3 ++ store_code 0 results 2 ++ [(Return_ [], [])].
Definition trampoline_values (ps rs : list ir.Type_) : list ir.Type_ :=
  replicate 4 ir.I64 ++ (if dbg then [ir.I8] else []) ++ ps ++ (if dbg then [ir.I32; ir.I8] else []) ++ [ir.I64] ++ rs ++ (if dbg then [ir.I8] else []).
End Code.

(** ** Trampolines: what the compiler emits *)

(** ** A function of one block under construction *)
Section Emit.
Context `{TrapCodes} (dbg : bool) (s : FuncTranslationState).
Context (sig : ir.Signature).
Abbreviation M := (SM (TState Rec) Error).

Definition in_order (n : nat) : list (option Block * Event) := (fun k => (Some 0, EInst k)) <$> val_ids 0 n.
Definition St (insts : list (InstData * list Value)) (vals : list ir.Type_) (sigs : list ir.Signature) (funcs : list ir.ExtFuncData) : Rec :=
  mkRec sig (Some 0) (match insts with [] => None | _ => Some 0 end)
    {[ 0 := mkBlk (zip (val_ids 0 (length (ir.params sig))) (param_types (ir.params sig))) false true ]} vals insts ∅ sigs funcs (in_order (length insts)).

Lemma fresh_ids b ts : fresh_values b ts = val_ids (pm_len (r_values b)) (length ts).
Proof. unfold fresh_values, val_ids, pm_len. apply list_fmap_ext. intros i x _. lia. Qed.
Lemma val_ids_cons n k : val_ids n (S k) = n :: val_ids (n + 1) k.
Proof.
  unfold val_ids. cbn [seq fmap list_fmap]. f_equal; [lia|]. rewrite <- seq_shift, <- list_fmap_compose. apply list_fmap_ext. intros i x _. cbn. lia.
Qed.
Lemma val_ids_length n k : length (val_ids n k) = k.
Proof. unfold val_ids. by rewrite length_fmap, length_seq. Qed.

Lemma pm_len_ids n k : pm_len (val_ids n k) = Z.of_nat k.
Proof. unfold pm_len. by rewrite val_ids_length. Qed.

Lemma in_order_snoc {A} (l : list A) x : in_order (length (l ++ [x])) = in_order (length l) ++ [(Some 0, EInst (pm_len l))].
Proof. unfold in_order, val_ids, pm_len. rewrite length_app, Nat.add_1_r, seq_S, !fmap_app. done. Qed.
Lemma build_St i insts vals sigs funcs ts : is_terminator i = false -> check_inst (St insts vals sigs funcs) i = Some ts ->
  build i (St insts vals sigs funcs) = (Ok (pm_len insts), St (insts ++ [(i, val_ids (pm_len vals) (length ts))]) (vals ++ ts) sigs funcs).
Proof.
  intros Ht Hc. cbn [build rec_builder]. rewrite Hc. change (is_open (St insts vals sigs funcs)) with true. cbn [r_insts St returns]. f_equal.
  unfold log, add_inst. rewrite fresh_ids. unfold fill, insert, set_values, set_insts, set_entry, St. rewrite in_order_snoc. cbn [r_trace r_sig r_current r_entry r_blocks r_values r_insts r_vars r_sigs r_funcs].
  rewrite Ht. destruct insts; reflexivity.
Qed.
Lemma insi_St i insts vals sigs funcs ts : is_terminator i = false -> check_inst (St insts vals sigs funcs) i = Some ts ->
  insi i (mkT (St insts vals sigs funcs) s) = (Ok (pm_len insts), mkT (St (insts ++ [(i, val_ids (pm_len vals) (length ts))]) (vals ++ ts) sigs funcs) s).
Proof. intros Ht Hc. unfold insi, onb. cbn [bld st]. by rewrite (build_St _ _ _ _ _ _ Ht Hc). Qed.
Lemma results_last insts i vs vals sigs funcs : inst_results (St (insts ++ [(i, vs)]) vals sigs funcs) (pm_len insts) = vs.
Proof. cbn [inst_results rec_builder r_insts St]. change (insts ++ [(i, vs)]) with (pm_push insts (i, vs)). by rewrite pm_get_push_new. Qed.
Lemma ins1_St i insts vals sigs funcs t : is_terminator i = false -> check_inst (St insts vals sigs funcs) i = Some [t] ->
  ins1 i (mkT (St insts vals sigs funcs) s) = (Ok (pm_len vals), mkT (St (insts ++ [(i, [pm_len vals])]) (vals ++ [t]) sigs funcs) s).
Proof.
  intros Ht Hc. unfold ins1. rewrite (sm_step _ _ _ _ _ (insi_St _ _ _ _ _ _ Ht Hc)). unfold mbind, sm_bind, query. cbn [bld].
  rewrite results_last. cbn. by rewrite Z.add_0_r.
Qed.

(** ** The parts *)
Lemma builder_St : builder (mkT (start sig) s) = (Ok 0, mkT (St [] (param_types (ir.params sig)) [] []) s).
Proof.
  set (b1 := set_blocks (<[0 := mkBlk [] false false]> ∅) (start sig)).
  assert (append_block_params_for_function_params 0 b1 = (Ok tt, mkRec sig None None
    {[ 0 := mkBlk (zip (val_ids 0 (length (ir.params sig))) (param_types (ir.params sig))) false false ]} (param_types (ir.params sig)) [] ∅ [] [] [])) as Ha.
  { cbn [append_block_params_for_function_params rec_builder]. change (bool_decide _ && _ && _) with true. unfold returns, add_params. rewrite fresh_ids.
    change (pm_len (r_values b1)) with 0. change (r_sig b1) with sig. replace (length (param_types (ir.params sig))) with (length (ir.params sig)) by (unfold param_types; by rewrite length_fmap). reflexivity. }
  unfold builder. unfold mbind at 1, sm_bind. change (onb create_block (mkT (start sig) s)) with (Ok (E:=Error) 0, mkT b1 s).
  unfold onb, mbind, sm_bind. cbn [bld st]. rewrite Ha. reflexivity.
Qed.

Lemma slot_offset_ok {E} i : 0 <= i -> i * 16 < 2 ^ 31 -> slot_offset (E:=E) i = Ok (16 * i).
Proof.
  intros H0 H1. unfold slot_offset, value_size. rewrite wrap_small by lia. rewrite (proj2 (Z.ltb_lt _ _)) by lia. cbn. f_equal. lia.
Qed.
Lemma capacity_St insts vals sigs funcs len cap : pm_get vals cap = Some ir.I64 ->
  debug_assert_enough_capacity_for_length dbg len cap (mkT (St insts vals sigs funcs) s) =
    (Ok tt, mkT (St (insts ++ capacity_check dbg (pm_len vals) len cap) (vals ++ (if dbg then [ir.I8] else [])) sigs funcs) s).
Proof.
  intros Hc. unfold debug_assert_enough_capacity_for_length, capacity_check. destruct dbg; [|by rewrite !app_nil_r].
  erewrite sm_step; [|apply (ins1_St _ _ _ _ _ ir.I8); [done|]; cbn; unfold val_type; cbn [r_values St]; by rewrite Hc].
  erewrite sm_step; [|apply (insi_St _ _ _ _ _ []); [done|]; cbn; unfold val_type; cbn [r_values St];
    change (vals ++ [ir.I8]) with (pm_push vals ir.I8); by rewrite pm_get_push_new].
  cbn. by rewrite <- app_assoc, app_nil_r.
Qed.
Lemma kind_St insts vals sigs funcs vmctx : pm_get vals vmctx = Some ir.I64 ->
  debug_assert_vmctx_kind dbg vmctx VMCONTEXT_MAGIC (mkT (St insts vals sigs funcs) s) =
    (Ok tt, mkT (St (insts ++ kind_check dbg (pm_len vals) vmctx) (vals ++ (if dbg then [ir.I32; ir.I8] else [])) sigs funcs) s).
Proof.
  intros Hc. unfold debug_assert_vmctx_kind, kind_check. destruct dbg; [|by rewrite !app_nil_r].
  erewrite sm_step; [|apply (ins1_St _ _ _ _ _ ir.I32); [done|]; cbn; unfold is_i64, val_type; cbn [r_values St]; by rewrite Hc].
  erewrite sm_step; [|apply (ins1_St _ _ _ _ _ ir.I8); [done|]; cbn; unfold val_type; cbn [r_values St]; change (vals ++ [ir.I32]) with (pm_push vals ir.I32); by rewrite pm_get_push_new].
  erewrite sm_step; [|apply (insi_St _ _ _ _ _ []); [done|]; cbn; unfold val_type; cbn [r_values St];
    change ((vals ++ [ir.I32]) ++ [ir.I8]) with (pm_push (vals ++ [ir.I32]) ir.I8); by rewrite pm_get_push_new].
  cbn. by rewrite pm_len_snoc, <- !app_assoc, app_nil_r.
Qed.

Lemma load_St ptr tys irs : forall i insts vals sigs funcs, mapO (E:=Error) value_type tys = Ok irs -> pm_get vals ptr = Some ir.I64 ->
  0 <= i -> (i + pm_len irs) * 16 < 2 ^ 31 ->
  load_values i tys ptr (mkT (St insts vals sigs funcs) s) =
    (Ok (val_ids (pm_len vals) (length irs)), mkT (St (insts ++ load_code (pm_len vals) i irs ptr) (vals ++ irs) sigs funcs) s).
Proof.
  revert irs. induction tys as [|ty tys IH]; intros irs i insts vals sigs funcs.
  - intros [= <-] _ _ _. cbn. by rewrite !app_nil_r.
  - intros (t & Ht & (ts & Hts & [= <-])%bind_ok)%bind_ok Hp H0 Hi. unfold pm_len in Hi. cbn [length] in Hi. cbn [load_values].
    rewrite (sm_lift_step _ _ _ _ Ht), (sm_lift_step _ _ _ _ (slot_offset_ok i H0 ltac:(lia))).
    erewrite sm_step; [|apply (ins1_St _ _ _ _ _ t); [done|]; cbn; unfold is_i64, val_type; cbn [r_values St]; by rewrite Hp].
    erewrite sm_step; [|apply (IH ts); [done|by apply pm_get_app_l|lia|unfold pm_len; lia]].
    cbn [load_code length]. rewrite val_ids_cons, pm_len_snoc, <- !app_assoc. done.
Qed.
Lemma store_St ptr vs : forall i insts vals sigs funcs, Forall (fun v => is_Some (pm_get vals v)) vs -> pm_get vals ptr = Some ir.I64 ->
  0 <= i -> (i + pm_len vs) * 16 < 2 ^ 31 ->
  store_values i vs ptr (mkT (St insts vals sigs funcs) s) = (Ok tt, mkT (St (insts ++ store_code i vs ptr) vals sigs funcs) s).
Proof.
  induction vs as [|v vs IH]; intros i insts vals sigs funcs Hv Hp H0 Hi; cbn [store_values store_code]; [by rewrite app_nil_r|].
  apply Forall_cons_iff in Hv as [[t Ht] Hv]. unfold pm_len in Hi. cbn [length] in Hi. rewrite (sm_lift_step _ _ _ _ (slot_offset_ok i H0 ltac:(lia))).
  erewrite sm_step; [|apply (insi_St _ _ _ _ _ []); [done|]; cbn; unfold is_i64, val_type; cbn [r_values St]; by rewrite Ht, Hp]. cbn [length].
  rewrite app_nil_r. erewrite IH by (done || lia || (unfold pm_len; lia)). by rewrite <- app_assoc.
Qed.

(** The function after its return. *)
Definition Done (insts : list (InstData * list Value)) (vals : list ir.Type_) (sigs : list ir.Signature) (funcs : list ir.ExtFuncData) : Rec :=
  mkRec sig (Some 0) (Some 0)
    {[ 0 := mkBlk (zip (val_ids 0 (length (ir.params sig))) (param_types (ir.params sig))) true true ]} vals insts ∅ sigs funcs (in_order (length insts)).
Lemma return_St insts vals sigs funcs : ir.returns sig = [] ->
  insi (Return_ []) (mkT (St insts vals sigs funcs) s) = (Ok (pm_len insts), mkT (Done (insts ++ [(Return_ [], [])]) vals sigs funcs) s).
Proof.
  intros Hr. unfold insi, onb. cbn [bld st]. cbn [build rec_builder]. cbn [check_inst]. change (r_sig (St insts vals sigs funcs)) with sig. assert (args_match (St insts vals sigs funcs) [] (param_types (ir.returns sig)) = true) as ->.
  { rewrite Hr. done. }
  cbn [guard_types]. change (is_open (St insts vals sigs funcs)) with true. unfold returns. cbn [fst snd r_insts St]. do 2 f_equal.
  unfold log, add_inst. rewrite fresh_ids. unfold fill, insert, set_values, set_insts, set_entry, St, Done, on_block, set_blocks. rewrite in_order_snoc.
  cbn [r_trace r_sig r_current r_entry r_blocks r_values r_insts r_vars r_sigs r_funcs is_terminator length]. rewrite app_nil_r. destruct insts; reflexivity.
Qed.
Lemma finalize_Done insts vals sigs funcs : onb finalize (mkT (Done insts vals sigs funcs) s) = (Ok tt, mkT (Done insts vals sigs funcs) s).
Proof. unfold onb. cbn [bld st finalize rec_builder]. unfold Done at 2. cbn [r_blocks]. rewrite map_to_list_singleton. reflexivity. Qed.

Definition abi (t : ir.Type_) : ir.AbiParam := ir.mkAbiParam t ir.Normal.
Definition wasm_sig (ps rs : list ir.Type_) : ir.Signature := ir.mkSignature (blank_sig ++ (abi <$> ps)) (abi <$> rs).
Lemma call_St insts vals ps rs index args : Forall2 (fun v t => pm_get vals v = Some t) args (ir.I64 :: ir.I64 :: ps) ->
  declare_and_call (wasm_sig ps rs) index args (mkT (St insts vals [] []) s) =
    (Ok (pm_len insts), mkT (St (insts ++ [(CallOp 0 args, val_ids (pm_len vals) (length rs))]) (vals ++ rs) [wasm_sig ps rs] [ir.mkExtFunc NS_WASM_FUNC index 0 true]) s).
Proof.
  intros Ha. unfold declare_and_call. erewrite sm_step by reflexivity. erewrite sm_step by reflexivity.
  assert (check_inst (St insts vals [wasm_sig ps rs] [ir.mkExtFunc NS_WASM_FUNC index 0 true]) (CallOp 0 args) = Some rs) as Hc.
  { cbn [check_inst]. change (pm_get (r_funcs _) 0) with (Some (ir.mkExtFunc NS_WASM_FUNC index 0 true)). cbn [mbind option_bind ir.ef_signature].
    change (pm_get (r_sigs _) 0) with (Some (wasm_sig ps rs)). cbn [mbind option_bind]. rewrite (args_match_ok _ args (param_types (ir.params (wasm_sig ps rs)))).
    - cbn [guard_types]. f_equal. unfold param_types, wasm_sig. cbn [ir.returns]. rewrite <- list_fmap_compose. apply list_fmap_id.
    - unfold param_types, wasm_sig. cbn [ir.params blank_sig app fmap list_fmap]. rewrite <- list_fmap_compose.
      replace (ir.value_type ∘ abi <$> ps) with ps by (symmetry; apply list_fmap_id). exact Ha. }
  exact (insi_St (CallOp 0 args) insts vals [wasm_sig ps rs] [ir.mkExtFunc NS_WASM_FUNC index 0 true] rs eq_refl Hc).
Qed.

(** The array of arguments and results. *)
Lemma array_load_St tys irs ptr cap insts vals sigs funcs : mapO (E:=Error) value_type tys = Ok irs -> pm_get vals ptr = Some ir.I64 -> pm_get vals cap = Some ir.I64 ->
  pm_len irs * 16 < 2 ^ 31 ->
  let vals' := vals ++ (if dbg then [ir.I8] else []) in
  load_values_from_array dbg tys ptr cap (mkT (St insts vals sigs funcs) s) =
    (Ok (val_ids (pm_len vals') (length irs)),
     mkT (St (insts ++ capacity_check dbg (pm_len vals) (pm_len irs) cap ++ load_code (pm_len vals') 0 irs ptr) (vals' ++ irs) sigs funcs) s).
Proof.
  intros Ht Hp Hc Hl vals'. unfold load_values_from_array. rewrite (sm_step _ _ _ _ _ (capacity_St insts vals sigs funcs (pm_len tys) cap Hc)). fold vals'.
  rewrite (load_St ptr tys irs) by (done || lia || by apply pm_get_app_l). rewrite <- app_assoc.
  replace (pm_len tys) with (pm_len irs) by (unfold pm_len; apply mapO_ok, Forall2_length in Ht; lia). done.
Qed.
Lemma array_store_St tys vs ptr cap insts vals sigs funcs : length tys = length vs -> Forall (fun v => is_Some (pm_get vals v)) vs ->
  pm_get vals ptr = Some ir.I64 -> pm_get vals cap = Some ir.I64 -> pm_len vs * 16 < 2 ^ 31 ->
  let vals' := vals ++ (if dbg then [ir.I8] else []) in
  store_values_to_array dbg tys vs ptr cap (mkT (St insts vals sigs funcs) s) =
    (Ok tt, mkT (St (insts ++ capacity_check dbg (pm_len vals) (pm_len vs) cap ++ store_code 0 vs ptr) vals' sigs funcs) s).
Proof.
  intros Hlen Hv Hp Hc Hl vals'. unfold store_values_to_array. replace (pm_len tys) with (pm_len vs) by (unfold pm_len; lia). rewrite Z.eqb_refl.
  rewrite (sm_lift_step _ _ _ _ (debug_assert_true dbg)). rewrite (sm_step _ _ _ _ _ (capacity_St insts vals sigs funcs (pm_len vs) cap Hc)). fold vals'.
  rewrite (store_St ptr vs); [by rewrite <- app_assoc| |by apply pm_get_app_l|lia|lia].
  eapply Forall_impl; [|exact Hv]. intros v [t Hvt]. exists t. by apply pm_get_app_l.
Qed.
End Emit.

(** ** The whole trampoline *)
Section Whole.
Context `{TrapCodes} (dbg : bool) (s : FuncTranslationState).
Abbreviation ST := (St array_call_signature).
Lemma vals_get (l : list ir.Type_) (i : Z) t : 0 <= i -> l !! Z.to_nat i = Some t -> pm_get l i = Some t.
Proof. intros Hi Hl. unfold pm_get. by rewrite (proj2 (Z.leb_le _ _)) by lia. Qed.
Lemma ids_typed (pre ts post : list ir.Type_) : Forall2 (fun v t => pm_get (pre ++ ts ++ post) v = Some t) (val_ids (pm_len pre) (length ts)) ts.
Proof.
  apply Forall2_same_length_lookup_2; [apply val_ids_length|]. intros i v t Hv Ht. unfold val_ids in Hv. apply list_lookup_fmap_Some in Hv as (j & -> & Hj).
  apply lookup_seq in Hj as [-> Hi]. apply vals_get; [unfold pm_len; lia|]. unfold pm_len. rewrite lookup_app_r by lia.
  replace (Z.to_nat _ - length pre)%nat with i by lia. by apply lookup_app_l_Some.
Qed.
Lemma wasm_call_signature_ok ty ps rs : mapO (E:=Error) value_type (fn_params ty) = Ok ps -> mapO (E:=Error) value_type (fn_results ty) = Ok rs ->
  wasm_call_signature (E:=Error) ty = Ok (wasm_sig ps rs).
Proof.
  assert (forall tys ts, mapO (E:=Error) value_type tys = Ok ts -> mapO (E:=Error) (fun ty => t ← value_type ty; Ok (ir.mkAbiParam t ir.Normal)) tys = Ok (abi <$> ts)) as Hm.
  { induction tys as [|ty' tys IH]; intros ts; cbn [mapO]; [by intros [= <-]|]. intros (t & -> & (ts' & Hts & [= <-])%bind_ok)%bind_ok. cbn [mbind outcome_bind]. by rewrite (IH _ Hts). }
  intros Hp Hr. unfold wasm_call_signature. rewrite (Hm _ _ Hp). cbn [mbind outcome_bind]. by rewrite (Hm _ _ Hr).
Qed.

Lemma trampoline_emitted offsets ty ps rs index : ptr_size offsets = 8 ->
  mapO (E:=Error) value_type (fn_params ty) = Ok ps -> mapO (E:=Error) value_type (fn_results ty) = Ok rs -> pm_len ps * 16 < 2 ^ 31 -> pm_len rs * 16 < 2 ^ 31 ->
  array_to_wasm_trampoline_body dbg offsets ty (wasm_sig ps rs) index (mkT (start array_call_signature) s) =
    (Ok tt, mkT (Done array_call_signature (trampoline_code dbg ps rs) (trampoline_values dbg ps rs) [wasm_sig ps rs] [ir.mkExtFunc NS_WASM_FUNC index 0 true]) s).
Proof.
  intros Ho Hp Hr Hlp Hlr. assert (vmctx_last_wasm_entry_fp (E:=Error) offsets = Ok 48) as Hoff by (destruct offsets as [p]; cbn in Ho; subst; by vm_compute).
  assert (length (fn_results ty) = length rs) as Lr by (apply mapO_ok, Forall2_length in Hr; done).
  unfold array_to_wasm_trampoline_body. rewrite (sm_step _ _ _ _ _ (builder_St s array_call_signature)).
  erewrite sm_step by reflexivity. rewrite (sm_lift_step _ _ _ 0) by reflexivity. rewrite (sm_lift_step _ _ _ 1) by reflexivity.
  rewrite (sm_lift_step _ _ _ 2) by reflexivity. rewrite (sm_lift_step _ _ _ 3) by reflexivity.
  erewrite sm_step by (apply (array_load_St dbg s array_call_signature (fn_params ty) ps); [done|reflexivity|reflexivity|done]).
  set (v1 := param_types (ir.params array_call_signature) ++ _). cbn [app]. erewrite sm_step by (apply kind_St; by do 2 apply pm_get_app_l).
  set (v2 := (v1 ++ ps) ++ _).
  erewrite sm_step by (apply (ins1_St s array_call_signature _ _ _ _ _ ir.I64); reflexivity).
  rewrite (sm_lift_step _ _ _ _ Hoff).
  assert (pm_get v1 0 = Some ir.I64 /\ pm_get v1 1 = Some ir.I64 /\ pm_get v1 2 = Some ir.I64 /\ pm_get v1 3 = Some ir.I64) as (G0 & G1 & G2 & G3).
  { repeat split; by apply pm_get_app_l. }
  assert (forall v t post, pm_get v1 v = Some t -> pm_get (v2 ++ post) v = Some t) as Hv2 by (intros v t post Hv; by do 3 apply pm_get_app_l).
  erewrite sm_step; [|apply (insi_St s array_call_signature _ _ _ _ _ []); [done|]; cbn [check_inst]; unfold is_i64, val_type; cbn [r_values St];
    rewrite (Hv2 0 _ _ G0); change (v2 ++ [ir.I64]) with (pm_push v2 ir.I64); by rewrite pm_get_push_new].
  rewrite app_nil_r. erewrite sm_step.
  2: { apply call_St. constructor; [by apply Hv2|]. constructor; [by apply Hv2|]. unfold v2. rewrite <- !app_assoc. apply ids_typed. }
  erewrite sm_step by (unfold query; cbn [bld]; rewrite results_last; reflexivity).
  erewrite sm_step; [|apply array_store_St; [by rewrite val_ids_length| |by rewrite <- app_assoc; apply Hv2|by rewrite <- app_assoc; apply Hv2|unfold pm_len in *; by rewrite val_ids_length]].
  2: { pose proof (ids_typed (v2 ++ [ir.I64]) rs []) as Hi. rewrite app_nil_r in Hi. apply Forall_lookup. intros i v Hv. destruct (Forall2_lookup_l _ _ _ _ _ Hi Hv) as (t & _ & Ht). by exists t. }
  erewrite sm_step by (by apply return_St). rewrite finalize_Done.
  assert (pm_len v1 = arg_start dbg) as L1 by (unfold v1, arg_start, d1; by destruct dbg). assert (pm_len (v1 ++ ps) = arg_start dbg + pm_len ps) as L2 by (by rewrite pm_len_app, L1).
  assert (pm_len v2 = fp_id dbg ps) as L3 by (unfold v2; rewrite pm_len_app, L2; unfold fp_id, d1; destruct dbg; [change (pm_len [ir.I32; ir.I8]) with 2|change (pm_len (V:=ir.Type_) []) with 0]; lia).
  do 3 f_equal; unfold trampoline_code, trampoline_values; rewrite ?pm_len_snoc.
  - rewrite (pm_len_app (v2 ++ [ir.I64])), pm_len_snoc, L1, L2, L3. unfold pm_len at 1. rewrite (pm_len_ids (fp_id dbg ps + 1) (length rs)), <- !app_assoc. done.
  - unfold v2, v1. by rewrite <- !app_assoc.
Qed.
End Whole.
