(* ===== verification/TrampolineSpec.v ===== *)
(** * Trampolines: theorems

    The trampoline compiled for a wasm function makes it callable from the host:
    what it does, as an equation between what the trampoline and what the function
    do to the thread.  Together with the theorem on host calls this covers a call
    from the host down to the wasm function. *)
From stdpp Require Import base list gmap option numbers.
From S2P Require Import Prelude Types Trap Module ModuleTypes TypeRegistry VMOffsets VMVal Mmap RtMemory VMHeap BTree Code Instance InstanceInit Store HeapAccess Clif ClifLaws FuncState WasmOp FuncEnv FuncTranslator TrapHandling TrapHandlingSpec Call CallSpec Compiler RecBuilder RecBuilderLaws Trampoline.
Local Open Scope Z_scope.

(** ** Values as bits *)
Definition bits_of (v : Val Z) : Z :=
  match v with
  | V_I32 i => wrap 32 i
  | V_I64 i => wrap 64 i
  | V_F32 b | V_F64 b | V_V128 b => b
  | V_FuncRef _ => 0
  end.
Definition bits_type (ty : WasmValType) : ir.Type_ :=
  match ty with Val_I32 => ir.I32 | Val_I64 => ir.I64 | Val_F32 => ir.F32 | Val_F64 => ir.F64 | Val_V128 => ir.I8X16 | Val_Ref _ => ir.I64 end.
Definition size_of (ty : WasmValType) : nat := match ty with Val_I32 | Val_F32 => 4 | Val_V128 => 16 | _ => 8 end.
Lemma size_of_type ty : Z.to_nat (ir.bytes (bits_type ty)) = size_of ty.
Proof. by destruct ty. Qed.

Lemma read_le_any {E E'} n cells x : read_le (E:=E) n cells = Ok x -> read_le (E:=E') n cells = Ok x.
Proof. unfold read_le. generalize (le_combine <$> mapM id (take n cells)). intros [y|]; cbn; congruence. Qed.
Lemma take_heap_read n m a h : (n <= m)%nat -> take n (heap_read a m h) = heap_read a n h.
Proof. revert a m. induction n as [|n IH]; intros a [|m] Hn; cbn; try done; [lia|]. f_equal. apply IH. lia. Qed.
Lemma read_le_more {E} n m a h : (n <= m)%nat -> read_le (E:=E) n (heap_read a m h) = read_le n (heap_read a n h).
Proof. intros Hn. unfold read_le. by rewrite take_heap_read, (take_heap_read n n). Qed.
Lemma size_bound ty : (size_of ty <= 16)%nat.
Proof. destruct ty; vm_compute; lia. Qed.

(** An argument slot holds the bits of its value, and a slot with the bits of a
    value decodes to it. *)
Lemma arg_bits {E} v ty : val_has_type v ty = true -> read_le (E:=E) (size_of ty) (vmval_bytes (arg_vmval v)) = Ok (bits_of v).
Proof.
  destruct v, ty; try discriminate; cbn [val_has_type]; intros Ht; unfold arg_vmval, as_vmval, vm_i32, vm_i64, vm_f32, vm_f64, vm_v128;
    rewrite read_union by (vm_compute; lia); cbn [bits_of]; f_equal; try done; by apply wrap_fits.
Qed.
Lemma bits_decode v ty m : val_has_type v ty = true -> (forall E, read_le (E:=E) (size_of ty) (vmval_bytes m) = Ok (bits_of v)) ->
  forall E, val_from_vmval (Func:=Z) (E:=E) m ty = Ok v.
Proof.
  intros Ht Hr E. specialize (Hr E). destruct v, ty; try discriminate; cbn [val_has_type] in Ht; unfold val_from_vmval, get_i32, get_i64, get_f32, get_f64, get_v128;
    cbn in Hr; rewrite Hr; cbn; try done; by rewrite signed_wrap_sfits.
Qed.
Lemma bits_range v ty : val_has_type v ty = true -> 0 <= bits_of v < 2 ^ (8 * Z.of_nat (size_of ty)).
Proof.
  destruct v, ty; try discriminate; cbn [val_has_type bits_of size_of bits_type ir.bytes]; intros Ht; try (apply fits_spec in Ht; exact Ht); apply wrap_bound; lia.
Qed.

(** ** Running the parts of a trampoline *)
Section Run.
Context `{TrapCodes} (frame_pointer return_address : Z) (trap : Z -> SM Thread Z unit) (wasm_function : Z -> list Z -> SM Thread Z (list Z)).
Context (dbg : bool) (f : Rec).
Abbreviation exec := (exec_insts frame_pointer return_address trap wasm_function f).

Lemma exec_app l1 l2 regs : forall t, exec (l1 ++ l2) regs t = (regs' ← exec l1 regs; exec l2 regs') t.
Proof.
  revert regs. induction l1 as [|[i rs] l1 IH]; intros regs t; [done|]. cbn [app exec_insts]. unfold mbind, sm_bind.
  destruct (exec_inst frame_pointer return_address trap wasm_function f i regs t) as [[xs|e|] t1]; [|done..]. apply IH.
Qed.
Lemma assign_nil regs : assign [] [] regs = regs.
Proof. apply map_empty_union. Qed.
Lemma assign_one v x regs : assign [v] [x] regs = <[v := x]> regs.
Proof. unfold assign. change (list_to_map (zip [v] [x])) with (<[v := x]> (∅ : gmap Z Z)). by rewrite <- insert_union_l, map_empty_union. Qed.
Lemma reg_run regs v x t : regs !! v = Some x -> reg regs v t = (Ok x, t).
Proof. intros Hv. unfold reg, sm_lift. by rewrite Hv. Qed.

(** Registers below a number keep their value. *)
Definition keeps_below (n : Z) (regs regs' : registers) : Prop := forall v, v < n -> regs' !! v = regs !! v.
Lemma below_trans n m r1 r2 r3 : keeps_below n r1 r2 -> keeps_below m r2 r3 -> n <= m -> keeps_below n r1 r3.
Proof. intros H1 H2 Hm v Hv. rewrite H2 by lia. by apply H1. Qed.
Lemma below_insert n regs v x : n <= v -> keeps_below n regs (<[v := x]> regs).
Proof. intros Hv w Hw. apply lookup_insert_ne. lia. Qed.

Lemma exec_capacity n len cap c regs t : regs !! cap = Some c -> len <= c -> exists regs',
  exec (capacity_check dbg n len cap) regs t = (Ok regs', t) /\ keeps_below n regs regs'.
Proof.
  intros Hc Hl. unfold capacity_check. destruct dbg; [|by exists regs]. exists (<[n := 1]> regs). split; [|by apply below_insert].
  cbn [exec_insts exec_inst]. unfold mbind, sm_bind. rewrite (reg_run _ _ _ _ Hc). cbn [compare_imm]. rewrite (proj2 (Z.leb_le _ _)) by done. unfold sm_lift at 1. cbn [unwrap Z.b2z mret sm_ret].
  rewrite assign_one. unfold reg, sm_lift. rewrite lookup_insert_eq. cbn [unwrap Z.eqb mret sm_ret]. by rewrite assign_nil.
Qed.
Lemma exec_kind n vmctx v regs t : regs !! vmctx = Some v -> read_le (E:=Z) 4 (heap_read v 4 (mem t)) = Ok VMCONTEXT_MAGIC -> exists regs',
  exec (kind_check dbg n vmctx) regs t = (Ok regs', t) /\ keeps_below n regs regs'.
Proof.
  intros Hv Hm. unfold kind_check. destruct dbg; [|by exists regs]. exists (<[n + 1 := 1]> (<[n := VMCONTEXT_MAGIC]> regs)).
  split; [|intros w Hw; by rewrite !lookup_insert_ne by lia].
  cbn [exec_insts exec_inst]. unfold mbind, sm_bind. rewrite (reg_run _ _ _ _ Hv). unfold load_bits. change (Z.to_nat (ir.bytes ir.I32)) with 4%nat.
  rewrite Z.add_0_r, Hm. cbn [mret sm_ret]. rewrite assign_one. unfold reg at 1, sm_lift. rewrite lookup_insert_eq. cbn [unwrap compare_imm]. rewrite Z.eqb_refl.
  cbn [Z.b2z mret sm_ret unwrap]. rewrite assign_one. unfold reg, sm_lift. rewrite lookup_insert_eq. cbn [unwrap Z.eqb mret sm_ret]. by rewrite assign_nil.
Qed.

Lemma exec_loads ptr p tys vs t : typed vs tys -> forall n i regs,
  regs !! ptr = Some p -> ptr < n -> (forall j v ty, vs !! j = Some v -> tys !! j = Some ty ->
    read_le (E:=Z) (size_of ty) (heap_read (p + 16 * (i + Z.of_nat j)) (size_of ty) (mem t)) = Ok (bits_of v)) -> exists regs',
  exec (load_code n i (bits_type <$> tys) ptr) regs t = (Ok regs', t) /\ keeps_below n regs regs' /\
  mapM (regs' !!.) (val_ids n (length tys)) = Some (bits_of <$> vs).
Proof.
  intros Ht. induction Ht as [|v ty vs tys Hv Ht IH]; intros n i regs Hp Hn Hr; cbn [fmap list_fmap load_code length].
  - by exists regs.
  - destruct (IH (n + 1) (i + 1) (<[n := bits_of v]> regs)) as (regs' & He & Hk & Hm); [by rewrite lookup_insert_ne by lia|lia| |].
    { intros j w ty' Hw Hty. specialize (Hr (S j) w ty' Hw Hty). by replace (i + 1 + Z.of_nat j) with (i + Z.of_nat (S j)) by lia. }
    exists regs'. split; [|split].
    + cbn [exec_insts exec_inst]. unfold mbind, sm_bind. rewrite (reg_run _ _ _ _ Hp). unfold load_bits. rewrite size_of_type.
      specialize (Hr 0%nat v ty eq_refl eq_refl). rewrite Z.add_0_r in Hr. rewrite Hr. cbn [mret sm_ret]. by rewrite assign_one.
    + intros w Hw. rewrite Hk by lia. by rewrite lookup_insert_ne by lia.
    + rewrite val_ids_cons. cbn [mapM fmap list_fmap]. rewrite (Hk n) by lia. rewrite lookup_insert_eq. cbn [mbind option_bind]. by rewrite Hm.
Qed.

(** The results in the array. *)
Fixpoint stored (p i : Z) (tys : list WasmValType) (xs : list Z) (h : heap) : heap :=
  match tys, xs with
  | ty :: tys, x :: xs => stored p (i + 1) tys xs (heap_write (p + 16 * i) (word (size_of ty) x) h)
  | _, _ => h
  end.
Lemma exec_stores ptr p ids : forall i regs t xs tys, regs !! ptr = Some p -> Forall2 (fun v x => regs !! v = Some x) ids xs ->
  Forall2 (fun v ty => val_type f v = Some (bits_type ty)) ids tys ->
  exec (store_code i ids ptr) regs t = (Ok regs, mkThread (tls t) (states t) (stored p i tys xs (mem t))).
Proof.
  induction ids as [|v ids IH]; intros i regs t xs tys Hp Hx Ht.
  - apply Forall2_nil_inv_l in Hx as ->. apply Forall2_nil_inv_l in Ht as ->. by destruct t.
  - apply Forall2_cons_inv_l in Hx as (x & xs' & Hx & Hxs & ->). apply Forall2_cons_inv_l in Ht as (ty & tys' & Hty & Htys & ->).
    cbn [store_code exec_insts exec_inst stored]. unfold mbind, sm_bind. rewrite (reg_run _ _ _ _ Hx), (reg_run _ _ _ _ Hp). unfold sm_lift. rewrite Hty. cbn [unwrap].
    unfold store_bits. rewrite size_of_type. cbn [mret sm_ret]. rewrite assign_nil. by rewrite (IH (i + 1) regs _ xs' tys').
Qed.
Lemma stored_below p i tys xs h a n : a + n <= p + 16 * i -> same_on a n h (stored p i tys xs h).
Proof.
  revert i xs h. induction tys as [|ty tys IH]; intros i [|x xs] h Ha; cbn [stored]; try apply same_on_refl.
  eapply same_on_trans; [|apply IH; lia]. apply same_on_write. unfold disjoint. cbn [fst snd]. lia.
Qed.
Lemma stored_decodes p tys vs : typed vs tys -> forall i h, decoded (read_vmvals (p + 16 * i) (length tys) (stored p i tys (bits_of <$> vs) h)) tys vs.
Proof.
  intros Ht. induction Ht as [|v ty vs tys Hv Ht IH]; intros i h; cbn [length read_vmvals stored fmap list_fmap]; [constructor|]. constructor.
  - apply bits_decode; [done|]. intros E. unfold read_vmval. cbn [vmval_bytes]. rewrite read_le_more by apply size_bound.
    rewrite (same_on_read _ _ (heap_write (p + 16 * i) (word (size_of ty) (bits_of v)) h)) by (apply stored_below; pose proof (size_bound ty); lia).
    pose proof (heap_read_write (p + 16 * i) (word (size_of ty) (bits_of v)) h) as Hw. rewrite word_length in Hw. rewrite Hw.
    unfold word. pose proof (read_le_prefix (E:=E) (size_of ty) (size_of ty) (bits_of v) [] (le_n _)) as Hr. rewrite app_nil_r in Hr. rewrite Hr.
    by rewrite wrap_small by by apply bits_range.
  - replace (p + 16 * i + 16) with (p + 16 * (i + 1)) by lia. apply IH.
Qed.
End Run.

Lemma read_vmvals_lookup a n h j : (j < n)%nat -> read_vmvals a n h !! j = Some (read_vmval (a + 16 * Z.of_nat j) h).
Proof.
  revert a j. induction n as [|n IH]; intros a [|j] Hj; cbn [read_vmvals lookup list_lookup]; try lia; [by rewrite Z.add_0_r|].
  change (read_vmvals (a + 16) n h !! j = Some (read_vmval (a + 16 * Z.of_nat (S j)) h)). rewrite IH by lia. do 2 f_equal. lia.
Qed.
Lemma mapM_ext_ids (r1 r2 : gmap Z Z) n k : (forall v, n <= v -> v < n + Z.of_nat k -> r1 !! v = r2 !! v) -> mapM (r1 !!.) (val_ids n k) = mapM (r2 !!.) (val_ids n k).
Proof.
  revert n. induction k as [|k IH]; intros n Hv; [done|]. rewrite val_ids_cons. cbn [mapM]. rewrite Hv by lia. rewrite (IH (n + 1)) by (intros; apply Hv; lia). done.
Qed.

Section Trampoline.
Context `{TrapCodes} (frame_pointer return_address : Z) (trap : Z -> SM Thread Z unit) (wasm_function : Z -> list Z -> SM Thread Z (list Z)) (dbg : bool).
Definition numeric (ty : WasmValType) : bool := match ty with Val_Ref _ => false | _ => true end.
(** The function built for a type and an index. *)
Definition trampoline (ty : WasmFuncType) (index : Z) : Rec :=
  let ps := bits_type <$> fn_params ty in let rs := bits_type <$> fn_results ty in
  Done array_call_signature (trampoline_code dbg ps rs) (trampoline_values dbg ps rs) [wasm_sig ps rs] [ir.mkExtFunc NS_WASM_FUNC index 0 true].
(** A compiled function as code of the array calling convention. *)
Definition as_array_code (f : Rec) (vmctx caller ptr n : Z) : SM Thread Z unit :=
  _ ← run_function frame_pointer return_address trap wasm_function f [vmctx; caller; ptr; n]; mret tt.

Lemma numeric_types tys : forallb numeric tys = true -> mapO (E:=Error) value_type tys = Ok (bits_type <$> tys).
Proof.
  induction tys as [|ty tys IH]; cbn [forallb mapO fmap list_fmap]; [done|]. intros [Hn Hns]%andb_true_iff. rewrite (IH Hns). by destruct ty.
Qed.

Abbreviation exec f := (exec_insts frame_pointer return_address trap wasm_function f).
(** Up to the call of the wasm function. *)
Definition prologue (ps : list ir.Type_) : list (InstData * list Value) :=
  capacity_check dbg 4 (pm_len ps) 3 ++ load_code (arg_start dbg) 0 ps 2 ++ kind_check dbg (arg_start dbg + pm_len ps) 0 ++
  [(Op ir.GetFramePointer (Some pointer_type) [] [], [fp_id dbg ps]); (StoreOp ir.Store ir.trusted (fp_id dbg ps) 0 48, [])].
Definition with_entry (vmctx : Z) (t : Thread) : Thread :=
  mkThread (tls t) (states t) (heap_write (vmctx + 48) (word 8 frame_pointer) (mem t)).
Lemma exec_prologue f tys vs regs t vmctx caller ptr n : typed vs tys ->
  regs !! 0 = Some vmctx -> regs !! 1 = Some caller -> regs !! 2 = Some ptr -> regs !! 3 = Some n -> pm_len tys <= n ->
  val_type f (fp_id dbg (bits_type <$> tys)) = Some ir.I64 ->
  load_at (E:=CallError) vmctx (mem t) = Ok (mkU32 VMCONTEXT_MAGIC) -> read_vmvals ptr (length vs) (mem t) = arg_vmval <$> vs -> exists regs',
  exec f (prologue (bits_type <$> tys)) regs t = (Ok regs', with_entry vmctx t) /\ keeps_below 4 regs regs' /\
  mapM (regs' !!.) (0 :: 1 :: val_ids (arg_start dbg) (length tys)) = Some (vmctx :: caller :: (bits_of <$> vs)).
Proof.
  intros Ht H0 H1 H2 H3 Hn Hfp Hm Ha. set (ps := bits_type <$> tys). assert (pm_len ps = pm_len tys) as Lp by (unfold ps, pm_len; by rewrite length_fmap).
  assert (0 <= pm_len ps) as L0 by (unfold pm_len; lia). assert (4 <= arg_start dbg) as L4 by (unfold arg_start, d1; destruct dbg; lia).
  assert (arg_start dbg + pm_len ps <= fp_id dbg ps) as Lf by (unfold fp_id, d1; destruct dbg; lia).
  destruct (exec_capacity frame_pointer return_address trap wasm_function dbg f 4 (pm_len ps) 3 n regs t H3) as (r1 & E1 & K1); [lia|].
  destruct (exec_loads frame_pointer return_address trap wasm_function f 2 ptr tys vs t Ht (arg_start dbg) 0 r1) as (r2 & E2 & K2 & M2); [by rewrite K1|lia| |].
  { intros j v ty Hv Hty. pose proof (Forall2_lookup_lr _ _ _ _ _ _ Ht Hv Hty) as Hvt. rewrite <- (read_le_more _ 16) by apply size_bound.
    assert (read_vmvals ptr (length vs) (mem t) !! j = Some (read_vmval (ptr + 16 * Z.of_nat j) (mem t))) as Hj by (apply read_vmvals_lookup; by eapply lookup_lt_Some).
    rewrite Ha, list_lookup_fmap, Hv in Hj. injection Hj as Hj. replace (0 + Z.of_nat j) with (Z.of_nat j) by lia.
    change (heap_read (ptr + 16 * Z.of_nat j) 16 (mem t)) with (vmval_bytes (read_vmval (ptr + 16 * Z.of_nat j) (mem t))). rewrite <- Hj. by apply arg_bits. }
  destruct (exec_kind frame_pointer return_address trap wasm_function dbg f (arg_start dbg + pm_len ps) 0 vmctx r2 t) as (r3 & E3 & K3); [by rewrite K2, K1 by lia| |].
  { unfold load_at in Hm. cbn [vs_decode u32_struct vs_size] in Hm. unfold get_word in Hm. rewrite drop_0 in Hm. apply (read_le_any (E:=CallError)).
    destruct (read_le 4 (heap_read vmctx 4 (mem t))) as [z| |]; [|discriminate Hm..]. by injection Hm as ->. }
  exists (<[fp_id dbg ps := frame_pointer]> r3). split; [|split].
  - unfold prologue. rewrite exec_app. erewrite sm_step by exact E1. rewrite exec_app. erewrite sm_step by exact E2. rewrite exec_app. erewrite sm_step by exact E3.
    cbn [exec_insts exec_inst]. unfold mbind, sm_bind, mret, sm_ret. rewrite assign_one. unfold reg, sm_lift. rewrite lookup_insert_eq. cbn [unwrap].
    rewrite lookup_insert_ne by lia. rewrite K3, K2, K1, H0 by lia. cbn [unwrap]. fold ps in Hfp. rewrite Hfp. cbn [unwrap]. unfold store_bits. by rewrite assign_nil.
  - intros v Hv. rewrite lookup_insert_ne by lia. by rewrite K3, K2, K1 by lia.
  - cbn [mapM]. rewrite !lookup_insert_ne by lia. rewrite (K3 0), (K2 0), (K1 0), (K3 1), (K2 1), (K1 1), H0, H1 by lia. cbn [mbind option_bind].
    assert (mapM ((<[fp_id dbg ps := frame_pointer]> r3) !!.) (val_ids (arg_start dbg) (length tys)) = Some (bits_of <$> vs)) as ->; [|done].
    rewrite <- M2. apply mapM_ext_ids. intros v Hv1 Hv2. unfold pm_len in *. rewrite lookup_insert_ne by lia. by rewrite K3 by lia.
Qed.

(** The types of the frame pointer and of the results. *)
Lemma pre_length ps : pm_len (replicate 4 ir.I64 ++ (if dbg then [ir.I8] else []) ++ ps ++ (if dbg then [ir.I32; ir.I8] else [])) = fp_id dbg ps.
Proof. rewrite !pm_len_app. unfold fp_id, arg_start, d1, pm_len. destruct dbg; cbn [length replicate]; lia. Qed.
Lemma fp_typed ty index : val_type (trampoline ty index) (fp_id dbg (bits_type <$> fn_params ty)) = Some ir.I64.
Proof.
  set (ps := bits_type <$> fn_params ty). set (pre := replicate 4 ir.I64 ++ (if dbg then [ir.I8] else []) ++ ps ++ (if dbg then [ir.I32; ir.I8] else [])).
  assert (pm_len pre = fp_id dbg ps) as Lpre by apply pre_length.
  pose proof (ids_typed pre [ir.I64] ((bits_type <$> fn_results ty) ++ (if dbg then [ir.I8] else []))) as Hi. rewrite Lpre in Hi.
  apply Forall2_cons_1 in Hi as [Hi _]. rewrite Z.add_0_r in Hi. unfold val_type, trampoline, Done, trampoline_values. cbn [r_values]. fold ps.
  unfold pre in Hi. by rewrite <- !app_assoc in Hi.
Qed.
Lemma results_typed ty index : Forall2 (fun v t => val_type (trampoline ty index) v = Some (bits_type t))
  (val_ids (fp_id dbg (bits_type <$> fn_params ty) + 1) (length (fn_results ty))) (fn_results ty).
Proof.
  set (ps := bits_type <$> fn_params ty). set (pre := replicate 4 ir.I64 ++ (if dbg then [ir.I8] else []) ++ ps ++ (if dbg then [ir.I32; ir.I8] else [])).
  pose proof (ids_typed (pre ++ [ir.I64]) (bits_type <$> fn_results ty) (if dbg then [ir.I8] else [])) as Hi. rewrite pm_len_snoc in Hi.
  assert (pm_len pre = fp_id dbg ps) as Lpre by apply pre_length. rewrite Lpre, length_fmap in Hi. apply Forall2_fmap_r in Hi.
  eapply list.Forall2_impl; [exact Hi|]. cbn. intros v t Hv. unfold val_type, trampoline, Done, trampoline_values. cbn [r_values]. fold ps.
  unfold pre in Hv. by rewrite <- !app_assoc in Hv.
Qed.

(** The call and what follows. *)
Definition call_code (ps rs : list ir.Type_) : InstData * list Value :=
  (CallOp 0 (0 :: 1 :: val_ids (arg_start dbg) (length ps)), val_ids (fp_id dbg ps + 1) (length rs)).
Definition epilogue (ps rs : list ir.Type_) : list (InstData * list Value) :=
  capacity_check dbg (fp_id dbg ps + 1 + pm_len rs) (pm_len rs) 3 ++ store_code 0 (val_ids (fp_id dbg ps + 1) (length rs)) 2.
Lemma code_parts ps rs : trampoline_code dbg ps rs = (prologue ps ++ call_code ps rs :: epilogue ps rs) ++ [(Return_ [], [])].
Proof. unfold trampoline_code, prologue, epilogue, call_code. rewrite <- !app_assoc. cbn [app]. by rewrite <- !app_assoc. Qed.

Lemma assign_ids n xs regs v : v < n -> assign (val_ids n (length xs)) xs regs !! v = regs !! v.
Proof.
  intros Hv. unfold assign. apply lookup_union_r. apply not_elem_of_list_to_map_1. rewrite fst_zip by (rewrite val_ids_length; lia).
  unfold val_ids. intros (i & -> & _)%list_elem_of_fmap. lia.
Qed.
Lemma assign_ids_get n xs regs : Forall2 (fun v x => assign (val_ids n (length xs)) xs regs !! v = Some x) (val_ids n (length xs)) xs.
Proof.
  apply Forall2_same_length_lookup_2; [apply val_ids_length|]. intros i v x Hv Hx. unfold assign. apply lookup_union_Some_l. apply elem_of_list_to_map_1.
  - rewrite fst_zip by (rewrite val_ids_length; lia). unfold val_ids. apply NoDup_fmap_2; [intros a b; lia|apply NoDup_seq].
  - apply list_elem_of_lookup. exists i. apply lookup_zip_Some. done.
Qed.

Lemma Forall2_ids_impl {A} (P Q : Z -> A -> Prop) n k xs : (forall v x, v < n + Z.of_nat k -> P v x -> Q v x) -> Forall2 P (val_ids n k) xs -> Forall2 Q (val_ids n k) xs.
Proof.
  intros HPQ. revert n xs HPQ. induction k as [|k IH]; intros n xs HPQ HP; [by apply Forall2_nil_inv_l in HP as ->|].
  rewrite val_ids_cons in *. apply Forall2_cons_inv_l in HP as (x & xs' & Hx & Hxs & ->). constructor; [apply HPQ; [lia|done]|]. apply IH; [|done]. intros v y Hv. apply HPQ. lia.
Qed.
Lemma run_parts ty index vmctx caller ptr n t : let f := trampoline ty index in
  let ps := bits_type <$> fn_params ty in let rs := bits_type <$> fn_results ty in
  let regs0 := assign [0; 1; 2; 3] [vmctx; caller; ptr; n] ∅ in
  run_function frame_pointer return_address trap wasm_function f [vmctx; caller; ptr; n] t =
    (regs ← exec f (prologue ps) regs0; regs ← exec f [call_code ps rs] regs; _ ← exec f (epilogue ps rs) regs; mret []) t.
Proof.
  intros f ps rs regs0. unfold run_function. rewrite (sm_lift_step _ _ _ 0) by reflexivity.
  change (fst <$> blk_params f 0) with [0; 1; 2; 3]. fold regs0.
  change (r_insts f) with (trampoline_code dbg ps rs). rewrite code_parts, last_snoc, removelast_last.
  change (call_code ps rs :: epilogue ps rs) with ([call_code ps rs] ++ epilogue ps rs).
  unfold mbind, sm_bind. rewrite exec_app. unfold mbind, sm_bind. destruct (exec f (prologue ps) regs0 t) as [[r|e|] t1]; [|done..].
  rewrite exec_app. unfold mbind, sm_bind. destruct (exec f [call_code ps rs] r t1) as [[r2|e|] t2]; [|done..]. done.
Qed.

Lemma exec_epilogue ty index regs t ptr n xs : let ps := bits_type <$> fn_params ty in let rs := bits_type <$> fn_results ty in
  regs !! 2 = Some ptr -> regs !! 3 = Some n -> pm_len (fn_results ty) <= n -> length xs = length (fn_results ty) -> exists regs',
  exec (trampoline ty index) (epilogue ps rs) (assign (val_ids (fp_id dbg ps + 1) (length rs)) xs regs) t =
    (Ok regs', mkThread (tls t) (states t) (stored ptr 0 (fn_results ty) xs (mem t))).
Proof.
  intros ps rs H2 H3 Hn Hl. assert (length rs = length xs) as Lr by (unfold rs; by rewrite length_fmap).
  assert (4 <= fp_id dbg ps) as L4 by (unfold fp_id, arg_start, d1, pm_len; destruct dbg; lia).
  set (regs1 := assign (val_ids (fp_id dbg ps + 1) (length rs)) xs regs).
  assert (forall v, v < fp_id dbg ps + 1 -> regs1 !! v = regs !! v) as K1 by (intros v Hv; unfold regs1; rewrite Lr; by apply assign_ids).
  destruct (exec_capacity frame_pointer return_address trap wasm_function dbg (trampoline ty index) (fp_id dbg ps + 1 + pm_len rs) (pm_len rs) 3 n regs1 t) as (r2 & E2 & K2).
  { by rewrite K1 by lia. } { unfold pm_len in *. lia. }
  exists r2. unfold epilogue. rewrite exec_app. rewrite (sm_step _ _ _ _ _ E2).
  apply (exec_stores frame_pointer return_address trap wasm_function (trampoline ty index) 2 ptr).
  - unfold pm_len in *. by rewrite K2, K1 by lia.
  - rewrite Lr. pose proof (assign_ids_get (fp_id dbg ps + 1) xs regs) as Hg. rewrite <- Lr in Hg |- * at 1. fold regs1 in Hg. rewrite Lr in Hg |- *.
    eapply Forall2_ids_impl; [|exact Hg]. intros v x Hv Hx. rewrite K2; [done|]. unfold pm_len. lia.
  - unfold rs. rewrite length_fmap. apply results_typed.
Qed.

(** Writing the bits [xs] of the results over the array. *)
Definition store_results (ty : WasmFuncType) (ptr : Z) (xs : list Z) : SM Thread Z unit := fun t =>
  (Ok tt, mkThread (tls t) (states t) (stored ptr 0 (fn_results ty) xs (mem t))).

(** The trampoline does exactly this: it records its frame in the context, calls the
    function on the bits of the arguments and stores the results. *)
Lemma trampoline_runs ty index vmctx caller ptr n params t :
  typed params (fn_params ty) -> pm_len (fn_params ty) <= n -> pm_len (fn_results ty) <= n ->
  load_at (E:=CallError) vmctx (mem t) = Ok (mkU32 VMCONTEXT_MAGIC) -> read_vmvals ptr (length params) (mem t) = arg_vmval <$> params ->
  (forall xs t2, wasm_function index (vmctx :: caller :: (bits_of <$> params)) (with_entry vmctx t) = (Ok xs, t2) -> length xs = length (fn_results ty)) ->
  as_array_code (trampoline ty index) vmctx caller ptr n t =
    (xs ← wasm_function index (vmctx :: caller :: (bits_of <$> params)); store_results ty ptr xs) (with_entry vmctx t).
Proof.
  intros Ht Hnp Hnr Hm Ha Hlen.
  set (f := trampoline ty index). set (ps := bits_type <$> fn_params ty). set (rs := bits_type <$> fn_results ty).
  set (regs0 := assign [0; 1; 2; 3] [vmctx; caller; ptr; n] ∅).
  destruct (exec_prologue f (fn_params ty) params regs0 t vmctx caller ptr n Ht) as (r1 & E1 & K1 & M1); [done..|apply fp_typed|done|done|].
  fold ps in E1.
  assert (exec f [call_code ps rs] r1 (with_entry vmctx t) = (xs ← wasm_function index (vmctx :: caller :: (bits_of <$> params)); mret (assign (val_ids (fp_id dbg ps + 1) (length rs)) xs r1)) (with_entry vmctx t)) as E2.
  { unfold call_code. cbn [exec_insts exec_inst]. unfold mbind, sm_bind, sm_lift. change (pm_get (r_funcs f) 0) with (Some (ir.mkExtFunc NS_WASM_FUNC index 0 true)).
    cbn [unwrap ir.ef_index]. replace (length ps) with (length (fn_params ty)) by (unfold ps; by rewrite length_fmap). rewrite M1. done. }
  pose proof (run_parts ty index vmctx caller ptr n t) as R. cbn zeta in R. fold f ps rs regs0 in R. rewrite (sm_step _ _ _ _ _ E1) in R.
  unfold as_array_code, mbind, sm_bind. rewrite R. unfold mbind, sm_bind. rewrite E2. unfold mbind, sm_bind.
  destruct (wasm_function index _ (with_entry vmctx t)) as [[xs|e|] t2] eqn:Hw; [|done..]. cbn [mret sm_ret].
  destruct (exec_epilogue ty index r1 t2 ptr n xs) as (r3 & E3); [by rewrite K1 by lia|by rewrite K1 by lia|done|by eapply Hlen|].
  fold f ps rs in E3. by rewrite E3.
Qed.
End Trampoline.

(** A function type that the host can call: numbers and vectors only, and so few
    that the offsets of their slots fit. *)
Definition host_callable (ty : WasmFuncType) : bool :=
  forallb numeric (fn_params ty) && forallb numeric (fn_results ty) && (pm_len (fn_params ty) * 16 <? 2 ^ 31) && (pm_len (fn_results ty) * 16 <? 2 ^ 31).
Lemma trampoline_built `{TrapCodes} dbg ty index s : host_callable ty = true ->
  exists sig, wasm_call_signature (E:=Error) ty = Ok sig /\
    array_to_wasm_trampoline_body dbg host_offsets ty sig index (mkT (start array_call_signature) s) = (Ok tt, mkT (trampoline dbg ty index) s).
Proof.
  unfold host_callable. rewrite !andb_true_iff, !Z.ltb_lt. intros [[[Np Nr] Lp] Lr].
  pose proof (numeric_types _ Np) as Hp. pose proof (numeric_types _ Nr) as Hr. eexists. split; [by apply wasm_call_signature_ok|].
  apply trampoline_emitted; [done|done|done|unfold pm_len in *; by rewrite length_fmap..].
Qed.

(** C7: The trampoline that the compiler builds for a wasm function makes it
    callable from the host.  For every function type of numbers and vectors, with
    and without debug assertions, the trampoline is built without a panic (every
    instruction is well typed and the function complete, which the recording builder
    checks).  Run on a context and an array with arguments of the type, it does exactly
    this: it stores its frame pointer in the context's field for the entry frame and
    nothing else, calls the function on the contexts and the bits of the arguments,
    and, if the function returns, stores its results over the array, each in its slot,
    and nothing else; a trap or panic of the function passes through. *)
Theorem trampoline_is_callable `{TrapCodes} dbg frame_pointer return_address trap wasm_function ty index s :
  host_callable ty = true ->
  exists sig f, wasm_call_signature (E:=Error) ty = Ok sig /\
    array_to_wasm_trampoline_body dbg host_offsets ty sig index (mkT (start array_call_signature) s) = (Ok tt, mkT f s) /\
    forall vmctx caller ptr n params t,
      let call := wasm_function index (vmctx :: caller :: (bits_of <$> params)) in
      let entered := mkThread (tls t) (states t) (store_at (vmctx + 48) (mkUsize frame_pointer) (mem t)) in
      typed params (fn_params ty) -> pm_len (fn_params ty) <= n -> pm_len (fn_results ty) <= n ->
      load_at (E:=CallError) vmctx (mem t) = Ok (mkU32 VMCONTEXT_MAGIC) ->
      read_vmvals ptr (length params) (mem t) = arg_vmval <$> params ->
      (forall xs t', call entered = (Ok xs, t') -> length xs = length (fn_results ty)) ->
      as_array_code frame_pointer return_address trap wasm_function f vmctx caller ptr n t =
        match call entered with
        | (Ok xs, t') => (Ok tt, mkThread (tls t') (states t') (stored ptr 0 (fn_results ty) xs (mem t')))
        | (Err j, t') => (Err j, t')
        | (Panic, t') => (Panic, t')
        end.
Proof.
  intros Hty. destruct (trampoline_built dbg ty index s Hty) as (sig & Hsig & Hb). exists sig, (trampoline dbg ty index). split; [done|]. split; [done|].
  intros vmctx caller ptr n params t call entered Ht Hp Hr Hm Ha Hlen. rewrite (trampoline_runs frame_pointer return_address trap wasm_function dbg ty index vmctx caller ptr n params t Ht Hp Hr Hm Ha Hlen).
  unfold mbind, sm_bind, store_results. change (with_entry frame_pointer vmctx t) with entered. fold call. destruct (call entered) as [[xs|j|] t']; reflexivity.
Qed.

(** A call ends with the result [res] and memory [h] (but for the saved fields of the
    context, which are put back), and leaves everything else as it was. *)
Definition completes {S} `{Slab S WasmSubType} (call : SM (CallState S) CallError (list (Val Z))) (w : CallState S) (r : VMFuncRef)
    (res : outcome CallError (list (Val Z))) (h : heap) : Prop :=
  exists w', call w = (res, w') /\ left_as_found r w w' /\ registered (cs_signals w') = true /\ memory w' = restored w r h.

(** C4: A call from the host runs the wasm function.  Suppose an exported function's
    array-call pointer leads to the trampoline compiled for it, and its type has
    numbers and vectors only ([call_unchecked] ends in [todo!()] for references).
    The call prepares a thread (arguments in the storage, stack limit set, signal
    handlers registered, a new activation that saves the context's fields, the entry
    frame recorded) and runs the function there, in whatever state memory is.  All that is
    assumed of this run is that it leaves the activations alone and returns results of its type,
    or jumps to the innermost activation with a trap recorded.  Then the call returns those
    results, or that trap as an error, with the memory the function left and the results
    in the storage; afterwards the store, the type registry, the thread's activations, the
    stack limit and the other saved fields of the context are what they were. *)
Theorem host_call_runs_wasm {S} `{Slab S WasmSubType} `{TrapCodes} dbg env place frame_pointer return_address trap wasm_function code_at stack_pointer storage_ptr
    (w : CallState S) f r ty sig index tramp st0 params results :
  let n := Nat.max (length params) (length (fn_results ty)) in
  place_fresh place -> callable env stack_pointer storage_ptr w f r n ->
  registered_as w r ty -> wasm_vmval_storage (cs_store w) = [] -> host_callable ty = true -> wasm_call_signature (E:=Error) ty = Ok sig ->
  array_to_wasm_trampoline_body dbg host_offsets ty sig index (mkT (start array_call_signature) st0) = (Ok tt, mkT tramp st0) ->
  code_at (fr_array_call r) = as_array_code frame_pointer return_address trap wasm_function tramp ->
  typed params (fn_params ty) -> length results = length (fn_results ty) ->
  let t := with_entry frame_pointer (fr_vmctx r) (entry_thread place stack_pointer storage_ptr w r params n) in
  let ended := wasm_function index (fr_vmctx r :: fr_vmctx r :: (bits_of <$> params)) t in
  settled t ended -> (forall xs, ended.1 = Ok xs -> exists vs, typed vs (fn_results ty) /\ xs = bits_of <$> vs) ->
  let call := call_unchecked dbg env place code_at stack_pointer storage_ptr f params results in
  match ended with
  | (Ok xs, t') => exists vs, typed vs (fn_results ty) /\ xs = bits_of <$> vs /\
      completes call w r (Ok vs) (stored storage_ptr 0 (fn_results ty) xs (mem t'))
  | (Err _, t') => exists info, trap_info t' (default 0 (tls t)) = Some info /\
      completes call w r (Err (inr (Error_Trap (trap_code_of info)))) (mem t')
  | (Panic, _) => (call w).1 = Panic
  end.
Proof.
  intros n Hpl Hcb Hra Hst Hty Hsig Hb Hcode Ht Hl t ended Hset Hres call. destruct (trampoline_built dbg ty index st0 Hty) as (sig' & Hsig' & Hb').
  assert (sig' = sig) as -> by congruence. assert (tramp = trampoline dbg ty index) as -> by congruence.
  assert (length params <= n)%nat as Hn by lia. pose proof (list.Forall2_length _ _ _ Ht) as Lp.
  pose proof (call_exact dbg env place Hpl code_at stack_pointer storage_ptr w f r ty params results Hcb Hra Hst Ht Hl) as Hcall. cbn zeta in Hcall. fold n in Hcall.
  rewrite Hcode, (trampoline_runs frame_pointer return_address trap wasm_function dbg ty index _ _ _ _ params) in Hcall;
    [|done|unfold pm_len; lia|unfold pm_len; lia|by eapply entry_magic|by eapply entry_args|].
  2:{ intros xs t2 Hw. destruct (Hres xs) as (vs & Hvs & ->); [unfold ended, t; by rewrite Hw|]. rewrite length_fmap. exact (list.Forall2_length _ _ _ Hvs). }
  fold t in Hcall. unfold mbind, sm_bind in Hcall. fold ended in Hcall. destruct ended as [[xs|j|] t'].
  - destruct (Hres xs eq_refl) as (vs & Hvs & ->). exists vs. split; [done|]. split; [done|]. eexists. split; [apply Hcall; [exact Hset|]|].
    + pose proof (stored_decodes storage_ptr _ _ Hvs 0 (mem t')) as Hdec. by rewrite Z.mul_0_r, Z.add_0_r in Hdec.
    + split; [by eapply closed_left|]. split; [by eapply handlers_in_place|done].
  - destruct (Hcall Hset) as (info & Hinfo & Hc). exists info. split; [exact Hinfo|]. eexists. split; [exact Hc|].
    split; [by eapply closed_left|]. split; [by eapply handlers_in_place|done].
  - exact (Hcall I).
Qed.

(** ** Example

    A function with a counter in memory: it adds its argument to the counter and
    returns the sum, and traps on zero. *)
Module TrampolineExample.
Definition count_type : WasmFuncType := mkFuncType [Val_I32] [Val_I32].
Definition counter : Z := 600000.
Definition count_code (index : Z) (args : list Z) : SM Thread Z (list Z) := fun t =>
  match args, states t !! default 0 (tls t), read_le (E:=Z) 4 (heap_read counter 4 (mem t)) with
  | [_; _; x], Some c, Ok total =>
      if x =? 0 then
        (Err (default 0 (tls t)),
         mkThread (tls t) (<[default 0 (tls t) := set_unwind (Unwind_Trap (Reason_Wasm IntegerOverflow), None) c]> (states t)) (mem t))
      else (Ok [wrap 32 (total + x)], mkThread (tls t) (states t) (heap_write counter (word 4 (wrap 32 (total + x))) (mem t)))
  | _, _, _ => (Panic, t)
  end.
Lemma count_settled index args t : settled t (count_code index args t).
Proof.
  unfold count_code. destruct args as [|? [|? [|x [|]]]]; try done. destruct (states t !! default 0 (tls t)) as [c|] eqn:Hc; [|done].
  destruct (read_le 4 _) as [total| |]; [|done..]. destruct (x =? 0); [|done]. cbn. repeat (split; [done|]). by exists c, (Unwind_Trap (Reason_Wasm IntegerOverflow), None).
Qed.
Lemma count_typed index args t xs : (count_code index args t).1 = Ok xs -> exists vs, typed vs [Val_I32] /\ xs = bits_of <$> vs.
Proof.
  unfold count_code. destruct args as [|? [|? [|x [|]]]]; try done. destruct (states t !! default 0 (tls t)) as [c|]; [|done].
  destruct (read_le 4 _) as [total| |]; [|done..]. destruct (x =? 0); [done|]. intros [= <-]. exists [V_I32 (signed 32 (wrap 32 (total + x)))].
  assert (0 <= wrap 32 (total + x) < 2 ^ 32) as Hb by (apply wrap_bound; lia). split.
  - constructor; [|constructor]. cbn [val_has_type]. apply sfits_spec. unfold signed. case_match; lia.
  - cbn. by rewrite wrap_signed by lia.
Qed.

Definition func_ref : VMFuncRef := mkVMFuncRef 777 778 131072 0.
Definition sub_type : WasmSubType := mkSubType true None (mkComposite (Comp_Func count_type) false).
Definition registry : TypeRegistryInner (list (option WasmSubType)) :=
  mkRegistry [mkEntryInner (mkRecGroup [sub_type]) [0] 1] [0%nat] {[0 := 0%nat]} [Some sub_type] [].
Definition store : Store :=
  mkStore [mkInstance instance_compiled instance_vmctx [] [] ∅ ∅ []] [196608] [] [] [] [] {[131072 := 0]}.
(** The counter stands at 37. *)
Definition memory : heap :=
  store_at 131072 (mkU32 VMCONTEXT_MAGIC) (store_at 196608 func_ref
    (heap_write counter (word 4 37) (Example.writes [(131096, 0); (131104, 0); (131112, 0); (131120, 0)] ∅))).
Definition signal_env : SignalEnv := mkSignalEnv 65535 true false (fun _ => true).
Definition no_signals : Signals := mkSignals false (fun _ => mkSigaction false SIG_DFL) (fun _ => None).
Definition host : CallState (list (option WasmSubType)) := mkCallState (mkThread None ∅ memory) store registry no_signals.
Definition code_at `{TrapCodes} (pointer : Z) : Z -> Z -> Z -> Z -> SM Thread Z unit :=
  if pointer =? 777 then as_array_code 8192 0 (fun _ => sm_lift Panic) count_code (trampoline true count_type 1) else fun _ _ _ _ => sm_lift Panic.
Lemma host_ready : callable signal_env 1048576 262144 host 0 func_ref 1.
Proof.
  split.
  - exists 196608. split; [reflexivity|]. split; [reflexivity|]. unfold disjoint. cbn [fst snd]. lia.
  - eexists _, _. split; [reflexivity|]. split; reflexivity.
  - reflexivity.
  - intros o [->|[->|[->| ->]]]; (split; [done|]); exists 0; (split; [reflexivity|done]).
  - unfold disjoint. cbn. lia.
  - by vm_compute.
  - eexists. reflexivity.
Qed.
Lemma host_registered : registered_as host func_ref count_type.
Proof. split. eexists _, _, _. repeat split; try reflexivity; cbn; lia. Qed.
(** The thread in which it runs. *)
Definition entry (x : Z) : Thread := with_entry 8192 131072 (entry_thread Example.above 1048576 262144 host func_ref [V_I32 x] 1).
End TrampolineExample.
Lemma trampoline_is_callable_witness : exists sig f t', wasm_call_signature (E:=Error) TrampolineExample.count_type = Ok sig /\
  array_to_wasm_trampoline_body true host_offsets TrampolineExample.count_type sig 1 (mkT (start array_call_signature) (mkState [] [] true ∅ ∅ ∅ ∅ ∅)) =
    (Ok tt, mkT f (mkState [] [] true ∅ ∅ ∅ ∅ ∅)) /\
  as_array_code 8192 0 (fun _ => sm_lift Panic) TrampolineExample.count_code f 131072 131072 262144 1
    (entry_thread Example.above 1048576 262144 TrampolineExample.host TrampolineExample.func_ref [V_I32 5] 1) = (Ok tt, t') /\
  read_le (E:=unit) 4 (heap_read 262144 4 (mem t')) = Ok 42 /\ read_usize (E:=unit) (mem t') (131072 + 48) = Ok 8192.
Proof.
  destruct (trampoline_is_callable true 8192 0 (fun _ => sm_lift Panic) TrampolineExample.count_code TrampolineExample.count_type 1
    (mkState [] [] true ∅ ∅ ∅ ∅ ∅) eq_refl) as (sig & f & Hsig & Hb & Hrun).
  set (t := entry_thread Example.above 1048576 262144 TrampolineExample.host TrampolineExample.func_ref [V_I32 5] 1).
  pose proof (Hrun 131072 131072 262144 1 [V_I32 5] t) as Hr. cbn zeta in Hr.
  assert (forall xs t', TrampolineExample.count_code 1 (131072 :: 131072 :: (bits_of <$> [V_I32 5]))
            (mkThread (tls t) (states t) (store_at (131072 + 48) (mkUsize 8192) (mem t))) = (Ok xs, t') -> length xs = 1%nat) as Hlen.
  { intros xs t' Hw. destruct (TrampolineExample.count_typed 1 _ _ xs (f_equal fst Hw)) as (vs & Hvs & ->). rewrite length_fmap. exact (list.Forall2_length _ _ _ Hvs). }
  specialize (Hr ltac:(repeat constructor) ltac:(vm_compute; congruence) ltac:(vm_compute; congruence) ltac:(vm_compute; reflexivity) ltac:(vm_compute; reflexivity) Hlen).
  exists sig, f. eexists. split; [exact Hsig|]. split; [exact Hb|]. split; [rewrite Hr; vm_compute; reflexivity|]. split; vm_compute; reflexivity.
Defined.

Lemma host_call_runs_wasm_witness : exists w w',
  call_unchecked true TrampolineExample.signal_env Example.above TrampolineExample.code_at 1048576 262144 0 [V_I32 5] [V_I32 0] TrampolineExample.host = (Ok [V_I32 42], w) /\
  read_le (E:=unit) 4 (heap_read TrampolineExample.counter 4 (memory w)) = Ok 42 /\
  call_unchecked true TrampolineExample.signal_env Example.above TrampolineExample.code_at 1048576 262144 0 [V_I32 0] [V_I32 0] TrampolineExample.host =
    (Err (inr (Error_Trap IntegerOverflow)), w').
Proof.
  set (s := mkState [] [] true ∅ ∅ ∅ ∅ ∅).
  destruct (trampoline_built true TrampolineExample.count_type 1 s eq_refl) as (sig & Hsig & Hb).
  assert (forall x, typed [V_I32 x] [Val_I32] ->
    let ended := TrampolineExample.count_code 1 (131072 :: 131072 :: (bits_of <$> [V_I32 x])) (TrampolineExample.entry x) in
    let call := call_unchecked true TrampolineExample.signal_env Example.above TrampolineExample.code_at 1048576 262144 0 [V_I32 x] [V_I32 0] in
    match ended with
    | (Ok xs, t') => exists vs, typed vs [Val_I32] /\ xs = bits_of <$> vs /\
        completes call TrampolineExample.host TrampolineExample.func_ref (Ok vs) (stored 262144 0 [Val_I32] xs (mem t'))
    | (Err _, t') => exists info, trap_info t' (default 0 (tls (TrampolineExample.entry x))) = Some info /\
        completes call TrampolineExample.host TrampolineExample.func_ref (Err (inr (Error_Trap (trap_code_of info)))) (mem t')
    | (Panic, _) => (call TrampolineExample.host).1 = Panic
    end) as Hrun.
  { intros x Hx. exact (host_call_runs_wasm true TrampolineExample.signal_env Example.above 8192 0 (fun _ => sm_lift Panic) TrampolineExample.count_code TrampolineExample.code_at 1048576 262144
      TrampolineExample.host 0 TrampolineExample.func_ref TrampolineExample.count_type sig 1 _ s [V_I32 x] [V_I32 0]
      Example.above_fresh TrampolineExample.host_ready TrampolineExample.host_registered eq_refl eq_refl Hsig Hb eq_refl Hx eq_refl
      (TrampolineExample.count_settled _ _ _) (TrampolineExample.count_typed _ _ _)). }
  pose proof (Hrun 5 ltac:(repeat constructor)) as H1. pose proof (Hrun 0 ltac:(repeat constructor)) as H2. cbv zeta in H1, H2.
  destruct (TrampolineExample.count_code 1 (131072 :: 131072 :: (bits_of <$> [V_I32 5])) (TrampolineExample.entry 5)) as [r1 t1] eqn:E1.
  destruct (TrampolineExample.count_code 1 (131072 :: 131072 :: (bits_of <$> [V_I32 0])) (TrampolineExample.entry 0)) as [r2 t2] eqn:E2.
  pose proof (f_equal fst E1) as F1. pose proof (f_equal fst E2) as F2. vm_compute in F1, F2. subst r1 r2.
  destruct H1 as (vs & Hvs & Hbits & w & Hw & _ & _ & Hm). destruct H2 as (info & Hinfo & w' & Hw' & _).
  assert (vs = [V_I32 42]) as ->.
  { apply Forall2_cons_inv_r in Hvs as (v & vs' & Hv & Hnil & ->). apply Forall2_nil_inv_r in Hnil as ->. destruct v as [y| | | | |]; try discriminate Hv.
    injection Hbits as Hy. cbn in Hv. f_equal. f_equal. rewrite <- (signed_wrap_sfits 32 y) by (done || lia). rewrite <- Hy. reflexivity. }
  exists w, w'. split; [exact Hw|]. split.
  - rewrite Hm. apply (f_equal snd) in E1. cbn [snd] in E1. rewrite <- E1. vm_compute. reflexivity.
  - rewrite Hw'. apply (f_equal snd) in E2. cbn [snd] in E2. rewrite <- E2 in Hinfo. vm_compute in Hinfo. injection Hinfo as <-. reflexivity.
Defined.
