(* ===== verification/FunctionSpec.v ===== *)
(** * What the function translator promises

    Translation follows validation operator by operator, and a function that
    validates is translated; the theorems are instantiated with the recording
    builder. *)
From stdpp Require Import base list gmap option numbers strings.
From S2P Require Import Prelude Types Trap Module ModuleTypes VMOffsets HeapAccess Clif ClifLaws FuncState WasmOp FuncEnv CodeTranslator CodeTranslatorCtl CodeTranslatorOps FuncTranslator WasmTyping FuncValid CtlEnv OpTyping CtlInv CtlSim CtlSteps CtlDead CtlBranch CtlStep CtlFunction RecBuilder RecBuilderLaws.
Local Open Scope Z_scope.

(** ** A module and a validator to run the translator with *)
Definition example_type : WasmFuncType := mkFuncType [Val_I64] [Val_I64].
(** An imported and a defined function, a table, a memory and a global. *)
Definition sample_module : TranslatedModule :=
  {| name := None; types := [0];
     functions := [mkFunctionDesc 0 reserved_value; mkFunctionDesc 0 reserved_value];
     tables := [mkTableDesc (mkRefType true (mkHeapType false Heap_Func)) false 4 (Some 4) false];
     memories := [mkMemoryDesc 1 None (2 ^ 31) 16 false false];
     globals := [mkGlobalDesc Val_I64 true false]; Module.start := None;
     imports := [mkImport "env"%string "f"%string (EntityType_Function (Module_ 0))];
     exports := []; global_initializers := [];
     table_initializers := {| initial_values := []; segments := [] |};
     memory_initializers := []; passive_table_initializers := ∅;
     passive_memory_initializers := ∅; active_table_initializers := ∅;
     active_memory_initializers := ∅; num_imported_functions := 1; num_imported_tables := 0;
     num_imported_memories := 0; num_imported_globals := 0; num_escaped_functions := 0 |}.
Definition sample_types : ModuleTypes := mkModuleTypes [mkSubType true None (mkComposite (Comp_Func example_type) false)] [(0, 1)] ∅.
Definition example_offsets : VMOffsets :=
  match for_module (E:=Error) 8 sample_module with
  | Ok o => o
  | _ => mkVMOffsets 0 0 0 0 0 0 0 0 (mkStatic 8) 0 0 0 0 0 0 0 0 0
  end.
Definition example_env : TranslationEnvironment :=
  mkEnv sample_module sample_types example_offsets (mkTargetEnv false 12) false false false false true (fun _ => false) false false false.
Lemma example_env_ok : env_ok example_env.
Proof. split; [split; unfold pm_len; cbn; lia|by vm_compute|by vm_compute|by vm_compute]. Qed.
Definition example_types : FuncValidator := mkValidator (fun _ => None) None.
(** One validator accepts every operator, the other none. *)
Definition permissive : ValidatorOps unit := mkValidatorOps unit (fun _ _ => Ok) (fun _ => Ok) Ok (fun _ => example_types).
Definition strict : ValidatorOps unit := mkValidatorOps unit (fun _ _ => Ok) (fun _ _ => Err (InvalidWebAssembly 0)) Ok (fun _ => example_types).
Definition fresh_state : FuncTranslationState := mkState [] [] true ∅ ∅ ∅ ∅ ∅.

Lemma start_fresh sig : fresh (RecBuilder.start sig) sig.
Proof. split; try done; cbn; intros; by rewrite ?lookup_empty. Qed.

(** A state in the outermost frame of a function without parameters and results. *)
Lemma start_sim dbg : exists t : TState Rec, sim dbg example_env example_types [] [] t [enter KBlock [] []].
Proof.
  set (sig := ir.mkSignature (blank_sig ++ []) (normal <$> [])).
  destruct (enter_function_ok (mkT (RecBuilder.start sig) fresh_state) sig (start_fresh sig)) as (k & t1 & _ & _ & En).
  destruct (wp_exit_block t1 [] (fun e t' => made (bld t1) (bld t') e [])) as (e & t2 & _ & [] & t3 & _ & Hm); [by rewrite (ea_sig _ _ _ En)|done|].
  exists (mkT (bld t3) (first_state fresh_state e 0)). apply (prepared_sim dbg example_env example_types [] []); [|constructor|done].
  apply (entered_prepared _ _ _ _ _ _ _ _ En (keeps_refl _) (same_flow_refl _)); [apply En|done].
Qed.

Section Spec.
Context {B : Type} {FB : FunctionBuilder B} {BV : BuilderView B} {LAWS : FunctionBuilderLaws B} {TC : TrapCodes}.
Context (dbg : bool) (env : TranslationEnvironment).

(** ** Single operators *)

(** C9: the numeric, vector and conversion operators are typed: with operands of
    the types that the specification gives on top of the stack, their translation
    succeeds in any open block, emits only well-typed straight-line code, and
    replaces them by results of the specified types, leaving the rest of the stack
    and of the translation state as it was. *)
Theorem plain_operator_typed (validator : FuncValidator) op ins outs (t : TState B) pre vs : plain_sig op = Some (ins, outs) ->
  stack (st t) = pre ++ vs -> Forall2 (repr (bld t)) vs ins -> open (bld t) ->
  exists t' vs', translate_reachable_operator dbg env validator op t = (Ok tt, t') /\ straight (bld t) (bld t') /\
    st t' = set_stack (pre ++ vs') (st t) /\ Forall2 (repr (bld t')) vs' outs.
Proof.
  intros Hop Hs Hv Ho. assert (op_typed (translate_reachable_operator (B:=B) dbg env validator op) ins outs) as H.
  { unfold plain_sig in Hop. destruct (numeric_sig op) as [[]|] eqn:E; [simplify_eq; by apply numeric_typed|by apply vector_typed]. }
  destruct (H t pre vs Hs Hv Ho) as ([] & t' & Hm & vs' & ? & ? & ?). by exists t', vs'.
Qed.

(** In unreachable code an operator that neither opens nor closes a block is
    skipped: nothing is emitted and the translation state does not change. *)
Lemma unreachable_code_emits_nothing (validator : FuncValidator) op (t : TState B) : reachable (st t) = false -> structural op = false ->
  translate_operator dbg env validator op t = (Ok tt, t).
Proof.
  intros Hr Hs. assert (wp (translate_operator dbg env validator op) t (fun _ t' => t' = t)) as ([] & t' & Hm & ->); [|done].
  apply wp_bind, wp_get. rewrite Hr. by apply wp_unreachable.
Qed.

(** C3: translation follows validation: from a translation state that corresponds
    to a validation state (frames and their blocks, the values on the stack and
    the operand types, reachability), every operator that validates (control flow,
    variables, calls, memory accesses and the plain operators) is translated
    without an error or a panic, in a build with or without debug assertions, to a
    state that corresponds to the next validation state. *)
Theorem operator_follows_validation (validator : FuncValidator) locals results op (t : TState B) vs vs' :
  env_ok env -> Forall (fun ty => canon ty = ty) locals -> sim dbg env validator locals results t vs -> vstep env validator locals op vs = Some vs' ->
  exists t', translate_operator dbg env validator op t = (Ok tt, t') /\ sim_or_finished dbg env validator locals results t' vs'.
Proof. intros He Hc Hs Hv. destruct (operator_step dbg env validator locals results He Hc op t vs vs' Hs Hv) as ([] & t' & H & H'). by exists t'. Qed.

(** ** Functions *)
Context {V : Type} (vops : ValidatorOps V).

(** C2: a function that validates is translated: starting from an empty builder
    for its signature, [translate_body] terminates with success for every body
    that the validation algorithm and the validator accept, and the translator's
    value and control stacks are empty again for the next function. *)
Theorem valid_function_translates (validator : FuncValidator) ft sig decls ltys ops v v' (b : B) s :
  env_ok env -> (forall v, same_types (validator_view vops v) validator) -> fresh b sig -> stack s = [] -> control_stack s = [] ->
  wasm_call_signature (E:=Error) ft = Ok sig -> decl_types env decls = Some ltys -> pm_len (ir.params sig) + pm_len ltys < max_height ->
  valid_body env validator (local_types sig ltys) (param_types (ir.returns sig)) ops = true -> accepts_body vops decls ops v = Ok v' ->
  exists t, translate_body dbg env vops (mkBody (Ok (Ok <$> decls)) (Ok <$> ops)) (v, mkT b s) = (Ok tt, (v', t)) /\
    stack (st t) = [] /\ control_stack (st t) = [].
Proof.
  intros He Hview Hf Hs Hc Hft Hd Hl Hv Ha.
  destruct (function_ok dbg env vops validator He Hview ft sig decls ltys ops v v' b s) as ([] & ? & t & Ht & -> & H); try done. by exists t.
Qed.

(** C38: an operator is translated before it is validated, so a body that pops
    from the empty stack makes the translator panic, although the validator would
    report it as invalid. *)
Theorem invalid_operator_panics op e ops v (t : TState B) : validate_op vops op v = Err e -> op = Operator.Drop -> reachable (st t) = true ->
  is_unreachable (bld t) = false -> stack (st t) = [] -> (translate_operators dbg env vops (Ok op :: ops) (v, t)).1 = Panic.
Proof.
  intros _ -> Hr Hu Hs. cbn [translate_operators]. unfold mbind, sm_bind, sm_lift, view, translating. cbn [fst snd].
  assert (translate_operator dbg env (validator_view vops v) Operator.Drop t = (Panic, t)) as ->; [|done].
  unfold translate_operator, get_st, query, sm_lift, mbind, sm_bind. rewrite Hr. cbn [negb]. rewrite Hu. cbn [negb]. rewrite debug_assert_true by done.
  change (translate_reachable_operator dbg env (validator_view vops v) Operator.Drop) with ((_ ← pop1'; mret tt) : SM (TState B) Error unit).
  unfold mbind, sm_bind, pop1', pop_st, pop1. by rewrite Hs.
Qed.
End Spec.

(** ** Witnesses *)
Lemma plain_operator_typed_witness : plain_sig Operator.I32Add = Some ([ir.I32; ir.I32], [ir.I32]) /\
  exists (t t' : TState Rec) vs', open (bld t) /\ translate_reachable_operator true example_env example_types Operator.I32Add t = (Ok tt, t') /\
    Forall2 (repr (bld t')) vs' [ir.I32].
Proof.
  split; [reflexivity|].
  set (b := mkRec (ir.mkSignature [] []) (Some 0) (Some 0) {[ 0 := mkBlk [(0, ir.I32); (1, ir.I32)] false true ]} [ir.I32; ir.I32] [] ∅ [] [] []).
  destruct (plain_operator_typed true example_env example_types Operator.I32Add [ir.I32; ir.I32] [ir.I32] (mkT b (mkState [0; 1] [] true ∅ ∅ ∅ ∅ ∅)) [] [0; 1]) as (t' & vs' & H & _ & _ & Hv).
  - reflexivity.
  - reflexivity.
  - constructor; [by exists ir.I32|]. constructor; [by exists ir.I32|constructor].
  - exists 0. split; [reflexivity|]. split; [by eexists|done].
  - exists (mkT b (mkState [0; 1] [] true ∅ ∅ ∅ ∅ ∅)), t', vs'. split; [|done]. exists 0. split; [reflexivity|]. split; [by eexists|done].
Defined.
Lemma operator_follows_validation_witness : exists (t t' : TState Rec) vs', vstep example_env example_types [] (Operator.Loop BT_Empty) [enter KBlock [] []] = Some vs' /\
  sim true example_env example_types [] [] t [enter KBlock [] []] /\
  translate_operator true example_env example_types (Operator.Loop BT_Empty) t = (Ok tt, t') /\ sim_or_finished true example_env example_types [] [] t' vs'.
Proof.
  destruct (start_sim true) as [t Ht]. assert (vstep example_env example_types [] (Operator.Loop BT_Empty) [enter KBlock [] []] = Some [enter KLoop [] []; enter KBlock [] []]) as Hv by reflexivity.
  destruct (operator_follows_validation true example_env example_types [] [] (Operator.Loop BT_Empty) t _ _ example_env_ok (list.Forall_nil_2 _) Ht Hv) as (t' & H1 & H2).
  exists t, t', [enter KLoop [] []; enter KBlock [] []]. by split_and!.
Defined.

(** A recursive factorial that records its results in the memory and the global,
    and passes the last one through the imported function and the table. *)
Definition at16 : MemArg := mkMemArg 16 0.
Definition factorial : list Operator.WasmOperator :=
  [Operator.LocalGet 0; Operator.I64Eqz;
   Operator.If (BT_Type wasmparser.I64);
     Operator.I64Const 1;
   Operator.Else;
     Operator.LocalGet 0; Operator.LocalGet 0; Operator.I64Const 1; Operator.I64Sub; Operator.Call 1; Operator.I64Mul;
   Operator.End;
   Operator.LocalTee 1; Operator.GlobalSet 0;
   Operator.I32Const 8; Operator.LocalGet 1; Operator.I64Store at16;
   Operator.Loop BT_Empty;
     Operator.LocalGet 1; Operator.I64Const 1; Operator.I64Sub; Operator.LocalTee 1; Operator.I64Eqz; Operator.I32Eqz; Operator.BrIf 0;
   Operator.End;
   Operator.I32Const 8; Operator.I64Load at16; Operator.Call 0;
   Operator.I32Const 2; Operator.CallIndirect 0 0;
   Operator.End].
Definition factorial_sig : ir.Signature := ir.mkSignature (blank_sig ++ [normal ir.I64]) [normal ir.I64].
Lemma valid_function_translates_witness : exists t : TState Rec,
  translate_body true example_env permissive (mkBody (Ok [Ok (1, wasmparser.I64)]) (Ok <$> factorial)) (tt, mkT (RecBuilder.start factorial_sig) fresh_state) = (Ok tt, (tt, t)) /\
    stack (st t) = [] /\ control_stack (st t) = [].
Proof.
  apply (valid_function_translates true example_env permissive example_types example_type factorial_sig [(1, wasmparser.I64)] [ir.I64] factorial tt tt
           (RecBuilder.start factorial_sig) fresh_state example_env_ok); try reflexivity.
  apply start_fresh.
Defined.
Lemma invalid_operator_panics_witness : validate_op strict Operator.Drop tt = Err (InvalidWebAssembly 0) /\
  exists t : TState Rec, (translate_operators true example_env strict [Ok Operator.Drop] (tt, t)).1 = Panic.
Proof.
  split; [reflexivity|]. set (b := mkRec (ir.mkSignature [] []) (Some 0) (Some 0) {[ 0 := mkBlk [] false true ]} [] [] ∅ [] [] []).
  exists (mkT b fresh_state). by apply (invalid_operator_panics true example_env strict Operator.Drop (InvalidWebAssembly 0)).
Defined.

(** The recording builder accepts the factorial, instruction by instruction. *)
Lemma factorial_runs : (translate_body true example_env permissive (mkBody (Ok [Ok (1, wasmparser.I64)]) (Ok <$> factorial))
  (tt, mkT (RecBuilder.start factorial_sig) fresh_state)).1 = Ok tt.
Proof. vm_compute. reflexivity. Qed.
