(* ===== verification/SemFunction.v ===== *)
(** * Functions compute what their bodies mean

    The code before the first operator puts the arguments and the zeros of
    declared locals into variables; after the last one the results are returned.
    With [SemBlocks] in between, calling the translated function runs its body. *)
From stdpp Require Import base list gmap option numbers.
From S2P Require Import Prelude Types Trap Module ModuleTypes VMOffsets HeapAccess Clif ClifLaws FuncState WasmOp FuncEnv CodeTranslator CodeTranslatorCtl CodeTranslatorOps FuncTranslator WasmTyping WasmSem FuncValid CtlEnv OpTyping CtlInv CtlSim CtlSteps CtlDead CtlLive CtlBranch CtlBlocks CtlEnds CtlStep CtlFunction RecBuilder RecBuilderLaws ClifMachine SemOps SemBuild SemEffects SemSim SemCode SemBlocks FunctionSpec.
Local Open Scope Z_scope.

(** ** The code before the first operator *)
Section Prologue.
Context `{TC : TrapCodes} `{AR : ClifArith} `{LW : !ClifArithLaws}.
Context (env : TranslationEnvironment) (sig : ir.Signature).
Abbreviation M := (SM (TState Rec) Error).
Abbreviation ptys := (param_types (ir.params sig)).
Abbreviation inputs := (fresh_values (RecBuilder.start sig) ptys).

(** The entry block is being filled: it has defined variables of the types
    [tys], which hold [ls] of the arguments, and computed the values [K]. *)
Record begins (b : Rec) (tys : list ir.Type_) (K : list (Value * (list Z -> Z))) (ls : list Z -> list Z) : Prop := {
  be_current : r_current b = Some 0; be_entry : r_entry b = Some 0; be_sig : r_sig b = sig;
  be_block : exists s, blk b 0 = Some (mkBlk (zip inputs ptys) false s);
  be_trace : Forall (fun p => p.1 = Some 0) (r_trace b);
  be_vars : forall x, r_vars b !! x = pm_get tys x;
  be_typed : Forall (fun p => is_Some (val_type b p.1)) K;
  be_length : forall args, Forall2 in_range ptys args -> length (ls args) = length tys;
  be_run : forall F rest args, agrees (RecBuilder.start sig) b F -> Forall2 in_range ptys args -> exists regs vars,
    steps F (Running ((snd <$> r_trace b) ++ rest) (assign inputs args ∅) ∅) (Running rest regs vars) /\
    Forall (fun p => regs !! p.1 = Some (p.2 args)) K /\ locals_hold b vars (ls args) }.
Lemma begins_open b tys K ls : begins b tys K ls -> is_open b = true.
Proof. intros []. unfold is_open, blk_filled. destruct be_block0 as [s Hs]. by rewrite be_current0, Hs. Qed.
Lemma begins_ext b tys K ls ls' : (forall args, Forall2 in_range ptys args -> ls' args = ls args) -> begins b tys K ls -> begins b tys K ls'.
Proof.
  intros He []. split; try done; [intros args Ha; rewrite He by done; auto|]. intros F rest args Hf Ha. rewrite He by done. auto.
Qed.
(** What later commands leave alone. *)
Record still (b b' : Rec) : Prop := {
  sl_blocks : forall d x, d <> 0 -> blk b d = Some x -> blk b' d = Some x; sl_values : r_values b `prefix_of` r_values b' }.
Lemma still_refl b : still b b.
Proof. by split. Qed.
Lemma still_trans a b c : still a b -> still b c -> still a c.
Proof. intros [B1 V1] [B2 V2]. split; [auto|by etrans]. Qed.

Lemma begins_define b tys K ls v f ty : begins b tys K ls -> (v, f) ∈ K -> (forall args, Forall2 in_range ptys args -> in_range ty (f args)) ->
  begins (log (EDef (pm_len tys) v) (set_vars (<[pm_len tys := ty]> (r_vars b)) b)) (tys ++ [ty]) K (fun args => ls args ++ [f args]).
Proof.
  intros [] Hv Hr. split; try done; cbn [r_current r_entry r_sig r_trace r_vars log set_vars].
  - apply Forall_app. split; [done|]. by constructor.
  - intros x. rewrite pm_get_snoc. case_bool_decide as E; [subst; by rewrite lookup_insert_eq|rewrite lookup_insert_ne by done; apply be_vars0].
  - intros args Ha. rewrite !length_app, be_length0 by done. done.
  - intros F rest args Hf Ha. destruct (be_run0 F (EDef (pm_len tys) v :: rest) args Hf Ha) as (regs & vars & S & HK & Hl).
    exists regs, (<[pm_len tys := f args]> vars). split; [|split; [done|]].
    + rewrite fmap_app, <- app_assoc. eapply steps_trans; [exact S|]. apply rtc_once. cbn. eapply list.Forall_forall in HK; [|exact Hv]. cbn in HK. by rewrite HK.
    + assert (pm_len (ls args) = pm_len tys) as El by (unfold pm_len; by rewrite be_length0). split; cbn [r_vars log set_vars].
      * intros i x. rewrite pm_get_snoc, El. case_bool_decide as E; [|rewrite !lookup_insert_ne by done; apply Hl]. intros [= <-]. subst. exists ty. rewrite !lookup_insert_eq. auto.
      * intros i t. rewrite pm_get_snoc, El. case_bool_decide as E; [by eexists|]. rewrite lookup_insert_ne by done. apply Hl.
Qed.
Lemma start_agrees b b' F : r_insts b `prefix_of` r_insts b' -> r_values b `prefix_of` r_values b' -> agrees (RecBuilder.start sig) b' F -> agrees (RecBuilder.start sig) b F.
Proof. intros P V A. by eapply agrees_within. Qed.
Lemma begins_compute b b' evs v ty z tys K ls : begins b tys K ls -> computes b b' evs v ty [] (fun _ => Some z) -> begins b' tys [(v, fun _ => z)] ls.
Proof.
  intros [] (G & T & H). pose proof (g_entry _ _ _ G _ be_entry0) as He. split; try done.
  - by rewrite (g_current _ _ _ G).
  - by rewrite (g_sig _ _ _ G).
  - unfold blk. by rewrite (g_blocks _ _ _ G).
  - rewrite (g_trace _ _ _ G), be_current0. apply Forall_app. split; [done|]. apply Forall_fmap, list.Forall_forall. done.
  - intros x. by rewrite (g_vars _ _ _ G).
  - constructor; [by rewrite T|constructor].
  - intros F rest args Hf Ha. pose proof (start_agrees _ _ _ (g_insts _ _ _ G) (g_values _ _ _ G) Hf) as Hf0.
    destruct (be_run0 F (evs ++ rest) args Hf0 Ha) as (regs & vars & S & _ & Hl). destruct (H regs vars [] z) as (regs' & D & _ & (t & _ & Hz & _)); [constructor|done|].
    exists regs', vars. split; [|split; [by constructor|]].
    + rewrite (g_trace _ _ _ G), be_current0, fmap_app, <- list_fmap_compose, <- app_assoc. cbn. rewrite list_fmap_id. eapply steps_trans; [exact S|]. apply D.
      eapply agrees_within; [exact Hf|apply pm_len_nonneg|done|done].
    + eapply locals_vars; [apply G|done].
Qed.
Lemma begins_block b b' d ts tys K ls : begins b tys K ls -> new_block_of b b' d ts -> begins b' tys K ls.
Proof.
  intros [] N. destruct be_block0 as [s Hs]. assert (d <> 0) as Hd by (intros ->; by rewrite (nb_fresh _ _ _ _ N) in Hs).
  split; rewrite ?(nb_current _ _ _ _ N), ?(nb_entry _ _ _ _ N), ?(nb_trace _ _ _ _ N), ?(nb_vars _ _ _ _ N), ?(nb_sig _ _ _ _ N); try done.
  - exists s. by rewrite (nb_other _ _ _ _ N).
  - eapply list.Forall_impl; [exact be_typed0|]. intros [v f] [t Ht]. exists t. unfold val_type. rewrite (nb_values _ _ _ _ N). by apply pm_get_app_l.
  - intros F rest args Hf Ha. destruct (be_run0 F rest args) as (regs & vars & ? & ? & Hl); [|done|].
    { eapply start_agrees; [by rewrite (nb_insts _ _ _ _ N)|rewrite (nb_values _ _ _ _ N); by apply prefix_app_r|done]. }
    exists regs, vars. split_and!; try done. eapply locals_vars; [apply N|done].
Qed.
Lemma lp_declare x ty t (Q : unit -> TState Rec -> Prop) : Q tt (mkT (set_vars (<[x := ty]> (r_vars (bld t))) (bld t)) (st t)) -> lp (onb (declare_var x ty)) t Q.
Proof. intros HQ. apply lp_onb. intros [] b'. cbn. case_match; [done|]. by intros [= <-]. Qed.
Lemma lp_define x v t (Q : unit -> TState Rec -> Prop) : Q tt (mkT (log (EDef x v) (bld t)) (st t)) -> lp (onb (def_var x v)) t Q.
Proof. intros HQ. apply lp_onb. intros [] b'. cbn. case_match; [|done]. by intros [= <-]. Qed.
Lemma lp_next n t (Q : Z -> TState Rec -> Prop) : Q (n + 1) t -> lp (sm_lift (add 64 n 1)) t Q.
Proof. intros HQ. apply lp_lift. by intros a [-> _]%add_ok. Qed.
Lemma defined_still x v ty b : still b (log (EDef x v) (set_vars (<[x := ty]> (r_vars b)) b)).
Proof. by split. Qed.

(** *** Declared locals *)
Lemma declare_count_runs n ty v tys ls t : begins (bld t) tys [(v, fun _ => 0)] ls ->
  lp (declare_count n ty (Some v) (pm_len tys)) t (fun i t' => i = pm_len (tys ++ replicate n ty) /\ st t' = st t /\ still (bld t) (bld t') /\
    begins (bld t') (tys ++ replicate n ty) [(v, fun _ => 0)] (fun args => ls args ++ replicate n 0)).
Proof.
  revert tys ls t. induction n as [|n IH]; intros tys ls t Hb; cbn [declare_count replicate].
  { apply lp_wp, wp_ret. rewrite app_nil_r. split; [done|]. split; [done|]. split; [apply still_refl|]. eapply begins_ext; [|exact Hb]. intros. by rewrite app_nil_r. }
  apply lp_bind, lp_declare, lp_bind, lp_define, lp_bind, lp_next. cbn [bld st]. rewrite <- (pm_len_snoc tys ty).
  eapply lp_mono; [apply (IH _ (fun args => ls args ++ [0]))|].
  - cbn [bld]. apply (begins_define _ _ _ _ _ (fun _ => 0)); [done|by left|]. intros args _. unfold in_range. pose proof (bits_pos ty). lia.
  - cbn [bld st]. intros i t' (-> & E & S & B'). rewrite <- app_assoc in *. split; [done|]. split; [done|]. split; [by eapply still_trans; [apply defined_still|]|].
    eapply begins_ext; [|exact B']. intros args _. cbn. by rewrite <- app_assoc.
Qed.
(** Locals of number types, which start as zero. *)
Definition number_type (ty : wasmparser.ValType) : bool :=
  match ty with wasmparser.I32 | wasmparser.I64 | wasmparser.F32 | wasmparser.F64 => true | _ => false end.
Lemma lp_constant o ctrl ty t tys K ls (Q : Value -> TState Rec -> Prop) : begins (bld t) tys K ls -> op_sig o ctrl [] [0] = Some [ty] -> op_value o ctrl [] [0] = Some (inr [0]) ->
  (forall v b', begins b' tys [(v, fun _ => 0)] ls -> still (bld t) b' -> Q v (mkT b' (st t))) -> lp (ins1 (Op o ctrl [] [0])) t Q.
Proof.
  intros Hb Hs Hv HQ. eapply lp_wp, (wp_ins1 _ _ ty); [by eapply begins_open|done|].
  assert (computes (bld t) (emit (Op o ctrl [] [0]) [ty] (bld t)) [EInst (pm_len (r_insts (bld t)))] (pm_len (r_values (bld t))) ty [] (fun _ => Some 0)) as C.
  { apply (computes_op _ _ _ []); [constructor|done|]. intros xs z ->%Forall2_nil_inv_l [= <-]. split; [done|]. unfold in_range. pose proof (bits_pos ty). lia. }
  apply HQ; [by eapply begins_compute|]. destruct C as (G & _). split; [|apply G]. intros d x _. unfold blk. by rewrite (g_blocks _ _ _ G).
Qed.
Lemma declare_locals_runs count wty ty tys K ls t : begins (bld t) tys K ls -> number_type wty = true -> FuncValid.local_type env wty = Some ty ->
  lp (declare_locals env count wty (pm_len tys)) t (fun i t' => i = pm_len (tys ++ replicate (Z.to_nat count) ty) /\ st t' = st t /\ still (bld t) (bld t') /\
    exists K', begins (bld t') (tys ++ replicate (Z.to_nat count) ty) K' (fun args => ls args ++ replicate (Z.to_nat count) 0)).
Proof.
  intros Hb Hn Ht. apply lp_bind. destruct wty; try discriminate Hn; cbn in Ht; simplify_eq; apply lp_bind.
  all: eapply lp_constant; [exact Hb|reflexivity|first [by rewrite law_iconst|by rewrite law_f32const|by rewrite law_f64const]|].
  all: intros v b' B' S'; apply lp_wp, wp_ret; cbn [fst snd]; eapply lp_mono; [by apply declare_count_runs|].
  all: intros i t' (-> & E & S & B''); split; [done|]; split; [done|]; split; [by eapply still_trans|by eexists].
Qed.
End Prologue.

Section Decls.
Context `{TC : TrapCodes} `{AR : ClifArith} `{LW : !ClifArithLaws}.
Context (dbg : bool) (env : TranslationEnvironment) (sig : ir.Signature) {V : Type} (vops : ValidatorOps V).
Abbreviation MV := (SM (V * TState Rec) Error).
(** If the computation succeeds, its result satisfies [Q]. *)
Definition lpv {A} (m : MV A) (s : V * TState Rec) (Q : A -> V -> TState Rec -> Prop) : Prop := forall a v t, m s = (Ok a, (v, t)) -> Q a v t.
Lemma lpv_bind {A C} (m : MV A) (k : A -> MV C) s Q : lpv m s (fun a v t => lpv (k a) (v, t) Q) -> lpv (m ≫= k) s Q.
Proof. intros H c v t Hm. apply sm_bind_ok in Hm as (a & [v1 t1] & H1 & H2). by eapply H. Qed.
Lemma lpv_translating {A} (m : SM (TState Rec) Error A) v t (Q : A -> V -> TState Rec -> Prop) : lp m t (fun a t' => Q a v t') -> lpv (translating m) (v, t) Q.
Proof. intros H a v' t' Hm. unfold translating in Hm. cbn in Hm. injection Hm as Hr <- <-. apply H. by destruct (m t); cbn in *; subst. Qed.
Lemma lpv_lift {A} (x : outcome Error A) v t (Q : A -> V -> TState Rec -> Prop) : (forall a, x = Ok a -> Q a v t) -> lpv (sm_lift x) (v, t) Q.
Proof. intros H a v' t' [= Hx <- <-]. by apply H. Qed.
Lemma lpv_validating f v t (Q : unit -> V -> TState Rec -> Prop) : (forall v', f v = Ok v' -> Q tt v' t) -> lpv (validating f) (v, t) Q.
Proof. intros H [] v' t'. unfold validating. cbn. destruct (f v) eqn:E; try done. intros [= <- <-]. by apply H. Qed.
Lemma lpv_mono {A} (m : MV A) s (P Q : A -> V -> TState Rec -> Prop) : lpv m s P -> (forall a v t, P a v t -> Q a v t) -> lpv m s Q.
Proof. intros H HQ a v t Hm. by apply HQ, H. Qed.

Lemma local_decls_runs decls ltys tys K ls v t : begins sig (bld t) tys K ls -> Forall (fun d => number_type d.2 = true) decls -> decl_types env decls = Some ltys ->
  lpv (local_decls env vops (Ok <$> decls) (pm_len tys)) (v, t) (fun _ _ t' => st t' = st t /\ still (bld t) (bld t') /\
    exists K', begins sig (bld t') (tys ++ ltys) K' (fun args => ls args ++ replicate (length ltys) 0)).
Proof.
  revert ltys tys K ls v t. induction decls as [|[count wty] decls IH]; intros ltys tys K ls v t Hb Hn Hd; cbn in *.
  { injection Hd as <-. intros [] v' t' [= <- <-]. rewrite app_nil_r. split; [done|]. split; [apply still_refl|]. exists K. eapply begins_ext; [|exact Hb]. intros. cbn. by rewrite app_nil_r. }
  apply Forall_cons_iff in Hn as [Hn Hns]. apply bind_Some in Hd as (ty & Hty & (tl & Htl & [= <-])%bind_Some).
  apply lpv_bind, lpv_lift. intros ? [= <-]. apply lpv_bind, lpv_validating. intros v1 _. apply lpv_bind, lpv_translating. eapply lp_mono; [by eapply declare_locals_runs|].
  cbn [fst snd]. intros i t1 (-> & E1 & S1 & K1 & B1). eapply lpv_mono; [by eapply IH|]. intros [] v2 t2 (E2 & S2 & K2 & B2). rewrite <- app_assoc in B2.
  split; [congruence|]. split; [by eapply still_trans|]. exists K2. eapply begins_ext; [|exact B2]. intros args _. cbn. by rewrite length_app, length_replicate, replicate_add, app_assoc.
Qed.
End Decls.

(** *** The entry block and the parameters *)
Section Enter.
Context `{TC : TrapCodes} `{AR : ClifArith} `{LW : !ClifArithLaws}.
Context (dbg : bool) (env : TranslationEnvironment) (sig : ir.Signature) {V : Type} (vops : ValidatorOps V).
Abbreviation ptys := (param_types (ir.params sig)).
Abbreviation inputs := (fresh_values (RecBuilder.start sig) ptys).
Definition entered : Rec := mkRec sig (Some 0) (Some 0) {[ 0 := mkBlk (zip inputs ptys) false true ]} ptys [] ∅ [] [] [].
Definition known_inputs : list (Value * (list Z -> Z)) := (fun i => (Z.of_nat i, fun args => nth i args 0)) <$> seq 0 (length ptys).
Lemma entered_begins : begins sig entered [] known_inputs (fun _ => []).
Proof.
  split; try done.
  - by eexists.
  - intros x. by destruct x.
  - apply Forall_fmap, list.Forall_forall. intros i Hi. apply elem_of_seq in Hi. destruct (lookup_lt_is_Some_2 ptys i) as [t Ht]; [lia|]. exists t. cbn. unfold val_type, pm_get. cbn [r_values entered].
    by rewrite (proj2 (Z.leb_le _ _)), Nat2Z.id by lia.
  - intros F rest args _ Ha. exists (assign inputs args ∅), ∅. split; [apply rtc_refl|]. split; [|split; [intros i x; by destruct i|done]].
    pose proof (Forall2_length Ha) as Hl. apply Forall_fmap, list.Forall_forall. intros i [_ Hi]%elem_of_seq. cbn. destruct (lookup_lt_is_Some_2 args i) as [z Hz]; [lia|].
    rewrite (nth_lookup_Some _ _ _ _ Hz). eapply assign_get; [apply fresh_NoDup|by rewrite fresh_length| |exact Hz]. unfold fresh_values. rewrite list_lookup_fmap, lookup_seq_lt by lia. done.
Qed.
Lemma enter_runs s : enter_function (mkT (RecBuilder.start sig) s) = (Ok 0, mkT entered s).
Proof. reflexivity. Qed.

Lemma declare_parameters_runs ps dn t : ir.params sig = dn ++ ps -> begins sig (bld t) (drop 2 (param_types dn)) known_inputs (fun args => take (length (drop 2 dn)) (drop 2 args)) ->
  lp (declare_parameters 0 ps (length dn) (pm_len (drop 2 (param_types dn)))) t (fun i t' => i = pm_len (drop 2 ptys) /\ st t' = st t /\ still (bld t) (bld t') /\
    begins sig (bld t') (drop 2 ptys) known_inputs (fun args => drop 2 args)).
Proof.
  revert dn t. induction ps as [|p ps IH]; intros dn t E Hb; cbn [declare_parameters].
  { rewrite app_nil_r in E. subst dn. apply lp_wp, wp_ret. split; [done|]. split; [done|]. split; [apply still_refl|]. eapply begins_ext; [|exact Hb]. intros args Ha%Forall2_length.
    cbv beta. unfold param_types in Ha. rewrite length_fmap in Ha. by rewrite take_ge by (rewrite !length_drop; lia). }
  assert (ir.params sig = (dn ++ [p]) ++ ps) as E' by (by rewrite <- app_assoc). assert (S (length dn) = length (dn ++ [p])) as El by (rewrite length_app; cbn; lia). rewrite El.
  apply lp_bind. unfold is_wasm_parameter. destruct (Nat.leb_spec 2 (length dn)) as [H2|H2].
  - assert (drop 2 (param_types (dn ++ [p])) = drop 2 (param_types dn) ++ [ir.value_type p]) as Ed by (unfold param_types; rewrite fmap_app, drop_app_le; [done|by rewrite length_fmap]).
    apply lp_bind, lp_declare, lp_bind, lp_wp, wp_query. cbn [bld st block_params rec_builder]. pose proof (be_block _ _ _ _ _ Hb) as [sl Hs].
    assert (blk_params (set_vars (<[pm_len (drop 2 (param_types dn)) := ir.value_type p]> (r_vars (bld t))) (bld t)) 0 = zip inputs ptys) as -> by (unfold blk_params, blk in *; cbn; by rewrite Hs).
    rewrite fst_zip by (by rewrite fresh_length). assert (inputs !! length dn = Some (Z.of_nat (length dn))) as Hi.
    { unfold fresh_values. rewrite list_lookup_fmap, lookup_seq_lt; [done|]. unfold param_types. rewrite length_fmap, E, length_app. cbn. lia. }
    apply lp_bind, lp_lift. rewrite Hi. intros ? [= <-]. apply lp_bind, lp_define, lp_next. cbn [bld st]. rewrite <- (pm_len_snoc _ (ir.value_type p)), <- Ed.
    eapply lp_mono; [apply IH; [done|]|].
    + cbn [bld]. rewrite Ed. eapply begins_ext; [|eapply (begins_define _ _ _ _ _ _ (fun args => nth (length dn) args 0)); [exact Hb| |]].
      * intros args Ha%Forall2_length. unfold param_types in Ha. rewrite length_fmap, E, length_app in Ha. cbn in Ha. cbv beta. rewrite drop_app_le, length_app by lia. cbn [length].
        rewrite Nat.add_1_r. apply take_S_r. rewrite lookup_drop, length_drop. replace (2 + (length dn - 2))%nat with (length dn) by lia. destruct (nth_lookup_or_length args (length dn) 0); [done|lia].
      * unfold known_inputs. apply list_elem_of_fmap. exists (length dn). split; [done|]. apply elem_of_seq. unfold param_types. rewrite length_fmap, E, length_app. cbn. lia.
      * intros args Ha. assert (ptys !! length dn = Some (ir.value_type p)) as Hp.
        { unfold param_types. rewrite list_lookup_fmap, E, lookup_app_r, Nat.sub_diag by lia. done. }
        destruct (Forall2_lookup_l _ _ _ _ _ Ha Hp) as (z & Hz & Hr). by rewrite (nth_lookup_Some _ _ _ _ Hz).
    + cbn [bld st]. intros i t' (-> & E1 & S & B'). split; [done|]. split; [done|]. split; [|done]. eapply still_trans; [apply defined_still|done].
  - apply lp_wp, wp_ret. assert (drop 2 (param_types (dn ++ [p])) = drop 2 (param_types dn)) as Ed.
    { rewrite !drop_ge; [done|unfold param_types; rewrite length_fmap; lia|unfold param_types; rewrite length_fmap, length_app; cbn; lia]. }
    rewrite <- Ed. eapply lp_mono; [apply IH; [done|]|done]. rewrite Ed. eapply begins_ext; [|exact Hb]. intros args _. cbv beta. rewrite !length_drop, length_app. f_equal. cbn [length]. clear - H2. lia.
Qed.
Lemma exit_new b b1 e b2 : create_block b = (Ok e, b1) -> append_block_params_for_function_returns e b1 = (Ok tt, b2) -> new_block_of b b2 e (param_types (ir.returns (r_sig b))).
Proof.
  intros N%create_new. cbn. case_match; [|done]. intros [= <-]. assert (fresh_values b1 (param_types (ir.returns (r_sig b))) = fresh_values b (param_types (ir.returns (r_sig b)))) as Ef.
  { unfold fresh_values. by rewrite (nb_values _ _ _ _ N), app_nil_r. }
  split; try apply N.
  - rewrite (blk_add_params _ _ _ _ (nb_blk _ _ _ _ N)). cbn. by rewrite (nb_sig _ _ _ _ N), Ef.
  - intros j Hj. rewrite blk_add_params_ne by done. by apply N.
  - cbn. by rewrite (nb_sig _ _ _ _ N), (nb_values _ _ _ _ N), app_nil_r.
Qed.

(** The state before the first operator. *)
Record ready (ltys rs : list ir.Type_) (e : Block) (b0 : Rec) (t : TState Rec) : Prop := {
  rd_begins : exists K, begins sig (bld t) (local_types sig ltys) K (fun args => drop 2 args ++ replicate (length ltys) 0);
  rd_exit : blk (bld t) e = Some (mkBlk (zip (fresh_values b0 rs) rs) false false); rd_values : r_values b0 ++ rs `prefix_of` r_values (bld t);
  rd_state : exists s, st t = first_state s e (pm_len rs) }.
Lemma prologue_runs decls ltys ops rs v s : stack s = [] -> control_stack s = [] -> ir.returns sig = normal <$> rs -> Forall (fun d => number_type d.2 = true) decls -> decl_types env decls = Some ltys ->
  lpv (prologue dbg env vops (mkBody (Ok (Ok <$> decls)) (Ok <$> ops))) (v, mkT (RecBuilder.start sig) s) (fun _ _ t => exists e b0, ready ltys rs e b0 t).
Proof.
  intros Hs Hc Hr Hn Hd. unfold prologue. apply lpv_bind, lpv_translating, lp_wp, wp_query. apply lpv_bind, lpv_lift. intros [] _. apply lpv_bind, lpv_translating, lp_wp, wp_query. apply lpv_bind, lpv_lift. intros [] _.
  assert (wp enter_function (mkT (RecBuilder.start sig) s) (fun k t => k = 0 /\ t = mkT entered s)) as H by (exists 0, (mkT entered s); by rewrite enter_runs).
  apply wp_bind_inv in H. apply lpv_bind, lpv_translating. eapply lp_mono; [apply lp_wp, H|clear H]. intros k t1 H%wp_bind_inv. apply lpv_bind, lpv_translating. eapply lp_mono; [apply lp_wp, H|clear H].
  intros [] t2 H%wp_bind_inv. apply lpv_bind, lpv_translating. eapply lp_mono; [apply lp_wp, H|clear H]. intros [] t3 H%wp_bind_inv. apply lpv_bind, lpv_translating. eapply lp_mono; [apply lp_wp, H|clear H].
  intros [] t4 H%wp_bind_inv. apply lpv_bind, lpv_translating. eapply lp_mono; [apply lp_wp, H|clear H]. intros [] t5 (? & ? & [= <- <-] & -> & ->).
  apply lpv_bind, lpv_translating, lp_bind, lp_wp, wp_query. cbn [bld func_signature rec_builder entered r_sig]. eapply lp_mono; [apply (declare_parameters_runs _ []); [done|apply entered_begins]|].
  intros i t6 (-> & E6 & S6 & B6). apply lpv_bind, lpv_translating, lp_onb. intros e b7 C7. apply lpv_bind, lpv_translating, lp_onb. cbn [bld st]. intros [] b8 C8.
  pose proof (exit_new _ _ _ _ C7 C8) as N. rewrite (be_sig _ _ _ _ _ B6), Hr in N. rewrite normal_types in N. pose proof (begins_block _ _ _ _ _ _ _ _ B6 N) as B8.
  apply lpv_bind, lpv_translating, lp_wp, wp_query. cbn [bld st func_signature rec_builder]. rewrite (be_sig _ _ _ _ _ B8). apply lpv_bind, lpv_translating.
  eapply lp_wp, wp_mod; [apply (initialize_ok _ _ _ _ rs); cbn [bld st]; [by rewrite E6|by rewrite E6|done]|]. cbn [bld st].
  apply lpv_bind, lpv_lift. intros ? [= <-]. eapply lpv_mono; [by eapply local_decls_runs|]. cbn [bld st]. intros [] v9 t9 (E9 & [Sb Sv] & K9 & B9). exists e, (bld t6).
  assert (e <> 0) as He. { intros ->. destruct (be_block _ _ _ _ _ B6) as [sl Hsl]. by rewrite (nb_fresh _ _ _ _ N) in Hsl. }
  split; [by eexists|apply Sb; [done|apply N]|by rewrite <- (nb_values _ _ _ _ N)|by eexists].
Qed.
End Enter.

(** ** The operators and the return *)
Section Body.
Context `{TC : TrapCodes} `{AR : ClifArith} `{LW : !ClifArithLaws}.
Context (dbg : bool) (env : TranslationEnvironment) {V : Type} (vops : ValidatorOps V) (validator : FuncValidator).
Context (view_types : forall v, same_types (validator_view vops v) validator) (EO : env_ok env).
(** What the operators considered become depends on the module's types only. *)
Lemma operator_view v v' op (t : TState Rec) : op_ok env v op = true -> same_types v v' -> translate_operator dbg env v op t = translate_operator dbg env v' op t.
Proof.
  destruct v as [ty p], v' as [ty' p']. unfold same_types. cbn [sub_type_at]. intros Hop <-. destruct op; try discriminate Hop; reflexivity.
Qed.
Lemma op_ok_view v v' op : same_types v v' -> op_ok env v op = op_ok env v' op.
Proof. intros H. unfold op_ok, block_ok. destruct op; try done; by rewrite (block_sig_view _ _ _ _ H). Qed.
Lemma operators_run ops v (t : TState Rec) : Forall (fun op => op_ok env validator op = true) ops ->
  lpv (translate_operators dbg env vops (Ok <$> ops)) (v, t) (fun _ _ t' => trs dbg env validator ops t = (Ok tt, t')).
Proof.
  revert v t. induction ops as [|op ops IH]; intros v t Ho; cbn [fmap list_fmap translate_operators]; [by intros [] ? ? [= _ <-]|]. apply Forall_cons_iff in Ho as [Ho Hos].
  apply lpv_bind, lpv_lift. intros ? [= <-]. apply lpv_bind. intros ? ? ? [= <- <- <-]. apply lpv_bind, lpv_translating. intros [] t1 H1. apply lpv_bind, lpv_validating. intros v1 _.
  eapply lpv_mono; [by apply IH|]. intros [] v2 t2 H2. cbn [trs]. rewrite (operator_view _ validator) in H1; [|by rewrite (op_ok_view _ validator)|done]. by rewrite (sm_step _ _ _ _ _ H1).
Qed.
Lemma return_runs (t : TState Rec) : (reachable (st t) = true -> is_unreachable (bld t) = false) -> Forall scalar (ir.value_type <$> ir.returns (r_sig (bld t))) ->
  lp emit_return t (fun _ t' => (reachable (st t) = true /\ is_open (bld t) = true /\ bld t' = emit (Return_ (stack (st t))) [] (bld t)) \/ (reachable (st t) = false /\ bld t' = bld t)).
Proof.
  intros Hu Hs. apply lp_bind, lp_wp, wp_get, lp_bind, lp_wp, wp_query. destruct (reachable (st t)) eqn:Hr.
  - rewrite Hu by done. cbn [negb andb]. apply lp_bind, lp_bind, lp_wp, wp_get, lp_bind, lp_returns; [done|]. apply lp_bind, lp_wp, wp_upd, lp_bind, lp_insi. cbn [bld st]. intros ts Hc Ho.
    assert (ts = []) as -> by (cbn in Hc; unfold guard_types in Hc; by case_match; simplify_eq). apply lp_wp, wp_ret. apply lp_wp, wp_upd. by left.
  - cbn [andb]. apply lp_bind, lp_wp, wp_ret, lp_wp, wp_upd. by right.
Qed.

Context (sig : ir.Signature) (ltys rs : list ir.Type_) (Hret : ir.returns sig = normal <$> rs) (results_scalar : Forall scalar rs)
  (locals_scalar : Forall scalar (local_types sig ltys)) (locals_canon : Forall (fun t => canon t = t) (local_types sig ltys)).
Abbreviation ptys := (param_types (ir.params sig)).
Abbreviation sim := (sim dbg env validator (local_types sig ltys) rs).
Abbreviation arity := (arity_of env validator).
Lemma begins_runs F b tys K ls args : begins sig b tys K ls -> kept b F -> agrees (RecBuilder.start sig) b F -> Forall2 in_range ptys args ->
  exists regs vars, steps F (Goto 0 args ∅ ∅) (point F b regs vars) /\ locals_hold b vars (ls args).
Proof.
  intros [] Hk Ha Hx. destruct be_block0 as [s Hs]. assert (block_params b 0 = fresh_values (RecBuilder.start sig) ptys) as Ep.
  { cbn. unfold blk_params. rewrite Hs. cbn. apply fst_zip. by rewrite fresh_length. }
  assert (block_code b 0 = snd <$> r_trace b) as Ec.
  { unfold block_code. f_equal. clear - be_trace0. induction be_trace0 as [|[o x] l Hx _ IH]; [done|]. rewrite filter_cons_True by done. by f_equal. }
  destruct (k_trace _ _ Hk) as [l Hl]. set (rest := snd <$> filter (fun p => p.1 = Some 0) l). destruct (be_run0 F rest args Ha Hx) as (regs & vars & S & _ & Hv). exists regs, vars. split; [|done].
  eapply steps_one; [apply (step_goto F b); [done|by rewrite Hs|by rewrite Ep, fresh_length, (Forall2_length Hx)]|]. rewrite Ep. unfold point. rewrite be_current0, (code_app _ _ _ 0 Hl), drop_app_length, Ec. exact S.
Qed.

Definition outcome_conf (r : Trap + list Z) : conf := match r with inl trap => Trapped (code_of_trap trap) | inr zs => Returned zs end.
Lemma body_runs body e b0 t9 t10 t11 : ready sig ltys rs e b0 t9 -> sim t9 [enter KBlock [] rs] -> forallb (instr_ok env validator) body = true ->
  vsteps env validator (local_types sig ltys) (flatten body ++ [Operator.End]) [enter KBlock [] rs] = Some [] -> trs dbg env validator (flatten body ++ [Operator.End]) t9 = (Ok tt, t10) ->
  (reachable (st t10) = true -> is_unreachable (bld t10) = false) -> emit_return t10 = (Ok tt, t11) ->
  r_entry (bld t11) = Some 0 /\ forall args fuel, Forall2 in_range ptys args -> let ls := drop 2 args ++ replicate (length ltys) 0 in
    exec arity fuel body [] ls = RFuel \/ exists r, invoke arity fuel body ls (length rs) = Some r /\ steps (bld t11) (Goto 0 args ∅ ∅) (outcome_conf r).
Proof.
  intros [[K Be] Hex Hev [s Hst]] Hsim Hok Hv Htr Hu Hret'. rewrite vsteps_app in Hv. apply bind_Some in Hv as (vs1 & Hv1 & Hv2). apply trs_app in Htr as (ta & Htr1 & Htr2).
  assert (tidy (bld t9)) as Ht. { intros d ev Hin. right. pose proof (be_trace _ _ _ _ _ Be) as Hf. eapply list.Forall_forall in Hf; [|exact Hin]. cbn in Hf. rewrite (be_current _ _ _ _ _ Be). congruence. }
  assert (scalar_frame (enter KBlock [] rs)) as Hsc by (by apply scalar_enter).
  destruct (body_done dbg env validator _ rs EO locals_canon locals_scalar body t9 (enter KBlock [] rs) [] vs1 ta (Block_ e 0 (pm_len rs) 0 false) [] []) as (v2 & junk & f2 & fs2 & -> & Hsame & Hsim2 & Hsv2 & S2 & Hst2 & Hf2 & M2 & Ht2 & R2);
    try done; [by apply code_ok_all|by constructor|by rewrite Hst|exists []; unfold frames; by rewrite Hst|by rewrite Hst|].
  destruct (marks_same _ _ M2) as (_ & Efc & Elp & _ & Enp & Eor & Eif & _). cbn in Efc, Elp, Enp, Eor, Eif. assert (is_Some (blk (bld ta) e)) as [xa Hxa].
  { destruct (k_blocks _ _ (proj1 (s_grows _ _ S2)) _ _ Hex) as (x' & Hx' & _). by rewrite Hx'. }
  assert (left_frame ta t10 f2 fs2 [] junk rs) as L.
  { assert (v_end v2 = rs) as <- by apply Hsame. eapply (end_step dbg env validator _ _ ta v2 []); try done; [by rewrite (marks_base _ _ M2)|unfold under_size; by rewrite Eor, Eif|by rewrite Enp|by rewrite Eor|by rewrite Efc, Hxa]. }
  assert (grows (bld t9) (bld t10)) as G by (eapply growth_trans; [apply S2|apply L]).
  assert (kept (bld t10) (bld t11) /\ r_insts (bld t10) `prefix_of` r_insts (bld t11) /\ (reachable (st t10) = true -> is_open (bld t10) = true /\ bld t11 = emit (Return_ (stack (st t10))) [] (bld t10))) as (K1 & P1 & Hr1).
  { destruct (return_runs t10 Hu) with (a := tt) (t' := t11) as [(Hr & Ho & E)|[Hr E]]; [|done| |].
    - rewrite (k_sig _ _ (proj1 G)), (be_sig _ _ _ _ _ Be), Hret. rewrite <- list_fmap_compose, list_fmap_id. done.
    - rewrite E. split; [by apply emit_grows|]. split; [apply emit_insts|done].
    - rewrite E. split; [apply kept_refl|]. split; [done|congruence]. }
  set (F := bld t11) in *. assert (kept (bld t9) F) as KF by (eapply kept_trans; [apply G|done]). split; [by apply KF, Be|]. intros args fuel Hx ls0.
  assert (agrees (RecBuilder.start sig) F F) as AF by done. assert (r_insts (bld ta) `prefix_of` r_insts F) as Pa by (etrans; [apply L|done]). assert (kept (bld ta) F) as Ka by (eapply kept_trans; [apply L|done]).
  assert (forall b b', r_insts b' `prefix_of` r_insts F -> r_values b' `prefix_of` r_values F -> agrees b b' F) as Hag by (intros b b' ? ?; eapply agrees_within; [exact AF|apply pm_len_nonneg|done|done]).
  destruct (begins_runs F _ _ _ _ args Be KF) as (regs & vars & S & Hl); [apply Hag; [etrans; [apply S2|done]|apply KF]|done|].
  pose proof (R2 F fuel [] _ regs vars ltac:(apply Hag; [done|apply Ka]) Ka ltac:(constructor) Hl) as R. unfold invoke. fold ls0 in R. set (res := exec arity fuel body [] ls0) in *.
  assert (exits rs F t9 t10 e rs [] regs (point F (bld t9) regs vars) res) as X.
  { rewrite <- Efc. eapply body_exits; [eapply left_outward; [exact L|apply Hag; [done|apply K1]|done]|exact Hf2|exact Hst2| |exact R]. by repeat case_match. }
  assert (forall ws ls, (reachable (st t10) = true /\ exists regs' vars', Forall2 in_range rs ws /\ steps F (point F (bld t9) regs vars) (Goto e ws regs' vars') /\ locals_hold (bld t10) vars' ls /\ below (pm_len (r_values (bld t9))) regs regs') ->
    length ws = length rs /\ steps F (point F (bld t9) regs vars) (Returned ws)) as Hreturn.
  { intros ws ls (Hr & regs' & vars' & Hw & Hs & _). split; [by rewrite (Forall2_length Hw)|]. destruct (Hr1 Hr) as [Ho EF]. destruct (lf_entry _ _ _ _ _ _ _ L Hr) as (Hc & U & Es). rewrite Efc in Hc, U, Es.
    assert (block_params (bld t9) e = fresh_values b0 rs) as Ep by (cbn; unfold blk_params; rewrite Hex; cbn; apply fst_zip; by rewrite fresh_length).
    assert (entry b0 e rs (bld t10)) as En.
    { split; [done|done|etrans; [exact Hev|apply G]| |]; [rewrite (kept_block_params _ _ _ (proj1 G)); [done|by rewrite Hex]|]. destruct (k_blocks _ _ (proj1 G) _ _ Hex) as (x' & Hx' & _). by rewrite Hx'. }
    destruct (arrive F b0 e rs (bld t10) ws regs' vars' En K1 Hw) as (Sa & Hh & _). eapply steps_trans; [exact Hs|]. eapply steps_trans; [exact Sa|].
    assert (stack (st t10) = fresh_values b0 rs) as Est by (rewrite Es, (kept_block_params _ _ _ (proj1 (s_grows _ _ S2))); [done|by rewrite Hex]).
    destruct (emit_step F (Return_ (stack (st t10))) [] (bld t10) F (assign (fresh_values b0 rs) ws regs') vars' Ho) as (rst & k & -> & Hk); [by apply Hag|apply kept_refl|by rewrite EF..|].
    rewrite Est in Hk. eapply rtc_once, step_return_; [exact Hk|exact Hh]. }
  destruct res as [ws ls|[|l] ws ls|ws|tr| |]; [..|by left|done]; right.
  - destruct (Hreturn ws ls X) as [El Hs]. exists (inr ws). rewrite (proj2 (Nat.eqb_eq _ _) El). split; [done|]. by eapply steps_trans.
  - destruct X as (jk & xs & -> & X). destruct (Hreturn xs ls X) as [El Hs]. exists (inr xs). rewrite <- El, top_n_app. split; [done|]. by eapply steps_trans.
  - destruct X as (w & ? & ? & ? & ? & ? & [=] & _).
  - destruct X as (jk & xs & -> & Hw & Hs). exists (inr xs). rewrite (Forall2_length Hw), top_n_app. split; [done|]. by eapply steps_trans.
  - exists (inl tr). split; [done|]. by eapply steps_trans.
Qed.
End Body.

Section Function.
Context `{TC : TrapCodes} `{AR : ClifArith} `{LW : !ClifArithLaws}.
Context (dbg : bool) (env : TranslationEnvironment) {V : Type} (vops : ValidatorOps V).
Lemma function_body_inv (validator : FuncValidator) locals rs body decls v v1 v' (t t' : TState Rec) : env_ok env -> (forall v, same_types (validator_view vops v) validator) ->
  Forall (fun ty => canon ty = ty) locals -> sim dbg env validator locals rs t [enter KBlock [] rs] -> Forall (fun op => op_ok env validator op = true) body ->
  vsteps env validator locals body [enter KBlock [] rs] = Some [] -> accepts vops body v = Ok v1 ->
  translate_function_body dbg env vops (mkBody decls (Ok <$> body)) (v, t) = (Ok tt, (v', t')) ->
  exists t1, trs dbg env validator body t = (Ok tt, t1) /\ (reachable (st t1) = true -> is_unreachable (bld t1) = false) /\ emit_return t1 = (Ok tt, t').
Proof.
  intros EO Hview Hcan Hsim Hok Hv Ha. enough (lpv (translate_function_body dbg env vops (mkBody decls (Ok <$> body))) (v, t)
    (fun _ _ t' => exists t1, trs dbg env validator body t = (Ok tt, t1) /\ (reachable (st t1) = true -> is_unreachable (bld t1) = false) /\ emit_return t1 = (Ok tt, t'))) as H by apply H.
  apply lpv_bind, lpv_translating, lp_wp, wp_get. apply lpv_bind, lpv_lift. intros [] _. apply lpv_bind. cbn [body_ops]. intros [] w t1 E.
  pose proof (operators_run dbg env vops validator Hview body v t Hok _ _ _ E) as Htr. destruct (operators_ok dbg env vops validator Hview EO locals rs Hcan body v v1 t [enter KBlock [] rs]) as ([] & ? & t1' & E' & -> & Hfin); [done..|].
  rewrite E in E'. injection E' as -> ->. apply lpv_bind, lpv_validating. intros v2 _. apply lpv_translating. intros [] t2 He. exists t1'. split; [done|]. split; [|done].
  intros Hr. destruct Hfin as (_ & _ & _ & [(_ & Hl & _)|(Hr' & _)]); [by apply live_reached|congruence].
Qed.
Lemma finalized (b b' : Rec) : finalize b = (Ok tt, b') -> b' = b.
Proof. cbn. case_match; [|done]. by intros [= <-]. Qed.
Lemma param_scalars sig ltys : Forall scalar (param_types (ir.params sig)) -> Forall scalar ltys -> Forall scalar (local_types sig ltys).
Proof. intros Hp Hl. apply Forall_app. split; [|done]. by apply Forall_drop. Qed.
Lemma number_scalars decls ltys : Forall (fun d => number_type d.2 = true) decls -> decl_types env decls = Some ltys -> Forall scalar ltys.
Proof.
  intros Hn. revert ltys. induction Hn as [|[n ty] decls Ht _ IH]; intros ltys H; cbn in H; [by simplify_eq|]. apply bind_Some in H as (t & Hty & (tl & Htl & [= <-])%bind_Some).
  apply Forall_app. split; [|auto]. apply Forall_replicate. destruct ty; try discriminate Ht; cbn in Hty; by simplify_eq.
Qed.

(** C1: the translation of functions preserves their meaning.  For a valid body of
    integer, variable and control instructions (blocks, loops, conditionals,
    branches, returns and traps), with parameters and results that are no vectors
    and declared locals of number types, [translate_body] succeeds, and the
    function that was built, called with any arguments of its parameters' types,
    computes what the body means: either the reference semantics is still running
    when its fuel is used up, or the machine runs to the same results or traps
    with the code of the same trap.  In particular, a valid body never gets stuck. *)
Theorem function_computes (validator : FuncValidator) ft sig decls ltys body v v' s : env_ok env -> (forall v, same_types (validator_view vops v) validator) ->
  stack s = [] -> control_stack s = [] -> wasm_call_signature (E:=Error) ft = Ok sig -> decl_types env decls = Some ltys -> pm_len (ir.params sig) + pm_len ltys < max_height ->
  valid_body env validator (local_types sig ltys) (param_types (ir.returns sig)) (flatten body ++ [Operator.End]) = true -> accepts_body vops decls (flatten body ++ [Operator.End]) v = Ok v' ->
  forallb (instr_ok env validator) body = true -> Forall (fun d => number_type d.2 = true) decls -> Forall scalar (param_types (ir.params sig)) -> Forall scalar (param_types (ir.returns sig)) ->
  exists t, translate_body dbg env vops (mkBody (Ok (Ok <$> decls)) (Ok <$> (flatten body ++ [Operator.End]))) (v, mkT (RecBuilder.start sig) s) = (Ok tt, (v', t)) /\
    forall args fuel, Forall2 in_range (param_types (ir.params sig)) args -> let ls := drop 2 args ++ replicate (length ltys) 0 in
      exec (arity_of env validator) fuel body [] ls = RFuel \/
      exists r c n, invoke (arity_of env validator) fuel body ls (length (ir.returns sig)) = Some r /\ call (bld t) args = Some c /\ run (bld t) n c = outcome_conf r.
Proof.
  intros EO Hview Hs Hc Hft Hd Hlen Hval (v1 & A1 & (v2 & A2 & A3)%bind_ok)%bind_ok Hok Hnum Hps Hrs. apply andb_true_iff in Hval as [Hh%Z.ltb_lt Hvs].
  destruct (call_signature_shape _ _ Hft) as (ps & rs & Esig & _ & _). assert (ir.returns sig = normal <$> rs) as Er by (by rewrite Esig). set (ops := flatten body ++ [Operator.End]) in *.
  destruct (prologue_ok dbg env vops validator ft sig decls ltys ops v v1 (RecBuilder.start sig) s) as [Hcan ([] & ? & t9 & Ep & -> & Hcs & Hsim)]; try apply start_fresh; try done.
  destruct (prologue_runs dbg env sig vops decls ltys ops rs v s Hs Hc Er Hnum Hd _ _ _ Ep) as (e & b0 & Hready). rewrite Er, normal_types in *.
  assert (vsteps env validator (local_types sig ltys) ops [enter KBlock [] rs] = Some []) as Hvs' by (by destruct (vsteps _ _ _ _ _) as [[|]|]).
  destruct (function_body_ok dbg env vops validator Hview EO (local_types sig ltys) rs Hcan (mkBody (Ok (Ok <$> decls)) (Ok <$> ops)) ops v1 v2 v' t9) as ([] & ? & t11 & Eb & -> & Hcm); try done.
  destruct (finalize_ok t11 Hcm) as ([] & t12 & Ef & _). exists t12. split; [rewrite translate_body_split, (sm_step _ _ _ _ _ Ep), (sm_step _ _ _ _ _ Eb); unfold translating; cbn [fst snd]; by rewrite Ef|].
  assert (bld t12 = bld t11) as -> by (unfold onb in Ef; destruct (finalize (bld t11)) as [r b'] eqn:E; cbn in Ef; injection Ef as -> <-; by apply finalized in E).
  destruct (function_body_inv validator (local_types sig ltys) rs ops (Ok (Ok <$> decls)) v1 v2 v' t9 t11 EO Hview Hcan Hsim) as (t10 & Htr & Hu & Hret); try done.
  { apply Forall_app. split; [by apply flatten_ok|by repeat constructor]. }
  destruct (body_runs dbg env validator EO sig ltys rs Er Hrs) with (body := body) (e := e) (b0 := b0) (t9 := t9) (t10 := t10) (t11 := t11) as [He Hrun]; try done; [by eapply param_scalars, number_scalars|].
  intros args fuel Ha ls. rewrite length_fmap. destruct (Hrun args fuel Ha) as [?|(r & Hi & Hst)]; [by left|right]. destruct (steps_run _ _ _ Hst) as [n Hn]. exists r, (Goto 0 args ∅ ∅), n. split; [done|]. split; [|done].
  unfold call. by rewrite He.
Qed.
End Function.

(** ** A factorial

    With a loop, a branch out of it, a conditional and an early return. *)
Definition factorial_body : list instr :=
  [Plain (Operator.I64Const 1); Plain (Operator.LocalSet 1);
   IBlock BT_Empty
     [ILoop BT_Empty
        [Plain (Operator.LocalGet 0); Plain Operator.I64Eqz; IBrIf 1;
         Plain (Operator.LocalGet 1); Plain (Operator.LocalGet 0); Plain Operator.I64Mul; Plain (Operator.LocalSet 1);
         Plain (Operator.LocalGet 0); Plain (Operator.I64Const 1); Plain Operator.I64Sub; Plain (Operator.LocalSet 0); IBr 0]];
   Plain (Operator.LocalGet 1); Plain (Operator.I64Const 1); Plain Operator.I64GtU;
   IIf (BT_Type wasmparser.I64) [Plain (Operator.LocalGet 1)] (Some [Plain (Operator.I64Const 1); IReturn])].
(** The machine multiplies up to [10!]. *)
Lemma function_computes_witness : exists (t : TState Rec) c n,
  translate_body true example_env permissive (mkBody (Ok [Ok (1, wasmparser.I64)]) (Ok <$> (flatten factorial_body ++ [Operator.End]))) (tt, mkT (RecBuilder.start factorial_sig) fresh_state) = (Ok tt, (tt, t)) /\
  call (bld t) [0; 0; 10] = Some c /\ run (bld t) n c = Returned [3628800].
Proof.
  destruct (function_computes true example_env permissive example_types example_type factorial_sig [(1, wasmparser.I64)] [ir.I64] factorial_body tt tt fresh_state) as (t & Ht & Hrun).
  - apply example_env_ok.
  - done.
  - reflexivity.
  - reflexivity.
  - reflexivity.
  - reflexivity.
  - reflexivity.
  - vm_compute. reflexivity.
  - vm_compute. reflexivity.
  - vm_compute. reflexivity.
  - by repeat constructor.
  - by repeat constructor.
  - by repeat constructor.
  - destruct (Hrun [0; 0; 10] 100%nat) as [H|(r & c & n & Hi & Hc & Hn)]; [by repeat constructor|by vm_compute in H|]. exists t, c, n. split; [exact Ht|]. split; [exact Hc|].
    rewrite Hn. vm_compute in Hi. by injection Hi as <-.
Defined.
