(* ===== verification/CompilerSpec.v ===== *)
(** * The compiler: theorems

    Compilation contexts are used again and again; every context in the pool is
    ready for the next function, and a function that validates is compiled with
    whatever context it is given. *)
From stdpp Require Import base list gmap option numbers strings.
From S2P Require Import Prelude Types Trap Module ModuleTypes VMOffsets Code HeapAccess Clif ClifLaws FuncState WasmOp FuncEnv CodeTranslator CodeTranslatorCtl CodeTranslatorOps FuncTranslator WasmTyping FuncValid CtlEnv CtlFunction CtlStep Compiler RecBuilder RecBuilderLaws FunctionSpec.
Local Open Scope Z_scope.

Section Driver.
Context {B : Type} {FB : FunctionBuilder B} {BV : BuilderView B} {LAWS : FunctionBuilderLaws B} {TC : TrapCodes}.
Context (dbg : bool) (isa : TargetIsa) (new_function : Function_ -> B) (codegen : B -> outcome Error MachBufferFinalized)
  (user_named_funcs sized_stack_slots : B -> list (Z * Z)).

(** A context that the next function can be compiled with. *)
Definition context_ready (c : CompilationContext (B:=B)) : Prop :=
  codegen_func c = None /\ stack (func_translator c) = [] /\ control_stack (func_translator c) = [].
Definition pool_ready (c : CraneliftCompiler (B:=B)) : Prop := Forall context_ready (contexts c).

Lemma new_pool_ready : pool_ready (compiler_new isa).
Proof. constructor. Qed.
Lemma take_ready c : pool_ready c -> exists ctx c', function_compiler c = (Ok ctx, c') /\ context_ready ctx /\ pool_ready c' /\ cc_offsets c' = cc_offsets c.
Proof.
  unfold pool_ready, function_compiler. destruct c as [l o]. cbn [contexts cc_offsets]. intros Hl. destruct l as [|ctx l _] using rev_ind.
  - exists context_default, (mkCraneliftCompiler [] o). done.
  - rewrite last_snoc, removelast_last. apply Forall_app in Hl as [Hl [(_ & H1 & H2) _]%Forall_cons_iff]. exists (clear_context ctx), (mkCraneliftCompiler l o). done.
Qed.
(** What is returned for a built function: the generated code, aligned as the code
    or the target wants it, with the names of its callees, its stack slots and its
    position. *)
Definition compiled_result (b : B) (pos : option (Z * Z)) : outcome Error CompiledFunction :=
  code ← codegen b;
  locs ← srclocs pos;
  Ok {| cf_buffer := mb_data code; cf_relocs := mb_relocs code; cf_mach_traps := mb_traps code;
        cf_name_map := user_named_funcs b; cf_alignment := Z.max (mb_alignment code) (isa_preferred_alignment isa);
        cf_start_srcloc := locs.1; cf_end_srcloc := locs.2; cf_sized_stack_slots := sized_stack_slots b |}.

Lemma finish_ready ctx pos c b : codegen_func ctx = Some b -> stack (func_translator ctx) = [] -> control_stack (func_translator ctx) = [] -> pool_ready c ->
  exists c', finish_function isa codegen user_named_funcs sized_stack_slots ctx pos c = (compiled_result b pos, c') /\ pool_ready c' /\ cc_offsets c' = cc_offsets c.
Proof.
  intros Hb Hs Hc Hp. unfold finish_function. rewrite (sm_lift_step _ _ _ b) by (by rewrite Hb). unfold mbind, sm_bind, sm_lift.
  unfold compiled_result, mbind, outcome_bind. destruct (codegen b) as [f|e|]; [|by exists c..]. destruct (srclocs pos) as [l|e|]; [|by exists c..].
  eexists. split; [reflexivity|]. split; [|done]. apply Forall_app. split; [done|]. constructor; [done|constructor].
Qed.

(** C6: A function that validates is compiled.  Given a compiler whose pool of
    contexts is ready, [compile_function] resolves the function's type, translates
    its body into an empty function of its name, signature and stack limit and hands what the translation
    built to the code generator.  It returns the code (or the error) of the
    generator, aligned to at least the target's preferred alignment, with the
    names of the callees, the stack slots and the position of the body; in every
    case the pool is ready for the next function. *)
Theorem valid_function_compiles {V} (vops : ValidatorOps V) (validator : FuncValidator) module types index i ft sig env decls ltys ops v v' pos (c : CraneliftCompiler (B:=B)) :
  (forall func, fresh (new_function func) (func_signature func)) -> pool_ready c -> cc_offsets c = mkStatic 8 ->
  function_type (E:=Error) module types index = Ok (i, ft) -> wasm_call_signature (E:=Error) ft = Ok sig -> env_new (E:=Error) isa module types = Ok env -> env_ok env ->
  (forall v, same_types (validator_view vops v) validator) -> decl_types env decls = Some ltys -> pm_len (ir.params sig) + pm_len ltys < max_height ->
  valid_body env validator (local_types sig ltys) (param_types (ir.returns sig)) ops = true -> accepts_body vops decls ops v = Ok v' ->
  let func := mkFunction (Some (NS_WASM_FUNC, i)) sig (Some 24) in
  exists s b s' c', translate_body dbg env vops (mkBody (Ok (Ok <$> decls)) (Ok <$> ops)) (v, mkT (new_function func) s) = (Ok tt, (v', mkT b s')) /\
    cl_compile_function dbg isa new_function codegen user_named_funcs sized_stack_slots vops module types index v
      (mkBody (Ok (Ok <$> decls)) (Ok <$> ops)) pos c =
      (compiled_result b (Some pos), c') /\ pool_ready c'.
Proof.
  intros Hnew Hpool Hoff Hty Hsig Henv Hok Hview Hd Hl Hv Ha func. destruct (take_ready c Hpool) as (ctx & c1 & Ht & (_ & Hs & Hc) & Hp1 & Ho1).
  unfold cl_compile_function. rewrite (sm_step _ _ _ _ _ Ht), (sm_lift_step _ _ _ _ Hty). cbn [fst snd]. rewrite (sm_lift_step _ _ _ _ Hsig).
  erewrite sm_step by reflexivity. rewrite Ho1, Hoff. rewrite (sm_lift_step _ _ _ 24) by reflexivity. rewrite (sm_lift_step _ _ _ _ Henv).
  destruct (function_ok dbg env vops validator Hok Hview ft sig decls ltys ops v v' (new_function func) (func_translator ctx)) as ([] & v1 & t & Htr & -> & Hst & Hct); try done.
  destruct (finish_ready (mkContext (st t) (Some (bld t))) (Some pos) c1 (bld t)) as (c2 & Hf & Hp2 & _); [done..|].
  exists (func_translator ctx), (bld t), (st t), c2. split; [by destruct t|]. split; [|done]. erewrite sm_step; [exact Hf|]. unfold in_context. fold func. by rewrite Htr.
Qed.
End Driver.

(** ** A module compiled *)
Definition example_isa : TargetIsa := mkIsa 8 12 32 false false true (fun _ => false) false false false.
(** A code generator that returns a function of one byte. *)
Definition example_codegen (b : Rec) : outcome Error MachBufferFinalized := Ok (mkMachBuffer [195] [] [] 16).
Definition example_function (func : Function_) : Rec := RecBuilder.start (func_signature func).
Definition compiled_env : TranslationEnvironment :=
  mkEnv sample_module sample_types example_offsets (mkTargetEnv true 12) true false false false true (fun _ => false) false false false.
Lemma compiled_env_ok : env_ok compiled_env.
Proof. split; [split; unfold pm_len; cbn; lia|by vm_compute|by vm_compute|by vm_compute]. Qed.

Lemma valid_function_compiles_witness : exists s b s' (c' : CraneliftCompiler (B:=Rec)),
  translate_body true compiled_env permissive (mkBody (Ok (Ok <$> [(1, wasmparser.I64)])) (Ok <$> factorial)) (tt, mkT (RecBuilder.start factorial_sig) s) = (Ok tt, (tt, mkT b s')) /\
  cl_compile_function true example_isa example_function example_codegen (fun _ => []) (fun _ => []) permissive sample_module sample_types 0 tt
    (mkBody (Ok (Ok <$> [(1, wasmparser.I64)])) (Ok <$> factorial)) (64, 90) (compiler_new example_isa) =
    (Ok (mkCompiledFunction [195] [] [] [] 32 64 154 []), c') /\ pool_ready c'.
Proof.
  apply (valid_function_compiles true example_isa example_function example_codegen (fun _ => []) (fun _ => []) permissive example_types sample_module sample_types 0 1 example_type
           factorial_sig compiled_env [(1, wasmparser.I64)] [ir.I64] factorial tt tt (64, 90) (compiler_new example_isa)); try reflexivity.
  - intros func. apply start_fresh.
  - apply new_pool_ready.
  - apply compiled_env_ok.
Defined.
