(* ===== verification/Sandbox.v ===== *)
(** * The memory sandbox

    End-to-end theorems about linear-memory accesses: the code emitted by
    [HeapAccess.v] for a memory described by [make_memory], run against a
    memory mapped by [RtMemory.v]. *)
From stdpp Require Import base list option numbers.
From S2P Require Import Prelude Types Trap Module VMOffsets Mmap RtMemory HeapAccess.
Local Open Scope Z_scope.

(** C11: the code emitted for a wasm memory access, with a static offset of up to
    63 bits.  It traps at once when no index can be in bounds.  Otherwise it
    returns little-endian, trapping heap flags, the index and an address: for an
    access inside the bound that address is [base + index + offset]; for one
    outside it the code traps, or yields the null address when Spectre
    mitigations are on and a large offset did not already overflow.  Only the
    [unchecked] accesses, which are those of a 32-bit memory with
    [bound + guard + offset + size >= u32::MAX], carry no check: they yield
    [base + index + offset] for every index, outside the bound too, and rely on
    the guard region (see C10 and C40). *)
Theorem heap_access_correct `{ClifLaws} `{TrapCodes} env m x idx offset access_size vals
    (Hok : access_ok env m offset access_size)
    (Hx : vals !! x = Some (bits (cl_index_type m), idx)) (Hidx : 0 <= idx < 2 ^ 64) :
  exists r is_, emit (prepare_addr env m x access_size offset) vals = (Ok r, is_) /\
    access_spec env m x idx offset access_size r is_ vals.
Proof. by apply prepare_addr_spec. Qed.

(** A 32-bit memory with a small bound and no guard, so that accesses are checked. *)
Definition small_memory : CraneliftMemory :=
  mkCraneliftMemory (GV_Load GV_VMContext 56) I32_ty false 65536 65536 (Some 65536) 0 16.
(** And a 64-bit one. *)
Definition small_memory64 : CraneliftMemory :=
  mkCraneliftMemory (GV_Load GV_VMContext 56) I64_ty false 65536 0 None 0 16.
Definition target : TargetEnv := mkTargetEnv true 12.

(** Two accesses outside the bound: a checked one of a 32-bit memory yields the
    null address, one with an offset of more than 4 GiB traps on overflow. *)
Lemma heap_access_correct_witness :
  (exists r is_, emit (prepare_addr target small_memory 0%nat 4 8) [(32, 65530)] = (Ok r, is_) /\
    @access_spec (exec_sem (fun _ => 1048576)) _ target small_memory 0%nat 65530 8 4 r is_ [(32, 65530)]) /\
  (exists r is_, emit (prepare_addr target small_memory64 0%nat 4 (2 ^ 32)) [(64, 2 ^ 64 - 1)] = (Ok r, is_) /\
    @access_spec (exec_sem (fun _ => 1048576)) _ target small_memory64 0%nat (2 ^ 64 - 1) (2 ^ 32) 4 r is_
      [(64, 2 ^ 64 - 1)]).
Proof.
  split.
  - apply (@heap_access_correct (exec_sem (fun _ => 1048576)) (exec_laws _) _ target small_memory 0%nat 65530 8 4);
      [split; cbn; lia|reflexivity|lia].
  - apply (@heap_access_correct (exec_sem (fun _ => 1048576)) (exec_laws _) _ target small_memory64 0%nat
      (2 ^ 64 - 1) (2 ^ 32) 4); [split; cbn; lia|reflexivity|lia].
Defined.

(** ** Memories as the translator describes them *)

(** A validated, unshared 32-bit memory type with the default guard and page size. *)
Record memory32 (d : MemoryDesc) : Prop := {
  m32_valid : memory_type_valid d;
  m32_kind : md_memory64 d = false;
  m32_page : md_page_size_log2 d = 16;
  m32_guard : md_offset_guard_size d = DEFAULT_OFFSET_GUARD_SIZE;
  m32_min : md_minimum d <= WASM32_MAX_PAGES;
  m32_max : forall mx, md_maximum d = Some mx -> mx <= WASM32_MAX_PAGES }.

Lemma make_memory32 dbg pcc module offsets index d m :
  pm_get (memories module) index = Some d -> memory32 d ->
  make_memory dbg pcc module offsets index = Ok m ->
  cl_index_type m = I32_ty /\ cl_bound m = 2 ^ 32 /\ cl_offset_guard_size m = 2 ^ 31 /\ cl_page_size_log2 m = 16.
Proof.
  intros Hd [Hv Hk Hp Hg _ _]. unfold make_memory, pm_index. rewrite Hd. cbn [unwrap mbind outcome_bind].
  intros (di & _ & (gv & _ & (mn & _ & (mx & _ & (b & Hb & [= <-])%bind_ok)%bind_ok)%bind_ok)%bind_ok)%bind_ok.
  cbn. rewrite Hk, Hg, Hp. unfold max_size_based_on_index_type in Hb. rewrite Hk in Hb.
  by injection Hb as <-.
Qed.

(** For such a memory no access is checked. *)
Lemma unchecked32 m offset access_size :
  cl_index_type m = I32_ty -> cl_bound m = 2 ^ 32 -> cl_offset_guard_size m = 2 ^ 31 ->
  0 <= offset -> 0 < access_size -> unchecked m offset access_size = true.
Proof.
  intros Ht Hb Hg Ho Hs. unfold unchecked. rewrite Ht, Hb, Hg, bool_decide_true by done. cbn [andb].
  apply Z.leb_le. lia.
Qed.

(** The access to such a memory: no check, the sum for every index. *)
Lemma access32 `{ClifLaws} `{TrapCodes} env m x idx offset access_size vals :
  cl_index_type m = I32_ty -> cl_bound m = 2 ^ 32 -> cl_offset_guard_size m = 2 ^ 31 -> cl_page_size_log2 m = 16 ->
  te_page_size_align_log2 env <= 16 -> 0 <= offset < 2 ^ 32 -> 0 < access_size < 2 ^ 8 -> offset + access_size <= 2 ^ 32 ->
  vals !! x = Some (32, idx) -> 0 <= idx < 2 ^ 32 ->
  exists v is_, emit (prepare_addr env m x access_size offset) vals = (Ok (Reachable (heap_flags m, x, v)), is_) /\
    outcome_at (run is_ vals) v = Some (64, wrap 64 (gv_value (cl_base_gv m) + idx + offset)).
Proof.
  intros Ht Hb Hg Hp Hpage Hoff Hsz Hfit Hx Hidx.
  destruct (prepare_addr_spec env m x idx offset access_size vals) as (r & is_ & He & Hs);
    [split; rewrite ?Ht, ?Hb, ?Hg, ?Hp; cbn; lia|by rewrite Ht|lia|].
  unfold access_spec in Hs. rewrite unchecked32, (proj2 (Z.leb_gt _ _)) in Hs by (done || lia). cbn zeta in Hs.
  destruct r as [[[f i] v]|]; [|lia]. destruct Hs as (_ & -> & -> & Hs). by exists v, is_.
Qed.

(** The code that [prepare_addr] emits for an index in the only parameter is the
    same for every index. *)
Definition access_code `{TrapCodes} (env : TargetEnv) (m : CraneliftMemory) (access_size offset : Z) :
    outcome Error (Reachability (mem_flags.MemFlags * Value * Value)) * list inst :=
  emit (prepare_addr env m 0%nat access_size offset) [(32, 0)].

(** C40: the exact reach of the elided check.  For the memories the translator
    builds, with the bound and guard inside the address space, the access at a
    static offset that is not rejected outright is emitted without a check: it
    yields an address for every index.  While [offset + size] exceeds the guard
    size by at most one, every such address lies, with all accessed bytes,
    between the base and the end of the guard; as soon as it is larger, some
    index makes the code touch bytes past the guard region, although the
    derivation in the source requires [u32::MAX <= bound + guard - (offset + size)]
    before the check is left out. *)
Theorem elided_check_reach `{ClifLaws} `{TrapCodes} dbg pcc module offsets index d m env offset access_size
    (Hd : pm_get (memories module) index = Some d) (H32 : memory32 d)
    (Hm : make_memory dbg pcc module offsets index = Ok m)
    (Hpage : te_page_size_align_log2 env <= 16)
    (Hoff : 0 <= offset < 2 ^ 32) (Hsz : 0 < access_size < 2 ^ 8) (Hfit : offset + access_size <= cl_bound m)
    (Hbase : 0 <= gv_value (cl_base_gv m) /\ gv_value (cl_base_gv m) + 2 ^ 33 <= 2 ^ 64) :
  let base := gv_value (cl_base_gv m) in
  let fence := base + cl_bound m + cl_offset_guard_size m in
  exists v is_, access_code env m access_size offset = (Ok (Reachable (heap_flags m, 0%nat, v)), is_) /\
    (forall idx, 0 <= idx < 2 ^ 32 -> exists a, outcome_at (run is_ [(32, idx)]) v = Some (64, a) /\
       (offset + access_size <= cl_offset_guard_size m + 1 -> base <= a /\ a + access_size <= fence)) /\
    (cl_offset_guard_size m + 1 < offset + access_size ->
     exists idx a, 0 <= idx < 2 ^ 32 /\ outcome_at (run is_ [(32, idx)]) v = Some (64, a) /\ fence < a + access_size).
Proof.
  destruct (make_memory32 _ _ _ _ _ _ _ Hd H32 Hm) as (Ht & Hb & Hg & Hp). cbn zeta. rewrite Hb in Hfit.
  pose proof (fun idx => access32 env m 0%nat idx offset access_size [(32, idx)] Ht Hb Hg Hp Hpage Hoff Hsz Hfit eq_refl) as Ha.
  destruct (Ha 0 ltac:(lia)) as (v & is_ & He & _). exists v, is_. split; [exact He|].
  assert (Hall : forall idx, 0 <= idx < 2 ^ 32 ->
            outcome_at (run is_ [(32, idx)]) v = Some (64, gv_value (cl_base_gv m) + idx + offset)).
  { intros idx Hidx. destruct (Ha idx Hidx) as (v' & is' & He' & Hr). unfold emit in He, He'. cbn [length] in *.
    rewrite He in He'. injection He' as <- <-. by rewrite wrap_small in Hr by lia. }
  rewrite Hb, Hg. split.
  - intros idx Hidx. eexists. split; [by apply Hall|]. lia.
  - intros Hlt. eexists (2 ^ 32 - 1), _. split; [lia|]. split; [apply Hall; lia|]. lia.
Qed.

(** A module with one memory of one page and no maximum, and its layout. *)
Definition mem_desc : MemoryDesc := mkMemoryDesc 1 None DEFAULT_OFFSET_GUARD_SIZE 16 false false.
Definition mem_module (d : MemoryDesc) : TranslatedModule :=
  mkTranslatedModule None [] [] [] [d] [] None
    [] [] [] (mkTableInitializers [] []) [] ∅ ∅ ∅ ∅ 0 0 0 0 0.

Lemma mem_desc_32 : memory32 mem_desc.
Proof. split; cbn; try done; [split; cbn; [by right|lia|done]]. Qed.

Lemma elided_check_reach_witness :
  exists m v is_ idx a,
    make_memory true false (mem_module mem_desc) (layout_of (mem_module mem_desc)) 0 = Ok m /\
    access_code target m 8 4294967288 = (Ok (Reachable (heap_flags m, 0%nat, v)), is_) /\ 0 <= idx < 2 ^ 32 /\
    @outcome_at (@run (exec_sem (fun _ => 65536)) is_ [(32, idx)]) v = Some (64, a) /\
    65536 + cl_bound m + cl_offset_guard_size m < a + 8.
Proof.
  destruct (make_memory true false (mem_module mem_desc) (layout_of (mem_module mem_desc)) 0) as [m| |] eqn:Hm;
    [|by vm_compute in Hm..].
  assert (Hb : cl_bound m = 2 ^ 32 /\ cl_offset_guard_size m = 2 ^ 31)
    by (vm_compute in Hm; injection Hm as <-; done).
  destruct (@elided_check_reach (exec_sem (fun _ => 65536)) (exec_laws _) _ true false (mem_module mem_desc)
    (layout_of (mem_module mem_desc)) 0 mem_desc m target 4294967288 8) as (v & is_ & He & _ & Hp);
    [reflexivity|apply mem_desc_32|done|cbn; lia|lia|lia|lia|cbn; lia|].
  destruct Hp as (idx & a & Hidx & Ha & Hlt); [lia|]. by exists m, v, is_, idx, a.
Defined.

(** ** End to end *)

(** The sizes with which the crate's allocator maps such a memory. *)
Lemma allocate_memory32 {K} `{KernelLaws K} dbg module d i k mem k' :
  memory32 d ->
  @allocate_memory K (PlaceholderAllocatorDontUse dbg) module d i k = (Ok mem, k') ->
  exists min max, memory_try_new dbg d min max k = (Ok mem, k') /\ min = md_minimum d * 2 ^ 16 /\
    max = Some (match md_maximum d with Some mx => mx * 2 ^ 16 | None => 2 ^ 32 end).
Proof.
  intros [Hv Hk Hp Hg Hmin Hmx]. cbn [allocate_memory PlaceholderAllocatorDontUse].
  pose proof (mt_min _ Hv) as [? ?]. change WASM32_MAX_PAGES with (2 ^ 16) in *.
  assert (Hmn : minimum_byte_size dbg d = Ok (md_minimum d * 2 ^ 16)).
  { unfold minimum_byte_size. rewrite page_size_valid by done. rewrite Hp. cbn [mbind outcome_bind].
    unfold checked_mul. by rewrite try_from_intro by lia. }
  assert (Hmax : maximum_byte_size dbg d =
                 Ok (match md_maximum d with Some mx => mx * 2 ^ 16 | None => 2 ^ 32 end)).
  { unfold maximum_byte_size. destruct (md_maximum d) as [mx|] eqn:Hm.
    - rewrite page_size_valid by done. rewrite Hp. cbn [mbind outcome_bind]. unfold checked_mul.
      pose proof (mt_max _ Hv mx Hm). pose proof (Hmx mx eq_refl). by rewrite try_from_intro by lia.
    - rewrite Hmn. cbn [mbind outcome_bind]. unfold max_size_based_on_index_type. rewrite Hk.
      cbn [mbind outcome_bind]. f_equal. change WASM32_MAX_SIZE with (2 ^ 32). lia. }
  rewrite Hmn, Hmax. cbn [ok_usize]. rewrite (try_from_intro 64 (md_minimum d * 2 ^ 16)) by lia.
  intros Hr. apply lift_bind_ok in Hr as (mn & [= <-] & Hr). apply lift_bind_ok in Hr as (mn & [= <-] & Hr).
  apply lift_bind_ok in Hr as (mx & Hmx' & Hr). injection Hmx' as <-.
  eexists _, _. split; [exact Hr|]. split; [done|]. apply try_from_intro.
  destruct (md_maximum d) as [mx|] eqn:Hm; [|lia].
  pose proof (mt_max _ Hv mx Hm). pose proof (Hmx mx eq_refl). lia.
Qed.

Lemma page_divides {K} `{KernelLaws K} n e : 32 <= e -> n = 2 ^ e -> n mod host_page_size = 0.
Proof.
  intros He ->. destruct page_size_pow2 as (p & Hp & ->). apply Z.mod_divide; [lia|].
  exists (2 ^ (e - p)). rewrite <- Z.pow_add_r by lia. f_equal. lia.
Qed.

(** What is reserved for such a memory: up to 4 GiB and at least 2 GiB of guard. *)
Lemma reservation32 {K} `{KernelLaws K} d max :
  memory32 d ->
  memory_reservation (K:=K) d (Some max) = Z.min (2 ^ 32) max + align_up (2 ^ 31) host_page_size.
Proof.
  intros [_ _ _ Hg _ _]. unfold memory_reservation. rewrite Hg. cbn [default].
  change MEMORY_MAX with (2 ^ 32). change DEFAULT_OFFSET_GUARD_SIZE with (2 ^ 31). pose proof page_pos.
  by rewrite (align_up_id (2 ^ 32)) by (lia || by eapply (page_divides _ 32)).
Qed.

(** C10: the sandbox.  For a 32-bit memory that declares no maximum, and a static
    offset with [offset + size] at most one more than 2 GiB, the code of an access
    yields for every index an address whose accessed bytes all belong to that
    memory's own mapping: they are accessible below the (page-rounded) current
    length and fault above it.  Without a bound on [offset + size] this fails
    (C40), and with a declared maximum it may (C39). *)
Theorem memory_access_sandboxed {K} `{KernelLaws K} `{ClifLaws} `{TrapCodes}
    dbg pcc module offsets index d m k mem k' env x idx offset access_size vals
    (Hd : pm_get (memories module) index = Some d) (H32 : memory32 d) (Hnomax : md_maximum d = None)
    (Hm : make_memory dbg pcc module offsets index = Ok m)
    (Hmem : @allocate_memory K (PlaceholderAllocatorDontUse dbg) module d index k = (Ok mem, k'))
    (Hbase : gv_value (cl_base_gv m) = vmm_base (as_vmmemory_definition mem))
    (Hpage : te_page_size_align_log2 env <= 16) (Hoff : 0 <= offset < 2 ^ 32) (Hsz : 0 < access_size < 2 ^ 8)
    (Hreach : offset + access_size <= 2 ^ 31 + 1)
    (Hx : vals !! x = Some (32, idx)) (Hidx : 0 <= idx < 2 ^ 32) :
  exists v is_ a, emit (prepare_addr env m x access_size offset) vals = (Ok (Reachable (heap_flags m, x, v)), is_) /\
    outcome_at (run is_ vals) v = Some (64, a) /\
    forall b, a <= b < a + access_size ->
      prot_at k' b =
        Some (if b <? vmm_base (as_vmmemory_definition mem)
                       + align_up (vmm_current_length (as_vmmemory_definition mem)) host_page_size
              then PROT_RW else PROT_NONE).
Proof.
  destruct (make_memory32 _ _ _ _ _ _ _ Hd H32 Hm) as (Ht & Hb & Hg & Hp).
  destruct (allocate_memory32 _ _ _ _ _ _ _ H32 Hmem) as (mn & mx & Hnew & Hmn & Hmx).
  rewrite Hnomax in Hmx. subst mx. pose proof (m32_valid _ H32) as Hv. pose proof (mt_min _ Hv) as [Hm0 _].
  apply memory_try_new_spec in Hnew as (He & Hlen & Hle & Htot & Hprot); [|lia].
  rewrite (reservation32 (K:=K)) in Htot by done.
  assert (Hres : 2 ^ 32 + 2 ^ 31 <= mm_len (mem_mmap mem)).
  { rewrite Htot. pose proof page_pos. destruct (align_up_spec (2 ^ 31) host_page_size) as ([? _] & _); lia. }
  pose proof (ex_ptr _ _ _ He) as [Hptr _]. pose proof (ex_top _ _ _ He) as Htop.
  destruct (access32 env m x idx offset access_size vals) as (v & is_ & Hem & Hs); try done; try lia.
  cbn [as_vmmemory_definition vmm_base vmm_current_length] in Hbase |- *. rewrite Hlen.
  rewrite Hbase, wrap_small in Hs by lia. eexists v, is_, _. split; [exact Hem|].
  split; [exact Hs|]. intros b Hbr. rewrite Hprot.
  destruct (Z.ltb_spec b (mm_ptr (mem_mmap mem) + align_up mn host_page_size)).
  - by rewrite (proj2 (in_range_spec _ _ _)) by lia.
  - destruct (in_range _ (align_up mn host_page_size) b) eqn:Hi; [apply in_range_spec in Hi; lia|].
    by rewrite (proj2 (in_range_spec _ _ _)) by lia.
Qed.

(** The memory of [mem_module mem_desc] mapped by the log kernel at [65536]. *)
Lemma memory_access_sandboxed_witness :
  exists m mem k' v is_ a,
    make_memory true false (mem_module mem_desc) (layout_of (mem_module mem_desc)) 0 = Ok m /\
    @allocate_memory LogKernel (PlaceholderAllocatorDontUse true) (mem_module mem_desc) mem_desc 0 initial_kernel
      = (Ok mem, k') /\
    emit (prepare_addr target m 0%nat 4 8) [(32, 4294967295)] = (Ok (Reachable (heap_flags m, 0%nat, v)), is_) /\
    @outcome_at (@run (exec_sem (fun _ => 65536)) is_ [(32, 4294967295)]) v = Some (64, a) /\
    prot_at k' a = Some PROT_NONE.
Proof.
  destruct (make_memory true false (mem_module mem_desc) (layout_of (mem_module mem_desc)) 0) as [m| |] eqn:Hm;
    [|by vm_compute in Hm..].
  destruct (@allocate_memory LogKernel (PlaceholderAllocatorDontUse true) (mem_module mem_desc) mem_desc 0
    initial_kernel) as [[mem| |] k'] eqn:Hmem;
    [|apply (f_equal (is_ok ∘ fst)) in Hmem; by vm_compute in Hmem..].
  assert (Hb : vmm_base (as_vmmemory_definition mem) = 65536 /\ vmm_current_length (as_vmmemory_definition mem) = 65536)
    by (vm_compute in Hmem; injection Hmem as <- _; done).
  destruct Hb as [Hb Hl].
  assert (Hpre : 16 <= 16 /\ 0 <= 8 < 2 ^ 32 /\ 0 < 4 < 2 ^ 8 /\ 8 + 4 <= 2 ^ 31 + 1 /\ 0 <= 4294967295 < 2 ^ 32) by lia.
  destruct (@memory_access_sandboxed LogKernel _ _ (exec_sem (fun _ => 65536)) (exec_laws _) _ true false
    (mem_module mem_desc) (layout_of (mem_module mem_desc)) 0 mem_desc m initial_kernel mem k' target 0%nat
    4294967295 8 4 [(32, 4294967295)] eq_refl mem_desc_32 eq_refl Hm Hmem (eq_sym Hb))
    as (v & is_ & a & He & Ha & Hp); [cbn; lia|lia|lia|lia|reflexivity|lia|].
  exists m, mem, k', v, is_, a. do 4 (split; [done|]).
  assert (a = 65536 + 4294967295 + 8).
  { vm_compute in Hm. injection Hm as <-. vm_compute in He. injection He as <- <-. vm_compute in Ha.
    injection Ha as <-. reflexivity. }
  rewrite Hp by lia. rewrite Hb, Hl. subst a. reflexivity.
Defined.

(** C39: a declared maximum breaks the sandbox: compiled code still assumes a
    bound of 4 GiB and elides the check, but the allocator reserves only the
    declared maximum plus the guard.  For every memory whose maximum is below
    2 GiB minus one host page, an unchecked one-byte load at the largest index
    is emitted without a trap and its address lies behind the memory's mapping. *)
Theorem declared_maximum_escapes {K} `{KernelLaws K} `{ClifLaws} `{TrapCodes}
    dbg pcc module offsets index d m k mem k' env x vals mx
    (Hd : pm_get (memories module) index = Some d) (H32 : memory32 d) (Hmax : md_maximum d = Some mx)
    (Hsmall : mx * 2 ^ 16 + 2 ^ 31 + host_page_size <= 2 ^ 32)
    (Hm : make_memory dbg pcc module offsets index = Ok m)
    (Hmem : @allocate_memory K (PlaceholderAllocatorDontUse dbg) module d index k = (Ok mem, k'))
    (Hbase : gv_value (cl_base_gv m) = vmm_base (as_vmmemory_definition mem))
    (Hroom : vmm_base (as_vmmemory_definition mem) + 2 ^ 32 <= 2 ^ 64)
    (Hpage : te_page_size_align_log2 env <= 16)
    (Hx : vals !! x = Some (32, 2 ^ 32 - 1)) :
  exists v is_ a, emit (prepare_addr env m x 1 0) vals = (Ok (Reachable (heap_flags m, x, v)), is_) /\
    outcome_at (run is_ vals) v = Some (64, a) /\
    mm_ptr (mem_mmap mem) + mm_len (mem_mmap mem) <= a /\
    prot_at k' a = prot_at k a.
Proof.
  destruct (make_memory32 _ _ _ _ _ _ _ Hd H32 Hm) as (Ht & Hb & Hg & Hp).
  destruct (allocate_memory32 _ _ _ _ _ _ _ H32 Hmem) as (mn & mx' & Hnew & Hmn & Hmx).
  rewrite Hmax in Hmx. subst mx'. pose proof (m32_valid _ H32) as Hv. pose proof (mt_min _ Hv) as [Hm0 _].
  pose proof (mt_max _ Hv mx Hmax) as [? ?].
  apply memory_try_new_spec in Hnew as (He & Hlen & Hle & Htot & Hprot); [|lia].
  rewrite (reservation32 (K:=K)) in Htot by done. pose proof page_pos as Hpp.
  destruct (align_up_spec (2 ^ 31) host_page_size) as ([? Hup] & _); [lia|lia|].
  assert (Hl : mm_len (mem_mmap mem) < 2 ^ 32) by lia.
  pose proof (ex_ptr _ _ _ He) as [Hptr _].
  destruct (access32 env m x (2 ^ 32 - 1) 0 1 vals) as (v & is_ & Hem & Hs); try done; try lia.
  cbn [as_vmmemory_definition vmm_base] in Hbase, Hroom.
  rewrite Hbase, wrap_small in Hs by lia. eexists v, is_, _.
  split; [exact Hem|]. split; [exact Hs|]. split; [lia|].
  apply (ex_frame _ _ _ He). destruct (in_range _ _ _) eqn:Hi; [|done]. apply in_range_spec in Hi. lia.
Qed.

Lemma max_desc_32 : memory32 example_memory_desc.
Proof.
  split; cbn; try done; [split; cbn; [by right|lia|intros mx [= <-]; lia]|].
  by intros mx [= <-].
Qed.

Lemma declared_maximum_escapes_witness :
  exists m mem k' v is_ a,
    make_memory true false (mem_module example_memory_desc) (layout_of (mem_module example_memory_desc)) 0 = Ok m /\
    @allocate_memory LogKernel (PlaceholderAllocatorDontUse true) (mem_module example_memory_desc)
      example_memory_desc 0 initial_kernel = (Ok mem, k') /\
    emit (prepare_addr target m 0%nat 1 0) [(32, 2 ^ 32 - 1)] = (Ok (Reachable (heap_flags m, 0%nat, v)), is_) /\
    @outcome_at (@run (exec_sem (fun _ => 65536)) is_ [(32, 2 ^ 32 - 1)]) v = Some (64, a) /\
    mm_ptr (mem_mmap mem) + mm_len (mem_mmap mem) <= a.
Proof.
  destruct (make_memory true false (mem_module example_memory_desc) (layout_of (mem_module example_memory_desc)) 0)
    as [m| |] eqn:Hm; [|by vm_compute in Hm..].
  destruct (@allocate_memory LogKernel (PlaceholderAllocatorDontUse true) (mem_module example_memory_desc)
    example_memory_desc 0 initial_kernel) as [[mem| |] k'] eqn:Hmem;
    [|apply (f_equal (is_ok ∘ fst)) in Hmem; by vm_compute in Hmem..].
  assert (Hb : vmm_base (as_vmmemory_definition mem) = 65536)
    by (vm_compute in Hmem; injection Hmem as <- _; done).
  destruct (@declared_maximum_escapes LogKernel _ _ (exec_sem (fun _ => 65536)) (exec_laws _) _ true false
    (mem_module example_memory_desc) (layout_of (mem_module example_memory_desc)) 0 example_memory_desc m
    initial_kernel mem k' target 0%nat [(32, 2 ^ 32 - 1)] 2 eq_refl max_desc_32 eq_refl)
    as (v & is_ & a & He & Ha & Hp & _);
    [vm_compute; congruence|done|done|by rewrite Hb|rewrite Hb; lia|cbn; lia|reflexivity|].
  exists m, mem, k', v, is_, a. done.
Defined.

(** ** Tables *)

(** Multiplication by the element size, however it is emitted. *)
Definition scale_insts (es : Z) (x : nat) : list inst :=
  if es =? 1 then [] else if is_power_of_two es then [I_ishl_imm x (trailing_zeros es)] else [I_imul_imm x es].

Lemma pow2_trailing es :
  is_power_of_two es = true -> es < 2 ^ 32 -> es = 2 ^ trailing_zeros es /\ 0 <= trailing_zeros es < 32.
Proof.
  unfold is_power_of_two, trailing_zeros. intros [Hpos%Z.ltb_lt Hl%Z.eqb_eq]%andb_true_iff Hlt.
  rewrite (proj2 (Z.eqb_neq es 0)) by lia.
  assert (Hneg : Z.land es (- es) = es).
  { replace (- es) with (Z.lnot (es - 1)) by (unfold Z.lnot; lia).
    apply Z.bits_inj'. intros n Hn. rewrite Z.land_spec, Z.lnot_spec by done.
    pose proof (f_equal (fun z => Z.testbit z n) Hl) as Hb. cbn in Hb. rewrite Z.land_spec, Z.bits_0 in Hb.
    by destruct (Z.testbit es n), (Z.testbit (es - 1) n). }
  rewrite Hneg. pose proof (Z.log2_spec es Hpos) as [Hlo Hhi].
  assert (Z.log2 es < 32) by (apply Z.log2_lt_pow2; lia). pose proof (Z.log2_nonneg es).
  split; [|lia]. destruct (Z.eq_dec es (2 ^ Z.log2 es)) as [|Hne]; [done|]. exfalso.
  assert (Hbit : Z.testbit (es - 1) (Z.log2 es) = true).
  { assert (Hlog : Z.log2 (es - 1) = Z.log2 es) by (apply Z.log2_unique; lia).
    rewrite <- Hlog. apply Z.bit_log2. lia. }
  pose proof (f_equal (fun z => Z.testbit z (Z.log2 es)) Hl) as Hb. cbn in Hb.
  rewrite Z.land_spec, Hbit, Z.bits_0, Z.bit_log2 in Hb by lia. done.
Qed.

(** The parts of the emitted code, when [n] values are defined: the check, the
    address computation, and where the address ends up. *)
Definition check_insts `{TrapCodes} (bound : Z) (x n : nat) (spectre : bool) : list inst :=
  [I_iconst I32_ty bound; I_icmp UnsignedGreaterThanOrEqual x n] ++
  (if spectre then [] else [I_trapnz (S n) TRAP_TABLE_OUT_OF_BOUNDS]).
Definition check_count (n : nat) (spectre : bool) : nat := if spectre then S (S n) else S (S (S n)).
Definition elem_insts (gv : GlobalValue) (es : Z) (x n : nat) : list inst :=
  [I_uextend I64_ty x; I_global_value gv] ++ scale_insts es n ++
  [I_iadd (S n) (if es =? 1 then n else S (S n))].
Definition elem_value (es : Z) (n : nat) : nat := if es =? 1 then S (S n) else S (S (S n)).

Lemma table_emit `{TrapCodes} t x spectre n :
  0 <= ct_bound t < 2 ^ 32 ->
  table_prepare_addr t x I32_ty I64_ty spectre (mkBuilder n []) =
  let n1 := check_count n spectre in
  let v := elem_value (ct_element_size t) n1 in
  let is_ := check_insts (ct_bound t) x n spectre ++ elem_insts (ct_base_gv t) (ct_element_size t) x n1 in
  if spectre
  then (Ok (S (S v), Some TRAP_TABLE_OUT_OF_BOUNDS),
        mkBuilder (S (S (S v))) (is_ ++ [I_iconst I64_ty 0; I_select_spectre_guard (S n) (S v) v]))
  else (Ok (v, None), mkBuilder (S v) is_).
Proof.
  intros Hb. unfold table_prepare_addr, mbind, sm_bind, ins, imm64, sm_lift.
  rewrite (proj2 (sfits_spec 64 _)) by lia.
  unfold elem_insts, scale_insts, elem_value, check_count, check_insts.
  destruct spectre; cbn; destruct (ct_element_size t =? 1); cbn; try reflexivity;
    destruct (is_power_of_two (ct_element_size t)); reflexivity.
Qed.

Section TableRun.
Context `{ClifLaws} `{TrapCodes}.

Lemma run_check bound x idx spectre vals :
  vals !! x = Some (32, idx) -> 0 <= bound < 2 ^ 32 ->
  if spectre || (idx <? bound)
  then exists e, run (check_insts bound x (length vals) spectre) vals = Done (vals ++ e) /\
         length (vals ++ e) = check_count (length vals) spectre /\
         (vals ++ e) !! S (length vals) = Some (8, if idx <? bound then 0 else 1)
  else run (check_insts bound x (length vals) spectre) vals = Trapped TRAP_TABLE_OUT_OF_BOUNDS.
Proof.
  intros Hx Hb. unfold check_insts, check_count. cbn [app].
  erewrite run_next by apply sem_iconst. cbn [bits]. rewrite wrap_small by lia.
  erewrite run_next by (eapply sem_icmp_uge; [by apply lookup_old|apply lookup_new]).
  assert (Hc : (if bound <=? idx then 1 else 0) = (if idx <? bound then 0 else 1))
    by (destruct (Z.leb_spec bound idx), (Z.ltb_spec idx bound); lia).
  rewrite Hc. assert (Hn : S (length vals) = length (vals ++ [(32, bound)])) by (by rewrite length_snoc).
  destruct spectre; cbn [orb run].
  - rewrite <- app_assoc. eexists. split; [done|]. rewrite app_assoc.
    split; [by rewrite !length_snoc|]. by rewrite Hn, lookup_new.
  - erewrite sem_trapnz by (rewrite Hn; apply lookup_new).
    destruct (idx <? bound); cbn [Z.eqb]; [|done]. rewrite <- !app_assoc. eexists. split; [done|].
    rewrite !app_assoc. split; [by rewrite !length_snoc|]. apply lookup_old. by rewrite Hn, lookup_new.
Qed.

(** The scaled index. *)
Lemma sem_scale env x idx es :
  env !! x = Some (64, idx) -> 0 < es < 2 ^ 32 -> es <> 1 ->
  exists i, scale_insts es x = [i] /\ sem env i = Next (64, wrap 64 (idx * es)).
Proof.
  intros Hx Hes Hne. unfold scale_insts. rewrite (proj2 (Z.eqb_neq es 1)) by done.
  destruct (is_power_of_two es) eqn:Hp2; eexists; (split; [done|]).
  - destruct (pow2_trailing es Hp2) as [Heq ?]; [lia|].
    erewrite sem_ishl_imm by (apply Hx || lia). rewrite Z.shiftl_mul_pow2 by lia. by rewrite <- Heq.
  - by erewrite sem_imul_imm by apply Hx.
Qed.

Lemma run_elem gv es x idx env :
  env !! x = Some (32, idx) -> 0 < es < 2 ^ 32 ->
  exists e, run (elem_insts gv es x (length env)) env = Done (env ++ e) /\
    length (env ++ e) = S (elem_value es (length env)) /\
    (env ++ e) !! elem_value es (length env) = Some (64, wrap 64 (gv_value gv + idx * es)).
Proof.
  intros Hx Hes. unfold elem_insts, elem_value. cbn [app].
  erewrite run_next by (eapply sem_uextend; [done|cbn; lia]).
  erewrite run_next by apply sem_global_value. cbn [bits].
  assert (Hn1 : S (length env) = length (env ++ [(64, idx)])) by (by rewrite length_snoc).
  assert (Hi : (env ++ [(64, idx)]) !! length env = Some (64, idx)) by apply lookup_new.
  destruct (Z.eqb_spec es 1) as [->|Hne].
  - cbn [scale_insts Z.eqb Pos.eqb app].
    erewrite run_next by (eapply sem_iadd; [rewrite Hn1; apply lookup_new|apply lookup_old, Hi]).
    cbn [run]. rewrite <- !app_assoc. eexists. split; [done|]. rewrite !app_assoc.
    rewrite !length_snoc. split; [done|]. rewrite Z.mul_1_r.
    rewrite Hn1, <- (length_snoc (env ++ [(64, idx)]) (64, gv_value gv)). apply lookup_new.
  - destruct (sem_scale ((env ++ [(64, idx)]) ++ [(64, gv_value gv)]) (length env) idx es) as (i & -> & Hs);
      [by apply lookup_old|done|done|].
    cbn [app]. erewrite run_next by exact Hs.
    assert (Hn2 : S (S (length env)) = length ((env ++ [(64, idx)]) ++ [(64, gv_value gv)]))
      by (by rewrite !length_snoc).
    erewrite run_next
      by (eapply sem_iadd; [apply lookup_old; rewrite Hn1; apply lookup_new|rewrite Hn2; apply lookup_new]).
    cbn [run]. rewrite <- !app_assoc. eexists. split; [done|]. rewrite !app_assoc, !length_snoc. split; [done|].
    rewrite Hn2, <- (length_snoc _ (64, wrap 64 (idx * es))), lookup_new. do 2 f_equal. unfold wrap.
    by rewrite Zplus_mod_idemp_r.
Qed.
End TableRun.

(** C28: the code emitted for a table access yields the address of the element
    for every index below the bound; for any other it traps, or yields the null
    address with the table trap attached to the load when Spectre mitigations
    are on.  This holds for every element size, whether the offset is emitted
    as a shift or as a multiplication. *)
Theorem table_access_correct `{ClifLaws} `{TrapCodes} t x idx spectre vals
    (Hx : vals !! x = Some (32, idx)) (Hbound : 0 <= ct_bound t < 2 ^ 32)
    (Hes : 0 < ct_element_size t < 2 ^ 32) :
  exists v code is_, emit (table_prepare_addr t x I32_ty I64_ty spectre) vals = (Ok (v, code), is_) /\
    if idx <? ct_bound t
    then outcome_at (run is_ vals) v = Some (64, wrap 64 (gv_value (ct_base_gv t) + idx * ct_element_size t))
    else if spectre
         then outcome_at (run is_ vals) v = Some (64, 0) /\ code = Some TRAP_TABLE_OUT_OF_BOUNDS
         else run is_ vals = Trapped TRAP_TABLE_OUT_OF_BOUNDS.
Proof.
  unfold emit. rewrite table_emit by done. cbn zeta.
  pose proof (run_check (ct_bound t) x idx spectre vals Hx Hbound) as Hc.
  destruct spectre; cbn [orb] in Hc; eexists _, _, _; (split; [done|]); cbn [fb_insts].
  - destruct Hc as (e & Hr & Hl & Hcv).
    destruct (run_elem (ct_base_gv t) (ct_element_size t) x idx (vals ++ e)) as (e' & Hr' & Hl' & Hv);
      [by apply lookup_app_l_Some|done|]. rewrite Hl in Hr', Hl', Hv.
    rewrite !run_app, Hr, Hr'. erewrite run_next by apply sem_iconst. cbn [bits].
    erewrite run_next by
      (rewrite <- Hl'; eapply sem_select;
       [by apply lookup_old, lookup_app_l_Some|apply lookup_new|by apply lookup_old]).
    cbn [run outcome_at]. rewrite <- Hl', <- (length_snoc _ (64, wrap 64 0)), lookup_new.
    by destruct (idx <? ct_bound t).
  - destruct (idx <? ct_bound t); [|by rewrite run_app, Hc].
    destruct Hc as (e & Hr & Hl & _).
    destruct (run_elem (ct_base_gv t) (ct_element_size t) x idx (vals ++ e)) as (e' & Hr' & Hl' & Hv);
      [by apply lookup_app_l_Some|done|]. rewrite Hl in Hr', Hl', Hv. by rewrite run_app, Hr, Hr'.
Qed.

Lemma table_access_correct_witness :
  exists v code is_, emit (table_prepare_addr (mkCraneliftTable GV_VMContext 10 8) 0%nat I32_ty I64_ty true)
      [(32, 10)] = (Ok (v, code), is_) /\
    @outcome_at (@run (exec_sem (fun _ => 4096)) is_ [(32, 10)]) v = Some (64, 0) /\
    code = Some TRAP_TABLE_OUT_OF_BOUNDS.
Proof.
  apply (@table_access_correct (exec_sem (fun _ => 4096)) (exec_laws _) _ (mkCraneliftTable GV_VMContext 10 8)
    0%nat 10 true [(32, 10)]); [reflexivity|cbn; lia|cbn; lia].
Defined.
